(* ===== verification/_CoqProject ===== *)
-Q . S2P
Prelude.v
RustStr.v
StrFacts.v
Capability.v
DeviceCore.v
Crates.v
ChainAbi.v
CapabilityVerify.v
ObjectStore.v
LocalStore.v
ObjectClient.v
StorageWorker.v
Sql.v
AuthNonces.v
RateLimits.v
PairingRequests.v
EmailTokens.v
OAuthPending.v
AgentDelegations.v
IdentityLinks.v
CapMint.v
MintVerify.v
Breaker.v
GateKeys.v
GateMeter.v
Json.v
SseUsage.v
Relay.v
RelayLedger.v
Checkpoint.v
Merkle.v
AuditWorker.v
AuditCbor.v
Archive.v
LegacyTx.v
Abi.v
Numerals.v
Calldata.v
Erc4337.v
UserOp.v
AuditView.v
U256.v
Eip712.v
Civil.v
ClearSigning.v
Catalog.v
Cron.v
SessionScope.v
Schedule.v
AppTemplate.v
AppCompile.v
Channels.v
ChannelFold.v
Audience.v
F64.v
Utf8.v
Classify.v
Router.v
Asks.v
Binding.v
FeedHop.v
Turn.v
TurnSafety.v
Emitter.v
Vault.v
MemoryWorker.v
ChannelWorker.v
FeedOrder.v
Outbound.v
ChannelFeed.v
Delivery.v
MemorySafety.v
DataAudit.v
DelegateStream.v
DelegateLoop.v
DelegateTurn.v
Publisher.v
DelegateSafety.v
DelegateDelivery.v
Wake.v
