(* ===== verification/Prelude.v ===== *)
(** * Verification library for the Agent Terrier core

    Agent Terrier gives AI agents custody-free access to a person's credentials,
    memory, channels and models.  A broker signs short-lived capabilities; a device
    proves possession of its key, or delegates to a sandbox key; workers check a
    capability against the device registry on a chain before they touch an object;
    a relay meters model use against budgets; every operation leaves an audit
    envelope whose hash is anchored on the chain in Merkle batches.  This library
    models the decision-making core of those parts, as the Rust code of [crates/]
    has it, and proves what each part promises the others.

    ** The parts and how they meet

    A request to a store carries a capability ([Capability], from
    [agentkeys-protocol]).  [LocalStore.execute] checks, in the code's order: the
    broker's signature, the proof of possession, the class and the freshness
    ([CapabilityVerify]), the key against the authorization table
    ([ObjectStore.authorize_key]), the device, the grant and the key epoch on the
    chain ([CapabilityVerify] over [ChainAbi]), and then runs one statement on the
    objects table, after checking freshness and possession again at commit.
    [ObjectClient] is the other end: it believes no reply it cannot check, and is
    proved against an interface of services that [LocalStore] implements.
    [StorageWorker] runs its loops (teardown, listing) over that interface.  The
    capability comes from [CapMint], whose checks are the broker's own code;
    [MintVerify] shows that they and the workers' agree.

    The broker hands out what may be used once: nonces, email links, OAuth flows,
    pairing codes and tokens, delegation signatures.  Its stores are tables of
    [Sql]; that each ticket is won at most once is one law, [Sql.OneShot], that the
    stores discharge.  [IdentityLinks] ties sign-ins to a master account and keeps a
    restricted deployment to its allow-list.  The relay resolves bearer secrets
    ([GateKeys]), applies budgets and counts ([GateMeter]), and carries a call from
    the gates to the meter and the audit row on every path ([Relay], with the usage
    of a streamed answer read by [SseUsage]); [RelayLedger] runs calls of all kinds
    against one state.  [Checkpoint] is the delegate's task that restores a runtime
    home and an engine workspace before anything is saved over them; [SessionScope]
    decides which session a trigger of a feed runs in and what of the feed it may
    see; [AppTemplate] checks a template and [AppCompile] turns it and the owner's
    choices into grants; [Schedule] fires the turns it plans in [Cron] notation.  The audit
    path is [AuditCbor] (envelope to bytes and hash), [Archive] (the durable store of
    the bytes), [AuditWorker] (queues and batches) and [Merkle] (roots and proofs for
    the contract).  [LegacyTx] carries transactions to the chain; [Catalog] tells
    sensitive categories from safe ones for automatic grants, and [Classify] holds what a
    classifier says against it.

    The owner's account signs batches of calls.  [Erc4337] builds their calldata, [UserOp]
    the operation around it and its hash; [AuditView] is how the owner reads calldata
    afterwards, [ClearSigning] what is shown before typed data is signed, over the digests
    of [Eip712].  The household's contact gate takes a member's message to an application:
    [Turn] gives it a channel ([Router], [Asks]), passes it through the audience decision
    ([Audience]) over the channel documents ([Channels]), publishes it ([FeedHop]) and
    answers; [Binding] is how contacts come to be bound and what the console writes.

    Behind the object service stand the storage workers: credentials and configuration
    ([Vault]), memory ([MemoryWorker]) and channels ([ChannelWorker]).  Each verifies the
    capability, works on the service as a client, and writes an envelope to the archive
    through [Emitter] before it answers; [DataAudit] runs them over [Archive].  A channel
    is a feed of sealed events in the order of their ids ([FeedOrder], [ChannelFeed]);
    [Outbound] is the gate's subscriber that takes what the applications publish back to
    the phones, and [Delivery] runs publishers, worker and subscriber together.  At the
    other end a delegate polls the same feeds ([DelegateLoop]), turns each event into at
    most one turn of its agent ([DelegateTurn], which also reads media, with the streamed
    reply of [DelegateStream]) and publishes the answer on the feed the event came from;
    of the apps of a shared channel only the one meant takes an event; [Publisher] keeps
    the capabilities its publishing and reading use.  A delegate that sleeps is woken by
    the worker through the broker ([Wake]), with the stretch of the feed it is to replay.
    [DelegateDelivery] runs publishers, worker and poller together.

    ** Files and the code they model

    - [Prelude]: results and [?], machine integers, ordered maps, tactics, hint
      databases, list lemmas.  [RustStr], [StrFacts]: the string functions of the
      Rust standard library with [to_be_bytes], and the interface of the [hex] crate.
      [Crates]: the interfaces of [sha2], [base64], [p256] and of
      the canonical JSON.
    - [Capability]: [agentkeys-protocol/src/capability.rs] and identifiers.
    - [DeviceCore]: [agentkeys-device-core/src/lib.rs], [device_crypto.rs]; class
      [Crypto] is [sha3] and [k256].
    - [ChainAbi]: [agentkeys-protocol/src/chain_abi.rs].
    - [CapabilityVerify]: [agentkeys-core/src/{capability_verify,registry}.rs]; the
      RPC transport is the parameter [rpc].
    - [ObjectStore]: [agentkeys-protocol/src/object_store.rs].
    - [LocalStore]: [agentkeys-local-store/src/lib.rs]; the [objects] table is a map.
      With it the cursors over the keys of a map that the loops share.
    - [ObjectClient]: [agentkeys-core/src/object_store.rs]; classes [ObjectService]
      and [HonestService], with the local store as instance.
    - [StorageWorker]: [agentkeys-worker-creds/src/{storage_worker,handlers,envelope,
      errors}.rs] and [agentkeys-web-core/src/crypto.rs]; class [Aes256Gcm].
    - [Sql]: what the broker's SQLite statements do, and single use as an interface.
    - [AuthNonces], [RateLimits], [PairingRequests], [EmailTokens], [OAuthPending],
      [AgentDelegations]: the stores of [agentkeys-broker-server/src/storage/].
    - [IdentityLinks]: [agentkeys-broker-server/src/{login_access,auth}.rs],
      [jwt/verify.rs], [storage/identity_links.rs] and the wallet handlers
      [handlers/wallet/]; class [Jwt] is the token library.
    - [CapMint]: [agentkeys-broker-server/src/handlers/cap.rs] and [chain_config.rs];
      class [CapSigner] is the signing half of [p256].  [MintVerify]: the agreement of
      [CapMint.mint_cap] with [StorageWorker.verify_authority].
    - [Breaker]: [agentkeys-broker-server/src/plugins/audit/breaker.rs].
    - [GateKeys], [GateMeter]: [agentkeys-gate/src/{keys,config,error,meter,openai}.rs],
      the outcomes of [agentkeys-core/src/protected_file.rs], and the budget checks
      of [agentkeys-gate/src/relay.rs].
    - [Json]: the values of [serde_json] and its reader and writer as an interface.
    - [SseUsage]: the usage scanner of [agentkeys-gate/src/openai.rs].
    - [Relay], [RelayLedger]: the calls of [agentkeys-gate/src/{relay,server,auth,audit,
      refusal,upstream,speech}.rs]; the upstream services answer as a function.
    - [Checkpoint]: [agentkeys-daemon/src/checkpoint.rs], with the errors of
      [agentkeys-backend-client/src/client.rs].
    - [SessionScope]: [agentkeys-protocol/src/{card,session_window}.rs] and the channel
      events of the same crate, [agentkeys-daemon/src/session_scope.rs].
    - [Cron]: the cron grammar and words of [agentkeys-protocol/src/app_template.rs];
      [Schedule]: [agentkeys-daemon/src/schedule.rs] and the guard of
      [app_runtime.rs]; class [Chrono] is the calendar.
    - [AppTemplate], [AppCompile]: the rest of [app_template.rs], with
      [capability_catalog.rs] and the builders of service names of [lib.rs]; in
      [AppCompile] the parts of the compiler are compared with [Effect]s that add up.
    - [Merkle], [AuditWorker]: [agentkeys-worker-audit/src/{merkle,state}.rs], with
      [verifyEntryInRoot] of [agentkeys-chain/src/CredentialAudit.sol].
    - [AuditCbor]: [agentkeys-web-core/src/audit/{mod,cbor}.rs]; class [Ciborium].
    - [Archive]: [agentkeys-worker-audit/src/archive.rs] and [canonical_envelope] of
      [handlers.rs].
    - [LegacyTx]: [agentkeys-bundler/src/legacy_tx.rs].
    - [Catalog]: [agentkeys-catalog/src/lib.rs].  [Classify]: [validate.rs],
      [policy_intent.rs], [compile.rs] of that crate and the rules and routes of
      [agentkeys-worker-classify]; class [ClassifyJson] is the codec of its records.
    - [Abi]: contract ABI encoding, the reference of the next three.  [Numerals]: digits
      to integers.  [Erc4337], [UserOp]: [agentkeys-core/src/erc4337.rs].
    - [Calldata], [AuditView]: [agentkeys-web-core/src/audit/calldata.rs].
    - [U256], [Eip712], [ClearSigning]: [agentkeys-core/src/clear_signing/]; [Civil]: its
      dates and those of the broker's [wallet_sig.rs].
    - [Channels], [ChannelFold]: [agentkeys-protocol/src/channel_doc.rs] and the contact
      registry of [lib.rs], with the folding of registries written before documents.
    - [F64], [Utf8]: floating-point numbers and Unicode text of the Rust standard
      library; class [Alphabet] says which characters are alphanumeric.
    - [Audience], [Router], [Asks], [Binding], [FeedHop], [Turn]: the contact gate
      [agentkeys-worker-channel-weixin/src/]: [l3.rs]; [jev.rs], [router.rs],
      [transport.rs]; the asks of [jev.rs] with [state.rs] and [media.rs]; [registry.rs],
      [admin.rs], [bots.rs]; [device.rs] and the sending half of [relay.rs];
      [process_turn] of [relay.rs].  [TurnSafety]: the theorems about a turn.
    - [Emitter]: [agentkeys-web-core/src/audit/{op_kind,bodies,client}.rs],
      [agentkeys-core/src/audit/client.rs], [agentkeys-worker-creds/src/audit.rs].
    - [Vault], [MemoryWorker], [ChannelWorker]: the handlers of [agentkeys-worker-creds],
      [-config], [-memory] and [-channel].  [FeedOrder]: event ids compared as texts.
      [ChannelFeed]: a feed over an honest service.  [MemorySafety]: conditional writes.
      [DataAudit]: every route over the archive.
    - [Outbound]: [outbound.rs] of the contact gate with the cursors of [device.rs] and the
      reply tokens of [ilink_loop.rs].  [Delivery]: the feed from a publish to the phones.
    - [Wake]: [agentkeys-broker-server/src/storage/spawn_contexts.rs] and
      [handlers/wake.rs]; a broker's history is a list of [Step]s.
    - [DelegateStream], [DelegateLoop], [DelegateTurn]: [agentkeys-daemon/src/chat_loop.rs]:
      the streamed reply; feeds, session and pollers ([poll_feed], one pass of its loop is a
      round, cut where the worker is asked); [handle_event] and its legs.  The feeds are
      [app_runtime.rs]'s, the notes [lifecycle.rs]'s.  What is outside is a [World] whose
      answers may depend on everything done before.  [DelegateTurn] holds [perception.rs]
      too, [DelegateLoop] [mark_default_apps] of [apps.rs]; [Publisher] is the [Publisher]
      of [chat_loop.rs].  [DelegateSafety],
      [DelegateDelivery]: the theorems about turns and about the feed as it is handed over.

    ** What the theorems show

    - Authorization: a stored object changes only through a fully authorized
      request; authorized keys stay in the owner's or actor's space; actors cannot
      write each other's keys; delegates write only what they were given; scopes
      mean what their signed bytes say; proofs of possession are sound and complete.
    - Minting: behind every minted capability stand the session its operation takes, an
      active device and the operator's grant; over a chain that answers as it did, a
      worker accepts it until time runs out.
    - Storage: conditional writes lose no update; published objects are immutable;
      the client believes no forged reply; teardown and listing end and are exact;
      envelopes open only for their actor and service.
    - Single use and limits: every ticket of the broker is won at most once per
      issue, under any interleaving; rate limits allow exactly the first calls of a
      window; the breaker's state machine holds over interleaved callers.
    - The relay: the keys file refines the store in memory across restarts and
      failed writes; one live secret for each id; budgets bound use up to the calls
      in flight; totals and breakdowns agree; every counter is the sum over the audit
      rows of the completed calls, those appended and those the auditor refused; each way a call ends, with what it leaves behind;
      the scanner reads the usage of the whole stream however it is cut.
    - Sign-in: an identity keeps its first master while requests are served one at a
      time; behind an allow-list only its addresses and their wallets pass.
    - The delegate's checkpoint: no process saves over a stored checkpoint before a
      restore pass of its own is over (for the workspace, or an earlier one in the same
      sandbox), and a held engine is let go.
    - Conversations: the window rebuilt for one party of a feed holds nothing of the
      others.  Schedules: an expression fires exactly as it is written, but for [N/1] and
      steps that wrap; an entry runs once for each minute it is due, as long as looks
      come every minute.  An install grants exactly what template and choices stand for,
      and refuses exactly the rest; an endpoint gets the mirror of its app and, on a feed
      used one way, the other direction too.
    - Signing: calldata is the ABI encoding of the call, reads back to it, and is what the
      audit view shows; hashes of operations and of typed data bind every field up to
      collisions; an amount given in decimal is shown as the number signed.
    - The contact gate: a message reaches only a channel its bound, unhurried sender
      speaks on and an app bound there, whatever the models answer; a stranger reaches
      nothing; a receipt means delivery; every message gets an outcome, no turn panics;
      questions asked back keep their messages in order; a bind goes to the claimant, with
      the rows granted; the registry keeps its policy in memory and in the file, restores
      of sound registries and reloads included; what comes back down a feed is handled in
      order and once, as long as publishes are served one after another, and sent to
      nobody else.
    - The delegate: through lost polls, dead capabilities and restarts it is handed the
      feed itself in order, as long as publishes are served one after another, and each
      event once where no wake replays; of the apps of a channel, their flags marked from
      its document, exactly the one meant takes an event; its turn touches no other feed
      and answers a message once, with what the agent said; a streamed reply is told in order and whole.  Its publisher uses a capability only on
      the feed and for the direction it was given for.  A sleeping one is woken with a
      window that holds the event, unless an earlier wake was for a much later one, and by
      one creation at a time while each ends in time.
    - Classification: an output that passes the validators decides nothing, claims nothing
      below the bundled tiers and abstains when it must; what the rules themselves write
      passes.
    - The workers: a conditional write replaces the version that was read; an answer under
      receipt has its envelope in the archive for good, on every route that writes one
      (listing credentials and listing, reading and deleting inbox notes write none).
    - Audit and chain: envelopes round-trip and hash by content; the archive serves
      what it acknowledged, nothing else, and lists each hash once; batches lose and
      repeat nothing while files can be written; only leaves of a batch verify;
      records and transactions decode to what was encoded.

    ** Conventions, bounds and fuel

    Integers are [Z], with the width in the operation: [u64_add] wraps, as a release
    build does, [u64_saturating_sub] and the like saturate.  A clock is an argument,
    a separate one for each time the code reads it.  Errors are values.  Shared
    state behind a lock is passed explicitly, and concurrency is the interleaving of
    the locked sections: a list of operations, or a step relation ([Breaker],
    [GateMeter]).  Fuel appears where the code loops: in [StorageWorker] the number
    of keys under the prefix is enough, in [Archive] one page more than there are
    rows, in [Merkle] the length of the level, in [CapabilityVerify.eth_call] the
    code's own five attempts, in [CapMint.broker_eth_call] four, in [Checkpoint.get_workspace] and [Schedule.run_turn]
    its four, in [Cron.values] one more than the last value, in [Eip712] one more
    than the number of types and the height of the value, in [ClearSigning] the length of
    the template, in [ChannelWorker] the keys behind the cursor (one page when no tail is
    asked for); theorems show that it suffices.  The loop that looks for a free bind code
    ([Binding.mint_free_code]) need not end; there [None] stands for a loop still running.
    In [Router], [Asks], [Turn] and [ClearSigning] a [None] that no other reading explains is a
    panic.  Collisions of a hash are never assumed away in general: a theorem
    that needs it says which strings must not collide.

    ** What is not modelled

    Network and file I/O, HTTP routing, JSON text, and SQLite itself (a statement is
    its effect on the rows; an I/O error is an outcome the caller handles).  Of the
    crates: the command line, runtime, memory engines and web console; of the
    contact gate the vendor protocols and the console's read-only views (a turn runs
    alone, against the registry as it was when it began, and a restart falls between two
    turns of a subscriber: one killed in the middle of a page handles its beginning again); of the daemon everything but the checkpoint task, the session scopes,
    the schedules and the chat loop, and of the loop the reading of the environment, the
    credential's bootstrap, the poll of the bindings' anchor and
    the bound of the queue between pollers and dispatcher (a turn runs alone, a poller whose
    dispatcher is gone is not followed further); of the relay the report of the decision server, the list of voices and the admin routes; of the
    broker, its ceremonies (accept, spawn, revoke), wallets and plugins.
    Text beyond ASCII keeps its bytes, also where the code changes the case of letters. *)
From Stdlib Require Export Ascii String.
From stdpp Require Export base gmap strings list sorting.
From Stdlib Require Export ZArith Lia.

(** ** Results: Rust's [Result<A, E>] *)

Inductive result (E A : Type) : Type :=
| Ok (a : A)
| Err (e : E).
Arguments Ok {E A} _.
Arguments Err {E A} _.

Declare Scope terrier_scope.
Delimit Scope terrier_scope with terrier.

(** The [?] operator: bind the payload or return the error. *)
Notation "'let?' p := r 'in' k" :=
  (match r with Ok p => k | Err err => Err err end)
  (at level 10, p strict pattern, r at level 99, k at level 200,
   only parsing) : terrier_scope.
(** [if c { return Err(e) }; k] *)
Notation "'guard!' c 'else' e ';;' k" :=
  (if c then k else Err e)
  (at level 10, c at level 99, e at level 99, k at level 200,
   only parsing) : terrier_scope.
Open Scope terrier_scope.

Definition map_err {E F A} (f : E -> F) (r : result E A) : result F A :=
  match r with Ok a => Ok a | Err e => Err (f e) end.

Definition ok_or {E A} (e : E) (o : option A) : result E A :=
  match o with Some a => Ok a | None => Err e end.

Definition is_ok {E A} (r : result E A) : bool :=
  match r with Ok _ => true | Err _ => false end.

Definition is_some {A} (o : option A) : bool :=
  match o with Some _ => true | None => false end.

(** [v.is_empty()] *)
Definition is_nil {A} (l : list A) : bool := match l with [] => true | _ => false end.

Definition is_none {A} (o : option A) : bool := negb (is_some o).

(** [iter.map(f).collect::<Result<Vec<_>, _>>()], and a loop whose body ends in [?]. *)
Fixpoint try_map {E A B} (f : A -> result E B) (l : list A) : result E (list B) :=
  match l with
  | [] => Ok []
  | x :: l => let? y := f x in let? ys := try_map f l in Ok (y :: ys)
  end.

(** Counting: one for a true boolean. *)
Definition b2n (b : bool) : nat := if b then 1 else 0.

(** ** Machine integers

    Values are carried as [Z]; the width is in the operation. *)
Section MachineIntegers.
Local Open Scope Z_scope.

Definition u64_max : Z := 2 ^ 64 - 1.
Definition i64_max : Z := 2 ^ 63 - 1.
Definition i64_min : Z := - 2 ^ 63.

(** Two's complement wrap-around of a release build. *)
Definition wrap_u64 (z : Z) : Z := z mod 2 ^ 64.
Definition wrap_i64 (z : Z) : Z := (z + 2 ^ 63) mod 2 ^ 64 - 2 ^ 63.

Definition u64_add (a b : Z) : Z := wrap_u64 (a + b).
Definition u64_saturating_sub (a b : Z) : Z := Z.max 0 (a - b).
Definition i64_sub (a b : Z) : Z := wrap_i64 (a - b).
Definition i64_saturating_sub (a b : Z) : Z :=
  Z.max i64_min (Z.min i64_max (a - b)).
Definition u64_saturating_add (a b : Z) : Z := Z.min (2 ^ 64 - 1) (a + b).
Definition u32_saturating_add (a b : Z) : Z := Z.min (2 ^ 32 - 1) (a + b).
Definition u64_saturating_mul (a b : Z) : Z := Z.min (2 ^ 64 - 1) (a * b).

Definition is_u64 (z : Z) : Prop := 0 <= z <= u64_max.
Definition is_i64 (z : Z) : Prop := i64_min <= z <= i64_max.
End MachineIntegers.

(** ** Ordered maps *)

(** Iteration over a [BTreeMap]: in the order of the keys. *)
Definition entry_le {A} (x y : string * A) : Prop := String.leb x.1 y.1 = true.
#[export] Instance entry_le_dec {A} (x y : string * A) : Decision (entry_le x y).
Proof. unfold entry_le. apply _. Defined.

Definition in_key_order {A} (m : gmap string A) : list (string * A) :=
  merge_sort entry_le (map_to_list m).

(** ** Tactics *)

(** Case analysis on every match of the goal or of the hypotheses, with the
    resulting equations simplified away. *)
Ltac inv_res :=
  repeat (case_match || simplify_eq/=).

Ltac split_and_all := repeat match goal with |- _ /\ _ => split end.

(** Turn boolean tests over [Z], [nat] and connectives into propositions. *)
Ltac reflect_bools :=
  repeat match goal with
  | H : (_ && _)%bool = true |- _ => apply andb_true_iff in H as [? ?]
  | H : (_ || _)%bool = false |- _ => apply orb_false_iff in H as [? ?]
  | H : (_ || _)%bool = true |- _ => apply orb_true_iff in H
  | H : negb _ = true |- _ => apply negb_true_iff in H
  | H : negb _ = false |- _ => apply negb_false_iff in H
  | H : (_ <? _)%Z = true |- _ => apply Z.ltb_lt in H
  | H : (_ <? _)%Z = false |- _ => apply Z.ltb_ge in H
  | H : (_ <=? _)%Z = true |- _ => apply Z.leb_le in H
  | H : (_ <=? _)%Z = false |- _ => apply Z.leb_gt in H
  | H : (_ =? _)%Z = true |- _ => apply Z.eqb_eq in H
  | H : (_ =? _)%Z = false |- _ => apply Z.eqb_neq in H
  | H : (_ <? _)%nat = true |- _ => apply Nat.ltb_lt in H
  | H : (_ <? _)%nat = false |- _ => apply Nat.ltb_ge in H
  | H : (_ =? _)%nat = true |- _ => apply Nat.eqb_eq in H
  | H : (_ =? _)%nat = false |- _ => apply Nat.eqb_neq in H
  | H : String.eqb _ _ = true |- _ => apply String.eqb_eq in H
  | H : String.eqb _ _ = false |- _ => apply String.eqb_neq in H
  | H : bool_decide _ = true |- _ => apply bool_decide_eq_true in H
  | H : bool_decide _ = false |- _ => apply bool_decide_eq_false in H
  end.

(** ** Hint databases *)
Create HintDb terrier discriminated.
Create Rewrite HintDb terrier_rw.
Create Rewrite HintDb terrier_ok.

(** ** Shared lemmas *)

Lemma let_ok {E A B} (r : result E A) (k : A -> result E B) (b : B) :
  (let? x := r in k x) = Ok b <-> exists a, r = Ok a /\ k a = Ok b.
Proof. destruct r; naive_solver. Qed.

Lemma guard_ok {E B} (c : bool) (e : E) (k : result E B) (b : B) :
  (guard! c else e ;; k) = Ok b <-> c = true /\ k = Ok b.
Proof. destruct c; naive_solver. Qed.

Lemma map_err_ok {E F A} (f : E -> F) (r : result E A) a :
  map_err f r = Ok a <-> r = Ok a.
Proof. destruct r; naive_solver. Qed.

Lemma ok_or_ok {E A} (e : E) (o : option A) a : ok_or e o = Ok a <-> o = Some a.
Proof. destruct o; naive_solver. Qed.

Lemma let_err {E A B} (r : result E A) (k : A -> result E B) (e : E) :
  (let? x := r in k x) = Err e <-> r = Err e \/ exists a, r = Ok a /\ k a = Err e.
Proof. destruct r; naive_solver. Qed.

Lemma guard_err {E B} (c : bool) (e' : E) (k : result E B) (e : E) :
  (guard! c else e' ;; k) = Err e <-> c = false /\ e' = e \/ c = true /\ k = Err e.
Proof. destruct c; naive_solver. Qed.

Lemma map_err_err {E F A} (f : E -> F) (r : result E A) e :
  map_err f r = Err e <-> exists e', r = Err e' /\ f e' = e.
Proof. destruct r; naive_solver. Qed.

Lemma ok_or_err {E A} (e : E) (o : option A) e' : ok_or e o = Err e' <-> o = None /\ e = e'.
Proof. destruct o; naive_solver. Qed.

#[export] Hint Rewrite @let_ok @guard_ok @map_err_ok @ok_or_ok : terrier_ok.

Lemma is_some_true {A} (o : option A) : is_some o = true <-> exists a, o = Some a.
Proof. destruct o; naive_solver. Qed.

Lemma is_none_true {A} (o : option A) : is_none o = true <-> o = None.
Proof. destruct o; naive_solver. Qed.

Lemma wrap_u64_small z : is_u64 z -> wrap_u64 z = z.
Proof. unfold is_u64, u64_max, wrap_u64. intros. apply Z.mod_small. lia. Qed.

Lemma wrap_i64_small z : is_i64 z -> wrap_i64 z = z.
Proof.
  unfold is_i64, i64_min, i64_max, wrap_i64. intros.
  rewrite Z.mod_small; lia.
Qed.

Lemma b2n_le_1 b : b2n b <= 1.
Proof. destruct b; simpl; lia. Qed.

#[export] Hint Resolve wrap_u64_small wrap_i64_small b2n_le_1 : terrier.

Lemma try_map_ok {E A B} (f : A -> result E B) l ys :
  try_map f l = Ok ys <-> Forall2 (fun x y => f x = Ok y) l ys.
Proof.
  revert ys. induction l as [|x l IH]; intros ys; cbn [try_map].
  - split; [by intros [= <-]; constructor | by intros ->%Forall2_nil_inv_l].
  - rewrite let_ok. setoid_rewrite let_ok. split.
    + intros (y & Hy & zs & Hzs%IH & [= <-]). by constructor.
    + intros (y & zs & Hy & Hzs & ->)%Forall2_cons_inv_l.
      exists y. split; [done|]. exists zs. split; [by apply IH | done].
Qed.

Lemma try_map_err {E A B} (f : A -> result E B) l e :
  try_map f l = Err e -> exists x, x ∈ l /\ f x = Err e.
Proof.
  induction l as [|x l IH]; cbn [try_map]; [done|].
  intros [Hx|(y & _ & [Hl|(? & _ & ?)]%let_err)]%let_err; [set_solver | | done].
  destruct (IH Hl) as (z & ? & ?). exists z. set_solver.
Qed.

(** Filtering by complementary tests. *)
Lemma filter_length_split {A} (f : A -> bool) (l : list A) :
  length (List.filter f l) + length (List.filter (fun x => negb (f x)) l) = length l.
Proof. induction l as [|x l IH]; simpl; [done|]. destruct (f x); simpl; lia. Qed.

Lemma filter_none {A} (f : A -> bool) (l : list A) :
  List.filter f l = [] <-> (forall x, x ∈ l -> f x = false).
Proof.
  induction l as [|x l IH]; simpl.
  - split; [intros _ y Hy; by apply elem_of_nil in Hy | done].
  - destruct (f x) eqn:E; split.
    + done.
    + intros H. specialize (H x). rewrite E in H. discriminate H; set_solver.
    + intros H y [->|Hy]%elem_of_cons; [done|]. by apply IH.
    + intros H. apply IH. intros y Hy. apply H. set_solver.
Qed.

Lemma elem_of_filterb {A} (f : A -> bool) (l : list A) x :
  x ∈ List.filter f l <-> f x = true /\ x ∈ l.
Proof. rewrite !list_elem_of_In, filter_In. tauto. Qed.

Lemma filter_ext_elem {A} (f g : A -> bool) (l : list A) :
  (forall x, x ∈ l -> f x = g x) -> List.filter f l = List.filter g l.
Proof.
  intros H. induction l as [|x l IH]; [done|]. simpl.
  rewrite (H x) by set_solver. rewrite IH; [done|]. set_solver.
Qed.

Lemma filter_sublist {A} (f : A -> bool) (l : list A) : List.filter f l `sublist_of` l.
Proof.
  induction l as [|x l IH]; simpl; [constructor|].
  destruct (f x); by constructor.
Qed.

Lemma existsb_elem {A} (f : A -> bool) (l : list A) :
  existsb f l = true <-> exists x, x ∈ l /\ f x = true.
Proof. rewrite existsb_exists. by setoid_rewrite list_elem_of_In. Qed.

Lemma existsb_none {A} (f : A -> bool) (l : list A) :
  existsb f l = false <-> forall x, x ∈ l -> f x = false.
Proof.
  rewrite <-not_true_iff_false, existsb_elem. split.
  - intros H x Hx. destruct (f x) eqn:E; [|done]. naive_solver.
  - intros H (x & Hx & Hf). rewrite H in Hf; done.
Qed.

Lemma forallb_elem {A} (f : A -> bool) (l : list A) :
  forallb f l = true <-> forall x, x ∈ l -> f x = true.
Proof. rewrite forallb_forall. by setoid_rewrite list_elem_of_In. Qed.

Lemma elem_of_in_key_order {A} (m : gmap string A) k x : (k, x) ∈ in_key_order m <-> m !! k = Some x.
Proof. unfold in_key_order. by rewrite merge_sort_Permutation, elem_of_map_to_list. Qed.
