(* ===== verification/RustStr.v ===== *)
(** * Strings and bytes as the Rust code uses them

    A [str] is the [string] of its bytes.  The case-mapping, trimming and
    splitting functions below are those of the Rust standard library on ASCII
    text; on bytes above 127 [to_lowercase] and the whitespace tests are the
    identity and false (the code's identifiers, hex strings, scopes and service
    names are ASCII).  Hex coding and the cryptographic functions come from
    third-party crates and are interfaces here: [HexCodec], with the laws the
    code relies on.  [dec] is the [Display] of an unsigned integer. *)
From stdpp Require Import pretty.
From S2P Require Import Prelude.

Open Scope string_scope.

(** Let [cbn] compute appends whose first argument is a constructor. *)
#[local] Arguments String.append : simpl nomatch.

(** ** Characters *)

Definition byte_of (c : Ascii.ascii) : Z := Z.of_N (Ascii.N_of_ascii c).

Definition in_range (lo hi c : Ascii.ascii) : bool :=
  ((byte_of lo <=? byte_of c) && (byte_of c <=? byte_of hi))%Z.

Definition is_ascii_lowercase : Ascii.ascii -> bool := in_range "a"%char "z"%char.
Definition is_ascii_uppercase : Ascii.ascii -> bool := in_range "A"%char "Z"%char.
Definition is_ascii_digit : Ascii.ascii -> bool := in_range "0"%char "9"%char.
Definition is_ascii_alphanumeric (c : Ascii.ascii) : bool :=
  is_ascii_lowercase c || is_ascii_uppercase c || is_ascii_digit c.
Definition is_ascii_hexdigit (c : Ascii.ascii) : bool :=
  is_ascii_digit c || in_range "a"%char "f"%char c || in_range "A"%char "F"%char c.

(** Horizontal tab to carriage return, and space. *)
Definition is_whitespace (c : Ascii.ascii) : bool :=
  ((9 <=? byte_of c) && (byte_of c <=? 13) || (byte_of c =? 32))%Z.

Definition char_lower (c : Ascii.ascii) : Ascii.ascii :=
  if is_ascii_uppercase c
  then Ascii.ascii_of_N (Ascii.N_of_ascii c + 32) else c.

(** A test that holds of the 256 characters one by one holds of all. *)
Lemma ascii_forall (P : Ascii.ascii -> bool) :
  forallb P (map Ascii.ascii_of_nat (seq 0 256)) = true -> forall c, P c = true.
Proof.
  rewrite forallb_elem. intros H c. apply H.
  rewrite list_elem_of_In, in_map_iff.
  exists (Ascii.nat_of_ascii c). split; [apply Ascii.ascii_nat_embedding|].
  apply in_seq. pose proof (Ascii.nat_ascii_bounded c). lia.
Qed.

(** ** Strings *)

Fixpoint string_map (f : Ascii.ascii -> Ascii.ascii) (s : string) : string :=
  match s with
  | "" => ""
  | String c s => String (f c) (string_map f s)
  end.

Definition to_lowercase : string -> string := string_map char_lower.
Abbreviation to_ascii_lowercase := to_lowercase.

Fixpoint string_all (f : Ascii.ascii -> bool) (s : string) : bool :=
  match s with
  | "" => true
  | String c s => f c && string_all f s
  end.

Definition string_has (c : Ascii.ascii) (s : string) : bool :=
  negb (string_all (fun c' => negb (Ascii.eqb c c')) s).

Fixpoint strip_prefix (p s : string) : option string :=
  match p, s with
  | "", _ => Some s
  | String a p, String b s => if Ascii.eqb a b then strip_prefix p s else None
  | String _ _, "" => None
  end.

Definition starts_with (p s : string) : bool := is_some (strip_prefix p s).

(** [s.strip_suffix(c)] for one character. *)
Fixpoint strip_suffix_char (c : Ascii.ascii) (s : string) : option string :=
  match s with
  | "" => None
  | String a "" => if Ascii.eqb a c then Some "" else None
  | String a s => String a <$> strip_suffix_char c s
  end.

(** [s.strip_suffix(p)] *)
Fixpoint strip_suffix (p s : string) : option string :=
  if String.eqb s p then Some ""
  else match s with
       | "" => None
       | String a s => String a <$> strip_suffix p s
       end.

(** [s.trim_start_matches("0x")]: as often as it occurs. *)
Fixpoint trim_start_0x (s : string) : string :=
  match s with
  | String "0" (String "x" s) => trim_start_0x s
  | _ => s
  end.

Definition ends_with_char (c : Ascii.ascii) (s : string) : bool :=
  is_some (strip_suffix_char c s).

Fixpoint trim_start (s : string) : string :=
  match s with
  | "" => ""
  | String c s' => if is_whitespace c then trim_start s' else s
  end.

Fixpoint trim_end (s : string) : string :=
  match s with
  | "" => ""
  | String c s =>
      match trim_end s with
      | "" => if is_whitespace c then "" else String c ""
      | r => String c r
      end
  end.

Definition trim (s : string) : string := trim_end (trim_start s).

Definition cons_word (w : string) (ws : list string) : list string :=
  match w with "" => ws | _ => w :: ws end.

(** The word that starts the string (empty when it starts with a blank) and
    the words after it. *)
Fixpoint words_aux (s : string) : string * list string :=
  match s with
  | "" => ("", [])
  | String c s =>
      let '(w, ws) := words_aux s in
      if is_whitespace c then ("", cons_word w ws) else (String c w, ws)
  end.

Definition split_whitespace (s : string) : list string :=
  let '(w, ws) := words_aux s in cons_word w ws.

Fixpoint join (sep : string) (ws : list string) : string :=
  match ws with
  | [] => ""
  | [w] => w
  | w :: ws => w +:+ sep +:+ join sep ws
  end.

(** [s.split(c)]: never empty. *)
Fixpoint split_char (c : Ascii.ascii) (s : string) : list string :=
  match s with
  | "" => [""]
  | String a s =>
      if Ascii.eqb a c then "" :: split_char c s
      else match split_char c s with
           | w :: ws => String a w :: ws
           | [] => [String a ""]
           end
  end.

(** [s.split_once(c)] *)
Fixpoint split_once (c : Ascii.ascii) (s : string) : option (string * string) :=
  match s with
  | "" => None
  | String a s =>
      if Ascii.eqb a c then Some ("", s)
      else '(l, r) ← split_once c s; Some (String a l, r)
  end.

(** [eq_ignore_ascii_case] and SQLite's [LOWER(a) = LOWER(b)]. *)
Definition eq_lower (a b : string) : bool :=
  String.eqb (to_lowercase a) (to_lowercase b).

(** [Display] of an unsigned integer. *)
Definition dec (n : Z) : string := pretty (Z.to_N n).

(** [Debug] of a [str]: quoted, with the escapes of the ASCII characters. *)
Definition hex_nibble (n : Z) : Ascii.ascii :=
  Ascii.ascii_of_N (Z.to_N (if (n <? 10)%Z then 48 + n else 87 + n)%Z).

Definition debug_char (c : Ascii.ascii) : string :=
  let b := byte_of c in
  if (b =? 0)%Z then "\0" else if (b =? 9)%Z then "\t" else if (b =? 10)%Z then "\n"
  else if (b =? 13)%Z then "\r" else if (b =? 34)%Z || (b =? 92)%Z then String "\" (String c "")
  else if (b <? 16)%Z then "\u{" +:+ String (hex_nibble b) "}"
  else if ((b <? 32) || (b =? 127))%Z
  then "\u{" +:+ String (hex_nibble (b / 16)) (String (hex_nibble (b mod 16)) "}")
  else String c "".

Fixpoint debug_chars (s : string) : string :=
  match s with
  | "" => ""
  | String c s => debug_char c +:+ debug_chars s
  end.

Definition debug_str (s : string) : string :=
  let q := String (Ascii.ascii_of_nat 34) "" in q +:+ debug_chars s +:+ q.

(** ** Numbers read from text *)
Section Numbers.
Local Open Scope Z_scope.

Definition u32_max : Z := 2 ^ 32 - 1.

Fixpoint digits_from (acc : Z) (s : string) : option Z :=
  match s with
  | EmptyString => Some acc
  | String c s =>
      let v := acc * 10 + (byte_of c - 48) in
      if is_ascii_digit c && (v <=? u32_max) then digits_from v s else None
  end.

(** [s.parse::<u32>()]: digits after an optional plus sign, without overflow. *)
Definition parse_u32 (s : string) : option Z :=
  let digits := match s with
                | String c rest => if Ascii.eqb c "+"%char then rest else s
                | EmptyString => s
                end in
  match digits with EmptyString => None | _ => digits_from 0 digits end.

(** [Display] of an [i64]. *)
Definition dec_i64 (n : Z) : string := if n <? 0 then "-" +:+ dec (- n) else dec n.

End Numbers.

(** [a > b] in the bytewise order of [str] and of SQLite's BINARY collation,
    which is [String.le]. *)
Definition str_gt (a b : string) : bool := negb (String.leb a b).

(** ** Characters of UTF-8 text *)
Section Chars.
Local Open Scope Z_scope.

(** [s.chars().count()]: the bytes that do not continue a character. *)
Fixpoint chars_count (s : string) : Z :=
  match s with
  | EmptyString => 0
  | String c s =>
      (if (128 <=? byte_of c) && (byte_of c <? 192) then 0 else 1) + chars_count s
  end.

(** [s.chars().take(n).collect()] *)
Fixpoint take_chars (n : nat) (s : string) : string :=
  match s with
  | EmptyString => ""
  | String c s' =>
      if (128 <=? byte_of c) && (byte_of c <? 192) then String c (take_chars n s')
      else match n with O => "" | S n => String c (take_chars n s') end
  end.
End Chars.

(** ** Bytes *)

Definition bytes := list Byte.byte.

Definition byte_val (b : Byte.byte) : Z := Z.of_N (Byte.to_N b).

Definition byte_of_Z (z : Z) : Byte.byte :=
  match Byte.of_N (Z.to_N (z mod 256)) with Some b => b | None => Byte.x00 end.

Lemma byte_val_range b : (0 <= byte_val b < 256)%Z.
Proof. by destruct b. Qed.

Lemma byte_val_of_Z z : (0 <= z < 256)%Z -> byte_val (byte_of_Z z) = z.
Proof.
  intros Hz. unfold byte_val, byte_of_Z. rewrite Z.mod_small by lia.
  destruct (Byte.of_N (Z.to_N z)) as [b|] eqn:E.
  - apply Byte.to_of_N in E. rewrite E. lia.
  - apply Byte.of_N_None_iff in E. lia.
Qed.

Lemma byte_of_Z_val b : byte_of_Z (byte_val b) = b.
Proof. by destruct b. Qed.

(** [s.as_bytes()] *)
Definition as_bytes (s : string) : bytes := String.list_byte_of_string s.

#[export] Instance byte_eq_dec : EqDecision Byte.byte := Byte.byte_eq_dec.

(** ** Hex: the interface of the [hex] crate

    [hex_encode] gives lowercase digits, two for each byte; [hex_decode] accepts
    either case and refuses odd lengths and other characters. *)
Definition hex_value (c : Ascii.ascii) : option Z :=
  if is_ascii_digit c then Some (byte_of c - 48)%Z
  else if in_range "a"%char "f"%char c then Some (byte_of c - 87)%Z
  else if in_range "A"%char "F"%char c then Some (byte_of c - 55)%Z
  else None.

Class HexCodec := {
  hex_encode : bytes -> string;
  hex_decode : string -> option bytes;
  hex_decode_encode : forall b, hex_decode (hex_encode b) = Some b;
  hex_encode_digits : forall b, string_all is_ascii_hexdigit (hex_encode b) = true;
  hex_encode_lower : forall b, to_lowercase (hex_encode b) = hex_encode b;
  hex_encode_length : forall b, String.length (hex_encode b) = 2 * length b;
  hex_decode_lower : forall s b,
    hex_decode s = Some b -> hex_encode b = to_lowercase s;
  hex_decode_pair : forall h l s,
    hex_decode (String h (String l s)) =
      h ← hex_value h; l ← hex_value l; r ← hex_decode s; Some (byte_of_Z (16 * h + l) :: r);
}.

(** A codec that meets the interface, used by the witnesses. *)
Module SimpleHex.
Definition digit (n : Z) : Ascii.ascii :=
  if (n <? 10)%Z then Ascii.ascii_of_N (Z.to_N (48 + n))
  else Ascii.ascii_of_N (Z.to_N (87 + n)).

Fixpoint encode (b : bytes) : string :=
  match b with
  | [] => ""
  | x :: b =>
      String (digit (byte_val x / 16)) (String (digit (byte_val x mod 16)) (encode b))
  end.

Fixpoint decode (s : string) : option bytes :=
  match s with
  | "" => Some []
  | String h (String l s) =>
      h ← hex_value h; l ← hex_value l; r ← decode s;
      Some (byte_of_Z (16 * h + l) :: r)
  | String _ "" => None
  end.

Lemma decode_encode b : decode (encode b) = Some b.
Proof. induction b as [|x b IH]; [done|]. simpl. rewrite IH. by destruct x. Qed.

Lemma encode_digits b : string_all is_ascii_hexdigit (encode b) = true.
Proof. induction b as [|x b IH]; [done|]. simpl. rewrite IH. by destruct x. Qed.

Lemma encode_lower b : to_lowercase (encode b) = encode b.
Proof.
  unfold to_lowercase. induction b as [|x b IH]; [done|].
  cbn [encode string_map]. rewrite IH. by destruct x.
Qed.

Lemma encode_length b : String.length (encode b) = 2 * length b.
Proof. induction b as [|x b IH]; [done|]. simpl. rewrite IH. lia. Qed.

Lemma value_digit c n : hex_value c = Some n -> (0 <= n < 16)%Z /\ digit n = char_lower c.
Proof.
  pose proof (ascii_forall (fun c => match hex_value c with
    | Some n => (0 <=? n) && (n <? 16) && Ascii.eqb (digit n) (char_lower c)
    | None => true end)%Z eq_refl c) as H.
  cbv beta in H. intros Hv. rewrite Hv in H. reflect_bools.
  split; [lia | by apply Ascii.eqb_eq].
Qed.

Lemma decode_pair (h l : Ascii.ascii) (n m : Z) :
  hex_value h = Some n -> hex_value l = Some m ->
  digit (byte_val (byte_of_Z (16 * n + m)) / 16) = char_lower h /\
  digit (byte_val (byte_of_Z (16 * n + m)) mod 16) = char_lower l.
Proof.
  intros [? <-]%value_digit [? <-]%value_digit.
  rewrite byte_val_of_Z by lia. split; f_equal; Z.div_mod_to_equations; lia.
Qed.

Lemma decode_lower_aux (n : nat) s b :
  String.length s <= n -> decode s = Some b -> encode b = to_lowercase s.
Proof.
  unfold to_lowercase. revert s b. induction n as [|n IH]; intros s b Hn.
  - destruct s; simpl in *; [intros [= <-]; done | lia].
  - destruct s as [|h [|l s]]; simpl in *; [intros [= <-]; done | done |].
    destruct (hex_value h) as [x|] eqn:Hh; [|done].
    destruct (hex_value l) as [y|] eqn:Hl; [|done].
    simpl. destruct (decode s) as [r|] eqn:E; [|done].
    intros [= <-]. cbn [encode].
    destruct (decode_pair h l x y Hh Hl) as [-> ->].
    rewrite (IH s r); [done | lia | done].
Qed.

Lemma decode_lower s b : decode s = Some b -> encode b = to_lowercase s.
Proof. by apply (decode_lower_aux (String.length s)). Qed.

Definition codec : HexCodec := {|
  hex_encode := encode;
  hex_decode := decode;
  hex_decode_encode := decode_encode;
  hex_encode_digits := encode_digits;
  hex_encode_lower := encode_lower;
  hex_encode_length := encode_length;
  hex_decode_lower := decode_lower;
  hex_decode_pair _ _ _ := eq_refl;
|}.
End SimpleHex.

(** ** Big-endian integers

    [to_be_bytes] and [from_be_bytes] of the Rust integers, on byte lists. *)

#[local] Open Scope Z_scope.

(** [n] bytes of [z], most significant first. *)
Fixpoint be_bytes (n : nat) (z : Z) : bytes :=
  match n with
  | O => []
  | S n => (be_bytes n (z / 256) ++ [byte_of_Z z])%list
  end.

Definition be_val (b : bytes) : Z := fold_left (fun acc x => acc * 256 + byte_val x) b 0.

Definition zeros (n : nat) : bytes := replicate n Byte.x00.

Definition is_zero_byte (b : Byte.byte) : bool := byte_val b =? 0.

(** ** Lemmas *)

Lemma length_be_bytes n z : length (be_bytes n z) = n.
Proof. revert z. induction n; intros; cbn; [done|]. rewrite length_app, IHn. cbn. lia. Qed.

Lemma be_val_snoc b x : be_val (b ++ [x])%list = be_val b * 256 + byte_val x.
Proof. unfold be_val. by rewrite fold_left_app. Qed.

Lemma byte_val_of_Z_mod z : byte_val (byte_of_Z z) = z mod 256.
Proof.
  rewrite <-(byte_val_of_Z (z mod 256)) by (apply Z.mod_pos_bound; lia).
  unfold byte_of_Z. by rewrite Z.mod_mod by lia.
Qed.

Lemma be_val_bytes n z : be_val (be_bytes n z) = z mod 256 ^ Z.of_nat n.
Proof.
  revert z. induction n as [|n IH]; intros z; cbn [be_bytes].
  - by rewrite Z.mod_1_r.
  - rewrite be_val_snoc, IH, byte_val_of_Z_mod, Nat2Z.inj_succ, Z.pow_succ_r by lia.
    rewrite Z.rem_mul_r by lia. lia.
Qed.

Lemma be_val_bytes_small n z : 0 <= z < 256 ^ Z.of_nat n -> be_val (be_bytes n z) = z.
Proof. intros. rewrite be_val_bytes. by apply Z.mod_small. Qed.

Lemma byte_of_Z_mul x a : byte_of_Z (a * 256 + byte_val x) = x.
Proof.
  rewrite <-(byte_of_Z_val x) at 2. unfold byte_of_Z. do 2 f_equal.
  rewrite Z.add_comm, Z.mod_add by lia. done.
Qed.

Lemma be_val_range b : 0 <= be_val b < 256 ^ Z.of_nat (length b).
Proof.
  induction b as [|x b IH] using rev_ind; [cbn; lia|].
  rewrite be_val_snoc, length_app. cbn [length].
  replace (Z.of_nat (length b + 1)) with (Z.succ (Z.of_nat (length b))) by lia.
  rewrite Z.pow_succ_r by lia. pose proof (byte_val_range x). lia.
Qed.

Lemma be_bytes_val b : be_bytes (length b) (be_val b) = b.
Proof.
  induction b as [|x b IH] using rev_ind; [done|].
  rewrite length_app, be_val_snoc. cbn [length].
  replace (length b + 1)%nat with (S (length b)) by lia. cbn [be_bytes].
  rewrite byte_of_Z_mul. f_equal.
  pose proof (byte_val_range x).
  rewrite Z.div_add_l, (Z.div_small (byte_val x)), Z.add_0_r by lia. done.
Qed.

Lemma zero_byte b : is_zero_byte b = true <-> b = Byte.x00.
Proof. unfold is_zero_byte. rewrite Z.eqb_eq. by destruct b. Qed.

Lemma be_val_zeros n b : be_val (zeros n ++ b)%list = be_val b.
Proof. unfold be_val, zeros. rewrite fold_left_app. f_equal. by induction n. Qed.

Lemma forallb_zeros b : forallb is_zero_byte b = true <-> b = zeros (length b).
Proof.
  induction b as [|x b IH]; cbn; [done|].
  rewrite andb_true_iff, IH, zero_byte. unfold zeros. cbn. split.
  - intros [-> H]. by rewrite H at 1.
  - intros [= -> H]. done.
Qed.

Lemma length_zeros n : length (zeros n) = n.
Proof. apply length_replicate. Qed.

(** Leading zeros of a wide encoding of a small number. *)
Lemma be_bytes_pad a b z : 0 <= z < 256 ^ Z.of_nat b ->
  be_bytes (a + b) z = (zeros a ++ be_bytes b z)%list.
Proof.
  intros Hz. rewrite <-(be_bytes_val (zeros a ++ be_bytes b z)).
  rewrite be_val_zeros, be_val_bytes_small by done.
  by rewrite length_app, length_zeros, length_be_bytes.
Qed.
