(* ===== verification/StrFacts.v ===== *)
(** * Lemmas on the string operations of [RustStr]

    Prefixes, case mapping, separators, blank-separated words and decimal
    numbers: what the components' theorems share. *)
From stdpp Require Import pretty.
From S2P Require Import Prelude RustStr.

#[local] Arguments String.append : simpl nomatch.

(** ** Case mapping and character tests *)

Lemma char_lower_idem c : char_lower (char_lower c) = char_lower c.
Proof.
  apply Ascii.eqb_eq.
  exact (ascii_forall (fun c => Ascii.eqb (char_lower (char_lower c)) (char_lower c)) eq_refl c).
Qed.

Lemma char_lower_whitespace c : is_whitespace (char_lower c) = is_whitespace c.
Proof.
  apply eqb_prop.
  exact (ascii_forall (fun c => Bool.eqb (is_whitespace (char_lower c)) (is_whitespace c)) eq_refl c).
Qed.

Lemma string_map_app f a b : string_map f (a +:+ b) = string_map f a +:+ string_map f b.
Proof. induction a as [|c a IH]; [done|]. cbn. by rewrite IH. Qed.

Lemma lower_idem s : to_lowercase (to_lowercase s) = to_lowercase s.
Proof.
  unfold to_lowercase. induction s as [|c s IH]; [done|].
  cbn. by rewrite IH, char_lower_idem.
Qed.

Lemma lower_app a b : to_lowercase (a +:+ b) = to_lowercase a +:+ to_lowercase b.
Proof. apply string_map_app. Qed.

Lemma lower_length s : String.length (to_lowercase s) = String.length s.
Proof. unfold to_lowercase. induction s as [|c s IH]; cbn; [done|]. by rewrite IH. Qed.

Lemma string_all_app f a b : string_all f (a +:+ b) = string_all f a && string_all f b.
Proof. induction a as [|c a IH]; [done|]. cbn. by rewrite IH, andb_assoc. Qed.

Lemma string_all_impl f g s :
  (forall c, f c = true -> g c = true) -> string_all f s = true -> string_all g s = true.
Proof.
  intros Hfg. induction s as [|c s IH]; cbn; [done|].
  intros [? ?]%andb_true_iff. rewrite andb_true_iff. auto.
Qed.

Lemma string_has_app c a b : string_has c (a +:+ b) = string_has c a || string_has c b.
Proof. unfold string_has. rewrite string_all_app. apply negb_andb. Qed.

Lemma string_has_cons c a s : string_has c (String a s) = Ascii.eqb c a || string_has c s.
Proof. unfold string_has. cbn. by rewrite negb_andb, negb_involutive. Qed.

Lemma string_all_no (f : Ascii.ascii -> bool) c s :
  f c = false -> string_all f s = true -> string_has c s = false.
Proof.
  intros Hc Hs. unfold string_has. apply negb_false_iff.
  eapply string_all_impl; [|exact Hs]. intros d Hd.
  apply negb_true_iff. apply Ascii.eqb_neq. intros ->. congruence.
Qed.

(** ** Appending *)

Lemma app_assoc_str (a b c : string) : a +:+ (b +:+ c) = (a +:+ b) +:+ c.
Proof. induction a as [|x a IH]; cbn; [done|]. by rewrite IH. Qed.

Lemma app_nil_str (a : string) : a +:+ "" = a.
Proof. induction a as [|x a IH]; cbn; [done|]. by rewrite IH. Qed.

Lemma length_app_str (a b : string) :
  String.length (a +:+ b) = String.length a + String.length b.
Proof. induction a as [|x a IH]; cbn; [done|]. by rewrite IH. Qed.

Lemma app_inj_len (a a' b b' : string) :
  String.length a = String.length a' -> a +:+ b = a' +:+ b' -> a = a' /\ b = b'.
Proof.
  revert a'. induction a as [|x a IH]; intros [|x' a'] Hl H; cbn in *; try done.
  injection Hl as Hl. injection H as -> H.
  destruct (IH _ Hl H) as [-> ->]. done.
Qed.

(** ** Prefixes *)

Lemma strip_prefix_spec p s r : strip_prefix p s = Some r <-> s = p +:+ r.
Proof.
  revert s. induction p as [|a p IH]; intros s; cbn.
  - split; [by intros [= ->] | by intros ->].
  - destruct s as [|b s]; [done|]. destruct (Ascii.eqb_spec a b) as [->|Hab].
    + rewrite IH. split; [by intros -> | by intros [= ->]].
    + split; [done | intros [= ? ?]; congruence].
Qed.

Lemma starts_with_spec p s : starts_with p s = true <-> exists r, s = p +:+ r.
Proof.
  unfold starts_with. rewrite is_some_true. by setoid_rewrite strip_prefix_spec.
Qed.

Lemma starts_with_app p q s : starts_with (p +:+ q) s = true -> starts_with p s = true.
Proof.
  rewrite !starts_with_spec. intros [r ->]. exists (q +:+ r). by rewrite app_assoc_str.
Qed.

Lemma starts_with_self p r : starts_with p (p +:+ r) = true.
Proof. rewrite starts_with_spec. eauto. Qed.

(** ** Separators *)

(** The first separator splits a string in one way. *)
Lemma split_first_inj c (a a' b b' : string) :
  string_has c a = false -> string_has c a' = false ->
  a +:+ String c b = a' +:+ String c b' -> a = a' /\ b = b'.
Proof.
  revert a'. induction a as [|x a IH]; intros [|x' a'] Ha Ha' H; cbn in H.
  - by injection H as ->.
  - injection H as -> H. rewrite string_has_cons, Ascii.eqb_refl in Ha'. done.
  - injection H as -> H. rewrite string_has_cons, Ascii.eqb_refl in Ha. done.
  - injection H as -> H. rewrite string_has_cons in Ha, Ha'. reflect_bools.
    edestruct IH as [-> ->]; eauto.
Qed.

(** So does the last one. *)
Lemma split_last_inj c (a a' b b' : string) :
  string_has c b = false -> string_has c b' = false ->
  a +:+ String c b = a' +:+ String c b' -> a = a' /\ b = b'.
Proof.
  revert a'. induction a as [|x a IH]; intros [|x' a'] Hb Hb' H; cbn in H.
  - by injection H as ->.
  - injection H as -> ->. rewrite string_has_app, string_has_cons, Ascii.eqb_refl in Hb.
    by rewrite orb_true_r in Hb.
  - injection H as -> <-. rewrite string_has_app, string_has_cons, Ascii.eqb_refl in Hb'.
    by rewrite orb_true_r in Hb'.
  - injection H as -> H. destruct (IH _ Hb Hb' H) as [-> ->]. done.
Qed.

Lemma split_once_spec c s l r :
  split_once c s = Some (l, r) <-> s = l +:+ String c r /\ string_has c l = false.
Proof.
  revert l. induction s as [|a s IH]; intros l; cbn.
  - split; [done|]. intros [H _]. by destruct l.
  - destruct (Ascii.eqb_spec a c) as [->|Hac].
    + split; [by intros [= <- <-]|]. intros [H Hl].
      destruct l as [|x l]; cbn in H; [by injection H as ->|].
      injection H as <- ->. by rewrite string_has_cons, Ascii.eqb_refl in Hl.
    + split.
      * destruct (split_once c s) as [[l' r']|]; [|done]. cbn. intros [= <- <-].
        destruct (proj1 (IH l') eq_refl) as [-> Hl']. split; [done|].
        rewrite string_has_cons, Hl'. apply orb_false_iff. split; [|done].
        by apply Ascii.eqb_neq.
      * intros [H Hl]. destruct l as [|x l]; cbn in H.
        { injection H as ? ?. congruence. }
        injection H as -> ->. rewrite string_has_cons in Hl. reflect_bools.
        by rewrite (proj2 (IH l) (conj eq_refl H0)).
Qed.

Lemma split_once_none c s : split_once c s = None <-> string_has c s = false.
Proof.
  induction s as [|a s IH]; [done|]. cbn [split_once]. rewrite string_has_cons, Ascii.eqb_sym.
  destruct (Ascii.eqb c a); [done|]. cbn [orb]. rewrite <- IH. by destruct (split_once c s) as [[]|].
Qed.

(** ** Words *)

Definition is_word (w : string) : Prop :=
  w <> "" /\ string_all (fun c => negb (is_whitespace c)) w = true.

Lemma cons_word_forall w ws :
  string_all (fun c => negb (is_whitespace c)) w = true ->
  Forall is_word ws -> Forall is_word (cons_word w ws).
Proof. destruct w; cbn; intros; [done|]. constructor; [|done]. split; done. Qed.

Lemma words_aux_words s :
  string_all (fun c => negb (is_whitespace c)) (words_aux s).1 = true /\
  Forall is_word (words_aux s).2.
Proof.
  induction s as [|c s [IH1 IH2]]; cbn; [done|].
  destruct (words_aux s) as [w ws]. cbn in *.
  destruct (is_whitespace c) eqn:E; cbn.
  - split; [done|]. by apply cons_word_forall.
  - by rewrite E.
Qed.

Lemma split_whitespace_words s : Forall is_word (split_whitespace s).
Proof.
  unfold split_whitespace. pose proof (words_aux_words s) as [? ?].
  destruct (words_aux s). by apply cons_word_forall.
Qed.

Lemma words_aux_app_word w s :
  string_all (fun c => negb (is_whitespace c)) w = true ->
  words_aux (w +:+ s) = (w +:+ (words_aux s).1, (words_aux s).2).
Proof.
  induction w as [|c w IH]; cbn; [by destruct (words_aux s)|].
  intros [Hc Hw]%andb_true_iff. rewrite (IH Hw). apply negb_true_iff in Hc.
  by rewrite Hc.
Qed.

Lemma cons_word_ne w ws : w <> "" -> cons_word w ws = w :: ws.
Proof. by destruct w. Qed.

(** Joining words with one blank and splitting again gives the words back. *)
Lemma split_whitespace_join ws :
  Forall is_word ws -> split_whitespace (join " " ws) = ws.
Proof.
  unfold split_whitespace. induction ws as [|w ws IH]; [done|].
  intros [[Hw Hall] Hws]%Forall_cons. specialize (IH Hws).
  destruct ws as [|w' ws].
  - cbn [join]. rewrite <-(app_nil_str w), words_aux_app_word by done. cbn.
    rewrite !app_nil_str. by apply cons_word_ne.
  - change (join " " (w :: w' :: ws)) with (w +:+ String " " (join " " (w' :: ws))).
    rewrite words_aux_app_word by done. cbn [words_aux].
    destruct (words_aux (join " " (w' :: ws))) as [u us] eqn:E.
    cbn -[cons_word]. rewrite app_nil_str, IH. by apply cons_word_ne.
Qed.

Lemma words_aux_lower s :
  words_aux (to_lowercase s) =
  (to_lowercase (words_aux s).1, map to_lowercase (words_aux s).2).
Proof.
  unfold to_lowercase. induction s as [|c s IH]; [done|].
  cbn. rewrite IH, char_lower_whitespace. destruct (words_aux s) as [w ws]. cbn.
  destruct (is_whitespace c); cbn; [|done]. by destruct w.
Qed.

Lemma split_whitespace_lower s :
  split_whitespace (to_lowercase s) = map to_lowercase (split_whitespace s).
Proof.
  unfold split_whitespace. rewrite words_aux_lower.
  destruct (words_aux s) as [w ws]. cbn. by destruct w.
Qed.

(** ** Trimming *)

Lemma trim_end_id s : string_all (fun c => negb (is_whitespace c)) s = true -> trim_end s = s.
Proof.
  induction s as [|c s IH]; cbn; [done|]. intros [Hc Hs]%andb_true_iff.
  rewrite (IH Hs). apply negb_true_iff in Hc. rewrite Hc. by destruct s.
Qed.

Lemma trim_start_lower s : trim_start (to_lowercase s) = to_lowercase (trim_start s).
Proof.
  unfold to_lowercase. induction s as [|c s IH]; cbn; [done|].
  rewrite char_lower_whitespace, IH. by destruct (is_whitespace c).
Qed.

Lemma trim_end_lower s : trim_end (to_lowercase s) = to_lowercase (trim_end s).
Proof.
  unfold to_lowercase. induction s as [|c s IH]; cbn; [done|]. rewrite IH.
  destruct (trim_end s) as [|a r]; cbn; [|done].
  rewrite char_lower_whitespace. by destruct (is_whitespace c).
Qed.

Lemma trim_lower s : trim (to_lowercase s) = to_lowercase (trim s).
Proof. unfold trim. by rewrite trim_start_lower, trim_end_lower. Qed.

Lemma trim_id s : string_all (fun c => negb (is_whitespace c)) s = true -> trim s = s.
Proof.
  intros Hs. unfold trim.
  assert (trim_start s = s) as ->; [|by apply trim_end_id].
  destruct s as [|c s]; [done|]. cbn in *. by destruct (is_whitespace c).
Qed.

Lemma trim_end_idem s : trim_end (trim_end s) = trim_end s.
Proof.
  induction s as [|c s IH]; [done|]. cbn [trim_end].
  destruct (trim_end s) as [|c' r] eqn:E.
  - destruct (is_whitespace c) eqn:Ec; cbn; [done | by rewrite Ec].
  - cbn [trim_end] in *. by rewrite IH.
Qed.

Lemma trim_start_head s : trim_start s = "" \/
  exists c r, trim_start s = String c r /\ is_whitespace c = false.
Proof.
  induction s as [|c s IH]; [by left|]. cbn. destruct (is_whitespace c) eqn:E; [done|].
  right. by exists c, s.
Qed.

Lemma trim_idem s : trim (trim s) = trim s.
Proof.
  unfold trim. destruct (trim_start_head s) as [-> | (c & r & -> & Hc)]; [done|].
  cbn [trim_end]. destruct (trim_end r) as [|c' r'] eqn:E.
  - rewrite Hc. cbn. rewrite Hc. cbn. by rewrite Hc.
  - cbn [trim_start]. rewrite Hc. pose proof (trim_end_idem r) as Hr. rewrite E in Hr.
    cbn [trim_end] in *. by rewrite Hr.
Qed.

Lemma hexdigit_not_whitespace c : is_ascii_hexdigit c = true -> negb (is_whitespace c) = true.
Proof.
  intros Hc.
  pose proof (ascii_forall (fun c => negb (is_ascii_hexdigit c) || negb (is_whitespace c)) eq_refl c).
  cbv beta in *. by rewrite Hc in *.
Qed.

Lemma hex_no_whitespace `{HexCodec} b :
  string_all (fun c => negb (is_whitespace c)) (hex_encode b) = true.
Proof. eapply string_all_impl; [apply hexdigit_not_whitespace | apply hex_encode_digits]. Qed.

(** A hex literal with its [0x] is already trimmed and in lower case. *)
Lemma trim_0x_hex `{HexCodec} b : trim ("0x" +:+ hex_encode b) = "0x" +:+ hex_encode b.
Proof. apply trim_id. cbn. apply hex_no_whitespace. Qed.

Lemma lower_0x_hex `{HexCodec} b : to_lowercase ("0x" +:+ hex_encode b) = "0x" +:+ hex_encode b.
Proof. rewrite lower_app, hex_encode_lower. done. Qed.

Lemma trim_start_0x_hex s :
  string_all is_ascii_hexdigit s = true -> trim_start_0x s = s.
Proof.
  destruct s as [|a [|b s]]; [done| |]; cbn [string_all].
  - intros _. cbn. by destruct a as [[] [] [] [] [] [] [] []].
  - intros (_ & [Hb _]%andb_true_iff)%andb_true_iff.
    assert (Hx : b <> "x"%char) by (intros ->; done).
    cbn [trim_start_0x]. repeat (case_match; try done).
Qed.

(** A prefixed string of hex digits loses its prefix, and nothing else. *)
Lemma trim_prefixed_hex s : string_all is_ascii_hexdigit s = true -> trim_start_0x (trim ("0x" +:+ s)) = s.
Proof.
  intros Hs. rewrite trim_id.
  - change (trim_start_0x s = s). by apply trim_start_0x_hex.
  - cbn. eapply string_all_impl; [|exact Hs]. apply hexdigit_not_whitespace.
Qed.

#[export] Hint Rewrite @trim_0x_hex @lower_0x_hex @hex_decode_encode @hex_encode_lower : terrier_rw.

(** ** Decimal numbers *)

Lemma pretty_N_char_digit x : is_ascii_digit (pretty_N_char x) = true.
Proof. unfold pretty_N_char. by repeat case_match. Qed.

Lemma pretty_N_go_digits x s :
  string_all is_ascii_digit s = true -> string_all is_ascii_digit (pretty_N_go x s) = true.
Proof.
  revert s. induction (N.lt_wf_0 x) as [x _ IH]. intros s Hs.
  destruct (decide (x = 0%N)) as [->|Hx]; [by rewrite pretty_N_go_0|].
  rewrite pretty_N_go_step by lia. apply IH.
  - apply N.div_lt; lia.
  - cbn. by rewrite pretty_N_char_digit.
Qed.

Lemma dec_digits n : string_all is_ascii_digit (dec n) = true.
Proof.
  unfold dec, pretty, pretty_N. case_decide; [done|]. by apply pretty_N_go_digits.
Qed.

Lemma dec_inj a b : (0 <= a)%Z -> (0 <= b)%Z -> dec a = dec b -> a = b.
Proof.
  unfold dec. intros Ha Hb H. apply (inj (pretty (A:=N))) in H. by apply Z2N.inj in H.
Qed.

Lemma dec_no_char c n : is_ascii_digit c = false -> string_has c (dec n) = false.
Proof. intros H. eapply string_all_no; [exact H | apply dec_digits]. Qed.

Lemma hex_no_char `{HexCodec} c b :
  is_ascii_hexdigit c = false -> string_has c (hex_encode b) = false.
Proof. intros Hc. eapply string_all_no; [exact Hc | apply hex_encode_digits]. Qed.

Lemma hex_encode_inj `{HexCodec} a b : hex_encode a = hex_encode b -> a = b.
Proof. intros E. apply (f_equal hex_decode) in E. rewrite !hex_decode_encode in E. congruence. Qed.

Lemma digits_from_chars s : forall acc v,
  digits_from acc s = Some v -> string_all is_ascii_digit s = true.
Proof.
  induction s as [|c s IH]; intros acc v; [done|]. cbn [digits_from string_all].
  destruct (is_ascii_digit c); cbn [andb]; [|done]. case_match; [|done]. apply IH.
Qed.

Lemma digits_from_range s : forall acc v,
  (0 <= acc)%Z -> digits_from acc s = Some v -> (0 <= v)%Z.
Proof.
  induction s as [|c s IH]; intros acc v Hacc; cbn [digits_from]; [congruence|].
  destruct (is_ascii_digit c) eqn:Hc; cbn [andb]; [|done]. case_match; [|done]. apply IH.
  unfold is_ascii_digit, in_range in Hc. apply andb_true_iff in Hc as [Hc _].
  apply Z.leb_le in Hc. change (byte_of "0"%char) with 48%Z in Hc. lia.
Qed.

Lemma parse_u32_chars s v :
  parse_u32 s = Some v -> string_all (fun c => is_ascii_digit c || Ascii.eqb c "+"%char) s = true.
Proof.
  assert (Hd : forall s acc v, digits_from acc s = Some v ->
            string_all (fun c => is_ascii_digit c || Ascii.eqb c "+"%char) s = true).
  { intros t acc w H. eapply string_all_impl, digits_from_chars, H. intros c ->. done. }
  unfold parse_u32. destruct s as [|c s]; [done|]. cbn [string_all].
  destruct (Ascii.eqb c "+"%char) eqn:Hc.
  - rewrite orb_true_r. destruct s; [done|]. apply Hd.
  - intros H. by apply Hd in H; cbn [string_all] in H; rewrite Hc in H.
Qed.

Lemma parse_u32_no_char c s v :
  parse_u32 s = Some v -> is_ascii_digit c || Ascii.eqb c "+"%char = false -> string_has c s = false.
Proof.
  intros H Hc. exact (string_all_no (fun c => is_ascii_digit c || Ascii.eqb c "+"%char) c s Hc
    (parse_u32_chars s v H)).
Qed.

Lemma parse_u32_range s v : parse_u32 s = Some v -> (0 <= v)%Z.
Proof.
  unfold parse_u32. destruct s as [|c s]; [done|].
  destruct (Ascii.eqb c "+"%char); [destruct s; [done|]|]; by apply digits_from_range.
Qed.

#[export] Hint Resolve dec_no_char hex_no_char split_whitespace_words : terrier.
#[export] Hint Rewrite lower_idem string_has_app string_has_cons
  string_all_app app_nil_str : terrier_rw.

(** ** Suffixes *)

Lemma strip_suffix_spec p s r : strip_suffix p s = Some r <-> s = r +:+ p.
Proof.
  revert r. induction s as [|a s IH]; intros r; cbn [strip_suffix].
  - destruct (String.eqb_spec "" p) as [<-|Hp].
    + split; [by intros [= <-] | intros E; by destruct r].
    + split; [done|]. intros E. by destruct r, p.
  - destruct (String.eqb_spec (String a s) p) as [<-|Hp].
    + split; [by intros [= <-]|]. intros E. destruct r as [|b r]; [done|].
      apply (f_equal String.length) in E. cbn in E. rewrite length_app_str in E. cbn in E. lia.
    + destruct (strip_suffix p s) as [r'|]; cbn.
      * pose proof (proj1 (IH r') eq_refl) as ->. split; [by intros [= <-]|].
        intros E. destruct r as [|b r]; [by cbn in E|]. cbn in E.
        injection E as -> E. apply IH in E. congruence.
      * split; [done|]. intros E'. destruct r as [|b r]; [by cbn in E'|]. cbn in E'.
        injection E' as -> E'. by apply IH in E'.
Qed.

Lemma app_inj_r_str (a b c : string) : a +:+ c = b +:+ c -> a = b.
Proof.
  intros E. assert (Some a = Some b) as [= ->]; [|done].
  rewrite <-(proj2 (strip_suffix_spec c (a +:+ c) a) eq_refl). by apply strip_suffix_spec.
Qed.
