(* ===== verification/Capability.v ===== *)
(** * The signed capability schema

    [crates/agentkeys-protocol/src/capability.rs], with the delegation path and
    the two small helpers of [crates/agentkeys-protocol/src/lib.rs] and
    [console.rs] that the issuers and the verifiers of capabilities share. *)
From S2P Require Import Prelude RustStr StrFacts.

(** ** Operations and data classes *)

Inductive CapOp :=
| Store | Fetch | CanonicalFetch | Append | Teardown | Classify
| ChannelPublish | ChannelSubscribe | SpeechUse.

#[export] Instance CapOp_eq_dec : EqDecision CapOp.
Proof. solve_decision. Defined.

Definition CapOp_as_u8 (op : CapOp) : Z :=
  match op with
  | Store => 0 | Fetch => 1 | Teardown => 2 | Classify => 3 | CanonicalFetch => 4
  | Append => 5 | ChannelPublish => 6 | ChannelSubscribe => 7 | SpeechUse => 8
  end%Z.

Definition CapOp_as_str (op : CapOp) : string :=
  match op with
  | Store => "store"
  | Fetch => "fetch"
  | CanonicalFetch => "canonical_fetch"
  | Append => "append"
  | Teardown => "teardown"
  | Classify => "classify"
  | ChannelPublish => "channel_publish"
  | ChannelSubscribe => "channel_subscribe"
  | SpeechUse => "speech_use"
  end.

Inductive DataClass := Credentials | Memory | Config | Channel | Speech.

#[export] Instance DataClass_eq_dec : EqDecision DataClass.
Proof. solve_decision. Defined.

Definition DataClass_as_str (c : DataClass) : string :=
  match c with
  | Credentials => "credentials"
  | Memory => "memory"
  | Config => "config"
  | Channel => "channel"
  | Speech => "speech"
  end.

(** ** Tokens *)

Record CapPayload := {
  operator_omni : string;
  actor_omni : string;
  service : string;
  op : CapOp;
  data_class : DataClass;
  payload_device_key_hash : string;
  k3_epoch : Z;
  issued_at : Z;
  cap_expires_at : Z;
  nonce : string;
}.

Record DelegationPath := {
  deleg_scope : string;
  deleg_expires_at : Z;
  delegation_sig : string;
}.

Record CapToken := {
  payload : CapPayload;
  broker_sig : string;
  client_sig : option string;
  client_nonce : option string;
  client_ts : option Z;
  delegation_path : option DelegationPath;
}.

Definition DEFAULT_CAP_TTL_SECONDS : Z := 300.

Definition default_ttl_seconds : Z := DEFAULT_CAP_TTL_SECONDS.

(** ** Shared helpers *)

(** [tool:] and [plugin:] services are runtime grants: no cap is minted for
    them. *)
Definition is_capability_service (service : string) : bool :=
  let lower := to_ascii_lowercase (trim service) in
  starts_with "tool:" lower || starts_with "plugin:" lower.

Definition normalize_omni_0x (omni : string) : string :=
  if starts_with "0x" omni || starts_with "0X" omni then omni else "0x" +:+ omni.

Definition valid_channel_id (id : string) : bool :=
  let n := String.length id in
  (1 <=? n)%nat && (n <=? 48)%nat
  && string_all (fun c => is_ascii_lowercase c || is_ascii_digit c
                          || Ascii.eqb c "-"%char) id
  && negb (starts_with "-" id)
  && negb (ends_with_char "-"%char id).

(** ** Lemmas *)

Lemma CapOp_as_str_no_colon op : string_has ":"%char (CapOp_as_str op) = false.
Proof. by destruct op. Qed.

Lemma DataClass_as_str_no_colon c : string_has ":"%char (DataClass_as_str c) = false.
Proof. by destruct c. Qed.

Lemma CapOp_as_str_inj a b : CapOp_as_str a = CapOp_as_str b -> a = b.
Proof. by destruct a, b. Qed.

Lemma DataClass_as_str_inj a b : DataClass_as_str a = DataClass_as_str b -> a = b.
Proof. by destruct a, b. Qed.

Lemma normalize_omni_0x_idem o : normalize_omni_0x (normalize_omni_0x o) = normalize_omni_0x o.
Proof.
  unfold normalize_omni_0x at 2 3. destruct (_ || _) eqn:E; unfold normalize_omni_0x.
  - by rewrite E.
  - done.
Qed.

#[export] Hint Resolve CapOp_as_str_no_colon DataClass_as_str_no_colon : terrier.

(** ** Concrete capabilities of the witnesses *)

Definition rep64 (c : Ascii.ascii) : string := string_of_list_ascii (repeat c 64).

Definition sample_payload (o a svc : string) (op : CapOp) (dc : DataClass) (dkh : string)
    : CapPayload :=
  {| operator_omni := o; actor_omni := a; service := svc; op := op; data_class := dc;
     payload_device_key_hash := dkh; k3_epoch := 1; issued_at := 1000; cap_expires_at := 2000;
     nonce := "00" |}.
