(* ===== verification/DeviceCore.v ===== *)
(** * Device-key cryptography

    [crates/agentkeys-device-core/src/lib.rs] and the signing side of
    [crates/agentkeys-core/src/device_crypto.rs]: the proof-of-possession and
    delegation preimages, the delegation-scope policy, EIP-191 signing and
    recovery.  Keccak and the secp256k1 operations are those of the [sha3] and
    [k256] crates: the interface [Crypto]. *)
From S2P Require Import Prelude RustStr StrFacts Capability.

(** ** The third-party primitives *)

Class Crypto := {
  (** [sha3::Keccak256] *)
  keccak256 : bytes -> bytes;
  keccak256_length : forall b, length (keccak256 b) = 32;
  (** [k256::ecdsa] *)
  SigningKey : Type;
  VerifyingKey : Type;
  Signature : Type;
  RecoveryId : Type;
  SigningKey_from_slice : bytes -> option SigningKey;
  verifying_key : SigningKey -> VerifyingKey;
  (** The 64 bytes x and y of the uncompressed point, after the tag. *)
  encoded_point_xy : VerifyingKey -> bytes;
  Signature_from_slice : bytes -> option Signature;
  Signature_to_bytes : Signature -> bytes;
  RecoveryId_try_from : Z -> option RecoveryId;
  RecoveryId_to_byte : RecoveryId -> Z;
  sign_prehash_recoverable : SigningKey -> bytes -> option (Signature * RecoveryId);
  recover_from_prehash : bytes -> Signature -> RecoveryId -> option VerifyingKey;
  (** What the code relies on. *)
  Signature_to_bytes_length : forall s, length (Signature_to_bytes s) = 64;
  Signature_from_to : forall s, Signature_from_slice (Signature_to_bytes s) = Some s;
  RecoveryId_from_to : forall r, RecoveryId_try_from (RecoveryId_to_byte r) = Some r;
  recover_sign : forall sk d s r,
    sign_prehash_recoverable sk d = Some (s, r) ->
    recover_from_prehash d s r = Some (verifying_key sk);
}.

Section Collisions.
Context `{Crypto}.

(** Two strings that share their hash. *)
Definition collides (a b : bytes) : Prop := a <> b /\ keccak256 a = keccak256 b.

Lemma keccak_equal a b : keccak256 a = keccak256 b -> a = b \/ collides a b.
Proof. intros E. destruct (decide (a = b)); [by left | by right]. Qed.

End Collisions.

(** ** Errors *)

Inductive DeviceCryptoError :=
| NotHex
| BadAddressLen (n : nat)
| BadOmniLen (n : nat)
| BadSignatureLen (n : nat)
| UnsupportedV (v : Z)
| BadRecoveryId
| BadSignature
| Recover
| Sign
| BadKey
| DelegationMismatch.

Definition display_device_error (e : DeviceCryptoError) : string :=
  match e with
  | NotHex => "value is not hex"
  | BadAddressLen n => "address must be 20 bytes, got " +:+ dec (Z.of_nat n)
  | BadOmniLen n => "omni must be 32 bytes, got " +:+ dec (Z.of_nat n)
  | BadSignatureLen n => "signature must be 65 bytes, got " +:+ dec (Z.of_nat n)
  | UnsupportedV v => "unsupported v byte: " +:+ dec v
  | BadRecoveryId => "bad recovery id"
  | BadSignature => "bad signature bytes"
  | Recover => "ecrecover failed"
  | Sign => "recoverable signing failed"
  | BadKey => "invalid secp256k1 device key"
  | DelegationMismatch => "delegation signer does not match device_key_hash"
  end.

(** ** Canonical text *)

Definition strip0x_lower (s : string) : string :=
  let t := to_lowercase (trim s) in default t (strip_prefix "0x" t).

Definition norm_scope (scope : string) : string :=
  join " " (split_whitespace (to_lowercase scope)).

(** [trim_start_matches("0x")]: every leading occurrence. *)
Fixpoint trim_0x (s : string) : string :=
  match s with
  | String "0"%char (String "x"%char r) => trim_0x r
  | _ => s
  end.

(** ** The delegation-scope policy *)

Definition is_capability_service_token (lower_trimmed : string) : bool :=
  starts_with "tool:" lower_trimmed || starts_with "plugin:" lower_trimmed.

(** What one token of a scope authorizes; the arguments are lowercase. *)
Definition scope_token_grants (dc op svc tok : string) : bool :=
  let tok := to_lowercase tok in
  if is_capability_service_token tok then false
  else if String.eqb tok svc || String.eqb tok dc then true
  else match split_once ":"%char tok with
       | Some (d, o) => String.eqb d dc && (String.eqb o op || String.eqb o "*")
       | None => false
       end.

Definition cap_in_scope (scope data_class op service : string) : bool :=
  let dc := to_lowercase (trim data_class) in
  let op := to_lowercase (trim op) in
  let svc := to_lowercase (trim service) in
  if is_capability_service_token svc then false
  else existsb (scope_token_grants dc op svc) (split_whitespace scope).

Section DeviceCore.
Context `{HexCodec} `{Crypto}.

(** ** Addresses and key hashes *)

Definition evm_address (vk : VerifyingKey) : string :=
  "0x" +:+ hex_encode (drop 12 (keccak256 (encoded_point_xy vk))).

Definition device_key_hash (addr : string) : result DeviceCryptoError string :=
  let addr_lc := to_lowercase (trim addr) in
  let hex_part := default addr_lc (strip_prefix "0x" addr_lc) in
  let? addr_bytes := ok_or NotHex (hex_decode hex_part) in
  guard! Nat.eqb (length addr_bytes) 20 else BadAddressLen (length addr_bytes) ;;
  Ok ("0x" +:+ hex_encode (keccak256 addr_bytes)).

Definition device_key_hash_from_omni (omni : string) : result DeviceCryptoError string :=
  let trimmed := trim omni in
  let hex_part :=
    match strip_prefix "0x" trimmed with
    | Some r => r
    | None => default trimmed (strip_prefix "0X" trimmed)
    end in
  let? omni_bytes := ok_or NotHex (hex_decode hex_part) in
  guard! Nat.eqb (length omni_bytes) 32 else BadOmniLen (length omni_bytes) ;;
  Ok ("0x" +:+ hex_encode (keccak256 omni_bytes)).

(** ** Preimages *)

Definition agent_pop_payload (device_key_hash_hex : string) : bytes :=
  keccak256 (as_bytes ("agentkeys-agent-pop:" +:+ device_key_hash_hex)).

(** The text [cap_pop_payload] hashes. *)
Definition cap_pop_preimage (operator_omni actor_omni service op data_class
    client_nonce : string) (client_ts : Z) : string :=
  let operator := strip0x_lower operator_omni in
  let actor := strip0x_lower actor_omni in
  let service_hash := hex_encode (keccak256 (as_bytes (to_lowercase (trim service)))) in
  "agentkeys-cap-pop:v1:" +:+ operator +:+ ":" +:+ actor +:+ ":" +:+ service_hash
  +:+ ":" +:+ op +:+ ":" +:+ data_class +:+ ":" +:+ client_nonce +:+ ":" +:+ dec client_ts.

Definition cap_pop_payload (operator_omni actor_omni service op data_class
    client_nonce : string) (client_ts : Z) : bytes :=
  keccak256 (as_bytes
    (cap_pop_preimage operator_omni actor_omni service op data_class client_nonce client_ts)).

(** The text [delegation_payload] hashes. *)
Definition delegation_preimage (device_key_hash_hex sandbox_key scope : string)
    (expires_at : Z) : string :=
  let dkh := strip0x_lower device_key_hash_hex in
  let sandbox := strip0x_lower sandbox_key in
  let scope_hash := hex_encode (keccak256 (as_bytes (norm_scope scope))) in
  "agentkeys-delegation:v1:" +:+ dkh +:+ ":" +:+ sandbox +:+ ":" +:+ scope_hash
  +:+ ":" +:+ dec expires_at.

Definition delegation_payload (device_key_hash_hex sandbox_key scope : string)
    (expires_at : Z) : bytes :=
  keccak256 (as_bytes (delegation_preimage device_key_hash_hex sandbox_key scope expires_at)).

(** ** Signatures *)

Definition signing_key_from_bytes (b : bytes) : result DeviceCryptoError SigningKey :=
  ok_or BadKey (SigningKey_from_slice b).

(** The EIP-191 envelope's digest. *)
Definition eip191_digest (message : bytes) : bytes :=
  let prefix := String (Ascii.ascii_of_nat 25) ("Ethereum Signed Message:"
    +:+ String (Ascii.ascii_of_nat 10) (dec (Z.of_nat (length message)))) in
  keccak256 (as_bytes prefix ++ message)%list.

Definition eip191_sign (sk : SigningKey) (message : bytes) : result DeviceCryptoError string :=
  let? (sig, recid) := ok_or Sign (sign_prehash_recoverable sk (eip191_digest message)) in
  let out := (Signature_to_bytes sig ++ [byte_of_Z (27 + RecoveryId_to_byte recid)])%list in
  Ok ("0x" +:+ hex_encode out).

Definition ecrecover_eip191 (message : bytes) (signature_hex : string)
    : result DeviceCryptoError string :=
  let sig_hex := trim_0x (trim signature_hex) in
  let? sig_bytes := ok_or NotHex (hex_decode sig_hex) in
  guard! Nat.eqb (length sig_bytes) 65 else BadSignatureLen (length sig_bytes) ;;
  let v := byte_val (nth 64 sig_bytes Byte.x00) in
  let? recovery_id_byte :=
    if (Z.eqb v 0 || Z.eqb v 1)%Z then Ok v
    else if (Z.eqb v 27 || Z.eqb v 28)%Z then Ok (v - 27)%Z
    else Err (UnsupportedV v) in
  let? recovery_id := ok_or BadRecoveryId (RecoveryId_try_from recovery_id_byte) in
  let? signature := ok_or BadSignature (Signature_from_slice (take 64 sig_bytes)) in
  let? vk := ok_or Recover (recover_from_prehash (eip191_digest message) signature recovery_id) in
  Ok (evm_address vk).

Definition verify_delegation (device_key_hash_hex sandbox_key scope : string)
    (expires_at : Z) (delegation_sig : string) : result DeviceCryptoError string :=
  let payload := delegation_payload device_key_hash_hex sandbox_key scope expires_at in
  let? recovered := ecrecover_eip191 payload delegation_sig in
  let? recovered_hash := device_key_hash recovered in
  guard! String.eqb (strip0x_lower recovered_hash) (strip0x_lower device_key_hash_hex)
    else DelegationMismatch ;;
  Ok recovered.

(** ** The device's own operations ([DeviceKey]) *)

Record DeviceKey := { sk : SigningKey; address : string }.

Definition DeviceKey_of (sk : SigningKey) : DeviceKey :=
  {| sk := sk; address := evm_address (verifying_key sk) |}.

Definition DeviceKey_device_key_hash (k : DeviceKey) : result DeviceCryptoError string :=
  device_key_hash (address k).

Definition DeviceKey_pop_sig (k : DeviceKey) : result DeviceCryptoError string :=
  let? dkh := DeviceKey_device_key_hash k in
  eip191_sign (sk k) (agent_pop_payload dkh).

Definition DeviceKey_delegation_sig (k : DeviceKey) (sandbox_key scope : string)
    (expires_at : Z) : result DeviceCryptoError string :=
  let? dkh := DeviceKey_device_key_hash k in
  eip191_sign (sk k) (delegation_payload dkh sandbox_key scope expires_at).

Definition DeviceKey_cap_pop_sig (k : DeviceKey) (operator_omni actor_omni service op
    data_class client_nonce : string) (client_ts : Z) : result DeviceCryptoError string :=
  eip191_sign (sk k)
    (cap_pop_payload operator_omni actor_omni service op data_class client_nonce client_ts).
End DeviceCore.

(** ** Lemmas *)

Lemma strip0x_lower_hex `{HexCodec} b : strip0x_lower ("0x" +:+ hex_encode b) = hex_encode b.
Proof. unfold strip0x_lower. by autorewrite with terrier_rw. Qed.

Lemma trim_0x_once `{HexCodec} b : trim_0x ("0x" +:+ hex_encode b) = hex_encode b.
Proof.
  cbn. pose proof (hex_encode_digits b) as Hd.
  destruct (hex_encode b) as [|c [|d s]]; [done | by destruct c as [[] [] [] [] [] [] [] []] |].
  cbn in Hd. reflect_bools.
  destruct (Ascii.eqb_spec d "x"%char) as [->|Hne]; [done|].
  destruct c as [[] [] [] [] [] [] [] []]; try done.
  destruct d as [[] [] [] [] [] [] [] []]; done.
Qed.

Lemma scope_token_grants_lower dc op svc tok :
  scope_token_grants dc op svc (to_lowercase tok) = scope_token_grants dc op svc tok.
Proof. unfold scope_token_grants. by rewrite lower_idem. Qed.

Lemma split_whitespace_norm scope :
  split_whitespace (norm_scope scope) = map to_lowercase (split_whitespace scope).
Proof.
  unfold norm_scope. rewrite split_whitespace_join by auto with terrier.
  apply split_whitespace_lower.
Qed.

Section DeviceCoreFacts.
Context `{HexCodec} `{Crypto}.

Lemma device_key_hash_evm_address vk :
  device_key_hash (evm_address vk) =
  Ok ("0x" +:+ hex_encode (keccak256 (drop 12 (keccak256 (encoded_point_xy vk))))).
Proof.
  change (device_key_hash (evm_address vk)) with
    (let? b := ok_or NotHex (hex_decode (strip0x_lower (evm_address vk))) in
     guard! Nat.eqb (length b) 20 else BadAddressLen (length b) ;;
     Ok ("0x" +:+ hex_encode (keccak256 b))).
  unfold evm_address. rewrite strip0x_lower_hex, hex_decode_encode. cbn [ok_or].
  rewrite length_drop, keccak256_length. done.
Qed.

Lemma nth_sig_byte s (r : Z) :
  nth 64 (Signature_to_bytes s ++ [byte_of_Z r])%list Byte.x00 = byte_of_Z r.
Proof. rewrite app_nth2; rewrite Signature_to_bytes_length; [done | lia]. Qed.

Lemma take_sig_bytes s (b : Byte.byte) :
  take 64 (Signature_to_bytes s ++ [b])%list = Signature_to_bytes s.
Proof. rewrite take_app_le, take_ge; rewrite ?Signature_to_bytes_length; lia || done. Qed.

(** Recovery inverts signing whenever the recovery id is 0 or 1. *)
Lemma ecrecover_sign sk msg sig :
  (forall s r, sign_prehash_recoverable sk (eip191_digest msg) = Some (s, r) ->
     (0 <= RecoveryId_to_byte r <= 1)%Z) ->
  eip191_sign sk msg = Ok sig ->
  ecrecover_eip191 msg sig = Ok (evm_address (verifying_key sk)).
Proof.
  unfold eip191_sign. intros Hr Hs.
  destruct (sign_prehash_recoverable _ _) as [[s r]|] eqn:E; [|done].
  specialize (Hr s r eq_refl). cbn [ok_or] in Hs.
  assert (sig = "0x" +:+ hex_encode (Signature_to_bytes s ++
    [byte_of_Z (27 + RecoveryId_to_byte r)])%list) as -> by congruence.
  unfold ecrecover_eip191.
  rewrite trim_0x_hex, trim_0x_once, hex_decode_encode. cbn [ok_or].
  rewrite length_app, Signature_to_bytes_length. cbn [length Nat.add Nat.eqb].
  rewrite nth_sig_byte, take_sig_bytes, byte_val_of_Z by lia.
  rewrite Signature_from_to. cbn [ok_or].
  assert ((27 + RecoveryId_to_byte r =? 0)%Z = false) as -> by (apply Z.eqb_neq; lia).
  assert ((27 + RecoveryId_to_byte r =? 1)%Z = false) as -> by (apply Z.eqb_neq; lia).
  assert (((27 + RecoveryId_to_byte r =? 27) || (27 + RecoveryId_to_byte r =? 28))%Z = true)
    as -> by (apply orb_true_iff; rewrite !Z.eqb_eq; lia).
  replace (27 + RecoveryId_to_byte r - 27)%Z with (RecoveryId_to_byte r) by lia.
  cbn. rewrite RecoveryId_from_to. cbn. by rewrite (recover_sign _ _ _ _ E).
Qed.
End DeviceCoreFacts.

(** ** A model of the interface, used by the witnesses *)
Module ToyCrypto.
Definition mix (i : nat) (b : bytes) : Z :=
  fold_left (fun acc x => (acc * 31 + byte_val x + Z.of_nat i) mod 65521)%Z b (Z.of_nat i + 1)%Z.

Definition hash (b : bytes) : bytes := map (fun i => byte_of_Z (mix i b)) (seq 0 32).

Definition bit (b : bool) : Byte.byte := if b then Byte.x01 else Byte.x00.

Definition from_slice (b : bytes) : option bool :=
  match b with Byte.x01 :: _ => Some true | Byte.x00 :: _ => Some false | _ => None end.

#[refine] Definition crypto : Crypto := {|
  keccak256 := hash;
  SigningKey := bool; VerifyingKey := bool; Signature := bool; RecoveryId := bool;
  SigningKey_from_slice := from_slice;
  verifying_key := id;
  encoded_point_xy := fun k => repeat (bit k) 64;
  Signature_from_slice := from_slice;
  Signature_to_bytes := fun k => repeat (bit k) 64;
  RecoveryId_try_from := fun z => if (z =? 0)%Z then Some false
                                  else if (z =? 1)%Z then Some true else None;
  RecoveryId_to_byte := fun r => if r then 1%Z else 0%Z;
  sign_prehash_recoverable := fun k d => Some (k, false);
  recover_from_prehash := fun d s r => Some s;
|}.
Proof.
  all: intros; try (by destruct s); try (by destruct r); try done; try naive_solver.
Defined.
End ToyCrypto.

(** ** Properties *)

(** A delegation's policy is a function of the bytes its signature covers:
    normalizing a scope (lowercase, one blank between tokens) changes no answer
    of [cap_in_scope], so two scopes that hash alike authorize alike. *)
Theorem scope_policy_of_signed_bytes (scope scope' data_class op service : string) :
  cap_in_scope (norm_scope scope) data_class op service
  = cap_in_scope scope data_class op service /\
  (norm_scope scope' = norm_scope scope ->
   cap_in_scope scope' data_class op service = cap_in_scope scope data_class op service).
Proof.
  assert (Hn : forall s, cap_in_scope (norm_scope s) data_class op service
                       = cap_in_scope s data_class op service).
  { intros s. unfold cap_in_scope. rewrite split_whitespace_norm.
    destruct (is_capability_service_token _); [done|].
    induction (split_whitespace s) as [|t ts IH]; [done|].
    cbn. by rewrite scope_token_grants_lower, IH. }
  split; [apply Hn|]. intros E. by rewrite <-Hn, E, Hn.
Qed.

Example scope_policy_of_signed_bytes_witness :
  norm_scope "memory   Credentials:*" = norm_scope "Memory credentials:*" /\
  cap_in_scope "memory   Credentials:*" "credentials" "fetch" "github"
  = cap_in_scope "Memory credentials:*" "credentials" "fetch" "github".
Proof.
  split; [reflexivity|].
  apply (scope_policy_of_signed_bytes "Memory credentials:*" "memory   Credentials:*"
           "credentials" "fetch" "github").
  reflexivity.
Defined.

(** What a delegation scope authorizes, exactly.  For a class and an
    operation of the schema, a cap is in scope iff its service is not of the
    capability family and some blank-separated token, not of that family
    either, is (up to case) the service, the class, [class:op] or [class:*]. *)
Theorem cap_in_scope_spec (scope : string) (c : DataClass) (o : CapOp) (service : string) :
  let dc := DataClass_as_str c in
  let svc := to_lowercase (trim service) in
  cap_in_scope scope dc (CapOp_as_str o) service = true <->
  is_capability_service_token svc = false /\
  exists tok, In tok (split_whitespace scope) /\
    is_capability_service_token (to_lowercase tok) = false /\
    In (to_lowercase tok) [svc; dc; dc +:+ ":" +:+ CapOp_as_str o; dc +:+ ":*"].
Proof.
  intros dc svc. unfold cap_in_scope.
  assert (to_lowercase (trim dc) = dc) as -> by (by destruct c).
  assert (to_lowercase (trim (CapOp_as_str o)) = CapOp_as_str o) as -> by (by destruct o).
  fold svc. destruct (is_capability_service_token svc); [naive_solver|].
  rewrite existsb_exists. split; [intros (tok & Hin & Hg) | intros (_ & tok & Hin & Hcap & Hg)].
  - split; [done|]. exists tok. split; [done|]. unfold scope_token_grants in Hg.
    destruct (is_capability_service_token _); [done|]. split; [done|].
    destruct (_ || _) eqn:E; [apply orb_true_iff in E as [E|E]; reflect_bools; cbn; auto|].
    destruct (split_once _ _) as [[d r]|] eqn:Es; [|done]. reflect_bools.
    apply split_once_spec in Es as [Es _]. rewrite Es. subst d.
    destruct H0 as [H0|H0]; reflect_bools; subst; cbn; auto.
  - exists tok. split; [done|]. unfold scope_token_grants. rewrite Hcap.
    destruct Hg as [<-|[<-|[Hg|[Hg|[]]]]].
    + by rewrite String.eqb_refl.
    + by rewrite String.eqb_refl, orb_true_r.
    + destruct (_ || _); [done|].
      rewrite (proj2 (split_once_spec ":"%char (to_lowercase tok) dc (CapOp_as_str o))).
      * by rewrite !String.eqb_refl.
      * split; [done|]. apply DataClass_as_str_no_colon.
    + destruct (_ || _); [done|].
      rewrite (proj2 (split_once_spec ":"%char (to_lowercase tok) dc "*")).
      * by rewrite !String.eqb_refl, orb_true_r.
      * split; [done|]. apply DataClass_as_str_no_colon.
Qed.

(** The cap proof-of-possession preimage is request-bound.  Two preimages
    agree only when every (normalized) field agrees: owner, actor, service,
    operation, data class, nonce (which may hold any character) and time stamp.
    The omnis hold no colon, and Keccak does not collide on the two services. *)
Theorem cap_pop_preimage_injective `{HexCodec} `{Crypto}
    (o a s n o' a' s' n' : string) (op op' : CapOp) (dc dc' : DataClass) (t t' : Z)
    (Ho : string_has ":" (strip0x_lower o) = false)
    (Ho' : string_has ":" (strip0x_lower o') = false)
    (Ha : string_has ":" (strip0x_lower a) = false)
    (Ha' : string_has ":" (strip0x_lower a') = false)
    (Ht : (0 <= t)%Z) (Ht' : (0 <= t')%Z)
    (Hs : keccak256 (as_bytes (to_lowercase (trim s)))
          = keccak256 (as_bytes (to_lowercase (trim s'))) ->
          to_lowercase (trim s) = to_lowercase (trim s')) :
  cap_pop_preimage o a s (CapOp_as_str op) (DataClass_as_str dc) n t
  = cap_pop_preimage o' a' s' (CapOp_as_str op') (DataClass_as_str dc') n' t' ->
  strip0x_lower o = strip0x_lower o' /\ strip0x_lower a = strip0x_lower a' /\
  to_lowercase (trim s) = to_lowercase (trim s') /\ op = op' /\ dc = dc' /\ n = n' /\ t = t'.
Proof.
  unfold cap_pop_preimage. intros E. apply (inj (String.append _)) in E.
  assert (Hcut : forall c x x' y y', string_has c x = false -> string_has c x' = false ->
    x +:+ String c y = x' +:+ String c y' -> x = x' /\ y = y') by apply split_first_inj.
  apply (Hcut ":"%char) in E as [Eo E]; [|done|done].
  apply (Hcut ":"%char) in E as [Ea E]; [|done|done].
  apply (Hcut ":"%char) in E as [Es E]; [|by apply hex_no_char|by apply hex_no_char].
  apply (Hcut ":"%char) in E as [Eop E]; [|by auto with terrier|by auto with terrier].
  apply (Hcut ":"%char) in E as [Edc E]; [|by auto with terrier|by auto with terrier].
  apply (split_last_inj ":"%char) in E as [En Et]; [|by apply dec_no_char|by apply dec_no_char].
  apply hex_encode_inj, Hs in Es. apply CapOp_as_str_inj in Eop.
  apply DataClass_as_str_inj in Edc. apply dec_inj in Et; [|done|done]. done.
Qed.

Example cap_pop_preimage_injective_witness :
  let _ := SimpleHex.codec in let _ := ToyCrypto.crypto in
  cap_pop_preimage "0xAB" "cd" "Memory" "fetch" "memory" "a:b" 7
  = cap_pop_preimage "ab" "0xCD" " memory" "fetch" "memory" "a:b" 7 /\
  strip0x_lower "0xAB" = strip0x_lower "ab" /\ strip0x_lower "cd" = strip0x_lower "0xCD" /\
  to_lowercase (trim "Memory") = to_lowercase (trim " memory") /\
  Fetch = Fetch /\ Memory = Memory /\ "a:b" = "a:b" /\ 7%Z = 7%Z.
Proof.
  split; [vm_compute; reflexivity|].
  apply (@cap_pop_preimage_injective SimpleHex.codec ToyCrypto.crypto
    "0xAB" "cd" "Memory" "a:b" "ab" "0xCD" " memory" "a:b" Fetch Fetch Memory Memory 7 7);
    vm_compute; done.
Defined.

(** A delegation the device signed verifies.  Whatever spelling of the
    scope and of the sandbox key the verifier holds, as long as they normalize
    alike, [verify_delegation] against the device's own key hash accepts the
    signature made by [DeviceKey_delegation_sig] and returns the device's
    address; the recovery id k256 gives is 0 or 1. *)
Theorem delegation_sign_verify `{HexCodec} `{Crypto} (k : SigningKey)
    (sandbox scope sandbox' scope' sig : string) (expires : Z)
    (Hr : forall d s r, sign_prehash_recoverable k d = Some (s, r) ->
            (0 <= RecoveryId_to_byte r <= 1)%Z)
    (Hsandbox : strip0x_lower sandbox' = strip0x_lower sandbox)
    (Hscope : norm_scope scope' = norm_scope scope)
    (Hsig : DeviceKey_delegation_sig (DeviceKey_of k) sandbox scope expires = Ok sig) :
  exists dkh, device_key_hash (evm_address (verifying_key k)) = Ok dkh /\
    verify_delegation dkh sandbox' scope' expires sig = Ok (evm_address (verifying_key k)).
Proof.
  unfold DeviceKey_delegation_sig, DeviceKey_device_key_hash in Hsig.
  cbn [DeviceKey_of sk address] in Hsig.
  rewrite device_key_hash_evm_address in *. eexists. split; [done|].
  set (dkh := "0x" +:+ hex_encode _) in *.
  unfold verify_delegation, delegation_payload, delegation_preimage.
  rewrite Hsandbox, Hscope. fold (delegation_preimage dkh sandbox scope expires).
  fold (delegation_payload dkh sandbox scope expires).
  rewrite (ecrecover_sign _ _ _ (fun s r => Hr _ s r) Hsig).
  rewrite device_key_hash_evm_address. fold dkh. by rewrite String.eqb_refl.
Qed.

Example delegation_sign_verify_witness :
  let _ := SimpleHex.codec in let _ := ToyCrypto.crypto in
  exists sig dkh, device_key_hash (evm_address (verifying_key (true : SigningKey))) = Ok dkh /\
    verify_delegation dkh "0xABCD" "memory  channel" 99 sig
    = Ok (evm_address (verifying_key (true : SigningKey))).
Proof.
  eexists.
  apply (@delegation_sign_verify SimpleHex.codec ToyCrypto.crypto true
    "abcd" "Memory channel" "0xABCD" "memory  channel" _ 99).
  - intros d s r [= <- <-]. split; discriminate.
  - reflexivity.
  - reflexivity.
  - vm_compute. reflexivity.
Defined.
