(* ===== verification/Crates.v ===== *)
(** * Interfaces of the third-party crates behind the verifiers

    SHA-256 ([sha2]), base64 ([base64], the STANDARD and URL-SAFE alphabets),
    ECDSA over P-256 ([p256]) and the canonical JSON of a cap payload
    ([serde_json]): each a class whose laws are the documented behaviour the
    code relies on, with a small model of each for the witnesses.  The secp256k1
    interface is [DeviceCore.Crypto], hex is [RustStr.HexCodec]. *)
From S2P Require Import Prelude RustStr StrFacts Capability.

Class Sha256 := {
  sha256 : bytes -> bytes;
  sha256_length : forall b, length (sha256 b) = 32;
}.

Class Base64 := {
  b64_encode : bytes -> string;
  b64_decode : string -> option bytes;
  b64_decode_encode : forall b, b64_decode (b64_encode b) = Some b;
  b64_encode_length : forall b,
    Z.of_nat (String.length (b64_encode b)) = (4 * ((Z.of_nat (length b) + 2) / 3))%Z;
}.

(** Errors are the text the crate reports. *)
Class P256 := {
  P256Key : Type;
  P256Signature : Type;
  b64url_decode : string -> result string bytes;
  P256_from_public_key_pem : string -> result string P256Key;
  P256_Signature_from_slice : bytes -> result string P256Signature;
  P256_verify : P256Key -> bytes -> P256Signature -> bool;
}.

(** [serde_json::to_vec(&token.payload)] *)
Class CapJson := {
  payload_to_vec : CapPayload -> result string bytes;
}.

(** ** Models *)

Module SimpleBase64.
Definition alphabet (n : Z) : Ascii.ascii :=
  Ascii.ascii_of_N (Z.to_N
    (if n <? 26 then 65 + n else if n <? 52 then 71 + n
     else if n <? 62 then n - 4 else if n =? 62 then 43 else 47)%Z).

Definition index (c : Ascii.ascii) : option Z :=
  let b := byte_of c in
  if is_ascii_uppercase c then Some (b - 65)%Z
  else if is_ascii_lowercase c then Some (b - 71)%Z
  else if is_ascii_digit c then Some (b + 4)%Z
  else if (b =? 43)%Z then Some 62%Z else if (b =? 47)%Z then Some 63%Z else None.

Definition digit_of (z : Z) : Ascii.ascii := alphabet (z mod 64).

Definition pad : Ascii.ascii := "="%char.

Fixpoint encode (b : bytes) : string :=
  match b with
  | [] => ""
  | [x] => let n := (byte_val x * 65536)%Z in
      String (digit_of (n / 262144)) (String (digit_of (n / 4096)) (String pad (String pad "")))
  | [x; y] => let n := (byte_val x * 65536 + byte_val y * 256)%Z in
      String (digit_of (n / 262144)) (String (digit_of (n / 4096))
        (String (digit_of (n / 64)) (String pad "")))
  | x :: y :: z :: b =>
      let n := (byte_val x * 65536 + byte_val y * 256 + byte_val z)%Z in
      String (digit_of (n / 262144)) (String (digit_of (n / 4096))
        (String (digit_of (n / 64)) (String (digit_of n) (encode b))))
  end.

Fixpoint decode (s : string) : option bytes :=
  match s with
  | "" => Some []
  | String a (String b (String c (String d s))) =>
      a ← index a; b ← index b;
      if Ascii.eqb c pad then
        if Ascii.eqb d pad then Some [byte_of_Z ((a * 64 + b) / 16)] else None
      else
        c ← index c;
        if Ascii.eqb d pad then
          let n := ((a * 64 + b) * 64 + c)%Z in
          Some [byte_of_Z (n / 1024); byte_of_Z (n / 4 mod 256)]
        else
          d ← index d; r ← decode s;
          let n := (((a * 64 + b) * 64 + c) * 64 + d)%Z in
          Some (byte_of_Z (n / 65536) :: byte_of_Z (n / 256 mod 256)
                :: byte_of_Z (n mod 256) :: r)
  | _ => None
  end.

Lemma alphabet_ok n : (0 <= n < 64)%Z ->
  index (alphabet n) = Some n /\ Ascii.eqb (alphabet n) pad = false.
Proof.
  intros Hn.
  assert (forallb (fun k => match index (alphabet (Z.of_nat k)) with
      | Some m => (m =? Z.of_nat k)%Z | None => false end
      && negb (Ascii.eqb (alphabet (Z.of_nat k)) pad)) (seq 0 64) = true) as Hall
    by (vm_compute; reflexivity).
  rewrite forallb_forall in Hall. specialize (Hall (Z.to_nat n)).
  rewrite in_seq, Z2Nat.id in Hall by lia.
  specialize (Hall ltac:(lia)). reflect_bools.
  destruct (index (alphabet n)); [|done]. reflect_bools. by subst.
Qed.

Lemma index_digit z : index (digit_of z) = Some (z mod 64)%Z.
Proof. apply alphabet_ok, Z.mod_pos_bound. lia. Qed.

Lemma digit_not_pad z : Ascii.eqb (digit_of z) pad = false.
Proof. apply alphabet_ok, Z.mod_pos_bound. lia. Qed.

Lemma byte_of_Z_eq z x : z = byte_val x -> byte_of_Z z = x.
Proof. intros ->. apply byte_of_Z_val. Qed.

Lemma decode_encode_fuel n b : length b <= n -> decode (encode b) = Some b.
Proof.
  revert b. induction n as [|n IH]; intros [|x [|y [|z b]]] Hn; cbn in Hn; try lia; try done;
    cbn [encode]; cbn [decode]; rewrite !index_digit; cbn [mbind option_bind];
    rewrite ?digit_not_pad; cbn [mbind option_bind];
    try (rewrite !(IH b) by lia; cbn [mbind option_bind]);
    cbn -[Z.div Z.modulo Z.mul Z.add byte_of_Z]; rewrite ?digit_not_pad, ?index_digit;
    cbn -[Z.div Z.modulo Z.mul Z.add byte_of_Z];
    try pose proof (byte_val_range x); try pose proof (byte_val_range y);
    try pose proof (byte_val_range z);
    repeat f_equal; apply byte_of_Z_eq; Z.div_mod_to_equations; lia.
Qed.

Lemma base64_decode_encode b : decode (encode b) = Some b.
Proof. by apply (decode_encode_fuel (length b)). Qed.

Lemma encode_length_fuel n b : length b <= n ->
  Z.of_nat (String.length (encode b)) = (4 * ((Z.of_nat (length b) + 2) / 3))%Z.
Proof.
  revert b. induction n as [|n IH]; intros [|x [|y [|z b]]] Hn; cbn in Hn; try lia; try done.
  cbn [encode String.length length]. specialize (IH b ltac:(lia)).
  Z.div_mod_to_equations; lia.
Qed.

Definition codec : Base64 := {|
  b64_encode := encode;
  b64_decode := decode;
  b64_decode_encode := base64_decode_encode;
  b64_encode_length := fun b => encode_length_fuel (length b) b (le_n _);
|}.
End SimpleBase64.

Module ToyVerifier.
(** A checksum in place of the hash, and signatures that carry the digest. *)
Definition sum_hash (b : bytes) : bytes :=
  map (fun i => byte_of_Z (fold_left (fun acc x => (acc * 37 + byte_val x) mod 65521) b
    (Z.of_nat i))%Z) (seq 0 32).

Lemma length_sum_hash b : length (sum_hash b) = 32.
Proof. unfold sum_hash. by rewrite length_map, length_seq. Qed.

Definition sha : Sha256 := {| sha256 := sum_hash; sha256_length := length_sum_hash |}.

Definition p256 : P256 := {|
  P256Key := string;
  P256Signature := bytes;
  b64url_decode := fun s => Ok (as_bytes s);
  P256_from_public_key_pem := fun s => if String.eqb s "" then Err "empty" else Ok s;
  P256_Signature_from_slice := fun b => Ok b;
  P256_verify := fun k d s => bool_decide (s = as_bytes k);
|}.

Definition json : CapJson := {|
  payload_to_vec := fun p => Ok (as_bytes (operator_omni p +:+ actor_omni p +:+ service p));
|}.
End ToyVerifier.
