(* ===== verification/ChainAbi.v ===== *)
(** * ABI words read from the chain

    [crates/agentkeys-protocol/src/chain_abi.rs]: the fixed-width decoder of the
    values that authorize a request.  [abi_word] and the [encode_] functions are
    the specification (Solidity's encoding of the same values): the decoder
    accepts exactly the canonical encodings. *)
From S2P Require Import Prelude RustStr.

Open Scope Z_scope.

Definition ABI_WORD_BYTES : nat := 32.
Definition DEVICE_RECORD_WORDS : nat := 11.

Record DeviceRecord := {
  rec_operator_omni : bytes;
  rec_actor_omni : bytes;
  k11_cred_id : bytes;
  k11_rp_id_hash : bytes;
  k11_pub_x : bytes;
  k11_pub_y : bytes;
  tier : Z;
  roles : Z;
  registered_at : Z;
  last_sign_count : Z;
  revoked : bool;
}.

Definition is_registered (r : DeviceRecord) : bool := negb (registered_at r =? 0).

Definition unsigned (raw : bytes) (width : nat) : result string Z :=
  guard! Nat.eqb (length raw) ABI_WORD_BYTES else "expected exactly one ABI word" ;;
  guard! forallb is_zero_byte (take (ABI_WORD_BYTES - width) raw)
    else "noncanonical ABI integer padding" ;;
  Ok (be_val (drop (ABI_WORD_BYTES - 8) raw)).

Definition decode_u64 (raw : bytes) : result string Z := unsigned raw 8.

Definition decode_bool (raw : bytes) : result string bool :=
  let? n := unsigned raw 1 in
  if n =? 0 then Ok false
  else if n =? 1 then Ok true
  else Err "noncanonical ABI boolean".

(** [raw[i*32 .. (i+1)*32]] *)
Definition word (raw : bytes) (i : nat) : bytes :=
  take ABI_WORD_BYTES (drop (i * ABI_WORD_BYTES) raw).

Definition decode_device_record (raw : bytes) : result string DeviceRecord :=
  guard! Nat.eqb (length raw) (DEVICE_RECORD_WORDS * ABI_WORD_BYTES)
    else "getDevice requires eleven ABI words" ;;
  let? tier := unsigned (word raw 6) 1 in
  let? roles := unsigned (word raw 7) 1 in
  let? registered_at := decode_u64 (word raw 8) in
  let? last_sign_count := unsigned (word raw 9) 4 in
  let? revoked := decode_bool (word raw 10) in
  Ok {|
    rec_operator_omni := word raw 0;
    rec_actor_omni := word raw 1;
    k11_cred_id := word raw 2;
    k11_rp_id_hash := word raw 3;
    k11_pub_x := word raw 4;
    k11_pub_y := word raw 5;
    tier := tier mod 2 ^ 8;
    roles := roles mod 2 ^ 8;
    registered_at := registered_at;
    last_sign_count := last_sign_count mod 2 ^ 32;
    revoked := revoked;
  |}.

Record AccountSignerRecord := {
  signer_pub_x : bytes;
  signer_pub_y : bytes;
  signer_rp_id_hash : bytes;
  signer_active : bool;
  signer_generation : option Z;
}.

Definition decode_account_signer (raw : bytes) : result string AccountSignerRecord :=
  guard! (Nat.eqb (length raw) 128 || Nat.eqb (length raw) 160)
    else "signers() returned " +:+ dec (Z.of_nat (length raw)) +:+ " bytes; expected 128 or 160" ;;
  let? active := decode_bool (word raw 3) in
  let? generation :=
    if Nat.eqb (length raw) 160 then let? g := decode_u64 (word raw 4) in Ok (Some g)
    else Ok None in
  Ok {|
    signer_pub_x := word raw 0;
    signer_pub_y := word raw 1;
    signer_rp_id_hash := word raw 2;
    signer_active := active;
    signer_generation := generation;
  |}.

(** ** Specification: the canonical encodings *)

Definition abi_word (z : Z) : bytes := be_bytes 32 z.
Definition abi_bool (b : bool) : bytes := abi_word (if b then 1 else 0).

Definition encode_device_record (r : DeviceRecord) : bytes :=
  (rec_operator_omni r ++ rec_actor_omni r ++ k11_cred_id r ++ k11_rp_id_hash r
   ++ k11_pub_x r ++ k11_pub_y r ++ abi_word (tier r) ++ abi_word (roles r)
   ++ abi_word (registered_at r) ++ abi_word (last_sign_count r) ++ abi_bool (revoked r))%list.

Definition device_record_wf (r : DeviceRecord) : Prop :=
  Forall (fun w => length w = 32%nat)
    [rec_operator_omni r; rec_actor_omni r; k11_cred_id r; k11_rp_id_hash r;
     k11_pub_x r; k11_pub_y r] /\
  0 <= tier r < 2 ^ 8 /\ 0 <= roles r < 2 ^ 8 /\ 0 <= registered_at r < 2 ^ 64 /\
  0 <= last_sign_count r < 2 ^ 32.

Definition encode_account_signer (r : AccountSignerRecord) : bytes :=
  (signer_pub_x r ++ signer_pub_y r ++ signer_rp_id_hash r ++ abi_bool (signer_active r)
   ++ match signer_generation r with Some g => abi_word g | None => [] end)%list.

Definition account_signer_wf (r : AccountSignerRecord) : Prop :=
  length (signer_pub_x r) = 32%nat /\ length (signer_pub_y r) = 32%nat /\
  length (signer_rp_id_hash r) = 32%nat /\
  match signer_generation r with Some g => 0 <= g < 2 ^ 64 | None => True end.

(** ** Lemmas *)

Lemma length_abi_word z : length (abi_word z) = 32%nat.
Proof. apply length_be_bytes. Qed.

Lemma abi_word_pad width z : (width <= 32)%nat -> 0 <= z < 256 ^ Z.of_nat width ->
  abi_word z = (zeros (32 - width) ++ be_bytes width z)%list.
Proof.
  intros Hw Hz. unfold abi_word. rewrite <-be_bytes_pad by done.
  by replace (32 - width + width)%nat with 32%nat by lia.
Qed.

(** One word: [unsigned] accepts exactly the words of the numbers that fit. *)
Lemma unsigned_spec raw width z : (width <= 8)%nat ->
  unsigned raw width = Ok z <-> 0 <= z < 256 ^ Z.of_nat width /\ raw = abi_word z.
Proof.
  intros Hw. unfold unsigned, ABI_WORD_BYTES.
  rewrite !guard_ok, Nat.eqb_eq, forallb_zeros.
  change (32 - 8)%nat with 24%nat. split.
  - intros (Hl & Hz & [= <-]).
    rewrite length_take, Nat.min_l in Hz by lia.
    assert (Hraw : raw = (zeros (32 - width) ++ drop (32 - width) raw)%list)
      by (rewrite <-Hz; symmetry; apply take_drop).
    assert (Hsuf : be_val (drop 24 raw) = be_val raw).
    { rewrite Hraw, drop_app_le by (rewrite length_zeros; lia).
      unfold zeros. rewrite drop_replicate.
      change (replicate ?n Byte.x00) with (zeros n). by rewrite !be_val_zeros. }
    rewrite Hsuf. split; [|by unfold abi_word; rewrite <-Hl, be_bytes_val].
    rewrite Hraw, be_val_zeros.
    pose proof (be_val_range (drop (32 - width) raw)) as Hr.
    rewrite length_drop, Hl in Hr. by replace (32 - (32 - width))%nat with width in Hr by lia.
  - intros [Hz ->].
    assert (Hz8 : 0 <= z < 256 ^ Z.of_nat 8).
    { split; [lia|]. eapply Z.lt_le_trans; [apply Hz|]. apply Z.pow_le_mono_r; lia. }
    rewrite length_abi_word. split; [done|]. split.
    + rewrite (abi_word_pad width) by (lia || done).
      rewrite take_app_length' by (by rewrite length_zeros). by rewrite length_zeros.
    + rewrite (abi_word_pad 8) by (lia || done).
      rewrite drop_app_length' by done. by rewrite be_val_bytes_small.
Qed.

Lemma decode_u64_spec raw z :
  decode_u64 raw = Ok z <-> 0 <= z < 2 ^ 64 /\ raw = abi_word z.
Proof. unfold decode_u64. by rewrite unsigned_spec by lia. Qed.

Lemma decode_bool_spec raw b : decode_bool raw = Ok b <-> raw = abi_bool b.
Proof.
  unfold decode_bool, abi_bool. rewrite let_ok. setoid_rewrite unsigned_spec; [|lia].
  split.
  - intros (z & [_ ->] & Hb). destruct (z =? 0) eqn:E0; reflect_bools; [by simplify_eq|].
    destruct (z =? 1) eqn:E1; reflect_bools; by simplify_eq.
  - intros ->. exists (if b then 1 else 0). by destruct b.
Qed.

(** A string of whole words is the concatenation of its words. *)
Lemma words_split raw n : length raw = (n * 32)%nat ->
  raw = concat (map (word raw) (seq 0 n)).
Proof.
  revert raw. induction n as [|n IH]; intros raw Hl; [by apply nil_length_inv|].
  cbn [seq map concat]. rewrite <-seq_shift, map_map.
  assert (word raw 0 = take 32 raw) as ->
    by (unfold word, ABI_WORD_BYTES; by rewrite Nat.mul_0_l, drop_0).
  rewrite <-(take_drop 32 raw) at 1. f_equal.
  rewrite (IH (drop 32 raw)) at 1 by (rewrite length_drop; lia).
  f_equal. apply map_ext. intros i. unfold word, ABI_WORD_BYTES.
  rewrite drop_drop. do 2 f_equal; lia.
Qed.

Lemma word_app_0 w r : length w = 32%nat -> word (w ++ r)%list 0 = w.
Proof. intros. unfold word, ABI_WORD_BYTES. by rewrite Nat.mul_0_l, drop_0, take_app_length'. Qed.

Lemma word_app_S w r i : length w = 32%nat -> word (w ++ r)%list (S i) = word r i.
Proof.
  intros. unfold word, ABI_WORD_BYTES.
  rewrite drop_app_ge by lia. do 2 f_equal. lia.
Qed.

Lemma length_word raw i : ((i + 1) * 32 <= length raw)%nat -> length (word raw i) = 32%nat.
Proof. intros. unfold word, ABI_WORD_BYTES. rewrite length_take, length_drop. lia. Qed.

(** Read the words of an explicit concatenation. *)
Ltac read_words :=
  repeat (rewrite word_app_S by first [assumption | apply length_abi_word]);
  repeat (rewrite word_app_0 by first [assumption | apply length_abi_word]).

(** ** Properties *)

(** The device record decoder is the strict inverse of the ABI encoding.
    It accepts a byte string exactly when the string is the canonical encoding of
    a well-formed record, and then returns that record: no truncation, no
    non-canonical padding, no fallback value. *)
Theorem decode_device_record_exact (raw : bytes) (r : DeviceRecord) :
  decode_device_record raw = Ok r <-> device_record_wf r /\ raw = encode_device_record r.
Proof.
  unfold decode_device_record, DEVICE_RECORD_WORDS, ABI_WORD_BYTES. split.
  - intros Hd. apply guard_ok in Hd as [Hl%Nat.eqb_eq Hd].
    apply let_ok in Hd as (t & [Ht Et]%unsigned_spec & Hd); [|lia].
    apply let_ok in Hd as (ro & [Hro Ero]%unsigned_spec & Hd); [|lia].
    apply let_ok in Hd as (ra & [Hra Era]%decode_u64_spec & Hd).
    apply let_ok in Hd as (c & [Hc Ec]%unsigned_spec & Hd); [|lia].
    apply let_ok in Hd as (b & Eb%decode_bool_spec & [= <-]).
    unfold device_record_wf, encode_device_record.
    cbn [rec_operator_omni rec_actor_omni k11_cred_id k11_rp_id_hash k11_pub_x k11_pub_y
         tier roles registered_at last_sign_count revoked].
    rewrite !Z.mod_small by done. split.
    + split; [|done]. repeat constructor; apply length_word; lia.
    + rewrite <-Et, <-Ero, <-Era, <-Ec, <-Eb.
      rewrite (words_split raw 11) at 1 by done. cbn -[word]. by rewrite app_nil_r.
  - destruct r as [o a ci rp px py ti ro ra sc rv].
    unfold device_record_wf, encode_device_record.
    cbn [rec_operator_omni rec_actor_omni k11_cred_id k11_rp_id_hash k11_pub_x k11_pub_y
         tier roles registered_at last_sign_count revoked].
    rewrite !Forall_cons. intros [[(? & ? & ? & ? & ? & ? & _) (Ht & Hro & Hra & Hc)] ->].
    apply guard_ok. split.
    { rewrite !length_app. unfold abi_bool. rewrite !length_abi_word.
      apply Nat.eqb_eq. lia. }
    read_words. rewrite <-(app_nil_r (abi_bool rv)), word_app_0 by apply length_abi_word.
    rewrite (proj2 (unsigned_spec (abi_word ti) 1 ti ltac:(lia))) by done.
    rewrite (proj2 (unsigned_spec (abi_word ro) 1 ro ltac:(lia))) by done.
    rewrite (proj2 (decode_u64_spec (abi_word ra) ra)) by done.
    rewrite (proj2 (unsigned_spec (abi_word sc) 4 sc ltac:(lia))) by done.
    rewrite (proj2 (decode_bool_spec (abi_bool rv) rv)) by done.
    by rewrite !Z.mod_small.
Qed.

(** The account-signer record: 128 bytes without a generation, 160 with one. *)
Lemma decode_account_signer_exact (raw : bytes) (r : AccountSignerRecord) :
  decode_account_signer raw = Ok r <-> account_signer_wf r /\ raw = encode_account_signer r.
Proof.
  unfold decode_account_signer. split.
  - intros Hd. apply guard_ok in Hd as [Hl Hd].
    apply let_ok in Hd as (b & Eb%decode_bool_spec & Hd).
    apply let_ok in Hd as (g & Hg & [= <-]).
    unfold account_signer_wf, encode_account_signer.
    cbn [signer_pub_x signer_pub_y signer_rp_id_hash signer_active signer_generation].
    rewrite <-Eb. apply orb_true_iff in Hl as [Hl|Hl]; apply Nat.eqb_eq in Hl; rewrite Hl in Hg.
    + injection Hg as <-. rewrite !length_word by lia. split; [done|].
      rewrite (words_split raw 4) at 1 by done. done.
    + apply let_ok in Hg as (n & [Hn En]%decode_u64_spec & [= <-]).
      rewrite !length_word by lia. split; [done|]. rewrite <-En.
      rewrite (words_split raw 5) at 1 by done. cbn -[word]. by rewrite app_nil_r.
  - destruct r as [px py rp ac ge]. unfold account_signer_wf, encode_account_signer.
    cbn [signer_pub_x signer_pub_y signer_rp_id_hash signer_active signer_generation].
    intros [(? & ? & ? & Hg) ->].
    assert (Hb : length (abi_bool ac) = 32%nat) by apply length_abi_word.
    assert (Hw : forall rest, word (px ++ py ++ rp ++ abi_bool ac ++ rest)%list 3 = abi_bool ac)
      by (intros; by rewrite !word_app_S, word_app_0).
    rewrite !length_app, Hb, Hw, (proj2 (decode_bool_spec _ ac)) by done.
    destruct ge as [g|]; cbn [length].
    + rewrite length_abi_word. replace (Nat.eqb _ 160) with true by (symmetry; apply Nat.eqb_eq; lia).
      rewrite orb_true_r, !word_app_S by done.
      rewrite <-(app_nil_r (abi_word g)), word_app_0 by apply length_abi_word.
      rewrite (proj2 (decode_u64_spec _ g)) by done. cbn beta iota. by read_words.
    + replace (Nat.eqb _ 128) with true by (symmetry; apply Nat.eqb_eq; lia).
      replace (Nat.eqb _ 160) with false by (symmetry; apply Nat.eqb_neq; lia).
      cbn [orb]. by read_words.
Qed.
