(* ===== verification/CapabilityVerify.v ===== *)
(** * Independent verification of a capability

    [crates/agentkeys-core/src/capability_verify.rs] with the chain-value parsers
    of [crates/agentkeys-core/src/registry.rs]: the broker signature, the actor's
    proof of possession and its delegation, freshness, and the authority read
    from the chain.  The clock is an argument of each check; the RPC endpoint is
    the Section variable [rpc], which answers attempt by attempt. *)
From S2P Require Import Prelude RustStr StrFacts Capability DeviceCore.
From S2P Require Import Crates ChainAbi.

Open Scope Z_scope.

Definition ROLE_CAP_MINT : Z := 1.
Definition CAP_POP_MAX_AGE_SECS : Z := 300.

Inductive VerifyError :=
| BrokerKey (e : string)
| SigDecode (e : string)
| SigParse (e : string)
| SigInvalid
| Encode (e : string)
| Expired (expires_at now : Z)
| Future (issued_at now : Z)
| OpMismatch (expected got : CapOp)
| DataClassMismatch (expected got : DataClass)
| ChainRpc (e : string)
| NotInScope
| CapabilityService
| DeviceInactive
| DeviceMismatch (field : string)
| DeviceRoleMissing (got : Z)
| K3Mismatch (expected got : Z)
| CapPopMissing
| CapPopInvalid (e : string)
| CapPopStale (client_ts now : Z)
| CapPopMismatch
| DelegationExpired (expires_at now : Z)
| DelegationOutOfScope (scope data_class op service : string)
| DelegationInvalid (e : string).

(** ** Text helpers *)

Definition strip_0x (s : string) : string := default s (strip_prefix "0x" s).

Definition strip_0x_lc (s : string) : string := to_lowercase (strip_0x s).

Definition pad32 (s : string) : result VerifyError string :=
  let stripped := strip_0x s in
  guard! Nat.eqb (String.length stripped) 64
    else ChainRpc ("expected 64-hex (32 bytes), got "
                   +:+ dec (Z.of_nat (String.length stripped)) +:+ " chars") ;;
  Ok (to_lowercase stripped).

(** [m.contains(p)] *)
Fixpoint contains (p m : string) : bool :=
  starts_with p m || match m with "" => false | String _ m => contains p m end.

(** ** The checks on the token alone *)

Section TokenChecks.
Context `{HexCodec} `{Crypto} `{Sha256} `{P256} `{CapJson}.

Definition parse_p256_pubkey_pem (pem : string) : result VerifyError P256Key :=
  map_err BrokerKey (P256_from_public_key_pem pem).

Definition validate_broker_public_key (pem : string) : result VerifyError unit :=
  let? _ := parse_p256_pubkey_pem pem in Ok tt.

Definition verify_signature (pubkey_pem : string) (token : CapToken)
    : result VerifyError unit :=
  let? canonical := map_err Encode (payload_to_vec (payload token)) in
  let digest := sha256 canonical in
  let? sig_bytes := map_err SigDecode (b64url_decode (broker_sig token)) in
  let? sig := map_err SigParse (P256_Signature_from_slice sig_bytes) in
  let? vk := parse_p256_pubkey_pem pubkey_pem in
  guard! P256_verify vk digest sig else SigInvalid ;;
  Ok tt.

Definition check_op (token : CapToken) (expected : CapOp) : result VerifyError unit :=
  guard! bool_decide (op (payload token) = expected)
    else OpMismatch expected (op (payload token)) ;;
  Ok tt.

Definition check_data_class (token : CapToken) (expected : DataClass)
    : result VerifyError unit :=
  guard! negb (is_capability_service (service (payload token))) else CapabilityService ;;
  guard! bool_decide (data_class (payload token) = expected)
    else DataClassMismatch expected (data_class (payload token)) ;;
  Ok tt.

Definition check_delegation (token : CapToken) (sandbox_key : string)
    (deleg : DelegationPath) (now : Z) : result VerifyError unit :=
  guard! negb (deleg_expires_at deleg <=? now)
    else DelegationExpired (deleg_expires_at deleg) now ;;
  let data_class := DataClass_as_str (data_class (payload token)) in
  let op := CapOp_as_str (op (payload token)) in
  let service := service (payload token) in
  guard! cap_in_scope (deleg_scope deleg) data_class op service
    else DelegationOutOfScope (deleg_scope deleg) data_class op service ;;
  let? _ := map_err (fun e => DelegationInvalid (display_device_error e))
    (verify_delegation (payload_device_key_hash (payload token)) sandbox_key
       (deleg_scope deleg) (deleg_expires_at deleg) (delegation_sig deleg)) in
  Ok tt.

Definition check_client_pop (token : CapToken) (max_age_secs now : Z)
    : result VerifyError unit :=
  let? client_sig := ok_or CapPopMissing (client_sig token) in
  let? client_nonce := ok_or CapPopMissing (client_nonce token) in
  let? client_ts := ok_or CapPopMissing (client_ts token) in
  guard! negb ((u64_add now 60 <? client_ts)
               || (max_age_secs <? u64_saturating_sub now client_ts))
    else CapPopStale client_ts now ;;
  let p := payload token in
  let preimage := cap_pop_payload (operator_omni p) (actor_omni p) (service p)
    (CapOp_as_str (op p)) (DataClass_as_str (data_class p)) client_nonce client_ts in
  let? recovered := map_err (fun e => CapPopInvalid (display_device_error e))
    (ecrecover_eip191 preimage client_sig) in
  let? recovered_hash := map_err (fun e => CapPopInvalid (display_device_error e))
    (device_key_hash recovered) in
  if String.eqb (strip_0x_lc recovered_hash) (strip_0x_lc (payload_device_key_hash p))
  then Ok tt
  else match delegation_path token with
       | Some deleg => check_delegation token recovered deleg now
       | None => Err CapPopMismatch
       end.

Definition enforce_client_pop (token : CapToken) (now : Z) : result VerifyError unit :=
  check_client_pop token CAP_POP_MAX_AGE_SECS now.

Definition check_freshness (token : CapToken) (now : Z) : result VerifyError unit :=
  guard! negb (cap_expires_at (payload token) <=? now)
    else Expired (cap_expires_at (payload token)) now ;;
  guard! negb (u64_add now 60 <? issued_at (payload token))
    else Future (issued_at (payload token)) now ;;
  Ok tt.
End TokenChecks.

(** ** Chain values as text *)

Section ChainText.
Context `{HexCodec} `{Crypto}.

Definition decode_hex (raw : string) : result string bytes :=
  ok_or "invalid ABI hex encoding" (hex_decode (strip_0x raw)).

Definition parse_device_probe (raw : string) : result string DeviceRecord :=
  let? b := decode_hex raw in decode_device_record b.

Definition parse_bool (raw : string) : result VerifyError bool :=
  map_err ChainRpc (let? b := decode_hex raw in decode_bool b).

Definition parse_u64 (raw : string) : result VerifyError Z :=
  map_err ChainRpc (let? b := decode_hex raw in decode_u64 b).

Record OnChainDevice := {
  dev_operator_omni : string;
  dev_actor_omni : string;
  dev_roles : Z;
  dev_registered_at : Z;
  dev_revoked : bool;
}.

Definition parse_device_entry (raw : string) : result VerifyError OnChainDevice :=
  let? record := map_err ChainRpc (parse_device_probe raw) in
  Ok {|
    dev_operator_omni := hex_encode (rec_operator_omni record);
    dev_actor_omni := hex_encode (rec_actor_omni record);
    dev_roles := roles record;
    dev_registered_at := registered_at record;
    dev_revoked := revoked record;
  |}.

Definition function_selector (sig : string) : string :=
  hex_encode (take 4 (keccak256 (as_bytes sig))).

Definition keccak_lc_service (name : string) : string :=
  "0x" +:+ hex_encode (keccak256 (as_bytes (to_lowercase name))).

(** [registry::verify_agent_pop]; errors are the contexts the code attaches. *)
Definition verify_agent_pop (device_key_hash_text signature : string)
    : result string string :=
  let? hash := ok_or "invalid hex" (hex_decode (strip_0x device_key_hash_text)) in
  guard! Nat.eqb (length hash) 32 else "device key hash must be 32 bytes" ;;
  let canonical := "0x" +:+ hex_encode hash in
  let? address := map_err (fun _ => "invalid device proof of possession")
    (ecrecover_eip191 (agent_pop_payload canonical) signature) in
  let? h := map_err display_device_error (device_key_hash address) in
  guard! String.eqb h canonical else "proof does not match device key hash" ;;
  Ok address.
End ChainText.

(** ** JSON-RPC with retries *)

(** What the code observes of a JSON-RPC error object. *)
Record RpcError := {
  err_code : option Z;
  err_message : option string;
  err_display : string;
}.

(** The outcome of one attempt. *)
Inductive RpcAttempt :=
| SendError (e : string)
| ServerError (status : string)
| BadJson (e : string)
| Reply (error : option RpcError) (result_str : option string).

Definition is_rate_limit_error (err : RpcError) : bool :=
  match err_code err with
  | Some (-32016) | Some (-32005) | Some (-32029) => true
  | _ =>
      match err_message err with
      | Some m =>
          let m := to_lowercase m in
          contains "rate limit" m || contains "too many requests" m
          || contains "limit exceeded" m
      | None => false
      end
  end.

Definition ATTEMPTS : nat := 5.

(** What an attempt settles: an answer, or the text kept for the last error. *)
Definition attempt_outcome (a : RpcAttempt) : result VerifyError string + string :=
  match a with
  | SendError e => inr ("eth_call POST: " +:+ e)
  | ServerError status => inr ("eth_call HTTP " +:+ status)
  | BadJson e => inr ("eth_call json: " +:+ e)
  | Reply (Some err) _ =>
      if is_rate_limit_error err
      then inr ("eth_call rate-limited: " +:+ err_display err)
      else inl (Err (ChainRpc ("rpc error: " +:+ err_display err)))
  | Reply None (Some s) => inl (Ok s)
  | Reply None None => inl (Err (ChainRpc "missing 'result'"))
  end.

(** The pause before attempt [n], in milliseconds. *)
Definition backoff_ms (attempt : nat) : Z :=
  150 * Z.shiftl 1 (Z.of_nat attempt - 1).

(** [for attempt in 0..ATTEMPTS]: [fuel] attempts are left, [attempt] were made.
    Returns the result and the pauses taken. *)
Fixpoint eth_call_loop (answer : nat -> RpcAttempt) (fuel attempt : nat) (last : string)
    : result VerifyError string * list Z :=
  match fuel with
  | O => (Err (ChainRpc ("eth_call failed after " +:+ dec (Z.of_nat ATTEMPTS)
                         +:+ " attempts: " +:+ last)), [])
  | S fuel =>
      let pause := if (0 <? attempt)%nat then [backoff_ms attempt] else [] in
      match attempt_outcome (answer attempt) with
      | inl r => (r, pause)
      | inr last =>
          let '(r, pauses) := eth_call_loop answer fuel (S attempt) last in
          (r, (pause ++ pauses)%list)
      end
  end.

Definition eth_call (answer : nat -> RpcAttempt) : result VerifyError string :=
  (eth_call_loop answer ATTEMPTS 0 "").1.

(** ** The checks against the chain *)

Section ChainChecks.
Context `{HexCodec} `{Crypto}.
(** The endpoint: URL, contract address, call data, attempt number. *)
Variable rpc : string -> string -> string -> nat -> RpcAttempt.

Definition get_chain_device (rpc_url registry device_key_hash : string)
    : result VerifyError OnChainDevice :=
  let selector := function_selector "getDevice(bytes32)" in
  let? arg := pad32 device_key_hash in
  let data := "0x" +:+ selector +:+ arg in
  let? raw := eth_call (rpc rpc_url registry data) in
  parse_device_entry raw.

Definition check_chain_device (rpc_url registry : string) (token : CapToken)
    : result VerifyError unit :=
  let? device := get_chain_device rpc_url registry
                   (payload_device_key_hash (payload token)) in
  guard! negb ((dev_registered_at device =? 0) || dev_revoked device)
    else DeviceInactive ;;
  let req_operator := strip_0x_lc (operator_omni (payload token)) in
  let req_actor := strip_0x_lc (actor_omni (payload token)) in
  guard! String.eqb (dev_operator_omni device) req_operator
    else DeviceMismatch "operator_omni" ;;
  guard! String.eqb (dev_actor_omni device) req_actor
    else DeviceMismatch "actor_omni" ;;
  guard! negb (Z.land (dev_roles device) ROLE_CAP_MINT =? 0)
    else DeviceRoleMissing (dev_roles device) ;;
  Ok tt.

Definition check_chain_scope (rpc_url scope_contract : string) (token : CapToken)
    : result VerifyError unit :=
  let selector := function_selector "isServiceInScope(bytes32,bytes32,bytes32)" in
  let? a := pad32 (operator_omni (payload token)) in
  let? b := pad32 (actor_omni (payload token)) in
  if String.eqb a b then Ok tt
  else
    let service_hash := keccak_lc_service (service (payload token)) in
    let? c := pad32 service_hash in
    let data := "0x" +:+ selector +:+ a +:+ b +:+ c in
    let? raw := eth_call (rpc rpc_url scope_contract data) in
    let? granted := parse_bool raw in
    guard! granted else NotInScope ;;
    Ok tt.

Definition check_chain_k3_epoch (rpc_url epoch_contract : string) (token : CapToken)
    : result VerifyError unit :=
  let selector := function_selector "currentEpoch()" in
  let data := "0x" +:+ selector in
  let? raw := eth_call (rpc rpc_url epoch_contract data) in
  let? on_chain := parse_u64 raw in
  guard! on_chain =? k3_epoch (payload token)
    else K3Mismatch on_chain (k3_epoch (payload token)) ;;
  Ok tt.
End ChainChecks.

(** ** Lemmas *)

Section VerifyFacts.
Context `{HexCodec} `{Crypto}.

(** The fresh window, once [now + 60] does not overflow. *)
Lemma pop_window now ts max :
  is_u64 (now + 60) -> is_u64 now ->
  negb ((u64_add now 60 <? ts) || (max <? u64_saturating_sub now ts)) = true <->
  ts <= now + 60 /\ (0 <= max -> now - max <= ts) /\ (max < 0 -> False).
Proof.
  intros Hs Hn. unfold u64_add, u64_saturating_sub. rewrite wrap_u64_small by done.
  rewrite negb_true_iff, orb_false_iff, !Z.ltb_ge. lia.
Qed.

Lemma strip_0x_lc_hex b : strip_0x_lc ("0x" +:+ hex_encode b) = hex_encode b.
Proof. unfold strip_0x_lc, strip_0x. cbn. apply hex_encode_lower. Qed.
End VerifyFacts.

(** Attempts before [i] are all retried. *)
Definition retried_before (answer : nat -> RpcAttempt) (i : nat) : Prop :=
  forall j, (j < i)%nat -> exists e, attempt_outcome (answer j) = inr e.

Definition pauses_upto (i : nat) : list Z := map backoff_ms (seq 1 i).

Lemma eth_call_loop_settled answer fuel k i last r :
  (forall j, (k <= j < k + i)%nat -> exists e, attempt_outcome (answer j) = inr e) ->
  attempt_outcome (answer (k + i)%nat) = inl r -> (i < fuel)%nat ->
  eth_call_loop answer fuel k last =
    (r, concat (map (fun j => if (0 <? j)%nat then [backoff_ms j] else []) (seq k (S i)))).
Proof.
  revert fuel k last. induction i as [|i IH]; intros [|fuel] k last Hj Hr Hf; try lia; cbn.
  - rewrite Nat.add_0_r in Hr. rewrite Hr. by rewrite app_nil_r.
  - destruct (Hj k ltac:(lia)) as [e He]. rewrite He.
    rewrite (IH fuel (S k) e); [done | | | lia].
    + intros j Hj'. apply Hj. lia.
    + by replace (S k + i)%nat with (k + S i)%nat by lia.
Qed.

Lemma eth_call_loop_exhausted answer fuel k last :
  (forall j, (k <= j < k + fuel)%nat -> exists e, attempt_outcome (answer j) = inr e) ->
  exists e, (eth_call_loop answer fuel k last).1 = Err (ChainRpc e).
Proof.
  revert k last. induction fuel as [|fuel IH]; intros k last Hj; cbn; [eauto|].
  destruct (Hj k ltac:(lia)) as [e He]. rewrite He.
  destruct (IH (S k) e) as [e' He']; [intros j ?; apply Hj; lia|].
  destruct (eth_call_loop answer fuel (S k) e). eauto.
Qed.

(** ** Properties *)

(** The retry loop of [eth_call].  The call's result is the first settled
    attempt among the first five, reached after at most the pauses 150, 300, 600
    and 1200 ms; when all five are transient failures the call fails with a
    chain error.  Later attempts are never made. *)
Theorem eth_call_first_settled (answer : nat -> RpcAttempt) :
  (forall i r, (i < ATTEMPTS)%nat -> retried_before answer i ->
     attempt_outcome (answer i) = inl r ->
     eth_call_loop answer ATTEMPTS 0 "" = (r, pauses_upto i) /\
     pauses_upto i `prefix_of` [150; 300; 600; 1200]) /\
  (retried_before answer ATTEMPTS -> exists e, eth_call answer = Err (ChainRpc e)).
Proof.
  split.
  - intros i r Hi Hb Hr. split.
    + rewrite (eth_call_loop_settled answer ATTEMPTS 0 i "" r); [|intros; apply Hb; lia|done|done].
      f_equal. unfold pauses_upto, ATTEMPTS in *.
      do 5 (destruct i as [|i]; [reflexivity|]). lia.
    + unfold ATTEMPTS in Hi.
      do 5 (destruct i as [|i]; [by eexists|]). lia.
  - intros Hb. apply eth_call_loop_exhausted. intros j Hj. apply Hb. lia.
Qed.

Example eth_call_first_settled_witness :
  let answer := fun i => match i with
    | 0%nat => SendError "refused" | 1%nat => ServerError "503" | _ => Reply None (Some "0x01")
    end in
  (eth_call_loop answer ATTEMPTS 0 "" = (Ok "0x01", pauses_upto 2) /\
   pauses_upto 2 `prefix_of` [150; 300; 600; 1200]) /\
  (retried_before (fun _ => BadJson "eof") ATTEMPTS ->
   exists e, eth_call (fun _ => BadJson "eof") = Err (ChainRpc e)).
Proof.
  intros answer. split.
  - apply (eth_call_first_settled answer); [unfold ATTEMPTS; lia | | reflexivity].
    intros [|[|j]] Hj; [by eexists.. | lia].
  - apply (eth_call_first_settled (fun _ => BadJson "eof")).
Defined.

(** C3: what an accepted proof of possession means.  The three client fields are
    present, the time stamp is at most [max_age] old and at most 60 s ahead, and
    the signer of the preimage of exactly this payload is the registered device,
    or a key to which that device delegated: with a delegation not yet expired,
    whose scope covers the cap's class, operation and service, and whose
    signature over this very signer's address is the device's own. *)
Theorem client_pop_sound `{HexCodec} `{Crypto} (token : CapToken) (max_age now : Z)
    (Hnow : is_u64 now) (Hnow60 : is_u64 (now + 60)) (Hage : 0 <= max_age) :
  check_client_pop token max_age now = Ok tt ->
  let p := payload token in
  exists sig n ts signer h,
    client_sig token = Some sig /\ client_nonce token = Some n /\ client_ts token = Some ts /\
    now - max_age <= ts <= now + 60 /\
    ecrecover_eip191 (cap_pop_payload (operator_omni p) (actor_omni p) (service p)
      (CapOp_as_str (op p)) (DataClass_as_str (data_class p)) n ts) sig = Ok signer /\
    device_key_hash signer = Ok h /\
    (strip_0x_lc h = strip_0x_lc (payload_device_key_hash p) \/
     exists d device, delegation_path token = Some d /\
       now < deleg_expires_at d /\
       cap_in_scope (deleg_scope d) (DataClass_as_str (data_class p))
         (CapOp_as_str (op p)) (service p) = true /\
       verify_delegation (payload_device_key_hash p) signer (deleg_scope d)
         (deleg_expires_at d) (delegation_sig d) = Ok device).
Proof.
  intros Hok p. unfold check_client_pop in Hok.
  apply let_ok in Hok as (sig & Hsig%ok_or_ok & Hok).
  apply let_ok in Hok as (n & Hn%ok_or_ok & Hok).
  apply let_ok in Hok as (ts & Hts%ok_or_ok & Hok).
  apply guard_ok in Hok as [Hw Hok]. apply pop_window in Hw; [|done..].
  fold p in Hok. apply let_ok in Hok as (signer & Hrec%map_err_ok & Hok).
  apply let_ok in Hok as (h & Hh%map_err_ok & Hok).
  exists sig, n, ts, signer, h. split_and!; try done; try lia.
  destruct (String.eqb _ _) eqn:E; [left; by apply String.eqb_eq|right].
  destruct (delegation_path token) as [d|]; [|done].
  unfold check_delegation in Hok. fold p in Hok.
  apply guard_ok in Hok as [He Hok]. apply guard_ok in Hok as [Hscope Hok].
  apply let_ok in Hok as (device & Hd%map_err_ok & _).
  exists d, device. reflect_bools. split_and!; try done; lia.
Qed.

(** A token whose proof [sandbox] made, with [deleg] attached. *)
Definition pop_token (p : CapPayload) (bsig csig cnonce : string) (cts : Z)
    (deleg : option DelegationPath) : CapToken :=
  {| payload := p; broker_sig := bsig; client_sig := Some csig;
     client_nonce := Some cnonce; client_ts := Some cts; delegation_path := deleg |}.

(** The client and the worker agree.  A cap whose proof is made by the
    registered device's own key is accepted inside the time window; a cap whose
    proof is made by a sandbox key to which the device signed a delegation is
    accepted exactly while the delegation lasts and its scope covers the cap. *)
Theorem client_pop_complete `{HexCodec} `{Crypto} (device sandbox : SigningKey)
    (p : CapPayload) (bsig n csig dsig scope dkh : string) (ts now max_age expires : Z)
    (Hnow : is_u64 now) (Hnow60 : is_u64 (now + 60)) (Hage : 0 <= max_age)
    (Hr : forall k d s r, sign_prehash_recoverable k d = Some (s, r) ->
            0 <= RecoveryId_to_byte r <= 1)
    (Hdkh : device_key_hash (evm_address (verifying_key device)) = Ok dkh)
    (Hp : payload_device_key_hash p = dkh)
    (Hts : now - max_age <= ts <= now + 60)
    (Hd : DeviceKey_delegation_sig (DeviceKey_of device)
            (evm_address (verifying_key sandbox)) scope expires = Ok dsig) :
  let sign k := DeviceKey_cap_pop_sig (DeviceKey_of k) (operator_omni p) (actor_omni p)
    (service p) (CapOp_as_str (op p)) (DataClass_as_str (data_class p)) n ts in
  let deleg := {| deleg_scope := scope; deleg_expires_at := expires; delegation_sig := dsig |} in
  (sign device = Ok csig ->
   check_client_pop (pop_token p bsig csig n ts None) max_age now = Ok tt) /\
  (sign sandbox = Ok csig ->
   device_key_hash (evm_address (verifying_key sandbox)) <> Ok dkh ->
   check_client_pop (pop_token p bsig csig n ts (Some deleg)) max_age now = Ok tt <->
   now < expires /\ cap_in_scope scope (DataClass_as_str (data_class p))
     (CapOp_as_str (op p)) (service p) = true).
Proof.
  intros sign deleg.
  assert (Hw : negb ((u64_add now 60 <? ts) || (max_age <? u64_saturating_sub now ts)) = true)
    by (apply pop_window; [done|done|lia]).
  rewrite device_key_hash_evm_address in Hdkh.
  set (h := "0x" +:+ hex_encode (keccak256 (drop 12 (keccak256
    (encoded_point_xy (verifying_key device)))))) in *.
  assert (dkh = h) as -> by congruence. clear Hdkh.
  assert (Hpop : forall k, sign k = Ok csig ->
    ecrecover_eip191 (cap_pop_payload (operator_omni p) (actor_omni p) (service p)
      (CapOp_as_str (op p)) (DataClass_as_str (data_class p)) n ts) csig
    = Ok (evm_address (verifying_key k))).
  { intros k Hk. by apply ecrecover_sign; [intros s r; apply Hr|]. }
  split.
  - intros Hs. unfold check_client_pop, pop_token. cbn [client_sig client_nonce client_ts ok_or payload].
    rewrite Hw, (Hpop device Hs). cbn [map_err]. rewrite device_key_hash_evm_address.
    cbn [map_err]. rewrite Hp. by rewrite String.eqb_refl.
  - intros Hs Hne. unfold check_client_pop, pop_token.
    cbn [client_sig client_nonce client_ts ok_or payload delegation_path].
    rewrite Hw, (Hpop sandbox Hs). cbn [map_err]. rewrite device_key_hash_evm_address.
    rewrite device_key_hash_evm_address in Hne. cbn [map_err].
    replace (String.eqb _ _) with false.
    2:{ symmetry. apply String.eqb_neq. rewrite Hp. unfold h.
        rewrite !strip_0x_lc_hex. intros E. apply Hne. by rewrite E. }
    unfold check_delegation. cbn [deleg_scope deleg_expires_at delegation_sig payload deleg].
    assert (Hv : verify_delegation (payload_device_key_hash p)
      (evm_address (verifying_key sandbox)) scope expires dsig
      = Ok (evm_address (verifying_key device))).
    { unfold DeviceKey_delegation_sig, DeviceKey_device_key_hash in Hd.
      cbn [DeviceKey_of sk address] in Hd. rewrite device_key_hash_evm_address in Hd.
      fold h in Hd.
      unfold verify_delegation. rewrite Hp.
      rewrite (ecrecover_sign _ _ _ (fun s r => Hr _ _ s r) Hd).
      rewrite device_key_hash_evm_address. fold h. by rewrite String.eqb_refl. }
    rewrite Hv. cbn [map_err].
    destruct (expires <=? now) eqn:E; cbn [negb]; reflect_bools.
    + split; [done | lia].
    + destruct (cap_in_scope _ _ _ _); split; try done; lia.
Qed.

Section VerifyWitnesses.
Let hex := SimpleHex.codec.
Let cr := ToyCrypto.crypto.
Existing Instance hex.
Existing Instance cr.

Definition toy_address (k : bool) : string := evm_address (verifying_key (k : SigningKey)).
Definition toy_dkh (k : bool) : string :=
  match device_key_hash (toy_address k) with Ok h => h | Err _ => "" end.
Definition toy_payload : CapPayload :=
  sample_payload (rep64 "a"%char) (rep64 "b"%char) "knowledge:travel" Fetch Memory (toy_dkh true).
Definition toy_sig (k : bool) : string :=
  match DeviceKey_cap_pop_sig (DeviceKey_of (k : SigningKey)) (rep64 "a"%char) (rep64 "b"%char)
    "knowledge:travel" "fetch" "memory" "n0" 1500 with Ok s => s | Err _ => "" end.
Definition toy_deleg : DelegationPath :=
  {| deleg_scope := "memory"; deleg_expires_at := 1900;
     delegation_sig :=
       match DeviceKey_delegation_sig (DeviceKey_of (true : SigningKey)) (toy_address false)
         "memory" 1900 with Ok s => s | Err _ => "" end |}.
End VerifyWitnesses.

Example client_pop_sound_witness :
  let _ := SimpleHex.codec in let _ := ToyCrypto.crypto in
  let token := pop_token toy_payload "b" (toy_sig false) "n0" 1500 (Some toy_deleg) in
  let p := payload token in
  exists sig n ts signer h,
    client_sig token = Some sig /\ client_nonce token = Some n /\ client_ts token = Some ts /\
    1600 - 300 <= ts <= 1600 + 60 /\
    ecrecover_eip191 (cap_pop_payload (operator_omni p) (actor_omni p) (service p)
      (CapOp_as_str (op p)) (DataClass_as_str (data_class p)) n ts) sig = Ok signer /\
    device_key_hash signer = Ok h /\
    (strip_0x_lc h = strip_0x_lc (payload_device_key_hash p) \/
     exists d device, delegation_path token = Some d /\
       1600 < deleg_expires_at d /\
       cap_in_scope (deleg_scope d) (DataClass_as_str (data_class p))
         (CapOp_as_str (op p)) (service p) = true /\
       verify_delegation (payload_device_key_hash p) signer (deleg_scope d)
         (deleg_expires_at d) (delegation_sig d) = Ok device).
Proof.
  apply (@client_pop_sound SimpleHex.codec ToyCrypto.crypto
    (pop_token toy_payload "b" (toy_sig false) "n0" 1500 (Some toy_deleg)) 300 1600);
    [by unfold is_u64, u64_max .. | done | vm_compute; reflexivity].
Defined.

Example client_pop_complete_witness :
  let _ := SimpleHex.codec in let _ := ToyCrypto.crypto in
  check_client_pop (pop_token toy_payload "b" (toy_sig false) "n0" 1500 (Some toy_deleg)) 300 1600
    = Ok tt.
Proof.
  apply (@client_pop_complete SimpleHex.codec ToyCrypto.crypto true false toy_payload "b" "n0"
    (toy_sig false) (delegation_sig toy_deleg) "memory" (toy_dkh true) 1500 1600 300 1900).
  - by unfold is_u64, u64_max.
  - by unfold is_u64, u64_max.
  - done.
  - intros k d s r [= <- <-]. done.
  - vm_compute; reflexivity.
  - reflexivity.
  - done.
  - vm_compute; reflexivity.
  - vm_compute; reflexivity.
  - vm_compute; discriminate.
  - vm_compute; done.
Defined.
