(* ===== verification/ObjectStore.v ===== *)
(** * Object keys and who may touch them

    [crates/agentkeys-protocol/src/object_store.rs]: the request and response of
    the object service, key validation, and [authorize_key], the policy that maps
    a capability to the keys it reaches. *)
From S2P Require Import Prelude RustStr StrFacts Capability.

Definition OBJECT_NOT_FOUND : string := "object_not_found".
Definition OBJECT_REVISION_CONFLICT : string := "object_revision_conflict".
Definition MAX_OBJECT_BYTES : Z := 32 * 1024 * 1024.
Definition MAX_OBJECT_KEY_BYTES : nat := 1024.
Definition MAX_LIST_KEYS : nat := 500.

Inductive ObjectAction := Get | Put | Delete | List.

#[export] Instance ObjectAction_eq_dec : EqDecision ObjectAction.
Proof. solve_decision. Defined.

Record ObjectRequest := {
  cap : CapToken;
  action : ObjectAction;
  key : string;
  value_b64 : option string;
  expected_revision : option string;
  after : option string;
}.

Record ObjectResponse := {
  resp_value_b64 : option string;
  resp_revision : option string;
  resp_keys : list string;
  resp_truncated : bool;
}.

Definition default_response : ObjectResponse :=
  {| resp_value_b64 := None; resp_revision := None; resp_keys := []; resp_truncated := false |}.

Definition channel_key_matches (prefix channel key : string) : bool :=
  starts_with (prefix +:+ channel +:+ "/") key
  || starts_with (prefix +:+ channel +:+ ".blob/") key.

(** The canonical omni: 64 hex digits in lower case. *)
Definition omni (value : string) : result string string :=
  let value := default value (strip_prefix "0x" value) in
  guard! Nat.eqb (String.length value) 64 && string_all is_ascii_hexdigit value
    else "storage_actor_invalid" ;;
  Ok (to_ascii_lowercase value).

Definition key_char (c : Ascii.ascii) : bool :=
  is_ascii_lowercase c || is_ascii_digit c
  || Ascii.eqb c ":"%char || Ascii.eqb c "."%char || Ascii.eqb c "_"%char || Ascii.eqb c "-"%char.

Definition bad_part (part : string) : bool :=
  String.eqb part "" || String.eqb part "." || String.eqb part ".."
  || negb (string_all key_char part).

Definition validate_key (value : string) (prefix : bool) : result string unit :=
  let path := if prefix then default value (strip_suffix_char "/"%char value) else value in
  guard! negb (String.eqb value "" || (MAX_OBJECT_KEY_BYTES <? String.length value)%nat
               || existsb bad_part (split_char "/"%char path))
    else "storage_key_invalid" ;;
  Ok tt.

Definition service_char (c : Ascii.ascii) : bool :=
  is_ascii_alphanumeric c
  || Ascii.eqb c ":"%char || Ascii.eqb c "."%char || Ascii.eqb c "_"%char || Ascii.eqb c "-"%char.

Definition valid_service (service : string) : bool :=
  negb (String.eqb service "" || (128 <? String.length service)%nat
        || String.eqb service "." || String.eqb service ".."
        || negb (string_all service_char service)).

Definition is_get_or_put (a : ObjectAction) : bool :=
  match a with Get | Put => true | _ => false end.
Definition is_read (a : ObjectAction) : bool :=
  match a with Get | List => true | _ => false end.
Definition is_delete_or_list (a : ObjectAction) : bool :=
  match a with Delete | List => true | _ => false end.

Definition authorize_key (p : CapPayload) (action : ObjectAction) (key : string)
    : result string unit :=
  let? operator := omni (operator_omni p) in
  let? actor := omni (actor_omni p) in
  let service := to_ascii_lowercase (service p) in
  guard! valid_service service else "storage_service_invalid" ;;
  let? _ := validate_key key (bool_decide (action = List)) in
  let owner := String.eqb operator actor in
  let class := DataClass_as_str (data_class p) in
  let actor_prefix := "bots/" +:+ actor +:+ "/" +:+ class +:+ "/" in
  let operator_prefix := "bots/" +:+ operator +:+ "/" +:+ class +:+ "/" in
  let exact prefix := String.eqb key (prefix +:+ service +:+ ".enc") in
  let own_slot := exact actor_prefix
    || starts_with (actor_prefix +:+ service +:+ ".objects/") key in
  let read := is_read action in
  let? allowed :=
    match data_class p, op p with
    | Credentials, Store | Config, Store =>
        Ok (owner && is_get_or_put action && exact actor_prefix)
    | Credentials, Fetch =>
        Ok (bool_decide (action = Get) && exact operator_prefix
            || owner && bool_decide (action = List) && String.eqb key operator_prefix)
    | Config, Fetch => Ok (owner && bool_decide (action = Get) && exact actor_prefix)
    | Memory, Store => Ok (is_get_or_put action && own_slot)
    | Memory, Fetch =>
        Ok (read && (own_slot && (negb (bool_decide (action = List)) || negb (exact actor_prefix))
                     || owner && String.eqb service "inbox"
                        && starts_with ("bots/" +:+ operator +:+ "/inbox/") key))
    | Memory, CanonicalFetch =>
        Ok (bool_decide (action = Get) && starts_with "knowledge:" service
            && exact operator_prefix)
    | Memory, Append =>
        Ok (bool_decide (action = Put) && starts_with "proposal:" service
            && starts_with ("bots/" +:+ operator +:+ "/inbox/" +:+ actor +:+ "/"
                            +:+ service +:+ "/") key)
    | Channel, (ChannelPublish | ChannelSubscribe) =>
        let '(service_prefix, action_allowed) :=
          match op p with
          | ChannelPublish => ("channel-pub:", bool_decide (action = Put))
          | _ => ("channel-sub:", read)
          end in
        let? channel := ok_or "storage_service_invalid"
          (strip_prefix service_prefix (Capability.service p)) in
        Ok (valid_channel_id channel && action_allowed
            && channel_key_matches operator_prefix channel key)
    | Channel, Teardown =>
        let? channel := ok_or "storage_service_invalid"
          (strip_prefix "channel-pub:" (Capability.service p)) in
        Ok (owner && valid_channel_id channel && is_delete_or_list action
            && channel_key_matches operator_prefix channel key)
    | (Credentials | Config | Memory), Teardown =>
        Ok (owner && is_delete_or_list action
            && (if bool_decide (data_class p = Memory) && String.eqb service "inbox"
                then starts_with ("bots/" +:+ operator +:+ "/inbox/") key
                else starts_with actor_prefix key))
    | _, _ => Ok false
    end in
  guard! allowed else "storage_scope_denied" ;;
  Ok tt.

(** The key space of an omni. *)
Definition under (o rest key : string) : Prop := exists r, key = "bots/" +:+ o +:+ rest +:+ r.

(** ** Lemmas *)

Lemma omni_ok v o : omni v = Ok o ->
  String.length o = 64 /\ string_has "/"%char o = false /\ to_lowercase o = o.
Proof.
  unfold omni. intros H. apply guard_ok in H as [[Hl Hx]%andb_true_iff [= <-]].
  rewrite lower_length, lower_idem. split; [by apply Nat.eqb_eq|]. split; [|done].
  eapply (string_all_no is_ascii_hexdigit); [done|].
  set (s := default _ _) in *. clearbody s. unfold to_lowercase. clear Hl.
  induction s as [|c s IH]; [done|]. cbn in *. apply andb_true_iff in Hx as [Hc Hs].
  rewrite (IH Hs), andb_true_r.
  pose proof (ascii_forall (fun c => negb (is_ascii_hexdigit c)
    || is_ascii_hexdigit (char_lower c)) eq_refl c) as Hf.
  cbv beta in Hf. by rewrite Hc in Hf.
Qed.

Lemma exact_under o class svc key :
  String.eqb key (("bots/" +:+ o +:+ "/" +:+ class +:+ "/") +:+ svc +:+ ".enc") = true ->
  under o ("/" +:+ class +:+ "/") key.
Proof.
  intros ->%String.eqb_eq. exists (svc +:+ ".enc"). by rewrite <-!app_assoc_str.
Qed.

Lemma starts_under o rest key p :
  (exists m, p = "bots/" +:+ o +:+ rest +:+ m) -> starts_with p key = true -> under o rest key.
Proof.
  intros [m ->] [r ->]%starts_with_spec. exists (m +:+ r). by rewrite <-!app_assoc_str.
Qed.

Lemma under_self o rest : under o rest ("bots/" +:+ o +:+ rest).
Proof. exists "". by rewrite app_nil_str. Qed.

(** Two key spaces of distinct omnis are disjoint. *)
Lemma under_disjoint o o' rest rest' key :
  String.length o = String.length o' -> under o rest key -> under o' rest' key -> o = o'.
Proof.
  intros Hl [r ->] [r' E]. apply (inj (String.append "bots/")) in E.
  by apply app_inj_len in E as [-> _].
Qed.

(** Within one key space, keys of distinct first segments are distinct. *)
Lemma under_segment o s s' r r' key :
  string_has "/"%char s = false -> string_has "/"%char s' = false ->
  under o ("/" +:+ s +:+ "/" +:+ r) key -> under o ("/" +:+ s' +:+ "/" +:+ r') key -> s = s'.
Proof.
  intros Hs Hs' [q ->] [q' E]. apply (inj (String.append "bots/")), (inj (String.append o)) in E.
  rewrite <-!app_assoc_str in E. apply (inj (String.append "/")) in E.
  by apply (split_first_inj "/"%char) in E as [-> _].
Qed.

(** In one inbox, directories of equal-length names are disjoint. *)
Lemma under_inbox_inj o a a' key : String.length a = String.length a' ->
  under o ("/inbox/" +:+ a +:+ "/") key -> under o ("/inbox/" +:+ a' +:+ "/") key -> a = a'.
Proof.
  intros Hl [r ->] [r' E]. apply (inj (String.append "bots/")), (inj (String.append o)) in E.
  rewrite <-!app_assoc_str in E. apply (inj (String.append "/inbox/")) in E.
  by apply app_inj_len in E as [-> _].
Qed.

(** Open an accepted authorization: the canonical omnis, the valid service and
    key, and one case for each class and operation with its test. *)
Ltac open_authorized H :=
  let o := fresh "o" in let a := fresh "a" in
  let Ho := fresh "Ho" in let Ha := fresh "Ha" in
  let Hsvc := fresh "Hsvc" in let Hkey := fresh "Hkey" in let Hall := fresh "Hall" in
  unfold authorize_key in H;
  apply let_ok in H as (o & Ho & H);
  apply let_ok in H as (a & Ha & H);
  apply guard_ok in H as [Hsvc H];
  apply let_ok in H as ([] & Hkey & H);
  apply let_ok in H as (allowed & Hall & H);
  apply guard_ok in H as [-> _].

(** Split accepted tests into their conjuncts and alternatives. *)
Ltac split_tests :=
  repeat match goal with
  | H : Ok _ = Ok true |- _ => injection H as H
  | H : Ok false = Ok true |- _ => discriminate H
  | H : _ && _ = true |- _ => apply andb_true_iff in H as [? ?]
  | H : _ || _ = true |- _ => apply orb_true_iff in H as [?|?]
  | H : bool_decide _ = true |- _ => apply bool_decide_eq_true in H
  end.

(** Name the key space each accepted test on [key] puts it in. *)
Ltac find_space :=
  repeat match goal with
  | H : String.eqb _ (("bots/" +:+ _ +:+ "/" +:+ _ +:+ "/") +:+ _ +:+ ".enc") = true |- _ =>
      apply exact_under in H
  | H : String.eqb ?key ("bots/" +:+ ?o +:+ "/" +:+ ?c +:+ "/") = true |- _ =>
      apply String.eqb_eq in H; pose proof (under_self o ("/" +:+ c +:+ "/")); subst key
  | H : starts_with (("bots/" +:+ ?o +:+ "/" +:+ ?c +:+ "/") +:+ ?m) _ = true |- _ =>
      apply (starts_under o ("/" +:+ c +:+ "/")) in H;
        [|exists m; by rewrite <-!app_assoc_str]
  | H : starts_with ("bots/" +:+ ?o +:+ "/" +:+ ?c +:+ "/") _ = true |- _ =>
      apply (starts_under o ("/" +:+ c +:+ "/")) in H; [|exists ""; by rewrite app_nil_str]
  | H : starts_with ("bots/" +:+ ?o +:+ "/inbox/") _ = true |- _ =>
      apply (starts_under o "/inbox/") in H; [|exists ""; by rewrite app_nil_str]
  | H : starts_with ("bots/" +:+ ?o +:+ "/inbox/" +:+ ?m) _ = true |- _ =>
      apply (starts_under o "/inbox/") in H; [|by exists m]
  end.

(** Only the owner deletes, and only through a teardown capability. *)
Lemma delete_is_teardown p key : authorize_key p Delete key = Ok tt ->
  op p = Teardown /\ omni (operator_omni p) = omni (actor_omni p).
Proof.
  intros H. open_authorized H. rewrite Ho, Ha.
  assert (op p = Teardown /\ String.eqb o a = true) as [-> ->%String.eqb_eq]; [|done].
  destruct (data_class p), (op p); cbn in Hall; try discriminate;
    try (apply let_ok in Hall as (? & _ & Hall)); split_tests; try done;
    rewrite ?andb_false_r in *; try done.
Qed.

(** Messages and inbox proposals are only ever created. *)
Lemma put_creates_only p key : authorize_key p Put key = Ok tt ->
  data_class p = Channel \/
    data_class p = Memory /\ (exists v o, omni v = Ok o /\ under o "/inbox/" key) ->
  op p = Append \/ op p = ChannelPublish.
Proof.
  intros H Hcls. destruct Hcls as [Hc|(Hc & v & o' & Hv & Hu)].
  - open_authorized H. rewrite Hc in Hall. destruct (op p); try discriminate; auto.
    + apply let_ok in Hall as (? & _ & Hall). split_tests.
      by rewrite ?andb_false_r in *.
    + apply let_ok in Hall as (? & _ & Hall). split_tests. done.
  - open_authorized H. rewrite Hc in Hall.
    assert (Hin : under a ("/" +:+ "memory" +:+ "/") key -> False).
    { intros Hm. pose proof (omni_ok _ _ Ha) as (Hl & _). pose proof (omni_ok _ _ Hv) as (Hl' & _).
      assert (a = o') as -> by (eapply under_disjoint; [|exact Hm|exact Hu]; congruence).
      enough ("memory" = "inbox") by done.
      by eapply (under_segment o' "memory" "inbox" "" "" key). }
    destruct (op p); try discriminate; auto; cbn [DataClass_as_str] in Hall; split_tests; try done;
      exfalso; apply Hin; find_space; assumption.
Qed.

(** C2: keys stay inside the owner's and the actor's spaces.  Whatever the class
    and the operation, an authorized key passed [validate_key] and lies under
    [bots/<omni>/<class>/] for the canonical owner or actor of the capability, or,
    for the memory class, under the owner's inbox; no speech, classify or
    cross-class capability reaches any object. *)
Theorem authorized_key_confined (p : CapPayload) (action : ObjectAction) (key : string) :
  authorize_key p action key = Ok tt ->
  exists operator actor,
    omni (operator_omni p) = Ok operator /\ omni (actor_omni p) = Ok actor /\
    validate_key key (bool_decide (action = List)) = Ok tt /\
    data_class p <> Speech /\ op p <> SpeechUse /\ op p <> Classify /\
    (under actor ("/" +:+ DataClass_as_str (data_class p) +:+ "/") key \/
     under operator ("/" +:+ DataClass_as_str (data_class p) +:+ "/") key \/
     data_class p = Memory /\ under operator "/inbox/" key).
Proof.
  intros H. open_authorized H. exists o, a.
  remember (DataClass_as_str (data_class p)) as c eqn:Hc. clear Hc.
  destruct (data_class p) eqn:Ec, (op p) eqn:Eo; split_tests; try discriminate;
    try (apply let_ok in Hall as (ch & Hch & Hall); split_tests;
         unfold channel_key_matches in *; split_tests);
    split_and!; try done; find_space; auto.
  all: repeat case_match; split_tests; find_space; auto.
Qed.

(** What an authorized write of a non-channel capability touches: the actor's
    own space, or the inbox directory named after the actor. *)
Lemma put_under_actor p key : data_class p <> Channel ->
  authorize_key p Put key = Ok tt ->
  exists a, omni (actor_omni p) = Ok a /\
    ((exists s, In s ["credentials"; "memory"; "config"] /\
       under a ("/" +:+ s +:+ "/") key) \/
     exists o, omni (operator_omni p) = Ok o /\ under o ("/inbox/" +:+ a +:+ "/") key).
Proof.
  intros Hch H. open_authorized H. exists a. split; [done|].
  assert (Hin : data_class p <> Speech ->
    In (DataClass_as_str (data_class p)) ["credentials"; "memory"; "config"])
    by (destruct (data_class p); cbn; tauto).
  remember (DataClass_as_str (data_class p)) as c eqn:Hc. clear Hc.
  destruct (data_class p) eqn:Ec, (op p) eqn:Eo; split_tests; try done;
    try (left; exists c; split; [by apply Hin | find_space; assumption]).
  right. exists o. split; [done|].
  match goal with Hs : starts_with _ _ = true |- _ => eapply starts_under in Hs; [exact Hs|] end.
  eexists. rewrite <-!app_assoc_str. reflexivity.
Qed.

(** Two actors never write the same object.  If the same key is writable
    under two capabilities of any class but the shared channels, whatever their
    owners, operations and services, then the two capabilities have the same
    canonical actor: no delegate overwrites another's (or the owner's) data. *)
Theorem writes_of_distinct_actors_disjoint (p p' : CapPayload) (key : string)
    (Hp : data_class p <> Channel) (Hp' : data_class p' <> Channel) :
  authorize_key p Put key = Ok tt -> authorize_key p' Put key = Ok tt ->
  omni (actor_omni p) = omni (actor_omni p').
Proof.
  intros (a & Ha & Hw)%put_under_actor (a' & Ha' & Hw')%put_under_actor; [|done..].
  rewrite Ha, Ha'. f_equal.
  pose proof (omni_ok _ _ Ha) as (Hl & Hn & _). pose proof (omni_ok _ _ Ha') as (Hl' & Hn' & _).
  assert (Hseg : forall s o r k, In s ["credentials"; "memory"; "config"] ->
    under o ("/" +:+ s +:+ "/") k -> under o ("/" +:+ "inbox" +:+ "/" +:+ r) k -> s = "inbox").
  { intros s o r k Hs H1 H2. eapply (under_segment o s "inbox" "" r k); try done.
    destruct Hs as [<-|[<-|[<-|[]]]]; done. }
  destruct Hw as [(s & Hs & Hu)|(o & Ho & Hu)], Hw' as [(s' & Hs' & Hu')|(o' & Ho' & Hu')].
  - eapply under_disjoint; [|exact Hu|exact Hu']. congruence.
  - pose proof (omni_ok _ _ Ho') as (Hlo & _).
    assert (a = o') as -> by (eapply under_disjoint; [|exact Hu|exact Hu']; congruence).
    specialize (Hseg s o' _ key Hs Hu Hu'). subst s. by destruct Hs as [|[|[|[]]]].
  - pose proof (omni_ok _ _ Ho) as (Hlo & _).
    assert (a' = o) as -> by (eapply under_disjoint; [|exact Hu'|exact Hu]; congruence).
    specialize (Hseg s' o _ key Hs' Hu' Hu). subst s'. by destruct Hs' as [|[|[|[]]]].
  - pose proof (omni_ok _ _ Ho) as (Hlo & _). pose proof (omni_ok _ _ Ho') as (Hlo' & _).
    assert (o = o') as -> by (eapply under_disjoint; [|exact Hu|exact Hu']; congruence).
    eapply (under_inbox_inj o'); [congruence | exact Hu | exact Hu'].
Qed.

(** What a delegate may change.  A capability whose actor is not its owner
    never deletes, and writes only: its own memory slot for the named service, a
    proposal directory of its own in the owner's inbox, or a valid channel it may
    publish to. *)
Theorem delegate_writes (p : CapPayload) (action : ObjectAction) (key : string)
    (Howner : omni (operator_omni p) <> omni (actor_omni p))
    (Hmut : action = Put \/ action = Delete) :
  authorize_key p action key = Ok tt ->
  let svc := to_ascii_lowercase (service p) in
  action = Put /\ exists o a, omni (operator_omni p) = Ok o /\ omni (actor_omni p) = Ok a /\
  (data_class p = Memory /\ op p = Store /\
     (key = "bots/" +:+ a +:+ "/memory/" +:+ svc +:+ ".enc" \/
      under a ("/memory/" +:+ svc +:+ ".objects/") key) \/
   data_class p = Memory /\ op p = Append /\ starts_with "proposal:" svc = true /\
     under o ("/inbox/" +:+ a +:+ "/" +:+ svc +:+ "/") key \/
   data_class p = Channel /\ op p = ChannelPublish /\
     exists ch, service p = "channel-pub:" +:+ ch /\ valid_channel_id ch = true /\
       channel_key_matches ("bots/" +:+ o +:+ "/channel/") ch key = true).
Proof.
  intros H svc. open_authorized H.
  assert (String.eqb o a = false) as Hoa
    by (apply String.eqb_neq; intros ->; congruence).
  assert (Hdel : action = Put).
  { destruct Hmut as [->| ->]; [done|]. exfalso. rewrite Hoa in Hall.
    destruct (data_class p), (op p); cbn in Hall; try discriminate;
      try (apply let_ok in Hall as (? & _ & [=])); split_tests; try done.
    all: by rewrite andb_false_r in *. }
  subst action. split; [done|]. exists o, a. split; [done|]. split; [done|].
  rewrite Hoa in Hall. fold svc in Hall.
  destruct (data_class p) eqn:Ec, (op p) eqn:Eo; cbn [DataClass_as_str] in Hall;
    split_tests; try done; try (apply let_ok in Hall as (ch & Hch & Hall); split_tests; try done).
  - left. split_and!; try done. left.
    match goal with Hk : String.eqb _ _ = true |- _ => apply String.eqb_eq in Hk as -> end.
    by rewrite <-!app_assoc_str.
  - left. split_and!; try done. right.
    match goal with Hk : starts_with _ key = true |- _ => eapply starts_under in Hk; [exact Hk|] end.
    exists "". by rewrite <-!app_assoc_str, app_nil_str.
  - right; left. split_and!; try done.
    match goal with Hk : starts_with _ key = true |- _ => eapply starts_under in Hk; [exact Hk|] end.
    exists "". by rewrite <-?app_assoc_str, ?app_nil_str.
  - right; right. split_and!; try done. exists ch.
    apply ok_or_ok, strip_prefix_spec in Hch. by rewrite <-?app_assoc_str in *.
Qed.

Definition omni_a : string := rep64 "a"%char.
Definition omni_b : string := rep64 "b"%char.

Example authorized_key_confined_witness :
  exists operator actor, omni omni_a = Ok operator /\ omni ("0x" +:+ omni_b) = Ok actor /\
    (under actor "/memory/" ("bots/" +:+ omni_b +:+ "/memory/travel.enc") \/
     under operator "/memory/" ("bots/" +:+ omni_b +:+ "/memory/travel.enc") \/
     Memory = Memory /\ under operator "/inbox/" ("bots/" +:+ omni_b +:+ "/memory/travel.enc")).
Proof.
  destruct (authorized_key_confined
    (sample_payload omni_a ("0x" +:+ omni_b) "Travel" Fetch Memory "") Get
    ("bots/" +:+ omni_b +:+ "/memory/travel.enc")) as (o & a & Ho & Ha & _ & _ & _ & _ & Hu);
    [vm_compute; reflexivity|].
  exists o, a. split; [exact Ho|]. split; [exact Ha | exact Hu].
Defined.

Example writes_of_distinct_actors_disjoint_witness :
  omni omni_b = omni ("0x" +:+ omni_b).
Proof.
  apply (writes_of_distinct_actors_disjoint
    (sample_payload omni_a omni_b "travel" Store Memory "")
    (sample_payload omni_a ("0x" +:+ omni_b) "TRAVEL" Store Memory "")
    ("bots/" +:+ omni_b +:+ "/memory/travel.objects/x"));
    [discriminate | discriminate | vm_compute; reflexivity | vm_compute; reflexivity].
Defined.

Example delegate_writes_witness :
  Put = Put /\ exists o a, omni omni_a = Ok o /\ omni omni_b = Ok a /\
  (Memory = Memory /\ Append = Store /\
     (("bots/" +:+ omni_a +:+ "/inbox/" +:+ omni_b +:+ "/proposal:x/1")
      = "bots/" +:+ a +:+ "/memory/" +:+ "proposal:x" +:+ ".enc" \/
      under a ("/memory/" +:+ "proposal:x" +:+ ".objects/")
        ("bots/" +:+ omni_a +:+ "/inbox/" +:+ omni_b +:+ "/proposal:x/1")) \/
   Memory = Memory /\ Append = Append /\ starts_with "proposal:" "proposal:x" = true /\
     under o ("/inbox/" +:+ a +:+ "/" +:+ "proposal:x" +:+ "/")
       ("bots/" +:+ omni_a +:+ "/inbox/" +:+ omni_b +:+ "/proposal:x/1") \/
   Memory = Channel /\ Append = ChannelPublish /\
     exists ch, "proposal:x" = "channel-pub:" +:+ ch /\ valid_channel_id ch = true /\
       channel_key_matches ("bots/" +:+ o +:+ "/channel/") ch
         ("bots/" +:+ omni_a +:+ "/inbox/" +:+ omni_b +:+ "/proposal:x/1") = true).
Proof.
  apply (delegate_writes (sample_payload omni_a omni_b "proposal:x" Append Memory "") Put
    ("bots/" +:+ omni_a +:+ "/inbox/" +:+ omni_b +:+ "/proposal:x/1"));
    [vm_compute; discriminate | left; reflexivity | vm_compute; reflexivity].
Defined.
