(* ===== verification/LocalStore.v ===== *)
(** * The object service

    [crates/agentkeys-local-store/src/lib.rs]: opening a database, the admission
    checks of [execute] and the storage operations of [execute_verified].  A
    database is its identity and its table of objects; a request either commits
    or leaves it as it was.  Failures of SQLite itself are not modelled. *)
From S2P Require Import Prelude RustStr StrFacts Capability DeviceCore.
From S2P Require Import Crates ChainAbi CapabilityVerify ObjectStore.

Open Scope Z_scope.

Definition APPLICATION_ID : Z := 0x41544f53.
Definition SCHEMA_VERSION : Z := 1.

Record AuthorityConfig := {
  broker_public_key : string;
  rpc_url : string;
  registry : string;
  scope : string;
  epoch : string;
}.

Record StoreError := { status : Z; code : string }.

Definition denied (code : string) : StoreError := {| status := 403; code := code |}.
Definition failed (code : string) : StoreError := {| status := 503; code := code |}.
Definition invalid (code : string) : StoreError := {| status := 400; code := code |}.

(** The table [objects(key, value, revision)]. *)
Abbreviation objects_table := (gmap string (bytes * string)).

Record LocalStore := {
  objects : objects_table;
  authority : AuthorityConfig;
  store_data_class : DataClass;
}.

(** A database file: a fresh one, or one with its identity. *)
Inductive Database :=
| EmptyDatabase
| StoredDatabase (application_id user_version : Z) (data_class : string)
    (rows : objects_table).

Definition chain_error (error : VerifyError) : StoreError :=
  match error with
  | ChainRpc _ => failed "chain_verification_unavailable"
  | DeviceInactive => denied "device_inactive"
  | DeviceMismatch _ => denied "device_binding_mismatch"
  | DeviceRoleMissing _ => denied "device_role_missing"
  | NotInScope => denied "service_not_in_scope"
  | K3Mismatch _ _ => denied "cap_epoch_mismatch"
  | _ => denied "cap_authority_invalid"
  end.

(** The keys [SELECT key ... WHERE prefix AND key > after ORDER BY key] yields. *)
Definition keys_after (objs : objects_table) (prefix after : string) : list string :=
  List.filter (fun k => starts_with prefix k && str_gt k after)
    (merge_sort String.le (map fst (map_to_list objs))).

Definition is_put (a : ObjectAction) : bool := match a with Put => true | _ => false end.
Definition is_list (a : ObjectAction) : bool := match a with List => true | _ => false end.
Definition is_write (a : ObjectAction) : bool :=
  match a with Put | Delete => true | _ => false end.

Definition len (b : bytes) : Z := Z.of_nat (length b).
Definition slen (s : string) : Z := Z.of_nat (String.length s).
Definition div_ceil (a b : Z) : Z := (a + b - 1) / b.

(** The revision a write must find, when it names one: creations through
    [Append] and [ChannelPublish] must find nothing. *)
Definition expected_of (r : ObjectRequest) : option string :=
  match op (payload (cap r)) with
  | Append | ChannelPublish => Some ""
  | _ => expected_revision r
  end.

Definition current_revision (objs : objects_table) (k : string) : string :=
  default "" (snd <$> objs !! k).

Section LocalStore.
Context `{HexCodec} `{Crypto} `{Sha256} `{Base64} `{P256} `{CapJson}.
Variable rpc : string -> string -> string -> nat -> RpcAttempt.

Definition open (database : Database) (data_class : DataClass) (auth : AuthorityConfig)
    : result string LocalStore :=
  guard! negb (bool_decide (data_class = Speech)) else "speech is not an object data class" ;;
  let? _ := map_err (fun _ => "broker public key parse")
    (validate_broker_public_key (broker_public_key auth)) in
  let? (stored_class, rows) :=
    match database with
    | EmptyDatabase => Ok (DataClass_as_str data_class, ∅)
    | StoredDatabase application_id schema_version stored rows =>
        guard! (application_id =? APPLICATION_ID) && (schema_version =? SCHEMA_VERSION)
          else "unsupported object-store database identity or schema" ;;
        Ok (stored, rows)
    end in
  guard! String.eqb stored_class (DataClass_as_str data_class)
    else "database belongs to a different data class" ;;
  Ok {| objects := rows; authority := auth; store_data_class := data_class |}.

(** What the database file holds afterwards. *)
Definition close (s : LocalStore) : Database :=
  StoredDatabase APPLICATION_ID SCHEMA_VERSION (DataClass_as_str (store_data_class s))
    (objects s).

Definition revision_of_value (value : bytes) : string := hex_encode (sha256 value).

(** The decoded value of a [Put]. *)
Definition put_value (r : ObjectRequest) : result StoreError bytes :=
  let? encoded := ok_or (invalid "object_value_missing") (value_b64 r) in
  guard! negb (div_ceil MAX_OBJECT_BYTES 3 * 4 <? slen encoded)
    else invalid "object_too_large" ;;
  let? value := ok_or (invalid "object_value_invalid") (b64_decode encoded) in
  guard! negb (MAX_OBJECT_BYTES <? len value) else invalid "object_too_large" ;;
  Ok value.

(** The storage operation; the two clock readings are those of the repeated
    freshness and proof checks. *)
Definition execute_verified (objs : objects_table) (r : ObjectRequest)
    (now_fresh now_pop : Z) : result StoreError (objects_table * ObjectResponse) :=
  let? _ := map_err (fun _ => denied "cap_freshness_failed") (check_freshness (cap r) now_fresh) in
  guard! negb (negb (is_put (action r)) && is_some (value_b64 r))
    else invalid "unexpected_object_value" ;;
  guard! negb (negb (is_list (action r)) && is_some (after r))
    else invalid "unexpected_list_cursor" ;;
  guard! negb (negb (is_write (action r)) && is_some (expected_revision r))
    else invalid "unexpected_revision" ;;
  let? _ := map_err (fun _ => denied "cap_pop_invalid") (enforce_client_pop (cap r) now_pop) in
  match action r with
  | Get =>
      let? (value, revision) :=
        ok_or {| status := 404; code := OBJECT_NOT_FOUND |} (objs !! key r) in
      Ok (objs, {| resp_value_b64 := Some (b64_encode value);
                   resp_revision := Some revision;
                   resp_keys := []; resp_truncated := false |})
  | List =>
      guard! negb (match after r with
                   | Some cursor => (MAX_OBJECT_KEY_BYTES <? String.length cursor)%nat
                   | None => false end)
        else invalid "list_cursor_invalid" ;;
      let keys := take (MAX_LIST_KEYS + 1) (keys_after objs (key r) (default "" (after r))) in
      let truncated := (MAX_LIST_KEYS <? length keys)%nat in
      Ok (objs, {| resp_value_b64 := None; resp_revision := None;
                   resp_keys := take MAX_LIST_KEYS keys; resp_truncated := truncated |})
  | Put | Delete =>
      let? value :=
        if is_put (action r) then let? v := put_value r in Ok (Some v) else Ok None in
      guard! match expected_of r with
             | Some expected => String.eqb (current_revision objs (key r)) expected
             | None => true
             end
        else {| status := 409; code := OBJECT_REVISION_CONFLICT |} ;;
      let '(objs, revision) :=
        match value with
        | Some value =>
            let revision := revision_of_value value in
            (<[key r := (value, revision)]> objs, Some revision)
        | None => (delete (key r) objs, None)
        end in
      Ok (objs, {| resp_value_b64 := None; resp_revision := revision;
                   resp_keys := []; resp_truncated := false |})
  end.

(** The clock at each of the four checks that read it. *)
Record Clock := { t_pop : Z; t_fresh : Z; t_fresh2 : Z; t_pop2 : Z }.

Definition execute (s : LocalStore) (r : ObjectRequest) (t : Clock)
    : LocalStore * result StoreError ObjectResponse :=
  let auth := authority s in
  let outcome :=
    let? _ := map_err (fun _ => denied "broker_sig_invalid")
      (verify_signature (broker_public_key auth) (cap r)) in
    let? _ := map_err (fun _ => denied "cap_pop_invalid")
      (enforce_client_pop (cap r) (t_pop t)) in
    let? _ := map_err (fun _ => denied "cap_data_class_mismatch")
      (check_data_class (cap r) (store_data_class s)) in
    let? _ := map_err (fun _ => denied "cap_freshness_failed")
      (check_freshness (cap r) (t_fresh t)) in
    let? _ := map_err denied (authorize_key (payload (cap r)) (action r) (key r)) in
    let? _ := map_err chain_error
      (check_chain_device rpc (rpc_url auth) (registry auth) (cap r)) in
    let? _ := map_err chain_error
      (check_chain_scope rpc (rpc_url auth) (scope auth) (cap r)) in
    let? _ := map_err chain_error
      (check_chain_k3_epoch rpc (rpc_url auth) (epoch auth) (cap r)) in
    execute_verified (objects s) r (t_fresh2 t) (t_pop2 t) in
  match outcome with
  | Ok (objs, response) =>
      ({| objects := objs; authority := auth; store_data_class := store_data_class s |},
       Ok response)
  | Err e => (s, Err e)
  end.
End LocalStore.

(** ** Lemmas *)

Section LocalStoreFacts.
Context `{HexCodec} `{Crypto} `{Sha256} `{Base64} `{P256} `{CapJson}.

(** What the storage operation did to the table. *)
Lemma execute_verified_objects objs r now now' objs' response :
  execute_verified objs r now now' = Ok (objs', response) ->
  (action r = Get \/ action r = List) /\ objs' = objs \/
  (exists v, action r = Put /\ put_value r = Ok v /\
     objs' = <[key r := (v, revision_of_value v)]> objs /\
     resp_revision response = Some (revision_of_value v) /\
     (forall e, expected_of r = Some e -> current_revision objs (key r) = e)) \/
  (action r = Delete /\ objs' = delete (key r) objs /\
     (forall e, expected_of r = Some e -> current_revision objs (key r) = e)).
Proof.
  intros Hok. unfold execute_verified in Hok.
  apply let_ok in Hok as (? & _ & Hok). do 3 apply guard_ok in Hok as [_ Hok].
  apply let_ok in Hok as (? & _ & Hok).
  assert (Hexp : match expected_of r with
      | Some e => String.eqb (current_revision objs (key r)) e | None => true end = true ->
    forall e, expected_of r = Some e -> current_revision objs (key r) = e).
  { intros He e Hr. rewrite Hr in He. by apply String.eqb_eq. }
  destruct (action r); cbn [is_put] in Hok.
  - left. apply let_ok in Hok as ([v rev] & _ & Hok). split; [tauto | congruence].
  - right; left. apply let_ok in Hok as (v & Hv & Hok).
    apply let_ok in Hv as (v' & Hv & [= <-]).
    apply guard_ok in Hok as [He [= <- <-]]. exists v'. split_and!; auto.
  - right; right.
    apply guard_ok in Hok as [He [= <- <-]]. auto.
  - left. apply guard_ok in Hok as [_ Hok]. split; [tauto|congruence].
Qed.

Lemma execute_verified_times objs r now now' x :
  execute_verified objs r now now' = Ok x ->
  check_freshness (cap r) now = Ok tt /\ enforce_client_pop (cap r) now' = Ok tt.
Proof.
  intros Hok. unfold execute_verified in Hok.
  apply let_ok in Hok as ([] & Hf%map_err_ok & Hok). do 3 apply guard_ok in Hok as [_ Hok].
  by apply let_ok in Hok as ([] & Hp%map_err_ok & Hok).
Qed.

(** The checks a completed request passed. *)
Definition checks_passed rpc (s : LocalStore) (r : ObjectRequest) (t : Clock) : Prop :=
  let auth := authority s in
  verify_signature (broker_public_key auth) (cap r) = Ok tt /\
  enforce_client_pop (cap r) (t_pop t) = Ok tt /\
  check_data_class (cap r) (store_data_class s) = Ok tt /\
  check_freshness (cap r) (t_fresh t) = Ok tt /\
  authorize_key (payload (cap r)) (action r) (key r) = Ok tt /\
  check_chain_device rpc (rpc_url auth) (registry auth) (cap r) = Ok tt /\
  check_chain_scope rpc (rpc_url auth) (scope auth) (cap r) = Ok tt /\
  check_chain_k3_epoch rpc (rpc_url auth) (epoch auth) (cap r) = Ok tt.

(** A request either fails and leaves the store, or was checks_passed and ran. *)
Lemma execute_inv rpc s r t s' out :
  execute rpc s r t = (s', out) ->
  (exists e, out = Err e) /\ s' = s \/
  exists objs' response, out = Ok response /\
    s' = {| objects := objs'; authority := authority s;
            store_data_class := store_data_class s |} /\
    checks_passed rpc s r t /\
    execute_verified (objects s) r (t_fresh2 t) (t_pop2 t) = Ok (objs', response).
Proof.
  unfold execute. cbv zeta. intros E.
  case_match eqn:Hok; [case_match; subst|].
  2:{ left. injection E as <- <-. eauto. }
  right. injection E as <- <-. do 2 eexists.
  do 8 apply let_ok in Hok as ([] & ?%map_err_ok & Hok). by unfold checks_passed.
Qed.

Lemma execute_ok rpc s r t objs' response :
  checks_passed rpc s r t ->
  execute_verified (objects s) r (t_fresh2 t) (t_pop2 t) = Ok (objs', response) ->
  execute rpc s r t =
    ({| objects := objs'; authority := authority s;
        store_data_class := store_data_class s |}, Ok response).
Proof.
  intros (Hsig & Hpop & Hclass & Hfresh & Hkey & Hdev & Hscope & Hepoch) Hv. unfold execute.
  by rewrite Hsig, Hpop, Hclass, Hfresh, Hkey, Hdev, Hscope, Hepoch, Hv.
Qed.

Lemma execute_changed_key rpc s r t s' out k :
  execute rpc s r t = (s', out) -> objects s' !! k <> objects s !! k ->
  checks_passed rpc s r t /\ k = key r /\ is_write (action r) = true /\ is_ok out = true /\
  check_freshness (cap r) (t_fresh2 t) = Ok tt /\
  enforce_client_pop (cap r) (t_pop2 t) = Ok tt.
Proof.
  intros [[_ ->]|(objs' & resp & -> & -> & Ha & Hv)]%execute_inv Hk; [done|].
  cbn in Hk. pose proof (execute_verified_times _ _ _ _ _ Hv) as [Hf Hp].
  split; [done|]. apply execute_verified_objects in Hv as
    [[_ ->]|[(v & Hact & _ & -> & _)|(Hact & -> & _)]]; [done| |];
    (destruct (decide (k = key r)) as [->|Hne];
      [|exfalso; apply Hk; rewrite ?lookup_insert_ne, ?lookup_delete_ne by done; done]);
    by rewrite Hact.
Qed.

Lemma check_chain_device_inv rpc url reg token :
  check_chain_device rpc url reg token = Ok tt ->
  exists device, get_chain_device rpc url reg (payload_device_key_hash (payload token)) = Ok device /\
    dev_registered_at device <> 0 /\ dev_revoked device = false /\
    dev_operator_omni device = strip_0x_lc (operator_omni (payload token)) /\
    dev_actor_omni device = strip_0x_lc (actor_omni (payload token)) /\
    Z.land (dev_roles device) ROLE_CAP_MINT <> 0.
Proof.
  unfold check_chain_device. intros (d & Hd & Hok)%let_ok.
  do 4 (apply guard_ok in Hok as [? Hok]). reflect_bools. eauto 10.
Qed.

Lemma verify_signature_inv pem token :
  verify_signature pem token = Ok tt ->
  exists bytes vk sig, payload_to_vec (payload token) = Ok bytes /\
    P256_from_public_key_pem pem = Ok vk /\ P256_verify vk (sha256 bytes) sig = true.
Proof.
  unfold verify_signature, parse_p256_pubkey_pem.
  intros (b & Hb%map_err_ok & Hok)%let_ok.
  apply let_ok in Hok as (sb & _ & Hok).
  apply let_ok in Hok as (sg & _ & Hok).
  apply let_ok in Hok as (vk & Hv%map_err_ok & Hok).
  apply guard_ok in Hok as [Hs _]. by exists b, vk, sg.
Qed.
End LocalStoreFacts.

(** ** Many requests *)

(** One request as it arrives: with the clock and the chain of its time. *)
Record Call := {
  c_request : ObjectRequest;
  c_clock : Clock;
  c_rpc : string -> string -> string -> nat -> RpcAttempt;
}.

Section Runs.
Context `{HexCodec} `{Crypto} `{Sha256} `{Base64} `{P256} `{CapJson}.

Definition call (s : LocalStore) (c : Call) : LocalStore * result StoreError ObjectResponse :=
  execute (c_rpc c) s (c_request c) (c_clock c).

(** The calls the store serves, in the order of its lock, with their results. *)
Fixpoint run (s : LocalStore) (calls : list Call)
    : LocalStore * list (result StoreError ObjectResponse) :=
  match calls with
  | [] => (s, [])
  | c :: calls =>
      let '(s, out) := call s c in
      let '(s, outs) := run s calls in (s, out :: outs)
  end.

Lemma run_cons s c calls :
  (run s (c :: calls)).1 = (run (call s c).1 calls).1 /\
  (run s (c :: calls)).2 = (call s c).2 :: (run (call s c).1 calls).2.
Proof. cbn. destruct (call s c) as [s' out]. cbn. by destruct (run s' calls). Qed.

Lemma call_class s c :
  store_data_class (call s c).1 = store_data_class s /\ authority (call s c).1 = authority s.
Proof.
  unfold call. destruct (execute _ _ _ _) as [s' out] eqn:E.
  by apply execute_inv in E as [[_ ->]|(? & ? & _ & -> & _)].
Qed.

(** Every row's revision is the digest of its value. *)
Definition intact (objs : objects_table) : Prop :=
  forall k v rev, objs !! k = Some (v, rev) -> rev = revision_of_value v.

Lemma call_intact s c : intact (objects s) -> intact (objects (call s c).1).
Proof.
  intros Hi. unfold call. destruct (execute _ _ _ _) as [s' out] eqn:E.
  apply execute_inv in E as [[_ ->]|(objs' & resp & _ & -> & _ & Hv)]; [done|]. cbn.
  apply execute_verified_objects in Hv as [[_ ->]|[(v & _ & _ & -> & _)|(_ & -> & _)]]; [done| |];
    intros k w rev; [rewrite lookup_insert_Some | rewrite lookup_delete_Some]; naive_solver.
Qed.

Lemma run_intact s calls : intact (objects s) -> intact (objects (run s calls).1).
Proof.
  revert s. induction calls as [|c calls IH]; intros s Hi; [done|].
  rewrite (proj1 (run_cons s c calls)). apply IH. by apply call_intact.
Qed.

Lemma revision_nonempty v : revision_of_value v <> "".
Proof.
  intros E%(f_equal String.length). unfold revision_of_value in E.
  by rewrite hex_encode_length, sha256_length in E.
Qed.

Lemma revision_digest v w : revision_of_value v = revision_of_value w -> sha256 v = sha256 w.
Proof.
  intros E%(f_equal hex_decode). unfold revision_of_value in E.
  rewrite !hex_decode_encode in E. congruence.
Qed.

Lemma current_revision_none objs k : intact objs -> current_revision objs k = "" <-> objs !! k = None.
Proof.
  intros Hi. unfold current_revision. destruct (objs !! k) as [[v rev]|] eqn:E; cbn; [|done].
  split; [|done]. intros ->. apply Hi in E. by destruct (revision_nonempty v).
Qed.
End Runs.

(** ** Properties *)

(** C1: every change of an object is authorized.  If a request changed what is
    stored at [k], then the request was a write of exactly [k] that succeeded, in
    the store's own class; its payload carries a P-256 signature under the
    configured broker key; the device it names is on the chain, active, allowed
    to mint, and bound to the payload's owner and actor; unless owner and actor
    coincide the chain grants the service; the key epoch is current; the key is
    in the scope of the capability; and at commit the capability had neither
    expired nor a time of issue more than a minute ahead. *)
Theorem object_change_authorized `{HexCodec} `{Crypto} `{Sha256} `{Base64} `{P256} `{CapJson}
    rpc (s : LocalStore) (r : ObjectRequest) (t : Clock) (s' : LocalStore) out (k : string)
    (Ht : is_u64 (t_fresh2 t + 60)) (Hrun : execute rpc s r t = (s', out))
    (Hchange : objects s' !! k <> objects s !! k) :
  let auth := authority s in
  let p := payload (cap r) in
  k = key r /\ is_write (action r) = true /\ is_ok out = true /\
  data_class p = store_data_class s /\ is_capability_service (service p) = false /\
  (exists bytes vk sig, payload_to_vec p = Ok bytes /\
     P256_from_public_key_pem (broker_public_key auth) = Ok vk /\
     P256_verify vk (sha256 bytes) sig = true) /\
  (exists device,
     get_chain_device rpc (rpc_url auth) (registry auth) (payload_device_key_hash p) = Ok device /\
     dev_registered_at device <> 0 /\ dev_revoked device = false /\
     dev_operator_omni device = strip_0x_lc (operator_omni p) /\
     dev_actor_omni device = strip_0x_lc (actor_omni p) /\
     Z.land (dev_roles device) ROLE_CAP_MINT <> 0) /\
  check_chain_scope rpc (rpc_url auth) (scope auth) (cap r) = Ok tt /\
  check_chain_k3_epoch rpc (rpc_url auth) (epoch auth) (cap r) = Ok tt /\
  authorize_key p (action r) k = Ok tt /\
  issued_at p - 60 <= t_fresh2 t < cap_expires_at p /\
  check_client_pop (cap r) CAP_POP_MAX_AGE_SECS (t_pop2 t) = Ok tt.
Proof.
  intros auth p.
  destruct (execute_changed_key _ _ _ _ _ _ _ Hrun Hchange)
    as ((Hsig & _ & Hclass & _ & Hkey & Hdev & Hscope & Hepoch) & -> & Hw & Hok & Hfresh & Hpop).
  unfold check_data_class in Hclass. apply guard_ok in Hclass as [Hsvc Hclass].
  apply guard_ok in Hclass as [Hclass _].
  unfold check_freshness in Hfresh. apply guard_ok in Hfresh as [He Hfresh].
  apply guard_ok in Hfresh as [Hi _].
  unfold u64_add in Hi. rewrite (wrap_u64_small _ Ht) in Hi. reflect_bools. subst p.
  split_and!; try done; try lia.
  - by apply verify_signature_inv.
  - by apply check_chain_device_inv.
Qed.

(** Published messages and inbox proposals are immutable.  In a channel
    store, and at the inbox keys of a memory store, an object that is there is
    the same object after any sequence of requests, whoever makes them and
    whatever they contain, unless one of them was a successful [Delete] of that
    key under a teardown capability whose actor is the owner himself. *)
Theorem published_objects_immutable `{HexCodec} `{Crypto} `{Sha256} `{Base64} `{P256} `{CapJson}
    (calls : list Call) (s : LocalStore) (k : string) row
    (Hclass : store_data_class s = Channel \/
      store_data_class s = Memory /\ exists v o, omni v = Ok o /\ under o "/inbox/" k)
    (Hintact : intact (objects s)) (Hrow : objects s !! k = Some row) :
  objects (run s calls).1 !! k = Some row \/
  exists i c p, calls !! i = Some c /\ payload (cap (c_request c)) = p /\
    key (c_request c) = k /\ action (c_request c) = Delete /\ op p = Teardown /\
    omni (operator_omni p) = omni (actor_omni p) /\
    exists response, (run s calls).2 !! i = Some (Ok response).
Proof.
  revert s Hclass Hintact Hrow.
  induction calls as [|c calls IH]; intros s Hclass Hi Hrow; [by left|].
  destruct (run_cons s c calls) as [E1 E2].
  destruct (decide (objects (call s c).1 !! k = objects s !! k)) as [Hsame|Hdiff].
  - rewrite E1, E2. destruct (IH (call s c).1) as [?|(i & c' & p & Hc & Hrest)].
    + by rewrite (proj1 (call_class s c)).
    + by apply call_intact.
    + by rewrite Hsame.
    + by left.
    + right. by exists (S i), c', p.
  - right. exists 0%nat, c, (payload (cap (c_request c))). rewrite E2.
    destruct (call s c) as [s' out] eqn:Ec. cbn [fst snd] in *.
    unfold call in Ec.
    destruct (execute_changed_key _ _ _ _ _ _ _ Ec Hdiff) as (Ha & Hk & Hw & Hok & _).
    destruct Ha as (_ & _ & Hcls & _ & Hkey & _).
    unfold check_data_class in Hcls. apply guard_ok in Hcls as [_ Hcls].
    apply guard_ok in Hcls as [Hcls%bool_decide_eq_true _].
    destruct (action (c_request c)) eqn:Eact; try done.
    + exfalso. rewrite <-Hk in Hkey.
      assert (Hop : op (payload (cap (c_request c))) = Append \/
                    op (payload (cap (c_request c))) = ChannelPublish).
      { eapply put_creates_only; [exact Hkey|]. rewrite Hcls. destruct Hclass; auto. }
      apply execute_inv in Ec as [[_ ->]|(objs' & resp & _ & _ & _ & Hv)]; [done|].
      apply execute_verified_objects in Hv as [[[?|?] _]|[(v & _ & _ & _ & _ & He)|[? _]]];
        try congruence.
      rewrite <-Hk in He. enough (current_revision (objects s) k = "") as Hn.
      { apply (current_revision_none _ _ Hi) in Hn. congruence. }
      apply He. unfold expected_of. by destruct Hop as [-> | ->].
    + rewrite <-Hk in Hkey. destruct (delete_is_teardown _ _ Hkey).
      destruct out as [response|]; [|done]. by split_and!; [..|exists response].
Qed.

(** The calls of a list that wrote [k], counted. *)
Definition wrote (k : string) (c : Call) (out : result StoreError ObjectResponse) : bool :=
  String.eqb (key (c_request c)) k && is_write (action (c_request c)) && is_ok out.

Definition writes (k : string) (calls : list Call)
    (outs : list (result StoreError ObjectResponse)) : nat :=
  length (List.filter (fun x => wrote k x.1 x.2) (zip calls outs)).

Section CompareAndSwap.
Context `{HexCodec} `{Crypto} `{Sha256} `{Base64} `{P256} `{CapJson}.

(** A call that writes [k] only from revision [e], and never writes [e] back. *)
Definition swaps_from (k e : string) (c : Call) : Prop :=
  key (c_request c) = k -> is_write (action (c_request c)) = true ->
  expected_of (c_request c) = Some e /\
  match action (c_request c) with
  | Put => forall v, put_value (c_request c) = Ok v -> revision_of_value v <> e
  | _ => e <> ""
  end.

Lemma call_swap k e s c : swaps_from k e c ->
  (wrote k c (call s c).2 = true /\
   current_revision (objects s) k = e /\ current_revision (objects (call s c).1) k <> e) \/
  (wrote k c (call s c).2 = false /\ objects (call s c).1 !! k = objects s !! k).
Proof.
  intros Hc. unfold call, wrote. destruct (execute _ _ _ _) as [s' out] eqn:E.
  apply execute_inv in E as [[[err ->] ->]|(objs' & resp & -> & -> & _ & Hv)].
  { right. by rewrite andb_false_r. }
  cbn [fst snd is_ok objects]. rewrite andb_true_r.
  apply execute_verified_objects in Hv as [[Ha ->]|[(v & Ha & Hp & -> & _ & He)|(Ha & -> & He)]].
  - right. split; [|done]. destruct Ha as [-> | ->]; by rewrite andb_false_r.
  - rewrite Ha. destruct (String.eqb_spec (key (c_request c)) k) as [Hk|Hk]; cbn [is_write andb];
      [left | right; split; [done|]; by rewrite lookup_insert_ne].
    destruct (Hc Hk) as [Hexp Hne]; [by rewrite Ha|]. rewrite Ha in Hne. rewrite <-Hk.
    split_and!; [done | by apply He |]. unfold current_revision. rewrite lookup_insert_eq. cbn. eauto.
  - rewrite Ha. destruct (String.eqb_spec (key (c_request c)) k) as [Hk|Hk]; cbn [is_write andb];
      [left | right; split; [done|]; by rewrite lookup_delete_ne].
    destruct (Hc Hk) as [Hexp Hne]; [by rewrite Ha|]. rewrite Ha in Hne. rewrite <-Hk.
    split_and!; [done | by apply He |]. unfold current_revision. rewrite lookup_delete_eq. cbn. congruence.
Qed.

Lemma writes_cons k s c calls :
  writes k (c :: calls) (run s (c :: calls)).2 =
  (b2n (wrote k c (call s c).2) + writes k calls (run (call s c).1 calls).2)%nat.
Proof.
  rewrite (proj2 (run_cons s c calls)). unfold writes. cbn. by destruct (wrote _ _ _).
Qed.

Lemma run_swap k e calls : forall s, Forall (swaps_from k e) calls ->
  (writes k calls (run s calls).2 <= b2n (String.eqb (current_revision (objects s) k) e))%nat /\
  (writes k calls (run s calls).2 = 0%nat -> objects (run s calls).1 !! k = objects s !! k).
Proof.
  induction calls as [|c calls IH]; intros s Hall.
  { split; [unfold writes; cbn; lia | done]. }
  apply Forall_cons in Hall as [Hc Hcs].
  rewrite writes_cons, (proj1 (run_cons s c calls)).
  destruct (IH (call s c).1 Hcs) as [IH1 IH2].
  destruct (call_swap k e s c Hc) as [(Hw & He & Hne)|(Hw & Hsame)]; rewrite Hw; cbn [b2n].
  - apply String.eqb_eq in He. rewrite He. apply String.eqb_neq in Hne. rewrite Hne in IH1.
    cbn [b2n] in *. split; [lia | intros; lia].
  - unfold current_revision in *. rewrite Hsame in *. split; [lia|]. intros Hz. by apply IH2.
Qed.
End CompareAndSwap.

(** C4: no lost update.  Among any number of clients that write [k] only on
    condition that it still has the revision [e] they read (creation is the
    condition that it is absent), and none of which writes [e] back, at most one
    succeeds, and none when the revision is already another; the requests may be
    interleaved with any others on other keys.  If none succeeds the object is
    untouched, and a client that does succeed replaced the very bytes it read,
    unless SHA-256 collides on those and the bytes stored. *)
Theorem compare_and_swap_once `{HexCodec} `{Crypto} `{Sha256} `{Base64} `{P256} `{CapJson}
    (s : LocalStore) (calls : list Call) (k e : string)
    (Hall : Forall (swaps_from k e) calls) :
  (writes k calls (run s calls).2 <= 1)%nat /\
  (current_revision (objects s) k <> e -> writes k calls (run s calls).2 = 0%nat) /\
  (writes k calls (run s calls).2 = 0%nat -> objects (run s calls).1 !! k = objects s !! k) /\
  (forall v0, intact (objects s) ->
     (forall v rev, objects s !! k = Some (v, rev) -> sha256 v = sha256 v0 -> v = v0) ->
     e = revision_of_value v0 -> writes k calls (run s calls).2 = 1%nat ->
     objects s !! k = Some (v0, e)).
Proof.
  destruct (run_swap k e calls s Hall) as [Hle Hz].
  pose proof (b2n_le_1 (String.eqb (current_revision (objects s) k) e)).
  split_and!; [lia | | done |].
  - intros Hne%String.eqb_neq. rewrite Hne in Hle. cbn in Hle. lia.
  - intros v0 Hi Hcr -> Hone. rewrite Hone in Hle.
    destruct (String.eqb_spec (current_revision (objects s) k) (revision_of_value v0)) as [He|];
      [|cbn in Hle; lia].
    unfold current_revision in He. destruct (objects s !! k) as [[v rev]|] eqn:E; cbn in He.
    + rewrite (Hi _ _ _ E) in He |- *. apply revision_digest in He.
      by rewrite (Hcr v rev eq_refl He).
    + by destruct (revision_nonempty v0).
Qed.

(** A database keeps its class.  A store reopens from its file exactly under
    the data class it was created with and a broker key that parses, with the
    same objects; a file with a foreign identity or schema never opens. *)
Lemma reopen_same_class `{HexCodec} `{Crypto} `{Sha256} `{Base64} `{P256} `{CapJson}
    (s : LocalStore) (c : DataClass) (auth : AuthorityConfig) (s' : LocalStore) :
  (open (close s) c auth = Ok s' <->
     c = store_data_class s /\ c <> Speech /\
     (exists vk, P256_from_public_key_pem (broker_public_key auth) = Ok vk) /\
     s' = {| objects := objects s; authority := auth; store_data_class := c |}) /\
  (forall app version stored rows, app <> APPLICATION_ID \/ version <> SCHEMA_VERSION ->
     open (StoredDatabase app version stored rows) c auth <> Ok s').
Proof.
  unfold open, close, validate_broker_public_key, parse_p256_pubkey_pem. split; [split|].
  - intros [Hs%negb_true_iff Hok]%guard_ok.
    apply let_ok in Hok as ([] & Hvk%map_err_ok & Hok).
    apply let_ok in Hvk as (vk & Hvk%map_err_ok & _).
    rewrite !Z.eqb_refl in Hok. cbn [andb] in Hok.
    apply guard_ok in Hok as [Hc%String.eqb_eq%DataClass_as_str_inj Hok]. reflect_bools. subst c.
    split_and!; [done | done | by exists vk | congruence].
  - intros (-> & Hs & (vk & Hvk) & ->). rewrite Hvk, !Z.eqb_refl. cbn [map_err andb].
    rewrite (bool_decide_eq_false_2 _ Hs), String.eqb_refl. done.
  - intros app version stored rows Hid Hok.
    apply guard_ok in Hok as [_ Hok]. apply let_ok in Hok as (? & _ & Hok).
    apply let_ok in Hok as ([? ?] & Hok & _). apply guard_ok in Hok as [Hid' _].
    reflect_bools. lia.
Qed.

(** ** Witnesses: a store, a chain and two clients *)

Section StoreWitnesses.
#[local] Existing Instances SimpleHex.codec ToyCrypto.crypto ToyVerifier.sha SimpleBase64.codec
  ToyVerifier.p256 ToyVerifier.json.

Definition demo_auth : AuthorityConfig :=
  {| broker_public_key := "pem"; rpc_url := "rpc"; registry := "registry"; scope := "scope";
     epoch := "epoch" |}.

Definition demo_record : DeviceRecord :=
  {| rec_operator_omni := repeat (byte_of_Z 170) 32; rec_actor_omni := repeat (byte_of_Z 187) 32;
     k11_cred_id := repeat Byte.x00 32; k11_rp_id_hash := repeat Byte.x00 32;
     k11_pub_x := repeat Byte.x00 32; k11_pub_y := repeat Byte.x00 32;
     tier := 1; roles := 1; registered_at := 7; last_sign_count := 0; revoked := false |}.

(** The chain: one device, every service granted, key epoch 1. *)
Definition demo_rpc (url contract data : string) (attempt : nat) : RpcAttempt :=
  Reply None (Some ("0x" +:+ hex_encode
    (if String.eqb contract "registry" then encode_device_record demo_record
     else if String.eqb contract "scope" then abi_bool true else abi_word 1))).

Definition demo_payload (svc : string) (o : CapOp) (c : DataClass) : CapPayload :=
  sample_payload (rep64 "a"%char) (rep64 "b"%char) svc o c (toy_dkh true).

Definition demo_cap (p : CapPayload) : CapToken :=
  pop_token p "pem"
    (match DeviceKey_cap_pop_sig (DeviceKey_of (true : SigningKey)) (operator_omni p)
       (actor_omni p) (service p) (CapOp_as_str (op p)) (DataClass_as_str (data_class p))
       "n0" 1500 with Ok s => s | Err _ => "" end)
    "n0" 1500 None.

Definition demo_clock : Clock := {| t_pop := 1600; t_fresh := 1600; t_fresh2 := 1601; t_pop2 := 1601 |}.

Definition demo_value (b : Byte.byte) : bytes := [b; b].

Definition demo_put (b : Byte.byte) (expected : option string) : ObjectRequest :=
  {| cap := demo_cap (demo_payload "travel" Store Memory); action := Put;
     key := "bots/" +:+ rep64 "b"%char +:+ "/memory/travel.enc";
     value_b64 := Some (b64_encode (demo_value b)); expected_revision := expected; after := None |}.

Definition demo_publish (b : Byte.byte) : ObjectRequest :=
  {| cap := demo_cap (demo_payload "channel-pub:c1" ChannelPublish Channel); action := Put;
     key := "bots/" +:+ rep64 "a"%char +:+ "/channel/c1/m1";
     value_b64 := Some (b64_encode (demo_value b)); expected_revision := None; after := None |}.

Definition demo_call (r : ObjectRequest) : Call :=
  {| c_request := r; c_clock := demo_clock; c_rpc := demo_rpc |}.

Definition demo_store (c : DataClass) (rows : objects_table) : LocalStore :=
  {| objects := rows; authority := demo_auth; store_data_class := c |}.

Example demo_put_ok :
  (execute demo_rpc (demo_store Memory ∅) (demo_put Byte.x01 (Some "")) demo_clock).2 =
  Ok {| resp_value_b64 := None; resp_revision := Some (revision_of_value (demo_value Byte.x01));
        resp_keys := []; resp_truncated := false |}.
Proof. vm_compute. reflexivity. Qed.

Example demo_publish_ok :
  map is_ok (run (demo_store Channel ∅)
    [demo_call (demo_publish Byte.x01); demo_call (demo_publish Byte.x02)]).2 = [true; false].
Proof. vm_compute. reflexivity. Qed.
End StoreWitnesses.

(** Two conditional writers of one absent object: one wins. *)
Definition demo_race : list Call :=
  [demo_call (demo_put Byte.x01 (Some "")); demo_call (demo_put Byte.x02 (Some ""))].

Definition demo_key : string := "bots/" +:+ rep64 "b"%char +:+ "/memory/travel.enc".

Example object_change_authorized_witness :
  let _ := SimpleHex.codec in let _ := ToyCrypto.crypto in let _ := ToyVerifier.sha in
  let _ := SimpleBase64.codec in let _ := ToyVerifier.p256 in let _ := ToyVerifier.json in
  let p := demo_payload "travel" Store Memory in
  (exists device,
     get_chain_device demo_rpc "rpc" "registry" (payload_device_key_hash p) = Ok device /\
     dev_registered_at device <> 0 /\ dev_revoked device = false /\
     dev_operator_omni device = strip_0x_lc (operator_omni p) /\
     dev_actor_omni device = strip_0x_lc (actor_omni p) /\
     Z.land (dev_roles device) ROLE_CAP_MINT <> 0) /\
  authorize_key p Put demo_key = Ok tt.
Proof.
  intros hex cr sh b64 p256 json p.
  pose (s := demo_store Memory ∅).
  pose (x := @execute hex cr sh b64 p256 json demo_rpc s (demo_put Byte.x01 (Some "")) demo_clock).
  destruct (@object_change_authorized hex cr sh b64 p256 json demo_rpc s
    (demo_put Byte.x01 (Some "")) demo_clock x.1 x.2 demo_key) as (_&_&_&_&_&_&Hd&_&_&Hk&_).
  - split; vm_compute; discriminate.
  - vm_compute. reflexivity.
  - vm_compute. discriminate.
  - split; [exact Hd | exact Hk].
Defined.

Example published_objects_immutable_witness :
  let _ := SimpleHex.codec in let _ := ToyCrypto.crypto in let _ := ToyVerifier.sha in
  let _ := SimpleBase64.codec in let _ := ToyVerifier.p256 in let _ := ToyVerifier.json in
  let k := "bots/" +:+ rep64 "a"%char +:+ "/channel/c1/m1" in
  let row := (demo_value Byte.x01, revision_of_value (demo_value Byte.x01)) in
  let calls := [demo_call (demo_publish Byte.x02)] in
  let s := demo_store Channel {[ k := row ]} in
  objects (run s calls).1 !! k = Some row \/
  exists i c p, calls !! i = Some c /\ payload (cap (c_request c)) = p /\
    key (c_request c) = k /\ action (c_request c) = Delete /\ op p = Teardown /\
    omni (operator_omni p) = omni (actor_omni p) /\
    exists response, (run s calls).2 !! i = Some (Ok response).
Proof.
  intros hex cr sh b64 p256 json k row calls s.
  apply (@published_objects_immutable hex cr sh b64 p256 json calls s k row).
  - left. reflexivity.
  - intros k' v rev Hk. cbn [objects s demo_store] in Hk.
    apply lookup_singleton_Some in Hk as [_ E]. injection E as <- <-. reflexivity.
  - apply lookup_singleton_eq.
Defined.

Example compare_and_swap_once_witness :
  let _ := SimpleHex.codec in let _ := ToyCrypto.crypto in let _ := ToyVerifier.sha in
  let _ := SimpleBase64.codec in let _ := ToyVerifier.p256 in let _ := ToyVerifier.json in
  map is_ok (run (demo_store Memory ∅) demo_race).2 = [true; false] /\
  (writes demo_key demo_race (run (demo_store Memory ∅) demo_race).2 <= 1)%nat.
Proof.
  intros hex cr sh b64 p256 json. split; [vm_compute; reflexivity|].
  apply (@compare_and_swap_once hex cr sh b64 p256 json (demo_store Memory ∅) demo_race demo_key "").
  apply Forall_forall. intros c Hc. unfold demo_race in Hc.
  repeat (apply elem_of_cons in Hc as [->|Hc]); [| |by apply elem_of_nil in Hc];
    intros _ _; (split; [reflexivity|]); intros v _; apply revision_nonempty.
Defined.

(** ** Paging through the sorted keys of a table

    What the listing promises to a reader that follows its cursor: strictly ascending
    pages that resume exactly where the last one ended, also while the keys already seen
    are deleted. *)

Definition str_lt (a b : string) : Prop := str_gt b a = true.

Lemma str_gt_spec a b : str_gt a b = true <-> ~ String.le a b.
Proof.
  unfold str_gt, String.le. destruct (String.leb a b); cbn; naive_solver.
Qed.

Lemma str_lt_le a b : str_lt a b -> String.le a b.
Proof. unfold str_lt. rewrite str_gt_spec. intros H. by destruct (total String.le a b). Qed.

Lemma str_lt_iff a b : str_lt a b <-> String.le a b /\ a <> b.
Proof.
  unfold str_lt. rewrite str_gt_spec. split.
  - intros H. split; [by destruct (total String.le a b)|]. intros ->. by apply H.
  - intros [Hle Hne] Hba. apply Hne. by apply (anti_symm String.le).
Qed.

#[export] Instance str_lt_trans : Transitive str_lt.
Proof.
  intros a b c. rewrite !str_lt_iff. intros [Hab Hne] [Hbc Hne']. split; [by etrans|].
  intros ->. apply Hne'. by apply (anti_symm String.le).
Qed.

#[export] Instance str_lt_irrefl : Irreflexive str_lt.
Proof. intros a. unfold complement. rewrite str_lt_iff. naive_solver. Qed.

(** Strictly ascending lists. *)
Abbreviation ascending := (StronglySorted str_lt).

Lemma ascending_app l k : ascending (l ++ k) <->
  ascending l /\ ascending k /\ (forall a b, a ∈ l -> b ∈ k -> str_lt a b).
Proof.
  induction l as [|x l IH]; cbn.
  - split; [|naive_solver]. intros H. split_and!; [constructor | done |].
    intros a b Ha. by apply elem_of_nil in Ha.
  - split.
    + intros H. apply StronglySorted_inv in H as [Hs Hf]. apply IH in Hs as (Hl & Hk & Hlk).
      rewrite Forall_app, !Forall_forall in Hf. destruct Hf as [Hf1 Hf2].
      split_and!; [constructor; [done|by rewrite Forall_forall] | done |].
      intros a b [->|Ha]%elem_of_cons Hb; [by apply Hf2 | by apply Hlk].
    + intros (Hl & Hk & Hlk). apply StronglySorted_inv in Hl as [Hl Hf].
      constructor; [apply IH; split_and!; [done..|set_solver]|].
      rewrite Forall_app. split; [done|]. rewrite Forall_forall. set_solver.
Qed.

(** Two ascending lists with the same elements are equal. *)
Lemma ascending_unique l k : ascending l -> ascending k ->
  (forall x, x ∈ l <-> x ∈ k) -> l = k.
Proof.
  revert k. induction l as [|x l IH]; intros [|y k] Hl Hk Heq.
  - done.
  - exfalso. assert (y ∈ []) by (apply Heq; set_solver). set_solver.
  - exfalso. assert (x ∈ []) by (apply Heq; set_solver). set_solver.
  - apply StronglySorted_inv in Hl as [Hl Hfl], Hk as [Hk Hfk]. rewrite Forall_forall in Hfl, Hfk.
    assert (x = y) as ->.
    { assert (x ∈ y :: k) as [|Hx]%elem_of_cons by (apply Heq; set_solver); [done|].
      assert (y ∈ x :: l) as [|Hy]%elem_of_cons by (apply Heq; set_solver); [done|].
      destruct (irreflexivity str_lt x). etrans; [by apply Hfl | by apply Hfk]. }
    f_equal. apply IH; [done..|]. intros z. split; intros Hz.
    + assert (z ∈ y :: k) as [->|]%elem_of_cons by (apply Heq; set_solver); [|done].
      destruct (irreflexivity str_lt y). by apply Hfl.
    + assert (z ∈ y :: l) as [->|]%elem_of_cons by (apply Heq; set_solver); [|done].
      destruct (irreflexivity str_lt y). by apply Hfk.
Qed.

Lemma ascending_filter f l : ascending l -> ascending (List.filter f l).
Proof.
  induction 1 as [|x l Hl IH Hf]; cbn; [constructor|]. destruct (f x); [|done].
  constructor; [done|]. rewrite Forall_forall in *. intros y [_ Hy]%elem_of_filterb. auto.
Qed.

Lemma ascending_sort l : NoDup l -> ascending (merge_sort String.le l).
Proof.
  intros Hnd. assert (NoDup (merge_sort String.le l)) as Hnd' by by rewrite merge_sort_Permutation.
  pose proof (StronglySorted_merge_sort String.le l) as Hs.
  induction Hs as [|x k Hk IH Hf]; [constructor|]. apply NoDup_cons in Hnd' as [Hx Hnd'].
  constructor; [by apply IH|]. rewrite Forall_forall in *. intros y Hy.
  apply str_lt_iff. split; [by apply Hf|]. by intros ->.
Qed.

(** ** The keys a listing yields *)

Lemma elem_of_keys_after objs prefix c k :
  k ∈ keys_after objs prefix c <->
  is_Some (objs !! k) /\ starts_with prefix k = true /\ str_lt c k.
Proof.
  unfold keys_after, str_lt. rewrite elem_of_filterb, merge_sort_Permutation, andb_true_iff.
  rewrite list_elem_of_fmap. split.
  - intros ((? & ?) & [k' v] & -> & Hk%elem_of_map_to_list). split_and!; [by exists v | done..].
  - intros ([v Hv] & ? & ?). split; [done|]. exists (k, v). split; [done|].
    by apply elem_of_map_to_list.
Qed.

Lemma keys_after_ascending objs prefix c : ascending (keys_after objs prefix c).
Proof. apply ascending_filter, ascending_sort, NoDup_fst_map_to_list. Qed.

Lemma keys_after_ext objs objs' prefix c :
  (forall k, str_lt c k -> starts_with prefix k = true ->
     is_Some (objs !! k) <-> is_Some (objs' !! k)) ->
  keys_after objs prefix c = keys_after objs' prefix c.
Proof.
  intros H. apply ascending_unique; [apply keys_after_ascending..|].
  intros k. rewrite !elem_of_keys_after. naive_solver.
Qed.

(** A page resumes where the last one ended. *)
Lemma keys_after_resume objs prefix c page last rest :
  keys_after objs prefix c = (page ++ last :: rest)%list -> keys_after objs prefix last = rest.
Proof.
  intros E. pose proof (keys_after_ascending objs prefix c) as Hs. rewrite E in Hs.
  replace (page ++ last :: rest)%list with ((page ++ [last]) ++ rest)%list in *
    by by rewrite <-app_assoc.
  apply ascending_app in Hs as (Hp & Hr & Hlt).
  apply ascending_unique; [apply keys_after_ascending | done |].
  intros k. rewrite elem_of_keys_after. split.
  - intros (Hk & Hpre & Hl).
    assert (Hlc : str_lt c last).
    { assert (Hin : last ∈ keys_after objs prefix c) by (rewrite E; set_solver).
      by apply elem_of_keys_after in Hin as (_ & _ & ?). }
    assert (Hin : k ∈ keys_after objs prefix c).
    { apply elem_of_keys_after. split_and!; [done..|]. by etrans. }
    rewrite E in Hin. apply elem_of_app in Hin as [Hin|]; [|done].
    apply ascending_app in Hp as (_ & _ & Hpl).
    apply elem_of_app in Hin as [Hin|Hin%list_elem_of_singleton].
    + destruct (irreflexivity str_lt k). transitivity last; [apply Hpl; [done|set_solver]|done].
    + subst k. by destruct (irreflexivity str_lt last).
  - intros Hk. assert (Hin : k ∈ keys_after objs prefix c) by (rewrite E; set_solver).
    apply elem_of_keys_after in Hin as (? & ? & _). split_and!; [done..|]. apply Hlt; set_solver.
Qed.

Lemma keys_after_next objs prefix c n k :
  last (take n (keys_after objs prefix c)) = Some k ->
  keys_after objs prefix k = drop n (keys_after objs prefix c).
Proof.
  intros Hl. apply last_Some in Hl as [page Hp].
  apply (keys_after_resume objs prefix c page).
  rewrite <-(take_drop n (keys_after objs prefix c)) at 1. rewrite Hp.
  by rewrite <-app_assoc.
Qed.

(** Deleting keys up to the cursor does not change what follows it. *)
Lemma keys_after_delete objs prefix c k :
  String.le k c -> keys_after (delete k objs) prefix c = keys_after objs prefix c.
Proof.
  intros Hk. apply keys_after_ext. intros k' Hlt _.
  rewrite lookup_delete_ne; [done|]. intros ->. apply str_lt_iff in Hlt as [Hle Hne].
  apply Hne. by apply (anti_symm String.le).
Qed.

Lemma keys_after_lt objs prefix c k : k ∈ keys_after objs prefix c -> str_lt c k.
Proof. by intros (_ & _ & ?)%elem_of_keys_after. Qed.
