(* ===== verification/ObjectClient.v ===== *)
(** * The object client

    [crates/agentkeys-core/src/object_store.rs]: the HTTP adapter's reading of a
    reply, and [ObjectClient], which checks every response before it believes it.
    A service is any state machine on requests: nothing is assumed of it until a
    theorem says so. *)
From S2P Require Import Prelude RustStr StrFacts Capability DeviceCore.
From S2P Require Import Crates CapabilityVerify ObjectStore LocalStore.

Open Scope Z_scope.

Inductive ObjectError :=
| Denied | NotFound | Conflict | InvalidRequest | Unavailable | InvalidResponse.

#[export] Instance ObjectError_eq_dec : EqDecision ObjectError.
Proof. solve_decision. Defined.

(** ** The interface: one request, one answer *)

(** [trait ObjectStore]; the type [S] is whatever the service remembers. *)
Class ObjectService (S : Type) := {
  svc_execute : S -> ObjectRequest -> S * result ObjectError ObjectResponse;
}.

(** ** Reading an HTTP reply *)

(** The parts of [reqwest::Url] the constructor inspects; parsing is [reqwest]'s. *)
Record Url := {
  scheme : string;
  host_str : option string;
  username : string;
  password : option string;
  url_query : option string;
  fragment : option string;
  path : string;
}.

Definition OBJECT_ROUTE : string := "/v1/objects".

Definition HttpObjectStore_new (parsed : option Url) : result ObjectError Url :=
  let? endpoint := ok_or InvalidRequest parsed in
  guard! negb (negb (String.eqb (scheme endpoint) "http" || String.eqb (scheme endpoint) "https")
               || is_none (host_str endpoint)
               || negb (String.eqb (username endpoint) "")
               || is_some (password endpoint)
               || is_some (url_query endpoint)
               || is_some (fragment endpoint)
               || negb (String.eqb (path endpoint) "" || String.eqb (path endpoint) "/"))
    else InvalidRequest ;;
  Ok {| scheme := scheme endpoint; host_str := host_str endpoint;
        username := username endpoint; password := password endpoint;
        url_query := url_query endpoint; fragment := fragment endpoint;
        path := OBJECT_ROUTE |}.

Definition MAX_RESPONSE_BYTES : Z := div_ceil MAX_OBJECT_BYTES 3 * 4 + 1024 * 1024.

(** A reply: nothing came back, or a status line and a body in chunks, the
    stream of which may break off. *)
Record HttpReply := {
  http_status : Z;
  content_length : option Z;
  chunks : list bytes;
  broken : bool;
}.

(** [serde_json] on the two bodies the adapter reads. *)
Class ObjectJson := {
  error_code_from_slice : bytes -> option string;
  response_from_slice : bytes -> option ObjectResponse;
  error_code_to_vec : string -> bytes;
  response_to_vec : ObjectResponse -> bytes;
  error_code_from_to : forall c, error_code_from_slice (error_code_to_vec c) = Some c;
  response_from_to : forall r, response_from_slice (response_to_vec r) = Some r;
  (** Eleven characters around the code, and six at most for each of its own. *)
  error_code_to_vec_length : forall c,
    (length (error_code_to_vec c) <= 11 + 6 * String.length c)%nat;
}.

Fixpoint read_chunks (limit : Z) (acc : bytes) (chunks : list bytes) (broken : bool)
    : result ObjectError bytes :=
  match chunks with
  | [] => if broken then Err Unavailable else Ok acc
  | chunk :: chunks =>
      guard! negb (limit <? len acc + len chunk) else InvalidResponse ;;
      read_chunks limit (acc ++ chunk)%list chunks broken
  end.

Definition response_bytes (reply : HttpReply) (limit : Z) : result ObjectError bytes :=
  guard! negb (match content_length reply with Some l => limit <? l | None => false end)
    else InvalidResponse ;;
  read_chunks limit [] (chunks reply) (broken reply).

(** [HttpObjectStore::execute] after the request was sent. *)
Definition http_execute `{ObjectJson} (reply : option HttpReply)
    : result ObjectError ObjectResponse :=
  let? reply := ok_or Unavailable reply in
  let status := http_status reply in
  if status =? 200 then
    let? body := response_bytes reply MAX_RESPONSE_BYTES in
    ok_or InvalidResponse (response_from_slice body)
  else if (status =? 400) || (status =? 413) || (status =? 422) then Err InvalidRequest
  else if (status =? 401) || (status =? 403) then Err Denied
  else if (status =? 404) || (status =? 409) then
    let? body := response_bytes reply 1024 in
    let? code := ok_or Unavailable (error_code_from_slice body) in
    if (status =? 404) && String.eqb code OBJECT_NOT_FOUND then Err NotFound
    else if (status =? 409) && String.eqb code OBJECT_REVISION_CONFLICT then Err Conflict
    else Err Unavailable
  else Err Unavailable.

(** ** The client *)

Definition request (cap : CapToken) (action : ObjectAction) (key : string) : ObjectRequest :=
  {| cap := cap; action := action; key := key;
     value_b64 := None; expected_revision := None; after := None |}.

Record StoredObject := { obj_bytes : bytes; obj_revision : string }.
Record ObjectPage := { page_keys : list string; next : option string }.

(** The key loop of [list]: prefix, strict order, key syntax. *)
Fixpoint keys_acceptable (prefix previous : string) (keys : list string) : bool :=
  match keys with
  | [] => true
  | key :: keys =>
      starts_with prefix key && str_gt key previous && is_ok (validate_key key false)
      && keys_acceptable prefix key keys
  end.

Section ObjectClient.
Context {S : Type} `{HexCodec} `{Sha256} `{Base64} `{ObjectService S}.

(** The checks of each operation on the service's answer. *)
Definition accept_get (response : ObjectResponse) : result ObjectError StoredObject :=
  let? encoded := ok_or InvalidResponse (resp_value_b64 response) in
  let? bytes := ok_or InvalidResponse (b64_decode encoded) in
  let? revision := ok_or InvalidResponse (resp_revision response) in
  guard! negb ((MAX_OBJECT_BYTES <? len bytes)
               || negb (String.eqb revision (revision_of_value bytes))
               || negb (is_nil (resp_keys response))
               || resp_truncated response)
    else InvalidResponse ;;
  Ok {| obj_bytes := bytes; obj_revision := revision |}.

Definition client_get (s : S) (cap : CapToken) (key : string)
    : S * result ObjectError StoredObject :=
  let '(s, answer) := svc_execute s (request cap Get key) in
  (s, let? response := answer in accept_get response).

Definition put_request (cap : CapToken) (key : string) (bytes : bytes)
    (expected : option string) : ObjectRequest :=
  {| cap := cap; action := Put; key := key; value_b64 := Some (b64_encode bytes);
     expected_revision := expected; after := None |}.

Definition accept_put (bytes : bytes) (response : ObjectResponse) : result ObjectError string :=
  let revision := revision_of_value bytes in
  guard! negb (negb (match resp_revision response with
                     | Some r => String.eqb r revision | None => false end)
               || is_some (resp_value_b64 response)
               || negb (is_nil (resp_keys response))
               || resp_truncated response)
    else InvalidResponse ;;
  Ok revision.

Definition client_put (s : S) (cap : CapToken) (key : string) (bytes : bytes)
    (expected : option string) : S * result ObjectError string :=
  if MAX_OBJECT_BYTES <? len bytes then (s, Err InvalidRequest)
  else
    let '(s, answer) := svc_execute s (put_request cap key bytes expected) in
    (s, let? response := answer in accept_put bytes response).

Definition delete_request (cap : CapToken) (key : string) (expected : option string)
    : ObjectRequest :=
  {| cap := cap; action := Delete; key := key; value_b64 := None;
     expected_revision := expected; after := None |}.

Definition accept_delete (response : ObjectResponse) : result ObjectError unit :=
  guard! negb (is_some (resp_value_b64 response) || is_some (resp_revision response)
               || negb (is_nil (resp_keys response)) || resp_truncated response)
    else InvalidResponse ;;
  Ok tt.

Definition client_delete (s : S) (cap : CapToken) (key : string) (expected : option string)
    : S * result ObjectError unit :=
  let '(s, answer) := svc_execute s (delete_request cap key expected) in
  (s, let? response := answer in accept_delete response).

Definition list_request (cap : CapToken) (prefix : string) (after : option string)
    : ObjectRequest :=
  {| cap := cap; action := List; key := prefix; value_b64 := None;
     expected_revision := None; after := after |}.

Definition accept_list (prefix : string) (after : option string) (response : ObjectResponse)
    : result ObjectError ObjectPage :=
  guard! negb (is_some (resp_value_b64 response) || is_some (resp_revision response)
               || (MAX_LIST_KEYS <? length (resp_keys response))%nat
               || (resp_truncated response && is_nil (resp_keys response)))
    else InvalidResponse ;;
  guard! keys_acceptable prefix (default "" after) (resp_keys response) else InvalidResponse ;;
  Ok {| page_keys := resp_keys response;
        next := if resp_truncated response then last (resp_keys response) else None |}.

Definition client_list (s : S) (cap : CapToken) (prefix : string) (after : option string)
    : S * result ObjectError ObjectPage :=
  let '(s, answer) := svc_execute s (list_request cap prefix after) in
  (s, let? response := answer in accept_list prefix after response).
End ObjectClient.

(** ** Specification: an object table served over the wire

    The abstract service: each answered request reads or writes one table.  Which
    requests are answered, and when, is left open. *)
Definition page_response (objs : objects_table) (prefix cursor : string) : ObjectResponse :=
  let keys := keys_after objs prefix cursor in
  {| resp_value_b64 := None; resp_revision := None; resp_keys := take MAX_LIST_KEYS keys;
     resp_truncated := (MAX_LIST_KEYS <? length keys)%nat |}.

Definition revision_response (revision : option string) : ObjectResponse :=
  {| resp_value_b64 := None; resp_revision := revision; resp_keys := []; resp_truncated := false |}.

Section Spec.
Context `{HexCodec} `{Sha256} `{Base64}.

Definition value_response (value : bytes) (revision : string) : ObjectResponse :=
  {| resp_value_b64 := Some (b64_encode value); resp_revision := Some revision;
     resp_keys := []; resp_truncated := false |}.

Definition revision_expected (objs : objects_table) (r : ObjectRequest) : Prop :=
  forall e, expected_of r = Some e -> current_revision objs (key r) = e.

Inductive serves (objs : objects_table) (r : ObjectRequest)
    : objects_table -> ObjectResponse -> Prop :=
| serves_get v rev :
    action r = Get -> objs !! key r = Some (v, rev) ->
    serves objs r objs (value_response v rev)
| serves_list :
    action r = List ->
    serves objs r objs (page_response objs (key r) (default "" (after r)))
| serves_put v :
    action r = Put -> put_value r = Ok v -> revision_expected objs r ->
    serves objs r (<[key r := (v, revision_of_value v)]> objs)
      (revision_response (Some (revision_of_value v)))
| serves_delete :
    action r = Delete -> revision_expected objs r ->
    serves objs r (delete (key r) objs) (revision_response None).

(** A service that is down, refuses, or loses its answer is still honest. *)
Class HonestService (S : Type) `{ObjectService S} := {
  view : S -> objects_table;
  honest_ok : forall s r s' resp,
    svc_execute s r = (s', Ok resp) -> serves (view s) r (view s') resp;
  honest_err : forall s r s' e,
    svc_execute s r = (s', Err e) ->
    view s' = view s \/ exists resp, serves (view s) r (view s') resp;
}.
End Spec.

(** ** The object service of [LocalStore] meets it *)

Section LocalService.
Context `{HexCodec} `{Crypto} `{Sha256} `{Base64} `{P256} `{CapJson} `{ObjectJson}.

Lemma execute_verified_serves objs r now now' objs' resp :
  execute_verified objs r now now' = Ok (objs', resp) -> serves objs r objs' resp.
Proof.
  intros Hok. unfold execute_verified in Hok.
  apply let_ok in Hok as (? & _ & Hok). do 3 apply guard_ok in Hok as [_ Hok].
  apply let_ok in Hok as (? & _ & Hok).
  assert (Hexp : match expected_of r with
      | Some e => String.eqb (current_revision objs (key r)) e | None => true end = true ->
    revision_expected objs r).
  { intros He e Hr. rewrite Hr in He. by apply String.eqb_eq. }
  destruct (action r) eqn:Ea; cbn [is_put] in Hok.
  - apply let_ok in Hok as ([v rev] & Hv%ok_or_ok & [= <- <-]).
    by apply (serves_get objs r v rev).
  - apply let_ok in Hok as (v & Hv & Hok). apply let_ok in Hv as (v' & Hv & [= <-]).
    apply guard_ok in Hok as [He [= <- <-]]. apply (serves_put objs r v'); auto.
  - apply guard_ok in Hok as [He [= <- <-]]. apply (serves_delete objs r); auto.
  - apply guard_ok in Hok as [_ Hok]. rewrite take_take, length_take in Hok.
    replace (MAX_LIST_KEYS `min` (MAX_LIST_KEYS + 1))%nat with MAX_LIST_KEYS in Hok by lia.
    assert (E : forall n, (MAX_LIST_KEYS <? (MAX_LIST_KEYS + 1) `min` n)%nat = (MAX_LIST_KEYS <? n)%nat).
    { intros n. destruct (Nat.ltb_spec MAX_LIST_KEYS n); [apply Nat.ltb_lt | apply Nat.ltb_ge]; lia. }
    rewrite E in Hok. injection Hok as <- <-. by apply (serves_list objs r).
Qed.

(** Every error of the store has one of five statuses. *)
Definition error_status (e : StoreError) : Prop :=
  LocalStore.status e = 400 \/ LocalStore.status e = 403 \/ LocalStore.status e = 503 \/
  e = {| LocalStore.status := 404; code := OBJECT_NOT_FOUND |} \/
  e = {| LocalStore.status := 409; code := OBJECT_REVISION_CONFLICT |}.

Lemma chain_error_status e : error_status (chain_error e).
Proof. unfold error_status. destruct e; cbn; auto. Qed.

Lemma put_value_error r e : put_value r = Err e -> LocalStore.status e = 400.
Proof.
  unfold put_value. intros [[_ <-]%ok_or_err|(enc & _ & Hk)]%let_err; [done|].
  apply guard_err in Hk as [[_ <-]|[_ Hk]]; [done|].
  apply let_err in Hk as [[_ <-]%ok_or_err|(v & _ & Hk)]; [done|].
  by apply guard_err in Hk as [[_ <-]|[_ Hk]].
Qed.

Lemma execute_verified_error objs r now now' e :
  execute_verified objs r now now' = Err e -> error_status e.
Proof.
  unfold execute_verified, error_status.
  intros [(? & _ & <-)%map_err_err|(? & _ & Hk)]%let_err; [cbn; tauto|].
  do 3 (apply guard_err in Hk as [[_ <-]|[_ Hk]]; [cbn; tauto|]).
  apply let_err in Hk as [(? & _ & <-)%map_err_err|(? & _ & Hk)]; [cbn; tauto|].
  destruct (action r); cbn [is_put] in Hk.
  - apply let_err in Hk as [[_ <-]%ok_or_err|([? ?] & _ & Hk)]; [cbn; tauto | done].
  - apply let_err in Hk as [Hk|(v & _ & Hk)].
    + apply let_err in Hk as [Hk%put_value_error|(v & _ & Hk)]; [tauto | done].
    + apply guard_err in Hk as [[_ <-]|[_ Hk]]; [cbn; tauto|]. by destruct v.
  - apply guard_err in Hk as [[_ <-]|[_ Hk]]; [cbn; tauto | done].
  - apply guard_err in Hk as [[_ <-]|[_ Hk]]; [cbn; tauto | done].
Qed.

Lemma execute_error rpc s r t s' e :
  execute rpc s r t = (s', Err e) -> error_status e /\ s' = s.
Proof.
  unfold execute. cbv zeta. intros E. case_match eqn:Hk; [by case_match|].
  injection E as <- <-. split; [|done].
  do 5 (apply let_err in Hk as [(? & _ & <-)%map_err_err|(? & _ & Hk)];
    [unfold error_status; cbn; tauto|]).
  do 3 (apply let_err in Hk as [(? & _ & <-)%map_err_err|(? & _ & Hk)];
    [apply chain_error_status|]).
  by eapply execute_verified_error.
Qed.

(** [IntoResponse] for the handler's result: the reply as it leaves the server. *)
Definition store_reply (out : result StoreError ObjectResponse) : HttpReply :=
  let '(status, body) :=
    match out with
    | Ok resp => (200, response_to_vec resp)
    | Err e => (LocalStore.status e, error_code_to_vec (LocalStore.code e))
    end in
  {| http_status := status; content_length := Some (len body); chunks := [body];
     broken := false |}.

(** The store behind its HTTP route; [env] gives each request its clock, its
    chain, and whether its reply is lost. *)
Record Environment := {
  env_clock : nat -> Clock;
  env_rpc : nat -> string -> string -> string -> nat -> RpcAttempt;
  env_lost : nat -> bool;
}.

Definition LocalService (env : Environment) : Type := (LocalStore * nat)%type.

#[export] Instance local_service (env : Environment) : ObjectService (LocalService env) := {|
  svc_execute := fun s r =>
    let '(store, n) := s in
    let '(store, out) := execute (env_rpc env n) store r (env_clock env n) in
    ((store, S n), http_execute (if env_lost env n then None else Some (store_reply out)))
|}.

(** What the client's adapter reads from the store's reply. *)
Definition client_error (e : StoreError) : ObjectError :=
  if LocalStore.status e =? 400 then InvalidRequest
  else if LocalStore.status e =? 403 then Denied
  else if LocalStore.status e =? 404 then NotFound
  else if LocalStore.status e =? 409 then Conflict
  else Unavailable.

Lemma http_execute_error e : error_status e ->
  http_execute (Some (store_reply (Err e))) = Err (client_error e).
Proof.
  intros He. unfold client_error, http_execute, store_reply.
  cbn [ok_or http_status].
  assert (Hread : forall b, len b <= 1024 -> response_bytes
    {| http_status := LocalStore.status e; content_length := Some (len b); chunks := [b];
       broken := false |} 1024 = Ok b).
  { intros b Hb. unfold response_bytes. cbn [content_length chunks broken read_chunks].
    replace (1024 <? len b) with false by (symmetry; apply Z.ltb_ge; lia).
    replace (1024 <? len [] + len b) with false
      by (symmetry; apply Z.ltb_ge; unfold len in *; cbn [length]; lia). done. }
  pose proof (error_code_to_vec_length (LocalStore.code e)) as Hlen.
  destruct He as [E|[E|[E|[E|E]]]]; try rewrite E; try done.
  - subst e. cbn in Hlen. cbn [LocalStore.status LocalStore.code] in *. cbn [Z.eqb Pos.eqb orb].
    rewrite Hread by (unfold len; lia). by rewrite error_code_from_to.
  - subst e. cbn in Hlen. cbn [LocalStore.status LocalStore.code] in *. cbn [Z.eqb Pos.eqb orb].
    rewrite Hread by (unfold len; lia). by rewrite error_code_from_to.
Qed.

Lemma http_execute_reply resp resp' :
  http_execute (Some (store_reply (Ok resp))) = Ok resp' -> resp' = resp.
Proof.
  unfold http_execute, store_reply. cbn [ok_or http_status Z.eqb Pos.eqb].
  intros (body & Hb & Hr%ok_or_ok)%let_ok.
  unfold response_bytes in Hb. cbn [content_length chunks broken] in Hb.
  apply guard_ok in Hb as [_ Hb]. cbn [read_chunks] in Hb.
  apply guard_ok in Hb as [_ [= <-]]. cbn [app] in Hr. rewrite response_from_to in Hr. congruence.
Qed.

Lemma local_ok env s r s' resp :
  svc_execute (ObjectService := local_service env) s r = (s', Ok resp) ->
  serves (objects s.1) r (objects s'.1) resp.
Proof.
  destruct s as [store n]. cbn [svc_execute local_service].
  destruct (execute _ store r _) as [store1 out] eqn:Ex. intros [= <- Hout]. cbn [fst].
  destruct (env_lost env n); [done|]. destruct out as [resp'|e].
  - apply http_execute_reply in Hout as ->.
    apply execute_inv in Ex as [[[e [=]] _]|(objs' & ? & [= <-] & -> & _ & Hv)].
    by eapply execute_verified_serves.
  - apply execute_error in Ex as [He _]. by rewrite http_execute_error in Hout.
Qed.

Lemma local_err env s r s' e :
  svc_execute (ObjectService := local_service env) s r = (s', Err e) ->
  objects s'.1 = objects s.1 \/ exists resp, serves (objects s.1) r (objects s'.1) resp.
Proof.
  destruct s as [store n]. cbn [svc_execute local_service].
  destruct (execute _ store r _) as [store1 out] eqn:Ex. intros [= <- _]. cbn [fst].
  apply execute_inv in Ex as [[_ ->]|(objs' & resp & _ & -> & _ & Hv)]; [by left|right].
  exists resp. by eapply execute_verified_serves.
Qed.

#[export] Instance local_honest (env : Environment) : HonestService (LocalService env) := {|
  view := fun s => objects s.1;
  honest_ok := local_ok env;
  honest_err := local_err env;
|}.
End LocalService.

(** ** Lemmas on the client's checks *)

Section ClientFacts.
Context `{HexCodec} `{Sha256} `{Base64}.

Lemma keys_acceptable_spec prefix previous keys :
  keys_acceptable prefix previous keys = true <->
  ascending keys /\
  Forall (fun k => starts_with prefix k = true /\ str_lt previous k /\
                   validate_key k false = Ok tt) keys.
Proof.
  revert previous. induction keys as [|k keys IH]; intros previous; cbn.
  { split; [intros; split; constructor | done]. }
  rewrite !andb_true_iff, IH, Forall_cons. unfold is_ok. split.
  - intros [[[Hp Hg] Hv] [Hs Hf]].
    assert (validate_key k false = Ok tt) by (by destruct (validate_key k false) as [[]|]).
    split; [constructor; [done|] |split; [done|]]; rewrite Forall_forall in *; intros k' Hk';
      destruct (Hf _ Hk') as (? & ? & ?); [done|]. split_and!; [done| |done]. by transitivity k.
  - intros [Hs [(Hp & Hg & Hv) Hf]]. rewrite Hv.
    apply StronglySorted_inv in Hs as [Hs Hlt]. split_and!; [done..|].
    rewrite Forall_forall in *. intros k' Hk'. destruct (Hf _ Hk') as (? & _ & ?). auto.
Qed.

Lemma accept_get_ok resp o : accept_get resp = Ok o ->
  exists encoded, resp_value_b64 resp = Some encoded /\ b64_decode encoded = Some (obj_bytes o) /\
    resp_revision resp = Some (obj_revision o) /\
    obj_revision o = revision_of_value (obj_bytes o) /\ len (obj_bytes o) <= MAX_OBJECT_BYTES.
Proof.
  unfold accept_get. intros (enc & Henc%ok_or_ok & Hk)%let_ok.
  apply let_ok in Hk as (b & Hb%ok_or_ok & Hk). apply let_ok in Hk as (rev & Hr%ok_or_ok & Hk).
  apply guard_ok in Hk as [Hc [= <-]]. reflect_bools. cbn. by exists enc.
Qed.

(** A served answer passes the client's checks. *)
Lemma accept_get_value v : len v <= MAX_OBJECT_BYTES ->
  accept_get (value_response v (revision_of_value v)) =
  Ok {| obj_bytes := v; obj_revision := revision_of_value v |}.
Proof.
  intros Hv. unfold accept_get, value_response. cbn [resp_value_b64 resp_revision resp_keys ok_or].
  rewrite b64_decode_encode. cbn [ok_or is_nil resp_truncated]. rewrite String.eqb_refl.
  by replace (MAX_OBJECT_BYTES <? len v) with false by (symmetry; apply Z.ltb_ge; lia).
Qed.

Lemma accept_put_revision v : accept_put v (revision_response (Some (revision_of_value v))) =
  Ok (revision_of_value v).
Proof. unfold accept_put, revision_response. cbn. by rewrite String.eqb_refl. Qed.

Lemma accept_list_page objs prefix cursor :
  (forall k, k ∈ keys_after objs prefix (default "" cursor) -> validate_key k false = Ok tt) ->
  accept_list prefix cursor (page_response objs prefix (default "" cursor)) =
  let keys := keys_after objs prefix (default "" cursor) in
  Ok {| page_keys := take MAX_LIST_KEYS keys;
        next := if (MAX_LIST_KEYS <? length keys)%nat then last (take MAX_LIST_KEYS keys)
                else None |}.
Proof.
  intros Hv. unfold accept_list, page_response. cbn [resp_value_b64 resp_revision resp_keys
    resp_truncated is_some orb]. cbv zeta.
  set (keys := keys_after objs prefix (default "" cursor)) in *.
  replace (_ || _) with false.
  2:{ symmetry. apply orb_false_iff. split.
      - apply Nat.ltb_ge. rewrite length_take. lia.
      - destruct (Nat.ltb_spec MAX_LIST_KEYS (length keys)); [|done].
        unfold MAX_LIST_KEYS in *. by destruct keys; cbn in *; [lia|]. }
  cbn [negb]. replace (keys_acceptable _ _ _) with true; [done|]. symmetry.
  apply keys_acceptable_spec.
  pose proof (keys_after_ascending objs prefix (default "" cursor)) as Hs. fold keys in Hs.
  split.
  - rewrite <-(take_drop MAX_LIST_KEYS keys) in Hs. by apply ascending_app in Hs as (? & _).
  - rewrite Forall_forall. intros k Hk%subseteq_take.
    specialize (Hv k Hk). by apply elem_of_keys_after in Hk as (_ & ? & ?).
Qed.
End ClientFacts.

(** ** Properties *)

(** The client believes nothing it has not checked.  Whatever the service
    answers, and in any state: an object it accepts is at most 32 MiB and its
    revision is the digest of its bytes; a write it accepts is acknowledged with
    the digest of the very bytes sent; and a page it accepts has at most 500 keys,
    strictly ascending, all of them valid keys under the requested prefix and
    behind the cursor, the next cursor being the page's last key. *)
Theorem client_rejects_forgeries `{HexCodec} `{Sha256} `{Base64} {Svc : Type} `{ObjectService Svc}
    (s s' : Svc) (cap : CapToken) (key : string) :
  (forall o, client_get s cap key = (s', Ok o) ->
     obj_revision o = revision_of_value (obj_bytes o) /\ len (obj_bytes o) <= MAX_OBJECT_BYTES) /\
  (forall b expected rev, client_put s cap key b expected = (s', Ok rev) ->
     rev = revision_of_value b /\ len b <= MAX_OBJECT_BYTES /\
     exists resp, svc_execute s (put_request cap key b expected) = (s', Ok resp) /\
       resp_revision resp = Some rev) /\
  (forall cursor page, client_list s cap key cursor = (s', Ok page) ->
     (length (page_keys page) <= MAX_LIST_KEYS)%nat /\ ascending (page_keys page) /\
     Forall (fun k => starts_with key k = true /\ str_lt (default "" cursor) k /\
                      validate_key k false = Ok tt) (page_keys page) /\
     (next page = None \/ exists k, next page = Some k /\ last (page_keys page) = Some k)).
Proof.
  split_and!.
  - unfold client_get. intros o. destruct (svc_execute _ _) as [s1 out].
    intros [= <- (resp & _ & Hg)%let_ok]. by apply accept_get_ok in Hg as (_ & _ & _ & _ & ?).
  - unfold client_put. intros b expected rev. destruct (_ <? _) eqn:Hl; [done|].
    destruct (svc_execute _ _) as [s1 out]. intros [= <- (resp & -> & Hp)%let_ok].
    unfold accept_put in Hp. apply guard_ok in Hp as [Hc [= <-]]. reflect_bools.
    split_and!; [done | lia |]. exists resp. split; [done|].
    destruct (resp_revision resp); [|done]. reflect_bools. by subst.
  - unfold client_list. intros cursor page. destruct (svc_execute _ _) as [s1 out].
    intros [= <- (resp & _ & Hl)%let_ok]. unfold accept_list in Hl.
    apply guard_ok in Hl as [Hc Hl]. apply guard_ok in Hl as [Hk [= <-]]. cbn [page_keys next].
    apply keys_acceptable_spec in Hk as [Hs Hf]. reflect_bools. split_and!; [done..|].
    destruct (resp_truncated resp); [|by left]. right. cbn [andb] in *.
    destruct (last (resp_keys resp)) as [k|] eqn:E; [by exists k|].
    apply last_None in E. by rewrite E in *.
Qed.

(** Requests of others in between: any that do not write [k]. *)
Fixpoint others {Svc : Type} `{ObjectService Svc} (s : Svc) (rs : list ObjectRequest) : Svc :=
  match rs with [] => s | r :: rs => others (svc_execute s r).1 rs end.

Section HonestFacts.
Context `{HexCodec} `{Sha256} `{Base64} {S : Type} {svc : ObjectService S} {honest : HonestService S}.

Lemma serves_other_key objs r objs' resp k :
  serves objs r objs' resp -> (key r = k -> is_write (action r) = false) ->
  objs' !! k = objs !! k.
Proof.
  intros [v rev Ha Hk|Ha|v Ha Hv Hr|Ha Hr] Hne; try done.
  - rewrite lookup_insert_ne; [done|]. intros E. rewrite Ha in Hne. by specialize (Hne E).
  - rewrite lookup_delete_ne; [done|]. intros E. rewrite Ha in Hne. by specialize (Hne E).
Qed.

Lemma honest_other_key s r k : (key r = k -> is_write (action r) = false) ->
  view (svc_execute s r).1 !! k = view s !! k.
Proof.
  intros Hne. destruct (svc_execute s r) as [s' [resp|e]] eqn:E; cbn [fst].
  - eapply serves_other_key; [by eapply honest_ok | done].
  - apply honest_err in E as [->|[resp Hs]]; [done|]. by eapply serves_other_key.
Qed.

Lemma others_view s rs k :
  Forall (fun r => key r = k -> is_write (action r) = false) rs ->
  view (others s rs) !! k = view s !! k.
Proof.
  intros Hall. revert s. induction Hall as [|r rs Hr Hrs IH]; intros s; cbn; [done|].
  rewrite IH. by apply honest_other_key.
Qed.

(** What a confirmed write left in the table. *)
Lemma client_put_stored s cap k b expected s' rev :
  client_put s cap k b expected = (s', Ok rev) ->
  view s' !! k = Some (b, rev) /\ rev = revision_of_value b /\ len b <= MAX_OBJECT_BYTES.
Proof.
  unfold client_put. destruct (_ <? _) eqn:Hl; [done|].
  destruct (svc_execute _ _) as [s1 out] eqn:E. intros [= <- (resp & -> & Hp)%let_ok].
  unfold accept_put in Hp. apply guard_ok in Hp as [_ [= <-]]. reflect_bools.
  apply honest_ok in E. remember (view s1) as objs'.
  destruct E as [v rev Ha|Ha|v Ha Hv Hr|Ha]; try done.
  unfold put_value, put_request in Hv. cbn [value_b64 ok_or] in Hv.
  apply guard_ok in Hv as [_ Hv]. rewrite b64_decode_encode in Hv. cbn [ok_or] in Hv.
  apply guard_ok in Hv as [_ [= <-]]. cbn [key put_request]. split_and!; [|done|done].
  apply lookup_insert_eq.
Qed.
End HonestFacts.

(** A reader gets what was written.  Over any honest service (one whose
    answers are those of a single table, though it may refuse requests or lose
    replies): after a confirmed [put] of [b], and any requests of others that do
    not write this key, a [get] under whatever capability that the service
    answers at all returns exactly [b] and the confirmed revision. *)
Theorem put_then_get `{HexCodec} `{Sha256} `{Base64} {Svc : Type} {svc : ObjectService Svc} {honest : HonestService Svc}
    (s s1 : Svc) (cap cap' : CapToken) (k : string) (b : bytes) expected rev
    (rs : list ObjectRequest)
    (Hput : client_put s cap k b expected = (s1, Ok rev))
    (Hrs : Forall (fun r => key r = k -> is_write (action r) = false) rs) :
  let out := svc_execute (others s1 rs) (request cap' Get k) in
  match out.2 with
  | Ok _ => (client_get (others s1 rs) cap' k).2 = Ok {| obj_bytes := b; obj_revision := rev |}
  | Err e => (client_get (others s1 rs) cap' k).2 = Err e
  end.
Proof.
  intros out. unfold client_get. fold out. destruct out as [s2 [resp|e]] eqn:E; cbn [fst snd]; [|done].
  apply client_put_stored in Hput as (Hv & -> & Hl).
  apply honest_ok in E. rewrite <-(others_view _ rs k Hrs) in Hv.
  inversion E; subst; try done. cbn [key request] in *.
  rewrite Hv in *. simplify_eq. by apply accept_get_value.
Qed.

(** ** Witness: the local store behind its route *)

Module ToyJson.
(** Strings with their length in unary. *)
Definition enc_str (s : string) : bytes :=
  (replicate (String.length s) Byte.x01 ++ Byte.x00 :: String.list_byte_of_string s)%list.

Fixpoint dec_len (b : bytes) : option (nat * bytes) :=
  match b with
  | Byte.x00 :: b => Some (0%nat, b)
  | _ :: b => '(n, b) ← dec_len b; Some (S n, b)
  | [] => None
  end.

Definition dec_str (b : bytes) : option (string * bytes) :=
  '(n, b) ← dec_len b; Some (String.string_of_list_byte (take n b), drop n b).

Lemma dec_len_replicate n b : dec_len (replicate n Byte.x01 ++ Byte.x00 :: b)%list = Some (n, b).
Proof. induction n as [|n IH]; cbn; [done|]. by rewrite IH. Qed.

Lemma dec_enc_str s b : dec_str (enc_str s ++ b)%list = Some (s, b).
Proof.
  unfold dec_str, enc_str. rewrite <-app_assoc. cbn [app].
  rewrite dec_len_replicate. cbn [mbind option_bind].
  assert (Hl : length (String.list_byte_of_string s) = String.length s).
  { unfold String.list_byte_of_string. rewrite length_map.
    induction s; cbn; congruence. }
  rewrite take_app_length', drop_app_length' by done.
  by rewrite String.string_of_list_byte_of_string.
Qed.

(** The fields as a list of strings: flags, optional values, keys. *)
Definition opt_strings (o : option string) : list string :=
  match o with Some s => ["s"; s] | None => ["n"; ""] end.

Definition strings_of (r : ObjectResponse) : list string :=
  (opt_strings (resp_value_b64 r) ++ opt_strings (resp_revision r)
   ++ (if resp_truncated r then "t" else "f") :: resp_keys r)%list.

Definition of_strings (l : list string) : option ObjectResponse :=
  match l with
  | v :: v' :: r :: r' :: t :: keys =>
      Some {| resp_value_b64 := if String.eqb v "s" then Some v' else None;
              resp_revision := if String.eqb r "s" then Some r' else None;
              resp_keys := keys; resp_truncated := String.eqb t "t" |}
  | _ => None
  end.

Fixpoint dec_strs (n : nat) (b : bytes) : option (list string) :=
  match n with
  | O => Some []
  | S n => '(s, b) ← dec_str b; l ← dec_strs n b; Some (s :: l)
  end.

Definition dec_response (b : bytes) : option ObjectResponse :=
  '(n, b) ← dec_len b; l ← dec_strs n b; of_strings l.

Definition enc_response (r : ObjectResponse) : bytes :=
  (replicate (length (strings_of r)) Byte.x01 ++ Byte.x00 :: concat (map enc_str (strings_of r)))%list.

Lemma dec_enc_strs l : dec_strs (length l) (concat (map enc_str l)) = Some l.
Proof.
  induction l as [|s l IH]; [done|]. cbn [length map concat dec_strs].
  rewrite dec_enc_str. cbn [mbind option_bind]. by rewrite IH.
Qed.

Lemma dec_enc_response r : dec_response (enc_response r) = Some r.
Proof.
  unfold dec_response, enc_response. rewrite dec_len_replicate. cbn [mbind option_bind].
  rewrite dec_enc_strs. cbn [mbind option_bind].
  by destruct r as [[v|] [rev|] keys []].
Qed.

#[refine] Definition json : ObjectJson := {|
  error_code_from_slice := fun b => Some (String.string_of_list_byte b);
  error_code_to_vec := String.list_byte_of_string;
  response_from_slice := dec_response;
  response_to_vec := enc_response;
  response_from_to := dec_enc_response;
|}.
Proof.
  - intros c. by rewrite String.string_of_list_byte_of_string.
  - intros c. unfold String.list_byte_of_string. rewrite length_map.
    assert (length (list_ascii_of_string c) = String.length c) by (induction c; cbn; congruence). lia.
Defined.
End ToyJson.

Section ClientWitness.
#[local] Existing Instances SimpleHex.codec ToyCrypto.crypto ToyVerifier.sha SimpleBase64.codec
  ToyVerifier.p256 ToyVerifier.json ToyJson.json.

Definition demo_env : Environment :=
  {| env_clock := fun _ => demo_clock; env_rpc := fun _ => demo_rpc; env_lost := fun _ => false |}.

Definition demo_local : LocalService demo_env := (demo_store Memory ∅, 0%nat).

Definition demo_fetch : CapToken := demo_cap (demo_payload "travel" Fetch Memory).

Definition demo_after_put : LocalService demo_env :=
  (client_put demo_local (cap (demo_put Byte.x01 None)) demo_key (demo_value Byte.x01) (Some "")).1.
End ClientWitness.

Example put_then_get_witness :
  let _ := SimpleHex.codec in let _ := ToyCrypto.crypto in let _ := ToyVerifier.sha in
  let _ := SimpleBase64.codec in let _ := ToyVerifier.p256 in let _ := ToyVerifier.json in
  let _ := ToyJson.json in
  (client_get (others demo_after_put [demo_publish Byte.x02]) demo_fetch demo_key).2 =
  Ok {| obj_bytes := demo_value Byte.x01; obj_revision := revision_of_value (demo_value Byte.x01) |}.
Proof.
  intros hex cr sh b64 p256 json ojson.
  pose proof (@put_then_get hex sh b64 (LocalService demo_env) (local_service demo_env)
    (local_honest demo_env) demo_local demo_after_put (cap (demo_put Byte.x01 None)) demo_fetch
    demo_key (demo_value Byte.x01) (Some "") (revision_of_value (demo_value Byte.x01))
    [demo_publish Byte.x02]) as Hget. cbv zeta in Hget.
  assert (Hanswer : (svc_execute (others demo_after_put [demo_publish Byte.x02])
      (request demo_fetch Get demo_key)).2
    = Ok (value_response (demo_value Byte.x01) (revision_of_value (demo_value Byte.x01))))
    by (vm_compute; reflexivity).
  rewrite Hanswer in Hget. apply Hget.
  - vm_compute. reflexivity.
  - apply Forall_cons. split; [vm_compute; discriminate | apply Forall_nil; exact I].
Defined.
