(* ===== verification/StorageWorker.v ===== *)
(** * What the storage workers share

    [crates/agentkeys-worker-creds/src/storage_worker.rs], [errors.rs] and
    [envelope.rs], with the paging handlers of [handlers.rs]: the authority check
    of a request, the sealing of values, and the two loops that follow a listing
    to its end.  Of an API error the status and the reason are kept, not the text. *)
From S2P Require Import Prelude RustStr StrFacts Capability DeviceCore.
From S2P Require Import Crates CapabilityVerify ObjectStore LocalStore.
From S2P Require Import ObjectClient.

Open Scope Z_scope.

Record ApiError := { api_status : Z; reason : string }.

Definition err_400 (r : string) : ApiError := {| api_status := 400; reason := r |}.
Definition err_403 (r : string) : ApiError := {| api_status := 403; reason := r |}.
Definition err_404 (r : string) : ApiError := {| api_status := 404; reason := r |}.
Definition err_409 (r : string) : ApiError := {| api_status := 409; reason := r |}.
Definition err_500 (r : string) : ApiError := {| api_status := 500; reason := r |}.
Definition err_502 (r : string) : ApiError := {| api_status := 502; reason := r |}.

Definition storage_error (error : ObjectError) : ApiError :=
  match error with
  | Denied => err_403 "storage_denied"
  | NotFound => err_404 OBJECT_NOT_FOUND
  | Conflict => err_409 OBJECT_REVISION_CONFLICT
  | InvalidRequest => err_400 "object_request_invalid"
  | Unavailable | InvalidResponse => err_502 "storage_unavailable"
  end.

(** ** Authority *)

Section Authority.
Context `{HexCodec} `{Crypto} `{Sha256} `{P256} `{CapJson}.
Variable rpc : string -> string -> string -> nat -> RpcAttempt.

(** The two clock readings: at the proof of possession and at the freshness
    check. *)
Definition verify_authority (authority : AuthorityConfig) (cap : CapToken)
    (expected_op : CapOp) (data_class : DataClass) (now_pop now_fresh : Z)
    : result ApiError unit :=
  let? _ := map_err (fun _ => err_403 "broker_sig_invalid")
    (verify_signature (broker_public_key authority) cap) in
  let? _ := map_err (fun _ => err_403 "cap_pop_invalid") (enforce_client_pop cap now_pop) in
  let? _ := map_err (fun _ => err_403 "cap_op_mismatch") (check_op cap expected_op) in
  let? _ := map_err (fun _ => err_403 "cap_data_class_mismatch")
    (check_data_class cap data_class) in
  let? _ := map_err (fun _ => err_403 "cap_freshness_failed") (check_freshness cap now_fresh) in
  let? _ := map_err (fun e => match e with
      | DeviceInactive => err_403 "device_inactive"
      | DeviceMismatch _ => err_403 "device_binding_mismatch"
      | DeviceRoleMissing _ => err_403 "device_role_missing"
      | _ => err_502 "chain_rpc"
      end)
    (check_chain_device rpc (rpc_url authority) (registry authority) cap) in
  let? _ := map_err (fun e => match e with
      | NotInScope => err_403 "service_not_in_scope"
      | _ => err_502 "chain_rpc"
      end)
    (check_chain_scope rpc (rpc_url authority) (scope authority) cap) in
  let? _ := map_err (fun e => match e with
      | K3Mismatch _ _ => err_403 "k3_epoch_mismatch"
      | _ => err_502 "chain_rpc"
      end)
    (check_chain_k3_epoch rpc (rpc_url authority) (epoch authority) cap) in
  Ok tt.
End Authority.

(** ** Envelopes *)

Definition ENVELOPE_VERSION_V2 : Byte.byte := Byte.x02.
Definition ENVELOPE_VERSION_V3 : Byte.byte := Byte.x03.
Definition NONCE_LEN : nat := 12.
Definition KEY_LEN : nat := 32.
Definition MIN_ENVELOPE_LEN : nat := 1 + NONCE_LEN + 16.

(** [aes_gcm]: key, nonce, associated data, message; a tag of 16 bytes. *)
Class Aes256Gcm := {
  aes_encrypt : bytes -> bytes -> bytes -> bytes -> option bytes;
  aes_decrypt : bytes -> bytes -> bytes -> bytes -> option bytes;
  aes_decrypt_encrypt : forall k n a m c,
    aes_encrypt k n a m = Some c -> aes_decrypt k n a c = Some m;
  aes_encrypt_length : forall k n a m c,
    aes_encrypt k n a m = Some c -> length c = (length m + 16)%nat;
}.

Inductive EnvelopeError :=
| InvalidKekHex
| Encrypt
| Decrypt
| Truncated (len : nat)
| UnsupportedVersion (v : Byte.byte)
| V3RequiresDerivedKek.

(** [version(envelope)]; the first byte of a long enough one. *)
Definition version (envelope : bytes) : option Byte.byte :=
  if (length envelope <? MIN_ENVELOPE_LEN)%nat then None else head envelope.

Definition aad_with (tag actor_omni service : string) : bytes :=
  let actor := to_lowercase (default actor_omni (strip_prefix "0x" actor_omni)) in
  as_bytes (tag +:+ actor +:+ "|" +:+ service).

Definition aad (operator_omni actor_omni service : string) (k3_epoch : Z) : bytes :=
  aad_with "agentkeys.cred.aad.v2|" actor_omni service.

Definition aad_v3 (actor_omni service : string) : bytes :=
  aad_with "agentkeys.cred.aad.v3|" actor_omni service.

Section Envelopes.
Context `{HexCodec} `{Aes256Gcm}.

Definition decode_kek (kek_hex : string) : result EnvelopeError bytes :=
  let? b := ok_or InvalidKekHex (hex_decode (trim_start_0x kek_hex)) in
  guard! Nat.eqb (length b) KEY_LEN else InvalidKekHex ;;
  Ok b.

(** The nonce is the one drawn from the operating system. *)
Definition encrypt (nonce : bytes) (kek_hex : string) (plaintext aad_bytes : bytes)
    : result EnvelopeError bytes :=
  let? kek := decode_kek kek_hex in
  let? ct := ok_or Encrypt (aes_encrypt kek nonce aad_bytes plaintext) in
  Ok (ENVELOPE_VERSION_V2 :: nonce ++ ct)%list.

Definition decrypt (kek_hex : string) (envelope aad_bytes : bytes)
    : result EnvelopeError bytes :=
  guard! negb (length envelope <? MIN_ENVELOPE_LEN)%nat else Truncated (length envelope) ;;
  match envelope with
  | [] => Err (Truncated 0)
  | v :: rest =>
      guard! negb (bool_decide (v = ENVELOPE_VERSION_V3)) else V3RequiresDerivedKek ;;
      guard! bool_decide (v = ENVELOPE_VERSION_V2) else UnsupportedVersion v ;;
      let? kek := decode_kek kek_hex in
      ok_or Decrypt (aes_decrypt kek (take NONCE_LEN rest) aad_bytes (drop NONCE_LEN rest))
  end.

Definition encrypt_v3 (nonce kek plaintext aad_bytes : bytes) : result EnvelopeError bytes :=
  let? ct := ok_or Encrypt (aes_encrypt kek nonce aad_bytes plaintext) in
  Ok (ENVELOPE_VERSION_V3 :: nonce ++ ct)%list.

Definition decrypt_v3 (kek envelope aad_bytes : bytes) : result EnvelopeError bytes :=
  guard! negb (length envelope <? MIN_ENVELOPE_LEN)%nat else Truncated (length envelope) ;;
  match envelope with
  | [] => Err (Truncated 0)
  | v :: rest =>
      guard! bool_decide (v = ENVELOPE_VERSION_V3) else UnsupportedVersion v ;;
      ok_or Decrypt (aes_decrypt kek (take NONCE_LEN rest) aad_bytes (drop NONCE_LEN rest))
  end.

Context `{Base64}.

(** Which bytes a store request asks for: an envelope sealed by the client, or
    plaintext, sealed here under the development key. *)
Definition store_bytes (nonce : bytes) (cap : CapToken)
    (plaintext_b64 envelope_b64 development_key : option string) : result ApiError bytes :=
  match envelope_b64, plaintext_b64 with
  | Some _, Some _ => Err (err_400 "store_mode_ambiguous")
  | None, None => Err (err_400 "store_mode_missing")
  | Some env_b64, None =>
      let? b := ok_or (err_400 "envelope_b64_decode") (b64_decode env_b64) in
      match version b with
      | Some v =>
          if bool_decide (v = ENVELOPE_VERSION_V3) then Ok b
          else Err (err_400 "envelope_not_v3")
      | None => Err (err_400 "envelope_truncated")
      end
  | None, Some pt_b64 =>
      let? kek := ok_or (err_403 "plaintext_put_disabled") development_key in
      let? plaintext := ok_or (err_400 "plaintext_b64_decode") (b64_decode pt_b64) in
      let p := payload cap in
      map_err (fun _ => err_500 "envelope_encrypt")
        (encrypt nonce kek plaintext
           (aad (operator_omni p) (actor_omni p) (service p) (k3_epoch p)))
  end.
End Envelopes.

(** ** Loops over a listing *)

Definition object_prefix (actor_omni : string) : string :=
  "bots/" +:+ to_lowercase (trim_start_0x actor_omni) +:+ "/credentials/".

Definition object_key (actor_omni service : string) : string :=
  "bots/" +:+ to_lowercase (trim_start_0x actor_omni) +:+ "/credentials/"
  +:+ to_lowercase service +:+ ".enc".

Definition service_from_key (prefix key : string) : option string :=
  rest ← strip_prefix prefix key;
  s ← strip_suffix ".enc" rest;
  if String.eqb s "" then None else Some s.

Section Loops.
Context `{HexCodec} `{Sha256} `{Base64} {Svc : Type} `{ObjectService Svc}.

(** [for key in &page.keys { delete(cap, key, None)?; deleted += 1 }] *)
Fixpoint delete_keys (s : Svc) (cap : CapToken) (keys : list string) (deleted : nat)
    : Svc * result ApiError nat :=
  match keys with
  | [] => (s, Ok deleted)
  | key :: keys =>
      let '(s, answer) := client_delete s cap key None in
      match map_err storage_error answer with
      | Err e => (s, Err e)
      | Ok _ => delete_keys s cap keys (S deleted)
      end
  end.

(** One turn of the loop for each unit of fuel; [None] when it runs out. *)
Fixpoint delete_prefix (fuel : nat) (s : Svc) (cap : CapToken) (prefix : string)
    (cursor : option string) (deleted : nat) : option (Svc * result ApiError nat) :=
  match fuel with
  | O => None
  | S fuel =>
      let '(s, answer) := client_list s cap prefix cursor in
      match map_err storage_error answer with
      | Err e => Some (s, Err e)
      | Ok page =>
          let '(s, outcome) := delete_keys s cap (page_keys page) deleted in
          match outcome with
          | Err e => Some (s, Err e)
          | Ok deleted =>
              match next page with
              | None => Some (s, Ok deleted)
              | Some cursor => delete_prefix fuel s cap prefix (Some cursor) deleted
              end
          end
      end
  end.

(** The loop of [cred_list], after its checks. *)
Fixpoint list_services (fuel : nat) (s : Svc) (cap : CapToken) (prefix : string)
    (cursor : option string) (services : list string)
    : option (Svc * result ApiError (list string)) :=
  match fuel with
  | O => None
  | S fuel =>
      let '(s, answer) := client_list s cap prefix cursor in
      match map_err storage_error answer with
      | Err e => Some (s, Err e)
      | Ok page =>
          let services := (services ++ omap (service_from_key prefix) (page_keys page))%list in
          match next page with
          | None => Some (s, Ok services)
          | Some cursor => list_services fuel s cap prefix (Some cursor) services
          end
      end
  end.

Definition cred_list (fuel : nat) (s : Svc) (authorized : result ApiError unit) (cap : CapToken)
    : option (Svc * result ApiError (list string)) :=
  match authorized with
  | Err e => Some (s, Err e)
  | Ok _ =>
      if negb (String.eqb (operator_omni (payload cap)) (actor_omni (payload cap)))
      then Some (s, Err (err_403 "list_not_master_self"))
      else list_services fuel s cap (object_prefix (actor_omni (payload cap))) None []
  end.
End Loops.

(** ** Lemmas *)

Lemma service_from_key_spec prefix key svc :
  service_from_key prefix key = Some svc <-> key = prefix +:+ svc +:+ ".enc" /\ svc <> "".
Proof.
  unfold service_from_key. split.
  - destruct (strip_prefix prefix key) as [rest|] eqn:E; [|done]. cbn.
    apply strip_prefix_spec in E as ->.
    destruct (strip_suffix ".enc" rest) as [s|] eqn:E; [|done]. cbn.
    apply strip_suffix_spec in E as ->.
    destruct (String.eqb_spec s ""); [done|]. by intros [= <-].
  - intros [-> Hne]. rewrite (proj2 (strip_prefix_spec _ _ _) eq_refl). cbn.
    rewrite (proj2 (strip_suffix_spec _ _ _) eq_refl). cbn.
    by apply String.eqb_neq in Hne as ->.
Qed.

Lemma services_NoDup prefix keys :
  ascending keys -> NoDup (omap (service_from_key prefix) keys).
Proof.
  induction 1 as [|k keys _ IH Hf]; [constructor|]. csimpl.
  destruct (service_from_key prefix k) as [n|] eqn:E; [|exact IH]. constructor; [|exact IH].
  rewrite list_elem_of_omap. intros (k' & Hk' & E').
  apply service_from_key_spec in E as [-> _], E' as [-> _].
  rewrite Forall_forall in Hf. by destruct (irreflexivity str_lt _ (Hf _ Hk')).
Qed.

Section LoopFacts.
Context `{HexCodec} `{Sha256} `{Base64} {Svc : Type} {svc : ObjectService Svc}
  {honest : HonestService Svc}.

Lemma client_list_honest s cap prefix cursor s' out :
  client_list s cap prefix cursor = (s', out) ->
  view s' = view s /\
  forall page, out = Ok page ->
    let keys := keys_after (view s) prefix (default "" cursor) in
    page_keys page = take MAX_LIST_KEYS keys /\
    next page = if (MAX_LIST_KEYS <? length keys)%nat then last (take MAX_LIST_KEYS keys)
                else None.
Proof.
  unfold client_list. destruct (svc_execute _ _) as [s1 [resp|e]] eqn:E; intros [= <- <-].
  - apply honest_ok in E. remember (view s1) as objs'. inversion E; subst; try done.
    split; [done|]. intros page Hp. unfold accept_list in Hp.
    apply guard_ok in Hp as [_ Hp]. by apply guard_ok in Hp as [_ [= <-]].
  - split; [|done]. apply honest_err in E as [|[resp E]]; [done|].
    remember (view s1) as objs'. by inversion E; subst.
Qed.

Lemma client_delete_honest s cap k expected s' out :
  client_delete s cap k expected = (s', out) ->
  (out = Ok tt -> view s' = delete k (view s)) /\
  (view s' = view s \/ view s' = delete k (view s)).
Proof.
  unfold client_delete. destruct (svc_execute _ _) as [s1 [resp|e]] eqn:E; intros [= <- <-].
  - apply honest_ok in E. remember (view s1) as objs'. inversion E; subst; try done. auto.
  - split; [done|]. apply honest_err in E as [|[resp E]]; [by left|].
    remember (view s1) as objs'. inversion E; subst; try done. by right.
Qed.

Lemma delete_keys_honest s cap keys d s' out :
  delete_keys s cap keys d = (s', out) ->
  view s' ⊆ view s /\
  (forall k, k ∉ keys -> view s' !! k = view s !! k) /\
  (forall n, out = Ok n -> n = (d + length keys)%nat /\ forall k, k ∈ keys -> view s' !! k = None).
Proof.
  revert s d. induction keys as [|k keys IH]; intros s d; cbn.
  { intros [= <- <-]. split_and!; [done..|]. intros n [= <-]. split; [lia|]. set_solver. }
  destruct (client_delete s cap k None) as [s1 ans] eqn:E.
  apply client_delete_honest in E as [Hok Hor].
  assert (Hsub : view s1 ⊆ view s) by (destruct Hor as [-> | ->]; [done | apply delete_subseteq]).
  assert (Hother : forall k', k' <> k -> view s1 !! k' = view s !! k')
    by (intros k' Hk; destruct Hor as [-> | ->]; [done | by rewrite lookup_delete_ne]).
  destruct ans as [[]|e]; cbn; intros E'.
  - destruct (IH _ _ E') as (Hs & Ho & Hn). split_and!.
    + by trans (view s1).
    + intros k' Hk'. rewrite Ho by set_solver. apply Hother. set_solver.
    + intros n Hn'. destruct (Hn n Hn') as [-> Hnone]. split; [lia|].
      intros k' [->|Hk']%elem_of_cons; [|by apply Hnone].
      apply (lookup_weaken_None _ (view s1)); [|done].
      rewrite Hok by done. apply lookup_delete_eq.
  - injection E' as <- <-. split_and!; [done| |done]. intros k' Hk'. apply Hother. set_solver.
Qed.

(** Behind a full page, the rest of the keys. *)
Lemma next_page objs prefix c cursor (keys := keys_after objs prefix c) :
  last (take MAX_LIST_KEYS keys) = Some cursor ->
  keys_after objs prefix cursor = drop MAX_LIST_KEYS keys.
Proof. apply keys_after_next. Qed.

Lemma page_keys_upto objs prefix c cursor k :
  last (take MAX_LIST_KEYS (keys_after objs prefix c)) = Some cursor ->
  k ∈ take MAX_LIST_KEYS (keys_after objs prefix c) -> ~ str_lt cursor k.
Proof.
  intros [page Hp]%last_Some Hk Hlt.
  pose proof (keys_after_ascending objs prefix c) as Hs.
  rewrite <-(take_drop MAX_LIST_KEYS (keys_after objs prefix c)) in Hs.
  apply ascending_app in Hs as (Hs & _). rewrite Hp in Hs, Hk.
  apply ascending_app in Hs as (_ & _ & Hpl).
  apply elem_of_app in Hk as [Hk | ->%list_elem_of_singleton].
  - destruct (irreflexivity str_lt k). transitivity cursor; [apply Hpl; set_solver | done].
  - by destruct (irreflexivity str_lt cursor).
Qed.

Lemma delete_prefix_loop fuel s cap prefix cursor d :
  (length (keys_after (view s) prefix (default "" cursor)) < fuel)%nat ->
  exists s' out, delete_prefix fuel s cap prefix cursor d = Some (s', out) /\
    view s' ⊆ view s /\
    (forall k, k ∉ keys_after (view s) prefix (default "" cursor) -> view s' !! k = view s !! k) /\
    (forall n, out = Ok n ->
       n = (d + length (keys_after (view s) prefix (default "" cursor)))%nat /\
       forall k, k ∈ keys_after (view s) prefix (default "" cursor) -> view s' !! k = None).
Proof.
  revert s cursor d. induction fuel as [|fuel IH]; intros s cursor d Hfuel; [lia|].
  cbn [delete_prefix]. set (keys := keys_after (view s) prefix (default "" cursor)) in *.
  destruct (client_list s cap prefix cursor) as [s1 ans] eqn:El.
  apply client_list_honest in El as [Hv1 Hpage]. fold keys in Hpage.
  destruct ans as [page|e]; cbn [map_err].
  2:{ exists s1, (Err (storage_error e)). rewrite Hv1. by split_and!. }
  destruct (Hpage page eq_refl) as [Hkeys Hnext]. rewrite Hkeys.
  destruct (delete_keys s1 cap (take MAX_LIST_KEYS keys) d) as [s2 outd] eqn:Ed.
  apply delete_keys_honest in Ed as (Hsub & Hother & Hdone). rewrite Hv1 in Hsub, Hother.
  assert (Hother' : forall k, k ∉ keys -> view s2 !! k = view s !! k).
  { intros k Hk. apply Hother. intros Hk'%subseteq_take. done. }
  destruct outd as [d'|e].
  2:{ exists s2, (Err e). by split_and!. }
  destruct (Hdone d' eq_refl) as [-> Hnone].
  destruct (Nat.ltb_spec MAX_LIST_KEYS (length keys)) as [Hlt|Hge].
  2:{ rewrite Hnext. rewrite take_ge in Hnone |- * by lia.
      exists s2, (Ok (d + length keys)%nat). split_and!; [done..|].
      intros n [= <-]. by split. }
  destruct (last (take MAX_LIST_KEYS keys)) as [c|] eqn:Elast.
  2:{ apply last_None in Elast. apply (f_equal length) in Elast.
      rewrite length_take in Elast. unfold MAX_LIST_KEYS in *. cbn [length] in Elast. lia. }
  rewrite Hnext.
  assert (Hrest : keys_after (view s2) prefix c = drop MAX_LIST_KEYS keys).
  { pose proof (next_page _ _ _ _ Elast) as Hnp. fold keys in Hnp. rewrite <-Hnp.
    apply keys_after_ext. intros k Hk _.
    rewrite Hother; [done|]. intros Hin. by apply (page_keys_upto _ _ _ _ _ Elast Hin). }
  destruct (IH s2 (Some c) (d + length (take MAX_LIST_KEYS keys))%nat)
    as (s' & out & Hrun & Hsub' & Hoth' & Hok').
  { change (default "" (Some c)) with c. rewrite Hrest, length_drop. unfold MAX_LIST_KEYS in *. lia. }
  change (default "" (Some c)) with c in *. rewrite Hrest in *. exists s', out.
  split_and!; [done | by trans (view s2) | |].
  - intros k Hk. rewrite Hoth'; [by apply Hother'|]. intros Hin.
    apply Hk. rewrite <-(take_drop MAX_LIST_KEYS keys). set_solver.
  - intros n Hn. destruct (Hok' n Hn) as [-> Hall]. split.
    + rewrite length_take, length_drop. lia.
    + intros k Hk. rewrite <-(take_drop MAX_LIST_KEYS keys) in Hk.
      apply elem_of_app in Hk as [Hk|Hk]; [|by apply Hall].
      apply (lookup_weaken_None _ (view s2)); [by apply Hnone | done].
Qed.

Lemma list_services_loop fuel s cap prefix cursor acc :
  (length (keys_after (view s) prefix (default "" cursor)) < fuel)%nat ->
  exists s' out, list_services fuel s cap prefix cursor acc = Some (s', out) /\
    view s' = view s /\
    (forall l, out = Ok l -> l = (acc ++ omap (service_from_key prefix)
       (keys_after (view s) prefix (default "" cursor)))%list).
Proof.
  revert s cursor acc. induction fuel as [|fuel IH]; intros s cursor acc Hfuel; [lia|].
  cbn [list_services]. set (keys := keys_after (view s) prefix (default "" cursor)) in *.
  destruct (client_list s cap prefix cursor) as [s1 ans] eqn:El.
  apply client_list_honest in El as [Hv1 Hpage]. fold keys in Hpage.
  destruct ans as [page|e]; cbn [map_err].
  2:{ exists s1, (Err (storage_error e)). by split_and!. }
  destruct (Hpage page eq_refl) as [Hkeys Hnext]. rewrite Hkeys.
  destruct (Nat.ltb_spec MAX_LIST_KEYS (length keys)) as [Hlt|Hge].
  2:{ rewrite Hnext, take_ge by lia. do 2 eexists. split_and!; [done..|]. by intros l [= <-]. }
  destruct (last (take MAX_LIST_KEYS keys)) as [c|] eqn:Elast.
  2:{ apply last_None in Elast. apply (f_equal length) in Elast.
      rewrite length_take in Elast. unfold MAX_LIST_KEYS in *. cbn [length] in Elast. lia. }
  rewrite Hnext. pose proof (next_page _ _ _ _ Elast) as Hnp. fold keys in Hnp.
  destruct (IH s1 (Some c) (acc ++ omap (service_from_key prefix) (take MAX_LIST_KEYS keys))%list)
    as (s' & out & Hrun & Hv & Hok); change (default "" (Some c)) with c in *;
    rewrite Hv1, Hnp in *.
  { rewrite length_drop. unfold MAX_LIST_KEYS in *. lia. }
  exists s', out. split_and!; [done..|]. intros l Hl. rewrite (Hok l Hl), <-app_assoc.
  f_equal. by rewrite <-omap_app, take_drop.
Qed.

(** A service that refuses no listing and no unconditional delete of [cap]. *)
Definition grants (cap : CapToken) (prefix : string) : Prop :=
  forall s c k, is_ok (svc_execute s (list_request cap prefix c)).2 = true /\
                is_ok (svc_execute s (delete_request cap k None)).2 = true.

Definition valid_keys (objs : objects_table) (prefix : string) : Prop :=
  forall k, is_Some (objs !! k) -> starts_with prefix k = true -> validate_key k false = Ok tt.

Lemma client_list_granted s cap prefix cursor :
  grants cap prefix -> valid_keys (view s) prefix ->
  is_ok (client_list s cap prefix cursor).2 = true.
Proof.
  intros Hg Hv. unfold client_list. destruct (Hg s cursor "") as [Ha _].
  destruct (svc_execute s (list_request cap prefix cursor)) as [s1 [resp|e]] eqn:E; [|done].
  apply honest_ok in E. remember (view s1) as objs'. inversion E; subst; try done. cbn [fst snd].
  cbn [list_request key after]. rewrite accept_list_page; [done|].
  intros k (Hk & Hp & _)%elem_of_keys_after. by apply Hv.
Qed.

Lemma delete_keys_granted s cap prefix keys d :
  grants cap prefix -> is_ok (delete_keys s cap keys d).2 = true.
Proof.
  intros Hg. revert s d. induction keys as [|k keys IH]; intros s d; cbn; [done|].
  unfold client_delete. destruct (Hg s None k) as [_ Ha].
  destruct (svc_execute s (delete_request cap k None)) as [s1 [resp|e]] eqn:E; [|done].
  apply honest_ok in E. remember (view s1) as objs'. inversion E; subst; try done. cbn. apply IH.
Qed.

Lemma delete_prefix_granted fuel s cap prefix cursor d s' out :
  grants cap prefix -> valid_keys (view s) prefix ->
  delete_prefix fuel s cap prefix cursor d = Some (s', out) -> is_ok out = true.
Proof.
  intros Hg. revert s cursor d. induction fuel as [|fuel IH]; intros s cursor d Hv; [done|].
  cbn [delete_prefix]. pose proof (client_list_granted s cap prefix cursor Hg Hv) as Hl.
  destruct (client_list s cap prefix cursor) as [s1 [page|e]] eqn:El; [|done]. cbn [map_err].
  pose proof (delete_keys_granted s1 cap prefix (page_keys page) d Hg) as Hd.
  destruct (delete_keys s1 cap (page_keys page) d) as [s2 [d'|e]] eqn:Ed; [|done].
  destruct (next page) as [c|]; [|by intros [= _ <-]]. apply IH.
  apply client_list_honest in El as [Hv1 _]. apply delete_keys_honest in Ed as (Hsub & _).
  intros k [row Hk]. apply Hv. exists row. rewrite <-Hv1. by eapply lookup_weaken.
Qed.

Lemma list_services_granted fuel s cap prefix cursor acc s' out :
  grants cap prefix -> valid_keys (view s) prefix ->
  list_services fuel s cap prefix cursor acc = Some (s', out) -> is_ok out = true.
Proof.
  intros Hg. revert s cursor acc. induction fuel as [|fuel IH]; intros s cursor acc Hv; [done|].
  cbn [list_services]. pose proof (client_list_granted s cap prefix cursor Hg Hv) as Hl.
  destruct (client_list s cap prefix cursor) as [s1 [page|e]] eqn:El; [|done]. cbn [map_err].
  destruct (next page) as [c|]; [|by intros [= _ <-]]. apply IH.
  apply client_list_honest in El as [Hv1 _]. by rewrite Hv1.
Qed.
End LoopFacts.

(** ** Properties *)

(** A teardown deletes exactly what it names.  Over any honest service the
    loop ends, after at most one turn for each key; it never touches a key
    outside the prefix and never adds one, also when it stops on an error; when
    it reports success every key under the prefix is gone, and the count it
    reports is their number.  It does succeed when the service grants the cap's
    listings and deletes and the stored keys are well formed. *)
Theorem delete_prefix_exact `{HexCodec} `{Sha256} `{Base64} {Svc : Type}
    {svc : ObjectService Svc} {honest : HonestService Svc}
    (s : Svc) (cap : CapToken) (prefix : string) (fuel : nat)
    (Hprefix : prefix <> "")
    (Hfuel : (length (keys_after (view s) prefix "") < fuel)%nat) :
  exists s' out, delete_prefix fuel s cap prefix None 0 = Some (s', out) /\
    view s' ⊆ view s /\
    (forall k, starts_with prefix k = false -> view s' !! k = view s !! k) /\
    (forall n, out = Ok n ->
       n = length (keys_after (view s) prefix "") /\
       forall k, starts_with prefix k = true -> view s' !! k = None) /\
    (grants cap prefix -> valid_keys (view s) prefix -> is_ok out = true).
Proof.
  destruct (delete_prefix_loop fuel s cap prefix None 0 Hfuel) as (s' & out & Hrun & Hsub & Ho & Hok).
  change (default "" None) with "" in *.
  assert (Hpos : forall k, starts_with prefix k = true -> str_lt "" k).
  { intros k [r ->]%starts_with_spec. destruct prefix; done. }
  exists s', out. split_and!; [done..| | |].
  - intros k Hk. apply Ho. intros (_ & Hp & _)%elem_of_keys_after. congruence.
  - intros n Hn. destruct (Hok n Hn) as [Hlen Hnone]. split; [done|]. intros k Hk.
    destruct (view s !! k) as [row|] eqn:E; [|by eapply lookup_weaken_None].
    apply Hnone. rewrite elem_of_keys_after, E. eauto.
  - intros Hg Hv. by eapply delete_prefix_granted.
Qed.

(** The owner sees each of his credentials once.  Over any honest service
    [cred_list] ends; for anyone but the owner it fails before a single request;
    the names it returns are, without repetition and over however many pages,
    exactly those with an object [<prefix><name>.enc]; and it does return them
    when the service grants its listings and the stored keys are well formed. *)
Theorem cred_list_exact `{HexCodec} `{Sha256} `{Base64} {Svc : Type}
    {svc : ObjectService Svc} {honest : HonestService Svc}
    (s : Svc) (cap : CapToken) (fuel : nat)
    (prefix := object_prefix (actor_omni (payload cap)))
    (Hfuel : (length (keys_after (view s) prefix "") < fuel)%nat) :
  exists s' out, cred_list fuel s (Ok tt) cap = Some (s', out) /\ view s' = view s /\
    (operator_omni (payload cap) <> actor_omni (payload cap) ->
       s' = s /\ out = Err (err_403 "list_not_master_self")) /\
    (forall services, out = Ok services ->
       NoDup services /\
       forall name, name ∈ services <->
         name <> "" /\ is_Some (view s !! (prefix +:+ name +:+ ".enc"))) /\
    (operator_omni (payload cap) = actor_omni (payload cap) ->
     grants cap prefix -> valid_keys (view s) prefix -> is_ok out = true).
Proof.
  unfold cred_list. destruct (String.eqb_spec (operator_omni (payload cap)) (actor_omni (payload cap)))
    as [Heq|Hne]; cbn [negb].
  2:{ do 2 eexists. by split_and!. }
  fold prefix. destruct (list_services_loop fuel s cap prefix None [] Hfuel) as (s' & out & Hrun & Hv & Hok).
  change (default "" None) with "" in *. exists s', out. split_and!; [done..| |].
  2:{ intros _ Hg Hk. by eapply list_services_granted. }
  intros services Hs. rewrite (Hok services Hs). cbn [app].
  pose proof (keys_after_ascending (view s) prefix "") as Hasc.
  split.
  - by apply services_NoDup.
  - intros name. rewrite list_elem_of_omap. split.
    + intros (k & (Hk & _ & _)%elem_of_keys_after & [-> Hn]%service_from_key_spec). done.
    + intros [Hn Hk]. exists (prefix +:+ name +:+ ".enc"). split.
      * apply elem_of_keys_after. split_and!; [done | apply starts_with_self |].
        subst prefix. unfold object_prefix. done.
      * by apply service_from_key_spec.
Qed.

(** ** Witnesses: an owner with two credentials *)

Section OwnerWitness.
#[local] Existing Instances SimpleHex.codec ToyCrypto.crypto ToyVerifier.sha SimpleBase64.codec
  ToyVerifier.p256 ToyVerifier.json ToyJson.json.

Definition owner_record : ChainAbi.DeviceRecord :=
  let aa := repeat (byte_of_Z 170) 32 in
  let zz := repeat Byte.x00 32 in
  {| ChainAbi.rec_operator_omni := aa; ChainAbi.rec_actor_omni := aa;
     ChainAbi.k11_cred_id := zz; ChainAbi.k11_rp_id_hash := zz;
     ChainAbi.k11_pub_x := zz; ChainAbi.k11_pub_y := zz;
     ChainAbi.tier := 1; ChainAbi.roles := 1; ChainAbi.registered_at := 7;
     ChainAbi.last_sign_count := 0; ChainAbi.revoked := false |}.

Definition owner_rpc (url contract data : string) (attempt : nat) : RpcAttempt :=
  Reply None (Some ("0x" +:+ hex_encode
    (if String.eqb contract "registry" then ChainAbi.encode_device_record owner_record
     else ChainAbi.abi_word 1))).

Definition owner_env : Environment :=
  {| env_clock := fun _ => demo_clock; env_rpc := fun _ => owner_rpc; env_lost := fun _ => false |}.

Definition owner_cap (o : CapOp) : CapToken :=
  demo_cap (sample_payload (rep64 "a"%char) (rep64 "a"%char) "openai" o Credentials (toy_dkh true)).

Definition owner_prefix : string := object_prefix (rep64 "a"%char).

Definition owner_rows : objects_table :=
  let v := demo_value Byte.x01 in
  {[ owner_prefix +:+ "openai.enc" := (v, revision_of_value v);
     owner_prefix +:+ "github.enc" := (v, revision_of_value v) ]}.

Definition owner_local : LocalService owner_env := (demo_store Credentials owner_rows, 0%nat).
End OwnerWitness.

Example delete_prefix_exact_witness :
  let _ := SimpleHex.codec in let _ := ToyCrypto.crypto in let _ := ToyVerifier.sha in
  let _ := SimpleBase64.codec in let _ := ToyVerifier.p256 in let _ := ToyVerifier.json in
  let _ := ToyJson.json in
  exists s' out,
    delete_prefix 3 owner_local (owner_cap Teardown) owner_prefix None 0 = Some (s', out) /\
    out = Ok 2%nat /\ objects s'.1 !! (owner_prefix +:+ "github.enc") = None.
Proof.
  intros hex cr sh b64 p256 json ojson.
  destruct (@delete_prefix_exact hex sh b64 (LocalService owner_env) (local_service owner_env)
    (local_honest owner_env) owner_local (owner_cap Teardown) owner_prefix 3%nat)
    as (s' & out & Hrun & _ & _ & Hok & _).
  - discriminate.
  - vm_compute. lia.
  - assert (E : option_map snd (delete_prefix 3 owner_local (owner_cap Teardown) owner_prefix None 0)
      = Some (Ok 2%nat)) by (vm_compute; reflexivity).
    rewrite Hrun in E. injection E as E. exists s', out. split; [exact Hrun|]. split; [exact E|].
    exact (proj2 (Hok 2%nat E) _ (starts_with_self _ _)).
Defined.

Example cred_list_exact_witness :
  let _ := SimpleHex.codec in let _ := ToyCrypto.crypto in let _ := ToyVerifier.sha in
  let _ := SimpleBase64.codec in let _ := ToyVerifier.p256 in let _ := ToyVerifier.json in
  let _ := ToyJson.json in
  exists s' out,
    cred_list 3 owner_local (Ok tt) (owner_cap Fetch) = Some (s', out) /\
    out = Ok ["github"; "openai"] /\ NoDup ["github"; "openai"].
Proof.
  intros hex cr sh b64 p256 json ojson.
  destruct (@cred_list_exact hex sh b64 (LocalService owner_env) (local_service owner_env)
    (local_honest owner_env) owner_local (owner_cap Fetch) 3%nat)
    as (s' & out & Hrun & _ & _ & Hok & _).
  - vm_compute. lia.
  - assert (E : option_map snd (cred_list 3 owner_local (Ok tt) (owner_cap Fetch))
      = Some (Ok ["github"; "openai"])) by (vm_compute; reflexivity).
    rewrite Hrun in E. injection E as E. exists s', out. split; [exact Hrun|]. split; [exact E|].
    exact (proj1 (Hok _ E)).
Defined.

(** ** Envelopes *)

Section EnvelopeFacts.
Context `{HexCodec} `{Aes256Gcm}.

Lemma envelope_body (nonce ct : bytes) : length nonce = NONCE_LEN ->
  take NONCE_LEN (nonce ++ ct)%list = nonce /\ drop NONCE_LEN (nonce ++ ct)%list = ct.
Proof. intros Hn. by rewrite take_app_length', drop_app_length'. Qed.

Lemma sealed_length v (nonce key aad pt ct : bytes) : length nonce = NONCE_LEN ->
  aes_encrypt key nonce aad pt = Some ct ->
  (length (v :: nonce ++ ct)%list <? MIN_ENVELOPE_LEN)%nat = false.
Proof.
  intros Hn Hc%aes_encrypt_length. apply Nat.ltb_ge. cbn [length]. rewrite length_app, Hn, Hc.
  unfold MIN_ENVELOPE_LEN. lia.
Qed.
End EnvelopeFacts.

(** The associated data names one actor and one service. *)
Lemma aad_with_inj tag a s a' s' :
  string_has "|"%char a = false -> string_has "|"%char a' = false ->
  aad_with tag a s = aad_with tag a' s' ->
  to_lowercase (default a (strip_prefix "0x" a)) = to_lowercase (default a' (strip_prefix "0x" a'))
  /\ s = s'.
Proof.
  intros Ha Ha' E. unfold aad_with, as_bytes in E.
  apply (f_equal String.string_of_list_byte) in E.
  rewrite !String.string_of_list_byte_of_string in E. apply (inj (String.append tag)) in E.
  assert (Hno : forall a, string_has "|"%char a = false ->
    string_has "|"%char (to_lowercase (default a (strip_prefix "0x" a))) = false).
  { intros b Hb. assert (Hd : string_has "|"%char (default b (strip_prefix "0x" b)) = false).
    { destruct (strip_prefix "0x" b) as [r|] eqn:E'; [|done]. apply strip_prefix_spec in E' as ->.
      rewrite string_has_app in Hb. by apply orb_false_iff in Hb as [_ ?]. }
    revert Hd. generalize (default b (strip_prefix "0x" b)). clear.
    intros s. unfold to_lowercase. induction s as [|c s IH]; [done|].
    cbn [string_map]. rewrite !string_has_cons. intros [Hc Hs]%orb_false_iff.
    rewrite (IH Hs), orb_false_r.
    pose proof (ascii_forall (fun c => Ascii.eqb "|"%char c || negb (Ascii.eqb "|"%char (char_lower c)))
      eq_refl c) as Hf. cbv beta in Hf. rewrite Hc in Hf. by apply negb_true_iff in Hf. }
  by apply (split_first_inj "|"%char) in E as [? ?]; [|apply Hno..].
Qed.

(** What is sealed is read back, by the right reader only.  A value sealed
    under the development key opens under that key and the same associated data,
    and a client-sealed one under the client's key; a worker refuses to open a
    client's envelope and a client a worker's, whatever the keys; and a store
    request keeps a client's envelope byte for byte. *)
Theorem envelope_roundtrip `{HexCodec} `{Aes256Gcm} `{Base64}
    (nonce key aad_bytes plaintext env : bytes) (kek_hex : string) (Hn : length nonce = NONCE_LEN) :
  (encrypt nonce kek_hex plaintext aad_bytes = Ok env ->
     decrypt kek_hex env aad_bytes = Ok plaintext /\
     (forall k a, decrypt_v3 k env a = Err (UnsupportedVersion ENVELOPE_VERSION_V2))) /\
  (encrypt_v3 nonce key plaintext aad_bytes = Ok env ->
     decrypt_v3 key env aad_bytes = Ok plaintext /\
     (forall k a, decrypt k env a = Err V3RequiresDerivedKek) /\
     (forall n cap kek, store_bytes n cap None (Some (b64_encode env)) kek = Ok env)).
Proof.
  split.
  - unfold encrypt. intros (kek & Hkek & Hk)%let_ok.
    apply let_ok in Hk as (ct & Hct%ok_or_ok & [= <-]).
    pose proof (sealed_length ENVELOPE_VERSION_V2 _ _ _ _ _ Hn Hct) as Hl.
    destruct (envelope_body nonce ct Hn) as [Ht Hd]. split.
    + unfold decrypt. rewrite Hl, Ht, Hd, Hkek. cbn.
      by rewrite (aes_decrypt_encrypt _ _ _ _ _ Hct).
    + intros k a. unfold decrypt_v3. by rewrite Hl.
  - unfold encrypt_v3. intros (ct & Hct%ok_or_ok & [= <-])%let_ok.
    pose proof (sealed_length ENVELOPE_VERSION_V3 _ _ _ _ _ Hn Hct) as Hl.
    destruct (envelope_body nonce ct Hn) as [Ht Hd]. split_and!.
    + unfold decrypt_v3. rewrite Hl, Ht, Hd. cbn. by rewrite (aes_decrypt_encrypt _ _ _ _ _ Hct).
    + intros k a. unfold decrypt. by rewrite Hl.
    + intros n cap kek. unfold store_bytes. rewrite b64_decode_encode. cbn [ok_or].
      unfold version. by rewrite Hl.
Qed.

Module ToyAes.
(** The message with sixteen bytes of padding for the tag. *)
#[refine] Definition aes : Aes256Gcm := {|
  aes_encrypt := fun k n a m => Some (m ++ replicate 16 Byte.x00)%list;
  aes_decrypt := fun k n a c => Some (take (length c - 16) c);
|}.
Proof.
  - intros k n a m c [= <-]. rewrite take_app_length'; [done|].
    rewrite length_app. cbn [length replicate]. lia.
  - intros k n a m c [= <-]. by rewrite length_app.
Defined.
End ToyAes.

Example envelope_roundtrip_witness :
  let _ := SimpleHex.codec in let _ := ToyAes.aes in let _ := SimpleBase64.codec in
  let nonce := replicate 12 Byte.x05 in
  match encrypt nonce (rep64 "a"%char) [Byte.x01] (aad "o" "0xAB" "svc" 1) with
  | Ok env => decrypt (rep64 "a"%char) env (aad "o" "ab" "svc" 1) = Ok [Byte.x01]
  | Err _ => False
  end.
Proof.
  intros hex aes b64 nonce.
  pose (a := aad "o" "0xAB" "svc" 1).
  destruct (@encrypt hex aes nonce (rep64 "a"%char) [Byte.x01] a) as [env|e] eqn:E;
    [|vm_compute in E; discriminate].
  change (aad "o" "0xAB" "svc" 1) with a. rewrite E.
  replace (aad "o" "ab" "svc" 1) with a by (vm_compute; reflexivity).
  exact (proj1 (proj1 (@envelope_roundtrip hex aes b64 nonce [] a [Byte.x01] env (rep64 "a"%char)
    eq_refl) E)).
Defined.
