(* ===== verification/Sql.v ===== *)
(** * SQLite tables as the broker's stores use them, and what they promise

    A table is the list of its rows in insertion order.  The operations are the
    statement shapes the stores issue: a lookup, a conditional update and a
    conditional delete with the number of rows they touched, an insert that a
    uniqueness constraint can refuse, and a stable sort. *)
From S2P Require Import Prelude.

Section Tables.
Context {R : Type}.
Implicit Types (t : list R) (p : R -> bool).

(** [SELECT ... WHERE p] read with [query_row(..).optional()]. *)
Definition select_one p t : option R := List.find p t.

(** [SELECT ... WHERE p] *)
Definition select_all p t : list R := List.filter p t.

(** [UPDATE ... SET f WHERE p]: the table and the rows affected. *)
Definition update_where p (f : R -> R) t : list R * nat :=
  (map (fun r => if p r then f r else r) t, length (List.filter p t)).

(** [DELETE ... WHERE p] *)
Definition delete_where p t : list R * nat :=
  (List.filter (fun r => negb (p r)) t, length (List.filter p t)).

(** [INSERT]: refused when an existing row clashes on a unique column. *)
Definition insert_unique (clash : R -> R -> bool) (row : R) t : option (list R) :=
  if existsb (clash row) t then None else Some (t ++ [row])%list.

(** [ORDER BY key ASC] *)
Fixpoint insert_by (key : R -> Z) (r : R) t : list R :=
  match t with
  | [] => [r]
  | r' :: t' => if (key r <=? key r')%Z then r :: t else r' :: insert_by key r t'
  end.

Definition order_by (key : R -> Z) t : list R := fold_right (insert_by key) [] t.

(** [SELECT COUNT( * ) ... WHERE p] *)
Definition count p t : nat := length (List.filter p t).

(** ** Lemmas *)

Lemma select_one_some p t r : select_one p t = Some r -> r ∈ t /\ p r = true.
Proof. intros Hf. apply find_some in Hf as [Hin Hp]. by rewrite list_elem_of_In. Qed.

Lemma select_one_none p t : select_one p t = None <-> forall r, r ∈ t -> p r = false.
Proof.
  unfold select_one. split.
  - intros Hf r Hr%list_elem_of_In. by apply (find_none p t).
  - intros Hall. destruct (List.find p t) eqn:E; [|done].
    apply find_some in E as [Hin Hp]. rewrite Hall in Hp; [done|]. by apply list_elem_of_In.
Qed.

Lemma select_one_snoc p t r :
  select_one p (t ++ [r])%list =
  match select_one p t with Some x => Some x | None => if p r then Some r else None end.
Proof. unfold select_one. induction t as [|r' t IH]; cbn; [done|]. by destruct (p r'). Qed.

Lemma select_one_map p (f : R -> R) t :
  (forall r, p (f r) = p r) -> select_one p (map f t) = f <$> select_one p t.
Proof.
  intros Hf. unfold select_one. induction t as [|r t IH]; cbn; [done|].
  rewrite Hf. by destruct (p r).
Qed.

Lemma count_app p t t' : count p (t ++ t') = count p t + count p t'.
Proof. unfold count. by rewrite List.filter_app, length_app. Qed.

Lemma count_cons p r t : count p (r :: t) = b2n (p r) + count p t.
Proof. unfold count. cbn. by destruct (p r). Qed.

Lemma count_zero p t : count p t = 0 <-> forall r, r ∈ t -> p r = false.
Proof. unfold count. rewrite <-filter_none. apply length_zero_iff_nil. Qed.

Lemma count_pos p t : 0 < count p t <-> exists r, r ∈ t /\ p r = true.
Proof.
  pose proof (existsb_elem p t) as He. rewrite <-He. unfold count.
  induction t as [|r t IH]; cbn; [split; [lia|done]|].
  destruct (p r); cbn; [split; [done|lia] |]. apply IH. by rewrite existsb_elem.
Qed.

Lemma count_ext p q t : (forall r, r ∈ t -> p r = q r) -> count p t = count q t.
Proof. intros Heq. unfold count. by rewrite (filter_ext_elem p q). Qed.

Lemma count_mono p q t : (forall r, r ∈ t -> p r = true -> q r = true) -> count p t <= count q t.
Proof.
  intros Hpq. induction t as [|r t IH]; [done|]. rewrite !count_cons.
  specialize (IH ltac:(set_solver)). specialize (Hpq r ltac:(set_solver)).
  destruct (p r); [rewrite (Hpq eq_refl) | destruct (q r)]; cbn; lia.
Qed.

Lemma count_map p (f : R -> R) t : count p (map f t) = count (fun r => p (f r)) t.
Proof. induction t as [|r t IH]; [done|]. cbn [map]. by rewrite !count_cons, IH. Qed.

Lemma count_filter p q t : count p (List.filter q t) = count (fun r => q r && p r) t.
Proof.
  induction t as [|r t IH]; [done|]. cbn [List.filter]. rewrite count_cons.
  destruct (q r); [by rewrite count_cons, IH | by rewrite IH].
Qed.

Lemma count_delete_le p q t : count p (delete_where q t).1 <= count p t.
Proof.
  unfold delete_where. cbn [fst]. rewrite count_filter.
  apply count_mono. by intros r _ [_ ?]%andb_true_iff.
Qed.

(** What an update does to the rows that satisfy [q]: with [p] among [q] and
    the updated rows outside of it, those updated are gone from the count. *)
Lemma count_update_out p f q t :
  (forall r, r ∈ t -> p r = true -> q r = true /\ q (f r) = false) ->
  count q (update_where p f t).1 + (update_where p f t).2 = count q t.
Proof.
  intros Hf. unfold update_where. cbn [fst snd]. fold (count p t). rewrite count_map.
  induction t as [|r t IH]; [done|]. rewrite !count_cons.
  specialize (IH ltac:(set_solver)). specialize (Hf r ltac:(set_solver)).
  destruct (p r); cbn; [|lia]. destruct (Hf eq_refl) as [-> ->]. cbn. lia.
Qed.

Lemma count_update_same p f q t :
  (forall r, r ∈ t -> p r = true -> q (f r) = q r) ->
  count q (update_where p f t).1 = count q t.
Proof.
  intros Hf. unfold update_where. cbn [fst]. rewrite count_map. apply count_ext. intros r Hr. destruct (p r) eqn:E; auto.
Qed.

Lemma update_none p f t : (forall r, r ∈ t -> p r = false) -> update_where p f t = (t, 0).
Proof.
  intros Hp. unfold update_where. f_equal.
  - rewrite <-(map_id t) at 2. apply map_ext_in. intros r Hr%list_elem_of_In. by rewrite Hp.
  - by apply count_zero.
Qed.

Lemma insert_unique_some clash row t t' :
  insert_unique clash row t = Some t' <->
  t' = (t ++ [row])%list /\ forall r, r ∈ t -> clash row r = false.
Proof.
  unfold insert_unique. destruct (existsb (clash row) t) eqn:E.
  - apply existsb_elem in E as (r & Hr & Hc). split; [done|]. intros [_ Hall].
    by rewrite Hall in Hc.
  - rewrite existsb_none in E. naive_solver.
Qed.

Lemma elem_of_update p f t r :
  r ∈ (update_where p f t).1 <->
  exists r0, r0 ∈ t /\ r = (if p r0 then f r0 else r0).
Proof. cbn. rewrite list_elem_of_fmap. naive_solver. Qed.

Lemma elem_of_delete p t r : r ∈ (delete_where p t).1 <-> r ∈ t /\ p r = false.
Proof. cbn. rewrite elem_of_filterb, negb_true_iff. tauto. Qed.

Lemma insert_by_perm key r t : insert_by key r t ≡ₚ r :: t.
Proof.
  induction t as [|r' t IH]; cbn; [done|]. destruct (_ <=? _)%Z; [done|].
  rewrite IH. apply Permutation_swap.
Qed.

Lemma order_by_perm key t : order_by key t ≡ₚ t.
Proof.
  induction t as [|r t IH]; cbn; [done|]. by rewrite insert_by_perm, IH.
Qed.

Lemma insert_by_sorted key r t :
  StronglySorted (fun a b => key a <= key b)%Z t ->
  StronglySorted (fun a b => key a <= key b)%Z (insert_by key r t).
Proof.
  induction 1 as [|r' t Ht IH Hf]; cbn; [repeat constructor|].
  destruct (Z.leb_spec (key r) (key r')) as [Hle|Hlt].
  - constructor; [by constructor|]. constructor; [done|].
    rewrite Forall_forall in *. intros x Hx. specialize (Hf x Hx). lia.
  - constructor; [done|]. rewrite Forall_forall in *. intros x Hx.
    rewrite insert_by_perm in Hx. apply elem_of_cons in Hx as [->|Hx]; [lia | by apply Hf].
Qed.

Lemma order_by_sorted key t : StronglySorted (fun a b => key a <= key b)%Z (order_by key t).
Proof. induction t as [|r t IH]; cbn; [constructor|]. by apply insert_by_sorted. Qed.
End Tables.

#[export] Hint Resolve count_delete_le : terrier.

(** ** Uniqueness *)

(** No two rows share the column [c]. *)
Definition unique_on {R K} (c : R -> K) (t : list R) : Prop := NoDup (map c t).

Section Unique.
Context {R K : Type} (c : R -> K).

Lemma unique_on_snoc (t : list R) row :
  unique_on c t -> (forall r, r ∈ t -> c r <> c row) -> unique_on c (t ++ [row])%list.
Proof.
  intros Hu Hr. unfold unique_on. rewrite map_app. cbn. apply NoDup_app. split_and!; [done| |].
  - intros x Hx%list_elem_of_fmap Hx'%list_elem_of_singleton. destruct Hx as (r & -> & Hin).
    by apply (Hr r Hin).
  - apply NoDup_singleton.
Qed.

Lemma unique_on_filter (f : R -> bool) (t : list R) :
  unique_on c t -> unique_on c (List.filter f t).
Proof.
  intros Hu. eapply sublist_NoDup; [exact Hu|].
  induction t as [|r t IH]; cbn; [constructor|].
  apply NoDup_cons in Hu as [_ Hu]. destruct (f r); constructor; auto.
Qed.

Lemma unique_on_map (f : R -> R) (t : list R) :
  (forall r, c (f r) = c r) -> unique_on c t -> unique_on c (map f t).
Proof.
  intros Hf. unfold unique_on. rewrite map_map.
  by rewrite (map_ext _ c Hf).
Qed.

Lemma unique_on_eq (t : list R) r r' :
  unique_on c t -> r ∈ t -> r' ∈ t -> c r = c r' -> r = r'.
Proof.
  intros Hu Hr Hr' E. unfold unique_on in Hu.
  apply list_elem_of_lookup in Hr as [i Hi], Hr' as [j Hj]. change map with (@fmap list _) in Hu.
  assert (i = j) as ->; [|congruence].
  eapply (NoDup_lookup (c <$> t)); [done|..]; rewrite list_lookup_fmap.
  - by rewrite Hi.
  - rewrite Hj. cbn. by rewrite E.
Qed.

(** A condition that fixes the value of a unique column holds of one row at most. *)
Lemma count_unique_le (p : R -> bool) (k : K) (t : list R) :
  unique_on c t -> (forall r, p r = true -> c r = k) -> (count p t <= 1)%nat.
Proof.
  intros Hu Hp. induction t as [|r t IH]; [cbn; lia|].
  rewrite count_cons. apply NoDup_cons in Hu as [Hn Hu].
  destruct (p r) eqn:E; cbn [b2n]; [|by apply IH].
  replace (count p t) with 0%nat; [lia|]. symmetry. apply count_zero. intros r' Hr'.
  destruct (p r') eqn:E'; [|done]. exfalso. apply Hn.
  rewrite (Hp r E), <- (Hp r' E'). apply list_elem_of_fmap. by exists r'.
Qed.
End Unique.

(** ** Claiming a row: [UPDATE ... SET taken WHERE key = k AND not taken] *)

Section Claim.
Context {R : Type} (key : R -> string) (free : R -> bool) (take_row : R -> R).
Context (take_key : forall r, key (take_row r) = key r) (take_taken : forall r, free (take_row r) = false).

(** The rows of a key that can still be claimed. *)
Definition free_of (k : string) (r : R) : bool := String.eqb (key r) k && free r.

Definition claim_row (k : string) (t : list R) : list R * nat := update_where (free_of k) take_row t.

(** A claim that touches a row uses it up; it never adds a free row. *)
Lemma claim_live k k' t :
  b2n (String.eqb k' k && negb ((claim_row k' t).2 =? 0)) + count (free_of k) (claim_row k' t).1
  <= count (free_of k) t.
Proof.
  unfold claim_row. destruct (String.eqb_spec k' k) as [->|Hne]; cbn [andb].
  - pose proof (count_update_out (free_of k) take_row (free_of k) t) as Hc. rewrite <-Hc.
    2:{ intros r _ Hr. split; [done|]. unfold free_of. by rewrite take_taken, andb_false_r. }
    destruct (Nat.eqb_spec (update_where (free_of k) take_row t).2 0); cbn [negb b2n]; lia.
  - rewrite (count_update_same (free_of k') take_row (free_of k) t); [done|].
    intros r _ [Hr%String.eqb_eq _]%andb_true_iff. unfold free_of. rewrite take_key, Hr.
    by apply String.eqb_neq in Hne as ->.
Qed.

Lemma claim_hit k t row : row ∈ t -> key row = k -> free row = true ->
  ((claim_row k t).2 =? 0) = false.
Proof.
  intros Hin Hk Hf. apply Nat.eqb_neq. unfold claim_row, update_where. cbn [snd].
  fold (count (free_of k) t). enough (0 < count (free_of k) t) by lia.
  apply count_pos. exists row. unfold free_of. by rewrite Hk, String.eqb_refl.
Qed.

Lemma claim_unique {K} (c : R -> K) k t :
  (forall r, c (take_row r) = c r) -> unique_on c t -> unique_on c (claim_row k t).1.
Proof. intros Hc. apply unique_on_map. intros r. by destruct (free_of k r). Qed.

(** After the claim no row of that key is free. *)
Lemma claim_taken k t r : r ∈ (claim_row k t).1 -> key r = k -> free r = false.
Proof.
  intros (r0 & _ & ->)%elem_of_update. destruct (free_of k r0) eqn:E; [done|].
  intros Hk. unfold free_of in E. by rewrite Hk, String.eqb_refl in E.
Qed.
End Claim.

(** ** Single use, as an interface

    Nonces, email links, OAuth flows and pairing tickets promise the same thing: what was
    issued once is won at most once, whatever the order in which the requests of many
    clients are served.  A store promises it step by step, by a count of what is still to
    be won; the lemma below sums the steps up. *)

Class OneShot (St Op Key : Type) := {
  os_step : St -> Op -> St;
  (** How many times the step issues, and wins, the key. *)
  os_issues : St -> Op -> Key -> nat;
  os_wins : St -> Op -> Key -> nat;
  (** What can still be won of it. *)
  os_live : St -> Key -> nat;
  os_law : forall s op k,
    os_wins s op k + os_live (os_step s op) k <= os_issues s op k + os_live s k;
}.

Section OneShot.
Context {St Op Key : Type} `{OneShot St Op Key}.

Fixpoint os_run (s : St) (ops : list Op) : St :=
  match ops with [] => s | op :: ops => os_run (os_step s op) ops end.

Fixpoint run_wins (s : St) (ops : list Op) (k : Key) : nat :=
  match ops with [] => 0 | op :: ops => os_wins s op k + run_wins (os_step s op) ops k end.

Fixpoint run_issues (s : St) (ops : list Op) (k : Key) : nat :=
  match ops with [] => 0 | op :: ops => os_issues s op k + run_issues (os_step s op) ops k end.

Lemma os_bound (s : St) (ops : list Op) (k : Key) :
  run_wins s ops k + os_live (os_run s ops) k <= run_issues s ops k + os_live s k.
Proof.
  revert s. induction ops as [|op ops IH]; intros s; cbn; [lia|].
  specialize (IH (os_step s op)). pose proof (os_law s op k). lia.
Qed.

(** An invariant of single steps holds after every run. *)
Lemma os_invariant (I : St -> Prop) :
  (forall s op, I s -> I (os_step s op)) -> forall ops s, I s -> I (os_run s ops).
Proof. intros Hstep ops. induction ops as [|op ops IH]; intros s Hs; cbn; auto. Qed.
End OneShot.
