(* ===== verification/AuthNonces.v ===== *)
(** * Sign-in nonces

    [crates/agentkeys-broker-server/src/storage/auth_nonces.rs].  [consume] is two
    statements, a lookup and a conditional update; within one broker a lock holds
    them together, but brokers may share the database, so the second statement is
    also an operation of its own, with whatever lookup came before it. *)
From S2P Require Import Prelude RustStr Sql.

Open Scope Z_scope.

Record NonceRow := {
  nonce : string;
  address : string;
  issued_at : Z;
  expires_at : Z;
  consumed_at : option Z;
}.

Inductive ConsumeOutcome :=
| Consumed (address : string) (expires_at : Z)
| NotFoundOrConsumed
| Expired.

Abbreviation nonce_table := (list NonceRow).

(** [PRIMARY KEY (nonce)] *)
Definition same_nonce (a b : NonceRow) : bool := String.eqb (nonce a) (nonce b).

Definition issue (t : nonce_table) (n addr : string) (issued expires : Z)
    : result string nonce_table :=
  ok_or "insert auth_nonce"
    (insert_unique same_nonce {| nonce := n; address := addr; issued_at := issued;
       expires_at := expires; consumed_at := None |} t).

Definition set_consumed (now : Z) (r : NonceRow) : NonceRow :=
  {| nonce := nonce r; address := address r; issued_at := issued_at r;
     expires_at := expires_at r; consumed_at := Some now |}.

Definition has_nonce (n : string) (r : NonceRow) : bool := String.eqb (nonce r) n.
Definition unconsumed (r : NonceRow) : bool := is_none (consumed_at r).

(** The conditional update, for a row that was looked up before. *)
Definition consume_update (t : nonce_table) (n : string) (now : Z) (addr : string) (expires : Z)
    : nonce_table * ConsumeOutcome :=
  let '(t, rows) := claim_row nonce unconsumed (set_consumed now) n t in
  (t, if (rows =? 0)%nat then NotFoundOrConsumed else Consumed addr expires).

Definition consume (t : nonce_table) (n : string) (now : Z) : nonce_table * ConsumeOutcome :=
  match select_one (has_nonce n) t with
  | None => (t, NotFoundOrConsumed)
  | Some row =>
      if is_some (consumed_at row) then (t, NotFoundOrConsumed)
      else if expires_at row <? now then (t, Expired)
      else consume_update t n now (address row) (expires_at row)
  end.

Definition purge_expired (t : nonce_table) (now retention : Z) : nonce_table * nat :=
  let cutoff := i64_sub now retention in
  delete_where (fun r => expires_at r <? cutoff) t.

(** ** The store as a single-use resource *)

Inductive NonceOp :=
| OpIssue (n addr : string) (issued expires : Z)
| OpConsume (n : string) (now : Z)
| OpUpdate (n : string) (now : Z) (addr : string) (expires : Z)
| OpPurge (now retention : Z).

Definition nonce_step (t : nonce_table) (op : NonceOp) : nonce_table :=
  match op with
  | OpIssue n addr issued expires =>
      match issue t n addr issued expires with Ok t => t | Err _ => t end
  | OpConsume n now => (consume t n now).1
  | OpUpdate n now addr expires => (consume_update t n now addr expires).1
  | OpPurge now retention => (purge_expired t now retention).1
  end.

Definition is_consumed (o : ConsumeOutcome) : bool :=
  match o with Consumed _ _ => true | _ => false end.

Definition nonce_issues (t : nonce_table) (op : NonceOp) (k : string) : nat :=
  match op with
  | OpIssue n addr issued expires => b2n (String.eqb n k && is_ok (issue t n addr issued expires))
  | _ => 0
  end.

Definition nonce_wins (t : nonce_table) (op : NonceOp) (k : string) : nat :=
  match op with
  | OpConsume n now => b2n (String.eqb n k && is_consumed (consume t n now).2)
  | OpUpdate n now addr expires =>
      b2n (String.eqb n k && is_consumed (consume_update t n now addr expires).2)
  | _ => 0
  end.

Definition nonce_live (t : nonce_table) (k : string) : nat := count (free_of nonce unconsumed k) t.

Lemma consume_update_table t n now addr expires :
  (consume_update t n now addr expires).1 = (claim_row nonce unconsumed (set_consumed now) n t).1.
Proof. unfold consume_update. by destruct (claim_row _ _ _ n t). Qed.

Lemma nonce_update_live t n now addr expires k :
  (b2n (String.eqb n k && is_consumed (consume_update t n now addr expires).2) +
   nonce_live (consume_update t n now addr expires).1 k <= nonce_live t k)%nat.
Proof.
  pose proof (claim_live nonce unconsumed (set_consumed now) (fun r => eq_refl) (fun r => eq_refl) k n t)
    as Hc. unfold consume_update, nonce_live.
  destruct (claim_row _ _ _ n t) as [t' rows]. cbn [fst snd] in *. by destruct (rows =? 0)%nat.
Qed.

Lemma nonce_law t op k :
  (nonce_wins t op k + nonce_live (nonce_step t op) k <= nonce_issues t op k + nonce_live t k)%nat.
Proof.
  destruct op as [n addr issued expires|n now|n now addr expires|now retention];
    cbn [nonce_wins nonce_step nonce_issues].
  - unfold issue. destruct (insert_unique _ _ _) as [t'|] eqn:E; cbn [ok_or is_ok];
      [|lia]. apply insert_unique_some in E as [-> _].
    unfold nonce_live. rewrite count_app, count_cons, andb_true_r.
    unfold free_of at 2. cbn [nonce unconsumed consumed_at is_none is_some negb].
    rewrite andb_true_r. change (count (free_of nonce unconsumed k) []) with 0%nat. lia.
  - unfold consume. destruct (select_one _ _) as [row|]; [|cbn [fst snd is_consumed]; rewrite andb_false_r; cbn [b2n]; lia].
    destruct (is_some _); [cbn [fst snd is_consumed]; rewrite andb_false_r; cbn [b2n]; lia|].
    destruct (_ <? _); [cbn [fst snd is_consumed]; rewrite andb_false_r; cbn [b2n]; lia|].
    pose proof (nonce_update_live t n now (address row) (expires_at row) k). lia.
  - pose proof (nonce_update_live t n now addr expires k). lia.
  - cbn [Nat.add]. apply count_delete_le.
Qed.

#[export] Instance nonces : OneShot nonce_table NonceOp string := {|
  os_step := nonce_step;
  os_issues := nonce_issues;
  os_wins := nonce_wins;
  os_live := nonce_live;
  os_law := nonce_law;
|}.

(** ** Properties *)

(** Rows keep the address and the expiry they were issued with. *)
Definition issued_with (t : nonce_table) (n addr : string) (expires : Z) : Prop :=
  exists row, row ∈ t /\ nonce row = n /\ address row = addr /\ expires_at row = expires.

Lemma nonce_unique_run (ops : list NonceOp) : unique_on nonce (os_run ([] : nonce_table) ops).
Proof.
  apply (os_invariant (unique_on nonce)); [|constructor].
  intros s op Hs. destruct op as [m addr issued expires|m now'|m now' addr expires|now' ret];
    cbn [os_step nonces nonce_step].
  - unfold issue. destruct (insert_unique _ _ _) as [s'|] eqn:E; [|done].
    apply insert_unique_some in E as [-> Hc]. apply unique_on_snoc; [done|].
    intros r Hr E. specialize (Hc r Hr). unfold same_nonce in Hc. apply String.eqb_neq in Hc.
    by rewrite E in Hc.
  - unfold consume. destruct (select_one _ _) as [row|]; [|done].
    destruct (is_some _); [done|]. destruct (_ <? _); [done|].
    rewrite consume_update_table. by apply claim_unique.
  - rewrite consume_update_table. by apply claim_unique.
  - by apply unique_on_filter.
Qed.

(** A nonce signs in at most once.  From an empty table, under any
    interleaving of issues, lookups, conditional updates and purges by any number
    of brokers, a nonce is won at most as often as it was issued; a call of
    [consume] wins exactly an issued, unconsumed nonce that has not expired, and
    then reports the address and expiry it was issued with; it leaves the table
    alone otherwise; and the winner's own retry is refused. *)
Theorem nonce_single_use (ops : list NonceOp) (n : string) (now : Z) :
  let t := os_run ([] : nonce_table) ops in
  (run_wins ([] : nonce_table) ops n <= run_issues ([] : nonce_table) ops n)%nat /\
  (forall addr expires t',
     consume t n now = (t', Consumed addr expires) ->
     now <= expires /\ issued_with t n addr expires /\
     forall now', (consume t' n now').2 = NotFoundOrConsumed) /\
  (forall t' o, consume t n now = (t', o) -> is_consumed o = false -> t' = t) /\
  (forall row, row ∈ t -> nonce row = n -> consumed_at row = None -> now <= expires_at row ->
     (consume t n now).2 = Consumed (address row) (expires_at row)).
Proof.
  intros t.
  assert (Hu : unique_on nonce t) by apply nonce_unique_run.
  split.
  { pose proof (os_bound ([] : nonce_table) ops n) as Hb. cbn in Hb. unfold nonce_live, count in Hb.
    cbn in Hb. lia. }
  unfold consume. destruct (select_one (has_nonce n) t) as [row|] eqn:E.
  2:{ split_and!; [done | by intros ? ? [= <- _]|].
      intros row Hr Hn. apply select_one_none with (r := row) in E; [|done].
      unfold has_nonce in E. by rewrite Hn, String.eqb_refl in E. }
  apply select_one_some in E as [Hin Hrow]. unfold has_nonce in Hrow. apply String.eqb_eq in Hrow.
  destruct (consumed_at row) as [c|] eqn:Ec; cbn [is_some].
  { split_and!; [done | by intros ? ? [= <- _]|]. intros row' Hr Hn Hc.
    by rewrite (unique_on_eq nonce t row' row Hu Hr Hin ltac:(congruence)), Ec in Hc. }
  destruct (expires_at row <? now) eqn:Et.
  { split_and!; [done | by intros ? ? [= <- _]|]. intros row' Hr Hn Hc He.
    rewrite (unique_on_eq nonce t row' row Hu Hr Hin ltac:(congruence)) in He. reflect_bools. lia. }
  unfold consume_update.
  pose proof (claim_hit nonce unconsumed (set_consumed now) n t row Hin Hrow) as Hz.
  unfold unconsumed at 1 in Hz. rewrite Ec in Hz. specialize (Hz eq_refl).
  destruct (claim_row _ _ _ n t) as [t1 rows] eqn:Eu. cbn [snd] in Hz. rewrite Hz. split_and!.
  - intros addr expires t' [= <- <- <-]. reflect_bools. split_and!; [lia | by exists row |].
    intros now'. destruct (select_one (has_nonce n) t1) as [row'|] eqn:E'; [|done].
    apply select_one_some in E' as [Hin' Hrow'%String.eqb_eq].
    pose proof (claim_taken nonce unconsumed (set_consumed now) (fun r => eq_refl) n t row') as Ht.
    rewrite Eu in Ht. specialize (Ht Hin' Hrow').
    unfold unconsumed, is_none in Ht. apply negb_false_iff in Ht. by rewrite Ht.
  - by intros t' o [= _ <-].
  - intros row' Hr Hn _ _.
    by rewrite (unique_on_eq nonce t row' row Hu Hr Hin ltac:(congruence)).
Qed.
