(* ===== verification/RateLimits.v ===== *)
(** * Fixed-window rate limits

    [crates/agentkeys-broker-server/src/storage/email_rate_limits.rs] and the
    mint limiter over it, [rate_limit_mints.rs].  A call runs under the store's
    lock, so a call is one step. *)
From S2P Require Import Prelude RustStr StrFacts Sql.

Open Scope Z_scope.

Record RateRow := { bucket_id : string; window_start : Z; hits : Z }.

Inductive RateLimitOutcome :=
| Allowed (remaining : Z)
| RateDenied (retry_after_seconds : Z).

Abbreviation rate_table := (list RateRow).

(** [PRIMARY KEY (bucket_id, window_start)] *)
Definition in_window (b : string) (ws : Z) (r : RateRow) : bool :=
  String.eqb (bucket_id r) b && (window_start r =? ws).

Definition bump (r : RateRow) : RateRow :=
  {| bucket_id := bucket_id r; window_start := window_start r; hits := hits r + 1 |}.

(** [INSERT ... ON CONFLICT(bucket_id, window_start) DO UPDATE SET count = count + 1] *)
Definition upsert (t : rate_table) (b : string) (ws : Z) : rate_table :=
  if existsb (in_window b ws) t then (update_where (in_window b ws) bump t).1
  else (t ++ [{| bucket_id := b; window_start := ws; hits := 1 |}])%list.

(** [(now / window_seconds) * window_seconds], truncated division. *)
Definition window_of (now window : Z) : Z := Z.quot now window * window.

Definition check_and_increment (t : rate_table) (b : string) (now window limit : Z)
    : rate_table * result string RateLimitOutcome :=
  if (window <=? 0) || (limit <=? 0) then (t, Err "invalid rate-limit config")
  else
    let ws := window_of now window in
    let existing := hits <$> select_one (in_window b ws) t in
    let current := default 0 existing in
    if limit <? wrap_i64 (current + 1) then
      let next_window_start := wrap_i64 (ws + window) in
      (t, Ok (RateDenied (Z.max (i64_sub next_window_start now) 1)))
    else
      (upsert t b ws, Ok (Allowed (i64_sub limit (wrap_i64 (current + 1))))).

Definition purge_old_windows (t : rate_table) (now retention : Z) : rate_table * nat :=
  let cutoff := i64_sub now retention in
  delete_where (fun r => window_start r <? cutoff) t.

(** ** The mint limiter *)

Definition HOUR_SECONDS : Z := 3600.
Definition DAY_SECONDS : Z := 86400.
Definition MINT_BUCKET_PREFIX : string := "mints_per_omni_hourly:".
Definition EVM_TX_BUCKET_PREFIX : string := "evm_tx_per_omni_daily:".

Record MintRateLimiter := { mints_per_hour : Z; evm_tx_per_day : Z }.

Definition check_mint (l : MintRateLimiter) (t : rate_table) (omni : string) (now : Z) :=
  check_and_increment t (MINT_BUCKET_PREFIX +:+ omni) now HOUR_SECONDS (mints_per_hour l).

Definition check_evm_tx (l : MintRateLimiter) (t : rate_table) (omni : string) (now : Z) :=
  check_and_increment t (EVM_TX_BUCKET_PREFIX +:+ omni) now DAY_SECONDS (evm_tx_per_day l).

(** ** Many calls *)

Inductive RateOp :=
| RCheck (b : string) (now window limit : Z)
| RMint (omni : string) (now : Z)
| REvm (omni : string) (now : Z)
| RPurge (now retention : Z).

Definition is_allowed (r : result string RateLimitOutcome) : bool :=
  match r with Ok (Allowed _) => true | _ => false end.

(** The bucket, the time, the window and the limit an operation checks. *)
Definition checked (l : MintRateLimiter) (op : RateOp) : option (string * Z * Z * Z) :=
  match op with
  | RCheck b now window limit => Some (b, now, window, limit)
  | RMint omni now => Some (MINT_BUCKET_PREFIX +:+ omni, now, HOUR_SECONDS, mints_per_hour l)
  | REvm omni now => Some (EVM_TX_BUCKET_PREFIX +:+ omni, now, DAY_SECONDS, evm_tx_per_day l)
  | RPurge _ _ => None
  end.

Definition rate_step (l : MintRateLimiter) (t : rate_table) (op : RateOp)
    : rate_table * bool :=
  match op with
  | RCheck b now window limit =>
      let '(t, r) := check_and_increment t b now window limit in (t, is_allowed r)
  | RMint omni now => let '(t, r) := check_mint l t omni now in (t, is_allowed r)
  | REvm omni now => let '(t, r) := check_evm_tx l t omni now in (t, is_allowed r)
  | RPurge now retention => ((purge_old_windows t now retention).1, false)
  end.

(** The operation falls in window [ws] of bucket [b]. *)
Definition falls_in (l : MintRateLimiter) (b : string) (ws : Z) (op : RateOp) : bool :=
  match checked l op with
  | Some (b', now, window, _) => String.eqb b' b && (window_of now window =? ws)
  | None => false
  end.

Fixpoint rate_run (l : MintRateLimiter) (t : rate_table) (ops : list RateOp) : rate_table :=
  match ops with [] => t | op :: ops => rate_run l (rate_step l t op).1 ops end.

(** How many calls of window [ws] of bucket [b] were allowed. *)
Fixpoint allowed_in (l : MintRateLimiter) (b : string) (ws : Z) (t : rate_table)
    (ops : list RateOp) : Z :=
  match ops with
  | [] => 0
  | op :: ops =>
      (if falls_in l b ws op && (rate_step l t op).2 then 1 else 0)
      + allowed_in l b ws (rate_step l t op).1 ops
  end.

(** ** Lemmas *)

Definition hits_of (t : rate_table) (b : string) (ws : Z) : Z :=
  default 0 (hits <$> select_one (in_window b ws) t).

Lemma in_window_spec b ws r : in_window b ws r = true <-> bucket_id r = b /\ window_start r = ws.
Proof. unfold in_window. by rewrite andb_true_iff, String.eqb_eq, Z.eqb_eq. Qed.

Lemma hits_upsert t b ws b' ws' :
  hits_of (upsert t b ws) b' ws' =
  hits_of t b' ws' + (if String.eqb b b' && (ws =? ws') then 1 else 0).
Proof.
  unfold hits_of, upsert.
  assert (Hkey : forall r, in_window b' ws' r = true ->
    in_window b ws r = String.eqb b b' && (ws =? ws')).
  { intros r Hr. apply in_window_spec in Hr as [Hb Hw]. unfold in_window. rewrite Hb, Hw.
    by rewrite String.eqb_sym, Z.eqb_sym. }
  destruct (existsb (in_window b ws) t) eqn:Ex.
  - unfold update_where. cbn [fst]. rewrite select_one_map by (intros r; by destruct (in_window b ws r)).
    destruct (select_one (in_window b' ws') t) as [r|] eqn:E; cbn.
    + apply select_one_some in E as [_ E]. rewrite (Hkey r E). destruct (_ && _); cbn; lia.
    + destruct (String.eqb b b' && (ws =? ws')) eqn:Ek; [|done]. exfalso.
      apply andb_true_iff in Ek as [Hb%String.eqb_eq Hw%Z.eqb_eq]. subst b' ws'.
      apply existsb_elem in Ex as (r & Hr & Hp).
      pose proof (proj1 (select_one_none _ _) E r Hr) as Hn. by rewrite Hn in Hp.
  - rewrite select_one_snoc. destruct (select_one (in_window b' ws') t) as [r|] eqn:E.
    + apply select_one_some in E as [Hr E]. rewrite existsb_none in Ex.
      rewrite <-(Hkey r E), (Ex r Hr). cbn. lia.
    + unfold in_window. cbn [bucket_id window_start]. by destruct (String.eqb b b' && (ws =? ws')).
Qed.

Lemma hits_purge t cutoff b ws : cutoff <= ws ->
  hits_of (delete_where (fun r => window_start r <? cutoff) t).1 b ws = hits_of t b ws.
Proof.
  intros Hc. unfold hits_of, delete_where. cbn [fst]. f_equal. f_equal.
  induction t as [|r t IH]; cbn; [done|].
  destruct (window_start r <? cutoff) eqn:E; cbn; destruct (in_window b ws r) eqn:E'; try done.
  apply in_window_spec in E' as [_ E']. reflect_bools. lia.
Qed.

(** One check, for a count that does not overflow. *)
Lemma check_hits t b now window limit b' ws :
  0 < window -> 0 < limit -> 0 <= hits_of t b (window_of now window) < i64_max ->
  let out := check_and_increment t b now window limit in
  let n := hits_of t b (window_of now window) in
  out.2 = Ok (if limit <=? n then RateDenied (Z.max (i64_sub (wrap_i64 (window_of now window + window)) now) 1)
              else Allowed (i64_sub limit (n + 1))) /\
  hits_of out.1 b' ws = hits_of t b' ws +
    (if is_allowed out.2 && (String.eqb b b' && (window_of now window =? ws)) then 1 else 0).
Proof.
  intros Hw Hl Hn out n. subst out. unfold check_and_increment.
  replace ((window <=? 0) || (limit <=? 0)) with false
    by (symmetry; apply orb_false_iff; rewrite !Z.leb_gt; lia).
  fold (hits_of t b (window_of now window)). fold n in Hn |- *.
  rewrite (wrap_i64_small (n + 1)) by (unfold is_i64, i64_min, i64_max in *; lia).
  destruct (Z.leb_spec limit n).
  - replace (limit <? n + 1) with true by (symmetry; apply Z.ltb_lt; lia).
    cbn [fst snd is_allowed andb]. split; [done|lia].
  - replace (limit <? n + 1) with false by (symmetry; apply Z.ltb_ge; lia). cbn [fst snd is_allowed].
    split; [done|]. by rewrite hits_upsert.
Qed.

(** The run keeps to one window and limit on [b], and purges nothing of [ws]. *)
Definition consistent (l : MintRateLimiter) (b : string) (window limit ws : Z) (op : RateOp) : Prop :=
  match checked l op with
  | Some (b', now, window', limit') => b' = b -> window' = window /\ limit' = limit
  | None => match op with RPurge now retention => i64_sub now retention <= ws | _ => False end
  end.

Lemma check_other t b' now window limit b ws :
  String.eqb b' b && (window_of now window =? ws) = false ->
  hits_of (check_and_increment t b' now window limit).1 b ws = hits_of t b ws.
Proof.
  intros Hne. unfold check_and_increment. destruct (_ || _); [done|].
  destruct (_ <? _); [done|]. cbn [fst]. rewrite hits_upsert, Hne. lia.
Qed.

Lemma rate_step_hits l t op b window limit ws :
  0 < window -> 0 < limit -> limit < i64_max -> consistent l b window limit ws op ->
  0 <= hits_of t b ws <= limit ->
  hits_of (rate_step l t op).1 b ws =
  hits_of t b ws + (if falls_in l b ws op && (rate_step l t op).2 then 1 else 0) /\
  0 <= hits_of (rate_step l t op).1 b ws <= limit /\
  (falls_in l b ws op = true -> (rate_step l t op).2 = (hits_of t b ws <? limit)).
Proof.
  intros Hw Hl Hm Hc Hn.
  assert (Hcheck : forall b' now window' limit',
    checked l op = Some (b', now, window', limit') ->
    rate_step l t op = (let '(t, r) := check_and_increment t b' now window' limit' in (t, is_allowed r)))
    by (intros b' now window' limit' E; destruct op; inversion E; subst; done).
  unfold consistent in Hc. unfold falls_in.
  destruct (checked l op) as [[[[b' now] window'] limit']|] eqn:E.
  - rewrite (Hcheck _ _ _ _ eq_refl).
    destruct (String.eqb b' b && (window_of now window =? ws)) eqn:Ek.
    2:{ pose proof (check_other t b' now window' limit' b ws) as Ho.
        assert (Ek' : String.eqb b' b && (window_of now window' =? ws) = false).
        { destruct (String.eqb_spec b' b) as [Hb|]; [|done]. by destruct (Hc Hb) as [-> _]. }
        specialize (Ho Ek'). rewrite Ek'. destruct (check_and_increment _ _ _ _ _) as [t' r].
        cbn [fst snd andb] in *. split_and!; [lia..|done]. }
    apply andb_true_iff in Ek as [Hb%String.eqb_eq Hws%Z.eqb_eq]. destruct (Hc Hb) as [-> ->].
    subst b' ws. rewrite String.eqb_refl, Z.eqb_refl. cbn [andb].
    destruct (check_hits t b now window limit b (window_of now window)) as [Ho Hh]; [done..|lia|].
    destruct (check_and_increment t b now window limit) as [t' r]. cbn [fst snd] in *.
    rewrite String.eqb_refl, Z.eqb_refl, andb_true_r in Hh. rewrite Hh, Ho.
    destruct (Z.leb_spec limit (hits_of t b (window_of now window))); cbn [is_allowed].
    + split_and!; [lia..|]. intros _. symmetry. apply Z.ltb_ge. lia.
    + split_and!; [lia..|]. intros _. symmetry. apply Z.ltb_lt. lia.
  - destruct op; try done. cbn [rate_step fst snd andb]. unfold purge_old_windows.
    rewrite hits_purge by done. split_and!; [lia..|done].
Qed.

Lemma rate_run_hits l t ops b window limit ws :
  0 < window -> 0 < limit -> limit < i64_max -> Forall (consistent l b window limit ws) ops ->
  0 <= hits_of t b ws <= limit ->
  hits_of (rate_run l t ops) b ws = hits_of t b ws + allowed_in l b ws t ops /\
  0 <= hits_of (rate_run l t ops) b ws <= limit.
Proof.
  intros Hw Hl Hm Hall. revert t.
  induction Hall as [|op ops Hop _ IH]; intros t Hn; cbn [rate_run allowed_in]; [lia|].
  destruct (rate_step_hits l t op b window limit ws Hw Hl Hm Hop Hn) as (Hh & Hb & _).
  destruct (IH _ Hb) as [E Hb']. split; [lia|done].
Qed.

(** Windows of distinct kinds never share a bucket. *)
Lemma mint_evm_buckets_differ omni omni' :
  MINT_BUCKET_PREFIX +:+ omni <> EVM_TX_BUCKET_PREFIX +:+ omni'.
Proof. done. Qed.

(** ** Properties *)

(** The limit is the limit.  Starting from an empty table, after any calls
    on any buckets (those on [b] with the same window and limit) and any purges
    that keep window [ws]: at most [limit] calls of [b] in [ws] were allowed; and
    the next call of that window is allowed exactly when fewer were, reporting
    what remains, and otherwise told to wait for the window's end. *)
Theorem rate_limit_exact (l : MintRateLimiter) (ops : list RateOp) (b : string)
    (window limit now : Z) (ws := window_of now window)
    (Hw : 0 < window) (Hl : 0 < limit < i64_max)
    (Hops : Forall (consistent l b window limit ws) ops) :
  let t := rate_run l [] ops in
  let n := allowed_in l b ws [] ops in
  0 <= n <= limit /\
  (check_and_increment t b now window limit).2 =
    Ok (if limit <=? n then RateDenied (Z.max (i64_sub (wrap_i64 (ws + window)) now) 1)
        else Allowed (limit - n - 1)) /\
  (0 <= now -> now + window <= i64_max ->
   Z.max (i64_sub (wrap_i64 (ws + window)) now) 1 = ws + window - now /\
   0 < ws + window - now <= window).
Proof.
  intros t n.
  destruct (rate_run_hits l [] ops b window limit ws Hw (proj1 Hl) (proj2 Hl) Hops) as [Hn Hb].
  { cbn. lia. }
  assert (hits_of t b ws = n) as Ht by (subst t n; rewrite Hn; cbn; lia).
  assert (0 <= n <= limit) by (fold t in Hb; lia). split; [done|]. split.
  - destruct (check_hits t b now window limit b ws Hw (proj1 Hl)) as [Ho _].
    { fold ws. rewrite Ht. lia. }
    rewrite Ho. fold ws. rewrite Ht. destruct (limit <=? n); [done|].
    unfold i64_sub. rewrite wrap_i64_small; [do 2 f_equal; lia|].
    unfold is_i64, i64_min, i64_max in *. lia.
  - intros Hnow Hmax. unfold ws, window_of.
    rewrite Z.quot_div_nonneg by lia. pose proof (Z.div_mod now window ltac:(lia)).
    pose proof (Z.mod_pos_bound now window Hw).
    assert (now / window * window = now - now mod window) as -> by lia.
    unfold i64_sub. rewrite !wrap_i64_small; [lia|..];
      unfold is_i64, i64_min, i64_max in *; try lia.
    rewrite wrap_i64_small; unfold is_i64, i64_min, i64_max; lia.
Qed.

Example rate_limit_exact_witness :
  let l := {| mints_per_hour := 2; evm_tx_per_day := 5 |} in
  let ops := [RMint "o" 4000; REvm "o" 4000; RPurge 4000 1000; RMint "p" 4001; RMint "o" 4002;
              RMint "o" 4003] in
  0 <= allowed_in l (MINT_BUCKET_PREFIX +:+ "o") 3600 [] ops <= 2 /\
  (check_and_increment (rate_run l [] ops) (MINT_BUCKET_PREFIX +:+ "o") 4010 3600 2).2
    = Ok (RateDenied 3190).
Proof.
  intros l ops.
  destruct (rate_limit_exact l ops (MINT_BUCKET_PREFIX +:+ "o") 3600 2 4010) as (Hn & Hnext & _).
  - lia.
  - unfold i64_max. lia.
  - unfold ops. repeat (apply Forall_cons; split; [first
      [ intros _; split; reflexivity
      | intros E; vm_compute in E; discriminate E
      | vm_compute; discriminate ]|]).
    apply Forall_nil. exact I.
  - split; [exact Hn|]. rewrite Hnext. vm_compute. reflexivity.
Defined.
