(* ===== verification/PairingRequests.v ===== *)
(** * Pairing requests

    [crates/agentkeys-broker-server/src/storage/pairing_requests.rs]: an agent
    opens a request, a master claims it by its code, the agent collects its token
    once, and the master acknowledges the binding.  [claim] and [poll] end in a
    conditional update, which is also an operation of its own: other brokers may
    run theirs between a lookup and its update. *)
From S2P Require Import Prelude RustStr StrFacts Sql.

Open Scope Z_scope.

Definition PAIRING_REQUEST_TTL_SECONDS : Z := 600.
Definition PAIRING_RETRIEVE_WINDOW_SECS : Z := 600.

Record PairingRow := {
  request_id : string;
  pairing_code : string;
  device_pubkey : string;
  pop_sig : string;
  created_at : Z;
  expires_at : Z;
  claimed_at : option Z;
  operator_omni : option string;
  child_omni : option string;
  label : option string;
  requested_scope : option string;
  bound_at : option Z;
  minted_at : option Z;
}.

Abbreviation pairing_table := (list PairingRow).

Inductive PairingClaim :=
| ClaimClaimed (request_id device_pubkey pop_sig : string)
| ClaimNotFoundOrClaimed
| ClaimExpired.

Inductive PairingPoll :=
| PollPending
| PollClaimed (operator_omni child_omni label requested_scope : string)
| PollNotFound
| PollExpired
| PollRetrieveExpired.

Record PendingBinding := {
  pb_request_id : string;
  pb_child_omni : string;
  pb_operator_omni : string;
  pb_label : string;
  pb_requested_scope : string;
  pb_device_pubkey : string;
  pb_pop_sig : string;
  pb_pairing_code : string;
  pb_created_at : Z;
  pb_expires_at : Z;
}.

(** ** Columns *)

Definition open_row (r : PairingRow) : bool := is_none (claimed_at r).
Definition unminted (r : PairingRow) : bool := is_none (minted_at r).
Definition unbound (r : PairingRow) : bool := is_none (bound_at r).
Definition same_device (d : string) (r : PairingRow) : bool :=
  String.eqb (to_lowercase (device_pubkey r)) (to_lowercase d).
Definition owned_by (o : string) (r : PairingRow) : bool :=
  match operator_omni r with Some o' => String.eqb o' o | None => false end.

Definition set_claimed (now : Z) (o c l s : string) (r : PairingRow) : PairingRow :=
  {| request_id := request_id r; pairing_code := pairing_code r;
     device_pubkey := device_pubkey r; pop_sig := pop_sig r;
     created_at := created_at r; expires_at := expires_at r;
     claimed_at := Some now; operator_omni := Some o; child_omni := Some c; label := Some l;
     requested_scope := Some s; bound_at := bound_at r; minted_at := minted_at r |}.

Definition set_minted (at_ : option Z) (r : PairingRow) : PairingRow :=
  {| request_id := request_id r; pairing_code := pairing_code r;
     device_pubkey := device_pubkey r; pop_sig := pop_sig r;
     created_at := created_at r; expires_at := expires_at r;
     claimed_at := claimed_at r; operator_omni := operator_omni r; child_omni := child_omni r;
     label := label r; requested_scope := requested_scope r; bound_at := bound_at r;
     minted_at := at_ |}.

Definition set_bound (now : Z) (r : PairingRow) : PairingRow :=
  {| request_id := request_id r; pairing_code := pairing_code r;
     device_pubkey := device_pubkey r; pop_sig := pop_sig r;
     created_at := created_at r; expires_at := expires_at r;
     claimed_at := claimed_at r; operator_omni := operator_omni r; child_omni := child_omni r;
     label := label r; requested_scope := requested_scope r; bound_at := Some now;
     minted_at := minted_at r |}.

(** ** Opening the database *)

(** The file before the schema is brought up to date: its [user_version], whether
    the table has the [minted_at] column (a missing column reads as NULL), and
    the rows; [CREATE TABLE IF NOT EXISTS] has run. *)
Record PairingDb := { user_version : Z; has_minted_at : bool; rows : pairing_table }.

Definition fresh_db : PairingDb := {| user_version := 0; has_minted_at := true; rows := [] |}.

Definition init_schema (db : PairingDb) : result string PairingDb :=
  let db :=
    if user_version db <? 1 then
      {| user_version := 1; has_minted_at := true;
         rows := (update_where (fun r => is_some (claimed_at r) && unminted r)
                    (fun r => set_minted (claimed_at r) r) (rows db)).1 |}
    else db in
  guard! has_minted_at db
    else "pairing_requests is missing the minted_at column after migration" ;;
  Ok db.

(** ** Operations *)

Definition clashes (a b : PairingRow) : bool :=
  String.eqb (request_id a) (request_id b) || String.eqb (pairing_code a) (pairing_code b).

Definition new_row (rid code device pop : string) (created expires : Z) : PairingRow :=
  {| request_id := rid; pairing_code := code; device_pubkey := device; pop_sig := pop;
     created_at := created; expires_at := expires; claimed_at := None; operator_omni := None;
     child_omni := None; label := None; requested_scope := None; bound_at := None;
     minted_at := None |}.

(** Two statements, not a transaction: the delete stays when the insert fails. *)
Definition issue (t : pairing_table) (rid code device pop : string) (created expires : Z)
    : pairing_table * result string nat :=
  let '(t, superseded) := delete_where (fun r => same_device device r && open_row r) t in
  match insert_unique clashes (new_row rid code device pop created expires) t with
  | None => (t, Err "insert pairing_request")
  | Some t => (t, Ok superseded)
  end.

Definition with_code (code : string) (r : PairingRow) : bool := String.eqb (pairing_code r) code.
Definition with_id (rid : string) (r : PairingRow) : bool := String.eqb (request_id r) rid.

(** The conditional update of [claim], for the fields its lookup read. *)
Definition claim_update (t : pairing_table) (code o c l s : string) (now : Z)
    (rid device pop : string) : pairing_table * PairingClaim :=
  let '(t, rows) := claim_row pairing_code open_row (set_claimed now o c l s) code t in
  (t, if (rows =? 0)%nat then ClaimNotFoundOrClaimed else ClaimClaimed rid device pop).

Definition claim (t : pairing_table) (code o c l s : string) (now : Z)
    : pairing_table * PairingClaim :=
  match select_one (with_code code) t with
  | None => (t, ClaimNotFoundOrClaimed)
  | Some r =>
      if is_some (claimed_at r) then (t, ClaimNotFoundOrClaimed)
      else if expires_at r <? now then (t, ClaimExpired)
      else claim_update t code o c l s now (request_id r) (device_pubkey r) (pop_sig r)
  end.

Definition mintable (rid : string) (r : PairingRow) : bool :=
  with_id rid r && is_some (claimed_at r) && unminted r.

(** The conditional update of [poll], for the fields its lookup read. *)
Definition mint_update (t : pairing_table) (rid : string) (now : Z)
    (o c l s : option string) : pairing_table * PairingPoll :=
  let '(t, won) := update_where (mintable rid) (set_minted (Some now)) t in
  (t, if (won =? 0)%nat then PollRetrieveExpired
      else PollClaimed (default "" o) (default "" c) (default "" l) (default "" s)).

Definition poll (t : pairing_table) (rid device : string) (now : Z)
    : pairing_table * PairingPoll :=
  match select_one (with_id rid) t with
  | None => (t, PollNotFound)
  | Some r =>
      if negb (String.eqb (to_lowercase (device_pubkey r)) (to_lowercase device))
      then (t, PollNotFound)
      else if is_none (claimed_at r) then
        if expires_at r <? now then (t, PollExpired) else (t, PollPending)
      else
        let claimed_ts := default 0 (claimed_at r) in
        if PAIRING_RETRIEVE_WINDOW_SECS <? i64_saturating_sub now claimed_ts
        then (t, PollRetrieveExpired)
        else mint_update t rid now (operator_omni r) (child_omni r) (label r) (requested_scope r)
  end.

(** A NULL in a text column is a row error. *)
Definition binding_of (r : PairingRow) : option PendingBinding :=
  c ← child_omni r; o ← operator_omni r; l ← label r; s ← requested_scope r;
  Some {| pb_request_id := request_id r; pb_child_omni := c; pb_operator_omni := o;
          pb_label := l; pb_requested_scope := s; pb_device_pubkey := device_pubkey r;
          pb_pop_sig := pop_sig r; pb_pairing_code := pairing_code r;
          pb_created_at := created_at r; pb_expires_at := expires_at r |}.

Definition pending_rows (t : pairing_table) (o : string) : list PairingRow :=
  order_by (fun r => default 0 (claimed_at r))
    (select_all (fun r => owned_by o r && is_some (claimed_at r) && unbound r) t).

Definition pending_bindings (t : pairing_table) (o : string) : result string (list PendingBinding) :=
  ok_or "row pending_bindings" (mapM binding_of (pending_rows t o)).

Definition mark_bound (t : pairing_table) (rid o : string) (now : Z) : pairing_table * nat :=
  update_where (fun r => with_id rid r && owned_by o r && is_some (claimed_at r) && unbound r)
    (set_bound now) t.

Definition decline (t : pairing_table) (rid o : string) : pairing_table * nat :=
  delete_where (fun r => with_id rid r && owned_by o r && unbound r) t.

Definition purge_expired (t : pairing_table) (now retention : Z) : pairing_table * nat :=
  let cutoff := i64_sub now retention in
  delete_where (fun r => (expires_at r <? cutoff) && open_row r) t.

(** ** The store as a state machine *)

Inductive PairingOp :=
| OpIssue (rid code device pop : string) (created expires : Z)
| OpClaim (code o c l s : string) (now : Z)
| OpClaimUpdate (code o c l s : string) (now : Z) (rid device pop : string)
| OpPoll (rid device : string) (now : Z)
| OpMintUpdate (rid : string) (now : Z) (o c l s : option string)
| OpMarkBound (rid o : string) (now : Z)
| OpDecline (rid o : string)
| OpPurge (now retention : Z).

Definition pairing_step (t : pairing_table) (op : PairingOp) : pairing_table :=
  match op with
  | OpIssue rid code device pop created expires => (issue t rid code device pop created expires).1
  | OpClaim code o c l s now => (claim t code o c l s now).1
  | OpClaimUpdate code o c l s now rid device pop => (claim_update t code o c l s now rid device pop).1
  | OpPoll rid device now => (poll t rid device now).1
  | OpMintUpdate rid now o c l s => (mint_update t rid now o c l s).1
  | OpMarkBound rid o now => (mark_bound t rid o now).1
  | OpDecline rid o => (decline t rid o).1
  | OpPurge now retention => (purge_expired t now retention).1
  end.

(** What can be won: the token of a request, the claim of a code. *)
Inductive PairingKey := Ticket (rid : string) | Code (code : string).

Definition claim_won (o : PairingClaim) : bool :=
  match o with ClaimClaimed _ _ _ => true | _ => false end.
Definition mint_won (o : PairingPoll) : bool :=
  match o with PollClaimed _ _ _ _ => true | _ => false end.

Definition pairing_issues (t : pairing_table) (op : PairingOp) (k : PairingKey) : nat :=
  match op with
  | OpIssue rid code device pop created expires =>
      b2n (match k with Ticket r => String.eqb rid r | Code c => String.eqb code c end
           && is_ok (issue t rid code device pop created expires).2)
  | _ => 0
  end.

Definition pairing_wins (t : pairing_table) (op : PairingOp) (k : PairingKey) : nat :=
  match op, k with
  | OpClaim code o c l s now, Code k =>
      b2n (String.eqb code k && claim_won (claim t code o c l s now).2)
  | OpClaimUpdate code o c l s now rid device pop, Code k =>
      b2n (String.eqb code k && claim_won (claim_update t code o c l s now rid device pop).2)
  | OpPoll rid device now, Ticket k => b2n (String.eqb rid k && mint_won (poll t rid device now).2)
  | OpMintUpdate rid now o c l s, Ticket k =>
      b2n (String.eqb rid k && mint_won (mint_update t rid now o c l s).2)
  | _, _ => 0
  end.

Definition key_free (k : PairingKey) : PairingRow -> bool :=
  match k with
  | Ticket rid => free_of request_id unminted rid
  | Code code => free_of pairing_code open_row code
  end.

Definition pairing_live (t : pairing_table) (k : PairingKey) : nat := count (key_free k) t.

(** ** Lemmas *)

Lemma claim_update_table t code o c l s now rid device pop :
  (claim_update t code o c l s now rid device pop).1 =
  (claim_row pairing_code open_row (set_claimed now o c l s) code t).1.
Proof. unfold claim_update. by destruct (claim_row _ _ _ code t). Qed.

Lemma mint_update_table t rid now o c l s :
  (mint_update t rid now o c l s).1 = (update_where (mintable rid) (set_minted (Some now)) t).1.
Proof. done. Qed.

Lemma claim_update_law t code o c l s now rid device pop k :
  (b2n (match k with Code k => String.eqb code k | Ticket _ => false end
        && claim_won (claim_update t code o c l s now rid device pop).2)
   + pairing_live (claim_update t code o c l s now rid device pop).1 k <= pairing_live t k)%nat.
Proof.
  rewrite claim_update_table. unfold pairing_live. destruct k as [k|k]; cbn [key_free andb].
  - cbn [b2n Nat.add]. unfold claim_row. rewrite count_update_same; [done|]. by intros r _ _.
  - pose proof (claim_live pairing_code open_row (set_claimed now o c l s)
      (fun r => eq_refl) (fun r => eq_refl) k code t) as Hc.
    unfold claim_update. destruct (claim_row _ _ _ code t) as [t' n]. cbn [fst snd] in *.
    by destruct (n =? 0)%nat.
Qed.

Lemma mint_update_law t rid now o c l s k :
  (b2n (match k with Ticket k => String.eqb rid k | Code _ => false end
        && mint_won (mint_update t rid now o c l s).2)
   + pairing_live (mint_update t rid now o c l s).1 k <= pairing_live t k)%nat.
Proof.
  rewrite mint_update_table. unfold pairing_live. destruct k as [k|k]; cbn [key_free andb].
  2:{ cbn [b2n Nat.add]. rewrite count_update_same; [done|]. by intros r _ _. }
  destruct (String.eqb_spec rid k) as [<-|Hne]; cbn [andb].
  - pose proof (count_update_out (mintable rid) (set_minted (Some now))
      (free_of request_id unminted rid) t) as Hc. rewrite <-Hc.
    2:{ intros r _ Hr. unfold mintable, with_id in Hr. unfold free_of. cbn.
        rewrite andb_false_r. reflect_bools. subst. by rewrite String.eqb_refl. }
    unfold mint_update. destruct (update_where (mintable rid) _ t) as [t' n]. cbn [fst snd].
    destruct (Nat.eqb_spec n 0); cbn; lia.
  - cbn [b2n Nat.add]. rewrite count_update_same; [done|]. intros r _ Hr.
    unfold mintable, with_id in Hr. unfold free_of. cbn. reflect_bools. subst.
    by apply String.eqb_neq in Hne as ->.
Qed.

Lemma pairing_law t op k :
  (pairing_wins t op k + pairing_live (pairing_step t op) k
   <= pairing_issues t op k + pairing_live t k)%nat.
Proof.
  destruct op as [rid code device pop created expires|code o c l s now
    |code o c l s now rid device pop|rid device now|rid now o c l s|rid o now|rid o|now ret];
    cbn [pairing_wins pairing_step pairing_issues].
  - unfold issue. destruct (delete_where _ t) as [t' n] eqn:Ed.
    assert (Hd : (pairing_live t' k <= pairing_live t k)%nat).
    { pose proof (count_delete_le (key_free k) (fun r => same_device device r && open_row r) t) as H.
      by rewrite Ed in H. }
    destruct (insert_unique _ _ t') as [t2|] eqn:E; cbn [fst snd is_ok].
    + apply insert_unique_some in E as [-> _]. unfold pairing_live in *.
      rewrite count_app, count_cons, andb_true_r. change (count (key_free k) []) with 0%nat.
      destruct k as [k|k]; cbn [key_free] in *; unfold free_of at 2;
        cbn [new_row request_id pairing_code unminted open_row minted_at claimed_at is_none is_some negb];
        rewrite andb_true_r; lia.
    + lia.
  - unfold claim. assert (Hno : forall o, claim_won o = false ->
      ((match k with Ticket _ => 0 | Code k => b2n (String.eqb code k && claim_won o) end)
        + pairing_live t k <= 0 + pairing_live t k)%nat).
    { intros out ->. destruct k; [lia|]. rewrite andb_false_r. cbn [b2n]. lia. }
    destruct (select_one _ t) as [r|]; [|by apply Hno].
    destruct (is_some _); [by apply Hno|]. destruct (_ <? _); [by apply Hno|].
    pose proof (claim_update_law t code o c l s now (request_id r) (device_pubkey r) (pop_sig r) k).
    destruct k; cbn [b2n andb] in *; lia.
  - pose proof (claim_update_law t code o c l s now rid device pop k). destruct k; cbn [b2n andb] in *; lia.
  - unfold poll. assert (Hno : forall o, mint_won o = false ->
      ((match k with Ticket k => b2n (String.eqb rid k && mint_won o) | Code _ => 0 end)
        + pairing_live t k <= 0 + pairing_live t k)%nat).
    { intros out ->. destruct k; [|lia]. rewrite andb_false_r. cbn [b2n]. lia. }
    destruct (select_one _ t) as [r|]; [|by apply Hno].
    destruct (negb _); [by apply Hno|].
    destruct (is_none _); [destruct (_ <? _); by apply Hno|]. destruct (_ <? _); [by apply Hno|].
    pose proof (mint_update_law t rid now (operator_omni r) (child_omni r) (label r) (requested_scope r) k).
    destruct k; cbn [b2n andb] in *; lia.
  - pose proof (mint_update_law t rid now o c l s k). destruct k; cbn [b2n andb] in *; lia.
  - unfold mark_bound, pairing_live. rewrite count_update_same; [destruct k; lia|].
    intros r _ _. by destruct k.
  - unfold decline, pairing_live. destruct k; apply count_delete_le.
  - unfold purge_expired, pairing_live. destruct k; apply count_delete_le.
Qed.

#[export] Instance pairing : OneShot pairing_table PairingOp PairingKey := {|
  os_step := pairing_step;
  os_issues := pairing_issues;
  os_wins := pairing_wins;
  os_live := pairing_live;
  os_law := pairing_law;
|}.

(** ** Well-formed tables *)

(** A row is open, or carries everything its claim assigned; only claimed rows
    are minted or bound. *)
Definition row_ok (r : PairingRow) : Prop :=
  match claimed_at r with
  | None => operator_omni r = None /\ child_omni r = None /\ label r = None /\
            requested_scope r = None /\ minted_at r = None /\ bound_at r = None
  | Some _ => is_Some (operator_omni r) /\ is_Some (child_omni r) /\ is_Some (label r) /\
              is_Some (requested_scope r)
  end.

(** Ids and codes are unique; a device has at most one open request. *)
Record pairing_wf (t : pairing_table) : Prop := {
  wf_ids : unique_on request_id t;
  wf_codes : unique_on pairing_code t;
  wf_rows : forall r, r ∈ t -> row_ok r;
  wf_open : unique_on (fun r => to_lowercase (device_pubkey r)) (List.filter open_row t);
}.

Lemma filter_filter_comm {R} (p q : R -> bool) (t : list R) :
  List.filter p (List.filter q t) = List.filter q (List.filter p t).
Proof.
  induction t as [|r t IH]; [done|]. cbn.
  destruct (p r) eqn:Ep, (q r) eqn:Eq; cbn; rewrite ?Ep, ?Eq, IH; done.
Qed.

Lemma wf_delete p t : pairing_wf t -> pairing_wf (delete_where p t).1.
Proof.
  intros [Hi Hc Hr Ho]. split.
  - by apply unique_on_filter.
  - by apply unique_on_filter.
  - intros r [Hin _]%elem_of_delete. by apply Hr.
  - unfold delete_where. cbn [fst]. rewrite filter_filter_comm. by apply unique_on_filter.
Qed.

(** An update that keeps ids, codes and devices, and opens nothing. *)
Lemma wf_update p f t :
  (forall r, request_id (f r) = request_id r) -> (forall r, pairing_code (f r) = pairing_code r) ->
  (forall r, device_pubkey (f r) = device_pubkey r) ->
  (forall r, r ∈ t -> p r = true -> row_ok r -> row_ok (f r)) ->
  (forall r, open_row (f r) = true -> open_row r = true) ->
  pairing_wf t -> pairing_wf (update_where p f t).1.
Proof.
  intros Hid Hcode Hdev Hok Hopen [Hi Hc Hr Ho]. split.
  - apply unique_on_map; [|done]. intros r. destruct (p r); auto.
  - apply unique_on_map; [|done]. intros r. destruct (p r); auto.
  - intros r (r0 & Hr0 & ->)%elem_of_update. destruct (p r0) eqn:E; auto.
  - unfold update_where. cbn [fst]. clear Hi Hc Hr Hok. unfold unique_on in *.
    induction t as [|r t IH]; [done|]. cbn [List.filter map] in *.
    assert (Hsub : forall x, x ∈ map (fun r => to_lowercase (device_pubkey r))
        (List.filter open_row (map (fun r => if p r then f r else r) t)) ->
      x ∈ map (fun r => to_lowercase (device_pubkey r)) (List.filter open_row t)).
    { intros x (y & -> & [Hy (r0 & -> & Hr0)%list_elem_of_fmap]%elem_of_filterb)%list_elem_of_fmap.
      apply list_elem_of_fmap. exists r0. rewrite elem_of_filterb.
      destruct (p r0); rewrite ?Hdev; auto. }
    destruct (open_row r) eqn:E; cbn [map] in *.
    + apply NoDup_cons in Ho as [Hn Ho]. destruct (open_row (if p r then f r else r)); [|by apply IH].
      cbn [map]. apply NoDup_cons. split; [|by apply IH].
      replace (device_pubkey (if p r then f r else r)) with (device_pubkey r)
        by (by destruct (p r)). intros Hin. by apply Hn, Hsub.
    + replace (open_row (if p r then f r else r)) with false; [by apply IH|].
      destruct (p r); [|done]. symmetry. apply not_true_iff_false. intros H. apply Hopen in H. congruence.
Qed.

Lemma wf_issue t rid code device pop created expires :
  pairing_wf t -> pairing_wf (issue t rid code device pop created expires).1.
Proof.
  intros Hwf. unfold issue.
  pose proof (wf_delete (fun r => same_device device r && open_row r) t Hwf) as Hwf'.
  assert (Hnone : forall r, r ∈ (delete_where (fun r => same_device device r && open_row r) t).1 ->
    open_row r = true -> same_device device r = false).
  { intros r [_ Hp]%elem_of_delete Hr. by rewrite Hr, andb_true_r in Hp. }
  destruct (delete_where _ t) as [t' n]. cbn [fst] in *.
  destruct (insert_unique _ _ t') as [t2|] eqn:E; cbn [fst]; [|done].
  apply insert_unique_some in E as [-> Hc]. destruct Hwf' as [Hi Hcd Hr Ho]. split.
  - apply unique_on_snoc; [done|]. intros r Hin Eq. specialize (Hc r Hin).
    unfold clashes in Hc. apply orb_false_iff in Hc as [Hc _]. apply String.eqb_neq in Hc. by rewrite Eq in Hc.
  - apply unique_on_snoc; [done|]. intros r Hin Eq. specialize (Hc r Hin).
    unfold clashes in Hc. apply orb_false_iff in Hc as [_ Hc]. apply String.eqb_neq in Hc. by rewrite Eq in Hc.
  - intros r [Hin| ->%list_elem_of_singleton]%elem_of_app; [by apply Hr | by split_and!].
  - rewrite List.filter_app. cbn. apply unique_on_snoc; [done|].
    intros r [Hop Hin]%elem_of_filterb Eq. specialize (Hnone r Hin Hop).
    unfold same_device in Hnone. apply String.eqb_neq in Hnone. by rewrite Eq in Hnone.
Qed.

Lemma wf_step t op : pairing_wf t -> pairing_wf (pairing_step t op).
Proof.
  intros Hwf.
  assert (Hclaim : forall code o c l s now, pairing_wf
    (claim_row pairing_code open_row (set_claimed now o c l s) code t).1).
  { intros code o c l s now. by apply wf_update. }
  assert (Hmint : forall rid now, pairing_wf (update_where (mintable rid) (set_minted (Some now)) t).1).
  { intros rid now. apply wf_update; try done. intros r _ Hp Hok. unfold row_ok in *. cbn.
    unfold mintable in Hp. reflect_bools. by destruct (claimed_at r). }
  destruct op as [rid code device pop created expires|code o c l s now
    |code o c l s now rid device pop|rid device now|rid now o c l s|rid o now|rid o|now ret];
    cbn [pairing_step].
  - by apply wf_issue.
  - unfold claim. destruct (select_one _ t); [|done]. destruct (is_some _); [done|].
    destruct (_ <? _); [done|]. by rewrite claim_update_table.
  - by rewrite claim_update_table.
  - unfold poll. destruct (select_one _ t); [|done]. destruct (negb _); [done|].
    destruct (is_none _); [by destruct (_ <? _)|]. destruct (_ <? _); [done|]. by rewrite mint_update_table.
  - by rewrite mint_update_table.
  - apply wf_update; try done. intros r _ Hp Hok. unfold row_ok in *. cbn.
    reflect_bools. by destruct (claimed_at r).
  - by apply wf_delete.
  - by apply wf_delete.
Qed.

Lemma wf_run ops : forall t, pairing_wf t -> pairing_wf (os_run t ops).
Proof. apply (os_invariant pairing_wf). intros. by apply wf_step. Qed.

Lemma wf_init db db' : init_schema db = Ok db' -> pairing_wf (rows db) -> pairing_wf (rows db').
Proof.
  unfold init_schema. intros [_ [= <-]]%guard_ok Hwf. destruct (_ <? _); [|done]. cbn [rows].
  apply wf_update; try done. intros r _ Hp Hok. unfold row_ok in *. cbn.
  reflect_bools. by destruct (claimed_at r).
Qed.

Lemma wf_empty : pairing_wf [].
Proof. split; try constructor. by intros r Hr%elem_of_nil. Qed.

(** After the migration a claimed request is used up. *)
Lemma init_consumed db db' r : init_schema db = Ok db' -> user_version db < 1 ->
  pairing_wf (rows db) -> r ∈ rows db -> is_some (claimed_at r) = true ->
  pairing_live (rows db') (Ticket (request_id r)) = 0%nat.
Proof.
  unfold init_schema. intros [_ [= <-]]%guard_ok Hv Hwf Hr Hc.
  apply Z.ltb_lt in Hv. rewrite Hv. cbn [rows]. apply count_zero.
  intros r' (r0 & Hr0 & ->)%elem_of_update. cbn [key_free]. unfold free_of.
  destruct (String.eqb _ _) eqn:Eid; [|done]. apply String.eqb_eq in Eid. cbn [andb].
  assert (r0 = r) as ->.
  { apply (unique_on_eq request_id (rows db)); [apply Hwf | done | done |].
    by destruct (is_some (claimed_at r0) && unminted r0). }
  rewrite Hc. cbn [andb]. destruct (unminted r) eqn:Em; [|done].
  cbn. by destruct (claimed_at r).
Qed.

Lemma poll_claimed_iff t rid device now o c l s : pairing_wf t ->
  (poll t rid device now).2 = PollClaimed o c l s <->
  exists r ts, r ∈ t /\ request_id r = rid /\
    to_lowercase (device_pubkey r) = to_lowercase device /\
    claimed_at r = Some ts /\ i64_saturating_sub now ts <= PAIRING_RETRIEVE_WINDOW_SECS /\
    minted_at r = None /\ operator_omni r = Some o /\ child_omni r = Some c /\ label r = Some l /\
    requested_scope r = Some s.
Proof.
  intros Hwf. unfold poll. split.
  - destruct (select_one _ t) as [r|] eqn:E; [|done].
    apply select_one_some in E as [Hin Hid]. unfold with_id in Hid.
    destruct (negb _) eqn:Ed; [done|]. destruct (claimed_at r) as [ts|] eqn:Ec; cbn [is_none is_some negb].
    2:{ by destruct (_ <? _). }
    cbn [default]. destruct (_ <? _) eqn:Ew; [done|]. reflect_bools.
    unfold mint_update. destruct (update_where (mintable rid) _ t) as [t' n] eqn:Eu. cbn [snd].
    destruct (Nat.eqb_spec n 0) as [|Hn]; [done|]. intros Ho.
    assert (Hm : minted_at r = None).
    { assert (0 < count (mintable rid) t)%nat as (r' & Hr' & Hp)%count_pos
        by (unfold update_where in Eu; injection Eu as _ <-; unfold count; lia).
      unfold mintable, with_id in Hp. reflect_bools.
      assert (r' = r) as -> by (eapply (unique_on_eq request_id); [apply Hwf|done|done|congruence]).
      unfold unminted in *. by apply is_none_true. }
    destruct Hwf as [_ _ Hrows _]. specialize (Hrows r Hin). unfold row_ok in Hrows.
    rewrite Ec in Hrows. destruct Hrows as ([o' Eo] & [c' Ech] & [l' El] & [s' Es]).
    rewrite Eo, Ech, El, Es in Ho. cbn in Ho. exists r, ts. split_and!; try done; congruence.
  - intros (r & ts & Hin & Hid & Hdev & Hc & Hw & Hm & Ho & Hch & Hl & Hs).
    destruct (select_one (with_id rid) t) as [r'|] eqn:E.
    2:{ rewrite select_one_none in E. specialize (E r Hin). unfold with_id in E.
        by rewrite Hid, String.eqb_refl in E. }
    apply select_one_some in E as [Hin' Hid']. unfold with_id in Hid'. apply String.eqb_eq in Hid'.
    assert (r' = r) as -> by (eapply (unique_on_eq request_id); [apply Hwf|done|done|congruence]).
    rewrite Hdev, String.eqb_refl, Hc. cbn [negb is_none is_some default].
    replace (_ <? _) with false by (symmetry; by apply Z.ltb_ge).
    unfold mint_update. cbn [update_where]. fold (count (mintable rid) t).
    replace (count (mintable rid) t =? 0)%nat with false.
    2:{ symmetry. apply Nat.eqb_neq. enough (0 < count (mintable rid) t)%nat by lia.
        apply count_pos. exists r. split; [done|]. unfold mintable, with_id, unminted.
        by rewrite Hid, String.eqb_refl, Hc, Hm. }
    cbn [snd]. by rewrite Ho, Hch, Hl, Hs.
Qed.

(** ** Properties *)

(** C40: pairing tables stay well formed.  From a well-formed database (an empty
    one in particular) the migration and every operation, also halves of
    operations of other brokers, keep ids and codes unique, keep claims complete,
    mint and bind only claimed rows, and leave a device at most one open request
    whatever the letter case of its key; the pending list of an operator never
    fails, and is exactly his claimed, unbound rows, oldest claim first. *)
Theorem pairing_well_formed (db db' : PairingDb) (ops : list PairingOp) (o : string)
    (Hopen : init_schema db = Ok db') (Hdb : pairing_wf (rows db)) :
  let t := os_run (rows db') ops in
  pairing_wf t /\
  exists bindings, pending_bindings t o = Ok bindings /\
    map pb_request_id bindings = map request_id (pending_rows t o) /\
    Forall (fun b => pb_operator_omni b = o) bindings /\
    StronglySorted (fun a b => default 0 (claimed_at a) <= default 0 (claimed_at b)) (pending_rows t o) /\
    (forall r, r ∈ pending_rows t o <->
       r ∈ t /\ operator_omni r = Some o /\ is_Some (claimed_at r) /\ bound_at r = None).
Proof.
  intros t. assert (Hwf : pairing_wf t) by (apply wf_run; by eapply wf_init). split; [done|].
  assert (Hrows : forall r, r ∈ pending_rows t o <->
      r ∈ t /\ operator_omni r = Some o /\ is_Some (claimed_at r) /\ bound_at r = None).
  { intros r. unfold pending_rows, select_all. rewrite order_by_perm, elem_of_filterb.
    rewrite !andb_true_iff. unfold owned_by, unbound. rewrite is_none_true.
    rewrite is_some_true. destruct (operator_omni r) as [o'|]; [rewrite String.eqb_eq|]; unfold is_Some;
      naive_solver. }
  assert (Hb : forall l, (forall r, r ∈ l -> r ∈ pending_rows t o) -> exists bs,
    Forall2 (fun r b => binding_of r = Some b) l bs /\ map pb_request_id bs = map request_id l /\
    Forall (fun b => pb_operator_omni b = o) bs).
  { induction l as [|r l IH]; intros Hl; [by exists []|].
    destruct IH as (bs & Hbs & Hids & Hown); [set_solver|].
    destruct (proj1 (Hrows r) (Hl r ltac:(set_solver))) as (Hin & Ho & [ts Hc] & _).
    destruct Hwf as [_ _ Hok _]. specialize (Hok r Hin). unfold row_ok in Hok. rewrite Hc in Hok.
    destruct Hok as (_ & [c Hch] & [lb Hlb] & [s Hs]).
    eexists (_ :: bs). split_and!.
    - constructor; [|done]. unfold binding_of. by rewrite Ho, Hch, Hlb, Hs.
    - cbn. by rewrite Hids.
    - by constructor. }
  destruct (Hb (pending_rows t o) ltac:(done)) as (bs & Hbs & Hids & Hown).
  exists bs. unfold pending_bindings. apply mapM_Some_2 in Hbs. rewrite Hbs. split_and!; try done. apply order_by_sorted.
Qed.

(** One claim and one token.  Under any interleaving of operations and of
    halves of operations, a code is claimed, and a request collects its token, at
    most as often as it was issued or still open when the database was opened;
    a request that was already claimed in a database from before the migration
    never collects at all. *)
Theorem pairing_single_use (db db' : PairingDb) (ops : list PairingOp) (k : PairingKey)
    (Hopen : init_schema db = Ok db') (Hdb : pairing_wf (rows db)) :
  (run_wins (rows db') ops k <= run_issues (rows db') ops k + pairing_live (rows db') k)%nat /\
  (pairing_live (rows db') k <= 1)%nat /\
  (forall r, user_version db < 1 -> r ∈ rows db -> is_some (claimed_at r) = true ->
     (run_wins (rows db') ops (Ticket (request_id r))
      <= run_issues (rows db') ops (Ticket (request_id r)))%nat).
Proof.
  split_and!.
  - pose proof (os_bound (rows db') ops k) as Hb. cbn [os_live pairing] in Hb. lia.
  - pose proof (wf_init _ _ Hopen Hdb) as [Hi Hc _ _]. unfold pairing_live.
    assert (Hone : forall key free x, unique_on key (rows db') ->
      (count (free_of key free x) (rows db') <= 1)%nat).
    { intros key free x Hu. unfold unique_on in Hu. clear -Hu.
      induction (rows db') as [|r t IH]; [cbn; lia|]. rewrite count_cons.
      cbn [map] in Hu. apply NoDup_cons in Hu as [Hn Hu]. specialize (IH Hu).
      unfold free_of at 1. destruct (String.eqb_spec (key r) x) as [<-|]; cbn [andb b2n]; [|lia].
      replace (count (free_of key free (key r)) t) with 0%nat; [destruct (free r); cbn; lia|].
      symmetry. apply count_zero. intros r' Hr'. unfold free_of.
      destruct (String.eqb_spec (key r') (key r)) as [E|]; [|done].
      exfalso. apply Hn. rewrite <-E. apply list_elem_of_fmap. by exists r'. }
    destruct k; by apply Hone.
  - intros r Hv Hr Hc. pose proof (os_bound (rows db') ops (Ticket (request_id r))) as Hb.
    cbn [os_live pairing] in Hb. rewrite (init_consumed db db' r Hopen Hv Hdb Hr Hc) in Hb. lia.
Qed.

(** Who collects a token, and when.  In a well-formed table a poll yields
    the token exactly for the request with that id, from the device that opened it,
    claimed at most ten minutes ago and not yet collected, and it names what the
    claim assigned; the same poll a second time, at whatever hour, yields nothing;
    and a claim that succeeds gives the request, still open and in time, to the
    claiming operator. *)
Theorem pairing_token_spec (t : pairing_table) (rid device : string) (now : Z) (o c l s : string)
    (Hwf : pairing_wf t) :
  ((poll t rid device now).2 = PollClaimed o c l s <->
   exists r ts, r ∈ t /\ request_id r = rid /\
     to_lowercase (device_pubkey r) = to_lowercase device /\
     claimed_at r = Some ts /\ i64_saturating_sub now ts <= PAIRING_RETRIEVE_WINDOW_SECS /\
     minted_at r = None /\ operator_omni r = Some o /\ child_omni r = Some c /\ label r = Some l /\
     requested_scope r = Some s) /\
  ((poll t rid device now).2 = PollClaimed o c l s ->
   forall device' now', mint_won (poll (poll t rid device now).1 rid device' now').2 = false) /\
  (forall code now' rid' device' pop, (claim t code o c l s now').2 = ClaimClaimed rid' device' pop ->
   exists r, r ∈ t /\ pairing_code r = code /\ claimed_at r = None /\ now' <= expires_at r /\
     request_id r = rid' /\ device_pubkey r = device' /\ pop_sig r = pop /\
     set_claimed now' o c l s r ∈ (claim t code o c l s now').1).
Proof.
  split; [by apply poll_claimed_iff|]. split.
  - intros Hwon device' now'. assert (Hw1 : mint_won (poll t rid device now).2 = true) by by rewrite Hwon.
    assert (Hlive : (pairing_live t (Ticket rid) <= 1)%nat).
    { apply poll_claimed_iff in Hwon as (r & ts & Hin & Hid & _); [|done].
      destruct Hwf as [Hi _ _ _]. unfold pairing_live. cbn [key_free]. unfold unique_on in Hi.
      apply list_elem_of_split in Hin as (l1 & l2 & ->). rewrite map_app in Hi. cbn [map] in Hi.
      apply NoDup_app in Hi as (_ & Hd & Hn). apply NoDup_cons in Hn as [Hn _].
      rewrite count_app, count_cons.
      assert (forall x, x ∈ l1 \/ x ∈ l2 -> free_of request_id unminted rid x = false) as Hz.
      { intros x Hx. unfold free_of. destruct (String.eqb_spec (request_id x) rid) as [E|]; [|done].
        exfalso. destruct Hx as [Hx|Hx].
        - apply (Hd (request_id x)); [by apply list_elem_of_fmap; exists x | rewrite E, <-Hid; set_solver].
        - apply Hn. rewrite Hid, <-E. apply list_elem_of_fmap. by exists x. }
      rewrite !(proj2 (count_zero _ _)) by (intros; apply Hz; auto).
      pose proof (b2n_le_1 (free_of request_id unminted rid r)). lia. }
    pose proof (os_bound t [OpPoll rid device now; OpPoll rid device' now'] (Ticket rid)) as Hb.
    cbn [run_wins run_issues os_wins os_issues os_step os_live os_run pairing pairing_wins
      pairing_step pairing_issues] in Hb.
    rewrite Hw1, String.eqb_refl in Hb. cbn [andb b2n] in Hb.
    destruct (mint_won (poll (poll t rid device now).1 rid device' now').2); [cbn [b2n] in Hb; lia | done].
  - intros code now' rid' device' pop. unfold claim.
    destruct (select_one (with_code code) t) as [r|] eqn:E; [|done].
    apply select_one_some in E as [Hin Hcode]. unfold with_code in Hcode.
    destruct (claimed_at r) eqn:Ec; [done|]. cbn [is_some].
    destruct (_ <? _) eqn:Ee; [done|]. reflect_bools. unfold claim_update.
    destruct (claim_row _ _ _ code t) as [t' n] eqn:Eu. cbn [fst snd].
    destruct (n =? 0)%nat; [done|]. intros [= <- <- <-]. exists r. split_and!; try done.
    assert (t' = (claim_row pairing_code open_row (set_claimed now' o c l s) code t).1) as -> by by rewrite Eu.
    apply elem_of_update. exists r. split; [done|]. unfold free_of, open_row.
    by rewrite Hcode, String.eqb_refl, Ec.
Qed.

(** ** Witnesses *)

Definition demo_ops : list PairingOp :=
  [OpIssue "r0" "1111" "0xAB" "sig" 90 690; OpIssue "r1" "1234" "0xab" "sig" 100 700;
   OpClaim "1234" "op" "child" "lamp" "memory" 150; OpPoll "r1" "0xAB" 160; OpPoll "r1" "0xAB" 161].

(** A database from before the migration, with one request already claimed. *)
Definition legacy_db : PairingDb :=
  {| user_version := 0; has_minted_at := false;
     rows := [set_claimed 50 "op" "c" "l" "s" (new_row "old" "9999" "0xcd" "sig" 10 610)] |}.

Definition migrated_db : PairingDb :=
  {| user_version := 1; has_minted_at := true; rows := map (set_minted (Some 50)) (rows legacy_db) |}.

Lemma wf_legacy : pairing_wf (rows legacy_db).
Proof.
  split; try apply NoDup_singleton.
  - intros r ->%list_elem_of_singleton. by split_and!; eexists.
  - constructor.
Qed.

Example pairing_well_formed_witness :
  pairing_wf (os_run (rows migrated_db) demo_ops) /\
  map request_id (pending_rows (os_run (rows migrated_db) demo_ops) "op") = ["old"; "r1"].
Proof.
  split; [|vm_compute; reflexivity].
  exact (proj1 (pairing_well_formed legacy_db migrated_db demo_ops "op" eq_refl wf_legacy)).
Defined.

Example pairing_single_use_witness :
  run_wins (rows migrated_db) demo_ops (Ticket "r1") = 1%nat /\
  (run_wins (rows migrated_db) (demo_ops ++ [OpPoll "old" "0xcd" 60]) (Ticket "old")
   <= run_issues (rows migrated_db) (demo_ops ++ [OpPoll "old" "0xcd" 60]) (Ticket "old"))%nat.
Proof.
  split; [vm_compute; reflexivity|].
  apply (proj2 (proj2 (pairing_single_use legacy_db migrated_db
    (demo_ops ++ [OpPoll "old" "0xcd" 60])%list (Ticket "old") eq_refl wf_legacy))
    (set_claimed 50 "op" "c" "l" "s" (new_row "old" "9999" "0xcd" "sig" 10 610))).
  - reflexivity.
  - apply list_elem_of_singleton. reflexivity.
  - reflexivity.
Defined.

Example pairing_token_spec_witness :
  let t := os_run [] (take 3 demo_ops) in
  (poll t "r1" "0xAB" 160).2 = PollClaimed "op" "child" "lamp" "memory" /\
  exists r ts, r ∈ t /\ request_id r = "r1" /\
    to_lowercase (device_pubkey r) = to_lowercase "0xAB" /\ claimed_at r = Some ts /\
    i64_saturating_sub 160 ts <= PAIRING_RETRIEVE_WINDOW_SECS.
Proof.
  intros t. split; [vm_compute; reflexivity|].
  assert (Hwf : pairing_wf t) by (apply wf_run; exact wf_empty).
  destruct (proj1 (proj1 (pairing_token_spec t "r1" "0xAB" 160 "op" "child" "lamp" "memory" Hwf)))
    as (r & ts & Hin & Hid & Hd & Hc & Hw & _); [vm_compute; reflexivity|].
  exists r, ts. exact (conj Hin (conj Hid (conj Hd (conj Hc Hw)))).
Defined.
