(* ===== verification/EmailTokens.v ===== *)
(** * Email sign-in links

    [crates/agentkeys-broker-server/src/storage/email_tokens.rs]: single-use
    tokens, stored by their digest, and the status row a client polls. *)
From S2P Require Import Prelude RustStr Sql Crates.

Open Scope Z_scope.

Record TokenRow := {
  token_hash : string;
  request_id : string;
  email : string;
  issued_at : Z;
  expires_at : Z;
  consumed_at : option Z;
}.

(** [CHECK(status IN ('pending','verified','failed'))] *)
Inductive StatusTag := SPending | SVerified | SFailed.

#[export] Instance StatusTag_eq_dec : EqDecision StatusTag.
Proof. solve_decision. Defined.

Record StatusRow := {
  st_request_id : string;
  st_status : StatusTag;
  st_session_jwt : option string;
  st_omni_account : option string;
  st_expires_at : Z;
  st_failure_reason : option string;
}.

Record EmailStore := { email_tokens : list TokenRow; email_request_status : list StatusRow }.

Inductive EmailConsumeOutcome :=
| EmailConsumed (request_id email : string)
| EmailNotFoundOrConsumed
| EmailExpired.

Inductive EmailRequestStatus :=
| Pending
| Verified (session_jwt omni_account : string) (expires_at : Z)
| Failed (reason : string)
| Unknown.

Definition token_clash (a b : TokenRow) : bool :=
  String.eqb (token_hash a) (token_hash b) || String.eqb (request_id a) (request_id b).
Definition status_clash (a b : StatusRow) : bool :=
  String.eqb (st_request_id a) (st_request_id b).

Definition live_token (r : TokenRow) : bool := is_none (consumed_at r).

Definition set_consumed (now : Z) (r : TokenRow) : TokenRow :=
  {| token_hash := token_hash r; request_id := request_id r; email := email r;
     issued_at := issued_at r; expires_at := expires_at r; consumed_at := Some now |}.

Definition pending_of (rid : string) (r : StatusRow) : bool :=
  String.eqb (st_request_id r) rid && bool_decide (st_status r = SPending).

Section EmailTokens.
Context `{HexCodec} `{Sha256}.

Definition hash_token (token : string) : string := hex_encode (sha256 (as_bytes token)).

(** One transaction: both rows or neither. *)
Definition issue (s : EmailStore) (token rid mail : string) (issued expires : Z)
    : EmailStore * result string unit :=
  match insert_unique token_clash
          {| token_hash := hash_token token; request_id := rid; email := mail;
             issued_at := issued; expires_at := expires; consumed_at := None |}
          (email_tokens s) with
  | None => (s, Err "insert email_token")
  | Some tokens =>
      match insert_unique status_clash
              {| st_request_id := rid; st_status := SPending; st_session_jwt := None;
                 st_omni_account := None; st_expires_at := expires; st_failure_reason := None |}
              (email_request_status s) with
      | None => (s, Err "insert email_request_status")
      | Some statuses => ({| email_tokens := tokens; email_request_status := statuses |}, Ok tt)
      end
  end.

(** The conditional update of [consume_token], for the row it looked up. *)
Definition consume_update (s : EmailStore) (hash : string) (now : Z) (rid mail : string)
    : EmailStore * EmailConsumeOutcome :=
  let '(tokens, rows) := claim_row token_hash live_token (set_consumed now) hash (email_tokens s) in
  ({| email_tokens := tokens; email_request_status := email_request_status s |},
   if (rows =? 0)%nat then EmailNotFoundOrConsumed else EmailConsumed rid mail).

Definition consume_token (s : EmailStore) (token : string) (now : Z)
    : EmailStore * EmailConsumeOutcome :=
  let hash := hash_token token in
  match select_one (fun r => String.eqb (token_hash r) hash) (email_tokens s) with
  | None => (s, EmailNotFoundOrConsumed)
  | Some row =>
      if is_some (consumed_at row) then (s, EmailNotFoundOrConsumed)
      else if expires_at row <? now then (s, EmailExpired)
      else consume_update s hash now (request_id row) (email row)
  end.

Definition with_statuses (s : EmailStore) (l : list StatusRow) : EmailStore :=
  {| email_tokens := email_tokens s; email_request_status := l |}.

Definition mark_verified (s : EmailStore) (rid jwt omni : string) (expires : Z)
    : EmailStore * result string unit :=
  let '(statuses, rows) := update_where (pending_of rid)
    (fun r => {| st_request_id := st_request_id r; st_status := SVerified;
                 st_session_jwt := Some jwt; st_omni_account := Some omni;
                 st_expires_at := expires; st_failure_reason := st_failure_reason r |})
    (email_request_status s) in
  (with_statuses s statuses,
   if (rows =? 0)%nat then Err "mark_verified: no pending row" else Ok tt).

Definition mark_failed (s : EmailStore) (rid reason : string) : EmailStore :=
  with_statuses s (update_where (pending_of rid)
    (fun r => {| st_request_id := st_request_id r; st_status := SFailed;
                 st_session_jwt := st_session_jwt r; st_omni_account := st_omni_account r;
                 st_expires_at := st_expires_at r; st_failure_reason := Some reason |})
    (email_request_status s)).1.

Definition peek_status (s : EmailStore) (rid : string) : EmailRequestStatus :=
  match select_one (fun r => String.eqb (st_request_id r) rid) (email_request_status s) with
  | None => Unknown
  | Some r =>
      match st_status r with
      | SPending => Pending
      | SVerified => Verified (default "" (st_session_jwt r)) (default "" (st_omni_account r))
                       (st_expires_at r)
      | SFailed => Failed (default "unknown" (st_failure_reason r))
      end
  end.

Definition purge_expired (s : EmailStore) (now retention : Z) : EmailStore * nat :=
  let cutoff := i64_sub now retention in
  let '(tokens, token_n) := delete_where (fun r => expires_at r <? cutoff) (email_tokens s) in
  ({| email_tokens := tokens;
      email_request_status := (delete_where (fun r => (st_expires_at r <? cutoff)
        && negb (bool_decide (st_status r = SVerified))) (email_request_status s)).1 |}, token_n).

(** ** As a single-use resource; keys are token digests *)

Inductive EmailOp :=
| OpIssue (token rid mail : string) (issued expires : Z)
| OpConsume (token : string) (now : Z)
| OpUpdate (hash : string) (now : Z) (rid mail : string)
| OpVerified (rid jwt omni : string) (expires : Z)
| OpFailed (rid reason : string)
| OpPurge (now retention : Z).

Definition email_step (s : EmailStore) (op : EmailOp) : EmailStore :=
  match op with
  | OpIssue token rid mail issued expires => (issue s token rid mail issued expires).1
  | OpConsume token now => (consume_token s token now).1
  | OpUpdate hash now rid mail => (consume_update s hash now rid mail).1
  | OpVerified rid jwt omni expires => (mark_verified s rid jwt omni expires).1
  | OpFailed rid reason => mark_failed s rid reason
  | OpPurge now retention => (purge_expired s now retention).1
  end.

Definition is_email_consumed (o : EmailConsumeOutcome) : bool :=
  match o with EmailConsumed _ _ => true | _ => false end.

Definition email_issues (s : EmailStore) (op : EmailOp) (k : string) : nat :=
  match op with
  | OpIssue token rid mail issued expires =>
      b2n (String.eqb (hash_token token) k && is_ok (issue s token rid mail issued expires).2)
  | _ => 0
  end.

Definition email_wins (s : EmailStore) (op : EmailOp) (k : string) : nat :=
  match op with
  | OpConsume token now =>
      b2n (String.eqb (hash_token token) k && is_email_consumed (consume_token s token now).2)
  | OpUpdate hash now rid mail =>
      b2n (String.eqb hash k && is_email_consumed (consume_update s hash now rid mail).2)
  | _ => 0
  end.

Definition email_live (s : EmailStore) (k : string) : nat :=
  count (free_of token_hash live_token k) (email_tokens s).

Lemma email_update_live s hash now rid mail k :
  (b2n (String.eqb hash k && is_email_consumed (consume_update s hash now rid mail).2)
   + email_live (consume_update s hash now rid mail).1 k <= email_live s k)%nat.
Proof.
  pose proof (claim_live token_hash live_token (set_consumed now) (fun r => eq_refl)
    (fun r => eq_refl) k hash (email_tokens s)) as Hc.
  unfold consume_update, email_live. destruct (claim_row _ _ _ hash _) as [t n].
  cbn [fst snd email_tokens] in *. by destruct (n =? 0)%nat.
Qed.

Lemma email_law s op k :
  (email_wins s op k + email_live (email_step s op) k <= email_issues s op k + email_live s k)%nat.
Proof.
  destruct op as [token rid mail issued expires|token now|hash now rid mail|rid jwt omni expires
    |rid reason|now ret]; cbn [email_wins email_step email_issues].
  - unfold issue. destruct (insert_unique token_clash _ _) as [ts|] eqn:E; [|cbn; lia].
    apply insert_unique_some in E as [-> _].
    destruct (insert_unique status_clash _ _) as [st|]; cbn [fst snd is_ok]; [|lia].
    unfold email_live. cbn [email_tokens]. rewrite count_app, count_cons, andb_true_r.
    unfold free_of at 2. cbn [token_hash live_token consumed_at is_none is_some negb].
    rewrite andb_true_r. change (count (free_of token_hash live_token k) []) with 0%nat. lia.
  - unfold consume_token. assert (Hno : forall o, is_email_consumed o = false ->
      (b2n (String.eqb (hash_token token) k && is_email_consumed o) + email_live s k
       <= 0 + email_live s k)%nat) by (intros o ->; rewrite andb_false_r; cbn [b2n]; lia).
    destruct (select_one _ _) as [row|]; [|by apply Hno].
    destruct (is_some _); [by apply Hno|]. destruct (_ <? _); [by apply Hno|].
    pose proof (email_update_live s (hash_token token) now (request_id row) (email row) k). lia.
  - pose proof (email_update_live s hash now rid mail k). lia.
  - unfold mark_verified, email_live. by destruct (update_where _ _ _).
  - done.
  - unfold purge_expired, email_live. apply count_delete_le.
Qed.

#[export] Instance emails : OneShot EmailStore EmailOp string := {|
  os_step := email_step;
  os_issues := email_issues;
  os_wins := email_wins;
  os_live := email_live;
  os_law := email_law;
|}.

Definition empty_store : EmailStore := {| email_tokens := []; email_request_status := [] |}.

Definition email_wf (s : EmailStore) : Prop :=
  unique_on token_hash (email_tokens s) /\ unique_on st_request_id (email_request_status s).

Lemma email_wf_step s op : email_wf s -> email_wf (email_step s op).
Proof.
  intros [Ht Hs].
  destruct op as [token rid mail issued expires|token now|hash now rid mail|rid jwt omni expires
    |rid reason|now ret]; cbn [email_step].
  - unfold issue. destruct (insert_unique token_clash _ _) as [ts|] eqn:E; [|done].
    destruct (insert_unique status_clash _ _) as [st|] eqn:E'; [|done].
    apply insert_unique_some in E as [-> Hc], E' as [-> Hc']. split; apply unique_on_snoc; try done;
      intros r Hin Eq; [specialize (Hc r Hin); unfold token_clash in Hc; apply orb_false_iff in Hc as [Hc _]
                       |specialize (Hc' r Hin); rename Hc' into Hc1; unfold status_clash in Hc1];
      rewrite <-Eq in *; by rewrite String.eqb_refl in *.
  - unfold consume_token. destruct (select_one _ _); [|done]. destruct (is_some _); [done|].
    destruct (_ <? _); [done|]. split; [|done]. unfold consume_update.
    pose proof (claim_unique token_hash live_token (set_consumed now) token_hash (hash_token token)
      (email_tokens s) (fun r => eq_refl) Ht) as Hu. by destruct (claim_row _ _ _ _ _).
  - split; [|by unfold consume_update; destruct (claim_row _ _ _ _ _)]. unfold consume_update.
    pose proof (claim_unique token_hash live_token (set_consumed now) token_hash hash
      (email_tokens s) (fun r => eq_refl) Ht) as Hu. by destruct (claim_row _ _ _ _ _).
  - split; [done|]. cbn. apply unique_on_map; [|done]. intros r. by destruct (pending_of rid r).
  - split; [done|]. cbn. apply unique_on_map; [|done]. intros r. by destruct (pending_of rid r).
  - split; by apply unique_on_filter.
Qed.

(** A verified row survives every step unchanged. *)
Lemma verified_stays s op r :
  r ∈ email_request_status s -> st_status r = SVerified -> r ∈ email_request_status (email_step s op).
Proof.
  intros Hin Hv. assert (Hp : forall rid, pending_of rid r = false).
  { intros rid. unfold pending_of. rewrite Hv. apply andb_false_r. }
  destruct op as [token rid mail issued expires|token now|hash now rid mail|rid jwt omni expires
    |rid reason|now ret]; cbn [email_step].
  - unfold issue. destruct (insert_unique token_clash _ _); [|done].
    destruct (insert_unique status_clash _ _) eqn:E; [|done].
    apply insert_unique_some in E as [-> _]. cbn. set_solver.
  - unfold consume_token. destruct (select_one _ _); [|done]. destruct (is_some _); [done|].
    destruct (_ <? _); [done|]. unfold consume_update. by destruct (claim_row _ _ _ _ _).
  - unfold consume_update. by destruct (claim_row _ _ _ _ _).
  - cbn. apply list_elem_of_fmap. exists r. by rewrite Hp.
  - cbn. apply list_elem_of_fmap. exists r. by rewrite Hp.
  - cbn. apply elem_of_filterb. rewrite Hv. by rewrite andb_false_r.
Qed.
End EmailTokens.

Section EmailFacts.
Context `{HexCodec} `{Sha256}.

Lemma verified_run ops : forall s r,
  r ∈ email_request_status s -> st_status r = SVerified ->
  r ∈ email_request_status (os_run s ops).
Proof.
  induction ops as [|op ops IH]; intros s r Hin Hv; cbn; [done|].
  apply IH; [by apply verified_stays | done].
Qed.

Lemma peek_verified_row s rid j o e :
  peek_status s rid = Verified j o e ->
  exists r, r ∈ email_request_status s /\ st_request_id r = rid /\ st_status r = SVerified /\
    default "" (st_session_jwt r) = j /\ default "" (st_omni_account r) = o /\ st_expires_at r = e.
Proof.
  unfold peek_status. destruct (select_one _ _) as [r|] eqn:E; [|done].
  apply select_one_some in E as [Hin Hid%String.eqb_eq].
  destruct (st_status r) eqn:Es; try done. intros [= <- <- <-]. by exists r.
Qed.

Lemma peek_of_row s r : email_wf s -> r ∈ email_request_status s -> st_status r = SVerified ->
  peek_status s (st_request_id r) =
    Verified (default "" (st_session_jwt r)) (default "" (st_omni_account r)) (st_expires_at r).
Proof.
  intros [_ Hu] Hin Hv. unfold peek_status. destruct (select_one _ _) as [r'|] eqn:E.
  - apply select_one_some in E as [Hin' Hid%String.eqb_eq].
    assert (r' = r) as -> by (by apply (unique_on_eq st_request_id (email_request_status s))).
    by rewrite Hv.
  - rewrite select_one_none in E. specialize (E r Hin). by rewrite String.eqb_refl in E.
Qed.
End EmailFacts.

(** An email link signs in once, and what was verified stays.  From an empty
    store, under any interleaving of operations and of halves of consumptions: a
    token is consumed at most as often as it was issued; a consumption names the
    request and the address of an issued, unconsumed, unexpired token; a refused
    issue leaves neither of its two rows; and once a poll has seen the verified
    session of a request, every later poll sees the same one, whatever happens in
    between. *)
Theorem email_link_single_use `{HexCodec} `{Sha256} (ops ops' : list EmailOp)
    (token rid : string) (now : Z) :
  let s := os_run empty_store ops in
  (run_wins empty_store ops (hash_token token) <= run_issues empty_store ops (hash_token token))%nat /\
  (forall s' mail, consume_token s token now = (s', EmailConsumed rid mail) ->
     exists row, row ∈ email_tokens s /\ token_hash row = hash_token token /\
       request_id row = rid /\ email row = mail /\ consumed_at row = None /\ now <= expires_at row) /\
  (forall mail issued expires s' e, issue s token rid mail issued expires = (s', Err e) -> s' = s) /\
  (forall jwt omni expires, peek_status s rid = Verified jwt omni expires ->
     peek_status (os_run s ops') rid = Verified jwt omni expires).
Proof.
  intros s. assert (Hwf : forall l, email_wf (os_run empty_store l)).
  { intros l. apply (os_invariant email_wf); [intros ? ?; apply email_wf_step | split; constructor]. }
  split_and!.
  - pose proof (os_bound empty_store ops (hash_token token)) as Hb.
    cbn [os_live emails] in Hb. change (email_live empty_store (hash_token token)) with 0%nat in Hb. lia.
  - intros s' mail. unfold consume_token. destruct (select_one _ _) as [row|] eqn:E; [|done].
    apply select_one_some in E as [Hin Hh%String.eqb_eq].
    destruct (consumed_at row) eqn:Ec; [done|]. cbn [is_some]. destruct (_ <? _) eqn:Ee; [done|].
    reflect_bools. unfold consume_update. destruct (claim_row _ _ _ _ _) as [t n].
    destruct (n =? 0)%nat; [done|]. intros [= <- <- <-]. exists row. split_and!; try done.
  - intros mail issued expires s' e. unfold issue. destruct (insert_unique token_clash _ _); [|naive_solver].
    destruct (insert_unique status_clash _ _); naive_solver.
  - intros jwt omni expires (r & Hin & <- & Hv & <- & <- & <-)%peek_verified_row.
    apply peek_of_row; [|by apply verified_run|done].
    assert (Hrun : forall l l' x, os_run (os_run x l) l' = os_run x (l ++ l')).
    { induction l as [|op l IH]; intros l' x; cbn; [done|]. apply IH. }
    unfold s. rewrite Hrun. apply Hwf.
Qed.
