(* ===== verification/OAuthPending.v ===== *)
(** * OAuth flows in progress

    [crates/agentkeys-broker-server/src/storage/oauth_pending.rs]: one row per
    flow, consumed once by the provider's callback and polled by the client. *)
From S2P Require Import Prelude RustStr Sql.

Open Scope Z_scope.

(** [CHECK(status IN ('pending','verified','failed'))] *)
Inductive StatusTag := SPending | SVerified | SFailed.

#[export] Instance StatusTag_eq_dec : EqDecision StatusTag.
Proof. solve_decision. Defined.

Record OAuthRow := {
  request_id : string;
  provider : string;
  pkce_verifier : string;
  nonce : string;
  issued_at : Z;
  expires_at : Z;
  consumed_at : option Z;
  status : StatusTag;
  session_jwt : option string;
  omni_account : option string;
  identity_value : option string;
  failure_reason : option string;
}.

Abbreviation oauth_table := (list OAuthRow).

Inductive OAuth2PendingConsume :=
| Available (provider pkce_verifier nonce : string)
| NotFoundOrConsumed
| Expired.

Inductive OAuth2PendingStatus :=
| Pending
| Verified (session_jwt omni_account identity_value : string) (expires_at : Z)
| Failed (reason : string)
| Unknown.

Definition same_request (a b : OAuthRow) : bool := String.eqb (request_id a) (request_id b).
Definition with_id (rid : string) (r : OAuthRow) : bool := String.eqb (request_id r) rid.
Definition unconsumed (r : OAuthRow) : bool := is_none (consumed_at r).
Definition pending_of (rid : string) (r : OAuthRow) : bool :=
  with_id rid r && bool_decide (status r = SPending).

Definition set_consumed (now : Z) (r : OAuthRow) : OAuthRow :=
  {| request_id := request_id r; provider := provider r; pkce_verifier := pkce_verifier r;
     nonce := nonce r; issued_at := issued_at r; expires_at := expires_at r;
     consumed_at := Some now; status := status r; session_jwt := session_jwt r;
     omni_account := omni_account r; identity_value := identity_value r;
     failure_reason := failure_reason r |}.

Definition set_verified (jwt omni idv : string) (expires : Z) (r : OAuthRow) : OAuthRow :=
  {| request_id := request_id r; provider := provider r; pkce_verifier := pkce_verifier r;
     nonce := nonce r; issued_at := issued_at r; expires_at := expires;
     consumed_at := consumed_at r; status := SVerified; session_jwt := Some jwt;
     omni_account := Some omni; identity_value := Some idv; failure_reason := failure_reason r |}.

Definition set_failed (reason : string) (r : OAuthRow) : OAuthRow :=
  {| request_id := request_id r; provider := provider r; pkce_verifier := pkce_verifier r;
     nonce := nonce r; issued_at := issued_at r; expires_at := expires_at r;
     consumed_at := consumed_at r; status := SFailed; session_jwt := session_jwt r;
     omni_account := omni_account r; identity_value := identity_value r;
     failure_reason := Some reason |}.

Definition issue (t : oauth_table) (rid prov pkce nnc : string) (issued expires : Z)
    : result string oauth_table :=
  ok_or "insert oauth2_pending"
    (insert_unique same_request
       {| request_id := rid; provider := prov; pkce_verifier := pkce; nonce := nnc;
          issued_at := issued; expires_at := expires; consumed_at := None; status := SPending;
          session_jwt := None; omni_account := None; identity_value := None;
          failure_reason := None |} t).

(** The conditional update of [consume], for the row it looked up. *)
Definition consume_update (t : oauth_table) (rid : string) (now : Z) (prov pkce nnc : string)
    : oauth_table * OAuth2PendingConsume :=
  let '(t, rows) := claim_row request_id unconsumed (set_consumed now) rid t in
  (t, if (rows =? 0)%nat then NotFoundOrConsumed else Available prov pkce nnc).

Definition consume (t : oauth_table) (rid : string) (now : Z)
    : oauth_table * OAuth2PendingConsume :=
  match select_one (with_id rid) t with
  | None => (t, NotFoundOrConsumed)
  | Some r =>
      if is_some (consumed_at r) then (t, NotFoundOrConsumed)
      else if expires_at r <? now then (t, Expired)
      else consume_update t rid now (provider r) (pkce_verifier r) (nonce r)
  end.

Definition mark_verified (t : oauth_table) (rid jwt omni idv : string) (expires : Z)
    : oauth_table * result string unit :=
  let '(t, rows) := update_where (pending_of rid) (set_verified jwt omni idv expires) t in
  (t, if (rows =? 0)%nat then Err "mark_verified: no pending row" else Ok tt).

Definition mark_failed (t : oauth_table) (rid reason : string) : oauth_table :=
  (update_where (pending_of rid) (set_failed reason) t).1.

Definition peek_status (t : oauth_table) (rid : string) : OAuth2PendingStatus :=
  match select_one (with_id rid) t with
  | None => Unknown
  | Some r =>
      match status r with
      | SPending => Pending
      | SVerified => Verified (default "" (session_jwt r)) (default "" (omni_account r))
                       (default "" (identity_value r)) (expires_at r)
      | SFailed => Failed (default "unknown" (failure_reason r))
      end
  end.

Definition purge_expired (t : oauth_table) (now retention : Z) : oauth_table * nat :=
  let cutoff := i64_sub now retention in
  delete_where (fun r => (expires_at r <? cutoff) && negb (bool_decide (status r = SVerified))) t.

(** ** As a single-use resource *)

Inductive OAuthOp :=
| OpIssue (rid prov pkce nnc : string) (issued expires : Z)
| OpConsume (rid : string) (now : Z)
| OpUpdate (rid : string) (now : Z) (prov pkce nnc : string)
| OpVerified (rid jwt omni idv : string) (expires : Z)
| OpFailed (rid reason : string)
| OpPurge (now retention : Z).

Definition oauth_step (t : oauth_table) (op : OAuthOp) : oauth_table :=
  match op with
  | OpIssue rid prov pkce nnc issued expires =>
      match issue t rid prov pkce nnc issued expires with Ok t => t | Err _ => t end
  | OpConsume rid now => (consume t rid now).1
  | OpUpdate rid now prov pkce nnc => (consume_update t rid now prov pkce nnc).1
  | OpVerified rid jwt omni idv expires => (mark_verified t rid jwt omni idv expires).1
  | OpFailed rid reason => mark_failed t rid reason
  | OpPurge now retention => (purge_expired t now retention).1
  end.

Definition is_available (o : OAuth2PendingConsume) : bool :=
  match o with Available _ _ _ => true | _ => false end.

Definition oauth_issues (t : oauth_table) (op : OAuthOp) (k : string) : nat :=
  match op with
  | OpIssue rid prov pkce nnc issued expires =>
      b2n (String.eqb rid k && is_ok (issue t rid prov pkce nnc issued expires))
  | _ => 0
  end.

Definition oauth_wins (t : oauth_table) (op : OAuthOp) (k : string) : nat :=
  match op with
  | OpConsume rid now => b2n (String.eqb rid k && is_available (consume t rid now).2)
  | OpUpdate rid now prov pkce nnc =>
      b2n (String.eqb rid k && is_available (consume_update t rid now prov pkce nnc).2)
  | _ => 0
  end.

Definition oauth_live (t : oauth_table) (k : string) : nat :=
  count (free_of request_id unconsumed k) t.

Lemma flow_update_live t rid now prov pkce nnc k :
  (b2n (String.eqb rid k && is_available (consume_update t rid now prov pkce nnc).2)
   + oauth_live (consume_update t rid now prov pkce nnc).1 k <= oauth_live t k)%nat.
Proof.
  pose proof (claim_live request_id unconsumed (set_consumed now) (fun r => eq_refl)
    (fun r => eq_refl) k rid t) as Hc.
  unfold consume_update, oauth_live. destruct (claim_row _ _ _ rid t) as [t' n].
  cbn [fst snd] in *. by destruct (n =? 0)%nat.
Qed.

Lemma oauth_law t op k :
  (oauth_wins t op k + oauth_live (oauth_step t op) k <= oauth_issues t op k + oauth_live t k)%nat.
Proof.
  destruct op as [rid prov pkce nnc issued expires|rid now|rid now prov pkce nnc
    |rid jwt omni idv expires|rid why|now ret]; cbn [oauth_wins oauth_step oauth_issues].
  - unfold issue. destruct (insert_unique _ _ _) as [t'|] eqn:E; cbn [ok_or is_ok]; [|lia].
    apply insert_unique_some in E as [-> _]. unfold oauth_live.
    rewrite count_app, count_cons, andb_true_r. unfold free_of at 2.
    cbn [request_id unconsumed consumed_at is_none is_some negb]. rewrite andb_true_r.
    change (count (free_of request_id unconsumed k) []) with 0%nat. lia.
  - unfold consume. assert (Hno : forall o, is_available o = false ->
      (b2n (String.eqb rid k && is_available o) + oauth_live t k <= 0 + oauth_live t k)%nat)
      by (intros o ->; rewrite andb_false_r; cbn [b2n]; lia).
    destruct (select_one _ t) as [r|]; [|by apply Hno]. destruct (is_some _); [by apply Hno|].
    destruct (_ <? _); [by apply Hno|].
    pose proof (flow_update_live t rid now (provider r) (pkce_verifier r) (nonce r) k). lia.
  - pose proof (flow_update_live t rid now prov pkce nnc k). lia.
  - unfold mark_verified, oauth_live. cbn [Nat.add].
    pose proof (count_update_same (pending_of rid) (set_verified jwt omni idv expires)
      (free_of request_id unconsumed k) t (fun r _ _ => eq_refl)) as Hs.
    destruct (update_where _ _ t). cbn [fst] in *. lia.
  - unfold mark_failed, oauth_live. by rewrite count_update_same.
  - unfold purge_expired, oauth_live. apply count_delete_le.
Qed.

#[export] Instance oauth_flows : OneShot oauth_table OAuthOp string := {|
  os_step := oauth_step;
  os_issues := oauth_issues;
  os_wins := oauth_wins;
  os_live := oauth_live;
  os_law := oauth_law;
|}.

Lemma oauth_unique_step t op : unique_on request_id t -> unique_on request_id (oauth_step t op).
Proof.
  intros Hu. assert (Hc : forall rid now, unique_on request_id
      (claim_row request_id unconsumed (set_consumed now) rid t).1)
    by (intros; by apply claim_unique).
  destruct op as [rid prov pkce nnc issued expires|rid now|rid now prov pkce nnc
    |rid jwt omni idv expires|rid why|now ret]; cbn [oauth_step].
  - unfold issue. destruct (insert_unique _ _ _) as [t'|] eqn:E; [|done].
    apply insert_unique_some in E as [-> Hn]. apply unique_on_snoc; [done|]. intros r Hr Eq.
    specialize (Hn r Hr). unfold same_request in Hn. cbn in *. rewrite Eq in Hn.
    by rewrite String.eqb_refl in Hn.
  - unfold consume, consume_update. specialize (Hc rid now). destruct (select_one _ t); [|done].
    destruct (is_some _); [done|]. destruct (_ <? _); [done|]. by destruct (claim_row _ _ _ rid t).
  - unfold consume_update. specialize (Hc rid now). by destruct (claim_row _ _ _ rid t).
  - cbn. apply unique_on_map; [|done]. intros r. by destruct (pending_of rid r).
  - cbn. apply unique_on_map; [|done]. intros r. by destruct (pending_of rid r).
  - by apply unique_on_filter.
Qed.

(** What a poll shows of a settled flow. *)
Definition settled (s : OAuth2PendingStatus) : bool :=
  match s with Verified _ _ _ _ => true | _ => false end.

Definition view_of (r : OAuthRow) : OAuth2PendingStatus :=
  match status r with
  | SPending => Pending
  | SVerified => Verified (default "" (session_jwt r)) (default "" (omni_account r))
                   (default "" (identity_value r)) (expires_at r)
  | SFailed => Failed (default "unknown" (failure_reason r))
  end.

Lemma peek_iff t rid s : unique_on request_id t -> settled s = true ->
  peek_status t rid = s <-> exists r, r ∈ t /\ request_id r = rid /\ view_of r = s.
Proof.
  intros Hu Hs. unfold peek_status. destruct (select_one (with_id rid) t) as [r|] eqn:E.
  - apply select_one_some in E as [Hin Hid%String.eqb_eq]. fold (view_of r). split.
    + intros Hv. by exists r.
    + intros (r' & Hin' & Hid' & Hv).
      assert (r' = r) as -> by (apply (unique_on_eq request_id t); congruence). done.
  - rewrite select_one_none in E. split; [by intros <-|]. intros (r & Hin & Hid & _).
    specialize (E r Hin). unfold with_id in E. by rewrite Hid, String.eqb_refl in E.
Qed.

(** A verified row may still be marked consumed; what a poll sees stays. *)
Lemma verified_step t op rid s : settled s = true ->
  (exists r, r ∈ t /\ request_id r = rid /\ view_of r = s) ->
  exists r, r ∈ oauth_step t op /\ request_id r = rid /\ view_of r = s.
Proof.
  intros Hs (r & Hin & Hid & Hv).
  assert (Hst : status r = SVerified) by (unfold view_of in Hv; destruct (status r); by subst s).
  assert (Hp : forall rid, pending_of rid r = false)
    by (intros rid'; unfold pending_of; rewrite Hst; apply andb_false_r).
  assert (Hc : forall rid' now, exists r', r' ∈ (claim_row request_id unconsumed (set_consumed now) rid' t).1 /\
    request_id r' = rid /\ view_of r' = s).
  { intros rid' now. exists (if free_of request_id unconsumed rid' r then set_consumed now r else r).
    split; [apply elem_of_update; by exists r|]. by destruct (free_of _ _ _ r). }
  destruct op as [rid' prov pkce nnc issued expires|rid' now|rid' now prov pkce nnc
    |rid' jwt omni idv expires|rid' why|now ret]; cbn [oauth_step].
  - exists r. split; [|done]. unfold issue. destruct (insert_unique _ _ _) as [t'|] eqn:E; [|done].
    apply insert_unique_some in E as [-> _]. set_solver.
  - unfold consume, consume_update. specialize (Hc rid' now). destruct (select_one _ t); [|by exists r].
    destruct (is_some _); [by exists r|]. destruct (_ <? _); [by exists r|].
    by destruct (claim_row _ _ _ rid' t).
  - unfold consume_update. specialize (Hc rid' now). by destruct (claim_row _ _ _ rid' t).
  - exists r. split; [|done]. apply list_elem_of_fmap. exists r. by rewrite Hp.
  - exists r. split; [|done]. apply list_elem_of_fmap. exists r. by rewrite Hp.
  - exists r. split; [|done]. apply elem_of_delete. rewrite Hst. by rewrite andb_false_r.
Qed.

(** An OAuth flow is answered once, and stays answered.  From an empty table,
    under any interleaving of operations and of halves of consumptions: a flow is
    handed to a callback at most as often as it was issued, always with the
    verifier and nonce of an unconsumed, unexpired row; and once a poll has seen
    the verified session, every later poll sees the same one. *)
Theorem oauth_flow_single_use (ops ops' : list OAuthOp) (rid : string) (now : Z) :
  let t := os_run ([] : oauth_table) ops in
  (run_wins ([] : oauth_table) ops rid <= run_issues ([] : oauth_table) ops rid)%nat /\
  (forall t' prov pkce nnc, consume t rid now = (t', Available prov pkce nnc) ->
     exists r, r ∈ t /\ request_id r = rid /\ provider r = prov /\ pkce_verifier r = pkce /\
       nonce r = nnc /\ consumed_at r = None /\ now <= expires_at r) /\
  (settled (peek_status t rid) = true ->
     peek_status (os_run t ops') rid = peek_status t rid).
Proof.
  intros t. assert (Hu : forall l s, unique_on request_id s -> unique_on request_id (os_run s l))
    by (apply (os_invariant (unique_on request_id)); intros; by apply oauth_unique_step).
  assert (Hut : unique_on request_id t) by (apply Hu; constructor). split_and!.
  - pose proof (os_bound ([] : oauth_table) ops rid) as Hb. cbn [os_live oauth_flows] in Hb.
    change (oauth_live [] rid) with 0%nat in Hb. lia.
  - intros t' prov pkce nnc. unfold consume. destruct (select_one _ t) as [r|] eqn:E; [|done].
    apply select_one_some in E as [Hin Hid%String.eqb_eq]. destruct (consumed_at r) eqn:Ec; [done|].
    cbn [is_some]. destruct (_ <? _) eqn:Ee; [done|]. reflect_bools. unfold consume_update.
    destruct (claim_row _ _ _ rid t) as [t1 n]. destruct (n =? 0)%nat; [done|].
    intros [= <- <- <- <-]. by exists r.
  - intros Hs. remember (peek_status t rid) as s eqn:Es. symmetry in Es.
    apply peek_iff; [by apply Hu | done |]. apply peek_iff in Es; [|done|done].
    clear Hut. revert Es. generalize t. induction ops' as [|op l IH]; intros u Es; cbn; [done|].
    apply IH. by apply verified_step.
Qed.
