(* ===== verification/AgentDelegations.v ===== *)
(** * The delegation rendezvous

    [crates/agentkeys-broker-server/src/storage/agent_delegations.rs]: a sandbox
    asks for a delegation, the device it is bound to signs it once, and the
    sandbox collects the signature. *)
From S2P Require Import Prelude RustStr StrFacts Sql.

Open Scope Z_scope.

Definition DELEGATION_REQUEST_TTL_SECONDS : Z := 300.

Record DelegationRow := {
  request_id : string;
  row_device_key_hash : string;
  operator_omni : string;
  actor_omni : string;
  sandbox_pubkey : string;
  requested_scope : string;
  requested_ttl_seconds : Z;
  created_at : Z;
  expires_at : Z;
  signed_at : option Z;
  scope : option string;
  deleg_expires_at : option Z;
  delegation_sig : option string;
}.

Abbreviation delegation_table := (list DelegationRow).

Record PendingDelegationRequest := {
  p_request_id : string;
  p_sandbox_pubkey : string;
  p_requested_scope : string;
  p_requested_ttl_seconds : Z;
  p_expires_at : Z;
}.

Inductive SignTarget :=
| Ready (sandbox_pubkey requested_scope : string)
| TargetNotFoundOrSigned
| TargetExpired.

Inductive DelegationSign := Signed | SignNotFoundOrSigned | SignExpired.

Inductive DelegationPoll :=
| PollPending
| PollSigned (scope : string) (expires_at : Z) (delegation_sig : string)
| PollNotFound
| PollExpired.

Definition unsigned_row (r : DelegationRow) : bool := is_none (signed_at r).
Definition of_device (d : string) (r : DelegationRow) : bool :=
  String.eqb (to_lowercase (row_device_key_hash r)) (to_lowercase d).
Definition of_sandbox (s : string) (r : DelegationRow) : bool :=
  String.eqb (to_lowercase (sandbox_pubkey r)) (to_lowercase s).
Definition with_id (rid : string) (r : DelegationRow) : bool := String.eqb (request_id r) rid.

Definition set_signed (now : Z) (sc : string) (expires : Z) (sig : string) (r : DelegationRow)
    : DelegationRow :=
  {| request_id := request_id r; row_device_key_hash := row_device_key_hash r;
     operator_omni := operator_omni r; actor_omni := actor_omni r;
     sandbox_pubkey := sandbox_pubkey r; requested_scope := requested_scope r;
     requested_ttl_seconds := requested_ttl_seconds r; created_at := created_at r;
     expires_at := expires_at r; signed_at := Some now; scope := Some sc;
     deleg_expires_at := Some expires; delegation_sig := Some sig |}.

(** Two deletes and an insert, not a transaction. *)
Definition request (t : delegation_table) (rid device op actor sandbox sc : string)
    (ttl created expires : Z) : delegation_table * result string unit :=
  let t := (delete_where (fun r => (expires_at r <=? created) && unsigned_row r) t).1 in
  let t := (delete_where (fun r => of_device device r && of_sandbox sandbox r && unsigned_row r) t).1 in
  match insert_unique (fun a b => String.eqb (request_id a) (request_id b))
          {| request_id := rid; row_device_key_hash := device; operator_omni := op;
             actor_omni := actor; sandbox_pubkey := sandbox; requested_scope := sc;
             requested_ttl_seconds := ttl; created_at := created; expires_at := expires;
             signed_at := None; scope := None; deleg_expires_at := None; delegation_sig := None |} t with
  | None => (t, Err "insert agent_delegation")
  | Some t => (t, Ok tt)
  end.

Definition pending (t : delegation_table) (device : string) (now : Z)
    : list PendingDelegationRequest :=
  map (fun r => {| p_request_id := request_id r; p_sandbox_pubkey := sandbox_pubkey r;
                   p_requested_scope := requested_scope r;
                   p_requested_ttl_seconds := requested_ttl_seconds r;
                   p_expires_at := expires_at r |})
    (order_by created_at
       (select_all (fun r => of_device device r && unsigned_row r && (now <? expires_at r)) t)).

Definition sign_target (t : delegation_table) (rid device : string) (now : Z) : SignTarget :=
  match select_one (fun r => with_id rid r && of_device device r) t with
  | None => TargetNotFoundOrSigned
  | Some r =>
      match signed_at r with
      | Some _ => TargetNotFoundOrSigned
      | None => if expires_at r <=? now then TargetExpired
                else Ready (sandbox_pubkey r) (requested_scope r)
      end
  end.

Definition record_signature (t : delegation_table) (rid device sc : string) (expires : Z)
    (sig : string) (now : Z) : delegation_table * DelegationSign :=
  let '(t', updated) := update_where (fun r => with_id rid r && of_device device r
      && unsigned_row r && (now <? expires_at r)) (set_signed now sc expires sig) t in
  if (updated =? 1)%nat then (t', Signed)
  else match select_one (fun r => with_id rid r && of_device device r && unsigned_row r) t' with
       | Some _ => (t', SignExpired)
       | None => (t', SignNotFoundOrSigned)
       end.

Definition poll (t : delegation_table) (rid device : string) (now : Z) : DelegationPoll :=
  match select_one (fun r => with_id rid r && of_device device r) t with
  | None => PollNotFound
  | Some r =>
      match signed_at r, scope r, deleg_expires_at r, delegation_sig r with
      | Some _, Some sc, Some expires, Some sig => PollSigned sc expires sig
      | None, _, _, _ => if now <? expires_at r then PollPending else PollExpired
      | _, _, _, _ => PollExpired
      end
  end.

(** ** Many calls *)

Inductive DelegationOp :=
| OpRequest (rid device op actor sandbox sc : string) (ttl created expires : Z)
| OpSign (rid device sc : string) (expires : Z) (sig : string) (now : Z).

Definition delegation_step (t : delegation_table) (o : DelegationOp) : delegation_table :=
  match o with
  | OpRequest rid device op actor sandbox sc ttl created expires =>
      (request t rid device op actor sandbox sc ttl created expires).1
  | OpSign rid device sc expires sig now => (record_signature t rid device sc expires sig now).1
  end.

Fixpoint delegation_run (t : delegation_table) (ops : list DelegationOp) : delegation_table :=
  match ops with [] => t | o :: ops => delegation_run (delegation_step t o) ops end.

(** A row is unsigned, or carries a whole signature. *)
Definition signed_ok (r : DelegationRow) : Prop :=
  match signed_at r with
  | None => scope r = None /\ deleg_expires_at r = None /\ delegation_sig r = None
  | Some _ => is_Some (scope r) /\ is_Some (deleg_expires_at r) /\ is_Some (delegation_sig r)
  end.

Record delegation_wf (t : delegation_table) : Prop := {
  dwf_ids : unique_on request_id t;
  dwf_rows : forall r, r ∈ t -> signed_ok r;
}.

Lemma record_signature_table t rid device sc expires sig now :
  (record_signature t rid device sc expires sig now).1 =
  (update_where (fun r => with_id rid r && of_device device r && unsigned_row r && (now <? expires_at r))
     (set_signed now sc expires sig) t).1.
Proof.
  unfold record_signature. destruct (update_where _ _ t) as [t' n]. destruct (n =? 1)%nat; [done|].
  by destruct (select_one _ t').
Qed.

Lemma delegation_wf_step t o : delegation_wf t -> delegation_wf (delegation_step t o).
Proof.
  intros [Hi Hr]. destruct o as [rid device op actor sandbox sc ttl created expires
    |rid device sc expires sig now]; cbn [delegation_step].
  - unfold request. destruct (insert_unique _ _ _) as [t'|] eqn:E; cbn [fst].
    + apply insert_unique_some in E as [-> Hn]. split.
      * apply unique_on_snoc; [by do 2 apply unique_on_filter|]. intros r Hin Eq.
        specialize (Hn r Hin). cbn in Hn, Eq. rewrite Eq in Hn. by rewrite String.eqb_refl in Hn.
      * intros r [Hin| ->%list_elem_of_singleton]%elem_of_app; [|by split_and!].
        apply elem_of_delete in Hin as [[Hin _]%elem_of_delete _]. by apply Hr.
    + split; [by do 2 apply unique_on_filter|]. intros r [[Hin _]%elem_of_delete _]%elem_of_delete.
      by apply Hr.
  - rewrite record_signature_table. split.
    + apply unique_on_map; [|done]. intros r. by destruct (_ && _).
    + intros r (r0 & Hr0 & ->)%elem_of_update. destruct (_ && _); [|by apply Hr].
      unfold signed_ok. cbn. by split_and!; eexists.
Qed.

Lemma delegation_wf_run ops : forall t, delegation_wf t -> delegation_wf (delegation_run t ops).
Proof.
  induction ops as [|o ops IH]; intros t Ht; cbn; [done|]. apply IH. by apply delegation_wf_step.
Qed.

Lemma signed_stays t o r : r ∈ t -> is_some (signed_at r) = true -> r ∈ delegation_step t o.
Proof.
  intros Hin Hs. assert (Hu : unsigned_row r = false) by (unfold unsigned_row, is_none; by rewrite Hs).
  destruct o as [rid device op actor sandbox sc ttl created expires|rid device sc expires sig now];
    cbn [delegation_step].
  - unfold request. assert (Hd : r ∈ (delete_where (fun r => of_device device r && of_sandbox sandbox r && unsigned_row r)
      (delete_where (fun r => (expires_at r <=? created) && unsigned_row r) t).1).1)
      by (by rewrite !elem_of_delete, Hu, !andb_false_r).
    destruct (insert_unique _ _ _) as [t'|] eqn:E; [|done].
    apply insert_unique_some in E as [-> _]. set_solver.
  - rewrite record_signature_table. apply elem_of_update. exists r.
    by rewrite Hu, andb_false_r.
Qed.

Lemma signed_run ops : forall t r, r ∈ t -> is_some (signed_at r) = true -> r ∈ delegation_run t ops.
Proof.
  induction ops as [|o ops IH]; intros t r Hin Hs; cbn; [done|]. apply IH; [by apply signed_stays|done].
Qed.

Lemma row_of_poll t rid device r : delegation_wf t -> r ∈ t -> request_id r = rid ->
  of_device device r = true ->
  select_one (fun r => with_id rid r && of_device device r) t = Some r.
Proof.
  intros Hwf Hin Hid Hd. destruct (select_one _ t) as [r'|] eqn:E.
  - apply select_one_some in E as [Hin' Hp]. apply andb_true_iff in Hp as [Hp%String.eqb_eq _].
    f_equal. apply (unique_on_eq request_id t); [apply Hwf | done | done | congruence].
  - rewrite select_one_none in E. specialize (E r Hin). unfold with_id in E.
    by rewrite Hid, String.eqb_refl, Hd in E.
Qed.

Lemma poll_signed_row t rid device now sc e sig :
  poll t rid device now = PollSigned sc e sig ->
  exists r, r ∈ t /\ request_id r = rid /\ of_device device r = true /\
    is_some (signed_at r) = true /\ scope r = Some sc /\ deleg_expires_at r = Some e /\
    delegation_sig r = Some sig.
Proof.
  unfold poll. destruct (select_one _ t) as [r|] eqn:E; [|done].
  apply select_one_some in E as [Hin [Hid%String.eqb_eq Hd]%andb_true_iff].
  destruct (signed_at r) eqn:Es; [|by destruct (_ <? _)].
  destruct (scope r) eqn:Esc, (deleg_expires_at r) eqn:Ee, (delegation_sig r) eqn:Esg; try done.
  intros [= <- <- <-]. exists r. by rewrite Es.
Qed.

(** A row that is signed refuses every other signature on its request. *)
Lemma record_signature_refused u rid device r sc expires sig now :
  delegation_wf u -> r ∈ u -> request_id r = rid -> is_some (signed_at r) = true ->
  (record_signature u rid device sc expires sig now).2 = SignNotFoundOrSigned.
Proof.
  intros Hwf Hin Hid Hs.
  assert (Hno : forall x, x ∈ u -> with_id rid x && of_device device x && unsigned_row x = false).
  { intros x Hx. destruct (with_id rid x) eqn:Ex; [|done]. apply String.eqb_eq in Ex.
    assert (x = r) as -> by (apply (unique_on_eq request_id u); [apply Hwf|done|done|congruence]).
    unfold unsigned_row, is_none. by rewrite Hs, andb_false_r. }
  unfold record_signature. rewrite update_none by (intros x Hx; by rewrite Hno). cbn [Nat.eqb].
  destruct (select_one (fun x => with_id rid x && of_device device x && unsigned_row x) u)
    as [x|] eqn:E; [|done].
  apply select_one_some in E as [Hx Hpx]. by rewrite Hno in Hpx.
Qed.

(** The rendezvous relays one signature, faithfully.  In any table reached
    from an empty one: a request that the device may still sign is signed by
    [record_signature] of that device and no other, before it expires; from then
    on, whatever is requested or signed later and at whatever hour, the sandbox
    polls exactly that scope, expiry and signature, a second signature is refused,
    and the row is never removed. *)
Theorem delegation_write_once (ops ops' : list DelegationOp)
    (rid device sc sig : string) (expires now : Z) :
  let t := delegation_run [] ops in
  let signed := record_signature t rid device sc expires sig now in
  (signed.2 = Signed <->
   exists r, r ∈ t /\ request_id r = rid /\ of_device device r = true /\ signed_at r = None /\
     now < expires_at r) /\
  (signed.2 <> Signed -> signed.1 = t) /\
  (signed.2 = Signed ->
   forall now', poll (delegation_run signed.1 ops') rid device now' = PollSigned sc expires sig /\
   forall sc' expires' sig', (record_signature (delegation_run signed.1 ops') rid device sc' expires' sig' now').2
     = SignNotFoundOrSigned).
Proof.
  intros t signed. assert (Hwf : delegation_wf t).
  { apply delegation_wf_run. split; [constructor|]. by intros r Hr%elem_of_nil. }
  set (p := fun r => with_id rid r && of_device device r && unsigned_row r && (now <? expires_at r)).
  assert (Hp : forall r, p r = true <-> request_id r = rid /\ of_device device r = true /\
      signed_at r = None /\ now < expires_at r).
  { intros r. unfold p, with_id, unsigned_row.
    rewrite !andb_true_iff, String.eqb_eq, is_none_true, Z.ltb_lt. tauto. }
  assert (Hcount : (count p t <= 1)%nat).
  { apply (count_unique_le request_id p rid); [apply Hwf|]. intros r Hr. apply Hp in Hr. tauto. }
  assert (Htab : signed.1 = (update_where p (set_signed now sc expires sig) t).1)
    by apply record_signature_table.
  assert (Hres : signed.2 = Signed <-> count p t = 1%nat).
  { unfold signed, record_signature. fold p. cbn [update_where]. fold (count p t).
    destruct (Nat.eqb_spec (count p t) 1); cbn [snd]; [done|]. by destruct (select_one _ _). }
  split; [|split].
  - rewrite Hres. split.
    + intros H1. assert (0 < count p t)%nat as (r & Hr & Hpr)%count_pos by lia.
      exists r. apply Hp in Hpr. tauto.
    + intros (r & Hr & Hrest). assert (0 < count p t)%nat; [|lia].
      apply count_pos. exists r. split; [done|]. apply Hp. tauto.
  - intros Hn. rewrite Htab, update_none; [done|]. apply count_zero.
    destruct (decide (count p t = 1%nat)) as [E|]; [by apply Hres in E|lia].
  - intros Hs now'. apply Hres in Hs.
    assert (0 < count p t)%nat as (r & Hr & Hpr)%count_pos by lia.
    pose (r' := set_signed now sc expires sig r).
    assert (Hin : r' ∈ delegation_run signed.1 ops').
    { apply signed_run; [|done]. rewrite Htab. apply elem_of_update. exists r. by rewrite Hpr. }
    assert (Hwf' : delegation_wf (delegation_run signed.1 ops')).
    { apply delegation_wf_run. by apply (delegation_wf_step t (OpSign rid device sc expires sig now)). }
    apply Hp in Hpr as (Hid & Hd & _).
    pose proof (row_of_poll _ rid device r' Hwf' Hin Hid Hd) as Hsel. split.
    + unfold poll. by rewrite Hsel.
    + intros sc' expires' sig'. by apply (record_signature_refused _ rid device r').
Qed.
