(* ===== verification/IdentityLinks.v ===== *)
(** * Linked identities and restricted login

    [crates/agentkeys-broker-server/src/storage/identity_links.rs], the wallet
    handlers [handlers/wallet/{mod,link,links_list,recover_lookup}.rs], the login
    allow-list [login_access.rs], [jwt/verify.rs] and
    [identity/omni_account.rs].  The link handler looks the owner of an identity
    up and inserts the link in two locked sections, with other requests between
    them, so it is two steps here; [wallet_link] is the two in one go. *)
From stdpp Require Import gmap.
From S2P Require Import Prelude RustStr StrFacts Sql Crates.

Open Scope Z_scope.

(** ** Errors, sessions and configuration *)

Inductive BrokerError :=
| Unauthorized (m : string)
| Forbidden (m : string)
| BackendUnreachable (m : string)
| Unavailable (m : string)
| AuditError (m : string)
| BadRequest (m : string)
| Internal (m : string).

Definition status_of (e : BrokerError) : Z :=
  match e with
  | Unauthorized _ => 401
  | Forbidden _ => 403
  | BackendUnreachable _ => 502
  | Unavailable _ => 503
  | AuditError _ => 500
  | BadRequest _ => 400
  | Internal _ => 500
  end.

Record AgentKeysClaims := {
  omni_account : string;
  wallet_address : string;
  identity_type : string;
  identity_value : string;
  parent_omni : option string;
  derivation_path : option string;
  device_pubkey : option string;
}.

Record SessionClaims := {
  iss : string; sub : string; aud : string; exp : Z; iat : Z; jti : string;
  agentkeys : AgentKeysClaims;
}.

Record SessionKeypair := { kid : string; private_key_pem : string; public_x_b64 : string; public_y_b64 : string }.

(** The [jsonwebtoken] crate: the decoding of a token against a key, an audience
    and an issuer gives the key id of its header and its claims.  [debug_kid] is
    the [Debug] text of an optional string. *)
Class Jwt := {
  DecodingKey : Type;
  from_ec_components : string -> string -> result string DecodingKey;
  jwt_decode : DecodingKey -> string -> string -> string -> result string (option string * SessionClaims);
  debug_kid : option string -> string;
}.

(** The signer service: the address of an account, for the bearer of a session. *)
Class Signer := {
  derive_address : string -> string -> string -> result string string;
}.

Record LoginAccess := { emails : option (gset string) }.

Record BrokerConfig := {
  client_id : string;
  oidc_issuer : string;
  login_access : LoginAccess;
  login_signer_url : option string;
  session_keypair : SessionKeypair;
}.

(** ** The table *)

Record IdentityLink := {
  il_omni_account : string;
  il_identity_type : string;
  il_identity_value : string;
  linked_at : Z;
}.

Abbreviation link_table := (list IdentityLink).

Definition is_identity (ty v : string) (r : IdentityLink) : bool :=
  String.eqb (il_identity_type r) ty && String.eqb (il_identity_value r) v.
Definition of_master (o : string) (r : IdentityLink) : bool := String.eqb (il_omni_account r) o.

(** [PRIMARY KEY (omni_account, identity_type, identity_value)] *)
Definition same_link (a b : IdentityLink) : bool :=
  of_master (il_omni_account a) b && is_identity (il_identity_type a) (il_identity_value a) b.

(** [INSERT OR IGNORE] *)
Definition link (t : link_table) (o ty v : string) (at_ : Z) : link_table :=
  default t (insert_unique same_link
    {| il_omni_account := o; il_identity_type := ty; il_identity_value := v; linked_at := at_ |} t).

Definition owner_of (t : link_table) (ty v : string) : option string :=
  il_omni_account <$> select_one (is_identity ty v) t.

(** [ORDER BY linked_at DESC] *)
Definition list_for_master (t : link_table) (o : string) : list IdentityLink :=
  order_by (fun r => - linked_at r) (select_all (of_master o) t).

Definition unlink (t : link_table) (o ty v : string) : link_table * bool :=
  let '(t, n) := delete_where (fun r => of_master o r && is_identity ty v r) t in
  (t, (n =? 1)%nat).

(** ** The login allow-list *)

Fixpoint count_char (c : Ascii.ascii) (s : string) : nat :=
  match s with
  | EmptyString => 0
  | String a s => b2n (Ascii.eqb a c) + count_char c s
  end.

Definition bad_email (e : string) : bool :=
  negb (string_all (fun c => negb (is_whitespace c)) e)
  || string_has "*"%char e
  || negb (count_char "@"%char e =? 1)%nat
  || starts_with "@" e
  || ends_with_char "@"%char e.

Fixpoint collect_emails (entries : list string) (acc : gset string) : result string (gset string) :=
  match entries with
  | [] => Ok acc
  | entry :: rest =>
      let e := to_lowercase (trim entry) in
      if bad_email e
      then Err "BROKER_MASTER_LOGIN_ALLOWLIST must contain exact email addresses"
      else collect_emails rest ({[e]} ∪ acc)
  end.

Definition restricted (spec : string) : result string LoginAccess :=
  let? set := collect_emails
    (List.filter (fun entry => negb (String.eqb (trim entry) "")) (split_char ","%char spec)) ∅ in
  Ok {| emails := Some set |}.

Definition is_restricted (a : LoginAccess) : bool := is_some (emails a).

Definition denied : BrokerError :=
  Forbidden "Access is limited to approved email addresses. Contact the administrator for access.".

Definition require_email (a : LoginAccess) (email : string) : result BrokerError unit :=
  match emails a with
  | None => Ok tt
  | Some set => if bool_decide (to_lowercase (trim email) ∈ set) then Ok tt else Err denied
  end.

Definition norm_omni (s : string) : string := to_lowercase (trim_start_0x (trim s)).

Definition extract_bearer_token (header : string) : option string := strip_prefix "Bearer " header.

(** ** The handlers *)

Record WalletLinkBody := { body_type : string; body_value : string }.
Record LinkReply := {
  linked : bool; reply_omni : string; reply_type : string; reply_value : string; reply_at : Z }.

Section Handlers.
Context `{HexCodec, Sha256, Jwt, Signer}.
Variable cfg : BrokerConfig.

Definition derive_with_client_id (client ty v : string) : string :=
  hex_encode (sha256 (as_bytes client ++ as_bytes ty ++ as_bytes v)%list).

Definition verify_session_jwt (keypair : SessionKeypair) (issuer token : string)
    : result BrokerError SessionClaims :=
  let? decoding_key := map_err (fun e => Unauthorized ("decoding key construction: " +:+ e))
    (from_ec_components (public_x_b64 keypair) (public_y_b64 keypair)) in
  let? (token_kid, claims) := map_err (fun e => Unauthorized ("session jwt verify: " +:+ e))
    (jwt_decode decoding_key "agentkeys:broker" issuer token) in
  guard! bool_decide (token_kid = Some (kid keypair))
    else Unauthorized ("session jwt kid mismatch: token kid=" +:+ debug_kid token_kid
                       +:+ ", expected " +:+ kid keypair) ;;
  Ok claims.

(** The header is [None] when it is absent or not text. *)
Definition require_master_session (authorization : option string)
    : result BrokerError SessionClaims :=
  let? bearer := ok_or (Unauthorized "missing or malformed Authorization header")
    (a ← authorization; strip_prefix "Bearer " a) in
  verify_session_jwt (session_keypair cfg) (oidc_issuer cfg) bearer.

(** The conditions of a restricted deployment on a link. *)
Definition restricted_link (authorization : option string) (claims : AgentKeysClaims)
    (body : WalletLinkBody) : result BrokerError unit :=
  if negb (String.eqb (identity_type claims) "email") || negb (String.eqb (body_type body) "evm")
  then Err denied
  else
    let? bearer := ok_or denied (a ← authorization; extract_bearer_token a) in
    let? url := ok_or (BackendUnreachable "browser login is not configured") (login_signer_url cfg) in
    let? address := map_err (fun _ => BackendUnreachable "cannot verify the existing identity wallet")
      (derive_address url bearer (omni_account claims)) in
    guard! eq_lower address (body_value body) else denied ;;
    Ok tt.

Definition blank_body (body : WalletLinkBody) : bool :=
  String.eqb (trim (body_type body)) "" || String.eqb (trim (body_value body)) "".

(** The first step of [wallet_link]: all the checks, with the owner looked up.
    Returns the master to link to. *)
Definition check_link (t : link_table) (authorization : option string) (body : WalletLinkBody)
    : result BrokerError string :=
  let? session := require_master_session authorization in
  let claims := agentkeys session in
  let? _ := if is_restricted (login_access cfg)
            then restricted_link authorization claims body else Ok tt in
  let master := omni_account claims in
  guard! negb (blank_body body)
    else BadRequest "identity_type + identity_value must be non-empty" ;;
  match owner_of t (body_type body) (body_value body) with
  | Some existing =>
      if negb (String.eqb existing master)
      then Err (Unauthorized ("identity already linked to a different master ("
                              +:+ existing +:+ ")"))
      else Ok master
  | None => Ok master
  end.

(** The second step: the insert and the reply. *)
Definition insert_link (t : link_table) (master : string) (body : WalletLinkBody) (now : Z)
    : link_table * LinkReply :=
  (link t master (body_type body) (body_value body) now,
   {| linked := true; reply_omni := master; reply_type := body_type body;
      reply_value := body_value body; reply_at := now |}).

Definition wallet_link (t : link_table) (authorization : option string) (body : WalletLinkBody)
    (now : Z) : link_table * result BrokerError LinkReply :=
  match check_link t authorization body with
  | Err e => (t, Err e)
  | Ok master => let '(t, reply) := insert_link t master body now in (t, Ok reply)
  end.

Definition wallet_links_list (t : link_table) (authorization : option string)
    : result BrokerError (string * list IdentityLink) :=
  let? session := require_master_session authorization in
  let master := omni_account (agentkeys session) in
  Ok (master, list_for_master t master).

Definition wallet_recover_lookup (t : link_table) (body : WalletLinkBody)
    : result BrokerError (option string) :=
  guard! negb (blank_body body)
    else BadRequest "identity_type + identity_value must be non-empty" ;;
  Ok (owner_of t (body_type body) (body_value body)).

(** The accounts of the wallets linked to an allowed address. *)
Definition linked_omnis (t : link_table) (email : string) : list string :=
  map (fun l => derive_with_client_id (client_id cfg) "evm" (to_lowercase (il_identity_value l)))
    (List.filter (fun l => String.eqb (il_identity_type l) "evm")
       (list_for_master t (derive_with_client_id (client_id cfg) "email" email))).

Definition require_omni (t : link_table) (omni : string) : result BrokerError unit :=
  match emails (login_access cfg) with
  | None => Ok tt
  | Some set =>
      if existsb (fun email => existsb (fun l => String.eqb (norm_omni l) (norm_omni omni))
                                 (linked_omnis t email)) (elements set)
      then Ok tt else Err denied
  end.

(** The middleware: [Ok] passes the request on. *)
Definition enforce (t : link_table) (path : string) (authorization : option string)
    : result BrokerError unit :=
  let access := login_access cfg in
  if negb (is_restricted access) then Ok tt
  else if starts_with "/v1/auth/oauth2/" path || String.eqb path "/auth/oauth2/callback"
  then Err denied
  else match (a ← authorization; extract_bearer_token a) with
       | None => Ok tt
       | Some token =>
           match verify_session_jwt (session_keypair cfg) (oidc_issuer cfg) token with
           | Err _ => Ok tt
           | Ok claims =>
               let identity := agentkeys claims in
               match parent_omni identity with
               | Some parent => require_omni t parent
               | None =>
                   if String.eqb (identity_type identity) "email"
                   then require_email access (identity_value identity)
                   else require_omni t (omni_account identity)
               end
           end
       end.

(** ** Interleaving

    A request that passed its checks is in flight until it inserts. *)
Record Links := { table : link_table; in_flight : list (string * WalletLinkBody) }.

Definition start : Links := {| table := []; in_flight := [] |}.

Inductive step : Links -> Links -> Prop :=
| StepCheck s authorization body master :
    check_link (table s) authorization body = Ok master ->
    step s {| table := table s; in_flight := (in_flight s ++ [(master, body)])%list |}
| StepInsert s l master body r now :
    in_flight s = (l ++ (master, body) :: r)%list ->
    step s {| table := (insert_link (table s) master body now).1; in_flight := (l ++ r)%list |}
| StepUnlink s o ty v :
    step s {| table := (unlink (table s) o ty v).1; in_flight := in_flight s |}.

Abbreviation steps := (rtc step).

(** The same requests one at a time. *)
Inductive LinkOp :=
| OpLink (authorization : option string) (body : WalletLinkBody) (now : Z)
| OpUnlink (o ty v : string).

Definition apply_link (t : link_table) (op : LinkOp) : link_table :=
  match op with
  | OpLink authorization body now => (wallet_link t authorization body now).1
  | OpUnlink o ty v => (unlink t o ty v).1
  end.

Definition run_links (ops : list LinkOp) : link_table := fold_left apply_link ops [].
End Handlers.

(** ** Lemmas on the table *)

Definition identity_of (r : IdentityLink) : string * string :=
  (il_identity_type r, il_identity_value r).

Lemma is_identity_true ty v r : is_identity ty v r = true <-> identity_of r = (ty, v).
Proof.
  unfold is_identity, identity_of. rewrite andb_true_iff, !String.eqb_eq.
  split; [by intros [-> ->] | by intros [= -> ->]].
Qed.

Lemma is_identity_self r : is_identity (il_identity_type r) (il_identity_value r) r = true.
Proof. by apply is_identity_true. Qed.

(** A link either was there or is appended. *)
Lemma link_cases t o ty v at_ :
  (link t o ty v at_ = t /\ exists r, r ∈ t /\ il_omni_account r = o /\ identity_of r = (ty, v)) \/
  (link t o ty v at_ = (t ++ [{| il_omni_account := o; il_identity_type := ty;
                                 il_identity_value := v; linked_at := at_ |}])%list /\
   forall r, r ∈ t -> identity_of r = (ty, v) -> il_omni_account r <> o).
Proof.
  unfold link, insert_unique. destruct (existsb _ t) eqn:E.
  - left. split; [done|]. apply existsb_elem in E as (r & Hr & [Ho%String.eqb_eq Hi]%andb_true_iff).
    exists r. by split_and!; [| |apply is_identity_true].
  - right. split; [done|]. rewrite existsb_none in E. intros r Hr Hi Ho.
    specialize (E r Hr). unfold same_link, of_master in E. cbn in E.
    by rewrite Ho, String.eqb_refl, (proj2 (is_identity_true ty v r) Hi) in E.
Qed.

Lemma link_elem t o ty v at_ r :
  r ∈ link t o ty v at_ -> r ∈ t \/ (il_omni_account r = o /\ identity_of r = (ty, v)).
Proof.
  intros Hr. destruct (link_cases t o ty v at_) as [[E _]|[E _]]; rewrite E in Hr; [by left|].
  apply elem_of_app in Hr as [Hr| ->%list_elem_of_singleton]; [by left | by right].
Qed.

Lemma owner_of_none t ty v : owner_of t ty v = None <-> forall r, r ∈ t -> identity_of r <> (ty, v).
Proof.
  unfold owner_of. rewrite fmap_None, select_one_none. split; intros Hn r Hr.
  - intros Hi%is_identity_true. by rewrite (Hn r Hr) in Hi.
  - apply not_true_iff_false. intros Hi%is_identity_true. by apply (Hn r Hr).
Qed.

Lemma owner_of_some t ty v o :
  owner_of t ty v = Some o -> exists r, r ∈ t /\ identity_of r = (ty, v) /\ il_omni_account r = o.
Proof.
  unfold owner_of. intros (r & [Hr Hi%is_identity_true]%select_one_some & ->)%fmap_Some.
  by exists r.
Qed.

(** Linking what nobody owns, or what the master owns already. *)
Lemma link_fresh t o ty v at_ :
  owner_of t ty v = None ->
  link t o ty v at_ = (t ++ [{| il_omni_account := o; il_identity_type := ty;
                                il_identity_value := v; linked_at := at_ |}])%list.
Proof.
  rewrite owner_of_none. intros Hn.
  destruct (link_cases t o ty v at_) as [[_ (r & Hr & _ & Hi)]|[-> _]]; [|done].
  by destruct (Hn r Hr).
Qed.

Lemma link_again t o ty v at_ : owner_of t ty v = Some o -> link t o ty v at_ = t.
Proof.
  intros (r & Hr & Hi & Ho)%owner_of_some.
  destruct (link_cases t o ty v at_) as [[-> _]|[_ Hn]]; [done|]. by destruct (Hn r Hr Hi).
Qed.

Lemma owner_of_snoc t r ty v :
  owner_of (t ++ [r])%list ty v =
  match owner_of t ty v with
  | Some o => Some o
  | None => if is_identity ty v r then Some (il_omni_account r) else None
  end.
Proof.
  unfold owner_of. rewrite select_one_snoc. destruct (select_one _ t); [done|].
  by destruct (is_identity ty v r).
Qed.

Section LinkFacts.
Context `{HexCodec, Sha256, Jwt, Signer}.
Variable cfg : BrokerConfig.

(** The checks are those on an empty table, then the look at the owner. *)
Lemma check_link_owner t a body :
  check_link cfg t a body =
  match check_link cfg [] a body with
  | Err e => Err e
  | Ok master =>
      match owner_of t (body_type body) (body_value body) with
      | Some o => if String.eqb o master then Ok master
                  else Err (Unauthorized ("identity already linked to a different master ("
                                          +:+ o +:+ ")"))
      | None => Ok master
      end
  end.
Proof.
  unfold check_link. destruct (require_master_session _ _) as [session|]; [|done].
  destruct (if is_restricted _ then _ else _); [|done].
  destruct (negb (blank_body body)); [|done]. cbn [owner_of select_one List.find fmap option_fmap option_map].
  destruct (owner_of t _ _) as [o|]; [|done]. by destruct (String.eqb o _).
Qed.

Lemma apply_link_unique t op :
  unique_on identity_of t -> unique_on identity_of (apply_link cfg t op).
Proof.
  intros Hu. destruct op as [a body now|o ty v]; cbn [apply_link].
  - unfold wallet_link. rewrite check_link_owner.
    destruct (check_link cfg [] a body) as [master|]; [|done].
    destruct (owner_of t _ _) as [o|] eqn:Eo.
    + destruct (String.eqb_spec o master) as [->|]; [|done]. cbn. by rewrite link_again.
    + cbn. rewrite link_fresh by done. apply unique_on_snoc; [done|].
      intros r Hr. by apply (proj1 (owner_of_none _ _ _) Eo).
  - unfold unlink. cbn. by apply unique_on_filter.
Qed.

Lemma run_links_unique ops : unique_on identity_of (run_links cfg ops).
Proof.
  unfold run_links. assert (Hn : unique_on identity_of []) by constructor. revert Hn.
  generalize (@nil IdentityLink). induction ops as [|op ops IH]; intros t Ht; cbn; [done|].
  by apply IH, apply_link_unique.
Qed.
End LinkFacts.

(** ** Properties *)

Section LinkProperties.
Context `{HexCodec, Sha256, Jwt, Signer}.
Variable cfg : BrokerConfig.

(** Two requests that both passed their checks before either inserted. *)
Lemma link_race a1 a2 body m1 m2 now1 now2 :
  check_link cfg [] a1 body = Ok m1 -> check_link cfg [] a2 body = Ok m2 -> m1 <> m2 ->
  rtc (step cfg) start
    {| table := link (link [] m1 (body_type body) (body_value body) now1)
                  m2 (body_type body) (body_value body) now2;
       in_flight := [] |}.
Proof.
  intros Hc1 Hc2 Hne.
  eapply rtc_l; [by apply (StepCheck cfg start a1 body m1)|].
  eapply rtc_l; [by apply (StepCheck cfg _ a2 body m2)|]. cbn.
  eapply rtc_l; [by apply (StepInsert cfg _ [] m1 body [(m2, body)] now1)|]. cbn.
  eapply rtc_l; [by apply (StepInsert cfg _ [] m2 body [] now2)|]. apply rtc_refl.
Qed.

(** Who wrote first wins, one request at a time.  After any requests served one
    at a time an identity has at most one owner; linking it then depends on that
    owner alone: a free identity becomes the master's and no other identity changes
    hands, the owner's own request succeeds and changes nothing, another master's is
    refused and changes nothing, and a request that fails its checks changes nothing.
    Interleaved, the rule fails: of two masters admitted for one free identity both
    can be told that it is linked and both rows stand, the lookup names the one and
    a retry of the other is refused. *)
Theorem first_writer_wins (ops : list LinkOp) :
  let t := run_links cfg ops in
  unique_on identity_of t /\
  (forall a body now e, check_link cfg [] a body = Err e -> wallet_link cfg t a body now = (t, Err e)) /\
  (forall a body now master, check_link cfg [] a body = Ok master ->
     let '(t', out) := wallet_link cfg t a body now in
     match owner_of t (body_type body) (body_value body) with
     | None =>
         is_ok out = true /\ owner_of t' (body_type body) (body_value body) = Some master /\
         forall ty v, (ty, v) <> (body_type body, body_value body) -> owner_of t' ty v = owner_of t ty v
     | Some o => t' = t /\ (is_ok out = true <-> o = master)
     end) /\
  (forall a1 a2 body m1 m2 now,
     check_link cfg [] a1 body = Ok m1 -> check_link cfg [] a2 body = Ok m2 -> m1 <> m2 ->
     exists s, rtc (step cfg) start s /\ in_flight s = [] /\
       (exists r1 r2, table s = [r1; r2] /\ identity_of r1 = identity_of r2 /\
          il_omni_account r1 = m1 /\ il_omni_account r2 = m2) /\
       owner_of (table s) (body_type body) (body_value body) = Some m1 /\
       exists m, wallet_link cfg (table s) a2 body now = (table s, Err (Unauthorized m))).
Proof.
  intros t. split_and!.
  - apply run_links_unique.
  - intros a body now e He. unfold wallet_link. by rewrite check_link_owner, He.
  - intros a body now master Hm. unfold wallet_link. rewrite check_link_owner, Hm.
    destruct (owner_of t _ _) as [o|] eqn:Eo.
    + destruct (String.eqb_spec o master) as [->|]; cbn; [|by split].
      by rewrite link_again.
    + cbn. rewrite link_fresh by done. split_and!; [done | |].
      * rewrite owner_of_snoc, Eo. unfold is_identity. cbn. by rewrite !String.eqb_refl.
      * intros ty v Hne. rewrite owner_of_snoc. destruct (owner_of t ty v); [done|].
        destruct (is_identity ty v _) eqn:Ei; [|done]. destruct Hne. symmetry.
        exact (proj1 (is_identity_true _ _ _) Ei).
  - intros a1 a2 body m1 m2 now Hc1 Hc2 Hne.
    eexists. split; [by apply (link_race a1 a2 body m1 m2 now now)|]. cbn [table in_flight].
    rewrite (link_fresh [] m1) by done. cbn [app].
    match goal with |- context [link [?r] _ _ _ _] => set (r1 := r) end.
    destruct (link_cases [r1] m2 (body_type body) (body_value body) now)
      as [[_ (r & ->%list_elem_of_singleton & Ho & _)]|[-> _]]; [done|].
    assert (Eo : forall r2, owner_of ([r1] ++ [r2])%list (body_type body) (body_value body) = Some m1).
    { intros r2. rewrite owner_of_snoc. unfold owner_of, select_one. cbn [List.find].
      unfold is_identity. cbn. by rewrite !String.eqb_refl. }
    split_and!; [done | by do 2 eexists | apply Eo |].
    eexists. unfold wallet_link. rewrite check_link_owner, Hc2, Eo.
    by destruct (String.eqb_spec m1 m2).
Qed.
End LinkProperties.

(** ** Restricted login *)

Lemma collect_emails_ok entries : forall acc set,
  collect_emails entries acc = Ok set ->
  forall e, e ∈ set -> e ∈ acc \/ (bad_email e = false /\ exists entry, e = to_lowercase (trim entry)).
Proof.
  induction entries as [|entry entries IH]; intros acc set; cbn [collect_emails].
  - intros [= ->]. by left.
  - destruct (bad_email _) eqn:E; [done|]. intros Hs e He.
    destruct (IH _ _ Hs e He) as [Hin|]; [|by right].
    apply elem_of_union in Hin as [->%elem_of_singleton|]; [|by left].
    right. split; [done|]. by exists entry.
Qed.

Section LoginFacts.
Context `{HexCodec, Sha256, Jwt, Signer}.
Variable cfg : BrokerConfig.

(** The link was asked for by a session of the account, signed in by email, for
    the wallet the signer derives for the account. *)
Definition derived_link (o ty v : string) : Prop :=
  exists bearer session url address,
    verify_session_jwt (session_keypair cfg) (oidc_issuer cfg) bearer = Ok session /\
    omni_account (agentkeys session) = o /\ identity_type (agentkeys session) = "email" /\
    ty = "evm" /\ login_signer_url cfg = Some url /\ derive_address url bearer o = Ok address /\
    eq_lower address v = true.

Lemma check_link_derived t a body master :
  is_restricted (login_access cfg) = true -> check_link cfg t a body = Ok master ->
  derived_link master (body_type body) (body_value body).
Proof.
  intros Hr. rewrite check_link_owner. unfold check_link. rewrite Hr.
  destruct (require_master_session cfg a) as [session|] eqn:Es; [|done].
  destruct (restricted_link _ _ _ _) as [[]|] eqn:El; [|done].
  destruct (negb (blank_body body)); [|done]. cbn [owner_of select_one List.find fmap option_fmap option_map].
  intros Hm. assert (omni_account (agentkeys session) = master) as <-.
  { destruct (owner_of t _ _) as [o|]; [|by injection Hm].
    destruct (String.eqb o _); [by injection Hm | done]. }
  clear Hm. unfold require_master_session in Es. unfold restricted_link in El.
  destruct a as [a|]; cbn [mbind option_bind] in Es, El; [|done].
  destruct (strip_prefix "Bearer " a) as [bearer|] eqn:Ea; cbn [ok_or] in Es; [|done].
  unfold extract_bearer_token in El. rewrite Ea in El. cbn [ok_or] in El.
  destruct (String.eqb_spec (identity_type (agentkeys session)) "email") as [Hi|]; [|done].
  destruct (String.eqb_spec (body_type body) "evm") as [Ht|]; [|done]. cbn [negb orb] in El.
  destruct (login_signer_url cfg) as [url|] eqn:Eu; cbn [ok_or] in El; [|done].
  destruct (derive_address url bearer _) as [address|] eqn:Ed; cbn [map_err] in El; [|done].
  destruct (eq_lower address _) eqn:Ee; [|done].
  exists bearer, session, url, address. by split_and!.
Qed.

Definition links_derived (s : Links) : Prop :=
  (forall r, r ∈ table s -> derived_link (il_omni_account r) (il_identity_type r) (il_identity_value r)) /\
  (forall master body, (master, body) ∈ in_flight s ->
     derived_link master (body_type body) (body_value body)).

Lemma step_derived s s' :
  is_restricted (login_access cfg) = true -> step cfg s s' -> links_derived s -> links_derived s'.
Proof.
  intros Hr Hst [Ht Hf]. destruct Hst as [s a body master Hc|s l master body r now E|s o ty v];
    split; cbn [table in_flight].
  - done.
  - intros m b [Hin|[= -> ->]%list_elem_of_singleton]%elem_of_app; [by apply Hf|].
    by apply (check_link_derived (table s) a).
  - intros row [Hin|[Ho Hi]]%link_elem; [by apply Ht|]. injection Hi as Hty Hv.
    rewrite Ho, Hty, Hv. apply Hf. rewrite E. set_solver.
  - intros m b Hin. apply Hf. rewrite E. set_solver.
  - intros row [Hin _]%elem_of_delete. by apply Ht.
  - done.
Qed.

Lemma steps_derived s :
  is_restricted (login_access cfg) = true -> rtc (step cfg) start s -> links_derived s.
Proof.
  intros Hr Hs. assert (H0' : links_derived start) by (split; intros ? *; by intros ?%elem_of_nil).
  revert H0'. induction Hs as [|s s1 s2 Hst _ IH]; [done|]. intros Hd. apply IH. by eapply step_derived.
Qed.

(** What [require_omni] grants: an account of a wallet linked to an allowed address. *)
Lemma require_omni_ok t set omni :
  emails (login_access cfg) = Some set -> require_omni cfg t omni = Ok tt ->
  exists e r, e ∈ set /\ r ∈ t /\
    il_omni_account r = derive_with_client_id (client_id cfg) "email" e /\ il_identity_type r = "evm" /\
    norm_omni omni = norm_omni (derive_with_client_id (client_id cfg) "evm" (to_lowercase (il_identity_value r))).
Proof.
  unfold require_omni. intros ->. destruct (existsb _ _) eqn:E; [|done]. intros _.
  apply existsb_elem in E as (e & He%elem_of_elements & El).
  apply existsb_elem in El as (l & Hl & Hn%String.eqb_eq).
  unfold linked_omnis in Hl. apply list_elem_of_fmap in Hl as (r & -> & Hr).
  apply elem_of_filterb in Hr as [Hty%String.eqb_eq Hr].
  unfold list_for_master in Hr. rewrite order_by_perm in Hr.
  apply elem_of_filterb in Hr as [Ho%String.eqb_eq Hr]. by exists e, r.
Qed.
(** The account of the wallet that the signer derives for the account of an
    approved address, linked by a session of that account. *)
Definition approved_wallet (set : gset string) (omni : string) : Prop :=
  exists e bearer linker url address,
    e ∈ set /\ verify_session_jwt (session_keypair cfg) (oidc_issuer cfg) bearer = Ok linker /\
    omni_account (agentkeys linker) = derive_with_client_id (client_id cfg) "email" e /\
    identity_type (agentkeys linker) = "email" /\ login_signer_url cfg = Some url /\
    derive_address url bearer (omni_account (agentkeys linker)) = Ok address /\
    norm_omni omni = norm_omni (derive_with_client_id (client_id cfg) "evm" (to_lowercase address)).

Lemma require_omni_approved s set omni :
  links_derived s -> emails (login_access cfg) = Some set ->
  require_omni cfg (table s) omni = Ok tt -> approved_wallet set omni.
Proof.
  intros [Hd _] Hset (e & r & He & Hr & Ho & Hty & Hn)%(require_omni_ok _ set); [|done].
  destruct (Hd r Hr) as (b & lk & url & address & Hv & Hl & Hi & _ & Hu & Hda & Heq%String.eqb_eq).
  exists e, b, lk, url, address. rewrite Hl. split_and!; [done..|]. by rewrite Heq.
Qed.
End LoginFacts.

Section LoginProperty.
Context `{HexCodec, Sha256, Jwt, Signer}.
Variable cfg : BrokerConfig.

(** The account a session acts for. *)
Definition subject (claims : AgentKeysClaims) : string :=
  default (omni_account claims) (parent_omni claims).

(** Restricted login admits the approved addresses and their own wallets.  The
    list read from the configuration holds exact lower-case addresses; OAuth is
    refused; and after any interleaving of link and unlink requests, a session the
    middleware lets through signed in with an approved address, or acts for the
    account of the very wallet that the signer derives for the account of an approved
    address, linked by a session of that account. *)
Theorem restricted_login (spec : string) (s : Links) (path : string) (authorization : option string)
    (Hspec : restricted spec = Ok (login_access cfg)) (Hrun : rtc (step cfg) start s) :
  exists set, emails (login_access cfg) = Some set /\
    (forall e, e ∈ set -> bad_email e = false /\ to_lowercase e = e) /\
    (starts_with "/v1/auth/oauth2/" path = true -> enforce cfg (table s) path authorization = Err denied) /\
    forall token session,
      authorization = Some ("Bearer " +:+ token) ->
      verify_session_jwt (session_keypair cfg) (oidc_issuer cfg) token = Ok session ->
      enforce cfg (table s) path authorization = Ok tt ->
      let claims := agentkeys session in
      (parent_omni claims = None /\ identity_type claims = "email" /\
       to_lowercase (trim (identity_value claims)) ∈ set) \/
      approved_wallet cfg set (subject claims).
Proof.
  unfold restricted in Hspec. destruct (collect_emails _ _) as [set|] eqn:Ec; [|done].
  injection Hspec as Ha. assert (Hset : emails (login_access cfg) = Some set) by (by rewrite <-Ha).
  assert (Hr : is_restricted (login_access cfg) = true) by (unfold is_restricted; by rewrite Hset).
  pose proof (steps_derived cfg s Hr Hrun) as Hd.
  exists set. split_and!; [done | | |].
  - intros e He. destruct (collect_emails_ok _ _ _ Ec e He) as [?%elem_of_empty|[? (x & ->)]]; [done|].
    split; [done|]. apply lower_idem.
  - intros Hp. unfold enforce. by rewrite Hr, Hp.
  - intros token session Hauth Hs He claims. subst authorization. unfold enforce in He. rewrite Hr in He. cbn [negb] in He.
    destruct (_ || _); [done|]. cbn [mbind option_bind] in He. unfold extract_bearer_token in He.
    rewrite (proj2 (strip_prefix_spec "Bearer " _ token) eq_refl), Hs in He. fold claims in He.
    assert (Hw : require_omni cfg (table s) (subject claims) = Ok tt -> approved_wallet cfg set (subject claims))
      by (by apply require_omni_approved).
    unfold subject in Hw |- *. destruct (parent_omni claims); [by right; apply Hw|].
    destruct (String.eqb_spec (identity_type claims) "email") as [Hi|]; [|by right; apply Hw].
    left. split_and!; [done|done|]. unfold require_email in He. rewrite Hset in He.
    by destruct (bool_decide_reflect (to_lowercase (trim (identity_value claims)) ∈ set)).
Qed.
End LoginProperty.

(** ** A deployment to evaluate on

    A token is the account it was issued for; the account [wallet_omni] signed in
    with its wallet, every other one by email. *)
Module ToyLogin.
#[local] Existing Instances SimpleHex.codec ToyVerifier.sha.

Definition wallet_omni : string := derive_with_client_id "agentkeys" "evm" "0xw".
Definition email_omni : string := derive_with_client_id "agentkeys" "email" "ann@x.io".

Definition claims_of (token : string) : SessionClaims :=
  {| iss := "broker"; sub := token; aud := "agentkeys:broker"; exp := 0; iat := 0; jti := "j";
     agentkeys := {| omni_account := token; wallet_address := "0xw";
       identity_type := if String.eqb token wallet_omni then "evm" else "email";
       identity_value := "ann@x.io"; parent_omni := None; derivation_path := None;
       device_pubkey := None |} |}.

#[refine] Definition jwt : Jwt := {|
  DecodingKey := unit;
  from_ec_components _ _ := Ok tt;
  jwt_decode _ _ _ token := Ok (Some "k", claims_of token);
  debug_kid _ := "kid";
|}.
Defined.

Definition signer : Signer := {| derive_address _ _ _ := Ok "0xW" |}.

Definition access : LoginAccess := {| emails := Some {["ann@x.io"]} |}.

Definition cfg (a : LoginAccess) : BrokerConfig :=
  {| client_id := "agentkeys"; oidc_issuer := "broker"; login_access := a;
     login_signer_url := Some "http://signer";
     session_keypair := {| kid := "k"; private_key_pem := "k"; public_x_b64 := "x"; public_y_b64 := "y" |} |}.

Definition open_cfg : BrokerConfig := cfg {| emails := None |}.
Definition body : WalletLinkBody := {| body_type := "evm"; body_value := "0xw" |}.
Definition linked_state : Links :=
  {| table := link [] email_omni "evm" "0xw" 5; in_flight := [] |}.
End ToyLogin.

Section Witnesses.
#[local] Existing Instances SimpleHex.codec ToyVerifier.sha ToyLogin.jwt ToyLogin.signer.
Import ToyLogin.

Lemma first_writer_wins_witness :
  check_link open_cfg [] (Some "Bearer ann") body = Ok "ann" /\
  check_link open_cfg [] (Some "Bearer bob") body = Ok "bob" /\
  exists s, rtc (step open_cfg) start s /\ owner_of (table s) "evm" "0xw" = Some "ann" /\
    exists m, wallet_link open_cfg (table s) (Some "Bearer bob") body 7
              = (table s, Err (Unauthorized m)).
Proof.
  assert (Ha : check_link open_cfg [] (Some "Bearer ann") body = Ok "ann") by reflexivity.
  assert (Hb : check_link open_cfg [] (Some "Bearer bob") body = Ok "bob") by reflexivity.
  split; [exact Ha|]. split; [exact Hb|].
  destruct (first_writer_wins open_cfg []) as (_ & _ & _ & Hrace).
  destruct (Hrace _ _ body "ann" "bob" 7 Ha Hb ltac:(done)) as (s & Hs & _ & _ & Ho & He).
  by exists s.
Defined.

Lemma login_run : rtc (step (cfg access)) start linked_state.
Proof.
  eapply rtc_l.
  { apply (StepCheck (cfg access) start (Some ("Bearer " +:+ email_omni)) body email_omni).
    vm_compute. reflexivity. }
  eapply rtc_l; [|apply rtc_refl].
  exact (StepInsert (cfg access) {| table := []; in_flight := [(email_omni, body)] |} []
    email_omni body [] 5 eq_refl).
Qed.

Lemma restricted_login_witness :
  restricted " Ann@X.io" = Ok access /\
  enforce (cfg access) (table linked_state) "/v1/cap/mint" (Some ("Bearer " +:+ wallet_omni)) = Ok tt /\
  approved_wallet (cfg access) {["ann@x.io"]} wallet_omni.
Proof.
  assert (Hspec : restricted " Ann@X.io" = Ok access) by (vm_compute; reflexivity).
  assert (He : enforce (cfg access) (table linked_state) "/v1/cap/mint" (Some ("Bearer " +:+ wallet_omni)) = Ok tt)
    by (vm_compute; reflexivity).
  split; [exact Hspec|]. split; [exact He|].
  destruct (restricted_login (cfg access) " Ann@X.io" linked_state "/v1/cap/mint"
    (Some ("Bearer " +:+ wallet_omni)) Hspec login_run) as (set & Hset & _ & _ & Hall).
  assert (Hv : verify_session_jwt (session_keypair (cfg access)) (oidc_issuer (cfg access)) wallet_omni
    = Ok (claims_of wallet_omni)) by reflexivity.
  injection Hset as <-.
  destruct (Hall wallet_omni (claims_of wallet_omni) eq_refl Hv He) as [(_ & Hty & _)|Hw]; [|exact Hw].
  exfalso. revert Hty. vm_compute. discriminate.
Defined.
End Witnesses.
