(* ===== verification/CapMint.v ===== *)
(** * The minting of capabilities

    [crates/agentkeys-broker-server/src/handlers/cap.rs]: the routes, the one function
    behind them, the rules of who may mint what, the broker's own check of the proof
    of possession, its reads of the chain and the signature.  Third-party code is an
    interface as elsewhere: the token library and the signing half of [p256] are
    classes, the RPC endpoint answers attempt by attempt, the configured chain is an
    argument, and a clock reads [None] before the epoch. *)
From S2P Require Import Prelude RustStr StrFacts Capability DeviceCore.
From S2P Require Import Crates ChainAbi CapabilityVerify IdentityLinks.

Open Scope Z_scope.

(** ** Errors *)

Inductive CapError :=
| InvalidInput (m : string)
| Unauthorized (m : string)
| Forbidden (m reason : string)
| DeviceNotActive
| DeviceBindingMismatch (field : string)
| DeviceRoleMissing
| DeviceRevoked
| ServiceNotInScope
| OperatorMismatch
| CapPopInvalid (m : string)
| ChainRpc (m : string)
| Sign (m : string).

(** [into_response]: the status and the reason. *)
Definition cap_error_response (e : CapError) : Z * string :=
  match e with
  | InvalidInput _ => (400, "invalid_input")
  | Unauthorized _ => (401, "unauthorized")
  | Forbidden _ r => (403, r)
  | DeviceNotActive => (403, "device_not_active")
  | DeviceBindingMismatch _ => (403, "device_binding_mismatch")
  | DeviceRoleMissing => (403, "device_role_missing")
  | DeviceRevoked => (403, "device_revoked")
  | ServiceNotInScope => (403, "service_not_in_scope")
  | OperatorMismatch => (403, "operator_mismatch")
  | CapPopInvalid _ => (403, "cap_pop_invalid")
  | ChainRpc _ => (502, "chain_rpc_error")
  | Sign _ => (500, "sign_error")
  end.

(** [Display] of the token library's caller. *)
Definition display_broker_error (e : BrokerError) : string :=
  match e with
  | IdentityLinks.Unauthorized m => "unauthorized: " +:+ m
  | IdentityLinks.Forbidden m => "forbidden: " +:+ m
  | BackendUnreachable m => "backend unreachable: " +:+ m
  | IdentityLinks.Unavailable m => "unavailable: " +:+ m
  | AuditError m => "audit error: " +:+ m
  | BadRequest m => "bad request: " +:+ m
  | Internal m => "internal: " +:+ m
  end.

(** ** Requests *)

Record CapRequest := {
  req_operator_omni : string;
  req_actor_omni : string;
  req_service : string;
  req_device_key_hash : string;
  ttl_seconds : option Z;
  req_client_sig : option string;
  req_client_nonce : option string;
  req_client_ts : option Z;
  req_delegation_path : option DelegationPath;
}.

Definition SPEECH_SERVICE : string := "speech".

(** The requests with a lifetime that is always there: the class of a classification
    is named, a speech request has none. *)
Record CapSpeechRequest := { speech_request : CapRequest; speech_ttl : Z }.
Record CapClassifyRequest := { classify_request : CapRequest; classify_ttl : Z; classify_class : DataClass }.

Definition with_ttl (r : CapRequest) (ttl : Z) : CapRequest :=
  {| req_operator_omni := req_operator_omni r; req_actor_omni := req_actor_omni r;
     req_service := req_service r; req_device_key_hash := req_device_key_hash r; ttl_seconds := Some ttl;
     req_client_sig := req_client_sig r; req_client_nonce := req_client_nonce r;
     req_client_ts := req_client_ts r; req_delegation_path := req_delegation_path r |}.

(** The error text of the [hex] crate for a string. *)
Class HexErrors := { hex_error : string -> string }.

(** The signing half of [p256], and the URL-safe alphabet. *)
Class CapSigner := {
  P256SigningKey : Type;
  signing_key_from_pkcs8_pem : string -> result string P256SigningKey;
  p256_sign : P256SigningKey -> bytes -> bytes;
  b64url_encode : bytes -> string;
}.

(** ** Text *)

Section Text.
Context `{HexCodec, HexErrors}.

Definition validate_hex32 (s field : string) : result CapError unit :=
  guard! starts_with "0x" s else InvalidInput (field +:+ " must start with 0x") ;;
  guard! (String.length s =? 66)%nat
    else InvalidInput (field +:+ " must be 66 chars (0x + 64 hex), got " +:+ dec (Z.of_nat (String.length s))) ;;
  let? _ := ok_or (InvalidInput (field +:+ " contains non-hex chars")) (hex_decode (default s (strip_prefix "0x" s))) in
  Ok tt.

Definition normalize_hex32 (s : string) : result string string :=
  let stripped := default s (strip_prefix "0x" s) in
  guard! (String.length stripped =? 64)%nat
    else ("expected 64-hex, got " +:+ dec (Z.of_nat (String.length stripped))) ;;
  let? _ := ok_or (hex_error stripped) (hex_decode stripped) in
  Ok (to_lowercase stripped).

Definition strip_0x_pad32 (s field : string) : result CapError string :=
  let? _ := validate_hex32 s field in
  Ok (to_lowercase (default s (strip_prefix "0x" s))).

(** The header: absent, not text, or its text. *)
Definition extract_bearer (header : option (option string)) : result CapError string :=
  let? h := ok_or (Unauthorized "missing Authorization header") header in
  let? h := ok_or (Unauthorized "Authorization not UTF-8") h in
  ok_or (Unauthorized "Authorization must be 'Bearer <jwt>'") (strip_prefix "Bearer " h).
End Text.

(** ** Who may mint what *)

Definition op_requires_actor_session (op : CapOp) : bool :=
  match op with
  | CanonicalFetch | Append | ChannelPublish | ChannelSubscribe | SpeechUse => true
  | _ => false
  end.

Definition op_accepts_actor_session (op : CapOp) : bool :=
  match op with Store | Fetch => true | _ => false end.

Definition session_holder_ok (op : CapOp) (session_omni req_omni req_actor : string) : bool :=
  if op_requires_actor_session op then String.eqb session_omni req_actor
  else if op_accepts_actor_session op then String.eqb session_omni req_omni || String.eqb session_omni req_actor
  else String.eqb session_omni req_omni.

Section Rules.
Context `{HexCodec, HexErrors}.

Definition enforce_cred_store_master_self (op : CapOp) (data_class : DataClass)
    (session_omni_norm actor_omni_raw : string) : result CapError unit :=
  if negb (bool_decide (op = Store)) || negb (bool_decide (data_class = Credentials)) then Ok tt
  else
    let? actor := map_err (fun e => InvalidInput ("actor_omni invalid: " +:+ e)) (normalize_hex32 actor_omni_raw) in
    guard! String.eqb actor session_omni_norm
      else Forbidden "cred store is master-self only — agents cannot self-store credentials (single-vault: every credential lives in the operator's vault)"
             "cred_store_not_master_self" ;;
    Ok tt.

Definition enforce_channel_teardown_owner (r : CapRequest) : result CapError unit :=
  let? operator := map_err InvalidInput (normalize_hex32 (req_operator_omni r)) in
  let? actor := map_err InvalidInput (normalize_hex32 (req_actor_omni r)) in
  let valid_service := match strip_prefix "channel-pub:" (req_service r) with
                       | Some id => valid_channel_id id | None => false end in
  guard! String.eqb operator actor && valid_service
    else Forbidden "channel deletion requires owner-self authority for one channel" "channel_delete_not_owner" ;;
  Ok tt.

Definition enforce_inbox_delete_owner (r : CapRequest) : result CapError unit :=
  let? operator := map_err InvalidInput (normalize_hex32 (req_operator_omni r)) in
  let? actor := map_err InvalidInput (normalize_hex32 (req_actor_omni r)) in
  guard! String.eqb operator actor && String.eqb (req_service r) "inbox"
    else Forbidden "inbox deletion requires owner-self authority for inbox" "inbox_delete_not_owner" ;;
  Ok tt.
End Rules.

(** ** The proof of possession, checked when it is there *)

Section Pop.
Context `{HexCodec} `{Crypto}.

Definition BROKER_POP_MAX_AGE_SECS : Z := 300.

Definition verify_cap_pop (r : CapRequest) (op : CapOp) (data_class : DataClass) (clock : option Z)
    : result CapError unit :=
  match req_client_sig r, req_client_nonce r, req_client_ts r with
  | Some client_sig, Some client_nonce, Some client_ts =>
      let now := default 0 clock in
      guard! negb (u64_add now 60 <? client_ts)
        else CapPopInvalid ("client_ts " +:+ dec client_ts +:+ " is in the future (now " +:+ dec now +:+ ")") ;;
      guard! negb (BROKER_POP_MAX_AGE_SECS <? u64_saturating_sub now client_ts)
        else CapPopInvalid ("client_ts " +:+ dec client_ts +:+ " is stale (now " +:+ dec now +:+ ", max age "
                            +:+ dec BROKER_POP_MAX_AGE_SECS +:+ "s)") ;;
      let preimage := cap_pop_payload (req_operator_omni r) (req_actor_omni r) (req_service r)
        (CapOp_as_str op) (DataClass_as_str data_class) client_nonce client_ts in
      let? recovered := map_err (fun e => CapPopInvalid ("client_sig recover: " +:+ display_device_error e))
        (ecrecover_eip191 preimage client_sig) in
      let? recovered_hash := map_err (fun e => CapPopInvalid ("recovered address hash: " +:+ display_device_error e))
        (device_key_hash recovered) in
      if String.eqb (strip_0x_lc recovered_hash) (strip_0x_lc (req_device_key_hash r)) then Ok tt
      else match req_delegation_path r with
           | Some deleg =>
               guard! negb (deleg_expires_at deleg <=? now)
                 else CapPopInvalid ("delegation expired at " +:+ dec (deleg_expires_at deleg)
                                     +:+ " (now " +:+ dec now +:+ ")") ;;
               guard! cap_in_scope (deleg_scope deleg) (DataClass_as_str data_class) (CapOp_as_str op) (req_service r)
                 else CapPopInvalid ("cap (service " +:+ req_service r +:+ ") outside delegation scope "
                                     +:+ debug_str (deleg_scope deleg)) ;;
               let? _ := map_err (fun e => CapPopInvalid ("delegation verify: " +:+ display_device_error e))
                 (verify_delegation (req_device_key_hash r) recovered (deleg_scope deleg)
                    (deleg_expires_at deleg) (delegation_sig deleg)) in
               Ok tt
           | None => Err (CapPopInvalid "client_sig does not match device_key_hash (K10 proof-of-possession failed)")
           end
  | _, _, _ => Ok tt
  end.
End Pop.

(** ** The chain *)

Record ContractInfo := { contract_name : string; contract_address : string }.

(** What the broker reads of a profile, its endpoint already overridden. *)
Record ChainProfile := { rpc_http : string; profile_contracts : list ContractInfo }.

Record ChainContracts := {
  chain_rpc_url : string;
  chain_registry : string;
  chain_scope : string;
  chain_epoch : string;
}.

Record DeviceEntry := {
  entry_operator_omni : string;
  entry_actor_omni : string;
  entry_roles : Z;
  entry_registered_at : Z;
  entry_revoked : bool;
}.

Definition BROKER_ATTEMPTS : nat := 4.

(** What an attempt settles: any JSON-RPC error is final here. *)
Definition broker_outcome (a : RpcAttempt) : result CapError string + string :=
  match a with
  | SendError e => inr ("eth_call POST failed: " +:+ e)
  | ServerError status => inr ("eth_call HTTP " +:+ status)
  | BadJson e => inr ("eth_call JSON parse: " +:+ e)
  | Reply (Some err) _ => inl (Err (ChainRpc ("RPC error: " +:+ err_display err)))
  | Reply None (Some s) => inl (Ok s)
  | Reply None None => inl (Err (ChainRpc "eth_call missing 'result'"))
  end.

(** [for attempt in 0..ATTEMPTS], with the pauses taken, in milliseconds. *)
Fixpoint broker_eth_call_loop (answer : nat -> RpcAttempt) (fuel attempt : nat) (last : string)
    : result CapError string * list Z :=
  match fuel with
  | O => (Err (ChainRpc ("eth_call failed after " +:+ dec (Z.of_nat BROKER_ATTEMPTS)
                         +:+ " attempts: " +:+ last)), [])
  | S fuel =>
      let pause := if (0 <? attempt)%nat then [backoff_ms attempt] else [] in
      match broker_outcome (answer attempt) with
      | inl r => (r, pause)
      | inr last =>
          let '(r, pauses) := broker_eth_call_loop answer fuel (S attempt) last in
          (r, (pause ++ pauses)%list)
      end
  end.

Definition broker_eth_call (answer : nat -> RpcAttempt) : result CapError string :=
  (broker_eth_call_loop answer BROKER_ATTEMPTS 0 "").1.

Section Chain.
Context `{HexCodec} `{Crypto}.

Definition profile_contract (profile : ChainProfile) (name : string) : option ContractInfo :=
  List.find (fun c => eq_lower (contract_name c) name) (profile_contracts profile).

Definition contract (profile : ChainProfile) (name : string) : result string string :=
  let? info := ok_or ("chain profile is missing " +:+ name) (profile_contract profile name) in
  let address := contract_address info in
  let? decoded := ok_or ("chain profile has invalid " +:+ name +:+ " address")
    (hex_decode (default address (strip_prefix "0x" address))) in
  guard! negb (negb (length decoded =? 20)%nat || bool_decide (decoded = repeat Byte.x00 20))
    else "chain profile has invalid " +:+ name +:+ " address" ;;
  Ok address.

Definition from_state (profile : result string ChainProfile) : result CapError ChainContracts :=
  let? profile := map_err ChainRpc profile in
  let? registry := map_err ChainRpc (contract profile "SidecarRegistry") in
  let? scope := map_err ChainRpc (contract profile "AgentKeysScope") in
  let? epoch := map_err ChainRpc (contract profile "K3EpochCounter") in
  Ok {| chain_rpc_url := rpc_http profile; chain_registry := registry;
        chain_scope := scope; chain_epoch := epoch |}.

Definition broker_parse_device_entry (raw : string) : result CapError DeviceEntry :=
  let? record := map_err ChainRpc (parse_device_probe raw) in
  Ok {| entry_operator_omni := hex_encode (rec_operator_omni record);
        entry_actor_omni := hex_encode (rec_actor_omni record);
        entry_roles := roles record;
        entry_registered_at := registered_at record;
        entry_revoked := revoked record |}.

Definition parse_bool_result (raw : string) : result CapError bool :=
  map_err ChainRpc (let? b := decode_hex raw in decode_bool b).

Definition parse_u64_result (raw : string) : result CapError Z :=
  map_err ChainRpc (let? b := decode_hex raw in decode_u64 b).

Variable rpc : string -> string -> string -> nat -> RpcAttempt.

Definition call_get_device (url registry device_key_hash : string) : result CapError DeviceEntry :=
  let selector := function_selector "getDevice(bytes32)" in
  let? arg := strip_0x_pad32 device_key_hash "device_key_hash" in
  let? raw := broker_eth_call (rpc url registry ("0x" +:+ selector +:+ arg)) in
  broker_parse_device_entry raw.

Definition call_is_service_in_scope (url scope operator actor service_hash : string)
    : result CapError bool :=
  let selector := function_selector "isServiceInScope(bytes32,bytes32,bytes32)" in
  let? a := strip_0x_pad32 operator "operator_omni" in
  let? b := strip_0x_pad32 actor "actor_omni" in
  let? c := strip_0x_pad32 service_hash "service_hash" in
  let? raw := broker_eth_call (rpc url scope ("0x" +:+ selector +:+ a +:+ b +:+ c)) in
  parse_bool_result raw.

Definition call_current_epoch (url epoch : string) : result CapError Z :=
  let selector := function_selector "currentEpoch()" in
  let? raw := broker_eth_call (rpc url epoch ("0x" +:+ selector)) in
  parse_u64_result raw.
End Chain.

(** ** Minting *)

(** What the handlers read of their surroundings: the configuration, the resolved
    chain profile, the endpoint, the two clock readings (at the proof of possession
    and at the signature) and the sixteen random bytes. *)
Record MintEnv := {
  env_config : BrokerConfig;
  env_profile : result string ChainProfile;
  env_rpc : string -> string -> string -> nat -> RpcAttempt;
  pop_clock : option Z;
  sign_clock : option Z;
  nonce_bytes : bytes;
}.

Section Mint.
Context `{HexCodec, HexErrors, Crypto, Sha256, Jwt, P256, CapJson, CapSigner}.

Definition sign_cap_payload (signing_pem : string) (p : CapPayload) : result CapError string :=
  let? canonical := map_err (fun e => Sign ("payload JSON encode: " +:+ e)) (payload_to_vec p) in
  let digest := sha256 canonical in
  let? key := map_err (fun e => Sign ("load signing key: " +:+ e)) (signing_key_from_pkcs8_pem signing_pem) in
  Ok (b64url_encode (p256_sign key digest)).

Definition bad_service (service : string) : bool :=
  string_has "*"%char service || string_has "?"%char service || string_has "/"%char service
  || string_has "\"%char service || CapabilityVerify.contains ".." service.

(** The checks of the request's text, and the lifetime. *)
Definition check_request (r : CapRequest) : result CapError Z :=
  let? _ := validate_hex32 (req_operator_omni r) "operator_omni" in
  let? _ := validate_hex32 (req_actor_omni r) "actor_omni" in
  let? _ := validate_hex32 (req_device_key_hash r) "device_key_hash" in
  let n := String.length (req_service r) in
  guard! negb ((n =? 0)%nat || (64 <? n)%nat) else InvalidInput "service must be 1..=64 chars" ;;
  guard! negb (bad_service (req_service r))
    else InvalidInput "service must not contain wildcard or path characters (* ? / \ ..)" ;;
  guard! negb (is_capability_service (req_service r))
    else Forbidden ("capability service " +:+ debug_str (req_service r)
                    +:+ " is never cap-mintable — tool:/plugin: grants are consumed by the delegate runtime's guard/preset compiler only (#614)")
                   "cap_capability_service_not_mintable" ;;
  Ok (Z.min 1800 (Z.max 60 (default default_ttl_seconds (ttl_seconds r)))).

(** The device must be active, bound to the operator and the actor, and a minter. *)
Definition check_device (device : DeviceEntry) (operator actor : string) : result CapError unit :=
  guard! negb (entry_registered_at device =? 0) else DeviceNotActive ;;
  guard! negb (entry_revoked device) else DeviceRevoked ;;
  guard! String.eqb (entry_operator_omni device) operator else DeviceBindingMismatch "operator_omni" ;;
  guard! String.eqb (entry_actor_omni device) actor else DeviceBindingMismatch "actor_omni" ;;
  guard! negb (Z.land (entry_roles device) ROLE_CAP_MINT =? 0) else DeviceRoleMissing ;;
  Ok tt.

(** The session and its right to mint: the operator and the actor, normalized. *)
Definition check_session (env : MintEnv) (header : option (option string)) (r : CapRequest)
    (op : CapOp) (dc : DataClass) : result CapError (string * string) :=
  let cfg := env_config env in
  let? bearer := extract_bearer header in
  let? claims := map_err (fun e => Unauthorized ("session jwt verify: " +:+ display_broker_error e))
    (verify_session_jwt (session_keypair cfg) (oidc_issuer cfg) bearer) in
  let? session := map_err (fun e => InvalidInput ("session omni invalid: " +:+ e))
    (normalize_hex32 (omni_account (agentkeys claims))) in
  let? operator := map_err (fun e => InvalidInput ("operator_omni invalid: " +:+ e))
    (normalize_hex32 (req_operator_omni r)) in
  let? actor := map_err (fun e => InvalidInput ("actor_omni invalid: " +:+ e))
    (normalize_hex32 (req_actor_omni r)) in
  guard! session_holder_ok op session operator actor else OperatorMismatch ;;
  let? _ := enforce_cred_store_master_self op dc session (req_actor_omni r) in
  Ok (operator, actor).

(** The payload of an authorized request. *)
Definition cap_payload (r : CapRequest) (operator actor : string) (op : CapOp) (dc : DataClass)
    (epoch now ttl : Z) (nonce : bytes) : CapPayload :=
  {| operator_omni := "0x" +:+ operator; actor_omni := "0x" +:+ actor;
     service := to_lowercase (req_service r); op := op; data_class := dc;
     payload_device_key_hash := "0x" +:+ strip_0x_lc (req_device_key_hash r);
     k3_epoch := epoch; issued_at := now; cap_expires_at := u64_add now ttl;
     nonce := hex_encode nonce |}.

Definition mint_cap (env : MintEnv) (header : option (option string)) (r : CapRequest)
    (op : CapOp) (dc : DataClass) : result CapError CapToken :=
  let? ttl := check_request r in
  let? (operator, actor) := check_session env header r op dc in
  let? chain := from_state (env_profile env) in
  let? device := call_get_device (env_rpc env) (chain_rpc_url chain) (chain_registry chain)
    (req_device_key_hash r) in
  let? _ := check_device device operator actor in
  let? _ := verify_cap_pop r op dc (pop_clock env) in
  let service_hash := keccak_lc_service (req_service r) in
  let? in_scope :=
    if String.eqb operator actor then Ok true
    else call_is_service_in_scope (env_rpc env) (chain_rpc_url chain) (chain_scope chain)
           (req_operator_omni r) (req_actor_omni r) service_hash in
  guard! in_scope else ServiceNotInScope ;;
  let? epoch := call_current_epoch (env_rpc env) (chain_rpc_url chain) (chain_epoch chain) in
  let? now := ok_or (Sign "clock before epoch") (sign_clock env) in
  let p := cap_payload r operator actor op dc epoch now ttl (nonce_bytes env) in
  let? sig := sign_cap_payload (private_key_pem (session_keypair (env_config env))) p in
  Ok {| payload := p; broker_sig := sig; client_sig := req_client_sig r;
        client_nonce := req_client_nonce r; client_ts := req_client_ts r;
        delegation_path := req_delegation_path r |}.

(** ** The routes *)

Variable env : MintEnv.
Variable headers : option (option string).

Definition cap_cred_store (r : CapRequest) := mint_cap env headers r Store Credentials.
Definition cap_cred_fetch (r : CapRequest) := mint_cap env headers r Fetch Credentials.
Definition cap_memory_put (r : CapRequest) := mint_cap env headers r Store Memory.
Definition cap_memory_get (r : CapRequest) := mint_cap env headers r Fetch Memory.
Definition cap_memory_canonical_get (r : CapRequest) := mint_cap env headers r CanonicalFetch Memory.
Definition cap_memory_append (r : CapRequest) := mint_cap env headers r Append Memory.
Definition cap_config_store (r : CapRequest) := mint_cap env headers r Store Config.
Definition cap_config_fetch (r : CapRequest) := mint_cap env headers r Fetch Config.
Definition cap_channel_pub (r : CapRequest) := mint_cap env headers r ChannelPublish Channel.
Definition cap_channel_sub (r : CapRequest) := mint_cap env headers r ChannelSubscribe Channel.

Definition cap_channel_teardown (r : CapRequest) : result CapError CapToken :=
  let? _ := enforce_channel_teardown_owner r in
  mint_cap env headers r Teardown Channel.

Definition cap_memory_inbox_delete (r : CapRequest) : result CapError CapToken :=
  let? _ := enforce_inbox_delete_owner r in
  mint_cap env headers r Teardown Memory.

Definition cap_classify (r : CapClassifyRequest) : result CapError CapToken :=
  mint_cap env headers (with_ttl (classify_request r) (classify_ttl r)) Classify (classify_class r).

Definition cap_speech (r : CapSpeechRequest) : result CapError CapToken :=
  guard! String.eqb (req_service (speech_request r)) SPEECH_SERVICE
    else Forbidden ("speech caps are minted for service " +:+ debug_str SPEECH_SERVICE
                    +:+ " only (got " +:+ debug_str (req_service (speech_request r)) +:+ ")")
                   "cap_speech_service_fixed" ;;
  mint_cap env headers (with_ttl (speech_request r) (speech_ttl r)) SpeechUse Speech.

(** A request on one of the fourteen routes. *)
Inductive CapRoute :=
| CredStore (r : CapRequest) | CredFetch (r : CapRequest) | MemoryPut (r : CapRequest)
| MemoryGet (r : CapRequest) | MemoryCanonicalGet (r : CapRequest) | MemoryAppend (r : CapRequest)
| ConfigStore (r : CapRequest) | ConfigFetch (r : CapRequest) | ChannelPub (r : CapRequest)
| ChannelSub (r : CapRequest) | ChannelTeardown (r : CapRequest) | InboxDelete (r : CapRequest)
| ClassifyRoute (r : CapClassifyRequest) | SpeechRoute (r : CapSpeechRequest).

Definition cap_route (route : CapRoute) : result CapError CapToken :=
  match route with
  | CredStore r => cap_cred_store r | CredFetch r => cap_cred_fetch r
  | MemoryPut r => cap_memory_put r | MemoryGet r => cap_memory_get r
  | MemoryCanonicalGet r => cap_memory_canonical_get r | MemoryAppend r => cap_memory_append r
  | ConfigStore r => cap_config_store r | ConfigFetch r => cap_config_fetch r
  | ChannelPub r => cap_channel_pub r | ChannelSub r => cap_channel_sub r
  | ChannelTeardown r => cap_channel_teardown r | InboxDelete r => cap_memory_inbox_delete r
  | ClassifyRoute r => cap_classify r | SpeechRoute r => cap_speech r
  end.
End Mint.

(** ** Lemmas: hex text *)

(** [s] writes the bytes [b], in any case. *)
Definition writes_hex32 `{HexCodec} (s : string) (b : bytes) : Prop :=
  exists h, s = "0x" +:+ h /\ to_lowercase h = hex_encode b /\ String.length h = 64%nat
            /\ hex_decode h = Some b.

Section HexFacts.
Context `{HexCodec, HexErrors}.

Lemma validate_hex32_writes s field : validate_hex32 s field = Ok tt -> exists b, writes_hex32 s b.
Proof.
  unfold validate_hex32. intros Hv.
  apply guard_ok in Hv as [Hs Hv]. apply guard_ok in Hv as [Hl%Nat.eqb_eq Hv].
  apply let_ok in Hv as (b & Hd%ok_or_ok & _).
  apply starts_with_spec in Hs as [h ->].
  change (default ("0x" +:+ h) (strip_prefix "0x" ("0x" +:+ h))) with h in Hd.
  rewrite length_app_str in Hl. change (String.length "0x") with 2%nat in Hl.
  exists b, h. split_and!; [done | symmetry; by apply hex_decode_lower | lia | done].
Qed.

Context (s : string) (b : bytes) (Hs : writes_hex32 s b).

Lemma normalize_writes : normalize_hex32 s = Ok (hex_encode b).
Proof.
  destruct Hs as (h & -> & Hh & Hl & Hd). unfold normalize_hex32.
  change (default ("0x" +:+ h) (strip_prefix "0x" ("0x" +:+ h))) with h.
  by rewrite Hl, Hd, Hh.
Qed.

Lemma validate_writes field : validate_hex32 s field = Ok tt.
Proof.
  destruct Hs as (h & -> & Hh & Hl & Hd). unfold validate_hex32.
  change (default ("0x" +:+ h) (strip_prefix "0x" ("0x" +:+ h))) with h.
  rewrite starts_with_self, length_app_str, Hl, Hd. done.
Qed.

Lemma strip_0x_pad32_writes field : strip_0x_pad32 s field = Ok (hex_encode b).
Proof.
  unfold strip_0x_pad32. rewrite validate_writes.
  destruct Hs as (h & -> & Hh & _). by rewrite <-Hh.
Qed.

Lemma strip_0x_lc_writes : strip_0x_lc s = hex_encode b.
Proof. destruct Hs as (h & -> & Hh & _). done. Qed.

Lemma strip0x_lower_writes : strip0x_lower s = hex_encode b.
Proof.
  destruct Hs as (h & -> & Hh & _). unfold strip0x_lower.
  rewrite <-trim_lower, lower_app, Hh. change (to_lowercase "0x") with "0x".
  by rewrite trim_0x_hex.
Qed.

(** The canonical spelling of the same bytes. *)
Lemma writes_canonical : writes_hex32 ("0x" +:+ hex_encode b) b.
Proof.
  destruct Hs as (h & _ & Hh & Hl & _). exists (hex_encode b).
  split_and!; [done | apply hex_encode_lower | | apply hex_decode_encode].
  rewrite <-Hh. by rewrite lower_length.
Qed.

Lemma pad32_writes : pad32 s = Ok (hex_encode b).
Proof.
  destruct Hs as (h & -> & Hh & Hl & _). unfold pad32.
  change (strip_0x ("0x" +:+ h)) with h. by rewrite Hl, Hh.
Qed.
End HexFacts.

(** ** Lemmas: what a minted token went through *)

Section MintFacts.
Context `{HexCodec, HexErrors, Crypto, Sha256, Jwt, P256, CapJson, CapSigner}.
Variables (env : MintEnv) (header : option (option string)).

Lemma check_request_ok r ttl : check_request r = Ok ttl ->
  60 <= ttl <= 1800 /\ bad_service (req_service r) = false /\
  is_capability_service (req_service r) = false /\
  exists bo ba bd, writes_hex32 (req_operator_omni r) bo /\ writes_hex32 (req_actor_omni r) ba /\
    writes_hex32 (req_device_key_hash r) bd.
Proof.
  unfold check_request. intros Hc.
  apply let_ok in Hc as ([] & [bo Ho]%validate_hex32_writes & Hc).
  apply let_ok in Hc as ([] & [ba Ha]%validate_hex32_writes & Hc).
  apply let_ok in Hc as ([] & [bd Hd]%validate_hex32_writes & Hc).
  apply guard_ok in Hc as [_ Hc]. apply guard_ok in Hc as [Hb Hc].
  apply guard_ok in Hc as [Hs [= <-]]. reflect_bools.
  split_and!; [lia | lia | done | done | by exists bo, ba, bd].
Qed.

(** The session's account, normalized. *)
Definition session_of : result CapError string :=
  let? bearer := extract_bearer header in
  let? claims := map_err (fun e => Unauthorized ("session jwt verify: " +:+ display_broker_error e))
    (verify_session_jwt (session_keypair (env_config env)) (oidc_issuer (env_config env)) bearer) in
  map_err (fun e => InvalidInput ("session omni invalid: " +:+ e))
    (normalize_hex32 (omni_account (agentkeys claims))).

Lemma check_session_ok r op dc bo ba o a :
  writes_hex32 (req_operator_omni r) bo -> writes_hex32 (req_actor_omni r) ba ->
  check_session env header r op dc = Ok (o, a) ->
  o = hex_encode bo /\ a = hex_encode ba /\
  exists session, session_of = Ok session /\ session_holder_ok op session o a = true /\
    (op = Store -> dc = Credentials -> session = a).
Proof.
  intros Ho Ha Hc. unfold check_session in Hc.
  apply let_ok in Hc as (bearer & Hb & Hc). apply let_ok in Hc as (claims & Hcl & Hc).
  apply let_ok in Hc as (session & Hs & Hc).
  rewrite (normalize_writes _ _ Ho), (normalize_writes _ _ Ha) in Hc. cbn [map_err] in Hc.
  apply guard_ok in Hc as [Hh Hc]. apply let_ok in Hc as ([] & He & [= <- <-]).
  split; [done|]. split; [done|]. exists session. split_and!; [| done |].
  - unfold session_of. by rewrite Hb, Hcl.
  - intros -> ->. unfold enforce_cred_store_master_self in He.
    rewrite (normalize_writes _ _ Ha), !bool_decide_eq_true_2 in He by done.
    cbn [negb orb map_err] in He. apply guard_ok in He as [He%String.eqb_eq _]. done.
Qed.

Lemma check_device_ok d o a : check_device d o a = Ok tt ->
  entry_registered_at d <> 0 /\ entry_revoked d = false /\ entry_operator_omni d = o /\
  entry_actor_omni d = a /\ Z.land (entry_roles d) ROLE_CAP_MINT <> 0.
Proof.
  unfold check_device. rewrite !guard_ok, !negb_true_iff, !String.eqb_eq, !Z.eqb_neq. naive_solver.
Qed.

(** The token of a request, in terms of what the checks established. *)
Definition token_of (r : CapRequest) (op : CapOp) (dc : DataClass) (o a : string)
    (epoch now ttl : Z) (sig : string) : CapToken :=
  {| payload := cap_payload r o a op dc epoch now ttl (nonce_bytes env); broker_sig := sig;
     client_sig := req_client_sig r; client_nonce := req_client_nonce r;
     client_ts := req_client_ts r; delegation_path := req_delegation_path r |}.

Definition chain_grants (chain : ChainContracts) (r : CapRequest) : Prop :=
  call_is_service_in_scope (env_rpc env) (chain_rpc_url chain) (chain_scope chain)
    (req_operator_omni r) (req_actor_omni r) (keccak_lc_service (req_service r)) = Ok true.

(** A successful mint: every check passed. *)
Inductive minted (r : CapRequest) (op : CapOp) (dc : DataClass) : CapToken -> Prop :=
| Minted ttl bo ba bd session chain device epoch now sig
    (Httl : 60 <= ttl <= 1800)
    (Hpath : bad_service (req_service r) = false)
    (Hfamily : is_capability_service (req_service r) = false)
    (Ho : writes_hex32 (req_operator_omni r) bo)
    (Ha : writes_hex32 (req_actor_omni r) ba)
    (Hd : writes_hex32 (req_device_key_hash r) bd)
    (Hsession : session_of = Ok session)
    (Hholder : session_holder_ok op session (hex_encode bo) (hex_encode ba) = true)
    (Hstore : op = Store -> dc = Credentials -> session = hex_encode ba)
    (Hchain : from_state (env_profile env) = Ok chain)
    (Hdevice : call_get_device (env_rpc env) (chain_rpc_url chain) (chain_registry chain)
       (req_device_key_hash r) = Ok device)
    (Hactive : entry_registered_at device <> 0 /\ entry_revoked device = false /\
       entry_operator_omni device = hex_encode bo /\ entry_actor_omni device = hex_encode ba /\
       Z.land (entry_roles device) ROLE_CAP_MINT <> 0)
    (Hpop : verify_cap_pop r op dc (pop_clock env) = Ok tt)
    (Hscope : hex_encode bo = hex_encode ba \/ chain_grants chain r)
    (Hepoch : call_current_epoch (env_rpc env) (chain_rpc_url chain) (chain_epoch chain) = Ok epoch)
    (Hnow : sign_clock env = Some now)
    (Hsig : sign_cap_payload (private_key_pem (session_keypair (env_config env)))
       (payload (token_of r op dc (hex_encode bo) (hex_encode ba) epoch now ttl sig)) = Ok sig) :
    minted r op dc (token_of r op dc (hex_encode bo) (hex_encode ba) epoch now ttl sig).

Lemma mint_cap_minted r op dc token : mint_cap env header r op dc = Ok token -> minted r op dc token.
Proof.
  unfold mint_cap. intros Hm.
  apply let_ok in Hm as (ttl & (Httl & Hp & Hf & bo & ba & bd & Ho & Ha & Hd)%check_request_ok & Hm).
  apply let_ok in Hm as ([o a] & Hs & Hm).
  apply (check_session_ok _ _ _ _ _ _ _ Ho Ha) in Hs as (-> & -> & session & Hso & Hh & Hst).
  apply let_ok in Hm as (chain & Hc & Hm). apply let_ok in Hm as (device & Hde & Hm).
  apply let_ok in Hm as ([] & Hact%check_device_ok & Hm).
  apply let_ok in Hm as ([] & Hpop & Hm). apply let_ok in Hm as (g & Hg & Hm).
  apply guard_ok in Hm as [-> Hm]. apply let_ok in Hm as (epoch & He & Hm).
  apply let_ok in Hm as (now & Hn%ok_or_ok & Hm). apply let_ok in Hm as (sig & Hsig & [= <-]).
  eapply Minted; try done.
  destruct (String.eqb_spec (hex_encode bo) (hex_encode ba)); [by left | by right].
Qed.
End MintFacts.

(** ** Lemmas: the canonical spelling reads alike *)

Lemma is_capability_service_lower s : is_capability_service (to_lowercase s) = is_capability_service s.
Proof. unfold is_capability_service. by rewrite trim_lower, lower_idem. Qed.

Section Canonical.
Context `{HexCodec, HexErrors, Crypto}.

Lemma keccak_lc_service_lower s : keccak_lc_service (to_lowercase s) = keccak_lc_service s.
Proof. unfold keccak_lc_service. by rewrite lower_idem. Qed.

Lemma call_get_device_canonical rpc url registry s b : writes_hex32 s b ->
  call_get_device rpc url registry ("0x" +:+ hex_encode b) = call_get_device rpc url registry s.
Proof.
  intros Hs. unfold call_get_device.
  by rewrite (strip_0x_pad32_writes _ _ Hs), (strip_0x_pad32_writes _ _ (writes_canonical _ _ Hs)).
Qed.

Lemma call_is_service_in_scope_canonical rpc url scope s s' b b' h :
  writes_hex32 s b -> writes_hex32 s' b' ->
  call_is_service_in_scope rpc url scope ("0x" +:+ hex_encode b) ("0x" +:+ hex_encode b') h =
  call_is_service_in_scope rpc url scope s s' h.
Proof.
  intros Hs Hs'. unfold call_is_service_in_scope.
  by rewrite (strip_0x_pad32_writes _ _ Hs), (strip_0x_pad32_writes _ _ (writes_canonical _ _ Hs)),
    (strip_0x_pad32_writes _ _ Hs'), (strip_0x_pad32_writes _ _ (writes_canonical _ _ Hs')).
Qed.
End Canonical.

(** ** Lemmas: the routes *)

Lemma valid_channel_id_lower id : valid_channel_id id = true -> to_lowercase id = id.
Proof.
  unfold valid_channel_id. intros Hv. reflect_bools.
  match goal with H : string_all _ id = true |- _ => revert H end. clear.
  unfold to_lowercase. induction id as [|c s IH]; cbn; [done|].
  intros [Hc Hs]%andb_true_iff. rewrite (IH Hs). f_equal.
  pose proof (ascii_forall (fun c => negb (is_ascii_lowercase c || is_ascii_digit c || Ascii.eqb c "-"%char)
    || Ascii.eqb (char_lower c) c) eq_refl c) as Hl. cbv beta in Hl. rewrite Hc in Hl.
  by apply Ascii.eqb_eq in Hl.
Qed.

Section Routes.
Context `{HexCodec, HexErrors, Crypto, Sha256, Jwt, P256, CapJson, CapSigner}.

Definition owner_teardown (r : CapRequest) (dc : DataClass) : Prop :=
  (forall bo ba, writes_hex32 (req_operator_omni r) bo -> writes_hex32 (req_actor_omni r) ba ->
     hex_encode bo = hex_encode ba) /\
  (dc = Memory /\ req_service r = "inbox" \/
   dc = Channel /\ exists id, valid_channel_id id = true /\ req_service r = "channel-pub:" +:+ id).

Lemma channel_teardown_owner r : enforce_channel_teardown_owner r = Ok tt -> owner_teardown r Channel.
Proof.
  unfold enforce_channel_teardown_owner. intros He.
  apply let_ok in He as (o & Ho%map_err_ok & He). apply let_ok in He as (a & Ha%map_err_ok & He).
  apply guard_ok in He as [[->%String.eqb_eq Hv]%andb_true_iff _]. split.
  - intros bo ba Wo Wa. rewrite (normalize_writes _ _ Wo) in Ho. rewrite (normalize_writes _ _ Wa) in Ha.
    congruence.
  - right. split; [done|]. destruct (strip_prefix _ _) as [id|] eqn:E; [|done].
    apply strip_prefix_spec in E. by exists id.
Qed.

Lemma inbox_delete_owner r : enforce_inbox_delete_owner r = Ok tt -> owner_teardown r Memory.
Proof.
  unfold enforce_inbox_delete_owner. intros He.
  apply let_ok in He as (o & Ho%map_err_ok & He). apply let_ok in He as (a & Ha%map_err_ok & He).
  apply guard_ok in He as [[->%String.eqb_eq Hv%String.eqb_eq]%andb_true_iff _]. split; [|by left].
  intros bo ba Wo Wa. rewrite (normalize_writes _ _ Wo) in Ho. rewrite (normalize_writes _ _ Wa) in Ha.
  congruence.
Qed.

(** What a route asks for. *)
Definition route_asks (route : CapRoute) : CapOp * DataClass :=
  match route with
  | CredStore _ => (Store, Credentials) | CredFetch _ => (Fetch, Credentials)
  | MemoryPut _ => (Store, Memory) | MemoryGet _ => (Fetch, Memory)
  | MemoryCanonicalGet _ => (CanonicalFetch, Memory) | MemoryAppend _ => (Append, Memory)
  | ConfigStore _ => (Store, Config) | ConfigFetch _ => (Fetch, Config)
  | ChannelPub _ => (ChannelPublish, Channel) | ChannelSub _ => (ChannelSubscribe, Channel)
  | ChannelTeardown _ => (Teardown, Channel) | InboxDelete _ => (Teardown, Memory)
  | ClassifyRoute r => (Classify, classify_class r) | SpeechRoute _ => (SpeechUse, Speech)
  end.

(** Whose session an operation takes: what a delegate or a device does for itself takes its
    own, storing and fetching takes either's, deleting and classifying the operator's. *)
Definition entitled (op : CapOp) (session operator actor : string) : Prop :=
  match op with
  | CanonicalFetch | Append | ChannelPublish | ChannelSubscribe | SpeechUse => session = actor
  | Store | Fetch => session = operator \/ session = actor
  | Teardown | Classify => session = operator
  end.

Lemma cap_route_mints env headers route token : cap_route env headers route = Ok token ->
  exists r, mint_cap env headers r (route_asks route).1 (route_asks route).2 = Ok token /\
    ((route_asks route).1 = Teardown -> owner_teardown r (route_asks route).2) /\
    ((route_asks route).1 = SpeechUse -> req_service r = "speech").
Proof.
  destruct route as [r|r|r|r|r|r|r|r|r|r|r|r|r|r]; cbn [cap_route route_asks fst snd]; intros Hm;
    try (exists r; split; [exact Hm|]; done).
  - unfold cap_channel_teardown in Hm. apply let_ok in Hm as ([] & He%channel_teardown_owner & Hm).
    eexists. split; [exact Hm|]. done.
  - unfold cap_memory_inbox_delete in Hm. apply let_ok in Hm as ([] & He%inbox_delete_owner & Hm).
    eexists. split; [exact Hm|]. done.
  - eexists. split; [exact Hm|]. done.
  - unfold cap_speech in Hm. apply guard_ok in Hm as [He%String.eqb_eq Hm].
    eexists. split; [exact Hm|]. done.
Qed.
End Routes.

(** ** Properties *)

(** C39: what stands behind a capability the broker signs.  It is for the operation and the
    data class of its route, and its session is the one that the operation takes:
    publishing, subscribing, appending, canonical reads and speech only the actor's own;
    a deletion or a classification only the operator's; storing and fetching either's,
    and storing credentials the actor's, which besides the master may be a delegate with
    a grant ([delegate_mints_credential_store]).  The device it names is on the chain, active, a minter, and bound to exactly its
    operator and actor; an actor other than the operator holds the operator's grant
    of exactly its service; a deletion is the owner's own, of the inbox or of one
    channel; speech is for the speech service; no capability names a runtime grant
    or a path; and it lives between one and thirty minutes. *)
Theorem minted_authority `{HexCodec, HexErrors, Crypto, Sha256, Jwt, P256, CapJson, CapSigner}
    (env : MintEnv) (headers : option (option string)) (route : CapRoute) (token : CapToken)
    (Hclock : forall now, sign_clock env = Some now -> is_u64 now /\ is_u64 (now + 1800))
    (Hmint : cap_route env headers route = Ok token) :
  let p := payload token in
  exists session operator actor chain device,
    session_of env headers = Ok session /\
    operator_omni p = "0x" +:+ operator /\ actor_omni p = "0x" +:+ actor /\
    (op p, data_class p) = route_asks route /\ entitled (op p) session operator actor /\
    (op p = Store -> data_class p = Credentials -> session = actor) /\
    from_state (env_profile env) = Ok chain /\
    call_get_device (env_rpc env) (chain_rpc_url chain) (chain_registry chain)
      (payload_device_key_hash p) = Ok device /\
    (entry_registered_at device <> 0 /\ entry_revoked device = false /\
     entry_operator_omni device = operator /\ entry_actor_omni device = actor /\
     Z.land (entry_roles device) ROLE_CAP_MINT <> 0) /\
    (operator = actor \/
     call_is_service_in_scope (env_rpc env) (chain_rpc_url chain) (chain_scope chain)
       (operator_omni p) (actor_omni p) (keccak_lc_service (service p)) = Ok true) /\
    (op p = Teardown -> session = operator /\ operator = actor /\
     (data_class p = Memory /\ service p = "inbox" \/
      data_class p = Channel /\ exists id, valid_channel_id id = true /\ service p = "channel-pub:" +:+ id)) /\
    (op p = SpeechUse -> service p = "speech") /\
    is_capability_service (service p) = false /\
    60 <= cap_expires_at p - issued_at p <= 1800.
Proof.
  intros p. apply cap_route_mints in Hmint as (r & Hm & Htear & Hspeech).
  destruct (route_asks route) as [o dc] eqn:Hasks. cbn [fst snd] in *. apply mint_cap_minted in Hm. unfold p. destruct Hm.
  destruct Hactive as (? & ? & ? & ? & ?).
  cbn [token_of payload cap_payload operator_omni actor_omni op data_class service
       payload_device_key_hash cap_expires_at issued_at].
  exists session, (hex_encode bo), (hex_encode ba), chain, device.
  rewrite (strip_0x_lc_writes _ _ Hd), (call_get_device_canonical _ _ _ _ _ Hd),
    (call_is_service_in_scope_canonical _ _ _ _ _ _ _ _ Ho Ha), keccak_lc_service_lower,
    is_capability_service_lower.
  split_and!; try done.
  - revert Hholder. unfold session_holder_ok, entitled.
    destruct o; cbn; by rewrite ?orb_true_iff, !String.eqb_eq.
  - intros ->. destruct (Htear eq_refl) as [Hsame Hwhat]. cbn in Hholder.
    apply String.eqb_eq in Hholder. split_and!; [done | by apply Hsame |].
    destruct Hwhat as [[-> ->]|(-> & id & Hv & ->)]; [by left | right].
    split; [done|]. exists id. split; [done|]. rewrite lower_app, (valid_channel_id_lower _ Hv). done.
  - intros ->. by rewrite (Hspeech eq_refl).
  - destruct (Hclock now Hnow). unfold u64_add. rewrite wrap_u64_small by (unfold is_u64 in *; lia). lia.
  - destruct (Hclock now Hnow). unfold u64_add. rewrite wrap_u64_small by (unfold is_u64 in *; lia). lia.
Qed.

(** ** Concrete requests *)

Module ToyMint.
#[local] Existing Instances SimpleHex.codec ToyCrypto.crypto ToyVerifier.sha ToyVerifier.p256
  ToyVerifier.json ToyLogin.jwt.

Definition errors : HexErrors := {| hex_error _ := "odd number of digits" |}.

(** The key is its text, and signs with it. *)
Definition signer : CapSigner := {|
  P256SigningKey := string;
  signing_key_from_pkcs8_pem s := Ok s;
  p256_sign k _ := as_bytes k;
  b64url_encode b := string_of_list_ascii (map Ascii.ascii_of_byte b);
|}.

#[local] Existing Instances errors signer.

Definition omni (c : Ascii.ascii) : string := "0x" +:+ rep64 c.
Definition account (c : Ascii.ascii) : bytes := default [] (hex_decode (rep64 c)).

(** A chain on which device [true] is bound to the operator [o] and the actor [a],
    and every service is granted. *)
Definition device (o a : Ascii.ascii) : DeviceRecord :=
  {| rec_operator_omni := account o; rec_actor_omni := account a; k11_cred_id := abi_word 0;
     k11_rp_id_hash := abi_word 0; k11_pub_x := abi_word 0; k11_pub_y := abi_word 0; tier := 1;
     roles := 1; registered_at := 7; last_sign_count := 0; revoked := false |}.

Definition rpc (o a : Ascii.ascii) (_ to _ : string) (_ : nat) : RpcAttempt :=
  Reply None (Some ("0x" +:+ hex_encode
    (if String.eqb to ("0x" +:+ hex_encode (repeat Byte.x01 20)) then encode_device_record (device o a)
     else abi_word 1))).

Definition address (b : Byte.byte) : string := "0x" +:+ hex_encode (repeat b 20).

Definition profile : ChainProfile :=
  {| rpc_http := "http://chain";
     profile_contracts :=
       [ {| contract_name := "sidecarregistry"; contract_address := address Byte.x01 |};
         {| contract_name := "AgentKeysScope"; contract_address := address Byte.x02 |};
         {| contract_name := "K3EpochCounter"; contract_address := address Byte.x03 |} ] |}.

Definition env (o a : Ascii.ascii) : MintEnv :=
  {| env_config := ToyLogin.open_cfg; env_profile := Ok profile; env_rpc := rpc o a;
     pop_clock := Some 1600; sign_clock := Some 1600; nonce_bytes := repeat Byte.x07 16 |}.

(** A request of device [true], which proves possession. *)
Definition request (o a : Ascii.ascii) (svc : string) (op : CapOp) (dc : DataClass) : CapRequest :=
  {| req_operator_omni := omni o; req_actor_omni := omni a; req_service := svc;
     req_device_key_hash := toy_dkh true; ttl_seconds := None;
     req_client_sig := match DeviceKey_cap_pop_sig (DeviceKey_of (true : SigningKey)) (omni o) (omni a)
         svc (CapOp_as_str op) (DataClass_as_str dc) "n0" 1500 with Ok s => Some s | Err _ => None end;
     req_client_nonce := Some "n0"; req_client_ts := Some 1500; req_delegation_path := None |}.

Definition bearer (c : Ascii.ascii) : option (option string) := Some (Some ("Bearer " +:+ rep64 c)).

Lemma clock_fits o a now : sign_clock (env o a) = Some now -> is_u64 now /\ is_u64 (now + 1800).
Proof.
  change (Some 1600 = Some now -> is_u64 now /\ is_u64 (now + 1800)).
  intros E. assert (now = 1600) as -> by congruence. unfold is_u64, u64_max. lia.
Qed.

Definition token_or (r : result CapError CapToken) : CapToken :=
  match r with
  | Ok t => t
  | Err _ => pop_token toy_payload "" "" "" 0 None
  end.
End ToyMint.

Section Witnesses.
#[local] Existing Instances SimpleHex.codec ToyCrypto.crypto ToyVerifier.sha ToyVerifier.p256
  ToyVerifier.json ToyLogin.jwt ToyMint.errors ToyMint.signer.
Import ToyMint.

(** The gate on storing credentials compares the actor with the session, not with
    the operator.  Since an actor's session may mint [Store], a delegate with a grant
    of the service mints a capability to store credentials under its own name. *)
Example delegate_mints_credential_store :
  exists token, cap_route (env "a" "b") (bearer "b")
      (CredStore (request "a" "b" "openrouter" Store Credentials)) = Ok token /\
    op (payload token) = Store /\ data_class (payload token) = Credentials /\
    operator_omni (payload token) = omni "a" /\ actor_omni (payload token) = omni "b".
Proof. eexists. split; [vm_compute; reflexivity|]. vm_compute. done. Qed.

(** The operator's session does not publish or append as a delegate. *)
Example operator_is_not_the_delegate :
  cap_route (env "a" "b") (bearer "a") (ChannelPub (request "a" "b" "channel-pub:general" ChannelPublish Channel))
  = Err OperatorMismatch /\
  cap_route (env "a" "b") (bearer "a") (MemoryAppend (request "a" "b" "knowledge:travel" Append Memory))
  = Err OperatorMismatch.
Proof. split; vm_compute; reflexivity. Qed.

(** With the operator's session the same request is refused. *)
Example operator_refused_delegate_store :
  cap_route (env "a" "b") (bearer "a") (CredStore (request "a" "b" "openrouter" Store Credentials))
  = Err (Forbidden "cred store is master-self only — agents cannot self-store credentials (single-vault: every credential lives in the operator's vault)"
       "cred_store_not_master_self").
Proof. vm_compute. reflexivity. Qed.
(** A delegate fetches its memory with the operator's session: the grant was read. *)
Example minted_authority_witness :
  let route := MemoryGet (request "a" "b" "Knowledge:Travel" Fetch Memory) in
  exists token chain,
    cap_route (env "a" "b") (bearer "a") route = Ok token /\
    from_state (env_profile (env "a" "b")) = Ok chain /\
    call_is_service_in_scope (env_rpc (env "a" "b")) (chain_rpc_url chain) (chain_scope chain)
      (omni "a") (omni "b") (keccak_lc_service "knowledge:travel") = Ok true.
Proof.
  intros route. set (token := token_or (cap_route (env "a" "b") (bearer "a") route)).
  assert (Hm : cap_route (env "a" "b") (bearer "a") route = Ok token) by (vm_compute; reflexivity).
  destruct (minted_authority (env "a" "b") (bearer "a") route token (clock_fits "a" "b") Hm)
    as (session & o & a & chain & device & _ & Ho & Ha & _ & _ & _ & Hc & _ & _ & [->|Hg] & _).
  - exfalso. rewrite <-Ha in Ho. revert Ho. vm_compute. discriminate.
  - exists token, chain. split; [exact Hm|]. split; [exact Hc|]. exact Hg.
Defined.
End Witnesses.
