(* ===== verification/MintVerify.v ===== *)
(** * Minting and verifying agree

    The broker ([CapMint]) and a worker ([StorageWorker.verify_authority] over
    [CapabilityVerify]) each carry out their own checks, in code of their own: the
    broker on the request as it came, a worker on the signed payload.  This file
    shows the two agree: after a mint, over a chain that still answers the same,
    only the passing of time, or a proof of possession that was never there, makes a
    worker refuse. *)
From S2P Require Import Prelude RustStr StrFacts Capability DeviceCore.
From S2P Require Import Crates ChainAbi CapabilityVerify LocalStore StorageWorker IdentityLinks CapMint.

Open Scope Z_scope.

(** ** The two RPC loops *)

Lemma broker_loop_settles answer fuel fuel' k last last' s :
  (broker_eth_call_loop answer fuel k last).1 = Ok s -> (fuel <= fuel')%nat ->
  (eth_call_loop answer fuel' k last').1 = Ok s.
Proof.
  revert fuel' k last last'. induction fuel as [|fuel IH]; intros fuel' k last last' Hb Hf;
    [done|]. destruct fuel' as [|fuel']; [lia|]. cbn [broker_eth_call_loop eth_call_loop] in *.
  assert (Hnext : forall e e', (let '(r, pauses) := broker_eth_call_loop answer fuel (S k) e in
      (r, (if (0 <? k)%nat then [backoff_ms k] else []) ++ pauses)%list).1 = Ok s ->
    (let '(r, pauses) := eth_call_loop answer fuel' (S k) e' in
      (r, (if (0 <? k)%nat then [backoff_ms k] else []) ++ pauses)%list).1 = Ok s).
  { intros e e' He. specialize (IH fuel' (S k) e e').
    destruct (broker_eth_call_loop _ _ _ _), (eth_call_loop _ _ _ _). cbn in *. apply IH; [done | lia]. }
  destruct (answer k) as [e|e|e|[err|] [r|]]; cbn [broker_outcome attempt_outcome] in *;
    try (cbn in Hb |- *; congruence); by eapply Hnext.
Qed.

(** What the broker read, a worker with its one more attempt reads. *)
Definition reads_agree (rpc rpc' : string -> string -> string -> nat -> RpcAttempt) : Prop :=
  forall url to data s, broker_eth_call (rpc url to data) = Ok s -> eth_call (rpc' url to data) = Ok s.

Lemma same_endpoint_agrees rpc : reads_agree rpc rpc.
Proof.
  intros url to data s Hb. unfold eth_call. eapply broker_loop_settles; [exact Hb|].
  unfold BROKER_ATTEMPTS, ATTEMPTS. lia.
Qed.

(** ** The chain, read by either side *)

Section ChainAgree.
Context `{HexCodec, HexErrors, Crypto}.
Variables rpc rpc' : string -> string -> string -> nat -> RpcAttempt.
Hypothesis Hagree : reads_agree rpc rpc'.

Lemma device_agrees url registry s b d : writes_hex32 s b ->
  call_get_device rpc url registry s = Ok d ->
  get_chain_device rpc' url registry ("0x" +:+ hex_encode b) = Ok
    {| dev_operator_omni := entry_operator_omni d; dev_actor_omni := entry_actor_omni d;
       dev_roles := entry_roles d; dev_registered_at := entry_registered_at d;
       dev_revoked := entry_revoked d |}.
Proof.
  intros Hs Hd. unfold call_get_device in Hd. rewrite (strip_0x_pad32_writes _ _ Hs) in Hd.
  apply let_ok in Hd as (raw & Hr%Hagree & Hd).
  unfold get_chain_device. rewrite (pad32_writes _ _ (writes_canonical _ _ Hs)), Hr.
  unfold broker_parse_device_entry in Hd. apply let_ok in Hd as (record & Hrec%map_err_ok & [= <-]).
  unfold parse_device_entry. by rewrite Hrec.
Qed.

Lemma scope_agrees url scope s s' b b' svc :
  writes_hex32 s b -> writes_hex32 s' b' ->
  call_is_service_in_scope rpc url scope s s' (keccak_lc_service svc) = Ok true ->
  exists raw, eth_call (rpc' url scope ("0x" +:+ function_selector "isServiceInScope(bytes32,bytes32,bytes32)"
      +:+ hex_encode b +:+ hex_encode b' +:+ hex_encode (keccak256 (as_bytes (to_lowercase svc))))) = Ok raw /\
    parse_bool raw = Ok true.
Proof.
  intros Hs Hs' Hg. unfold call_is_service_in_scope in Hg.
  rewrite (strip_0x_pad32_writes _ _ Hs), (strip_0x_pad32_writes _ _ Hs') in Hg.
  apply let_ok in Hg as (c & Hc & Hg). apply let_ok in Hc as (_ & _ & [= <-]).
  apply let_ok in Hg as (raw & Hr%Hagree & Hg). exists raw. split.
  - rewrite <-Hr. do 6 f_equal. symmetry. apply hex_encode_lower.
  - apply map_err_ok in Hg. unfold parse_bool. by rewrite Hg.
Qed.

Lemma epoch_agrees url addr n : call_current_epoch rpc url addr = Ok n ->
  exists raw, eth_call (rpc' url addr ("0x" +:+ function_selector "currentEpoch()")) = Ok raw /\
    parse_u64 raw = Ok n.
Proof.
  intros He. unfold call_current_epoch in He. apply let_ok in He as (raw & Hr%Hagree & Hg).
  exists raw. split; [done|]. apply map_err_ok in Hg. unfold parse_u64. by rewrite Hg.
Qed.
End ChainAgree.

(** ** The proof of possession, read by either side *)

Section PopAgree.
Context `{HexCodec, HexErrors, Crypto}.

Lemma cap_pop_payload_canonical o a bo ba svc op dc n ts :
  writes_hex32 o bo -> writes_hex32 a ba ->
  cap_pop_payload ("0x" +:+ hex_encode bo) ("0x" +:+ hex_encode ba) (to_lowercase svc) op dc n ts =
  cap_pop_payload o a svc op dc n ts.
Proof.
  intros Ho Ha. unfold cap_pop_payload, cap_pop_preimage.
  by rewrite (strip0x_lower_writes _ _ Ho), (strip0x_lower_writes _ _ Ha),
    (strip0x_lower_writes _ _ (writes_canonical _ _ Ho)),
    (strip0x_lower_writes _ _ (writes_canonical _ _ Ha)), trim_lower, lower_idem.
Qed.

Lemma verify_delegation_canonical d b k sc ex sig : writes_hex32 d b ->
  verify_delegation ("0x" +:+ hex_encode b) k sc ex sig = verify_delegation d k sc ex sig.
Proof.
  intros Hd. unfold verify_delegation, delegation_payload, delegation_preimage.
  by rewrite (strip0x_lower_writes _ _ Hd), (strip0x_lower_writes _ _ (writes_canonical _ _ Hd)).
Qed.

Lemma cap_in_scope_lower sc dc op svc : cap_in_scope sc dc op (to_lowercase svc) = cap_in_scope sc dc op svc.
Proof. unfold cap_in_scope. by rewrite trim_lower, lower_idem. Qed.

(** The registered device itself made the proof. *)
Definition signed_by_device (t : CapToken) : bool :=
  let p := payload t in
  match client_sig t, client_nonce t, client_ts t with
  | Some sig, Some n, Some ts =>
      match ecrecover_eip191 (cap_pop_payload (operator_omni p) (actor_omni p) (service p)
              (CapOp_as_str (op p)) (DataClass_as_str (data_class p)) n ts) sig with
      | Ok signer =>
          match device_key_hash signer with
          | Ok h => String.eqb (strip_0x_lc h) (strip_0x_lc (payload_device_key_hash p))
          | Err _ => false
          end
      | Err _ => false
      end
  | _, _, _ => false
  end.

(** What a proof that was right at the mint still needs later: to be there, young,
    and the device's or a delegate's whose delegation lasts. *)
Definition proof_lasts (t : CapToken) (now : Z) : Prop :=
  (exists sig n ts, client_sig t = Some sig /\ client_nonce t = Some n /\ client_ts t = Some ts /\
     now - CAP_POP_MAX_AGE_SECS <= ts <= now + 60) /\
  (signed_by_device t = true \/ exists d, delegation_path t = Some d /\ now < deleg_expires_at d).

Lemma pop_agrees env r op dc bo ba bd epoch now ttl sig t :
  writes_hex32 (req_operator_omni r) bo -> writes_hex32 (req_actor_omni r) ba ->
  writes_hex32 (req_device_key_hash r) bd -> is_u64 t -> is_u64 (t + 60) ->
  verify_cap_pop r op dc (pop_clock env) = Ok tt ->
  let token := token_of env r op dc (hex_encode bo) (hex_encode ba) epoch now ttl sig in
  enforce_client_pop token t = Ok tt <-> proof_lasts token t.
Proof.
  intros Ho Ha Hd Ht Ht60 Hv token. unfold enforce_client_pop, check_client_pop, proof_lasts, signed_by_device.
  subst token. cbv zeta. cbn [token_of payload cap_payload operator_omni actor_omni Capability.op data_class service
    payload_device_key_hash client_sig client_nonce client_ts delegation_path].
  unfold verify_cap_pop in Hv.
  destruct (req_client_sig r) as [csig|]; [|cbn; split; [done | naive_solver]].
  destruct (req_client_nonce r) as [n|]; [|cbn; split; [done | naive_solver]].
  destruct (req_client_ts r) as [ts|]; [|cbn; split; [done | naive_solver]].
  apply guard_ok in Hv as [_ Hv]. apply guard_ok in Hv as [_ Hv].
  apply let_ok in Hv as (signer & Hrec%map_err_ok & Hv). apply let_ok in Hv as (h & Hh%map_err_ok & Hv).
  cbn [ok_or]. rewrite (cap_pop_payload_canonical _ _ _ _ _ _ _ _ _ Ho Ha), guard_ok, (pop_window t ts) by done. rewrite Hrec. cbn [map_err]. rewrite Hh. cbn [map_err].
  change (strip_0x_lc ("0x" +:+ strip_0x_lc (req_device_key_hash r)))
    with (to_lowercase (strip_0x_lc (req_device_key_hash r))).
  rewrite (strip_0x_lc_writes _ _ Hd), hex_encode_lower in *.
  assert (Hwin : (ts <= t + 60 /\ (0 <= CAP_POP_MAX_AGE_SECS -> t - CAP_POP_MAX_AGE_SECS <= ts) /\
      (CAP_POP_MAX_AGE_SECS < 0 -> False)) <->
    exists sig' n' ts', Some csig = Some sig' /\ Some n = Some n' /\ Some ts = Some ts' /\
      t - CAP_POP_MAX_AGE_SECS <= ts' <= t + 60).
  { unfold CAP_POP_MAX_AGE_SECS. split; [intros; exists csig, n, ts; split_and!; done || lia|].
    intros (? & ? & ? & _ & _ & [= <-] & ?). lia. }
  rewrite Hwin. apply and_iff_compat_l.
  destruct (String.eqb _ _); [split; [intros _; by left | done]|].
  destruct (req_delegation_path r) as [d|]; [|naive_solver].
  apply guard_ok in Hv as [_ Hv]. apply guard_ok in Hv as [Hsc Hv].
  apply let_ok in Hv as (dev & Hdel%map_err_ok & _).
  unfold check_delegation. cbv zeta. cbn [token_of payload cap_payload data_class Capability.op service payload_device_key_hash].
  rewrite cap_in_scope_lower, Hsc, (strip_0x_lc_writes _ _ Hd), (verify_delegation_canonical _ _ _ _ _ _ Hd), Hdel.
  cbn [map_err]. rewrite !guard_ok, negb_true_iff, Z.leb_gt. naive_solver.
Qed.
End PopAgree.

(** ** Properties *)

(** The documented behaviour of the signature library: what the key of [private]
    signs verifies under [public], and the URL-safe alphabet reads back. *)
Definition keys_match `{P256, CapSigner} (private public : string) : Prop :=
  (forall b, b64url_decode (b64url_encode b) = Ok b) /\
  forall key, signing_key_from_pkcs8_pem private = Ok key ->
    exists vk, P256_from_public_key_pem public = Ok vk /\
      forall d, exists s, P256_Signature_from_slice (p256_sign key d) = Ok s /\ P256_verify vk d s = true.

(** A worker configured for the broker's chain and key. *)
Definition configured_for `{HexCodec, P256, CapSigner} (authority : AuthorityConfig) (env : MintEnv) : Prop :=
  keys_match (private_key_pem (session_keypair (env_config env))) (broker_public_key authority) /\
  exists chain, from_state (env_profile env) = Ok chain /\
    rpc_url authority = chain_rpc_url chain /\ registry authority = chain_registry chain /\
    scope authority = chain_scope chain /\ epoch authority = chain_epoch chain.

Section Agreement.
Context `{HexCodec, HexErrors, Crypto, Sha256, Jwt, P256, CapJson, CapSigner}.

Lemma signature_agrees private public p sig :
  keys_match private public -> sign_cap_payload private p = Ok sig ->
  forall t, payload t = p -> broker_sig t = sig -> verify_signature public t = Ok tt.
Proof.
  intros [Hb Hk] Hs t Hp Hsig. unfold sign_cap_payload in Hs.
  apply let_ok in Hs as (canonical & Hc%map_err_ok & Hs).
  apply let_ok in Hs as (key & (vk & Hvk & Hall)%map_err_ok%Hk & [= <-]).
  destruct (Hall (sha256 canonical)) as (s & Hslice & Hver).
  unfold verify_signature, parse_p256_pubkey_pem.
  rewrite Hp, Hc. cbn [map_err]. rewrite Hsig, Hb. cbn [map_err]. rewrite Hslice. cbn [map_err].
  rewrite Hvk. cbn [map_err]. by rewrite Hver.
Qed.

Context (env : MintEnv) (header : option (option string)) (rpc' : string -> string -> string -> nat -> RpcAttempt).
Hypothesis Hagree : reads_agree (env_rpc env) rpc'.

(** What does not depend on the time: the chain still says what it said. *)
Lemma chain_agrees r op dc token chain :
  minted env header r op dc token -> from_state (env_profile env) = Ok chain ->
  check_chain_device rpc' (chain_rpc_url chain) (chain_registry chain) token = Ok tt /\
  check_chain_scope rpc' (chain_rpc_url chain) (chain_scope chain) token = Ok tt /\
  check_chain_k3_epoch rpc' (chain_rpc_url chain) (chain_epoch chain) token = Ok tt.
Proof.
  intros [] Hc. assert (chain0 = chain) as -> by congruence.
  destruct Hactive as (Hr & Hrev & Hop & Hac & Hro).
  unfold check_chain_device, check_chain_scope, check_chain_k3_epoch.
  cbn [token_of payload cap_payload operator_omni actor_omni service payload_device_key_hash k3_epoch].
  rewrite (strip_0x_lc_writes _ _ Hd), (device_agrees _ _ Hagree _ _ _ _ _ Hd Hdevice).
  cbn [dev_operator_omni dev_actor_omni dev_roles dev_registered_at dev_revoked].
  rewrite (pad32_writes _ _ (writes_canonical _ _ Ho)), (pad32_writes _ _ (writes_canonical _ _ Ha)),
    (strip_0x_lc_writes _ _ (writes_canonical _ _ Ho)), (strip_0x_lc_writes _ _ (writes_canonical _ _ Ha)).
  rewrite Hop, Hac, Hrev, !String.eqb_refl, (proj2 (Z.eqb_neq _ _) Hr), (proj2 (Z.eqb_neq _ _) Hro).
  split_and!; [done | |].
  - destruct (String.eqb_spec (hex_encode bo) (hex_encode ba)) as [|Hne]; [done|].
    destruct Hscope as [|Hg]; [done|].
    apply (scope_agrees _ _ Hagree _ _ _ _ _ _ _ Ho Ha) in Hg as (raw & Hraw & Hb).
    rewrite keccak_lc_service_lower. unfold keccak_lc_service at 1, pad32.
    change (strip_0x ("0x" +:+ ?s)) with s.
    rewrite hex_encode_length, keccak256_length. cbn [Nat.eqb Nat.mul Nat.add].
    rewrite hex_encode_lower, Hraw, Hb. done.
  - apply (epoch_agrees _ _ Hagree) in Hepoch as (raw & Hraw & Hn). by rewrite Hraw, Hn, Z.eqb_refl.
Qed.
End Agreement.

Lemma fresh_spec token now : is_u64 (now + 60) ->
  check_freshness token now = Ok tt <->
  now < cap_expires_at (payload token) /\ issued_at (payload token) <= now + 60.
Proof.
  intros Hn. unfold check_freshness, u64_add. rewrite wrap_u64_small by done.
  rewrite !guard_ok, !negb_true_iff, Z.leb_gt, Z.ltb_ge. naive_solver.
Qed.

(** C38: the broker promises a worker nothing the worker does not find itself.  A
    worker configured for the broker's key and chain, asked later for the minted
    operation and class over a chain that still answers the same, accepts the
    capability exactly when it has not expired and its proof of possession is there,
    is at most five minutes old, and is the device's own or under a delegation that
    still lasts.  Spelling never matters: the request's case and prefixes are the
    broker's, the canonical forms the worker's. *)
Theorem minted_cap_honoured `{HexCodec, HexErrors, Crypto, Sha256, Jwt, P256, CapJson, CapSigner}
    (env : MintEnv) (header : option (option string)) (r : CapRequest) (o : CapOp) (dc : DataClass)
    (token : CapToken) (rpc' : string -> string -> string -> nat -> RpcAttempt)
    (authority : AuthorityConfig) (t_pop t_fresh : Z)
    (Hmint : mint_cap env header r o dc = Ok token)
    (Hconf : configured_for authority env)
    (Hagree : reads_agree (env_rpc env) rpc')
    (Hpop : is_u64 t_pop /\ is_u64 (t_pop + 60)) (Hfresh : is_u64 (t_fresh + 60)) :
  verify_authority rpc' authority token o dc t_pop t_fresh = Ok tt <->
  proof_lasts token t_pop /\
  t_fresh < cap_expires_at (payload token) /\ issued_at (payload token) <= t_fresh + 60.
Proof.
  apply mint_cap_minted in Hmint as Hm.
  destruct Hconf as (Hkeys & chain & Hchain & Hu & Hr & Hs & He).
  destruct (chain_agrees env header rpc' Hagree _ _ _ _ _ Hm Hchain) as (Hdev & Hsc & Hep).
  destruct Hm. unfold verify_authority.
  rewrite (signature_agrees _ _ _ _ Hkeys Hsig) by done. rewrite Hu, Hr, Hs, He, Hdev, Hsc, Hep.
  unfold check_op, check_data_class. cbn [map_err token_of payload cap_payload op data_class service].
  rewrite is_capability_service_lower, Hfamily, !bool_decide_eq_true_2 by done. cbn [negb map_err].
  fold (cap_payload r (hex_encode bo) (hex_encode ba) o dc epoch now ttl (nonce_bytes env)).
  set (tk := token_of env r o dc (hex_encode bo) (hex_encode ba) epoch now ttl sig) in *.
  pose proof (pop_agrees env r o dc bo ba bd epoch now ttl sig t_pop Ho Ha Hd (proj1 Hpop) (proj2 Hpop) Hpop0)
    as Hlasts. cbv zeta in Hlasts. fold tk in Hlasts.
  pose proof (fresh_spec tk t_fresh Hfresh) as Hf.
  destruct (enforce_client_pop tk t_pop) as [[]|e]; cbn [map_err].
  - destruct (check_freshness tk t_fresh) as [[]|e]; cbn [map_err]; naive_solver.
  - split; [done | intros [Hc%Hlasts _]; done].
Qed.

(** ** A concrete mint and its use *)

Section Witnesses.
#[local] Existing Instances SimpleHex.codec ToyCrypto.crypto ToyVerifier.sha ToyVerifier.p256
  ToyVerifier.json ToyLogin.jwt ToyMint.errors ToyMint.signer.
Import ToyMint.

Definition toy_authority : AuthorityConfig :=
  {| broker_public_key := "k"; rpc_url := "http://chain"; registry := address Byte.x01;
     scope := address Byte.x02; epoch := address Byte.x03 |}.

Definition toy_minted : result CapError CapToken :=
  mint_cap (env "a" "b") (bearer "a") (request "a" "b" "Knowledge:Travel" Fetch Memory) Fetch Memory.

Lemma toy_configured : configured_for toy_authority (env "a" "b").
Proof.
  split.
  - split.
    + intros b. cbn. f_equal. unfold as_bytes, String.list_byte_of_string.
      rewrite list_ascii_of_string_of_list_ascii, map_map. erewrite map_ext; [apply map_id|].
      intros x. apply Ascii.byte_of_ascii_of_byte.
    + intros key [= <-]. exists "k". split; [done|]. intros d. exists (as_bytes "k"). done.
  - exists {| chain_rpc_url := "http://chain"; chain_registry := address Byte.x01;
              chain_scope := address Byte.x02; chain_epoch := address Byte.x03 |}.
    split; [vm_compute; reflexivity | done].
Qed.

Lemma toy_times : (is_u64 1700 /\ is_u64 (1700 + 60)) /\ is_u64 (1700 + 60) /\ is_u64 (1900 + 60).
Proof. unfold is_u64, u64_max. lia. Qed.

Example minted_cap_honoured_witness :
  let token := token_or toy_minted in
  toy_minted = Ok token /\ service (payload token) = "knowledge:travel" /\
  verify_authority (rpc "a" "b") toy_authority token Fetch Memory 1700 1700 = Ok tt /\
  verify_authority (rpc "a" "b") toy_authority token Fetch Memory 1700 1900 <> Ok tt.
Proof.
  intros token. assert (Hm : toy_minted = Ok token) by (vm_compute; reflexivity).
  split_and!; [exact Hm | vm_compute; reflexivity | |].
  - apply (minted_cap_honoured _ _ _ _ _ _ _ _ _ _ Hm toy_configured (same_endpoint_agrees _)
      (proj1 toy_times) (proj1 (proj2 toy_times))).
    clear Hm. split; [|split; [vm_compute; reflexivity | vm_compute; discriminate]].
    split; [|left; vm_compute; reflexivity].
    do 3 eexists. split_and!; [vm_compute; reflexivity.. | |]; vm_compute; discriminate.
  - intros Hv. apply (minted_cap_honoured _ _ _ _ _ _ _ _ _ _ Hm toy_configured (same_endpoint_agrees _)
      (proj1 toy_times) (proj2 (proj2 toy_times))) in Hv as (_ & Hlt & _).
    revert Hlt. vm_compute. discriminate.
Defined.
End Witnesses.
