(* ===== verification/Breaker.v ===== *)
(** * The circuit breaker

    [crates/agentkeys-broker-server/src/plugins/audit/breaker.rs].  The breaker's
    methods are functions on its locked state; the system around it is a step
    relation in which callers hold tokens and resolve them, each in its own time. *)
From S2P Require Import Prelude.

Open Scope Z_scope.

Inductive BreakerState := SClosed | SOpen | SHalfOpen.

#[export] Instance BreakerState_eq_dec : EqDecision BreakerState.
Proof. solve_decision. Defined.

Record BreakerConfig := { failure_threshold : Z; recovery_seconds : Z }.

Definition default_config : BreakerConfig := {| failure_threshold := 5; recovery_seconds := 30 |}.

Record BreakerInner := {
  state : BreakerState;
  consecutive_failures : Z;
  opened_at : option Z;
  probe_in_flight : bool;
}.

Definition new : BreakerInner :=
  {| state := SClosed; consecutive_failures := 0; opened_at := None; probe_in_flight := false |}.

Inductive TokenKind := TClosed | THalfOpenProbe.

#[export] Instance TokenKind_eq_dec : EqDecision TokenKind.
Proof. solve_decision. Defined.

Inductive BreakerError := EOpen | EHalfOpenProbeBusy.

Definition is_probe (k : TokenKind) : bool :=
  match k with THalfOpenProbe => true | TClosed => false end.

Definition try_acquire (c : BreakerConfig) (b : BreakerInner) (now : Z)
    : BreakerInner * result BreakerError TokenKind :=
  match state b with
  | SClosed => (b, Ok TClosed)
  | SOpen =>
      let opened := default now (opened_at b) in
      if recovery_seconds c <=? i64_sub now opened then
        if probe_in_flight b then (b, Err EHalfOpenProbeBusy)
        else ({| state := SHalfOpen; consecutive_failures := consecutive_failures b;
                 opened_at := opened_at b; probe_in_flight := true |}, Ok THalfOpenProbe)
      else (b, Err EOpen)
  | SHalfOpen =>
      if probe_in_flight b then (b, Err EHalfOpenProbeBusy)
      else ({| state := state b; consecutive_failures := consecutive_failures b;
               opened_at := opened_at b; probe_in_flight := true |}, Ok THalfOpenProbe)
  end.

Definition complete_success (b : BreakerInner) (kind : TokenKind) : BreakerInner :=
  {| state := SClosed; consecutive_failures := 0; opened_at := None;
     probe_in_flight := if is_probe kind then false else probe_in_flight b |}.

Definition complete_failure (c : BreakerConfig) (b : BreakerInner) (kind : TokenKind) (now : Z)
    : BreakerInner :=
  let failures := u32_saturating_add (consecutive_failures b) 1 in
  let should_open := (failure_threshold c <=? failures) || is_probe kind in
  {| state := if should_open then SOpen else state b;
     consecutive_failures := failures;
     opened_at := if should_open then Some now else opened_at b;
     probe_in_flight := if is_probe kind then false else probe_in_flight b |}.

(** ** The system: a breaker and the tokens its callers hold *)

Record System := { breaker : BreakerInner; tokens : list TokenKind }.

Inductive Event :=
| EvAcquire (now : Z) (outcome : result BreakerError TokenKind)
| EvSuccess (kind : TokenKind)
(** Also the drop of an unresolved token. *)
| EvFailure (kind : TokenKind) (now : Z).

Inductive step (c : BreakerConfig) : System -> Event -> System -> Prop :=
| step_acquire s now b out :
    try_acquire c (breaker s) now = (b, out) ->
    step c s (EvAcquire now out)
      {| breaker := b; tokens := match out with Ok k => k :: tokens s | Err _ => tokens s end |}
| step_success s kind l r :
    tokens s = l ++ kind :: r ->
    step c s (EvSuccess kind) {| breaker := complete_success (breaker s) kind; tokens := l ++ r |}
| step_failure s kind now l r :
    tokens s = l ++ kind :: r ->
    step c s (EvFailure kind now)
      {| breaker := complete_failure c (breaker s) kind now; tokens := l ++ r |}.

Inductive steps (c : BreakerConfig) : System -> list Event -> System -> Prop :=
| steps_nil s : steps c s [] s
| steps_snoc s tr s' e s'' : steps c s tr s' -> step c s' e s'' -> steps c s (tr ++ [e])%list s''.

Definition start : System := {| breaker := new; tokens := [] |}.

(** Failures since the last success. *)
Definition is_failure (e : Event) : bool := match e with EvFailure _ _ => true | _ => false end.
Definition fails_after (n : Z) (e : Event) : Z :=
  match e with EvSuccess _ => 0 | EvFailure _ _ => n + 1 | EvAcquire _ _ => n end.
Definition fails (tr : list Event) : Z := fold_left fails_after tr 0.

(** ** Lemmas *)

Definition probes (l : list TokenKind) : nat := length (List.filter is_probe l).

Lemma probes_app l r : probes (l ++ r) = (probes l + probes r)%nat.
Proof. unfold probes. by rewrite List.filter_app, length_app. Qed.

Lemma probes_cons k l : probes (k :: l) = (b2n (is_probe k) + probes l)%nat.
Proof. unfold probes. cbn. by destruct (is_probe k). Qed.

Lemma fails_snoc tr e : fails (tr ++ [e]) = fails_after (fails tr) e.
Proof. unfold fails. by rewrite fold_left_app. Qed.

Lemma fails_nonneg tr : 0 <= fails tr.
Proof.
  induction tr as [|e tr IH] using rev_ind; [done|]. rewrite fails_snoc. destruct e; cbn; lia.
Qed.

(** What holds of a breaker after a trace. *)
Record invariant (c : BreakerConfig) (s : System) (tr : list Event) : Prop := {
  inv_probe : probes (tokens s) = b2n (probe_in_flight (breaker s));
  inv_half : state (breaker s) = SHalfOpen -> probe_in_flight (breaker s) = true;
  inv_count : consecutive_failures (breaker s) = Z.min (2 ^ 32 - 1) (fails tr);
  inv_closed : state (breaker s) = SClosed ->
    opened_at (breaker s) = None /\ consecutive_failures (breaker s) < failure_threshold c;
  inv_opened : state (breaker s) <> SClosed -> is_Some (opened_at (breaker s));
}.

Lemma invariant_start c : 0 < failure_threshold c -> invariant c start [].
Proof. intros Hk. split; cbn; try done. Qed.

Lemma invariant_step c s tr e s' :
  0 < failure_threshold c -> invariant c s tr -> step c s e s' -> invariant c s' (tr ++ [e]).
Proof.
  intros Hk [Hp Hh Hc Hcl Ho] Hs. pose proof (fails_nonneg tr) as Hn.
  destruct Hs as [s now b out E|s kind l r E|s kind now l r E].
  - unfold try_acquire in E. destruct (state (breaker s)) eqn:Es.
    + injection E as <- <-. split; cbn; rewrite ?fails_snoc; cbn; try done; by rewrite ?Es in *.
    + destruct (_ <=? _); [destruct (probe_in_flight (breaker s)) eqn:Ep|]; injection E as <- <-;
        split; cbn [breaker tokens state consecutive_failures opened_at probe_in_flight];
        rewrite ?fails_snoc, ?probes_cons, ?Es, ?Ep, ?Hp; cbn [fails_after]; try done;
        intros _; by apply Ho.
    + rewrite (Hh eq_refl) in E. injection E as <- <-.
      split; cbn; rewrite ?fails_snoc; cbn; try done; rewrite ?Es; done.
  - rewrite E, probes_app, probes_cons in Hp.
    split; unfold complete_success; cbn [breaker tokens state consecutive_failures opened_at
      probe_in_flight]; rewrite ?fails_snoc, ?probes_app; cbn [fails_after]; try done.
    destruct kind, (probe_in_flight (breaker s)); cbn [is_probe b2n] in *; lia.
  - rewrite E, probes_app, probes_cons in Hp. unfold u32_saturating_add in *.
    split; unfold complete_failure; cbn [breaker tokens state consecutive_failures opened_at
      probe_in_flight]; unfold u32_saturating_add; rewrite ?fails_snoc, ?probes_app; cbn [fails_after].
    + destruct kind, (probe_in_flight (breaker s)); cbn [is_probe b2n] in *; lia.
    + destruct kind; cbn [is_probe]; [|by rewrite orb_true_r].
      rewrite orb_false_r. destruct (_ <=? _); [done|]. exact Hh.
    + lia.
    + destruct (_ || is_probe kind) eqn:Eo; [done|]. intros Hst.
      apply orb_false_iff in Eo as [Eo _]. reflect_bools. split; [by apply Hcl|lia].
    + destruct (_ || is_probe kind); [by eexists|]. exact Ho.
Qed.

Lemma invariant_steps c tr s :
  0 < failure_threshold c -> steps c start tr s -> invariant c s tr.
Proof.
  intros Hk Hs. remember start as s0 eqn:E0. induction Hs as [s|s tr s' e s'' Hs IH Hstep]; subst.
  - by apply invariant_start.
  - eapply invariant_step; [done | by apply IH | done].
Qed.

Lemma acquire_open c b t0 now :
  state b = SOpen -> opened_at b = Some t0 -> is_i64 (now - t0) ->
  try_acquire c b now =
  if recovery_seconds c <=? now - t0 then
    if probe_in_flight b then (b, Err EHalfOpenProbeBusy)
    else ({| state := SHalfOpen; consecutive_failures := consecutive_failures b;
             opened_at := opened_at b; probe_in_flight := true |}, Ok THalfOpenProbe)
  else (b, Err EOpen).
Proof.
  intros Hst Hop Ht. unfold try_acquire. rewrite Hst, Hop.
  change (default now (Some t0)) with t0. unfold i64_sub. by rewrite wrap_i64_small.
Qed.

Lemma probes_elem l : THalfOpenProbe ∈ l <-> (0 < probes l)%nat.
Proof.
  induction l as [|k l IH].
  - split; [by intros ?%elem_of_nil | cbn; lia].
  - rewrite probes_cons, elem_of_cons, IH. destruct k; cbn [is_probe b2n]; split; try lia; naive_solver lia.
Qed.

(** ** Properties *)

(** The breaker's bookkeeping.  In every reachable state, however the callers
    interleave and whichever tokens they drop: at most one probe is outstanding,
    and the flag says exactly whether one is; the half-open state always has its
    probe outstanding; the failure count is the number of failures since the last
    success, saturating at 2^32-1; a closed breaker has seen fewer than the
    threshold, and any other knows when it opened. *)
Theorem breaker_invariant (c : BreakerConfig) (tr : list Event) (s : System)
    (Hk : 0 < failure_threshold c) (Hs : steps c start tr s) :
  let b := breaker s in
  (probes (tokens s) <= 1)%nat /\
  (probe_in_flight b = true <-> THalfOpenProbe ∈ tokens s) /\
  (state b = SHalfOpen -> THalfOpenProbe ∈ tokens s) /\
  consecutive_failures b = Z.min (2 ^ 32 - 1) (fails tr) /\
  (state b = SClosed -> fails tr < failure_threshold c \/ 2 ^ 32 - 1 < failure_threshold c) /\
  (state b = SClosed <-> opened_at b = None).
Proof.
  intros b. destruct (invariant_steps c tr s Hk Hs) as [Hp Hh Hc Hcl Ho]. fold b in Hp, Hh, Hc, Hcl, Ho.
  assert (Hflag : probe_in_flight b = true <-> THalfOpenProbe ∈ tokens s).
  { rewrite probes_elem, Hp. destruct (probe_in_flight b); cbn; split; try done; lia. }
  split_and!; try done.
  - rewrite Hp. apply b2n_le_1.
  - intros Hst. by apply Hflag, Hh.
  - intros Hst. specialize (Hcl Hst) as [_ Hlt]. rewrite Hc in Hlt. lia.
  - split; [intros Hst; by apply Hcl|]. intros Hnone.
    destruct (decide (state b = SClosed)) as [|Hne]; [done|].
    destruct (Ho Hne) as [x Hx]. congruence.
Qed.

(** Opening, failing fast, and recovering.  In a reachable state that opened
    at [t0]: a call before the recovery time is refused and changes nothing; once
    it has passed and no probe is out, a call is let through as the one probe and
    further calls are refused; the probe's success closes the breaker with a clean
    count, its failure opens it anew; and the [K]-th failure in a row opens a
    closed breaker.  A success of a token from before the opening also closes the
    breaker, at once and without a probe. *)
Theorem breaker_recovery (c : BreakerConfig) (tr : list Event) (s : System) (now t0 : Z)
    (Hk : 0 < failure_threshold c <= 2 ^ 32 - 1) (Hs : steps c start tr s)
    (Htime : is_i64 (now - t0)) :
  let b := breaker s in
  (state b = SOpen -> opened_at b = Some t0 ->
     (now - t0 < recovery_seconds c -> try_acquire c b now = (b, Err EOpen)) /\
     (recovery_seconds c <= now - t0 -> THalfOpenProbe ∉ tokens s ->
        let (b', out) := try_acquire c b now in
        out = Ok THalfOpenProbe /\ state b' = SHalfOpen /\
        (forall now', try_acquire c b' now' = (b', Err EHalfOpenProbeBusy)) /\
        complete_success b' THalfOpenProbe = new /\
        (forall now', let b'' := complete_failure c b' THalfOpenProbe now' in
           state b'' = SOpen /\ opened_at b'' = Some now' /\ probe_in_flight b'' = false)) /\
     (TClosed ∈ tokens s -> exists s', step c s (EvSuccess TClosed) s' /\ state (breaker s') = SClosed /\
        (try_acquire c (breaker s') now).2 = Ok TClosed)) /\
  (state b = SClosed -> fails tr = failure_threshold c - 1 ->
     state (complete_failure c b TClosed now) = SOpen /\
     opened_at (complete_failure c b TClosed now) = Some now).
Proof.
  intros b. destruct (invariant_steps c tr s (proj1 Hk) Hs) as [Hp Hh Hc Hcl Ho].
  fold b in Hp, Hh, Hc, Hcl, Ho. split.
  - intros Hst Hop. split_and!.
    + intros Hlt. rewrite (acquire_open c b t0 now) by done.
      by replace (recovery_seconds c <=? now - t0) with false by (symmetry; apply Z.leb_gt; lia).
    + intros Hle Hno. rewrite (acquire_open c b t0 now) by done.
      replace (recovery_seconds c <=? now - t0) with true by (symmetry; apply Z.leb_le; lia).
      rewrite probes_elem, Hp in Hno. destruct (probe_in_flight b); cbn in Hno; [lia|].
      split_and!; [done..|]. intros now'. cbn. by rewrite orb_true_r.
    + intros (l & r & El)%list_elem_of_split.
      eexists. split; [by apply (step_success c s TClosed l r)|]. done.
  - intros Hst Hf. unfold complete_failure. cbn [state opened_at is_probe]. rewrite orb_false_r.
    unfold u32_saturating_add. rewrite Hc, Hf.
    replace (failure_threshold c <=? _) with true by (symmetry; apply Z.leb_le; lia). done.
Qed.

(** ** Witness: two callers, an opening and a probe *)

Definition demo_config : BreakerConfig := {| failure_threshold := 2; recovery_seconds := 30 |}.

Definition demo_trace : list Event :=
  [EvAcquire 10 (Ok TClosed); EvAcquire 10 (Ok TClosed); EvAcquire 11 (Ok TClosed);
   EvFailure TClosed 12; EvFailure TClosed 13].

Definition demo_open : System :=
  {| breaker := {| state := SOpen; consecutive_failures := 2; opened_at := Some 13;
                   probe_in_flight := false |};
     tokens := [TClosed] |}.

Lemma demo_steps : steps demo_config start demo_trace demo_open.
Proof.
  unfold demo_trace.
  change [EvAcquire 10 (Ok TClosed); EvAcquire 10 (Ok TClosed); EvAcquire 11 (Ok TClosed);
    EvFailure TClosed 12; EvFailure TClosed 13]
    with ((((([] ++ [EvAcquire 10 (Ok TClosed)]) ++ [EvAcquire 10 (Ok TClosed)])
      ++ [EvAcquire 11 (Ok TClosed)]) ++ [EvFailure TClosed 12]) ++ [EvFailure TClosed 13])%list.
  eapply steps_snoc; [|apply (step_failure demo_config
    {| breaker := {| state := SClosed; consecutive_failures := 1; opened_at := None;
                     probe_in_flight := false |}; tokens := [TClosed; TClosed] |} TClosed 13 [] [TClosed]); done].
  eapply steps_snoc; [|apply (step_failure demo_config
    {| breaker := new; tokens := [TClosed; TClosed; TClosed] |} TClosed 12 [] [TClosed; TClosed]); done].
  eapply steps_snoc; [|by apply (step_acquire demo_config
    {| breaker := new; tokens := [TClosed; TClosed] |} 11 new (Ok TClosed))].
  eapply steps_snoc; [|by apply (step_acquire demo_config
    {| breaker := new; tokens := [TClosed] |} 10 new (Ok TClosed))].
  eapply steps_snoc; [|by apply (step_acquire demo_config start 10 new (Ok TClosed))].
  apply steps_nil.
Qed.

Example breaker_invariant_witness :
  (probes (tokens demo_open) <= 1)%nat /\ consecutive_failures (breaker demo_open) = 2.
Proof.
  destruct (breaker_invariant demo_config demo_trace demo_open eq_refl demo_steps)
    as (Hp & _ & _ & Hc & _). split; [exact Hp | exact Hc].
Defined.

Example breaker_recovery_witness :
  try_acquire demo_config (breaker demo_open) 20 = (breaker demo_open, Err EOpen).
Proof.
  assert (Hk : 0 < failure_threshold demo_config <= 2 ^ 32 - 1) by (split; [done | cbn; lia]).
  assert (Ht : is_i64 (20 - 13)) by (vm_compute; split; discriminate).
  destruct (breaker_recovery demo_config demo_trace demo_open 20 13 Hk demo_steps Ht) as [Hopen _].
  destruct (Hopen eq_refl eq_refl) as [Hwait _]. apply Hwait. cbn. lia.
Defined.
