(* ===== verification/GateKeys.v ===== *)
(** * The relay's key registry

    [crates/agentkeys-gate/src/keys.rs] with the part of [config.rs] that boots it,
    [error.rs] and the outcome of [protected_file::replace_atomic].  The registry
    is a list of rows behind a lock, written through to the keys file before it is
    committed to memory; a failed write latches it closed.

    The keys file holds the document that serde writes; a document is read back as
    it was written, so the file's content is the document itself. *)
From S2P Require Import Prelude RustStr StrFacts Capability.

(** ** Errors *)

Inductive GateError :=
| Unauthorized (msg : string)
| Forbidden (msg : string)
| BadRequest (msg : string)
| Budget (msg : string)
| Upstream (msg : string)
| Audit (msg : string)
| NotConfigured (msg : string)
| Unavailable (msg : string)
| Internal (msg : string).

Definition status (e : GateError) : Z :=
  match e with
  | Unauthorized _ => 401
  | Forbidden _ => 403
  | BadRequest _ => 400
  | Budget _ => 429
  | Upstream _ => 502
  | NotConfigured _ | Unavailable _ => 503
  | Audit _ | Internal _ => 500
  end.

(** ** Data *)

Record RelayKey := {
  key : string;
  key_id : string;
  user_omni : string;
  device_id : string;
  label : string;
  delegate_omni : option string;
  budget_tokens : option Z;
  disabled : bool;
}.

Record UserBudget := { ub_user_omni : string; ub_budget_tokens : Z }.

Record KeysFile := {
  kf_default_budget_tokens : option Z;
  kf_users : list UserBudget;
  kf_keys : list RelayKey;
}.

(** The fields of the configuration that concern the registry. *)
Record GateConfig := {
  cfg_keys : list RelayKey;
  user_budgets : gmap string Z;
  default_budget_tokens : option Z;
  keys_file : option string;
}.

Record PersistCtx := {
  ctx_path : string;
  ctx_default_budget_tokens : option Z;
  ctx_users : list UserBudget;
}.

Record KeyStore := {
  keys : list RelayKey;
  persist : option PersistCtx;
  persistence_failed : bool;
}.

Record ProvisionedKey := { pk_key_id : string; pk_secret : string }.

(** ** Booting *)

Definition canonical_key_id (id : string) : string :=
  let trimmed := trim id in
  let hex := default trimmed (match strip_prefix "0x" trimmed with
                              | Some h => Some h
                              | None => strip_prefix "0X" trimmed
                              end) in
  if (String.length hex =? 64)%nat && string_all is_ascii_hexdigit hex
  then "0x" +:+ to_lowercase hex else trimmed.

Definition canonicalize_boot_keys (ks : list RelayKey) : list RelayKey :=
  map (fun k => {| key := key k; key_id := canonical_key_id (key_id k); user_omni := user_omni k;
                   device_id := canonical_key_id (device_id k); label := label k;
                   delegate_omni := delegate_omni k; budget_tokens := budget_tokens k;
                   disabled := disabled k |}) ks.

Definition boot_key (k : RelayKey) : RelayKey :=
  {| key := key k; key_id := key_id k; user_omni := normalize_omni_0x (user_omni k);
     device_id := device_id k; label := label k; delegate_omni := delegate_omni k;
     budget_tokens := budget_tokens k; disabled := disabled k |}.

(** Collecting pairs into a map: a later pair replaces an earlier one. *)
Definition boot_budgets (us : list UserBudget) : gmap string Z :=
  list_to_map (reverse (map (fun u => (normalize_omni_0x (ub_user_omni u), ub_budget_tokens u)) us)).

(** [cli_default] is the budget of the command line, [parsed] the file it names. *)
Definition from_cli (cli_default : option Z) (file : option (string * KeysFile)) : GateConfig :=
  match file with
  | None => {| cfg_keys := []; user_budgets := ∅; default_budget_tokens := cli_default;
               keys_file := None |}
  | Some (path, parsed) =>
      {| cfg_keys := map boot_key (kf_keys parsed);
         user_budgets := boot_budgets (kf_users parsed);
         default_budget_tokens :=
           match cli_default with Some b => Some b | None => kf_default_budget_tokens parsed end;
         keys_file := Some path |}
  end.

Definition budget_for (c : GateConfig) (u : string) : option Z :=
  match user_budgets c !! u with Some b => Some b | None => default_budget_tokens c end.

(** The users are listed in the map's order, which the code leaves open. *)
Definition from_config (c : GateConfig) : KeyStore :=
  {| keys := canonicalize_boot_keys (cfg_keys c);
     persist :=
       match keys_file c with
       | Some path =>
           Some {| ctx_path := path; ctx_default_budget_tokens := default_budget_tokens c;
                   ctx_users := map (fun p => {| ub_user_omni := p.1; ub_budget_tokens := p.2 |})
                                  (map_to_list (user_budgets c)) |}
       | None => None
       end;
     persistence_failed := false |}.

(** ** Reading *)

(** Differences accumulate over the whole length. *)
Definition ct_eq (a b : bytes) : bool :=
  if negb (length a =? length b)%nat then false
  else (fold_left (fun diff p => Z.lor diff (Z.lxor (byte_val p.1) (byte_val p.2))) (zip a b) 0 =? 0)%Z.

Definition is_available (s : KeyStore) : bool := negb (persistence_failed s).

Definition require_available (s : KeyStore) : result GateError unit :=
  if is_available s then Ok tt
  else Err (Unavailable "credential persistence failed; restore the private state and restart the relay").

Definition authenticate (s : KeyStore) (token : string) : result GateError RelayKey :=
  let? _ := require_available s in
  ok_or (Unauthorized "unknown relay key")
    (List.find (fun k => negb (disabled k) && ct_eq (as_bytes (key k)) (as_bytes token)) (keys s)).

Definition budget_for_key (s : KeyStore) (id : string) : option Z :=
  let id := canonical_key_id id in
  match List.find (fun k => String.eqb (key_id k) id) (keys s) with
  | Some k => budget_tokens k
  | None => None
  end.

(** ** Writing *)

(** How a replacement of the file can end: as asked, or with an error, which is
    reported with the old content in place when any step up to the rename failed
    and with the new one when the directory could not be synced after it. *)
Inductive ReplaceOutcome := Replaced | NotReplaced | ReplacedUnsynced.

Definition replace_atomic {A} (o : ReplaceOutcome) (old new : option A) : option A * result string unit :=
  match o with
  | Replaced => (new, Ok tt)
  | NotReplaced => (old, Err "could not replace secret file")
  | ReplacedUnsynced => (new, Err "sync of the directory failed")
  end.

(** The process's store and the content of the keys file. *)
Record World := { store : KeyStore; file : option KeysFile }.

Definition set_failed (s : KeyStore) : KeyStore :=
  {| keys := keys s; persist := persist s; persistence_failed := true |}.

Definition commit (s : KeyStore) (ks : list RelayKey) : KeyStore :=
  {| keys := ks; persist := persist s; persistence_failed := persistence_failed s |}.

Definition write_through (o : ReplaceOutcome) (w : World) (ks : list RelayKey)
    : World * result GateError unit :=
  match persist (store w) with
  | None => (w, Ok tt)
  | Some context =>
      let document := {| kf_default_budget_tokens := ctx_default_budget_tokens context;
                         kf_users := ctx_users context; kf_keys := ks |} in
      match replace_atomic o (file w) (Some document) with
      | (f, Ok _) => ({| store := store w; file := f |}, Ok tt)
      | (f, Err _) =>
          let failed := set_failed (store w) in
          ({| store := failed; file := f |}, require_available failed)
      end
  end.

(** [retain_mut]: the first row of the id becomes the record, the others go. *)
Fixpoint supersede (id : string) (record : RelayKey) (placed : bool) (ks : list RelayKey)
    : list RelayKey * bool :=
  match ks with
  | [] => ([], placed)
  | k :: rest =>
      if negb (String.eqb (key_id k) id) then
        let (out, p) := supersede id record placed rest in (k :: out, p)
      else if placed then supersede id record placed rest
      else let (out, p) := supersede id record true rest in (record :: out, p)
  end.

Definition place (id : string) (record : RelayKey) (ks : list RelayKey) : list RelayKey :=
  let (out, placed) := supersede id record false ks in
  if placed then out else (out ++ [record])%list.

(** [format!("{b:02x}")] of every byte. *)
Definition hex_encode (b : bytes) : string :=
  String.concat "" (map (fun x => String (SimpleHex.digit (byte_val x / 16))
                                    (String (SimpleHex.digit (byte_val x mod 16)) "")) b).

Definition mint_secret (secret_bytes : bytes) : string := "gk_" +:+ hex_encode secret_bytes.

Definition provisioned_record (secret id u : string) (delegate : option string)
    (device lbl : string) (budget : option Z) : RelayKey :=
  {| key := secret; key_id := id; user_omni := normalize_omni_0x u;
     device_id := canonical_key_id device; label := lbl;
     delegate_omni := normalize_omni_0x <$> delegate; budget_tokens := budget;
     disabled := false |}.

Definition provision (o : ReplaceOutcome) (secret_bytes : bytes) (w : World)
    (id u : string) (delegate : option string) (device lbl : string) (budget : option Z)
    : World * result GateError ProvisionedKey :=
  if String.eqb (trim id) "" || String.eqb (trim u) "" then
    (w, Err (BadRequest "key_id and user_omni are required"))
  else
    let id := canonical_key_id id in
    let secret := mint_secret secret_bytes in
    match require_available (store w) with
    | Err e => (w, Err e)
    | Ok _ =>
        let ks := place id (provisioned_record secret id u delegate device lbl budget)
                    (keys (store w)) in
        match write_through o w ks with
        | (w', Err e) => (w', Err e)
        | (w', Ok _) => ({| store := commit (store w') ks; file := file w' |},
                         Ok {| pk_key_id := id; pk_secret := secret |})
        end
    end.

Definition disable_row (k : RelayKey) : RelayKey :=
  {| key := key k; key_id := key_id k; user_omni := user_omni k; device_id := device_id k;
     label := label k; delegate_omni := delegate_omni k; budget_tokens := budget_tokens k;
     disabled := true |}.

Definition live_row (id : string) (k : RelayKey) : bool :=
  String.eqb (key_id k) id && negb (disabled k).

Definition disable (o : ReplaceOutcome) (w : World) (id : string) : World * result GateError bool :=
  let id := canonical_key_id id in
  match require_available (store w) with
  | Err e => (w, Err e)
  | Ok _ =>
      let changed := existsb (live_row id) (keys (store w)) in
      let ks := map (fun k => if live_row id k then disable_row k else k) (keys (store w)) in
      if changed then
        match write_through o w ks with
        | (w', Err e) => (w', Err e)
        | (w', Ok _) => ({| store := commit (store w') ks; file := file w' |}, Ok changed)
        end
      else (w, Ok changed)
  end.

(** ** A run of the registry *)

Inductive Call :=
| CProvision (o : ReplaceOutcome) (secret_bytes : bytes) (id u : string)
    (delegate : option string) (device lbl : string) (budget : option Z)
| CDisable (o : ReplaceOutcome) (id : string).

(** The world after a call and whether the call succeeded. *)
Definition apply_call (w : World) (c : Call) : World * bool :=
  match c with
  | CProvision o sb id u delegate device lbl budget =>
      let (w', r) := provision o sb w id u delegate device lbl budget in (w', is_ok r)
  | CDisable o id => let (w', r) := disable o w id in (w', is_ok r)
  end.

Definition run (w : World) (calls : list Call) : World :=
  fold_left (fun w c => (apply_call w c).1) calls w.

(** The same call, were its write to succeed. *)
Definition succeeding (c : Call) : Call :=
  match c with
  | CProvision _ sb id u delegate device lbl budget =>
      CProvision Replaced sb id u delegate device lbl budget
  | CDisable _ id => CDisable Replaced id
  end.

Definition boot (cli_default : option Z) (path : string) (doc : KeysFile) : World :=
  {| store := from_config (from_cli cli_default (Some (path, doc))); file := Some doc |}.

(** ** Lemmas *)

Lemma lxor_lor_zero (l : list (Byte.byte * Byte.byte)) d :
  (0 <= d)%Z ->
  fold_left (fun diff p => Z.lor diff (Z.lxor (byte_val p.1) (byte_val p.2))) l d = 0%Z <->
  d = 0%Z /\ Forall (fun p => p.1 = p.2) l.
Proof.
  revert d. induction l as [|[x y] l IH]; intros d Hd; cbn; [naive_solver|].
  pose proof (byte_val_range x). pose proof (byte_val_range y).
  rewrite IH by (apply Z.lor_nonneg; split; [done|]; apply Z.lxor_nonneg; lia).
  rewrite Z.lor_eq_0_iff, Forall_cons, Z.lxor_eq_0_iff. cbn.
  assert (Hxy : byte_val x = byte_val y <-> x = y).
  { split; [|by intros ->]. intros Hv.
    rewrite <-(byte_of_Z_val x), Hv. apply byte_of_Z_val. }
  tauto.
Qed.

Lemma ct_eq_bytes (a b : bytes) : ct_eq a b = true <-> a = b.
Proof.
  unfold ct_eq. destruct (length a =? length b)%nat eqn:E; cbn [negb]; reflect_bools.
  - rewrite Z.eqb_eq, lxor_lor_zero by done. clear -E. split.
    + intros [_ Hf]. revert b E Hf. induction a as [|x a IH]; intros [|y b] E Hf; try done.
      cbn in *. apply Forall_cons in Hf as [Hx Hf]. cbn in Hx. subst. f_equal. apply IH; [lia|done].
    + intros ->. split; [done|]. clear. induction b; cbn; by constructor.
  - split; [done|]. by intros ->.
Qed.

Lemma ct_eq_string (a b : string) : ct_eq (as_bytes a) (as_bytes b) = true <-> a = b.
Proof.
  rewrite ct_eq_bytes. unfold as_bytes. split; [|by intros ->]. intros E.
  by rewrite <-(String.string_of_list_byte_of_string a), E, String.string_of_list_byte_of_string.
Qed.

(** *** Identifiers *)

Lemma strip_prefix_app p r : strip_prefix p (p +:+ r) = Some r.
Proof. by apply strip_prefix_spec. Qed.

Lemma canonical_key_id_hex h :
  String.length h = 64%nat -> string_all is_ascii_hexdigit h = true ->
  canonical_key_id ("0x" +:+ h) = "0x" +:+ to_lowercase h.
Proof.
  intros Hl Hh. unfold canonical_key_id.
  rewrite trim_id.
  - rewrite strip_prefix_app. change (default ("0x" +:+ h) (Some h)) with h. by rewrite Hl, Hh.
  - rewrite string_all_app. cbn.
    exact (string_all_impl _ _ h hexdigit_not_whitespace Hh).
Qed.

Lemma lower_hexdigits h :
  string_all is_ascii_hexdigit h = true -> string_all is_ascii_hexdigit (to_lowercase h) = true.
Proof.
  unfold to_lowercase. induction h as [|c h IH]; [done|]. cbn [string_map string_all].
  intros [Hc Hh]%andb_true_iff. rewrite (IH Hh), andb_true_r.
  pose proof (ascii_forall (fun c => negb (is_ascii_hexdigit c) || is_ascii_hexdigit (char_lower c))
    eq_refl c) as Hf. cbv beta in Hf. by rewrite Hc in Hf.
Qed.

Lemma canonical_key_id_idem id : canonical_key_id (canonical_key_id id) = canonical_key_id id.
Proof.
  unfold canonical_key_id at 2 3. destruct (_ && _) eqn:E.
  - apply andb_true_iff in E as [Hl%Nat.eqb_eq Hh].
    rewrite canonical_key_id_hex; [by rewrite lower_idem | by rewrite lower_length |].
    by apply lower_hexdigits.
  - unfold canonical_key_id. by rewrite trim_idem, E.
Qed.

(** *** Rows *)

Definition of_id (id : string) (k : RelayKey) : bool := String.eqb (key_id k) id.
Definition not_id (id : string) (k : RelayKey) : bool := negb (of_id id k).

Lemma supersede_spec id record placed ks :
  key_id record = id ->
  let (out, p) := supersede id record placed ks in
  p = placed || existsb (of_id id) ks /\
  List.filter (of_id id) out = (if placed then [] else if existsb (of_id id) ks then [record] else []) /\
  List.filter (not_id id) out = List.filter (not_id id) ks.
Proof.
  intros Hr. revert placed. induction ks as [|k ks IH]; intros placed; cbn.
  - rewrite orb_false_r. by destruct placed.
  - assert (Hrid : of_id id record = true) by (unfold of_id; rewrite Hr; apply String.eqb_refl).
    change (String.eqb (key_id k) id) with (of_id id k).
    change (not_id id k) with (negb (of_id id k)).
    destruct (of_id id k) eqn:Ek; cbn [negb orb].
    + destruct placed; cbn.
      * specialize (IH true). by destruct (supersede _ _ _ _) as [out p].
      * specialize (IH true). destruct (supersede _ _ _ _) as [out p]. cbn.
        change (not_id id record) with (negb (of_id id record)).
        rewrite Hrid. cbn. destruct IH as (-> & -> & ->). done.
    + specialize (IH placed). destruct (supersede _ _ _ _) as [out p]. cbn.
      change (not_id id k) with (negb (of_id id k)).
      rewrite Ek. cbn. destruct IH as (-> & -> & ->). done.
Qed.

Lemma place_spec id record ks :
  key_id record = id ->
  List.filter (of_id id) (place id record ks) = [record] /\
  List.filter (not_id id) (place id record ks) = List.filter (not_id id) ks.
Proof.
  intros Hr. unfold place. pose proof (supersede_spec id record false ks Hr) as Hs.
  assert (Hrid : of_id id record = true) by (unfold of_id; rewrite Hr; apply String.eqb_refl).
  destruct (supersede _ _ _ _) as [out p]. destruct Hs as (-> & Ho & Hn). cbn [orb] in *.
  destruct (existsb _ ks); [done|].
  rewrite !List.filter_app, Ho, Hn. cbn. unfold not_id at 2. rewrite Hrid. cbn.
  by rewrite app_nil_r.
Qed.

(** *** What a call writes *)

Definition target (c : Call) (ks : list RelayKey) : option (list RelayKey) :=
  match c with
  | CProvision _ sb id u delegate device lbl budget =>
      if String.eqb (trim id) "" || String.eqb (trim u) "" then None
      else let id := canonical_key_id id in
           Some (place id (provisioned_record (mint_secret sb) id u delegate device lbl budget) ks)
  | CDisable _ id =>
      let id := canonical_key_id id in
      if existsb (live_row id) ks
      then Some (map (fun k => if live_row id k then disable_row k else k) ks) else None
  end.

Definition outcome (c : Call) : ReplaceOutcome :=
  match c with CProvision o _ _ _ _ _ _ _ => o | CDisable o _ => o end.

Definition try_commit (o : ReplaceOutcome) (w : World) (ks : list RelayKey) : World :=
  match write_through o w ks with
  | (w', Ok _) => {| store := commit (store w') ks; file := file w' |}
  | (w', Err _) => w'
  end.

Lemma available_ok s : is_available s = true -> require_available s = Ok tt.
Proof. unfold require_available. by intros ->. Qed.

Lemma call_available w c :
  is_available (store w) = true ->
  (apply_call w c).1 = match target c (keys (store w)) with
                       | Some ks => try_commit (outcome c) w ks
                       | None => w
                       end.
Proof.
  intros Ha. destruct c; cbn [apply_call target outcome]; unfold provision, disable, try_commit.
  - destruct (_ || _); [done|]. rewrite (available_ok _ Ha). cbv zeta.
    by destruct (write_through _ _ _) as [w' []].
  - rewrite (available_ok _ Ha). cbv zeta. destruct (existsb _ _); [|done].
    by destruct (write_through _ _ _) as [w' []].
Qed.

Lemma call_latched w c : is_available (store w) = false -> apply_call w c = (w, false).
Proof.
  intros Ha. assert (Hr : exists m, require_available (store w) = Err m).
  { unfold require_available. rewrite Ha. by eexists. }
  destruct Hr as [m Hm].
  destruct c; cbn [apply_call]; unfold provision, disable; rewrite Hm; [|done].
  by destruct (_ || _).
Qed.

Lemma target_succeeding c ks : target (succeeding c) ks = target c ks.
Proof. by destruct c. Qed.

(** *** Rows that a restart reads back as they are *)

Definition restarted (k : RelayKey) : RelayKey :=
  match canonicalize_boot_keys [boot_key k] with k' :: _ => k' | [] => k end.

Definition normal (k : RelayKey) : Prop := restarted k = k.

Lemma restarted_map ks : canonicalize_boot_keys (map boot_key ks) = map restarted ks.
Proof. unfold canonicalize_boot_keys. by rewrite map_map. Qed.

Lemma restarted_idem k : normal (restarted k).
Proof.
  unfold normal, restarted. cbn. by rewrite !canonical_key_id_idem, normalize_omni_0x_idem.
Qed.

Lemma restarted_normal ks : Forall normal ks -> map restarted ks = ks.
Proof. induction 1 as [|k ks Hk _ IH]; cbn [map]; [done|]. unfold normal in Hk. by rewrite Hk, IH. Qed.

Lemma boot_normal ks : Forall normal (map restarted ks).
Proof. apply Forall_map, Forall_true. apply restarted_idem. Qed.

Lemma provisioned_normal secret id u delegate device lbl budget :
  normal (provisioned_record secret (canonical_key_id id) u delegate device lbl budget).
Proof.
  unfold normal, restarted. cbn. by rewrite !canonical_key_id_idem, normalize_omni_0x_idem.
Qed.

Lemma supersede_forall (P : RelayKey -> Prop) id record placed ks :
  P record -> Forall P ks -> Forall P (supersede id record placed ks).1.
Proof.
  intros Hr Hks. revert placed. induction Hks as [|k ks Hk _ IH]; intros placed; cbn; [constructor|].
  specialize (IH placed) as IHp. specialize (IH true) as IHt.
  destruct (negb _), placed; repeat destruct (supersede _ _ _ _); cbn in *; by try constructor.
Qed.

Lemma place_forall (P : RelayKey -> Prop) id record ks :
  P record -> Forall P ks -> Forall P (place id record ks).
Proof.
  intros Hr Hks. unfold place. pose proof (supersede_forall P id record false ks Hr Hks) as Hf.
  destruct (supersede _ _ _ _) as [out []]; [done|]. apply Forall_app. by repeat constructor.
Qed.

(** A property of rows that every call keeps. *)
Definition row_invariant (P : RelayKey -> Prop) : Prop :=
  (forall k, P k -> P (disable_row k)) /\
  (forall sb id u delegate device lbl budget,
     P (provisioned_record (mint_secret sb) (canonical_key_id id) u delegate device lbl budget)).

Lemma target_forall P c ks ks' :
  row_invariant P -> Forall P ks -> target c ks = Some ks' -> Forall P ks'.
Proof.
  intros [Hdis Hprov] Hn. destruct c; cbn [target].
  - case_match; [done|]. intros [= <-]. by apply place_forall.
  - case_match; [|done]. intros [= <-]. apply Forall_map. eapply Forall_impl; [exact Hn|].
    intros k Hk. cbn. destruct (live_row _ k); auto.
Qed.

Lemma normal_invariant : row_invariant normal.
Proof.
  split; [|intros; apply provisioned_normal]. intros k Hk. unfold normal, restarted in *. cbn in *.
  destruct k. unfold disable_row. cbn in *. congruence.
Qed.

(** *** What a restart reads *)

Lemma boot_budgets_keys us u b :
  boot_budgets us !! u = Some b -> normalize_omni_0x u = u.
Proof.
  unfold boot_budgets. intros Hin%elem_of_list_to_map_2.
  rewrite elem_of_reverse, list_elem_of_fmap in Hin. destruct Hin as (x & [= -> ->] & _).
  apply normalize_omni_0x_idem.
Qed.

Lemma boot_budgets_written (m : gmap string Z) :
  (forall u b, m !! u = Some b -> normalize_omni_0x u = u) ->
  boot_budgets (map (fun p => {| ub_user_omni := p.1; ub_budget_tokens := p.2 |}) (map_to_list m)) = m.
Proof.
  intros Hm. unfold boot_budgets. rewrite map_map. cbn.
  assert (map (fun x : string * Z => (normalize_omni_0x x.1, x.2)) (map_to_list m) = map_to_list m) as ->.
  { rewrite <-(map_id (map_to_list m)) at 2. apply map_ext_in. intros [u b] Hin%list_elem_of_In.
    apply elem_of_map_to_list in Hin. cbn. by rewrite (Hm u b Hin). }
  rewrite <-(list_to_map_proper (map_to_list m)).
  - apply list_to_map_to_list.
  - apply NoDup_fst_map_to_list.
  - symmetry. apply reverse_Permutation.
Qed.

Section Restart.
Variables (cli : option Z) (path : string) (doc : KeysFile).

Let cfg : GateConfig := from_cli cli (Some (path, doc)).

(** The document [d] boots into these rows and the budgets of the first boot. *)
Definition reads_as (d : KeysFile) (ks : list RelayKey) : Prop :=
  let cfg' := from_cli cli (Some (path, d)) in
  user_budgets cfg' = user_budgets cfg /\
  default_budget_tokens cfg' = default_budget_tokens cfg /\
  from_config cfg' = {| keys := ks; persist := persist (from_config cfg); persistence_failed := false |}.

Definition written (ks : list RelayKey) : KeysFile :=
  {| kf_default_budget_tokens := default_budget_tokens cfg;
     kf_users := map (fun p => {| ub_user_omni := p.1; ub_budget_tokens := p.2 |})
                   (map_to_list (user_budgets cfg));
     kf_keys := ks |}.

Lemma written_reads ks : Forall normal ks -> reads_as (written ks) ks.
Proof.
  intros Hn. unfold reads_as.
  assert (Hu : user_budgets (from_cli cli (Some (path, written ks))) = user_budgets cfg).
  { cbn. apply boot_budgets_written. intros u b. apply boot_budgets_keys. }
  assert (Hd : default_budget_tokens (from_cli cli (Some (path, written ks))) = default_budget_tokens cfg).
  { unfold written, cfg. cbn. generalize cli. by intros []. }
  split_and!; [done..|]. unfold from_config at 1. rewrite Hu, Hd.
  cbn. rewrite restarted_map, restarted_normal by done. done.
Qed.

Lemma boot_reads : reads_as doc (keys (from_config cfg)).
Proof. done. Qed.

Record good (w : World) : Prop := {
  good_normal : Forall normal (keys (store w));
  good_persist : persist (store w) = persist (from_config cfg);
  good_available : is_available (store w) = true;
  good_file : exists d, file w = Some d /\ reads_as d (keys (store w));
}.

Lemma good_boot : good (boot cli path doc).
Proof.
  split; cbn; try done.
  - rewrite restarted_map. apply boot_normal.
  - by exists doc.
Qed.

(** A commit either succeeds, or latches the store on its old rows. *)
Lemma good_commit w ks o :
  good w -> Forall normal ks ->
  let w' := try_commit o w ks in
  (o = Replaced -> good w' /\ keys (store w') = ks) /\
  (o <> Replaced -> is_available (store w') = false /\ keys (store w') = keys (store w) /\
     exists d, file w' = Some d /\ (reads_as d (keys (store w)) \/ reads_as d ks)).
Proof.
  intros [Hn Hp Ha (d & Hf & Hr)] Hks. cbn. unfold try_commit, write_through.
  rewrite Hp. cbn. fold (written ks).
  destruct o; cbn; (split; intros; [|done || idtac]); try done.
  - split; [|done]. split; cbn; try done. exists (written ks). split; [done|]. by apply written_reads.
  - split_and!; [done..|]. exists d. auto.
  - split_and!; [done..|]. exists (written ks). split; [done|]. right. by apply written_reads.
Qed.
End Restart.

Lemma run_snoc w calls c : run w (calls ++ [c])%list = (apply_call (run w calls) c).1.
Proof. unfold run. by rewrite fold_left_app. Qed.

Lemma run_latched w calls : is_available (store w) = false -> run w calls = w.
Proof.
  intros Ha. induction calls as [|c calls IH] using rev_ind; [done|].
  by rewrite run_snoc, IH, call_latched.
Qed.

Lemma try_commit_keys o w ks :
  keys (store (try_commit o w ks)) = ks \/ keys (store (try_commit o w ks)) = keys (store w).
Proof.
  unfold try_commit, write_through. destruct (persist _); [|by left].
  destruct (replace_atomic _ _ _) as [f []]; [by left|]. by right.
Qed.

Lemma run_forall P w calls :
  row_invariant P -> Forall P (keys (store w)) -> Forall P (keys (store (run w calls))).
Proof.
  intros HP Hw. induction calls as [|c calls IH] using rev_ind; [done|]. rewrite run_snoc.
  destruct (is_available (store (run w calls))) eqn:Ha; [|by rewrite call_latched].
  rewrite call_available by done. destruct (target c _) as [ks|] eqn:Et; [|done].
  destruct (try_commit_keys (outcome c) (run w calls) ks) as [-> | ->]; [|done].
  by eapply target_forall.
Qed.

(** Where a run stands: still good, or latched by one failed write. *)
Lemma run_stands cli path doc calls :
  let w := run (boot cli path doc) calls in
  good cli path doc w \/
  exists before c after d ks,
    calls = (before ++ c :: after)%list /\
    let wb := run (boot cli path doc) before in
    good cli path doc wb /\ target c (keys (store wb)) = Some ks /\ outcome c <> Replaced /\
    is_available (store w) = false /\ keys (store w) = keys (store wb) /\
    file w = Some d /\ (reads_as cli path doc d (keys (store wb)) \/ reads_as cli path doc d ks).
Proof.
  cbn. induction calls as [|c calls IH] using rev_ind; [left; apply good_boot|].
  rewrite run_snoc. destruct IH as [Hg | (before & c0 & after & d & ks & -> & H)].
  - rewrite call_available by (eapply good_available, Hg).
    destruct (target c _) as [ks|] eqn:Et; [|by left].
    assert (Hks : Forall normal ks) by (eapply target_forall, Et; [apply normal_invariant | eapply good_normal, Hg]).
    destruct (good_commit cli path doc _ ks (outcome c) Hg Hks) as [Hok Hfail].
    assert (Hdec : outcome c = Replaced \/ outcome c <> Replaced) by (destruct (outcome c); auto).
    destruct Hdec as [Ho|Ho]; [left; by apply Hok|].
    destruct (Hfail Ho) as (Ha & Hk & d & Hf & Hr).
    right. by exists calls, c, [], d, ks.
  - right. exists before, c0, (after ++ [c])%list, d, ks. split; [by rewrite <-app_assoc|].
    destruct H as (? & ? & ? & Ha & ? & ? & ?). rewrite call_latched by done. done.
Qed.

(** *** Who authenticates *)

Lemma authenticate_ok s t r :
  authenticate s t = Ok r ->
  is_available s = true /\ r ∈ keys s /\ key r = t /\ disabled r = false.
Proof.
  unfold authenticate, require_available. destruct (is_available s); [|done].
  intros Hf%ok_or_ok. apply find_some in Hf as [Hin Hb%andb_true_iff]. destruct Hb as [Hd Hc].
  rewrite ct_eq_string in Hc. rewrite <-list_elem_of_In in Hin.
  by rewrite negb_true_iff in Hd.
Qed.

Lemma authenticate_unique s r :
  is_available s = true -> r ∈ keys s -> disabled r = false ->
  (forall k, k ∈ keys s -> key k = key r -> disabled k = false -> k = r) ->
  authenticate s (key r) = Ok r.
Proof.
  intros Ha Hr Hd Hu. unfold authenticate. rewrite available_ok by done.
  destruct (List.find _ _) as [k|] eqn:E.
  - apply find_some in E as [Hin [Hk Hc]%andb_true_iff]. rewrite ct_eq_string in Hc.
    rewrite (Hu k); [done | by apply list_elem_of_In | done | by apply negb_true_iff].
  - apply (find_none _ _) with (x := r) in E; [|by apply list_elem_of_In].
    rewrite Hd in E. cbn in E. by rewrite (proj2 (ct_eq_string _ _)) in E.
Qed.

Lemma commit_of_ok o w ks w' u :
  write_through o w ks = (w', Ok u) -> keys (store w') = keys (store w) /\
  is_available (store w') = is_available (store w).
Proof.
  unfold write_through. destruct (persist _); [|by intros [= <- <-]].
  destruct (replace_atomic _ _ _) as [f []]; [by intros [= <- <-]|].
  unfold require_available. by cbn.
Qed.

Lemma provision_ok o sb w id u delegate device lbl budget w' reply :
  provision o sb w id u delegate device lbl budget = (w', Ok reply) ->
  let cid := canonical_key_id id in
  reply = {| pk_key_id := cid; pk_secret := mint_secret sb |} /\ is_available (store w') = true /\
  keys (store w') = place cid (provisioned_record (mint_secret sb) cid u delegate device lbl budget)
                      (keys (store w)).
Proof.
  unfold provision. cbv zeta. destruct (_ || _); [done|].
  unfold require_available. destruct (is_available (store w)) eqn:Ha; [|done].
  destruct (write_through _ _ _) as [w1 [v|]] eqn:E; [|done]. intros [= <- <-].
  apply commit_of_ok in E as [_ Ha']. split_and!; [done| |done]. cbn. by rewrite <-Ha, <-Ha'.
Qed.

Lemma disable_ok o w id w' b :
  disable o w id = (w', Ok b) ->
  let cid := canonical_key_id id in
  b = existsb (live_row cid) (keys (store w)) /\
  is_available (store w) = true /\ is_available (store w') = true /\
  keys (store w') = map (fun k => if live_row cid k then disable_row k else k) (keys (store w)).
Proof.
  unfold disable. cbv zeta. unfold require_available.
  destruct (is_available (store w)) eqn:Ha; [|done].
  destruct (existsb _ _) eqn:Ex.
  - destruct (write_through _ _ _) as [w1 [v|]] eqn:E; [|done]. intros [= <- <-].
    apply commit_of_ok in E as [_ Ha']. by rewrite Ha in Ha'.
  - intros [= <- <-]. split_and!; [done..|]. rewrite existsb_none in Ex.
    rewrite <-(map_id (keys (store w))) at 1. apply map_ext_in. intros k Hk%list_elem_of_In.
    by rewrite Ex.
Qed.

(** ** Properties *)

Definition canonical_row (k : RelayKey) : Prop := canonical_key_id (key_id k) = key_id k.

Lemma canonical_invariant : row_invariant canonical_row.
Proof. split; [done|]. intros. apply canonical_key_id_idem. Qed.

Lemma boot_canonical c : Forall canonical_row (keys (from_config c)).
Proof.
  cbn. unfold canonicalize_boot_keys. apply Forall_forall. intros k Hk.
  apply list_elem_of_fmap in Hk as (k0 & -> & _). apply canonical_key_id_idem.
Qed.

(** Provisioning a relay key.  In a store booted from any configuration and
    driven by any calls, a successful provision leaves exactly one row of the id,
    under whichever spelling rows and callers know it: the row carries the new
    secret and is enabled, and the rows of other ids are untouched.  The new
    secret, when no other id holds it, authenticates as that row, and no earlier
    secret of the id does any more. *)
Theorem provision_one_live_secret (c : GateConfig) (f : option KeysFile) (calls : list Call)
    (o : ReplaceOutcome) (sb : bytes) (id u : string) (delegate : option string)
    (device lbl : string) (budget : option Z) (w' : World) (reply : ProvisionedKey) :
  let w := run {| store := from_config c; file := f |} calls in
  provision o sb w id u delegate device lbl budget = (w', Ok reply) ->
  let cid := canonical_key_id id in
  let record := provisioned_record (mint_secret sb) cid u delegate device lbl budget in
  reply = {| pk_key_id := cid; pk_secret := mint_secret sb |} /\
  List.filter (fun k => String.eqb (canonical_key_id (key_id k)) cid) (keys (store w')) = [record] /\
  List.filter (not_id cid) (keys (store w')) = List.filter (not_id cid) (keys (store w)) /\
  (forall spelling, canonical_key_id spelling = cid -> budget_for_key (store w') spelling = budget) /\
  ((forall k, k ∈ keys (store w) -> key k = mint_secret sb -> key_id k = cid) ->
     authenticate (store w') (mint_secret sb) = Ok record) /\
  (forall t r, authenticate (store w') t = Ok r -> key_id r = cid -> t = mint_secret sb).
Proof.
  intros w Hp cid record. apply provision_ok in Hp as (-> & Ha & Hk). fold cid record in Hk.
  assert (Hcan : Forall canonical_row (keys (store w'))).
  { rewrite Hk. apply place_forall; [apply canonical_key_id_idem|].
    apply run_forall; [apply canonical_invariant | apply boot_canonical]. }
  destruct (place_spec cid record (keys (store w)) eq_refl) as [Hone Hrest].
  rewrite <-Hk in Hone, Hrest.
  assert (Hrow : forall k, k ∈ keys (store w') -> key_id k = cid -> k = record).
  { intros k Hin Hid. apply list_elem_of_singleton. rewrite <-Hone. apply elem_of_filterb.
    split; [|done]. by apply String.eqb_eq. }
  assert (Hin : record ∈ keys (store w')).
  { apply (elem_of_filterb (of_id cid)). rewrite Hone. by apply list_elem_of_singleton. }
  split_and!; try done.
  - rewrite <-Hone. apply filter_ext_elem. intros k Hk'.
    rewrite Forall_forall in Hcan. by rewrite (Hcan k Hk').
  - intros sp Hsp. unfold budget_for_key. rewrite Hsp.
    destruct (List.find _ _) as [k|] eqn:E.
    + apply find_some in E as [Hk' He%String.eqb_eq].
      by rewrite (Hrow k (proj2 (list_elem_of_In _ _) Hk') He).
    + apply (find_none _ _) with (x := record) in E; [|by apply list_elem_of_In].
      cbn in E. by rewrite String.eqb_refl in E.
  - intros Hfresh. apply (authenticate_unique (store w') record Ha Hin eq_refl).
    intros k Hin' Hkey _. apply Hrow; [done|].
    destruct (String.eqb (key_id k) cid) eqn:E; [by apply String.eqb_eq|].
    apply Hfresh; [|done]. apply (elem_of_filterb (not_id cid)). rewrite <-Hrest.
    apply elem_of_filterb. unfold not_id, of_id. by rewrite E.
  - intros t r Hau Hid. apply authenticate_ok in Hau as (_ & Hr & <- & _). by rewrite (Hrow r).
Qed.

(** Archiving a relay key.  A successful disable answers whether a live row of
    the id existed, disables every one of them under whichever spelling it was
    sent, and does nothing else: no token authenticates as the id any more, every
    token that authenticated as another id still does, as the same row, and
    disabling again answers [false] and changes nothing. *)
Theorem disable_refuses_the_id (c : GateConfig) (f : option KeysFile) (calls : list Call)
    (o : ReplaceOutcome) (id : string) (w' : World) (b : bool) :
  let w := run {| store := from_config c; file := f |} calls in
  disable o w id = (w', Ok b) ->
  let cid := canonical_key_id id in
  (b = true <-> exists k, k ∈ keys (store w) /\ canonical_key_id (key_id k) = cid /\ disabled k = false) /\
  (forall t r, authenticate (store w') t = Ok r -> canonical_key_id (key_id r) <> cid) /\
  (forall t r, authenticate (store w) t = Ok r -> key_id r <> cid -> authenticate (store w') t = Ok r) /\
  map key (keys (store w')) = map key (keys (store w)) /\
  (forall o', disable o' w' id = (w', Ok false)).
Proof.
  intros w Hd cid. apply disable_ok in Hd as (-> & Ha & Ha' & Hk). fold cid in Hk.
  assert (Hcan : Forall canonical_row (keys (store w))).
  { apply run_forall; [apply canonical_invariant | apply boot_canonical]. }
  rewrite Forall_forall in Hcan.
  assert (Hdead : forall k, k ∈ keys (store w') -> live_row cid k = false).
  { intros k Hin. rewrite Hk in Hin. apply list_elem_of_fmap in Hin as (k0 & -> & _).
    destruct (live_row cid k0) eqn:E; [|done]. unfold live_row. cbn. by rewrite andb_false_r. }
  split_and!.
  - rewrite existsb_elem. unfold live_row. split.
    + intros (k & Hin & [He%String.eqb_eq Hl%negb_true_iff]%andb_true_iff). exists k.
      by rewrite (Hcan k Hin).
    + intros (k & Hin & He & Hl). exists k. rewrite (Hcan k Hin) in He.
      by rewrite He, String.eqb_refl, Hl.
  - intros t r Hau Hid. apply authenticate_ok in Hau as (_ & Hr & _ & Hl).
    pose proof (Hdead r Hr) as Hf. unfold live_row in Hf. rewrite Hl, andb_true_r in Hf.
    apply String.eqb_neq in Hf. apply Hf. rewrite Hk in Hr.
    apply list_elem_of_fmap in Hr as (k0 & -> & Hk0). specialize (Hcan k0 Hk0).
    unfold canonical_row in Hcan. destruct (live_row cid k0); cbn in *; congruence.
  - intros t r Hau Hne. unfold authenticate, require_available in *. rewrite Ha'.
    rewrite Ha in Hau. apply ok_or_ok in Hau. apply ok_or_ok.
    rewrite Hk. clear -Hau Hne. induction (keys (store w)) as [|k l IH]; [done|]. cbn [map List.find] in *.
    destruct (negb (disabled k) && _) eqn:E.
    + injection Hau as ->.
      assert (live_row cid r = false) as -> by (unfold live_row; by rewrite (proj2 (String.eqb_neq _ _) Hne)).
      by rewrite E.
    + destruct (live_row cid k); cbn [disabled disable_row negb andb]; [|rewrite E]; by apply IH.
  - rewrite Hk, map_map. apply map_ext. intros k. by destruct (live_row cid k).
  - intros o'. unfold disable. fold cid. cbv zeta. rewrite (available_ok _ Ha').
    by rewrite (proj2 (existsb_none _ _) Hdead).
Qed.

(** C5: the keys file and the latch.  Booted from a keys file and driven by any
    calls, whatever their writes come to: the file always boots back into the
    budgets of the first boot.  While every write succeeded it boots back into
    exactly the store in memory.  From the first write that failed, the memory
    keeps the rows committed before it, every token is refused, no call succeeds
    or changes anything, and the file holds either those rows or the ones the
    failed call was about to commit. *)
Theorem keys_file_restart (cli : option Z) (path : string) (doc : KeysFile) (calls : list Call) :
  let cfg := from_cli cli (Some (path, doc)) in
  let w := run (boot cli path doc) calls in
  exists doc', file w = Some doc' /\
    let cfg' := from_cli cli (Some (path, doc')) in
    (forall u, budget_for cfg' u = budget_for cfg u) /\
    (is_available (store w) = true -> from_config cfg' = store w) /\
    (is_available (store w) = false ->
       (forall t, exists m, authenticate (store w) t = Err (Unavailable m)) /\
       (forall c, apply_call w c = (w, false)) /\
       exists before c after,
         calls = (before ++ c :: after)%list /\
         let wb := run (boot cli path doc) before in
         is_available (store wb) = true /\ keys (store w) = keys (store wb) /\
         (keys (from_config cfg') = keys (store wb) \/
          keys (from_config cfg') = keys (store (apply_call wb (succeeding c)).1))).
Proof.
  cbn zeta. destruct (run_stands cli path doc calls) as [Hg | H].
  - destruct Hg as [_ Hp Ha (d & Hf & Hu & Hd & Hr)]. exists d. split_and!; [done| |..].
    + intros u. unfold budget_for. by rewrite Hu, Hd.
    + intros _. rewrite Hr, <-Hp. unfold is_available in Ha. apply negb_true_iff in Ha.
      destruct (store _). cbn in *. by subst.
    + by rewrite Ha.
  - destruct H as (before & c & after & d & ks & Hc & Hg & Ht & _ & Ha & Hk & Hf & Hr).
    assert (Hn : Forall normal ks).
    { eapply target_forall, Ht; [apply normal_invariant | eapply good_normal, Hg]. }
    pose proof (good_available _ _ _ _ Hg) as Hab.
    exists d. split_and!; [done| |by rewrite Ha|].
    + intros u. unfold budget_for. destruct Hr as [(Hu & Hd & _) | (Hu & Hd & _)]; by rewrite Hu, Hd.
    + intros _. split_and!.
      * intros t. unfold authenticate, require_available. rewrite Ha. by eexists.
      * intros c'. by apply call_latched.
      * exists before, c, after. split_and!; [done..|].
        destruct Hr as [(_ & _ & Hr) | (_ & _ & Hr)]; rewrite Hr; [by left|]. right. cbn [keys].
        rewrite call_available by done. rewrite target_succeeding, Ht.
        destruct (good_commit cli path doc _ ks Replaced Hg Hn) as [Hok _].
        destruct (Hok eq_refl) as [_ Hks]. by destruct c.
Qed.

(** ** Witnesses *)

Definition demo_row (secret id : string) : RelayKey :=
  {| key := secret; key_id := id; user_omni := "0xaa"; device_id := "esp32-01"; label := "";
     delegate_omni := None; budget_tokens := None; disabled := false |}.

(** One delegate under two spellings of its id, and another row. *)
Definition demo_config : GateConfig :=
  {| cfg_keys := [demo_row "one" ("0x" +:+ rep64 "a"); demo_row "two" (rep64 "A"); demo_row "other" "k1"];
     user_budgets := ∅; default_budget_tokens := Some 1000%Z; keys_file := None |}.

Definition demo_boot : World := {| store := from_config demo_config; file := None |}.

Definition demo_secret : bytes := repeat (byte_of_Z 7) 32.

Definition demo_provision : World * result GateError ProvisionedKey :=
  provision Replaced demo_secret demo_boot (rep64 "A") "bb" None "esp32-01" "app" (Some 9%Z).

Example provision_one_live_secret_witness :
  length (keys (store demo_boot)) = 3%nat /\ length (keys (store demo_provision.1)) = 2%nat /\
  (forall t r, authenticate (store demo_provision.1) t = Ok r -> key_id r = "0x" +:+ rep64 "a" ->
     t = mint_secret demo_secret).
Proof.
  assert (Hp : demo_provision =
    (demo_provision.1, Ok {| pk_key_id := "0x" +:+ rep64 "a"; pk_secret := mint_secret demo_secret |}))
    by (vm_compute; reflexivity).
  destruct (provision_one_live_secret demo_config None [] Replaced demo_secret (rep64 "A") "bb" None
    "esp32-01" "app" (Some 9%Z) _ _ Hp) as (_ & _ & _ & _ & _ & Hone).
  split_and!; [vm_compute; reflexivity.. |]. intros t r Hau Hid. apply (Hone t r Hau).
  rewrite Hid. vm_compute. reflexivity.
Defined.

Definition demo_disable : World * result GateError bool := disable Replaced demo_boot (rep64 "a").

Example disable_refuses_the_id_witness :
  demo_disable.2 = Ok true /\
  (forall t r, authenticate (store demo_disable.1) t = Ok r -> canonical_key_id (key_id r) <> canonical_key_id (rep64 "a")) /\
  is_ok (authenticate (store demo_disable.1) "other") = true.
Proof.
  assert (Hd : demo_disable = (demo_disable.1, Ok true)) by (vm_compute; reflexivity).
  destruct (disable_refuses_the_id demo_config None [] Replaced (rep64 "a") _ _ Hd) as (_ & Hno & _).
  split_and!; [vm_compute; reflexivity | exact Hno | vm_compute; reflexivity].
Defined.
