(* ===== verification/GateMeter.v ===== *)
(** * The relay's usage meter and its budget gates

    [crates/agentkeys-gate/src/meter.rs] and the budget checks every metered call
    of [relay.rs] makes before it goes upstream.  Counters are u64 and wrap. *)
From S2P Require Import Prelude RustStr Capability GateKeys.

Open Scope Z_scope.

(** ** Counters *)

Record UsageCounters := {
  u_prompt_tokens : Z;
  u_completion_tokens : Z;
  u_total_tokens : Z;
  u_cached_tokens : Z;
  u_reasoning_tokens : Z;
}.

Record Counters := {
  prompt_tokens : Z;
  completion_tokens : Z;
  total_tokens : Z;
  cached_tokens : Z;
  reasoning_tokens : Z;
  turns : Z;
  embed_tokens : Z;
  embed_turns : Z;
  decide_tokens : Z;
  decide_turns : Z;
}.

(** [Counters::default()] *)
Definition zero : Counters :=
  {| prompt_tokens := 0; completion_tokens := 0; total_tokens := 0; cached_tokens := 0;
     reasoning_tokens := 0; turns := 0; embed_tokens := 0; embed_turns := 0;
     decide_tokens := 0; decide_turns := 0 |}.

Definition add (u : UsageCounters) (c : Counters) : Counters :=
  {| prompt_tokens := u64_add (prompt_tokens c) (u_prompt_tokens u);
     completion_tokens := u64_add (completion_tokens c) (u_completion_tokens u);
     total_tokens := u64_add (total_tokens c) (u_total_tokens u);
     cached_tokens := u64_add (cached_tokens c) (u_cached_tokens u);
     reasoning_tokens := u64_add (reasoning_tokens c) (u_reasoning_tokens u);
     turns := u64_add (turns c) 1;
     embed_tokens := embed_tokens c;
     embed_turns := embed_turns c;
     decide_tokens := decide_tokens c;
     decide_turns := decide_turns c |}.

Definition add_embed (u : UsageCounters) (c : Counters) : Counters :=
  {| prompt_tokens := u64_add (prompt_tokens c) (u_prompt_tokens u);
     completion_tokens := completion_tokens c;
     total_tokens := u64_add (total_tokens c) (u_total_tokens u);
     cached_tokens := cached_tokens c;
     reasoning_tokens := reasoning_tokens c;
     turns := turns c;
     embed_tokens := u64_add (embed_tokens c) (u_total_tokens u);
     embed_turns := u64_add (embed_turns c) 1;
     decide_tokens := decide_tokens c;
     decide_turns := decide_turns c |}.

Definition add_decide (u : UsageCounters) (c : Counters) : Counters :=
  {| prompt_tokens := u64_add (prompt_tokens c) (u_prompt_tokens u);
     completion_tokens := u64_add (completion_tokens c) (u_completion_tokens u);
     total_tokens := u64_add (total_tokens c) (u_total_tokens u);
     cached_tokens := cached_tokens c;
     reasoning_tokens := reasoning_tokens c;
     turns := turns c;
     embed_tokens := embed_tokens c;
     embed_turns := embed_turns c;
     decide_tokens := u64_add (decide_tokens c) (u_total_tokens u);
     decide_turns := u64_add (decide_turns c) 1 |}.

(** ** The meter *)

Record KeyBucket := { kb_label : string; kb_device_id : string; kb_counters : Counters }.

Record UserUsage := {
  totals : Counters;
  by_device : gmap string Counters;
  by_key : gmap string KeyBucket;
}.

Definition no_usage : UserUsage := {| totals := zero; by_device := ∅; by_key := ∅ |}.
Definition no_bucket : KeyBucket := {| kb_label := ""; kb_device_id := ""; kb_counters := zero |}.

Abbreviation Meter := (gmap string UserUsage).

(** The body the three recorders share, with the counters' method they use. *)
Definition record_with (bump : UsageCounters -> Counters -> Counters) (m : Meter)
    (user device api_key label : string) (u : UsageCounters) : Meter :=
  let usage := default no_usage (m !! user) in
  let device_counters := default zero (by_device usage !! device) in
  let bucket := default no_bucket (by_key usage !! api_key) in
  <[user := {| totals := bump u (totals usage);
               by_device := <[device := bump u device_counters]> (by_device usage);
               by_key := <[api_key := {| kb_label := label; kb_device_id := device;
                                         kb_counters := bump u (kb_counters bucket) |}]> (by_key usage) |}]> m.

Definition record := record_with add.
Definition record_embed := record_with add_embed.
Definition record_decide := record_with add_decide.

Definition used_total (m : Meter) (user : string) : Z :=
  match m !! user with Some u => total_tokens (totals u) | None => 0 end.

Definition used_total_for_key (m : Meter) (user api_key : string) : Z :=
  match u ← m !! user; by_key u !! api_key with
  | Some b => total_tokens (kb_counters b)
  | None => 0
  end.

Record DeviceUsage := { du_device_id : string; du_counters : Counters }.
Record KeyUsage := {
  ku_api_key_id : string; ku_label : string; ku_device_id : string; ku_counters : Counters }.
Record UsageSummary := {
  s_user_omni : string;
  s_budget_tokens : option Z;
  s_used_tokens : Z;
  s_remaining_tokens : option Z;
  s_totals : Counters;
  s_by_device : list DeviceUsage;
  s_by_api_key : list KeyUsage;
}.

Definition summary (m : Meter) (user : string) (budget : option Z) : UsageSummary :=
  let found := m !! user in
  let tot := match found with Some u => totals u | None => zero end in
  let used := total_tokens tot in
  {| s_user_omni := user;
     s_budget_tokens := budget;
     s_used_tokens := used;
     s_remaining_tokens := (fun b => u64_saturating_sub b used) <$> budget;
     s_totals := tot;
     s_by_device := match found with
       | Some u => map (fun e => {| du_device_id := e.1; du_counters := e.2 |}) (in_key_order (by_device u))
       | None => []
       end;
     s_by_api_key := match found with
       | Some u => map (fun e => {| ku_api_key_id := e.1; ku_label := kb_label e.2;
                                    ku_device_id := kb_device_id e.2; ku_counters := kb_counters e.2 |})
                     (in_key_order (by_key u))
       | None => []
       end |}.

Definition summaries (m : Meter) (budget_for : string -> option Z) : list UsageSummary :=
  map (fun e => summary m e.1 (budget_for e.1)) (in_key_order m).

(** ** The budget gates *)

(** Every metered call passes these two checks before any upstream request. *)
Definition budget_gates (c : GateConfig) (s : KeyStore) (m : Meter) (caller : RelayKey)
    : result GateError unit :=
  let? _ := match budget_for c (user_omni caller) with
            | Some budget =>
                let used := used_total m (user_omni caller) in
                if budget <=? used then Err (Budget ("user token budget exhausted (" +:+ dec used +:+ "/" +:+ dec budget +:+ ")"))
                else Ok tt
            | None => Ok tt
            end in
  match budget_for_key s (key_id caller) with
  | Some key_budget =>
      let key_used := used_total_for_key m (user_omni caller) (key_id caller) in
      if key_budget <=? key_used
      then Err (Budget ("delegate token budget exhausted (" +:+ dec key_used +:+ "/" +:+ dec key_budget
                        +:+ " for key " +:+ key_id caller +:+ ")"))
      else Ok tt
  | None => Ok tt
  end.

(** ** Runs *)

Inductive Kind := Turn | Embed | Decide.

Definition bump_of (k : Kind) : UsageCounters -> Counters -> Counters :=
  match k with Turn => add | Embed => add_embed | Decide => add_decide end.

(** One metered call. *)
Record Metered := {
  m_kind : Kind; m_user : string; m_device : string; m_key : string; m_label : string;
  m_usage : UsageCounters }.

Definition record_one (m : Meter) (r : Metered) : Meter :=
  match m_kind r with
  | Turn => record m (m_user r) (m_device r) (m_key r) (m_label r) (m_usage r)
  | Embed => record_embed m (m_user r) (m_device r) (m_key r) (m_label r) (m_usage r)
  | Decide => record_decide m (m_user r) (m_device r) (m_key r) (m_label r) (m_usage r)
  end.

Definition record_all (rs : list Metered) : Meter := fold_left record_one rs ∅.

Definition fields : list (Counters -> Z) :=
  [prompt_tokens; completion_tokens; total_tokens; cached_tokens; reasoning_tokens; turns;
   embed_tokens; embed_turns; decide_tokens; decide_turns].

(** What one call adds to a field. *)
Definition share (f : Counters -> Z) (r : Metered) : Z := f (bump_of (m_kind r) (m_usage r) zero).

(** The sum of the shares of the calls that satisfy [p]. *)
Fixpoint sum_of {A} (f : A -> Z) (l : list A) : Z :=
  match l with [] => 0 | x :: l => f x + sum_of f l end.

Definition recorded (f : Counters -> Z) (p : Metered -> bool) (rs : list Metered) : Z :=
  wrap_u64 (sum_of (share f) (List.filter p rs)).

(** ** Gated calls in flight

    A call passes the gates, is answered upstream and is recorded when the answer's
    usage is known; other calls run in between. *)
Record System := { meter : Meter; in_flight : list RelayKey }.

(** The calls of one user. *)
Definition flying (user : string) (s : System) : list RelayKey :=
  List.filter (fun k => String.eqb (user_omni k) user) (in_flight s).

Inductive step (c : GateConfig) (U : Z) : System -> System -> Prop :=
| step_pass s store caller :
    budget_gates c store (meter s) caller = Ok tt ->
    step c U s {| meter := meter s; in_flight := caller :: in_flight s |}
| step_record s l caller r kind usage :
    in_flight s = (l ++ caller :: r)%list ->
    0 <= u_total_tokens usage <= U ->
    step c U s {| meter := record_one (meter s) {| m_kind := kind; m_user := user_omni caller;
                    m_device := device_id caller; m_key := key_id caller; m_label := label caller;
                    m_usage := usage |};
                  in_flight := (l ++ r)%list |}
(** The upstream failed: nothing is recorded. *)
| step_failed s l caller r :
    in_flight s = (l ++ caller :: r)%list ->
    step c U s {| meter := meter s; in_flight := (l ++ r)%list |}.

(** Runs in which the user never has more than [k] calls in flight. *)
Inductive steps (c : GateConfig) (U : Z) (user : string) (k : nat) : System -> System -> Prop :=
| steps_refl s : steps c U user k s s
| steps_step s s' s'' :
    steps c U user k s s' -> step c U s' s'' -> (length (flying user s'') <= k)%nat ->
    steps c U user k s s''.

Definition start : System := {| meter := ∅; in_flight := [] |}.

(** ** Lemmas *)

Lemma record_one_with m r :
  record_one m r = record_with (bump_of (m_kind r)) m (m_user r) (m_device r) (m_key r) (m_label r) (m_usage r).
Proof. by destruct r as [[] ? ? ? ? ?]. Qed.

Lemma u64_add_wrap_l a b : u64_add (wrap_u64 a) b = wrap_u64 (a + b).
Proof. unfold u64_add, wrap_u64. by rewrite Zplus_mod_idemp_l. Qed.

Lemma u64_add_wrap_r a b : u64_add a (wrap_u64 b) = wrap_u64 (a + b).
Proof. unfold u64_add, wrap_u64. by rewrite Zplus_mod_idemp_r. Qed.

Lemma wrap_u64_idem a : wrap_u64 (wrap_u64 a) = wrap_u64 a.
Proof. unfold wrap_u64. by rewrite Zmod_mod. Qed.

Lemma sum_of_app {A} (f : A -> Z) l l' : sum_of f (l ++ l')%list = sum_of f l + sum_of f l'.
Proof. induction l as [|x l IH]; cbn; [done|]. rewrite IH. lia. Qed.

Lemma sum_of_perm {A} (f : A -> Z) l l' : l ≡ₚ l' -> sum_of f l = sum_of f l'.
Proof. induction 1; cbn; lia. Qed.

Lemma sum_of_map {A B} (f : B -> Z) (g : A -> B) l : sum_of f (map g l) = sum_of (fun x => f (g x)) l.
Proof. induction l as [|x l IH]; cbn; [done|]. by rewrite IH. Qed.

Lemma u64_add_share a x : u64_add a x = wrap_u64 (a + u64_add 0 x).
Proof. unfold u64_add, wrap_u64. by rewrite Zplus_mod_idemp_r. Qed.

(** Counting a call moves every field by its share, modulo the width. *)
Lemma bump_field f k u c :
  f ∈ fields -> f (bump_of k u c) = wrap_u64 (f c + f (bump_of k u zero)) \/
                f (bump_of k u c) = f c /\ f (bump_of k u zero) = 0.
Proof.
  intros Hf. unfold fields in Hf. rewrite !elem_of_cons in Hf.
  destruct_or! Hf; try (by apply elem_of_nil in Hf); subst f; destruct k; cbn;
    first [by right | left; apply u64_add_share].
Qed.

Lemma field_zero f : f ∈ fields -> f zero = 0.
Proof.
  intros Hf. unfold fields in Hf. rewrite !elem_of_cons in Hf.
  destruct_or! Hf; try (by apply elem_of_nil in Hf); by subst f.
Qed.

(** A counter that holds a wrapped sum holds the next one after the bump. *)
Lemma bump_recorded f k u c s :
  f ∈ fields -> f c = wrap_u64 s -> f (bump_of k u c) = wrap_u64 (s + f (bump_of k u zero)).
Proof.
  intros Hf Hc. destruct (bump_field f k u c Hf) as [-> | [-> ->]].
  - rewrite Hc. apply u64_add_wrap_l.
  - by rewrite Hc, Z.add_0_r.
Qed.

Lemma recorded_snoc f p rs r :
  recorded f p (rs ++ [r])%list =
  wrap_u64 (sum_of (share f) (List.filter p rs) + (if p r then share f r else 0)).
Proof.
  unfold recorded. rewrite List.filter_app, sum_of_app. cbn [List.filter]. f_equal.
  destruct (p r); cbn [sum_of]; lia.
Qed.

(** Sums over the values of a map. *)
Definition map_sum {A} (f : A -> Z) (m : gmap string A) : Z := sum_of (fun e => f e.2) (map_to_list m).

Lemma map_sum_insert {A} (f : A -> Z) (m : gmap string A) k (x : A) (d : A) :
  f d = 0 -> map_sum f (<[k := x]> m) = map_sum f m - f (default d (m !! k)) + f x.
Proof.
  intros Hd. unfold map_sum. destruct (m !! k) as [y|] eqn:E.
  - rewrite <-insert_delete_eq.
    rewrite (sum_of_perm _ _ _ (map_to_list_insert (delete k m) k x (lookup_delete_eq m k))).
    rewrite <-(insert_delete_id m k y E) at 2.
    rewrite (sum_of_perm _ _ _ (map_to_list_insert (delete k m) k y (lookup_delete_eq m k))).
    cbn. change (default d (Some y)) with y. lia.
  - rewrite (sum_of_perm _ _ _ (map_to_list_insert m k x E)). cbn.
    change (default d None) with d. lia.
Qed.

Lemma in_key_order_sum {A} (f : A -> Z) (m : gmap string A) :
  sum_of (fun e => f e.2) (in_key_order m) = map_sum f m.
Proof. apply sum_of_perm, merge_sort_Permutation. Qed.

(** *** What the meter holds of a list of calls *)

Definition of_user (user : string) (r : Metered) : bool := String.eqb (m_user r) user.
Definition of_user_device (user device : string) (r : Metered) : bool :=
  of_user user r && String.eqb (m_device r) device.
Definition of_user_key (user k : string) (r : Metered) : bool :=
  of_user user r && String.eqb (m_key r) k.

Definition usage_of (m : Meter) (user : string) : UserUsage := default no_usage (m !! user).
Definition device_of (m : Meter) (user device : string) : Counters :=
  default zero (by_device (usage_of m user) !! device).
Definition bucket_of (m : Meter) (user k : string) : KeyBucket :=
  default no_bucket (by_key (usage_of m user) !! k).

Record holds (f : Counters -> Z) (m : Meter) (rs : list Metered) (user : string) : Prop := {
  holds_total : f (totals (usage_of m user)) = recorded f (of_user user) rs;
  holds_device d : f (device_of m user d) = recorded f (of_user_device user d) rs;
  holds_key k : f (kb_counters (bucket_of m user k)) = recorded f (of_user_key user k) rs;
  holds_devices : wrap_u64 (map_sum f (by_device (usage_of m user))) = recorded f (of_user user) rs;
  holds_keys : wrap_u64 (map_sum (fun b => f (kb_counters b)) (by_key (usage_of m user)))
               = recorded f (of_user user) rs;
}.

Lemma usage_of_insert m user u user' :
  usage_of (<[user := u]> m) user' = if decide (user = user') then u else usage_of m user'.
Proof.
  unfold usage_of. case_decide as E; [subst; by rewrite lookup_insert_eq | by rewrite lookup_insert_ne].
Qed.

(** A wrapped sum with one of its terms bumped. *)
Lemma wrap_bumped total old s x new :
  wrap_u64 total = wrap_u64 s -> new = wrap_u64 (old + x) ->
  wrap_u64 (total - old + new) = wrap_u64 (s + x).
Proof.
  intros Ht ->. unfold wrap_u64 in *. rewrite Zplus_mod_idemp_r.
  replace (total - old + (old + x)) with (total + x) by lia.
  by rewrite <-(Zplus_mod_idemp_l total), Ht, Zplus_mod_idemp_l.
Qed.

Lemma bump_from f k u c s :
  f ∈ fields -> f c = wrap_u64 s -> f (bump_of k u c) = wrap_u64 (f c + f (bump_of k u zero)).
Proof.
  intros Hf Hc. destruct (bump_field f k u c Hf) as [-> | [-> ->]]; [done|].
  by rewrite Z.add_0_r, Hc, wrap_u64_idem.
Qed.

Lemma holds_step f m rs r user :
  f ∈ fields -> holds f m rs user -> holds f (record_one m r) (rs ++ [r])%list user.
Proof.
  intros Hf [Ht Hd Hk Hds Hks]. rewrite record_one_with. unfold record_with.
  fold (usage_of m (m_user r)). cbv zeta.
  destruct (decide (m_user r = user)) as [E|E].
  2: { assert (Hno : of_user user r = false) by (by apply String.eqb_neq).
    split; intros; rewrite ?recorded_snoc; unfold device_of, bucket_of in *;
      rewrite usage_of_insert; (case_decide; [done|]);
      unfold of_user_device, of_user_key; rewrite Hno; cbn [andb]; rewrite ?Z.add_0_r; auto. }
  assert (Hyes : of_user user r = true) by (by apply String.eqb_eq).
  split; intros; rewrite ?recorded_snoc; unfold device_of, bucket_of in *;
    rewrite usage_of_insert; (case_decide; [|done]); rewrite E; cbn [totals by_device by_key].
  - rewrite Hyes. by apply bump_recorded.
  - unfold of_user_device at 2. rewrite Hyes. cbn [andb].
    destruct (String.eqb_spec (m_device r) d) as [<-|Hne].
    + rewrite lookup_insert_eq. by apply bump_recorded.
    + rewrite lookup_insert_ne, Z.add_0_r by done. apply Hd.
  - unfold of_user_key at 2. rewrite Hyes. cbn [andb].
    destruct (String.eqb_spec (m_key r) k) as [<-|Hne].
    + rewrite lookup_insert_eq. by apply bump_recorded.
    + rewrite lookup_insert_ne, Z.add_0_r by done. apply Hk.
  - rewrite Hyes, (map_sum_insert f _ _ _ zero) by (by apply field_zero).
    apply wrap_bumped; [exact Hds|]. eapply bump_from; [done | apply Hd].
  - rewrite Hyes, (map_sum_insert _ _ _ _ no_bucket) by (by apply field_zero).
    apply wrap_bumped; [exact Hks|]. cbn [kb_counters]. eapply bump_from; [done | apply Hk].
Qed.

Lemma holds_all f rs user : f ∈ fields -> holds f (record_all rs) rs user.
Proof.
  intros Hf. induction rs as [|r rs IH] using rev_ind.
  - pose proof (field_zero f Hf) as Hz. split; intros; cbn; by rewrite ?Hz.
  - unfold record_all. rewrite fold_left_app. by apply holds_step.
Qed.

(** *** Budgets *)

Lemma used_total_record m r user :
  used_total (record_one m r) user =
  if String.eqb (m_user r) user then u64_add (used_total m user) (u_total_tokens (m_usage r))
  else used_total m user.
Proof.
  rewrite record_one_with. unfold record_with, used_total.
  destruct (String.eqb_spec (m_user r) user) as [->|Hne].
  - rewrite lookup_insert_eq. cbn [totals]. destruct (m !! user); by destruct (m_kind r).
  - by rewrite lookup_insert_ne.
Qed.

Lemma budget_gates_user c s m caller b :
  budget_gates c s m caller = Ok tt -> budget_for c (user_omni caller) = Some b ->
  used_total m (user_omni caller) < b.
Proof.
  unfold budget_gates. intros H Hb. rewrite Hb in H. apply let_ok in H as (x & H & _).
  cbv zeta in H. destruct (b <=? _) eqn:E; [done|]. by reflect_bools.
Qed.

Lemma flying_app user m l r : length (flying user {| meter := m; in_flight := (l ++ r)%list |}) =
  (length (List.filter (fun k => String.eqb (user_omni k) user) l) +
   length (List.filter (fun k => String.eqb (user_omni k) user) r))%nat.
Proof. unfold flying. cbn. by rewrite List.filter_app, length_app. Qed.

(** Spent and in flight together stay under the budget and the last passes. *)
Definition within (b U : Z) (k : nat) (user : string) (s : System) : Prop :=
  let used := used_total (meter s) user in
  let n := Z.of_nat (length (flying user s)) in
  0 <= used /\ (used + n * U = 0 \/ used + n * U <= b - 1 + Z.of_nat k * U).

Lemma within_step c U user k b s s' :
  0 <= U -> 0 <= b -> b + Z.of_nat k * U <= u64_max -> budget_for c user = Some b ->
  within b U k user s -> step c U s s' -> (length (flying user s') <= k)%nat ->
  within b U k user s'.
Proof.
  intros HU Hb0 Hmax Hb Hw Hs Hk. unfold within in *. destruct Hw as [Hpos Hw].
  destruct Hs as [s st caller Hg | s l caller r kind usage El Hu | s l caller r El].
  - split; [done|]. cbn [meter]. unfold flying in *. cbn [in_flight List.filter] in *.
    destruct (String.eqb_spec (user_omni caller) user) as [<-|]; [|done].
    pose proof (budget_gates_user _ _ _ _ _ Hg Hb). cbn [length] in *. right. nia.
  - rewrite flying_app in *. unfold flying in Hw. rewrite El, List.filter_app, length_app in Hw.
    cbn [meter List.filter] in *. rewrite used_total_record. cbn [m_user m_usage].
    destruct (String.eqb (user_omni caller) user).
    + cbn [length] in Hw. unfold u64_add. rewrite wrap_u64_small; [nia|].
      unfold is_u64. nia.
    + done.
  - rewrite flying_app in *. unfold flying in Hw. rewrite El, List.filter_app, length_app in Hw.
    cbn [meter List.filter] in *. destruct (String.eqb (user_omni caller) user); [|done].
    cbn [length] in Hw. nia.
Qed.

(** ** Properties *)

(** Conservation.  After any calls, on every one of a user's ten counters: the
    total is the sum of what the user's calls recorded, each device and each key
    holds the sum of its own calls, the devices of the served summary add up to the
    total and so do its keys, all modulo 2^64; and the two budget comparands are
    the total tokens of the user and of the pair. *)
Theorem meter_conserves (rs : list Metered) (user : string) (budget : option Z)
    (f : Counters -> Z) (Hf : f ∈ fields) :
  let m := record_all rs in
  let s := summary m user budget in
  f (s_totals s) = recorded f (of_user user) rs /\
  wrap_u64 (sum_of (fun d => f (du_counters d)) (s_by_device s)) = f (s_totals s) /\
  wrap_u64 (sum_of (fun d => f (ku_counters d)) (s_by_api_key s)) = f (s_totals s) /\
  (forall d, d ∈ s_by_device s -> f (du_counters d) = recorded f (of_user_device user (du_device_id d)) rs) /\
  (forall d, d ∈ s_by_api_key s -> f (ku_counters d) = recorded f (of_user_key user (ku_api_key_id d)) rs) /\
  used_total m user = recorded total_tokens (of_user user) rs /\
  (forall k, used_total_for_key m user k = recorded total_tokens (of_user_key user k) rs).
Proof.
  cbv zeta. pose proof (holds_all f rs user Hf) as [Ht Hd Hk Hds Hks].
  assert (Htf : total_tokens ∈ fields) by (unfold fields; set_solver).
  pose proof (holds_all total_tokens rs user Htf) as [Hut _ Huk _ _].
  unfold device_of, bucket_of, usage_of in *. unfold summary. cbn [s_totals s_by_device s_by_api_key].
  assert (Hf0 := field_zero f Hf).
  split_and!.
  - rewrite <-Ht. by destruct (record_all rs !! user).
  - destruct (record_all rs !! user) as [u|].
    + rewrite sum_of_map. cbn. change (default no_usage (Some u)) with u in *.
      by rewrite in_key_order_sum, Hds, <-Ht.
    + cbn. by rewrite Hf0.
  - destruct (record_all rs !! user) as [u|].
    + rewrite sum_of_map. cbn. change (default no_usage (Some u)) with u in *.
      by rewrite (in_key_order_sum (fun b => f (kb_counters b))), Hks, <-Ht.
    + cbn. by rewrite Hf0.
  - intros d Hin. destruct (record_all rs !! user) as [u|]; [|by apply elem_of_nil in Hin].
    change (default no_usage (Some u)) with u in *.
    apply list_elem_of_fmap in Hin as ([k x] & -> & Hin). cbn.
    unfold in_key_order in Hin. rewrite merge_sort_Permutation in Hin.
    apply elem_of_map_to_list in Hin. specialize (Hd k). by rewrite Hin in Hd.
  - intros d Hin. destruct (record_all rs !! user) as [u|]; [|by apply elem_of_nil in Hin].
    change (default no_usage (Some u)) with u in *.
    apply list_elem_of_fmap in Hin as ([k x] & -> & Hin). cbn.
    unfold in_key_order in Hin. rewrite merge_sort_Permutation in Hin.
    apply elem_of_map_to_list in Hin. specialize (Hk k). by rewrite Hin in Hk.
  - unfold used_total. rewrite <-Hut. by destruct (record_all rs !! user).
  - intros k. unfold used_total_for_key. rewrite <-Huk.
    destruct (record_all rs !! user) as [u|]; [|done]. cbn. by destruct (by_key u !! k).
Qed.

(** C35: the budget is a bound up to the calls in flight.  However gated calls
    interleave, and whatever fails upstream, a user with budget [b] and never more
    than [k] calls in flight, each of at most [U] tokens, has used nothing or at
    most [b - 1 + k * U]: a call passes only under the budget, and no turn is
    metered that did not pass.  A budget of zero passes nothing. *)
Theorem budget_bounds_usage (c : GateConfig) (U b : Z) (user : string) (k : nat) (s : System)
    (HU : 0 <= U) (Hb0 : 0 <= b) (Hmax : b + Z.of_nat k * U <= u64_max)
    (Hb : budget_for c user = Some b) (Hs : steps c U user k start s) :
  let used := used_total (meter s) user in
  0 <= used /\ (used = 0 \/ used <= b - 1 + Z.of_nat k * U) /\
  (forall store caller, user_omni caller = user -> b <= used ->
     exists m, budget_gates c store (meter s) caller = Err (Budget m)) /\
  (b = 0 -> used = 0 /\ flying user s = []).
Proof.
  assert (Hw : within b U k user s /\ (b = 0 -> used_total (meter s) user = 0 /\ flying user s = [])).
  { remember start as s0 eqn:E0. induction Hs as [s|s s' s'' _ IH Hst Hk]; subst.
    - split; [split; [done | by left] | done].
    - destruct (IH eq_refl) as [Hw Hz]. split; [by eapply within_step|].
      intros H0. specialize (Hz H0) as [Hused Hfly]. subst b.
      destruct Hst as [s st caller Hg | s l caller r kind usage El Hu | s l caller r El].
      + unfold flying in *. cbn [meter in_flight List.filter].
        destruct (String.eqb_spec (user_omni caller) user) as [<-|]; [|done].
        pose proof (budget_gates_user _ _ _ _ _ Hg Hb). lia.
      + unfold flying in *. rewrite El, List.filter_app in Hfly.
        apply app_eq_nil in Hfly as [Hl Hr]. cbn [meter in_flight].
        rewrite used_total_record, List.filter_app, Hl. cbn [m_user List.filter] in *.
        by destruct (String.eqb (user_omni caller) user).
      + unfold flying in *. rewrite El, List.filter_app in Hfly.
        apply app_eq_nil in Hfly as [Hl Hr]. cbn [meter in_flight].
        rewrite List.filter_app, Hl. cbn [List.filter] in *.
        by destruct (String.eqb (user_omni caller) user). }
  destruct Hw as [[Hpos Hw] Hz]. cbv zeta. split_and!; [done| |..|done].
  - destruct Hw as [Hw|Hw]; [left; nia | right; nia].
  - intros st caller <- Hle. unfold budget_gates. rewrite Hb.
    replace (b <=? _) with true by (symmetry; by apply Z.leb_le). by eexists.
Qed.

(** ** Witnesses: one device, two keys, three kinds of calls *)

Definition demo_usage (n : Z) : UsageCounters :=
  {| u_prompt_tokens := n; u_completion_tokens := n; u_total_tokens := 2 * n;
     u_cached_tokens := 1; u_reasoning_tokens := 2 |}.

Definition demo_call (kind : Kind) (k : string) (n : Z) : Metered :=
  {| m_kind := kind; m_user := "0xaa"; m_device := "esp32"; m_key := k; m_label := "";
     m_usage := demo_usage n |}.

Definition demo_calls : list Metered :=
  [demo_call Turn "k1" 5; demo_call Embed "k2" 7; demo_call Decide "k1" 1;
   demo_call Turn "k2" (2 ^ 63)].

Example meter_conserves_witness :
  recorded total_tokens (of_user "0xaa") demo_calls = 26 /\
  total_tokens (s_totals (summary (record_all demo_calls) "0xaa" None)) = 26.
Proof.
  assert (Hf : total_tokens ∈ fields) by (unfold fields; set_solver).
  assert (Hr : recorded total_tokens (of_user "0xaa") demo_calls = 26) by (vm_compute; reflexivity).
  destruct (meter_conserves demo_calls "0xaa" None total_tokens Hf) as [Ht _].
  split; [exact Hr | rewrite <-Hr; exact Ht].
Defined.

Definition demo_caller : RelayKey := demo_row "gk_1" "k1".

Definition demo_budget : GateConfig :=
  {| cfg_keys := []; user_budgets := {["0xaa" := 10]}; default_budget_tokens := None; keys_file := None |}.

Definition demo_nine : UsageCounters :=
  {| u_prompt_tokens := 0; u_completion_tokens := 9; u_total_tokens := 9;
     u_cached_tokens := 0; u_reasoning_tokens := 0 |}.

Definition demo_metered (m : Meter) : Meter :=
  record_one m {| m_kind := Turn; m_user := user_omni demo_caller; m_device := device_id demo_caller;
                  m_key := key_id demo_caller; m_label := label demo_caller; m_usage := demo_nine |}.

(** Two calls pass together under a budget of ten and both are metered at nine. *)
Definition demo_system : System := {| meter := demo_metered (demo_metered ∅); in_flight := [] |}.

Lemma demo_pass l : step demo_budget 9 {| meter := ∅; in_flight := l |}
  {| meter := ∅; in_flight := demo_caller :: l |}.
Proof. by apply (step_pass demo_budget 9 {| meter := ∅; in_flight := l |} (from_config demo_budget)). Qed.

Lemma demo_record m l : step demo_budget 9 {| meter := m; in_flight := demo_caller :: l |}
  {| meter := demo_metered m; in_flight := l |}.
Proof.
  apply (step_record demo_budget 9 {| meter := m; in_flight := demo_caller :: l |} [] demo_caller l
    Turn demo_nine); [done | cbn; lia].
Qed.

Lemma meter_demo_steps : steps demo_budget 9 "0xaa" 2 start demo_system.
Proof.
  eapply steps_step; [| apply demo_record | cbn; lia].
  eapply steps_step; [| apply demo_record | cbn; lia].
  eapply steps_step; [| apply demo_pass | cbn; lia].
  eapply steps_step; [apply steps_refl | apply demo_pass | cbn; lia].
Qed.

Example budget_bounds_usage_witness :
  used_total (meter demo_system) "0xaa" = 18 /\
  used_total (meter demo_system) "0xaa" <= 10 - 1 + Z.of_nat 2 * 9 /\
  exists m, budget_gates demo_budget (from_config demo_budget) (meter demo_system) demo_caller = Err (Budget m).
Proof.
  assert (Hused : used_total (meter demo_system) "0xaa" = 18) by (vm_compute; reflexivity).
  destruct (budget_bounds_usage demo_budget 9 10 "0xaa" 2 demo_system) as (_ & Hle & Hden & _).
  - lia.
  - lia.
  - unfold u64_max. lia.
  - reflexivity.
  - exact meter_demo_steps.
  - split_and!; [exact Hused | destruct Hle as [Hz|Hle]; [lia | exact Hle] |].
    apply Hden; [reflexivity | lia].
Defined.
