(* ===== verification/Json.v ===== *)
(** * JSON values and UTF-8 text

    The data type of [serde_json::Value], with the accessors the code uses; an
    object is the list of its entries in key order, the order of the crate's map.
    Parsing and printing are the crate's and are an interface.  [from_utf8_lossy] is
    [String::from_utf8_lossy]: each maximal ill-formed prefix of a character becomes
    U+FFFD. *)
From S2P Require Import Prelude RustStr.

Open Scope Z_scope.

(** ** Values *)

(** An integer in the range of u64, a negative one in that of i64, or a float,
    kept as its text. *)
Inductive JsonNumber := PosInt (n : Z) | NegInt (n : Z) | Float (text : string).

Inductive Json :=
| JNull
| JBool (b : bool)
| JNumber (n : JsonNumber)
| JString (s : string)
| JArray (items : list Json)
| JObject (entries : list (string * Json)).

Class SerdeJson := {
  json_from_slice : bytes -> result string Json;
  json_to_vec : Json -> bytes;
}.

(** A map's lookup and insertion. *)
Fixpoint obj_get (k : string) (l : list (string * Json)) : option Json :=
  match l with
  | [] => None
  | (k', v) :: l => if String.eqb k k' then Some v else obj_get k l
  end.

Fixpoint obj_insert (k : string) (v : Json) (l : list (string * Json)) : list (string * Json) :=
  match l with
  | [] => [(k, v)]
  | (k', v') :: l' =>
      if String.eqb k k' then (k, v) :: l'
      else if String.leb k k' then (k, v) :: l
      else (k', v') :: obj_insert k v l'
  end.

(** [v.get(k)] *)
Definition get (v : Json) (k : string) : option Json :=
  match v with JObject l => obj_get k l | _ => None end.

(** [v[k] = x] on an object; indexing other values panics, and no caller does. *)
Definition set_key (v : Json) (k : string) (x : Json) : Json :=
  match v with JObject l => JObject (obj_insert k x l) | _ => v end.

Definition is_object (v : Json) : bool := match v with JObject _ => true | _ => false end.
Definition is_null (v : Json) : bool := match v with JNull => true | _ => false end.
Definition as_str (v : Json) : option string := match v with JString s => Some s | _ => None end.
Definition as_bool (v : Json) : option bool := match v with JBool b => Some b | _ => None end.
Definition as_array (v : Json) : option (list Json) := match v with JArray l => Some l | _ => None end.
Definition as_u64 (v : Json) : option Z := match v with JNumber (PosInt n) => Some n | _ => None end.

Lemma obj_get_insert k v l k' :
  obj_get k' (obj_insert k v l) = if String.eqb k' k then Some v else obj_get k' l.
Proof.
  induction l as [|[k0 v0] l IH]; cbn; [done|].
  destruct (String.eqb_spec k k0) as [->|Hne]; cbn.
  - by destruct (String.eqb k' k0).
  - destruct (String.leb k k0); cbn; [done|]. rewrite IH.
    destruct (String.eqb_spec k' k0) as [->|]; [|done].
    by destruct (String.eqb_spec k0 k) as [->|].
Qed.

Lemma get_set_key v k x k' :
  is_object v = true -> get (set_key v k x) k' = if String.eqb k' k then Some x else get v k'.
Proof. destruct v; try done. intros _. apply obj_get_insert. Qed.

Lemma is_object_set_key v k x : is_object (set_key v k x) = is_object v.
Proof. by destruct v. Qed.

(** ** UTF-8 *)

Definition between (lo hi : Z) (b : Byte.byte) : bool := (lo <=? byte_val b) && (byte_val b <=? hi).
Definition continuation : Byte.byte -> bool := between 128 191.

(** The range of the second byte of a character, for its first byte. *)
Definition second_ok (b0 b1 : Byte.byte) : bool :=
  let v := byte_val b0 in
  if v =? 224 then between 160 191 b1
  else if v =? 237 then between 128 159 b1
  else if v =? 240 then between 144 191 b1
  else if v =? 244 then between 128 143 b1
  else continuation b1.

(** The width of the character a first byte starts: one to four, or none. *)
Definition char_width (b : Byte.byte) : nat :=
  let v := byte_val b in
  if v <? 128 then 1
  else if (194 <=? v) && (v <=? 223) then 2
  else if (224 <=? v) && (v <=? 239) then 3
  else if (240 <=? v) && (v <=? 244) then 4
  else 0.

(** How many bytes of [rest] continue the character that [b0] starts. *)
Definition continuing (b0 : Byte.byte) (rest : bytes) : nat :=
  match rest with
  | b1 :: rest' =>
      if second_ok b0 b1 then
        match rest' with
        | b2 :: rest'' =>
            if continuation b2 then
              match rest'' with b3 :: _ => if continuation b3 then 3 else 2 | [] => 2 end
            else 1
        | [] => 1
        end
      else 0
  | [] => 0
  end.

Definition replacement : bytes := [Byte.xef; Byte.xbf; Byte.xbd].

Fixpoint lossy (fuel : nat) (b : bytes) : bytes :=
  match fuel, b with
  | S fuel, b0 :: rest =>
      let n := Nat.min (pred (char_width b0)) (continuing b0 rest) in
      if (0 <? char_width b0)%nat && (n =? pred (char_width b0))%nat
      then (b0 :: take n rest ++ lossy fuel (drop n rest))%list
      else (replacement ++ lossy fuel (drop n rest))%list
  | _, _ => []
  end.

Definition from_utf8_lossy (b : bytes) : string := String.string_of_list_byte (lossy (length b) b).

(** [String::from_utf8] *)
Fixpoint utf8_valid (fuel : nat) (b : bytes) : bool :=
  match fuel, b with
  | _, [] => true
  | S fuel, b0 :: rest =>
      let n := pred (char_width b0) in
      (0 <? char_width b0)%nat && (n <=? continuing b0 rest)%nat && utf8_valid fuel (drop n rest)
  | O, _ => false
  end.

Definition from_utf8 (b : bytes) : option string :=
  if utf8_valid (length b) b then Some (String.string_of_list_byte b) else None.

(** Text of ASCII characters is itself. *)
Lemma lossy_ascii b : forall fuel,
  (length b <= fuel)%nat -> forallb (between 0 127) b = true -> lossy fuel b = b.
Proof.
  induction b as [|b0 b IH]; intros [|fuel] Hf; cbn [length forallb lossy] in *; try done; [lia|].
  intros [H0 Hb]%andb_true_iff. unfold between in H0. apply andb_true_iff in H0 as [_ H0].
  unfold char_width. assert (byte_val b0 <? 128 = true) as -> by (apply Z.ltb_lt; apply Z.leb_le in H0; lia).
  cbn [pred Nat.min Nat.ltb Nat.leb Nat.eqb andb take drop app]. rewrite IH; [done|lia|done].
Qed.

Lemma from_utf8_lossy_ascii s :
  forallb (between 0 127) (as_bytes s) = true -> from_utf8_lossy (as_bytes s) = s.
Proof.
  intros Hs. unfold from_utf8_lossy. rewrite lossy_ascii by done. apply String.string_of_list_byte_of_string.
Qed.
