(* ===== verification/SseUsage.v ===== *)
(** * The usage scanner of streamed answers

    [crates/agentkeys-gate/src/openai.rs]: the counters of a [usage] object, and the
    scanner that watches a stream of server-sent events for the last one while the
    chunks pass through.  The scanner is incremental; [stream_usage] says what it
    computes of the whole text. *)
From S2P Require Import Prelude RustStr StrFacts Json Capability GateKeys.
From S2P Require Import GateMeter.

Open Scope Z_scope.

Definition no_counters : UsageCounters :=
  {| u_prompt_tokens := 0; u_completion_tokens := 0; u_total_tokens := 0; u_cached_tokens := 0;
     u_reasoning_tokens := 0 |}.

Fixpoint at_path (v : Json) (path : list string) : option Json :=
  match path with
  | [] => Some v
  | key :: path => match get v key with Some next => at_path next path | None => None end
  end.

Definition u64_at (v : Json) (path : list string) : Z :=
  match at_path v path with Some cur => default 0 (as_u64 cur) | None => 0 end.

Definition extract_usage (v : Json) : option UsageCounters :=
  match get v "usage" with
  | None => None
  | Some usage =>
      if is_null usage then None
      else Some {| u_prompt_tokens := u64_at usage ["prompt_tokens"];
                   u_completion_tokens := u64_at usage ["completion_tokens"];
                   u_total_tokens := u64_at usage ["total_tokens"];
                   u_cached_tokens := u64_at usage ["prompt_tokens_details"; "cached_tokens"];
                   u_reasoning_tokens := u64_at usage ["completion_tokens_details"; "reasoning_tokens"] |}
  end.

Definition LF : Byte.byte := Byte.x0a.

Record SseUsageScanner := { line_buf : bytes; usage : option UsageCounters }.

(** [SseUsageScanner::default()] *)
Definition fresh : SseUsageScanner := {| line_buf := []; usage := None |}.

(** [s.trim_end_matches('\r')] *)
Fixpoint trim_end_cr (s : string) : string :=
  match s with
  | EmptyString => ""
  | String c s =>
      match trim_end_cr s with
      | EmptyString => if Ascii.eqb c (Ascii.ascii_of_nat 13) then "" else String c ""
      | r => String c r
      end
  end.

Section Scanner.
Context `{SerdeJson}.

(** What one line says of the usage. *)
Definition line_usage (line : bytes) : option UsageCounters :=
  let line := trim (trim_end_cr (from_utf8_lossy line)) in
  match strip_prefix "data:" line with
  | None => None
  | Some payload =>
      let payload := trim payload in
      if String.eqb payload "" || String.eqb payload "[DONE]" then None
      else match json_from_slice (as_bytes payload) with
           | Ok v => extract_usage v
           | Err _ => None
           end
  end.

Definition take_line (s : SseUsageScanner) : SseUsageScanner :=
  {| line_buf := [];
     usage := match line_usage (line_buf s) with Some u => Some u | None => usage s end |}.

Definition feed_byte (s : SseUsageScanner) (b : Byte.byte) : SseUsageScanner :=
  if Byte.eqb b LF then take_line s
  else {| line_buf := (line_buf s ++ [b])%list; usage := usage s |}.

Definition feed (s : SseUsageScanner) (chunk : bytes) : SseUsageScanner := fold_left feed_byte chunk s.

Definition into_usage (s : SseUsageScanner) : option UsageCounters := usage (take_line s).

(** The scanner over a stream. *)
Definition scan (chunks : list bytes) : option UsageCounters := into_usage (fold_left feed chunks fresh).

(** ** The reference: the lines of the whole text *)

Fixpoint lines_from (line : bytes) (text : bytes) : list bytes :=
  match text with
  | [] => [line]
  | b :: text => if Byte.eqb b LF then line :: lines_from [] text else lines_from (line ++ [b])%list text
  end.

Definition lines (text : bytes) : list bytes := lines_from [] text.

Definition later (u v : option UsageCounters) : option UsageCounters :=
  match v with Some _ => v | None => u end.

(** The usage of the last line that has one. *)
Definition last_usage (ls : list bytes) : option UsageCounters :=
  fold_left (fun u line => later u (line_usage line)) ls None.

Definition stream_usage (text : bytes) : option UsageCounters := last_usage (lines text).

(** ** Lemmas *)

Lemma feed_concat chunks : forall s, fold_left feed chunks s = feed s (List.concat chunks).
Proof.
  induction chunks as [|chunk chunks IH]; intros s; cbn [fold_left List.concat]; [done|].
  rewrite IH. unfold feed. by rewrite fold_left_app.
Qed.

Lemma feed_lines text : forall line u,
  into_usage (feed {| line_buf := line; usage := u |} text) =
  fold_left (fun u line => later u (line_usage line)) (lines_from line text) u.
Proof.
  induction text as [|b text IH]; intros line u; cbn [lines_from fold_left].
  - unfold later. cbn. by destruct (line_usage line).
  - unfold feed. cbn [fold_left]. unfold feed_byte at 2. destruct (Byte.eqb b LF); [|apply IH].
    cbn [fold_left]. rewrite <-IH. unfold take_line, later. cbn [line_buf usage].
    by destruct (line_usage line).
Qed.

Lemma lines_from_app_lf line body rest :
  forallb (fun b => negb (Byte.eqb b LF)) body = true ->
  lines_from line (body ++ LF :: rest)%list = (line ++ body)%list :: lines rest.
Proof.
  revert line. induction body as [|b body IH]; intros line; cbn; [by rewrite app_nil_r|].
  intros [Hb%negb_true_iff Hrest]%andb_true_iff. rewrite Hb, IH by done. by rewrite <-app_assoc.
Qed.

Lemma lines_unlines ls rest :
  Forall (fun l => forallb (fun b => negb (Byte.eqb b LF)) l = true) ls ->
  lines (List.concat (map (fun l => l ++ [LF])%list ls) ++ rest)%list = (ls ++ lines rest)%list.
Proof.
  induction 1 as [|l ls Hl _ IH]; cbn [map List.concat app]; [done|].
  rewrite <-!app_assoc. cbn [app]. unfold lines at 1. rewrite lines_from_app_lf by done.
  cbn [app]. by rewrite IH.
Qed.

(** [last_usage] is the usage of the last line that has one. *)
Lemma last_usage_snoc ls line : last_usage (ls ++ [line])%list = later (last_usage ls) (line_usage line).
Proof. unfold last_usage. by rewrite fold_left_app. Qed.

Lemma last_usage_none ls line :
  line_usage line = None -> last_usage (ls ++ [line])%list = last_usage ls.
Proof. intros Hl. by rewrite last_usage_snoc, Hl. Qed.

Lemma last_usage_tail ls ls' :
  Forall (fun l => line_usage l = None) ls' -> last_usage (ls ++ ls')%list = last_usage ls.
Proof.
  intros Hls. revert ls. induction Hls as [|l ls' Hl _ IH]; intros ls; [by rewrite app_nil_r|].
  change (l :: ls')%list with ([l] ++ ls')%list. rewrite app_assoc, IH. by apply last_usage_none.
Qed.
End Scanner.

(** ** Properties *)

Section ScannerProperty.
Context `{SerdeJson}.

(** The scanner computes the usage of the text, however it was cut.  Whatever the
    chunks, the result is the usage of the last line of the whole text that carries
    one, so a stream cut at any other bytes gives the same; and when the lines before
    [rest] end in one whose event has a usage object and nothing after it has one,
    that object's counters are what the relay records. *)
Theorem scan_is_stream_usage (chunks : list bytes) :
  scan chunks = stream_usage (List.concat chunks) /\
  (forall chunks', List.concat chunks' = List.concat chunks -> scan chunks' = scan chunks) /\
  (forall before line after rest u,
     List.concat chunks = (List.concat (map (fun l => l ++ [LF]) (before ++ line :: after)) ++ rest)%list ->
     Forall (fun l => forallb (fun b => negb (Byte.eqb b LF)) l = true) (before ++ line :: after)%list ->
     line_usage line = Some u ->
     Forall (fun l => line_usage l = None) (after ++ lines rest)%list ->
     scan chunks = Some u).
Proof.
  assert (Hs : forall cs, scan cs = stream_usage (List.concat cs)).
  { intros cs. unfold scan. rewrite feed_concat. apply feed_lines. }
  split; [apply Hs|]. split; [intros cs E; by rewrite !Hs, E|].
  intros before line after rest u E Hlf Hu Hnone. rewrite Hs, E. unfold stream_usage.
  rewrite lines_unlines by done.
  replace ((before ++ line :: after) ++ lines rest)%list
    with ((before ++ [line]) ++ (after ++ lines rest))%list by (by rewrite <-!app_assoc).
  rewrite last_usage_tail by done. by rewrite last_usage_snoc, Hu.
Qed.
End ScannerProperty.

(** ** A stream to evaluate on *)

(** A parser of one text, [U], for the object of a final chunk. *)
Module ToySse.
Definition final_chunk : Json :=
  JObject [("usage", JObject [("completion_tokens", JNumber (PosInt 5));
    ("prompt_tokens", JNumber (PosInt 7));
    ("prompt_tokens_details", JObject [("cached_tokens", JNumber (PosInt 3))]);
    ("total_tokens", JNumber (PosInt 12))])].

Definition json : SerdeJson := {|
  json_from_slice b := if bool_decide (b = as_bytes "U") then Ok final_chunk else Err "syntax";
  json_to_vec _ := [];
|}.

Definition counters : UsageCounters :=
  {| u_prompt_tokens := 7; u_completion_tokens := 5; u_total_tokens := 12; u_cached_tokens := 3;
     u_reasoning_tokens := 0 |}.

Definition line (s : string) : bytes := as_bytes s.
Definition chunks : list bytes :=
  [line "data: x"; LF :: line "da"; line "ta: U"; (LF :: LF :: line "data: [DO")%list; (line "NE]" ++ [LF])%list].
End ToySse.

Lemma scan_is_stream_usage_witness :
  @scan ToySse.json ToySse.chunks = Some ToySse.counters /\
  @scan ToySse.json [List.concat ToySse.chunks] = Some ToySse.counters.
Proof.
  destruct (@scan_is_stream_usage ToySse.json ToySse.chunks) as (_ & Hcut & Hlast).
  assert (Hs : @scan ToySse.json ToySse.chunks = Some ToySse.counters).
  { apply (Hlast [ToySse.line "data: x"] (ToySse.line "data: U") [[]; ToySse.line "data: [DONE]"] []).
    - reflexivity.
    - repeat constructor.
    - vm_compute. reflexivity.
    - repeat constructor. }
  split; [exact Hs|]. rewrite Hcut; [exact Hs|]. reflexivity.
Defined.
