(* ===== verification/Relay.v ===== *)
(** * The relay's calls

    [crates/agentkeys-gate/src/{relay,auth,audit,refusal,upstream,server}.rs]: from
    the bearer token through the budget gates to the upstream, the meter and the
    audit row.  A handler is a state-and-error computation over what the relay keeps
    (the meter, the standing account refusal, the audit rows appended) and the
    requests it sent.  What the upstream, the auditor and the speech adapter answer
    is an argument; the streaming task of a turn runs to its end here, and the
    interleaving of calls is that of [GateMeter].  Log lines are not modelled. *)
From S2P Require Import Prelude RustStr StrFacts Json Crates.
From S2P Require Import Capability GateKeys GateMeter SseUsage.

Open Scope Z_scope.

(** ** Configuration and data *)

Record SearchConfig := { search_base_url : string; engines : string }.
Record DecisionEndpoint := { de_base_url : string; de_api_key : string }.

Inductive DecisionProvider := Jev | Kev.

Definition provider_id (p : DecisionProvider) : string :=
  match p with Jev => "jev" | Kev => "kev" end.
Definition provider_label (p : DecisionProvider) : string :=
  match p with Jev => "Jev" | Kev => "Kev" end.
Definition ALL_PROVIDERS : list DecisionProvider := [Kev; Jev].

(** The family of a model id: the text before its first dash. *)
Definition of_model (model : string) : option DecisionProvider :=
  let family := default "" (head (split_char "-"%char (trim model))) in
  List.find (fun p => eq_lower family (provider_id p)) ALL_PROVIDERS.

Record RelayConfig := {
  gate : GateConfig;
  admin_token : option string;
  model_override : option string;
  default_model : option string;
  require_audit : bool;
  search : option SearchConfig;
  decision : DecisionProvider -> option DecisionEndpoint;
}.

Inductive AuditBody :=
| GateTurn (device api_key model : string) (streamed : bool) (outcome : string) (u : UsageCounters)
| GateEmbed (device api_key model outcome : string) (input_count prompt total : Z)
| GateDecide (device api_key model outcome : string) (question_count input output : Z)
| GateSearch (device api_key engines outcome : string) (query_chars result_count : Z)
| SpeechAsr (device api_key : string) (audio_bytes_in transcript_chars : Z) (outcome : string)
    (duration_ms : Z)
| SpeechTts (device api_key : string) (chars_in audio_bytes_out : Z) (voice : string)
    (speech_rate : Z) (outcome : string) (duration_ms : Z).

Definition outcome_of (b : AuditBody) : string :=
  match b with
  | GateTurn _ _ _ _ o _ | GateEmbed _ _ _ o _ _ _ | GateDecide _ _ _ o _ _ _
  | GateSearch _ _ _ o _ _ | SpeechAsr _ _ _ _ o _ | SpeechTts _ _ _ _ _ _ o _ => o
  end.

(** The result byte of the envelope. *)
Definition result_code (outcome : string) : Z :=
  if String.eqb outcome "ok" then 0
  else if String.eqb outcome "denied:budget_exceeded" then 2 else 1.

(** A row handed to the auditor, and whether it was appended. *)
Record AuditRow := { row_user : string; row_body : AuditBody; row_result : Z; appended : bool }.

Record AccountRefusal := {
  ar_code : string; ar_status : Z; ar_route : string; first_seen_unix : Z; last_seen_unix : Z;
  refusals : Z }.

Inductive Sent :=
| SentChat (body : Json)
| SentEmbeddings (path : string) (body : Json)
| SentSystemone (p : DecisionProvider) (body : Json)
| SentSearch (q engines : string) (language : option string).

Record RelayState := {
  meter : Meter;
  upstream_account : option AccountRefusal;
  audit_rows : list AuditRow;
  sent : list Sent;
}.

(** An upstream answer; a streamed body is its chunks, ended by an error or not. *)
Inductive UpstreamBody := BodyBytes (b : bytes) | BodyError (e : string).
Record Response := {
  r_status : Z;
  r_content_type : option string;
  r_body : UpstreamBody;
  r_chunks : list (result string bytes);
}.

Inductive TurnOutput :=
| Full (status : Z) (content_type : string) (body : bytes)
| Stream (status : Z) (content_type : string) (chunks : list (result string bytes)).

(** ** Effects *)

Definition M (A : Type) : Type := RelayState -> RelayState * result GateError A.

Definition ret {A} (a : A) : M A := fun s => (s, Ok a).
Definition fail {A} (e : GateError) : M A := fun s => (s, Err e).
Definition lift {A} (r : result GateError A) : M A := fun s => (s, r).
Definition bind {A B} (m : M A) (k : A -> M B) : M B :=
  fun s => match m s with (s, Ok a) => k a s | (s, Err e) => (s, Err e) end.

Notation "'let!' x := m 'in' k" := (bind m (fun x => k))
  (at level 10, x name, m at level 99, k at level 200, only parsing) : terrier_scope.

Definition send (r : Sent) : M unit :=
  fun s => ({| meter := meter s; upstream_account := upstream_account s; audit_rows := audit_rows s;
               sent := (sent s ++ [r])%list |}, Ok tt).

Definition record_call (kind : Kind) (caller : RelayKey) (u : UsageCounters) : M unit :=
  fun s => ({| meter := record_one (meter s) {| m_kind := kind; m_user := user_omni caller;
                  m_device := device_id caller; m_key := key_id caller; m_label := label caller;
                  m_usage := u |};
               upstream_account := upstream_account s; audit_rows := audit_rows s; sent := sent s |}, Ok tt).

Definition set_account (a : option AccountRefusal) : M unit :=
  fun s => ({| meter := meter s; upstream_account := a; audit_rows := audit_rows s; sent := sent s |}, Ok tt).

(** [UpstreamAccountState::refused] *)
Definition refused (code : string) (status : Z) (route : string) (now : Z) (standing : option AccountRefusal)
    : AccountRefusal :=
  match standing with
  | Some r => {| ar_code := code; ar_status := status; ar_route := route;
                 first_seen_unix := first_seen_unix r; last_seen_unix := now;
                 refusals := u64_add (refusals r) 1 |}
  | None => {| ar_code := code; ar_status := status; ar_route := route; first_seen_unix := now;
               last_seen_unix := now; refusals := 1 |}
  end.

(** ** Characters, for counts and cuts *)

Definition truncate_chars (s : string) (max : nat) : string :=
  if chars_count s <=? Z.of_nat max then s else take_chars max s +:+ "…".

(** ** Authentication *)

Definition bearer (header : option string) : result GateError string :=
  let? raw := ok_or (Unauthorized "missing Authorization") header in
  let? token := ok_or (Unauthorized "Authorization is not a Bearer token")
    (match strip_prefix "Bearer " raw with
     | Some t => Some t
     | None => strip_prefix "bearer " raw
     end) in
  let token := trim token in
  guard! negb (String.eqb token "") else Unauthorized "empty bearer token" ;;
  Ok token.

Definition is_admin (c : RelayConfig) (header : option string) : bool :=
  match admin_token c, bearer header with
  | Some admin, Ok token => negb (String.eqb admin "") && ct_eq (as_bytes admin) (as_bytes token)
  | _, _ => false
  end.

Definition authenticate_live (store : KeyStore) (header : option string) : result GateError RelayKey :=
  let? token := bearer header in authenticate store token.

(** ** Rows *)

Definition turn_body (caller : RelayKey) (model : string) (streamed : bool) (outcome : string)
    (u : UsageCounters) : AuditBody :=
  GateTurn (device_id caller) (key_id caller) model streamed outcome u.
Definition embed_body (caller : RelayKey) (model outcome : string) (input_count : Z)
    (u : UsageCounters) : AuditBody :=
  GateEmbed (device_id caller) (key_id caller) model outcome input_count
    (u_prompt_tokens u) (u_total_tokens u).
Definition decide_body (caller : RelayKey) (model outcome : string) (question_count : Z)
    (u : UsageCounters) : AuditBody :=
  GateDecide (device_id caller) (key_id caller) model outcome question_count
    (u_prompt_tokens u) (u_completion_tokens u).
Definition search_body (caller : RelayKey) (eng outcome : string) (query_chars result_count : Z)
    : AuditBody :=
  GateSearch (device_id caller) (key_id caller) eng outcome query_chars result_count.

(** ** What an upstream refusal says *)

Record UpstreamErrorDetail := { ued_code : option string; ued_kind : option string; ued_message : string }.

Definition MESSAGE_LOG_CHARS : nat := 300.
Definition ACCOUNT_SCOPED_CODES : list string := ["insufficient_quota"].

Definition text_of (v : Json) (k : string) : option string :=
  s ← get v k; t ← as_str s; if String.eqb (trim t) "" then None else Some (trim t).

Definition parse_error_detail `{SerdeJson} (body : bytes) : UpstreamErrorDetail :=
  let plain := {| ued_code := None; ued_kind := None;
                  ued_message := truncate_chars (trim (from_utf8_lossy body)) MESSAGE_LOG_CHARS |} in
  match json_from_slice body with
  | Ok v =>
      if is_object v then
        let envelope := match get v "error" with
                        | Some e => if is_object e then e else v
                        | None => v
                        end in
        {| ued_code := text_of envelope "code"; ued_kind := text_of envelope "type";
           ued_message := truncate_chars (default "" (text_of envelope "message")) MESSAGE_LOG_CHARS |}
      else plain
  | Err _ => plain
  end.

Definition is_account_scoped (d : UpstreamErrorDetail) : bool :=
  match ued_code d with Some c => existsb (String.eqb c) ACCOUNT_SCOPED_CODES | None => false end.

(** ** Decision requests *)

Record NoulCriteria := { noul_yes : option Json; noul_no : option Json }.
Inductive SystemOneQuestion :=
| Noul (instructions : Json) (criteria : option NoulCriteria)
| Choice (instructions : Json) (criteria : list (string * Json))
| Score (instructions : Json) (criteria : list Json).

Record SystemOneRequest := {
  so_model : string; so_state : Json; so_questions : list (string * SystemOneQuestion) }.
Record SystemOneUsage := { so_input_tokens : Z; so_output_tokens : Z }.
Definition usage_total (u : SystemOneUsage) : Z := u64_saturating_add (so_input_tokens u) (so_output_tokens u).

(** The derived codecs of the wire types; the answers are passed through. *)
Class SystemOneJson := {
  SystemOneAnswers : Type;
  request_from_slice : bytes -> result string SystemOneRequest;
  request_to_value : SystemOneRequest -> result string Json;
  response_from_slice : bytes -> result string (string * SystemOneAnswers * SystemOneUsage);
}.

(** ** Search results *)

Definition DEFAULT_SEARCH_RESULTS : Z := 5.
Definition MAX_SEARCH_RESULTS : Z := 10.
Definition MAX_SNIPPET_CHARS : nat := 400.

Definition str_field (v : Json) (k : string) : string :=
  default "" (x ← get v k; as_str x).

Definition compact_result (r : Json) : option Json :=
  u ← get r "url"; url ← as_str u;
  Some (JObject [("snippet", JString (truncate_chars (str_field r "content") MAX_SNIPPET_CHARS));
                 ("title", JString (str_field r "title")); ("url", JString url)]).

Definition compact_answer (x : Json) : option Json :=
  match x with
  | JString s => Some (JString (truncate_chars s MAX_SNIPPET_CHARS))
  | JObject o => a ← obj_get "answer" o; s ← as_str a; Some (JString (truncate_chars s MAX_SNIPPET_CHARS))
  | _ => None
  end.

Definition compact_list (v : Json) (k : string) (f : Json -> option Json) (cap : nat) : list Json :=
  match (x ← get v k; as_array x) with Some a => take cap (omap f a) | None => [] end.

Definition compact_search_results (v : Json) (eng : string) (cap : nat) : Json :=
  JObject [("answers", JArray (compact_list v "answers" compact_answer 3)); ("engine", JString eng);
           ("results", JArray (compact_list v "results" compact_result cap))].

(** ** The handlers *)

Section Handlers.
Context `{SerdeJson, SystemOneJson, Base64}.
Variable cfg : RelayConfig.
(** The live registry, the auditor (absent, or its answer to each row), the clock. *)
Variable store : KeyStore.
Variable auditor : option (string -> AuditBody -> result string unit).
Variable now : Z.

(** Hands the row to the auditor and reports what it answered. *)
Definition emit (user : string) (body : AuditBody) : M (result string unit) :=
  fun s => match auditor with
           | None => (s, Ok (Ok tt))
           | Some append =>
               let answer := append user body in
               ({| meter := meter s; upstream_account := upstream_account s;
                   audit_rows := (audit_rows s ++ [{| row_user := user; row_body := body;
                      row_result := result_code (outcome_of body); appended := is_ok answer |}])%list;
                   sent := sent s |}, Ok answer)
           end.

Definition audit_best_effort (user : string) (body : AuditBody) : M unit :=
  let! _ := emit user body in ret tt.

(** The audit of a completed call: under [require_audit] it must be recorded. *)
Definition audit_required (user : string) (body : AuditBody) (message : string) : M unit :=
  let! answer := emit user body in
  if negb (is_ok answer) && require_audit cfg then fail (Audit message) else ret tt.

(** The two budget gates, with the row of a denial. *)
Definition gated (caller : RelayKey) (denied : AuditBody) : M unit :=
  fun s => match budget_gates (gate cfg) store (meter s) caller with
           | Ok _ => (s, Ok tt)
           | Err e => (let! _ := audit_best_effort (user_omni caller) denied in fail e) s
           end.

Definition note_upstream_refusal (route : string) (status : Z) (body : bytes) : M unit :=
  fun s =>
    let detail := parse_error_detail body in
    if is_account_scoped detail
    then set_account (Some (refused (default "-" (ued_code detail)) status route now (upstream_account s))) s
    else (s, Ok tt).

Definition note_upstream_answered : M unit := set_account None.

Definition is_success (status : Z) : bool := (200 <=? status) && (status <? 300).
Definition is_client_error (status : Z) : bool := (400 <=? status) && (status <? 500).
Definition content_type_of (r : Response) : string := default "application/json" (r_content_type r).
Definition bytes_or_empty (b : UpstreamBody) : bytes := match b with BodyBytes b => b | BodyError _ => [] end.
Definition read_body (what : string) (b : UpstreamBody) : result GateError bytes :=
  match b with BodyBytes b => Ok b | BodyError e => Err (Upstream (what +:+ e)) end.

(** The answer to a call: a transport failure and a refusal leave a row; a client
    error is passed on, a server error is not. *)
Definition triage (caller : RelayKey) (failed : AuditBody) (noted : Z -> bytes -> M unit)
    (what : string) (reply : result GateError Response) (answered : Response -> M TurnOutput)
    : M TurnOutput :=
  match reply with
  | Err e => let! _ := audit_best_effort (user_omni caller) failed in fail e
  | Ok r =>
      if is_success (r_status r) then answered r
      else
        let body := bytes_or_empty (r_body r) in
        let! _ := audit_best_effort (user_omni caller) failed in
        let! _ := noted (r_status r) body in
        if is_client_error (r_status r) then ret (Full (r_status r) (content_type_of r) body)
        else fail (Upstream (what +:+ dec (r_status r)))
  end.

(** [UpstreamClient]: a transport error becomes an upstream error. *)
Definition transport (what : string) (reply : result string Response) : result GateError Response :=
  map_err (fun e => Upstream (what +:+ e)) reply.

(** *** Chat *)

Definition choose_model (body : Json) : Json :=
  match model_override cfg with
  | Some model => set_key body "model" (JString model)
  | None =>
      if match (m ← get body "model"; as_str m) with
         | Some m => String.eqb (trim m) ""
         | None => true
         end
      then match default_model cfg with
           | Some model => set_key body "model" (JString model)
           | None => body
           end
      else body
  end.

Definition include_usage (body : Json) : Json :=
  match get body "stream_options" with
  | Some (JObject opts) =>
      set_key body "stream_options" (JObject (obj_insert "include_usage" (JBool true) opts))
  | _ => set_key body "stream_options" (JObject [("include_usage", JBool true)])
  end.

Definition is_streamed (body : Json) : bool := default false (b ← get body "stream"; as_bool b).

(** The chunks before the first error of a stream. *)
Fixpoint until_error (chunks : list (result string bytes)) : list bytes :=
  match chunks with Ok b :: chunks => b :: until_error chunks | _ => [] end.

(** What the caller receives: the chunks as they come, then the error, unless it
    hung up after [gone] of them. *)
Fixpoint forwarded (gone : option nat) (chunks : list (result string bytes)) : list (result string bytes) :=
  match gone with
  | Some O => []
  | _ =>
      let gone := pred <$> gone in
      match chunks with
      | [] => []
      | Ok b :: chunks => Ok b :: forwarded gone chunks
      | Err e :: _ => [Err ("upstream stream: " +:+ e)]
      end
  end.

Definition stream_turn (caller : RelayKey) (model content_type : string)
    (chunks : list (result string bytes)) (gone : option nat) : M TurnOutput :=
  let u := default no_counters (scan (until_error chunks)) in
  let! _ := record_call Turn caller u in
  let! _ := audit_best_effort (user_omni caller) (turn_body caller model true "ok" u) in
  ret (Stream 200 content_type (forwarded gone chunks)).

Definition usage_of_answer (parsed : Json) : UsageCounters := default no_counters (extract_usage parsed).

Definition handle_chat (upstream : Json -> result string Response) (gone : option nat)
    (caller : RelayKey) (raw : bytes) : M TurnOutput :=
  let! body := lift (map_err (fun e => BadRequest ("invalid chat completion body: " +:+ e))
    (json_from_slice raw)) in
  if negb (is_object body) then fail (BadRequest "chat completion body must be a JSON object") else
  let body := choose_model body in
  let model := str_field body "model" in
  let streamed := is_streamed body in
  let! _ := gated caller (turn_body caller model streamed "denied:budget_exceeded" no_counters) in
  let body := if streamed then include_usage body else body in
  let! _ := send (SentChat body) in
  triage caller (turn_body caller model streamed "upstream_error" no_counters)
    (note_upstream_refusal "/chat/completions") "upstream returned HTTP "
    (transport "upstream transport: " (upstream body))
    (fun r =>
      let! _ := note_upstream_answered in
      if streamed then stream_turn caller model (content_type_of r) (r_chunks r) gone
      else
        let! answer := lift (read_body "reading upstream body: " (r_body r)) in
        let! parsed := lift (map_err (fun e => Upstream ("unparseable upstream response: " +:+ e))
          (json_from_slice answer)) in
        let u := usage_of_answer parsed in
        let! _ := record_call Turn caller u in
        let! _ := audit_required (user_omni caller) (turn_body caller model false "ok" u)
          "turn completed but could not be recorded (require_audit)" in
        ret (Full 200 (content_type_of r) answer)).

(** *** Embeddings *)

Definition embeddings_path (multimodal : bool) : string :=
  if multimodal then "/embeddings/multimodal" else "/embeddings".

Definition input_count_of (body : Json) : Z :=
  match get body "input" with
  | Some (JString _) => 1
  | Some (JArray a) => Z.of_nat (length a)
  | _ => 0
  end.

Definition handle_embeddings (upstream : Json -> result string Response) (caller : RelayKey)
    (raw : bytes) (multimodal : bool) : M TurnOutput :=
  let! body := lift (map_err (fun e => BadRequest ("invalid embeddings body: " +:+ e))
    (json_from_slice raw)) in
  if negb (is_object body) then fail (BadRequest "embeddings body must be a JSON object") else
  let model := str_field body "model" in
  let input_count := input_count_of body in
  let! _ := gated caller (embed_body caller model "denied:budget_exceeded" input_count no_counters) in
  let! _ := send (SentEmbeddings (embeddings_path multimodal) body) in
  triage caller (embed_body caller model "upstream_error" input_count no_counters)
    (note_upstream_refusal (embeddings_path multimodal)) "upstream returned HTTP "
    (transport "upstream transport: " (upstream body))
    (fun r =>
      let! _ := note_upstream_answered in
      let! answer := lift (read_body "reading upstream body: " (r_body r)) in
      let! parsed := lift (map_err (fun e => Upstream ("unparseable upstream response: " +:+ e))
        (json_from_slice answer)) in
      let u := usage_of_answer parsed in
      let! _ := record_call Embed caller u in
      let! _ := audit_required (user_omni caller) (embed_body caller model "ok" input_count u)
        "embeddings call completed but could not be recorded (require_audit)" in
      ret (Full 200 (content_type_of r) answer)).

(** *** Decisions *)

Definition decision_usage (u : SystemOneUsage) : UsageCounters :=
  {| u_prompt_tokens := so_input_tokens u; u_completion_tokens := so_output_tokens u;
     u_total_tokens := usage_total u; u_cached_tokens := 0; u_reasoning_tokens := 0 |}.

Definition handle_systemone (upstream : DecisionEndpoint -> Json -> result string Response)
    (caller : RelayKey) (raw : bytes) : M TurnOutput :=
  let! req := lift (map_err (fun e => BadRequest ("invalid systemone body: " +:+ e))
    (request_from_slice raw)) in
  if String.eqb (trim (so_model req)) "" then fail (BadRequest "systemone body needs a `model`") else
  if (length (so_questions req) =? 0)%nat
  then fail (BadRequest "systemone body needs at least one question") else
  let! provider := lift (ok_or (BadRequest ("model `" +:+ so_model req +:+
      "` names no decision-model provider — `jev-*` goes to TypeSafe, `kev-*` to the Kev server"))
    (of_model (so_model req))) in
  let! endpoint := lift (ok_or (NotConfigured ("No explicit endpoint configured for " +:+
    provider_label provider)) (decision cfg provider)) in
  let model := so_model req in
  let question_count := Z.of_nat (length (so_questions req)) in
  let! _ := gated caller (decide_body caller model "denied:budget_exceeded" question_count no_counters) in
  let! body := lift (map_err (fun e => Internal ("encoding systemone body: " +:+ e))
    (request_to_value req)) in
  let! _ := send (SentSystemone provider body) in
  triage caller (decide_body caller model "upstream_error" question_count no_counters)
    (fun _ _ => ret tt) "systemone upstream returned HTTP "
    (transport "systemone upstream transport: " (upstream endpoint body))
    (fun r =>
      let! answer := lift (read_body "reading systemone response: " (r_body r)) in
      let! parsed := lift (map_err (fun e => Upstream ("unparseable systemone response: " +:+ e))
        (response_from_slice answer)) in
      let '(parsed_model, _, burned) := parsed in
      let u := decision_usage burned in
      let! _ := record_call Decide caller u in
      let! _ := audit_required (user_omni caller) (decide_body caller parsed_model "ok" question_count u)
        "systemone call completed but could not be recorded (require_audit)" in
      ret (Full 200 (content_type_of r) answer)).

(** *** Searches *)

Definition result_count_of (compact : Json) : Z :=
  match (x ← get compact "results"; as_array x) with
  | Some a => Z.of_nat (length a)
  | None => 0
  end.

Definition search_count (body : Json) : Z :=
  Z.max 1 (Z.min MAX_SEARCH_RESULTS
    (default DEFAULT_SEARCH_RESULTS (n ← get body "count"; as_u64 n))).

(** [search_get] sends no blank language. *)
Definition search_language (body : Json) : option string :=
  l ← get body "language"; l ← as_str l; if String.eqb (trim l) "" then None else Some l.

(** A search burns no tokens, and its upstream's errors are never passed on. *)
Definition handle_search (upstream : string -> string -> option string -> result string Response)
    (caller : RelayKey) (raw : bytes) : M TurnOutput :=
  let! search := lift (ok_or
    (NotConfigured "search relay not configured on this gate (AGENTKEYS_GATE_SEARCH_URL)")
    (search cfg)) in
  let! body := lift (map_err (fun e => BadRequest ("invalid search body: " +:+ e))
    (json_from_slice raw)) in
  let q := trim (str_field body "q") in
  if String.eqb q "" then fail (BadRequest "search body needs a non-empty `q` string") else
  let count := search_count body in
  let language := search_language body in
  let query_chars := chars_count q in
  let! _ := gated caller (search_body caller (engines search) "denied:budget_exceeded" query_chars 0) in
  let! _ := send (SentSearch q (engines search) language) in
  let failed := search_body caller (engines search) "upstream_error" query_chars 0 in
  match transport "search upstream transport: " (upstream q (engines search) language) with
  | Err e => let! _ := audit_best_effort (user_omni caller) failed in fail e
  | Ok r =>
      if negb (is_success (r_status r)) then
        let! _ := audit_best_effort (user_omni caller) failed in
        fail (Upstream ("search upstream returned HTTP " +:+ dec (r_status r)))
      else
        let! answer := lift (read_body "reading search response: " (r_body r)) in
        let! parsed := lift (map_err (fun e => Upstream ("unparseable search response: " +:+ e))
          (json_from_slice answer)) in
        let compact := compact_search_results parsed (engines search) (Z.to_nat count) in
        let! _ := audit_required (user_omni caller)
          (search_body caller (engines search) "ok" query_chars (result_count_of compact))
          "search completed but could not be recorded (require_audit)" in
        ret (Full 200 "application/json" (json_to_vec compact))
  end.

(** *** Speech *)

Record TranscribeRequest := { tr_audio_b64 : string; tr_format : option string }.
Record TranscribeResponse := { tr_text : string; tr_audio_bytes : Z; tr_duration_ms : Z }.
Record SpeakRequest := {
  sr_input : string; sr_voice : option string; sr_speech_rate : option Z; sr_format : option string;
  sr_sample_rate : option Z }.
Record SpeakResponse := {
  sp_audio_b64 : string; sp_format : string; sp_audio_bytes : Z; sp_voice : string;
  sp_speech_rate : Z; sp_duration_ms : Z }.
Record AsrOutcome := { ao_text : string; ao_audio_bytes : Z; ao_duration_ms : Z }.
Record TtsOutcome := {
  to_audio : bytes; to_voice : string; to_speech_rate : Z; to_format : string; to_duration_ms : Z }.

(** The adapter injected at boot, if any. *)
Record SpeechBackend := {
  backend_transcribe : bytes -> string -> string -> result GateError AsrOutcome;
  backend_synthesize : string -> option string -> Z -> string -> Z -> string ->
    result GateError TtsOutcome;
}.

Definition backend (s : option SpeechBackend) : result GateError SpeechBackend :=
  ok_or (NotConfigured "No speech adapter configured") s.

(** A failed call: an absent adapter leaves no row. *)
Definition speech_failed {A} (caller : RelayKey) (failed : AuditBody) (e : GateError) : M A :=
  match e with
  | NotConfigured _ => fail e
  | _ => let! _ := audit_best_effort (user_omni caller) failed in fail e
  end.

Definition handle_transcribe (speech : option SpeechBackend) (decode_error : string -> string)
    (elapsed_ms : Z) (caller : RelayKey) (req : TranscribeRequest) : M TranscribeResponse :=
  let format := default "wav" (tr_format req) in
  let! audio := lift (ok_or
    (BadRequest ("audio_b64 is not valid base64: " +:+ decode_error (tr_audio_b64 req)))
    (b64_decode (tr_audio_b64 req))) in
  let audio_bytes_in := Z.of_nat (length audio) in
  match (let? b := backend speech in backend_transcribe b audio format (key_id caller)) with
  | Ok outcome =>
      let! _ := audit_required (user_omni caller)
        (SpeechAsr (device_id caller) (key_id caller) audio_bytes_in (chars_count (ao_text outcome)) "ok"
           (ao_duration_ms outcome))
        "transcription completed but could not be recorded (require_audit)" in
      ret {| tr_text := ao_text outcome; tr_audio_bytes := audio_bytes_in;
             tr_duration_ms := ao_duration_ms outcome |}
  | Err e =>
      speech_failed caller (SpeechAsr (device_id caller) (key_id caller) audio_bytes_in 0
        "upstream_error" elapsed_ms) e
  end.

Definition handle_speak (speech : option SpeechBackend) (elapsed_ms : Z) (caller : RelayKey)
    (req : SpeakRequest) : M SpeakResponse :=
  let format := default "mp3" (sr_format req) in
  let sample_rate := default 24000 (sr_sample_rate req) in
  let speech_rate := default 0 (sr_speech_rate req) in
  let chars_in := chars_count (sr_input req) in
  match (let? b := backend speech in
         backend_synthesize b (sr_input req) (sr_voice req) speech_rate format sample_rate
           (key_id caller)) with
  | Ok outcome =>
      let audio_bytes_out := Z.of_nat (length (to_audio outcome)) in
      let! _ := audit_required (user_omni caller)
        (SpeechTts (device_id caller) (key_id caller) chars_in audio_bytes_out (to_voice outcome)
           (to_speech_rate outcome) "ok" (to_duration_ms outcome))
        "synthesis completed but could not be recorded (require_audit)" in
      ret {| sp_audio_b64 := b64_encode (to_audio outcome); sp_format := to_format outcome;
             sp_audio_bytes := audio_bytes_out; sp_voice := to_voice outcome;
             sp_speech_rate := to_speech_rate outcome; sp_duration_ms := to_duration_ms outcome |}
  | Err e =>
      speech_failed caller (SpeechTts (device_id caller) (key_id caller) chars_in 0
        (default "" (sr_voice req)) speech_rate "upstream_error" elapsed_ms) e
  end.

(** *** The routes *)

(** A route that needs a live relay key. *)
Definition authenticated {A} (header : option string) (k : RelayKey -> M A) : M A :=
  let! caller := lift (authenticate_live store header) in k caller.

Definition chat_completions (upstream : Json -> result string Response) (gone : option nat)
    (header : option string) (body : bytes) : M TurnOutput :=
  authenticated header (fun caller => handle_chat upstream gone caller body).

(** Embeddings, searches and decisions never stream. *)
Definition never_streams (what : string) (m : M TurnOutput) : M TurnOutput :=
  let! out := m in
  match out with
  | Full _ _ _ => ret out
  | Stream _ _ _ => fail (Internal (what +:+ " relay produced a stream"))
  end.

Definition embeddings_leg (upstream : Json -> result string Response) (header : option string)
    (body : bytes) (multimodal : bool) : M TurnOutput :=
  authenticated header (fun caller =>
    never_streams "embeddings" (handle_embeddings upstream caller body multimodal)).

Definition search_route (upstream : string -> string -> option string -> result string Response)
    (header : option string) (body : bytes) : M TurnOutput :=
  authenticated header (fun caller => never_streams "search" (handle_search upstream caller body)).

Definition systemone (upstream : DecisionEndpoint -> Json -> result string Response)
    (header : option string) (body : bytes) : M TurnOutput :=
  authenticated header (fun caller => never_streams "systemone" (handle_systemone upstream caller body)).

(** A live relay key or the admin token. *)
Definition may_read_models (header : option string) : bool :=
  is_ok (authenticate_live store header) || is_admin cfg header.

Definition models (reply : result string Response) : result GateError (Z * string * bytes) :=
  let? r := transport "upstream transport: " reply in
  let? body := read_body "reading upstream body: " (r_body r) in
  if 500 <=? r_status r then Err (Upstream ("upstream returned HTTP " +:+ dec (r_status r)))
  else Ok (r_status r, content_type_of r, body).

Definition models_route (header : option string) (reply : result string Response)
    : result GateError (Z * string * bytes) :=
  if may_read_models header then models reply else Err (Unauthorized "unknown relay key").

Inductive UsageReply := OneUser (s : UsageSummary) | AllUsers (s : list UsageSummary).

Definition usage_route (m : Meter) (header : option string) (requested : option string)
    : result GateError UsageReply :=
  if is_admin cfg header then
    Ok match requested with
       | Some user => OneUser (summary m user (budget_for (gate cfg) user))
       | None => AllUsers (summaries m (budget_for (gate cfg)))
       end
  else
    let? caller := authenticate_live store header in
    guard! match requested with
           | Some user => String.eqb user (user_omni caller)
           | None => true
           end else Forbidden "relay keys may only query their own user" ;;
    Ok (OneUser (summary m (user_omni caller) (budget_for (gate cfg) (user_omni caller)))).

Inductive Readiness := Ready | PersistenceFailed | AccountRefused (r : AccountRefusal).

Definition readyz (standing : option AccountRefusal) : Z * Readiness :=
  if negb (is_available store) then (503, PersistenceFailed)
  else match standing with None => (200, Ready) | Some r => (503, AccountRefused r) end.

End Handlers.
