(* ===== verification/RelayLedger.v ===== *)
(** * The relay's ledger

    What the calls of [Relay] leave behind: the requests sent, the meter and the
    audit rows.  [Settled] lists the ways a chat call can end; the audit trail of any
    run of calls accounts for the whole meter. *)
From S2P Require Import Prelude RustStr StrFacts Json Crates.
From S2P Require Import Capability GateKeys GateMeter SseUsage Relay.

Open Scope Z_scope.

(** ** Runs of calls *)

(** What the relay consults when a call is served; the audit worker's answer to a row
    counts where the relay has an auditor. *)
Record Env := {
  env_store : KeyStore; env_append : string -> AuditBody -> result string unit; env_now : Z }.

(** A request and what the outside world answers it. *)
Inductive Call :=
| CallChat (upstream : Json -> result string Response) (gone : option nat) (header : option string)
    (body : bytes)
| CallEmbeddings (upstream : Json -> result string Response) (header : option string) (body : bytes)
    (multimodal : bool)
| CallSystemone (upstream : DecisionEndpoint -> Json -> result string Response)
    (header : option string) (body : bytes)
| CallSearch (upstream : string -> string -> option string -> result string Response)
    (header : option string) (body : bytes)
| CallTranscribe (speech : option SpeechBackend) (decode_error : string -> string) (elapsed_ms : Z)
    (header : option string) (req : TranscribeRequest)
| CallSpeak (speech : option SpeechBackend) (elapsed_ms : Z) (header : option string)
    (req : SpeakRequest).

(** [Relay::new] *)
Definition fresh_relay : RelayState :=
  {| meter := ∅; upstream_account := None; audit_rows := []; sent := [] |}.

Definition state_after {A} (m : M A) (s : RelayState) : RelayState := (m s).1.

Section Runs.
Context `{SerdeJson, SystemOneJson, Base64}.
Variable cfg : RelayConfig.
(** [audit_url] of the configuration: [Relay::new] makes an auditor when it is there. *)
Variable audit_url : option string.

Definition serve (s : RelayState) (call : Env * Call) : RelayState :=
  let '(e, call) := call in
  let store := env_store e in
  let auditor := (fun _ => env_append e) <$> audit_url in
  match call with
  | CallChat up gone header body =>
      state_after (chat_completions cfg store auditor (env_now e) up gone header body) s
  | CallEmbeddings up header body multimodal =>
      state_after (embeddings_leg cfg store auditor (env_now e) up header body multimodal) s
  | CallSystemone up header body => state_after (systemone cfg store auditor up header body) s
  | CallSearch up header body => state_after (search_route cfg store auditor up header body) s
  | CallTranscribe speech decode_error ms header req =>
      state_after (authenticated store header (fun caller =>
        handle_transcribe cfg auditor speech decode_error ms caller req)) s
  | CallSpeak speech ms header req =>
      state_after (authenticated store header (fun caller =>
        handle_speak cfg auditor speech ms caller req)) s
  end.

Definition run (calls : list (Env * Call)) : RelayState := fold_left serve calls fresh_relay.
End Runs.

(** The metered call a row of the trail speaks for: the completed ones. *)
Definition explained (row : AuditRow) : option Metered :=
  let entry kind device api_key u :=
    {| m_kind := kind; m_user := row_user row; m_device := device; m_key := api_key; m_label := "";
       m_usage := u |} in
  let counters prompt completion total :=
    {| u_prompt_tokens := prompt; u_completion_tokens := completion; u_total_tokens := total;
       u_cached_tokens := 0; u_reasoning_tokens := 0 |} in
  if negb (String.eqb (outcome_of (row_body row)) "ok") then None
  else match row_body row with
       | GateTurn device api_key _ _ _ u => Some (entry Turn device api_key u)
       | GateEmbed device api_key _ _ _ prompt total =>
           Some (entry Embed device api_key (counters prompt 0 total))
       | GateDecide device api_key _ _ _ input output =>
           Some (entry Decide device api_key
                   (counters input output (u64_saturating_add input output)))
       | _ => None
       end.

(** The rows the audit worker took, and those it did not. *)
Definition trail (s : RelayState) : list AuditRow := List.filter appended (audit_rows s).
Definition lost (s : RelayState) : list AuditRow := List.filter (fun row => negb (appended row)) (audit_rows s).

(** ** Accounting lemmas *)

Lemma trail_or_lost s : trail s ++ lost s ≡ₚ audit_rows s.
Proof.
  unfold trail, lost. induction (audit_rows s) as [|row rows IH]; [done|]. cbn [List.filter].
  destruct (appended row); cbn [negb app]; [by apply Permutation_cons|]. etransitivity; [symmetry; apply Permutation_middle|]. by apply Permutation_cons.
Qed.

Lemma sum_of_permuted {A} (f : A -> Z) l l' : l ≡ₚ l' -> sum_of f l = sum_of f l'.
Proof. induction 1; cbn [sum_of]; lia. Qed.

Lemma filter_permuted {A} (p : A -> bool) l l' : l ≡ₚ l' -> List.filter p l ≡ₚ List.filter p l'.
Proof.
  induction 1 as [|x l l' _ IH|x y l|l l' l'' _ IH _ IH']; cbn [List.filter]; [done| | |by rewrite IH].
  - destruct (p x); [by rewrite IH|done].
  - destruct (p x), (p y); try done. apply Permutation_swap.
Qed.

Lemma holds_permuted f m rs rs' user : rs ≡ₚ rs' -> holds f m rs' user -> holds f m rs user.
Proof.
  intros Hp [Ht Hd Hk Hds Hks].
  assert (He : forall p, recorded f p rs = recorded f p rs')
    by (intros p; unfold recorded; by rewrite (sum_of_permuted _ _ _ (filter_permuted p _ _ Hp))).
  by split; intros; rewrite He.
Qed.

(** Two metered calls that weigh the same on every counter. *)
Definition agree (a b : Metered) : Prop :=
  m_user a = m_user b /\ m_device a = m_device b /\ m_key a = m_key b /\
  (forall f, f ∈ fields -> share f a = share f b).

Lemma recorded_agree f p rs rs' :
  f ∈ fields -> (forall a b, agree a b -> p a = p b) -> Forall2 agree rs rs' ->
  recorded f p rs = recorded f p rs'.
Proof.
  intros Hf Hp Hrs. unfold recorded. f_equal.
  induction Hrs as [|a b rs rs' Hab _ IH]; [done|]. cbn [List.filter]. rewrite (Hp a b Hab).
  destruct (p b); cbn [sum_of]; [|done]. destruct Hab as (_ & _ & _ & Hs). by rewrite Hs, IH.
Qed.

Lemma holds_agree f m rs rs' user :
  f ∈ fields -> Forall2 agree rs rs' -> holds f m rs' user -> holds f m rs user.
Proof.
  intros Hf Hrs [Ht Hd Hk Hds Hks].
  assert (Hu : forall a b, agree a b -> of_user user a = of_user user b)
    by (unfold of_user; intros a b (-> & _); done).
  split; intros; rewrite (recorded_agree f _ rs rs'); auto.
  - intros a b Hab. unfold of_user_device. rewrite (Hu _ _ Hab). by destruct Hab as (_ & -> & _).
  - intros a b Hab. unfold of_user_key. rewrite (Hu _ _ Hab). by destruct Hab as (_ & _ & -> & _).
Qed.

Section Kept.
(** What the relay asks to append a row, if it has an auditor. *)
Variable auditor : option (string -> AuditBody -> result string unit).

(** With an auditor the rows account for the meter; without one there are none. *)
Definition reconciled (s : RelayState) : Prop :=
  match auditor with
  | Some _ => exists rs, meter s = record_all rs /\ Forall2 agree (omap explained (audit_rows s)) rs
  | None => audit_rows s = []
  end.

Definition keeps {A} (m : M A) : Prop := forall s, reconciled s -> reconciled (m s).1.

Lemma keeps_bind {A B} (m : M A) (k : A -> M B) :
  keeps m -> (forall a, keeps (k a)) -> keeps (bind m k).
Proof.
  intros Hm Hk s Hs. unfold bind. specialize (Hm s Hs). destruct (m s) as [s' [a|e]]; [by apply Hk|done].
Qed.

Lemma keeps_lift {A} (r : result GateError A) : keeps (lift r).
Proof. by intros s Hs. Qed.
Lemma keeps_ret {A} (a : A) : keeps (ret a).
Proof. by intros s Hs. Qed.
Lemma keeps_fail {A} (e : GateError) : keeps (@fail A e).
Proof. by intros s Hs. Qed.
Lemma keeps_send r : keeps (send r).
Proof. by intros s Hs. Qed.
Lemma keeps_set_account a : keeps (set_account a).
Proof. by intros s Hs. Qed.

(** A row that speaks for no metered call. *)
Definition unmetered (b : AuditBody) : Prop :=
  forall user result app,
    explained {| row_user := user; row_body := b; row_result := result; appended := app |} = None.

Lemma keeps_emit user b : unmetered b -> keeps (emit auditor user b).
Proof.
  intros Hb s. unfold reconciled, emit. destruct auditor as [append|]; [|done].
  intros (rs & Hm & Hrs). exists rs. split; [exact Hm|]. cbn [fst audit_rows].
  rewrite omap_app. cbn [omap list_omap]. rewrite Hb. by rewrite app_nil_r.
Qed.

Lemma keeps_best_effort user b : unmetered b -> keeps (audit_best_effort auditor user b).
Proof. intros Hb. apply keeps_bind; [by apply keeps_emit|]. intros _. apply keeps_ret. Qed.

Lemma keeps_required cfg user b msg :
  unmetered b -> keeps (audit_required cfg auditor user b msg).
Proof.
  intros Hb. apply keeps_bind; [by apply keeps_emit|]. intros a.
  destruct (_ && _); [apply keeps_fail | apply keeps_ret].
Qed.

(** The metering of a call followed by its row. *)
Lemma reconciled_recorded kind caller u b s :
  (forall result app, exists r,
     explained {| row_user := user_omni caller; row_body := b; row_result := result;
                  appended := app |} = Some r /\
     agree r {| m_kind := kind; m_user := user_omni caller; m_device := device_id caller;
                m_key := key_id caller; m_label := label caller; m_usage := u |}) ->
  reconciled s ->
  reconciled (emit auditor (user_omni caller) b (record_call kind caller u s).1).1.
Proof.
  unfold reconciled, emit. destruct auditor as [append|]; [|done]. intros Hb (rs & Hm & Hrs).
  set (r := {| m_kind := kind; m_user := user_omni caller; m_device := device_id caller;
               m_key := key_id caller; m_label := label caller; m_usage := u |}) in *.
  exists (rs ++ [r])%list. cbn [record_call fst meter audit_rows]. fold r. split.
  - unfold record_all. by rewrite fold_left_app, Hm.
  - rewrite omap_app. apply Forall2_app; [done|]. cbn [omap list_omap].
    edestruct Hb as (r' & -> & Hr'). constructor; [exact Hr' | constructor].
Qed.

(** A computation that meters and then hands over the row. *)
Definition billed {A} (kind : Kind) (caller : RelayKey) (u : UsageCounters) (b : AuditBody) (k : result string unit -> M A) : M A :=
  let! _ := record_call kind caller u in let! a := emit auditor (user_omni caller) b in k a.

Lemma keeps_billed {A} kind caller u b (k : result string unit -> M A) :
  (forall result app, exists r,
     explained {| row_user := user_omni caller; row_body := b; row_result := result;
                  appended := app |} = Some r /\
     agree r {| m_kind := kind; m_user := user_omni caller; m_device := device_id caller;
                m_key := key_id caller; m_label := label caller; m_usage := u |}) ->
  (forall a, keeps (k a)) -> keeps (billed kind caller u b k).
Proof.
  intros Hb Hk s Hs. pose proof (reconciled_recorded kind caller u b s Hb Hs) as H.
  unfold billed, bind. cbn [record_call] in *. destruct (emit _ _ _ _) as [s' [a|e]]; [by apply Hk|done].
Qed.

(** The two forms it takes in the handlers. *)
Lemma keeps_billed_required {A} cfg kind caller u b msg (m : M A) :
  (forall result app, exists r,
     explained {| row_user := user_omni caller; row_body := b; row_result := result;
                  appended := app |} = Some r /\
     agree r {| m_kind := kind; m_user := user_omni caller; m_device := device_id caller;
                m_key := key_id caller; m_label := label caller; m_usage := u |}) ->
  keeps m ->
  keeps (let! _ := record_call kind caller u in
         let! _ := audit_required cfg auditor (user_omni caller) b msg in m).
Proof.
  intros Hb Hm s Hs. pose proof (keeps_billed kind caller u b
    (fun a => bind (if negb (is_ok a) && require_audit cfg then fail (Audit msg) else ret tt)
                (fun _ => m)) Hb) as Hk.
  assert (Hrest : forall a : result string unit,
    keeps (bind (if negb (is_ok a) && require_audit cfg then fail (Audit msg) else ret tt) (fun _ => m))).
  { intros a. apply keeps_bind; [|done]. destruct (_ && _); [apply keeps_fail | apply keeps_ret]. }
  specialize (Hk Hrest s Hs). revert Hk. unfold billed, audit_required, bind. cbn [record_call].
  by destruct (emit _ _ _ _) as [s' [a|e]].
Qed.

Lemma keeps_billed_best_effort {A} kind caller u b (m : M A) :
  (forall result app, exists r,
     explained {| row_user := user_omni caller; row_body := b; row_result := result;
                  appended := app |} = Some r /\
     agree r {| m_kind := kind; m_user := user_omni caller; m_device := device_id caller;
                m_key := key_id caller; m_label := label caller; m_usage := u |}) ->
  keeps m ->
  keeps (let! _ := record_call kind caller u in
         let! _ := audit_best_effort auditor (user_omni caller) b in m).
Proof.
  intros Hb Hm s Hs. pose proof (keeps_billed kind caller u b (fun _ => m) Hb (fun _ => Hm) s Hs) as Hk.
  revert Hk. unfold billed, audit_best_effort, bind. cbn [record_call]. by destruct (emit _ _ _ _) as [s' [a|e]].
Qed.

End Kept.

Lemma agree_turn caller model streamed u :
  forall result app, exists r,
    explained {| row_user := user_omni caller; row_body := turn_body caller model streamed "ok" u;
                 row_result := result; appended := app |} = Some r /\
    agree r {| m_kind := Turn; m_user := user_omni caller; m_device := device_id caller;
               m_key := key_id caller; m_label := label caller; m_usage := u |}.
Proof. intros result app. eexists. split; [reflexivity|]. repeat split. Qed.

Lemma agree_embed caller model count u :
  forall result app, exists r,
    explained {| row_user := user_omni caller; row_body := embed_body caller model "ok" count u;
                 row_result := result; appended := app |} = Some r /\
    agree r {| m_kind := Embed; m_user := user_omni caller; m_device := device_id caller;
               m_key := key_id caller; m_label := label caller; m_usage := u |}.
Proof. intros result app. eexists. split; [reflexivity|]. repeat split. Qed.

Lemma agree_decide caller model count u :
  forall result app, exists r,
    explained {| row_user := user_omni caller;
                 row_body := decide_body caller model "ok" count (decision_usage u);
                 row_result := result; appended := app |} = Some r /\
    agree r {| m_kind := Decide; m_user := user_omni caller; m_device := device_id caller;
               m_key := key_id caller; m_label := label caller; m_usage := decision_usage u |}.
Proof. intros result app. eexists. split; [reflexivity|]. repeat split. Qed.

Lemma unmetered_outcome b : String.eqb (outcome_of b) "ok" = false -> unmetered b.
Proof. intros Hb user result app. unfold explained. cbn [row_body]. by rewrite Hb. Qed.

Lemma unmetered_search caller eng o q n : unmetered (search_body caller eng o q n).
Proof. intros user result app. unfold explained. cbn. by destruct (negb _). Qed.

Create HintDb ledger.
#[local] Hint Resolve keeps_lift keeps_ret keeps_fail keeps_send keeps_set_account keeps_best_effort
  keeps_required unmetered_search : ledger.
#[local] Hint Extern 2 (unmetered _) => apply unmetered_outcome; reflexivity : ledger.
#[local] Hint Extern 2 (unmetered (SpeechAsr _ _ _ _ _ _)) => intros ???; reflexivity : ledger.
#[local] Hint Extern 2 (unmetered (SpeechTts _ _ _ _ _ _ _ _)) => intros ???; reflexivity : ledger.

(** Case analysis along a handler. *)
Ltac keeps :=
  repeat first
    [ solve [auto with ledger]
    | match goal with
      | |- keeps _ (bind (record_call _ _ _) _) =>
          first [apply keeps_billed_required | apply keeps_billed_best_effort];
          [first [apply agree_turn | apply agree_embed | apply agree_decide] |]
      | |- keeps _ (bind _ _) => apply keeps_bind; [|intros ?]
      | |- keeps _ (if ?c then _ else _) => destruct c
      | |- keeps _ (match ?x with _ => _ end) => destruct x
      end ].

Section Keeping.
Context `{SerdeJson, SystemOneJson, Base64}.
Variable cfg : RelayConfig.
Variable store : KeyStore.
Variable auditor : option (string -> AuditBody -> result string unit).
#[local] Abbreviation keeps := (keeps auditor).
Variable now : Z.

Lemma keeps_gated caller b : unmetered b -> keeps (gated cfg store auditor caller b).
Proof.
  intros Hb s Hs. unfold gated. destruct (budget_gates _ _ _ _); [done|].
  revert s Hs. fold (keeps (let! _ := audit_best_effort auditor (user_omni caller) b in
                            @fail unit e)). keeps.
Qed.

Lemma keeps_note route status body : keeps (note_upstream_refusal now route status body).
Proof. intros s Hs. unfold note_upstream_refusal. by destruct (is_account_scoped _). Qed.

Lemma keeps_triage caller b noted what reply answered :
  unmetered b -> (forall z y, keeps (noted z y)) -> (forall r, keeps (answered r)) ->
  keeps (triage auditor caller b noted what reply answered).
Proof. intros. unfold triage. keeps; auto. Qed.

Lemma keeps_speech_failed {A} caller b e :
  unmetered b -> keeps (@speech_failed auditor A caller b e).
Proof. intros. unfold speech_failed. keeps. Qed.

Lemma keeps_authenticated {A} header (k : RelayKey -> M A) :
  (forall c, keeps (k c)) -> keeps (authenticated store header k).
Proof. intros. unfold authenticated. keeps; auto. Qed.

Lemma keeps_never_streams what m : keeps m -> keeps (never_streams what m).
Proof. intros. unfold never_streams. apply keeps_bind; [done|]. intros out. keeps. Qed.
#[local] Hint Resolve keeps_gated keeps_note keeps_triage keeps_speech_failed keeps_authenticated
  keeps_never_streams : ledger.

Lemma keeps_chat up gone caller raw :
  keeps (handle_chat cfg store auditor now up gone caller raw).
Proof.
  unfold handle_chat. keeps; apply keeps_triage; auto with ledger; intros r;
    unfold note_upstream_answered, stream_turn; keeps.
Qed.

Lemma keeps_embeddings up caller raw multimodal :
  keeps (handle_embeddings cfg store auditor now up caller raw multimodal).
Proof.
  unfold handle_embeddings. keeps; apply keeps_triage; auto with ledger; intros r;
    unfold note_upstream_answered; keeps.
Qed.

Lemma keeps_systemone up caller raw : keeps (handle_systemone cfg store auditor up caller raw).
Proof. unfold handle_systemone. keeps; apply keeps_triage; auto with ledger; intros r; keeps. Qed.

Lemma keeps_search up caller raw : keeps (handle_search cfg store auditor up caller raw).
Proof. unfold handle_search. keeps. Qed.

Lemma keeps_transcribe speech err ms caller req :
  keeps (handle_transcribe cfg auditor speech err ms caller req).
Proof. unfold handle_transcribe. keeps. Qed.

Lemma keeps_speak speech ms caller req : keeps (handle_speak cfg auditor speech ms caller req).
Proof. unfold handle_speak. keeps. Qed.
End Keeping.

(** ** How a chat call settles *)

Section Settling.
Context `{SerdeJson}.
Variable cfg : RelayConfig.
Variable store : KeyStore.
Variable auditor : option (string -> AuditBody -> result string unit).
Variable now : Z.

(** The row the auditor gets, when there is one. *)
Definition handed (user : string) (b : AuditBody) : list AuditRow :=
  match auditor with
  | None => []
  | Some append => [{| row_user := user; row_body := b; row_result := result_code (outcome_of b);
                       appended := is_ok (append user b) |}]
  end.

(** The audit of a completed call could not be recorded. *)
Definition unrecorded (user : string) (b : AuditBody) : bool :=
  match auditor with
  | None => false
  | Some append => negb (is_ok (append user b)) && require_audit cfg
  end.

(** The body that goes upstream. *)
Definition chat_request (raw : bytes) : result string Json :=
  let? body := json_from_slice raw in
  let body := choose_model cfg body in
  Ok (if is_streamed body then include_usage body else body).

Definition turn_row (caller : RelayKey) (body : Json) (outcome : string) (u : UsageCounters) : AuditBody :=
  turn_body caller (str_field body "model") (is_streamed body) outcome u.

(** The ways a chat call of [caller] can end. *)
Inductive Settled (upstream : Json -> result string Response) (gone : option nat) (caller : RelayKey)
    (raw : bytes) (s s' : RelayState) : result GateError TurnOutput -> Prop :=
| settled_malformed msg :
    (is_ok (json_from_slice raw) = false \/ exists v, json_from_slice raw = Ok v /\ is_object v = false) ->
    s' = s ->
    Settled upstream gone caller raw s s' (Err (BadRequest msg))
| settled_denied body msg :
    chat_request raw = Ok body ->
    budget_gates (gate cfg) store (meter s) caller = Err (Budget msg) ->
    sent s' = sent s -> meter s' = meter s ->
    audit_rows s' = (audit_rows s ++ handed (user_omni caller)
                       (turn_row caller body "denied:budget_exceeded" no_counters))%list ->
    Settled upstream gone caller raw s s' (Err (Budget msg))
| settled_failed body out :
    chat_request raw = Ok body ->
    sent s' = (sent s ++ [SentChat body])%list -> meter s' = meter s ->
    audit_rows s' = (audit_rows s ++ handed (user_omni caller)
                       (turn_row caller body "upstream_error" no_counters))%list ->
    match upstream body with
    | Err e => out = Err (Upstream ("upstream transport: " +:+ e))
    | Ok r =>
        is_success (r_status r) = false /\
        out = if is_client_error (r_status r)
              then Ok (Full (r_status r) (content_type_of r) (bytes_or_empty (r_body r)))
              else Err (Upstream ("upstream returned HTTP " +:+ dec (r_status r)))
    end ->
    Settled upstream gone caller raw s s' out
| settled_unreadable body r msg :
    chat_request raw = Ok body -> is_streamed body = false ->
    upstream body = Ok r -> is_success (r_status r) = true ->
    (forall b, r_body r = BodyBytes b -> is_ok (json_from_slice b) = false) ->
    sent s' = (sent s ++ [SentChat body])%list -> meter s' = meter s -> audit_rows s' = audit_rows s ->
    Settled upstream gone caller raw s s' (Err (Upstream msg))
| settled_answered body r b v out :
    chat_request raw = Ok body -> is_streamed body = false ->
    upstream body = Ok r -> is_success (r_status r) = true ->
    r_body r = BodyBytes b -> json_from_slice b = Ok v ->
    let u := usage_of_answer v in
    sent s' = (sent s ++ [SentChat body])%list ->
    meter s' = record (meter s) (user_omni caller) (device_id caller) (key_id caller) (label caller) u ->
    audit_rows s' = (audit_rows s ++ handed (user_omni caller) (turn_row caller body "ok" u))%list ->
    out = (if unrecorded (user_omni caller) (turn_row caller body "ok" u)
           then Err (Audit "turn completed but could not be recorded (require_audit)")
           else Ok (Full 200 (content_type_of r) b)) ->
    Settled upstream gone caller raw s s' out
| settled_streamed body r :
    chat_request raw = Ok body -> is_streamed body = true ->
    (opts ← get body "stream_options"; get opts "include_usage") = Some (JBool true) ->
    upstream body = Ok r -> is_success (r_status r) = true ->
    let u := default no_counters (stream_usage (List.concat (until_error (r_chunks r)))) in
    sent s' = (sent s ++ [SentChat body])%list ->
    meter s' = record (meter s) (user_omni caller) (device_id caller) (key_id caller) (label caller) u ->
    audit_rows s' = (audit_rows s ++ handed (user_omni caller) (turn_row caller body "ok" u))%list ->
    Settled upstream gone caller raw s s' (Ok (Stream 200 (content_type_of r) (forwarded gone (r_chunks r)))).

Lemma choose_model_object body : is_object (choose_model cfg body) = is_object body.
Proof. unfold choose_model. by repeat case_match; rewrite ?is_object_set_key. Qed.

Lemma include_usage_get body k :
  is_object body = true -> String.eqb k "stream_options" = false -> get (include_usage body) k = get body k.
Proof. intros Hb Hk. unfold include_usage. by repeat case_match; rewrite get_set_key, Hk. Qed.

Lemma include_usage_asked body :
  is_object body = true ->
  (opts ← get (include_usage body) "stream_options"; get opts "include_usage") = Some (JBool true).
Proof.
  intros Hb. unfold include_usage. repeat case_match; rewrite get_set_key by done; cbn [String.eqb];
    try reflexivity. cbn. by rewrite obj_get_insert.
Qed.

(** The row of a call is that of the request as it is sent. *)
Lemma turn_row_sent caller body outcome u :
  is_object body = true ->
  turn_row caller (if is_streamed body then include_usage body else body) outcome u =
  turn_body caller (str_field body "model") (is_streamed body) outcome u.
Proof.
  intros Hb. unfold turn_row, str_field, is_streamed.
  destruct (default false _) eqn:E; [|by rewrite E]. by rewrite !include_usage_get, E.
Qed.

Lemma is_streamed_sent body :
  is_object body = true ->
  is_streamed (if is_streamed body then include_usage body else body) = is_streamed body.
Proof.
  intros Hb. destruct (is_streamed body) eqn:E; [|done]. unfold is_streamed in *.
  by rewrite include_usage_get.
Qed.

Lemma emit_handed user b s :
  emit auditor user b s =
  ({| meter := meter s; upstream_account := upstream_account s;
      audit_rows := (audit_rows s ++ handed user b)%list; sent := sent s |},
   Ok match auditor with Some append => append user b | None => Ok tt end).
Proof. unfold emit, handed. destruct auditor; [done|]. rewrite app_nil_r. by destruct s. Qed.

Lemma best_effort_handed user b s :
  audit_best_effort auditor user b s =
  ({| meter := meter s; upstream_account := upstream_account s;
      audit_rows := (audit_rows s ++ handed user b)%list; sent := sent s |}, Ok tt).
Proof. unfold audit_best_effort, bind. by rewrite emit_handed. Qed.

Lemma required_handed user b msg s :
  audit_required cfg auditor user b msg s =
  ({| meter := meter s; upstream_account := upstream_account s;
      audit_rows := (audit_rows s ++ handed user b)%list; sent := sent s |},
   if unrecorded user b then Err (Audit msg) else Ok tt).
Proof.
  unfold audit_required, bind. rewrite emit_handed. unfold unrecorded, ret, fail.
  destruct auditor; cbn; [by destruct (_ && _)|done].
Qed.

Lemma budget_gates_err m caller e :
  budget_gates (gate cfg) store m caller = Err e -> exists msg, e = Budget msg.
Proof. unfold budget_gates. intros. repeat case_match; simplify_eq/=; eauto. Qed.

Lemma note_refusal_keeps route status body s :
  exists a, note_upstream_refusal now route status body s =
    ({| meter := meter s; upstream_account := a; audit_rows := audit_rows s; sent := sent s |}, Ok tt).
Proof. unfold note_upstream_refusal, set_account. destruct s, (is_account_scoped _); eauto. Qed.
End Settling.

(** ** Properties *)

Section LedgerProperties.
Context `{SerdeJson, SystemOneJson, Base64}.
Variable cfg : RelayConfig.
Variable audit_url : option string.

Lemma run_reconciled (calls : list (Env * Call)) (append : string -> AuditBody -> result string unit) :
  reconciled ((fun _ => append) <$> audit_url) (run cfg audit_url calls).
Proof.
  assert (Hsame : forall g g' s, reconciled ((fun _ => g) <$> audit_url) s -> reconciled ((fun _ => g') <$> audit_url) s)
    by (unfold reconciled; by destruct audit_url).
  unfold run. assert (reconciled ((fun _ => append) <$> audit_url) fresh_relay) as H0'
    by (unfold reconciled; destruct audit_url; [exists []; by repeat constructor|done]).
  revert H0'. generalize fresh_relay.
  induction calls as [|[e call] calls IH]; intros s Hs; [done|]. cbn [fold_left]. apply IH.
  apply (Hsame append (env_append e)) in Hs. apply (Hsame (env_append e) append).
  destruct call; unfold serve, state_after, chat_completions, embeddings_leg, systemone, search_route;
    revert s Hs; apply keeps_authenticated; intros c; try apply keeps_never_streams;
    eauto using keeps_chat, keeps_embeddings, keeps_systemone, keeps_search, keeps_transcribe,
      keeps_speak.
Qed.

(** C23: the audit trail accounts for the meter.  Where the relay has an auditor, after any
    run of calls of any kind, by any callers, whatever the upstream, the speech adapter and
    the audit worker answer and however the registry changes in between, each of a user's
    ten counters is the sum over the completed rows, in total, per device and per key: over
    those the trail took and those it refused, nothing is metered without a row that was
    offered, and no row claims tokens that were not metered.  So where no row was refused
    the trail alone explains the meter.  A relay without an auditor writes no row. *)
Theorem audit_explains_meter (calls : list (Env * Call)) (user : string) (f : Counters -> Z)
    (Hf : f ∈ fields) :
  let s := run cfg audit_url calls in
  match audit_url with
  | Some _ =>
      holds f (meter s) (omap explained (trail s) ++ omap explained (lost s)) user /\
      (lost s = [] -> holds f (meter s) (omap explained (trail s)) user)
  | None => audit_rows s = []
  end.
Proof.
  cbv zeta. pose proof (run_reconciled calls (fun _ _ => Ok tt)) as Hr. destruct audit_url as [url|]; [|exact Hr].
  destruct Hr as (rs & -> & Hrs).
  assert (Hall : holds f (record_all rs) (omap explained (trail (run cfg (Some url) calls)) ++
                   omap explained (lost (run cfg (Some url) calls))) user).
  { eapply holds_permuted; [|by apply (holds_agree f _ _ rs), holds_all].
    rewrite <-omap_app. by rewrite trail_or_lost. }
  split; [done|]. intros Hl. rewrite Hl, app_nil_r in Hall. exact Hall.
Qed.

Lemma chat_answer_settles store auditor now upstream gone caller raw body s s' out :
  is_object body = true ->
  let sent_body := if is_streamed body then include_usage body else body in
  chat_request cfg raw = Ok sent_body ->
  let model := str_field body "model" in
  triage auditor caller (turn_body caller model (is_streamed body) "upstream_error" no_counters)
    (note_upstream_refusal now "/chat/completions") "upstream returned HTTP "
    (transport "upstream transport: " (upstream sent_body))
    (fun r =>
      let! _ := note_upstream_answered in
      if is_streamed body then stream_turn auditor caller model (content_type_of r) (r_chunks r) gone
      else
        let! answer := lift (read_body "reading upstream body: " (r_body r)) in
        let! parsed := lift (map_err (fun e => Upstream ("unparseable upstream response: " +:+ e))
          (json_from_slice answer)) in
        let u := usage_of_answer parsed in
        let! _ := record_call Turn caller u in
        let! _ := audit_required cfg auditor (user_omni caller) (turn_body caller model false "ok" u)
          "turn completed but could not be recorded (require_audit)" in
        ret (Full 200 (content_type_of r) answer))
    {| meter := meter s; upstream_account := upstream_account s; audit_rows := audit_rows s;
       sent := (sent s ++ [SentChat sent_body])%list |} = (s', out) ->
  Settled cfg store auditor upstream gone caller raw s s' out.
Proof.
  intros Hobj sent_body Hreq model. unfold triage, transport, map_err.
  assert (Hrow : forall o u, turn_row caller sent_body o u =
    turn_body caller model (is_streamed body) o u) by (intros; by apply turn_row_sent).
  destruct (upstream sent_body) as [r|e] eqn:Eup.
  2: { unfold bind at 1. rewrite best_effort_handed. intros [= <- <-].
       apply (settled_failed _ _ _ _ _ _ _ _ _ sent_body); try done; [by rewrite Hrow | by rewrite Eup]. }
  destruct (is_success (r_status r)) eqn:Eok.
  2: { unfold bind at 1. rewrite best_effort_handed. unfold bind at 1.
       edestruct note_refusal_keeps as [a ->].
       destruct (is_client_error (r_status r)) eqn:Ecl; intros [= <- <-];
         apply (settled_failed _ _ _ _ _ _ _ _ _ sent_body); rewrite ?Hrow, ?Eup, ?Ecl; done. }
  unfold bind at 1, note_upstream_answered, set_account.
  destruct (is_streamed body) eqn:Est.
  - unfold stream_turn, bind, record_call. rewrite best_effort_handed. intros [= <- <-].
    assert (Hs : is_streamed sent_body = true) by (unfold sent_body, is_streamed; by rewrite include_usage_get).
    assert (Hu : scan (until_error (r_chunks r)) = stream_usage (List.concat (until_error (r_chunks r))))
      by (unfold scan; rewrite feed_concat; apply feed_lines).
    eapply (settled_streamed _ _ _ _ _ _ _ _ _ sent_body r); rewrite <-?Hu, ?Hrow; try done.
    by apply include_usage_asked.
  - unfold lift. unfold bind at 1. destruct (r_body r) as [b|e] eqn:Eb; cbn [read_body].
    2: { intros [= <- <-]. apply (settled_unreadable _ _ _ _ _ _ _ _ _ sent_body r); try done.
         by rewrite Eb. }
    unfold bind at 1. destruct (json_from_slice b) as [v|e] eqn:Ev; cbn [map_err].
    2: { intros [= <- <-]. apply (settled_unreadable _ _ _ _ _ _ _ _ _ sent_body r); try done.
         rewrite Eb. intros b' [= <-]. by rewrite Ev. }
    unfold bind, record_call. rewrite required_handed, <-Hrow.
    destruct (unrecorded _ _ _ _) eqn:Eun; intros [= <- <-];
      eapply (settled_answered _ _ _ _ _ _ _ _ _ sent_body r b v); rewrite ?Eun; done.
Qed.

(** C36: how a chat call settles.  A caller who does not authenticate leaves no trace.
    Otherwise the call ends in one of six ways: a malformed body leaves no trace; over
    a budget nothing is sent or metered and the denial is audited; a transport error
    or a refusal is audited and not metered, client errors being passed on and server
    errors not; a complete answer is metered with its usage and audited, and its body
    returned unless the audit is required and failed, the tokens staying metered; a
    streamed request asks for usage, and the usage metered and audited is that of the
    whole text that arrived before the stream ended or broke, even when the caller
    had hung up; an answer that cannot be read is neither metered nor audited. *)
Theorem chat_settles (store : KeyStore) (auditor : option (string -> AuditBody -> result string unit))
    (now : Z) (upstream : Json -> result string Response) (gone : option nat)
    (header : option string) (raw : bytes) (s : RelayState) :
  let res := chat_completions cfg store auditor now upstream gone header raw s in
  match authenticate_live store header with
  | Err e => res = (s, Err e)
  | Ok caller => Settled cfg store auditor upstream gone caller raw s res.1 res.2
  end.
Proof.
  cbv zeta. destruct (chat_completions _ _ _ _ _ _ _ _ _) as [s' out] eqn:E. cbn [fst snd].
  revert E. unfold chat_completions, authenticated, lift. unfold bind at 1.
  destruct (authenticate_live store header) as [caller|e]; [|by intros [= <- <-]].
  unfold handle_chat, lift. unfold bind at 1.
  destruct (json_from_slice raw) as [v|e] eqn:Ev; cbn [map_err].
  2: { intros [= <- <-]. apply settled_malformed; [left; by rewrite Ev | done]. }
  destruct (is_object v) eqn:Eobj; cbn [negb].
  2: { intros [= <- <-]. apply settled_malformed; [right; eauto | done]. }
  set (body := choose_model cfg v).
  assert (Hobj : is_object body = true) by (unfold body; by rewrite choose_model_object).
  assert (Hreq : chat_request cfg raw = Ok (if is_streamed body then include_usage body else body)).
  { unfold chat_request. by rewrite Ev. }
  unfold bind at 1. unfold gated. destruct (budget_gates _ _ _ _) as [u|e] eqn:Eg.
  - unfold bind at 1. by apply chat_answer_settles.
  - unfold bind at 1. rewrite best_effort_handed. intros [= <- <-].
    destruct (budget_gates_err _ _ _ _ _ Eg) as [msg ->].
    eapply settled_denied; try done. by rewrite turn_row_sent.
Qed.
End LedgerProperties.

(** ** A relay to evaluate on

    The parser knows three texts: a streamed request, a plain one and a final chunk. *)
Module ToyRelay.
Definition json : SerdeJson := {|
  json_from_slice b :=
    if bool_decide (b = as_bytes "S") then Ok (JObject [("model", JString "m"); ("stream", JBool true)])
    else if bool_decide (b = as_bytes "P") then Ok (JObject [("model", JString "m")])
    else if bool_decide (b = as_bytes "U") then Ok ToySse.final_chunk
    else Err "syntax";
  json_to_vec _ := [];
|}.

Definition systemone_json : SystemOneJson := {|
  SystemOneAnswers := unit;
  request_from_slice _ := Err "syntax";
  request_to_value _ := Err "syntax";
  response_from_slice _ := Err "syntax";
|}.

Definition boot : GateConfig :=
  {| cfg_keys := [demo_row "gk_1" "k1"]; user_budgets := ∅; default_budget_tokens := None;
     keys_file := None |}.

Definition config : RelayConfig :=
  {| gate := boot; admin_token := None; model_override := None; default_model := None;
     require_audit := true; search := None; decision _ := None |}.

(** An auditor that refuses every row. *)
Definition env : Env :=
  {| env_store := from_config boot; env_append _ _ := Err "unreachable"; env_now := 0 |}.

Definition answer (body : bytes) (chunks : list (result string bytes)) (_ : Json)
    : result string Response :=
  Ok {| r_status := 200; r_content_type := None; r_body := BodyBytes body; r_chunks := chunks |}.

(** A streamed turn whose caller hangs up and whose stream breaks after the usage, a
    plain turn, and one whose answer cannot be parsed. *)
Definition calls : list (Env * Call) :=
  [(env, CallChat (answer [] [Ok (as_bytes "data: U"); Ok [LF]; Err "reset"]) (Some 1%nat)
           (Some "Bearer gk_1") (as_bytes "S"));
   (env, CallChat (answer (as_bytes "U") []) None (Some "Bearer gk_1") (as_bytes "P"));
   (env, CallChat (answer (as_bytes "?") []) None (Some "Bearer gk_1") (as_bytes "P"))].
End ToyRelay.

#[local] Existing Instances ToyRelay.json ToyRelay.systemone_json SimpleBase64.codec.

(** Two turns of twelve tokens, three requests sent; the audit worker refused both rows. *)
Example audit_explains_meter_witness :
  let s := run ToyRelay.config (Some "http://audit") ToyRelay.calls in
  length (sent s) = 3%nat /\ map appended (audit_rows s) = [false; false] /\
  used_total (meter s) "0xaa" = 24 /\
  recorded total_tokens (of_user "0xaa") (omap explained (trail s) ++ omap explained (lost s)) = 24.
Proof.
  cbv zeta. split; [vm_compute; reflexivity|]. split; [vm_compute; reflexivity|].
  split; [vm_compute; reflexivity|].
  assert (Hf : total_tokens ∈ fields) by (unfold fields; set_solver).
  destruct (audit_explains_meter ToyRelay.config (Some "http://audit") ToyRelay.calls "0xaa" total_tokens Hf)
    as [[Ht _ _ _ _] _].
  rewrite <-Ht. vm_compute. reflexivity.
Defined.

(** The same calls where the audit worker takes the rows, and on a relay without one. *)
Example trail_of_the_same_calls :
  let taking := map (fun '(e, call) =>
    ({| env_store := env_store e; env_append _ _ := Ok tt; env_now := env_now e |}, call)) ToyRelay.calls in
  lost (run ToyRelay.config (Some "http://audit") taking) = [] /\
  recorded total_tokens (of_user "0xaa") (omap explained (trail (run ToyRelay.config (Some "http://audit") taking))) = 24 /\
  audit_rows (run ToyRelay.config None taking) = [] /\ used_total (meter (run ToyRelay.config None taking)) "0xaa" = 24.
Proof. split_and!; vm_compute; reflexivity. Qed.

(** An unreadable answer was sent for and paid, and leaves neither tokens nor a row. *)
Example unreadable_answer_unaccounted :
  let upstream := ToyRelay.answer (as_bytes "?") [] in
  let res := chat_completions ToyRelay.config (from_config ToyRelay.boot) (Some (fun _ _ => Ok tt)) 0 upstream None
    (Some "Bearer gk_1") (as_bytes "P") fresh_relay in
  length (sent res.1) = 1%nat /\ meter res.1 = ∅ /\ audit_rows res.1 = [] /\
  res.2 = Err (Upstream "unparseable upstream response: syntax").
Proof. split_and!; vm_compute; reflexivity. Qed.
