(* ===== verification/Checkpoint.v ===== *)
(** * The checkpoint task of a delegate

    [crates/agentkeys-daemon/src/checkpoint.rs]: the restore of the runtime home and
    of the engine workspace at boot, retried while pending, the hold on the engine
    meanwhile, and the periodic save that only a concluded restore allows.  The memory
    worker is the map of its objects with the faults it answers; what the broker, the
    bridge, the disk and [tar] answer in a pass is an argument of the pass, as is what
    the engine writes into its workspace in between.  Log lines are not modelled. *)
From stdpp Require Import gmap.
From S2P Require Import Prelude RustStr StrFacts Json Crates Capability DeviceCore.

Open Scope Z_scope.

(** ** Constants *)

Definition RESTORE_RETRY_WINDOW_SECS : Z := 180.
Definition RESTORE_RETRY_INTERVAL_SECS : Z := 5.
Definition WORKSPACE_GET_ATTEMPTS : nat := 4.
Definition FIRST_TICK_DELAY_SECS : Z := 120.
Definition ENGINE_HOLD_RETRY_SECS : Z := 30.
Definition CHECKPOINT_OBJECT_KEY : string := "checkpoint/dsh-home".
Definition OV_WORKSPACE_OBJECT_KEY : string := "checkpoint/ov-workspace".
Definition MANIFEST_SNAPSHOT : string := ".agentkeys-ov-ingested.txt".

(** ** Errors of the backend *)

Inductive BackendError :=
| NotConfigured (what : string)
| Http (status : Z) (body : string)
| Transport (m : string)
| Parse (m : string).

Definition backend_text (e : BackendError) : string :=
  match e with
  | NotConfigured what => "backend not configured: " +:+ what
  | Http status body => "backend HTTP error (" +:+ dec status +:+ "): " +:+ body
  | Transport m => "backend transport error: " +:+ m
  | Parse m => "backend response parse error: " +:+ m
  end.

Inductive RestoreError := NoSession | SessionExpired | Retryable (e : string) | Fatal (e : string).
Inductive SaveError := SaveSessionExpired | SaveFailed (e : string).
Inductive SaveOutcome := Saved (bytes : Z) | Unchanged | TooLarge (bytes : Z).

Definition transient_status (status : Z) : bool := (500 <=? status) || (status =? 408) || (status =? 429).

Definition classify_restore (e : BackendError) (stage : string) : RestoreError :=
  match e with
  | Http status body =>
      if status =? 401 then SessionExpired
      else if (400 <=? status) && (status <? 500) && negb (transient_status status)
      then Fatal (stage +:+ ": HTTP " +:+ dec status +:+ ": " +:+ body)
      else Retryable (stage +:+ ": " +:+ backend_text e)
  | _ => Retryable (stage +:+ ": " +:+ backend_text e)
  end.

Definition classify_save (e : BackendError) (stage : string) : SaveError :=
  match e with
  | Http 401 _ => SaveSessionExpired
  | other => SaveFailed (stage +:+ ": " +:+ backend_text other)
  end.

(** ** Where a restore stands *)

Inductive RestoreState := Pending (why : string) | Concluded (outcome : string) | Held.
Inductive Restored := Done (outcome : string) | RestoredHeld.

Definition saves (s : RestoreState) : bool := match s with Concluded _ => true | _ => false end.
Definition retries (s : RestoreState) : bool := match s with Pending _ => true | _ => false end.

Definition decide_restore (attempt : result RestoreError Restored) : RestoreState :=
  match attempt with
  | Ok (Done outcome) => Concluded outcome
  | Ok RestoredHeld => Held
  | Err (Fatal e) => Concluded ("not restored: " +:+ e)
  | Err NoSession => Pending "no delegate session"
  | Err SessionExpired => Pending "delegate session expired"
  | Err (Retryable e) => Pending e
  end.

(** Decides, and drops an expired session. *)
Definition settle (attempt : result RestoreError Restored) (session : option string)
    : RestoreState * option string :=
  (decide_restore attempt, match attempt with Err SessionExpired => None | _ => session end).

Definition next_tick_delay (engine_held first_tick : bool) (interval : Z) : Z :=
  if engine_held then Z.min ENGINE_HOLD_RETRY_SECS interval
  else if first_tick then FIRST_TICK_DELAY_SECS else interval.

Definition engine_stays_held (workspace : RestoreState) (held_for hold_max : Z) : bool :=
  retries workspace && (held_for <? hold_max).

Definition outcome_of (s : RestoreState) : option string :=
  match s with Concluded o => Some o | _ => None end.

Definition concluded_summary (home workspace : RestoreState) : string :=
  join "; " (omap outcome_of [home; workspace]).

Definition brief (reason : string) : string :=
  if chars_count reason <=? 96 then reason else take_chars 96 reason +:+ "…".

Definition restore_note (home workspace : RestoreState) (engine_held : bool) : option string :=
  let home_part := match home with
    | Pending why => ["checkpoint restore pending (" +:+ brief why +:+ ") — saves paused"]
    | _ => []
    end in
  let workspace_part := match workspace with
    | Pending why =>
        ["engine workspace restore pending (" +:+ brief why +:+
         (if engine_held then ") — the engine waits for it, saves paused" else ") — saves paused")]
    | Held => ["engine workspace restore held (the engine started first) — the stored one returns at the next respawn"]
    | Concluded _ => []
    end in
  match (home_part ++ workspace_part)%list with [] => None | parts => Some (join "; " parts) end.

(** ** Files *)

(** A directory lists its entries in the order of their names. *)
Inductive Node := File (content : bytes) (mtime : Z) | Directory (entries : list (string * Node)).

Definition dir_has_entries (dir : option Node) : bool :=
  match dir with Some (Directory (_ :: _)) => true | _ => false end.

(** The bytes of a file of a directory. *)
Definition read_file (dir : option Node) (name : string) : option bytes :=
  match dir with
  | Some (Directory entries) =>
      match List.find (fun e => String.eqb e.1 name) entries with
      | Some (_, File content _) => Some content
      | _ => None
      end
  | _ => None
  end.

Definition unit_separator : string := String (Ascii.ascii_of_nat 31) "".
Definition newline : string := String (Ascii.ascii_of_nat 10) "".

Fixpoint walk (path : string) (n : Node) : string :=
  match n with
  | File content mtime =>
      path +:+ unit_separator +:+ dec (Z.of_nat (length content)) +:+ unit_separator +:+ dec mtime +:+ newline
  | Directory entries =>
      (fix each (l : list (string * Node)) : string :=
         match l with
         | [] => ""
         | (name, child) :: l => walk (path +:+ "/" +:+ name) child +:+ each l
         end) entries
  end.

(** ** The parameters of the task *)

Record CheckpointConfig := {
  interval : Z;
  max_bytes : Z;
  object_key : string;
  (** Whether the box has an engine workspace. *)
  workspace : bool;
  workspace_path : string;
  engine_hold_max : Z;
}.

Record CheckpointEnvelope := {
  ce_version : Z; ce_saved_at : Z; ce_runtime : option string; ce_snapshot : Json }.

Class CheckpointIo := {
  envelope_to_vec : CheckpointEnvelope -> result string bytes;
  envelope_from_slice : bytes -> result string CheckpointEnvelope;
  b64_error : string -> string;
  (** [tar -czf] and [tar -xzf]. *)
  tar_gz : Node -> result string bytes;
  untar_gz : bytes -> result string Node;
  (** [Display] of an HTTP status. *)
  status_text : Z -> string;
}.

(** What a pass is answered. *)
Record Answers := {
  a_resolve : result string string;
  a_mint_home : option BackendError;
  a_get_home : option BackendError;
  (** The bridge's status and body, or a transport error. *)
  a_import : Json -> result string (Z * Json);
  (** The faults of each attempt at the workspace object: of the mint, of the get. *)
  a_gets : list (option BackendError * option BackendError);
  (** What the engine wrote before the first look and before the swap. *)
  a_fill : option Node;
  a_fill_late : option Node;
  a_mkdir : option string;
  (** The error of the swap, and what the engine wrote before it. *)
  a_rename : option (string * option Node);
  a_manifest_copied : bool;
  a_marker_written : bool;
}.

(** The answer to a put, and whether the object was written. *)
Inductive PutAnswer := PutOk | PutNotOk (written : bool) | PutErr (e : BackendError) (written : bool).

Record SaveAnswers := {
  s_resolve : result string string;
  s_export : result string (Z * result string bytes);
  s_mint : option BackendError;
  s_put : PutAnswer;
}.

(** Outside the task: the stored objects, as their base64 texts, and the disk. *)
Record World := {
  store : gmap string string;
  ws : option Node;
  manifest : option bytes;
  marker : bool;
  hold_file : bool;
}.

(** What the task keeps. *)
Record Task := {
  session : option string;
  home : RestoreState;
  ws_restore : RestoreState;
  engine_hold : option Z;
  last_saved_hash : option bytes;
  last_workspace_fp : option bytes;
}.

Definition with_store (w : World) (key text : string) : World :=
  {| store := <[key := text]> (store w); ws := ws w; manifest := manifest w; marker := marker w;
     hold_file := hold_file w |}.
Definition with_ws (w : World) (n : option Node) : World :=
  {| store := store w; ws := n; manifest := manifest w; marker := marker w; hold_file := hold_file w |}.
Definition with_manifest (w : World) (m : option bytes) : World :=
  {| store := store w; ws := ws w; manifest := m; marker := marker w; hold_file := hold_file w |}.
Definition with_marker (w : World) (b : bool) : World :=
  {| store := store w; ws := ws w; manifest := manifest w; marker := b; hold_file := hold_file w |}.
Definition with_hold (w : World) (b : bool) : World :=
  {| store := store w; ws := ws w; manifest := manifest w; marker := marker w; hold_file := b |}.
Definition engine_writes (w : World) (n : option Node) : World :=
  match n with Some n => with_ws w (Some n) | None => w end.

(** ** The restores *)

Section Task.
Context `{SerdeJson, Base64, Crypto, CheckpointIo}.
Variable cfg : CheckpointConfig.

Definition json_text (v : Json) : string := String.string_of_list_byte (json_to_vec v).
Definition is_success (status : Z) : bool := (200 <=? status) && (status <? 300).

(** The bearer is the session there is or a fresh one. *)
Definition ensure_session (resolve : result string string) (session : option string) : option string :=
  match session with
  | Some s => Some s
  | None => match resolve with Ok jwt => Some jwt | Err _ => None end
  end.

Definition faulty {E A} (fault : option E) (k : result E A) : result E A :=
  match fault with Some e => Err e | None => k end.

Definition memory_get (w : World) (key : string) (fault : option BackendError)
    : result BackendError string :=
  faulty fault (ok_or (Http 404 "") (store w !! key)).

Definition import_refusal (status : Z) (body : Json) : RestoreError :=
  let refusal := "bridge import HTTP " +:+ dec status +:+ ": " +:+ json_text body in
  if transient_status status then Retryable refusal else Fatal refusal.

Definition import_body (e : CheckpointEnvelope) : Json :=
  set_key (set_key (ce_snapshot e) "snapshot_at" (JNumber (PosInt (ce_saved_at e))))
    "restart" (JBool true).

(** One pass over the runtime home: get, unwrap, import. *)
Definition restore_once (a : Answers) (w : World) : result RestoreError string :=
  let? _ := map_err (fun e => classify_restore e "cap-mint") (faulty (a_mint_home a) (Ok tt)) in
  match memory_get w (object_key cfg) (a_get_home a) with
  | Err (Http 404 _) => Ok "no checkpoint stored (first spawn?)"
  | Err e => Err (classify_restore e "memory-get")
  | Ok text =>
      let? bytes := ok_or (Fatal ("checkpoint b64: " +:+ b64_error text)) (b64_decode text) in
      let? envelope := map_err (fun e => Fatal ("checkpoint parse: " +:+ e)) (envelope_from_slice bytes) in
      guard! ce_version envelope =? 1
        else Fatal ("checkpoint version " +:+ dec (ce_version envelope)
                    +:+ " unsupported (this daemon speaks 1) — NOT restored") ;;
      let? (status, v) := map_err (fun e => Retryable ("bridge import: " +:+ e))
        (a_import a (import_body envelope)) in
      guard! is_success status else import_refusal status v ;;
      Ok (match (x ← get v "applied"; as_bool x) with
          | Some false =>
              "skipped as stale (a fresher import already applied — #577 relay?): " +:+ json_text v
          | _ =>
              "restored " +:+ dec (default 0 (x ← get v "restored_files"; as_u64 x))
              +:+ " file(s) from the checkpoint saved at " +:+ dec (ce_saved_at envelope)
              +:+ " (agent re-sourced: "
              +:+ (if default false (x ← get v "agent_restarted"; as_bool x) then "true" else "false")
              +:+ ")"
          end)
  end.

Definition workspace_awaits_restore (w : World) : bool :=
  workspace cfg && negb (marker w) && negb (dir_has_entries (ws w)).

Definition workspace_settled_locally (w : World) : option string :=
  if negb (workspace cfg) then Some "no engine workspace on this box"
  else if marker w then Some "engine workspace restore already concluded in this sandbox"
  else None.

(** Extracts beside the workspace and swaps it in, unless the engine has filled it. *)
Definition unpack_workspace (a : Answers) (w : World) (archive : bytes) : World * result string bool :=
  match a_mkdir a with
  | Some e => (w, Err ("mkdir " +:+ workspace_path cfg +:+ ".restoring: " +:+ e))
  | None =>
      match untar_gz archive with
      | Err e => (w, Err ("unpack: " +:+ e))
      | Ok staged =>
          let w := engine_writes w (a_fill_late a) in
          if dir_has_entries (ws w) then (w, Ok false)
          else match a_rename a with
               | Some (e, fill) =>
                   let w := engine_writes w fill in
                   (w, if dir_has_entries (ws w) then Ok false
                       else Err ("swap into " +:+ workspace_path cfg +:+ ": " +:+ e))
               | None => (with_ws w (Some staged), Ok true)
               end
      end
  end.

(** The attempts at the object: a transient fault is retried, at most three times. *)
Fixpoint get_workspace (attempts : nat) (faults : list (option BackendError * option BackendError))
    (w : World) : result RestoreError (option string) :=
  let '(mint, get) := default (None, None) (head faults) in
  let? _ := map_err (fun e => classify_restore e "cap-mint") (faulty mint (Ok tt)) in
  match memory_get w OV_WORKSPACE_OBJECT_KEY get with
  | Ok text => Ok (Some text)
  | Err (Http 404 _) => Ok None
  | Err e =>
      match classify_restore e "memory-get", attempts with
      | Retryable _, S attempts => get_workspace attempts (tail faults) w
      | refusal, _ => Err refusal
      end
  end.

Definition workspace_restore (a : Answers) (w : World) : World * result RestoreError Restored :=
  if negb (workspace cfg) then (w, Ok (Done "no engine workspace on this box"))
  else
    match get_workspace (WORKSPACE_GET_ATTEMPTS - 1) (a_gets a) w with
    | Err e => (w, Err e)
    | Ok None => (w, Ok (Done "no engine workspace checkpoint (first spawn?)"))
    | Ok (Some text) =>
        let w := engine_writes w (a_fill a) in
        if dir_has_entries (ws w) then (w, Ok RestoredHeld)
        else match b64_decode text with
             | None => (w, Err (Fatal ("workspace b64: " +:+ b64_error text)))
             | Some bytes =>
                 match unpack_workspace a w bytes with
                 | (w, Err e) => (w, Err (Retryable e))
                 | (w, Ok false) => (w, Ok RestoredHeld)
                 | (w, Ok true) =>
                     let size := dec (Z.of_nat (length bytes)) in
                     match read_file (ws w) MANIFEST_SNAPSHOT, a_manifest_copied a with
                     | Some m, true =>
                         (with_manifest w (Some m),
                          Ok (Done ("engine workspace restored (" +:+ size
                                    +:+ " bytes) — the first pull is a delta")))
                     | _, _ =>
                         (w, Ok (Done ("engine workspace restored (" +:+ size
                              +:+ " bytes) without a manifest snapshot — the first pull re-mirrors every item once")))
                     end
                 end
             end
    end.

(** The attempts at whichever restores are pending; a session that could not be
    resolved for the first is not asked for again in the pass. *)
Definition attempt_home (a : Answers) (w : World) (t : Task) : Task * bool :=
  if retries (home t) then
    let bearer := ensure_session (a_resolve a) (session t) in
    let attempt := match bearer with
                   | Some _ => let? o := restore_once a w in Ok (Done o)
                   | None => Err NoSession
                   end in
    let '(state, s) := settle attempt bearer in
    ({| session := s; home := state; ws_restore := ws_restore t; engine_hold := engine_hold t;
        last_saved_hash := last_saved_hash t; last_workspace_fp := last_workspace_fp t |},
     is_none bearer)
  else (t, false).

Definition attempt_workspace (resolve_failed : bool) (a : Answers) (w : World) (t : Task) : World * Task :=
  if retries (ws_restore t) then
    let '(w, attempt, bearer) :=
      match workspace_settled_locally w with
      | Some outcome => (w, Ok (Done outcome), session t)
      | None =>
          if resolve_failed then (w, Err NoSession, session t)
          else match ensure_session (a_resolve a) (session t) with
               | Some bearer => let '(w, r) := workspace_restore a w in (w, r, Some bearer)
               | None => (w, Err NoSession, None)
               end
      end in
    let '(state, s) := settle attempt bearer in
    let t := {| session := s; home := home t; ws_restore := state; engine_hold := engine_hold t;
                last_saved_hash := last_saved_hash t; last_workspace_fp := last_workspace_fp t |} in
    (if saves state && workspace cfg && a_marker_written a then with_marker w true else w, t)
  else (w, t).

Definition attempt_pending (a : Answers) (w : World) (t : Task) : World * Task :=
  let '(t, resolve_failed) := attempt_home a w t in
  attempt_workspace resolve_failed a w t.

(** *** The engine hold *)

Definition release_engine (w : World) : World := with_hold w false.

Definition hold_engine (written : bool) (w : World) : World * bool :=
  if negb (workspace cfg) then (w, false)
  else if (engine_hold_max cfg =? 0) || negb (workspace_awaits_restore w) then (release_engine w, false)
  else if written then (with_hold w true, true) else (w, false).

Definition with_engine_hold (t : Task) (h : option Z) : Task :=
  {| session := session t; home := home t; ws_restore := ws_restore t; engine_hold := h;
     last_saved_hash := last_saved_hash t; last_workspace_fp := last_workspace_fp t |}.

Definition keep_engine_hold (now : Z) (w : World) (t : Task) : World * Task :=
  match engine_hold t with
  | None => (w, t)
  | Some since =>
      if engine_stays_held (ws_restore t) (now - since) (engine_hold_max cfg) then (w, t)
      else (release_engine w, with_engine_hold t None)
  end.

(** ** The saves *)

Definition obj_remove (k : string) (v : Json) : Json :=
  match v with JObject l => JObject (List.filter (fun e => negb (String.eqb e.1 k)) l) | _ => v end.

Record BridgeExport := { snapshot : Json; snapshot_at : Z; raw_len : Z; content_hash : bytes }.

Definition bridge_export (now : Z) (answer : result string (Z * result string bytes))
    : result string BridgeExport :=
  let? (status, body) := map_err (fun e => "bridge export: " +:+ e) answer in
  let? body := map_err (fun e => "bridge export body: " +:+ e) body in
  guard! is_success status
    else "bridge export HTTP " +:+ status_text status +:+ ": " +:+ take_chars 200 (from_utf8_lossy body) ;;
  let? snapshot := map_err (fun e => "bridge export parse: " +:+ e) (json_from_slice body) in
  let at_ := default now (x ← get snapshot "snapshot_at"; as_u64 x) in
  Ok {| snapshot := match get snapshot "snapshot_at" with
                    | Some _ => snapshot
                    | None => set_key snapshot "snapshot_at" (JNumber (PosInt at_))
                    end;
        snapshot_at := at_; raw_len := Z.of_nat (length body);
        content_hash := keccak256 (json_to_vec (obj_remove "snapshot_at" snapshot)) |}.

(** The capability and the put of an object. *)
Definition put_object (s : SaveAnswers) (w : World) (key : string) (plaintext : bytes)
    : World * result SaveError unit :=
  match s_mint s with
  | Some e => (w, Err (classify_save e "cap-mint"))
  | None =>
      let written := with_store w key (b64_encode plaintext) in
      match s_put s with
      | PutOk => (written, Ok tt)
      | PutNotOk b => (if b then written else w, Err (SaveFailed "memory-put answered ok=false"))
      | PutErr e b => (if b then written else w, Err (classify_save e "memory-put"))
      end
  end.

Definition save_once (now : Z) (s : SaveAnswers) (w : World) (last : option bytes)
    : World * option bytes * result SaveError SaveOutcome :=
  match bridge_export now (s_export s) with
  | Err e => (w, last, Err (SaveFailed e))
  | Ok export =>
      if max_bytes cfg <? raw_len export then (w, last, Ok (TooLarge (raw_len export)))
      else if bool_decide (Some (content_hash export) = last) then (w, last, Ok Unchanged)
      else match envelope_to_vec {| ce_version := 1; ce_saved_at := snapshot_at export;
                                    ce_runtime := Some "dsh"; ce_snapshot := snapshot export |} with
           | Err e => (w, last, Err (SaveFailed ("wrap: " +:+ e)))
           | Ok plaintext =>
               match put_object s w (object_key cfg) plaintext with
               | (w, Err e) => (w, last, Err e)
               | (w, Ok _) => (w, Some (content_hash export), Ok (Saved (Z.of_nat (length plaintext))))
               end
           end
  end.

(** A file written into a directory. *)
Fixpoint put_file (name : string) (f : Node) (entries : list (string * Node)) : list (string * Node) :=
  match entries with
  | [] => [(name, f)]
  | (n, x) :: rest =>
      if String.eqb n name then (name, f) :: rest
      else if String.leb name n then (name, f) :: entries
      else (n, x) :: put_file name f rest
  end.

Definition snapshot_manifest (now : Z) (w : World) : World :=
  match manifest w with
  | None => w
  | Some current =>
      if bool_decide (read_file (ws w) MANIFEST_SNAPSHOT = Some current) then w
      else match ws w with
           | Some (Directory entries) =>
               if existsb (fun e => String.eqb e.1 MANIFEST_SNAPSHOT
                                    && match e.2 with Directory _ => true | File _ _ => false end) entries
               then w
               else with_ws w (Some (Directory (put_file MANIFEST_SNAPSHOT (File current now) entries)))
           | _ => w
           end
  end.

Definition dir_fingerprint (n : option Node) : bytes :=
  keccak256 (as_bytes (match n with
                       | Some (Directory entries) => walk (workspace_path cfg) (Directory entries)
                       | _ => ""
                       end)).

Definition workspace_save (now : Z) (s : SaveAnswers) (w : World) (last : option bytes)
    : World * option bytes * result SaveError SaveOutcome :=
  if negb (workspace cfg) || negb (dir_has_entries (ws w)) then (w, last, Ok Unchanged)
  else
    let w := snapshot_manifest now w in
    let fp := dir_fingerprint (ws w) in
    if bool_decide (Some fp = last) then (w, last, Ok Unchanged)
    else match ws w with
         | None => (w, last, Ok Unchanged)
         | Some dir =>
             match tar_gz dir with
             | Err e => (w, last, Err (SaveFailed e))
             | Ok archive =>
                 let size := Z.of_nat (length archive) in
                 if max_bytes cfg <? size then (w, last, Ok (TooLarge size))
                 else match put_object s w OV_WORKSPACE_OBJECT_KEY archive with
                      | (w, Err e) => (w, last, Err e)
                      | (w, Ok _) => (w, Some fp, Ok (Saved size))
                      end
             end
         end.

(** ** The loop *)

Definition fresh_task (hold : option Z) : Task :=
  {| session := None; home := Pending "not attempted yet"; ws_restore := Pending "not attempted yet";
     engine_hold := hold; last_saved_hash := None; last_workspace_fp := None |}.

(** The start of a process; the hold goes up before. *)
Definition boot (now : Z) (written : bool) (w : World) : World * Task :=
  let '(w, held) := hold_engine written w in
  (w, fresh_task (if held then Some now else None)).

Definition pass (now : Z) (a : Answers) (p : World * Task) : World * Task :=
  let '(w, t) := attempt_pending a p.1 p.2 in keep_engine_hold now w t.

(** Phase 1: passes until nothing is pending or the window is over. *)
Fixpoint restore_phase (deadline : Z) (answers : list (Z * Answers)) (p : World * Task) : World * Task :=
  match answers with
  | [] => p
  | (now, a) :: answers =>
      let p := pass now a p in
      if negb (retries (home p.2)) && negb (retries (ws_restore p.2)) then p
      else if deadline <=? now then p
      else restore_phase deadline answers p
  end.

Definition dropped_session {A} (r : result SaveError A) (bearer : option string) : option string :=
  match r with Err SaveSessionExpired => None | _ => bearer end.

Definition tick_workspace (now : Z) (s : SaveAnswers) (p : World * Task) : World * Task :=
  let '(w, t) := p in
  if saves (ws_restore t) then
    match ensure_session (s_resolve s) (session t) with
    | None => (w, t)
    | Some bearer =>
        let '(w, fp, r) := workspace_save now s w (last_workspace_fp t) in
        (w, {| session := dropped_session r (Some bearer); home := home t; ws_restore := ws_restore t;
               engine_hold := engine_hold t; last_saved_hash := last_saved_hash t;
               last_workspace_fp := fp |})
    end
  else (w, t).

Definition tick_home (now : Z) (s : SaveAnswers) (p : World * Task) : World * Task :=
  let '(w, t) := p in
  if saves (home t) then
    match ensure_session (s_resolve s) (session t) with
    | None => (w, t)
    | Some bearer =>
        let '(w, hash, r) := save_once now s w (last_saved_hash t) in
        (w, {| session := dropped_session r (Some bearer); home := home t; ws_restore := ws_restore t;
               engine_hold := engine_hold t; last_saved_hash := hash;
               last_workspace_fp := last_workspace_fp t |})
    end
  else (w, t).

(** Phase 2: a tick retries what is pending, then saves what is concluded. *)
Definition tick (now : Z) (a : Answers) (sw sh : SaveAnswers) (p : World * Task) : World * Task :=
  let p := if retries (home p.2) || retries (ws_restore p.2) then pass now a p else p in
  tick_home now sh (tick_workspace now sw p).
End Task.

(** ** Runs

    Processes start and die at any point; the engine writes when it likes. *)
Inductive Op :=
| OBoot (now : Z) (written : bool)
| OPass (now : Z) (a : Answers)
| OTick (now : Z) (a : Answers) (sw sh : SaveAnswers)
| OEngine (n : Node).

Section Runs.
Context `{SerdeJson, Base64, Crypto, CheckpointIo}.
Variable cfg : CheckpointConfig.

Definition apply (p : World * Task) (op : Op) : World * Task :=
  match op with
  | OBoot now written => boot cfg now written p.1
  | OPass now a => pass cfg now a p
  | OTick now a sw sh => tick cfg now a sw sh p
  | OEngine n => (with_ws p.1 (Some n), p.2)
  end.

(** A run from the stored objects and disk of [w0]. *)
Definition run (w0 : World) (ops : list Op) : World * Task :=
  fold_left apply ops (w0, fresh_task None).

Definition answers_of (op : Op) : option Answers :=
  match op with OPass _ a | OTick _ a _ _ => Some a | _ => None end.

(** Why the restore of the home is over: nothing is stored, the bridge took what is
    stored (or has something fresher), or what is stored is refused for good. *)
Inductive HomeSettled (a : Answers) (w : World) : Prop :=
| home_absent m : memory_get w (object_key cfg) (a_get_home a) = Err (Http 404 m) -> HomeSettled a w
| home_imported text bytes e status v :
    store w !! object_key cfg = Some text -> b64_decode text = Some bytes ->
    envelope_from_slice bytes = Ok e -> ce_version e = 1 ->
    a_import a (import_body e) = Ok (status, v) -> is_success status = true -> HomeSettled a w
| home_refused why : restore_once cfg a w = Err (Fatal why) -> HomeSettled a w.

(** Why the restore of the workspace is over: it was concluded in this sandbox, or
    nothing is stored, or what is stored was unpacked into an empty workspace, or is
    refused for good. *)
Inductive WorkspaceSettled (a : Answers) (w : World) : Prop :=
| workspace_marked : marker w = true -> WorkspaceSettled a w
| workspace_absent : get_workspace 3 (a_gets a) w = Ok None -> WorkspaceSettled a w
| workspace_unpacked text bytes n :
    store w !! OV_WORKSPACE_OBJECT_KEY = Some text -> b64_decode text = Some bytes ->
    untar_gz bytes = Ok n -> dir_has_entries (ws (engine_writes (engine_writes w (a_fill a)) (a_fill_late a))) = false ->
    ws (workspace_restore cfg a w).1 = Some n -> WorkspaceSettled a w
| workspace_refused why : (workspace_restore cfg a w).2 = Err (Fatal why) -> WorkspaceSettled a w.

(** An operation of the run settles a restore, with the object as it was at first. *)
Definition settled_in (settled : Answers -> World -> Prop) (key : string) (w0 : World) (ops : list Op) : Prop :=
  exists before op after a, ops = (before ++ op :: after)%list /\ answers_of op = Some a /\
    store (run w0 before).1 !! key = store w0 !! key /\ settled a (run w0 before).1.
End Runs.

(** ** Lemmas *)

Section Facts.
Context `{SerdeJson, Base64, Crypto, CheckpointIo}.
Variable cfg : CheckpointConfig.

Lemma restore_once_ok a w o : restore_once cfg a w = Ok o -> HomeSettled cfg a w.
Proof.
  unfold restore_once. intros (u & _ & Hr)%let_ok. unfold memory_get in Hr.
  destruct (a_get_home a) as [e|] eqn:Ef; cbn [faulty] in Hr.
  - destruct e as [|s m| |]; try discriminate Hr.
    destruct (decide (s = 404)) as [->|Hne].
    + apply (home_absent _ _ _ m). unfold memory_get. by rewrite Ef.
    + exfalso. revert Hr. clear -Hne. repeat case_match; naive_solver.
  - destruct (store w !! object_key cfg) as [text|] eqn:Es; cbn [ok_or] in Hr.
    2: { apply (home_absent _ _ _ ""). unfold memory_get. rewrite Ef. cbn [faulty]. by rewrite Es. }
    apply let_ok in Hr as (b & Hb%ok_or_ok & Hr). apply let_ok in Hr as (e & He%map_err_ok & Hr).
    apply guard_ok in Hr as (Hv%Z.eqb_eq & Hr). apply let_ok in Hr as ([status v] & Hi%map_err_ok & Hr).
    apply guard_ok in Hr as (Hs & _). by eapply home_imported.
Qed.

Lemma attempt_home_spec a w t :
  let t' := (attempt_home cfg a w t).1 in
  (saves (home t') = true -> saves (home t) = true \/ HomeSettled cfg a w) /\ ws_restore t' = ws_restore t.
Proof.
  unfold attempt_home. destruct (retries (home t)) eqn:Er; [|by split; [left|]].
  destruct (ensure_session _ _) as [b|] eqn:Eb; cbn [settle fst home ws_restore]; [|by split].
  split; [|done]. destruct (restore_once cfg a w) as [o|e] eqn:Eo; intros Hs.
  - right. by eapply restore_once_ok.
  - destruct e; try discriminate Hs. right. by eapply home_refused.
Qed.

Lemma unpack_workspace_keeps a w archive :
  store (unpack_workspace cfg a w archive).1 = store w /\ marker (unpack_workspace cfg a w archive).1 = marker w.
Proof.
  unfold unpack_workspace, engine_writes. by repeat (case_match; simplify_eq/=).
Qed.

Lemma unpack_workspace_true a w archive w' :
  unpack_workspace cfg a w archive = (w', Ok true) ->
  exists n, untar_gz archive = Ok n /\ dir_has_entries (ws (engine_writes w (a_fill_late a))) = false /\
    ws w' = Some n.
Proof.
  unfold unpack_workspace. intros Hu. repeat (case_match; simplify_eq/=); try done. by eexists.
Qed.

Lemma workspace_restore_keeps a w :
  store (workspace_restore cfg a w).1 = store w /\ marker (workspace_restore cfg a w).1 = marker w.
Proof.
  unfold workspace_restore. destruct (workspace cfg); [|done].
  destruct (get_workspace _ _ _) as [[text|]|]; [|done|done].
  set (w1 := engine_writes w (a_fill a)).
  assert (Hw1 : store w1 = store w /\ marker w1 = marker w) by (unfold w1, engine_writes; by case_match).
  destruct (dir_has_entries _); [exact Hw1|]. destruct (b64_decode text) as [bytes|]; [|exact Hw1].
  pose proof (unpack_workspace_keeps a w1 bytes) as [Hs Hm]. destruct Hw1 as [Hs1 Hm1].
  destruct (unpack_workspace cfg a w1 bytes) as [w2 r]. cbn [fst] in *. rewrite Hs1 in Hs. rewrite Hm1 in Hm.
  repeat case_match; simplify_eq/=; done.
Qed.

Lemma get_workspace_stored n faults w text :
  get_workspace n faults w = Ok (Some text) -> store w !! OV_WORKSPACE_OBJECT_KEY = Some text.
Proof.
  revert faults. induction n as [|n IH]; intros faults; cbn [get_workspace];
    destruct (default (None, None) (head faults)) as [mint get]; intros (u & _ & Hg)%let_ok;
    unfold memory_get in Hg; destruct get as [e|]; cbn [faulty] in Hg;
    try (destruct (store w !! _); cbn [ok_or] in Hg; congruence).
  - exfalso. revert Hg. repeat case_match; naive_solver.
  - assert (Hr : get_workspace n (tail faults) w = Ok (Some text)).
    { revert Hg. repeat case_match; naive_solver. }
    by eapply IH.
Qed.

Lemma workspace_restore_done a w o :
  workspace cfg = true -> (workspace_restore cfg a w).2 = Ok (Done o) -> WorkspaceSettled cfg a w.
Proof.
  intros Hw Hr. destruct (get_workspace 3 (a_gets a) w) as [[text|]|] eqn:Eg.
  2: by apply workspace_absent.
  2: { exfalso. revert Hr. unfold workspace_restore. rewrite Hw. cbn [negb].
       change (WORKSPACE_GET_ATTEMPTS - 1)%nat with 3%nat. by rewrite Eg. }
  pose proof (get_workspace_stored _ _ _ _ Eg) as Hst.
  assert (Hshape : exists bytes n, b64_decode text = Some bytes /\ untar_gz bytes = Ok n /\
    dir_has_entries (ws (engine_writes (engine_writes w (a_fill a)) (a_fill_late a))) = false /\
    ws (workspace_restore cfg a w).1 = Some n).
  { revert Hr. unfold workspace_restore. rewrite Hw. cbn [negb].
    change (WORKSPACE_GET_ATTEMPTS - 1)%nat with 3%nat. rewrite Eg.
    destruct (dir_has_entries _); [done|]. destruct (b64_decode text) as [bytes|] eqn:Eb; [|done].
    destruct (unpack_workspace _ _ _ _) as [w' [[]|]] eqn:Eu; try done.
    apply unpack_workspace_true in Eu as (n & Hn & He & Hws). intros _. exists bytes, n.
    split_and!; try done. by destruct (read_file _ _), (a_manifest_copied a). }
  destruct Hshape as (bytes & n & Hb & Hn & He & Hws). by eapply workspace_unpacked.
Qed.

Lemma attempt_workspace_spec rf a w t :
  let '(w', t') := attempt_workspace cfg rf a w t in
  store w' = store w /\ home t' = home t /\
  (workspace cfg = true ->
     (saves (ws_restore t') = true -> saves (ws_restore t) = true \/ WorkspaceSettled cfg a w) /\
     (marker w' = marker w \/ saves (ws_restore t') = true)).
Proof.
  unfold attempt_workspace. destruct (retries (ws_restore t)) eqn:Er; [|by split_and!; [..|split; [left|left]]].
  unfold workspace_settled_locally. destruct (workspace cfg) eqn:Ew; cbn [negb].
  2: { cbn. split_and!; try done; by destruct (a_marker_written a). }
  destruct (marker w) eqn:Em.
  { cbn. split_and!; [by destruct (a_marker_written a) | done |]. intros _.
    split; [right; by apply workspace_marked | by right]. }
  destruct rf; [cbn; split_and!; try done; intros _; split; [done | by left]|].
  destruct (ensure_session _ _) as [b|]; [|cbn; split_and!; try done; intros _; split; [done | by left]].
  pose proof (workspace_restore_keeps a w) as [Hs Hm].
  pose proof (workspace_restore_done a w) as Hd.
  pose proof (workspace_refused cfg a w) as Hf.
  destruct (workspace_restore cfg a w) as [w' r] eqn:Eo. cbn [fst snd] in *.
  unfold settle. set (st := decide_restore r). cbn [ws_restore home].
  split_and!; [by case_match | done |]. intros _. split.
  - intros Hsv. right. unfold st in Hsv. destruct r as [[o|]|[]]; try discriminate Hsv.
    + by eapply Hd.
    + by eapply Hf.
  - destruct (saves st); [by right|]. left. cbn. congruence.
Qed.

Lemma keep_engine_hold_spec now w t :
  let '(w', t') := keep_engine_hold cfg now w t in
  store w' = store w /\ marker w' = marker w /\ home t' = home t /\ ws_restore t' = ws_restore t.
Proof. unfold keep_engine_hold. by repeat case_match; simplify_eq/=. Qed.

(** What a pass does to the stored objects, the marker and the two states. *)
Lemma pass_spec now a p :
  let p' := pass cfg now a p in
  store p'.1 = store p.1 /\
  (saves (home p'.2) = true -> saves (home p.2) = true \/ HomeSettled cfg a p.1) /\
  (workspace cfg = true ->
     (saves (ws_restore p'.2) = true -> saves (ws_restore p.2) = true \/ WorkspaceSettled cfg a p.1) /\
     (marker p'.1 = marker p.1 \/ saves (ws_restore p'.2) = true)).
Proof.
  cbv zeta. unfold pass, attempt_pending. destruct p as [w t]. cbn [fst snd].
  pose proof (attempt_home_spec a w t) as [Hh Hws]. destruct (attempt_home cfg a w t) as [t1 rf].
  cbn [fst] in *. pose proof (attempt_workspace_spec rf a w t1) as Hw.
  destruct (attempt_workspace cfg rf a w t1) as [w2 t2]. destruct Hw as (Hs & Hho & Hww).
  pose proof (keep_engine_hold_spec now w2 t2) as Hk.
  destruct (keep_engine_hold cfg now w2 t2) as [w3 t3]. destruct Hk as (Hs3 & Hm3 & Hh3 & Hr3).
  cbn [fst snd]. rewrite Hs3, Hm3, Hh3, Hr3, Hho, <-Hws. done.
Qed.

Lemma put_object_spec s w key plaintext :
  let w' := (put_object s w key plaintext).1 in
  marker w' = marker w /\ forall k, k <> key -> store w' !! k = store w !! k.
Proof.
  unfold put_object. repeat case_match; simplify_eq/=; split; try done; intros k Hk;
    by rewrite lookup_insert_ne.
Qed.

Lemma snapshot_manifest_keeps now w :
  store (snapshot_manifest now w) = store w /\ marker (snapshot_manifest now w) = marker w.
Proof. unfold snapshot_manifest. by repeat case_match. Qed.

Lemma workspace_save_spec now s w last :
  let w' := (workspace_save cfg now s w last).1.1 in
  marker w' = marker w /\ forall k, k <> OV_WORKSPACE_OBJECT_KEY -> store w' !! k = store w !! k.
Proof.
  unfold workspace_save. destruct (_ || _); [done|]. cbv zeta.
  pose proof (snapshot_manifest_keeps now w) as [Hs Hm].
  set (w1 := snapshot_manifest now w) in *.
  assert (Hw1 : marker w1 = marker w /\ forall k, k <> OV_WORKSPACE_OBJECT_KEY -> store w1 !! k = store w !! k)
    by (by rewrite Hs, Hm).
  case_bool_decide; [exact Hw1|]. destruct (ws w1) as [dir|]; [|exact Hw1].
  destruct (tar_gz dir) as [archive|]; [|exact Hw1].
  destruct (max_bytes cfg <? Z.of_nat (length archive)); [exact Hw1|].
  pose proof (put_object_spec s w1 OV_WORKSPACE_OBJECT_KEY archive) as [Hpm Hps].
  destruct (put_object s w1 _ archive) as [w2 [|]]; cbn [fst] in *;
    (split; [by rewrite Hpm; apply Hw1 | intros k Hk; rewrite Hps by done; by apply Hw1]).
Qed.

Lemma save_once_spec now s w last :
  let w' := (save_once cfg now s w last).1.1 in
  marker w' = marker w /\ forall k, k <> object_key cfg -> store w' !! k = store w !! k.
Proof.
  unfold save_once. destruct (bridge_export _ _) as [export|]; [|done].
  destruct (max_bytes cfg <? raw_len export); [done|]. case_bool_decide; [done|]. destruct (envelope_to_vec _) as [plain|]; [|done].
  pose proof (put_object_spec s w (object_key cfg) plain) as Hp.
  by destruct (put_object s w _ plain) as [w2 [|]].
Qed.

Lemma tick_workspace_spec now s p :
  let p' := tick_workspace cfg now s p in
  home p'.2 = home p.2 /\ ws_restore p'.2 = ws_restore p.2 /\ marker p'.1 = marker p.1 /\
  forall k, (saves (ws_restore p.2) = true -> k <> OV_WORKSPACE_OBJECT_KEY) -> store p'.1 !! k = store p.1 !! k.
Proof.
  unfold tick_workspace. destruct p as [w t]. cbn [fst snd].
  destruct (saves (ws_restore t)) eqn:Es; [|done]. destruct (ensure_session _ _); [|done].
  pose proof (workspace_save_spec now s w (last_workspace_fp t)) as [Hm Hs].
  destruct (workspace_save cfg now s w (last_workspace_fp t)) as [[w2 fp] r]. cbn [fst snd] in *.
  split_and!; try done. intros k Hk. by apply Hs, Hk.
Qed.

Lemma tick_home_spec now s p :
  let p' := tick_home cfg now s p in
  home p'.2 = home p.2 /\ ws_restore p'.2 = ws_restore p.2 /\ marker p'.1 = marker p.1 /\
  forall k, (saves (home p.2) = true -> k <> object_key cfg) -> store p'.1 !! k = store p.1 !! k.
Proof.
  unfold tick_home. destruct p as [w t]. cbn [fst snd].
  destruct (saves (home t)) eqn:Es; [|done]. destruct (ensure_session _ _); [|done].
  pose proof (save_once_spec now s w (last_saved_hash t)) as [Hm Hs].
  destruct (save_once cfg now s w (last_saved_hash t)) as [[w2 fp] r]. cbn [fst snd] in *.
  split_and!; try done. intros k Hk. by apply Hs, Hk.
Qed.
End Facts.

Section RunFacts.
Context `{SerdeJson, Base64, Crypto, CheckpointIo}.
Variable cfg : CheckpointConfig.
Variable w0 : World.

Lemma run_op_snoc ops op : run cfg w0 (ops ++ [op]) = apply cfg (run cfg w0 ops) op.
Proof. unfold run. by rewrite fold_left_app. Qed.

Lemma boot_spec now written w :
  let p := boot cfg now written w in
  store p.1 = store w /\ marker p.1 = marker w /\ saves (home p.2) = false /\ saves (ws_restore p.2) = false.
Proof. unfold boot, hold_engine. by repeat case_match; simplify_eq/=. Qed.

(** A settling found in a prefix is one of the whole run. *)
Lemma settled_in_snoc settled key ops op :
  settled_in cfg settled key w0 ops -> settled_in cfg settled key w0 (ops ++ [op]).
Proof.
  intros (before & o & after & a & -> & Ha & Hs & Hd). exists before, o, (after ++ [op])%list, a.
  split_and!; try done. by rewrite <-app_assoc.
Qed.

Lemma settled_in_last settled key ops op a :
  answers_of op = Some a -> store (run cfg w0 ops).1 !! key = store w0 !! key ->
  settled a (run cfg w0 ops).1 -> settled_in cfg settled key w0 (ops ++ [op]).
Proof. intros. by exists ops, op, [], a. Qed.

(** Until it is settled, a restore does not save and its object stays. *)
Definition guarded (settled : Answers -> World -> Prop) (key : string) (state : Task -> RestoreState)
    (ops : list Op) : Prop :=
  settled_in cfg settled key w0 ops \/
  (store (run cfg w0 ops).1 !! key = store w0 !! key /\ saves (state (run cfg w0 ops).2) = false).

Lemma home_guarded ops :
  object_key cfg <> OV_WORKSPACE_OBJECT_KEY -> guarded (HomeSettled cfg) (object_key cfg) home ops.
Proof.
  intros Hkey. induction ops as [|op ops IH] using rev_ind; [by right|].
  destruct IH as [IH|[Hs Hh]]; [left; by apply settled_in_snoc|].
  unfold guarded. rewrite run_op_snoc. destruct op as [now written|now a|now a sw sh|n]; cbn [apply].
  - right. destruct (boot_spec now written (run cfg w0 ops).1) as (Hst & _ & Hsv & _).
    by rewrite Hst, Hsv.
  - destruct (pass_spec cfg now a (run cfg w0 ops)) as (Hst & Hp & _).
    destruct (saves (home (pass cfg now a _).2)) eqn:Ep; [|right; by rewrite Hst].
    left. destruct Hp as [Hp|Hp]; [done | congruence | by eapply settled_in_last].
  - unfold tick. set (p := if _ || _ then _ else _).
    assert (Hp : settled_in cfg (HomeSettled cfg) (object_key cfg) w0 (ops ++ [OTick now a sw sh]) \/
      (store p.1 !! object_key cfg = store w0 !! object_key cfg /\ saves (home p.2) = false)).
    { unfold p. destruct (_ || _); [|by right].
      destruct (pass_spec cfg now a (run cfg w0 ops)) as (Hst & Hp & _).
      destruct (saves (home (pass cfg now a _).2)) eqn:Ep; [|right; by rewrite Hst].
      left. destruct Hp as [Hp|Hp]; [done | congruence | by eapply settled_in_last]. }
    destruct Hp as [Hp|[Hst Hsv]]; [by left|]. right.
    destruct (tick_workspace_spec cfg now sw p) as (Hh1 & _ & _ & Hs1).
    destruct (tick_home_spec cfg now sh (tick_workspace cfg now sw p)) as (Hh2 & _ & _ & Hs2).
    rewrite Hh2, Hh1, Hsv. split; [|done]. rewrite Hs2 by (rewrite Hh1, Hsv; done).
    by rewrite Hs1.
  - by right.
Qed.

Lemma workspace_guarded ops :
  object_key cfg <> OV_WORKSPACE_OBJECT_KEY -> workspace cfg = true ->
  settled_in cfg (WorkspaceSettled cfg) OV_WORKSPACE_OBJECT_KEY w0 ops \/
  (store (run cfg w0 ops).1 !! OV_WORKSPACE_OBJECT_KEY = store w0 !! OV_WORKSPACE_OBJECT_KEY /\
   saves (ws_restore (run cfg w0 ops).2) = false /\ marker (run cfg w0 ops).1 = marker w0).
Proof.
  intros Hkey Hws. induction ops as [|op ops IH] using rev_ind; [by right|].
  destruct IH as [IH|(Hs & Hh & Hm)]; [left; by apply settled_in_snoc|].
  rewrite run_op_snoc.
  assert (Hpass : forall now a, answers_of op = Some a ->
    settled_in cfg (WorkspaceSettled cfg) OV_WORKSPACE_OBJECT_KEY w0 (ops ++ [op]) \/
    let p := pass cfg now a (run cfg w0 ops) in
    store p.1 !! OV_WORKSPACE_OBJECT_KEY = store w0 !! OV_WORKSPACE_OBJECT_KEY /\
    saves (ws_restore p.2) = false /\ marker p.1 = marker w0).
  { intros now a Ha. destruct (pass_spec cfg now a (run cfg w0 ops)) as (Hst & _ & Hp).
    destruct (Hp Hws) as [Hp1 Hp2]. cbv zeta.
    destruct (saves (ws_restore (pass cfg now a _).2)) eqn:Ep.
    - left. destruct Hp1 as [Hp1|Hp1]; [done | congruence | by eapply settled_in_last].
    - right. rewrite Hst. destruct Hp2 as [->|]; [done|congruence]. }
  destruct op as [now written|now a|now a sw sh|n]; cbn [apply].
  - right. destruct (boot_spec now written (run cfg w0 ops).1) as (Hst & Hbm & _ & Hsv).
    by rewrite Hst, Hsv, Hbm.
  - by apply Hpass.
  - unfold tick. set (p := if _ || _ then _ else _).
    assert (Hp : settled_in cfg (WorkspaceSettled cfg) OV_WORKSPACE_OBJECT_KEY w0 (ops ++ [OTick now a sw sh]) \/
      (store p.1 !! OV_WORKSPACE_OBJECT_KEY = store w0 !! OV_WORKSPACE_OBJECT_KEY /\
       saves (ws_restore p.2) = false /\ marker p.1 = marker w0)).
    { unfold p. destruct (_ || _); [by apply Hpass | by right]. }
    destruct Hp as [Hp|(Hst & Hsv & Hmk)]; [by left|]. right.
    destruct (tick_workspace_spec cfg now sw p) as (_ & Hr1 & Hm1 & Hs1).
    destruct (tick_home_spec cfg now sh (tick_workspace cfg now sw p)) as (_ & Hr2 & Hm2 & Hs2).
    rewrite Hr2, Hr1, Hsv, Hm2, Hm1, Hmk. split_and!; try done.
    rewrite Hs2 by (intros _; done). by rewrite Hs1 by (rewrite Hsv; done).
  - by right.
Qed.
End RunFacts.

(** *** The hold on the engine *)

Definition time_of (op : Op) : option Z :=
  match op with OPass now _ | OTick now _ _ _ => Some now | _ => None end.
Definition is_boot (op : Op) : bool := match op with OBoot _ _ => true | _ => false end.

Section HoldFacts.
Context `{SerdeJson, Base64, Crypto, CheckpointIo}.
Variable cfg : CheckpointConfig.

(** Held means pending, and since when; not held means that the file is gone. *)
Definition hold_consistent (t0 : Z) (p : World * Task) : Prop :=
  match engine_hold p.2 with
  | Some since => since = t0 /\ retries (ws_restore p.2) = true
  | None => hold_file p.1 = false
  end.

Lemma unpack_workspace_hold a w archive : hold_file (unpack_workspace cfg a w archive).1 = hold_file w.
Proof. unfold unpack_workspace, engine_writes. by repeat (case_match; simplify_eq/=). Qed.

Lemma workspace_restore_hold a w : hold_file (workspace_restore cfg a w).1 = hold_file w.
Proof.
  unfold workspace_restore. destruct (workspace cfg); [|done].
  destruct (get_workspace _ _ _) as [[text|]|]; [|done|done].
  set (w1 := engine_writes w (a_fill a)).
  assert (Hw1 : hold_file w1 = hold_file w) by (unfold w1, engine_writes; by case_match).
  destruct (dir_has_entries _); [exact Hw1|]. destruct (b64_decode text) as [bytes|]; [|exact Hw1].
  pose proof (unpack_workspace_hold a w1 bytes) as Hu. rewrite Hw1 in Hu.
  destruct (unpack_workspace cfg a w1 bytes) as [w2 r]. cbn [fst] in *.
  repeat case_match; simplify_eq/=; done.
Qed.

Lemma attempt_pending_hold a w t :
  engine_hold (attempt_pending cfg a w t).2 = engine_hold t /\
  hold_file (attempt_pending cfg a w t).1 = hold_file w.
Proof.
  unfold attempt_pending.
  assert (Hh : engine_hold (attempt_home cfg a w t).1 = engine_hold t).
  { unfold attempt_home, settle. destruct (retries _); [|done]. by destruct (ensure_session _ _). }
  destruct (attempt_home cfg a w t) as [t1 rf]. cbn [fst] in Hh. rewrite <-Hh.
  unfold attempt_workspace, settle. destruct (retries _); [|done].
  destruct (workspace_settled_locally _ _); cbn; [by destruct (_ && _)|].
  destruct rf; [done|]. destruct (ensure_session _ _); [|done].
  pose proof (workspace_restore_hold a w) as Hw. destruct (workspace_restore cfg a w) as [w2 r].
  cbn [fst snd] in *. split; [done|]. by destruct (_ && _).
Qed.

Lemma pass_hold t0 now a p :
  hold_consistent t0 p ->
  hold_consistent t0 (pass cfg now a p) /\
  (engine_hold p.2 = None \/ t0 + engine_hold_max cfg <= now -> engine_hold (pass cfg now a p).2 = None).
Proof.
  intros Hp. unfold pass. destruct (attempt_pending_hold a p.1 p.2) as [Hh Hf].
  destruct (attempt_pending cfg a p.1 p.2) as [w t]. cbn [fst snd] in *.
  unfold keep_engine_hold, hold_consistent in *. rewrite Hh. destruct (engine_hold p.2) as [since|].
  - destruct Hp as [-> _]. unfold engine_stays_held.
    destruct (retries (ws_restore t)) eqn:Er; cbn [andb].
    + destruct (Z.ltb_spec (now - t0) (engine_hold_max cfg)) as [Hlt|Hge]; cbn [fst snd].
      * rewrite Hh. split; [done|]. intros [|]; [done|lia].
      * by split.
    + by split.
  - cbn [fst snd]. rewrite Hh. split; [congruence|done].
Qed.

Lemma put_object_hold s w key b : hold_file (put_object s w key b).1 = hold_file w.
Proof. unfold put_object. by repeat case_match; simplify_eq/=. Qed.

Lemma tick_saves_hold now sw sh p :
  let p' := tick_home cfg now sh (tick_workspace cfg now sw p) in
  engine_hold p'.2 = engine_hold p.2 /\ ws_restore p'.2 = ws_restore p.2 /\ hold_file p'.1 = hold_file p.1.
Proof.
  assert (Htw : forall s q, let q' := tick_workspace cfg now s q in
    engine_hold q'.2 = engine_hold q.2 /\ ws_restore q'.2 = ws_restore q.2 /\ hold_file q'.1 = hold_file q.1).
  { intros s [w t]. unfold tick_workspace. destruct (saves _); [|done]. destruct (ensure_session _ _); [|done].
    assert (Hw : hold_file (workspace_save cfg now s w (last_workspace_fp t)).1.1 = hold_file w).
    { unfold workspace_save. destruct (_ || _); [done|]. cbv zeta.
      assert (Hsn : hold_file (snapshot_manifest now w) = hold_file w)
        by (unfold snapshot_manifest; by repeat case_match).
      pose proof (fun key b => put_object_hold s (snapshot_manifest now w) key b) as Hput.
      case_bool_decide; [done|]. destruct (ws _); [|done]. destruct (tar_gz _) as [archive|]; [|done].
      destruct (max_bytes cfg <? _); [done|]. specialize (Hput OV_WORKSPACE_OBJECT_KEY archive).
      destruct (put_object _ _ _ _) as [w2 [|]]; cbn [fst] in *; congruence. }
    destruct (workspace_save _ _ _ _ _) as [[w2 fp] r]. done. }
  assert (Hth : forall s q, let q' := tick_home cfg now s q in
    engine_hold q'.2 = engine_hold q.2 /\ ws_restore q'.2 = ws_restore q.2 /\ hold_file q'.1 = hold_file q.1).
  { intros s [w t]. unfold tick_home. destruct (saves _); [|done]. destruct (ensure_session _ _); [|done].
    assert (Hw : hold_file (save_once cfg now s w (last_saved_hash t)).1.1 = hold_file w).
    { unfold save_once. destruct (bridge_export _ _) as [export|]; [|done].
      destruct (max_bytes cfg <? _); [done|]. case_bool_decide; [done|].
      destruct (envelope_to_vec _) as [plain|]; [|done].
      pose proof (put_object_hold s w (object_key cfg) plain) as Hput.
      by destruct (put_object _ _ _ _) as [w2 [|]]. }
    destruct (save_once _ _ _ _ _) as [[w2 fp] r]. done. }
  cbv zeta. destruct (Htw sw p) as (E1 & R1 & F1).
  destruct (Hth sh (tick_workspace cfg now sw p)) as (E2 & R2 & F2). by rewrite E2, E1, R2, R1, F2, F1.
Qed.

Lemma apply_hold t0 p op :
  is_boot op = false -> hold_consistent t0 p ->
  hold_consistent t0 (apply cfg p op) /\
  (engine_hold p.2 = None \/ (exists now, time_of op = Some now /\ t0 + engine_hold_max cfg <= now) ->
   engine_hold (apply cfg p op).2 = None).
Proof.
  intros Hb Hp. destruct op as [|now a|now a sw sh|n]; [done| | |]; cbn [apply time_of].
  - destruct (pass_hold t0 now a p Hp) as [Hc Hn]. split; [done|]. intros Hd. apply Hn.
    naive_solver.
  - unfold tick. set (q := if _ || _ then _ else _).
    assert (Hq : hold_consistent t0 q /\
      (engine_hold p.2 = None \/ t0 + engine_hold_max cfg <= now -> engine_hold q.2 = None)).
    { unfold q. destruct (_ || _) eqn:Er; [by apply pass_hold|]. split; [done|]. intros _.
      apply orb_false_iff in Er as [_ Er]. unfold hold_consistent in Hp.
      destruct (engine_hold p.2); [|done]. destruct Hp. congruence. }
    destruct Hq as [Hc Hn]. destruct (tick_saves_hold now sw sh q) as (E & R & F). unfold hold_consistent.
    rewrite E, R, F. split; [exact Hc|]. intros Hd. apply Hn. naive_solver.
  - split; [exact Hp|]. by intros [|(? & ? & _)].
Qed.

Lemma boot_hold t0 w :
  workspace cfg = true -> hold_consistent t0 (boot cfg t0 true w).
Proof.
  intros Hw. unfold boot, hold_engine, hold_consistent. rewrite Hw. cbn [negb].
  by destruct (_ || _).
Qed.

Lemma run_hold t0 w ops :
  workspace cfg = true -> forallb (fun op => negb (is_boot op)) ops = true ->
  let p := fold_left (apply cfg) ops (boot cfg t0 true w) in
  hold_consistent t0 p /\
  ((exists op now, op ∈ ops /\ time_of op = Some now /\ t0 + engine_hold_max cfg <= now) ->
   engine_hold p.2 = None).
Proof.
  intros Hw. induction ops as [|op ops IH] using rev_ind; cbv zeta.
  - intros _. split; [by apply boot_hold|]. intros (op & now & Hin & _). by apply elem_of_nil in Hin.
  - rewrite forallb_app. cbn [forallb]. rewrite andb_true_r. intros [Hb Hop]%andb_true_iff.
    apply negb_true_iff in Hop. destruct (IH Hb) as [Hc Hn]. rewrite fold_left_app. cbn [fold_left].
    destruct (apply_hold t0 _ op Hop Hc) as [Hc' Hn']. split; [done|].
    intros (o & now & [Hin| ->%list_elem_of_singleton]%elem_of_app & Ht & Hle); apply Hn'.
    + left. apply Hn. by exists o, now.
    + right. by exists now.
Qed.
End HoldFacts.

(** ** Properties *)

Section CheckpointProperties.
Context `{SerdeJson, Base64, Crypto, CheckpointIo}.
Variable cfg : CheckpointConfig.

(** C24: nothing is saved over a stored checkpoint before its restore is over.  Take any
    run of processes that start and die at any point, whatever the session service, the
    broker, the worker, the bridge, the disk and the engine answer, and in it a process
    and what it did since its start.  If the stored home differs from what the process
    found, then a pass of the process had found, with the object still as it was, that
    nothing was stored, or the bridge had taken exactly what was stored, or it was
    refused for good.  If the stored engine workspace differs, then a pass of the process
    had found nothing stored, or had unpacked exactly what was stored into an empty
    workspace, or it was refused for good, or the sandbox carried the marker of a
    concluded restore, perhaps of an earlier process; and the marker is only set after
    such a pass of the run.  In particular no transport error, server error, throttle,
    missing session or engine that started first lets a save through. *)
Theorem restore_before_save (w0 : World) (past : list Op) (now : Z) (written : bool) (proc : list Op)
    (Hkey : object_key cfg <> OV_WORKSPACE_OBJECT_KEY) (Hws : workspace cfg = true)
    (Hone : forallb (fun op => negb (is_boot op)) proc = true) :
  let start := (run cfg w0 past).1 in
  let ops := OBoot now written :: proc in
  let w := (run cfg w0 (past ++ ops)).1 in
  (store w !! object_key cfg <> store start !! object_key cfg ->
     settled_in cfg (HomeSettled cfg) (object_key cfg) start ops) /\
  (store w !! OV_WORKSPACE_OBJECT_KEY <> store start !! OV_WORKSPACE_OBJECT_KEY ->
     settled_in cfg (WorkspaceSettled cfg) OV_WORKSPACE_OBJECT_KEY start ops) /\
  (marker w <> marker w0 -> settled_in cfg (WorkspaceSettled cfg) OV_WORKSPACE_OBJECT_KEY w0 (past ++ ops)).
Proof.
  cbv zeta. set (start := (run cfg w0 past).1). set (ops := OBoot now written :: proc).
  assert (E : run cfg w0 (past ++ ops) = run cfg start ops) by (unfold run; by rewrite fold_left_app).
  pose proof (home_guarded cfg start ops Hkey) as Hh. pose proof (workspace_guarded cfg start ops Hkey Hws) as Hw.
  pose proof (workspace_guarded cfg w0 (past ++ ops) Hkey Hws) as Hm. split_and!.
  - intros Hne. rewrite E in Hne. destruct Hh as [|[Hs _]]; [done|]. by destruct Hne.
  - intros Hne. rewrite E in Hne. destruct Hw as [|(Hs & _)]; [done|]. by destruct Hne.
  - intros Hne. destruct Hm as [|(_ & _ & Hm)]; [done|]. by destruct Hne.
Qed.

(** The engine is let go.  From a boot that put the hold up, the hold is taken down
    by the first pass or tick at or past its bound, whatever was answered, and as soon
    as the workspace restore is concluded or held; then the hold file is gone and
    stays gone until the next boot.  While the engine waits, a tick comes at least
    every thirty seconds. *)
Theorem engine_released (w : World) (t0 : Z) (ops : list Op)
    (Hws : workspace cfg = true) (Hboot : forallb (fun op => negb (is_boot op)) ops = true) :
  let p := fold_left (apply cfg) ops (boot cfg t0 true w) in
  (engine_hold p.2 <> None -> forall first, next_tick_delay true first (interval cfg) <= 30) /\
  ((exists op now, op ∈ ops /\ time_of op = Some now /\ t0 + engine_hold_max cfg <= now) \/
   retries (ws_restore p.2) = false ->
   engine_hold p.2 = None /\ hold_file p.1 = false).
Proof.
  cbv zeta. destruct (run_hold cfg t0 w ops Hws Hboot) as [Hc Hn]. split.
  - intros _ first. unfold next_tick_delay, ENGINE_HOLD_RETRY_SECS. lia.
  - unfold hold_consistent in Hc. intros [Hop|Hr].
    + specialize (Hn Hop). rewrite Hn in *. by split.
    + destruct (engine_hold _); [|by split]. destruct Hc. congruence.
Qed.
End CheckpointProperties.

(** ** A box to evaluate on *)

Module ToyCheckpoint.
Definition json : SerdeJson := {| json_from_slice _ := Ok (JObject []); json_to_vec _ := [] |}.

Definition io : CheckpointIo := {|
  envelope_to_vec _ := Ok [Byte.x01];
  envelope_from_slice b :=
    if bool_decide (b = as_bytes "E")
    then Ok {| ce_version := 1; ce_saved_at := 9; ce_runtime := None; ce_snapshot := JObject [] |}
    else Err "syntax";
  b64_error _ := "";
  tar_gz _ := Ok [Byte.x02];
  untar_gz _ := Ok (Directory [("index", File [] 3)]);
  status_text _ := "";
|}.

Definition config : CheckpointConfig :=
  {| interval := 900; max_bytes := 1024; object_key := CHECKPOINT_OBJECT_KEY; workspace := true;
     workspace_path := "/opt/ov/workspace"; engine_hold_max := 1800 |}.

Definition world : World :=
  {| store := {[CHECKPOINT_OBJECT_KEY := SimpleBase64.encode (as_bytes "E");
                OV_WORKSPACE_OBJECT_KEY := SimpleBase64.encode (as_bytes "W")]};
     ws := None; manifest := None; marker := false; hold_file := false |}.

Definition answers (home : option BackendError) : Answers :=
  {| a_resolve := Ok "jwt"; a_mint_home := None; a_get_home := home;
     a_import _ := Ok (200, JObject []); a_gets := [(None, Some (Http 502 "")); (None, None)];
     a_fill := None; a_fill_late := None; a_mkdir := None; a_rename := None; a_manifest_copied := true;
     a_marker_written := true |}.

Definition save_answers : SaveAnswers :=
  {| s_resolve := Ok "jwt"; s_export := Ok (200, Ok []); s_mint := None; s_put := PutOk |}.

(** The worker is down for the home while the first process lives, and back for the next. *)
Definition past : list Op := [OBoot 0 true; OPass 5 (answers (Some (Transport "down")))].
Definition proc : list Op := [OTick 125 (answers None) save_answers save_answers].
End ToyCheckpoint.

#[local] Existing Instances ToyCheckpoint.json ToyCheckpoint.io SimpleBase64.codec ToyCrypto.crypto.

Example restore_before_save_witness :
  let start := (run ToyCheckpoint.config ToyCheckpoint.world ToyCheckpoint.past).1 in
  store start = store ToyCheckpoint.world /\ marker start = true /\
  settled_in ToyCheckpoint.config (HomeSettled ToyCheckpoint.config) CHECKPOINT_OBJECT_KEY
    start (OBoot 100 true :: ToyCheckpoint.proc).
Proof.
  cbv zeta. split; [vm_compute; reflexivity|]. split; [vm_compute; reflexivity|].
  assert (Hkey : object_key ToyCheckpoint.config <> OV_WORKSPACE_OBJECT_KEY) by (vm_compute; discriminate).
  apply (restore_before_save ToyCheckpoint.config ToyCheckpoint.world ToyCheckpoint.past 100 true ToyCheckpoint.proc
    Hkey eq_refl eq_refl).
  vm_compute. discriminate.
Defined.

Example engine_released_witness :
  let p := fold_left (apply ToyCheckpoint.config)
             [OPass 5 (ToyCheckpoint.answers None)] (boot ToyCheckpoint.config 0 true ToyCheckpoint.world) in
  hold_file (boot ToyCheckpoint.config 0 true ToyCheckpoint.world).1 = true /\ hold_file p.1 = false.
Proof.
  cbv zeta. split; [vm_compute; reflexivity|].
  apply (engine_released ToyCheckpoint.config ToyCheckpoint.world 0 [OPass 5 (ToyCheckpoint.answers None)]
    eq_refl eq_refl).
  right. vm_compute. reflexivity.
Defined.
