(* ===== verification/Merkle.v ===== *)
(** * The audit worker's Merkle tree

    [crates/agentkeys-worker-audit/src/merkle.rs], with the verifier it is made
    for, [verifyEntryInRoot] of [crates/agentkeys-chain/src/CredentialAudit.sol].
    The loops that halve a level carry the level's length as fuel; the lemmas show
    that it is enough. *)
From S2P Require Import Prelude RustStr DeviceCore.

Open Scope nat_scope.

Definition zero32 : bytes := repeat Byte.x00 32.

(** The order of byte arrays. *)
Fixpoint bytes_leb (a b : bytes) : bool :=
  match a, b with
  | [], _ => true
  | _ :: _, [] => false
  | x :: a, y :: b =>
      if (byte_val x <? byte_val y)%Z then true
      else if (byte_val x =? byte_val y)%Z then bytes_leb a b else false
  end.

Definition INTERNAL_NODE_PREFIX : Byte.byte := Byte.x01.
Definition LEAF_PREFIX : Byte.byte := Byte.x00.

Section Merkle.
Context `{Crypto}.

(** What [hash_pair] feeds the hasher. *)
Definition pair_preimage (a b : bytes) : bytes :=
  let (lo, hi) := if bytes_leb a b then (a, b) else (b, a) in
  (INTERNAL_NODE_PREFIX :: lo ++ hi)%list.

Definition hash_pair (a b : bytes) : bytes := keccak256 (pair_preimage a b).

Definition leaf_prefix (raw_leaf : bytes) : bytes := keccak256 (LEAF_PREFIX :: raw_leaf).

(** One pass of the inner loop: neighbours are paired, an odd last node with
    itself. *)
Fixpoint next_level (level : list bytes) : list bytes :=
  match level with
  | [] => []
  | [a] => [hash_pair a a]
  | a :: b :: rest => hash_pair a b :: next_level rest
  end.

Fixpoint root_loop (fuel : nat) (level : list bytes) : list bytes :=
  match fuel with
  | O => level
  | S fuel => if (1 <? length level)%nat then root_loop fuel (next_level level) else level
  end.

Definition merkle_root (raw_leaves : list bytes) : bytes :=
  match raw_leaves with
  | [] => zero32
  | _ => hd zero32 (root_loop (length raw_leaves) (map leaf_prefix raw_leaves))
  end.

Definition sibling (idx : nat) (level : list bytes) : bytes :=
  if Nat.even idx then
    if (idx + 1 <? length level)%nat then nth (idx + 1) level zero32 else nth idx level zero32
  else nth (idx - 1) level zero32.

Fixpoint proof_loop (fuel idx : nat) (level : list bytes) : list bytes :=
  match fuel with
  | O => []
  | S fuel =>
      if (1 <? length level)%nat
      then sibling idx level :: proof_loop fuel (idx / 2) (next_level level)
      else []
  end.

Definition merkle_proof (raw_leaves : list bytes) (index : nat) : list bytes :=
  if is_nil raw_leaves || (length raw_leaves <=? index)%nat then []
  else proof_loop (length raw_leaves) index (map leaf_prefix raw_leaves).

(** ** The contract *)

Definition contract_step (computed sib : bytes) : bytes :=
  if bytes_leb computed sib && negb (bool_decide (computed = sib))
  then keccak256 (Byte.x01 :: computed ++ sib)%list
  else keccak256 (Byte.x01 :: sib ++ computed)%list.

Definition contract_fold (leaf : bytes) (proof : list bytes) : bytes :=
  fold_left contract_step proof (keccak256 (Byte.x00 :: leaf)).

(** [roots] are those the operator committed. *)
Definition verifyEntryInRoot (roots : list bytes) (rootIndex : nat) (proof : list bytes)
    (leaf : bytes) : bool :=
  match roots !! rootIndex with
  | None => false
  | Some root => bool_decide (contract_fold leaf proof = root)
  end.

(** ** The strings the two sides hash *)

Fixpoint next_inputs (level : list bytes) : list bytes :=
  match level with
  | [] => []
  | [a] => [pair_preimage a a]
  | a :: b :: rest => pair_preimage a b :: next_inputs rest
  end.

Fixpoint loop_inputs (fuel : nat) (level : list bytes) : list bytes :=
  match fuel with
  | O => []
  | S fuel =>
      if (1 <? length level)%nat
      then (next_inputs level ++ loop_inputs fuel (next_level level))%list else []
  end.

Definition root_inputs (raw_leaves : list bytes) : list bytes :=
  (map (cons LEAF_PREFIX) raw_leaves
   ++ loop_inputs (length raw_leaves) (map leaf_prefix raw_leaves))%list.

Fixpoint step_inputs (computed : bytes) (proof : list bytes) : list bytes :=
  match proof with
  | [] => []
  | sib :: proof => pair_preimage computed sib :: step_inputs (hash_pair computed sib) proof
  end.

Definition verify_inputs (leaf : bytes) (proof : list bytes) : list bytes :=
  (LEAF_PREFIX :: leaf) :: step_inputs (leaf_prefix leaf) proof.
End Merkle.

(** ** Lemmas *)

Lemma byte_val_inj x y : byte_val x = byte_val y -> x = y.
Proof. intros Hv. rewrite <-(byte_of_Z_val x), Hv. apply byte_of_Z_val. Qed.

Lemma bytes_leb_total a b : bytes_leb a b = false -> bytes_leb b a = true.
Proof.
  revert b. induction a as [|x a IH]; intros [|y b]; cbn; try done.
  intros Hf. repeat case_match; reflect_bools; try done; try lia. by apply IH.
Qed.

Lemma bytes_leb_antisym a b : bytes_leb a b = true -> bytes_leb b a = true -> a = b.
Proof.
  revert b. induction a as [|x a IH]; intros [|y b]; cbn; try done.
  intros H1 H2. repeat case_match; reflect_bools; try done; try lia.
  f_equal; [by apply byte_val_inj | by apply IH].
Qed.

Section MerkleFacts.
Context `{Crypto}.

Lemma pair_preimage_comm a b : pair_preimage a b = pair_preimage b a.
Proof.
  unfold pair_preimage. destruct (bytes_leb a b) eqn:Ea, (bytes_leb b a) eqn:Eb; try done.
  - by rewrite (bytes_leb_antisym a b Ea Eb).
  - apply bytes_leb_total in Ea. congruence.
Qed.

Lemma hash_pair_comm a b : hash_pair a b = hash_pair b a.
Proof. unfold hash_pair. by rewrite pair_preimage_comm. Qed.

Lemma contract_step_pair a b : contract_step a b = hash_pair a b.
Proof.
  unfold contract_step, hash_pair, pair_preimage, INTERNAL_NODE_PREFIX.
  destruct (bytes_leb a b) eqn:E; cbn [andb]; [|done].
  case_bool_decide; cbn [negb]; [by subst | done].
Qed.

(** The preimages of two pairs are equal only for the same two nodes. *)
Lemma pair_preimage_inj a b c d :
  length a = 32 -> length b = 32 -> length c = 32 -> length d = 32 ->
  pair_preimage a b = pair_preimage c d -> (a = c /\ b = d) \/ (a = d /\ b = c).
Proof.
  intros Ha Hb Hc Hd. unfold pair_preimage.
  destruct (bytes_leb a b), (bytes_leb c d); intros [= E]; apply app_inj_1 in E as [-> ->];
    try congruence; auto.
Qed.

Lemma hash_length a b : length (hash_pair a b) = 32.
Proof. apply keccak256_length. Qed.

(** Induction two elements at a time. *)
Lemma pair_ind {A} (P : list A -> Prop) :
  P [] -> (forall x, P [x]) -> (forall x y l, P l -> P (x :: y :: l)) -> forall l, P l.
Proof.
  intros H0 H1 H2 l. assert (Hl : P l /\ forall x, P (x :: l)); [|by destruct Hl].
  induction l as [|y l [IHl IHc]]; split; auto.
Qed.

Lemma next_level_inputs l : next_level l = map keccak256 (next_inputs l).
Proof. induction l as [|x|x y l IH] using pair_ind; cbn; [done..|]. by rewrite IH. Qed.

Lemma next_level_length l : length (next_level l) = (length l + 1) / 2.
Proof.
  induction l as [|x|x y l IH] using pair_ind; [done..|]. cbn [next_level length].
  rewrite IH. replace (S (S (length l)) + 1) with (length l + 1 + 1 * 2) by lia.
  rewrite Nat.div_add by lia. lia.
Qed.

Lemma next_level_shorter l : 1 < length l -> length (next_level l) < length l.
Proof.
  intros Hl. rewrite next_level_length. apply Nat.Div0.div_lt_upper_bound. lia.
Qed.

Lemma next_level_nonempty l : l <> [] -> next_level l <> [].
Proof. by destruct l as [|x [|y l]]. Qed.

(** The fuel is enough: the loop ends with a single node. *)
Lemma root_loop_single fuel l :
  l <> [] -> length l <= fuel -> exists root, root_loop fuel l = [root].
Proof.
  revert l. induction fuel as [|fuel IH]; intros l Hne Hl.
  - destruct l; cbn in *; [done | lia].
  - cbn [root_loop]. destruct (1 <? length l) eqn:E; reflect_bools.
    + apply IH; [by apply next_level_nonempty|]. pose proof (next_level_shorter l E). lia.
    + destruct l as [|x [|y l]]; cbn in *; [done | by exists x | lia].
Qed.

Lemma next_level_lookup l i x :
  l !! i = Some x -> next_level l !! (i / 2) = Some (hash_pair x (sibling i l)).
Proof.
  revert i. induction l as [|y|y z l IH] using pair_ind; intros i Hi; [done| |].
  - by destruct i as [|i]; [injection Hi as ->|].
  - destruct i as [|[|i]].
    + injection Hi as ->. done.
    + injection Hi as ->. cbn. by rewrite hash_pair_comm.
    + change (l !! i = Some x) in Hi. specialize (IH i Hi).
      replace (S (S i) / 2) with (S (i / 2)).
      2: { replace (S (S i)) with (i + 1 * 2) by lia. rewrite Nat.div_add by lia. lia. }
      change (next_level l !! (i / 2) = Some (hash_pair x (sibling (S (S i)) (y :: z :: l)))).
      rewrite IH. do 2 f_equal. unfold sibling.
      change (Nat.even (S (S i))) with (Nat.even i).
      destruct (Nat.even i) eqn:Ee.
      * cbn [length]. replace (S (S i) + 1 <? S (S (length l))) with (i + 1 <? length l).
        2: { destruct (i + 1 <? length l) eqn:El; symmetry; reflect_bools;
             [apply Nat.ltb_lt | apply Nat.ltb_ge]; lia. }
        by replace (S (S i) + 1) with (S (S (i + 1))) by lia.
      * destruct i as [|i]; [done|]. by replace (S (S (S i)) - 1) with (S (S (S i - 1))) by lia.
Qed.

(** A proof walks from a node to the root. *)
Lemma proof_loop_reaches fuel l i x :
  l !! i = Some x -> length l <= fuel ->
  [fold_left hash_pair (proof_loop fuel i l) x] = root_loop fuel l.
Proof.
  revert l i x. induction fuel as [|fuel IH]; intros l i x Hi Hl.
  - apply lookup_lt_Some in Hi. lia.
  - cbn [root_loop proof_loop]. destruct (1 <? length l) eqn:E; reflect_bools.
    + cbn [fold_left]. apply IH; [by apply next_level_lookup|]. pose proof (next_level_shorter l E). lia.
    + apply lookup_lt_Some in Hi as Hlt. destruct l as [|y [|z l]]; cbn in *; [done| |lia].
      by destruct i; [injection Hi as ->|].
Qed.

Lemma contract_fold_pairs leaf proof :
  contract_fold leaf proof = fold_left hash_pair proof (leaf_prefix leaf).
Proof.
  unfold contract_fold. change (keccak256 (Byte.x00 :: leaf)) with (leaf_prefix leaf).
  generalize (leaf_prefix leaf). induction proof as [|s p IH]; intros c; cbn; [done|].
  by rewrite contract_step_pair, IH.
Qed.

(** ** Soundness *)

(** The levels of the tree. *)
Fixpoint levels (n : nat) (l : list bytes) : list bytes :=
  match n with O => l | S n => next_level (levels n l) end.

Lemma root_loop_level fuel l : exists n, root_loop fuel l = levels n l /\
  forall k x, k < n -> x ∈ next_inputs (levels k l) -> x ∈ loop_inputs fuel l.
Proof.
  revert l. induction fuel as [|fuel IH]; intros l; [exists 0; split; [done | lia]|].
  cbn [root_loop loop_inputs]. destruct (1 <? length l) eqn:E; [|exists 0; split; [done | lia]].
  destruct (IH (next_level l)) as (n & Hn & Hin).
  assert (Hs : forall k, levels k (next_level l) = levels (S k) l).
  { intros k. induction k as [|k IHk]; [done|]. cbn. by rewrite IHk. }
  exists (S n). split; [by rewrite Hn, Hs|]. intros k x Hk Hx. apply elem_of_app.
  destruct k as [|k]; [by left|]. right. apply (Hin k); [lia|]. by rewrite Hs.
Qed.

Lemma next_inputs_elem l x : x ∈ next_inputs l ->
  exists a b, a ∈ l /\ b ∈ l /\ x = pair_preimage a b.
Proof.
  induction l as [|y|y z l IH] using pair_ind; cbn.
  - by intros ?%elem_of_nil.
  - intros ->%list_elem_of_singleton. exists y, y. set_solver.
  - intros [->|Hx]%elem_of_cons; [exists y, z; set_solver|].
    destruct (IH Hx) as (a & b & Ha & Hb & ->). exists a, b. set_solver.
Qed.

Lemma levels_length n l : Forall (fun x => length x = 32) l ->
  Forall (fun x => length x = 32) (levels n l).
Proof.
  intros Hl. destruct n as [|n]; [done|]. cbn. rewrite next_level_inputs.
  apply Forall_map, Forall_true. intros x. apply keccak256_length.
Qed.

Lemma leaf_levels_length n raw :
  Forall (fun x => length x = 32) (levels n (map leaf_prefix raw)).
Proof.
  apply levels_length. apply Forall_map, Forall_true. intros x. apply keccak256_length.
Qed.

Lemma step_inputs_app c p q :
  step_inputs c (p ++ q) = (step_inputs c p ++ step_inputs (fold_left hash_pair p c) q)%list.
Proof. revert c. induction p as [|s p IH]; intros c; cbn; [done|]. by rewrite IH. Qed.

(** A walk that ends on a node of the tree starts at a leaf of it, unless one of
    its strings and one of the tree's hash alike. *)
Lemma walk_from_leaf raw n leaf proof :
  (forall x y, x ∈ verify_inputs leaf proof ->
     y ∈ map (cons LEAF_PREFIX) raw \/ (exists k, k < n /\ y ∈ next_inputs (levels k (map leaf_prefix raw))) ->
     keccak256 x = keccak256 y -> x = y) ->
  Forall (fun s => length s = 32) proof ->
  fold_left hash_pair proof (leaf_prefix leaf) ∈ levels n (map leaf_prefix raw) ->
  leaf ∈ raw.
Proof.
  revert n. induction proof as [|s proof IH] using rev_ind; intros n Hcoll Hlen Hin.
  - cbn in Hin. unfold verify_inputs in Hcoll. destruct n as [|n]; cbn in Hin.
    + apply list_elem_of_fmap in Hin as (r & He & Hr).
      assert (E : LEAF_PREFIX :: leaf = LEAF_PREFIX :: r); [|by injection E as ->].
      apply Hcoll; [set_solver | left; by apply list_elem_of_fmap_2 | done].
    + rewrite next_level_inputs in Hin. apply list_elem_of_fmap in Hin as (y & He & Hy).
      apply next_inputs_elem in Hy as Hp. destruct Hp as (a & b & _ & _ & Hyab).
      assert (E : LEAF_PREFIX :: leaf = y).
      { apply Hcoll; [set_solver | right; exists n; split; [lia | done] | done]. }
      subst y. unfold pair_preimage in E. by destruct (bytes_leb a b).
  - apply Forall_app in Hlen as [Hlen Hs]. apply Forall_cons in Hs as [Hs _].
    unfold verify_inputs in *. rewrite step_inputs_app in Hcoll. cbn [step_inputs] in Hcoll.
    rewrite fold_left_app in Hin. cbn [fold_left] in Hin.
    set (c := fold_left hash_pair proof (leaf_prefix leaf)) in *.
    assert (Hc : length c = 32).
    { subst c. destruct proof as [|s' p _] using rev_ind; [apply keccak256_length|].
      rewrite fold_left_app. apply hash_length. }
    destruct n as [|n]; cbn [levels] in Hin.
    + apply list_elem_of_fmap in Hin as (r & He & Hr).
      assert (E : pair_preimage c s = LEAF_PREFIX :: r).
      { apply Hcoll; [set_solver | left; by apply list_elem_of_fmap_2 | done]. }
      unfold pair_preimage in E. by destruct (bytes_leb c s).
    + rewrite next_level_inputs in Hin. apply list_elem_of_fmap in Hin as (y & He & Hy).
      apply next_inputs_elem in Hy as Hp. destruct Hp as (a & b & Ha & Hb & Hyab).
      assert (E : pair_preimage c s = y).
      { apply Hcoll; [set_solver | right; exists n; split; [lia | done] | done]. }
      rewrite Hyab in E. pose proof (leaf_levels_length n raw) as Hl. rewrite Forall_forall in Hl.
      apply (IH n); [|done|].
      * intros x y' Hx Hy'. apply Hcoll; [set_solver|].
        destruct Hy' as [Hy'|(k & Hk & Hy')]; [by left|]. right. exists k. split; [lia | done].
      * destruct (pair_preimage_inj c s a b Hc Hs (Hl a Ha) (Hl b Hb) E) as [[-> _]|[-> _]]; done.
Qed.

Lemma merkle_root_level raw : raw <> [] ->
  exists n, levels n (map leaf_prefix raw) = [merkle_root raw] /\
  forall k x, k < n -> x ∈ next_inputs (levels k (map leaf_prefix raw)) -> x ∈ root_inputs raw.
Proof.
  intros Hne. destruct (root_loop_level (length raw) (map leaf_prefix raw)) as (n & Hn & Hin).
  destruct (root_loop_single (length raw) (map leaf_prefix raw)) as [root Hr].
  - by destruct raw.
  - by rewrite length_map.
  - exists n. split.
    + unfold merkle_root. destruct raw; [done|]. by rewrite <-Hn, Hr.
    + intros k x Hk Hx. unfold root_inputs. apply elem_of_app. right. eauto.
Qed.
End MerkleFacts.

(** ** Properties *)

Section MerkleProperties.
Context `{Crypto}.

(** Every proof verifies.  The contract, holding the root the worker computed
  from a batch, accepts each leaf of the batch with the proof the worker made for
  its position; the loops always run to a single root.  Swapping the two leaves
  of a pair, or repeating an odd last leaf, gives the same root: the root
  commits to the leaves, not to their order or number. *)
Theorem merkle_proofs_verify (roots leaves : list bytes) (n i : nat) (leaf : bytes)
  (Hroot : roots !! n = Some (merkle_root leaves)) (Hleaf : leaves !! i = Some leaf) :
verifyEntryInRoot roots n (merkle_proof leaves i) leaf = true /\
(exists root, root_loop (length leaves) (map leaf_prefix leaves) = [root]) /\
(forall a b, merkle_root [a; b] = merkle_root [b; a]) /\
(forall a b c, merkle_root [a; b; c] = merkle_root [a; b; c; c]).
Proof.
assert (Hl : map leaf_prefix leaves !! i = Some (leaf_prefix leaf)).
{ by rewrite list_lookup_fmap, Hleaf. }
apply lookup_lt_Some in Hleaf as Hlt.
pose proof (proof_loop_reaches (length leaves) _ i _ Hl ltac:(by rewrite length_map)) as Hw.
split_and!.
- unfold verifyEntryInRoot. rewrite Hroot. apply bool_decide_eq_true. rewrite contract_fold_pairs.
  unfold merkle_proof. destruct leaves as [|x l]; [done|]. cbn [is_nil orb].
  replace (length (x :: l) <=? i) with false by (symmetry; apply Nat.leb_gt; lia).
  unfold merkle_root. by rewrite <-Hw.
- by eexists.
- intros a b. unfold merkle_root. cbn. by rewrite hash_pair_comm.
- done.
Qed.

(** C22: only leaves verify.  If the contract accepts a leaf with any proof, of any
  length, against the root of a non-empty batch, then the leaf is in the batch,
  provided keccak256 does not collide between the strings the contract hashes in
  this verification and those hashed to build the root.  In particular no inner
  node passes for a leaf. *)
Theorem merkle_proofs_sound (roots leaves proof : list bytes) (n : nat) (leaf : bytes)
  (Hne : leaves <> []) (Hroot : roots !! n = Some (merkle_root leaves))
  (Hlen : Forall (fun s => length s = 32) proof)
  (Hcoll : forall x y, x ∈ verify_inputs leaf proof -> y ∈ root_inputs leaves ->
             keccak256 x = keccak256 y -> x = y)
  (Hok : verifyEntryInRoot roots n proof leaf = true) :
leaf ∈ leaves.
Proof.
unfold verifyEntryInRoot in Hok. rewrite Hroot in Hok. apply bool_decide_eq_true in Hok.
rewrite contract_fold_pairs in Hok.
destruct (merkle_root_level leaves Hne) as (k & Hk & Hin).
apply (walk_from_leaf leaves k leaf proof); [|done|].
- intros x y Hx Hy. apply Hcoll; [done|]. destruct Hy as [Hy | (j & Hj & Hy)].
  + unfold root_inputs. apply elem_of_app. by left.
  + by apply (Hin j).
- rewrite Hk, Hok. by apply list_elem_of_singleton.
Qed.
End MerkleProperties.

(** ** Witnesses: a batch of three under the model's hash *)

#[local] Existing Instance ToyCrypto.crypto.

Definition demo_leaves : list bytes :=
  [repeat Byte.x05 32; repeat Byte.x01 32; repeat Byte.x09 32].

Definition demo_root : bytes := merkle_root demo_leaves.

Example merkle_proofs_verify_witness :
  length (merkle_proof demo_leaves 2) = 2 /\
  verifyEntryInRoot [demo_root] 0 (merkle_proof demo_leaves 2) (repeat Byte.x09 32) = true.
Proof.
  split; [vm_compute; reflexivity|].
  apply (merkle_proofs_verify [demo_root] demo_leaves 0 2 (repeat Byte.x09 32)); reflexivity.
Defined.

(** Any two of the strings that hash alike are equal. *)
Definition no_collision (xs ys : list bytes) : bool :=
  forallb (fun x => forallb (fun y =>
    negb (bool_decide (keccak256 x = keccak256 y)) || bool_decide (x = y)) ys) xs.

Lemma no_collision_spec xs ys : no_collision xs ys = true ->
  forall x y, x ∈ xs -> y ∈ ys -> keccak256 x = keccak256 y -> x = y.
Proof.
  unfold no_collision. rewrite forallb_elem. intros Hall x y Hx Hy Hk.
  specialize (Hall x Hx). rewrite forallb_elem in Hall. specialize (Hall y Hy).
  rewrite (bool_decide_eq_true_2 _ Hk) in Hall. by apply bool_decide_eq_true in Hall.
Qed.

Example merkle_proofs_sound_witness :
  repeat Byte.x09 32 ∈ demo_leaves.
Proof.
  apply (merkle_proofs_sound [demo_root] demo_leaves (merkle_proof demo_leaves 2) 0 (repeat Byte.x09 32)).
  - discriminate.
  - reflexivity.
  - vm_compute. repeat constructor.
  - apply no_collision_spec. vm_compute. reflexivity.
  - vm_compute. reflexivity.
Defined.
