(* ===== verification/AuditWorker.v ===== *)
(** * The audit worker's queues and Merkle batches

    [crates/agentkeys-worker-audit/src/state.rs]: one queue for each operator and
    format, drained by a flush into a Merkle batch.  A leaves file holds one JSON
    object for each leaf; it is modelled as the list of those objects. *)
From S2P Require Import Prelude RustStr StrFacts Capability DeviceCore.
From S2P Require Import Merkle.

Record AuditEvent := {
  ev_actor_omni : string;
  service_hash : string;
  op_type : Z;
  payload_hash : string;
  timestamp : Z;
}.

Record V2QueueEntry := {
  envelope_hash : string;
  op_kind : Z;
  actor_omni : string;
  ts_unix : Z;
}.

Record FlushResult := {
  fr_operator_omni : string;
  fr_merkle_root_hex : string;
  fr_entry_count : Z;
  fr_leaves_path : string;
  fr_events : list AuditEvent;
}.

Record FlushV2Result := {
  operator_omni : string;
  merkle_root_hex : string;
  op_kind_bitmap_hex : string;
  entry_count : Z;
  leaves_path : string;
  entries : list V2QueueEntry;
}.

(** A line of a leaves file, with the queued object it is about. *)
Record LeafLine (E : Type) := { leaf_index : nat; leaf : string; proof : list string; entry : E }.
Arguments leaf_index {E}. Arguments leaf {E}. Arguments proof {E}. Arguments entry {E}.

Record State := {
  queues : gmap string (list AuditEvent);
  leaves_dir : string;
  envelopes : gmap string bytes;
  v2_queues : gmap string (list V2QueueEntry);
}.

(** The files written so far. *)
Record Disk := {
  v1_files : gmap string (list (LeafLine AuditEvent));
  v2_files : gmap string (list (LeafLine V2QueueEntry));
}.

(** A write succeeds, or fails with an error and leaves something at the path. *)
Inductive WriteOutcome (E : Type) :=
| Written
| WriteFailed (err : string) (residue : option (list (LeafLine E))).
Arguments Written {E}. Arguments WriteFailed {E}.

Definition fs_write {E} (o : WriteOutcome E) (path : string) (content : list (LeafLine E))
    (files : gmap string (list (LeafLine E)))
    : gmap string (list (LeafLine E)) * result string unit :=
  match o with
  | Written => (<[path := content]> files, Ok tt)
  | WriteFailed err residue => (partial_alter (fun _ => residue) path files, Err err)
  end.

(** ** The op-kind bitmap *)

Definition set_bit (bitmap : bytes) (k : Z) : bytes :=
  alter (fun b => byte_of_Z (Z.lor (byte_val b) (Z.shiftl 1 (k mod 8))))
    (31 - Z.to_nat (k / 8)) bitmap.

Definition bitmap_of (op_kinds : list Z) : bytes := fold_left set_bit op_kinds zero32.

Section Worker.
Context `{HexCodec, Crypto}.

Definition op_kind_bitmap (op_kinds : list Z) : string := "0x" +:+ hex_encode (bitmap_of op_kinds).

Definition decode32 (s : string) : bytes :=
  let v := default [] (hex_decode (trim_start_0x s)) in
  let n := Nat.min (length v) 32 in
  (take n v ++ drop n zero32)%list.

Definition event_leaf (e : AuditEvent) : bytes :=
  keccak256 (decode32 (ev_actor_omni e) ++ decode32 (service_hash e)
             ++ (zeros 31 ++ [byte_of_Z (op_type e)]) ++ decode32 (payload_hash e)
             ++ (zeros 24 ++ be_bytes 8 (timestamp e)))%list.

(** ** Storing and queueing *)

Definition store_envelope (s : State) (hash : string) (cbor : bytes) : State :=
  {| queues := queues s; leaves_dir := leaves_dir s;
     envelopes := <[hash := cbor]> (envelopes s); v2_queues := v2_queues s |}.

Definition get_envelope (s : State) (hash : string) : option bytes := envelopes s !! hash.

Definition pending_v2 (s : State) (omni : string) : list V2QueueEntry := default [] (v2_queues s !! omni).
Definition pending (s : State) (omni : string) : list AuditEvent := default [] (queues s !! omni).

Definition queue_v2 (s : State) (omni : string) (e : V2QueueEntry) : State * nat :=
  let v := (pending_v2 s omni ++ [e])%list in
  ({| queues := queues s; leaves_dir := leaves_dir s; envelopes := envelopes s;
      v2_queues := <[omni := v]> (v2_queues s) |}, length v).

(** [now] is the clock in seconds. *)
Definition append (s : State) (now : Z) (omni : string) (e : AuditEvent) : State * nat :=
  let e := if (timestamp e =? 0)%Z
           then {| ev_actor_omni := ev_actor_omni e; service_hash := service_hash e;
                   op_type := op_type e; payload_hash := payload_hash e; timestamp := now |}
           else e in
  let v := (pending s omni ++ [e])%list in
  ({| queues := <[omni := v]> (queues s); leaves_dir := leaves_dir s; envelopes := envelopes s;
      v2_queues := v2_queues s |}, length v).

(** ** Flushing *)

(** The lines of a batch: [leaf_text] is how a leaf is written. *)
Definition leaf_lines {E} (leaf_text : nat -> E -> string) (leaves : list bytes) (es : list E)
    : list (LeafLine E) :=
  imap (fun i e => {| leaf_index := i; leaf := leaf_text i e;
                      proof := map (fun p => "0x" +:+ hex_encode p) (merkle_proof leaves i);
                      entry := e |}) es.

Definition flush_v2 (o : WriteOutcome V2QueueEntry) (s : State) (d : Disk) (omni : string)
    : State * Disk * result string (option FlushV2Result) :=
  let es := pending_v2 s omni in
  let s := {| queues := queues s; leaves_dir := leaves_dir s; envelopes := envelopes s;
              v2_queues := delete omni (v2_queues s) |} in
  if is_nil es then (s, d, Ok None) else
  let leaves := map (fun e => decode32 (envelope_hash e)) es in
  let root_hex := "0x" +:+ hex_encode (merkle_root leaves) in
  let bitmap_hex := op_kind_bitmap (map op_kind es) in
  let path := leaves_dir s +:+ "/audit-v2-leaves-" +:+ hex_encode (merkle_root leaves) +:+ ".jsonl" in
  let (files, written) := fs_write o path (leaf_lines (fun _ e => envelope_hash e) leaves es) (v2_files d) in
  let d := {| v1_files := v1_files d; v2_files := files |} in
  match written with
  | Err e => (s, d, Err e)
  | Ok _ => (s, d, Ok (Some {| operator_omni := omni; merkle_root_hex := root_hex;
                               op_kind_bitmap_hex := bitmap_hex;
                               entry_count := Z.of_nat (length es); leaves_path := path;
                               entries := es |}))
  end.

Definition flush (o : WriteOutcome AuditEvent) (s : State) (d : Disk) (omni : string)
    : State * Disk * result string (option FlushResult) :=
  let es := pending s omni in
  let s := {| queues := delete omni (queues s); leaves_dir := leaves_dir s; envelopes := envelopes s;
              v2_queues := v2_queues s |} in
  if is_nil es then (s, d, Ok None) else
  let leaves := map event_leaf es in
  let root_hex := "0x" +:+ hex_encode (merkle_root leaves) in
  let path := leaves_dir s +:+ "/audit-leaves-" +:+ hex_encode (merkle_root leaves) +:+ ".jsonl" in
  let (files, written) :=
    fs_write o path (leaf_lines (fun i _ => "0x" +:+ hex_encode (nth i leaves zero32)) leaves es) (v1_files d) in
  let d := {| v1_files := files; v2_files := v2_files d |} in
  match written with
  | Err e => (s, d, Err e)
  | Ok _ => (s, d, Ok (Some {| fr_operator_omni := omni; fr_merkle_root_hex := root_hex;
                               fr_entry_count := Z.of_nat (length es); fr_leaves_path := path;
                               fr_events := es |}))
  end.

(** The operators are taken in the map's order, with one outcome for each. *)
Fixpoint flush_v2_each (s : State) (d : Disk) (omnis : list (string * WriteOutcome V2QueueEntry))
    : State * Disk * result string (list FlushV2Result) :=
  match omnis with
  | [] => (s, d, Ok [])
  | (omni, o) :: rest =>
      match flush_v2 o s d omni with
      | (s, d, Err e) => (s, d, Err e)
      | (s, d, Ok r) =>
          match flush_v2_each s d rest with
          | (s, d, Err e) => (s, d, Err e)
          | (s, d, Ok out) => (s, d, Ok (match r with Some r => r :: out | None => out end))
          end
      end
  end.

Definition flush_v2_all (outcomes : string -> WriteOutcome V2QueueEntry) (s : State) (d : Disk)
    : State * Disk * result string (list FlushV2Result) :=
  flush_v2_each s d (map (fun p => (p.1, outcomes p.1)) (map_to_list (v2_queues s))).

Fixpoint flush_each (s : State) (d : Disk) (omnis : list (string * WriteOutcome AuditEvent))
    : State * Disk * result string (list FlushResult) :=
  match omnis with
  | [] => (s, d, Ok [])
  | (omni, o) :: rest =>
      match flush o s d omni with
      | (s, d, Err e) => (s, d, Err e)
      | (s, d, Ok r) =>
          match flush_each s d rest with
          | (s, d, Err e) => (s, d, Err e)
          | (s, d, Ok out) => (s, d, Ok (match r with Some r => r :: out | None => out end))
          end
      end
  end.

Definition flush_all (outcomes : string -> WriteOutcome AuditEvent) (s : State) (d : Disk)
    : State * Disk * result string (list FlushResult) :=
  flush_each s d (map (fun p => (p.1, outcomes p.1)) (map_to_list (queues s))).
End Worker.

(** ** Runs *)

Inductive Op :=
| OQueue (omni : string) (e : V2QueueEntry)
| OFlush (omni : string) (o : WriteOutcome V2QueueEntry).

(** The state, the files, and the results published so far. *)
Definition World : Type := State * Disk * list FlushV2Result.

Definition new (dir : string) : World :=
  ({| queues := ∅; leaves_dir := dir; envelopes := ∅; v2_queues := ∅ |},
   {| v1_files := ∅; v2_files := ∅ |}, []).

Section Runs.
Context `{HexCodec, Crypto}.

Definition apply_op (w : World) (op : Op) : World :=
  let '(s, d, out) := w in
  match op with
  | OQueue omni e => ((queue_v2 s omni e).1, d, out)
  | OFlush omni o =>
      match flush_v2 o s d omni with
      | (s, d, Ok (Some r)) => (s, d, (out ++ [r])%list)
      | (s, d, _) => (s, d, out)
      end
  end.

Definition run (dir : string) (ops : list Op) : World := fold_left apply_op ops (new dir).
End Runs.

Definition queued (omni : string) (ops : list Op) : list V2QueueEntry :=
  flat_map (fun op => match op with
                      | OQueue o e => if String.eqb o omni then [e] else []
                      | OFlush _ _ => []
                      end) ops.

Definition write_ok (op : Op) : bool :=
  match op with OFlush _ (WriteFailed _ _) => false | _ => true end.

Definition published (omni : string) (out : list FlushV2Result) : list V2QueueEntry :=
  flat_map (fun r => if String.eqb (operator_omni r) omni then entries r else []) out.

(** ** Lemmas *)

(** *** Bits of big-endian bytes *)

Lemma byte_shift_testbit v x k :
  (0 <= k)%Z ->
  Z.testbit (v * 256 + byte_val x) k =
  if (k <? 8)%Z then Z.testbit (byte_val x) k else Z.testbit v (k - 8).
Proof.
  intros Hk. pose proof (byte_val_range x) as Hx.
  assert (Hmod : ((v * 256 + byte_val x) mod 2 ^ 8 = byte_val x)%Z).
  { change (2 ^ 8)%Z with 256%Z. rewrite Z.add_comm, Z.mod_add, Z.mod_small by lia. done. }
  assert (Hdiv : ((v * 256 + byte_val x) / 2 ^ 8 = v)%Z).
  { change (2 ^ 8)%Z with 256%Z. rewrite Z.div_add_l, Z.div_small by lia. lia. }
  destruct (k <? 8)%Z eqn:E; reflect_bools.
  - rewrite <-(Z.mod_pow2_bits_low _ 8) by lia. by rewrite Hmod.
  - rewrite <-Hdiv at 2. rewrite Z.div_pow2_bits by lia. f_equal. lia.
Qed.

(** The byte that holds bit [k]. *)
Definition byte_at (b : bytes) (k : Z) : Byte.byte := nth (length b - 1 - Z.to_nat (k / 8)) b Byte.x00.

Lemma be_val_testbit b k :
  (0 <= k < 8 * Z.of_nat (length b))%Z ->
  Z.testbit (be_val b) k = Z.testbit (byte_val (byte_at b k)) (k mod 8).
Proof.
  revert k. induction b as [|x b IH] using rev_ind; intros k Hk; [cbn in Hk; lia|].
  rewrite be_val_snoc, byte_shift_testbit by lia. unfold byte_at.
  rewrite length_app in *. cbn [length] in *.
  destruct (k <? 8)%Z eqn:E; reflect_bools.
  - rewrite Z.div_small, Z.mod_small by lia. rewrite app_nth2 by (cbn; lia).
    by replace (length b + 1 - 1 - Z.to_nat 0 - length b) with 0 by (cbn; lia).
  - rewrite IH by lia. unfold byte_at.
    assert (Hd : ((k - 8) / 8 = k / 8 - 1)%Z) by (Z.div_mod_to_equations; lia).
    assert (Hm : ((k - 8) mod 8 = k mod 8)%Z) by (Z.div_mod_to_equations; lia).
    assert (Hq : (1 <= k / 8)%Z) by (Z.div_mod_to_equations; lia).
    rewrite Hm, Hd, app_nth1 by (Z.div_mod_to_equations; lia).
    do 3 f_equal. Z.div_mod_to_equations; lia.
Qed.

Lemma set_bit_length bitmap k : length (set_bit bitmap k) = length bitmap.
Proof. apply length_alter. Qed.

Lemma set_bit_testbit bitmap k j :
  length bitmap = 32 -> (0 <= k < 256)%Z -> (0 <= j < 256)%Z ->
  Z.testbit (be_val (set_bit bitmap k)) j = Z.testbit (be_val bitmap) j || (k =? j)%Z.
Proof.
  intros Hl Hk Hj. rewrite !be_val_testbit by (rewrite ?set_bit_length, Hl; lia).
  unfold byte_at. rewrite set_bit_length, Hl. unfold set_bit.
  change (32 - 1) with 31. set (i := 31 - Z.to_nat (j / 8)).
  assert (Hi : i < length bitmap) by lia.
  destruct (lookup_lt_is_Some_2 bitmap i Hi) as [x Hx].
  rewrite (nth_lookup_Some bitmap i _ x Hx).
  destruct (decide (31 - Z.to_nat (k / 8) = i)) as [E|E].
  - assert (Hq : (k / 8 = j / 8)%Z) by (subst i; Z.div_mod_to_equations; lia).
    assert (Hi2 : alter (fun b => byte_of_Z (Z.lor (byte_val b) (Z.shiftl 1 (k mod 8))))
      (31 - Z.to_nat (k / 8)) bitmap !! i = Some (byte_of_Z (Z.lor (byte_val x) (Z.shiftl 1 (k mod 8))))).
    { rewrite E. etransitivity; [apply list_lookup_alter_eq|]. by rewrite Hx. }
    rewrite (nth_lookup_Some _ i _ _ Hi2).
    pose proof (Z.mod_pos_bound k 8 ltac:(lia)). pose proof (Z.mod_pos_bound j 8 ltac:(lia)).
    rewrite byte_val_of_Z_mod. change 256%Z with (2 ^ 8)%Z.
    rewrite Z.mod_pow2_bits_low, Z.lor_spec, Z.shiftl_1_l, Z.pow2_bits_eqb by lia.
    f_equal. destruct (k =? j)%Z eqn:Ek; reflect_bools; [by subst; apply Z.eqb_refl|].
    apply Z.eqb_neq. Z.div_mod_to_equations; lia.
  - assert (Hi2 : alter (fun b => byte_of_Z (Z.lor (byte_val b) (Z.shiftl 1 (k mod 8))))
      (31 - Z.to_nat (k / 8)) bitmap !! i = Some x).
    { etransitivity; [by apply list_lookup_alter_ne|]. exact Hx. }
    rewrite (nth_lookup_Some _ i _ _ Hi2).
    replace (k =? j)%Z with false; [by rewrite orb_false_r|]. symmetry. apply Z.eqb_neq.
    intros ->. by apply E.
Qed.

Lemma bitmap_length ks : length (bitmap_of ks) = 32.
Proof.
  unfold bitmap_of. induction ks as [|k ks IH] using rev_ind; [done|].
  rewrite fold_left_app. cbn [fold_left]. by rewrite set_bit_length.
Qed.

Lemma bitmap_testbit ks j :
  Forall (fun k => (0 <= k < 256)%Z) ks -> (0 <= j < 256)%Z ->
  Z.testbit (be_val (bitmap_of ks)) j = existsb (fun k => (k =? j)%Z) ks.
Proof.
  intros Hks Hj. induction ks as [|k ks IH] using rev_ind.
  - cbn. apply Z.bits_0.
  - apply Forall_app in Hks as [Hks Hk]. apply Forall_cons in Hk as [Hk _].
    pose proof (bitmap_length ks) as Hl. unfold bitmap_of in *.
    rewrite fold_left_app, existsb_app. cbn [fold_left existsb].
    rewrite set_bit_testbit, IH by done. by rewrite orb_false_r.
Qed.

Lemma existsb_map {A B} (f : B -> bool) (g : A -> B) l :
  existsb f (map g l) = existsb (fun x => f (g x)) l.
Proof. induction l as [|x l IH]; cbn; [done|]. by rewrite IH. Qed.

(** *** Leaves as text *)

Section WorkerFacts.
Context `{HexCodec, Crypto}.

Lemma decode32_hex b : length b = 32 -> decode32 ("0x" +:+ hex_encode b) = b.
Proof.
  intros Hl. unfold decode32.
  change (trim_start_0x ("0x" +:+ hex_encode b)) with (trim_start_0x (hex_encode b)).
  rewrite trim_start_0x_hex by apply hex_encode_digits. rewrite hex_decode_encode.
  change (default [] (Some b)) with b. cbv zeta. rewrite Hl. change (Nat.min 32 32) with 32.
  rewrite take_ge by lia. by rewrite (drop_ge zero32), app_nil_r by done.
Qed.

Lemma merkle_root_length leaves : length (merkle_root leaves) = 32.
Proof.
  destruct leaves as [|x l]; [done|].
  destruct (merkle_root_level (x :: l) ltac:(done)) as (n & Hn & _).
  pose proof (leaf_levels_length n (x :: l)) as Hf. rewrite Hn in Hf. by apply Forall_cons in Hf as [? _].
Qed.

Lemma sibling_length i l :
  Forall (fun x => length x = 32) l -> length (sibling i l) = 32.
Proof.
  intros Hl. assert (Hn : forall k, length (nth k l zero32) = 32).
  { intros k. destruct (nth_in_or_default k l zero32) as [Hin | ->]; [|done].
    rewrite Forall_forall in Hl. by apply Hl, list_elem_of_In. }
  unfold sibling. repeat case_match; apply Hn.
Qed.

Lemma proof_loop_length fuel i l :
  Forall (fun x => length x = 32) l -> Forall (fun x => length x = 32) (proof_loop fuel i l).
Proof.
  revert i l. induction fuel as [|fuel IH]; intros i l Hl; cbn [proof_loop]; [constructor|].
  case_match; [|constructor]. constructor; [by apply sibling_length|].
  apply IH. exact (levels_length 1 l Hl).
Qed.

Lemma merkle_proof_length leaves i : Forall (fun x => length x = 32) (merkle_proof leaves i).
Proof.
  unfold merkle_proof. case_match; [constructor|]. apply proof_loop_length.
  exact (leaf_levels_length 0 leaves).
Qed.

Lemma merkle_proof_text leaves i :
  map decode32 (map (fun p => "0x" +:+ hex_encode p) (merkle_proof leaves i)) = merkle_proof leaves i.
Proof.
  rewrite map_map. rewrite <-(map_id (merkle_proof leaves i)) at 2. apply map_ext_in.
  intros p Hp%list_elem_of_In. apply decode32_hex.
  pose proof (merkle_proof_length leaves i) as Hl. rewrite Forall_forall in Hl. by apply Hl.
Qed.

Lemma contract_accepts leaves i x :
  leaves !! i = Some x ->
  verifyEntryInRoot [merkle_root leaves] 0 (merkle_proof leaves i) x = true.
Proof.
  intros Hx.
  assert (Hl : map leaf_prefix leaves !! i = Some (leaf_prefix x)) by (by rewrite list_lookup_fmap, Hx).
  apply lookup_lt_Some in Hx as Hlt.
  pose proof (proof_loop_reaches (length leaves) _ i _ Hl ltac:(by rewrite length_map)) as Hw.
  unfold verifyEntryInRoot. cbn [lookup list_lookup]. apply bool_decide_eq_true.
  rewrite contract_fold_pairs. unfold merkle_proof. destruct leaves as [|y l]; [done|].
  cbn [is_nil orb]. replace (length (y :: l) <=? i)%nat with false by (symmetry; apply Nat.leb_gt; lia).
  unfold merkle_root. by rewrite <-Hw.
Qed.

(** *** Queues *)

Lemma pending_queue s omni e omni' :
  pending_v2 (queue_v2 s omni e).1 omni' =
  if String.eqb omni omni' then (pending_v2 s omni' ++ [e])%list else pending_v2 s omni'.
Proof.
  unfold pending_v2, queue_v2. cbn. destruct (String.eqb_spec omni omni') as [->|Hne].
  - by rewrite lookup_insert_eq.
  - by rewrite lookup_insert_ne.
Qed.

Lemma pending_flush o s d omni omni' :
  pending_v2 (flush_v2 o s d omni).1.1 omni' =
  if String.eqb omni omni' then [] else pending_v2 s omni'.
Proof.
  assert (Hs : v2_queues (flush_v2 o s d omni).1.1 = delete omni (v2_queues s)).
  { unfold flush_v2. cbv zeta. case_match; [done|]. destruct (fs_write _ _ _ _) as [f []]; done. }
  unfold pending_v2. rewrite Hs. destruct (String.eqb_spec omni omni') as [->|Hne].
  - by rewrite lookup_delete_eq.
  - by rewrite lookup_delete_ne.
Qed.

(** The three ways a flush ends. *)
Lemma flush_v2_result o s d omni :
  match (flush_v2 o s d omni).2 with
  | Ok None => pending_v2 s omni = []
  | Ok (Some r) => operator_omni r = omni /\ entries r = pending_v2 s omni
  | Err err => exists rest, o = WriteFailed err rest
  end.
Proof.
  unfold flush_v2. cbv zeta. destruct (pending_v2 s omni) eqn:E; cbn [is_nil]; [done|].
  destruct o as [|err rest]; cbn [fs_write]; [done | by eexists].
Qed.
End WorkerFacts.

Section RunFacts.
Context `{HexCodec, Crypto}.

Lemma lines_verify {E} text (leaves : list bytes) (es : list E) i line :
  length leaves = length es -> (forall e j, es !! j = Some e -> leaves !! j = Some (decode32 (text j e))) ->
  leaf_lines text leaves es !! i = Some line ->
  leaf_index line = i /\ leaf line = text i (entry line) /\
  verifyEntryInRoot [merkle_root leaves] 0 (map decode32 (proof line)) (decode32 (leaf line)) = true.
Proof.
  intros Hlen Htext. unfold leaf_lines. rewrite list_lookup_imap.
  destruct (es !! i) as [e|] eqn:He; [|done]. intros [= <-]. cbn [leaf_index leaf entry proof].
  split_and!; [done..|]. rewrite merkle_proof_text. apply contract_accepts. by apply Htext.
Qed.

Lemma lines_entries {E} text (leaves : list bytes) (es : list E) :
  map entry (leaf_lines text leaves es) = es.
Proof.
  unfold leaf_lines.
  assert (Hg : forall n, map entry (imap (fun i e => {| leaf_index := i + n; leaf := text (i + n) e;
    proof := map (fun p => "0x" +:+ hex_encode p) (merkle_proof leaves (i + n)); entry := e |}) es) = es).
  { induction es as [|e es IH]; intros n; [done|]. cbn. f_equal.
    rewrite <-(IH (S n)) at 2. f_equal. apply imap_ext. intros i x _. cbn.
    by replace (S (i + n)) with (i + S n) by lia. }
  specialize (Hg 0). rewrite <-Hg at 2. f_equal. apply imap_ext. intros i x _. by rewrite Nat.add_0_r.
Qed.

(** What a run keeps. *)
Lemma run_keeps dir ops omni :
  (forall o e, OQueue o e ∈ ops -> (0 <= op_kind e < 256)%Z) ->
  let '(s, d, out) := run dir ops in
  (forallb write_ok ops = true -> (published omni out ++ pending_v2 s omni)%list = queued omni ops) /\
  Forall (fun e => (0 <= op_kind e < 256)%Z) (pending_v2 s omni).
Proof.
  unfold run. induction ops as [|op ops IH] using rev_ind; intros Hu8; [by split|].
  rewrite fold_left_app. cbn [fold_left].
  specialize (IH ltac:(intros; apply (Hu8 o); set_solver)).
  destruct (fold_left apply_op ops (new dir)) as [[s d] out]. destruct IH as [Hc Hk].
  unfold queued. rewrite forallb_app, flat_map_app. fold (queued omni ops). cbn [forallb flat_map].
  destruct op as [o e|o w]; cbn [apply_op].
  - rewrite pending_queue. split.
    + intros [Hw _]%andb_true_iff. rewrite app_nil_r, <-(Hc Hw).
      destruct (String.eqb o omni); [by rewrite app_assoc | by rewrite app_nil_r].
    + destruct (String.eqb o omni); [|done]. apply Forall_app. split; [done|].
      constructor; [|constructor]. apply (Hu8 o). set_solver.
  - pose proof (pending_flush w s d o omni) as Hp. pose proof (flush_v2_result w s d o) as Hr.
    destruct (flush_v2 w s d o) as [[s' d'] [[r|]|err]]; cbn [fst snd] in *.
    + destruct Hr as [Ho He]. split.
      * intros [Hw _]%andb_true_iff. rewrite app_nil_r, <-(Hc Hw). unfold published.
        rewrite flat_map_app. cbn [flat_map]. rewrite Ho, Hp, He, app_nil_r.
        destruct (String.eqb_spec o omni) as [->|]; [by rewrite app_nil_r | by rewrite app_nil_r].
      * rewrite Hp. by destruct (String.eqb o omni).
    + split.
      * intros [Hw _]%andb_true_iff. rewrite app_nil_r, <-(Hc Hw), Hp.
        destruct (String.eqb_spec o omni) as [->|]; [by rewrite Hr | done].
      * rewrite Hp. by destruct (String.eqb o omni).
    + destruct Hr as [rest ->]. split; [by rewrite andb_false_r|]. rewrite Hp.
      by destruct (String.eqb o omni).
Qed.
End RunFacts.

(** ** Properties *)

(** Batches.  After any sequence of queueings and flushes: unless a leaves file
    could not be written, every envelope queued for an operator is, once and in
    order, in a published batch or still pending.  The next flush publishes exactly
    the pending entries, empties that queue and no other, and its leaves file holds
    for each entry a proof that the contract accepts against the published root;
    the bitmap has the bits of exactly the entries' op kinds.  A flush whose write
    fails empties the queue and publishes nothing. *)
Theorem audit_batches_verify `{HexCodec, Crypto} (dir : string) (ops : list Op) (omni : string)
    (Hu8 : forall o e, OQueue o e ∈ ops -> (0 <= op_kind e < 256)%Z) :
  let '(s, d, out) := run dir ops in
  (forallb write_ok ops = true ->
     (published omni out ++ pending_v2 s omni)%list = queued omni ops) /\
  (forall err rest, pending_v2 s omni <> [] ->
     let '(s', d', r) := flush_v2 (WriteFailed err rest) s d omni in
     r = Err err /\ pending_v2 s' omni = []) /\
  let '(s', d', r) := flush_v2 Written s d omni in
  (forall omni', pending_v2 s' omni' = if String.eqb omni omni' then [] else pending_v2 s omni') /\
  match r with
  | Err _ => False
  | Ok None => pending_v2 s omni = []
  | Ok (Some b) =>
      entries b = pending_v2 s omni /\ entry_count b = Z.of_nat (length (entries b)) /\
      (exists bits, op_kind_bitmap_hex b = "0x" +:+ hex_encode bits /\
         forall k, (0 <= k < 256)%Z ->
           Z.testbit (be_val bits) k = existsb (fun e => (op_kind e =? k)%Z) (entries b)) /\
      exists lines, v2_files d' !! leaves_path b = Some lines /\
        map entry lines = entries b /\
        forall i line, lines !! i = Some line ->
          leaf_index line = i /\ leaf line = envelope_hash (entry line) /\
          verifyEntryInRoot [decode32 (merkle_root_hex b)] 0 (map decode32 (proof line))
            (decode32 (leaf line)) = true
  end.
Proof.
  pose proof (run_keeps dir ops omni Hu8) as Hrun.
  destruct (run dir ops) as [[s d] out]. destruct Hrun as [Hcons Hkinds].
  split_and!; [exact Hcons| |].
  - intros err rest Hne. pose proof (pending_flush (WriteFailed err rest) s d omni omni) as Hp.
    unfold flush_v2 in *. cbv zeta in *. destruct (pending_v2 s omni); [done|]. cbn [is_nil fs_write] in *.
    rewrite String.eqb_refl in Hp. done.
  - pose proof (pending_flush Written s d omni) as Hp.
    unfold flush_v2 in *. cbv zeta in *. remember (pending_v2 s omni) as es eqn:Ees.
    destruct es as [|e0 es0]; cbn [is_nil fs_write fst snd] in *; [split; [exact Hp | done]|].
    split; [exact Hp|]. cbn [entries entry_count op_kind_bitmap_hex merkle_root_hex leaves_path v2_files].
    split_and!; [done..| |].
    + eexists. split; [unfold op_kind_bitmap; reflexivity|]. intros k Hk.
      rewrite bitmap_testbit by (try apply Forall_map; done). apply (existsb_map (fun x => (x =? k)%Z)).
    + eexists. split; [apply lookup_insert_eq|]. split; [apply lines_entries|].
      intros i line Hi. rewrite decode32_hex by apply merkle_root_length.
      apply (lines_verify _ _ (e0 :: es0)) in Hi; [done | by rewrite length_map|].
      intros e j Hj. by rewrite list_lookup_fmap, Hj.
Qed.

(** ** Witness: two envelopes of one operator, one of another *)

#[local] Existing Instances ToyCrypto.crypto SimpleHex.codec.

Definition demo_entry (c : Ascii.ascii) (k : Z) : V2QueueEntry :=
  {| envelope_hash := "0x" +:+ rep64 c; op_kind := k; actor_omni := "0xaa"; ts_unix := 1 |}.

Definition demo_ops : list Op :=
  [OQueue "0xop" (demo_entry "1" 0); OQueue "0xother" (demo_entry "2" 5);
   OQueue "0xop" (demo_entry "3" 200)].

Example audit_batches_verify_witness :
  let '(s, d, out) := run "/tmp" demo_ops in
  pending_v2 s "0xop" = [demo_entry "1" 0; demo_entry "3" 200] /\
  match (flush_v2 Written s d "0xop").2 with
  | Ok (Some b) => entries b = pending_v2 s "0xop"
  | _ => False
  end.
Proof.
  assert (Hu8 : forall o e, OQueue o e ∈ demo_ops -> (0 <= op_kind e < 256)%Z).
  { intros o e Hin. unfold demo_ops in Hin. rewrite !elem_of_cons in Hin.
    destruct Hin as [[= _ ->]|[[= _ ->]|[[= _ ->]|Hin]]]; cbn; [lia | lia | lia |].
    by apply elem_of_nil in Hin. }
  pose proof (audit_batches_verify "/tmp" demo_ops "0xop" Hu8) as Hb.
  assert (Hsome : (flush_v2 Written (run "/tmp" demo_ops).1.1 (run "/tmp" demo_ops).1.2 "0xop").2
                  <> Ok None) by (vm_compute; discriminate).
  assert (Hpend : pending_v2 (run "/tmp" demo_ops).1.1 "0xop" = [demo_entry "1" 0; demo_entry "3" 200])
    by (vm_compute; reflexivity).
  destruct (run "/tmp" demo_ops) as [[s d] out]. cbn [fst snd] in Hsome, Hpend.
  split; [exact Hpend|]. destruct Hb as (_ & _ & Hf).
  destruct (flush_v2 Written s d "0xop") as [[s' d'] [[b|]|err]]; cbn [snd] in *.
  - exact (proj1 (proj2 Hf)).
  - exact (Hsome eq_refl).
  - exact (proj2 Hf).
Defined.
