(* ===== verification/AuditCbor.v ===== *)
(** * The canonical audit envelope

    [crates/agentkeys-web-core/src/audit/{mod,cbor}.rs]: an envelope is built as a
    CBOR map, canonicalized by sorting every map by its keys' encoded bytes, and
    written by [ciborium]; the decoder reads the map back field by field. *)
From S2P Require Import Prelude RustStr DeviceCore Merkle.

(** ** [ciborium] *)

(** [ciborium::Value]; an integer lies between -2^64 and 2^64-1. *)
Inductive Value :=
| Integer (i : Z)
| Bytes (b : bytes)
| Float (bits : Z)
| Text (s : string)
| Bool (b : bool)
| Null
| Tag (t : Z) (v : Value)
| Array (items : list Value)
| Map (entries : list (Value * Value)).

(** The crate's writer and reader, and the text its debug formatter gives.  A value
    is read back as it was written, and a short text is its length byte and its
    bytes (RFC 8949, section 3). *)
Class Ciborium := {
  into_writer : Value -> result string bytes;
  from_reader : bytes -> result string Value;
  debug : Value -> string;
  writes : forall v, exists b, into_writer v = Ok b /\ from_reader b = Ok v;
  writes_short_text : forall s, String.length s < 24 ->
    into_writer (Text s) = Ok (byte_of_Z (96 + Z.of_nat (String.length s)) :: as_bytes s);
}.

(** ** Envelopes *)

Inductive AuditError :=
| Invalid (msg : string)
| Cbor (msg : string)
| HexDecode (msg : string).

Definition ENVELOPE_VERSION : Z := 1.

Inductive AuditResult := Success | Failure | NotPermitted.

Definition result_byte (r : AuditResult) : Z :=
  match r with Success => 0 | Failure => 1 | NotPermitted => 2 end.

Record AuditEnvelope := {
  version : Z;
  ts_unix : Z;
  actor_omni : bytes;
  operator_omni : bytes;
  op_kind : Z;
  op_body : Value;
  result_of : AuditResult;
  intent_text : option string;
  intent_commitment : option bytes;
}.

(** The ranges the field types impose. *)
Record well_typed (e : AuditEnvelope) : Prop := {
  version_u8 : (0 <= version e < 256)%Z;
  ts_u64 : (0 <= ts_unix e < 2 ^ 64)%Z;
  op_kind_u8 : (0 <= op_kind e < 256)%Z;
  actor_32 : length (actor_omni e) = 32;
  operator_32 : length (operator_omni e) = 32;
  commitment_32 : forall c, intent_commitment e = Some c -> length c = 32;
}.

Section Codec.
Context `{Ciborium}.

(** ** Encoding *)

(** What the comparison of two entries writes for a key. *)
Definition key_bytes (k : Value) : bytes :=
  match into_writer k with Ok b => b | Err _ => [] end.

(** [sort_by] is stable. *)
Fixpoint insert_entry (e : Value * Value) (l : list (Value * Value)) : list (Value * Value) :=
  match l with
  | [] => [e]
  | e' :: l' =>
      if bytes_leb (key_bytes e.1) (key_bytes e'.1) then e :: l else e' :: insert_entry e l'
  end.

Fixpoint sort_entries (l : list (Value * Value)) : list (Value * Value) :=
  match l with [] => [] | e :: l => insert_entry e (sort_entries l) end.

Fixpoint canonicalize (v : Value) : Value :=
  match v with
  | Map entries => Map (sort_entries (map (fun p => (canonicalize p.1, canonicalize p.2)) entries))
  | Array items => Array (map canonicalize items)
  | other => other
  end.

Definition envelope_map (e : AuditEnvelope) : Value :=
  Map [(Text "version", Integer (version e));
       (Text "ts_unix", Integer (ts_unix e));
       (Text "actor_omni", Bytes (actor_omni e));
       (Text "operator_omni", Bytes (operator_omni e));
       (Text "op_kind", Integer (op_kind e));
       (Text "op_body", op_body e);
       (Text "result", Integer (result_byte (result_of e)));
       (Text "intent_text", match intent_text e with Some t => Text t | None => Null end);
       (Text "intent_commitment", match intent_commitment e with Some c => Bytes c | None => Null end)].

Definition encode_canonical (e : AuditEnvelope) : result AuditError bytes :=
  map_err (fun m => Cbor ("encode: " +:+ m)) (into_writer (canonicalize (envelope_map e))).

Definition envelope_hash `{Crypto} (e : AuditEnvelope) : result AuditError bytes :=
  let? b := encode_canonical e in Ok (keccak256 b).

(** ** Decoding *)

Definition bytes_32 (v : Value) (label : string) : result AuditError bytes :=
  match v with
  | Bytes b =>
      if (length b =? 32)%nat then Ok b
      else Err (Invalid (label +:+ " must be 32 bytes, got " +:+ dec (Z.of_nat (length b))))
  | other => Err (Invalid (label +:+ " must be CBOR bytes, got " +:+ debug other))
  end.

Definition uint64 (v : Value) (label : string) : result AuditError Z :=
  match v with
  | Integer i =>
      if (i <? 0)%Z then Err (Invalid (label +:+ ": negative integer -" +:+ dec (- i)))
      else if (u64_max <? i)%Z
      then Err (Invalid (label +:+ ": value " +:+ dec i +:+ " exceeds u64 range"))
      else Ok i
  | other => Err (Invalid (label +:+ " must be integer, got " +:+ debug other))
  end.

Definition byte (v : Value) (label : string) : result AuditError Z :=
  let? n := uint64 v label in
  if (255 <? n)%Z then Err (Invalid (label +:+ ": value " +:+ dec n +:+ " exceeds u8 range"))
  else Ok n.

(** The loop's mutable options. *)
Record Fields := {
  f_actor_omni : option bytes;
  f_operator_omni : option bytes;
  f_op_kind : option Z;
  f_op_body : option Value;
  f_result : option AuditResult;
  f_ts_unix : option Z;
  f_version : option Z;
  f_intent_text : option (option string);
  f_intent_commitment : option (option bytes);
}.

Definition no_fields : Fields :=
  {| f_actor_omni := None; f_operator_omni := None; f_op_kind := None; f_op_body := None;
     f_result := None; f_ts_unix := None; f_version := None; f_intent_text := None;
     f_intent_commitment := None |}.

Definition result_from (b : Z) : result AuditError AuditResult :=
  if (b =? 0)%Z then Ok Success else if (b =? 1)%Z then Ok Failure
  else if (b =? 2)%Z then Ok NotPermitted
  else Err (Invalid ("unknown AuditResult byte: " +:+ dec b)).

Definition set_field (f : Fields) (key : string) (v : Value) : result AuditError Fields :=
  let '(Build_Fields a o k b r t ver it ic) := f in
  if String.eqb key "actor_omni" then
    let? x := bytes_32 v "actor_omni" in Ok (Build_Fields (Some x) o k b r t ver it ic)
  else if String.eqb key "operator_omni" then
    let? x := bytes_32 v "operator_omni" in Ok (Build_Fields a (Some x) k b r t ver it ic)
  else if String.eqb key "op_kind" then
    let? x := byte v "op_kind" in Ok (Build_Fields a o (Some x) b r t ver it ic)
  else if String.eqb key "op_body" then Ok (Build_Fields a o k (Some v) r t ver it ic)
  else if String.eqb key "result" then
    let? x := byte v "result" in
    let? x := result_from x in Ok (Build_Fields a o k b (Some x) t ver it ic)
  else if String.eqb key "ts_unix" then
    let? x := uint64 v "ts_unix" in Ok (Build_Fields a o k b r (Some x) ver it ic)
  else if String.eqb key "version" then
    let? x := byte v "version" in Ok (Build_Fields a o k b r t (Some x) it ic)
  else if String.eqb key "intent_text" then
    match v with
    | Null => Ok (Build_Fields a o k b r t ver (Some None) ic)
    | Text s => Ok (Build_Fields a o k b r t ver (Some (Some s)) ic)
    | other => Err (Invalid ("intent_text must be text or null, got " +:+ debug other))
    end
  else if String.eqb key "intent_commitment" then
    match v with
    | Null => Ok (Build_Fields a o k b r t ver it (Some None))
    | other =>
        let? x := bytes_32 other "intent_commitment" in
        Ok (Build_Fields a o k b r t ver it (Some (Some x)))
    end
  else Ok f.

Fixpoint read_fields (f : Fields) (entries : list (Value * Value)) : result AuditError Fields :=
  match entries with
  | [] => Ok f
  | (Text key, v) :: rest => let? f := set_field f key v in read_fields f rest
  | (other, _) :: _ => Err (Invalid ("map key must be text, got " +:+ debug other))
  end.

Definition missing {A} (name : string) (o : option A) : result AuditError A :=
  ok_or (Invalid ("missing " +:+ name)) o.

Definition decode_canonical (b : bytes) : result AuditError AuditEnvelope :=
  let? value := map_err (fun m => Cbor ("decode: " +:+ m)) (from_reader b) in
  let? entries := match value with
                  | Map m => Ok m
                  | other => Err (Invalid ("expected CBOR map, got " +:+ debug other))
                  end in
  let? f := read_fields no_fields entries in
  let? version := missing "version" (f_version f) in
  if negb (version =? ENVELOPE_VERSION)%Z then
    Err (Invalid ("unsupported envelope version: " +:+ dec version +:+ " (this code supports "
                  +:+ dec ENVELOPE_VERSION +:+ ")"))
  else
    let? ts := missing "ts_unix" (f_ts_unix f) in
    let? actor := missing "actor_omni" (f_actor_omni f) in
    let? operator := missing "operator_omni" (f_operator_omni f) in
    let? kind := missing "op_kind" (f_op_kind f) in
    let? body := missing "op_body" (f_op_body f) in
    let? res := missing "result" (f_result f) in
    Ok {| version := version; ts_unix := ts; actor_omni := actor; operator_omni := operator;
          op_kind := kind; op_body := body; result_of := res;
          intent_text := default None (f_intent_text f);
          intent_commitment := default None (f_intent_commitment f) |}.
End Codec.

Definition with_body (e : AuditEnvelope) (v : Value) : AuditEnvelope :=
  {| version := version e; ts_unix := ts_unix e; actor_omni := actor_omni e;
     operator_omni := operator_omni e; op_kind := op_kind e; op_body := v;
     result_of := result_of e; intent_text := intent_text e; intent_commitment := intent_commitment e |}.

(** Two values with the same content: maps may list their entries in any order. *)
Inductive same_content `{Ciborium} : Value -> Value -> Prop :=
| same_refl v : same_content v v
| same_array l l' : Forall2 same_content l l' -> same_content (Array l) (Array l')
| same_map l m l' :
    NoDup (map (fun p => canonicalize p.1) l) ->
    l ≡ₚ m -> Forall2 (fun p q => same_content p.1 q.1 /\ same_content p.2 q.2) m l' ->
    same_content (Map l) (Map l').

(** ** Lemmas *)

(** Induction that reaches inside arrays and maps. *)
Lemma Value_nested_ind (P : Value -> Prop) :
  (forall i, P (Integer i)) -> (forall b, P (Bytes b)) -> (forall b, P (Float b)) ->
  (forall s, P (Text s)) -> (forall b, P (Bool b)) -> P Null -> (forall t v, P v -> P (Tag t v)) ->
  (forall l, Forall P l -> P (Array l)) ->
  (forall l, Forall (fun p => P p.1 /\ P p.2) l -> P (Map l)) ->
  forall v, P v.
Proof.
  intros HI HB HF HT HBo HN HTa HA HM. fix IH 1.
  intros [i|b|f|s|b| |t v|items|entries];
    [apply HI | apply HB | apply HF | apply HT | apply HBo | apply HN | apply HTa, IH | |].
  - apply HA. induction items as [|x items IHl]; constructor; [apply IH | exact IHl].
  - apply HM. induction entries as [|[k v] entries IHl]; constructor; [split; apply IH | exact IHl].
Qed.

Section CodecFacts.
Context `{Ciborium}.

Lemma key_bytes_short s : String.length s < 24 ->
  key_bytes (Text s) = byte_of_Z (96 + Z.of_nat (String.length s)) :: as_bytes s.
Proof. intros Hs. unfold key_bytes. by rewrite writes_short_text. Qed.

Lemma into_writer_inj a b : into_writer a = into_writer b -> a = b.
Proof.
  intros E. destruct (writes a) as (x & Ha & Ra), (writes b) as (y & Hb & Rb). congruence.
Qed.

Lemma key_bytes_inj a b : key_bytes a = key_bytes b -> a = b.
Proof.
  unfold key_bytes. intros E. apply into_writer_inj.
  destruct (writes a) as (x & Ha & _), (writes b) as (y & Hb & _). rewrite Ha, Hb in *. by subst.
Qed.

(** *** Sorting *)

Definition entry_leb (e e' : Value * Value) : Prop := bytes_leb (key_bytes e.1) (key_bytes e'.1) = true.

Lemma insert_sorted e l : Sorted entry_leb l -> Sorted entry_leb (insert_entry e l).
Proof.
  induction 1 as [|x l Hl IH Hx]; cbn; [by repeat constructor|].
  destruct (bytes_leb _ _) eqn:E.
  - repeat constructor; try done.
  - apply bytes_leb_total in E. constructor; [done|].
    destruct l as [|y l]; cbn; [by constructor|]. destruct (bytes_leb (key_bytes e.1) _).
    + by constructor.
    + constructor. by inversion Hx.
Qed.

Lemma sort_sorted l : Sorted entry_leb (sort_entries l).
Proof. induction l as [|e l IH]; cbn; [constructor | by apply insert_sorted]. Qed.

Lemma sort_id l : Sorted entry_leb l -> sort_entries l = l.
Proof.
  induction 1 as [|x l Hl IH Hx]; cbn; [done|]. rewrite IH. destruct l as [|y l]; [done|]. cbn.
  inversion Hx as [|? ? Hxy]; subst. unfold entry_leb in Hxy. by rewrite Hxy.
Qed.

Lemma insert_perm e l : insert_entry e l ≡ₚ e :: l.
Proof.
  induction l as [|x l IH]; cbn; [done|]. destruct (bytes_leb _ _); [done|]. rewrite IH. constructor.
Qed.

Lemma sort_perm l : sort_entries l ≡ₚ l.
Proof. induction l as [|e l IH]; cbn; [done|]. by rewrite insert_perm, IH. Qed.

Lemma bytes_leb_trans a b c : bytes_leb a b = true -> bytes_leb b c = true -> bytes_leb a c = true.
Proof.
  revert b c. induction a as [|x a IH]; intros [|y b] [|z c]; cbn; try done.
  intros Hab Hbc. repeat case_match; reflect_bools; try done; try lia. by apply (IH b).
Qed.

(** Entries with different keys can be inserted in either order. *)
Lemma insert_swap e e' l : e.1 <> e'.1 ->
  insert_entry e (insert_entry e' l) = insert_entry e' (insert_entry e l).
Proof.
  intros Hne.
  assert (Hanti : bytes_leb (key_bytes e.1) (key_bytes e'.1) = negb (bytes_leb (key_bytes e'.1) (key_bytes e.1))).
  { destruct (bytes_leb (key_bytes e.1) _) eqn:E, (bytes_leb (key_bytes e'.1) _) eqn:E'; try done.
    - destruct Hne. by apply key_bytes_inj, bytes_leb_antisym.
    - apply bytes_leb_total in E. congruence. }
  assert (Htr : forall x y z : Value * Value, bytes_leb (key_bytes x.1) (key_bytes y.1) = true ->
    bytes_leb (key_bytes y.1) (key_bytes z.1) = true -> bytes_leb (key_bytes x.1) (key_bytes z.1) = true).
  { intros x y z. apply bytes_leb_trans. }
  induction l as [|x l IH]; cbn; [rewrite Hanti; by destruct (bytes_leb (key_bytes e'.1) _)|].
  destruct (bytes_leb (key_bytes e'.1) (key_bytes x.1)) eqn:E1,
    (bytes_leb (key_bytes e.1) (key_bytes x.1)) eqn:E2; cbn; rewrite ?E1, ?E2.
  - rewrite Hanti. by destruct (bytes_leb (key_bytes e'.1) (key_bytes e.1)).
  - destruct (bytes_leb (key_bytes e.1) (key_bytes e'.1)) eqn:E3; [|done].
    by rewrite (Htr e e' x E3 E1) in E2.
  - destruct (bytes_leb (key_bytes e'.1) (key_bytes e.1)) eqn:E3; [|done].
    by rewrite (Htr e' e x E3 E2) in E1.
  - by rewrite IH.
Qed.

Lemma sort_unique l l' : NoDup (map fst l) -> l ≡ₚ l' -> sort_entries l = sort_entries l'.
Proof.
  intros Hnd Hp. induction Hp as [|e l l' _ IH|e e' l|l m l' Hp1 IH1 Hp2 IH2]; cbn in *.
  - done.
  - f_equal. apply IH. by inversion Hnd.
  - apply insert_swap. inversion Hnd as [|? ? Hin]; subst. set_solver.
  - rewrite IH1 by done. apply IH2. by rewrite <-(fmap_Permutation fst _ _ Hp1).
Qed.

(** *** Canonical values *)

Lemma canonicalize_map l :
  canonicalize (Map l) = Map (sort_entries (map (fun p => (canonicalize p.1, canonicalize p.2)) l)).
Proof. done. Qed.

Lemma canonicalize_idem v : canonicalize (canonicalize v) = canonicalize v.
Proof.
  induction v as [| | | | | | |l IH|l IH] using Value_nested_ind; try done.
  - cbn. f_equal. rewrite map_map. induction IH as [|x l Hx _ IHl]; cbn; [done|]. by rewrite Hx, IHl.
  - rewrite !canonicalize_map. f_equal.
    set (c := map (fun p => (canonicalize p.1, canonicalize p.2)) l).
    assert (Hc : Forall (fun p => canonicalize p.1 = p.1 /\ canonicalize p.2 = p.2) (sort_entries c)).
    { rewrite (sort_perm c). subst c. induction IH as [|x l Hx _ IHl]; cbn; constructor; done. }
    assert (map (fun p => (canonicalize p.1, canonicalize p.2)) (sort_entries c) = sort_entries c) as ->.
    { clear IH. induction Hc as [|[k x] l' [Hk Hx] _ IHl]; cbn in *; [done|]. by rewrite Hk, Hx, IHl. }
    apply sort_id, sort_sorted.
Qed.

Lemma same_canonical : forall a b, same_content a b -> canonicalize a = canonicalize b.
Proof.
  fix IH 3. intros a b [v | l l' Hf | l m l' Hnd Hp Hf]; [done| |].
  - cbn. f_equal. induction Hf as [|x y l l' Hxy _ IHl]; cbn; [done|].
    by rewrite (IH x y Hxy), IHl.
  - rewrite !canonicalize_map. f_equal.
    rewrite (sort_unique _ (map (fun p => (canonicalize p.1, canonicalize p.2)) m)).
    + f_equal. clear Hp Hnd. induction Hf as [|x y m l' [H1 H2] _ IHl]; cbn; [done|].
      by rewrite (IH _ _ H1), (IH _ _ H2), IHl.
    + rewrite map_map. exact Hnd.
    + by apply fmap_Permutation.
Qed.

(** *** The envelope's map *)

Definition text_leb (s t : string) : bool :=
  bytes_leb (byte_of_Z (96 + Z.of_nat (String.length s)) :: as_bytes s)
    (byte_of_Z (96 + Z.of_nat (String.length t)) :: as_bytes t).

Lemma key_leb s t : (String.length s <? 24) && (String.length t <? 24) = true ->
  bytes_leb (key_bytes (Text s)) (key_bytes (Text t)) = text_leb s t.
Proof. intros Hl. reflect_bools. by rewrite !key_bytes_short. Qed.

Definition optional_text (o : option string) : Value := match o with Some t => Text t | None => Null end.
Definition optional_bytes (o : option bytes) : Value := match o with Some c => Bytes c | None => Null end.

(** The keys of an encoded envelope, shorter ones first. *)
Definition canonical_map (e : AuditEnvelope) : list (Value * Value) :=
  [(Text "result", Integer (result_byte (result_of e)));
   (Text "op_body", canonicalize (op_body e));
   (Text "op_kind", Integer (op_kind e));
   (Text "ts_unix", Integer (ts_unix e));
   (Text "version", Integer (version e));
   (Text "actor_omni", Bytes (actor_omni e));
   (Text "intent_text", optional_text (intent_text e));
   (Text "operator_omni", Bytes (operator_omni e));
   (Text "intent_commitment", optional_bytes (intent_commitment e))].

Ltac compare_keys :=
  repeat (cbn [insert_entry fst snd];
    match goal with
    | |- context [bytes_leb (key_bytes (Text ?s)) (key_bytes (Text ?t))] =>
        rewrite (key_leb s t) by reflexivity;
        let r := eval vm_compute in (text_leb s t) in change (text_leb s t) with r
    end).

Lemma envelope_canonical e : canonicalize (envelope_map e) = Map (canonical_map e).
Proof.
  unfold envelope_map. rewrite canonicalize_map. f_equal.
  cbn [map fst snd]. unfold canonical_map.
  assert (forall o, canonicalize (optional_text o) = optional_text o) as Ht by (by intros []).
  assert (forall o, canonicalize (optional_bytes o) = optional_bytes o) as Hb by (by intros []).
  fold (optional_text (intent_text e)) (optional_bytes (intent_commitment e)).
  rewrite Ht, Hb. generalize (canonicalize (op_body e)) as body. intros body.
  cbn [canonicalize sort_entries]. compare_keys. done.
Qed.

Lemma uint64_ok n label : (0 <= n < 2 ^ 64)%Z -> uint64 (Integer n) label = Ok n.
Proof.
  intros Hn. unfold uint64. replace (n <? 0)%Z with false by (symmetry; apply Z.ltb_ge; lia).
  by replace (u64_max <? n)%Z with false by (symmetry; apply Z.ltb_ge; unfold u64_max; lia).
Qed.

Lemma byte_ok n label : (0 <= n < 256)%Z -> byte (Integer n) label = Ok n.
Proof.
  intros Hn. unfold byte. rewrite uint64_ok by lia.
  by replace (255 <? n)%Z with false by (symmetry; apply Z.ltb_ge; lia).
Qed.

Lemma bytes_32_ok b label : length b = 32 -> bytes_32 (Bytes b) label = Ok b.
Proof. intros Hb. unfold bytes_32. by rewrite Hb. Qed.

Lemma result_from_byte r : result_from (result_byte r) = Ok r.
Proof. by destruct r. Qed.

Lemma read_envelope e : well_typed e ->
  read_fields no_fields (canonical_map e) =
  Ok {| f_actor_omni := Some (actor_omni e); f_operator_omni := Some (operator_omni e);
        f_op_kind := Some (op_kind e); f_op_body := Some (canonicalize (op_body e));
        f_result := Some (result_of e); f_ts_unix := Some (ts_unix e); f_version := Some (version e);
        f_intent_text := Some (intent_text e); f_intent_commitment := Some (intent_commitment e) |}.
Proof.
  intros [Hv Ht Hk Ha Ho Hc]. unfold canonical_map, no_fields.
  assert (Hres : (0 <= result_byte (result_of e) < 256)%Z) by (by destruct (result_of e)).
  repeat first
    [ progress cbn [read_fields set_field String.eqb Ascii.eqb Bool.eqb]
    | rewrite byte_ok by done | rewrite result_from_byte
    | rewrite uint64_ok by done | rewrite bytes_32_ok by done ].
  destruct (intent_text e), (intent_commitment e) as [c|]; cbn [optional_text optional_bytes];
    repeat first
      [ progress cbn [read_fields set_field String.eqb Ascii.eqb Bool.eqb]
      | rewrite bytes_32_ok by (try done; by apply Hc) ]; done.
Qed.
End CodecFacts.

(** *** Encoding, then decoding *)
Section CodecRoundTrip.
Context `{Ciborium}.

Lemma encode_written e :
  exists b, encode_canonical e = Ok b /\ into_writer (Map (canonical_map e)) = Ok b /\
    from_reader b = Ok (Map (canonical_map e)).
Proof.
  destruct (writes (Map (canonical_map e))) as (b & Hw & Hr). exists b. split_and!; [|done|done].
  unfold encode_canonical. by rewrite envelope_canonical, Hw.
Qed.

Lemma encode_ok e b : encode_canonical e = Ok b <-> into_writer (Map (canonical_map e)) = Ok b.
Proof. unfold encode_canonical. by rewrite envelope_canonical, map_err_ok. Qed.

Lemma encode_body e v :
  canonicalize v = canonicalize (op_body e) -> encode_canonical (with_body e v) = encode_canonical e.
Proof.
  intros Hv. unfold encode_canonical. rewrite !envelope_canonical. unfold canonical_map, with_body.
  cbn [op_body version ts_unix actor_omni operator_omni op_kind result_of intent_text intent_commitment].
  by rewrite Hv.
Qed.

Lemma decode_encoded e b :
  well_typed e -> encode_canonical e = Ok b ->
  if (version e =? ENVELOPE_VERSION)%Z
  then decode_canonical b = Ok (with_body e (canonicalize (op_body e)))
  else exists m, decode_canonical b = Err (Invalid m).
Proof.
  intros Hwt He. destruct (encode_written e) as (b' & He' & _ & Hr). rewrite He in He'.
  injection He' as <-. unfold decode_canonical. rewrite Hr. cbn [map_err]. rewrite read_envelope by done.
  cbn [f_version f_ts_unix f_actor_omni f_operator_omni f_op_kind f_op_body f_result missing ok_or].
  destruct (Z.eqb_spec (version e) ENVELOPE_VERSION) as [Hv|Hv]; cbn [negb]; [done | by eexists].
Qed.

Lemma encode_injective e e' b :
  encode_canonical e = Ok b -> encode_canonical e' = Ok b ->
  with_body e' (canonicalize (op_body e')) = with_body e (canonicalize (op_body e)).
Proof.
  rewrite !encode_ok. intros He He'. assert (Hm : Map (canonical_map e') = Map (canonical_map e)).
  { apply into_writer_inj. by rewrite He, He'. }
  injection Hm as Hres Hb Hk Ht Hv Ha Hit Ho Hic. unfold with_body. f_equal; try done.
  - by destruct (result_of e'), (result_of e).
  - destruct (intent_text e'), (intent_text e); cbn in Hit; congruence.
  - destruct (intent_commitment e'), (intent_commitment e); cbn in Hic; congruence.
Qed.
End CodecRoundTrip.

(** ** Properties *)

Section CodecProperties.
Context `{Ciborium, Crypto}.

(** C21: the envelope codec.  Every envelope encodes; decoding what was encoded gives
  the envelope back with its body in canonical form, and that envelope encodes to
  the same bytes, so the hash survives a store and reload.  An envelope of any
  other version is refused.  Bodies with the same content, whatever the order of
  their maps' entries at any depth, have the same encoding and hash; and equal
  hashes mean equal envelopes up to that order, unless keccak256 collides on the
  two encodings. *)
Theorem envelope_codec (e : AuditEnvelope) (Hwt : well_typed e) :
exists b, encode_canonical e = Ok b /\ envelope_hash e = Ok (keccak256 b) /\
  (version e = ENVELOPE_VERSION ->
     let e' := with_body e (canonicalize (op_body e)) in
     decode_canonical b = Ok e' /\ encode_canonical e' = Ok b) /\
  (version e <> ENVELOPE_VERSION -> exists m, decode_canonical b = Err (Invalid m)) /\
  (forall v, same_content (op_body e) v -> encode_canonical (with_body e v) = Ok b) /\
  (forall e2 b2, well_typed e2 -> encode_canonical e2 = Ok b2 -> envelope_hash e2 = envelope_hash e ->
     (keccak256 b2 = keccak256 b -> b2 = b) ->
     with_body e2 (canonicalize (op_body e2)) = with_body e (canonicalize (op_body e))).
Proof.
  destruct (encode_written e) as (b & He & _ & _). exists b.
  pose proof (decode_encoded e b Hwt He) as Hd.
  split_and!; [done | unfold envelope_hash; by rewrite He | | | |].
  - intros Hv. rewrite Hv, Z.eqb_refl in Hd. split; [exact Hd|]. rewrite encode_body; [done|].
    apply canonicalize_idem.
  - intros Hv. by rewrite (proj2 (Z.eqb_neq _ _) Hv) in Hd.
  - intros v Hv. rewrite encode_body; [done|]. symmetry. by apply same_canonical.
  - intros e2 b2 _ He2 Hh Hcoll. apply (encode_injective e e2 b); [done|]. rewrite He2. f_equal.
    apply Hcoll. unfold envelope_hash in Hh. rewrite He, He2 in Hh. by injection Hh.
Qed.
End CodecProperties.

(** ** Witness: a model of the crate *)
Module ToyCbor.
Definition leaf : Type := Z + list Z + string.

Fixpoint to_tree (v : Value) : gen_tree leaf :=
  match v with
  | Integer i => GenNode 0 [GenLeaf (inl (inl i))]
  | Bytes b => GenNode 1 [GenLeaf (inl (inr (map byte_val b)))]
  | Float z => GenNode 2 [GenLeaf (inl (inl z))]
  | Text s => GenNode 3 [GenLeaf (inr s)]
  | Bool b => GenNode 4 [GenLeaf (inl (inl (Z.b2z b)))]
  | Null => GenNode 5 []
  | Tag t v => GenNode 6 [GenLeaf (inl (inl t)); to_tree v]
  | Array l => GenNode 7 (map to_tree l)
  | Map l => GenNode 8 (map (fun p => GenNode 0 [to_tree p.1; to_tree p.2]) l)
  end.

Fixpoint of_tree (t : gen_tree leaf) : Value :=
  match t with
  | GenNode 0 [GenLeaf (inl (inl i))] => Integer i
  | GenNode 1 [GenLeaf (inl (inr b))] => Bytes (map byte_of_Z b)
  | GenNode 2 [GenLeaf (inl (inl z))] => Float z
  | GenNode 3 [GenLeaf (inr s)] => Text s
  | GenNode 4 [GenLeaf (inl (inl b))] => Bool (b =? 1)%Z
  | GenNode 6 [GenLeaf (inl (inl t)); v] => Tag t (of_tree v)
  | GenNode 7 l => Array (map of_tree l)
  | GenNode 8 l =>
      Map (map (fun p => match p with
                         | GenNode _ [k; v] => (of_tree k, of_tree v)
                         | _ => (Null, Null)
                         end) l)
  | _ => Null
  end.

Lemma of_to v : of_tree (to_tree v) = v.
Proof.
  induction v as [|b| | |[]| |t v IH|l IH|l IH] using Value_nested_ind; try done.
  - cbn. f_equal. rewrite map_map. induction b as [|x b IH]; cbn; [done|]. by rewrite byte_of_Z_val, IH.
  - cbn. by rewrite IH.
  - cbn. f_equal. rewrite map_map. induction IH as [|x l Hx _ IHl]; cbn; [done|]. by rewrite Hx, IHl.
  - cbn. f_equal. rewrite map_map.
    induction IH as [|[k x] l [Hk Hx] _ IHl]; cbn in *; [done|]. by rewrite Hk, Hx, IHl.
Qed.

Fixpoint bits (p : positive) : bytes :=
  match p with
  | xH => []
  | xO p => Byte.x00 :: bits p
  | xI p => Byte.x01 :: bits p
  end.

Fixpoint of_bits (b : bytes) : positive :=
  match b with
  | [] => xH
  | Byte.x00 :: b => xO (of_bits b)
  | _ :: b => xI (of_bits b)
  end.

Lemma of_bits_bits p : of_bits (bits p) = p.
Proof. induction p; cbn; by f_equal. Qed.

Definition into_writer (v : Value) : result string bytes :=
  match v with
  | Text s =>
      if (String.length s <? 24)%nat
      then Ok (byte_of_Z (96 + Z.of_nat (String.length s)) :: as_bytes s)
      else Ok (Byte.xff :: bits (encode (to_tree v)))
  | _ => Ok (Byte.xff :: bits (encode (to_tree v)))
  end.

Definition from_reader (b : bytes) : result string Value :=
  match b with
  | [] => Err "empty"
  | Byte.xff :: b => ok_or "malformed" (of_tree <$> decode (of_bits b))
  | _ :: b => Ok (Text (String.string_of_list_byte b))
  end.

Lemma writes_tree v : from_reader (Byte.xff :: bits (encode (to_tree v))) = Ok v.
Proof. cbn. rewrite of_bits_bits, decode_encode. cbn. by rewrite of_to. Qed.

Lemma short_head s rest : (String.length s <? 24)%nat = true ->
  from_reader (byte_of_Z (96 + Z.of_nat (String.length s)) :: rest) = Ok (Text (String.string_of_list_byte rest)).
Proof.
  intros Hl. reflect_bools. unfold from_reader.
  destruct (byte_of_Z (96 + Z.of_nat (String.length s))) eqn:E; try done.
  apply (f_equal byte_val) in E. rewrite byte_val_of_Z in E by lia. cbn in E. lia.
Qed.

#[refine] Definition ciborium : Ciborium :=
  {| AuditCbor.into_writer := into_writer; AuditCbor.from_reader := from_reader;
     AuditCbor.debug := fun _ => "" |}.
Proof.
  - intros v. assert (Htree : exists b, Ok (Byte.xff :: bits (encode (to_tree v))) = @Ok string bytes b
      /\ from_reader b = Ok v) by (eexists; split; [done | apply writes_tree]).
    destruct v; try exact Htree. unfold into_writer.
    destruct (String.length s <? 24)%nat eqn:El; [|exact Htree].
    eexists. split; [done|]. rewrite short_head by done. unfold as_bytes.
    by rewrite String.string_of_list_byte_of_string.
  - intros s Hs. unfold into_writer. by rewrite (proj2 (Nat.ltb_lt _ _) Hs).
Defined.
End ToyCbor.

#[local] Existing Instances ToyCbor.ciborium ToyCrypto.crypto.

Definition demo_envelope : AuditEnvelope :=
  {| version := 1; ts_unix := 1700000000; actor_omni := repeat Byte.xaa 32;
     operator_omni := repeat Byte.xbb 32; op_kind := 1;
     op_body := Map [(Text "bb", Integer 1); (Text "a", Null)]; result_of := Success;
     intent_text := Some "pay"; intent_commitment := None |}.

Lemma demo_same : same_content (op_body demo_envelope) (Map [(Text "a", Null); (Text "bb", Integer 1)]).
Proof.
  apply (same_map _ [(Text "a", Null); (Text "bb", Integer 1)]).
  - cbn. repeat constructor; set_solver.
  - constructor.
  - repeat constructor; apply same_refl.
Qed.

Example envelope_codec_witness :
  exists b, encode_canonical demo_envelope = Ok b /\
    encode_canonical (with_body demo_envelope (Map [(Text "a", Null); (Text "bb", Integer 1)])) = Ok b.
Proof.
  assert (Hwt : well_typed demo_envelope) by (split; cbn; try lia; done).
  destruct (envelope_codec demo_envelope Hwt) as (b & He & _ & _ & _ & Hsame & _).
  exists b. split; [exact He | apply Hsame, demo_same].
Defined.
