(* ===== verification/Archive.v ===== *)
(** * The durable audit archive

    [crates/agentkeys-worker-audit/src/archive.rs] and the conversion of a request
    into an envelope of [handlers.rs].  The [envelopes] table is a map from the hash;
    a statement the database fails on is an outcome of the caller's. *)
From stdpp Require Import gmap.
From S2P Require Import Prelude RustStr StrFacts Json Capability DeviceCore Merkle.
From S2P Require Import ObjectStore LocalStore AuditCbor.

Open Scope Z_scope.

(** ** Requests *)

Record AuditAppendV2 := {
  req_version : Z; req_ts_unix : Z; req_actor_omni : string; req_operator_omni : string;
  req_op_kind : Z; req_op_body : Json; req_result : Z; req_intent_text : option string;
  req_intent_commitment : option string }.

(** The number types of the fields. *)
Record request_typed (r : AuditAppendV2) : Prop := {
  req_version_u8 : 0 <= req_version r < 256;
  req_ts_u64 : 0 <= req_ts_unix r < 2 ^ 64;
  req_kind_u8 : 0 <= req_op_kind r < 256;
}.

Record AuditAppendV2Resp := { resp_ok : bool; resp_envelope_hash : string }.
Record AuditArchivePage := { envelope_hashes : list string; next_cursor : option string }.

(** The 64 bits of the float a JSON number stands for. *)
Class JsonFloat := { f64_bits : string -> Z }.

(** The derived decoders of the body types of the known operations. *)
Class TypedBodies := { TypedAuditBody : Type; typed_body : AuditEnvelope -> option TypedAuditBody }.

Fixpoint json_to_ciborium `{JsonFloat} (v : Json) : Value :=
  match v with
  | JNull => Null
  | JBool b => Bool b
  | JNumber (PosInt n) | JNumber (NegInt n) => Integer n
  | JNumber (Json.Float text) => Float (f64_bits text)
  | JString s => Text s
  | JArray items => Array (map json_to_ciborium items)
  | JObject entries => Map (map (fun e => (Text e.1, json_to_ciborium e.2)) entries)
  end.

Definition decode_hex_32 `{HexCodec} (s label : string) : result string bytes :=
  let? b := ok_or (label +:+ ": invalid hex") (hex_decode (default s (strip_prefix "0x" s))) in
  if (length b =? 32)%nat then Ok b
  else Err (label +:+ ": expected 32 bytes, got " +:+ dec (Z.of_nat (length b))).

Definition canonical_envelope `{HexCodec, JsonFloat} (now : Z) (r : AuditAppendV2)
    : result string AuditEnvelope :=
  guard! req_version r =? ENVELOPE_VERSION
    else "unsupported envelope version: " +:+ dec (req_version r) +:+ " (this worker supports "
         +:+ dec ENVELOPE_VERSION +:+ ")" ;;
  let? actor := decode_hex_32 (req_actor_omni r) "actor_omni" in
  let? operator := decode_hex_32 (req_operator_omni r) "operator_omni" in
  let? commitment := match req_intent_commitment r with
                     | Some s => let? c := decode_hex_32 s "intent_commitment" in Ok (Some c)
                     | None => Ok None
                     end in
  let? res := if req_result r =? 0 then Ok Success
              else if req_result r =? 1 then Ok Failure
              else if req_result r =? 2 then Ok NotPermitted
              else Err ("unknown result byte: " +:+ dec (req_result r)) in
  Ok {| version := req_version r; ts_unix := if req_ts_unix r =? 0 then now else req_ts_unix r;
        actor_omni := actor; operator_omni := operator; op_kind := req_op_kind r;
        op_body := json_to_ciborium (req_op_body r); result_of := res;
        intent_text := req_intent_text r; intent_commitment := commitment |}.

(** ** The archive *)

(** A row: its bytes and its operator. *)
Abbreviation envelopes := (gmap string (bytes * string)).

Definition MAX_ENVELOPE_BYTES : Z := 32 * 1024.
Definition APPLICATION_ID : Z := 1096040789.
Definition SCHEMA_VERSION : Z := 1.

Record Failed := { status : Z; code : string }.
Definition failure (s : Z) (c : string) : Failed := {| status := s; code := c |}.
Definition unavailable : Failed := failure 503 "audit_archive_unavailable".

Definition normalize_hash (value : string) : option string :=
  digits ← strip_prefix "0x" value;
  if (String.length digits =? 64)%nat && string_all is_ascii_hexdigit digits
  then Some (to_lowercase value) else None.

(** The file: empty, or with its two pragmas, the deployment and the rows. *)
Inductive Database :=
| EmptyFile
| ArchiveFile (application_id user_version : Z) (deployment : string) (rows : envelopes).

Record Archive := { token : string; deployment : string; rows : envelopes }.

Definition open_archive (token : string) (db : Database) (deployment_identity : string)
    : result string Archive :=
  guard! (String.length token =? 64)%nat && string_all is_ascii_hexdigit token
    else "archive credential must be a generated local token" ;;
  let? (saved, rows) := match db with
    | EmptyFile => Ok (deployment_identity, ∅)
    | ArchiveFile app_id version saved rows =>
        guard! (app_id =? APPLICATION_ID) && (version =? SCHEMA_VERSION)
          else "unsupported audit archive database" ;;
        Ok (saved, rows)
    end in
  guard! String.eqb saved deployment_identity else "audit archive belongs to another deployment" ;;
  Ok {| token := token; deployment := saved; rows := rows |}.

(** What the file holds while the archive is open. *)
Definition file_of (a : Archive) : Database :=
  ArchiveFile APPLICATION_ID SCHEMA_VERSION (deployment a) (rows a).

Definition authenticate (a : Archive) (authorization : option string) : result Failed unit :=
  let supplied := default "" (h ← authorization; strip_prefix "Bearer " h) in
  let difference := fold_left (fun diff p => Z.lor diff (Z.lxor (byte_val p.1) (byte_val p.2)))
                      (zip (as_bytes supplied) (as_bytes (token a))) 0 in
  if negb (String.length supplied =? String.length (token a))%nat || negb (difference =? 0)
  then Err (failure 401 "audit_archive_unauthorized") else Ok tt.

Definition with_rows (a : Archive) (r : envelopes) : Archive :=
  {| token := token a; deployment := deployment a; rows := r |}.

Section Operations.
Context `{HexCodec, Crypto, Ciborium, JsonFloat, TypedBodies}.

Definition hash_text (h : bytes) : string := "0x" +:+ hex_encode h.

(** [db] says whether the database answers. *)
Definition append (db : bool) (now : Z) (a : Archive) (request : AuditAppendV2)
    : Archive * result Failed AuditAppendV2Resp :=
  let invalid := failure 400 "audit_envelope_invalid" in
  let prepared :=
    let? envelope := map_err (fun _ => invalid) (canonical_envelope now request) in
    let? _ := ok_or invalid (typed_body envelope) in
    let? bytes := map_err (fun _ => invalid) (encode_canonical envelope) in
    guard! Z.of_nat (length bytes) <=? MAX_ENVELOPE_BYTES else failure 413 "audit_envelope_too_large" ;;
    let? hash := map_err (fun _ => unavailable) (envelope_hash envelope) in
    guard! db else unavailable ;;
    Ok (hash_text hash, hash_text (operator_omni envelope), bytes) in
  match prepared with
  | Err e => (a, Err e)
  | Ok (hash, operator, bytes) =>
      (** [INSERT OR IGNORE], then the row is read back. *)
      let table := match rows a !! hash with
                   | Some _ => rows a
                   | None => <[hash := (bytes, operator)]> (rows a)
                   end in
      (with_rows a table,
       match table !! hash with
       | Some (saved, saved_operator) =>
           if String.eqb saved_operator operator && bool_decide (saved = bytes)
           then Ok {| resp_ok := true; resp_envelope_hash := hash |} else Err unavailable
       | None => Err unavailable
       end)
  end.

(** [WHERE operator = ?1 AND hash > ?2 ORDER BY hash] *)
Definition hashes_of (rows : envelopes) (operator : string) : envelopes :=
  filter (fun row => String.eqb row.2.2 operator = true) rows.

Definition hashes_after (rows : envelopes) (operator cursor : string) : list string :=
  List.filter (fun hash => str_gt hash cursor)
    (merge_sort String.le (map fst (map_to_list (hashes_of rows operator)))).

Definition list_page (db : bool) (a : Archive) (operator : string) (cursor : option string) (limit : nat)
    : result Failed AuditArchivePage :=
  let? operator := ok_or (failure 400 "audit_operator_invalid") (normalize_hash operator) in
  guard! negb ((limit =? 0)%nat || (100 <? limit)%nat
               || match cursor with Some c => is_none (normalize_hash c) | None => false end)
    else failure 400 "audit_cursor_invalid" ;;
  let cursor := c ← cursor; normalize_hash c in
  guard! db else unavailable ;;
  let hashes := take (limit + 1) (hashes_after (rows a) operator (default "" cursor)) in
  Ok (if (limit <? length hashes)%nat
      then {| envelope_hashes := take limit hashes; next_cursor := last (take limit hashes) |}
      else {| envelope_hashes := hashes; next_cursor := None |}).

Definition fetch (db : bool) (a : Archive) (hash : string) (operator : option string)
    : result Failed bytes :=
  let? hash := ok_or (failure 400 "audit_hash_invalid") (normalize_hash hash) in
  let? operator := match operator with
                   | Some value =>
                       let? o := ok_or (failure 400 "audit_operator_invalid") (normalize_hash value) in
                       Ok (Some o)
                   | None => Ok None
                   end in
  guard! db else unavailable ;;
  let? bytes := ok_or (failure 404 "audit_envelope_not_found")
    (row ← rows a !! hash;
     if match operator with Some o => String.eqb row.2 o | None => true end then Some row.1 else None) in
  let? envelope := map_err (fun _ => unavailable) (decode_canonical bytes) in
  let? again := map_err (fun _ => unavailable) (envelope_hash envelope) in
  guard! String.eqb (hash_text again) hash else unavailable ;;
  Ok bytes.

(** The routes. *)
Definition append_route (db : bool) (now : Z) (a : Archive) (authorization : option string)
    (request : AuditAppendV2) : Archive * result Failed AuditAppendV2Resp :=
  match authenticate a authorization with
  | Err e => (a, Err e)
  | Ok _ => append db now a request
  end.

Definition fetch_route (db : bool) (a : Archive) (authorization : option string) (hash : string)
    (operator : option string) : result Failed bytes :=
  let? _ := authenticate a authorization in fetch db a hash operator.

Definition list_route (db : bool) (a : Archive) (authorization : option string) (operator : string)
    (cursor : option string) (limit : option nat) : result Failed AuditArchivePage :=
  let? _ := authenticate a authorization in list_page db a operator cursor (default 20%nat limit).

(** Appends over time: each with the clock and whether the database answers. *)
Definition append_all (a : Archive) (requests : list (bool * Z * AuditAppendV2)) : Archive :=
  fold_left (fun a r => (append r.1.1 r.1.2 a r.2).1) requests a.

(** A reader that follows the cursors, for at most [fuel] pages. *)
Fixpoint read_pages (fuel : nat) (a : Archive) (operator : string) (cursor : option string) (limit : nat)
    : result Failed (list string) :=
  match fuel with
  | O => Err unavailable
  | S fuel =>
      let? page := list_page true a operator cursor limit in
      match next_cursor page with
      | None => Ok (envelope_hashes page)
      | Some c => let? rest := read_pages fuel a operator (Some c) limit in
                  Ok (envelope_hashes page ++ rest)%list
      end
  end.
End Operations.

(** ** Lemmas *)

Section ArchiveFacts.
Context `{HexCodec, Crypto, Ciborium, JsonFloat, TypedBodies}.

Lemma normalize_hash_text h : length h = 32%nat -> normalize_hash (hash_text h) = Some (hash_text h).
Proof.
  intros Hl. unfold normalize_hash, hash_text.
  change (strip_prefix "0x" ("0x" +:+ hex_encode h)) with (Some (hex_encode h)). cbn [mbind option_bind].
  rewrite hex_encode_length, Hl, hex_encode_digits. cbn [andb Nat.eqb Nat.mul Nat.add].
  by rewrite lower_0x_hex.
Qed.


(** The rows of an archive: envelopes under their hash and operator. *)
Definition sound_rows (t : envelopes) : Prop :=
  forall h b o, t !! h = Some (b, o) ->
    exists e, well_typed e /\ version e = ENVELOPE_VERSION /\ encode_canonical e = Ok b /\
      h = hash_text (keccak256 b) /\ o = hash_text (operator_omni e).

Lemma decode_hex_32_length s label b : decode_hex_32 s label = Ok b -> length b = 32%nat.
Proof.
  unfold decode_hex_32. intros (x & _ & Hx)%let_ok. destruct (Nat.eqb_spec (length x) 32); [|done].
  by injection Hx as <-.
Qed.

Lemma canonical_envelope_typed now r e :
  request_typed r -> 0 <= now < 2 ^ 64 -> canonical_envelope now r = Ok e ->
  well_typed e /\ version e = ENVELOPE_VERSION.
Proof.
  intros [Hv Ht Hk] Hnow. unfold canonical_envelope.
  intros (Hver%Z.eqb_eq & (a & Ha & (o & Ho & (c & Hc & (res & _ & [= <-])%let_ok)%let_ok)%let_ok)%let_ok)%guard_ok.
  split; [|done]. apply decode_hex_32_length in Ha, Ho. split; cbn; try done.
  - by destruct (Z.eqb_spec (req_ts_unix r) 0).
  - intros c' ->. destruct (req_intent_commitment r); [|done].
    apply let_ok in Hc as (x & Hx & [= ->]). by apply decode_hex_32_length in Hx.
Qed.

(** What an append does, on the envelope of its request. *)
Lemma append_cases db now a r :
  let '(a', reply) := append db now a r in
  match reply with
  | Err _ => a' = a
  | Ok resp =>
      exists e b, canonical_envelope now r = Ok e /\ is_some (typed_body e) = true /\
        encode_canonical e = Ok b /\ Z.of_nat (length b) <= MAX_ENVELOPE_BYTES /\
        let h := hash_text (keccak256 b) in
        let row := (b, hash_text (operator_omni e)) in
        resp = {| resp_ok := true; resp_envelope_hash := h |} /\
        ((rows a !! h = Some row /\ a' = a) \/ (rows a !! h = None /\ a' = with_rows a (<[h := row]> (rows a))))
  end.
Proof.
  unfold append. destruct (canonical_envelope now r) as [e|] eqn:Ee; cbn [map_err]; [|done].
  destruct (typed_body e) as [t|] eqn:Et; cbn [ok_or]; [|done].
  destruct (encode_canonical e) as [b|] eqn:Eb; cbn [map_err]; [|done].
  destruct (Z.leb_spec (Z.of_nat (length b)) MAX_ENVELOPE_BYTES) as [Hl|]; [|done].
  unfold envelope_hash. rewrite Eb. cbn [map_err]. destruct db; [|done].
  assert (Ha : with_rows a (rows a) = a) by (by destruct a).
  destruct (rows a !! hash_text (keccak256 b)) as [[saved so]|] eqn:Er.
  - rewrite Er. destruct (String.eqb_spec so (hash_text (operator_omni e))) as [->|]; cbn [andb]; [|done].
    case_bool_decide as Hs; [subst saved|done].
    exists e, b. split_and!; try done; [by rewrite Et|]. left. by rewrite Ha.
  - rewrite lookup_insert_eq, String.eqb_refl. cbn [andb]. rewrite bool_decide_true by done.
    exists e, b. split_and!; try done; [by rewrite Et|]. by right.
Qed.

Definition requests_typed (rs : list (bool * Z * AuditAppendV2)) : Prop :=
  Forall (fun r => request_typed r.2 /\ 0 <= r.1.2 < 2 ^ 64) rs.

Lemma append_sound db now a r :
  request_typed r -> 0 <= now < 2 ^ 64 -> sound_rows (rows a) -> sound_rows (rows (append db now a r).1).
Proof.
  intros Hr Hnow Ha. pose proof (append_cases db now a r) as Hc.
  destruct (append db now a r) as [a' [resp|e]]; cbn [fst]; [|by subst].
  destruct Hc as (e & b & He & _ & Hb & _ & _ & [[_ ->]|[_ ->]]); [done|].
  destruct (canonical_envelope_typed now r e Hr Hnow He) as [Hwt Hv].
  intros h b' o. cbn [with_rows rows]. intros [[<- [= <- <-]]|[_ Hl]]%lookup_insert_Some; [|by eapply Ha].
  by exists e.
Qed.

Lemma append_all_sound rs a :
  requests_typed rs -> sound_rows (rows a) -> sound_rows (rows (append_all a rs)).
Proof.
  unfold append_all. revert a. induction rs as [|[[db now] r] rs IH]; intros a Hrs Ha; [done|].
  apply Forall_cons in Hrs as [[Hr Hnow] Hrs]. cbn [fold_left]. apply IH; [done|].
  by apply append_sound.
Qed.

Lemma open_fresh_sound token deployment a :
  open_archive token EmptyFile deployment = Ok a -> sound_rows (rows a).
Proof.
  unfold open_archive. destruct (_ && _); [|done]. rewrite String.eqb_refl. intros [= <-] h b o Hh.
  cbn [rows] in Hh. by rewrite lookup_empty in Hh.
Qed.

(** What stands under [h] was acknowledged: one of the requests was appended with these
    bytes and this operator, and was answered with [h]. *)
Definition acknowledged (a : Archive) (rs : list (bool * Z * AuditAppendV2)) (h : string) (b : bytes) (o : string) : Prop :=
  exists pre db now r post e,
    rs = (pre ++ (db, now, r) :: post)%list /\
    (append db now (append_all a pre) r).2 = Ok {| resp_ok := true; resp_envelope_hash := h |} /\
    canonical_envelope now r = Ok e /\ encode_canonical e = Ok b /\
    h = hash_text (keccak256 b) /\ o = hash_text (operator_omni e).

Lemma rows_acknowledged a rs h b o : rows a = ∅ -> rows (append_all a rs) !! h = Some (b, o) -> acknowledged a rs h b o.
Proof.
  intros Ha. induction rs as [|[[db now] r] rs IH] using rev_ind; [cbn; by rewrite Ha, lookup_empty|].
  unfold append_all. rewrite fold_left_app. cbn [fold_left fst snd]. fold (append_all a rs). intros Hh.
  pose proof (append_cases db now (append_all a rs) r) as Hc.
  assert (Hold : rows (append_all a rs) !! h = Some (b, o) -> acknowledged a (rs ++ [(db, now, r)]) h b o).
  { intros Hr. destruct (IH Hr) as (pre & db' & now' & r' & post & e & -> & Hrest).
    exists pre, db', now', r', (post ++ [(db, now, r)])%list, e. split; [by rewrite <-app_assoc|done]. }
  destruct (append db now (append_all a rs) r) as [a' [resp|err]] eqn:E; cbn [fst] in Hh; [|subst; by apply Hold].
  destruct Hc as (e & b' & He & _ & Hb & _ & -> & [[_ ->]|[_ ->]]); [by apply Hold|].
  cbn [with_rows rows] in Hh. apply lookup_insert_Some in Hh as [[<- [= <- <-]]|[_ Hr]]; [|by apply Hold].
  exists rs, db, now, r, [], e. by rewrite E.
Qed.

Lemma open_fresh_empty token deployment a : open_archive token EmptyFile deployment = Ok a -> rows a = ∅.
Proof. unfold open_archive. destruct (_ && _); [|done]. rewrite String.eqb_refl. by intros [= <-]. Qed.

(** A fetch answers the row under the hash, for its operator or anyone's. *)
Lemma fetch_answers a hash operator b : sound_rows (rows a) -> fetch true a hash operator = Ok b ->
  exists o, normalize_hash hash = Some (hash_text (keccak256 b)) /\
    rows a !! hash_text (keccak256 b) = Some (b, o) /\
    match operator with Some x => normalize_hash x = Some o | None => True end.
Proof.
  intros Ha. unfold fetch. intros (h & Hh%ok_or_ok & Hf)%let_ok. apply let_ok in Hf as (op & Hop & Hf).
  apply let_ok in Hf as (b' & Hb%ok_or_ok & Hf). apply let_ok in Hf as (e & _ & Hf).
  apply let_ok in Hf as (again & _ & Hf). apply guard_ok in Hf as [_ [= <-]].
  destruct (rows a !! h) as [[b o]|] eqn:E; cbn [mbind option_bind fst snd] in Hb; [|done].
  destruct (Ha h b o E) as (_ & _ & _ & _ & -> & _).
  destruct operator as [x|]; [apply let_ok in Hop as (o' & Hx%ok_or_ok & [= <-])|injection Hop as <-].
  - destruct (String.eqb_spec o o') as [->|]; [|done]. injection Hb as <-. by exists o'.
  - injection Hb as <-. by exists o.
Qed.

(** Rows are never changed or removed. *)
Lemma append_keeps db now a r h row : rows a !! h = Some row -> rows (append db now a r).1 !! h = Some row.
Proof.
  intros Hh. pose proof (append_cases db now a r) as Hc.
  destruct (append db now a r) as [a' [resp|e]]; cbn [fst]; [|by subst].
  destruct Hc as (e & b & _ & _ & _ & _ & _ & [[_ ->]|[Hn ->]]); [done|]. cbn [with_rows rows].
  rewrite lookup_insert_ne; [done|]. intros E. congruence.
Qed.

Lemma append_all_keeps rs a h row : rows a !! h = Some row -> rows (append_all a rs) !! h = Some row.
Proof.
  unfold append_all. revert a. induction rs as [|r rs IH]; intros a Hh; [done|].
  cbn [fold_left]. by apply IH, append_keeps.
Qed.

(** A sound row is served. *)
Lemma fetch_sound a h b o hash operator :
  sound_rows (rows a) -> rows a !! h = Some (b, o) -> normalize_hash hash = Some h ->
  match operator with Some v => normalize_hash v = Some o | None => True end ->
  fetch true a hash operator = Ok b.
Proof.
  intros Hs Hrow Hh Ho. destruct (Hs h b o Hrow) as (e & Hwt & Hv & He & Hhash & _).
  unfold fetch. rewrite Hh. cbn [ok_or].
  assert (Hop : (match operator with
                 | Some value => let? o := ok_or (failure 400 "audit_operator_invalid") (normalize_hash value) in
                                 Ok (Some o)
                 | None => Ok None
                 end) = Ok (match operator with Some _ => Some o | None => None end)).
  { destruct operator; [by rewrite Ho|done]. }
  rewrite Hop. rewrite Hrow. cbn [mbind option_bind].
  assert (Hsel : (if match match operator with Some _ => Some o | None => None end with
                     | Some o' => String.eqb (b, o).2 o' | None => true end
                  then Some (b, o).1 else None) = Some b).
  { destruct operator; [|done]. by rewrite String.eqb_refl. }
  rewrite Hsel. cbn [ok_or]. pose proof (decode_encoded e b Hwt He) as Hd.
  rewrite Hv, Z.eqb_refl in Hd. rewrite Hd. cbn [map_err]. unfold envelope_hash.
  rewrite encode_body, He by apply canonicalize_idem. cbn [map_err]. by rewrite Hhash, String.eqb_refl.
Qed.
End ArchiveFacts.

(** *** Listing *)
Section ListingFacts.
Context `{HexCodec, Crypto}.

Lemma hashes_after_keys t o c : hashes_after t o c = keys_after (hashes_of t o) "" c.
Proof. reflexivity. Qed.

Lemma elem_of_hashes t o c h :
  h ∈ hashes_after t o c <-> (exists b, t !! h = Some (b, o)) /\ str_lt c h.
Proof.
  rewrite hashes_after_keys, elem_of_keys_after. unfold hashes_of, is_Some. split.
  - intros ([[b o'] Hf] & _ & Hc). apply map_lookup_filter_Some in Hf as [Hb Ho].
    apply String.eqb_eq in Ho. cbn in Ho. subst. by split; [exists b|].
  - intros [[b Hb] Hc]. split_and!; [|done|done]. exists (b, o). apply map_lookup_filter_Some.
    split; [done|]. apply String.eqb_refl.
Qed.

(** The first page of what follows a cursor, and where the next one starts. *)
Lemma list_page_spec a operator o cursor limit :
  (0 < limit <= 100)%nat -> normalize_hash operator = Some o ->
  match cursor with Some c => normalize_hash c = Some c | None => True end ->
  let hs := hashes_after (rows a) o (default "" cursor) in
  list_page true a operator cursor limit =
  Ok (if (limit <? length hs)%nat
      then {| envelope_hashes := take limit hs; next_cursor := last (take limit hs) |}
      else {| envelope_hashes := hs; next_cursor := None |}).
Proof.
  intros Hl Ho Hc hs. unfold list_page. rewrite Ho. cbn [ok_or].
  assert (Hok : negb ((limit =? 0)%nat || (100 <? limit)%nat
                || match cursor with Some c => is_none (normalize_hash c) | None => false end) = true).
  { apply negb_true_iff, orb_false_iff. split.
    - apply orb_false_iff. split; [apply Nat.eqb_neq; lia | apply Nat.ltb_ge; lia].
    - destruct cursor; [by rewrite Hc|done]. }
  rewrite Hok.
  assert (Hcur : (c ← cursor; normalize_hash c) = cursor) by (destruct cursor; [exact Hc|done]).
  rewrite Hcur. fold hs. rewrite length_take, take_take. rewrite (Nat.min_l limit (limit + 1)) by lia.
  destruct (Nat.ltb_spec limit (length hs)) as [Hlt|Hge].
  - rewrite (proj2 (Nat.ltb_lt _ _)) by lia. done.
  - rewrite (proj2 (Nat.ltb_ge _ _)) by lia. by rewrite take_ge by lia.
Qed.

(** Following the cursors yields all that follows the first one. *)
Lemma read_pages_from a operator o limit :
  (0 < limit <= 100)%nat -> normalize_hash operator = Some o ->
  (forall h, is_Some (rows a !! h) -> normalize_hash h = Some h) ->
  forall fuel cursor,
    match cursor with Some c => normalize_hash c = Some c | None => True end ->
    (length (hashes_after (rows a) o (default "" cursor)) < fuel)%nat ->
    read_pages fuel a operator cursor limit = Ok (hashes_after (rows a) o (default "" cursor)).
Proof.
  intros Hl Ho Hn. induction fuel as [|fuel IH]; intros cursor Hc Hf; [lia|]. cbn [read_pages].
  rewrite (list_page_spec a operator o) by done. cbv zeta.
  set (hs := hashes_after (rows a) o (default "" cursor)) in *.
  destruct (Nat.ltb_spec limit (length hs)) as [Hlt|]; cbn [next_cursor envelope_hashes]; [|done].
  assert (Hlast : exists c, last (take limit hs) = Some c).
  { apply last_is_Some. intros E%(f_equal length). rewrite length_take in E. cbn in E. lia. }
  destruct Hlast as [c Hc']. rewrite Hc'.
  assert (Hin : c ∈ hs).
  { apply last_Some in Hc' as [p Hp]. rewrite <-(take_drop limit hs), Hp. set_solver. }
  assert (Hdrop : hashes_after (rows a) o c = drop limit hs).
  { rewrite hashes_after_keys. unfold hs. rewrite hashes_after_keys. apply keys_after_next.
    by rewrite <-hashes_after_keys. }
  rewrite (IH (Some c)); change (default "" (Some c)) with c.
  - by rewrite Hdrop, take_drop.
  - apply elem_of_hashes in Hin as [[b Hb] _]. apply Hn. by eexists.
  - rewrite Hdrop, length_drop. lia.
Qed.

Lemma hashes_length t o c : (length (hashes_after t o c) <= size t)%nat.
Proof.
  unfold hashes_after, hashes_of. etrans; [apply sublist_length, filter_sublist|].
  rewrite merge_sort_Permutation, length_map, length_map_to_list. apply map_size_filter.
Qed.
End ListingFacts.

(** ** Properties *)

Section ArchiveProperties.
Context `{HexCodec, Crypto, Ciborium, JsonFloat, TypedBodies}.

(** C25: the archive keeps what it acknowledged.  After any appends into a fresh file,
    an append is either refused and changes nothing, or acknowledged with the hash of
    the canonical bytes of its envelope.  From then on, after any further appends, a
    fetch of that hash under any spelling, with or without the operator, answers
    exactly those bytes, which decode to the envelope with its body in canonical
    form; appending the same envelope again is acknowledged alike and changes
    nothing; and no append ever changes a row that was there.  Nothing else is served:
    whatever a fetch answers, under any spelling of a hash and with or without an operator,
    is the canonical bytes of an envelope that was appended and acknowledged with that
    very hash, under that very operator when one is named. *)
Theorem archive_round_trip (token deployment : string) (a0 : Archive)
    (earlier later : list (bool * Z * AuditAppendV2)) (db : bool) (now : Z) (r : AuditAppendV2)
    (Hopen : open_archive token EmptyFile deployment = Ok a0)
    (Hearlier : requests_typed earlier) (Hlater : requests_typed later)
    (Hr : request_typed r) (Hnow : 0 <= now < 2 ^ 64) :
  let a := append_all a0 earlier in
  let '(a', reply) := append db now a r in
  let z := append_all a' later in
  (forall hash operator b, fetch true z hash operator = Ok b -> exists h o,
     normalize_hash hash = Some h /\ acknowledged a0 (earlier ++ (db, now, r) :: later) h b o /\
     match operator with Some x => normalize_hash x = Some o | None => True end) /\
  (forall h row, rows a !! h = Some row -> rows z !! h = Some row) /\
  match reply with
  | Err _ => a' = a
  | Ok resp =>
      exists e b, canonical_envelope now r = Ok e /\ encode_canonical e = Ok b /\
        resp = {| resp_ok := true; resp_envelope_hash := hash_text (keccak256 b) |} /\
        (forall hash operator, normalize_hash hash = Some (resp_envelope_hash resp) ->
           match operator with
           | Some o => normalize_hash o = Some (hash_text (operator_omni e))
           | None => True
           end -> fetch true z hash operator = Ok b) /\
        decode_canonical b = Ok (with_body e (canonicalize (op_body e))) /\
        (forall now' r', canonical_envelope now' r' = Ok e -> append true now' z r' = (z, Ok resp))
  end.
Proof.
  cbv zeta.
  assert (Hserved : forall hash operator b,
    fetch true (append_all (append db now (append_all a0 earlier) r).1 later) hash operator = Ok b -> exists h o,
      normalize_hash hash = Some h /\ acknowledged a0 (earlier ++ (db, now, r) :: later) h b o /\
      match operator with Some x => normalize_hash x = Some o | None => True end).
  { intros hash operator b. assert (Hz : append_all (append db now (append_all a0 earlier) r).1 later
      = append_all a0 (earlier ++ (db, now, r) :: later)) by (unfold append_all; by rewrite fold_left_app).
    rewrite Hz. intros Hf. apply fetch_answers in Hf as (o & Hh & Hrow & Ho).
    - exists (hash_text (keccak256 b)), o. split_and!; [done| |done].
      apply rows_acknowledged; [by eapply open_fresh_empty|done].
    - apply append_all_sound; [|by eapply open_fresh_sound]. apply Forall_app. split; [done|by apply Forall_cons]. }
  set (a := append_all a0 earlier) in *.
  assert (Ha : sound_rows (rows a)) by (apply append_all_sound; [done | by eapply open_fresh_sound]).
  pose proof (append_sound db now a r Hr Hnow Ha) as Ha'. pose proof (append_cases db now a r) as Hc.
  pose proof (append_keeps db now a r) as Hk.
  destruct (append db now a r) as [a' [resp|err]]; cbn [fst] in *.
  2: { split; [exact Hserved|]. split; [|done]. intros h row Hh. by apply append_all_keeps, Hk. }
  split; [exact Hserved|]. split; [intros h row Hh; by apply append_all_keeps, Hk|].
  destruct Hc as (e & b & He & Ht & Hb & Hlen & -> & Hrow). exists e, b.
  destruct (canonical_envelope_typed now r e Hr Hnow He) as [Hwt Hv].
  assert (Hz : rows (append_all a' later) !! hash_text (keccak256 b) = Some (b, hash_text (operator_omni e))).
  { apply append_all_keeps. destruct Hrow as [[Hrow ->]|[_ ->]]; [done|]. apply lookup_insert_eq. }
  split_and!; try done.
  - intros hash operator Hh Ho. eapply fetch_sound; [by apply append_all_sound | exact Hz | done | done].
  - pose proof (decode_encoded e b Hwt Hb) as Hd. by rewrite Hv, Z.eqb_refl in Hd.
  - intros now' r' He'. pose proof (append_cases true now' (append_all a' later) r') as Hc'.
    unfold append in *. rewrite He' in *. cbn [map_err] in *. apply is_some_true in Ht as [t Ht].
    rewrite Ht in *. cbn [ok_or] in *. rewrite Hb in *. cbn [map_err] in *.
    rewrite (proj2 (Z.leb_le _ _) Hlen) in *. unfold envelope_hash in *. rewrite Hb in *.
    cbn [map_err] in *. rewrite !Hz in *. rewrite String.eqb_refl, bool_decide_true in * by done.
    cbn [andb] in *. by destruct (append_all a' later).
Qed.

(** Reading the archive page by page.  After any appends into a fresh file, a
    reader that follows the cursors with any page size from 1 to 100 and any spelling
    of the operator gets, after at most as many pages as there are rows and one more,
    exactly the hashes of that operator's envelopes, each once and in ascending
    order. *)
Theorem archive_listing_exact (token deployment : string) (a0 : Archive)
    (requests : list (bool * Z * AuditAppendV2)) (operator o : string) (limit : nat)
    (Hopen : open_archive token EmptyFile deployment = Ok a0)
    (Htyped : requests_typed requests) (Hl : (0 < limit <= 100)%nat)
    (Ho : normalize_hash operator = Some o) :
  let a := append_all a0 requests in
  exists hashes,
    (forall fuel, (size (rows a) < fuel)%nat -> read_pages fuel a operator None limit = Ok hashes) /\
    ascending hashes /\
    (forall h, h ∈ hashes <-> exists b, rows a !! h = Some (b, o)).
Proof.
  cbv zeta. set (a := append_all a0 requests).
  assert (Ha : sound_rows (rows a)) by (apply append_all_sound; [done | by eapply open_fresh_sound]).
  assert (Hn : forall h, is_Some (rows a !! h) -> normalize_hash h = Some h).
  { intros h [[b o'] Hh]. destruct (Ha h b o' Hh) as (e & _ & _ & _ & -> & _).
    apply normalize_hash_text, keccak256_length. }
  exists (hashes_after (rows a) o ""). split_and!.
  - intros fuel Hf. apply (read_pages_from a operator o limit Hl Ho Hn fuel None); [done|].
    change (default "" None) with "". pose proof (hashes_length (rows a) o ""). lia.
  - rewrite hashes_after_keys. apply keys_after_ascending.
  - intros h. rewrite elem_of_hashes. split; [by intros [? _]|]. intros [b Hb]. split; [by exists b|].
    destruct (Ha h b o Hb) as (e & _ & _ & _ & -> & _). unfold hash_text. done.
Qed.
End ArchiveProperties.

(** ** An archive to evaluate on *)

Module ToyArchive.
Definition float : JsonFloat := {| f64_bits _ := 0 |}.

(** Every operation is known and has a body. *)
Definition bodies : TypedBodies := {| TypedAuditBody := unit; typed_body _ := Some tt |}.

Definition request (operator : string) (kind : Z) : AuditAppendV2 :=
  {| req_version := 1; req_ts_unix := 0; req_actor_omni := rep64 "a"%char; req_operator_omni := operator;
     req_op_kind := kind; req_op_body := JObject [("n", JNumber (PosInt 7))]; req_result := 0;
     req_intent_text := None; req_intent_commitment := None |}.

Definition secret : string := rep64 "7"%char.
Definition fresh : Archive := {| token := secret; deployment := "here"; rows := ∅ |}.

(** Three operators' envelopes, one of them twice, one while the database is away. *)
Definition requests : list (bool * Z * AuditAppendV2) :=
  [(true, 5, request (rep64 "b"%char) 1); (true, 6, request (rep64 "b"%char) 2); (true, 7, request (rep64 "c"%char) 1);
   (true, 5, request (rep64 "b"%char) 1); (false, 9, request (rep64 "b"%char) 3)].
End ToyArchive.

#[local] Existing Instances SimpleHex.codec ToyCrypto.crypto ToyCbor.ciborium ToyArchive.float
  ToyArchive.bodies.

Lemma toy_typed : requests_typed ToyArchive.requests.
Proof. repeat constructor; cbn; lia. Qed.

Example archive_round_trip_witness :
  let r := ToyArchive.request (rep64 "d"%char) 4 in
  exists b resp,
    (append true 8 ToyArchive.fresh r).2 = Ok resp /\
    fetch true (append_all (append true 8 ToyArchive.fresh r).1 ToyArchive.requests)
      (resp_envelope_hash resp) (Some ("0x" +:+ rep64 "D"%char)) = Ok b.
Proof.
  cbv zeta.
  assert (Hopen : open_archive ToyArchive.secret EmptyFile "here" = Ok ToyArchive.fresh)
    by (vm_compute; reflexivity).
  assert (Hr : request_typed (ToyArchive.request (rep64 "d"%char) 4)) by (constructor; cbn; lia).
  assert (Hnow : 0 <= 8 < 2 ^ 64) by lia.
  pose proof (archive_round_trip ToyArchive.secret "here" ToyArchive.fresh []
    ToyArchive.requests true 8 (ToyArchive.request (rep64 "d"%char) 4) Hopen (Forall_nil_2 _) toy_typed Hr Hnow) as Ht.
  assert (Hok : is_ok (append true 8 ToyArchive.fresh (ToyArchive.request (rep64 "d"%char) 4)).2 = true)
    by (vm_compute; reflexivity).
  cbv zeta in Ht. change (append_all ToyArchive.fresh []) with ToyArchive.fresh in Ht.
  destruct (append true 8 _ _) as [a' [resp|err]] eqn:Ea; cbn [snd fst] in *; [|discriminate Hok].
  destruct Ht as (_ & _ & e & b & He & _ & Hresp & Hfetch & _). exists b, resp. split; [reflexivity|].
  apply Hfetch.
  - rewrite Hresp. cbn [resp_envelope_hash]. apply normalize_hash_text, keccak256_length.
  - assert (Ho : operator_omni e = repeat Byte.xdd 32).
    { assert (Heo : canonical_envelope 8 (ToyArchive.request (rep64 "d"%char) 4) = Ok e) by exact He.
      vm_compute in Heo. injection Heo as <-. reflexivity. }
    rewrite Ho. vm_compute. reflexivity.
Defined.

Example archive_listing_exact_witness :
  let a := append_all ToyArchive.fresh ToyArchive.requests in
  exists hashes, read_pages (S (size (rows a))) a ("0x" +:+ rep64 "B"%char) None 1 = Ok hashes /\
    ascending hashes.
Proof.
  cbv zeta.
  assert (Hopen : open_archive ToyArchive.secret EmptyFile "here" = Ok ToyArchive.fresh)
    by (vm_compute; reflexivity).
  assert (Hl : (0 < 1 <= 100)%nat) by lia.
  assert (Ho : normalize_hash ("0x" +:+ rep64 "B"%char) = Some ("0x" +:+ rep64 "b"%char))
    by (vm_compute; reflexivity).
  destruct (archive_listing_exact ToyArchive.secret "here" ToyArchive.fresh ToyArchive.requests
    ("0x" +:+ rep64 "B"%char) ("0x" +:+ rep64 "b"%char) 1 Hopen toy_typed Hl Ho) as (hashes & Hread & Hasc & _).
  exists hashes. split; [exact (Hread _ (Nat.lt_succ_diag_r _)) | exact Hasc].
Defined.
