(* ===== verification/LegacyTx.v ===== *)
(** * The bundler's transactions

    [crates/agentkeys-bundler/src/legacy_tx.rs]: RLP encoding of a legacy
    transaction and its EIP-155 signature.  The specification is a reader of RLP,
    written from its definition (Ethereum Yellow Paper, appendix B). *)
From S2P Require Import Prelude RustStr DeviceCore.

Open Scope Z_scope.

(** ** Encoding *)

Fixpoint strip_leading_zeros (b : bytes) : bytes :=
  match b with
  | [] => []
  | x :: rest => if byte_val x =? 0 then strip_leading_zeros rest else b
  end.

(** A header and a payload: a short length is in the first byte, a long one follows
    it in minimal big-endian form. *)
Definition rlp_header (short long : Z) (payload : bytes) : bytes :=
  let len := Z.of_nat (length payload) in
  if len <=? 55 then [byte_of_Z (short + len)]
  else
    let len_be := strip_leading_zeros (be_bytes 8 len) in
    byte_of_Z (long + Z.of_nat (length len_be)) :: len_be.

Definition rlp_bytes (b : bytes) : bytes :=
  match b with
  | [x] => if byte_val x <? 128 then [x] else (rlp_header 128 183 b ++ b)%list
  | _ => (rlp_header 128 183 b ++ b)%list
  end.

(** The items are already encoded. *)
Definition rlp_list (items : list bytes) : bytes :=
  let payload := concat items in
  (rlp_header 192 247 payload ++ payload)%list.

(** A [u128]. *)
Definition rlp_uint (n : Z) : bytes := rlp_bytes (strip_leading_zeros (be_bytes 16 n)).

Record LegacyTx := {
  nonce : Z;
  gas_price : Z;
  gas_limit : Z;
  to : bytes;
  value : Z;
  data : bytes;
  chain_id : Z;
}.

Definition base_fields (tx : LegacyTx) : list bytes :=
  [rlp_uint (nonce tx); rlp_uint (gas_price tx); rlp_uint (gas_limit tx);
   rlp_bytes (to tx); rlp_uint (value tx); rlp_bytes (data tx)].

Definition signing_preimage (tx : LegacyTx) : bytes :=
  rlp_list (base_fields tx ++ [rlp_uint (chain_id tx); rlp_uint 0; rlp_uint 0]).

Section Sign.
Context `{Crypto}.

Definition signing_hash (tx : LegacyTx) : bytes := keccak256 (signing_preimage tx).

(** [sig.r()] and [sig.s()] are the halves of the signature's bytes. *)
Definition sign (tx : LegacyTx) (sk : SigningKey) : result string (bytes * bytes) :=
  match sign_prehash_recoverable sk (signing_hash tx) with
  | None => Err "sign legacy tx"
  | Some (sig, recid) =>
      let v := chain_id tx * 2 + 35 + RecoveryId_to_byte recid in
      let r := take 32 (Signature_to_bytes sig) in
      let s := drop 32 (Signature_to_bytes sig) in
      let fields := (base_fields tx ++ [rlp_uint v; rlp_bytes (strip_leading_zeros r);
                                        rlp_bytes (strip_leading_zeros s)])%list in
      let raw := rlp_list fields in
      Ok (raw, keccak256 raw)
  end.
End Sign.

(** ** Reading RLP *)

(** [n] bytes off the front. *)
Definition split_at (n : Z) (b : bytes) : option (bytes * bytes) :=
  if n <=? Z.of_nat (length b) then Some (take (Z.to_nat n) b, drop (Z.to_nat n) b) else None.

(** A payload whose header starts at [short] and [long]. *)
Definition read_payload (short long : Z) (b : bytes) : option (bytes * bytes) :=
  match b with
  | [] => None
  | x :: rest =>
      let v := byte_val x in
      if v <? short then None
      else if v <=? short + 55 then split_at (v - short) rest
      else '(len, rest) ← split_at (v - long) rest; split_at (be_val len) rest
  end.

Definition read_string (b : bytes) : option (bytes * bytes) :=
  match b with
  | [] => None
  | x :: rest =>
      if byte_val x <? 128 then Some ([x], rest)
      else if byte_val x <? 192 then read_payload 128 183 b else None
  end.

Fixpoint read_strings (fuel : nat) (b : bytes) : option (list bytes) :=
  match b with
  | [] => Some []
  | _ =>
      match fuel with
      | O => None
      | S fuel => '(s, rest) ← read_string b; l ← read_strings fuel rest; Some (s :: l)
      end
  end.

(** A list of strings and nothing after it. *)
Definition read_list (b : bytes) : option (list bytes) :=
  '(payload, rest) ← read_payload 192 247 b;
  match rest with [] => read_strings (length payload) payload | _ => None end.

(** ** Lemmas *)

Lemma strip_val b : be_val (strip_leading_zeros b) = be_val b.
Proof.
  induction b as [|x b IH]; cbn [strip_leading_zeros]; [done|].
  destruct (byte_val x =? 0) eqn:E; [|done]. reflect_bools. rewrite IH.
  unfold be_val. cbn [fold_left]. by rewrite E.
Qed.

Lemma strip_length b : (length (strip_leading_zeros b) <= length b)%nat.
Proof. induction b as [|x b IH]; cbn; [done|]. destruct (_ =? _); cbn; lia. Qed.

Lemma strip_nonempty b : 0 < be_val b -> strip_leading_zeros b <> [].
Proof. intros Hb E. rewrite <-strip_val, E in Hb. cbn in Hb. lia. Qed.

Lemma split_app (a b : bytes) : split_at (Z.of_nat (length a)) (a ++ b)%list = Some (a, b).
Proof.
  unfold split_at. rewrite length_app. replace (_ <=? _) with true by (symmetry; apply Z.leb_le; lia).
  rewrite Nat2Z.id. f_equal. f_equal; [apply take_app_length | apply drop_app_length].
Qed.

Lemma header_payload short long (p rest : bytes) :
  0 <= short -> short + 55 <= long -> long + 8 < 256 -> Z.of_nat (length p) < 2 ^ 64 ->
  read_payload short long (rlp_header short long p ++ p ++ rest)%list = Some (p, rest).
Proof.
  intros Hs Hl Hmax Hp. unfold rlp_header. destruct (_ <=? 55) eqn:E; reflect_bools.
  - cbn [app read_payload]. rewrite byte_val_of_Z by lia.
    replace (_ <? short) with false by (symmetry; apply Z.ltb_ge; lia).
    replace (_ <=? short + 55) with true by (symmetry; apply Z.leb_le; lia).
    replace (short + Z.of_nat (length p) - short) with (Z.of_nat (length p)) by lia.
    apply split_app.
  - set (lb := strip_leading_zeros (be_bytes 8 (Z.of_nat (length p)))).
    assert (Hv : be_val lb = Z.of_nat (length p)).
    { unfold lb. rewrite strip_val, be_val_bytes_small; [done|]. cbn. lia. }
    assert (Hlen : (1 <= length lb <= 8)%nat).
    { split.
      - destruct lb; [cbn in Hv; lia | cbn; lia].
      - pose proof (strip_length (be_bytes 8 (Z.of_nat (length p)))) as Hle.
        rewrite length_be_bytes in Hle. exact Hle. }
    cbn [app read_payload]. rewrite byte_val_of_Z by lia.
    replace (_ <? short) with false by (symmetry; apply Z.ltb_ge; lia).
    replace (_ <=? short + 55) with false by (symmetry; apply Z.leb_gt; lia).
    replace (long + Z.of_nat (length lb) - long) with (Z.of_nat (length lb)) by lia.
    rewrite split_app. cbn [mbind option_bind]. rewrite Hv. apply split_app.
Qed.

Lemma header_head short long (p : bytes) :
  0 <= short -> short + 55 <= long -> long + 8 < 256 ->
  exists x l, rlp_header short long p = x :: l /\ short <= byte_val x <= long + 8.
Proof.
  intros Hs Hl Hmax. unfold rlp_header. destruct (_ <=? 55) eqn:E; reflect_bools.
  - eexists _, []. split; [done|]. rewrite byte_val_of_Z; lia.
  - pose proof (strip_length (be_bytes 8 (Z.of_nat (length p)))) as Hle.
    rewrite length_be_bytes in Hle.
    eexists _, _. split; [reflexivity|]. rewrite byte_val_of_Z; lia.
Qed.

Definition sized (b : bytes) : Prop := Z.of_nat (length b) < 2 ^ 64.

Lemma read_rlp_bytes b rest : sized b -> read_string (rlp_bytes b ++ rest)%list = Some (b, rest).
Proof.
  intros Hb. pose proof (header_payload 128 183 b rest ltac:(lia) ltac:(lia) ltac:(lia) Hb) as Hh.
  assert (Hlong : read_string ((rlp_header 128 183 b ++ b) ++ rest)%list = Some (b, rest)).
  { rewrite <-app_assoc. etransitivity; [|exact Hh]. unfold read_string.
    destruct (header_head 128 183 b) as (x & l & -> & Hx); [lia..|]. cbn [app].
    replace (byte_val x <? 128) with false by (symmetry; apply Z.ltb_ge; lia).
    by replace (byte_val x <? 192) with true by (symmetry; apply Z.ltb_lt; lia). }
  unfold rlp_bytes. destruct b as [|x [|y b]]; [exact Hlong| |exact Hlong].
  destruct (byte_val x <? 128) eqn:E; [|exact Hlong]. cbn. by rewrite E.
Qed.

Lemma rlp_bytes_nonempty b : (1 <= length (rlp_bytes b))%nat.
Proof.
  unfold rlp_bytes, rlp_header. repeat case_match; rewrite ?length_app; cbn; lia.
Qed.

Lemma read_concat items fuel :
  Forall sized items -> (length (concat (map rlp_bytes items)) <= fuel)%nat ->
  read_strings fuel (concat (map rlp_bytes items)) = Some items.
Proof.
  intros Hs. revert fuel. induction Hs as [|b items Hb _ IH]; intros fuel Hf; [by destruct fuel|].
  cbn [map concat] in *. rewrite length_app in Hf. pose proof (rlp_bytes_nonempty b) as Hne.
  destruct fuel as [|fuel]; [lia|]. cbn [read_strings].
  rewrite read_rlp_bytes by done. cbn. rewrite IH by lia. cbn.
  destruct (rlp_bytes b ++ concat (map rlp_bytes items))%list eqn:E; [|done].
  apply app_eq_nil in E as [E _]. rewrite E in Hne. cbn in Hne. lia.
Qed.

Lemma read_rlp_list items :
  Forall sized items -> sized (concat (map rlp_bytes items)) ->
  read_list (rlp_list (map rlp_bytes items)) = Some items.
Proof.
  intros Hi Hc. unfold read_list, rlp_list.
  pose proof (header_payload 192 247 (concat (map rlp_bytes items)) [] ltac:(lia) ltac:(lia) ltac:(lia) Hc) as Hh.
  rewrite app_nil_r in Hh. rewrite Hh. cbn. by rewrite read_concat.
Qed.

Lemma uint_value n : 0 <= n < 2 ^ 128 -> be_val (strip_leading_zeros (be_bytes 16 n)) = n.
Proof. intros Hn. rewrite strip_val. apply be_val_bytes_small. cbn. lia. Qed.

Lemma uint_sized n : (length (strip_leading_zeros (be_bytes 16 n)) <= 16)%nat.
Proof. pose proof (strip_length (be_bytes 16 n)) as Hs. rewrite length_be_bytes in Hs. exact Hs. Qed.

Lemma rlp_bytes_length b : (length (rlp_bytes b) <= length b + 9)%nat.
Proof.
  assert (Hh : (length (rlp_header 128 183 b) <= 9)%nat).
  { unfold rlp_header. destruct (_ <=? 55); [cbn; lia|].
    pose proof (strip_length (be_bytes 8 (Z.of_nat (length b)))) as Hs. rewrite length_be_bytes in Hs.
    cbn [length]. lia. }
  unfold rlp_bytes. repeat case_match; rewrite ?length_app; try (cbn [length] in *; lia).
Qed.

Lemma concat_length items bound :
  Forall (fun b => (length b <= bound)%nat) items ->
  (length (concat (map rlp_bytes items)) <= length items * (bound + 9))%nat.
Proof.
  induction 1 as [|b items Hb _ IH]; [cbn; lia|]. cbn [map concat length]. rewrite length_app.
  pose proof (rlp_bytes_length b). lia.
Qed.

(** The ranges the field types impose; the data is far below what memory holds. *)
Record well_formed (tx : LegacyTx) : Prop := {
  nonce_u128 : 0 <= nonce tx < 2 ^ 128;
  gas_price_u128 : 0 <= gas_price tx < 2 ^ 128;
  gas_limit_u128 : 0 <= gas_limit tx < 2 ^ 128;
  to_20 : length (to tx) = 20%nat;
  value_u128 : 0 <= value tx < 2 ^ 128;
  data_sized : Z.of_nat (length (data tx)) < 2 ^ 56;
  chain_id_u64 : 0 <= chain_id tx < 2 ^ 64;
}.

Definition uint_item (n : Z) : bytes := strip_leading_zeros (be_bytes 16 n).

Definition base_items (tx : LegacyTx) : list bytes :=
  [uint_item (nonce tx); uint_item (gas_price tx); uint_item (gas_limit tx); to tx;
   uint_item (value tx); data tx].

Lemma base_fields_items tx : base_fields tx = map rlp_bytes (base_items tx).
Proof. done. Qed.

(** Nine items, the last three short, are read back. *)
Lemma read_nine tx a b c :
  well_formed tx -> (length a <= 32)%nat -> (length b <= 32)%nat -> (length c <= 32)%nat ->
  read_list (rlp_list (base_fields tx ++ [rlp_bytes a; rlp_bytes b; rlp_bytes c]))
  = Some (base_items tx ++ [a; b; c])%list.
Proof.
  intros [_ _ _ Hto _ Hd _] Ha Hb Hc.
  assert (Hall : Forall (fun x => (length x <= 32 + length (data tx))%nat) (base_items tx ++ [a; b; c])).
  { unfold base_items, uint_item. pose proof (uint_sized (nonce tx)). pose proof (uint_sized (gas_price tx)).
    pose proof (uint_sized (gas_limit tx)). pose proof (uint_sized (value tx)).
    repeat (constructor; [lia|]). constructor. }
  rewrite base_fields_items.
  change [rlp_bytes a; rlp_bytes b; rlp_bytes c] with (map rlp_bytes [a; b; c]).
  rewrite <-map_app. apply read_rlp_list.
  - eapply Forall_impl; [exact Hall|]. intros x Hx. unfold sized. cbn in Hx. lia.
  - pose proof (concat_length _ _ Hall) as Hl. unfold sized.
    change (length (base_items tx ++ [a; b; c])) with 9%nat in Hl. lia.
Qed.

Lemma seven_inj {A} (a1 a2 a3 a4 a5 a6 a7 b1 b2 b3 b4 b5 b6 b7 : A) l :
  a1 :: a2 :: a3 :: a4 :: a5 :: a6 :: a7 :: l = b1 :: b2 :: b3 :: b4 :: b5 :: b6 :: b7 :: l ->
  a1 = b1 /\ a2 = b2 /\ a3 = b3 /\ a4 = b4 /\ a5 = b5 /\ a6 = b6 /\ a7 = b7.
Proof. by intros [= -> -> -> -> -> -> ->]. Qed.

Lemma uint_item_inj a b : 0 <= a < 2 ^ 128 -> 0 <= b < 2 ^ 128 -> uint_item a = uint_item b -> a = b.
Proof. intros Ha Hb E. rewrite <-(uint_value a Ha), <-(uint_value b Hb). unfold uint_item in E. by rewrite E. Qed.

(** ** Properties *)

Section TxProperties.
Context `{Crypto}.

(** Signed transactions.  The raw bytes [sign] returns are one RLP list that
  reads back as the transaction's fields in order followed by v, r and s: the
  integers by value, the address and the data verbatim; v is
  [2 * chain_id + 35 + recid], r and s have the value of the signature's halves;
  and the signature recovers the signer's key from the EIP-155 signing hash,
  whose preimage no other transaction has. *)
Theorem signed_tx_reads_back (tx : LegacyTx) (sk : SigningKey) (raw hash : bytes)
  (Hwf : well_formed tx) (Hrec : forall r, 0 <= RecoveryId_to_byte r <= 3)
  (Hs : sign tx sk = Ok (raw, hash)) :
hash = keccak256 raw /\
(exists sig recid n gp gl val v r s,
   read_list raw = Some [n; gp; gl; to tx; val; data tx; v; r; s] /\
   be_val n = nonce tx /\ be_val gp = gas_price tx /\ be_val gl = gas_limit tx /\
   be_val val = value tx /\ be_val v = 2 * chain_id tx + 35 + RecoveryId_to_byte recid /\
   be_val r = be_val (take 32 (Signature_to_bytes sig)) /\
   be_val s = be_val (drop 32 (Signature_to_bytes sig)) /\
   recover_from_prehash (signing_hash tx) sig recid = Some (verifying_key sk)) /\
(forall tx', well_formed tx' -> signing_preimage tx' = signing_preimage tx -> tx' = tx).
Proof.
unfold sign in Hs. destruct (sign_prehash_recoverable sk (signing_hash tx)) as [[sig recid]|] eqn:E; [|done].
injection Hs as <- <-. split_and!; [done| |].
- specialize (Hrec recid). pose proof (chain_id_u64 tx Hwf) as Hch.
  pose proof (Signature_to_bytes_length sig) as Hlen.
  assert (Hv : 0 <= chain_id tx * 2 + 35 + RecoveryId_to_byte recid < 2 ^ 128) by lia.
  set (v := chain_id tx * 2 + 35 + RecoveryId_to_byte recid) in *.
  set (r := take 32 (Signature_to_bytes sig)). set (s := drop 32 (Signature_to_bytes sig)).
  assert (Hr : (length r <= 32)%nat) by (subst r; rewrite length_take; lia).
  assert (Hs : (length s <= 32)%nat) by (subst s; rewrite length_drop; lia).
  pose proof (read_nine tx (uint_item v) (strip_leading_zeros r) (strip_leading_zeros s) Hwf) as Hread.
  exists sig, recid, (uint_item (nonce tx)), (uint_item (gas_price tx)), (uint_item (gas_limit tx)),
    (uint_item (value tx)), (uint_item v), (strip_leading_zeros r), (strip_leading_zeros s).
  destruct Hwf as [Hn Hgp Hgl _ Hval _ _]. unfold uint_item in *. rewrite !uint_value, !strip_val by done.
  split_and!; try done; [|subst v; lia | by apply recover_sign].
  apply Hread.
  + pose proof (uint_sized v). lia.
  + pose proof (strip_length r). lia.
  + pose proof (strip_length s). lia.
- intros tx' Hwf' Heq. unfold signing_preimage in Heq.
  assert (Hshort : forall n, (length (uint_item n) <= 32)%nat).
  { intros n. unfold uint_item. pose proof (uint_sized n). lia. }
  pose proof (read_nine tx _ _ _ Hwf (Hshort (chain_id tx)) (Hshort 0) (Hshort 0)) as H1.
  pose proof (read_nine tx' _ _ _ Hwf' (Hshort (chain_id tx')) (Hshort 0) (Hshort 0)) as H2.
  change (rlp_uint (chain_id tx')) with (rlp_bytes (uint_item (chain_id tx'))) in Heq.
  change (rlp_uint (chain_id tx)) with (rlp_bytes (uint_item (chain_id tx))) in Heq.
  change (rlp_uint 0) with (rlp_bytes (uint_item 0)) in Heq.
  rewrite Heq, H1 in H2. apply (f_equal (default [])) in H2.
  apply seven_inj in H2 as (E1 & E2 & E3 & E4 & E5 & E6 & E7).
  destruct Hwf as [? ? ? ? ? ? ?], Hwf' as [? ? ? ? ? ? ?].
  apply uint_item_inj in E1, E2, E3, E5, E7; try done; try lia.
  destruct tx, tx'. cbn [nonce gas_price gas_limit to value data chain_id] in *. by subst.
Qed.
End TxProperties.

(** ** Witness: the reference transaction of EIP-155 *)

#[local] Existing Instance ToyCrypto.crypto.

Definition demo_tx : LegacyTx :=
  {| nonce := 9; gas_price := 20000000000; gas_limit := 21000; to := repeat Byte.x35 20;
     value := 1000000000000000000; data := []; chain_id := 1 |}.

Lemma demo_tx_well_formed : well_formed demo_tx.
Proof. split; cbn; try lia; done. Qed.

(** The reference preimage of the signing hash. *)
Example demo_preimage :
  take 16 (signing_preimage demo_tx) =
  [Byte.xec; Byte.x09; Byte.x85; Byte.x04; Byte.xa8; Byte.x17; Byte.xc8; Byte.x00;
   Byte.x82; Byte.x52; Byte.x08; Byte.x94; Byte.x35; Byte.x35; Byte.x35; Byte.x35].
Proof. vm_compute. reflexivity. Qed.

Definition demo_signed : bytes * bytes :=
  match sign demo_tx true with Ok p => p | Err _ => ([], []) end.

Example signed_tx_reads_back_witness :
  demo_signed.2 = keccak256 demo_signed.1 /\ length demo_signed.1 = 110%nat.
Proof.
  assert (Hrec : forall r, 0 <= RecoveryId_to_byte r <= 3) by (intros []; cbn; lia).
  assert (Hs : sign demo_tx true = Ok (demo_signed.1, demo_signed.2)) by (vm_compute; reflexivity).
  destruct (@signed_tx_reads_back ToyCrypto.crypto demo_tx true demo_signed.1 demo_signed.2 demo_tx_well_formed Hrec Hs)
    as [Hh _].
  split; [exact Hh | vm_compute; reflexivity].
Defined.
