(* ===== verification/Abi.v ===== *)
(** * The ABI encoding of the contracts' calls

    The encoding that Solidity gives to the arguments of a call: a value type is its
    32-byte word, a dynamic value is an offset word in the head of what contains it and
    its body in the tail.  The reference that the hand-written encoders of the account
    layer ([Erc4337], [UserOp]) and of the audit view ([Calldata]) are compared with. *)
From S2P Require Import Prelude RustStr.

Open Scope Z_scope.

(** ** The specification *)

Inductive Abi :=
| Word (w : bytes)              (* a value type: its word *)
| Bytes (b : bytes)             (* [bytes] and [string] *)
| Array (items : list Abi)      (* [T[]] *)
| Tuple (items : list Abi).     (* a struct, or the arguments of a call *)

Definition uint_word (n : Z) : bytes := be_bytes 32 n.
Arguments uint_word : simpl never.

Fixpoint dynamic (v : Abi) : bool :=
  match v with
  | Word _ => false
  | Bytes _ | Array _ => true
  | Tuple items => existsb dynamic items
  end.

(** The zero bytes that fill [n] up to whole words. *)
Definition padding (n : nat) : nat := (32 - n mod 32) mod 32.

(** A part of a tuple: whether it is dynamic, and its encoding. *)
Definition part : Type := bool * bytes.

Definition head_size (p : part) : nat := if p.1 then 32 else length p.2.

Fixpoint heads (offset : nat) (parts : list part) : bytes :=
  match parts with
  | [] => []
  | (true, body) :: parts =>
      (uint_word (Z.of_nat offset) ++ heads (offset + length body) parts)%list
  | (false, body) :: parts => (body ++ heads offset parts)%list
  end.

Fixpoint tails (parts : list part) : bytes :=
  match parts with
  | [] => []
  | (true, body) :: parts => (body ++ tails parts)%list
  | (false, _) :: parts => tails parts
  end.

Definition layout (parts : list part) : bytes :=
  (heads (sum_list_with head_size parts) parts ++ tails parts)%list.

Fixpoint abi_encode (v : Abi) : bytes :=
  match v with
  | Word w => w
  | Bytes b => (uint_word (Z.of_nat (length b)) ++ b ++ zeros (padding (length b)))%list
  | Array items =>
      (uint_word (Z.of_nat (length items)) ++ layout (map (fun x => (dynamic x, abi_encode x)) items))%list
  | Tuple items => layout (map (fun x => (dynamic x, abi_encode x)) items)
  end.

Definition abi_part (v : Abi) : part := (dynamic v, abi_encode v).

Definition abi_args (args : list Abi) : bytes := layout (map abi_part args).

(** Types, their names in a signature, and the values of a type. *)
Inductive AbiTy :=
| TValue (name : string)
| TBytes
| TArray (t : AbiTy)
| TTuple (ts : list AbiTy).

Fixpoint type_name (t : AbiTy) : string :=
  match t with
  | TValue name => name
  | TBytes => "bytes"
  | TArray t => type_name t +:+ "[]"
  | TTuple ts => "(" +:+ join "," (map type_name ts) +:+ ")"
  end.

Fixpoint has_type (t : AbiTy) (v : Abi) {struct t} : bool :=
  match t, v with
  | TValue _, Word w => Nat.eqb (length w) 32
  | TBytes, Bytes _ => true
  | TArray t, Array items => forallb (has_type t) items
  | TTuple ts, Tuple items =>
      (fix all (ts : list AbiTy) (items : list Abi) : bool :=
         match ts, items with
         | [], [] => true
         | t :: ts, v :: items => has_type t v && all ts items
         | _, _ => false
         end) ts items
  | _, _ => false
  end.

(** ** Lemmas *)

Lemma length_uint_word n : length (uint_word n) = 32%nat.
Proof. apply length_be_bytes. Qed.

Lemma uint_word_pad n : 0 <= n < 2 ^ 128 -> uint_word n = (zeros 16 ++ be_bytes 16 n)%list.
Proof. intros. unfold uint_word. by rewrite (be_bytes_pad 16 16). Qed.

Lemma abi_tuple items : abi_encode (Tuple items) = abi_args items.
Proof. done. Qed.

Lemma length_heads parts : forall off, length (heads off parts) = sum_list_with head_size parts.
Proof.
  induction parts as [|[[] body] parts IH]; intros off; [done| |];
    cbn [heads sum_list_with]; rewrite length_app, IH, ?length_uint_word; done.
Qed.

(** Parts that are all dynamic: the offsets, then the bodies. *)
Fixpoint offsets (running : nat) (bodies : list bytes) : bytes :=
  match bodies with
  | [] => []
  | b :: bodies => (uint_word (Z.of_nat running) ++ offsets (running + length b) bodies)%list
  end.

Lemma heads_dynamic bodies : forall off, heads off (map (pair true) bodies) = offsets off bodies.
Proof. induction bodies as [|b bodies IH]; intros off; cbn; [done | by rewrite IH]. Qed.

Lemma tails_dynamic bodies : tails (map (pair true) bodies) = concat bodies.
Proof. induction bodies as [|b bodies IH]; cbn; [done | by rewrite IH]. Qed.

Lemma heads_static bodies : forall off, heads off (map (pair false) bodies) = concat bodies.
Proof. induction bodies as [|b bodies IH]; intros off; cbn; [done | by rewrite IH]. Qed.

Lemma tails_static bodies : tails (map (pair false) bodies) = [].
Proof. by induction bodies. Qed.

Lemma head_size_dynamic (bodies : list bytes) :
  sum_list_with head_size (map (pair true) bodies) = (length bodies * 32)%nat.
Proof. induction bodies as [|b bodies IH]; cbn; [done | rewrite IH; lia]. Qed.

(** An array of dynamic elements, as the encoders write it. *)
Lemma layout_dynamic bodies :
  layout (map (pair true) bodies) = (offsets (length bodies * 32) bodies ++ concat bodies)%list.
Proof. unfold layout. by rewrite heads_dynamic, tails_dynamic, head_size_dynamic. Qed.

(** An array of words. *)
Lemma layout_static bodies : layout (map (pair false) bodies) = concat bodies.
Proof. unfold layout. by rewrite heads_static, tails_static, app_nil_r. Qed.

Lemma abi_words ws : abi_encode (Array (map Word ws))
  = (uint_word (Z.of_nat (length ws)) ++ concat ws)%list.
Proof.
  cbn [abi_encode]. rewrite length_map, map_map. f_equal. exact (layout_static ws).
Qed.

Lemma abi_bytes_array bs : abi_encode (Array (map Bytes bs))
  = (uint_word (Z.of_nat (length bs)) ++ offsets (length bs * 32) (map (fun b => abi_encode (Bytes b)) bs)
     ++ concat (map (fun b => abi_encode (Bytes b)) bs))%list.
Proof.
  cbn [abi_encode]. rewrite length_map, map_map. f_equal.
  assert (E : length bs = length (map (fun b => abi_encode (Bytes b)) bs)) by (by rewrite length_map).
  rewrite E, <-layout_dynamic, map_map. done.
Qed.

Lemma length_concat_words (ws : list bytes) : Forall (fun w : bytes => length w = 32%nat) ws ->
  length (concat ws) = (length ws * 32)%nat.
Proof. induction 1 as [|w ws Hw _ IH]; cbn; [done|]. rewrite length_app, IH, Hw. lia. Qed.

Lemma padding_whole n : ((n + padding n) mod 32 = 0)%nat.
Proof.
  unfold padding. pose proof (Nat.mod_upper_bound n 32 ltac:(lia)) as Hb.
  destruct (decide (n mod 32 = 0)%nat) as [E|E].
  - by rewrite E, Nat.sub_0_r, Nat.Div0.mod_same, Nat.add_0_r, E.
  - rewrite (Nat.mod_small (32 - _)) by lia.
    rewrite (Nat.div_mod_eq n 32) at 1.
    replace (32 * (n / 32) + n mod 32 + (32 - n mod 32))%nat with ((n / 32 + 1) * 32)%nat by lia.
    apply Nat.Div0.mod_mul.
Qed.
