(* ===== verification/Numerals.v ===== *)
(** * Numerals

    [from_str_radix] and the [LowerHex] display of the Rust integers, and what the
    [hex] crate reads from such digits. *)
From stdpp Require Import pretty.
From S2P Require Import Prelude RustStr StrFacts.

Open Scope Z_scope.

(** ** Reading *)

Inductive ParseIntError := Empty | InvalidDigit | PosOverflow.

Definition display_parse_int (e : ParseIntError) : string :=
  match e with
  | Empty => "cannot parse integer from empty string"
  | InvalidDigit => "invalid digit found in string"
  | PosOverflow => "number too large to fit in target type"
  end.

Definition dec_value (c : Ascii.ascii) : option Z :=
  if is_ascii_digit c then Some (byte_of c - 48) else None.

Section Radix.
Variables (radix max : Z) (to_digit : Ascii.ascii -> option Z).

Fixpoint digits_radix (acc : Z) (s : string) : result ParseIntError Z :=
  match s with
  | EmptyString => Ok acc
  | String c s =>
      match to_digit c with
      | None => Err InvalidDigit
      | Some d => let v := acc * radix + d in
                  if v <=? max then digits_radix v s else Err PosOverflow
      end
  end.

(** [T::from_str_radix] of an unsigned type with greatest value [max]. *)
Definition from_str_radix (s : string) : result ParseIntError Z :=
  match s with
  | EmptyString => Err Empty
  | String c rest =>
      if (Ascii.eqb c "+"%char || Ascii.eqb c "-"%char) && String.eqb rest "" then Err InvalidDigit
      else if Ascii.eqb c "+"%char then digits_radix 0 rest
      else digits_radix 0 s
  end.
End Radix.

Definition u128_max : Z := 2 ^ 128 - 1.

Definition u128_hex : string -> result ParseIntError Z := from_str_radix 16 u128_max hex_value.
Definition u128_dec : string -> result ParseIntError Z := from_str_radix 10 u128_max dec_value.
Definition u64_dec : string -> result ParseIntError Z := from_str_radix 10 u64_max dec_value.

(** ** Writing *)

(** [format!("{n:x}")]: at most [fuel] digits; 32 are enough for a [u128]. *)
Fixpoint hex_digits (fuel : nat) (n : Z) (acc : string) : string :=
  match fuel with
  | O => acc
  | S fuel =>
      let acc := String (hex_nibble (n mod 16)) acc in
      if n / 16 =? 0 then acc else hex_digits fuel (n / 16) acc
  end.

Definition lower_hex (n : Z) : string := hex_digits 32 n "".

(** ** Lemmas *)

Lemma nibble_value n : 0 <= n < 16 ->
  hex_value (hex_nibble n) = Some n /\ is_ascii_hexdigit (hex_nibble n) = true.
Proof.
  intros Hn.
  assert (Hall : forallb (fun i => match hex_value (hex_nibble (Z.of_nat i)) with
            | Some v => (v =? Z.of_nat i) && is_ascii_hexdigit (hex_nibble (Z.of_nat i))
            | None => false end) (seq 0 16) = true) by reflexivity.
  rewrite forallb_forall in Hall. specialize (Hall (Z.to_nat n)).
  rewrite in_seq, Z2Nat.id in Hall by lia. specialize (Hall ltac:(lia)).
  destruct (hex_value (hex_nibble n)); [|done]. reflect_bools. by subst.
Qed.

Lemma hex_value_range c d : hex_value c = Some d -> 0 <= d < 16.
Proof.
  pose proof (ascii_forall (fun c => match hex_value c with
    | Some n => (0 <=? n) && (n <? 16) | None => true end) eq_refl c) as H.
  cbv beta in H. intros Hv. rewrite Hv in H. reflect_bools. lia.
Qed.

Lemma hexdigit_value c : is_ascii_hexdigit c = true <-> exists d, hex_value c = Some d.
Proof.
  pose proof (ascii_forall (fun c => Bool.eqb (is_ascii_hexdigit c) (is_some (hex_value c))) eq_refl c) as H.
  cbv beta in H. apply Bool.eqb_prop in H. by rewrite H, is_some_true.
Qed.

(** The number that hexadecimal digits write. *)
Fixpoint hex_number (acc : Z) (s : string) : Z :=
  match s with
  | EmptyString => acc
  | String c s => hex_number (acc * 16 + default 0 (hex_value c)) s
  end.

Lemma hex_number_app a b : forall acc, hex_number acc (a +:+ b) = hex_number (hex_number acc a) b.
Proof. induction a as [|c a IH]; intros acc; [done|]. apply IH. Qed.

Lemma hex_number_lower s : forall acc, acc <= hex_number acc s \/ acc < 0.
Proof.
  induction s as [|c s IH]; intros acc; cbn [hex_number]; [lia|].
  assert (Hd : 0 <= default 0 (hex_value c)).
  { destruct (hex_value c) as [d|] eqn:E; cbn [from_option id]; [|lia]. apply hex_value_range in E; lia. }
  specialize (IH (acc * 16 + default 0 (hex_value c))). lia.
Qed.

(** Digits below the bound read as the number they write. *)
Lemma digits_radix_hex s : forall acc,
  string_all is_ascii_hexdigit s = true -> 0 <= acc -> hex_number acc s <= u128_max ->
  digits_radix 16 u128_max hex_value acc s = Ok (hex_number acc s).
Proof.
  induction s as [|c s IH]; intros acc Hs Hacc Hmax; [done|].
  cbn [string_all] in Hs. apply andb_true_iff in Hs as [Hc Hs].
  apply hexdigit_value in Hc as [d Hd]. cbn [digits_radix hex_number] in *. rewrite Hd in *.
  cbn [from_option id] in *. pose proof (hex_value_range _ _ Hd).
  pose proof (hex_number_lower s (acc * 16 + d)).
  rewrite (proj2 (Z.leb_le _ _)) by lia. apply IH; [done | lia | done].
Qed.

Lemma plus_not_hex c : is_ascii_hexdigit c = true -> Ascii.eqb c "+"%char = false /\ Ascii.eqb c "-"%char = false.
Proof. intros Hc. by split; apply Ascii.eqb_neq; intros ->. Qed.

Lemma u128_hex_number s : s <> "" -> string_all is_ascii_hexdigit s = true ->
  hex_number 0 s <= u128_max -> u128_hex s = Ok (hex_number 0 s).
Proof.
  intros Hne Hs Hmax. unfold u128_hex, from_str_radix. destruct s as [|c s]; [done|].
  assert (Hc : is_ascii_hexdigit c = true) by (cbn in Hs; by apply andb_true_iff in Hs as [? _]).
  destruct (plus_not_hex c Hc) as [-> ->]. cbn [orb andb].
  by apply digits_radix_hex; [| lia |].
Qed.

Lemma hex_digits_number fuel : forall n acc,
  0 <= n < 16 ^ Z.of_nat fuel -> (0 < fuel)%nat ->
  exists s, hex_digits fuel n acc = s +:+ acc /\ s <> "" /\ (String.length s <= fuel)%nat /\
    string_all is_ascii_hexdigit s = true /\ hex_number 0 s = n.
Proof.
  induction fuel as [|fuel IH]; intros n acc Hn Hf; [lia|].
  destruct (nibble_value (n mod 16)) as [Hv Hd]; [apply Z.mod_pos_bound; lia|].
  cbn [hex_digits]. destruct (n / 16 =? 0) eqn:E; reflect_bools.
  - exists (String (hex_nibble (n mod 16)) ""). split_and!; [done | done | cbn; lia | by cbn; rewrite Hd |].
    cbn [hex_number]. rewrite Hv. cbn [from_option id].
    pose proof (Z.div_mod n 16). lia.
  - rewrite Nat2Z.inj_succ, Z.pow_succ_r in Hn by lia.
    assert (Hpos : 0 <= n / 16) by (apply Z.div_pos; lia).
    assert (Hlt : n / 16 < 16 ^ Z.of_nat fuel) by (apply Z.div_lt_upper_bound; lia).
    destruct fuel as [|fuel]; [change (16 ^ Z.of_nat 0) with 1 in Hlt; lia|].
    destruct (IH (n / 16) (String (hex_nibble (n mod 16)) acc)) as (s & -> & Hne & Hlen & Hall & Hnum);
      [lia | lia |].
    exists (s +:+ String (hex_nibble (n mod 16)) ""). split_and!.
    + by rewrite <-app_assoc_str.
    + by destruct s.
    + rewrite length_app_str. cbn [String.length]. lia.
    + rewrite string_all_app, Hall. cbn. by rewrite Hd.
    + rewrite hex_number_app, Hnum. cbn [hex_number]. rewrite Hv. cbn [from_option id].
      pose proof (Z.div_mod n 16). lia.
Qed.

Lemma lower_hex_number n : 0 <= n < 2 ^ 128 ->
  lower_hex n <> "" /\ (String.length (lower_hex n) <= 32)%nat /\
  string_all is_ascii_hexdigit (lower_hex n) = true /\ hex_number 0 (lower_hex n) = n.
Proof.
  intros Hn. destruct (hex_digits_number 32 n "") as (s & Hs & Hrest); [done | lia |].
  unfold lower_hex. rewrite Hs, app_nil_str. exact Hrest.
Qed.

Lemma u128_hex_lower n : 0 <= n < 2 ^ 128 -> u128_hex (lower_hex n) = Ok n.
Proof.
  intros Hn. destruct (lower_hex_number n Hn) as (Hne & _ & Hall & Hnum).
  rewrite u128_hex_number by (unfold u128_max; try done; lia). by rewrite Hnum.
Qed.

(** ** The bytes that the [hex] crate reads *)
Section Hex.
Context `{HexCodec}.

Lemma hex_encode_nil : hex_encode [] = "".
Proof. pose proof (hex_encode_length []). by destruct (hex_encode []). Qed.

Lemma hex_decode_nil : hex_decode "" = Some [].
Proof. rewrite <-hex_encode_nil. apply hex_decode_encode. Qed.

Lemma be_val_cons x b : be_val (x :: b) = byte_val x * 256 ^ Z.of_nat (length b) + be_val b.
Proof.
  induction b as [|y b IH] using rev_ind; [cbn; lia|].
  rewrite app_comm_cons, !be_val_snoc, IH, length_app. cbn [length].
  replace (Z.of_nat (length b + 1)) with (Z.succ (Z.of_nat (length b))) by lia.
  rewrite Z.pow_succ_r by lia. lia.
Qed.

Lemma hex_number_shift s : forall acc,
  hex_number acc s = acc * 16 ^ Z.of_nat (String.length s) + hex_number 0 s.
Proof.
  induction s as [|c s IH]; intros acc; [cbn; lia|].
  cbn [hex_number String.length]. rewrite IH, (IH (0 * 16 + _)).
  rewrite Nat2Z.inj_succ, Z.pow_succ_r by lia. lia.
Qed.

(** An even number of digits reads as the bytes of the number they write. *)
Lemma hex_decode_number (n : nat) s :
  String.length s = (2 * n)%nat -> string_all is_ascii_hexdigit s = true ->
  exists b, hex_decode s = Some b /\ length b = n /\ be_val b = hex_number 0 s.
Proof.
  revert s. induction n as [|n IH]; intros s Hl Hs.
  - destruct s; [|done]. exists []. by rewrite hex_decode_nil.
  - destruct s as [|h [|l s]]; cbn [String.length] in Hl; [lia | lia |].
    cbn [string_all] in Hs. apply andb_true_iff in Hs as [Hh Hs].
    apply andb_true_iff in Hs as [Hlow Hs].
    apply hexdigit_value in Hh as [x Hx], Hlow as [y Hy].
    destruct (IH s) as (b & Hb & Hlen & Hval); [lia | done |].
    exists (byte_of_Z (16 * x + y) :: b). rewrite hex_decode_pair, Hx, Hy. cbn [mbind option_bind].
    rewrite Hb. split; [done|]. split; [cbn; lia|].
    pose proof (hex_value_range _ _ Hx). pose proof (hex_value_range _ _ Hy).
    rewrite be_val_cons, byte_val_of_Z, Hval by lia.
    cbn [hex_number]. rewrite Hx, Hy. cbn [from_option id].
    rewrite (hex_number_shift s (_ * 16 + y)).
    replace (String.length s) with (2 * n)%nat by lia. rewrite Hlen.
    replace (16 ^ Z.of_nat (2 * n)) with (256 ^ Z.of_nat n); [lia|].
    rewrite Nat2Z.inj_mul, Z.pow_mul_r by lia. done.
Qed.
End Hex.

(** ** Decimal numbers *)

Lemma pretty_char_value d : (d < 10)%N -> dec_value (pretty_N_char d) = Some (Z.of_N d).
Proof.
  intros Hd.
  assert (Hall : forallb (fun i => match dec_value (pretty_N_char (N.of_nat i)) with
            | Some v => v =? Z.of_nat i | None => false end) (seq 0 10) = true) by reflexivity.
  rewrite forallb_forall in Hall. specialize (Hall (N.to_nat d)).
  rewrite in_seq, N2Nat.id in Hall by lia. specialize (Hall ltac:(lia)).
  destruct (dec_value (pretty_N_char d)); [|done]. reflect_bools. f_equal. lia.
Qed.

Lemma pretty_go_digits max x : forall s, Z.of_N x <= max ->
  digits_radix 10 max dec_value 0 (pretty_N_go x s) = digits_radix 10 max dec_value (Z.of_N x) s.
Proof.
  induction (N.lt_wf_0 x) as [x _ IH]. intros s Hx.
  destruct (decide (x = 0%N)) as [->|Hne]; [by rewrite pretty_N_go_0|].
  rewrite pretty_N_go_step by lia.
  assert (Hdiv : Z.of_N (x / 10) * 10 + Z.of_N (x mod 10) = Z.of_N x)
    by (pose proof (N.div_mod x 10 ltac:(lia)); lia).
  assert (Hlt : (x / 10 < x)%N) by (apply N.div_lt; lia).
  rewrite (IH _ Hlt) by lia. cbn [digits_radix].
  rewrite pretty_char_value by (apply N.mod_lt; lia). rewrite Hdiv.
  by rewrite (proj2 (Z.leb_le _ _)).
Qed.

(** A number reads back from its decimal text. *)
Lemma from_dec max n : 0 <= n <= max -> from_str_radix 10 max dec_value (dec n) = Ok n.
Proof.
  intros Hn. pose proof (dec_digits n) as Hd. unfold from_str_radix.
  assert (Hgo : digits_radix 10 max dec_value 0 (dec n) = Ok n).
  { unfold dec, pretty, pretty_N. case_decide as E.
    - assert (n = 0) as -> by lia. cbn [digits_radix dec_value is_ascii_digit].
      change (dec_value "0"%char) with (Some 0). cbv zeta iota.
      change (0 * 10 + 0) with 0. by rewrite (proj2 (Z.leb_le _ _)) by lia.
    - rewrite pretty_go_digits by (rewrite Z2N.id; lia). by rewrite Z2N.id by lia. }
  destruct (dec n) as [|c s] eqn:E.
  - exfalso. unfold dec, pretty, pretty_N in E. case_decide as Hz; [done|].
    rewrite pretty_N_go_step in E by lia.
    assert (Hlen : forall x t, (String.length t <= String.length (pretty_N_go x t))%nat).
    { intros x. induction (N.lt_wf_0 x) as [x _ IH]. intros t.
      destruct (decide (x = 0%N)) as [->|]; [by rewrite pretty_N_go_0|].
      rewrite pretty_N_go_step by lia. specialize (IH (x / 10)%N ltac:(apply N.div_lt; lia)
        (String (pretty_N_char (x mod 10)) t)). cbn [String.length] in IH. lia. }
    specialize (Hlen (Z.to_N n / 10)%N (String (pretty_N_char (Z.to_N n mod 10)) "")).
    rewrite E in Hlen. cbn in Hlen. lia.
  - cbn [string_all] in Hd. apply andb_true_iff in Hd as [Hc _].
    assert (Hp : Ascii.eqb c "+"%char = false) by (apply Ascii.eqb_neq; by intros ->).
    assert (Hm : Ascii.eqb c "-"%char = false) by (apply Ascii.eqb_neq; by intros ->).
    rewrite Hp, Hm. exact Hgo.
Qed.
