(* ===== verification/Calldata.v ===== *)
(** * Calldata of the contracts

    [crates/agentkeys-web-core/src/audit/calldata.rs]: selectors, the bounds-checked
    reading of words, and the audit view's decoder and encoder of the functions of the
    deployed contracts. *)
From S2P Require Import Prelude RustStr StrFacts DeviceCore Abi Numerals Json.

Open Scope Z_scope.

(** ** Words *)

Definition len (b : bytes) : Z := Z.of_nat (length b).

Definition checked_add (a b : Z) : option Z := if a + b <=? u64_max then Some (a + b) else None.
Definition checked_mul (a b : Z) : option Z := if a * b <=? u64_max then Some (a * b) else None.

(** [b[lo..hi]] *)
Definition slice (b : bytes) (lo hi : Z) : bytes :=
  take (Z.to_nat (hi - lo)) (drop (Z.to_nat lo) b).

Definition read_word (data : bytes) (offset : Z) : option bytes :=
  e ← checked_add offset 32;
  if len data <? e then None else Some (slice data offset e).

Definition word_to_usize (w : bytes) : option Z :=
  if existsb (fun b => negb (is_zero_byte b)) (take 24 w) then None
  else Some (be_val (drop 24 w)).

(** The first four bytes of the hash of a signature. *)
Definition selector `{Crypto} (signature : string) : bytes := take 4 (keccak256 (as_bytes signature)).

(** ** Lemmas *)

Lemma length_selector `{Crypto} sig : length (selector sig) = 4%nat.
Proof. unfold selector. rewrite length_take, keccak256_length. done. Qed.

Lemma checked_add_some a b c : checked_add a b = Some c <-> c = a + b /\ a + b <= u64_max.
Proof. unfold checked_add. destruct (_ <=? _) eqn:E; reflect_bools; naive_solver lia. Qed.

Lemma checked_mul_some a b c : checked_mul a b = Some c <-> c = a * b /\ a * b <= u64_max.
Proof. unfold checked_mul. destruct (_ <=? _) eqn:E; reflect_bools; naive_solver lia. Qed.

(** A word is read exactly where 32 bytes are left. *)
Lemma read_word_some data offset w : 0 <= offset ->
  read_word data offset = Some w <->
  offset + 32 <= len data /\ offset + 32 <= u64_max /\ w = slice data offset (offset + 32).
Proof.
  intros Hoff. unfold read_word. split.
  - intros (e & [-> Hmax]%checked_add_some & Hw)%bind_Some.
    destruct (len data <? offset + 32) eqn:E; reflect_bools; [done|]. injection Hw as <-. done.
  - intros (Hlen & Hmax & ->). apply bind_Some. exists (offset + 32). split; [by apply checked_add_some|].
    by rewrite (proj2 (Z.ltb_ge _ _)).
Qed.

Lemma slice_at (pre w rest : bytes) lo hi : lo = len pre -> hi = lo + len w ->
  slice (pre ++ w ++ rest)%list lo hi = w.
Proof.
  unfold slice, len. intros -> ->.
  replace (Z.to_nat (Z.of_nat (length pre))) with (length pre) by lia.
  rewrite drop_app_length.
  replace (Z.to_nat _) with (length w) by lia. apply take_app_length.
Qed.

Lemma length_slice b lo hi : 0 <= lo <= hi -> hi <= len b -> len (slice b lo hi) = hi - lo.
Proof. unfold slice, len. intros. rewrite length_take, length_drop. lia. Qed.

Lemma len_app a b : len (a ++ b)%list = len a + len b.
Proof. unfold len. rewrite length_app. lia. Qed.

Lemma len_nonneg b : 0 <= len b.
Proof. unfold len. lia. Qed.

Lemma read_word_at pre w rest offset :
  offset = len pre -> length w = 32%nat -> len (pre ++ w ++ rest)%list <= u64_max ->
  read_word (pre ++ w ++ rest)%list offset = Some w.
Proof.
  intros -> Hw Hmax. pose proof (len_nonneg pre). pose proof (len_nonneg rest).
  assert (Hlen : len w = 32) by (unfold len; lia).
  rewrite !len_app in Hmax. apply read_word_some; [done|]. rewrite !len_app.
  split; [lia|]. split; [lia|]. symmetry. apply slice_at; lia.
Qed.

Lemma nonzero_bytes b : existsb (fun x => negb (is_zero_byte x)) b = negb (forallb is_zero_byte b).
Proof. induction b as [|x b IH]; cbn; [done|]. rewrite IH. by destruct (is_zero_byte x). Qed.

(** The words that are an index are those of the 64-bit numbers. *)
Lemma word_to_usize_word n : 0 <= n <= u64_max -> word_to_usize (uint_word n) = Some n.
Proof.
  intros Hn. unfold word_to_usize, uint_word, u64_max in *.
  rewrite (be_bytes_pad 24 8) by (change (256 ^ Z.of_nat 8) with (2 ^ 64); lia).
  rewrite take_app_length', drop_app_length' by (by rewrite length_zeros).
  rewrite nonzero_bytes, (proj2 (forallb_zeros _)) by (by rewrite length_zeros). cbn [negb].
  by rewrite be_val_bytes_small by (change (256 ^ Z.of_nat 8) with (2 ^ 64); lia).
Qed.

Lemma word_to_usize_range w n : length w = 32%nat -> word_to_usize w = Some n -> 0 <= n <= u64_max.
Proof.
  unfold word_to_usize. intros Hw. destruct (existsb _ _); [done|]. intros [= <-].
  pose proof (be_val_range (drop 24 w)) as Hr. rewrite length_drop, Hw in Hr.
  change (256 ^ Z.of_nat (32 - 24)) with (2 ^ 64) in Hr. unfold u64_max. lia.
Qed.

(** ** Where a string of bytes stands in the data *)

Definition holds_at (data : bytes) (offset : Z) (b : bytes) : Prop :=
  exists pre rest, data = (pre ++ b ++ rest)%list /\ len pre = offset.

Lemma holds_head data b rest : data = (b ++ rest)%list -> holds_at data 0 b.
Proof. intros ->. exists [], rest. done. Qed.

Lemma holds_l data off a b : holds_at data off (a ++ b)%list -> holds_at data off a.
Proof. intros (pre & rest & -> & Hp). exists pre, (b ++ rest)%list. by rewrite <-!app_assoc. Qed.

Lemma holds_r data off a b : holds_at data off (a ++ b)%list -> holds_at data (off + len a) b.
Proof.
  intros (pre & rest & -> & Hp). exists (pre ++ a)%list, rest.
  rewrite len_app, Hp. by rewrite <-!app_assoc.
Qed.

Lemma holds_range data off b : holds_at data off b -> 0 <= off /\ off + len b <= len data.
Proof.
  intros (pre & rest & -> & <-). rewrite !len_app.
  pose proof (len_nonneg pre). pose proof (len_nonneg rest). lia.
Qed.

Lemma holds_slice data off b : holds_at data off b -> slice data off (off + len b) = b.
Proof. intros (pre & rest & -> & <-). by apply slice_at. Qed.

Lemma holds_word data off w : holds_at data off w -> length w = 32%nat -> len data <= u64_max ->
  read_word data off = Some w.
Proof. intros (pre & rest & -> & <-) Hw Hmax. by apply read_word_at. Qed.

(** The [i]-th of a row of strings. *)
Lemma holds_concat data off bs i b : holds_at data off (concat bs) -> bs !! i = Some b ->
  holds_at data (off + len (concat (take i bs))) b.
Proof.
  intros Hd Hi. rewrite <-(take_drop_middle bs i b Hi), concat_app in Hd.
  apply holds_r in Hd. cbn [concat] in Hd. by apply holds_l in Hd.
Qed.

Lemma holds_in data off (ws : list bytes) i w :
  Forall (fun w : bytes => length w = 32%nat) ws -> holds_at data off (concat ws) -> ws !! i = Some w ->
  holds_at data (off + Z.of_nat i * 32) w.
Proof.
  intros Hws Hd Hi. replace (Z.of_nat i * 32) with (len (concat (take i ws))); [by apply holds_concat|].
  unfold len. rewrite length_concat_words by (by apply Forall_take).
  apply lookup_lt_Some in Hi. rewrite length_take. lia.
Qed.

(** ** Reading an argument back *)

(** In a layout of one-word heads, the head of a dynamic part holds the offset of its body. *)
Definition one_word (p : part) : Prop := p.1 = false -> length p.2 = 32%nat.

Lemma head_at parts k body : forall (pre : bytes) off (rest : bytes),
  Forall one_word parts -> parts !! k = Some (true, body) ->
  holds_at (pre ++ heads off parts ++ rest)%list (len pre + Z.of_nat k * 32)
    (uint_word (Z.of_nat (off + length (tails (take k parts))))).
Proof.
  revert k. induction parts as [|[d b] parts IH]; intros k pre off rest Hone Hk; [done|].
  apply Forall_cons in Hone as [Hb Hone]. destruct k as [|k].
  - injection Hk as -> ->. cbn [heads take tails length]. rewrite Nat.add_0_r, <-app_assoc.
    eexists pre, _. split; [done | lia].
  - assert (Hlen : forall w : bytes, length w = 32%nat -> len (pre ++ w)%list + Z.of_nat k * 32 = len pre + Z.of_nat (S k) * 32)
      by (intros w Hw; rewrite len_app; unfold len; rewrite Hw; lia).
    cbn [take]. destruct d; cbn [heads tails].
    + rewrite <-app_assoc, app_assoc, length_app, Nat.add_assoc, <-(Hlen (uint_word (Z.of_nat off))) by apply length_uint_word.
      by apply IH.
    + rewrite <-app_assoc, app_assoc, <-(Hlen b) by (by apply Hb). by apply IH.
Qed.

Lemma tail_at parts k body : forall pre rest : bytes, parts !! k = Some (true, body) ->
  holds_at (pre ++ tails parts ++ rest)%list (len pre + len (tails (take k parts))) body.
Proof.
  revert k. induction parts as [|[d b] parts IH]; intros k pre rest Hk; [done|]. destruct k as [|k].
  - injection Hk as -> ->. cbn [tails take]. rewrite <-app_assoc. eexists pre, _. split; [done | change (len []) with 0; lia].
  - cbn [take]. destruct d; cbn [tails]; [|by apply IH].
    rewrite <-app_assoc, app_assoc, len_app, Z.add_assoc, <-len_app. by apply IH.
Qed.

Lemma argument_at parts k body : Forall one_word parts -> parts !! k = Some (true, body) ->
  exists off, 0 <= off /\ holds_at (layout parts) (Z.of_nat k * 32) (uint_word off) /\
    holds_at (layout parts) off body.
Proof.
  intros Hone Hk. set (size := sum_list_with head_size parts).
  exists (Z.of_nat (size + length (tails (take k parts)))). split; [lia|]. unfold layout. fold size. split.
  - rewrite <-(app_nil_r (tails parts)). exact (head_at parts k body [] size _ Hone Hk).
  - pose proof (tail_at parts k body (heads size parts) [] Hk) as Ht. rewrite app_nil_r in Ht.
    replace (Z.of_nat (size + _)) with (len (heads size parts) + len (tails (take k parts))); [exact Ht|].
    unfold len. rewrite length_heads. unfold size. lia.
Qed.

Lemma static_at parts k w : forall (pre : bytes) off (rest : bytes),
  Forall one_word parts -> parts !! k = Some (false, w) ->
  holds_at (pre ++ heads off parts ++ rest)%list (len pre + Z.of_nat k * 32) w.
Proof.
  revert k. induction parts as [|[d b] parts IH]; intros k pre off rest Hone Hk; [done|].
  apply Forall_cons in Hone as [Hb Hone]. destruct k as [|k].
  - injection Hk as -> ->. cbn [heads]. rewrite <-app_assoc. eexists pre, _. split; [done | lia].
  - assert (Hlen : forall w : bytes, length w = 32%nat -> len (pre ++ w)%list + Z.of_nat k * 32 = len pre + Z.of_nat (S k) * 32)
      by (intros x Hx; rewrite len_app; unfold len; rewrite Hx; lia).
    destruct d; cbn [heads]; rewrite <-app_assoc, app_assoc.
    + rewrite <-(Hlen (uint_word (Z.of_nat off))) by apply length_uint_word. by apply IH.
    + rewrite <-(Hlen b) by (by apply Hb). by apply IH.
Qed.

Lemma static_argument_at parts k w : Forall one_word parts -> parts !! k = Some (false, w) ->
  holds_at (layout parts) (Z.of_nat k * 32) w.
Proof. intros Hone Hk. exact (static_at parts k w [] _ (tails parts) Hone Hk). Qed.

Lemma head_sizes parts : Forall one_word parts -> sum_list_with head_size parts = (length parts * 32)%nat.
Proof.
  induction 1 as [|[d b] parts Hb _ IH]; [done|]. cbn [sum_list_with length]. rewrite IH.
  unfold head_size. destruct d; cbn [fst snd]; [lia|]. specialize (Hb eq_refl). cbn [snd] in Hb. lia.
Qed.
