(* ===== verification/Erc4337.v ===== *)
(** * Calls of the master account

    [crates/agentkeys-core/src/erc4337.rs], the calls: the calldata of the registry,
    scope, audit and account contracts, the batches that one passkey signature
    authorizes, and the reader of a batch that the broker's audit relies on. *)
From S2P Require Import Prelude RustStr StrFacts DeviceCore Abi Calldata.

Open Scope Z_scope.

(** ** Words *)

Definition WORD : nat := 32.

Definition word_u128 (n : Z) : bytes := (zeros 16 ++ be_bytes 16 n)%list.
Definition addr_word (a : bytes) : bytes := (zeros 12 ++ a)%list.
Definition bool_word (b : bool) : bytes := (zeros 31 ++ [if b then Byte.x01 else Byte.x00])%list.
Definition u64_word (n : Z) : bytes := (zeros 24 ++ be_bytes 8 n)%list.

(** The word of a length or an offset. *)
Definition size_word (n : nat) : bytes := word_u128 (Z.of_nat n).

Definition enc_bytes (b : bytes) : bytes :=
  let pad := ((WORD - length b mod WORD) mod WORD)%nat in
  (size_word (length b) ++ b ++ zeros pad)%list.

(** ** Arguments *)

Record AdditionalMaster := {
  am_device_key_hash : bytes; am_operator_omni : bytes; am_credential_hash : bytes;
  am_rp_id_hash : bytes; am_pub_x : bytes; am_pub_y : bytes; am_roles : Z;
  am_attesting_device_key_hash : bytes; am_authenticator_data : bytes;
  am_client_data_json : bytes; am_challenge_location : Z; am_r : bytes; am_s : bytes;
}.

Record AgentRegister := {
  ar_device_key_hash : bytes; ar_operator_omni : bytes; ar_actor_omni : bytes;
  link_code_redemption : bytes; agent_pop_sig : bytes;
}.

Record RegisterFirstMaster := {
  fm_device_key_hash : bytes; fm_operator_omni : bytes; fm_actor_omni : bytes;
  fm_cred_id_hash : bytes; fm_rpid_hash : bytes; fm_pub_x : bytes; fm_pub_y : bytes; fm_roles : Z;
}.

Record ScopeGrant := {
  services : list bytes; read_only : bool; max_per_call : Z; max_per_period : Z;
  max_total : Z; period_seconds : Z;
}.

Record ExtraScope := { es_actor_omni : bytes; es_grant : ScopeGrant }.

Definition TrailingCall : Type := bytes * bytes.

Record BatchCall := { dest : bytes; value : Z; calldata : bytes }.

Definition MASTER_CRED_ID_PREFIX : string := "agentkeys-register-cred:0x".
Definition MASTER_ACCOUNT_SALT_PREFIX : string := "agentkeys-master-account:0x".

Section Calls.
Context `{Crypto} `{HexCodec}.

(** ** Calls of fixed size *)

Definition operator_master_wallet_calldata (operator : bytes) : bytes :=
  (selector "operatorMasterWallet(bytes32)" ++ operator)%list.

Definition entrypoint_nonce_calldata (account : bytes) : bytes :=
  (selector "getNonce(address,uint192)" ++ addr_word account ++ zeros 32)%list.

Definition factory_account_calldata (credential pub_x pub_y rp_id_hash salt : bytes) : bytes :=
  (selector "getAddress(bytes32,uint256,uint256,bytes32,bytes32)"
   ++ concat [credential; pub_x; pub_y; rp_id_hash; salt])%list.

Definition revoke_scope_calldata (operator actor : bytes) : bytes :=
  (selector "revokeScope(bytes32,bytes32)" ++ operator ++ actor)%list.

Definition add_signer_calldata (credential_hash pub_x pub_y rp_id_hash : bytes) : bytes :=
  (selector "addSigner(bytes32,uint256,uint256,bytes32)"
   ++ concat [credential_hash; pub_x; pub_y; rp_id_hash])%list.

Definition append_root_calldata (operator_omni root : bytes) (count : Z) : bytes :=
  (selector "appendRoot(bytes32,bytes32,uint64)" ++ operator_omni ++ root ++ word_u128 count)%list.

Definition root_count_calldata (operator_omni : bytes) : bytes :=
  (selector "rootCount(bytes32)" ++ operator_omni)%list.

Definition get_root_calldata (operator_omni : bytes) (index : Z) : bytes :=
  (selector "getRoot(bytes32,uint256)" ++ operator_omni ++ word_u128 index)%list.

Definition revoke_agent_device_calldata (device_key_hash : bytes) : bytes :=
  (selector "revokeAgentDevice(bytes32)" ++ device_key_hash)%list.

Definition register_first_master_device_calldata (r : RegisterFirstMaster) : bytes :=
  (selector "registerFirstMasterDevice(bytes32,bytes32,bytes32,bytes32,bytes32,uint256,uint256,uint8)"
   ++ fm_device_key_hash r ++ fm_operator_omni r ++ fm_actor_omni r ++ fm_cred_id_hash r
   ++ fm_rpid_hash r ++ fm_pub_x r ++ fm_pub_y r ++ word_u128 (fm_roles r))%list.

Definition p256_account_factory_init_code (factory cred_id_hash pub_x pub_y rpid_hash salt : bytes) : bytes :=
  (factory ++ selector "createAccount(bytes32,uint256,uint256,bytes32,bytes32)"
   ++ cred_id_hash ++ pub_x ++ pub_y ++ rpid_hash ++ salt)%list.

(** ** Calls with dynamic arguments *)

Definition additional_master_calldata (m : AdditionalMaster) : bytes :=
  let auth := enc_bytes (am_authenticator_data m) in
  let assertion :=
    (am_attesting_device_key_hash m ++ size_word (6 * WORD) ++ size_word (6 * WORD + length auth)
     ++ word_u128 (am_challenge_location m) ++ am_r m ++ am_s m ++ auth
     ++ enc_bytes (am_client_data_json m))%list in
  (selector "registerAdditionalMasterDevice(bytes32,bytes32,bytes32,bytes32,bytes32,uint256,uint256,bytes,uint8,(bytes32,bytes,bytes,uint256,uint256,uint256))"
   ++ concat [am_device_key_hash m; am_operator_omni m; am_operator_omni m; am_credential_hash m;
              am_rp_id_hash m; am_pub_x m; am_pub_y m]
   ++ size_word (10 * WORD) ++ word_u128 (am_roles m) ++ size_word (11 * WORD) ++ word_u128 0
   ++ assertion)%list.

Definition register_k10_actor_calldata (sig : string) (r : AgentRegister) : bytes :=
  let enc_link := enc_bytes (link_code_redemption r) in
  let enc_pop := enc_bytes (agent_pop_sig r) in
  let head := (5 * WORD)%nat in
  let off_link := head in
  let off_pop := (head + length enc_link)%nat in
  (selector sig ++ ar_device_key_hash r ++ ar_operator_omni r ++ ar_actor_omni r
   ++ size_word off_link ++ size_word off_pop ++ enc_link ++ enc_pop)%list.

Definition register_agent_device_calldata (r : AgentRegister) : bytes :=
  register_k10_actor_calldata "registerAgentDevice(bytes32,bytes32,bytes32,bytes,bytes)" r.

Definition register_delegate_calldata (r : AgentRegister) : bytes :=
  register_k10_actor_calldata "registerDelegate(bytes32,bytes32,bytes32,bytes,bytes)" r.

Definition set_scope_calldata (operator_omni agent_omni : bytes) (g : ScopeGrant) : bytes :=
  let off_services := (8 * WORD)%nat in
  (selector "setScope(bytes32,bytes32,bytes32[],bool,uint128,uint128,uint128,uint32)"
   ++ operator_omni ++ agent_omni ++ size_word off_services ++ bool_word (read_only g)
   ++ word_u128 (max_per_call g) ++ word_u128 (max_per_period g) ++ word_u128 (max_total g)
   ++ word_u128 (period_seconds g) ++ size_word (length (services g)) ++ concat (services g))%list.

Definition encode_webauthn_signature (cred_id_hash authenticator_data client_data_json : bytes)
    (challenge_location : Z) (r s : bytes) : bytes :=
  let enc_auth := enc_bytes authenticator_data in
  let head := (6 * WORD)%nat in
  let off_auth := head in
  let off_cdj := (head + length enc_auth)%nat in
  (cred_id_hash ++ size_word off_auth ++ size_word off_cdj ++ word_u128 challenge_location
   ++ r ++ s ++ enc_auth ++ enc_bytes client_data_json)%list.

(** The offset words of an array of encoded elements, from [running]. *)
Fixpoint offset_words (running : nat) (elems : list bytes) : bytes :=
  match elems with
  | [] => []
  | e :: elems => (size_word running ++ offset_words (running + length e) elems)%list
  end.

Definition enc_array (elems : list bytes) : bytes :=
  (size_word (length elems) ++ offset_words (length elems * WORD) elems ++ concat elems)%list.

Definition enc_words (ws : list bytes) : bytes := (size_word (length ws) ++ concat ws)%list.

Definition EXECUTE_BATCH : string := "executeBatch(address[],uint256[],bytes[])".

Definition execute_batch_calldata (dest : list bytes) (values : list Z) (func : list bytes) : bytes :=
  let enc_dest := enc_words (map addr_word dest) in
  let enc_value := enc_words (map word_u128 values) in
  let enc_func := enc_array (map enc_bytes func) in
  let head := (3 * WORD)%nat in
  let off_dest := head in
  let off_value := (head + length enc_dest)%nat in
  let off_func := (head + length enc_dest + length enc_value)%nat in
  (selector EXECUTE_BATCH ++ size_word off_dest ++ size_word off_value ++ size_word off_func
   ++ enc_dest ++ enc_value ++ enc_func)%list.

(** ** The batches *)

Definition hosted_signer_batch_calldata (account registry : bytes) (m : AdditionalMaster) : bytes :=
  let signer_call := add_signer_calldata (am_credential_hash m) (am_pub_x m) (am_pub_y m) (am_rp_id_hash m) in
  let device_call := additional_master_calldata m in
  execute_batch_calldata [account; registry] [0; 0] [signer_call; device_call].

Definition accept_batch_calldata (registry scope : bytes) (reg : AgentRegister) (grant : ScopeGrant) : bytes :=
  let register_cd := register_agent_device_calldata reg in
  let scope_cd := set_scope_calldata (ar_operator_omni reg) (ar_actor_omni reg) grant in
  execute_batch_calldata [registry; scope] [0; 0] [register_cd; scope_cd].

Definition spawn_batch_calldata (registry scope : bytes) (reg : AgentRegister) (grant : ScopeGrant) : bytes :=
  let register_cd := register_delegate_calldata reg in
  let scope_cd := set_scope_calldata (ar_operator_omni reg) (ar_actor_omni reg) grant in
  execute_batch_calldata [registry; scope] [0; 0] [register_cd; scope_cd].

Definition scope_batch_calldata (scope operator_omni agent_omni : bytes) (grant : ScopeGrant) : bytes :=
  execute_batch_calldata [scope] [0] [set_scope_calldata operator_omni agent_omni grant].

(** [dests.push(..); values.push(0); calls.push(..)], for each call. *)
Definition zero_value_batch (calls : list (bytes * bytes)) : bytes :=
  execute_batch_calldata (map fst calls) (map (fun _ => 0) calls) (map snd calls).

Definition enrollment_calls (registry : bytes) (enrollments : list AgentRegister) : list (bytes * bytes) :=
  map (fun e => (registry, register_agent_device_calldata e)) enrollments.

Definition extra_calls (scope operator_omni : bytes) (extra : list ExtraScope) : list (bytes * bytes) :=
  map (fun e => (scope, set_scope_calldata operator_omni (es_actor_omni e) (es_grant e))) extra.

Definition rebind_batch_calldata_sealed (registry scope operator_omni actor_omni : bytes)
    (grant : ScopeGrant) (extra : list ExtraScope) (enrollments : list AgentRegister)
    (trailing : list TrailingCall) : bytes :=
  zero_value_batch
    (enrollment_calls registry enrollments
     ++ [(scope, set_scope_calldata operator_omni actor_omni grant)]
     ++ extra_calls scope operator_omni extra ++ trailing)%list.

Definition rebind_batch_calldata (registry scope operator_omni actor_omni : bytes)
    (grant : ScopeGrant) (extra : list ExtraScope) (enrollments : list AgentRegister) : bytes :=
  rebind_batch_calldata_sealed registry scope operator_omni actor_omni grant extra enrollments [].

Definition spawn_batch_calldata_sealed (registry scope : bytes) (reg : AgentRegister)
    (grant : ScopeGrant) (extra : list ExtraScope) (enrollments : list AgentRegister)
    (trailing : list TrailingCall) : bytes :=
  if is_nil extra && is_nil enrollments && is_nil trailing then
    spawn_batch_calldata registry scope reg grant
  else
    zero_value_batch
      (enrollment_calls registry enrollments
       ++ [(registry, register_delegate_calldata reg);
           (scope, set_scope_calldata (ar_operator_omni reg) (ar_actor_omni reg) grant)]
       ++ extra_calls scope (ar_operator_omni reg) extra ++ trailing)%list.

Definition spawn_batch_calldata_with_endpoints (registry scope : bytes) (reg : AgentRegister)
    (grant : ScopeGrant) (extra : list ExtraScope) (enrollments : list AgentRegister) : bytes :=
  spawn_batch_calldata_sealed registry scope reg grant extra enrollments [].

Definition spawn_batch_calldata_with_scopes (registry scope : bytes) (reg : AgentRegister)
    (grant : ScopeGrant) (extra : list ExtraScope) : bytes :=
  spawn_batch_calldata_with_endpoints registry scope reg grant extra [].

Definition trailing_batch_calldata (trailing : list TrailingCall) : bytes :=
  execute_batch_calldata (map fst trailing) (repeat 0 (length trailing)) (map snd trailing).

Definition revoke_batch_calldata (registry : bytes) (device_key_hashes : list bytes) : bytes :=
  execute_batch_calldata (repeat registry (length device_key_hashes))
    (repeat 0 (length device_key_hashes)) (map revoke_agent_device_calldata device_key_hashes).

Definition revoke_batch_calldata_with_scopes (registry scope operator_omni : bytes)
    (device_key_hashes : list bytes) (extra : list ExtraScope) : bytes :=
  if is_nil extra then revoke_batch_calldata registry device_key_hashes
  else
    zero_value_batch
      (map (fun h => (registry, revoke_agent_device_calldata h)) device_key_hashes
       ++ extra_calls scope operator_omni extra)%list.

Definition register_batch_calldata (registry : bytes) (r : RegisterFirstMaster) : bytes :=
  execute_batch_calldata [registry] [0] [register_first_master_device_calldata r].

(** ** Hashes of the master account *)

Definition master_cred_id_hash (operator_omni : bytes) : bytes :=
  keccak256 (as_bytes (MASTER_CRED_ID_PREFIX +:+ hex_encode operator_omni)).

Definition credential_id_hash (raw_id : bytes) : bytes := keccak256 raw_id.

Definition additional_master_challenge (operator_omni device_key_hash : bytes)
    (roles chain_id : Z) (nonce : bytes) : bytes :=
  keccak256 (keccak256 (as_bytes "agentkeys:v1:register-master") ++ operator_omni
    ++ device_key_hash ++ word_u128 roles ++ word_u128 chain_id ++ nonce)%list.

Definition master_account_salt (operator_omni : bytes) : bytes :=
  keccak256 (as_bytes (MASTER_ACCOUNT_SALT_PREFIX +:+ hex_encode operator_omni)).

Definition master_device_key_hash (operator_omni : bytes) : bytes := keccak256 operator_omni.

(** ** Reading a batch *)

Inductive BatchError :=
| Message (s : string)
| Panicked (s : string).        (* an [expect] that fails *)

Definition usize_at (args : bytes) (at_ : Z) (what : string) : result BatchError Z :=
  ok_or (Message (what +:+ ": word out of range")) (w ← read_word args at_; word_to_usize w).

Definition array_at (args : bytes) (slot : Z) (what : string) : result BatchError (Z * Z) :=
  let? off := usize_at args slot what in
  let? count := usize_at args off (what +:+ ".len") in
  Ok (count, off + 32).

Definition static_end (args : bytes) (start count : Z) : result BatchError Z :=
  ok_or (Message "array body out of range")
    (n ← checked_mul count 32; e ← checked_add start n;
     if e <=? len args then Some e else None).

Definition expect_word (args : bytes) (at_ : Z) : result BatchError bytes :=
  ok_or (Panicked "bounded above") (read_word args at_).

(** The body of the loop. *)
Definition batch_call (args : bytes) (dest_at value_at func_at : Z) (i : nat) : result BatchError BatchCall :=
  let index := dec (Z.of_nat i) in
  let at_ start := start + Z.of_nat i * 32 in
  let? dest_word := expect_word args (at_ dest_at) in
  guard! forallb is_zero_byte (take 12 dest_word)
    else Message ("dest[" +:+ index +:+ "]: not a 20-byte address") ;;
  let? value_word := expect_word args (at_ value_at) in
  guard! forallb is_zero_byte (take 16 value_word)
    else Message ("value[" +:+ index +:+ "]: exceeds u128") ;;
  let? elem_rel := usize_at args (at_ func_at) ("func[" +:+ index +:+ "].offset") in
  let? elem_at := ok_or (Message ("func[" +:+ index +:+ "].offset overflow")) (checked_add func_at elem_rel) in
  let? elem_len := usize_at args elem_at ("func[" +:+ index +:+ "].len") in
  let body_start := elem_at + 32 in
  let? body_end := ok_or (Message ("func[" +:+ index +:+ "].body out of range"))
    (e ← checked_add body_start elem_len; if e <=? len args then Some e else None) in
  Ok {| dest := drop 12 dest_word; value := be_val (drop 16 value_word);
        calldata := slice args body_start body_end |}.

Definition decode_execute_batch (data : bytes) : result BatchError (list BatchCall) :=
  guard! negb (len data <? 4)
    else Message ("calldata too short: " +:+ dec (len data) +:+ " bytes") ;;
  guard! bool_decide (take 4 data = selector EXECUTE_BATCH)
    else Message ("not executeBatch: selector 0x" +:+ hex_encode (take 4 data)) ;;
  let args := drop 4 data in
  let? (dest_count, dest_at) := array_at args 0 "dest" in
  let? (value_count, value_at) := array_at args 32 "values" in
  let? (func_count, func_at) := array_at args (2 * 32) "func" in
  guard! negb (negb (dest_count =? value_count) || negb (dest_count =? func_count))
    else Message ("array length mismatch: dest=" +:+ dec dest_count +:+ " values=" +:+ dec value_count
                  +:+ " func=" +:+ dec func_count) ;;
  let? _ := static_end args dest_at dest_count in
  let? _ := static_end args value_at value_count in
  let? _ := static_end args func_at func_count in
  try_map (batch_call args dest_at value_at func_at) (seq 0 (Z.to_nat dest_count)).
End Calls.

(** ** The contracts' functions *)

(** A call, with the name, the types and the values that the contract's interface gives it. *)
Inductive Call :=
| OperatorMasterWallet (operator : bytes)
| GetNonce (account : bytes)
| GetAddress (credential pub_x pub_y rp_id_hash salt : bytes)
| RevokeScope (operator actor : bytes)
| AddSigner (credential_hash pub_x pub_y rp_id_hash : bytes)
| AppendRoot (operator_omni root : bytes) (count : Z)
| RootCount (operator_omni : bytes)
| GetRoot (operator_omni : bytes) (index : Z)
| RevokeAgentDevice (device_key_hash : bytes)
| RegisterFirstMasterDevice (r : RegisterFirstMaster)
| RegisterAdditionalMasterDevice (m : AdditionalMaster)
| RegisterAgentDevice (r : AgentRegister)
| RegisterDelegate (r : AgentRegister)
| SetScope (operator_omni agent_omni : bytes) (g : ScopeGrant)
| ExecuteBatch (dest : list bytes) (values : list Z) (func : list bytes).

Definition b32 : AbiTy := TValue "bytes32".
Definition u256 : AbiTy := TValue "uint256".
Definition u128 : AbiTy := TValue "uint128".
Definition u8 : AbiTy := TValue "uint8".
Definition address : AbiTy := TValue "address".

Definition Number (n : Z) : Abi := Word (uint_word n).
Definition Address (a : bytes) : Abi := Word (addr_word a).
Definition Flag (b : bool) : Abi := Number (if b then 1 else 0).

Definition interface (c : Call) : string * list AbiTy :=
  match c with
  | OperatorMasterWallet _ => ("operatorMasterWallet", [b32])
  | GetNonce _ => ("getNonce", [address; TValue "uint192"])
  | GetAddress _ _ _ _ _ => ("getAddress", [b32; u256; u256; b32; b32])
  | RevokeScope _ _ => ("revokeScope", [b32; b32])
  | AddSigner _ _ _ _ => ("addSigner", [b32; u256; u256; b32])
  | AppendRoot _ _ _ => ("appendRoot", [b32; b32; TValue "uint64"])
  | RootCount _ => ("rootCount", [b32])
  | GetRoot _ _ => ("getRoot", [b32; u256])
  | RevokeAgentDevice _ => ("revokeAgentDevice", [b32])
  | RegisterFirstMasterDevice _ => ("registerFirstMasterDevice", [b32; b32; b32; b32; b32; u256; u256; u8])
  | RegisterAdditionalMasterDevice _ =>
      ("registerAdditionalMasterDevice",
       [b32; b32; b32; b32; b32; u256; u256; TBytes; u8; TTuple [b32; TBytes; TBytes; u256; u256; u256]])
  | RegisterAgentDevice _ => ("registerAgentDevice", [b32; b32; b32; TBytes; TBytes])
  | RegisterDelegate _ => ("registerDelegate", [b32; b32; b32; TBytes; TBytes])
  | SetScope _ _ _ => ("setScope", [b32; b32; TArray b32; TValue "bool"; u128; u128; u128; TValue "uint32"])
  | ExecuteBatch _ _ _ => ("executeBatch", [TArray address; TArray u256; TArray TBytes])
  end.

Definition arguments (c : Call) : list Abi :=
  match c with
  | OperatorMasterWallet op => [Word op]
  | GetNonce a => [Address a; Number 0]
  | GetAddress c x y rp s => [Word c; Word x; Word y; Word rp; Word s]
  | RevokeScope op a => [Word op; Word a]
  | AddSigner c x y rp => [Word c; Word x; Word y; Word rp]
  | AppendRoot op root n => [Word op; Word root; Number n]
  | RootCount op => [Word op]
  | GetRoot op n => [Word op; Number n]
  | RevokeAgentDevice d => [Word d]
  | RegisterFirstMasterDevice r =>
      [Word (fm_device_key_hash r); Word (fm_operator_omni r); Word (fm_actor_omni r);
       Word (fm_cred_id_hash r); Word (fm_rpid_hash r); Word (fm_pub_x r); Word (fm_pub_y r);
       Number (fm_roles r)]
  | RegisterAdditionalMasterDevice m =>
      [Word (am_device_key_hash m); Word (am_operator_omni m); Word (am_operator_omni m);
       Word (am_credential_hash m); Word (am_rp_id_hash m); Word (am_pub_x m); Word (am_pub_y m);
       Bytes []; Number (am_roles m);
       Tuple [Word (am_attesting_device_key_hash m); Bytes (am_authenticator_data m);
              Bytes (am_client_data_json m); Number (am_challenge_location m);
              Word (am_r m); Word (am_s m)]]
  | RegisterAgentDevice r | RegisterDelegate r =>
      [Word (ar_device_key_hash r); Word (ar_operator_omni r); Word (ar_actor_omni r);
       Bytes (link_code_redemption r); Bytes (agent_pop_sig r)]
  | SetScope op a g =>
      [Word op; Word a; Array (map Word (services g)); Flag (read_only g);
       Number (max_per_call g); Number (max_per_period g); Number (max_total g);
       Number (period_seconds g)]
  | ExecuteBatch d v f => [Array (map Address d); Array (map Number v); Array (map Bytes f)]
  end.

Definition is_u128 (n : Z) : bool := (0 <=? n) && (n <? 2 ^ 128).
Definition is_word (w : bytes) : bool := Nat.eqb (length w) 32.
Definition is_address (a : bytes) : bool := Nat.eqb (length a) 20.

(** The widths that the types of the arguments have in Rust. *)
Definition call_wf (c : Call) : bool :=
  match c with
  | OperatorMasterWallet op | RootCount op | RevokeAgentDevice op => is_word op
  | GetNonce a => is_address a
  | GetAddress c x y rp s => forallb is_word [c; x; y; rp; s]
  | RevokeScope op a => is_word op && is_word a
  | AddSigner c x y rp => forallb is_word [c; x; y; rp]
  | AppendRoot op root n => is_word op && is_word root && is_u128 n
  | GetRoot op n => is_word op && is_u128 n
  | RegisterFirstMasterDevice r =>
      forallb is_word [fm_device_key_hash r; fm_operator_omni r; fm_actor_omni r;
        fm_cred_id_hash r; fm_rpid_hash r; fm_pub_x r; fm_pub_y r] && is_u128 (fm_roles r)
  | RegisterAdditionalMasterDevice m =>
      forallb is_word [am_device_key_hash m; am_operator_omni m; am_credential_hash m;
        am_rp_id_hash m; am_pub_x m; am_pub_y m; am_attesting_device_key_hash m; am_r m; am_s m]
      && is_u128 (am_roles m) && is_u128 (am_challenge_location m)
  | RegisterAgentDevice r | RegisterDelegate r =>
      forallb is_word [ar_device_key_hash r; ar_operator_omni r; ar_actor_omni r]
  | SetScope op a g =>
      is_word op && is_word a && forallb is_word (services g)
      && forallb is_u128 [max_per_call g; max_per_period g; max_total g; period_seconds g]
  | ExecuteBatch d v f => forallb is_address d && forallb is_u128 v
  end.

(** Unfold the arguments of a call into heads and tails. *)
Ltac abi_layout :=
  unfold abi_args;
  repeat (progress (unfold layout;
    cbn [map abi_part dynamic existsb orb abi_encode heads tails sum_list_with head_size fst snd
         Number Address Flag]));
  cbn [app].

Ltac words :=
  repeat match goal with
  | H : (_ && _)%bool = true |- _ => apply andb_true_iff in H as [? ?]
  | H : forallb _ (_ :: _) = true |- _ => cbn [forallb] in H
  | H : is_word ?w = true |- _ => unfold is_word in H; apply Nat.eqb_eq in H
  end.

Section Encoded.
Context `{Crypto}.

Definition calldata_of (c : Call) : bytes :=
  match c with
  | OperatorMasterWallet op => operator_master_wallet_calldata op
  | GetNonce a => entrypoint_nonce_calldata a
  | GetAddress c x y rp s => factory_account_calldata c x y rp s
  | RevokeScope op a => revoke_scope_calldata op a
  | AddSigner c x y rp => add_signer_calldata c x y rp
  | AppendRoot op root n => append_root_calldata op root n
  | RootCount op => root_count_calldata op
  | GetRoot op n => get_root_calldata op n
  | RevokeAgentDevice d => revoke_agent_device_calldata d
  | RegisterFirstMasterDevice r => register_first_master_device_calldata r
  | RegisterAdditionalMasterDevice m => additional_master_calldata m
  | RegisterAgentDevice r => register_agent_device_calldata r
  | RegisterDelegate r => register_delegate_calldata r
  | SetScope op a g => set_scope_calldata op a g
  | ExecuteBatch d v f => execute_batch_calldata d v f
  end.

(** ** Lemmas: the encoders' words are the ABI's *)

Lemma word_u128_uint n : is_u128 n = true -> word_u128 n = uint_word n.
Proof. unfold is_u128. intros Hn. reflect_bools. symmetry. apply uint_word_pad. lia. Qed.

Lemma size_word_uint n : Z.of_nat n <= u64_max -> size_word n = uint_word (Z.of_nat n).
Proof. intros Hn. apply word_u128_uint. unfold is_u128, u64_max in *. apply andb_true_iff. lia. Qed.

Lemma length_word_u128 n : length (word_u128 n) = 32%nat.
Proof. unfold word_u128. by rewrite length_app, length_zeros, length_be_bytes. Qed.

Lemma length_size_word n : length (size_word n) = 32%nat.
Proof. apply length_word_u128. Qed.

Lemma bool_word_flag b : bool_word b = uint_word (if b then 1 else 0).
Proof. by destruct b. Qed.

Lemma length_addr_word a : is_address a = true -> length (addr_word a) = 32%nat.
Proof. unfold is_address, addr_word. rewrite Nat.eqb_eq, length_app, length_zeros. lia. Qed.

Lemma enc_bytes_abi b : len b <= u64_max -> enc_bytes b = abi_encode (Bytes b).
Proof. intros. unfold enc_bytes. by rewrite size_word_uint. Qed.

Lemma length_enc_bytes b : (length b <= length (enc_bytes b))%nat.
Proof. unfold enc_bytes. rewrite !length_app. lia. Qed.

Lemma length_concat_cons (b : bytes) bs : length (concat (b :: bs)) = (length b + length (concat bs))%nat.
Proof. cbn [concat]. apply length_app. Qed.

Lemma offset_words_abi elems : forall running,
  Z.of_nat (running + length (concat elems)) <= u64_max -> offset_words running elems = offsets running elems.
Proof.
  induction elems as [|e elems IH]; intros running; [done|]. rewrite length_concat_cons. intros Hmax.
  cbn [offset_words offsets]. rewrite size_word_uint, IH by lia. done.
Qed.

Lemma length_offset_words elems : forall running, length (offset_words running elems) = (length elems * 32)%nat.
Proof.
  induction elems as [|e elems IH]; intros running; [done|]. cbn [offset_words].
  rewrite length_app, length_size_word, IH. cbn [length]. lia.
Qed.

Lemma length_enc_array elems :
  length (enc_array elems) = (32 + length elems * 32 + length (concat elems))%nat.
Proof. unfold enc_array. rewrite !length_app, length_size_word, length_offset_words. lia. Qed.

Lemma enc_bytes_map bs : Z.of_nat (length (concat (map enc_bytes bs))) <= u64_max ->
  map enc_bytes bs = map (fun b => abi_encode (Bytes b)) bs.
Proof.
  induction bs as [|b bs IH]; [done|]. cbn [map]. rewrite length_concat_cons. intros Hmax.
  pose proof (length_enc_bytes b). rewrite IH by lia. f_equal. apply enc_bytes_abi. unfold len. lia.
Qed.

Lemma enc_array_abi bs : len (enc_array (map enc_bytes bs)) <= u64_max ->
  enc_array (map enc_bytes bs) = abi_encode (Array (map Bytes bs)).
Proof.
  unfold len. rewrite length_enc_array, length_map. intros Hmax. rewrite abi_bytes_array.
  unfold enc_array, WORD. rewrite length_map, size_word_uint by lia.
  rewrite offset_words_abi, enc_bytes_map by lia. done.
Qed.

Lemma length_words ws : forallb is_word ws = true -> length (concat ws) = (length ws * 32)%nat.
Proof.
  intros Hws. apply length_concat_words. apply Forall_forall. intros w Hw.
  rewrite forallb_elem in Hws. by apply Nat.eqb_eq, Hws.
Qed.

Lemma addr_words d : forallb is_address d = true -> forallb is_word (map addr_word d) = true.
Proof.
  rewrite !forallb_elem. intros Hd w (a & -> & Ha)%list_elem_of_fmap.
  unfold is_word. by rewrite length_addr_word by auto.
Qed.

Lemma u128_words v : map word_u128 v = map uint_word v -> forallb is_word (map word_u128 v) = true.
Proof.
  intros ->. apply forallb_elem. intros w (n & -> & _)%list_elem_of_fmap.
  unfold is_word. by rewrite length_uint_word.
Qed.

Lemma u128_words_uint v : forallb is_u128 v = true -> map word_u128 v = map uint_word v.
Proof.
  rewrite forallb_elem. intros Hv. apply map_ext_Forall, Forall_forall. intros n Hn.
  by apply word_u128_uint, Hv.
Qed.

Lemma length_enc_words ws : forallb is_word ws = true ->
  length (enc_words ws) = (32 + length ws * 32)%nat.
Proof. intros. unfold enc_words. by rewrite length_app, length_size_word, length_words. Qed.

Lemma enc_words_abi ws : forallb is_word ws = true -> len (enc_words ws) <= u64_max ->
  enc_words ws = abi_encode (Array (map Word ws)).
Proof.
  unfold len. intros Hws. rewrite length_enc_words by done. intros Hmax.
  unfold enc_words. by rewrite abi_words, size_word_uint by lia.
Qed.

Lemma execute_batch_abi d v f :
  forallb is_address d = true -> forallb is_u128 v = true ->
  len (execute_batch_calldata d v f) <= u64_max ->
  execute_batch_calldata d v f
  = (selector EXECUTE_BATCH ++ abi_args [Array (map Address d); Array (map Number v); Array (map Bytes f)])%list.
Proof.
  intros Hd Hv. pose proof (u128_words_uint v Hv) as Ev.
  unfold execute_batch_calldata. rewrite Ev. cbv zeta. unfold len.
  rewrite !length_app, !length_size_word, length_selector. unfold WORD. intros Hmax.
  rewrite !size_word_uint by lia.
  rewrite enc_array_abi by (unfold len; lia).
  rewrite !enc_words_abi by first [by apply addr_words | by rewrite <-Ev; apply u128_words | unfold len; lia].
  replace (map Address d) with (map Word (map addr_word d)) by (by rewrite map_map).
  replace (map Number v) with (map Word (map uint_word v)) by (by rewrite map_map).
  unfold abi_args, abi_part. cbn [map dynamic].
  unfold layout. cbn [heads tails sum_list_with head_size fst].
  by rewrite !app_nil_r, <-!app_assoc.
Qed.

Definition fits (c : Call) : Prop := len (calldata_of c) <= u64_max.

(** What the code writes for the arguments of a call. *)
Definition signature_of (c : Call) : string := (interface c).1 +:+ type_name (TTuple (interface c).2).

Lemma additional_master_abi m : call_wf (RegisterAdditionalMasterDevice m) = true ->
  fits (RegisterAdditionalMasterDevice m) ->
  additional_master_calldata m
  = (selector (signature_of (RegisterAdditionalMasterDevice m))
     ++ abi_args (arguments (RegisterAdditionalMasterDevice m)))%list.
Proof.
  unfold fits. cbn [call_wf calldata_of arguments]. intros Hwf. words.
  unfold additional_master_calldata. cbv zeta. unfold len.
  rewrite !length_app, !length_size_word. intros Hmax.
  pose proof (length_enc_bytes (am_authenticator_data m)).
  pose proof (length_enc_bytes (am_client_data_json m)).
  rewrite !word_u128_uint, !size_word_uint, !enc_bytes_abi by first [done | unfold len, WORD in *; lia].
  unfold Number. abi_layout. cbn [concat].
  repeat match goal with E : length _ = 32%nat |- _ => rewrite !E; clear E end.
  rewrite !length_uint_word. rewrite <-!app_assoc, ?app_nil_r.
  reflexivity.
Qed.

Lemma register_k10_abi sig r :
  forallb is_word [ar_device_key_hash r; ar_operator_omni r; ar_actor_omni r] = true ->
  len (register_k10_actor_calldata sig r) <= u64_max ->
  register_k10_actor_calldata sig r = (selector sig ++ abi_args (arguments (RegisterAgentDevice r)))%list.
Proof.
  intros Hwf. words. unfold register_k10_actor_calldata. cbv zeta. unfold len.
  rewrite !length_app, !length_size_word. intros Hmax.
  pose proof (length_enc_bytes (link_code_redemption r)).
  pose proof (length_enc_bytes (agent_pop_sig r)).
  rewrite !size_word_uint, !enc_bytes_abi by first [done | unfold len, WORD in *; lia].
  cbn [arguments]. abi_layout.
  repeat match goal with E : length _ = 32%nat |- _ => rewrite !E; clear E end.
  rewrite <-!app_assoc, ?app_nil_r. reflexivity.
Qed.

Lemma set_scope_abi op a g : call_wf (SetScope op a g) = true -> fits (SetScope op a g) ->
  set_scope_calldata op a g = (selector (signature_of (SetScope op a g)) ++ abi_args (arguments (SetScope op a g)))%list.
Proof.
  unfold fits. cbn [call_wf calldata_of arguments]. intros Hwf. words.
  unfold set_scope_calldata. cbv zeta. unfold len. rewrite !length_app, length_words by done. intros Hmax.
  rewrite !word_u128_uint, !size_word_uint, bool_word_flag by first [done | unfold WORD; lia].
  unfold abi_args, abi_part. cbn [map dynamic]. rewrite abi_words. abi_layout.
  repeat match goal with E : length _ = 32%nat |- _ => rewrite !E; clear E end.
  rewrite !length_uint_word, <-!app_assoc, ?app_nil_r. reflexivity.
Qed.

Lemma execute_batch_call_abi d v f : call_wf (ExecuteBatch d v f) = true -> fits (ExecuteBatch d v f) ->
  execute_batch_calldata d v f
  = (selector (signature_of (ExecuteBatch d v f)) ++ abi_args (arguments (ExecuteBatch d v f)))%list.
Proof. cbn [call_wf]. intros [? ?]%andb_true_iff Hfits. by apply execute_batch_abi. Qed.

Lemma fixed_call_abi c : call_wf c = true ->
  match c with
  | RegisterAdditionalMasterDevice _ | RegisterAgentDevice _ | RegisterDelegate _
  | SetScope _ _ _ | ExecuteBatch _ _ _ => True
  | _ => calldata_of c = (selector (signature_of c) ++ abi_args (arguments c))%list
  end.
Proof.
  destruct c; try done; cbn [call_wf]; intros Hwf; words;
    cbn [calldata_of arguments]; unfold operator_master_wallet_calldata, entrypoint_nonce_calldata,
      factory_account_calldata, revoke_scope_calldata, add_signer_calldata, append_root_calldata,
      root_count_calldata, get_root_calldata, revoke_agent_device_calldata,
      register_first_master_device_calldata;
    rewrite ?word_u128_uint by done; abi_layout; cbn [concat]; rewrite ?app_nil_r; reflexivity.
Qed.

Lemma all_words_typed (t : AbiTy) ws : (forall w, length w = 32%nat -> has_type t (Word w) = true) ->
  forallb is_word ws = true -> forallb (has_type t) (map Word ws) = true.
Proof.
  intros Ht. rewrite !forallb_elem. intros Hws x (w & -> & Hw)%list_elem_of_fmap.
  apply Ht, Nat.eqb_eq, Hws, Hw.
Qed.

Lemma bytes_typed f : forallb (has_type TBytes) (map Bytes f) = true.
Proof. apply forallb_elem. by intros x (b & -> & _)%list_elem_of_fmap. Qed.

Lemma typed_cons t ts v vs :
  has_type (TTuple (t :: ts)) (Tuple (v :: vs)) = has_type t v && has_type (TTuple ts) (Tuple vs).
Proof. done. Qed.

Lemma typed_word name w : has_type (TValue name) (Word w) = is_word w.
Proof. done. Qed.

Lemma typed_array t vs : has_type (TArray t) (Array vs) = forallb (has_type t) vs.
Proof. done. Qed.

Lemma uint_is_word n : is_word (uint_word n) = true.
Proof. unfold is_word. by rewrite length_uint_word. Qed.

Lemma words_typed name ws : forallb is_word ws = true ->
  has_type (TArray (TValue name)) (Array (map Word ws)) = true.
Proof. intros. rewrite typed_array. by apply all_words_typed; [intros w Hw; apply Nat.eqb_eq|]. Qed.

Lemma arguments_typed c : call_wf c = true -> has_type (TTuple (interface c).2) (Tuple (arguments c)) = true.
Proof.
  assert (Ha : forall a, is_address a = true -> is_word (addr_word a) = true)
    by (intros; unfold is_word; by rewrite length_addr_word).
  destruct c; cbn [call_wf]; intros Hwf;
    repeat match goal with
    | H : (_ && _)%bool = true |- _ => apply andb_true_iff in H as [? ?]
    | H : forallb _ (_ :: _) = true |- _ => cbn [forallb] in H
    end;
    cbn [interface arguments snd]; unfold b32, u256, u128, u8, address, Number, Address, Flag;
    rewrite ?typed_cons, ?typed_word, ?uint_is_word; rewrite ?Ha by done;
    repeat match goal with E : is_word _ = true |- _ => rewrite !E; clear E end; try done.
  - by rewrite words_typed.
  - replace (map (fun a => Word (addr_word a)) dest0) with (map Word (map addr_word dest0)) by (by rewrite map_map).
    replace (map (fun n => Word (uint_word n)) values) with (map Word (map uint_word values)) by (by rewrite map_map).
    rewrite !words_typed by first [by apply addr_words
      | by rewrite <-u128_words_uint by done; apply u128_words, u128_words_uint].
    rewrite typed_array. by rewrite bytes_typed.
Qed.

(** ** Lemmas: reading a batch back *)

Definition batch_call_ok (c : BatchCall) : bool := is_address (dest c) && is_u128 (value c).

Lemma usize_at_size args off n what :
  holds_at args off (size_word n) -> len args <= u64_max -> Z.of_nat n <= u64_max ->
  usize_at args off what = Ok (Z.of_nat n).
Proof.
  intros Hat Hmax Hn. unfold usize_at.
  rewrite (holds_word _ _ _ Hat) by (by rewrite ?length_size_word).
  cbn [mbind option_bind]. rewrite size_word_uint by done.
  by rewrite word_to_usize_word by lia.
Qed.

Lemma offset_word_at args elems i e : forall off running,
  holds_at args off (offset_words running elems) -> elems !! i = Some e ->
  holds_at args (off + Z.of_nat i * 32) (size_word (running + length (concat (take i elems)))).
Proof.
  revert i. induction elems as [|x elems IH]; intros i off running Hat Hi; [done|].
  cbn [offset_words] in Hat. destruct i as [|i].
  - apply holds_l in Hat. cbn [take concat length]. by rewrite Nat.add_0_r, Z.add_0_r.
  - apply holds_r in Hat. unfold len in Hat. rewrite length_size_word in Hat.
    specialize (IH i _ _ Hat Hi). cbn [take]. rewrite length_concat_cons, Nat.add_assoc.
    replace (off + Z.of_nat (S i) * 32) with (off + Z.of_nat 32 + Z.of_nat i * 32) by lia. exact IH.
Qed.

Lemma addr_word_reads a : is_address a = true ->
  forallb is_zero_byte (take 12 (addr_word a)) = true /\ drop 12 (addr_word a) = a.
Proof. intros Ha. unfold addr_word. by rewrite take_app_length', drop_app_length'. Qed.

Lemma word_u128_reads n : is_u128 n = true ->
  forallb is_zero_byte (take 16 (word_u128 n)) = true /\ be_val (drop 16 (word_u128 n)) = n.
Proof.
  unfold is_u128. intros Hn. reflect_bools. unfold word_u128.
  rewrite take_app_length', drop_app_length' by done. split; [done|].
  apply be_val_bytes_small. done.
Qed.

Lemma enc_bytes_at args off b what : holds_at args off (enc_bytes b) -> len args <= u64_max ->
  usize_at args off what = Ok (len b) /\ off + 32 + len b <= len args /\
  slice args (off + 32) (off + 32 + len b) = b.
Proof.
  intros Hat Hmax. unfold enc_bytes in Hat.
  pose proof (holds_l _ _ _ _ Hat) as Hlen. apply holds_r in Hat. apply holds_l in Hat.
  unfold len in Hat at 1. rewrite length_size_word in Hat. change (Z.of_nat 32) with 32 in Hat.
  pose proof (holds_range _ _ _ Hat) as [? ?]. pose proof (holds_range _ _ _ Hlen) as [? _].
  split; [|split; [lia | by apply holds_slice]].
  apply usize_at_size; [done | done | unfold len in *; lia].
Qed.

Lemma batch_call_at args calls dest_at value_at func_at i c :
  holds_at args dest_at (concat (map addr_word (map dest calls))) ->
  holds_at args value_at (concat (map word_u128 (map value calls))) ->
  (let elems := map enc_bytes (map calldata calls) in
   holds_at args func_at (offset_words (length elems * WORD) elems ++ concat elems)%list) ->
  forallb batch_call_ok calls = true -> len args <= u64_max -> calls !! i = Some c ->
  batch_call args dest_at value_at func_at i = Ok c.
Proof.
  cbv zeta. intros Hd Hv Hf Hok Hmax Hi.
  rewrite forallb_elem in Hok. unfold batch_call_ok in Hok.
  assert (Hc : is_address (dest c) = true /\ is_u128 (value c) = true)
    by (apply andb_true_iff, Hok; by eapply list_elem_of_lookup_2).
  destruct Hc as [Hda Hva].
  destruct (addr_word_reads _ Hda) as [Hz1 Hd1]. destruct (word_u128_reads _ Hva) as [Hz2 Hd2].
  assert (Hdw : expect_word args (dest_at + Z.of_nat i * 32) = Ok (addr_word (dest c))).
  { unfold expect_word. erewrite holds_word; [done | | by apply length_addr_word | done].
    eapply (holds_in _ _ (map addr_word (map dest calls))); [| exact Hd |].
    - rewrite map_map. apply Forall_map, Forall_forall. intros x Hx. apply length_addr_word.
      apply Hok, andb_true_iff in Hx as [? _]. done.
    - by rewrite map_map, list_lookup_fmap, Hi. }
  assert (Hvw : expect_word args (value_at + Z.of_nat i * 32) = Ok (word_u128 (value c))).
  { unfold expect_word. erewrite holds_word; [done | | by apply length_word_u128 | done].
    eapply (holds_in _ _ (map word_u128 (map value calls))); [| exact Hv |].
    - rewrite map_map. apply Forall_map, Forall_forall. intros x Hx. apply length_word_u128.
    - by rewrite map_map, list_lookup_fmap, Hi. }
  set (elems := map enc_bytes (map calldata calls)) in *.
  assert (He : elems !! i = Some (enc_bytes (calldata c)))
    by (unfold elems; by rewrite map_map, list_lookup_fmap, Hi).
  pose proof (holds_l _ _ _ _ Hf) as Hoff. apply holds_r in Hf.
  unfold len in Hf at 1. rewrite length_offset_words in Hf. change (Z.of_nat 32) with 32 in Hf.
  pose proof (offset_word_at _ _ _ _ _ _ Hoff He) as Hrel.
  pose proof (holds_concat _ _ _ _ _ Hf He) as Hel.
  pose proof (holds_range _ _ _ Hel) as [Hlo Hhi].
  pose proof (holds_range _ _ _ Hoff) as [Hlo' _].
  destruct (enc_bytes_at _ _ _ ("func[" +:+ dec (Z.of_nat i) +:+ "].len") Hel Hmax) as (Hlen & Hend & Hslice).
  unfold batch_call. cbv zeta. rewrite Hdw. cbv iota beta. rewrite Hz1, Hvw. cbv iota beta. rewrite Hz2.
  pose proof (len_nonneg (enc_bytes (calldata c))). pose proof (len_nonneg (calldata c)).
  clearbody elems. unfold WORD, len, bytes in *.
  rewrite (usize_at_size _ _ _ _ Hrel) by (unfold len; lia).
  rewrite Nat2Z.inj_add.
  rewrite (proj2 (checked_add_some func_at _ _)) by (split; [done | lia]). cbn [ok_or].
  rewrite Z.add_assoc, Hlen. rewrite (proj2 (checked_add_some (_ + 32) _ _)) by (split; [done | lia]).
  cbn [mbind option_bind]. rewrite (proj2 (Z.leb_le _ _)) by (unfold len; lia). cbn [ok_or].
  rewrite Hd1, Hd2, Hslice. by destruct c.
Qed.

(** The batch of some calls. *)
Definition batch_of (calls : list BatchCall) : bytes :=
  execute_batch_calldata (map dest calls) (map value calls) (map calldata calls).

Lemma enc_words_at args off ws what : forallb is_word ws = true ->
  holds_at args off (enc_words ws) -> len args <= u64_max ->
  usize_at args off what = Ok (Z.of_nat (length ws)) /\ off + 32 + Z.of_nat (length ws) * 32 <= len args /\
  holds_at args (off + 32) (concat ws).
Proof.
  intros Hws Hat Hmax. pose proof (holds_range _ _ _ Hat) as [Hlo Hhi].
  assert (Hl : len (enc_words ws) = 32 + Z.of_nat (length ws) * 32)
    by (unfold len; rewrite length_enc_words by done; lia).
  rewrite Hl in Hhi. unfold enc_words in Hat. split; [|split].
  - apply usize_at_size; [by apply holds_l in Hat | done | lia].
  - lia.
  - apply holds_r in Hat. unfold len in Hat at 1. by rewrite length_size_word in Hat.
Qed.

Lemma enc_array_at args off elems what :
  holds_at args off (enc_array elems) -> len args <= u64_max ->
  usize_at args off what = Ok (Z.of_nat (length elems)) /\
  off + 32 + Z.of_nat (length elems) * 32 <= len args /\
  holds_at args (off + 32) (offset_words (length elems * WORD) elems ++ concat elems)%list.
Proof.
  intros Hat Hmax. pose proof (holds_range _ _ _ Hat) as [Hlo Hhi].
  unfold len in Hhi at 1. rewrite length_enc_array in Hhi.
  unfold enc_array in Hat. split; [|split].
  - apply usize_at_size; [by apply holds_l in Hat | done | lia].
  - lia.
  - apply holds_r in Hat. unfold len in Hat at 1. by rewrite length_size_word in Hat.
Qed.

Lemma array_at_ok args slot off n what :
  usize_at args slot what = Ok off -> (forall what, usize_at args off what = Ok n) ->
  array_at args slot what = Ok (n, off + 32).
Proof. intros H1 H2. unfold array_at. by rewrite H1, H2. Qed.

Lemma static_end_ok args start n : 0 <= start -> start + n * 32 <= len args -> 0 <= n -> len args <= u64_max ->
  static_end args start n = Ok (start + n * 32).
Proof.
  intros. unfold static_end. rewrite (proj2 (checked_mul_some n 32 _)) by (split; [done | lia]).
  cbn [mbind option_bind]. rewrite (proj2 (checked_add_some start _ _)) by (split; [done | lia]).
  cbn [mbind option_bind]. by rewrite (proj2 (Z.leb_le _ _)) by lia.
Qed.

Definition batch_args (encd encv encf : bytes) : bytes :=
  (size_word (3 * WORD) ++ size_word (3 * WORD + length encd)
   ++ size_word (3 * WORD + length encd + length encv) ++ encd ++ encv ++ encf)%list.

(** Where the three arrays of a batch stand. *)
Lemma batch_args_at encd encv encf args : args = batch_args encd encv encf -> len args <= u64_max ->
  let o1 := 96 in let o2 := 96 + len encd in let o3 := 96 + len encd + len encv in
  (usize_at args 0 "dest" = Ok o1 /\ holds_at args o1 encd) /\
  (usize_at args 32 "values" = Ok o2 /\ holds_at args o2 encv) /\
  (usize_at args 64 "func" = Ok o3 /\ holds_at args o3 encf).
Proof.
  intros E Hmax. cbv zeta.
  assert (Hat : holds_at args 0 (batch_args encd encv encf))
    by (apply (holds_head _ _ []); by rewrite app_nil_r).
  unfold batch_args in Hat.
  pose proof (holds_l _ _ _ _ Hat) as W0. apply holds_r in Hat.
  pose proof (holds_l _ _ _ _ Hat) as W1. apply holds_r in Hat.
  pose proof (holds_l _ _ _ _ Hat) as W2. apply holds_r in Hat.
  assert (Hw : forall n, len (size_word n) = 32) by (intros n; unfold len; by rewrite length_size_word).
  rewrite !Hw in *. change (0 + 32) with 32 in *. change (32 + 32) with 64 in *. change (64 + 32) with 96 in *.
  pose proof (holds_l _ _ _ _ Hat) as Hd. apply holds_r in Hat.
  pose proof (holds_l _ _ _ _ Hat) as Hv. apply holds_r in Hat.
  pose proof (holds_range _ _ _ Hat) as [_ Hr]. pose proof (len_nonneg encf).
  unfold len, WORD in *.
  split; [|split]; (split; [|assumption]).
  - by rewrite (usize_at_size _ _ _ _ W0) by (unfold len; lia).
  - rewrite (usize_at_size _ _ _ _ W1) by (unfold len; lia). f_equal. lia.
  - rewrite (usize_at_size _ _ _ _ W2) by (unfold len; lia). f_equal. lia.
Qed.

(** The reader is the inverse of the writer. *)
Lemma decode_batch_of `{HexCodec} calls : forallb batch_call_ok calls = true -> len (batch_of calls) <= u64_max ->
  decode_execute_batch (batch_of calls) = Ok calls.
Proof.
  intros Hok Hmax.
  assert (Hd : forallb is_word (map addr_word (map dest calls)) = true).
  { apply addr_words, forallb_elem. intros a (c & -> & Hc)%list_elem_of_fmap.
    rewrite forallb_elem in Hok. apply Hok, andb_true_iff in Hc as [? _]. done. }
  assert (Hv : forallb is_word (map word_u128 (map value calls)) = true)
    by (apply forallb_elem; intros a (c & -> & Hc)%list_elem_of_fmap; unfold is_word; by rewrite length_word_u128).
  change (batch_of calls) with (selector EXECUTE_BATCH ++ batch_args (enc_words (map addr_word (map dest calls)))
    (enc_words (map word_u128 (map value calls))) (enc_array (map enc_bytes (map calldata calls))))%list in *.
  remember (batch_args _ _ _) as args eqn:E. rewrite len_app in Hmax.
  pose proof (len_nonneg (selector EXECUTE_BATCH)). pose proof (len_nonneg args).
  assert (Hargs : len args <= u64_max) by lia.
  destruct (batch_args_at _ _ _ _ E Hargs) as ((Ud & Ad) & (Uv & Av) & (Uf & Af)).
  pose proof (fun what => enc_words_at _ _ _ what Hd Ad Hargs) as Rd.
  pose proof (fun what => enc_words_at _ _ _ what Hv Av Hargs) as Rv.
  pose proof (fun what => enc_array_at _ _ _ what Af Hargs) as Rf.
  rewrite !length_map in *.
  unfold decode_execute_batch. rewrite len_app, (proj2 (Z.ltb_ge _ _)) by
    (unfold len at 1; rewrite length_selector; lia). cbn [negb].
  rewrite take_app_length', drop_app_length' by (by rewrite length_selector).
  rewrite bool_decide_true by done. cbv zeta. change (2 * 32) with 64.
  rewrite (array_at_ok _ _ _ _ _ Ud (fun what => proj1 (Rd what))),
    (array_at_ok _ _ _ _ _ Uv (fun what => proj1 (Rv what))),
    (array_at_ok _ _ _ _ _ Uf (fun what => proj1 (Rf what))).
  cbv iota beta. rewrite !Z.eqb_refl. cbn [negb orb].
  destruct (Rd "") as (_ & Ed & Cd). destruct (Rv "") as (_ & Ev & Cv). destruct (Rf "") as (_ & Ef & Cf).
  pose proof (holds_range _ _ _ Ad). pose proof (holds_range _ _ _ Av). pose proof (holds_range _ _ _ Af).
  rewrite !static_end_ok by lia. rewrite Nat2Z.id. apply try_map_ok, Forall2_lookup. intros i.
  destruct (calls !! i) as [c|] eqn:Hi.
  - rewrite lookup_seq_lt by (by eapply lookup_lt_Some). constructor.
    apply (batch_call_at _ calls); try done. cbv zeta. by rewrite !length_map.
  - rewrite lookup_seq_ge by (by apply lookup_ge_None_1). constructor.
Qed.

(** ** The ceremonies: what one signature authorizes *)

Inductive Inner := Known (c : Call) | Given (calldata : bytes).

Inductive Ceremony :=
| HostedSigner (account registry : bytes) (m : AdditionalMaster)
| Accept (registry scope : bytes) (reg : AgentRegister) (grant : ScopeGrant)
| Spawn (registry scope : bytes) (reg : AgentRegister) (grant : ScopeGrant)
    (extra : list ExtraScope) (enrollments : list AgentRegister) (trailing : list TrailingCall)
| Rebind (registry scope operator_omni actor_omni : bytes) (grant : ScopeGrant)
    (extra : list ExtraScope) (enrollments : list AgentRegister) (trailing : list TrailingCall)
| Regrant (scope operator_omni agent_omni : bytes) (grant : ScopeGrant)
| Seal (trailing : list TrailingCall)
| Revoke (registry scope operator_omni : bytes) (device_key_hashes : list bytes) (extra : list ExtraScope)
| RegisterMaster (registry : bytes) (r : RegisterFirstMaster).

Definition ceremony_calldata (c : Ceremony) : bytes :=
  match c with
  | HostedSigner account registry m => hosted_signer_batch_calldata account registry m
  | Accept registry scope reg grant => accept_batch_calldata registry scope reg grant
  | Spawn registry scope reg grant extra enrollments trailing =>
      spawn_batch_calldata_sealed registry scope reg grant extra enrollments trailing
  | Rebind registry scope op actor grant extra enrollments trailing =>
      rebind_batch_calldata_sealed registry scope op actor grant extra enrollments trailing
  | Regrant scope op agent grant => scope_batch_calldata scope op agent grant
  | Seal trailing => trailing_batch_calldata trailing
  | Revoke registry scope op hashes extra => revoke_batch_calldata_with_scopes registry scope op hashes extra
  | RegisterMaster registry r => register_batch_calldata registry r
  end.

Definition enroll (registry : bytes) (l : list AgentRegister) : list (bytes * Inner) :=
  map (fun e => (registry, Known (RegisterAgentDevice e))) l.

Definition regrant (scope op : bytes) (l : list ExtraScope) : list (bytes * Inner) :=
  map (fun e => (scope, Known (SetScope op (es_actor_omni e) (es_grant e)))) l.

Definition seal (l : list TrailingCall) : list (bytes * Inner) := map (fun t => (t.1, Given t.2)) l.

(** The steps of a ceremony, in order. *)
Definition ceremony_steps (c : Ceremony) : list (bytes * Inner) :=
  match c with
  | HostedSigner account registry m =>
      [(account, Known (AddSigner (am_credential_hash m) (am_pub_x m) (am_pub_y m) (am_rp_id_hash m)));
       (registry, Known (RegisterAdditionalMasterDevice m))]
  | Accept registry scope reg grant =>
      [(registry, Known (RegisterAgentDevice reg));
       (scope, Known (SetScope (ar_operator_omni reg) (ar_actor_omni reg) grant))]
  | Spawn registry scope reg grant extra enrollments trailing =>
      (enroll registry enrollments
       ++ [(registry, Known (RegisterDelegate reg));
           (scope, Known (SetScope (ar_operator_omni reg) (ar_actor_omni reg) grant))]
       ++ regrant scope (ar_operator_omni reg) extra ++ seal trailing)%list
  | Rebind registry scope op actor grant extra enrollments trailing =>
      (enroll registry enrollments ++ [(scope, Known (SetScope op actor grant))]
       ++ regrant scope op extra ++ seal trailing)%list
  | Regrant scope op agent grant => [(scope, Known (SetScope op agent grant))]
  | Seal trailing => seal trailing
  | Revoke registry scope op hashes extra =>
      (map (fun h => (registry, Known (RevokeAgentDevice h))) hashes ++ regrant scope op extra)%list
  | RegisterMaster registry r => [(registry, Known (RegisterFirstMasterDevice r))]
  end.

Definition step_call (s : bytes * Inner) : BatchCall :=
  {| dest := s.1; value := 0;
     calldata := match s.2 with Known c => calldata_of c | Given b => b end |}.

(** The contracts' addresses have 20 bytes. *)
Definition ceremony_wf (c : Ceremony) : bool := forallb (fun s => is_address s.1) (ceremony_steps c).

Lemma zero_value_batch_of steps calls :
  calls = map (fun s => (dest (step_call s), calldata (step_call s))) steps ->
  zero_value_batch calls = batch_of (map step_call steps).
Proof. intros ->. unfold zero_value_batch, batch_of. by rewrite !map_map. Qed.

Lemma repeat_zero {A} (l : list A) : repeat 0 (length l) = map (fun _ => 0) l.
Proof. induction l as [|x l IH]; cbn; [done | by rewrite IH]. Qed.

Lemma repeat_const {A} (b : bytes) (l : list A) : repeat b (length l) = map (fun _ => b) l.
Proof. induction l as [|x l IH]; cbn; [done | by rewrite IH]. Qed.

Lemma ceremony_batch c : ceremony_calldata c = batch_of (map step_call (ceremony_steps c)).
Proof.
  destruct c as [| | registry scope reg grant extra enrollments trailing | | | trailing
                | registry scope op hashes extra |]; cbn [ceremony_calldata ceremony_steps]; try done.
  - unfold spawn_batch_calldata_sealed. destruct (is_nil extra && is_nil enrollments && is_nil trailing) eqn:E.
    + by destruct extra, enrollments, trailing.
    + apply zero_value_batch_of. unfold enrollment_calls, extra_calls, enroll, regrant, seal.
      rewrite !map_app, !map_map. f_equal. cbn [map app]. do 3 f_equal. f_equal.
      rewrite <-(map_id trailing) at 1. apply map_ext. by intros [].
  - unfold rebind_batch_calldata_sealed. apply zero_value_batch_of.
    unfold enrollment_calls, extra_calls, enroll, regrant, seal.
    rewrite !map_app, !map_map. f_equal. cbn [map app]. do 2 f_equal. f_equal.
    rewrite <-(map_id trailing) at 1. apply map_ext. by intros [].
  - unfold trailing_batch_calldata, batch_of, seal. by rewrite !map_map, repeat_zero.
  - unfold revoke_batch_calldata_with_scopes. destruct extra as [|e extra]; cbn [is_nil].
    + unfold revoke_batch_calldata, batch_of, regrant. cbn [map]. rewrite app_nil_r.
      by rewrite !map_map, repeat_zero, repeat_const.
    + apply zero_value_batch_of. unfold extra_calls, regrant. by rewrite !map_app, !map_map.
Qed.

(** ** Lemmas: any calldata *)

Lemma usize_at_some args at_ what n : 0 <= at_ -> usize_at args at_ what = Ok n ->
  at_ + 32 <= len args /\ 0 <= n <= u64_max.
Proof.
  intros Hat. unfold usize_at. rewrite ok_or_ok, bind_Some. intros (w & Hw & Hn).
  apply read_word_some in Hw as (Hlen & _ & ->); [|done]. split; [done|].
  eapply word_to_usize_range; [|exact Hn].
  pose proof (length_slice args at_ (at_ + 32) ltac:(lia) Hlen) as Hl. unfold len in Hl. lia.
Qed.

Lemma usize_at_message args at_ what e : usize_at args at_ what = Err e -> exists s, e = Message s.
Proof. unfold usize_at. rewrite ok_or_err. intros [_ <-]. by eexists. Qed.

Lemma static_end_some args start n e : static_end args start n = Ok e ->
  e = start + n * 32 /\ e <= len args /\ e <= u64_max.
Proof.
  unfold static_end. rewrite ok_or_ok, bind_Some. intros (k & [-> ?]%checked_mul_some & Hk).
  apply bind_Some in Hk as (m & [-> ?]%checked_add_some & Hm).
  destruct (_ <=? _) eqn:E; [|done]. injection Hm as <-. reflect_bools. lia.
Qed.

Lemma expect_word_ok args start n e i : 0 <= start -> static_end args start n = Ok e ->
  (i < Z.to_nat n)%nat ->
  exists w, expect_word args (start + Z.of_nat i * 32) = Ok w /\ length w = 32%nat.
Proof.
  intros Hs (-> & Hlen & Hmax)%static_end_some Hi.
  exists (slice args (start + Z.of_nat i * 32) (start + Z.of_nat i * 32 + 32)). split.
  - unfold expect_word. apply ok_or_ok, read_word_some; [lia|]. split; [lia|]. split; [lia|done].
  - pose proof (length_slice args (start + Z.of_nat i * 32) (start + Z.of_nat i * 32 + 32)
      ltac:(lia) ltac:(lia)) as Hl. unfold len in Hl. lia.
Qed.

Lemma array_at_some args slot what n at_ : 0 <= slot -> array_at args slot what = Ok (n, at_) ->
  0 <= at_ <= len args /\ 0 <= n.
Proof.
  intros Hslot. unfold array_at. rewrite let_ok. intros (off & Hoff & Hn).
  apply let_ok in Hn as (count & Hc & [= <- <-]).
  apply usize_at_some in Hoff as [? ?]; [|done]. apply usize_at_some in Hc as [? ?]; lia.
Qed.

Lemma array_at_message args slot what e : array_at args slot what = Err e -> exists s, e = Message s.
Proof.
  unfold array_at. rewrite let_err. intros [?%usize_at_message|(off & _ & He)]; [done|].
  apply let_err in He as [?%usize_at_message|(? & _ & ?)]; done.
Qed.

(** What a decoded call is made of. *)
Definition call_within (data : bytes) (c : BatchCall) : Prop :=
  batch_call_ok c = true /\ exists off, holds_at data off (calldata c).

Lemma holds_of_slice b lo hi : 0 <= lo <= hi -> hi <= len b -> holds_at b lo (slice b lo hi).
Proof.
  intros H1 H2. exists (take (Z.to_nat lo) b), (drop (Z.to_nat (hi - lo)) (drop (Z.to_nat lo) b)).
  unfold slice. rewrite !take_drop. split; [done|]. unfold len in *. rewrite length_take. lia.
Qed.

Lemma holds_drop k b off x : holds_at (drop k b) off x -> holds_at b (off + len (take k b)) x.
Proof.
  intros (pre & rest & E & <-). exists (take k b ++ pre)%list, rest.
  rewrite <-app_assoc, <-E, take_drop, len_app. split; [done|lia].
Qed.

Lemma batch_call_some args d v f i c : 0 <= f ->
  batch_call args d v f i = Ok c -> (exists w, expect_word args (d + Z.of_nat i * 32) = Ok w /\ length w = 32%nat) ->
  (exists w, expect_word args (v + Z.of_nat i * 32) = Ok w /\ length w = 32%nat) -> call_within args c.
Proof.
  intros Hf Hc (dw & Hd & Hdl) (vw & Hv & Hvl). unfold batch_call in Hc. cbv zeta in Hc.
  rewrite Hd, Hv in Hc. apply guard_ok in Hc as [_ Hc]. apply guard_ok in Hc as [_ Hc].
  apply let_ok in Hc as (rel & Hrel%usize_at_some & Hc); [|lia].
  apply let_ok in Hc as (el & Hel & Hc). apply ok_or_ok, checked_add_some in Hel as [-> _].
  apply let_ok in Hc as (n & Hn%usize_at_some & Hc); [|lia].
  apply let_ok in Hc as (e & He & [= <-]). apply ok_or_ok, bind_Some in He as (m & [-> _]%checked_add_some & Hm).
  destruct (_ <=? _) eqn:Hle; [|done]. injection Hm as <-. reflect_bools.
  split; [|exists (f + rel + 32); apply holds_of_slice; cbn [calldata]; lia].
  unfold batch_call_ok, is_address, is_u128. cbn [dest value].
  pose proof (be_val_range (drop 16 vw)) as Hr. rewrite length_drop, Hvl in Hr.
  change (256 ^ Z.of_nat (32 - 16)) with (2 ^ 128) in Hr.
  rewrite length_drop, Hdl, !andb_true_iff. split; [done|]. split; [apply Z.leb_le | apply Z.ltb_lt]; lia.
Qed.

Lemma batch_call_message args d v f i e :
  batch_call args d v f i = Err e -> (exists w, expect_word args (d + Z.of_nat i * 32) = Ok w /\ length w = 32%nat) ->
  (exists w, expect_word args (v + Z.of_nat i * 32) = Ok w /\ length w = 32%nat) -> exists s, e = Message s.
Proof.
  intros He (dw & Hd & _) (vw & Hv & _). unfold batch_call in He. cbv zeta in He. rewrite Hd, Hv in He.
  apply guard_err in He as [[_ <-]|[_ He]]; [by eexists|].
  apply guard_err in He as [[_ <-]|[_ He]]; [by eexists|].
  apply let_err in He as [He%usize_at_message|(rel & _ & He)]; [done|].
  apply let_err in He as [[_ <-]%ok_or_err|(el & _ & He)]; [by eexists|].
  apply let_err in He as [He%usize_at_message|(n & _ & He)]; [done|].
  apply let_err in He as [[_ <-]%ok_or_err|(? & _ & ?)]; [by eexists | done].
Qed.

Lemma static_end_message args start n e : static_end args start n = Err e -> exists s, e = Message s.
Proof. unfold static_end. rewrite ok_or_err. intros [_ <-]. by eexists. Qed.

(** The loop over the calls of a batch whose static parts are in range. *)
Lemma batch_calls_safe args d v f n ed ev : 0 <= d -> 0 <= v -> 0 <= f ->
  static_end args d n = Ok ed -> static_end args v n = Ok ev ->
  match try_map (batch_call args d v f) (seq 0 (Z.to_nat n)) with
  | Ok calls => Forall (call_within args) calls /\ Z.of_nat (length calls) * 32 <= len args
  | Err e => exists s, e = Message s
  end.
Proof.
  intros Hd Hv Hf Ed Ev.
  destruct (try_map _ _) as [calls|e] eqn:E.
  - apply try_map_ok in E. split.
    + apply Forall_lookup. intros i c Hc. rewrite Forall2_lookup in E. specialize (E i). rewrite Hc in E.
      inversion E as [j ? Hj Hi|]; subst. symmetry in Hi. apply lookup_seq in Hi as [-> Hi].
      eapply batch_call_some; [exact Hf | exact Hj | by eapply expect_word_ok | by eapply expect_word_ok].
    + apply Forall2_length in E. rewrite length_seq in E. rewrite <-E.
      apply static_end_some in Ed as (-> & ? & _). pose proof (len_nonneg args).
      destruct (decide (0 <= n)); [rewrite Z2Nat.id by done; lia|]. by rewrite Z2Nat.nonpos by lia.
  - apply try_map_err in E as (i & Hi & He). apply elem_of_seq in Hi.
    eapply batch_call_message; [exact He | eapply expect_word_ok | eapply expect_word_ok]; done || lia.
Qed.
End Encoded.

(** ** Properties *)

(** The hand-written encoders are the contracts' ABI.  For every call that the
    account layer makes, the calldata is the selector of the function's signature,
    printed from its name and parameter types, followed by the ABI encoding of
    arguments that have those types. *)
Theorem calldata_is_abi `{Crypto} (c : Call) :
  call_wf c = true -> fits c ->
  calldata_of c = (selector (signature_of c) ++ abi_args (arguments c))%list /\
  has_type (TTuple (interface c).2) (Tuple (arguments c)) = true.
Proof.
  intros Hwf Hfits. split; [|by apply arguments_typed].
  pose proof (fixed_call_abi c Hwf) as Hfixed. destruct c; try exact Hfixed; cbn [call_wf] in Hwf.
  - by apply additional_master_abi.
  - by apply register_k10_abi.
  - by apply (register_k10_abi "registerDelegate(bytes32,bytes32,bytes32,bytes,bytes)").
  - by apply set_scope_abi.
  - by apply execute_batch_call_abi.
Qed.

(** A batch says what it does.  The calldata that one signature of the master
    authorizes decodes, by the reader that writes the audit rows, to exactly the steps of
    the ceremony: the same calls to the same contracts in the same order, without value. *)
Theorem ceremony_decodes `{Crypto} `{HexCodec} (c : Ceremony) :
  ceremony_wf c = true -> len (ceremony_calldata c) <= u64_max ->
  decode_execute_batch (ceremony_calldata c) = Ok (map step_call (ceremony_steps c)).
Proof.
  rewrite ceremony_batch. intros Hwf Hmax. apply decode_batch_of; [|done].
  pose proof (proj1 (forallb_elem _ _) Hwf) as Ha. apply forallb_elem. intros b (s & -> & Hs)%list_elem_of_fmap.
  unfold batch_call_ok. cbn [step_call dest value]. by rewrite Ha.
Qed.

(** No calldata makes the reader panic or invent bytes.  On any input it answers
    with a message, or with calls whose addresses and values have their widths and whose
    calldata stands in the input, and no more of them than the input has words. *)
Theorem decode_batch_safe `{Crypto} `{HexCodec} (data : bytes) :
  match decode_execute_batch data with
  | Ok calls => Forall (call_within data) calls /\ Z.of_nat (length calls) * 32 <= len data
  | Err e => exists s, e = Message s
  end.
Proof.
  unfold decode_execute_batch.
  destruct (negb (len data <? 4)) eqn:Hlen; [|by eexists].
  destruct (bool_decide _); [|by eexists]. cbv zeta.
  destruct (array_at (drop 4 data) 0 "dest") as [[nd d]|e] eqn:Ed; [|by eapply array_at_message].
  destruct (array_at (drop 4 data) 32 "values") as [[nv v]|e] eqn:Ev; [|by eapply array_at_message].
  destruct (array_at (drop 4 data) (2 * 32) "func") as [[nf f]|e] eqn:Ef; [|by eapply array_at_message].
  apply array_at_some in Ed as [? _], Ev as [? _], Ef as [? _]; [|lia..].
  destruct (negb (_ || _)) eqn:En; [|by eexists]. reflect_bools. subst nv nf.
  destruct (static_end _ d nd) as [ed|e] eqn:Sd; [|by eapply static_end_message].
  destruct (static_end _ v nd) as [ev|e] eqn:Sv; [|by eapply static_end_message].
  destruct (static_end _ f nd) as [ef|e] eqn:Sf; [|by eapply static_end_message].
  pose proof (batch_calls_safe (drop 4 data) d v f nd ed ev ltac:(lia) ltac:(lia) ltac:(lia) Sd Sv) as Hall.
  destruct (try_map _ _) as [calls|e]; [|done]. destruct Hall as [Hall Hn]. split.
  - eapply Forall_impl; [exact Hall|]. intros c [Hok (off & Hoff)]. split; [done|].
    eexists. by apply holds_drop.
  - unfold len in *. rewrite length_drop in Hn. lia.
Qed.

(** ** Witnesses *)

Definition bytes_of (n : nat) (b : Byte.byte) : bytes := repeat b n.

Definition demo_register : AgentRegister := {|
  ar_device_key_hash := bytes_of 32 Byte.x11; ar_operator_omni := bytes_of 32 Byte.x22;
  ar_actor_omni := bytes_of 32 Byte.x33; link_code_redemption := [Byte.xde; Byte.xad; Byte.xbe; Byte.xef];
  agent_pop_sig := bytes_of 65 Byte.x55 |}.

Definition demo_grant : ScopeGrant := {|
  services := [bytes_of 32 Byte.x44; bytes_of 32 Byte.x45]; read_only := true; max_per_call := 7;
  max_per_period := 2 ^ 64; max_total := 2 ^ 128 - 1; period_seconds := 86400 |}.

Definition demo_spawn : Ceremony :=
  Spawn (bytes_of 20 Byte.xaa) (bytes_of 20 Byte.xbb) demo_register demo_grant
    [{| es_actor_omni := bytes_of 32 Byte.x66; es_grant := demo_grant |}] [demo_register]
    [(bytes_of 20 Byte.xcc, [Byte.x01; Byte.x02])].

Definition demo_call : Call := SetScope (bytes_of 32 Byte.x01) (bytes_of 32 Byte.x02) demo_grant.

Lemma calldata_is_abi_witness :
  calldata_of (H := ToyCrypto.crypto) demo_call
  = (selector (H := ToyCrypto.crypto) "setScope(bytes32,bytes32,bytes32[],bool,uint128,uint128,uint128,uint32)"
     ++ abi_args (arguments demo_call))%list /\
  has_type (TTuple (interface demo_call).2) (Tuple (arguments demo_call)) = true.
Proof.
  apply (calldata_is_abi (H := ToyCrypto.crypto) demo_call).
  - vm_compute. reflexivity.
  - unfold fits. apply Z.leb_le. vm_compute. reflexivity.
Defined.

Lemma ceremony_decodes_witness :
  decode_execute_batch (H := ToyCrypto.crypto) (H0 := SimpleHex.codec)
    (ceremony_calldata (H := ToyCrypto.crypto) demo_spawn)
  = Ok (map (step_call (H := ToyCrypto.crypto)) (ceremony_steps demo_spawn)).
Proof.
  apply (ceremony_decodes (H := ToyCrypto.crypto) (H0 := SimpleHex.codec) demo_spawn).
  - vm_compute. reflexivity.
  - apply Z.leb_le. vm_compute. reflexivity.
Defined.
