(* ===== verification/UserOp.v ===== *)
(** * User operations

    [crates/agentkeys-core/src/erc4337.rs], the envelope: the packed v0.7 operation, the
    hash a passkey signs and the one the paymaster signs, the JSON forms on both sides of
    the bundler, and the reading of a revert of the entry point. *)
From S2P Require Import Prelude RustStr StrFacts DeviceCore Abi Numerals Json Calldata Erc4337.

Open Scope Z_scope.

(** ** The packed operation *)

Definition pack_u128_pair (hi lo : Z) : bytes := (be_bytes 16 hi ++ be_bytes 16 lo)%list.
Definition unpack_u128_pair (w : bytes) : Z * Z := (be_val (take 16 w), be_val (drop 16 w)).

Definition GAS_QUOTE_MULTIPLIER : Z := 2.

Definition quoted_gas_fees (quote : string) : result string bytes :=
  let? quantity := ok_or "invalid gas quote" (strip_prefix "0x" quote) in
  guard! negb (String.eqb quantity "" || negb (string_all is_ascii_hexdigit quantity))
    else "invalid gas quote" ;;
  let? price := map_err (fun _ => "invalid gas quote") (u128_hex quantity) in
  let? buffered_price := ok_or "gas quote is zero or overflows"
    (let p := price * GAS_QUOTE_MULTIPLIER in
     if (p <=? u128_max) && (0 <? p) then Some p else None) in
  Ok (pack_u128_pair buffered_price buffered_price).

Record PackedUserOp := {
  sender : bytes; nonce : bytes; init_code : bytes; call_data : bytes;
  account_gas_limits : bytes; pre_verification_gas : bytes; gas_fees : bytes;
  paymaster_and_data : bytes; signature : bytes;
}.

Definition with_signature (s : bytes) (op : PackedUserOp) : PackedUserOp := {|
  sender := sender op; nonce := nonce op; init_code := init_code op; call_data := call_data op;
  account_gas_limits := account_gas_limits op; pre_verification_gas := pre_verification_gas op;
  gas_fees := gas_fees op; paymaster_and_data := paymaster_and_data op; signature := s |}.

(** The widths that the field types have in Rust. *)
Definition op_wf (op : PackedUserOp) : bool :=
  is_address (sender op) && forallb is_word [nonce op; account_gas_limits op; pre_verification_gas op; gas_fees op].

Section Hashes.
Context `{Crypto}.

Definition op_preimage (op : PackedUserOp) : bytes :=
  (addr_word (sender op) ++ nonce op ++ keccak256 (init_code op) ++ keccak256 (call_data op)
   ++ account_gas_limits op ++ pre_verification_gas op ++ gas_fees op
   ++ keccak256 (paymaster_and_data op))%list.

Definition outer_preimage (op : PackedUserOp) (entry_point : bytes) (chain_id : Z) : bytes :=
  (keccak256 (op_preimage op) ++ addr_word entry_point ++ u64_word chain_id)%list.

Definition user_op_hash (op : PackedUserOp) (entry_point : bytes) (chain_id : Z) : bytes :=
  keccak256 (outer_preimage op entry_point chain_id).

Definition paymaster_gas_word (op : PackedUserOp) : bytes :=
  if (52 <=? length (paymaster_and_data op))%nat
  then slice (paymaster_and_data op) 20 52 else zeros 32.

Definition paymaster_preimage (op : PackedUserOp) (valid_until valid_after : Z)
    (paymaster broker_signer : bytes) (chain_id : Z) : bytes :=
  (addr_word (sender op) ++ nonce op ++ keccak256 (init_code op) ++ keccak256 (call_data op)
   ++ account_gas_limits op ++ pre_verification_gas op ++ gas_fees op
   ++ paymaster_gas_word op ++ u64_word chain_id ++ addr_word paymaster
   ++ addr_word broker_signer ++ u64_word valid_until ++ u64_word valid_after)%list.

Definition paymaster_get_hash (op : PackedUserOp) (valid_until valid_after : Z)
    (paymaster broker_signer : bytes) (chain_id : Z) : bytes :=
  keccak256 (paymaster_preimage op valid_until valid_after paymaster broker_signer chain_id).

(** ** The calldata of the bundler *)

Definition abi_encode_struct (op : PackedUserOp) : bytes :=
  let enc_init := enc_bytes (init_code op) in
  let enc_call := enc_bytes (call_data op) in
  let enc_pmd := enc_bytes (paymaster_and_data op) in
  let enc_sig := enc_bytes (signature op) in
  let head := (9 * WORD)%nat in
  let off_init := head in
  let off_call := (off_init + length enc_init)%nat in
  let off_pmd := (off_call + length enc_call)%nat in
  let off_sig := (off_pmd + length enc_pmd)%nat in
  (addr_word (sender op) ++ nonce op ++ size_word off_init ++ size_word off_call
   ++ account_gas_limits op ++ pre_verification_gas op ++ gas_fees op ++ size_word off_pmd
   ++ size_word off_sig ++ enc_init ++ enc_call ++ enc_pmd ++ enc_sig)%list.

Definition HANDLE_OPS : string :=
  "handleOps((address,uint256,bytes,bytes,bytes32,uint256,bytes32,bytes,bytes)[],address)".

Definition handle_ops_calldata (ops : list PackedUserOp) (beneficiary : bytes) : bytes :=
  let enc_ops := enc_array (map abi_encode_struct ops) in
  (selector HANDLE_OPS ++ size_word (2 * WORD) ++ addr_word beneficiary ++ enc_ops)%list.
End Hashes.

(** ** The JSON of the daemon and of the bundler *)

(** The protocol's form: every field in hex. *)
Record WireUserOp := {
  wire_sender : string; wire_nonce : string; wire_init_code : string; wire_call_data : string;
  wire_account_gas_limits : string; wire_pre_verification_gas : string; wire_gas_fees : string;
  wire_paymaster_and_data : string; wire_signature : string;
}.

(** The standard form of [eth_sendUserOperation]: unpacked, quantities in minimal hex. *)
Record RpcUserOp := {
  rpc_sender : string; rpc_nonce : string; factory : option string; factory_data : option string;
  rpc_call_data : string; call_gas_limit : string; verification_gas_limit : string;
  rpc_pre_verification_gas : string; max_fee_per_gas : string; max_priority_fee_per_gas : string;
  paymaster : option string; paymaster_verification_gas_limit : option string;
  paymaster_post_op_gas_limit : option string; paymaster_data : option string;
  rpc_signature : string;
}.

Section Wire.
Context `{HexCodec}.
(** The [hex] crate's text for an input it refuses. *)
Variable hex_error : string -> string.

Definition wire_hex (b : bytes) : string := "0x" +:+ hex_encode b.

Definition raw (s name : string) : result string bytes :=
  let t := trim_start_0x (trim s) in
  ok_or (name +:+ " hex: " +:+ hex_error t) (hex_decode t).

Definition w32 (s name : string) : result string bytes :=
  let? b := raw s name in
  guard! Nat.eqb (length b) 32 else name +:+ " must be 32 bytes" ;; Ok b.

Definition wire_to_packed (op : WireUserOp) : result string PackedUserOp :=
  let? sender := raw (wire_sender op) "sender" in
  guard! Nat.eqb (length sender) 20 else "sender must be a 20-byte address" ;;
  let? nonce := w32 (wire_nonce op) "nonce" in
  let? init_code := raw (wire_init_code op) "init_code" in
  let? call_data := raw (wire_call_data op) "call_data" in
  let? account_gas_limits := w32 (wire_account_gas_limits op) "account_gas_limits" in
  let? pre_verification_gas := w32 (wire_pre_verification_gas op) "pre_verification_gas" in
  let? gas_fees := w32 (wire_gas_fees op) "gas_fees" in
  let? paymaster_and_data := raw (wire_paymaster_and_data op) "paymaster_and_data" in
  let? signature := raw (wire_signature op) "signature" in
  Ok {| sender := sender; nonce := nonce; init_code := init_code; call_data := call_data;
        account_gas_limits := account_gas_limits; pre_verification_gas := pre_verification_gas;
        gas_fees := gas_fees; paymaster_and_data := paymaster_and_data; signature := signature |}.

Definition wire_user_op_from_packed (op : PackedUserOp) : WireUserOp := {|
  wire_sender := wire_hex (sender op);
  wire_nonce := wire_hex (nonce op);
  wire_init_code := wire_hex (init_code op);
  wire_call_data := wire_hex (call_data op);
  wire_account_gas_limits := wire_hex (account_gas_limits op);
  wire_pre_verification_gas := wire_hex (pre_verification_gas op);
  wire_gas_fees := wire_hex (gas_fees op);
  wire_paymaster_and_data := wire_hex (paymaster_and_data op);
  wire_signature := wire_hex (signature op);
|}.

Definition qty (n : Z) : string := "0x" +:+ lower_hex n.

Definition parse_qty (s name : string) : result string Z :=
  let t := trim_start_0x (trim s) in
  if String.eqb t "" then Ok 0
  else map_err (fun e => name +:+ ": " +:+ display_parse_int e) (u128_hex t).

Definition parse_hex (s name : string) : result string bytes :=
  let t := trim_start_0x (trim s) in
  let padded := if Nat.odd (String.length t) then "0" +:+ t else t in
  ok_or (name +:+ " hex: " +:+ hex_error padded) (hex_decode padded).

Definition parse_addr (s name : string) : result string bytes :=
  let? b := parse_hex s name in
  guard! Nat.eqb (length b) 20 else name +:+ " must be a 20-byte address" ;; Ok b.

(** A release build; a debug build asserts that [preVerificationGas] fits a [u128]. *)
Definition from_packed (op : PackedUserOp) : RpcUserOp :=
  let '(verification_gas, call_gas) := unpack_u128_pair (account_gas_limits op) in
  let '(max_priority_fee, max_fee) := unpack_u128_pair (gas_fees op) in
  let '(_, pvg) := unpack_u128_pair (pre_verification_gas op) in
  let '(factory, factory_data) :=
    if (20 <=? length (init_code op))%nat
    then (Some (wire_hex (take 20 (init_code op))), Some (wire_hex (drop 20 (init_code op))))
    else (None, None) in
  let p := paymaster_and_data op in
  let sponsored := (52 <=? length p)%nat in
  let group (s : string) := if sponsored then Some s else None in
  let '(nonce_hi, nonce_lo) := unpack_u128_pair (nonce op) in
  {|
    rpc_sender := wire_hex (sender op);
    rpc_nonce := if nonce_hi =? 0 then qty nonce_lo else wire_hex (nonce op);
    factory := factory;
    factory_data := factory_data;
    rpc_call_data := wire_hex (call_data op);
    call_gas_limit := qty call_gas;
    verification_gas_limit := qty verification_gas;
    rpc_pre_verification_gas := qty pvg;
    max_fee_per_gas := qty max_fee;
    max_priority_fee_per_gas := qty max_priority_fee;
    paymaster := group (wire_hex (take 20 p));
    paymaster_verification_gas_limit := group (qty (be_val (slice p 20 36)));
    paymaster_post_op_gas_limit := group (qty (be_val (slice p 36 52)));
    paymaster_data := group (wire_hex (drop 52 p));
    rpc_signature := wire_hex (signature op);
  |}.

(** [if let Some(s) = o { v.extend(parse_hex(s)?) }] *)
Definition optional_hex (o : option string) (name : string) : result string bytes :=
  match o with Some s => parse_hex s name | None => Ok [] end.

Definition to_packed (op : RpcUserOp) : result string PackedUserOp :=
  let? raw := parse_hex (rpc_nonce op) "nonce" in
  guard! negb (32 <? length raw)%nat else "nonce over 32 bytes" ;;
  let nonce := (zeros (32 - length raw) ++ raw)%list in
  let? init_code :=
    match factory op with
    | Some f =>
        let? v := parse_addr f "factory" in
        let? d := optional_hex (factory_data op) "factoryData" in
        Ok (v ++ d)%list
    | None => Ok []
    end in
  let? paymaster_and_data :=
    match paymaster op with
    | Some p =>
        let? v := parse_addr p "paymaster" in
        let? vgl := parse_qty (default "0x0" (paymaster_verification_gas_limit op))
                      "paymasterVerificationGasLimit" in
        let? pogl := parse_qty (default "0x0" (paymaster_post_op_gas_limit op))
                       "paymasterPostOpGasLimit" in
        let? d := optional_hex (paymaster_data op) "paymasterData" in
        Ok (v ++ be_bytes 16 vgl ++ be_bytes 16 pogl ++ d)%list
    | None => Ok []
    end in
  let? sender := parse_addr (rpc_sender op) "sender" in
  let? call_data := parse_hex (rpc_call_data op) "callData" in
  let? vgas := parse_qty (verification_gas_limit op) "verificationGasLimit" in
  let? cgas := parse_qty (call_gas_limit op) "callGasLimit" in
  let? pvg := parse_qty (rpc_pre_verification_gas op) "preVerificationGas" in
  let? prio := parse_qty (max_priority_fee_per_gas op) "maxPriorityFeePerGas" in
  let? fee := parse_qty (max_fee_per_gas op) "maxFeePerGas" in
  let? signature := parse_hex (rpc_signature op) "signature" in
  Ok {| sender := sender; nonce := nonce; init_code := init_code; call_data := call_data;
        account_gas_limits := pack_u128_pair vgas cgas;
        pre_verification_gas := word_u128 pvg;
        gas_fees := pack_u128_pair prio fee;
        paymaster_and_data := paymaster_and_data; signature := signature |}.
End Wire.

(** ** Reverts of the entry point *)

(** [b.get(lo..hi)] *)
Definition get_range (b : bytes) (lo hi : Z) : option bytes :=
  if (lo <=? hi) && (hi <=? len b) then Some (slice b lo hi) else None.

Definition abi_dynamic_at (args : bytes) (arg_idx : Z) : option bytes :=
  head ← get_range args (arg_idx * 32) ((arg_idx + 1) * 32);
  off ← word_to_usize head;
  data_start ← checked_add off 32;
  size ← get_range args off data_start;
  n ← word_to_usize size;
  data_end ← checked_add data_start n;
  get_range args data_start data_end.

(** [data.strip_prefix(..)] of a byte slice. *)
Definition strip_bytes (p b : bytes) : option bytes :=
  if bool_decide (take (length p) b = p) then Some (drop (length p) b) else None.

Definition FAILED_OP : string := "FailedOp(uint256,string)".
Definition FAILED_OP_WITH_REVERT : string := "FailedOpWithRevert(uint256,string,bytes)".
Definition ERROR_STRING : string := "Error(string)".

Section Reverts.
Context `{Crypto} `{HexCodec}.

Definition decode_error_string (data : bytes) : option string :=
  args ← strip_bytes (selector ERROR_STRING) data;
  b ← abi_dynamic_at args 0;
  from_utf8 b.

Definition decode_entrypoint_revert (data : bytes) : option string :=
  match strip_bytes (selector FAILED_OP) data with
  | Some args => b ← abi_dynamic_at args 1; from_utf8 b
  | None =>
      match strip_bytes (selector FAILED_OP_WITH_REVERT) data with
      | Some args =>
          b ← abi_dynamic_at args 1;
          reason ← from_utf8 b;
          inner ← abi_dynamic_at args 2;
          let inner_text := default ("0x" +:+ hex_encode inner) (decode_error_string inner) in
          Some (reason +:+ " (inner revert: " +:+ inner_text +:+ ")")
      | None => decode_error_string data
      end
  end.
End Reverts.

(** ** Lemmas: the wire forms *)
Section WireFacts.
Context `{HexCodec}.
Variable hex_error : string -> string.

Lemma trim_wire b : trim_start_0x (trim (wire_hex b)) = hex_encode b.
Proof. apply trim_prefixed_hex, hex_encode_digits. Qed.

Lemma raw_wire b name : raw hex_error (wire_hex b) name = Ok b.
Proof. unfold raw. cbv zeta. by rewrite trim_wire, hex_decode_encode. Qed.

Lemma w32_wire b name : length b = 32%nat -> w32 hex_error (wire_hex b) name = Ok b.
Proof. intros Hb. unfold w32. by rewrite raw_wire, Hb. Qed.

Lemma even_hex b : Nat.odd (String.length (hex_encode b)) = false.
Proof. rewrite hex_encode_length, Nat.odd_mul. done. Qed.

Lemma parse_hex_wire b name : parse_hex hex_error (wire_hex b) name = Ok b.
Proof. unfold parse_hex. cbv zeta. by rewrite trim_wire, even_hex, hex_decode_encode. Qed.

Lemma parse_addr_wire b name : length b = 20%nat -> parse_addr hex_error (wire_hex b) name = Ok b.
Proof. intros Hb. unfold parse_addr. by rewrite parse_hex_wire, Hb. Qed.

Lemma trim_qty n : 0 <= n < 2 ^ 128 -> trim_start_0x (trim (qty n)) = lower_hex n.
Proof. intros Hn. apply trim_prefixed_hex. apply lower_hex_number, Hn. Qed.

Lemma parse_qty_qty n name : 0 <= n < 2 ^ 128 -> parse_qty (qty n) name = Ok n.
Proof.
  intros Hn. unfold parse_qty. cbv zeta. rewrite trim_qty, u128_hex_lower by done.
  destruct (lower_hex_number n Hn) as (Hne & _). apply String.eqb_neq in Hne. by rewrite Hne.
Qed.

(** A quantity read as bytes: the bytes of the number, without leading ones. *)
Lemma parse_hex_qty n name : 0 <= n < 2 ^ 128 ->
  exists b, parse_hex hex_error (qty n) name = Ok b /\ (length b <= 16)%nat /\ be_val b = n.
Proof.
  intros Hn. unfold parse_hex. cbv zeta. rewrite trim_qty by done.
  destruct (lower_hex_number n Hn) as (_ & Hlen & Hall & Hnum).
  destruct (Nat.odd (String.length (lower_hex n))) eqn:Hodd.
  - apply Nat.odd_spec in Hodd as [k Hk].
    destruct (hex_decode_number (S k) ("0" +:+ lower_hex n)) as (b & -> & Hb & Hval);
      [rewrite length_app_str, Hk; cbn [String.length]; lia | exact Hall |].
    exists b. split; [done|]. split; [lia|]. rewrite Hval. exact Hnum.
  - assert (He : Nat.Even (String.length (lower_hex n)))
      by (apply Nat.even_spec; by rewrite <-Nat.negb_odd, Hodd).
    destruct He as [k Hk].
    destruct (hex_decode_number k (lower_hex n)) as (b & -> & Hb & Hval); [done | done |].
    exists b. split; [done|]. split; [lia|]. by rewrite Hval.
Qed.

Lemma be_val_split w : be_val w = be_val (take 16 w) * 256 ^ Z.of_nat (length (drop 16 w)) + be_val (drop 16 w).
Proof.
  rewrite <-(take_drop 16 w) at 1. generalize (take 16 w) as a, (drop 16 w) as b. intros a b.
  induction b as [|x b IH] using rev_ind; [rewrite app_nil_r; cbn; lia|].
  rewrite app_assoc, !be_val_snoc, IH, length_app. cbn [length].
  replace (Z.of_nat (length b + 1)) with (Z.succ (Z.of_nat (length b))) by lia.
  rewrite Z.pow_succ_r by lia. lia.
Qed.

Lemma half_range w : length w = 32%nat ->
  0 <= be_val (take 16 w) < 2 ^ 128 /\ 0 <= be_val (drop 16 w) < 2 ^ 128.
Proof.
  intros Hw. pose proof (be_val_range (take 16 w)) as H1. pose proof (be_val_range (drop 16 w)) as H2.
  rewrite length_take, Hw in H1. rewrite length_drop, Hw in H2. split; [exact H1 | exact H2].
Qed.

Lemma pack_unpack w : length w = 32%nat ->
  pack_u128_pair (be_val (take 16 w)) (be_val (drop 16 w)) = w.
Proof.
  intros Hw. unfold pack_u128_pair.
  assert (H1 : length (take 16 w) = 16%nat) by (rewrite length_take; lia).
  assert (H2 : length (drop 16 w) = 16%nat) by (rewrite length_drop; lia).
  pose proof (be_bytes_val (take 16 w)) as E1. pose proof (be_bytes_val (drop 16 w)) as E2.
  rewrite H1 in E1. rewrite H2 in E2. rewrite E1, E2. apply take_drop.
Qed.

Lemma word_of_low w : length w = 32%nat ->
  word_u128 (be_val (drop 16 w)) = w <-> be_val (take 16 w) = 0.
Proof.
  intros Hw. pose proof (half_range w Hw) as [H1 H2].
  rewrite word_u128_uint by (unfold is_u128; apply andb_true_iff; lia). unfold uint_word.
  pose proof (be_val_split w) as Hs. rewrite length_drop, Hw in Hs.
  change (256 ^ Z.of_nat (32 - 16)) with (2 ^ 128) in Hs. split.
  - intros E. apply (f_equal be_val) in E. rewrite be_val_bytes_small in E by
      (change (256 ^ Z.of_nat 32) with (2 ^ 256); lia). lia.
  - intros E. rewrite E in Hs. rewrite <-(be_bytes_val w) at 2. rewrite Hw. f_equal. lia.
Qed.

(** The nonce, in either of its two forms. *)
Lemma nonce_reads w : length w = 32%nat ->
  exists b, parse_hex hex_error (if be_val (take 16 w) =? 0 then qty (be_val (drop 16 w)) else wire_hex w) "nonce"
            = Ok b /\ (length b <= 32)%nat /\ (zeros (32 - length b) ++ b)%list = w.
Proof.
  intros Hw. pose proof (half_range w Hw) as [_ H2].
  destruct (be_val (take 16 w) =? 0) eqn:E; reflect_bools.
  - destruct (parse_hex_qty _ "nonce" H2) as (b & -> & Hb & Hv). exists b. split; [done|]. split; [lia|].
    rewrite <-(be_bytes_val (_ ++ b)), length_app, length_zeros, be_val_zeros, Hv.
    rewrite <-(be_bytes_val w) at 2. rewrite Hw. f_equal; [lia|].
    rewrite (be_val_split w), E. lia.
  - exists w. rewrite parse_hex_wire, Hw. done.
Qed.

Lemma pair_of_halves b lo mid hi : (lo <= mid)%nat -> (mid <= hi)%nat -> (hi <= length b)%nat ->
  slice b (Z.of_nat lo) (Z.of_nat mid) = take (mid - lo) (drop lo b) /\
  length (slice b (Z.of_nat lo) (Z.of_nat mid)) = (mid - lo)%nat.
Proof.
  intros H1 H2 H3. unfold slice. rewrite <-Nat2Z.inj_sub, !Nat2Z.id by done. split; [done|].
  rewrite length_take, length_drop. lia.
Qed.

(** A sponsorship is its paymaster, two gas limits and data. *)
Lemma sponsorship_split p : (52 <= length p)%nat ->
  (take 20 p ++ be_bytes 16 (be_val (slice p 20 36)) ++ be_bytes 16 (be_val (slice p 36 52)) ++ drop 52 p)%list = p /\
  0 <= be_val (slice p 20 36) < 2 ^ 128 /\ 0 <= be_val (slice p 36 52) < 2 ^ 128.
Proof.
  intros Hp.
  destruct (pair_of_halves p 20 36 52) as [E1 L1]; [lia | lia | lia |].
  destruct (pair_of_halves p 36 52 52) as [E2 L2]; [lia | lia | lia |].
  change (Z.of_nat 20) with 20 in *. change (Z.of_nat 36) with 36 in *. change (Z.of_nat 52) with 52 in *.
  pose proof (be_val_range (slice p 20 36)) as R1. pose proof (be_val_range (slice p 36 52)) as R2.
  pose proof (be_bytes_val (slice p 20 36)) as B1. pose proof (be_bytes_val (slice p 36 52)) as B2.
  rewrite L1 in B1, R1. rewrite L2 in B2, R2. change (36 - 20)%nat with 16%nat in *.
  change (52 - 36)%nat with 16%nat in *. split; [|split; [exact R1 | exact R2]].
  rewrite B1, B2, E1, E2. rewrite <-(take_drop 20 p) at 5. f_equal.
  rewrite <-(take_drop 16 (drop 20 p)) at 2. f_equal. rewrite drop_drop. change (20 + 16)%nat with 36%nat.
  rewrite <-(take_drop 16 (drop 36 p)) at 2. f_equal. by rewrite drop_drop.
Qed.

(** What a trip through the bundler's form leaves of an operation. *)
Definition rpc_image (op : PackedUserOp) : PackedUserOp := {|
  sender := sender op; nonce := nonce op;
  init_code := if (20 <=? length (init_code op))%nat then init_code op else [];
  call_data := call_data op; account_gas_limits := account_gas_limits op;
  pre_verification_gas := word_u128 (be_val (drop 16 (pre_verification_gas op)));
  gas_fees := gas_fees op;
  paymaster_and_data := if (52 <=? length (paymaster_and_data op))%nat then paymaster_and_data op else [];
  signature := signature op |}.

Lemma factory_reads c :
  match (if (20 <=? length c)%nat then (Some (wire_hex (take 20 c)), Some (wire_hex (drop 20 c))) else (None, None)) with
  | (Some f, fd) =>
      let? v := parse_addr hex_error f "factory" in
      let? d := optional_hex hex_error fd "factoryData" in Ok (v ++ d)%list
  | (None, _) => Ok []
  end = Ok (if (20 <=? length c)%nat then c else []).
Proof.
  destruct (20 <=? length c)%nat eqn:E; [|done]. apply Nat.leb_le in E.
  rewrite parse_addr_wire by (rewrite length_take; lia). cbn [optional_hex].
  by rewrite parse_hex_wire, take_drop.
Qed.

Lemma to_packed_from_packed op : op_wf op = true ->
  to_packed hex_error (from_packed op) = Ok (rpc_image op).
Proof.
  unfold op_wf, is_address. rewrite andb_true_iff, Nat.eqb_eq. cbn [forallb]. rewrite !andb_true_iff.
  unfold is_word. rewrite !Nat.eqb_eq. intros (Hs & Hn & Hg & Hv & Hf & _).
  destruct (half_range _ Hg), (half_range _ Hv), (half_range _ Hf).
  destruct (nonce_reads (nonce op) Hn) as (nb & Hnb & Hnl & Hnz).
  pose proof (factory_reads (init_code op)) as Hfac.
  unfold from_packed, unpack_u128_pair.
  destruct (if (20 <=? _)%nat then _ else _) as [fac fd].
  unfold to_packed. cbv zeta. cbn [rpc_nonce factory factory_data paymaster
    paymaster_verification_gas_limit paymaster_post_op_gas_limit paymaster_data rpc_sender rpc_call_data
    verification_gas_limit call_gas_limit rpc_pre_verification_gas max_priority_fee_per_gas
    max_fee_per_gas rpc_signature].
  rewrite Hnb. rewrite (proj2 (Nat.ltb_ge _ _)) by lia. cbn [negb]. rewrite Hnz.
  assert (Hinit : match fac with
    | Some f => let? v := parse_addr hex_error f "factory" in
                let? d := optional_hex hex_error fd "factoryData" in Ok (v ++ d)%list
    | None => Ok [] end = Ok (if (20 <=? length (init_code op))%nat then init_code op else []))
    by (by destruct fac).
  rewrite Hinit. rewrite !parse_addr_wire, !parse_hex_wire, !parse_qty_qty by done.
  unfold rpc_image. rewrite !pack_unpack by done.
  destruct (52 <=? length (paymaster_and_data op))%nat eqn:E; [|done]. apply Nat.leb_le in E.
  destruct (sponsorship_split _ E) as (Hsplit & ? & ?).
  rewrite parse_addr_wire by (rewrite length_take; lia). cbn [from_option id].
  rewrite !parse_qty_qty by done. cbn [optional_hex]. by rewrite parse_hex_wire, Hsplit.
Qed.

Definition rpc_faithful (op : PackedUserOp) : bool :=
  (is_nil (init_code op) || (20 <=? length (init_code op))%nat)
  && (is_nil (paymaster_and_data op) || (52 <=? length (paymaster_and_data op))%nat)
  && (be_val (take 16 (pre_verification_gas op)) =? 0).

Lemma kept_when {A} (n : nat) (l : list A) :
  (if (n <=? length l)%nat then l else []) = l <-> is_nil l || (n <=? length l)%nat = true.
Proof. destruct (n <=? length l)%nat; [by rewrite orb_true_r|]. by destruct l. Qed.

Lemma rpc_image_id op : op_wf op = true -> rpc_image op = op <-> rpc_faithful op = true.
Proof.
  unfold op_wf, rpc_faithful. rewrite !andb_true_iff. cbn [forallb]. rewrite !andb_true_iff.
  unfold is_word. rewrite !Nat.eqb_eq, Z.eqb_eq. intros (_ & _ & _ & Hv & _).
  rewrite <-!kept_when, <-(word_of_low _ Hv). destruct op as [s n i c g p f m sig].
  unfold rpc_image. cbn [sender nonce init_code call_data account_gas_limits pre_verification_gas
    gas_fees paymaster_and_data signature]. split.
  - intros E. by injection E as H1 H2 H3.
  - intros [[H1 H2] H3]. f_equal; assumption.
Qed.
End WireFacts.

(** ** Lemmas: the hashes *)
Section HashFacts.
Context `{Crypto}.

Lemma addr_word_inj a b : addr_word a = addr_word b -> a = b.
Proof. unfold addr_word. apply app_inv_head. Qed.

Lemma u64_word_inj a b : is_u64 a -> is_u64 b -> u64_word a = u64_word b -> a = b.
Proof.
  unfold is_u64, u64_max, u64_word. intros Ha Hb E. apply app_inv_head in E.
  apply (f_equal be_val) in E. rewrite !be_val_bytes_small in E by (change (256 ^ Z.of_nat 8) with (2 ^ 64); lia).
  done.
Qed.

Lemma length_addr a : length a = 20%nat -> length (addr_word a) = 32%nat.
Proof. intros Ha. apply length_addr_word. unfold is_address. by rewrite Ha. Qed.

Lemma length_u64_word n : length (u64_word n) = 32%nat.
Proof. unfold u64_word. by rewrite length_app, length_zeros, length_be_bytes. Qed.

Definition binding (op : PackedUserOp) : Prop :=
  length (sender op) = 20%nat /\ length (nonce op) = 32%nat /\ length (account_gas_limits op) = 32%nat /\
  length (pre_verification_gas op) = 32%nat /\ length (gas_fees op) = 32%nat.

Lemma op_wf_widths op : op_wf op = true -> binding op.
Proof.
  unfold op_wf, is_address, is_word, binding. cbn [forallb]. rewrite !andb_true_iff, !Nat.eqb_eq. tauto.
Qed.

(** Split an equation between concatenations of pieces of equal length. *)
Ltac split_apps E := repeat
  (lazymatch type of E with app _ _ = app _ _ => idtac end;
   let H := fresh "P" in
   apply app_inj_1 in E as [H E]; [| rewrite ?length_addr, ?keccak256_length, ?length_u64_word by done; congruence]).

Lemma op_preimage_inj a b : op_wf a = true -> op_wf b = true -> op_preimage a = op_preimage b ->
  with_signature [] a = with_signature [] b \/
  collides (init_code a) (init_code b) \/ collides (call_data a) (call_data b) \/
  collides (paymaster_and_data a) (paymaster_and_data b).
Proof.
  intros (? & ? & ? & ? & ?)%op_wf_widths (? & ? & ? & ? & ?)%op_wf_widths E.
  unfold op_preimage in E. split_apps E. apply addr_word_inj in P.
  destruct (keccak_equal _ _ P1) as [?|?]; [|tauto].
  destruct (keccak_equal _ _ P2) as [?|?]; [|tauto].
  destruct (keccak_equal _ _ E) as [?|?]; [|tauto].
  left. destruct a, b. unfold with_signature. cbn in *. by subst.
Qed.

Lemma outer_preimage_inj a b ea eb ca cb : length ea = 20%nat -> length eb = 20%nat -> is_u64 ca -> is_u64 cb ->
  outer_preimage a ea ca = outer_preimage b eb cb ->
  keccak256 (op_preimage a) = keccak256 (op_preimage b) /\ ea = eb /\ ca = cb.
Proof.
  intros ? ? ? ? E. unfold outer_preimage in E. split_apps E. apply addr_word_inj in P0.
  apply u64_word_inj in E; done.
Qed.

(** ** Lemmas: the ABI of the envelope *)

Definition op_tuple (op : PackedUserOp) : Abi :=
  Tuple [Address (sender op); Word (nonce op); Bytes (init_code op); Bytes (call_data op);
         Word (account_gas_limits op); Word (pre_verification_gas op); Word (gas_fees op);
         Bytes (paymaster_and_data op); Bytes (signature op)].

Definition OP_TYPE : AbiTy :=
  TTuple [address; u256; TBytes; TBytes; b32; u256; b32; TBytes; TBytes].

Lemma length_abi_encode_struct op :
  (length (enc_bytes (init_code op)) + length (enc_bytes (call_data op))
   + length (enc_bytes (paymaster_and_data op)) + length (enc_bytes (signature op))
   <= length (abi_encode_struct op))%nat.
Proof. unfold abi_encode_struct. cbv zeta. rewrite !length_app. lia. Qed.

Lemma struct_abi op : op_wf op = true -> len (abi_encode_struct op) <= u64_max ->
  abi_encode_struct op = abi_encode (op_tuple op).
Proof.
  intros Hwf. destruct (op_wf_widths op Hwf) as (Hs & ? & ? & ? & ?).
  apply length_addr in Hs.
  pose proof (length_enc_bytes (init_code op)). pose proof (length_enc_bytes (call_data op)).
  pose proof (length_enc_bytes (paymaster_and_data op)). pose proof (length_enc_bytes (signature op)).
  unfold abi_encode_struct. cbv zeta. unfold len. rewrite !length_app, !length_size_word. intros Hmax.
  rewrite !size_word_uint, !enc_bytes_abi by first [unfold len, WORD in *; lia].
  unfold op_tuple. rewrite abi_tuple. unfold Address. abi_layout.
  repeat match goal with E : length _ = 32%nat |- _ => rewrite !E; clear E end.
  rewrite <-!app_assoc, ?app_nil_r. rewrite !Nat.add_assoc. reflexivity.
Qed.

Lemma struct_map ops : forallb op_wf ops = true ->
  Z.of_nat (length (concat (map abi_encode_struct ops))) <= u64_max ->
  map abi_encode_struct ops = map (fun op => abi_encode (op_tuple op)) ops.
Proof.
  induction ops as [|op ops IH]; [done|]. cbn [map forallb]. rewrite andb_true_iff, length_concat_cons.
  intros [Hop Hops] Hmax. rewrite IH by (done || lia). f_equal. apply struct_abi; [done | unfold len; lia].
Qed.

Lemma op_array_abi ops :
  abi_encode (Array (map op_tuple ops))
  = (uint_word (Z.of_nat (length ops))
     ++ offsets (length ops * 32) (map (fun op => abi_encode (op_tuple op)) ops)
     ++ concat (map (fun op => abi_encode (op_tuple op)) ops))%list.
Proof.
  cbn [abi_encode]. rewrite length_map, map_map. f_equal.
  assert (E : length ops = length (map (fun op => abi_encode (op_tuple op)) ops)) by (by rewrite length_map).
  rewrite E, <-layout_dynamic, map_map. done.
Qed.

Lemma handle_ops_abi ops beneficiary : forallb op_wf ops = true -> is_address beneficiary = true ->
  len (handle_ops_calldata ops beneficiary) <= u64_max ->
  handle_ops_calldata ops beneficiary
  = (selector HANDLE_OPS ++ abi_args [Array (map op_tuple ops); Address beneficiary])%list.
Proof.
  intros Hops Hb. pose proof (length_addr_word _ Hb) as Hbl.
  unfold handle_ops_calldata, len. cbv zeta. rewrite !length_app, length_enc_array, length_map. intros Hmax.
  unfold enc_array. rewrite length_map. unfold WORD in *.
  rewrite !size_word_uint by lia. rewrite offset_words_abi by (rewrite ?length_map; lia).
  rewrite struct_map by (done || lia).
  unfold abi_args, abi_part. unfold Address.
  cbn [map dynamic]. rewrite op_array_abi.
  unfold layout. cbn [heads tails sum_list_with head_size fst snd abi_encode].
  rewrite Hbl. rewrite ?app_nil_r, <-!app_assoc. reflexivity.
Qed.

Lemma webauthn_abi cred auth cdj loc r s :
  forallb is_word [cred; r; s] = true -> is_u128 loc = true ->
  len (encode_webauthn_signature cred auth cdj loc r s) <= u64_max ->
  encode_webauthn_signature cred auth cdj loc r s
  = abi_args [Word cred; Bytes auth; Bytes cdj; Number loc; Word r; Word s].
Proof.
  intros Hw Hloc. words. unfold encode_webauthn_signature. cbv zeta. unfold len.
  rewrite !length_app, !length_size_word, length_word_u128. intros Hmax.
  pose proof (length_enc_bytes auth). pose proof (length_enc_bytes cdj).
  rewrite !word_u128_uint, !size_word_uint, !enc_bytes_abi by first [done | unfold len, WORD in *; lia].
  unfold Number. abi_layout.
  repeat match goal with E : length _ = 32%nat |- _ => rewrite !E; clear E end.
  rewrite !length_uint_word, <-!app_assoc, ?app_nil_r. reflexivity.
Qed.

(** ** Lemmas: reverts *)

Lemma get_range_word data off w : holds_at data off w -> length w = 32%nat ->
  get_range data off (off + 32) = Some w.
Proof.
  intros Hat Hw. pose proof (holds_range _ _ _ Hat) as [? ?]. unfold get_range.
  assert (E : len w = 32) by (unfold len; lia).
  rewrite (proj2 (Z.leb_le _ _)), (proj2 (Z.leb_le _ _)) by lia. cbn [andb].
  f_equal. rewrite <-E. by apply holds_slice.
Qed.

Lemma abi_dynamic_reads args idx off b : len args <= u64_max -> 0 <= off ->
  holds_at args (idx * 32) (uint_word off) -> holds_at args off (abi_encode (Bytes b)) ->
  abi_dynamic_at args idx = Some b.
Proof.
  intros Hmax Hoff Hhead Hbody. pose proof (holds_range _ _ _ Hbody) as [_ Hend].
  cbn [abi_encode] in *. pose proof (holds_l _ _ _ _ Hbody) as Hsize.
  apply holds_r in Hbody. apply holds_l in Hbody. pose proof (holds_range _ _ _ Hbody) as [_ Hb].
  assert (E : forall n, len (uint_word n) = 32) by (intros; unfold len; by rewrite length_uint_word).
  rewrite !len_app in Hend. rewrite E in *. pose proof (len_nonneg b). unfold len in Hend at 2.
  unfold abi_dynamic_at. replace ((idx + 1) * 32) with (idx * 32 + 32) by lia.
  rewrite (get_range_word _ _ _ Hhead) by apply length_uint_word. cbn [mbind option_bind].
  rewrite word_to_usize_word by lia. cbn [mbind option_bind].
  rewrite (proj2 (checked_add_some off 32 _)) by (split; [done | lia]). cbn [mbind option_bind].
  rewrite (get_range_word _ _ _ Hsize) by apply length_uint_word. cbn [mbind option_bind].
  rewrite word_to_usize_word by (unfold len in *; lia). cbn [mbind option_bind].
  rewrite (proj2 (checked_add_some (off + 32) _ _)) by (split; [done | unfold len in *; lia]). cbn [mbind option_bind].
  unfold get_range. rewrite (proj2 (Z.leb_le _ _)), (proj2 (Z.leb_le _ _)) by (unfold len in *; lia).
  cbn [andb]. f_equal. by apply holds_slice.
Qed.

(** A dynamic argument is read back. *)
Lemma abi_argument_reads args k b :
  Forall one_word (map abi_part args) -> args !! k = Some (Bytes b) -> len (abi_args args) <= u64_max ->
  abi_dynamic_at (abi_args args) (Z.of_nat k) = Some b.
Proof.
  intros Hone Hk Hmax.
  destruct (argument_at (map abi_part args) k (abi_encode (Bytes b)) Hone) as (off & Hoff & Hh & Hb);
    [by rewrite list_lookup_fmap, Hk|].
  by eapply abi_dynamic_reads.
Qed.

Lemma strip_bytes_app p b : strip_bytes p (p ++ b)%list = Some b.
Proof. unfold strip_bytes. by rewrite take_app_length, drop_app_length, bool_decide_true. Qed.

Lemma strip_bytes_other p q b : length p = length q -> p <> q -> strip_bytes p (q ++ b)%list = None.
Proof.
  intros Hl Hne. unfold strip_bytes. rewrite Hl, take_app_length, bool_decide_false; [done|]. congruence.
Qed.

(** ** Specification: the reverts that the entry point encodes *)

Inductive Revert :=
| FailedOp (op_index : Z) (reason : bytes)
| FailedOpWithRevert (op_index : Z) (reason inner : bytes)
| ErrorString (message : bytes).

Definition encode_revert (r : Revert) : bytes :=
  match r with
  | FailedOp i reason => (selector FAILED_OP ++ abi_args [Number i; Bytes reason])%list
  | FailedOpWithRevert i reason inner =>
      (selector FAILED_OP_WITH_REVERT ++ abi_args [Number i; Bytes reason; Bytes inner])%list
  | ErrorString m => (selector ERROR_STRING ++ abi_args [Bytes m])%list
  end.

(** The three selectors are pairwise different. *)
Definition selectors_differ : Prop :=
  selector FAILED_OP <> selector FAILED_OP_WITH_REVERT /\ selector FAILED_OP <> selector ERROR_STRING /\
  selector FAILED_OP_WITH_REVERT <> selector ERROR_STRING.

Context `{HexCodec}.

Definition revert_text (r : Revert) : option string :=
  match r with
  | FailedOp _ reason => from_utf8 reason
  | FailedOpWithRevert _ reason inner =>
      text ← from_utf8 reason;
      Some (text +:+ " (inner revert: " +:+ default ("0x" +:+ hex_encode inner) (decode_error_string inner) +:+ ")")
  | ErrorString m => from_utf8 m
  end.

Lemma error_string_reads m : len (encode_revert (ErrorString m)) <= u64_max ->
  decode_error_string (encode_revert (ErrorString m)) = from_utf8 m.
Proof.
  cbn [encode_revert]. rewrite len_app. pose proof (len_nonneg (selector ERROR_STRING)). intros Hmax.
  unfold decode_error_string. rewrite strip_bytes_app. cbn [mbind option_bind].
  change 0 with (Z.of_nat 0). rewrite (abi_argument_reads _ _ m); [done | | done | lia].
  repeat constructor. done.
Qed.

Lemma selectors_length a b : length (selector a) = length (selector b).
Proof. by rewrite !length_selector. Qed.

Lemma revert_reads r : selectors_differ -> len (encode_revert r) <= u64_max ->
  decode_entrypoint_revert (encode_revert r) = revert_text r.
Proof.
  intros (D1 & D2 & D3) Hmax. unfold decode_entrypoint_revert.
  assert (W : forall i rest, Forall one_word (map abi_part rest) -> Forall one_word (map abi_part (Number i :: rest)))
    by (intros i rest Hr; constructor; [intros _; apply length_uint_word | exact Hr]).
  assert (B : forall b, one_word (abi_part (Bytes b))) by (intros b Hb; done).
  destruct r as [i reason|i reason inner|m]; cbn [encode_revert revert_text] in *.
  - rewrite len_app in Hmax. pose proof (len_nonneg (selector FAILED_OP)).
    rewrite strip_bytes_app. change 1 with (Z.of_nat 1).
    rewrite (abi_argument_reads _ _ reason); [done | | done | lia]. apply W. by repeat constructor.
  - rewrite len_app in Hmax. pose proof (len_nonneg (selector FAILED_OP_WITH_REVERT)).
    rewrite strip_bytes_other by (done || apply selectors_length). rewrite strip_bytes_app.
    assert (Hone : Forall one_word (map abi_part [Number i; Bytes reason; Bytes inner]))
      by (apply W; repeat constructor; apply B).
    change 1 with (Z.of_nat 1). change 2 with (Z.of_nat 2).
    rewrite (abi_argument_reads _ 1 reason Hone), (abi_argument_reads _ 2 inner Hone) by (done || lia).
    cbn [mbind option_bind]. by destruct (from_utf8 reason).
  - rewrite strip_bytes_other by (done || apply selectors_length).
    rewrite strip_bytes_other by (done || apply selectors_length). by apply error_string_reads.
Qed.
End HashFacts.

(** ** Properties *)

(** The hash that the passkey signs covers the whole operation.  Operations that
    share a hash are equal in every field but the signature, for the same entry point and
    chain, unless two of their own preimages collide. *)
Theorem user_op_hash_binds `{Crypto} (a b : PackedUserOp) (ea eb : bytes) (ca cb : Z) :
  op_wf a = true -> op_wf b = true -> length ea = 20%nat -> length eb = 20%nat -> is_u64 ca -> is_u64 cb ->
  user_op_hash a ea ca = user_op_hash b eb cb ->
  (with_signature [] a = with_signature [] b /\ ea = eb /\ ca = cb) \/
  collides (outer_preimage a ea ca) (outer_preimage b eb cb) \/
  collides (op_preimage a) (op_preimage b) \/
  collides (init_code a) (init_code b) \/ collides (call_data a) (call_data b) \/
  collides (paymaster_and_data a) (paymaster_and_data b).
Proof.
  intros Ha Hb Hea Heb Hca Hcb E.
  destruct (keccak_equal _ _ E) as [Eo|?]; [|tauto].
  apply outer_preimage_inj in Eo as (Ei & -> & ->); [|done..].
  destruct (keccak_equal _ _ Ei) as [Ep|?]; [|tauto].
  destruct (op_preimage_inj a b Ha Hb Ep) as [?|?]; tauto.
Qed.

(** An operation survives the bundler's JSON form exactly when its deployment code
    is absent or names a factory, its sponsorship is absent or holds both gas limits, and
    [preVerificationGas] fits 128 bits; the protocol's own form loses nothing. *)
Theorem rpc_roundtrip `{HexCodec} (hex_error : string -> string) (op : PackedUserOp) :
  op_wf op = true ->
  wire_to_packed hex_error (wire_user_op_from_packed op) = Ok op /\
  (to_packed hex_error (from_packed op) = Ok op <-> rpc_faithful op = true).
Proof.
  intros Hwf. split.
  - destruct (op_wf_widths op Hwf) as (Hs & Hn & Hg & Hv & Hf). unfold wire_to_packed, wire_user_op_from_packed.
    cbn [wire_sender wire_nonce wire_init_code wire_call_data wire_account_gas_limits
      wire_pre_verification_gas wire_gas_fees wire_paymaster_and_data wire_signature].
    rewrite !raw_wire, !w32_wire, Hs by done. by destruct op.
  - rewrite to_packed_from_packed by done. rewrite <-(rpc_image_id op Hwf). split; congruence.
Qed.

(** The reason of a revert of the entry point is read back from its encoding, for
    each of the three forms, with the inner revert spelled out or in hex. *)
Theorem revert_reason_reads `{Crypto} `{HexCodec} (r : Revert) :
  selectors_differ -> len (encode_revert r) <= u64_max ->
  decode_entrypoint_revert (encode_revert r) = revert_text r.
Proof. apply revert_reads. Qed.

(** ** Witnesses *)

Definition demo_op : PackedUserOp := {|
  sender := bytes_of 20 Byte.xaa; nonce := (zeros 31 ++ [Byte.x07])%list;
  init_code := bytes_of 24 Byte.xf0; call_data := [Byte.x01; Byte.x02; Byte.x03];
  account_gas_limits := pack_u128_pair 1500000 2000000; pre_verification_gas := word_u128 100000;
  gas_fees := pack_u128_pair 0 (2 ^ 127); paymaster_and_data := bytes_of 60 Byte.x99;
  signature := bytes_of 3 Byte.x42 |}.

Definition demo_unsigned : PackedUserOp := with_signature [] demo_op.
Definition demo_entry : bytes := bytes_of 20 Byte.x01.

Lemma user_op_hash_binds_witness :
  (with_signature [] demo_op = with_signature [] demo_unsigned /\ demo_entry = demo_entry /\ 8453 = 8453) \/
  collides (H := ToyCrypto.crypto) (outer_preimage (H := ToyCrypto.crypto) demo_op demo_entry 8453) (outer_preimage (H := ToyCrypto.crypto) demo_unsigned demo_entry 8453) \/
  collides (H := ToyCrypto.crypto) (op_preimage (H := ToyCrypto.crypto) demo_op) (op_preimage (H := ToyCrypto.crypto) demo_unsigned) \/
  collides (H := ToyCrypto.crypto) (init_code demo_op) (init_code demo_unsigned) \/
  collides (H := ToyCrypto.crypto) (call_data demo_op) (call_data demo_unsigned) \/
  collides (H := ToyCrypto.crypto) (paymaster_and_data demo_op) (paymaster_and_data demo_unsigned).
Proof.
  apply (user_op_hash_binds (H := ToyCrypto.crypto) demo_op demo_unsigned demo_entry demo_entry 8453 8453);
    [vm_compute; reflexivity .. | unfold is_u64, u64_max; lia | unfold is_u64, u64_max; lia | vm_compute; reflexivity].
Defined.

Lemma rpc_roundtrip_witness :
  rpc_faithful demo_op = true /\
  to_packed (H := SimpleHex.codec) (fun _ => "bad hex") (from_packed (H := SimpleHex.codec) demo_op) = Ok demo_op.
Proof.
  split; [vm_compute; reflexivity|].
  apply (rpc_roundtrip (H := SimpleHex.codec) (fun _ => "bad hex") demo_op); vm_compute; reflexivity.
Defined.

(** A deployment code shorter than an address does not come back. *)
Example short_init_code_is_lost :
  let op := {| sender := bytes_of 20 Byte.xaa; nonce := zeros 32; init_code := [Byte.x01];
    call_data := []; account_gas_limits := zeros 32; pre_verification_gas := zeros 32;
    gas_fees := zeros 32; paymaster_and_data := []; signature := [] |} in
  to_packed (H := SimpleHex.codec) (fun _ => "") (from_packed (H := SimpleHex.codec) op)
  = Ok {| sender := bytes_of 20 Byte.xaa; nonce := zeros 32; init_code := [];
    call_data := []; account_gas_limits := zeros 32; pre_verification_gas := zeros 32;
    gas_fees := zeros 32; paymaster_and_data := []; signature := [] |}.
Proof. vm_compute. reflexivity. Qed.

Definition demo_revert : Revert :=
  FailedOpWithRevert 0 (as_bytes "AA23 reverted") (encode_revert (H := ToyCrypto.crypto) (ErrorString (as_bytes "no signer"))).

Lemma revert_reason_reads_witness :
  decode_entrypoint_revert (H := ToyCrypto.crypto) (H0 := SimpleHex.codec)
    (encode_revert (H := ToyCrypto.crypto) demo_revert)
  = revert_text (H := ToyCrypto.crypto) (H0 := SimpleHex.codec) demo_revert /\
  revert_text (H := ToyCrypto.crypto) (H0 := SimpleHex.codec) demo_revert
  = Some "AA23 reverted (inner revert: no signer)".
Proof.
  split; [|vm_compute; reflexivity].
  apply (revert_reason_reads (H := ToyCrypto.crypto) (H0 := SimpleHex.codec) demo_revert).
  - unfold selectors_differ. split; [|split]; intros E; vm_compute in E; discriminate E.
  - apply Z.leb_le. vm_compute. reflexivity.
Defined.
