(* ===== verification/AuditView.v ===== *)
(** * The audit view of calldata

    The rest of [crates/agentkeys-web-core/src/audit/calldata.rs]: the table of the
    contracts' functions, the decoder that turns calldata into typed JSON arguments, and
    its inverse, with which the daemon rebuilds the calldata of an audited action. *)
From S2P Require Import Prelude RustStr StrFacts DeviceCore Abi Numerals Json Calldata Erc4337.

Open Scope Z_scope.

(** ** The table *)

Definition is_tuple (ty : string) : bool :=
  String.eqb ty "tuple" || String.eqb ty "tuple[]" || starts_with "(" ty.

Inductive CalldataError :=
| TooShort (n : nat)
| UnknownSelector (hex : string)
| Hex (message : string)
| Truncated (what : string).

Record Param := { param_name : string; ty : string }.

Record FnDef := { contract : string; fn_name : string; params : list Param }.

Definition signature (f : FnDef) : string :=
  fn_name f +:+ "(" +:+ join "," (map ty (params f)) +:+ ")".

Definition P (name ty : string) : Param := {| param_name := name; ty := ty |}.
Definition F (contract name : string) (params : list Param) : FnDef :=
  {| contract := contract; fn_name := name; params := params |}.

Definition ASSERTION : string := "(bytes32,bytes,bytes,uint256,uint256,uint256)".

Definition REGISTRY : list FnDef := [
  F "CredentialAudit" "append"
    [P "operatorOmni" "bytes32"; P "actorOmni" "bytes32"; P "serviceHash" "bytes32";
     P "opType" "uint8"; P "payloadHash" "bytes32"];
  F "CredentialAudit" "appendV2"
    [P "operatorOmni" "bytes32"; P "actorOmni" "bytes32"; P "opKind" "uint8"; P "envelopeHash" "bytes32"];
  F "CredentialAudit" "appendRoot"
    [P "operatorOmni" "bytes32"; P "merkleRoot" "bytes32"; P "batchEntryCount" "uint64"];
  F "CredentialAudit" "appendRootV2"
    [P "operatorOmni" "bytes32"; P "merkleRoot" "bytes32"; P "opKindBitmap" "bytes32";
     P "batchEntryCount" "uint64"];
  F "SidecarRegistry" "registerAgentDevice"
    [P "deviceKeyHash" "bytes32"; P "operatorOmni" "bytes32"; P "actorOmni" "bytes32";
     P "linkCodeRedemption" "bytes"; P "agentPopSig" "bytes"];
  F "SidecarRegistry" "registerDelegate"
    [P "deviceKeyHash" "bytes32"; P "operatorOmni" "bytes32"; P "actorOmni" "bytes32";
     P "linkCodeRedemption" "bytes"; P "agentPopSig" "bytes"];
  F "SidecarRegistry" "revokeAgentDevice" [P "deviceKeyHash" "bytes32"];
  F "AgentKeysScope" "setScopeWithWebauthn"
    [P "operatorOmni" "bytes32"; P "agentOmni" "bytes32"; P "services" "bytes32[]"; P "readOnly" "bool";
     P "maxPerCall" "uint128"; P "maxPerPeriod" "uint128"; P "maxTotal" "uint128";
     P "periodSeconds" "uint32"; P "assertion" ASSERTION];
  F "AgentKeysScope" "revokeScope"
    [P "operatorOmni" "bytes32"; P "agentOmni" "bytes32"; P "assertion" ASSERTION];
  F "AgentKeysScope" "setScope"
    [P "operatorOmni" "bytes32"; P "agentOmni" "bytes32"; P "services" "bytes32[]"; P "readOnly" "bool";
     P "maxPerCall" "uint128"; P "maxPerPeriod" "uint128"; P "maxTotal" "uint128"; P "periodSeconds" "uint32"];
  F "AgentKeysScope" "revokeScope" [P "operatorOmni" "bytes32"; P "agentOmni" "bytes32"];
  F "K3EpochCounter" "advanceEpoch" []
].

Record DecodedArg := { arg_name : string; arg_ty : string; arg_value : Json }.

Record DecodedCall := {
  call_contract : string; function : string; call_signature : string; call_selector : string;
  args : list DecodedArg; note : option string;
}.

(** ** Words and values *)

Definition usize_word (n : nat) : bytes := (zeros 24 ++ be_bytes 8 (Z.of_nat n))%list.

Definition word_is_nonzero (w : bytes) : bool := existsb (fun b => negb (is_zero_byte b)) w.

Section View.
Context `{Crypto} `{HexCodec}.
(** The [hex] crate's text for an input it refuses. *)
Variable hex_error : string -> string.

Definition fn_selector (f : FnDef) : bytes := selector (signature f).

Definition selector_hex (signature : string) : string := "0x" +:+ hex_encode (selector signature).

Definition lookup (sel : bytes) : option FnDef :=
  List.find (fun f => bool_decide (fn_selector f = sel)) REGISTRY.

Definition hex_value_of (b : bytes) : Json := JString ("0x" +:+ hex_encode b).

(** Small numbers as JSON numbers, wider ones as decimal text, the widest in hex. *)
Definition word_to_uint_value (w : bytes) : Json :=
  if forallb is_zero_byte (take 16 w) then
    let n := be_val (drop 16 w) in
    if n <=? u64_max then JNumber (PosInt n) else JString (dec n)
  else hex_value_of w.

Definition decode_dynamic_bytes (region head : bytes) : result CalldataError Json :=
  let? off := ok_or (Truncated "bytes.offset") (word_to_usize head) in
  let? len_word := ok_or (Truncated "bytes.len") (read_word region off) in
  let? n := ok_or (Truncated "bytes.len") (word_to_usize len_word) in
  let start := off + 32 in
  let? stop := ok_or (Truncated "bytes.body")
    (e ← checked_add start n; if e <=? len region then Some e else None) in
  Ok (hex_value_of (slice region start stop)).

Definition decode_bytes32_array (region head : bytes) : result CalldataError Json :=
  let? off := ok_or (Truncated "bytes32[].offset") (word_to_usize head) in
  let? count_word := ok_or (Truncated "bytes32[].len") (read_word region off) in
  let? count := ok_or (Truncated "bytes32[].len") (word_to_usize count_word) in
  let? stop := ok_or (Truncated "bytes32[].size-overflow")
    (v ← checked_add off 32; n ← checked_mul count 32; checked_add v n) in
  guard! negb (len region <? stop) else Truncated "bytes32[].body" ;;
  let? items := try_map (fun i =>
      let? w := ok_or (Truncated "bytes32[].elem") (read_word region (off + 32 + Z.of_nat i * 32)) in
      Ok (hex_value_of w)) (seq 0 (Z.to_nat count)) in
  Ok (JArray items).

Definition TUPLE_NOTE : string := "tuple args (WebAuthn assertion) shown raw — not ABI-expanded".

(** One argument, and the note it leaves. *)
Definition decode_arg (region head : bytes) (ty : string) : result CalldataError (Json * option string) :=
  if is_tuple ty then Ok (JNull, Some TUPLE_NOTE)
  else if String.eqb ty "bytes" then let? v := decode_dynamic_bytes region head in Ok (v, None)
  else if String.eqb ty "bytes32[]" then let? v := decode_bytes32_array region head in Ok (v, None)
  else if String.eqb ty "bool" then Ok (JBool (word_is_nonzero head), None)
  else if String.eqb ty "address" then Ok (hex_value_of (drop 12 head), None)
  else if String.eqb ty "bytes32" then Ok (hex_value_of head, None)
  else if starts_with "uint" ty then Ok (word_to_uint_value head, None)
  else Ok (hex_value_of head, Some ("unsupported arg type '" +:+ ty +:+ "'")).

(** [note.get_or_insert_with(..)] *)
Definition keep_note (note new : option string) : option string :=
  match note with Some n => Some n | None => new end.

Fixpoint decode_params (region : bytes) (i : nat) (ps : list Param) (note : option string)
  : result CalldataError (list DecodedArg * option string) :=
  match ps with
  | [] => Ok ([], note)
  | p :: ps =>
      let? head := ok_or (Truncated (param_name p)) (read_word region (Z.of_nat i * 32)) in
      let? (v, new) := decode_arg region head (ty p) in
      let? (rest, note) := decode_params region (S i) ps (keep_note note new) in
      Ok ({| arg_name := param_name p; arg_ty := ty p; arg_value := v |} :: rest, note)
  end.

Definition decode_calldata (calldata : bytes) : result CalldataError DecodedCall :=
  guard! negb (len calldata <? 4) else TooShort (length calldata) ;;
  let sel := take 4 calldata in
  let? def := ok_or (UnknownSelector (hex_encode sel)) (lookup sel) in
  let? (args, note) := decode_params (drop 4 calldata) 0 (params def) None in
  Ok {| call_contract := contract def; function := fn_name def; call_signature := signature def;
        call_selector := "0x" +:+ hex_encode sel; args := args; note := note |}.

Definition decode_calldata_hex (calldata_hex : string) : result CalldataError DecodedCall :=
  let trimmed := default calldata_hex (strip_prefix "0x" (trim calldata_hex)) in
  let? b := ok_or (Hex (hex_error trimmed)) (hex_decode trimmed) in
  decode_calldata b.

(** ** Encoding *)

Definition hex_arg (v : Json) (name : string) : result CalldataError bytes :=
  let? s := ok_or (Hex (name +:+ " expects hex string")) (as_str v) in
  let t := default s (strip_prefix "0x" s) in
  ok_or (Hex (name +:+ ": " +:+ hex_error t)) (hex_decode t).

Definition bytes32_word (v : Json) (name : string) : result CalldataError bytes :=
  let? raw := hex_arg v name in
  guard! negb (32 <? length raw)%nat else Hex (name +:+ ": bytes32 > 32 bytes") ;;
  Ok (raw ++ zeros (32 - length raw))%list.

Definition address_word (v : Json) (name : string) : result CalldataError bytes :=
  let? raw := hex_arg v name in
  guard! negb (20 <? length raw)%nat else Hex (name +:+ ": address > 20 bytes") ;;
  Ok (zeros (32 - length raw) ++ raw)%list.

Definition uint_arg (v : Json) (name : string) : result CalldataError bytes :=
  let? n :=
    match v with
    | JNumber (PosInt n) => Ok n
    | JNumber _ => Err (Hex (name +:+ ": uint not a non-negative integer"))
    | JString s => map_err (fun e => Hex (name +:+ ": " +:+ display_parse_int e)) (u128_dec s)
    | _ => Err (Hex (name +:+ ": uint expects number/string"))
    end in
  Ok (zeros 16 ++ be_bytes 16 n)%list.

(** One argument: its head word and the tail after it. *)
Definition encode_arg (head_len : nat) (tail : bytes) (p : Param) (v : Json)
  : result CalldataError (bytes * bytes) :=
  let name := param_name p in
  if is_tuple (ty p) then Ok (zeros 32, tail)
  else if String.eqb (ty p) "bytes" then
    let? raw := hex_arg v name in
    let body := (tail ++ usize_word (length raw) ++ raw)%list in
    let pad := ((32 - length body mod 32) mod 32)%nat in
    Ok (usize_word (head_len + length tail), (body ++ zeros pad)%list)
  else if String.eqb (ty p) "bytes32[]" then
    let? arr := ok_or (Hex (name +:+ " expects array")) (as_array v) in
    let? words := try_map (fun e => bytes32_word e name) arr in
    Ok (usize_word (head_len + length tail), (tail ++ usize_word (length arr) ++ concat words)%list)
  else if String.eqb (ty p) "bool" then
    Ok (usize_word (if default false (as_bool v) then 1 else 0), tail)
  else if String.eqb (ty p) "address" then let? w := address_word v name in Ok (w, tail)
  else if String.eqb (ty p) "bytes32" then let? w := bytes32_word v name in Ok (w, tail)
  else if starts_with "uint" (ty p) then let? w := uint_arg v name in Ok (w, tail)
  else Err (Hex ("cannot encode type '" +:+ ty p +:+ "'")).

(** The loop over [params.zip(args)]. *)
Fixpoint encode_params (head_len : nat) (ps : list Param) (args : list Json) (head tail : bytes)
  : result CalldataError (bytes * bytes) :=
  match ps, args with
  | p :: ps, v :: args =>
      let? (w, tail) := encode_arg head_len tail p v in
      encode_params head_len ps args (head ++ w)%list tail
  | _, _ => Ok (head, tail)
  end.

Definition encode_calldata (def : FnDef) (args : list Json) : result CalldataError bytes :=
  guard! Nat.eqb (length args) (length (params def))
    else Hex ("expected " +:+ dec (Z.of_nat (length (params def))) +:+ " args, got "
              +:+ dec (Z.of_nat (length args))) ;;
  let? (head, tail) := encode_params (length (params def) * 32) (params def) args [] [] in
  Ok (fn_selector def ++ head ++ tail)%list.

Definition append_v2_calldata (operator actor : bytes) (kind : Byte.byte) (hash : bytes) : bytes :=
  (selector "appendV2(bytes32,bytes32,uint8,bytes32)" ++ operator ++ actor ++ zeros 31 ++ [kind] ++ hash)%list.
End View.

(** ** Specification: the values of a type *)
Section Canonical.
Context `{HexCodec}.

(** A JSON argument in the form the decoder prints, and its part of the encoding. *)
Inductive canonical : string -> Json -> part -> Prop :=
| canonical_tuple t : is_tuple t = true -> canonical t JNull (false, zeros 32)
| canonical_bytes b : canonical "bytes" (hex_value_of b) (true, abi_encode (Bytes b))
| canonical_array ws : Forall (fun w : bytes => length w = 32%nat) ws ->
    canonical "bytes32[]" (JArray (map hex_value_of ws)) (true, abi_encode (Array (map Word ws)))
| canonical_bool (b : bool) : canonical "bool" (JBool b) (false, uint_word (if b then 1 else 0))
| canonical_address a : length a = 20%nat -> canonical "address" (hex_value_of a) (false, zeros 12 ++ a)%list
| canonical_word w : length w = 32%nat -> canonical "bytes32" (hex_value_of w) (false, w)
| canonical_small t n : starts_with "uint" t = true -> 0 <= n <= u64_max ->
    canonical t (JNumber (PosInt n)) (false, uint_word n)
| canonical_wide t n : starts_with "uint" t = true -> u64_max < n <= u128_max ->
    canonical t (JString (dec n)) (false, uint_word n).

Inductive canonical_args : list Param -> list Json -> list part -> Prop :=
| canonical_nil : canonical_args [] [] []
| canonical_cons p ps v vs x xs :
    canonical (ty p) v x -> canonical_args ps vs xs -> canonical_args (p :: ps) (v :: vs) (x :: xs).

Definition decoded (ps : list Param) (vs : list Json) : list DecodedArg :=
  zip_with (fun p v => {| arg_name := param_name p; arg_ty := ty p; arg_value := v |}) ps vs.

Definition tuple_note (ps : list Param) : option string :=
  if existsb (fun p => is_tuple (ty p)) ps then Some TUPLE_NOTE else None.

(** ** Lemmas *)

Lemma uint_not_tuple t : starts_with "uint" t = true ->
  is_tuple t = false /\ String.eqb t "bytes" = false /\ String.eqb t "bytes32[]" = false /\
  String.eqb t "bool" = false /\ String.eqb t "address" = false /\ String.eqb t "bytes32" = false.
Proof.
  intros (r & ->)%starts_with_spec. unfold is_tuple.
  repeat split; try (by apply String.eqb_neq). 
Qed.

Lemma usize_word_uint n : Z.of_nat n <= u64_max -> usize_word n = uint_word (Z.of_nat n).
Proof.
  intros Hn. unfold usize_word, uint_word. symmetry. apply (be_bytes_pad 24 8).
  unfold u64_max in Hn. change (256 ^ Z.of_nat 8) with (2 ^ 64). lia.
Qed.

Lemma canonical_one_word t v x : canonical t v x -> one_word x.
Proof.
  intros Hc Hd. inversion Hc; subst; cbn [fst snd] in *; try done; try apply length_uint_word.
  rewrite length_app, length_zeros. lia.
Qed.

Lemma canonical_args_one_word ps vs xs : canonical_args ps vs xs -> Forall one_word xs.
Proof. induction 1; constructor; [by eapply canonical_one_word | done]. Qed.

Lemma canonical_args_length ps vs xs : canonical_args ps vs xs ->
  length vs = length ps /\ length xs = length ps.
Proof. induction 1; cbn; lia. Qed.

Lemma whole_words n : (exists k, n = 32 * k)%nat -> forall m, ((n + m) mod 32 = m mod 32)%nat.
Proof. intros (k & ->) m. rewrite Nat.add_comm, Nat.mul_comm. apply Nat.Div0.mod_add. Qed.

(** Dynamic bodies are whole words. *)
Lemma canonical_whole t v x : canonical t v x -> x.1 = true -> exists k, length x.2 = (32 * k)%nat.
Proof.
  destruct 1 as [|b|ws Hws| | | | |]; cbn [fst snd]; try done; intros _.
  - cbn [abi_encode]. rewrite !length_app, length_uint_word, length_zeros.
    pose proof (padding_whole (length b)) as Hp. apply Nat.Div0.mod_divides in Hp as [k Hk].
    exists (1 + k)%nat. lia.
  - rewrite abi_words, length_app, length_uint_word, length_concat_words by done.
    exists (1 + length ws)%nat. lia.
Qed.

Lemma hex_arg_value (hex_error : string -> string) b name : hex_arg hex_error (hex_value_of b) name = Ok b.
Proof.
  unfold hex_arg, hex_value_of. cbn [as_str ok_or]. rewrite (proj2 (strip_prefix_spec "0x" _ _) eq_refl).
  cbn [from_option id]. by rewrite hex_decode_encode.
Qed.

Lemma bytes32_word_value (hex_error : string -> string) w name : length w = 32%nat ->
  bytes32_word hex_error (hex_value_of w) name = Ok w.
Proof.
  intros Hw. unfold bytes32_word. rewrite hex_arg_value, Hw. change (zeros (32 - 32)) with (@nil Byte.byte).
  by rewrite app_nil_r.
Qed.

Lemma bytes32_words (hex_error : string -> string) ws name : Forall (fun w : bytes => length w = 32%nat) ws ->
  try_map (fun e => bytes32_word hex_error e name) (map hex_value_of ws) = Ok ws.
Proof.
  intros Hws. apply try_map_ok. induction Hws as [|w ws Hw _ IH]; [constructor|].
  constructor; [by apply bytes32_word_value | exact IH].
Qed.

Lemma bytes_tail (tail b : bytes) : (exists k, length tail = (32 * k)%nat) -> Z.of_nat (length b) <= u64_max ->
  (let body := tail ++ usize_word (length b) ++ b in
   body ++ zeros ((32 - length body mod 32) mod 32) = tail ++ abi_encode (Bytes b))%list.
Proof.
  intros [k Hk] Hb. cbv zeta. rewrite usize_word_uint by done. cbn [abi_encode].
  rewrite <-!app_assoc. do 4 f_equal. unfold padding. do 2 f_equal.
  rewrite !length_app, length_uint_word, Hk.
  rewrite (whole_words (32 * k)) by (by exists k). rewrite (whole_words 32) by (by exists 1%nat). done.
Qed.

Lemma bool_usize (b : bool) : usize_word (if b then 1 else 0) = uint_word (if b then 1 else 0).
Proof. by destruct b. Qed.

Lemma uint_word_wide n : 0 <= n <= u128_max -> (zeros 16 ++ be_bytes 16 n)%list = uint_word n.
Proof. intros Hn. symmetry. apply uint_word_pad. unfold u128_max in Hn. lia. Qed.

Lemma uint_arg_ok v n name : 0 <= n <= u128_max ->
  v = JNumber (PosInt n) \/ v = JString (dec n) -> uint_arg v name = Ok (uint_word n).
Proof.
  intros Hn [-> | ->]; unfold uint_arg; [|unfold u128_dec; rewrite from_dec by done; cbn [map_err]];
    by rewrite uint_word_wide.
Qed.

(** Settle the tests on a literal type name. *)
Ltac settle_types :=
  repeat match goal with
  | |- context [is_tuple ?a] =>
      let v := eval vm_compute in (is_tuple a) in
      match v with true => idtac | false => idtac end; change (is_tuple a) with v
  | |- context [String.eqb ?a ?b] =>
      let v := eval vm_compute in (String.eqb a b) in
      match v with true => idtac | false => idtac end; change (String.eqb a b) with v
  end; cbv iota.

(** One argument is written as its part of the layout. *)
Lemma encode_arg_part (hex_error : string -> string) head_len tail p v x :
  canonical (ty p) v x -> (exists k, length tail = (32 * k)%nat) ->
  Z.of_nat (head_len + length tail + (if x.1 then length x.2 else 0)) <= u64_max ->
  encode_arg hex_error head_len tail p v
  = Ok (if x.1 then (uint_word (Z.of_nat (head_len + length tail)), (tail ++ x.2)%list) else (x.2, tail)).
Proof.
  remember (ty p) as t eqn:Et. intros Hc Htail Hmax. unfold encode_arg. rewrite <-Et. clear Et.
  destruct Hc as [t Ht|b|ws Hws|b|a Ha|w Hw|t n Ht Hn|t n Ht Hn]; cbn [fst snd] in *.
  - by rewrite Ht.
  - settle_types. rewrite hex_arg_value. pose proof (bytes_tail tail b Htail) as E. cbv zeta in E.
    cbn [abi_encode] in Hmax, E. rewrite !length_app in Hmax. rewrite usize_word_uint, E by lia. done.
  - settle_types. cbn [as_array ok_or]. rewrite bytes32_words by done. cbv iota beta.
    rewrite abi_words in *. rewrite length_app, length_concat_words in Hmax by done.
    by rewrite length_map, !usize_word_uint by lia.
  - settle_types. cbn [as_bool from_option id]. by rewrite bool_usize.
  - settle_types. unfold address_word. rewrite hex_arg_value, Ha. done.
  - settle_types. by rewrite bytes32_word_value.
  - destruct (uint_not_tuple t Ht) as (-> & -> & -> & -> & -> & ->). rewrite Ht.
    by rewrite (uint_arg_ok _ n) by first [by left | by right | unfold u128_max, u64_max in *; lia].
  - destruct (uint_not_tuple t Ht) as (-> & -> & -> & -> & -> & ->). rewrite Ht.
    by rewrite (uint_arg_ok _ n) by first [by left | by right | unfold u128_max, u64_max in *; lia].
Qed.

Lemma encode_params_layout (hex_error : string -> string) head_len ps vs xs : canonical_args ps vs xs ->
  forall head tail, (exists k, length tail = (32 * k)%nat) ->
  Z.of_nat (head_len + length tail + length (tails xs)) <= u64_max ->
  encode_params hex_error head_len ps vs head tail
  = Ok (head ++ heads (head_len + length tail) xs, tail ++ tails xs)%list.
Proof.
  induction 1 as [|p ps v vs x xs Hc Hcs IH]; intros head tail Htail Hmax; cbn [encode_params].
  { cbn [heads tails]. by rewrite !app_nil_r. }
  pose proof (canonical_whole _ _ _ Hc) as Hwhole.
  destruct x as [[] body]; cbn [heads tails fst snd length] in *.
  - rewrite length_app in Hmax.
    rewrite (encode_arg_part _ _ _ _ _ _ Hc) by (cbn [fst snd]; done || lia). cbn [fst snd].
    rewrite IH.
    + rewrite length_app, Nat.add_assoc, <-!app_assoc. done.
    + rewrite length_app. destruct Htail as [a ->], (Hwhole eq_refl) as [b ->]. exists (a + b)%nat. lia.
    + rewrite length_app. lia.
  - rewrite (encode_arg_part _ _ _ _ _ _ Hc) by (cbn [fst]; done || lia). cbn [fst snd].
    rewrite IH by (done || lia). by rewrite <-app_assoc.
Qed.

(** The dynamic readers, on a value that stands in the region. *)
Lemma decode_bytes_at region off b : 0 <= off -> len region <= u64_max ->
  holds_at region off (abi_encode (Bytes b)) ->
  decode_dynamic_bytes region (uint_word off) = Ok (hex_value_of b).
Proof.
  intros Hoff Hmax Hat. pose proof (holds_range _ _ _ Hat) as [_ Hend]. cbn [abi_encode] in *.
  pose proof (holds_l _ _ _ _ Hat) as Hsize. apply holds_r in Hat. apply holds_l in Hat.
  assert (E : forall n, len (uint_word n) = 32) by (intros; unfold len; by rewrite length_uint_word).
  rewrite !len_app, !E in *. pose proof (len_nonneg b). pose proof (len_nonneg (zeros (padding (length b)))).
  unfold decode_dynamic_bytes. rewrite word_to_usize_word by lia. cbn [ok_or].
  rewrite (holds_word _ _ _ Hsize) by (done || apply length_uint_word). cbn [ok_or].
  rewrite word_to_usize_word by (unfold len in *; lia). cbn [ok_or]. cbv zeta.
  rewrite (proj2 (checked_add_some (off + 32) _ _)) by (split; [done | unfold len in *; lia]).
  cbn [mbind option_bind]. rewrite (proj2 (Z.leb_le _ _)) by (unfold len in *; lia). cbn [ok_or].
  do 2 f_equal. by apply holds_slice.
Qed.

Lemma decode_array_at region off ws : 0 <= off -> len region <= u64_max ->
  Forall (fun w : bytes => length w = 32%nat) ws -> holds_at region off (abi_encode (Array (map Word ws))) ->
  decode_bytes32_array region (uint_word off) = Ok (JArray (map hex_value_of ws)).
Proof.
  intros Hoff Hmax Hws Hat. pose proof (holds_range _ _ _ Hat) as [_ Hend]. rewrite abi_words in *.
  pose proof (holds_l _ _ _ _ Hat) as Hsize. apply holds_r in Hat.
  assert (E : forall n, len (uint_word n) = 32) by (intros; unfold len; by rewrite length_uint_word).
  rewrite !len_app, !E in *.
  assert (Hc : len (concat ws) = Z.of_nat (length ws) * 32) by (unfold len; rewrite length_concat_words by done; lia).
  rewrite Hc in Hend. unfold decode_bytes32_array. rewrite word_to_usize_word by lia. cbn [ok_or].
  rewrite (holds_word _ _ _ Hsize) by (done || apply length_uint_word). cbn [ok_or].
  rewrite word_to_usize_word by lia. cbn [ok_or].
  rewrite (proj2 (checked_add_some off 32 _)) by (split; [done | lia]). cbn [mbind option_bind].
  rewrite (proj2 (checked_mul_some _ 32 _)) by (split; [done | lia]). cbn [mbind option_bind].
  rewrite (proj2 (checked_add_some (off + 32) _ _)) by (split; [done | lia]). cbn [ok_or].
  rewrite (proj2 (Z.ltb_ge _ _)) by lia. cbn [negb]. rewrite Nat2Z.id.
  assert (Hmap : try_map (fun i => let? w := ok_or (Truncated "bytes32[].elem")
      (read_word region (off + 32 + Z.of_nat i * 32)) in Ok (hex_value_of w)) (seq 0 (length ws))
    = Ok (map hex_value_of ws)); [|by rewrite Hmap].
  apply try_map_ok, Forall2_lookup. intros i. rewrite list_lookup_fmap.
  destruct (ws !! i) as [w|] eqn:Hi; cbn [fmap option_fmap option_map].
  - rewrite lookup_seq_lt by (by eapply lookup_lt_Some). constructor.
    rewrite (holds_word _ _ w); [done | by apply (holds_in _ _ ws) | | done].
    exact (Forall_lookup_1 _ _ _ _ Hws Hi).
  - rewrite lookup_seq_ge by (by apply lookup_ge_None_1). constructor.
Qed.

Lemma word_value_small n : 0 <= n <= u64_max -> word_to_uint_value (uint_word n) = JNumber (PosInt n).
Proof.
  intros Hn. unfold word_to_uint_value, u64_max in *.
  rewrite uint_word_pad, take_app_length', drop_app_length' by (done || lia).
  rewrite (proj2 (forallb_zeros _)) by (by rewrite length_zeros).
  rewrite be_val_bytes_small by (change (256 ^ Z.of_nat 16) with (2 ^ 128); lia).
  by rewrite (proj2 (Z.leb_le _ _)) by lia.
Qed.

Lemma word_value_wide n : u64_max < n <= u128_max -> word_to_uint_value (uint_word n) = JString (dec n).
Proof.
  intros Hn. unfold word_to_uint_value, u64_max, u128_max in *.
  rewrite uint_word_pad, take_app_length', drop_app_length' by (done || lia).
  rewrite (proj2 (forallb_zeros _)) by (by rewrite length_zeros).
  rewrite be_val_bytes_small by (change (256 ^ Z.of_nat 16) with (2 ^ 128); lia).
  by rewrite (proj2 (Z.leb_gt _ _)) by lia.
Qed.

Definition tuple_note_of (t : string) : option string := if is_tuple t then Some TUPLE_NOTE else None.

(** One argument is read back from its part of the layout. *)
Lemma decode_arg_part region k t v x : canonical t v x -> len region <= u64_max ->
  (exists head, read_word region k = Some head /\
     if x.1 then exists off, 0 <= off /\ head = uint_word off /\ holds_at region off x.2 else head = x.2) ->
  exists head, read_word region k = Some head /\ decode_arg region head t = Ok (v, tuple_note_of t).
Proof.
  intros Hc Hmax (head & Hread & Hx). exists head. split; [exact Hread|]. unfold tuple_note_of, decode_arg.
  destruct Hc as [t Ht|b|ws Hws|b|a Ha|w Hw|t n Ht Hn|t n Ht Hn]; cbn [fst snd] in Hx.
  - by rewrite Ht.
  - destruct Hx as (off & Hoff & -> & Hat). settle_types. by rewrite (decode_bytes_at _ _ b).
  - destruct Hx as (off & Hoff & -> & Hat). settle_types. by rewrite (decode_array_at _ _ ws).
  - subst head. settle_types. by destruct b.
  - subst head. settle_types. rewrite drop_app_length' by done. done.
  - subst head. settle_types. done.
  - subst head. destruct (uint_not_tuple t Ht) as (-> & -> & -> & -> & -> & ->). rewrite Ht.
    by rewrite word_value_small.
  - subst head. destruct (uint_not_tuple t Ht) as (-> & -> & -> & -> & -> & ->). rewrite Ht.
    by rewrite word_value_wide.
Qed.

(** Where the parts of a layout stand. *)
Definition stands (region : bytes) (k : nat) (x : part) : Prop :=
  exists head, read_word region (Z.of_nat k * 32) = Some head /\
    if x.1 then exists off, 0 <= off /\ head = uint_word off /\ holds_at region off x.2 else head = x.2.

Lemma layout_stands parts k x : Forall one_word parts -> len (layout parts) <= u64_max ->
  parts !! k = Some x -> stands (layout parts) k x.
Proof.
  intros Hone Hmax Hk. destruct x as [[] body].
  - destruct (argument_at parts k body Hone Hk) as (off & Hoff & Hh & Hb).
    exists (uint_word off). split; [|by exists off].
    by apply (holds_word _ _ _ Hh); [apply length_uint_word|].
  - exists body. split; [|done]. apply (holds_word _ _ _ (static_argument_at parts k body Hone Hk)); [|done].
    exact (Forall_lookup_1 _ _ _ _ Hone Hk eq_refl).
Qed.

Definition later_note (note : option string) (ps : list Param) : option string :=
  keep_note note (tuple_note ps).

Lemma keep_note_none note : keep_note note None = note.
Proof. by destruct note. Qed.

Lemma later_note_cons note p ps :
  later_note (keep_note note (tuple_note_of (ty p))) ps = later_note note (p :: ps).
Proof.
  unfold later_note, tuple_note, tuple_note_of. cbn [existsb]. by destruct note, (is_tuple (ty p)).
Qed.

Lemma decode_params_layout region ps vs xs : canonical_args ps vs xs -> len region <= u64_max ->
  forall i note, (forall k x, xs !! k = Some x -> stands region (i + k) x) ->
  decode_params region i ps note = Ok (decoded ps vs, later_note note ps).
Proof.
  intros Hcs Hmax. induction Hcs as [|p ps v vs x xs Hc Hcs IH]; intros i note Hat; cbn [decode_params].
  { unfold later_note. cbn. by rewrite keep_note_none. }
  pose proof (Hat 0%nat x eq_refl) as H0. rewrite Nat.add_0_r in H0.
  destruct (decode_arg_part _ _ _ _ _ Hc Hmax H0) as (head & -> & Hd). cbn [ok_or]. rewrite Hd.
  rewrite IH by (intros k y Hk; replace (S i + k)%nat with (i + S k)%nat by lia; by apply Hat).
  by rewrite later_note_cons.
Qed.

(** ** Lemmas: the table *)

Context `{Crypto}.

(** No two functions of the table share a selector. *)
Definition selectors_distinct : Prop := NoDup (map fn_selector REGISTRY).

Lemma find_selector l def : NoDup (map fn_selector l) -> def ∈ l ->
  List.find (fun f => bool_decide (fn_selector f = fn_selector def)) l = Some def.
Proof.
  induction l as [|f l IH]; cbn [map List.find]; [by intros _ ?%elem_of_nil|].
  intros [Hnew Hnd]%NoDup_cons Hin. case_bool_decide as E.
  - apply elem_of_cons in Hin as [->|Hin]; [done|]. exfalso. apply Hnew. rewrite E.
    by apply list_elem_of_fmap_2.
  - apply elem_of_cons in Hin as [->|Hin]; [done|]. by apply IH.
Qed.

Lemma lookup_registered def : selectors_distinct -> def ∈ REGISTRY -> lookup (fn_selector def) = Some def.
Proof. intros Hd Hin. by apply find_selector. Qed.

Definition shown (def : FnDef) (vs : list Json) : DecodedCall := {|
  call_contract := contract def; function := fn_name def; call_signature := signature def;
  call_selector := "0x" +:+ hex_encode (fn_selector def);
  args := decoded (params def) vs; note := tuple_note (params def) |}.

Lemma encode_layout (hex_error : string -> string) def vs xs : canonical_args (params def) vs xs ->
  len (layout xs) <= u64_max ->
  encode_calldata hex_error def vs = Ok (fn_selector def ++ layout xs)%list.
Proof.
  intros Hc Hmax. destruct (canonical_args_length _ _ _ Hc) as [Hv Hx].
  pose proof (head_sizes xs (canonical_args_one_word _ _ _ Hc)) as Hsize.
  unfold layout, len in Hmax. rewrite length_app, length_heads, Hsize in Hmax.
  unfold encode_calldata. rewrite Hv, Nat.eqb_refl.
  rewrite (encode_params_layout hex_error _ _ _ _ Hc) by first [by exists 0%nat | cbn [length]; lia].
  unfold layout. rewrite Hsize, <-Hx. cbn [length app]. by rewrite Nat.add_0_r.
Qed.

Lemma decode_layout def vs xs : selectors_distinct -> def ∈ REGISTRY ->
  canonical_args (params def) vs xs -> len (layout xs) <= u64_max ->
  decode_calldata (fn_selector def ++ layout xs)%list = Ok (shown def vs).
Proof.
  intros Hd Hin Hc Hmax. unfold decode_calldata.
  assert (Hsel : length (fn_selector def) = 4%nat) by apply length_selector.
  rewrite len_app, (proj2 (Z.ltb_ge _ _)) by (unfold len at 1; rewrite Hsel; pose proof (len_nonneg (layout xs)); lia).
  cbn [negb]. rewrite take_app_length', drop_app_length' by (by rewrite Hsel). cbv zeta.
  rewrite lookup_registered by done. cbn [ok_or].
  rewrite (decode_params_layout _ _ _ _ Hc Hmax 0 None).
  - unfold later_note, shown. done.
  - intros k x Hk. apply layout_stands; [by eapply canonical_args_one_word | done | done].
Qed.

(** ** What the view shows of the account layer's calls *)

Definition number_value (n : Z) : Json := if n <=? u64_max then JNumber (PosInt n) else JString (dec n).

Definition registered (name : string) (types : list AbiTy) (def : FnDef) : bool :=
  String.eqb (fn_name def) name && bool_decide (map ty (params def) = map type_name types).

(** The function of the table that a call names, and its arguments as the view prints them. *)
Definition view_of (c : Call) : option (FnDef * list Json) :=
  def ← List.find (registered (interface c).1 (interface c).2) REGISTRY;
  vs ← match c with
       | RevokeScope op a => Some [hex_value_of op; hex_value_of a]
       | AppendRoot op root n => Some [hex_value_of op; hex_value_of root; number_value n]
       | RevokeAgentDevice d => Some [hex_value_of d]
       | RegisterAgentDevice r | RegisterDelegate r =>
           Some [hex_value_of (ar_device_key_hash r); hex_value_of (ar_operator_omni r);
                 hex_value_of (ar_actor_omni r); hex_value_of (link_code_redemption r);
                 hex_value_of (agent_pop_sig r)]
       | SetScope op a g =>
           Some [hex_value_of op; hex_value_of a; JArray (map hex_value_of (services g)); JBool (read_only g);
                 number_value (max_per_call g); number_value (max_per_period g); number_value (max_total g);
                 number_value (period_seconds g)]
       | _ => None
       end;
  Some (def, vs).

Lemma canonical_number t n : starts_with "uint" t = true -> is_u128 n = true ->
  canonical t (number_value n) (abi_part (Number n)).
Proof.
  unfold is_u128, number_value. intros Ht Hn. reflect_bools. change (abi_part (Number n)) with (false, uint_word n).
  destruct (n <=? u64_max) eqn:E; reflect_bools; constructor; try done; unfold u128_max; lia.
Qed.

Lemma is_word_length w : is_word w = true -> length w = 32%nat.
Proof. apply Nat.eqb_eq. Qed.

Lemma canonical_hex w : is_word w = true -> canonical "bytes32" (hex_value_of w) (abi_part (Word w)).
Proof. intros Hw. constructor. by apply is_word_length. Qed.

Lemma view_registered c def vs : view_of c = Some (def, vs) ->
  def ∈ REGISTRY /\ signature def = signature_of c.
Proof.
  unfold view_of. rewrite bind_Some. intros (d & Hd & Hvs). apply bind_Some in Hvs as (ws & _ & [= -> ->]).
  apply List.find_some in Hd as [Hin Hr]. split; [by apply list_elem_of_In|].
  unfold registered in Hr. apply andb_true_iff in Hr as [Hn Ht].
  apply String.eqb_eq in Hn. apply bool_decide_eq_true in Ht.
  unfold signature, signature_of. by rewrite Hn, Ht.
Qed.

Lemma canonical_bytes_part b : canonical "bytes" (hex_value_of b) (abi_part (Bytes b)).
Proof. constructor. Qed.

Lemma canonical_words_part ws : forallb is_word ws = true ->
  canonical "bytes32[]" (JArray (map hex_value_of ws)) (abi_part (Array (map Word ws))).
Proof.
  intros Hws. constructor. apply Forall_forall. intros w Hw. apply is_word_length.
  by apply (proj1 (forallb_elem _ _) Hws).
Qed.

Lemma canonical_flag_part b : canonical "bool" (JBool b) (abi_part (Flag b)).
Proof. constructor. Qed.

Lemma view_canonical c def vs : call_wf c = true -> view_of c = Some (def, vs) ->
  canonical_args (params def) vs (map abi_part (arguments c)).
Proof.
  intros Hwf Hv. unfold view_of in Hv.
  destruct c as [| | |op a| |op root n| | |d|r|m|r|r|op a g|de va fu];
    (lazymatch type of Hv with context [List.find ?f ?l] =>
       let v := eval vm_compute in (List.find f l) in change (List.find f l) with v in Hv end;
     cbn [mbind option_bind] in Hv); try done;
    injection Hv as <- <-; cbn [call_wf] in Hwf;
    repeat match goal with
    | H : (_ && _)%bool = true |- _ => apply andb_true_iff in H as [? ?]
    | H : forallb _ (_ :: _) = true |- _ => cbn [forallb] in H
    end;
    cbn [params arguments map F];
    repeat (first [apply canonical_nil | apply canonical_cons]);
    first [by apply canonical_hex | by apply canonical_number | apply canonical_bytes_part
          | by apply canonical_words_part | apply canonical_flag_part].
Qed.

Lemma viewed_call_abi c def vs : view_of c = Some (def, vs) -> call_wf c = true -> fits c ->
  calldata_of c = (fn_selector def ++ layout (map abi_part (arguments c)))%list.
Proof.
  intros Hv Hwf Hfits. destruct (view_registered c def vs Hv) as [_ Hsig]. unfold fn_selector. rewrite Hsig.
  pose proof (fixed_call_abi c Hwf) as Hfixed. destruct c; try exact Hfixed; cbn [call_wf] in Hwf.
  - by apply additional_master_abi.
  - by apply register_k10_abi.
  - by apply (register_k10_abi "registerDelegate(bytes32,bytes32,bytes32,bytes,bytes)").
  - by apply set_scope_abi.
  - by apply execute_batch_call_abi.
Qed.
End Canonical.

(** ** Properties *)

(** The audit view's encoder and decoder are inverse.  Canonical JSON arguments of a
    function of the table encode to the ABI layout of their parts, and that calldata
    decodes to the function and the same arguments, with a note when one is a tuple. *)
Theorem audit_calldata_roundtrip `{Crypto} `{HexCodec} (hex_error : string -> string)
    (def : FnDef) (vs : list Json) (xs : list part) :
  selectors_distinct -> def ∈ REGISTRY -> canonical_args (params def) vs xs -> len (layout xs) <= u64_max ->
  exists data, encode_calldata hex_error def vs = Ok data /\ decode_calldata data = Ok (shown def vs).
Proof.
  intros Hd Hin Hc Hmax. eexists. split; [by apply encode_layout|]. by apply decode_layout.
Qed.

(** C20: what the owner signs is what the audit view shows.  For each call of the account
    layer that the table knows, the calldata that goes into the signed batch decodes to
    that function and to the arguments the call was built from. *)
Theorem signed_call_shown `{Crypto} `{HexCodec} (c : Call) (def : FnDef) (vs : list Json) :
  selectors_distinct -> call_wf c = true -> fits c -> view_of c = Some (def, vs) ->
  decode_calldata (calldata_of c) = Ok (shown def vs).
Proof.
  intros Hd Hwf Hfits Hv. pose proof (viewed_call_abi c def vs Hv Hwf Hfits) as E.
  unfold fits in Hfits. rewrite E, len_app in *. pose proof (len_nonneg (fn_selector def)).
  apply decode_layout; [done | by apply (view_registered c def vs) | by apply view_canonical | lia].
Qed.

(** ** Witnesses *)

Lemma toy_selectors : selectors_distinct (H0 := ToyCrypto.crypto).
Proof. unfold selectors_distinct. apply (bool_decide_unpack _). vm_compute. exact I. Qed.

Definition demo_def : FnDef :=
  F "CredentialAudit" "appendRoot"
    [P "operatorOmni" "bytes32"; P "merkleRoot" "bytes32"; P "batchEntryCount" "uint64"].

Lemma audit_calldata_roundtrip_witness :
  exists data,
    encode_calldata (H := ToyCrypto.crypto) (H0 := SimpleHex.codec) (fun _ => "") demo_def
      [hex_value_of (H0 := SimpleHex.codec) (bytes_of 32 Byte.x01); hex_value_of (H0 := SimpleHex.codec) (bytes_of 32 Byte.x02);
       JNumber (PosInt 42)] = Ok data /\
    decode_calldata (H := ToyCrypto.crypto) (H0 := SimpleHex.codec) data
    = Ok (shown (H := SimpleHex.codec) (H0 := ToyCrypto.crypto) demo_def
       [hex_value_of (H0 := SimpleHex.codec) (bytes_of 32 Byte.x01); hex_value_of (H0 := SimpleHex.codec) (bytes_of 32 Byte.x02);
        JNumber (PosInt 42)]).
Proof.
  apply (audit_calldata_roundtrip (H := ToyCrypto.crypto) (H0 := SimpleHex.codec) (fun _ => "") demo_def _
    [(false, bytes_of 32 Byte.x01); (false, bytes_of 32 Byte.x02); (false, uint_word 42)]).
  - exact toy_selectors.
  - unfold REGISTRY, demo_def. set_solver.
  - repeat constructor; unfold u64_max; lia.
  - apply Z.leb_le. vm_compute. reflexivity.
Defined.

Definition demo_regrant : Call := SetScope (bytes_of 32 Byte.x01) (bytes_of 32 Byte.x02) demo_grant.

Definition scope_def : FnDef :=
  F "AgentKeysScope" "setScope"
    [P "operatorOmni" "bytes32"; P "agentOmni" "bytes32"; P "services" "bytes32[]"; P "readOnly" "bool";
     P "maxPerCall" "uint128"; P "maxPerPeriod" "uint128"; P "maxTotal" "uint128"; P "periodSeconds" "uint32"].

Definition demo_shown : list Json :=
  [hex_value_of (H0 := SimpleHex.codec) (bytes_of 32 Byte.x01); hex_value_of (H0 := SimpleHex.codec) (bytes_of 32 Byte.x02);
   JArray (map (hex_value_of (H0 := SimpleHex.codec)) (services demo_grant)); JBool true; JNumber (PosInt 7);
   JString "18446744073709551616"; JString "340282366920938463463374607431768211455"; JNumber (PosInt 86400)].

Lemma signed_call_shown_witness :
  decode_calldata (H := ToyCrypto.crypto) (H0 := SimpleHex.codec) (calldata_of (H := ToyCrypto.crypto) demo_regrant)
  = Ok (shown (H := SimpleHex.codec) (H0 := ToyCrypto.crypto) scope_def demo_shown).
Proof.
  apply (signed_call_shown (H := ToyCrypto.crypto) (H0 := SimpleHex.codec) demo_regrant scope_def demo_shown).
  - exact toy_selectors.
  - vm_compute. reflexivity.
  - unfold fits. apply Z.leb_le. vm_compute. reflexivity.
  - vm_compute. reflexivity.
Defined.

(** Bare hex is trimmed only when it is prefixed. *)
Example untrimmed_bare_hex :
  decode_calldata_hex (H := ToyCrypto.crypto) (H0 := SimpleHex.codec) (fun _ => "bad") " 00" = Err (Hex "bad") /\
  decode_calldata_hex (H := ToyCrypto.crypto) (H0 := SimpleHex.codec) (fun _ => "bad") " 0x00" = Err (TooShort 1).
Proof. split; vm_compute; reflexivity. Qed.
