(* ===== verification/U256.v ===== *)
(** * 256-bit integers

    The integers of [crates/agentkeys-core/src/clear_signing/eip712.rs]: four limbs of
    64 bits, the most significant first, with the source's carries and shifts.  The
    lemmas give every operation its meaning on the number the limbs stand for. *)
From S2P Require Import Prelude RustStr StrFacts Numerals.

Open Scope Z_scope.

Definition B : Z := 2 ^ 64.

Record U256 := { limbs : list Z }.

Definition ZERO : U256 := {| limbs := [0; 0; 0; 0] |}.
Definition ONE : U256 := {| limbs := [0; 0; 0; 1] |}.

(** [limbs[i]] *)
Definition limb (l : list Z) (i : nat) : Z := default 0 (l !! i).

(** ** Operations *)

(** One round of the loop of [mul_small]; the state is the output and the carry. *)
Definition mul_step (self : U256) (factor : Z) (st : list Z * Z) (i : nat) : list Z * Z :=
  let v := limb (limbs self) i * factor + st.2 in
  (<[i := v mod B]> st.1, v / B).

Definition mul_small (self : U256) (factor : Z) : option U256 :=
  let '(out, carry) := fold_left (mul_step self factor) (rev (seq 0 4)) ([0; 0; 0; 0], 0) in
  if negb (carry =? 0) then None else Some {| limbs := out |}.

(** The loop that adds a carry and stops where none is left. *)
Fixpoint carry_loop (is_ : list nat) (out : list Z) (carry : Z) : list Z * Z :=
  match is_ with
  | [] => (out, carry)
  | i :: is_ =>
      let v := limb out i + carry in
      let out := <[i := v mod B]> out in
      let carry := v / B in
      if carry =? 0 then (out, carry) else carry_loop is_ out carry
  end.

Definition add_small (self : U256) (addend : Z) : option U256 :=
  let '(out, carry) := carry_loop (rev (seq 0 4)) (limbs self) addend in
  if negb (carry =? 0) then None else Some {| limbs := out |}.

Definition neg_twos_complement (self : U256) : U256 :=
  let out := map (fun x => 2 ^ 64 - 1 - x) (limbs self) in
  {| limbs := (carry_loop (rev (seq 0 4)) out 1).1 |}.

Fixpoint dec_loop (out : U256) (s : string) : option U256 :=
  match s with
  | EmptyString => Some out
  | String c s =>
      d ← dec_value c;
      out ← mul_small out 10;
      out ← add_small out d;
      dec_loop out s
  end.

Definition from_dec (s : string) : option U256 :=
  if String.eqb s "" then None else dec_loop ZERO s.

Fixpoint repeat_char (c : Ascii.ascii) (n : nat) : string :=
  match n with O => "" | S n => String c (repeat_char c n) end.

(** [bytes.chunks(8)] of at most [n] chunks. *)
Fixpoint chunks8 (n : nat) (b : bytes) : list bytes :=
  match n, b with
  | _, [] => []
  | O, _ => []
  | S n, _ => take 8 b :: chunks8 n (drop 8 b)
  end.

Definition from_hex `{HexCodec} (s : string) : option U256 :=
  let s := trim s in
  if String.eqb s "" || (64 <? String.length s)%nat then None
  else
    b ← hex_decode (repeat_char "0"%char (64 - String.length s) +:+ s);
    Some {| limbs := map be_val (chunks8 4 b) |}.

(** [out[i] |= v], where [i] is one of the four places. *)
Definition or_limb (i : Z) (v : Z) (out : list Z) : list Z :=
  if (0 <=? i) && (i <? 4) then <[Z.to_nat i := Z.lor (limb out (Z.to_nat i)) v]> out else out.

Definition shl_step (self : U256) (limb_shift bit_shift : Z) (out : list Z) (k : nat) : list Z :=
  let val := limb (limbs self) k in
  if val =? 0 then out
  else
    let primary_out := Z.of_nat k - limb_shift in
    let out := or_limb primary_out (Z.shiftl val bit_shift mod B) out in
    if 0 <? bit_shift then or_limb (primary_out - 1) (Z.shiftr val (64 - bit_shift)) out else out.

Definition shl (self : U256) (bits : Z) : U256 :=
  if bits =? 0 then self
  else if 256 <=? bits then ZERO
  else {| limbs := fold_left (shl_step self (bits / 64) (bits mod 64)) (rev (seq 0 4)) [0; 0; 0; 0] |}.

Definition to_be_bytes (self : U256) : bytes := concat (map (be_bytes 8) (limbs self)).

(** The derived order: the first limb that differs decides. *)
Fixpoint limbs_ltb (a b : list Z) : bool :=
  match a, b with
  | x :: a, y :: b => if x =? y then limbs_ltb a b else x <? y
  | _, _ => false
  end.

(** [a >= b] and [a > b] *)
Definition ge (a b : U256) : bool := negb (limbs_ltb (limbs a) (limbs b)).
Definition gt (a b : U256) : bool := limbs_ltb (limbs b) (limbs a).

(** ** Meaning *)

Definition digits_val (l : list Z) : Z := fold_left (fun acc x => acc * B + x) l 0.
Definition val (u : U256) : Z := digits_val (limbs u).

Definition is_limb (x : Z) : Prop := 0 <= x < B.
Definition wf (u : U256) : Prop := length (limbs u) = 4%nat /\ Forall is_limb (limbs u).

Lemma wf_limbs u : wf u -> exists a b c d, u = {| limbs := [a; b; c; d] |} /\
  is_limb a /\ is_limb b /\ is_limb c /\ is_limb d.
Proof.
  destruct u as [l]. intros [Hl Hf]. cbn in *.
  destruct l as [|a [|b [|c [|d [|]]]]]; cbn in Hl; try lia.
  repeat (apply Forall_cons in Hf as [? Hf]). by exists a, b, c, d.
Qed.

Lemma wf_of a b c d : is_limb a -> is_limb b -> is_limb c -> is_limb d ->
  wf {| limbs := [a; b; c; d] |}.
Proof. intros. split; [done|]. cbn. repeat (constructor; try done). Qed.

Lemma val_of a b c d : val {| limbs := [a; b; c; d] |} = ((a * B + b) * B + c) * B + d.
Proof. unfold val, digits_val. cbn [fold_left limbs]. lia. Qed.

Lemma B_pos : 0 < B. Proof. done. Qed.

Lemma mod_limb z : is_limb (z mod B).
Proof. apply Z.mod_pos_bound, B_pos. Qed.

Lemma B4 : 2 ^ 256 = B * B * B * B.
Proof. reflexivity. Qed.

#[local] Opaque B.

Lemma snoc_range x d M : 0 <= x < M -> is_limb d -> 0 <= x * B + d < M * B.
Proof. unfold is_limb. pose proof B_pos. nia. Qed.

Lemma val_range u : wf u -> 0 <= val u < 2 ^ 256.
Proof.
  intros (a & b & c & d & -> & Ha & Hb & Hc & Hd)%wf_limbs. rewrite val_of, B4.
  by repeat apply snoc_range.
Qed.

(** A carry propagates without loss. *)
Lemma carry_split a c : a + c = (a + c) / B * B + (a + c) mod B.
Proof. rewrite (Z.div_mod (a + c) B) at 1 by (pose proof B_pos; lia). lia. Qed.

(** The state of a carrying loop stands for the same number throughout. *)
Lemma mul_small_spec u f : wf u -> 0 <= f < B ->
  match mul_small u f with
  | Some v => wf v /\ val v = val u * f
  | None => 2 ^ 256 <= val u * f
  end.
Proof.
  intros (a & b & c & d & -> & Ha & Hb & Hc & Hd)%wf_limbs Hf. pose proof B_pos.
  unfold mul_small. cbn [rev seq app fold_left]. unfold mul_step at 1 2 3 4.
  cbn [limb limbs lookup list_lookup fst snd insert list_insert default from_option id].
  rewrite Z.add_0_r.
  set (v3 := d * f). set (v2 := c * f + v3 / B). set (v1 := b * f + v2 / B).
  set (v0 := a * f + v1 / B).
  assert (Hval : val {| limbs := [a; b; c; d] |} * f =
    v0 / B * 2 ^ 256 + val {| limbs := [v0 mod B; v1 mod B; v2 mod B; v3 mod B] |}).
  { rewrite !val_of, B4. pose proof (Z.div_mod v3 B). pose proof (Z.div_mod v2 B).
    pose proof (Z.div_mod v1 B). pose proof (Z.div_mod v0 B). subst v0 v1 v2 v3. nia. }
  pose proof (wf_of _ _ _ _ (mod_limb v0) (mod_limb v1) (mod_limb v2) (mod_limb v3)) as Hwf.
  pose proof (val_range _ Hwf) as Hr.
  assert (Hc3 : 0 <= v3 / B) by (apply Z.div_pos; subst v3; unfold is_limb in *; nia).
  assert (Hc2 : 0 <= v2 / B) by (apply Z.div_pos; subst v2; unfold is_limb in *; nia).
  assert (Hc1 : 0 <= v1 / B) by (apply Z.div_pos; subst v1; unfold is_limb in *; nia).
  assert (Hc0 : 0 <= v0 / B) by (apply Z.div_pos; subst v0; unfold is_limb in *; nia).
  destruct (v0 / B =? 0) eqn:E; reflect_bools; cbn [negb].
  - split; [done|]. rewrite E in Hval. lia.
  - nia.
Qed.

Lemma carry_loop_spec u x out carry : wf u -> 0 <= x ->
  carry_loop (rev (seq 0 4)) (limbs u) x = (out, carry) ->
  wf {| limbs := out |} /\ 0 <= carry /\ val u + x = carry * 2 ^ 256 + val {| limbs := out |}.
Proof.
  intros (a & b & c & d & -> & Ha & Hb & Hc & Hd)%wf_limbs Hx. pose proof B_pos.
  assert (Hdiv : forall l y, is_limb l -> 0 <= y ->
    0 <= (l + y) / B /\ l + y = (l + y) / B * B + (l + y) mod B).
  { intros l y Hl Hy. split; [apply Z.div_pos; unfold is_limb in *; lia | apply carry_split]. }
  cbn [rev seq app carry_loop limbs]. cbv zeta.
  cbn [limb lookup list_lookup insert list_insert default from_option id].
  destruct (Hdiv d x Hd Hx) as [G3 E3]. pose proof (mod_limb (d + x)).
  destruct ((d + x) / B =? 0) eqn:E; reflect_bools.
  { intros [= <- <-]. split_and!; [by apply wf_of | lia |]. rewrite !val_of. lia. }
  clear E. revert G3 E3. generalize ((d + x) / B). intros x3 G3 E3.
  destruct (Hdiv c x3 Hc G3) as [G2 E2]. pose proof (mod_limb (c + x3)).
  destruct ((c + x3) / B =? 0) eqn:E; reflect_bools.
  { intros [= <- <-]. split_and!; [by apply wf_of | lia |]. rewrite !val_of. nia. }
  clear E. revert G2 E2. generalize ((c + x3) / B). intros x2 G2 E2.
  destruct (Hdiv b x2 Hb G2) as [G1 E1]. pose proof (mod_limb (b + x2)).
  destruct ((b + x2) / B =? 0) eqn:E; reflect_bools.
  { intros [= <- <-]. split_and!; [by apply wf_of | lia |]. rewrite !val_of. nia. }
  clear E. revert G1 E1. generalize ((b + x2) / B). intros x1 G1 E1.
  destruct (Hdiv a x1 Ha G1) as [G0 E0]. pose proof (mod_limb (a + x1)).
  assert (Hend : val {| limbs := [a; b; c; d] |} + x = (a + x1) / B * 2 ^ 256 +
    val {| limbs := [(a + x1) mod B; (b + x2) mod B; (c + x3) mod B; (d + x) mod B] |}).
  { rewrite !val_of, B4. nia. }
  destruct ((a + x1) / B =? 0) eqn:E; intros [= <- <-]; (split_and!; [by apply wf_of | lia | done]).
Qed.

Lemma add_small_spec u x : wf u -> 0 <= x < B ->
  match add_small u x with
  | Some v => wf v /\ val v = val u + x
  | None => 2 ^ 256 <= val u + x
  end.
Proof.
  intros Hu Hx. unfold add_small.
  destruct (carry_loop _ _ _) as [out carry] eqn:E.
  apply carry_loop_spec in E as (Hwf & Hc & Hv); [|done | lia].
  pose proof (val_range _ Hwf).
  destruct (carry =? 0) eqn:E; reflect_bools; cbn [negb]; [split; [done|] |]; nia.
Qed.

Lemma ZERO_wf : wf ZERO. Proof. by apply wf_of. Qed.
Lemma ONE_wf : wf ONE. Proof. by apply wf_of. Qed.

(** Negation is the number's negation, modulo 2^256. *)
Lemma neg_spec u : wf u -> wf (neg_twos_complement u) /\
  val (neg_twos_complement u) = - val u mod 2 ^ 256.
Proof.
  intros Hu. unfold neg_twos_complement.
  destruct (carry_loop _ _ _) as [out carry] eqn:E.
  apply (carry_loop_spec {| limbs := map (fun x => 2 ^ 64 - 1 - x) (limbs u) |}) in E
    as (Hwf & Hc & Hv); [| | lia].
  - split; [done|]. cbn [fst]. pose proof (val_range _ Hwf) as Hr.
    apply wf_limbs in Hu as (a & b & c & d & -> & _).
    cbn [limbs map] in Hv. rewrite !val_of in *. change (2 ^ 64) with B in Hv.
    apply Z.mod_unique with (carry - 1); [by left|]. rewrite B4 in *. nia.
  - apply wf_limbs in Hu as (a & b & c & d & -> & Ha & Hb & Hc & Hd). unfold is_limb in *.
    apply wf_of; unfold is_limb; change (2 ^ 64) with B; lia.
Qed.

(** Limbs of the same number are the same. *)
Lemma val_inj u v : wf u -> wf v -> val u = val v -> u = v.
Proof.
  intros (a & b & c & d & -> & Ha & Hb & Hc & Hd)%wf_limbs
    (a' & b' & c' & d' & -> & Ha' & Hb' & Hc' & Hd')%wf_limbs. rewrite !val_of.
  assert (Hsnoc : forall x y p q, is_limb p -> is_limb q -> x * B + p = y * B + q -> x = y /\ p = q).
  { unfold is_limb. pose proof B_pos. intros x y p q Hp Hq He.
    assert (x = y) by nia. subst. split; [done|]. lia. }
  intros E1. destruct (Hsnoc _ _ _ _ Hd Hd' E1) as [E2 ->].
  destruct (Hsnoc _ _ _ _ Hc Hc' E2) as [E3 ->]. by destruct (Hsnoc _ _ _ _ Hb Hb' E3) as [-> ->].
Qed.

(** ** Reading *)

(** The number that decimal digits write. *)
Fixpoint dec_number (acc : Z) (s : string) : Z :=
  match s with
  | EmptyString => acc
  | String c s => dec_number (acc * 10 + default 0 (dec_value c)) s
  end.

Lemma dec_value_range c d : dec_value c = Some d -> 0 <= d < 10.
Proof.
  pose proof (ascii_forall (fun c => match dec_value c with
    | Some n => (0 <=? n) && (n <? 10) | None => true end) eq_refl c) as H.
  cbv beta in H. intros Hv. rewrite Hv in H. reflect_bools. lia.
Qed.

Lemma digit_value c : is_ascii_digit c = true <-> exists d, dec_value c = Some d.
Proof. unfold dec_value. destruct (is_ascii_digit c); naive_solver. Qed.

Lemma dec_number_lower s : forall acc, 0 <= acc -> acc <= dec_number acc s.
Proof.
  induction s as [|c s IH]; intros acc Hacc; cbn [dec_number]; [lia|].
  assert (0 <= default 0 (dec_value c)).
  { destruct (dec_value c) as [d|] eqn:E; cbn [from_option id]; [|lia]. apply dec_value_range in E; lia. }
  specialize (IH (acc * 10 + default 0 (dec_value c))). lia.
Qed.

Lemma dec_loop_spec s : forall u, wf u ->
  match dec_loop u s with
  | Some v => wf v /\ string_all is_ascii_digit s = true /\ val v = dec_number (val u) s
  | None => string_all is_ascii_digit s = false \/ 2 ^ 256 <= dec_number (val u) s
  end.
Proof.
  induction s as [|c s IH]; intros u Hu; cbn [dec_loop string_all dec_number]; [done|].
  destruct (dec_value c) as [d|] eqn:Ed; cbn [mbind option_bind].
  2: { left. destruct (is_ascii_digit c) eqn:E; [|done]. apply digit_value in E as [d E]. congruence. }
  assert (Hc : is_ascii_digit c = true) by (apply digit_value; by exists d).
  pose proof (dec_value_range _ _ Ed). pose proof (val_range _ Hu).
  rewrite Hc. cbn [andb from_option id].
  pose proof (dec_number_lower s (val u * 10 + d)) as Hlow.
  pose proof (mul_small_spec u 10 Hu ltac:(done)) as Hm.
  destruct (mul_small u 10) as [v|]; cbn [mbind option_bind]; [|right; lia].
  destruct Hm as [Hv Em].
  pose proof (add_small_spec v d Hv ltac:(change B with (2 ^ 64); lia)) as Ha.
  destruct (add_small v d) as [w|]; cbn [mbind option_bind]; [|right; lia].
  destruct Ha as [Hw Ea]. specialize (IH w Hw). by rewrite Ea, Em in IH.
Qed.

(** Decimal text is read exactly when its number fits. *)
Lemma from_dec_spec s u : from_dec s = Some u <->
  s <> "" /\ string_all is_ascii_digit s = true /\ wf u /\ val u = dec_number 0 s.
Proof.
  unfold from_dec. pose proof (dec_loop_spec s ZERO ZERO_wf) as Hs.
  change (val ZERO) with 0 in Hs.
  destruct (String.eqb_spec s "") as [->|Hne]; [naive_solver|].
  destruct (dec_loop ZERO s) as [v|].
  - destruct Hs as (Hv & Hall & Hval). split; [by intros [= <-]|].
    intros (_ & _ & Hu & He). f_equal. apply val_inj; [done | done | congruence].
  - split; [done|]. intros (_ & Hall & Hu & He). pose proof (val_range u Hu).
    by destruct Hs; [congruence | lia].
Qed.


Lemma be_val_app a b : be_val (a ++ b)%list = be_val a * 256 ^ Z.of_nat (length b) + be_val b.
Proof.
  induction b as [|x b IH] using rev_ind; [rewrite app_nil_r; cbn; lia|].
  rewrite app_assoc, !be_val_snoc, IH, length_app. cbn [length].
  replace (Z.of_nat (length b + 1)) with (Z.succ (Z.of_nat (length b))) by lia.
  rewrite Z.pow_succ_r by lia. lia.
Qed.

Lemma chunk_limb b : length b = 8%nat -> is_limb (be_val b).
Proof. intros Hb. pose proof (be_val_range b) as Hr. by rewrite Hb in Hr. Qed.

Lemma four_chunks b : length b = 32%nat ->
  exists p q r s, b = (p ++ q ++ r ++ s)%list /\ chunks8 4 b = [p; q; r; s] /\
    length p = 8%nat /\ length q = 8%nat /\ length r = 8%nat /\ length s = 8%nat.
Proof.
  intros Hb. do 32 (destruct b as [|? b]; [done|]). destruct b; [|done].
  do 4 eexists. split; [|by cbn]. reflexivity.
Qed.

Lemma limbs_of_bytes b : length b = 32%nat ->
  wf {| limbs := map be_val (chunks8 4 b) |} /\ val {| limbs := map be_val (chunks8 4 b) |} = be_val b.
Proof.
  intros (p & q & r & s & -> & -> & Hp & Hq & Hr & Hs)%four_chunks. cbn [map].
  split; [by apply wf_of; apply chunk_limb|].
  rewrite val_of, !be_val_app, !length_app, Hq, Hr, Hs.
  change (256 ^ Z.of_nat 8) with B. change (256 ^ Z.of_nat (8 + 8)) with (B * B).
  change (256 ^ Z.of_nat (8 + (8 + 8))) with (B * B * B). lia.
Qed.

(** The bytes are the number's, in 32 places. *)
Lemma to_be_bytes_spec u : wf u -> to_be_bytes u = be_bytes 32 (val u).
Proof.
  intros (a & b & c & d & -> & Ha & Hb & Hc & Hd)%wf_limbs.
  unfold to_be_bytes. cbn [limbs map concat]. rewrite app_nil_r.
  match goal with |- ?bs = _ => assert (Hl : length bs = 32%nat) by (by rewrite !length_app, !length_be_bytes);
    assert (Hv : be_val bs = val {| limbs := [a; b; c; d] |}) end.
  { rewrite val_of, !be_val_app, !length_app, !length_be_bytes.
    change (256 ^ Z.of_nat 8) with B. change (256 ^ Z.of_nat (8 + 8)) with (B * B).
    change (256 ^ Z.of_nat (8 + (8 + 8))) with (B * B * B).
    rewrite !be_val_bytes_small by done. lia. }
  rewrite <-Hv, <-Hl. symmetry. apply be_bytes_val.
Qed.

(** ** Order *)

Lemma limbs_ltb_spec u v : wf u -> wf v -> limbs_ltb (limbs u) (limbs v) = (val u <? val v).
Proof.
  intros (a & b & c & d & -> & Ha & Hb & Hc & Hd)%wf_limbs
    (a' & b' & c' & d' & -> & Ha' & Hb' & Hc' & Hd')%wf_limbs. rewrite !val_of. cbn [limbs].
  assert (Hsnoc : forall x y p q, is_limb p -> is_limb q ->
    (x * B + p <? y * B + q) = if x =? y then p <? q else x <? y).
  { unfold is_limb. pose proof B_pos. intros x y p q Hp Hq.
    destruct (Z.eqb_spec x y) as [->|Hne].
    - destruct (Z.ltb_spec p q); [apply Z.ltb_lt | apply Z.ltb_ge]; lia.
    - destruct (Z.ltb_spec x y); [apply Z.ltb_lt | apply Z.ltb_ge]; nia. }
  assert (Heq : forall x y p q, is_limb p -> is_limb q ->
    (x * B + p =? y * B + q) = (x =? y) && (p =? q)).
  { unfold is_limb. pose proof B_pos. intros x y p q Hp Hq.
    destruct (Z.eqb_spec x y) as [->|Hne]; cbn [andb].
    - destruct (Z.eqb_spec p q); [apply Z.eqb_eq | apply Z.eqb_neq]; lia.
    - apply Z.eqb_neq. nia. }
  rewrite !Hsnoc, !Heq by done. cbn [limbs_ltb].
  destruct (a =? a') eqn:?, (b =? b') eqn:?, (c =? c') eqn:?, (d =? d') eqn:?; cbn [andb]; try done.
  all: reflect_bools; subst; by rewrite Z.ltb_irrefl.
Qed.

Lemma ge_spec u v : wf u -> wf v -> ge u v = (val v <=? val u).
Proof. intros. unfold ge. by rewrite limbs_ltb_spec, Z.ltb_antisym, negb_involutive. Qed.

Lemma gt_spec u v : wf u -> wf v -> gt u v = (val v <? val u).
Proof. intros. unfold gt. by rewrite limbs_ltb_spec. Qed.

(** ** Hexadecimal text *)

Lemma repeat_zero_facts n s :
  String.length (repeat_char "0"%char n +:+ s) = (n + String.length s)%nat /\
  string_all is_ascii_hexdigit (repeat_char "0"%char n +:+ s) = string_all is_ascii_hexdigit s /\
  hex_number 0 (repeat_char "0"%char n +:+ s) = hex_number 0 s.
Proof.
  rewrite length_app_str, string_all_app, hex_number_app.
  assert (Hz : String.length (repeat_char "0"%char n) = n /\
    string_all is_ascii_hexdigit (repeat_char "0"%char n) = true /\
    hex_number 0 (repeat_char "0"%char n) = 0) by (induction n as [|n (Hl & Ha & Hn)]; [done|]; cbn; by rewrite Hl, Ha).
  by destruct Hz as (-> & -> & ->).
Qed.

Lemma hex_decode_digits `{HexCodec} s b : hex_decode s = Some b -> string_all is_ascii_hexdigit s = true.
Proof.
  intros Hb%hex_decode_lower. pose proof (hex_encode_digits b) as Hd. rewrite Hb in Hd. revert Hd. clear.
  induction s as [|c s IH]; [done|]. unfold to_lowercase. cbn [string_map string_all].
  rewrite !andb_true_iff. intros [Hc Hs]. split; [|by apply IH].
  pose proof (ascii_forall (fun c => implb (is_ascii_hexdigit (char_lower c)) (is_ascii_hexdigit c)) eq_refl c) as Hall.
  cbv beta in Hall. by rewrite Hc in Hall.
Qed.

(** Hexadecimal text of at most 64 digits is read as the number it writes. *)
Lemma from_hex_spec `{HexCodec} s u : from_hex s = Some u <->
  trim s <> "" /\ (String.length (trim s) <= 64)%nat /\ string_all is_ascii_hexdigit (trim s) = true /\
  wf u /\ val u = hex_number 0 (trim s).
Proof.
  unfold from_hex. cbv zeta. generalize (trim s). clear s. intros s.
  destruct (String.eqb_spec s "") as [->|Hne]; cbn [orb]; [naive_solver|].
  destruct (64 <? String.length s)%nat eqn:El; reflect_bools; [split; [done|]; intros (_ & ? & _); lia|].
  destruct (repeat_zero_facts (64 - String.length s) s) as (Hl & Ha & Hn).
  destruct (string_all is_ascii_hexdigit s) eqn:Es.
  - destruct (hex_decode_number 32 (repeat_char "0"%char (64 - String.length s) +:+ s)) as (b & -> & Hlen & Hv);
      [rewrite Hl; lia | by rewrite Ha |]. cbn [mbind option_bind].
    destruct (limbs_of_bytes b Hlen) as [Hwf Hval]. rewrite Hv, Hn in Hval.
    split; [by intros [= <-] |]. intros (_ & _ & _ & Hu & He). f_equal. apply val_inj; [done | done | congruence].
  - destruct (hex_decode _) as [b|] eqn:Eb; cbn [mbind option_bind]; [|naive_solver].
    apply hex_decode_digits in Eb. congruence.
Qed.

(** ** Shifts *)

(** One round of [shl] without its test for a limb of zero, which changes nothing. *)
Lemma shl_step_zero self ls bs out k : length out = 4%nat -> 0 <= bs ->
  shl_step self ls bs out k =
  let val := limb (limbs self) k in
  let out := or_limb (Z.of_nat k - ls) (Z.shiftl val bs mod B) out in
  if 0 <? bs then or_limb (Z.of_nat k - ls - 1) (Z.shiftr val (64 - bs)) out else out.
Proof.
  intros Hout Hbs. unfold shl_step. destruct (Z.eqb_spec (limb (limbs self) k) 0) as [E|]; [|done].
  cbv zeta. rewrite E. rewrite Z.shiftl_0_l, Z.shiftr_0_l, Z.mod_0_l by (pose proof B_pos; lia).
  assert (Hor : forall i, or_limb i 0 out = out).
  { intros i. unfold or_limb. destruct (_ && _) eqn:Ei; [|done]. reflect_bools.
    rewrite Z.lor_0_r. apply list_insert_id. unfold limb.
    destruct (out !! Z.to_nat i) eqn:El; [done|]. apply lookup_ge_None in El. lia. }
  rewrite !Hor. by destruct (0 <? bs).
Qed.

Lemma lor_disjoint l h s : 0 <= s -> 0 <= h < 2 ^ s -> Z.lor (l * 2 ^ s) h = l * 2 ^ s + h.
Proof.
  intros Hs Hh.
  assert (Hz : Z.land (l * 2 ^ s) h = 0).
  { apply Z.bits_inj'. intros n Hn. rewrite Z.land_spec, Z.bits_0.
    destruct (Z.lt_ge_cases n s) as [Hlt|Hge].
    - by rewrite Z.mul_pow2_bits_low.
    - rewrite (proj2 (Z.testbit_false h n Hn)), andb_false_r; [done|].
      rewrite Z.div_small; [done|]. split; [lia|]. apply Z.lt_le_trans with (2 ^ s); [lia|].
      apply Z.pow_le_mono_r; lia. }
  rewrite <-Z.lxor_lor by done. symmetry. by apply Z.add_nocarry_lxor.
Qed.

(** The two halves of a shifted limb. *)
Lemma limb_halves a s : is_limb a -> 0 < s < 64 ->
  exists hi lo, Z.shiftr a (64 - s) = hi /\ Z.shiftl a s mod B = lo * 2 ^ s /\
    a * 2 ^ s = hi * B + lo * 2 ^ s /\ 0 <= hi < 2 ^ s /\ 0 <= lo * 2 ^ s <= B - 2 ^ s.
Proof.
  intros Ha Hs. set (Q := 2 ^ (64 - s)).
  assert (HB : B = Q * 2 ^ s) by (unfold Q; rewrite <-Z.pow_add_r by lia; change B with (2 ^ 64); f_equal; lia).
  assert (HQ : 0 < Q) by (apply Z.pow_pos_nonneg; lia).
  assert (HP : 0 < 2 ^ s) by (apply Z.pow_pos_nonneg; lia).
  exists (a / Q), (a mod Q). unfold is_limb in Ha.
  assert (Hmod : Z.shiftl a s mod B = a mod Q * 2 ^ s).
  { rewrite Z.shiftl_mul_pow2, HB by lia. by rewrite Z.mul_mod_distr_r by lia. }
  assert (Hdiv : a = a / Q * Q + a mod Q) by (rewrite (Z.div_mod a Q) at 1 by lia; lia).
  pose proof (Z.mod_pos_bound a Q HQ).
  split_and!; [by rewrite Z.shiftr_div_pow2 by lia | done | nia | by apply Z.div_pos; lia | | nia | nia].
  apply Z.div_lt_upper_bound; [done|]. lia.
Qed.

(** What one limb contributes. *)
Definition shl_or (self : U256) (ls bs : Z) (out : list Z) (k : nat) : list Z :=
  let val := limb (limbs self) k in
  let out := or_limb (Z.of_nat k - ls) (Z.shiftl val bs mod B) out in
  if 0 <? bs then or_limb (Z.of_nat k - ls - 1) (Z.shiftr val (64 - bs)) out else out.

Lemma length_or_limb i v out : length (or_limb i v out) = length out.
Proof. unfold or_limb. destruct (_ && _); [apply length_insert | done]. Qed.

Lemma shl_fold_or self ls bs ks : 0 <= bs -> forall out, length out = 4%nat ->
  fold_left (shl_step self ls bs) ks out = fold_left (shl_or self ls bs) ks out.
Proof.
  intros Hbs. induction ks as [|k ks IH]; intros out Hout; [done|]. cbn [fold_left].
  rewrite shl_step_zero by done. apply IH. unfold shl_or. cbv zeta.
  destruct (0 <? bs); by rewrite !length_or_limb.
Qed.

(** Where the halves of the limbs land, for each shift by whole limbs. *)
Lemma shl_shape (L H : Z -> Z) a b c d (q : Z) : 0 <= q < 4 ->
  fold_left (fun out k => or_limb (Z.of_nat k - q - 1) (H (limb [a; b; c; d] k))
                            (or_limb (Z.of_nat k - q) (L (limb [a; b; c; d] k)) out))
    (rev (seq 0 4)) [0; 0; 0; 0]
  = take 4 (drop (Z.to_nat q) [Z.lor (H b) (L a); Z.lor (H c) (L b); Z.lor (H d) (L c); L d; 0; 0; 0]).
Proof.
  intros Hq. assert (Hcase : q = 0 \/ q = 1 \/ q = 2 \/ q = 3) by lia.
  destruct Hcase as [-> | [-> | [-> | ->]]]; reflexivity.
Qed.

Lemma shl_words_shape (L : Z -> Z) a b c d (q : Z) : 0 <= q < 4 ->
  fold_left (fun out k => or_limb (Z.of_nat k - q) (L (limb [a; b; c; d] k)) out)
    (rev (seq 0 4)) [0; 0; 0; 0]
  = take 4 (drop (Z.to_nat q) [L a; L b; L c; L d; 0; 0; 0]).
Proof.
  intros Hq. assert (Hcase : q = 0 \/ q = 1 \/ q = 2 \/ q = 3) by lia.
  destruct Hcase as [-> | [-> | [-> | ->]]]; reflexivity.
Qed.

(** Moving up by whole limbs drops the most significant ones. *)
Lemma shift_limbs (q : Z) a b c d : 0 <= q < 4 ->
  is_limb a -> is_limb b -> is_limb c -> is_limb d ->
  let out := {| limbs := take 4 (drop (Z.to_nat q) [a; b; c; d; 0; 0; 0]) |} in
  wf out /\ val out = val {| limbs := [a; b; c; d] |} * B ^ q mod 2 ^ 256.
Proof.
  intros Hq Ha Hb Hc Hd. assert (H0 : is_limb 0) by done. rewrite !val_of, B4.
  assert (Hcase : q = 0 \/ q = 1 \/ q = 2 \/ q = 3) by lia.
  destruct Hcase as [-> | [-> | [-> | ->]]]; cbv zeta.
  all: match goal with |- context [take 4 (drop (Z.to_nat ?n) ?l)] =>
         let r := eval cbv in (Z.to_nat n) in change (Z.to_nat n) with r end; cbn [take drop].
  all: (split; [by apply wf_of|]); rewrite val_of.
  - rewrite Z.pow_0_r, Z.mul_1_r, Z.mod_small; [done|]. by repeat apply snoc_range.
  - apply Z.mod_unique with a; [left; by repeat apply snoc_range | ring].
  - apply Z.mod_unique with (a * B + b); [left; by repeat apply snoc_range | ring].
  - apply Z.mod_unique with ((a * B + b) * B + c); [left; by repeat apply snoc_range | ring].
Qed.

Lemma shl_spec u bits : wf u -> 0 <= bits ->
  wf (shl u bits) /\ val (shl u bits) = val u * 2 ^ bits mod 2 ^ 256.
Proof.
  intros Hu Hbits. unfold shl. pose proof (val_range u Hu).
  destruct (Z.eqb_spec bits 0) as [->|Hne]; [rewrite Z.mul_1_r, Z.mod_small by done; done|].
  destruct (256 <=? bits) eqn:E; reflect_bools.
  { split; [apply ZERO_wf|]. replace bits with (256 + (bits - 256)) by lia.
    rewrite Z.pow_add_r by lia. rewrite Z.mul_assoc, (Z.mul_comm (val u)), <-Z.mul_assoc, Z.mul_comm.
    by rewrite Z.mod_mul. }
  set (q := bits / 64). set (s := bits mod 64).
  assert (Hq : 0 <= q < 4) by (split; [apply Z.div_pos | apply Z.div_lt_upper_bound]; lia).
  assert (Hs : 0 <= s < 64) by (apply Z.mod_pos_bound; lia).
  assert (Hpow : 2 ^ bits = 2 ^ s * B ^ q).
  { change B with (2 ^ 64). rewrite <-Z.pow_mul_r, <-Z.pow_add_r by lia. f_equal.
    pose proof (Z.div_mod bits 64). lia. }
  rewrite shl_fold_or by (done || lia). rewrite Hpow, Z.mul_assoc. clear Hpow.
  apply wf_limbs in Hu as (a & b & c & d & -> & Ha & Hb & Hc & Hd).
  unfold shl_or. cbv zeta. cbn [limbs].
  destruct (Z.ltb_spec 0 s) as [Hpos|Hz].
  - rewrite (shl_shape (fun x => Z.shiftl x s mod B) (fun x => Z.shiftr x (64 - s))) by done.
    cbv beta.
    destruct (limb_halves a s Ha ltac:(lia)) as (ha & la & _ & -> & Ea & Hha & Hla).
    destruct (limb_halves b s Hb ltac:(lia)) as (hb & lb & -> & -> & Eb & Hhb & Hlb).
    destruct (limb_halves c s Hc ltac:(lia)) as (hc & lc & -> & -> & Ec & Hhc & Hlc).
    destruct (limb_halves d s Hd ltac:(lia)) as (hd & ld & -> & -> & Ed & Hhd & Hld).
    rewrite !(Z.lor_comm _ (_ * 2 ^ s)), !lor_disjoint by lia.
    assert (Hlimb : forall l h, 0 <= h < 2 ^ s -> 0 <= l * 2 ^ s <= B - 2 ^ s -> is_limb (l * 2 ^ s + h))
      by (unfold is_limb; lia).
    destruct (shift_limbs q (la * 2 ^ s + hb) (lb * 2 ^ s + hc) (lc * 2 ^ s + hd) (ld * 2 ^ s)) as [Hwf Hval];
      [done | by apply Hlimb.. | unfold is_limb; lia |].
    split; [done|]. rewrite Hval, !val_of.
    replace ((((a * B + b) * B + c) * B + d) * 2 ^ s)
      with (((a * 2 ^ s * B + b * 2 ^ s) * B + c * 2 ^ s) * B + d * 2 ^ s) by ring.
    rewrite Ea, Eb, Ec, Ed, B4.
    match goal with |- ?x * ?p mod _ = ?y * _ mod _ =>
      replace (y * p) with (x * p + ha * p * (B * B * B * B)) by ring end.
    symmetry. by apply Z.mod_add.
  - assert (s = 0) as -> by lia.
    rewrite (shl_words_shape (fun x => Z.shiftl x 0 mod B)) by done. cbv beta.
    rewrite !Z.shiftl_0_r, Z.mul_1_r, !(Z.mod_small _ B) by done. by apply shift_limbs.
Qed.
