(* ===== verification/Eip712.v ===== *)
(** * Typed data

    [crates/agentkeys-core/src/clear_signing/eip712.rs]: the type encoding with its
    dependencies, the hash of structures, and the digest a wallet signs.  A result of
    [None] is a recursion that ran out of fuel; none does. *)
From S2P Require Import Prelude RustStr StrFacts LocalStore DeviceCore Numerals Json U256.

Open Scope Z_scope.

Inductive Eip712Error :=
| MissingField (field : string)
| MissingDomainType
| UnknownPrimaryType (name : string)
| UnknownType (name : string)
| UnsupportedType (ty : string)
| FieldTypeMismatch (field expected got : string)
| IntegerOutOfRange (text ty : string)
| InvalidHex (field reason : string)
| ArrayLengthMismatch (field : string) (expected got : Z)
| CyclicType (name : string).

Record TypeField := { name : string; ty : string }.

Abbreviation Types := (gmap string (list TypeField)).

Record TypedData := { domain : Json; types : Types; primary_type : string; message : Json }.

Record Eip712Digests := {
  domain_separator : bytes; primary_type_hash : bytes; message_hash : bytes; final_digest : bytes }.

(** A fallible computation with fuel. *)
Abbreviation Run A := (option (result Eip712Error A)).

Notation "'let!' p := r 'in' k" :=
  (match r with Some (Ok p) => k | Some (Err err) => Some (Err err) | None => None end)
  (at level 10, p strict pattern, r at level 99, k at level 200, only parsing) : terrier_scope.

(** A loop over [l] whose body ends in [?]. *)
Fixpoint run_fold {S A} (f : S -> A -> Run S) (l : list A) (st : S) : Run S :=
  match l with
  | [] => Some (Ok st)
  | x :: l => let! st := f st x in run_fold f l st
  end.

Fixpoint run_map {A B} (f : A -> Run B) (l : list A) : Run (list B) :=
  match l with
  | [] => Some (Ok [])
  | x :: l => let! y := f x in let! ys := run_map f l in Some (Ok (y :: ys))
  end.

(** ** Type strings *)

(** [s.rfind(c)], as the text before it and after it. *)
Fixpoint rsplit_once (c : Ascii.ascii) (s : string) : option (string * string) :=
  match s with
  | EmptyString => None
  | String d s =>
      match rsplit_once c s with
      | Some (l, r) => Some (String d l, r)
      | None => if Ascii.eqb d c then Some (EmptyString, s) else None
      end
  end.

Definition strip_array_suffix (ty : string) : string :=
  match strip_suffix_char "]"%char ty with
  | Some stripped =>
      match rsplit_once "["%char stripped with Some (before, _) => before | None => ty end
  | None => ty
  end.

Inductive ArrayKind := Dynamic | Fixed (n : Z).

Record ArrayParse := { element_ty : string; kind : ArrayKind }.

Definition ok {E A} (r : result E A) : option A := match r with Ok a => Some a | Err _ => None end.

Definition parse_array_outer (ty : string) : option ArrayParse :=
  stripped ← strip_suffix_char "]"%char ty;
  '(before, inside) ← rsplit_once "["%char stripped;
  kind ← (if String.eqb inside "" then Some Dynamic else n ← ok (u64_dec inside); Some (Fixed n));
  Some {| element_ty := before; kind := kind |}.

Definition parse_int_bits (suffix : string) : option Z :=
  if String.eqb suffix "" then Some 256
  else
    n ← parse_u32 suffix;
    if (n =? 0) || (256 <? n) || negb (n mod 8 =? 0) then None else Some n.

(** ** The type encoding *)

Definition encode_one_type (types : Types) (type_name : string) : result Eip712Error string :=
  let? fields := ok_or (UnknownType type_name) (types !! type_name) in
  Ok (type_name +:+ "(" +:+ join "," (map (fun f => ty f +:+ " " +:+ name f) fields) +:+ ")").

Fixpoint collect_dependencies (fuel : nat) (types : Types) (type_name : string)
    (out visiting : gset string) : Run (gset string * gset string) :=
  match fuel with
  | O => None
  | S fuel =>
      if bool_decide (type_name ∈ visiting) then Some (Err (CyclicType type_name))
      else if bool_decide (type_name ∈ out) then Some (Ok (out, visiting))
      else
        let visiting := {[type_name]} ∪ visiting in
        let! fields := Some (ok_or (UnknownType type_name) (types !! type_name)) in
        let! st := run_fold (fun st f =>
          let base := strip_array_suffix (ty f) in
          if is_some (types !! base) then collect_dependencies fuel types base st.1 st.2
          else Some (Ok st)) fields (out, visiting) in
        Some (Ok ({[type_name]} ∪ st.1, st.2 ∖ {[type_name]}))
  end.

(** The names of a set in the order of a [BTreeSet]. *)
Definition in_name_order (names : gset string) : list string := merge_sort String.le (elements names).

Fixpoint concat_str (l : list string) : string :=
  match l with [] => "" | s :: l => s +:+ concat_str l end.

Definition encode_type (types : Types) (primary : string) : Run string :=
  let! st := collect_dependencies (S (size types)) types primary ∅ ∅ in
  let deps := st.1 ∖ {[primary]} in
  Some (
    let? head := encode_one_type types primary in
    let? tail := try_map (encode_one_type types) (in_name_order deps) in
    Ok (head +:+ concat_str tail)).

Definition type_hash `{Crypto} (types : Types) (type_name : string) : Run bytes :=
  let! encoded := encode_type types type_name in
  Some (Ok (keccak256 (as_bytes encoded))).

(** ** Values *)

Definition value_kind (v : Json) : string :=
  match v with
  | JNull => "null" | JBool _ => "bool" | JNumber _ => "number"
  | JString _ => "string" | JArray _ => "array" | JObject _ => "object"
  end.

Definition as_object (v : Json) : option (list (string * Json)) :=
  match v with JObject l => Some l | _ => None end.

Definition as_i64 (v : Json) : option Z :=
  match v with
  | JNumber (PosInt n) => if n <=? i64_max then Some n else None
  | JNumber (NegInt n) => Some n
  | _ => None
  end.

Definition number_or_string (value : Json) (field_name ty : string) : result Eip712Error string :=
  match as_str value with
  | Some s => Ok s
  | None =>
      match as_u64 value with
      | Some n => Ok (dec n)
      | None =>
          match as_i64 value with
          | Some n => Ok (dec_i64 n)
          | None => Err (FieldTypeMismatch field_name ty (value_kind value))
          end
      end
  end.

Definition strip_0x (s : string) : option string :=
  match strip_prefix "0x" s with Some h => Some h | None => strip_prefix "0X" s end.

Section Primitives.
Context `{Crypto} `{HexCodec}.
(** The [hex] crate's text for an input it refuses. *)
Variable hex_error : string -> string.

Definition parse_uint_string (s : string) : option U256 :=
  let s := trim s in
  match strip_0x s with Some hex => from_hex hex | None => from_dec s end.

Definition parse_hex_field (value : Json) (field_name : string) : result Eip712Error bytes :=
  let? s := ok_or (FieldTypeMismatch field_name "0x-prefixed hex string" (value_kind value)) (as_str value) in
  let stripped := default s (strip_0x s) in
  ok_or (InvalidHex field_name (hex_error stripped)) (hex_decode stripped).

Definition encode_uint (value : Json) (field_name ty : string) (bits : Z) : result Eip712Error bytes :=
  let? s := number_or_string value field_name ty in
  let? big := ok_or (IntegerOutOfRange s ty) (parse_uint_string s) in
  guard! negb ((bits <? 256) && ge big (shl ONE bits)) else IntegerOutOfRange s ty ;;
  Ok (to_be_bytes big).

Definition encode_int (value : Json) (field_name ty : string) (bits : Z) : result Eip712Error bytes :=
  let? s := number_or_string value field_name ty in
  let '(neg, magnitude) :=
    match strip_prefix "-" s with Some rest => (true, rest) | None => (false, s) end in
  let? mag := ok_or (IntegerOutOfRange s ty) (parse_uint_string magnitude) in
  let pos_max := shl ONE (bits - 1) in
  guard! negb (if neg then gt mag pos_max else ge mag pos_max) else IntegerOutOfRange s ty ;;
  let encoded := if neg then neg_twos_complement mag else mag in
  Ok (to_be_bytes encoded).

(** The value of a type that is neither an array nor a structure. *)
Definition encode_primitive (ty : string) (value : Json) (field_name : string) : result Eip712Error bytes :=
  if String.eqb ty "bytes" then
    let? b := parse_hex_field value field_name in Ok (keccak256 b)
  else if String.eqb ty "string" then
    let? s := ok_or (FieldTypeMismatch field_name "string" (value_kind value)) (as_str value) in
    Ok (keccak256 (as_bytes s))
  else if String.eqb ty "bool" then
    let? b := ok_or (FieldTypeMismatch field_name "bool" (value_kind value)) (as_bool value) in
    Ok (zeros 31 ++ [if b then Byte.x01 else Byte.x00])%list
  else if String.eqb ty "address" then
    let? b := parse_hex_field value field_name in
    guard! Nat.eqb (length b) 20
      else FieldTypeMismatch field_name "address (20 bytes)" (dec (Z.of_nat (length b)) +:+ " bytes") ;;
    Ok (zeros 12 ++ b)%list
  else match strip_prefix "uint" ty with
  | Some suffix =>
      let? bits := ok_or (UnsupportedType ty) (parse_int_bits suffix) in
      encode_uint value field_name ty bits
  | None =>
  match strip_prefix "int" ty with
  | Some suffix =>
      let? bits := ok_or (UnsupportedType ty) (parse_int_bits suffix) in
      encode_int value field_name ty bits
  | None =>
  match strip_prefix "bytes" ty with
  | Some suffix =>
      let? n := map_err (fun _ => UnsupportedType ty) (u64_dec suffix) in
      guard! negb ((n =? 0) || (32 <? n)) else UnsupportedType ty ;;
      let? b := parse_hex_field value field_name in
      guard! Z.of_nat (length b) =? n
        else FieldTypeMismatch field_name ("bytes" +:+ dec n) (dec (Z.of_nat (length b)) +:+ " bytes") ;;
      Ok (b ++ zeros (32 - length b))%list
  | None => Err (UnsupportedType ty)
  end end end.

(** [hash_struct], over the encoder of the fields. *)
Definition hash_struct_with (encode_field : string -> Json -> string -> Run bytes)
    (types : Types) (type_name : string) (value : Json) : Run bytes :=
  let! th := type_hash types type_name in
  let! obj := Some (ok_or (FieldTypeMismatch type_name "object" (value_kind value)) (as_object value)) in
  let! fields := Some (ok_or (UnknownType type_name) (types !! type_name)) in
  let! encoded := run_map (fun field =>
    let raw := default JNull (obj_get (name field) obj) in
    encode_field (ty field) raw (name field)) fields in
  Some (Ok (keccak256 (th ++ concat encoded)%list)).

Fixpoint encode_data_for_field (fuel : nat) (types : Types) (ty : string) (value : Json)
    (field_name : string) : Run bytes :=
  match fuel with
  | O => None
  | S fuel =>
      match parse_array_outer ty with
      | Some inner_ty =>
          let! arr := Some (ok_or (FieldTypeMismatch field_name ty (value_kind value)) (as_array value)) in
          let! _ := Some (match kind inner_ty with
            | Fixed n => guard! Z.of_nat (length arr) =? n
                           else ArrayLengthMismatch field_name n (Z.of_nat (length arr)) ;; Ok ()
            | Dynamic => Ok ()
            end) in
          let! words := run_map (fun '(i, item) =>
            let sub_field := field_name +:+ "[" +:+ dec (Z.of_nat i) +:+ "]" in
            encode_data_for_field fuel types (element_ty inner_ty) item sub_field)
            (combine (seq 0 (length arr)) arr) in
          Some (Ok (keccak256 (concat words)))
      | None =>
          if is_some (types !! ty)
          then hash_struct_with (encode_data_for_field fuel types) types ty value
          else Some (encode_primitive ty value field_name)
      end
  end.

(** How deep arrays and objects nest. *)
Fixpoint height (v : Json) : nat :=
  match v with
  | JArray items => S (foldr (fun v => Nat.max (height v)) 0%nat items)
  | JObject entries => S (foldr (fun e => Nat.max (height e.2)) 0%nat entries)
  | _ => O
  end.

Definition hash_struct (types : Types) (type_name : string) (value : Json) : Run bytes :=
  hash_struct_with (encode_data_for_field (height value) types) types type_name value.

Definition EIP712Domain : string := "EIP712Domain".

Definition compute_digests (td : TypedData) : Run Eip712Digests :=
  if negb (is_some (types td !! EIP712Domain)) then Some (Err MissingDomainType)
  else if negb (is_some (types td !! primary_type td)) then Some (Err (UnknownPrimaryType (primary_type td)))
  else
    let! domain_separator := hash_struct (types td) EIP712Domain (domain td) in
    let! primary_type_hash := type_hash (types td) (primary_type td) in
    let! message_hash := hash_struct (types td) (primary_type td) (message td) in
    let final_digest := keccak256 ([Byte.x19; Byte.x01] ++ domain_separator ++ message_hash)%list in
    Some (Ok {| domain_separator := domain_separator; primary_type_hash := primary_type_hash;
                message_hash := message_hash; final_digest := final_digest |}).
End Primitives.

(** ** Which structure refers to which *)

Section References.
Variable types : Types.

(** A field of [a] has the declared type [b], up to one array suffix. *)
Definition refers (a b : string) : Prop :=
  exists fields f, types !! a = Some fields /\ f ∈ fields /\
    strip_array_suffix (ty f) = b /\ is_Some (types !! b).

(** A set that holds what its members refer to, and no cycle, apart from [visiting]. *)
Record Explored (out visiting : gset string) : Prop := {
  explored_closed : forall a b, a ∈ out -> refers a b -> b ∈ out;
  explored_acyclic : forall a, a ∈ out -> ~ tc refers a a;
  explored_apart : out ## visiting;
}.

Lemma closed_rtc out visiting a b : Explored out visiting -> a ∈ out -> rtc refers a b -> b ∈ out.
Proof. intros He Ha Hr. induction Hr as [|a b c Hab _ IH]; [done|]. apply IH. by eapply explored_closed. Qed.

Definition on_cycle (n : string) : Prop := tc refers n n.

(** What a call of [collect_dependencies] comes to. *)
Definition collected (type_name : string) (out visiting : gset string)
    (r : result Eip712Error (gset string * gset string)) : Prop :=
  match r with
  | Ok (out', visiting') =>
      visiting' = visiting /\ Explored out' visiting /\ out ⊆ out' /\ type_name ∈ out' /\
      forall x, x ∈ out' -> x ∈ out \/ rtc refers type_name x
  | Err e =>
      types !! type_name = None /\ e = UnknownType type_name \/
      exists n, e = CyclicType n /\ rtc refers type_name n /\ on_cycle n
  end.

Definition fields_collected (type_name : string) (fs : list TypeField) (out visiting : gset string)
    (r : result Eip712Error (gset string * gset string)) : Prop :=
  match r with
  | Ok (out', visiting') =>
      visiting' = visiting /\ Explored out' visiting /\ out ⊆ out' /\
      (forall f, f ∈ fs -> is_Some (types !! strip_array_suffix (ty f)) -> strip_array_suffix (ty f) ∈ out') /\
      forall x, x ∈ out' -> x ∈ out \/ tc refers type_name x
  | Err e => exists n, e = CyclicType n /\ rtc refers type_name n /\ on_cycle n
  end.

Definition collects (fuel : nat) : Prop := forall type_name out visiting,
  (size (dom types ∖ visiting) < fuel)%nat -> Explored out visiting ->
  (forall v, v ∈ visiting -> tc refers v type_name) ->
  exists r, collect_dependencies fuel types type_name out visiting = Some r /\
    collected type_name out visiting r.

Lemma fields_collect fuel type_name fields fs : collects fuel ->
  types !! type_name = Some fields -> (forall f, f ∈ fs -> f ∈ fields) ->
  forall out visiting, (size (dom types ∖ visiting) < fuel)%nat -> Explored out visiting ->
  (forall v, v ∈ visiting -> rtc refers v type_name) ->
  exists r, run_fold (fun st f =>
      if is_some (types !! strip_array_suffix (ty f))
      then collect_dependencies fuel types (strip_array_suffix (ty f)) st.1 st.2
      else Some (Ok st)) fs (out, visiting) = Some r /\
    fields_collected type_name fs out visiting r.
Proof.
  intros Hfuel Hfields. induction fs as [|f fs IH]; intros Hfs out visiting Hsize He Hanc; cbn [run_fold].
  { eexists. split; [done|]. split_and!; [done | done | done | set_solver | set_solver]. }
  set (base := strip_array_suffix (ty f)).
  assert (Hrest : forall f, f ∈ fs -> f ∈ fields) by set_solver.
  destruct (types !! base) as [bfields|] eqn:Eb; cbn [is_some fst snd].
  - assert (Href : refers type_name base) by (exists fields, f; split_and!; [done | set_solver | done | by eexists]).
    destruct (Hfuel base out visiting) as (r & -> & Hr); [done | done | |].
    { intros v Hv. eapply tc_rtc_l; [by apply Hanc | by apply tc_once]. }
    destruct r as [[out1 vis1]|e]; cbn [collected] in Hr.
    + destruct Hr as (-> & He1 & Hsub & Hin & Hnew).
      destruct (IH Hrest out1 visiting Hsize He1 Hanc) as (r & -> & Hr). exists r. split; [done|].
      destruct r as [[out2 vis2]|e]; [|done]. destruct Hr as (-> & He2 & Hsub2 & Hall & Hnew2).
      split_and!; [done | done | set_solver | |].
      * intros g [->|Hg]%elem_of_cons Hd; [set_solver | by apply Hall].
      * intros x [Hx|Hx]%Hnew2; [|by right]. destruct (Hnew x Hx) as [|Hr]; [by left|].
        right. eapply tc_rtc_r; [by apply tc_once | done].
    + exists (Err e). split; [done|]. destruct Hr as [[Hn _]|(n & -> & Hn & Hc)]; [congruence|].
      exists n. split_and!; [done | by eapply rtc_l | done].
  - cbn [is_some]. destruct (IH Hrest out visiting Hsize He Hanc) as (r & -> & Hr). exists r. split; [done|].
    destruct r as [[out2 vis2]|e]; [|done]. destruct Hr as (-> & He2 & Hsub2 & Hall & Hnew2).
    split_and!; [done..| |done]. intros g [->|Hg]%elem_of_cons Hd; [|by apply Hall].
    fold base in Hd. rewrite Eb in Hd. by destruct Hd.
Qed.

Lemma collect_spec fuel : collects fuel.
Proof.
  induction fuel as [|fuel IH]; intros type_name out visiting Hsize He Hanc; [lia|].
  cbn [collect_dependencies].
  destruct (bool_decide_reflect (type_name ∈ visiting)) as [Hv|Hv].
  { eexists. split; [done|]. right. exists type_name. split_and!; [done | done | by apply Hanc]. }
  destruct (bool_decide_reflect (type_name ∈ out)) as [Ho|Ho].
  { eexists. split; [done|]. split_and!; [done..|]. by left. }
  cbv zeta. destruct (types !! type_name) as [fields|] eqn:Ef; cbn [ok_or].
  2: { eexists. split; [done|]. by left. }
  assert (Hdom : type_name ∈ dom types) by (apply elem_of_dom; by eexists).
  destruct (fields_collect fuel type_name fields fields IH Ef ltac:(done) out ({[type_name]} ∪ visiting))
    as (r & -> & Hr).
  - enough (size (dom types ∖ ({[type_name]} ∪ visiting)) < size (dom types ∖ visiting))%nat by lia.
    apply subset_size. set_solver.
  - destruct He as [Hcl Hac Hap]. split; [done | done | set_solver].
  - intros v [->%elem_of_singleton|Hw]%elem_of_union; [done|]. by apply tc_rtc, Hanc.
  - destruct r as [[out1 vis1]|e]; cbn [fields_collected] in Hr.
    2: { exists (Err e). split; [done|]. by right. }
    destruct Hr as (-> & [Hcl Hac Hap] & Hsub & Hall & Hnew). eexists. split; [done|]. cbn [fst snd].
    assert (Hsucc : forall b, refers type_name b -> b ∈ out1).
    { intros b (fields' & f & Ef' & Hf & Hb & Hd). rewrite Ef in Ef'. injection Ef' as <-. subst b. by apply Hall. }
    split_and!; [set_solver | | set_solver | set_solver |].
    + split.
      * intros a b [->%elem_of_singleton|Ha]%elem_of_union Hr; [set_solver|]. apply elem_of_union. right. eauto.
      * intros a [->%elem_of_singleton|Ha]%elem_of_union Hc; [|by eapply Hac].
        assert (Hback : exists b, refers type_name b /\ rtc refers b type_name).
        { inversion Hc as [x y Hxy|x y z Hxy Hyz]; subst; [by exists type_name | exists y; split; [done | by apply tc_rtc]]. }
        destruct Hback as (b & Hb & Hr).
        assert (type_name ∈ out1); [|set_solver].
        eapply (closed_rtc out1); [by split | by apply Hsucc | done].
      * set_solver.
    + intros x [->%elem_of_singleton|Hx]%elem_of_union; [by right|].
      destruct (Hnew x Hx) as [|Ht]; [by left|]. right. by apply tc_rtc.
Qed.
End References.

(** ** Facts on type strings *)

Lemma strip_suffix_char_spec c s r : strip_suffix_char c s = Some r <-> s = r +:+ String c "".
Proof.
  revert r. induction s as [|a s IH]; intros r; [split; [done|]; by destruct r|].
  cbn [strip_suffix_char]. destruct s as [|b s].
  - destruct (Ascii.eqb_spec a c) as [->|Hac].
    + split; [by intros [= <-]|]. intros E. destruct r as [|x [|y r]]; [done | done | done].
    + split; [done|]. intros E. destruct r as [|x [|y r]]; [by injection E | done | done].
  - split.
    + intros (r' & Hr & ->)%fmap_Some. by rewrite (proj1 (IH r') Hr).
    + intros E. destruct r as [|x r]; [done|]. injection E as -> E.
      by rewrite (proj2 (IH r) E).
Qed.

Lemma rsplit_once_spec c s l r : rsplit_once c s = Some (l, r) <->
  s = l +:+ String c r /\ string_has c r = false.
Proof.
  revert l r. induction s as [|d s IH]; intros l r; cbn [rsplit_once].
  { split; [done|]. intros [E _]. by destruct l. }
  destruct (rsplit_once c s) as [[l' r']|] eqn:E.
  - split.
    + intros [= <- <-]. destruct (proj1 (IH l' r') eq_refl) as [-> Hr]. done.
    + intros [Hs Hr]. destruct (proj1 (IH l' r') eq_refl) as [-> Hr'].
      destruct (split_last_inj c (String d l') l r' r) as [<- <-]; done.
  - assert (Hno : string_has c s = false).
    { clear IH. induction s as [|x s IHs]; [done|]. cbn [rsplit_once] in E.
      destruct (rsplit_once c s) as [[??]|]; [done|]. destruct (Ascii.eqb_spec x c) as [|Hne]; [done|].
      rewrite string_has_cons, IHs, orb_false_r by done. apply Ascii.eqb_neq. congruence. }
    destruct (Ascii.eqb_spec d c) as [->|Hdc].
    + split; [by intros [= <- <-]|]. intros [Hs Hr].
      destruct (split_last_inj c "" l s r) as [<- <-]; done.
    + split; [done|]. intros [Hs Hr]. destruct l as [|x l]; [by injection Hs|].
      injection Hs as -> ->. by rewrite string_has_app, string_has_cons, Ascii.eqb_refl, orb_true_r in Hno.
Qed.

(** The name in front of the array suffixes. *)
Definition struct_name (ty : string) : string :=
  match split_once "["%char ty with Some (id, _) => id | None => ty end.

(** At most one array suffix. *)
Definition flat_type (ty : string) : bool :=
  match split_once "["%char ty with
  | Some (_, rest) => negb (string_has "["%char rest) && ends_with_char "]"%char rest
  | None => true
  end.

Lemma flat_base t : flat_type t = true -> strip_array_suffix t = struct_name t.
Proof.
  unfold flat_type, struct_name, strip_array_suffix.
  destruct (split_once "["%char t) as [[id rest]|] eqn:E.
  - apply split_once_spec in E as [-> Hid]. intros H. reflect_bools.
    unfold ends_with_char in *. destruct (strip_suffix_char "]"%char rest) as [r|] eqn:Er; [|done].
    apply strip_suffix_char_spec in Er as ->.
    rewrite (proj2 (strip_suffix_char_spec _ _ (id +:+ String "[" r))) by (by rewrite <-app_assoc_str).
    rewrite (proj2 (rsplit_once_spec _ _ id r)); [done|]. split; [done|].
    rewrite string_has_app in *. by reflect_bools.
  - intros _. destruct (strip_suffix_char "]"%char t) as [r|] eqn:Er; [|done].
    apply strip_suffix_char_spec in Er as ->.
    destruct (rsplit_once "["%char r) as [[before after]|] eqn:Es; [|done].
    apply rsplit_once_spec in Es as [-> _]. apply split_once_none in E.
    by rewrite !string_has_app, string_has_cons, Ascii.eqb_refl, orb_true_r in E.
Qed.

(** ** The type encoding of the standard *)

Section Canonical.
Variable types : Types.

(** A field of [a] is a [b] or an array of them. *)
Definition mentions (a b : string) : Prop :=
  exists fields f, types !! a = Some fields /\ f ∈ fields /\
    struct_name (ty f) = b /\ is_Some (types !! b).

Definition flat_types : Prop := forall a fields f,
  types !! a = Some fields -> f ∈ fields -> flat_type (ty f) = true.

Definition type_text (n : string) : string :=
  n +:+ "(" +:+ join "," (map (fun f => ty f +:+ " " +:+ name f) (default [] (types !! n))) +:+ ")".

(** The type itself, then the structures it mentions, at any depth, in the order of
    their names. *)
Definition canonical_type (primary text : string) : Prop :=
  exists deps, ascending deps /\
    (forall n, n ∈ deps <-> n <> primary /\ rtc mentions primary n) /\
    text = type_text primary +:+ concat_str (map type_text deps).

Lemma refers_mentions : flat_types -> forall a b, refers types a b <-> mentions a b.
Proof.
  intros Hflat a b. split; intros (fields & f & Ha & Hf & Hb & Hd); exists fields, f; split_and!; try done.
  - rewrite <-flat_base; [done|]. by eapply Hflat.
  - rewrite flat_base; [done|]. by eapply Hflat.
Qed.

Lemma encode_one_type_text n : is_Some (types !! n) -> encode_one_type types n = Ok (type_text n).
Proof. intros [fields Hn]. unfold encode_one_type, type_text. by rewrite Hn. Qed.

Lemma rtc_declared a b : is_Some (types !! a) -> rtc (refers types) a b -> is_Some (types !! b).
Proof. intros Ha Hr. induction Hr as [|a b c (fs & f & _ & _ & _ & Hb) _ IH]; [done | by apply IH]. Qed.

Lemma explored_empty : Explored types ∅ ∅.
Proof. split; [set_solver..]. Qed.

Lemma collect_top p : exists r, collect_dependencies (S (size types)) types p ∅ ∅ = Some r /\
  collected types p ∅ ∅ r.
Proof.
  apply collect_spec; [|apply explored_empty | set_solver].
  rewrite difference_empty_L, size_dom. lia.
Qed.

(** The encoding is there exactly where no cycle is in reach. *)
Lemma encode_type_cases p :
  (exists deps, encode_type types p = Some (Ok (type_text p +:+ concat_str (map type_text deps))) /\
     ascending deps /\ (forall n, n ∈ deps <-> n <> p /\ rtc (refers types) p n) /\
     is_Some (types !! p) /\ forall n, rtc (refers types) p n -> ~ on_cycle types n) \/
  (types !! p = None /\ encode_type types p = Some (Err (UnknownType p))) \/
  (exists n, encode_type types p = Some (Err (CyclicType n)) /\ rtc (refers types) p n /\ on_cycle types n).
Proof.
  unfold encode_type. destruct (collect_top p) as (r & E & Hr). rewrite E.
  destruct r as [[out vis]|e].
  2: { destruct Hr as [[Hn ->]|(n & -> & Hn)]; [by right; left | right; right; by exists n]. }
  destruct Hr as (-> & Hex & _ & Hp & Hnew). cbn [fst]. left.
  assert (Hreach : forall n, n ∈ out <-> rtc (refers types) p n).
  { intros n. split; [intros [?|]%Hnew; [set_solver | done]|].
    intros Hr. by eapply closed_rtc. }
  assert (Hknown : is_Some (types !! p)).
  { cbn [collect_dependencies] in E. destruct (types !! p) as [fields|]; [by eexists|].
    cbn [ok_or] in E. repeat case_bool_decide; try set_solver; done. }
  set (deps := in_name_order (out ∖ {[p]})).
  assert (Hin : forall n, n ∈ deps <-> n <> p /\ rtc (refers types) p n).
  { intros n. unfold deps, in_name_order. rewrite merge_sort_Permutation, elem_of_elements, <-Hreach.
    set_solver. }
  exists deps. split_and!; [| | done | done |].
  - rewrite (encode_one_type_text p Hknown). rewrite (proj2 (try_map_ok _ deps (map type_text deps))); [done|].
    apply Forall2_fmap_r, Forall_Forall2_diag, Forall_forall.
    intros n [_ Hn]%Hin. apply encode_one_type_text. by eapply rtc_declared.
  - apply ascending_sort, NoDup_elements.
  - intros n Hn. eapply explored_acyclic; [done|]. by apply Hreach.
Qed.
End Canonical.

Lemma tc_mono {A} (R S : relation A) : (forall x y, R x y -> S x y) -> forall x y, tc R x y -> tc S x y.
Proof. intros Hsub x y Hr. induction Hr as [x y Hxy|x y z Hxy _ IH]; [by apply tc_once, Hsub | eapply tc_l; eauto]. Qed.

(** The text whose hash identifies a type is the one of EIP-712, as long as no
    field is an array of arrays: the type, then every structure it mentions at any depth,
    once, in the order of the names.  It is computed exactly for a declared type from
    which no cycle can be reached, and it is computed at all. *)
Theorem encode_type_canonical (types : Types) (p : string) (Hflat : flat_types types) :
  exists r, encode_type types p = Some r /\
  forall text, r = Ok text <->
    is_Some (types !! p) /\ (forall n, rtc (mentions types) p n -> ~ tc (mentions types) n n) /\
    canonical_type types p text.
Proof.
  pose proof (refers_mentions types Hflat) as Href.
  assert (Hr : forall a b, rtc (refers types) a b <-> rtc (mentions types) a b)
    by (intros a b; split; apply rtc_subrel; intros x y; apply Href).
  assert (Ht : forall a b, tc (refers types) a b <-> tc (mentions types) a b)
    by (intros a b; split; apply tc_mono; intros x y; apply Href).
  destruct (encode_type_cases types p) as [(deps & -> & Hasc & Hin & Hp & Hac)|[[Hn ->]|(n & -> & Hn & Hc)]];
    eexists; (split; [done|]); intros text; split.
  - intros [= <-]. split_and!; [done | intros n Hrn; rewrite <-Ht; apply Hac; by apply Hr |].
    exists deps. split_and!; [done | intros n; by rewrite Hin, Hr | done].
  - intros (_ & _ & deps' & Hasc' & Hin' & ->). do 4 f_equal.
    apply ascending_unique; [done | done |]. intros n. by rewrite Hin, Hin', Hr.
  - done.
  - intros [[? Hd] _]. congruence.
  - done.
  - intros (_ & Hac & _). destruct (Hac n); [by apply Hr | by apply Ht].
Qed.

(** ** Fuel *)

Lemma run_map_total {A B} (f : A -> Run B) l :
  (forall x, x ∈ l -> is_Some (f x)) -> is_Some (run_map f l).
Proof.
  induction l as [|x l IH]; intros Hf; cbn [run_map]; [by eexists|].
  destruct (Hf x ltac:(set_solver)) as [[y|e] ->]; [|by eexists].
  destruct IH as [[ys|e] ->]; [set_solver | by eexists..].
Qed.

Lemma encode_type_total (types : Types) p : is_Some (encode_type types p).
Proof. destruct (encode_type_cases types p) as [(? & -> & _)|[[_ ->]|(? & -> & _)]]; by eexists. Qed.

Lemma height_item items v : v ∈ items -> (height v < height (JArray items))%nat.
Proof.
  cbn [height]. induction items as [|w items IH]; [set_solver|]. cbn [foldr].
  intros [->|Hv]%elem_of_cons; [lia|]. specialize (IH Hv). lia.
Qed.

Lemma height_entry k v entries : obj_get k entries = Some v -> (height v < height (JObject entries))%nat.
Proof.
  cbn [height]. induction entries as [|[k' w] entries IH]; [done|]. cbn [obj_get foldr snd].
  destruct (String.eqb k k'); [intros [= ->]; lia|]. intros Hv. specialize (IH Hv). lia.
Qed.

Lemma height_field k obj : (height (default JNull (obj_get k obj)) < height (JObject obj))%nat.
Proof.
  destruct (obj_get k obj) as [v|] eqn:E; cbn [from_option id]; [by eapply height_entry | cbn [height]; lia].
Qed.

Ltac run_map_ends :=
  match goal with |- context [run_map ?f ?l] =>
    let Hm := fresh "Hm" in
    assert (Hm : is_Some (run_map f l));
      [apply run_map_total | by destruct Hm as [[?|?] ->]; eexists]
  end.

Section Totality.
Context `{Crypto} `{HexCodec}.
Variable hex_error : string -> string.

Lemma hash_struct_with_total encode (types : Types) type_name value :
  (forall ty k obj field, value = JObject obj -> is_Some (encode ty (default JNull (obj_get k obj)) field)) ->
  is_Some (hash_struct_with encode types type_name value).
Proof.
  intros Henc. unfold hash_struct_with, type_hash.
  destruct (encode_type_total types type_name) as [[text|e] ->]; [|by eexists].
  destruct value as [| | | | |obj]; cbn [as_object ok_or]; try by eexists.
  destruct (types !! type_name) as [fields|]; cbn [ok_or]; [|by eexists].
  run_map_ends. intros f _. by apply Henc.
Qed.

Lemma encode_field_total fuel : forall (types : Types) ty value field, (height value < fuel)%nat ->
  is_Some (encode_data_for_field hex_error fuel types ty value field).
Proof.
  induction fuel as [|fuel IH]; intros types ty value field Hf; [lia|]. cbn [encode_data_for_field].
  destruct (parse_array_outer ty) as [p|].
  - destruct value as [| | | |items|]; cbn [as_array ok_or]; try by eexists.
    destruct (kind p) as [|n]; [|destruct (Z.of_nat (length items) =? n); [|by eexists]].
    all: run_map_ends; intros [i item] Hi; apply IH; pose proof (height_item items item) as Hh;
      apply list_elem_of_In, in_combine_r, list_elem_of_In in Hi; specialize (Hh Hi); lia.
  - destruct (is_some (types !! ty)); [|by eexists].
    apply hash_struct_with_total. intros ty' k obj field' ->. apply IH.
    pose proof (height_field k obj). lia.
Qed.

(** Hashing typed data always ends: whatever the types, the cycles among them
    included, and whatever the values. *)
Theorem compute_digests_total (td : TypedData) : exists r, compute_digests hex_error td = Some r.
Proof.
  assert (Hs : forall n v, is_Some (hash_struct hex_error (types td) n v)).
  { intros n v. apply hash_struct_with_total. intros ty k obj field ->. apply encode_field_total, height_field. }
  unfold compute_digests.
  destruct (negb _); [by eexists|]. destruct (negb _); [by eexists|].
  destruct (Hs EIP712Domain (domain td)) as [[ds|e] ->]; [|by eexists].
  unfold type_hash. destruct (encode_type_total (types td) (primary_type td)) as [[text|e] ->]; [|by eexists].
  destruct (Hs (primary_type td) (message td)) as [[mh|e] ->]; by eexists.
Qed.
End Totality.

(** ** Integers *)

(** The number that a text stands for: decimal, or hexadecimal after [0x]. *)
Definition text_number (s : string) : option Z :=
  let s := trim s in
  match strip_0x s with
  | Some h =>
      let h := trim h in
      if negb (String.eqb h "") && (String.length h <=? 64)%nat && string_all is_ascii_hexdigit h
      then Some (hex_number 0 h) else None
  | None => if negb (String.eqb s "") && string_all is_ascii_digit s then Some (dec_number 0 s) else None
  end.

(** With a sign in front. *)
Definition text_integer (s : string) : option Z :=
  match strip_prefix "-" s with
  | Some rest => n ← text_number rest; Some (- n)
  | None => text_number s
  end.

Lemma text_number_nonneg s n : text_number s = Some n -> 0 <= n.
Proof.
  unfold text_number. destruct (strip_0x (trim s)); destruct (_ && _); try done; intros [= <-].
  - pose proof (hex_number_lower (trim s0) 0). lia.
  - by apply dec_number_lower.
Qed.

Section Integers.
Context `{HexCodec}.

Lemma parse_uint_number s u : parse_uint_string s = Some u <->
  exists n, text_number s = Some n /\ n < 2 ^ 256 /\ wf u /\ val u = n.
Proof.
  unfold parse_uint_string, text_number. cbv zeta. destruct (strip_0x (trim s)) as [h|].
  - rewrite from_hex_spec. split.
    + intros (Hne & Hl & Ha & Hu & Hv). exists (hex_number 0 (trim h)).
      rewrite Ha, (proj2 (String.eqb_neq _ _) Hne), (proj2 (Nat.leb_le _ _) Hl).
      pose proof (val_range u Hu). split_and!; [done | lia | done | done].
    + intros (n & Hn & _ & Hu & Hv). destruct (_ && _) eqn:E in Hn; [|done]. injection Hn as <-.
      reflect_bools. apply Nat.leb_le in H2. by split_and!.
  - rewrite from_dec_spec. split.
    + intros (Hne & Ha & Hu & Hv). exists (dec_number 0 (trim s)).
      rewrite Ha, (proj2 (String.eqb_neq _ _) Hne).
      pose proof (val_range u Hu). split_and!; [done | lia | done | done].
    + intros (n & Hn & _ & Hu & Hv). destruct (_ && _) eqn:E in Hn; [|done]. injection Hn as <-.
      reflect_bools. by split_and!.
Qed.

Lemma u256_of n : 0 <= n < 2 ^ 256 -> exists u, wf u /\ val u = n.
Proof.
  intros Hn. destruct (limbs_of_bytes (be_bytes 32 n) (length_be_bytes _ _)) as [Hw Hv].
  eexists. split; [exact Hw|]. rewrite Hv, be_val_bytes_small; [done|]. exact Hn.
Qed.

Lemma val_one_shl k : 0 <= k < 256 -> wf (shl ONE k) /\ val (shl ONE k) = 2 ^ k.
Proof.
  intros Hk. destruct (shl_spec ONE k ONE_wf) as [Hw Hv]; [lia|]. split; [done|].
  rewrite Hv. change (val ONE) with 1. rewrite Z.mul_1_l. apply Z.mod_small.
  split; [lia|]. apply Z.pow_lt_mono_r; lia.
Qed.

Definition integer_word (n : Z) : bytes := be_bytes 32 (n mod 2 ^ 256).

Lemma encode_uint_exact value field ty bits b : 0 < bits <= 256 ->
  encode_uint value field ty bits = Ok b <->
  exists s n, number_or_string value field ty = Ok s /\ text_number s = Some n /\
    0 <= n < 2 ^ bits /\ b = integer_word n.
Proof.
  intros Hbits. unfold encode_uint, integer_word. rewrite let_ok. setoid_rewrite let_ok.
  setoid_rewrite guard_ok. setoid_rewrite ok_or_ok.
  assert (Hle : 2 ^ bits <= 2 ^ 256) by (apply Z.pow_le_mono_r; lia).
  assert (Hcheck : forall u, wf u ->
    negb ((bits <? 256) && ge u (shl ONE bits)) = true <-> val u < 2 ^ bits).
  { intros u Hu. pose proof (val_range u Hu). destruct (Z.ltb_spec bits 256) as [Hlt|Hge]; cbn [andb].
    - destruct (val_one_shl bits ltac:(lia)) as [Hw Hv]. rewrite ge_spec, Hv by done.
      by rewrite <-Z.ltb_antisym, Z.ltb_lt.
    - assert (bits = 256) as -> by lia. naive_solver lia. }
  split.
  - intros (s & Hs & u & Hu & Hc & [= <-]). apply parse_uint_number in Hu as (n & Hn & Hmax & Hw & Hv).
    apply Hcheck in Hc; [|done]. rewrite Hv in Hc. pose proof (text_number_nonneg s n Hn).
    exists s, n. split_and!; [done..|]. rewrite to_be_bytes_spec, Hv by done. by rewrite Z.mod_small.
  - intros (s & n & Hs & Hn & Hr & ->). exists s. split; [done|].
    destruct (u256_of n ltac:(lia)) as (u & Hw & Hv). exists u.
    split_and!; [apply parse_uint_number; exists n; split_and!; try done; lia | apply Hcheck; [done | lia] |].
    rewrite to_be_bytes_spec, Hv by done. rewrite Z.mod_small by lia. done.
Qed.

Lemma encode_int_exact value field ty bits b : 0 < bits <= 256 ->
  encode_int value field ty bits = Ok b <->
  exists s n, number_or_string value field ty = Ok s /\ text_integer s = Some n /\
    - 2 ^ (bits - 1) <= n < 2 ^ (bits - 1) /\ b = integer_word n.
Proof.
  intros Hbits. unfold encode_int, integer_word, text_integer.
  destruct (val_one_shl (bits - 1) ltac:(lia)) as [Hw2 Hv2].
  assert (Hle : 2 ^ (bits - 1) < 2 ^ 256) by (apply Z.pow_lt_mono_r; lia).
  assert (Hpos : 0 < 2 ^ (bits - 1)) by (apply Z.pow_pos_nonneg; lia).
  destruct (number_or_string value field ty) as [s|e]; [|split; [done | intros (? & ? & ? & _); done]].
  transitivity (exists n, (match strip_prefix "-" s with
      Some rest => n ← text_number rest; Some (- n) | None => text_number s end) = Some n /\
    - 2 ^ (bits - 1) <= n < 2 ^ (bits - 1) /\ b = be_bytes 32 (n mod 2 ^ 256)).
  2: { split; [intros (n & ?); by exists s, n | intros (? & n & [= <-] & ?); by exists n]. }
  destruct (strip_prefix "-" s) as [rest|]; rewrite let_ok; setoid_rewrite guard_ok; setoid_rewrite ok_or_ok;
    setoid_rewrite negb_true_iff.
  - split.
    + intros (u & Hu & Hc & [= <-]). apply parse_uint_number in Hu as (n & Hn & Hmax & Hw & Hv).
      rewrite gt_spec, Hv, Hv2 in Hc by done. reflect_bools. pose proof (text_number_nonneg rest n Hn).
      exists (- n). rewrite Hn. split; [done|]. split; [lia|].
      destruct (neg_spec u Hw) as [Hwn Hvn]. by rewrite to_be_bytes_spec, Hvn, Hv.
    + intros (n & (m & Hm & [= <-])%bind_Some & Hr & ->). pose proof (text_number_nonneg rest m Hm).
      destruct (u256_of m ltac:(lia)) as (u & Hw & Hv). exists u.
      split_and!; [apply parse_uint_number; exists m; split_and!; try done; lia | |].
      * rewrite gt_spec, Hv, Hv2 by done. apply Z.ltb_ge. lia.
      * destruct (neg_spec u Hw) as [Hwn Hvn]. by rewrite to_be_bytes_spec, Hvn, Hv.
  - split.
    + intros (u & Hu & Hc & [= <-]). apply parse_uint_number in Hu as (n & Hn & Hmax & Hw & Hv).
      rewrite ge_spec, Hv, Hv2 in Hc by done. reflect_bools. exists n.
      pose proof (text_number_nonneg s n Hn). split_and!; [done | lia | lia |].
      rewrite to_be_bytes_spec, Hv by done. by rewrite Z.mod_small by lia.
    + intros (n & Hn & Hr & ->). pose proof (text_number_nonneg s n Hn).
      destruct (u256_of n ltac:(lia)) as (u & Hw & Hv). exists u.
      split_and!; [apply parse_uint_number; exists n; split_and!; try done; lia | |].
      * rewrite ge_spec, Hv, Hv2 by done. apply Z.leb_gt. lia.
      * rewrite to_be_bytes_spec, Hv by done. by rewrite Z.mod_small by lia.
Qed.

Lemma parse_int_bits_range suffix bits : parse_int_bits suffix = Some bits -> 8 <= bits <= 256.
Proof.
  unfold parse_int_bits. destruct (String.eqb suffix ""); [by intros [= <-]|].
  intros (n & Hn & Hb)%bind_Some. pose proof (parse_u32_range _ _ Hn).
  destruct (_ || _) eqn:E in Hb; [done|]. injection Hb as <-. reflect_bools.
  split; [|lia]. pose proof (Z.div_mod n 8). lia.
Qed.

End Integers.

(** An integer is hashed exactly when it fits its type.  For a declared width
    the encoding succeeds if and only if the value is a number, in decimal or hexadecimal
    text or as a JSON integer, within the range of the type, and the word is then the
    number in two's complement. *)
Theorem integer_encoding_exact `{Crypto} `{HexCodec} (hex_error : string -> string)
    (signed : bool) (suffix field : string) (value : Json) (bits : Z) (b : bytes)
    (Hbits : parse_int_bits suffix = Some bits) :
  let ty := (if signed then "int" else "uint") +:+ suffix in
  let '(lo, hi) := if signed then (- 2 ^ (bits - 1), 2 ^ (bits - 1)) else (0, 2 ^ bits) in
  encode_primitive hex_error ty value field = Ok b <->
  exists s n, number_or_string value field ty = Ok s /\
    (if signed then text_integer s else text_number s) = Some n /\
    lo <= n < hi /\ b = integer_word n.
Proof.
  pose proof (parse_int_bits_range _ _ Hbits). destruct signed; cbv zeta iota.
  - change (encode_primitive hex_error ("int" +:+ suffix) value field) with
      (let? bits := ok_or (UnsupportedType ("int" +:+ suffix)) (parse_int_bits suffix) in
       encode_int value field ("int" +:+ suffix) bits).
    rewrite Hbits. cbn [ok_or]. apply encode_int_exact. lia.
  - change (encode_primitive hex_error ("uint" +:+ suffix) value field) with
      (let? bits := ok_or (UnsupportedType ("uint" +:+ suffix)) (parse_int_bits suffix) in
       encode_uint value field ("uint" +:+ suffix) bits).
    rewrite Hbits. cbn [ok_or]. apply encode_uint_exact. lia.
Qed.

(** ** What a hash commits to *)

(** The value behind a word: a truth value, an account, an integer, a run of bytes of a
    declared length, text that is hashed, an array, or a structure with the text of its
    type. *)
Inductive Val :=
| Flag (b : bool)
| Account (address : bytes)
| Number (n : Z)
| Chunk (b : bytes)
| Text (b : bytes)
| Items (vs : list Val)
| Struct (type_text : string) (vs : list Val).

Section Values.
Context `{Crypto} `{HexCodec}.
Variable hex_error : string -> string.

(** The word of a value as EIP-712 has it: a flag is 0 or 1, an account is 160 bits, an
    integer is two's complement over 256 bits, bytes are padded behind, the rest is
    hashed. *)
Fixpoint val_word (v : Val) : bytes :=
  match v with
  | Flag b => integer_word (if b then 1 else 0)
  | Account a => (zeros (32 - length a) ++ a)%list
  | Number n => integer_word n
  | Chunk b => (b ++ zeros (32 - length b))%list
  | Text b => keccak256 b
  | Items vs => keccak256 (concat (map val_word vs))
  | Struct text vs => keccak256 (keccak256 (as_bytes text) ++ concat (map val_word vs))%list
  end.

(** Every string that is hashed on the way. *)
Fixpoint hashed (v : Val) : list bytes :=
  match v with
  | Flag _ | Account _ | Number _ | Chunk _ => []
  | Text b => [b]
  | Items vs => concat (map val_word vs) :: flat_map hashed vs
  | Struct text vs =>
      as_bytes text :: (keccak256 (as_bytes text) ++ concat (map val_word vs))%list :: flat_map hashed vs
  end.

(** A number in decimal or hexadecimal text, or a JSON integer, in the range of a type. *)
Definition number_val (number : string -> option Z) (lo hi : Z) (value : Json) (field_name ty : string)
    : result Eip712Error Val :=
  let? s := number_or_string value field_name ty in
  let? n := ok_or (IntegerOutOfRange s ty) (number s) in
  guard! (lo <=? n) && (n <? hi) else IntegerOutOfRange s ty ;;
  Ok (Number n).

(** Hexadecimal text of [n] bytes. *)
Definition sized_val (n : Z) (expected : string) (wrap : bytes -> Val) (value : Json) (field_name : string)
    : result Eip712Error Val :=
  let? b := parse_hex_field hex_error value field_name in
  guard! Z.of_nat (length b) =? n
    else FieldTypeMismatch field_name expected (dec (Z.of_nat (length b)) +:+ " bytes") ;;
  Ok (wrap b).

(** The value that a JSON value denotes at a type, whatever word the encoder makes of it. *)
Definition primitive_val (ty : string) (value : Json) (field_name : string) : result Eip712Error Val :=
  if String.eqb ty "bytes" then let? b := parse_hex_field hex_error value field_name in Ok (Text b)
  else if String.eqb ty "string" then
    let? s := ok_or (FieldTypeMismatch field_name "string" (value_kind value)) (as_str value) in
    Ok (Text (as_bytes s))
  else if String.eqb ty "bool" then
    let? b := ok_or (FieldTypeMismatch field_name "bool" (value_kind value)) (as_bool value) in Ok (Flag b)
  else if String.eqb ty "address" then sized_val 20 "address (20 bytes)" Account value field_name
  else match strip_prefix "uint" ty, strip_prefix "int" ty, strip_prefix "bytes" ty with
  | Some suffix, _, _ =>
      let? bits := ok_or (UnsupportedType ty) (parse_int_bits suffix) in
      number_val text_number 0 (2 ^ bits) value field_name ty
  | None, Some suffix, _ =>
      let? bits := ok_or (UnsupportedType ty) (parse_int_bits suffix) in
      number_val text_integer (- 2 ^ (bits - 1)) (2 ^ (bits - 1)) value field_name ty
  | None, None, Some suffix =>
      let? n := map_err (fun _ => UnsupportedType ty) (u64_dec suffix) in
      guard! negb ((n =? 0) || (32 <? n)) else UnsupportedType ty ;;
      sized_val n ("bytes" +:+ dec n) Chunk value field_name
  | None, None, None => Err (UnsupportedType ty)
  end.

Definition struct_val_with (field_val : string -> Json -> string -> Run Val)
    (types : Types) (type_name : string) (value : Json) : Run Val :=
  let! text := encode_type types type_name in
  let! obj := Some (ok_or (FieldTypeMismatch type_name "object" (value_kind value)) (as_object value)) in
  let! fields := Some (ok_or (UnknownType type_name) (types !! type_name)) in
  let! vs := run_map (fun field =>
    field_val (ty field) (default JNull (obj_get (name field) obj)) (name field)) fields in
  Some (Ok (Struct text vs)).

Fixpoint field_val (fuel : nat) (types : Types) (ty : string) (value : Json) (field_name : string) : Run Val :=
  match fuel with
  | O => None
  | S fuel =>
      match parse_array_outer ty with
      | Some inner_ty =>
          let! arr := Some (ok_or (FieldTypeMismatch field_name ty (value_kind value)) (as_array value)) in
          let! _ := Some (match kind inner_ty with
            | Fixed n => guard! Z.of_nat (length arr) =? n
                           else ArrayLengthMismatch field_name n (Z.of_nat (length arr)) ;; Ok ()
            | Dynamic => Ok ()
            end) in
          let! vs := run_map (fun '(i, item) =>
            field_val fuel types (element_ty inner_ty) item (field_name +:+ "[" +:+ dec (Z.of_nat i) +:+ "]"))
            (combine (seq 0 (length arr)) arr) in
          Some (Ok (Items vs))
      | None =>
          if is_some (types !! ty)
          then struct_val_with (field_val fuel types) types ty value
          else Some (primitive_val ty value field_name)
      end
  end.

Definition struct_val (types : Types) (type_name : string) (value : Json) : Run Val :=
  struct_val_with (field_val (height value) types) types type_name value.

Definition to_word (r : Run Val) : Run bytes :=
  match r with
  | Some (Ok v) => Some (Ok (val_word v))
  | Some (Err e) => Some (Err e)
  | None => None
  end.

(** What encodes to a value's word, and fails as the value does. *)
Definition encodes (r : result Eip712Error bytes) (v : result Eip712Error Val) : Prop :=
  r = match v with Ok v => Ok (val_word v) | Err e => Err e end.

Lemma encode_uint_err value field ty bits s e : number_or_string value field ty = Ok s ->
  encode_uint value field ty bits = Err e -> e = IntegerOutOfRange s ty.
Proof.
  intros Hs. unfold encode_uint. rewrite Hs. destruct (parse_uint_string s) as [u|]; cbn [ok_or]; [|by intros [= <-]].
  destruct (negb _); [done|by intros [= <-]].
Qed.

Lemma encode_int_err value field ty bits s e : number_or_string value field ty = Ok s ->
  encode_int value field ty bits = Err e -> e = IntegerOutOfRange s ty.
Proof.
  intros Hs. unfold encode_int. rewrite Hs. destruct (match strip_prefix "-" s with Some _ => _ | None => _ end) as [neg m].
  destruct (parse_uint_string m) as [u|]; cbn [ok_or]; [|by intros [= <-]]. destruct (negb _); [done|by intros [= <-]].
Qed.

(** An encoder that succeeds exactly on the numbers of a range, with their words. *)
Lemma number_encodes (number : string -> option Z) lo hi value field ty enc :
  (forall b, enc = Ok b <-> exists s n, number_or_string value field ty = Ok s /\ number s = Some n /\
     lo <= n < hi /\ b = integer_word n) ->
  (forall s e, number_or_string value field ty = Ok s -> enc = Err e -> e = IntegerOutOfRange s ty) ->
  (forall e, number_or_string value field ty = Err e -> enc = Err e) ->
  encodes enc (number_val number lo hi value field ty).
Proof.
  intros Hok Herr Hmis. unfold encodes, number_val. destruct (number_or_string value field ty) as [s|e] eqn:Es; [|by apply Hmis].
  assert (Hno : (forall n, number s = Some n -> ~ lo <= n < hi) -> enc = Err (IntegerOutOfRange s ty)).
  { intros Hn. destruct enc as [b|e] eqn:E; [|by rewrite (Herr s e)].
    destruct (proj1 (Hok b) eq_refl) as (s' & n & [= <-] & Hs & Hr & _). by apply Hn in Hs. }
  destruct (number s) as [n|] eqn:En; cbn [ok_or]; [|by apply Hno].
  destruct ((lo <=? n) && (n <? hi)) eqn:Er; reflect_bools.
  - apply Hok. exists s, n. by split_and!.
  - apply Hno. intros ? [= <-]. lia.
Qed.

Lemma primitive_val_word ty value field : encodes (encode_primitive hex_error ty value field) (primitive_val ty value field).
Proof.
  unfold primitive_val, encode_primitive.
  destruct (String.eqb ty "bytes"); [by unfold encodes; destruct (parse_hex_field _ _ _)|].
  destruct (String.eqb ty "string"); [by unfold encodes; destruct (as_str value)|].
  destruct (String.eqb ty "bool"); [by unfold encodes; destruct (as_bool value) as [[]|]|].
  destruct (String.eqb ty "address").
  { unfold encodes, sized_val. destruct (parse_hex_field _ _ _) as [b|]; [|done].
    destruct (Nat.eqb_spec (length b) 20) as [E|E], (Z.eqb_spec (Z.of_nat (length b)) 20); try lia; [|done].
    cbn [val_word]. by rewrite E. }
  destruct (strip_prefix "uint" ty) as [sfx|].
  { destruct (parse_int_bits sfx) as [bits|] eqn:Eb; cbn [ok_or]; [|done]. apply parse_int_bits_range in Eb.
    apply number_encodes; [intros b; apply encode_uint_exact; lia|by eapply encode_uint_err|].
    intros e He. unfold encode_uint. by rewrite He. }
  destruct (strip_prefix "int" ty) as [sfx|].
  { destruct (parse_int_bits sfx) as [bits|] eqn:Eb; cbn [ok_or]; [|done]. apply parse_int_bits_range in Eb.
    apply number_encodes; [intros b; apply encode_int_exact; lia|by eapply encode_int_err|].
    intros e He. unfold encode_int. by rewrite He. }
  destruct (strip_prefix "bytes" ty) as [sfx|]; [|done].
  destruct (u64_dec sfx) as [n|]; cbn [map_err]; [|done]. unfold encodes, sized_val.
  destruct (negb _); [|done]. destruct (parse_hex_field _ _ _) as [b|]; [|done]. by destruct (Z.of_nat (length b) =? n).
Qed.

Lemma run_map_word {A} (f : A -> Run bytes) (g : A -> Run Val) l :
  (forall x, f x = to_word (g x)) ->
  run_map f l = match run_map g l with
                | Some (Ok vs) => Some (Ok (map val_word vs))
                | Some (Err e) => Some (Err e) | None => None end.
Proof.
  intros Hfg. induction l as [|x l IH]; [done|]. cbn [run_map]. rewrite Hfg, IH.
  destruct (g x) as [[v|e]|]; cbn [to_word]; [|done..]. by destruct (run_map g l) as [[vs|e]|].
Qed.

Lemma struct_val_word enc fv (types : Types) type_name value :
  (forall ty v field, enc ty v field = to_word (fv ty v field)) ->
  hash_struct_with enc types type_name value = to_word (struct_val_with fv types type_name value).
Proof.
  intros Henc. unfold hash_struct_with, struct_val_with, type_hash. cbv zeta.
  destruct (encode_type types type_name) as [[text|e]|]; [|done..].
  destruct (ok_or _ (as_object value)) as [obj|e]; [|done].
  destruct (ok_or _ (types !! type_name)) as [fields|e]; [|done].
  erewrite run_map_word; [|intros f; apply Henc].
  by destruct (run_map _ fields) as [[vs|e]|].
Qed.

(** The encoder hashes the value that the JSON denotes. *)
Lemma encode_field_val fuel : forall (types : Types) ty value field,
  encode_data_for_field hex_error fuel types ty value field = to_word (field_val fuel types ty value field).
Proof.
  induction fuel as [|fuel IH]; intros types ty value field; [done|].
  cbn [encode_data_for_field field_val]. cbv zeta. destruct (parse_array_outer ty) as [p|].
  - destruct (ok_or _ (as_array value)) as [items|e]; [|done].
    destruct (kind p) as [|n]; [|destruct (Z.of_nat (length items) =? n); [|done]].
    all: rewrite (run_map_word _ (fun '(i, item) => field_val fuel types (element_ty p) item
        (field +:+ "[" +:+ dec (Z.of_nat i) +:+ "]"))) by (intros [i item]; apply IH).
    all: by destruct (run_map _ _) as [[vs|e]|].
  - destruct (is_some (types !! ty)); [apply struct_val_word; intros; by apply IH|].
    rewrite primitive_val_word. by destruct (primitive_val _ _ _).
Qed.

Lemma run_map_forall {A B} (f : A -> Run B) l ys :
  run_map f l = Some (Ok ys) -> Forall2 (fun x y => f x = Some (Ok y)) l ys.
Proof.
  revert ys. induction l as [|x l IH]; intros ys; cbn [run_map]; [intros [= <-]; constructor|].
  destruct (f x) as [[y|e]|] eqn:Ex; [|done..]. destruct (run_map f l) as [[ys'|e]|]; [|done..].
  intros [= <-]. constructor; [done|]. by apply IH.
Qed.

Lemma concat_words_inj (ws vs : list bytes) :
  Forall (fun w => length w = 32%nat) ws -> Forall (fun w => length w = 32%nat) vs ->
  concat ws = concat vs -> ws = vs.
Proof.
  revert vs. induction ws as [|w ws IH]; intros [|v vs] Hw Hv E; [done | | |].
  - apply Forall_cons in Hv as [Hv _]. by destruct v.
  - apply Forall_cons in Hw as [Hw _]. by destruct w.
  - apply Forall_cons in Hw as [Hw Hws], Hv as [Hv Hvs]. cbn [concat] in E.
    apply app_inj_1 in E as [-> E]; [|congruence]. f_equal. by apply IH.
Qed.

Lemma integer_word_length n : length (integer_word n) = 32%nat.
Proof. apply length_be_bytes. Qed.

Lemma encode_primitive_length ty value field w :
  encode_primitive hex_error ty value field = Ok w -> length w = 32%nat.
Proof.
  unfold encode_primitive.
  destruct (String.eqb ty "bytes"); [intros (b & _ & [= <-])%let_ok; apply keccak256_length|].
  destruct (String.eqb ty "string"); [intros (b & _ & [= <-])%let_ok; apply keccak256_length|].
  destruct (String.eqb ty "bool"); [by intros (b & _ & [= <-])%let_ok|].
  destruct (String.eqb ty "address").
  { intros (b & _ & [Hb [= <-]]%guard_ok)%let_ok. reflect_bools.
    cbn. by rewrite Hb. }
  destruct (strip_prefix "uint" ty) as [sfx|].
  { intros (bits & Hbits%ok_or_ok & He)%let_ok. apply parse_int_bits_range in Hbits.
    apply encode_uint_exact in He as (? & ? & _ & _ & _ & ->); [apply integer_word_length | lia]. }
  destruct (strip_prefix "int" ty) as [sfx|].
  { intros (bits & Hbits%ok_or_ok & He)%let_ok. apply parse_int_bits_range in Hbits.
    apply encode_int_exact in He as (? & ? & _ & _ & _ & ->); [apply integer_word_length | lia]. }
  destruct (strip_prefix "bytes" ty) as [sfx|]; [|done].
  intros (n & _ & [Hn (b & _ & [Hb [= <-]]%guard_ok)%let_ok]%guard_ok)%let_ok. reflect_bools.
  rewrite length_app, length_zeros. lia.
Qed.

Lemma sized_val_ok n expected wrap value field v : sized_val n expected wrap value field = Ok v ->
  exists b, Z.of_nat (length b) = n /\ v = wrap b.
Proof. intros (b & _ & [Hl%Z.eqb_eq [= <-]]%guard_ok)%let_ok. by exists b. Qed.

Lemma number_val_ok number lo hi value field ty v : number_val number lo hi value field ty = Ok v ->
  exists n, lo <= n < hi /\ v = Number n.
Proof. intros (s & _ & (n & _ & [Hr [= <-]]%guard_ok)%let_ok)%let_ok. reflect_bools. exists n. split; [lia|done]. Qed.

(** Integers of a range no wider than a word have words of their own. *)
Lemma number_val_inj number lo hi j j' f f' ty v v' :
  number_val number lo hi j f ty = Ok v -> number_val number lo hi j' f' ty = Ok v' -> hi - lo <= 2 ^ 256 ->
  val_word v = val_word v' -> v = v'.
Proof.
  intros (n & Hn & ->)%number_val_ok (n' & Hn' & ->)%number_val_ok Hw E. cbn [val_word] in E. unfold integer_word in E.
  apply (f_equal be_val) in E. rewrite !be_val_bytes_small in E by (apply Z.mod_pos_bound; lia).
  f_equal. pose proof (Z.div_mod n (2 ^ 256) ltac:(lia)). pose proof (Z.div_mod n' (2 ^ 256) ltac:(lia)).
  pose proof (Z.mod_pos_bound n (2 ^ 256) ltac:(lia)). pose proof (Z.mod_pos_bound n' (2 ^ 256) ltac:(lia)). nia.
Qed.

Lemma primitive_val_inj ty j j' f f' v v' :
  primitive_val ty j f = Ok v -> primitive_val ty j' f' = Ok v' -> val_word v = val_word v' ->
  v = v' \/ exists a b, a ∈ hashed v /\ b ∈ hashed v' /\ collides a b.
Proof.
  assert (Htext : forall a b, keccak256 a = keccak256 b ->
    Text a = Text b \/ exists c d, c ∈ hashed (Text a) /\ d ∈ hashed (Text b) /\ collides c d).
  { intros a b [->|Hc]%keccak_equal; [by left | right; exists a, b; by split_and!; [left|left|]]. }
  unfold primitive_val. destruct (String.eqb ty "bytes").
  { intros (a & _ & [= <-])%let_ok (b & _ & [= <-])%let_ok. apply Htext. }
  destruct (String.eqb ty "string").
  { intros (a & _ & [= <-])%let_ok (b & _ & [= <-])%let_ok. apply Htext. }
  destruct (String.eqb ty "bool").
  { intros (a & _ & [= <-])%let_ok (b & _ & [= <-])%let_ok E. left. destruct a, b; done. }
  destruct (String.eqb ty "address").
  { intros (a & La & ->)%sized_val_ok (b & Lb & ->)%sized_val_ok E. left. cbn [val_word] in E.
    by replace (length b) with (length a) in E by lia; apply app_inv_head in E as ->. }
  destruct (strip_prefix "uint" ty) as [sfx|].
  { intros (bits & Hb%ok_or_ok & Hv)%let_ok. rewrite Hb. cbn [ok_or]. apply parse_int_bits_range in Hb. intros Hv'.
    assert (Hle : 2 ^ bits <= 2 ^ 256) by (apply Z.pow_le_mono_r; lia).
    left. eapply number_val_inj; [exact Hv|exact Hv'| |done]. lia. }
  destruct (strip_prefix "int" ty) as [sfx|].
  { intros (bits & Hb%ok_or_ok & Hv)%let_ok. rewrite Hb. cbn [ok_or]. apply parse_int_bits_range in Hb. intros Hv'.
    assert (Hle : 2 ^ (bits - 1) <= 2 ^ 255) by (apply Z.pow_le_mono_r; lia).
    left. eapply number_val_inj; [exact Hv|exact Hv'| |done]. lia. }
  destruct (strip_prefix "bytes" ty) as [sfx|]; [|done].
  intros (n & Hn & [_ (a & La & ->)%sized_val_ok]%guard_ok)%let_ok (n' & Hn' & [_ (b & Lb & ->)%sized_val_ok]%guard_ok)%let_ok E.
  rewrite Hn in Hn'. injection Hn' as <-. left. cbn [val_word] in E. apply app_inj_1 in E as [-> _]; [done|lia].
Qed.

(** Two strings hashed for [v] and for [v'] share their hash. *)
Definition clash (v v' : Val) : Prop := exists a b, a ∈ hashed v /\ b ∈ hashed v' /\ collides a b.
Definition clashes (vs vs' : list Val) : Prop :=
  exists a b, a ∈ flat_map hashed vs /\ b ∈ flat_map hashed vs' /\ collides a b.

(** [v] is the value of some JSON value at the type [ty]. *)
Definition value_at (fuel : nat) (types : Types) (ty : string) (v : Val) : Prop :=
  exists j field, field_val fuel types ty j field = Some (Ok v).

Definition agree (v v' : Val) : Prop := val_word v = val_word v' -> v = v' \/ clash v v'.

Lemma agree_list vs vs' : Forall2 agree vs vs' -> map val_word vs = map val_word vs' ->
  vs = vs' \/ clashes vs vs'.
Proof.
  induction 1 as [|v v' vs vs' Hv _ IH]; [by left|]. intros [= Ew Es].
  destruct (Hv Ew) as [->|(a & b & Ha & Hb & Hc)].
  - destruct (IH Es) as [->|(a & b & Ha & Hb & Hc)]; [by left|].
    right. exists a, b. cbn [flat_map]. set_solver.
  - right. exists a, b. cbn [flat_map]. set_solver.
Qed.

Lemma struct_val_inv fv (types : Types) n j v : struct_val_with fv types n j = Some (Ok v) ->
  exists text obj fields vs, encode_type types n = Some (Ok text) /\ j = JObject obj /\
    types !! n = Some fields /\ v = Struct text vs /\
    Forall2 (fun f v => fv (ty f) (default JNull (obj_get (name f) obj)) (name f) = Some (Ok v)) fields vs.
Proof.
  unfold struct_val_with. destruct (encode_type types n) as [[text|e]|]; [|done..].
  destruct j as [| | | | |obj]; cbn [as_object ok_or]; try done.
  destruct (types !! n) as [fields|]; cbn [ok_or]; [|done].
  destruct (run_map _ fields) as [[vs|e]|] eqn:Em; [|done..]. intros [= <-].
  exists text, obj, fields, vs. split_and!; try done. by apply run_map_forall in Em.
Qed.

Lemma array_val_inv fuel (types : Types) ty p j field v : parse_array_outer ty = Some p ->
  field_val (S fuel) types ty j field = Some (Ok v) ->
  exists vs, v = Items vs /\ Forall (value_at fuel types (element_ty p)) vs.
Proof.
  intros Hp. cbn [field_val]. rewrite Hp.
  destruct (ok_or _ (as_array j)) as [items|e]; [|done].
  destruct (kind p) as [|n]; [|destruct (Z.of_nat (length items) =? n); [|done]].
  all: destruct (run_map _ _) as [[vs|e]|] eqn:Em; [|done..]; intros [= <-]; exists vs; (split; [done|]).
  all: apply run_map_forall in Em; clear -Em; induction Em as [|[i item] v l vs Hv _ IH]; constructor;
    [by eexists _, _ | done].
Qed.

Lemma value_length fuel (types : Types) ty v : value_at fuel types ty v -> length (val_word v) = 32%nat.
Proof.
  intros (j & field & Hv). destruct fuel as [|fuel]; [done|].
  destruct (parse_array_outer ty) as [p|] eqn:Hp.
  { destruct (array_val_inv fuel types ty p j field v Hp Hv) as (vs & -> & _). apply keccak256_length. }
  cbn [field_val] in Hv. rewrite Hp in Hv. destruct (is_some (types !! ty)).
  { apply struct_val_inv in Hv as (? & ? & ? & ? & _ & _ & _ & -> & _). apply keccak256_length. }
  injection Hv as Hv. pose proof (primitive_val_word ty j field) as Hw. rewrite Hv in Hw.
  by apply encode_primitive_length in Hw.
Qed.

Lemma words_of vs vs' :
  Forall (fun v => length (val_word v) = 32%nat) vs -> Forall (fun v => length (val_word v) = 32%nat) vs' ->
  concat (map val_word vs) = concat (map val_word vs') -> map val_word vs = map val_word vs'.
Proof. intros Hv Hv' E. apply concat_words_inj in E; [done | by apply Forall_fmap..]. Qed.

Lemma struct_words fuel (types : Types) fields obj vs :
  Forall2 (fun f v => field_val fuel types (ty f) (default JNull (obj_get (name f) obj)) (name f) = Some (Ok v))
    fields vs -> Forall (fun v => length (val_word v) = 32%nat) vs.
Proof. induction 1; constructor; [eapply value_length; by eexists _, _ | done]. Qed.

(** Two structures of the same type that share their hash. *)
Lemma struct_agree f1 f2 (types : Types) n j1 j2 v1 v2 :
  (forall ty w1 w2, value_at f1 types ty w1 -> value_at f2 types ty w2 -> agree w1 w2) ->
  struct_val_with (field_val f1 types) types n j1 = Some (Ok v1) ->
  struct_val_with (field_val f2 types) types n j2 = Some (Ok v2) -> agree v1 v2.
Proof.
  intros Hagree (text & o1 & fields & vs1 & Ht & -> & Hf & -> & H1)%struct_val_inv
    (text' & o2 & fields' & vs2 & Ht' & -> & Hf' & -> & H2)%struct_val_inv.
  rewrite Ht in Ht'. injection Ht' as <-. rewrite Hf in Hf'. injection Hf' as <-.
  pose proof (struct_words _ _ _ _ _ H1) as L1. pose proof (struct_words _ _ _ _ _ H2) as L2.
  intros E. cbn [val_word] in E. destruct (keccak_equal _ _ E) as [Ep|Hc].
  2: { right. do 2 eexists. split_and!; [| |exact Hc]; cbn [hashed]; set_solver. }
  apply app_inv_head in Ep. apply words_of in Ep; [|done..].
  destruct (agree_list vs1 vs2) as [->|(a & b & Ha & Hb & Hc)]; [|done | by left |].
  - clear -Hagree H1 H2. revert vs2 H2. induction H1 as [|f v fields vs Hv _ IH]; intros vs2 H2.
    + apply Forall2_nil_inv_l in H2 as ->. constructor.
    + apply Forall2_cons_inv_l in H2 as (v' & vs' & Hv' & H2 & ->). constructor; [|by apply IH].
      apply (Hagree (ty f)); by eexists _, _.
  - right. exists a, b. cbn [hashed]. set_solver.
Qed.

Lemma values_agree f1 : forall f2 (types : Types) ty v1 v2,
  value_at f1 types ty v1 -> value_at f2 types ty v2 -> agree v1 v2.
Proof.
  induction f1 as [|f1 IH]; intros f2 types ty v1 v2 Hv1 Hv2; [by destruct Hv1 as (? & ? & ?)|].
  destruct f2 as [|f2]; [by destruct Hv2 as (? & ? & ?)|].
  destruct Hv1 as (j1 & n1 & Hv1), Hv2 as (j2 & n2 & Hv2).
  destruct (parse_array_outer ty) as [p|] eqn:Hp.
  - apply (array_val_inv f1 types ty p) in Hv1 as (vs1 & -> & H1); [|done].
    apply (array_val_inv f2 types ty p) in Hv2 as (vs2 & -> & H2); [|done].
    intros E. cbn [val_word] in E. destruct (keccak_equal _ _ E) as [Ep|Hc].
    2: { right. do 2 eexists. split_and!; [| |exact Hc]; cbn [hashed]; set_solver. }
    apply words_of in Ep; [| eapply Forall_impl; [done|]; intros v; apply value_length ..].
    destruct (agree_list vs1 vs2) as [->|(a & b & Ha & Hb & Hc)]; [|done | by left |].
    + apply Forall2_same_length_lookup_2; [by rewrite <-(length_map val_word vs1), Ep, length_map|].
      intros i w1 w2 Hw1 Hw2. rewrite Forall_lookup in H1, H2. eapply IH; eauto.
    + right. exists a, b. cbn [hashed]. set_solver.
  - cbn [field_val] in Hv1, Hv2. rewrite Hp in Hv1, Hv2. destruct (is_some (types !! ty)).
    + eapply struct_agree; [|exact Hv1|exact Hv2]. intros ty' w1 w2. apply IH.
    + injection Hv1 as Hv1. injection Hv2 as Hv2. intros E. by eapply primitive_val_inj.
Qed.
End Values.

(** ** What a signature is for *)

Section Binding.
Context `{Crypto} `{HexCodec}.
Variable hex_error : string -> string.

(** The structure that the JSON of the domain, or of the message, stands for. *)
Definition domain_val (td : TypedData) : Run Val := struct_val hex_error (types td) EIP712Domain (domain td).
Definition message_val (td : TypedData) : Run Val := struct_val hex_error (types td) (primary_type td) (message td).

Definition hashed_in (r : Run Val) : list bytes :=
  match r with Some (Ok v) => hashed v | _ => [] end.

Definition signed_preimage (d : Eip712Digests) : bytes :=
  ([Byte.x19; Byte.x01] ++ domain_separator d ++ message_hash d)%list.

(** Every string hashed for the digest. *)
Definition preimages (td : TypedData) (d : Eip712Digests) : list bytes :=
  (signed_preimage d :: hashed_in (domain_val td) ++ hashed_in (message_val td))%list.

Lemma hash_struct_val (types : Types) n j :
  hash_struct hex_error types n j = to_word (struct_val hex_error types n j).
Proof. apply struct_val_word. intros ty v field. apply encode_field_val. Qed.

Lemma compute_digests_ok td d : compute_digests hex_error td = Some (Ok d) ->
  exists dv mv, domain_val td = Some (Ok dv) /\ message_val td = Some (Ok mv) /\
    domain_separator d = val_word dv /\ message_hash d = val_word mv /\
    final_digest d = keccak256 (signed_preimage d).
Proof.
  unfold compute_digests. rewrite !hash_struct_val. fold (domain_val td) (message_val td).
  destruct (negb _); [done|]. destruct (negb _); [done|].
  destruct (domain_val td) as [[dv|e]|]; cbn [to_word]; [|done..].
  destruct (type_hash _ _) as [[th|e]|]; [|done..].
  destruct (message_val td) as [[mv|e]|]; cbn [to_word]; [|done..].
  intros [= <-]. by exists dv, mv.
Qed.

Lemma struct_val_agree (types : Types) n j j' v v' :
  struct_val hex_error types n j = Some (Ok v) -> struct_val hex_error types n j' = Some (Ok v') -> agree v v'.
Proof. apply struct_agree. intros ty w w'. apply values_agree. Qed.

Lemma struct_val_length (types : Types) n j v : struct_val hex_error types n j = Some (Ok v) ->
  length (val_word v) = 32%nat.
Proof. intros (? & ? & ? & ? & _ & _ & _ & -> & _)%struct_val_inv. apply keccak256_length. Qed.
End Binding.

(** C27: a signature over typed data is for one domain and one message.  Requests of the
    same types that lead to the same digest denote the same domain and the same message,
    field by field: the same truth values, accounts, integers and byte strings as the
    requests give them, read without the encoder.  The only way out is that two of the
    strings hashed for the two requests collide. *)
Theorem digest_binds `{Crypto} `{HexCodec} (hex_error : string -> string) (td td' : TypedData)
    (d d' : Eip712Digests) :
  types td = types td' -> primary_type td = primary_type td' ->
  compute_digests hex_error td = Some (Ok d) -> compute_digests hex_error td' = Some (Ok d') ->
  final_digest d = final_digest d' ->
  (domain_val hex_error td = domain_val hex_error td' /\
   message_val hex_error td = message_val hex_error td') \/
  exists a b, a ∈ preimages hex_error td d /\ b ∈ preimages hex_error td' d' /\ collides a b.
Proof.
  intros Ht Hp (dv & mv & Hdv & Hmv & Eds & Emh & Ef)%compute_digests_ok
    (dv' & mv' & Hdv' & Hmv' & Eds' & Emh' & Ef')%compute_digests_ok E.
  unfold preimages. rewrite Hdv, Hmv, Hdv', Hmv'. cbn [hashed_in].
  rewrite Ef, Ef' in E. destruct (keccak_equal _ _ E) as [Eo|Hc].
  2: { right. do 2 eexists. split_and!; [| |exact Hc]; set_solver. }
  unfold domain_val, message_val in *. rewrite <-Ht in *. rewrite <-Hp in *.
  unfold signed_preimage in Eo. injection Eo as Eo. rewrite Eds, Eds', Emh, Emh' in Eo.
  pose proof (struct_val_length _ _ _ _ _ Hdv). pose proof (struct_val_length _ _ _ _ _ Hdv').
  apply app_inj_1 in Eo as [Ed Em]; [|congruence].
  destruct (struct_val_agree _ _ _ _ _ _ _ Hdv Hdv' Ed) as [->|(a & b & Ha & Hb & Hc)].
  2: { right. exists a, b. set_solver. }
  destruct (struct_val_agree _ _ _ _ _ _ _ Hmv Hmv' Em) as [->|(a & b & Ha & Hb & Hc)].
  2: { right. exists a, b. set_solver. }
  by left.
Qed.

(** ** Witnesses *)

Definition field (t n : string) : TypeField := {| name := n; ty := t |}.

Definition mail_types : Types := list_to_map [
  (EIP712Domain, [field "string" "name"; field "uint256" "chainId"; field "address" "verifyingContract"]);
  ("Person", [field "string" "name"; field "address" "wallet"]);
  ("Mail", [field "Person" "from"; field "Person[]" "to"; field "string" "contents"; field "int8" "offset"])].

Example mail_text : encode_type mail_types "Mail" =
  Some (Ok "Mail(Person from,Person[] to,string contents,int8 offset)Person(string name,address wallet)").
Proof. vm_compute. reflexivity. Qed.

Lemma mail_flat : flat_types mail_types.
Proof.
  intros a fields f Ha Hf.
  assert (Hall : map_Forall (fun _ fs => Forall (fun f => flat_type (ty f) = true) fs) mail_types)
    by (apply (bool_decide_unpack _); vm_compute; done).
  specialize (Hall a fields Ha). rewrite Forall_forall in Hall. by apply Hall.
Qed.

Lemma encode_type_canonical_witness :
  exists r, encode_type mail_types "Mail" = Some r /\
  forall text, r = Ok text <->
    is_Some (mail_types !! "Mail") /\
    (forall n, rtc (mentions mail_types) "Mail" n -> ~ tc (mentions mail_types) n n) /\
    canonical_type mail_types "Mail" text.
Proof. apply (encode_type_canonical mail_types "Mail"), mail_flat. Defined.

Definition A20 (c : Ascii.ascii) : string := "0x" +:+ repeat_char c 40.

Definition mail (chain offset : Json) (wallet : string) : TypedData := {|
  domain := JObject [("chainId", chain); ("name", JString "Ether Mail"); ("verifyingContract", JString (A20 "c"%char))];
  types := mail_types; primary_type := "Mail";
  message := JObject [("contents", JString "Hello");
    ("from", JObject [("name", JString "Cow"); ("wallet", JString wallet)]);
    ("offset", offset); ("to", JArray [JObject [("name", JString "Bob"); ("wallet", JString (A20 "b"%char))]])] |}.

Definition no_hex_error (s : string) : string := s.

Definition digests_of (td : TypedData) : Eip712Digests :=
  match compute_digests (H := ToyCrypto.crypto) (H0 := SimpleHex.codec) no_hex_error td with
  | Some (Ok d) => d
  | _ => {| domain_separator := []; primary_type_hash := []; message_hash := []; final_digest := [] |}
  end.

Definition mail_a : TypedData := mail (JNumber (PosInt 1)) (JNumber (NegInt (-1))) (A20 "a"%char).
Definition mail_b : TypedData := mail (JString "0x01") (JString "-1") (A20 "A"%char).

Lemma digest_binds_witness :
  (domain_val (H0 := SimpleHex.codec) no_hex_error mail_a
     = domain_val (H0 := SimpleHex.codec) no_hex_error mail_b /\
   message_val (H0 := SimpleHex.codec) no_hex_error mail_a
     = message_val (H0 := SimpleHex.codec) no_hex_error mail_b) \/
  exists a b,
    a ∈ preimages (H := ToyCrypto.crypto) (H0 := SimpleHex.codec) no_hex_error mail_a (digests_of mail_a) /\
    b ∈ preimages (H := ToyCrypto.crypto) (H0 := SimpleHex.codec) no_hex_error mail_b (digests_of mail_b) /\
    collides (H := ToyCrypto.crypto) a b.
Proof.
  apply (digest_binds (H := ToyCrypto.crypto) (H0 := SimpleHex.codec) no_hex_error mail_a mail_b
    (digests_of mail_a) (digests_of mail_b)); vm_compute; reflexivity.
Defined.

Lemma integer_encoding_exact_witness :
  encode_primitive (H := ToyCrypto.crypto) (H0 := SimpleHex.codec) no_hex_error "int8" (JString "-0x80") "x"
    = Ok (integer_word (-128)).
Proof.
  apply (integer_encoding_exact (H := ToyCrypto.crypto) (H0 := SimpleHex.codec) no_hex_error true "8" "x"
    (JString "-0x80") 8 (integer_word (-128))); [reflexivity|].
  exists "-0x80", (-128). split_and!; [reflexivity | vm_compute; reflexivity | lia | lia | reflexivity].
Defined.

Example int8_ends : encode_primitive (H := ToyCrypto.crypto) (H0 := SimpleHex.codec) no_hex_error "int8" (JString "128") "x"
  = Err (IntegerOutOfRange "128" "int8").
Proof. vm_compute. reflexivity. Qed.

(** The structure inside an array of arrays is left out of the text. *)
Example nested_arrays_are_lost :
  encode_type (<["Mail" := [field "Person[2][]" "to"]]> mail_types) "Mail" = Some (Ok "Mail(Person[2][] to)").
Proof. vm_compute. reflexivity. Qed.
