(* ===== verification/Civil.v ===== *)
(** * Calendar dates

    [civil_from_days] of [crates/agentkeys-core/src/clear_signing/format.rs], with its
    copy [days_to_ymd] in the broker's [plugins/auth/wallet_sig.rs], and the texts they
    are printed in.  The reference is the calendar itself: the date of day zero, and the
    day that follows a date. *)
From S2P Require Import Prelude RustStr.

Open Scope Z_scope.

(** The date (year, month, day) of the day [z] after 1970-01-01. *)
Definition civil_from_days (z : Z) : Z * Z * Z :=
  let z := z + 719468 in
  let era := Z.quot (if 0 <=? z then z else z - 146096) 146097 in
  let doe := z - era * 146097 in
  let yoe := (doe - doe / 1460 + doe / 36524 - doe / 146096) / 365 in
  let y := yoe + era * 400 in
  let doy := doe - (365 * yoe + yoe / 4 - yoe / 100) in
  let mp := (5 * doy + 2) / 153 in
  let d := doy - (153 * mp + 2) / 5 + 1 in
  let m := if mp <? 10 then mp + 3 else mp - 9 in
  (y + (if m <=? 2 then 1 else 0), m, d).

Definition days_to_ymd (days : Z) : Z * Z * Z :=
  let z := days + 719468 in
  let era := Z.quot (if 0 <=? z then z else z - 146096) 146097 in
  let doe := z - era * 146097 in
  let yoe := (doe - doe / 1460 + doe / 36524 - doe / 146096) / 365 in
  let y := yoe + era * 400 in
  let doy := doe - (365 * yoe + yoe / 4 - yoe / 100) in
  let mp := (5 * doy + 2) / 153 in
  let d := doy - (153 * mp + 2) / 5 + 1 in
  let m := if mp <? 10 then mp + 3 else mp - 9 in
  let y := if m <=? 2 then y + 1 else y in
  (y, m, d).

Fixpoint pad_zero (n : nat) (s : string) : string :=
  match n with O => s | S n => String "0"%char (pad_zero n s) end.

(** [format!("{n:0w}")]: the sign counts towards the width. *)
Definition zero_padded (w : nat) (n : Z) : string :=
  if n <? 0 then "-" +:+ pad_zero (w - 1 - String.length (dec (- n))) (dec (- n))
  else pad_zero (w - String.length (dec n)) (dec n).

Definition timestamp (date : Z * Z * Z) (hh mm ss : Z) : string :=
  let '(y, m, d) := date in
  zero_padded 4 y +:+ "-" +:+ zero_padded 2 m +:+ "-" +:+ zero_padded 2 d +:+ "T"
  +:+ zero_padded 2 hh +:+ ":" +:+ zero_padded 2 mm +:+ ":" +:+ zero_padded 2 ss +:+ "Z".

Definition format_unix_seconds_utc (secs : Z) : string :=
  let days := secs / 86400 in
  let sod := secs mod 86400 in
  timestamp (civil_from_days days) (sod / 3600) (sod mod 3600 / 60) (sod mod 60).

Definition unix_to_iso8601 (secs : Z) : string :=
  let days_since_epoch := Z.quot secs 86400 in
  let secs_of_day := secs mod 86400 in
  timestamp (days_to_ymd days_since_epoch)
    (secs_of_day / 3600) (secs_of_day / 60 mod 60) (secs_of_day mod 60).

(** ** The calendar *)

Definition leap (y : Z) : bool :=
  (y mod 4 =? 0) && negb (y mod 100 =? 0) || (y mod 400 =? 0).

Definition days_in_month (leap_year : bool) (m : Z) : Z :=
  match m with
  | 2 => if leap_year then 29 else 28
  | 4 | 6 | 9 | 11 => 30
  | _ => 31
  end.

Definition next_day (date : Z * Z * Z) : Z * Z * Z :=
  let '(y, m, d) := date in
  if d <? days_in_month (leap y) m then (y, m, d + 1)
  else if m <? 12 then (y, m + 1, 1) else (y + 1, 1, 1).

(** ** Years that start in March *)

(** The days of an era of 400 years before its year [y]. *)
Definition year_start (y : Z) : Z := 365 * y + y / 4 - y / 100.
Definition year_length (y : Z) : Z :=
  if (y + 1 =? 400) then 146097 - year_start y else year_start (y + 1) - year_start y.
Definition era_start (era : Z) : Z := era * 146097 - 719468.

Definition month_of (doy : Z) : Z := let mp := (5 * doy + 2) / 153 in if mp <? 10 then mp + 3 else mp - 9.
Definition day_of (doy : Z) : Z := doy - (153 * ((5 * doy + 2) / 153) + 2) / 5 + 1.

Definition date_of (era yoe doy : Z) : Z * Z * Z :=
  (yoe + era * 400 + (if month_of doy <=? 2 then 1 else 0), month_of doy, day_of doy).

(** A property of a range is checked number by number. *)
Definition all_below (n : nat) (p : Z -> bool) : bool := forallb (fun i => p (Z.of_nat i)) (seq 0 n).

Lemma all_below_spec n p z : all_below n p = true -> 0 <= z < Z.of_nat n -> p z = true.
Proof.
  unfold all_below. rewrite forallb_forall. intros Hall Hz.
  specialize (Hall (Z.to_nat z)). rewrite Z2Nat.id in Hall by lia. apply Hall, in_seq. lia.
Qed.

Definition estimate (doe : Z) : Z := doe - doe / 1460 + doe / 36524 - doe / 146096.

Lemma estimate_mono a b : a <= b -> estimate a <= estimate b.
Proof.
  assert (Hstep : forall a, estimate a <= estimate (a + 1)).
  { clear. intros a. unfold estimate. change 146096 with (36524 * 4).
    rewrite <-!Z.div_div by lia.
    assert (Hq : a / 36524 <= (a + 1) / 36524) by (apply Z.div_le_mono; lia).
    assert (Hd : (a + 1) / 1460 <= a / 1460 + 1) by (Z.to_euclidean_division_equations; lia).
    assert (Hquad : forall q q', q <= q' -> q - q / 4 <= q' - q' / 4).
    { clear. intros q q' Hq. pose proof (Z.div_mod q 4 ltac:(lia)). pose proof (Z.div_mod q' 4 ltac:(lia)).
      pose proof (Z.mod_pos_bound q 4 ltac:(lia)). pose proof (Z.mod_pos_bound q' 4 ltac:(lia)).
      destruct (Z.eq_dec (q / 4) (q' / 4)); [lia|]. assert (q / 4 < q' / 4) by lia. lia. }
    specialize (Hquad _ _ Hq). lia. }
  intros Hab. replace b with (a + Z.of_nat (Z.to_nat (b - a))) by lia.
  induction (Z.to_nat (b - a)) as [|n IH]; [by rewrite Z.add_0_r|].
  rewrite Nat2Z.inj_succ. specialize (Hstep (a + Z.of_nat n)).
  replace (a + Z.succ (Z.of_nat n)) with (a + Z.of_nat n + 1) by lia. lia.
Qed.

Lemma year_of_day yoe doy : 0 <= yoe < 400 -> 0 <= doy < year_length yoe ->
  estimate (year_start yoe + doy) / 365 = yoe.
Proof.
  intros Hy Hd.
  pose proof (all_below_spec 400 (fun y =>
    (estimate (year_start y) / 365 =? y) &&
    (estimate (year_start y + (year_length y - 1)) / 365 =? y)) yoe eq_refl Hy) as Hends.
  cbv beta in Hends. reflect_bools.
  pose proof (estimate_mono (year_start yoe) (year_start yoe + doy) ltac:(lia)) as Hlo.
  pose proof (estimate_mono (year_start yoe + doy) (year_start yoe + (year_length yoe - 1)) ltac:(lia)) as Hhi.
  apply (Z.div_le_mono _ _ 365) in Hlo, Hhi; lia.
Qed.

Lemma year_length_leap yoe era : 0 <= yoe < 400 ->
  year_length yoe = if leap (yoe + era * 400 + 1) then 366 else 365.
Proof.
  intros Hy.
  pose proof (all_below_spec 400 (fun y => year_length y =? if leap (y + 1) then 366 else 365) yoe eq_refl Hy) as Hl.
  cbv beta in Hl. reflect_bools. rewrite Hl. unfold leap.
  replace (yoe + era * 400 + 1) with (yoe + 1 + era * 400) by lia.
  replace ((yoe + 1 + era * 400) mod 4) with ((yoe + 1) mod 4) by (Z.to_euclidean_division_equations; lia).
  replace ((yoe + 1 + era * 400) mod 100) with ((yoe + 1) mod 100) by (Z.to_euclidean_division_equations; lia).
  by rewrite Z.mod_add.
Qed.

Lemma era_of (era doe : Z) : 0 <= doe < 146097 ->
  Z.quot (if 0 <=? era * 146097 + doe then era * 146097 + doe else era * 146097 + doe - 146096) 146097 = era.
Proof.
  intros Hd. destruct (Z.leb_spec 0 (era * 146097 + doe)).
  - rewrite Z.quot_div_nonneg by lia. rewrite Z.div_add_l, Z.div_small by lia. lia.
  - replace (era * 146097 + doe - 146096) with (- ((- era) * 146097 + (146096 - doe))) by lia.
    rewrite Z.quot_opp_l by lia. rewrite Z.quot_div_nonneg by lia.
    rewrite Z.div_add_l, Z.div_small by lia. lia.
Qed.

(** The algorithm finds the era, the year and the day of the year. *)
Lemma civil_date era yoe doy : 0 <= yoe < 400 -> 0 <= doy < year_length yoe ->
  civil_from_days (era_start era + year_start yoe + doy) = date_of era yoe doy.
Proof.
  intros Hy Hd. unfold civil_from_days. cbv zeta.
  assert (Hdoe : 0 <= year_start yoe + doy < 146097).
  { pose proof (all_below_spec 400 (fun y => (0 <=? year_start y) &&
      (year_start y + year_length y <=? 146097)) yoe eq_refl Hy) as He.
    cbv beta in He. reflect_bools. lia. }
  replace (era_start era + year_start yoe + doy + 719468)
    with (era * 146097 + (year_start yoe + doy)) by (unfold era_start; lia).
  rewrite era_of by done.
  replace (era * 146097 + (year_start yoe + doy) - era * 146097) with (year_start yoe + doy) by lia.
  fold (estimate (year_start yoe + doy)). rewrite year_of_day by done.
  replace (year_start yoe + doy - (365 * yoe + yoe / 4 - yoe / 100)) with doy by (unfold year_start; lia).
  reflexivity.
Qed.

(** Every day lies in one year of one era. *)
Lemma day_in_year z : exists era yoe doy, 0 <= yoe < 400 /\ 0 <= doy < year_length yoe /\
  z = era_start era + year_start yoe + doy.
Proof.
  set (era := (z + 719468) / 146097). set (doe := (z + 719468) mod 146097).
  assert (Hdoe : 0 <= doe < 146097) by (apply Z.mod_pos_bound; lia).
  assert (Hz : z = era_start era + doe).
  { unfold era_start. pose proof (Z.div_mod (z + 719468) 146097). fold era doe in H. lia. }
  clearbody era doe. exists era.
  enough (exists yoe doy, 0 <= yoe < 400 /\ 0 <= doy < year_length yoe /\ doe = year_start yoe + doy)
    as (yoe & doy & Hy & Hd & ->) by (exists yoe, doy; split_and!; lia).
  assert (Hfind : forall n : nat, (n <= 400)%nat -> doe < (if (Z.of_nat n =? 400) then 146097 else year_start (Z.of_nat n)) ->
    exists yoe doy, 0 <= yoe < Z.of_nat n /\ 0 <= doy < year_length yoe /\ doe = year_start yoe + doy).
  { induction n as [|n IH]; intros Hn Hlt; [change (doe < 0) in Hlt; lia|].
    destruct (Z.lt_ge_cases doe (year_start (Z.of_nat n))) as [Hl|Hg].
    - destruct IH as (yoe & doy & ? & ? & ?); [lia | by rewrite (proj2 (Z.eqb_neq _ _)) by lia |].
      exists yoe, doy. split_and!; lia.
    - exists (Z.of_nat n), (doe - year_start (Z.of_nat n)). split_and!; [lia | lia | lia | | lia].
      unfold year_length. replace (Z.of_nat n + 1) with (Z.of_nat (S n)) by lia.
      destruct (Z.of_nat (S n) =? 400); lia. }
  apply (Hfind 400%nat); [lia | exact (proj2 Hdoe)].
Qed.

(** Within a year the months follow each other; the year ends with February. *)
Definition follows (leap_year : bool) (doy : Z) : bool :=
  let m := month_of doy in let d := day_of doy in
  if doy + 1 <? (if leap_year then 366 else 365) then
    if d <? days_in_month leap_year m then (month_of (doy + 1) =? m) && (day_of (doy + 1) =? d + 1)
    else if m <? 12 then (month_of (doy + 1) =? m + 1) && (day_of (doy + 1) =? 1) && negb (m =? 2)
    else (month_of (doy + 1) =? 1) && (day_of (doy + 1) =? 1)
  else (m =? 2) && negb (d <? days_in_month leap_year m).

Lemma follows_all (leap_year : bool) doy :
  0 <= doy < (if leap_year then 366 else 365) -> follows leap_year doy = true.
Proof.
  destruct leap_year; intros Hd.
  - by apply (all_below_spec 366 (follows true) doy eq_refl).
  - by apply (all_below_spec 365 (follows false) doy eq_refl).
Qed.

Lemma month_range doy : 0 <= doy < 366 -> 1 <= month_of doy <= 12.
Proof.
  intros Hd. pose proof (all_below_spec 366 (fun d => (1 <=? month_of d) && (month_of d <=? 12)) doy eq_refl Hd) as Hm.
  cbv beta in Hm. reflect_bools. lia.
Qed.

Lemma days_in_other_month b b' m : m <> 2 -> days_in_month b m = days_in_month b' m.
Proof. intros Hm. unfold days_in_month. by destruct m as [|[[|[]|]|[[]|[]|]|]|]. Qed.

Lemma next_date era yoe doy : 0 <= yoe < 400 -> 0 <= doy < year_length yoe ->
  next_day (date_of era yoe doy) =
  if doy + 1 <? year_length yoe then date_of era yoe (doy + 1)
  else if yoe + 1 =? 400 then date_of (era + 1) 0 0 else date_of era (yoe + 1) 0.
Proof.
  intros Hy Hd. unfold next_day, date_of. rewrite (year_length_leap yoe era Hy) in *.
  set (Y := yoe + era * 400) in *.
  pose proof (follows_all (leap (Y + 1)) doy Hd) as Hf. unfold follows in Hf. cbv zeta in Hf.
  assert (Hm : 1 <= month_of doy <= 12) by (apply month_range; destruct (leap (Y + 1)); lia).
  assert (Hdim : days_in_month (leap (Y + (if month_of doy <=? 2 then 1 else 0))) (month_of doy)
    = days_in_month (leap (Y + 1)) (month_of doy)).
  { destruct (Z.leb_spec (month_of doy) 2); [done|]. apply days_in_other_month. lia. }
  rewrite Hdim. clear Hdim. destruct (_ <? (if leap _ then 366 else 365)).
  - destruct (_ <? days_in_month _ _).
    + reflect_bools. by rewrite H, H0.
    + destruct (Z.ltb_spec (month_of doy) 12); reflect_bools; rewrite ?H0, ?H1, ?H2, ?H3 in *.
      * do 2 f_equal. destruct (Z.leb_spec (month_of doy) 2), (Z.leb_spec (month_of doy + 1) 2); lia.
      * destruct (Z.leb_spec (month_of doy) 2); [lia|]. cbn. do 2 f_equal. lia.
  - reflect_bools. rewrite (proj2 (Z.ltb_ge _ _)) by done. rewrite H. cbn.
    change (month_of 0) with 3. change (day_of 0) with 1. cbn.
    destruct (Z.eqb_spec (yoe + 1) 400).
    + do 2 f_equal. lia.
    + do 2 f_equal. lia.
Qed.

Lemma year_start_next yoe : 0 <= yoe < 400 ->
  year_start yoe + year_length yoe = if yoe + 1 =? 400 then 146097 else year_start (yoe + 1).
Proof. unfold year_length. destruct (_ =? 400); lia. Qed.

Lemma year_length_pos yoe : 0 <= yoe < 400 -> 0 < year_length yoe.
Proof. intros Hy. rewrite (year_length_leap yoe 0 Hy). destruct (leap _); lia. Qed.

(** The dates shown to a signer, and those in a sign-in message, are calendar
    dates.  Day zero is the first of January 1970, and each day has the date that follows
    the one before it in the Gregorian calendar, in both directions of time. *)
Theorem civil_calendar :
  civil_from_days 0 = (1970, 1, 1) /\
  (forall z, civil_from_days (z + 1) = next_day (civil_from_days z)) /\
  forall z, days_to_ymd z = civil_from_days z.
Proof.
  split_and!; [reflexivity | |].
  - intros z. destruct (day_in_year z) as (era & yoe & doy & Hy & Hd & ->).
    rewrite civil_date, next_date by done. pose proof (year_start_next yoe Hy) as Hn.
    destruct (Z.ltb_spec (doy + 1) (year_length yoe)).
    + rewrite <-civil_date by lia. f_equal. lia.
    + revert Hn. destruct (Z.eqb_spec (yoe + 1) 400) as [E|E]; intros Hn.
      * rewrite <-civil_date by done. f_equal. unfold era_start. change (year_start 0) with 0. lia.
      * pose proof (year_length_pos (yoe + 1)).
        rewrite <-civil_date by lia. f_equal. lia.
  - intros z. unfold days_to_ymd, civil_from_days. cbv zeta.
    match goal with |- context [if ?c then _ + 1 else _] => destruct c end; [done | by rewrite Z.add_0_r].
Qed.

Example new_year : format_unix_seconds_utc 1700000000 = "2023-11-14T22:13:20Z".
Proof. reflexivity. Qed.

Example before_the_epoch : format_unix_seconds_utc (-1) = "1969-12-31T23:59:59Z".
Proof. reflexivity. Qed.

(** The broker's copy divides towards zero: just before the epoch it is a day ahead. *)
Example broker_before_the_epoch : unix_to_iso8601 (-1) = "1970-01-01T23:59:59Z".
Proof. reflexivity. Qed.
