(* ===== verification/ClearSigning.v ===== *)
(** * Clear signing

    [crates/agentkeys-core/src/clear_signing/{mod,binding,format}.rs] with the data of
    [parser.rs] and [catalog.rs]: the description file that a domain selects, the text of
    every field, the sentence shown to the operator, and its commitment.  [None] is a
    panic, of a slice inside a character or of a formatting width out of range. *)
From S2P Require Import Prelude RustStr StrFacts DeviceCore Numerals Json U256 Eip712 Civil SseUsage.

Open Scope Z_scope.

(** ** Description files *)

Record Erc7730Field := { path : string; label : option string; format : string; params : Json }.

Record Erc7730Format := { intent : option string; fields : list Erc7730Field }.

Record Erc7730Eip712Domain := {
  domain_name : option string; version : option string; chain_id : option Z;
  verifying_contract : option string }.

Record Erc7730File := {
  eip712_domain : option Erc7730Eip712Domain;
  metadata : Json;
  formats : gmap string Erc7730Format }.

(** ** Binding a domain to a file *)

Definition parse_typed_data_domain (domain : Json) : option Erc7730Eip712Domain :=
  obj ← as_object domain;
  Some {|
    domain_name := v ← obj_get "name" obj; as_str v;
    version := v ← obj_get "version" obj; as_str v;
    chain_id := v ← obj_get "chainId" obj;
      match as_u64 v with Some n => Some n | None => s ← as_str v; ok (u64_dec s) end;
    verifying_contract := v ← obj_get "verifyingContract" obj; s ← as_str v; Some (to_lowercase s) |}.

(** A field that the file sets must be the request's. *)
Definition set_field_matches `{EqDecision A} (file td : option A) : bool :=
  match file with Some f => bool_decide (td = Some f) | None => true end.

Definition domain_matches (file td : Erc7730Eip712Domain) : bool :=
  set_field_matches (domain_name file) (domain_name td) &&
  set_field_matches (version file) (version td) &&
  set_field_matches (chain_id file) (chain_id td) &&
  set_field_matches (f ← verifying_contract file; Some (to_lowercase f)) (verifying_contract td) &&
  (is_some (domain_name file) || is_some (version file) || is_some (chain_id file)
   || is_some (verifying_contract file)).

Definition file_binds (td_domain : Erc7730Eip712Domain) (file : Erc7730File) : bool :=
  match eip712_domain file with Some d => domain_matches d td_domain | None => false end.

Definition match_file (files : list Erc7730File) (typed_data : TypedData) : option Erc7730File :=
  td_domain ← parse_typed_data_domain (domain typed_data);
  List.find (file_binds td_domain) files.

(** ** The text of a field *)

Fixpoint trim_start_char (c : Ascii.ascii) (s : string) : string :=
  match s with
  | EmptyString => ""
  | String a s' => if Ascii.eqb a c then trim_start_char c s' else s
  end.

Fixpoint trim_end_char (c : Ascii.ascii) (s : string) : string :=
  match s with
  | EmptyString => ""
  | String a s =>
      match trim_end_char c s with
      | EmptyString => if Ascii.eqb a c then "" else String a ""
      | r => String a r
      end
  end.

(** [s.is_char_boundary(i)] *)
Definition is_char_boundary (s : string) (i : nat) : bool :=
  match String.get i s with
  | Some c => negb ((128 <=? byte_of c) && (byte_of c <? 192))
  | None => Nat.eqb i (String.length s)
  end.

Definition str_take (n : nat) (s : string) : string := String.substring 0 n s.
Definition str_drop (n : nat) (s : string) : string := String.substring n (String.length s - n) s.

(** [s.split_at(i)] *)
Definition split_at (s : string) (i : nat) : option (string * string) :=
  if is_char_boundary s i then Some (str_take i s, str_drop i s) else None.

Definition u16_max : Z := 65535.

(** [format!("{:0>width$}", s)] *)
Definition pad_left_zero (width : Z) (s : string) : option string :=
  if u16_max <? width then None
  else Some (pad_zero (Z.to_nat (width - chars_count s)) s).

Definition number_text (n : JsonNumber) : string :=
  match n with PosInt n => dec n | NegInt n => dec_i64 n | Float t => t end.

(** [s.parse::<i64>()] *)
Definition parse_i64 (s : string) : option Z :=
  match strip_prefix "-" s with
  | Some rest =>
      if String.eqb rest "" then None
      else n ← ok (digits_radix 10 (- i64_min) dec_value 0 rest); Some (- n)
  | None => ok (from_str_radix 10 i64_max dec_value s)
  end.

(** The digits of an amount with its point. *)
Definition fixed_point (n_str : string) (decimals : Z) : option string :=
  if decimals =? 0 then Some n_str
  else
    padded ← (if Z.of_nat (String.length n_str) <=? decimals
              then pad_left_zero (decimals + 1) n_str else Some n_str);
    let split := Z.to_nat (Z.of_nat (String.length padded) - decimals) in
    '(int_part, frac_part) ← split_at padded split;
    let frac_trimmed := trim_end_char "0"%char frac_part in
    Some (if String.eqb frac_trimmed "" then int_part else int_part +:+ "." +:+ frac_trimmed).

Definition ELLIPSIS : string := "…".

Section Render.
Context `{SerdeJson}.

Definition json_text (v : Json) : string := String.string_of_list_byte (json_to_vec v).

Definition render_raw (raw : Json) : string :=
  match raw with JString s => s | other => json_text other end.

Definition render_token_amount (raw params : Json) : option string :=
  let decimals := default 0 (v ← get params "decimals"; as_u64 v) in
  let ticker := default "" (v ← get params "ticker"; as_str v) in
  match (match raw with JString s => Some s | JNumber n => Some (number_text n) | _ => None end) with
  | None => Some (render_raw raw)
  | Some raw_str =>
      let n_str := trim_start_char "-"%char raw_str in
      let neg := starts_with "-" raw_str in
      formatted ← fixed_point n_str decimals;
      let with_sign := if neg then "-" +:+ formatted else formatted in
      Some (if String.eqb ticker "" then with_sign else with_sign +:+ " " +:+ ticker)
  end.

Definition render_address (raw params : Json) : option string :=
  match as_str raw with
  | None => Some (render_raw raw)
  | Some s =>
      let s := to_lowercase s in
      let truncate := default true (v ← get params "truncate"; as_bool v) in
      if negb truncate || (String.length s <? 12)%nat then Some s
      else
        '(head, _) ← split_at s 6;
        '(_, tail) ← split_at s (String.length s - 4);
        Some (head +:+ ELLIPSIS +:+ tail)
  end.

Definition render_integer (raw : Json) : string :=
  match raw with JString s => s | JNumber n => number_text n | _ => render_raw raw end.

Definition render_date (raw : Json) : string :=
  let secs := match raw with
              | JString s => parse_i64 s
              | JNumber _ => as_i64 raw
              | _ => None
              end in
  match secs with Some s => format_unix_seconds_utc s | None => render_raw raw end.

Definition render_bool (raw : Json) : string :=
  match raw with JBool b => if b then "true" else "false" | _ => render_raw raw end.

Definition render_field (field : Erc7730Field) (raw : option Json) : option string :=
  match raw with
  | None => Some "?"
  | Some raw =>
      if String.eqb (format field) "tokenAmount" then render_token_amount raw (params field)
      else if String.eqb (format field) "address" then render_address raw (params field)
      else if String.eqb (format field) "integer" then Some (render_integer raw)
      else if String.eqb (format field) "date" then Some (render_date raw)
      else if String.eqb (format field) "bool" then Some (render_bool raw)
      else Some (render_raw raw)
  end.

Fixpoint walk (cur : Json) (segments : list string) : option Json :=
  match segments with
  | [] => Some cur
  | segment :: segments =>
      next ← (match u64_dec segment with
              | Ok idx => l ← as_array cur; l !! Z.to_nat idx
              | Err _ => get cur segment
              end);
      walk next segments
  end.

Definition lookup_path (value : Json) (path : string) : option Json :=
  walk value (split_char "."%char path).

(** ** The rendered fields *)

Record RenderedFields := { by_path : gmap string string; by_leaf : gmap string string }.

(** [path.rsplit('.').next()] *)
Definition leaf (path : string) : option string := last (split_char "."%char path).

Definition render_one (message : Json) (acc : RenderedFields) (field : Erc7730Field) : option RenderedFields :=
  rendered ← render_field field (lookup_path message (path field));
  Some {| by_path := <[path field := rendered]> (by_path acc);
          by_leaf := match leaf (path field) with
                     | Some l => <[l := rendered]> (by_leaf acc) | None => by_leaf acc end |}.

Fixpoint render_all (message : Json) (acc : RenderedFields) (fs : list Erc7730Field) : option RenderedFields :=
  match fs with
  | [] => Some acc
  | f :: fs => acc ← render_one message acc f; render_all message acc fs
  end.

Definition render (message : Json) (fmt : Erc7730Format) : option RenderedFields :=
  render_all message {| by_path := ∅; by_leaf := ∅ |} (fields fmt).

Definition lookup (r : RenderedFields) (key : string) : option string :=
  match by_path r !! key with Some v => Some v | None => by_leaf r !! key end.

Definition iter_pairs (r : RenderedFields) (fmt : Erc7730Format) : list (string * string) :=
  map (fun f => (default (path f) (label f), default "?" (by_path r !! path f))) (fields fmt).

(** ** The sentence *)

(** The loop of [interpolate_intent]: a template without an open brace is pushed as it
    is; one with an open brace that is never closed is pushed in the loop and after it. *)
Fixpoint interpolate_loop (fuel : nat) (rest : string) (fields : RenderedFields) : string :=
  match fuel with
  | O => rest
  | S fuel =>
      match split_once "{"%char rest with
      | None => rest
      | Some (before, after) =>
          before +:+
          match split_once "}"%char after with
          | Some (name, rest') =>
              match lookup fields name with
              | Some rendered => rendered
              | None => "{" +:+ name +:+ "}"
              end +:+ interpolate_loop fuel rest' fields
          | None => ("{" +:+ after) +:+ ("{" +:+ after)
          end
      end
  end.

Definition interpolate_intent (template : string) (fields : RenderedFields) : string :=
  interpolate_loop (String.length template) template fields.

(** ** The preview *)

Inductive ClearSigningError :=
| Eip712 (e : Eip712Error)
| NoMatch
| NoFormatForPrimaryType (primary : string)
| NoIntent.

Record ClearSigningPreview := {
  typed_data : TypedData; digests : Eip712Digests; intent_text : string;
  intent_commitment : bytes; shown : list (string * string) }.

Definition commitment_preimage (intent_text : string) (final_digest : bytes) : bytes :=
  (as_bytes intent_text ++ [Byte.x7c] ++ final_digest)%list.

Definition commit_intent `{Crypto} (intent_text : string) (final_digest : bytes) : bytes :=
  keccak256 (commitment_preimage intent_text final_digest).

Section Preview.
Context `{Crypto} `{HexCodec}.
Variable hex_error : string -> string.

(** What is shown for the message in a format. *)
Definition show (fmt : Erc7730Format) (intent_template : string) (td : TypedData) (d : Eip712Digests) :
    option ClearSigningPreview :=
  rendered ← render (message td) fmt;
  let intent_text := interpolate_intent intent_template rendered in
  Some {| typed_data := td; digests := d; intent_text := intent_text;
          intent_commitment := commit_intent intent_text (final_digest d);
          shown := iter_pairs rendered fmt |}.

Definition build_preview (catalog : list Erc7730File) (td : TypedData) :
    option (result ClearSigningError ClearSigningPreview) :=
  d ← compute_digests hex_error td;
  match d with
  | Err e => Some (Err (Eip712 e))
  | Ok d =>
      match match_file catalog td with
      | None => Some (Err NoMatch)
      | Some file =>
          match formats file !! primary_type td with
          | None => Some (Err (NoFormatForPrimaryType (primary_type td)))
          | Some fmt =>
              match intent fmt with
              | None => Some (Err NoIntent)
              | Some template => p ← show fmt template td d; Some (Ok p)
              end
          end
      end
  end.
End Preview.
End Render.

(** ** Templates *)

(** A template is text with places for fields. *)
Inductive Piece := Lit (text : string) | Hole (name : string).

Definition piece_text (p : Piece) : string :=
  match p with Lit t => t | Hole n => "{" +:+ n +:+ "}" end.

Definition piece_ok (p : Piece) : bool :=
  match p with Lit t => negb (string_has "{"%char t) | Hole n => negb (string_has "}"%char n) end.

Definition fill_piece (fields : RenderedFields) (p : Piece) : string :=
  match p with Lit t => t | Hole n => default (piece_text p) (lookup fields n) end.

Definition template_text (ps : list Piece) : string := concat_str (map piece_text ps).
Definition fill (fields : RenderedFields) (ps : list Piece) : string := concat_str (map (fill_piece fields) ps).

Lemma split_once_absent c s : string_has c s = false -> split_once c s = None.
Proof.
  intros Hs. destruct (split_once c s) as [[l r]|] eqn:E; [|done].
  apply split_once_spec in E as [-> _]. by rewrite string_has_app, string_has_cons, Ascii.eqb_refl, orb_true_r in Hs.
Qed.

Lemma length_split_once c s l r : split_once c s = Some (l, r) -> (String.length r < String.length s)%nat.
Proof. intros [-> _]%split_once_spec. rewrite length_app_str. cbn. lia. Qed.

(** Text in front of what comes next is passed through. *)
Lemma interpolate_lit fuel t rest fields : string_has "{"%char t = false ->
  interpolate_loop fuel (t +:+ rest) fields = t +:+ interpolate_loop fuel rest fields.
Proof.
  intros Ht. destruct fuel as [|fuel]; [done|]. cbn [interpolate_loop].
  destruct (split_once "{"%char rest) as [[b a]|] eqn:E.
  - apply split_once_spec in E as [-> Hb].
    rewrite (proj2 (split_once_spec _ _ (t +:+ b) a)) by (rewrite string_has_app, Ht, Hb, app_assoc_str; done).
    by rewrite <-app_assoc_str.
  - apply split_once_none in E. rewrite split_once_absent; [done|]. by rewrite string_has_app, Ht, E.
Qed.

Lemma interpolate_hole fuel n rest fields : string_has "}"%char n = false ->
  interpolate_loop (S fuel) (("{" +:+ n +:+ "}") +:+ rest) fields =
  fill_piece fields (Hole n) +:+ interpolate_loop fuel rest fields.
Proof.
  intros Hn. cbn [interpolate_loop].
  rewrite (proj2 (split_once_spec _ _ "" (n +:+ "}" +:+ rest))) by (split; [by rewrite <-!app_assoc_str | done]).
  rewrite (proj2 (split_once_spec _ _ n rest)) by done.
  cbn [append fill_piece piece_text]. by destruct (lookup fields n).
Qed.

(** An open brace that is never closed, with what follows it. *)
Definition open_tail (tail : option string) : string :=
  match tail with Some t => "{" +:+ t | None => "" end.

Definition open_ok (tail : option string) : bool :=
  match tail with Some t => negb (string_has "}"%char t) | None => true end.

Lemma interpolate_open fuel tail fields : open_ok tail = true ->
  (String.length (open_tail tail) <= fuel)%nat ->
  interpolate_loop fuel (open_tail tail) fields = open_tail tail +:+ open_tail tail.
Proof.
  destruct tail as [t|]; [|by destruct fuel]. intros Ht Hf. cbn [open_ok] in Ht. reflect_bools.
  unfold open_tail in *.
  destruct fuel as [|fuel]; [rewrite length_app_str in Hf; cbn in Hf; lia|]. cbn [interpolate_loop].
  rewrite (proj2 (split_once_spec _ _ "" t)) by done. by rewrite (split_once_absent _ t).
Qed.

Lemma interpolate_pieces tail fields ps : forall fuel,
  forallb piece_ok ps = true -> open_ok tail = true ->
  (String.length (template_text ps +:+ open_tail tail) <= fuel)%nat ->
  interpolate_loop fuel (template_text ps +:+ open_tail tail) fields =
  fill fields ps +:+ open_tail tail +:+ open_tail tail.
Proof.
  induction ps as [|p ps IH]; intros fuel Hps Ht Hf.
  { by apply interpolate_open. }
  cbn [forallb] in Hps. apply andb_true_iff in Hps as [Hp Hps].
  unfold template_text, fill in *. cbn [map concat_str] in *. rewrite <-!app_assoc_str in *.
  destruct p as [t|n]; cbn [piece_text piece_ok fill_piece] in *; apply negb_true_iff in Hp.
  - rewrite interpolate_lit by done. f_equal. apply IH; [done | done |].
    rewrite length_app_str in Hf. lia.
  - destruct fuel as [|fuel]; [rewrite !length_app_str in Hf; cbn in Hf; lia|].
    replace ("{" +:+ n +:+ "}" +:+ concat_str (map piece_text ps) +:+ open_tail tail)
      with (("{" +:+ n +:+ "}") +:+ (concat_str (map piece_text ps) +:+ open_tail tail))
      in * by (by rewrite <-!app_assoc_str).
    rewrite interpolate_hole by done. f_equal. apply IH; [done | done |].
    rewrite length_app_str in Hf. cbn [append String.length] in Hf. rewrite length_app_str in Hf. cbn in Hf. lia.
Qed.

(** Every text is a template with at most one open brace at the end. *)
Lemma template_of (n : nat) : forall t, (String.length t <= n)%nat ->
  exists ps tail, forallb piece_ok ps = true /\ open_ok tail = true /\ t = template_text ps +:+ open_tail tail.
Proof.
  induction n as [|n IH]; intros t Hn.
  { exists [], None. by destruct t; [|cbn in Hn; lia]. }
  destruct (split_once "{"%char t) as [[before after]|] eqn:E.
  - pose proof (length_split_once _ _ _ _ E). apply split_once_spec in E as [-> Hb].
    destruct (split_once "}"%char after) as [[name rest]|] eqn:E2.
    + pose proof (length_split_once _ _ _ _ E2). apply split_once_spec in E2 as [-> Hname].
      destruct (IH rest ltac:(lia)) as (ps & tail & Hps & Ht & ->).
      exists (Lit before :: Hole name :: ps), tail. cbn [forallb piece_ok]. rewrite Hb, Hname.
      split_and!; [done | done |]. unfold template_text. cbn [map piece_text concat_str].
      by rewrite <-!app_assoc_str.
    + exists [Lit before], (Some after). cbn. rewrite Hb, (proj1 (split_once_none _ _) E2), app_nil_str. done.
  - exists [Lit t], None. cbn. by rewrite (proj1 (split_once_none _ _) E), !app_nil_str.
Qed.

(** The sentence shown to the operator is the template with the fields in their
    places.  Every template is text, named places and perhaps one brace that is never
    closed; a place takes the text of its field, or stays as it is written; what follows
    the open brace is shown twice. *)
Theorem intent_is_filled (template : string) :
  exists ps tail, forallb piece_ok ps = true /\ open_ok tail = true /\
    template = template_text ps +:+ open_tail tail /\
    forall fields, interpolate_intent template fields =
      fill fields ps +:+ open_tail tail +:+ open_tail tail.
Proof.
  destruct (template_of (String.length template) template ltac:(lia)) as (ps & tail & Hps & Ht & E).
  exists ps, tail. split_and!; [done | done | done |]. intros fields. unfold interpolate_intent.
  rewrite E at 2. apply interpolate_pieces; [done | done |]. rewrite <-E. lia.
Qed.

(** An audit row that commits to an intent commits to the sentence and to the digest
    at once: equal commitments mean the same sentence and the same digest, unless the two
    committed strings collide. *)
Theorem intent_commitment_binds `{Crypto} (t t' : string) (d d' : bytes) :
  length d = 32%nat -> length d' = 32%nat -> commit_intent t d = commit_intent t' d' ->
  (t = t' /\ d = d') \/ collides (commitment_preimage t d) (commitment_preimage t' d').
Proof.
  intros Hd Hd' [E|Hc]%keccak_equal; [left | by right]. unfold commitment_preimage in E.
  apply app_inj_2 in E as [Et Ed]; [|by rewrite !length_app, Hd, Hd'].
  injection Ed as ->. split; [|done]. unfold as_bytes in Et.
  by rewrite <-(String.string_of_list_byte_of_string t), Et, String.string_of_list_byte_of_string.
Qed.

(** ** Amounts *)

Definition is_digits (s : string) : bool := negb (String.eqb s "") && string_all is_ascii_digit s.

(** The number of units that an amount with a point stands for, at [decimals] places. *)
Definition amount_units (decimals : Z) (t : string) : option Z :=
  match split_once "."%char t with
  | Some (i, f) =>
      if is_digits i && is_digits f && (Z.of_nat (String.length f) <=? decimals)
      then Some (dec_number 0 i * 10 ^ decimals + dec_number 0 f * 10 ^ (decimals - Z.of_nat (String.length f)))
      else None
  | None => if is_digits t then Some (dec_number 0 t * 10 ^ decimals) else None
  end.

Lemma substring_head a b : String.substring 0 (String.length a) (a +:+ b) = a.
Proof. induction a as [|c a IH]; [by destruct b|]. change (String c (String.substring 0 (String.length a) (a +:+ b)) = String c a). by rewrite IH. Qed.

Lemma substring_tail a b : String.substring (String.length a) (String.length b) (a +:+ b) = b.
Proof.
  induction a as [|c a IH]; [|done]. change ("" +:+ b) with b.
  pose proof (substring_head b "") as E. by rewrite app_nil_str in E.
Qed.

Lemma split_string n : forall s, (n <= String.length s)%nat -> exists a b, s = a +:+ b /\ String.length a = n.
Proof.
  induction n as [|n IH]; intros s Hn; [by exists "", s|]. destruct s as [|c s]; [cbn in Hn; lia|].
  destruct (IH s) as (a & b & -> & <-); [cbn in Hn; lia|]. by exists (String c a), b.
Qed.

Lemma str_take_drop a b : str_take (String.length a) (a +:+ b) = a /\ str_drop (String.length a) (a +:+ b) = b.
Proof.
  unfold str_take, str_drop. split; [apply substring_head|]. rewrite length_app_str.
  replace (String.length a + String.length b - String.length a)%nat with (String.length b) by lia.
  apply substring_tail.
Qed.

Lemma digit_boundary s i : string_all is_ascii_digit s = true -> (i <= String.length s)%nat ->
  is_char_boundary s i = true.
Proof.
  unfold is_char_boundary. revert i. induction s as [|c s IH]; intros i Hs Hi; cbn [string_all] in Hs.
  { cbn in Hi. by replace i with 0%nat by lia. }
  apply andb_true_iff in Hs as [Hc Hs]. destruct i as [|i]; cbn [String.get].
  - pose proof (ascii_forall (fun c => implb (is_ascii_digit c)
      (negb ((128 <=? byte_of c) && (byte_of c <? 192)))) eq_refl c) as Hall.
    cbv beta in Hall. by rewrite Hc in Hall.
  - cbn [String.length] in Hi |- *. specialize (IH i Hs ltac:(lia)). destruct (String.get i s); [done|]. exact IH.
Qed.

Lemma digits_chars s : string_all is_ascii_digit s = true -> chars_count s = Z.of_nat (String.length s).
Proof.
  induction s as [|c s IH]; [done|]. cbn [string_all]. intros [Hc Hs]%andb_true_iff.
  cbn [chars_count String.length]. rewrite IH by done.
  pose proof (ascii_forall (fun c => implb (is_ascii_digit c)
      (negb ((128 <=? byte_of c) && (byte_of c <? 192)))) eq_refl c) as Hall.
  cbv beta in Hall. rewrite Hc in Hall. cbn [implb] in Hall. apply negb_true_iff in Hall. rewrite Hall. lia.
Qed.

Lemma dec_number_app a b : forall acc, dec_number acc (a +:+ b) = dec_number (dec_number acc a) b.
Proof. induction a as [|c a IH]; intros acc; [done|]. apply IH. Qed.

Lemma dec_number_shift s : forall acc,
  dec_number acc s = acc * 10 ^ Z.of_nat (String.length s) + dec_number 0 s.
Proof.
  induction s as [|c s IH]; intros acc; [cbn; lia|].
  cbn [dec_number String.length]. rewrite IH, (IH (0 * 10 + _)).
  rewrite Nat2Z.inj_succ, Z.pow_succ_r by lia. lia.
Qed.

Lemma pad_zero_facts n s : String.length (pad_zero n s) = (n + String.length s)%nat /\
  string_all is_ascii_digit (pad_zero n s) = string_all is_ascii_digit s /\
  dec_number 0 (pad_zero n s) = dec_number 0 s.
Proof. induction n as [|n (Hl & Ha & Hn)]; [done|]. cbn. by rewrite Hl, Ha. Qed.

(** Trailing zeros count nothing behind the point. *)
Lemma trim_zeros f : string_all is_ascii_digit f = true ->
  let g := trim_end_char "0"%char f in
  string_all is_ascii_digit g = true /\ (String.length g <= String.length f)%nat /\
  dec_number 0 f = dec_number 0 g * 10 ^ Z.of_nat (String.length f - String.length g).
Proof.
  induction f as [|c f IH]; [done|]. cbn [string_all trim_end_char]. cbv zeta. intros [Hc Hf]%andb_true_iff.
  destruct (IH Hf) as (Hg & Hl & Hn). cbn [dec_number]. rewrite (dec_number_shift f), Hn.
  destruct (trim_end_char "0"%char f) as [|a g].
  - destruct (Ascii.eqb_spec c "0"%char) as [->|Hne].
    + split_and!; [done | cbn; lia |]. change (dec_value "0"%char) with (Some 0). cbn [dec_number from_option id]. lia.
    + cbn [string_all]. rewrite Hc. split_and!; [done | cbn; lia |]. cbn [dec_number String.length].
      rewrite !Nat.sub_0_r. replace (S (String.length f) - 1)%nat with (String.length f) by lia. lia.
  - cbn [string_all] in *. rewrite Hc. split_and!; [done | cbn in *; lia |].
    revert Hl. generalize (String a g). clear -c. intros g Hl. cbn [dec_number String.length] in *.
    rewrite (dec_number_shift g (0 * 10 + _)).
    replace (Z.of_nat (String.length f)) with
      (Z.of_nat (String.length g) + Z.of_nat (String.length f - String.length g)) by lia.
    rewrite Z.pow_add_r by lia.
    replace (S (String.length f) - S (String.length g))%nat with (String.length f - String.length g)%nat by lia.
    ring.
Qed.

Lemma digits_no_point s : string_all is_ascii_digit s = true -> string_has "."%char s = false.
Proof. intros Hs. by apply (string_all_no is_ascii_digit). Qed.

Lemma amount_units_plain d t : is_digits t = true -> amount_units d t = Some (dec_number 0 t * 10 ^ d).
Proof.
  intros Ht. unfold amount_units. rewrite split_once_absent; [by rewrite Ht|].
  apply digits_no_point. unfold is_digits in Ht. by reflect_bools.
Qed.

Lemma amount_units_point d i f : is_digits i = true -> is_digits f = true -> Z.of_nat (String.length f) <= d ->
  amount_units d (i +:+ "." +:+ f) =
  Some (dec_number 0 i * 10 ^ d + dec_number 0 f * 10 ^ (d - Z.of_nat (String.length f))).
Proof.
  intros Hi Hf Hl. unfold amount_units.
  rewrite (proj2 (split_once_spec _ _ i f)).
  2: { split; [done|]. apply digits_no_point. unfold is_digits in Hi. by reflect_bools. }
  by rewrite Hi, Hf, (proj2 (Z.leb_le _ _)).
Qed.

(** Splitting digits [d] from the end and dropping trailing zeros keeps the amount. *)
Lemma point_exact i f : is_digits i = true -> string_all is_ascii_digit f = true ->
  let g := trim_end_char "0"%char f in
  amount_units (Z.of_nat (String.length f)) (if String.eqb g "" then i else i +:+ "." +:+ g)
  = Some (dec_number 0 (i +:+ f)).
Proof.
  intros Hi Hf. cbv zeta. destruct (trim_zeros f Hf) as (Hg & Hl & Hn).
  rewrite dec_number_app, dec_number_shift, Hn.
  destruct (String.eqb_spec (trim_end_char "0"%char f) "") as [E|Hne].
  - rewrite amount_units_plain by done. rewrite E. cbn [dec_number]. f_equal. lia.
  - rewrite amount_units_point; [| done | | lia].
    + by rewrite Nat2Z.inj_sub by done.
    + unfold is_digits. by rewrite Hg, (proj2 (String.eqb_neq _ _)).
Qed.

(** The text of an amount reads back as the amount. *)
Lemma fixed_point_exact s d t : is_digits s = true -> 0 <= d -> fixed_point s d = Some t ->
  amount_units d t = Some (dec_number 0 s).
Proof.
  intros Hs Hd. unfold fixed_point. destruct (Z.eqb_spec d 0) as [->|Hne].
  { intros [= <-]. rewrite amount_units_plain by done. f_equal. lia. }
  assert (Hall : string_all is_ascii_digit s = true) by (unfold is_digits in Hs; by reflect_bools).
  intros (padded & Hp & Ht)%bind_Some.
  assert (Hpad : string_all is_ascii_digit padded = true /\ dec_number 0 padded = dec_number 0 s /\
    d < Z.of_nat (String.length padded)).
  { destruct (Z.leb_spec (Z.of_nat (String.length s)) d).
    - unfold pad_left_zero in Hp. destruct (u16_max <? d + 1); [done|]. injection Hp as <-.
      rewrite digits_chars by done.
      destruct (pad_zero_facts (Z.to_nat (d + 1 - Z.of_nat (String.length s))) s) as (-> & -> & ->).
      split_and!; [done | done | lia].
    - injection Hp as <-. split_and!; [done | done | lia]. }
  destruct Hpad as (Hpa & <- & Hlen).
  destruct (split_string (Z.to_nat (Z.of_nat (String.length padded) - d)) padded) as (i & f & -> & Hi); [lia|].
  rewrite length_app_str in Hlen, Ht, Hi. rewrite string_all_app in Hpa. apply andb_true_iff in Hpa as [Hia Hfa].
  assert (Hf : Z.of_nat (String.length f) = d) by lia.
  replace (Z.to_nat (Z.of_nat (String.length i + String.length f) - d)) with (String.length i) in Ht by lia.
  unfold split_at in Ht. rewrite digit_boundary in Ht.
  2: { by rewrite string_all_app, Hia, Hfa. }
  2: { rewrite length_app_str. lia. }
  destruct (str_take_drop i f) as [-> ->] in Ht. cbn [mbind option_bind] in Ht. injection Ht as <-.
  rewrite <-Hf. apply point_exact; [|done]. unfold is_digits. rewrite Hia.
  destruct i; [cbn in Hlen; lia | done].
Qed.

Lemma fixed_point_shown s d : is_digits s = true -> 0 <= d < u16_max -> is_Some (fixed_point s d).
Proof.
  intros Hs Hd. unfold fixed_point. destruct (d =? 0); [by eexists|].
  assert (Hall : string_all is_ascii_digit s = true) by (unfold is_digits in Hs; by reflect_bools).
  unfold pad_left_zero. rewrite (proj2 (Z.ltb_ge u16_max (d + 1))) by lia.
  assert (Hpad : forall p, string_all is_ascii_digit p = true ->
    is_Some ('(int_part, frac_part) ← split_at p (Z.to_nat (Z.of_nat (String.length p) - d));
      Some (if String.eqb (trim_end_char "0"%char frac_part) "" then int_part
            else int_part +:+ "." +:+ trim_end_char "0"%char frac_part))).
  { intros p Hp. unfold split_at. rewrite digit_boundary by (done || lia). by eexists. }
  destruct (_ <=? d); cbn [mbind option_bind]; apply Hpad; [|done].
  by rewrite (proj1 (proj2 (pad_zero_facts _ s))).
Qed.

(** ** From the message to the text *)

Section Shown.
Context `{SerdeJson}.

Lemma render_all_other message k fs : forall acc r,
  render_all message acc fs = Some r -> k ∉ map path fs -> by_path r !! k = by_path acc !! k.
Proof.
  induction fs as [|f fs IH]; intros acc r; cbn [render_all map]; [by intros [= <-]|].
  intros (acc' & Hone & Hr)%bind_Some Hk. rewrite (IH acc' r Hr) by set_solver.
  unfold render_one in Hone. apply bind_Some in Hone as (t & _ & [= <-]). cbn [by_path].
  apply lookup_insert_ne. set_solver.
Qed.

Lemma render_all_field message f fs : forall acc r, NoDup (map path fs) -> f ∈ fs ->
  render_all message acc fs = Some r ->
  exists t, render_field f (lookup_path message (path f)) = Some t /\ by_path r !! path f = Some t.
Proof.
  induction fs as [|g fs IH]; intros acc r Hnd Hf; [set_solver|]. cbn [render_all map] in *.
  apply NoDup_cons in Hnd as [Hg Hnd]. intros (acc' & Hone & Hr)%bind_Some.
  apply elem_of_cons in Hf as [->|Hf]; [|by eapply IH].
  unfold render_one in Hone. apply bind_Some in Hone as (t & Ht & [= <-]). exists t. split; [done|].
  rewrite (render_all_other message (path g) fs _ _ Hr Hg). cbn [by_path]. apply lookup_insert_eq.
Qed.

(** A key of the message itself. *)
Definition simple_path (k : string) : bool :=
  negb (string_has "."%char k) && negb (is_ok (u64_dec k)).

Lemma split_char_absent c s : string_has c s = false -> split_char c s = [s].
Proof.
  induction s as [|a s IH]; [done|]. rewrite string_has_cons. intros [Ha Hs]%orb_false_iff.
  cbn [split_char]. rewrite Ascii.eqb_sym, Ha, IH by done. done.
Qed.

Lemma lookup_simple obj k : simple_path k = true -> lookup_path (JObject obj) k = obj_get k obj.
Proof.
  unfold simple_path, lookup_path. intros Hk. reflect_bools. rewrite split_char_absent by done. cbn [walk].
  destruct (u64_dec k); [done|]. cbn [get]. by destruct (obj_get k obj).
Qed.

(** The decimal text of a JSON value. *)
Definition decimal_text (v : Json) : option string :=
  match v with
  | JString s => if is_digits s then Some s else None
  | JNumber (PosInt n) => if 0 <=? n then Some (dec n) else None
  | _ => None
  end.

Lemma dec_is_digits n : 0 <= n -> is_digits (dec n) = true.
Proof.
  intros Hn. unfold is_digits. rewrite dec_digits, andb_true_r. apply negb_true_iff, String.eqb_neq.
  intros E. pose proof (Numerals.from_dec n n ltac:(lia)) as Hd. by rewrite E in Hd.
Qed.

Lemma decimal_text_digits v s : decimal_text v = Some s ->
  is_digits s = true /\ (forall f t, number_or_string v f t = Ok s) /\
  (match v with JString s => Some s | JNumber n => Some (number_text n) | _ => None end) = Some s.
Proof.
  destruct v as [| |n|t| |]; cbn [decimal_text]; try done.
  - destruct n as [n|n|x]; try done. destruct (Z.leb_spec 0 n); [|done]. intros [= <-].
    split_and!; [by apply dec_is_digits | done | done].
  - destruct (is_digits t) eqn:E; [|done]. by intros [= <-].
Qed.

Lemma digit_not_whitespace c : is_ascii_digit c = true -> negb (is_whitespace c) = true.
Proof.
  intros Hc. pose proof (ascii_forall (fun c => implb (is_ascii_digit c) (negb (is_whitespace c))) eq_refl c) as Hall.
  cbv beta in Hall. by rewrite Hc in Hall.
Qed.

Lemma digits_number s : is_digits s = true -> text_number s = Some (dec_number 0 s).
Proof.
  intros Hs. unfold text_number. unfold is_digits in Hs. reflect_bools.
  rewrite trim_id by (eapply string_all_impl; [apply digit_not_whitespace | done]).
  assert (Hx : strip_0x s = None).
  { destruct (strip_0x s) as [h|] eqn:E; [|done]. exfalso. unfold strip_0x in E.
    destruct (strip_prefix "0x" s) as [h'|] eqn:E'; [apply strip_prefix_spec in E' as -> |
      apply strip_prefix_spec in E as ->]; by rewrite string_all_app in H1. }
  rewrite Hx. rewrite H1, (proj2 (String.eqb_neq _ _)) by done. done.
Qed.

Definition decimals_of (f : Erc7730Field) : Z := default 0 (v ← get (params f) "decimals"; as_u64 v).
Definition ticker_of (f : Erc7730Field) : string := default "" (v ← get (params f) "ticker"; as_str v).

Definition with_ticker (amount ticker : string) : string :=
  if String.eqb ticker "" then amount else amount +:+ " " +:+ ticker.

Lemma render_digits v s f t : decimal_text v = Some s -> 0 <= decimals_of f ->
  format f = "tokenAmount" -> render_field f (Some v) = Some t ->
  exists amount, amount_units (decimals_of f) amount = Some (dec_number 0 s) /\ t = with_ticker amount (ticker_of f).
Proof.
  intros (Hs & _ & Hshape)%decimal_text_digits Hd Hfmt. unfold render_field. rewrite Hfmt. cbn [String.eqb].
  change (String.eqb "tokenAmount" "tokenAmount") with true. cbv iota. unfold render_token_amount. cbv zeta.
  fold (decimals_of f) (ticker_of f). rewrite Hshape.
  assert (Hfirst : trim_start_char "-"%char s = s /\ starts_with "-" s = false).
  { unfold is_digits in Hs. destruct s as [|c s]; [done|]. cbn [string_all] in Hs. reflect_bools.
    assert (Hm : Ascii.eqb c "-"%char = false) by (apply Ascii.eqb_neq; by intros ->).
    split; cbn; [by rewrite Hm|]. unfold starts_with. cbn [strip_prefix]. 
    destruct (Ascii.eqb_spec "-" c) as [<-|]; [done|]. done. }
  destruct Hfirst as [-> ->]. intros (amount & Ha & [= <-])%bind_Some. exists amount.
  split; [by apply fixed_point_exact | done].
Qed.
End Shown.

Section ShownFacts.
Context `{Crypto} `{HexCodec} `{SerdeJson}.
Variable hex_error : string -> string.

Lemma build_preview_inv catalog td p : build_preview hex_error catalog td = Some (Ok p) ->
  exists d file fmt template r, compute_digests hex_error td = Some (Ok d) /\
    match_file catalog td = Some file /\ formats file !! primary_type td = Some fmt /\
    intent fmt = Some template /\ render (message td) fmt = Some r /\
    shown p = iter_pairs r fmt /\ intent_text p = interpolate_intent template r /\
    intent_commitment p = commit_intent (intent_text p) (final_digest d).
Proof.
  unfold build_preview. intros ([d|e] & Hd & Hp)%bind_Some; [|done].
  destruct (match_file catalog td) as [file|]; [|done].
  destruct (formats file !! primary_type td) as [fmt|] eqn:Ef; [|done].
  destruct (intent fmt) as [template|] eqn:Ei; [|done].
  apply bind_Some in Hp as (q & Hq & [= <-]). unfold show in Hq. apply bind_Some in Hq as (r & Hr & [= <-]).
  by exists d, file, fmt, template, r.
Qed.

(** The number behind a field of the message with an unsigned type. *)
Lemma message_word td text vs obj fs i k suffix bits v s :
  message_val hex_error td = Some (Ok (Struct text vs)) -> message td = JObject obj ->
  types td !! primary_type td = Some fs ->
  fs !! i = Some {| name := k; ty := "uint" +:+ suffix |} ->
  parse_int_bits suffix = Some bits -> types td !! ("uint" +:+ suffix) = None ->
  obj_get k obj = Some v -> decimal_text v = Some s ->
  vs !! i = Some (Number (dec_number 0 s)) /\ 0 <= dec_number 0 s < 2 ^ bits.
Proof.
  intros Hm Hobj Hfs Hi Hbits Hnone Hk Hs. apply decimal_text_digits in Hs as (Hdig & Hnum & _).
  apply struct_val_inv in Hm as (text' & obj' & fs' & vs' & _ & Hobj' & Hfs' & [= <- <-] & Hall).
  rewrite Hfs in Hfs'. injection Hfs' as <-. rewrite Hobj in Hobj'. injection Hobj' as <-.
  destruct (Forall2_lookup_l _ _ _ _ _ Hall Hi) as (w & Hw & Hval). cbn [ty name] in Hval.
  rewrite Hk in Hval. cbn [from_option id] in Hval.
  assert (Harr : parse_array_outer ("uint" +:+ suffix) = None).
  { unfold parse_array_outer. destruct (strip_suffix_char "]"%char ("uint" +:+ suffix)) as [st|] eqn:E; [|done].
    apply strip_suffix_char_spec in E. exfalso. unfold parse_int_bits in Hbits.
    assert (Hno : string_has "]"%char ("uint" +:+ suffix) = false).
    { rewrite string_has_app. destruct (String.eqb_spec suffix "") as [->|]; [done|].
      apply bind_Some in Hbits as (width & Hn & _). cbn [orb].
      by rewrite (parse_u32_no_char "]"%char suffix width). }
    rewrite E, string_has_app in Hno. by rewrite orb_true_r in Hno. }
  destruct (height (message td)) as [|h]; [done|]. cbn [field_val] in Hval. rewrite Harr, Hnone in Hval.
  cbn [is_some] in Hval. injection Hval as Hval. unfold primitive_val in Hval. cbn [String.eqb append] in Hval.
  change (strip_prefix "uint" (String "u" (String "i" (String "n" (String "t" suffix))))) with (Some suffix) in Hval.
  cbv iota in Hval. apply let_ok in Hval as (b & Hb & Hval). rewrite Hbits in Hb. injection Hb as <-.
  unfold number_val in Hval. rewrite Hnum, (digits_number s Hdig) in Hval. cbn [ok_or] in Hval.
  apply guard_ok in Hval as [Hr [= <-]].
  reflect_bools. split; [done|lia].
Qed.
End ShownFacts.

(** C19: the amount the operator reads is the amount that is signed.  Where a preview
    is built and its format shows a field of the message as a token amount, and the
    request gives that field in decimal, the text shown beside the label reads back, at
    the decimals of the format, as the very number whose word the digest commits to. *)
Theorem shown_amount_is_signed `{Crypto} `{HexCodec} `{SerdeJson} (hex_error : string -> string)
    (catalog : list Erc7730File) (td : TypedData) (p : ClearSigningPreview) (file : Erc7730File)
    (fmt : Erc7730Format) (fld : Erc7730Field) (fs : list TypeField) (i : nat) (suffix : string)
    (bits : Z) (obj : list (string * Json)) (v : Json) (s : string)
    (Hp : build_preview hex_error catalog td = Some (Ok p))
    (Hfile : match_file catalog td = Some file)
    (Hfmt : formats file !! primary_type td = Some fmt)
    (Hnd : NoDup (map path (fields fmt))) (Hfld : fld ∈ fields fmt)
    (Hamount : format fld = "tokenAmount") (Hdec : 0 <= decimals_of fld)
    (Hpath : simple_path (path fld) = true)
    (Hfs : types td !! primary_type td = Some fs)
    (Hi : fs !! i = Some {| name := path fld; ty := "uint" +:+ suffix |})
    (Hbits : parse_int_bits suffix = Some bits) (Hprim : types td !! ("uint" +:+ suffix) = None)
    (Hobj : message td = JObject obj) (Hv : obj_get (path fld) obj = Some v)
    (Hs : decimal_text v = Some s) :
  exists text vs n amount,
    message_val hex_error td = Some (Ok (Struct text vs)) /\
    vs !! i = Some (Number n) /\ 0 <= n < 2 ^ bits /\
    amount_units (decimals_of fld) amount = Some n /\
    (default (path fld) (label fld), with_ticker amount (ticker_of fld)) ∈ shown p.
Proof.
  apply build_preview_inv in Hp as (d & file' & fmt' & template & r & Hd & Hfile' & Hfmt' & _ & Hr & -> & _).
  rewrite Hfile in Hfile'. injection Hfile' as <-. rewrite Hfmt in Hfmt'. injection Hfmt' as <-.
  apply compute_digests_ok in Hd as (dv & mv & _ & Hmv & _).
  pose proof Hmv as Hinv. apply struct_val_inv in Hinv as (text & ? & ? & vs & _ & _ & _ & -> & _).
  destruct (message_word hex_error td text vs obj fs i (path fld) suffix bits v s) as [Hw Hrange]; try done.
  destruct (render_all_field (message td) fld (fields fmt) _ r Hnd Hfld Hr) as (t & Ht & Hby).
  rewrite Hobj, (lookup_simple obj _ Hpath), Hv in Ht.
  destruct (render_digits v s fld t Hs Hdec Hamount Ht) as (amount & Ha & ->).
  exists text, vs, (dec_number 0 s), amount. split_and!; [done | done | lia | lia | done |].
  unfold iter_pairs. apply list_elem_of_In, in_map_iff. exists fld. rewrite Hby.
  split; [done | by apply list_elem_of_In].
Qed.

(** ** Witnesses *)

Definition usdc_field (p l f : string) (ps : Json) : Erc7730Field :=
  {| path := p; label := Some l; format := f; params := ps |}.

Definition usdc_amount : Erc7730Field := usdc_field "value" "Amount" "tokenAmount"
  (JObject [("decimals", JNumber (PosInt 6)); ("ticker", JString "USDC")]).

Definition usdc_permit : Erc7730Format := {|
  intent := Some "Approve {value} to spender {spender}";
  fields := [usdc_field "spender" "Spender" "address" (JObject [("truncate", JBool true)]); usdc_amount] |}.

Definition usdc_domain : Erc7730Eip712Domain := {|
  domain_name := Some "USD Coin"; version := Some "2"; chain_id := Some 1; verifying_contract := None |}.

Definition usdc_file : Erc7730File := {|
  eip712_domain := Some usdc_domain; metadata := JNull; formats := {["Permit" := usdc_permit]} |}.

Definition permit_fields : list TypeField := [field "address" "spender"; field "uint256" "value"].

Definition permit (value : Json) : TypedData := {|
  domain := JObject [("chainId", JNumber (PosInt 1)); ("name", JString "USD Coin"); ("version", JString "2")];
  types := list_to_map [(EIP712Domain, [field "string" "name"; field "string" "version"; field "uint256" "chainId"]);
    ("Permit", permit_fields)];
  primary_type := "Permit";
  message := JObject [("spender", JString "0xaaaabbbbccccddddeeeeffff0000111122223333"); ("value", value)] |}.

Definition preview_of (td : TypedData) : option (result ClearSigningError ClearSigningPreview) :=
  build_preview (H := ToySse.json) (H0 := ToyCrypto.crypto) (H1 := SimpleHex.codec) no_hex_error [usdc_file] td.

Example permit_shown :
  option_map (fun r => match r with Ok p => Some (intent_text p, shown p) | Err _ => None end)
    (preview_of (permit (JString "1500000")))
  = Some (Some ("Approve 1.5 USDC to spender 0xaaaa…3333",
      [("Spender", "0xaaaa…3333"); ("Amount", "1.5 USDC")])).
Proof. vm_compute. reflexivity. Qed.

Definition permit_preview : ClearSigningPreview :=
  match preview_of (permit (JString "1500000")) with
  | Some (Ok p) => p
  | _ => {| typed_data := permit JNull; digests := digests_of (permit JNull); intent_text := "";
            intent_commitment := []; shown := [] |}
  end.

Lemma shown_amount_is_signed_witness :
  exists text vs n amount,
    message_val (H0 := SimpleHex.codec) no_hex_error (permit (JString "1500000"))
      = Some (Ok (Struct text vs)) /\
    vs !! 1%nat = Some (Number n) /\ 0 <= n < 2 ^ 256 /\
    amount_units (decimals_of usdc_amount) amount = Some n /\
    (default (path usdc_amount) (label usdc_amount), with_ticker amount (ticker_of usdc_amount)) ∈ shown permit_preview.
Proof.
  apply (shown_amount_is_signed (H := ToyCrypto.crypto) (H0 := SimpleHex.codec) (H1 := ToySse.json) no_hex_error
    [usdc_file] (permit (JString "1500000")) permit_preview usdc_file usdc_permit usdc_amount permit_fields 1%nat "256"
    256 [("spender", JString "0xaaaabbbbccccddddeeeeffff0000111122223333"); ("value", JString "1500000")]
    (JString "1500000") "1500000").
  - vm_compute. reflexivity.
  - vm_compute. reflexivity.
  - reflexivity.
  - apply (bool_decide_unpack _). vm_compute. exact I.
  - right. left.
  - reflexivity.
  - done.
  - reflexivity.
  - vm_compute. reflexivity.
  - reflexivity.
  - reflexivity.
  - vm_compute. reflexivity.
  - reflexivity.
  - reflexivity.
  - reflexivity.
Defined.

Lemma intent_commitment_binds_witness :
  ("foo" = "foo" /\ zeros 32 = zeros 32) \/
  collides (H := ToyCrypto.crypto) (commitment_preimage "foo" (zeros 32)) (commitment_preimage "foo" (zeros 32)).
Proof. apply (intent_commitment_binds (H := ToyCrypto.crypto) "foo" "foo" (zeros 32) (zeros 32)); reflexivity. Defined.

(** An amount given in hexadecimal is hashed as a number and shown as if its letters
    were digits. *)
Example hex_amount_shown :
  option_map (fun r => match r with Ok p => Some (shown p) | Err _ => None end)
    (preview_of (permit (JString "0x1e8480")))
  = Some (Some [("Spender", "0xaaaa…3333"); ("Amount", "0x.1e848 USDC")]) /\
  text_number "0x1e8480" = Some 2000000.
Proof. split; vm_compute; reflexivity. Qed.

(** What follows a brace that is never closed is shown twice. *)
Example open_brace_twice :
  interpolate_intent "Pay {value" {| by_path := ∅; by_leaf := ∅ |} = "Pay {value{value".
Proof. reflexivity. Qed.

(** An address text that is cut inside a character ends the process. *)
Example cut_inside_a_character :
  render_address (H := ToySse.json) (JString "abcde€fghijklm") JNull = None.
Proof. reflexivity. Qed.
