(* ===== verification/Catalog.v ===== *)
(** * The category catalog

    [crates/agentkeys-catalog/src/lib.rs]: entities map to categories, categories to
    sensitivity floors, and signed vendor overlays extend both.  A confidence is
    one of the constants of the source, in hundredths. *)
From S2P Require Import Prelude RustStr StrFacts Crates.

Inductive Sensitivity := Safe | Sensitive.

#[export] Instance Sensitivity_eq_dec : EqDecision Sensitivity.
Proof. solve_decision. Defined.

Definition max (a b : Sensitivity) : Sensitivity :=
  if bool_decide (a = Sensitive) || bool_decide (b = Sensitive) then Sensitive else Safe.

Record Classification := {
  category : string;
  sensitivity : Sensitivity;
  confidence : Z;
  source : string;
}.

Definition unknown : Classification :=
  {| category := "unknown"; sensitivity := Sensitive; confidence := 0; source := "unknown" |}.

Record VendorOverlay := {
  vendor : string;
  entries : gmap string string;
  sensitivities : gmap string Sensitivity;
}.

Record Entry := { e_category : string; e_source : string }.

Record Catalog := {
  version : Z;
  entities : gmap string Entry;
  floors : gmap string Sensitivity;
}.

Record CatalogSnapshot := {
  snap_version : Z;
  snap_entities : gmap string string;
  snap_floors : gmap string Sensitivity;
}.

(** ** The bundled catalog *)

Definition safe_categories : list string :=
  ["ai-services"; "productivity"; "communication"; "developer"; "media"; "social"; "shopping";
   "travel"; "news"].

Definition sensitive_categories : list string :=
  ["payments"; "exchange"; "financial"; "banking"; "access-control"; "health"; "cloud-infra";
   "identity"; "credentials"].

Definition bundled_entities : list (string * string) :=
  [("openrouter", "ai-services"); ("openai", "ai-services"); ("anthropic", "ai-services");
   ("groq", "ai-services"); ("together", "ai-services"); ("huggingface", "ai-services");
   ("github", "developer"); ("gitlab", "developer"); ("vercel", "developer");
   ("netlify", "developer"); ("npm", "developer");
   ("notion", "productivity"); ("linear", "productivity"); ("asana", "productivity");
   ("trello", "productivity"); ("airtable", "productivity");
   ("slack", "communication"); ("discord", "communication"); ("twilio", "communication");
   ("sendgrid", "communication");
   ("spotify", "media"); ("youtube", "media"); ("netflix", "media");
   ("amazon", "shopping"); ("shopify", "shopping");
   ("stripe", "payments"); ("paypal", "payments"); ("square", "payments");
   ("plaid", "financial"); ("wise", "financial");
   ("binance", "exchange"); ("coinbase", "exchange"); ("kraken", "exchange");
   ("chase", "banking");
   ("aws", "cloud-infra"); ("gcp", "cloud-infra"); ("azure", "cloud-infra");
   ("cloudflare", "cloud-infra");
   ("auth0", "identity"); ("okta", "identity");
   ("august-lock", "access-control"); ("yale-lock", "access-control"); ("ring", "access-control");
   ("epic", "health"); ("fitbit", "health")].

Definition bundled : Catalog :=
  {| version := 1;
     entities := fold_left (fun m p => <[p.1 := {| e_category := p.2; e_source := "catalog" |}]> m)
                   bundled_entities ∅;
     floors := fold_left (fun m c => <[c := Sensitive]> m) sensitive_categories
                 (fold_left (fun m c => <[c := Safe]> m) safe_categories ∅) |}.

(** ** Lookups *)

Definition floor (c : Catalog) (cat : string) : Sensitivity := default Sensitive (floors c !! cat).

Definition has_category (c : Catalog) (cat : string) : bool := is_some (floors c !! cat).

Definition snapshot (c : Catalog) : CatalogSnapshot :=
  {| snap_version := version c; snap_entities := e_category <$> entities c; snap_floors := floors c |}.

Definition classify_namespace (c : Catalog) (ns : string) : Classification :=
  let key := to_lowercase (trim ns) in
  let known := has_category c key in
  {| sensitivity := floor c key; confidence := if known then 90 else 50; category := key;
     source := "catalog" |}.

Definition tag (c : Catalog) (entity : string) : Classification :=
  let key := to_lowercase (trim entity) in
  match entities c !! key with
  | Some e => {| category := e_category e; sensitivity := floor c (e_category e);
                 confidence := if String.eqb (e_source e) "catalog" then 95 else 85;
                 source := e_source e |}
  | None => unknown
  end.

(** ** Overlays *)

Definition entities_insert (m : gmap string Entry) (entity cat src : string) : gmap string Entry :=
  <[to_lowercase (trim entity) := {| e_category := cat; e_source := src |}]> m.

Definition raise_floor (c : Catalog) (p : string * Sensitivity) : Catalog :=
  {| version := version c; entities := entities c;
     floors := <[p.1 := max (floor c p.1) p.2]> (floors c) |}.

Definition add_entity (src : string) (c : Catalog) (p : string * string) : Catalog :=
  {| version := version c; entities := entities_insert (entities c) p.1 p.2 src;
     floors := match floors c !! p.2 with
               | Some _ => floors c
               | None => <[p.2 := Sensitive]> (floors c)
               end |}.

Definition apply_overlay (c : Catalog) (o : VendorOverlay) : Catalog :=
  let src := "overlay:" +:+ vendor o in
  let c := fold_left raise_floor (in_key_order (sensitivities o)) c in
  let c := fold_left (add_entity src) (in_key_order (entries o)) c in
  {| version := u32_saturating_add (version c) 1; entities := entities c; floors := floors c |}.

Inductive OverlayError := Key (m : string) | SigDecode (m : string) | SigInvalid | Parse (m : string).

(** [serde_json::from_slice] for an overlay. *)
Class OverlayJson := { overlay_from_slice : bytes -> result string VendorOverlay }.

Section Signed.
Context `{Sha256, P256, OverlayJson}.

Definition verify_overlay_sig (json : bytes) (sig_b64url pem : string) : result OverlayError unit :=
  let digest := sha256 json in
  let? sig_bytes := map_err SigDecode (b64url_decode sig_b64url) in
  let? sig := map_err SigDecode (P256_Signature_from_slice sig_bytes) in
  let? vk := map_err Key (P256_from_public_key_pem pem) in
  guard! P256_verify vk digest sig else SigInvalid ;;
  Ok tt.

(** The catalog after the call and its answer. *)
Definition apply_signed_overlay (c : Catalog) (json : bytes) (sig_b64url pem : string)
    : Catalog * result OverlayError string :=
  match verify_overlay_sig json sig_b64url pem with
  | Err e => (c, Err e)
  | Ok _ =>
      match map_err Parse (overlay_from_slice json) with
      | Err e => (c, Err e)
      | Ok o => (apply_overlay c o, Ok (vendor o))
      end
  end.
End Signed.

(** Signed overlays, one after another: the document, signature and key of each. *)
Definition run `{Sha256, P256, OverlayJson} (c : Catalog) (calls : list (bytes * string * string)) : Catalog :=
  fold_left (fun c '(json, sig, pem) => (apply_signed_overlay c json sig pem).1) calls c.

(** ** Lemmas *)

Definition norm (entity : string) : string := to_lowercase (trim entity).

(** [c'] keeps every floor of [c] or raises it, and adds sensitive ones only. *)
Definition floors_kept (c c' : Catalog) : Prop :=
  forall cat, floor c cat = Sensitive -> floor c' cat = Sensitive.

Lemma floors_kept_refl c : floors_kept c c.
Proof. by intros cat. Qed.

Lemma floors_kept_trans a b c : floors_kept a b -> floors_kept b c -> floors_kept a c.
Proof. intros Hab Hbc cat Hc. auto. Qed.

Lemma raise_kept c p : floors_kept c (raise_floor c p).
Proof.
  intros cat Hc. unfold raise_floor, floor in *. cbn. destruct (decide (p.1 = cat)) as [<-|Hne].
  - rewrite lookup_insert_eq. cbn. unfold max. by rewrite Hc.
  - by rewrite lookup_insert_ne.
Qed.

Lemma add_kept src c p : floors_kept c (add_entity src c p).
Proof.
  intros cat Hc. unfold add_entity, floor in *. cbn. destruct (floors c !! p.2) eqn:E; [done|].
  destruct (decide (p.2 = cat)) as [<-|Hne]; [by rewrite lookup_insert_eq | by rewrite lookup_insert_ne].
Qed.

Lemma fold_kept {A} (f : Catalog -> A -> Catalog) l c :
  (forall c x, floors_kept c (f c x)) -> floors_kept c (fold_left f l c).
Proof.
  intros Hf. revert c. induction l as [|x l IH]; intros c; cbn; [apply floors_kept_refl|].
  eapply floors_kept_trans; [apply Hf | apply IH].
Qed.

Lemma overlay_kept c o : floors_kept c (apply_overlay c o).
Proof.
  assert (Hk : floors_kept c (fold_left (add_entity ("overlay:" +:+ vendor o)) (in_key_order (entries o))
    (fold_left raise_floor (in_key_order (sensitivities o)) c))).
  { eapply floors_kept_trans.
    - exact (fold_kept raise_floor (in_key_order (sensitivities o)) c raise_kept).
    - apply (fold_kept (add_entity _)). apply add_kept. }
  exact Hk.
Qed.

Lemma raise_entities l c : entities (fold_left raise_floor l c) = entities c.
Proof. revert c. induction l as [|p l IH]; intros c; cbn; [done|]. by rewrite IH. Qed.

Lemma add_untouched src l c k :
  (forall p, p ∈ l -> norm p.1 <> k) -> entities (fold_left (add_entity src) l c) !! k = entities c !! k.
Proof.
  revert c. induction l as [|p l IH]; intros c Hl; cbn; [done|].
  rewrite IH by set_solver. cbn. unfold entities_insert. apply lookup_insert_ne. apply Hl. set_solver.
Qed.

Definition names (o : VendorOverlay) (entity : string) : Prop :=
  exists k, is_Some (entries o !! k) /\ norm k = norm entity.

Lemma overlay_untouched c o entity : ~ names o entity ->
  entities (apply_overlay c o) !! norm entity = entities c !! norm entity.
Proof.
  intros Hn. unfold apply_overlay. cbn [entities]. rewrite add_untouched.
  - by rewrite raise_entities.
  - intros [k cat] Hin%elem_of_in_key_order Heq. apply Hn. exists k. by split; [eexists|].
Qed.

Section SignedFacts.
Context `{Sha256, P256, OverlayJson}.

Lemma signed_step c json sig pem :
  (apply_signed_overlay c json sig pem).1 = c \/
  (exists o bytes s vk,
     overlay_from_slice json = Ok o /\ (apply_signed_overlay c json sig pem).1 = apply_overlay c o /\
     b64url_decode sig = Ok bytes /\ P256_Signature_from_slice bytes = Ok s /\
     P256_from_public_key_pem pem = Ok vk /\ P256_verify vk (sha256 json) s = true).
Proof.
  unfold apply_signed_overlay. destruct (verify_overlay_sig json sig pem) as [u|] eqn:E; [|by left].
  destruct (overlay_from_slice json) as [o|]; [|by left]. right.
  unfold verify_overlay_sig in E. cbv zeta in E.
  apply let_ok in E as (b & Hb%map_err_ok & E). apply let_ok in E as (s & Hs%map_err_ok & E).
  apply let_ok in E as (vk & Hvk%map_err_ok & E). apply guard_ok in E as [Hv _].
  by exists o, b, s, vk.
Qed.

Lemma run_kept c calls : floors_kept c (run c calls).
Proof.
  unfold run. apply fold_kept. intros c' [[json sig] pem].
  destruct (signed_step c' json sig pem) as [-> | (o & b & s & vk & _ & -> & _)];
    [apply floors_kept_refl | apply overlay_kept].
Qed.

Lemma run_untouched c calls entity :
  (forall json sig pem o, (json, sig, pem) ∈ calls -> overlay_from_slice json = Ok o -> ~ names o entity) ->
  entities (run c calls) !! norm entity = entities c !! norm entity.
Proof.
  unfold run. revert c. induction calls as [|[[json sig] pem] calls IH]; intros c Hn; cbn; [done|].
  rewrite IH by (intros; eapply Hn; [by apply elem_of_cons; right | done]).
  destruct (signed_step c json sig pem) as [-> | (o & b & s & vk & Ho & -> & _)]; [done|].
  apply overlay_untouched. eapply Hn; [by apply elem_of_cons; left | done].
Qed.
End SignedFacts.

(** ** Properties *)

(** What vendor overlays can and cannot do.  Through any sequence of signed
    overlays: a category that was sensitive stays so, and one the catalog did not
    vouch for is sensitive; an entity that no overlay names keeps its category and,
    if sensitive, its tier; an entity that resolves to nothing is denied; and only
    a call whose signature verifies over the document changes the catalog.  But an
    overlay that proposes no tier at all can move a sensitive entity into a safe
    category: a door lock filed under media is tagged safe. *)
Theorem overlays_and_floors `{Sha256, P256, OverlayJson} (c : Catalog)
    (calls : list (bytes * string * string)) :
  let c' := run c calls in
  (forall cat, floor c cat = Sensitive -> floor c' cat = Sensitive) /\
  (forall ns, has_category c (norm ns) = false -> sensitivity (classify_namespace c' ns) = Sensitive) /\
  (forall entity,
     (forall json sig pem o, (json, sig, pem) ∈ calls -> overlay_from_slice json = Ok o -> ~ names o entity) ->
     category (tag c' entity) = category (tag c entity) /\
     (sensitivity (tag c entity) = Sensitive -> sensitivity (tag c' entity) = Sensitive)) /\
  (forall entity, entities c' !! norm entity = None -> tag c' entity = unknown) /\
  (forall json sig pem, (apply_signed_overlay c' json sig pem).1 <> c' ->
     exists bytes s vk, b64url_decode sig = Ok bytes /\ P256_Signature_from_slice bytes = Ok s /\
       P256_from_public_key_pem pem = Ok vk /\ P256_verify vk (sha256 json) s = true) /\
  (let o := {| vendor := "acme"; entries := {["august-lock" := "media"]}; sensitivities := ∅ |} in
   sensitivity (tag bundled "august-lock") = Sensitive /\
   sensitivity (tag (apply_overlay bundled o) "august-lock") = Safe).
Proof.
  intros c'. pose proof (run_kept c calls) as Hk. fold c' in Hk. split_and!.
  - exact Hk.
  - intros ns Hc. unfold classify_namespace. cbn [sensitivity]. fold (norm ns). apply Hk.
    unfold has_category, floor in *. by destruct (floors c !! norm ns).
  - intros entity Hn. pose proof (run_untouched c calls entity Hn) as Hu. fold c' in Hu.
    unfold tag. fold (norm entity). rewrite Hu.
    destruct (entities c !! norm entity); [|done]. cbn. split; [done|]. apply Hk.
  - intros entity Hnone. unfold tag. fold (norm entity). by rewrite Hnone.
  - intros json sig pem Hne. destruct (signed_step c' json sig pem) as [He | (o & b & s & vk & _ & _ & H4)];
      [done|]. by exists b, s, vk.
  - vm_compute. done.
Qed.
