(* ===== verification/Cron.v ===== *)
(** * Schedules in cron notation

    [crates/agentkeys-protocol/src/app_template.rs]: the five-field grammar
    ([validate_cron], [parse_cron_field]), the test against the wall clock
    ([cron_matches]) and the words of a schedule ([describe_cron]).  The numbers are
    [u32]; the loop over a field's values adds with the wrap-around of a release
    build.  [Item]s and [fires] are the reference: what a field says, as a set. *)
From S2P Require Import Prelude RustStr StrFacts.

Open Scope string_scope.
Open Scope Z_scope.

(** ** Fields *)

(** [while v <= end { push v; v += step }].  The values stay at or under [end] and
    never repeat, so [end + 1] rounds are enough: see [values_round]. *)
Fixpoint values (fuel : nat) (v stop step : Z) : list Z :=
  match fuel with
  | O => []
  | S fuel => if v <=? stop then v :: values fuel ((v + step) mod 2 ^ 32) stop step else []
  end.

Definition enough (stop : Z) : nat := S (Z.to_nat stop).

(** In a field up to 7 the value 7 is 0: Sunday. *)
Definition weekday_of (hi v : Z) : Z := if (hi =? 7) && (v =? 7) then 0 else v.

(** The part of an element before its step, and the step. *)
Definition parse_step (part : string) : result string (string * Z) :=
  match split_once "/"%char part with
  | Some (r, s) =>
      let? step := ok_or ("bad step '" +:+ s +:+ "'") (parse_u32 s) in
      guard! negb (step =? 0) else "step must be ≥ 1" ;;
      Ok (r, step)
  | None => Ok (part, 1)
  end.

Definition parse_range (lo hi : Z) (range : string) (step : Z) : result string (Z * Z) :=
  if String.eqb range "*" then Ok (lo, hi)
  else match split_once "-"%char range with
       | Some (a, b) =>
           let? a := ok_or ("bad range start '" +:+ a +:+ "'") (parse_u32 a) in
           let? b := ok_or ("bad range end '" +:+ b +:+ "'") (parse_u32 b) in
           guard! negb (b <? a) else ("range " +:+ dec a +:+ "-" +:+ dec b +:+ " is reversed") ;;
           Ok (a, b)
       | None =>
           let? v := ok_or ("bad value '" +:+ range +:+ "'") (parse_u32 range) in
           Ok (v, if 1 <? step then hi else v)
       end.

Definition parse_part (lo hi : Z) (part : string) : result string (list Z) :=
  guard! negb (String.eqb part "") else "empty list element" ;;
  let? (range, step) := parse_step part in
  let? (start, stop) := parse_range lo hi range step in
  guard! negb ((start <? lo) || (hi <? stop))
    else ("value out of range " +:+ dec lo +:+ "..=" +:+ dec hi) ;;
  Ok (map (weekday_of hi) (values (enough stop) start stop step)).

Fixpoint parse_parts (lo hi : Z) (parts : list string) : result string (list Z) :=
  match parts with
  | [] => Ok []
  | part :: parts =>
      let? vs := parse_part lo hi part in
      let? rest := parse_parts lo hi parts in
      Ok (vs ++ rest)%list
  end.

(** [dedup]: of equal neighbours the first. *)
Fixpoint dedup (l : list Z) : list Z :=
  match l with
  | x :: ((y :: _) as rest) => if x =? y then dedup rest else x :: dedup rest
  | _ => l
  end.

Definition parse_cron_field (field : string) (lo hi : Z) : result string (list Z) :=
  let? out := parse_parts lo hi (split_char ","%char field) in
  Ok (dedup (merge_sort Z.le out)).

(** ** Expressions *)

Definition cron_bounds : list (Z * Z * string) :=
  [(0, 59, "minute"); (0, 23, "hour"); (1, 31, "day-of-month"); (1, 12, "month"); (0, 7, "day-of-week")].

Fixpoint validate_fields (fields : list string) (bounds : list (Z * Z * string)) : result string unit :=
  match fields, bounds with
  | f :: fields, (lo, hi, name) :: bounds =>
      let? _ := map_err (fun e => name +:+ " field '" +:+ f +:+ "': " +:+ e) (parse_cron_field f lo hi) in
      validate_fields fields bounds
  | _, _ => Ok tt
  end.

Definition validate_cron (expr : string) : result string unit :=
  let fields := split_whitespace expr in
  guard! (length fields =? 5)%nat
    else ("expected 5 fields (min hour day-of-month month day-of-week), got "
          +:+ dec (Z.of_nat (length fields))) ;;
  validate_fields fields cron_bounds.

Definition contains (l : list Z) (v : Z) : bool := existsb (Z.eqb v) l.

Definition cron_matches (expr : string) (minute hour dom month dow : Z) : bool :=
  match split_whitespace expr with
  | [f0; f1; f2; f3; f4] =>
      match parse_cron_field f0 0 59, parse_cron_field f1 0 23, parse_cron_field f2 1 31,
            parse_cron_field f3 1 12, parse_cron_field f4 0 7 with
      | Ok mi, Ok ho, Ok dm, Ok mo, Ok dw =>
          let dom_restricted := negb (String.eqb f2 "*") in
          let dow_restricted := negb (String.eqb f4 "*") in
          let day_ok := match dom_restricted, dow_restricted with
                        | true, true => contains dm dom || contains dw (dow mod 7)
                        | true, false => contains dm dom
                        | false, true => contains dw (dow mod 7)
                        | false, false => true
                        end in
          contains mi minute && contains ho hour && contains mo month && day_ok
      | _, _, _, _, _ => false
      end
  | _ => false
  end.

(** ** The words of a schedule *)

Record CronPhrase := { en : string; zh : string }.

Definition CRON_PHRASE_MAX_TIMES : nat := 6.
Definition WEEKDAY_EN : list string := ["Sun"; "Mon"; "Tue"; "Wed"; "Thu"; "Fri"; "Sat"].
Definition WEEKDAY_ZH : list string := ["周日"; "周一"; "周二"; "周三"; "周四"; "周五"; "周六"].
Definition MONTH_EN : list string :=
  ["Jan"; "Feb"; "Mar"; "Apr"; "May"; "Jun"; "Jul"; "Aug"; "Sep"; "Oct"; "Nov"; "Dec"].

(** Indexing out of bounds panics. *)
Inductive Panic := IndexOutOfBounds (len : nat) (index : Z).

Definition at_index (names : list string) (i : Z) : result Panic string :=
  guard! i <? Z.of_nat (length names) else IndexOutOfBounds (length names) i ;;
  ok_or (IndexOutOfBounds (length names) i) (nth_error names (Z.to_nat i)).

Fixpoint all_at (names : list string) (ids : list Z) : result Panic (list string) :=
  match ids with
  | [] => Ok []
  | i :: ids => let? n := at_index names i in let? rest := all_at names ids in Ok (n :: rest)
  end.

(** The last item after [and], the others before it. *)
Fixpoint join_en (items : list string) : string :=
  match items with
  | [] => ""
  | [a] => a
  | [a; b] => a +:+ " and " +:+ b
  | a :: items => a +:+ ", " +:+ join_en items
  end.

(** [sort_by_key(|d| (d + 6) % 7)] *)
Definition monday_le (a b : Z) : Prop := (a + 6) mod 7 <= (b + 6) mod 7.
#[export] Instance monday_le_dec a b : Decision (monday_le a b).
Proof. unfold monday_le. apply _. Defined.

Definition weekdays_phrase (days : list Z) : result Panic (string * string) :=
  if bool_decide (days = [1; 2; 3; 4; 5]) then Ok ("on weekdays", "工作日")
  else if bool_decide (days = [0; 6]) then Ok ("on weekends", "周末")
  else
    let monday_first := merge_sort monday_le days in
    let? en := all_at WEEKDAY_EN monday_first in
    let? zh := all_at WEEKDAY_ZH monday_first in
    Ok ("every " +:+ join_en en, "每" +:+ join "、" zh).

Definition month_days_phrase (days : list Z) : string * string :=
  let list := map dec days in
  let noun := if (length days =? 1)%nat then "day" else "days" in
  ("on " +:+ noun +:+ " " +:+ join_en list +:+ " of every month", "每月 " +:+ join "、" list +:+ " 日").

(** [{:02}] *)
Definition pad2 (n : Z) : string := if n <? 10 then "0" +:+ dec n else dec n.

Definition wild (f : string) : bool := String.eqb f "*".

(** The time of day, and whether it already says how often. *)
Definition time_phrase (f0 f1 : string) (minute hour : list Z) : option (string * string * bool) :=
  if negb (wild f0) && negb (wild f1) then
    let times := flat_map (fun h => map (fun m => pad2 h +:+ ":" +:+ pad2 m) minute) hour in
    if is_nil times || (CRON_PHRASE_MAX_TIMES <? length times)%nat then None
    else Some ("at " +:+ join_en times, join "、" times, false)
  else if wild f1 then
    if wild f0 then Some ("every minute", "每分钟", true)
    else match (n ← strip_prefix "*/" f0; parse_u32 n) with
         | Some step =>
             if step =? 1 then Some ("every minute", "每分钟", true)
             else Some ("every " +:+ dec step +:+ " minutes", "每 " +:+ dec step +:+ " 分钟", true)
         | None =>
             match minute with
             | [m] => Some ("every hour at :" +:+ pad2 m, "每小时第 " +:+ dec m +:+ " 分", true)
             | _ => None
             end
         end
  else None.

Definition day_phrase (f2 f4 : string) (dom dow : list Z) : result Panic (string * string) :=
  match wild f2, wild f4 with
  | true, true => Ok ("every day", "每天")
  | true, false => weekdays_phrase dow
  | false, true => Ok (month_days_phrase dom)
  | false, false =>
      let '(a, a_zh) := month_days_phrase dom in
      let? (b, b_zh) := weekdays_phrase dow in
      Ok (a +:+ " or " +:+ b, a_zh +:+ "或" +:+ b_zh)
  end.

Definition months_phrase (f3 : string) (month : list Z) : result Panic (string * string) :=
  if wild f3 then Ok ("", "")
  else
    let? en := all_at MONTH_EN (map (fun m => (m - 1) mod 2 ^ 32) month) in
    let zh := map (fun m => dec m +:+ "月") month in
    Ok (" in " +:+ join_en en, join "、" zh +:+ "，").

Definition describe_cron (expr : string) : result Panic (option CronPhrase) :=
  match validate_cron expr, split_whitespace expr with
  | Ok _, [f0; f1; f2; f3; f4] =>
      match parse_cron_field f0 0 59, parse_cron_field f1 0 23, parse_cron_field f2 1 31,
            parse_cron_field f3 1 12, parse_cron_field f4 0 7 with
      | Ok minute, Ok hour, Ok dom, Ok month, Ok dow =>
          match time_phrase f0 f1 minute hour with
          | None => Ok None
          | Some (time_en, time_zh, repeats) =>
              let? (day_en, day_zh) := day_phrase f2 f4 dom dow in
              let? (months_en, months_zh) := months_phrase f3 month in
              if repeats && wild f2 && wild f4
              then Ok (Some {| en := time_en +:+ months_en; zh := months_zh +:+ time_zh |})
              else Ok (Some {| en := day_en +:+ " " +:+ time_en +:+ months_en;
                               zh := months_zh +:+ day_zh +:+ " " +:+ time_zh |})
          end
      | _, _, _, _, _ => Ok None
      end
  | _, _ => Ok None
  end.

(** ** The reference: what an expression says

    An item is a span with an optional step; a field is a list of items. *)
Inductive Span := Star | From (a : Z) | Between (a b : Z).
Record Item := { span : Span; every : option Z }.
Record Schedule := {
  minutes : list Item; hours : list Item; days : list Item; months : list Item; weekdays : list Item }.

Definition step_of (i : Item) : Z := default 1 (every i).

(** Where an item starts and stops; [N/step] is from [N] to the field's maximum, every
    step. *)
Definition start_of (lo : Z) (i : Item) : Z :=
  match span i with Star => lo | From a => a | Between a _ => a end.
Definition stop_of (hi : Z) (i : Item) : Z :=
  match span i with Star => hi | From a => if is_some (every i) then hi else a | Between _ b => b end.

Definition item_has (lo hi : Z) (i : Item) (n : Z) : bool :=
  (start_of lo i <=? n) && (n <=? stop_of hi i) && ((n - start_of lo i) mod step_of i =? 0).

Definition field_has (lo hi : Z) (items : list Item) (n : Z) : bool :=
  existsb (fun i => item_has lo hi i n) items.

(** Sunday is 0 and 7. *)
Definition weekday_has (items : list Item) (d : Z) : bool :=
  field_has 0 7 items d || ((d =? 0) && field_has 0 7 items 7).

Definition any_day (items : list Item) : bool :=
  match items with [{| span := Star; every := None |}] => true | _ => false end.

(** The day is right when the one restricted field has it, or either of the two. *)
Definition fires (s : Schedule) (minute hour dom month dow : Z) : bool :=
  field_has 0 59 (minutes s) minute && field_has 0 23 (hours s) hour && field_has 1 12 (months s) month &&
  (if any_day (weekdays s) then any_day (days s) || field_has 1 31 (days s) dom
   else if any_day (days s) then weekday_has (weekdays s) (dow mod 7)
   else field_has 1 31 (days s) dom || weekday_has (weekdays s) (dow mod 7)).

(** A step that counts, and a start and a stop in order within the field. *)
Definition within (lo hi : Z) (i : Item) : bool :=
  (0 <? step_of i) && (lo <=? start_of lo i) && (start_of lo i <=? stop_of hi i) && (stop_of hi i <=? hi).

(** A stepped start beyond the field: it has no value there. *)
Definition stray (lo hi : Z) (i : Item) : bool :=
  match span i, every i with From a, Some n => (1 <? n) && (hi <? a) | _, _ => false end.

(** [N/1]. *)
Definition lone (i : Item) : bool :=
  match span i, every i with From _, Some n => n =? 1 | _, _ => false end.

(** [N] for [N/1]. *)
Definition unstepped (i : Item) : Item := if lone i then {| span := span i; every := None |} else i.

Definition unstep (s : Schedule) : Schedule :=
  {| minutes := map unstepped (minutes s); hours := map unstepped (hours s); days := map unstepped (days s);
     months := map unstepped (months s); weekdays := map unstepped (weekdays s) |}.

(** Steps too small to wrap. *)
Definition small_step (lo hi : Z) (i : Item) : bool := step_of i <? 2 ^ 31.

Definition all_items (test : Z -> Z -> Item -> bool) (s : Schedule) : bool :=
  forallb (test 0 59) (minutes s) && forallb (test 0 23) (hours s) && forallb (test 1 31) (days s) &&
  forallb (test 1 12) (months s) && forallb (test 0 7) (weekdays s).

(** How text reads as a schedule. *)
Inductive reads_span : string -> Span -> Prop :=
| reads_star : reads_span "*" Star
| reads_from s a : parse_u32 s = Some a -> reads_span s (From a)
| reads_between s t a b : parse_u32 s = Some a -> parse_u32 t = Some b ->
    reads_span (s +:+ String "-" t) (Between a b).

Inductive reads_item : string -> Item -> Prop :=
| reads_plain s sp : reads_span s sp -> reads_item s {| span := sp; every := None |}
| reads_step s sp t n : reads_span s sp -> parse_u32 t = Some n ->
    reads_item (s +:+ String "/" t) {| span := sp; every := Some n |}.

Definition reads_field (f : string) (items : list Item) : Prop :=
  Forall2 reads_item (split_char ","%char f) items.

Definition reads (expr : string) (s : Schedule) : Prop :=
  Forall2 reads_field (split_whitespace expr) [minutes s; hours s; days s; months s; weekdays s].

(** ** The values of a field *)

(** Where the code stops an item, and what it accepts. *)
Definition code_stop (hi : Z) (i : Item) : Z :=
  match span i with Star => hi | From a => if 1 <? step_of i then hi else a | Between _ b => b end.
Definition item_ok (lo hi : Z) (i : Item) : bool :=
  (0 <? step_of i) && (lo <=? start_of lo i) && (code_stop hi i <=? hi) &&
  match span i with Between a b => a <=? b | _ => true end.

Lemma item_ok_split lo hi i : lo <= hi -> item_ok lo hi i = within lo hi i || stray lo hi i.
Proof.
  intros Hl. apply eq_true_iff_eq. unfold item_ok, within, stray, code_stop, stop_of, start_of, step_of.
  destruct i as [[|a|a b] [n|]]; cbn [span every is_some default from_option id];
    rewrite ?orb_true_iff, !andb_true_iff, ?Z.ltb_lt, ?Z.leb_le;
    try change (1 <? 1) with false; cbv iota; try lia.
  destruct (Z.ltb_spec 1 n); lia.
Qed.

Lemma code_stop_unstepped hi i : 0 < step_of i -> code_stop hi i = stop_of hi (unstepped i).
Proof.
  unfold unstepped, lone, code_stop, stop_of, step_of.
  destruct i as [[|a|a b] [n|]]; cbn [span every is_some default from_option id]; intros Hn; try done.
  destruct (Z.eqb_spec n 1) as [->|]; cbn [span every is_some]; [done|]. by rewrite (proj2 (Z.ltb_lt 1 n)) by lia.
Qed.

Lemma unstepped_same lo i : step_of (unstepped i) = step_of i /\ start_of lo (unstepped i) = start_of lo i.
Proof.
  unfold unstepped, lone, step_of, start_of. destruct i as [[|a|a b] [n|]]; cbn [span every]; try done.
  by destruct (Z.eqb_spec n 1) as [->|].
Qed.

Lemma all_items_fields test s : all_items test s = true <->
  forallb (test 0 59) (minutes s) = true /\ forallb (test 0 23) (hours s) = true /\
  forallb (test 1 31) (days s) = true /\ forallb (test 1 12) (months s) = true /\
  forallb (test 0 7) (weekdays s) = true.
Proof. unfold all_items. rewrite !andb_true_iff. tauto. Qed.

Lemma forallb_same {A} (p q : A -> bool) l : (forall x, p x = q x) -> forallb p l = forallb q l.
Proof. intros E. induction l as [|x l IH]; cbn [forallb]; [done|]. by rewrite E, IH. Qed.

Lemma taken_split s : all_items item_ok s = all_items (fun lo hi i => within lo hi i || stray lo hi i) s.
Proof.
  apply eq_true_iff_eq. rewrite !all_items_fields.
  assert (E : forall lo hi l, lo <= hi ->
    forallb (item_ok lo hi) l = forallb (fun i => within lo hi i || stray lo hi i) l).
  { intros lo hi l Hl. apply forallb_same. intros i. by apply item_ok_split. }
  by rewrite !E.
Qed.

Definition rounds (v stop step : Z) : nat :=
  if v <=? stop then S (Z.to_nat (if step + stop <? 2 ^ 32 then stop - v else v)) else 0.

Lemma next_value v step : 0 <= v < 2 ^ 31 -> 0 < step < 2 ^ 32 ->
  (v + step) mod 2 ^ 32 = if v + step <? 2 ^ 32 then v + step else v + step - 2 ^ 32.
Proof.
  intros Hv Hs. destruct (Z.ltb_spec (v + step) (2 ^ 32)); [apply Z.mod_small; lia|].
  symmetry. apply Z.mod_unique with 1; lia.
Qed.

Lemma rounds_next v stop step :
  0 <= v <= stop -> 0 < step < 2 ^ 32 -> stop < 2 ^ 31 ->
  (rounds ((v + step) mod 2 ^ 32) stop step < rounds v stop step)%nat.
Proof.
  intros Hv Hs Hstop. rewrite next_value by lia. unfold rounds.
  rewrite (proj2 (Z.leb_le v stop)) by lia.
  destruct (Z.ltb_spec (v + step) (2 ^ 32)), (Z.ltb_spec (step + stop) (2 ^ 32));
    case_match eqn:E; reflect_bools; lia.
Qed.

Lemma values_fuel stop step (n : nat) : forall m v,
  0 <= v -> 0 < step < 2 ^ 32 -> stop < 2 ^ 31 ->
  (rounds v stop step <= n)%nat -> (rounds v stop step <= m)%nat ->
  values n v stop step = values m v stop step.
Proof.
  assert (H0 : forall m v, (rounds v stop step <= 0)%nat -> values m v stop step = []).
  { intros [|m] v; [done|]. unfold rounds. cbn [values]. by destruct (v <=? stop); [lia|]. }
  induction n as [|n IH]; intros m v Hv Hs Hstop Hn Hm; [by rewrite !H0|].
  destruct m as [|m]; [by rewrite !H0|]. cbn [values]. destruct (Z.leb_spec v stop) as [Hle|]; [|done].
  pose proof (rounds_next v stop step (conj Hv Hle) Hs Hstop).
  f_equal. apply IH; try done; [apply Z.mod_pos_bound|..]; lia.
Qed.

(** The rounds of [enough] are enough: the loop's own equation holds. *)
Lemma values_round v stop step :
  0 <= v -> 0 < step < 2 ^ 32 -> stop < 2 ^ 31 ->
  values (enough stop) v stop step =
    if v <=? stop then v :: values (enough stop) ((v + step) mod 2 ^ 32) stop step else [].
Proof.
  intros Hv Hs Hstop. rewrite (values_fuel stop step (enough stop) (S (enough stop))); try done.
  all: unfold rounds, enough; repeat case_match; reflect_bools; lia.
Qed.

Lemma elem_of_values stop step fuel : forall v n,
  0 <= v -> 0 < step -> step + stop < 2 ^ 32 -> (rounds v stop step <= fuel)%nat ->
  n ∈ values fuel v stop step <-> v <= n <= stop /\ (step | n - v).
Proof.
  induction fuel as [|fuel IH]; intros v n Hv Hs Hw Hf; unfold rounds in Hf; cbn [values].
  - destruct (Z.leb_spec v stop); [lia|]. rewrite elem_of_nil. lia.
  - destruct (Z.leb_spec v stop) as [Hle|Hgt]; [|rewrite elem_of_nil; lia].
    rewrite (proj2 (Z.ltb_lt _ _) Hw) in Hf. rewrite Z.mod_small by lia.
    rewrite elem_of_cons, IH; try lia.
    + split.
      * intros [->|[? (k & Hk)]]; [split; [lia|]; exists 0; lia|]. split; [lia|]. exists (k + 1). lia.
      * intros [? (k & Hk)]. destruct (decide (n = v)) as [|Hne]; [by left|right].
        assert (0 < k) by nia. split; [nia|]. exists (k - 1). lia.
    + unfold rounds. rewrite (proj2 (Z.ltb_lt _ _) Hw). case_match; reflect_bools; lia.
Qed.

(** ** Reading *)

Lemma split_once_at c l r : string_has c l = false -> split_once c (l +:+ String c r) = Some (l, r).
Proof. intros H. by apply split_once_spec. Qed.

Lemma reads_span_chars s sp : reads_span s sp -> s <> "" /\ string_has "/"%char s = false.
Proof.
  intros [|t a H|t u a b Ht Hu].
  - done.
  - split; [by intros ->|]. by eapply parse_u32_no_char.
  - split; [by destruct t|]. rewrite string_has_app, string_has_cons.
    by rewrite (parse_u32_no_char "/"%char t a Ht), (parse_u32_no_char "/"%char u b Hu).
Qed.

Lemma parse_range_reads lo hi range step start stop :
  parse_range lo hi range step = Ok (start, stop) <->
  exists sp, reads_span range sp /\ (match sp with Between a b => a <=? b | _ => true end) = true /\
    start = start_of lo {| span := sp; every := Some step |} /\
    stop = code_stop hi {| span := sp; every := Some step |}.
Proof.
  unfold parse_range. destruct (String.eqb_spec range "*") as [->|Hstar].
  { split; [intros [= <- <-]; exists Star; repeat split; constructor|].
    intros (sp & Hr & _ & -> & ->). by inversion Hr; subst; [|done|by destruct s as [|? []]]. }
  destruct (split_once "-"%char range) as [[s t]|] eqn:Hd.
  - apply split_once_spec in Hd as [-> Hs]. rewrite !let_ok. split.
    + intros (a & Ha%ok_or_ok & H). rewrite let_ok in H. destruct H as (b & Hb%ok_or_ok & H).
      apply guard_ok in H as [Hab [= <- <-]]. exists (Between a b). split_and!; try done.
      * by constructor.
      * reflect_bools. lia.
    + intros (sp & Hr & Hab & -> & ->). inversion Hr as [E|? a Ha E|s' t' a b Ha Hb E]; subst.
      * by destruct Hstar.
      * apply parse_u32_no_char with (c := "-"%char) in Ha; [|done].
        rewrite string_has_app, string_has_cons, orb_true_r in Ha. done.
      * apply split_first_inj in E as [-> ->]; [|by eapply parse_u32_no_char|done].
        exists a. rewrite Ha. split; [done|]. rewrite let_ok. exists b. rewrite Hb. split; [done|].
        apply guard_ok. split; [|done]. apply Z.leb_le in Hab. apply negb_true_iff, Z.ltb_ge. lia.
  - apply split_once_none in Hd. rewrite let_ok. split.
    + intros (v & Hv%ok_or_ok & [= <- <-]). exists (From v). by repeat constructor.
    + intros (sp & Hr & _ & -> & ->). inversion Hr as [E|? a Ha E|s' t' a b Ha Hb E]; subst; [by destruct Hstar| |].
      * exists a. by rewrite Ha.
      * rewrite string_has_app, string_has_cons, orb_true_r in Hd. done.
Qed.

Lemma parse_step_reads part r step :
  parse_step part = Ok (r, step) <->
  (string_has "/"%char part = false /\ r = part /\ step = 1) \/
  (exists t, part = r +:+ String "/" t /\ string_has "/"%char r = false /\ parse_u32 t = Some step /\ step <> 0).
Proof.
  unfold parse_step. destruct (split_once "/"%char part) as [[r' t]|] eqn:Hp.
  - apply split_once_spec in Hp as [-> Hr]. rewrite let_ok. split.
    + intros (n & Hn%ok_or_ok & H). apply guard_ok in H as [Hz [= <- <-]]. right. exists t.
      reflect_bools. by split_and!.
    + intros [[H _]|(t' & E & Hr' & Ht & Hz)].
      * by rewrite string_has_app, string_has_cons, orb_true_r in H.
      * apply split_first_inj in E as [-> ->]; [|done|done]. exists step. rewrite Ht. split; [done|].
        apply guard_ok. split; [by apply negb_true_iff, Z.eqb_neq | done].
  - apply split_once_none in Hp. split; [intros [= <- <-]; by left|].
    intros [(_ & -> & ->)|(t & -> & _)]; [done|].
    by rewrite string_has_app, string_has_cons, orb_true_r in Hp.
Qed.

Definition item_values (lo hi : Z) (i : Item) : list Z :=
  map (weekday_of hi) (values (enough (code_stop hi i)) (start_of lo i) (code_stop hi i) (step_of i)).

Lemma reads_item_nonempty part i : reads_item part i -> part <> "".
Proof. intros [s sp H|s sp t n H _]; apply reads_span_chars in H as [Hs _]; by destruct s. Qed.

Lemma in_bounds (lo hi a b : Z) : negb ((a <? lo) || (hi <? b)) = (lo <=? a) && (b <=? hi).
Proof. by rewrite negb_orb, !Z.ltb_antisym, !negb_involutive. Qed.

Lemma parse_part_reads lo hi part l :
  parse_part lo hi part = Ok l <->
  exists i, reads_item part i /\ item_ok lo hi i = true /\ l = item_values lo hi i.
Proof.
  unfold parse_part. rewrite guard_ok, let_ok. split.
  - intros (_ & [r step] & Hs & H). apply let_ok in H as ([start stop] & Hr & H).
    rewrite in_bounds in H. apply guard_ok in H as [[Hlo Hhi]%andb_true_iff [= <-]].
    apply parse_range_reads in Hr as (sp & Hr & Hab & -> & ->).
    apply parse_step_reads in Hs as [(_ & -> & ->)|(t & -> & _ & Ht & Hz)];
      [exists {| span := sp; every := None |} | exists {| span := sp; every := Some step |}];
      (split_and!; [by constructor | | by destruct sp]); unfold item_ok.
    + rewrite !andb_true_iff. split_and!; [done | by destruct sp..].
    + rewrite !andb_true_iff. split_and!; [|done..].
      apply Z.ltb_lt. apply parse_u32_range in Ht. cbn. lia.
  - intros (i & Hi & Hok & ->). split; [by apply negb_true_iff, String.eqb_neq, (reads_item_nonempty part i)|].
    unfold item_ok in Hok. rewrite !andb_true_iff in Hok. destruct Hok as [[[Hz Hlo] Hhi] Hab].
    apply Z.ltb_lt in Hz.
    destruct Hi as [s sp Hs|s sp t n Hs Ht]; pose proof (reads_span_chars s sp Hs) as [_ Hc];
      [exists (s, 1) | exists (s, n)]; rewrite let_ok;
      (split; [apply parse_step_reads|]).
    + by left.
    + exists (start_of lo {| span := sp; every := Some 1 |}, code_stop hi {| span := sp; every := Some 1 |}).
      split; [apply parse_range_reads; by exists sp|]. rewrite in_bounds. apply guard_ok.
      split; [apply andb_true_iff; by destruct sp | by destruct sp].
    + right. exists t. split_and!; try done. cbn in Hz. lia.
    + exists (start_of lo {| span := sp; every := Some n |}, code_stop hi {| span := sp; every := Some n |}).
      split; [apply parse_range_reads; by exists sp|]. rewrite in_bounds. apply guard_ok.
      split; [by apply andb_true_iff | done].
Qed.

Lemma parse_parts_reads lo hi parts : forall l,
  parse_parts lo hi parts = Ok l <->
  exists items, Forall2 reads_item parts items /\ forallb (item_ok lo hi) items = true /\
    l = flat_map (item_values lo hi) items.
Proof.
  induction parts as [|p parts IH]; intros l; cbn [parse_parts].
  - split; [intros [= <-]; by exists []|]. intros (items & H & _ & ->). by inversion H.
  - rewrite let_ok. split.
    + intros (vs & Hp & H). apply let_ok in H as (rest & Hr & [= <-]).
      apply parse_part_reads in Hp as (i & Hi & Hok & ->). apply IH in Hr as (items & Hr & Hoks & ->).
      exists (i :: items). cbn [forallb flat_map]. rewrite Hok, Hoks. by split_and!; [constructor|..].
    + intros (items & H & Hok & ->). inversion H as [|? i ? items' Hi Hr]; subst.
      cbn [forallb flat_map] in *. apply andb_true_iff in Hok as [Hok Hoks].
      exists (item_values lo hi i). split; [apply parse_part_reads; by exists i|]. apply let_ok.
      exists (flat_map (item_values lo hi) items'). split; [apply IH; by exists items' | done].
Qed.

Lemma elem_of_dedup x l : x ∈ dedup l <-> x ∈ l.
Proof.
  induction l as [|y [|z l] IH]; [done..|]. cbn [dedup].
  destruct (Z.eqb_spec y z) as [->|]; rewrite ?elem_of_cons, IH, !elem_of_cons; [|done]. naive_solver.
Qed.

Lemma contains_elem l v : contains l v = true <-> v ∈ l.
Proof.
  unfold contains. rewrite existsb_exists, list_elem_of_In. split.
  - by intros (x & Hx & ->%Z.eqb_eq).
  - intros H. exists v. by rewrite Z.eqb_refl.
Qed.

(** The values of an accepted item are those the reference gives it, or [N] for [N/1]. *)
Lemma elem_of_item_values lo hi i v :
  0 <= lo -> hi < 60 -> item_ok lo hi i = true -> small_step lo hi i = true ->
  v ∈ item_values lo hi i <-> exists n, item_has lo hi (unstepped i) n = true /\ v = weekday_of hi n.
Proof.
  unfold item_ok, small_step, item_values, item_has. rewrite !andb_true_iff, Z.ltb_lt, !Z.leb_le, Z.ltb_lt.
  intros Hl Hh [[[Hz Hlo] Hhi] _] Hp. rewrite list_elem_of_fmap.
  destruct (unstepped_same lo i) as [-> ->]. rewrite <- code_stop_unstepped by done.
  assert (Hv : forall n, n ∈ values (enough (code_stop hi i)) (start_of lo i) (code_stop hi i) (step_of i) <->
     (start_of lo i <=? n) && (n <=? code_stop hi i) && ((n - start_of lo i) mod step_of i =? 0) = true).
  { intros n. rewrite elem_of_values; try lia.
    - rewrite !andb_true_iff, !Z.leb_le, Z.eqb_eq, Z.mod_divide by lia. done.
    - unfold rounds, enough. case_match; [|lia]. rewrite (proj2 (Z.ltb_lt _ _)) by lia. reflect_bools. lia. }
  split; intros (n & H & H'); exists n; apply Hv in H || apply Hv in H'; done.
Qed.

Lemma parse_cron_field_reads f lo hi l :
  parse_cron_field f lo hi = Ok l <->
  exists items, reads_field f items /\ forallb (item_ok lo hi) items = true /\
    l = dedup (merge_sort Z.le (flat_map (item_values lo hi) items)).
Proof.
  unfold parse_cron_field. rewrite let_ok. split.
  - intros (out & H & [= <-]). apply parse_parts_reads in H as (items & Hr & Hok & ->). by exists items.
  - intros (items & Hr & Hok & ->). exists (flat_map (item_values lo hi) items).
    split; [|done]. apply parse_parts_reads. by exists items.
Qed.

Lemma parse_field_of f lo hi items :
  reads_field f items -> forallb (item_ok lo hi) items = true ->
  parse_cron_field f lo hi = Ok (dedup (merge_sort Z.le (flat_map (item_values lo hi) items))).
Proof. intros Hf Ho. apply parse_cron_field_reads. by exists items. Qed.

Lemma contains_field lo hi items v :
  0 <= lo -> hi < 60 -> forallb (item_ok lo hi) items = true -> forallb (small_step lo hi) items = true ->
  contains (dedup (merge_sort Z.le (flat_map (item_values lo hi) items))) v = true <->
  exists n, field_has lo hi (map unstepped items) n = true /\ v = weekday_of hi n.
Proof.
  intros Hl Hh Hok Hp. rewrite contains_elem, elem_of_dedup, merge_sort_Permutation.
  rewrite list_elem_of_In, in_flat_map. setoid_rewrite <- list_elem_of_In. unfold field_has.
  rewrite forallb_elem in Hok, Hp.
  split.
  - intros (i & Hi & Hv). apply elem_of_item_values in Hv as (n & Hn & ->); auto.
    exists n. split; [|done]. apply existsb_exists. exists (unstepped i). split; [|done].
    by apply in_map, list_elem_of_In.
  - intros (n & Hn & ->). apply existsb_exists in Hn as (i' & (i & <- & Hi)%in_map_iff & Hn).
    rewrite <- list_elem_of_In in Hi.
    exists i. split; [done|]. apply elem_of_item_values; auto. by exists n.
Qed.

Lemma contains_time lo hi items v :
  0 <= lo -> hi < 60 -> hi <> 7 -> forallb (item_ok lo hi) items = true -> forallb (small_step lo hi) items = true ->
  contains (dedup (merge_sort Z.le (flat_map (item_values lo hi) items))) v = field_has lo hi (map unstepped items) v.
Proof.
  intros Hl Hh H7 Hok Hp. apply eq_true_iff_eq. rewrite contains_field by done. unfold weekday_of.
  rewrite (proj2 (Z.eqb_neq hi 7) H7). cbn [andb]. split; [by intros (n & ? & ->)|]. by exists v.
Qed.

Lemma contains_weekday items d :
  forallb (item_ok 0 7) items = true -> forallb (small_step 0 7) items = true ->
  contains (dedup (merge_sort Z.le (flat_map (item_values 0 7) items))) (d mod 7)
  = weekday_has (map unstepped items) (d mod 7).
Proof.
  intros Hok Hp. apply eq_true_iff_eq. rewrite contains_field by done.
  unfold weekday_has, weekday_of. cbn [Z.eqb Pos.eqb andb]. pose proof (Z.mod_pos_bound d 7).
  rewrite orb_true_iff, andb_true_iff, Z.eqb_eq. split.
  - intros (n & Hn & Hd). destruct (Z.eqb_spec n 7) as [->|]; [by right|]. left. by rewrite Hd.
  - intros [Hn|[-> Hn]]; [|by exists 7]. exists (d mod 7). split; [done|].
    by rewrite (proj2 (Z.eqb_neq (d mod 7) 7)) by lia.
Qed.

Lemma split_char_single c f p : split_char c f = [p] -> f = p.
Proof.
  revert p. induction f as [|a f IH]; intros p; cbn [split_char]; [by intros [= <-]|].
  destruct (Ascii.eqb a c).
  - destruct f; cbn [split_char]; [done|]. repeat case_match; done.
  - destruct (split_char c f) as [|w ws] eqn:E; [by intros [= <-]; destruct f; cbn in E; [|repeat case_match]|].
    intros [= <- ->]. f_equal. by apply IH.
Qed.

Lemma reads_item_star i : reads_item "*" i <-> i = {| span := Star; every := None |}.
Proof.
  split; [|intros ->; by repeat constructor]. intros H. inversion H as [s sp Hs E|s sp t n Hs Ht E]; subst.
  - inversion Hs as [E'|? a Ha E'|s t a b Ha Hb E']; subst; [done | done |].
    destruct s as [|? []]; done.
  - exfalso. destruct s as [|? []]; [done..|]. done.
Qed.

Lemma reads_any_day f items : reads_field f items -> wild f = any_day items.
Proof.
  unfold reads_field, wild. intros H. apply eq_true_iff_eq. rewrite String.eqb_eq. split.
  - intros ->. inversion H as [|? i ? ? Hi Hr]; subst. inversion Hr; subst.
    by apply reads_item_star in Hi as ->.
  - intros Ha. destruct items as [|[[] []] []]; try done. inversion H as [|p ? ps ? Hi Hr Hp]; subst.
    inversion Hr; subst. symmetry in Hp. apply split_char_single in Hp as ->.
    inversion Hi as [? ? Hs|]; subst. by inversion Hs.
Qed.

Lemma any_day_unstepped items : any_day (map unstepped items) = any_day items.
Proof.
  destruct items as [|i [|]]; cbn [map any_day]; [done| |by destruct (unstepped i) as [[] []], i as [[] []]].
  unfold unstepped, lone. destruct i as [[|a|a b] [n|]]; cbn [span every]; try done. by destruct (n =? 1).
Qed.

(** A text reads as one schedule at most. *)
Lemma reads_span_once s sp sp' : reads_span s sp -> reads_span s sp' -> sp = sp'.
Proof.
  assert (Hdash : forall s t a, parse_u32 (s +:+ String "-" t) <> Some a).
  { intros t u a H. apply parse_u32_no_char with (c := "-"%char) in H; [|done].
    by rewrite string_has_app, string_has_cons, orb_true_r in H. }
  assert (Hstar : forall s t, "*" <> s +:+ String "-" t) by (intros [|? []] ?; done).
  intros [|t a Ht|t u a b Ht Hu] H; inversion H as [E|t' a' Ht' E|t' u' a' b' Ht' Hu' E]; subst; try done;
    try (by exfalso; eapply Hdash; eauto); try (by exfalso; eapply Hstar; eauto).
  - by rewrite Ht in Ht'; injection Ht' as ->.
  - apply split_first_inj in E as [-> ->]; [|by eapply parse_u32_no_char..]. congruence.
Qed.

Lemma reads_item_once s i i' : reads_item s i -> reads_item s i' -> i = i'.
Proof.
  assert (Hslash : forall s t sp, ~ reads_span (s +:+ String "/" t) sp).
  { intros t u sp [_ H]%reads_span_chars. by rewrite string_has_app, string_has_cons, orb_true_r in H. }
  intros [t sp Ht|t sp u n Ht Hu] H; inversion H as [t' sp' Ht' E|t' sp' u' n' Ht' Hu' E]; subst;
    try (by exfalso; eapply Hslash; eauto).
  - by rewrite (reads_span_once _ _ _ Ht Ht').
  - apply split_first_inj in E as [-> ->]; [|by eapply reads_span_chars..].
    rewrite (reads_span_once _ _ _ Ht Ht'). congruence.
Qed.

Lemma forall2_once {A B} (R : A -> B -> Prop) (HR : forall a b b', R a b -> R a b' -> b = b') l k k' :
  Forall2 R l k -> Forall2 R l k' -> k = k'.
Proof.
  intros H. revert k'. induction H as [|a b l k Hab _ IH]; intros k' H'; inversion H' as [|? b' ? k1 Hb' Hk']; subst; [done|].
  f_equal; [by eapply HR|by apply IH].
Qed.

Lemma reads_once expr s s' : reads expr s -> reads expr s' -> s = s'.
Proof.
  unfold reads. intros H H'. assert (Hf : forall f k k', reads_field f k -> reads_field f k' -> k = k').
  { intros f. apply forall2_once, reads_item_once. }
  pose proof (forall2_once _ Hf _ _ _ H H') as E. destruct s, s'. cbn in E. congruence.
Qed.

Lemma validate_cron_parses expr :
  validate_cron expr = Ok tt <->
  exists f0 f1 f2 f3 f4 mi ho dm mo dw, split_whitespace expr = [f0; f1; f2; f3; f4] /\
    parse_cron_field f0 0 59 = Ok mi /\ parse_cron_field f1 0 23 = Ok ho /\
    parse_cron_field f2 1 31 = Ok dm /\ parse_cron_field f3 1 12 = Ok mo /\ parse_cron_field f4 0 7 = Ok dw.
Proof.
  unfold validate_cron, cron_bounds. rewrite guard_ok. split.
  - intros [Hn H]. apply Nat.eqb_eq in Hn. destruct (split_whitespace expr) as [|f0 [|f1 [|f2 [|f3 [|f4 []]]]]]; try done.
    cbn [validate_fields] in H. repeat (apply let_ok in H as (? & ?%map_err_ok & H)).
    exists f0, f1, f2, f3, f4. eauto 20.
  - intros (f0 & f1 & f2 & f3 & f4 & mi & ho & dm & mo & dw & -> & H0 & H1 & H2 & H3 & H4). split; [done|].
    cbn [validate_fields]. by rewrite H0, H1, H2, H3, H4.
Qed.

Lemma reads_fields expr s :
  reads expr s <-> exists f0 f1 f2 f3 f4, split_whitespace expr = [f0; f1; f2; f3; f4] /\
    reads_field f0 (minutes s) /\ reads_field f1 (hours s) /\ reads_field f2 (days s) /\
    reads_field f3 (months s) /\ reads_field f4 (weekdays s).
Proof.
  unfold reads. split.
  - intros H. repeat (apply Forall2_cons_inv_r in H as (? & ? & ? & H & ->)).
    apply Forall2_nil_inv_r in H as ->. eauto 20.
  - intros (f0 & f1 & f2 & f3 & f4 & -> & H0 & H1 & H2 & H3 & H4). by repeat constructor.
Qed.

(** ** Properties *)

Lemma cron_fires_unstepped expr s minute hour dom month dow :
  reads expr s -> all_items item_ok s = true -> all_items small_step s = true ->
  cron_matches expr minute hour dom month dow = fires (unstep s) minute hour dom month dow.
Proof.
  intros Hr (O0 & O1 & O2 & O3 & O4)%all_items_fields (P0 & P1 & P2 & P3 & P4)%all_items_fields.
  apply reads_fields in Hr as (f0 & f1 & f2 & f3 & f4 & Hs & H0 & H1 & H2 & H3 & H4).
  pose proof (reads_any_day f2 (days s) H2) as W2. pose proof (reads_any_day f4 (weekdays s) H4) as W4.
  unfold cron_matches. rewrite Hs, (parse_field_of f0 0 59 (minutes s)), (parse_field_of f1 0 23 (hours s)),
    (parse_field_of f2 1 31 (days s)), (parse_field_of f3 1 12 (months s)),
    (parse_field_of f4 0 7 (weekdays s)) by done.
  rewrite contains_weekday, !contains_time by done.
  unfold fires, wild in *. cbn [unstep minutes hours days months weekdays]. rewrite !any_day_unstepped, W2, W4.
  by destruct (any_day (days s)), (any_day (weekdays s)).
Qed.

Lemma unstep_same s : all_items (fun _ _ i => negb (lone i)) s = true -> unstep s = s.
Proof.
  assert (Hm : forall l, forallb (fun i => negb (lone i)) l = true -> map unstepped l = l).
  { induction l as [|i l IH]; cbn [forallb map]; [done|]. rewrite andb_true_iff. intros [Hi%negb_true_iff Hl].
    rewrite IH by done. unfold unstepped. by rewrite Hi. }
  intros (H0 & H1 & H2 & H3 & H4)%all_items_fields. unfold unstep. destruct s. cbn [minutes hours days months weekdays] in *.
  by rewrite !Hm.
Qed.

Lemma accepted_reads expr : validate_cron expr = Ok tt <-> exists s, reads expr s /\ all_items item_ok s = true.
Proof.
  rewrite validate_cron_parses. split.
  - intros (f0 & f1 & f2 & f3 & f4 & mi & ho & dm & mo & dw & Hs & H0 & H1 & H2 & H3 & H4).
    apply parse_cron_field_reads in H0 as (i0 & ? & ? & _), H1 as (i1 & ? & ? & _),
      H2 as (i2 & ? & ? & _), H3 as (i3 & ? & ? & _), H4 as (i4 & ? & ? & _).
    exists {| minutes := i0; hours := i1; days := i2; months := i3; weekdays := i4 |}.
    rewrite all_items_fields, reads_fields. split; [|done]. exists f0, f1, f2, f3, f4. by split_and!.
  - intros (s & Hr & (O0 & O1 & O2 & O3 & O4)%all_items_fields).
    apply reads_fields in Hr as (f0 & f1 & f2 & f3 & f4 & Hs & H0 & H1 & H2 & H3 & H4).
    exists f0, f1, f2, f3, f4. do 5 eexists. rewrite Hs.
    by split_and!; [|apply parse_field_of..].
Qed.

(** C34: a schedule fires exactly as it is written.  An expression is accepted if and only
    if it reads as five fields whose items lie in the bounds of their fields, in order and
    with a step of at least 1, or are stepped starts beyond their field, such as [70/2]
    for a minute.  One that is not accepted never fires.  One that is fires at a
    wall-clock time if and only if the reference does: the minute, the hour and the month
    are in their fields and the day of the month or of the week is, with 7 for Sunday and
    [N/step] for every step from [N] to the maximum.  Two kinds of items are outside that
    sentence: a step of 2^31 or more, whose sums may wrap; and [N/1], which is taken for
    [N] alone. *)
Theorem cron_fires_as_written (expr : string) :
  (validate_cron expr = Ok tt <->
     exists s, reads expr s /\ all_items (fun lo hi i => within lo hi i || stray lo hi i) s = true) /\
  (forall minute hour dom month dow, validate_cron expr <> Ok tt ->
     cron_matches expr minute hour dom month dow = false) /\
  (forall s minute hour dom month dow, validate_cron expr = Ok tt ->
     reads expr s -> all_items small_step s = true ->
     (all_items (fun _ _ i => negb (lone i)) s = true ->
        cron_matches expr minute hour dom month dow = fires s minute hour dom month dow) /\
     cron_matches expr minute hour dom month dow = fires (unstep s) minute hour dom month dow).
Proof.
  split_and!.
  - rewrite accepted_reads. by setoid_rewrite taken_split.
  - intros minute hour dom month dow Hv. unfold cron_matches. repeat case_match; try done;
    (exfalso; apply Hv; apply validate_cron_parses; eauto 20).
  - intros s minute hour dom month dow (s' & Hr' & Hok)%accepted_reads Hr Hp.
    rewrite (reads_once expr s' s Hr' Hr) in Hok.
    pose proof (cron_fires_unstepped expr s minute hour dom month dow Hr Hok Hp) as E.
    split; [|done]. intros Hl. by rewrite (unstep_same s Hl) in E.
Qed.

(** ** Words *)

Lemma all_at_ok names l :
  Forall (fun i => 0 <= i < Z.of_nat (length names)) l -> exists r, all_at names l = Ok r.
Proof.
  induction 1 as [|i l Hi _ [r IH]]; [by eexists|]. cbn [all_at]. unfold at_index.
  rewrite (proj2 (Z.ltb_lt _ _)) by lia.
  destruct (nth_error names (Z.to_nat i)) as [n|] eqn:E; [|apply nth_error_None in E; lia].
  cbn. rewrite IH. by eexists.
Qed.

Lemma parsed_range f lo hi items l :
  0 <= lo -> hi < 60 -> reads_field f items -> forallb (item_ok lo hi) items = true ->
  forallb (small_step lo hi) items = true -> parse_cron_field f lo hi = Ok l ->
  forall v, v ∈ l -> exists n, lo <= n <= hi /\ v = weekday_of hi n.
Proof.
  intros Hl Hh Hr Hok Hp Hf v Hv. rewrite (parse_field_of f lo hi items) in Hf by done.
  injection Hf as <-. rewrite <- contains_elem in Hv. apply contains_field in Hv as (n & Hn & ->); try done.
  exists n. split; [|done]. unfold field_has in Hn. apply existsb_exists in Hn as (i' & (i & <- & Hi)%in_map_iff & Hn).
  rewrite forallb_forall in Hok. specialize (Hok i Hi). unfold item_has, item_ok in *. reflect_bools.
  destruct (unstepped_same lo i) as [Es Est]. rewrite <- code_stop_unstepped, Est in * by lia. lia.
Qed.

Lemma weekdays_phrase_ok days : (forall d, d ∈ days -> 0 <= d < 7) -> exists p, weekdays_phrase days = Ok p.
Proof.
  intros Hd. unfold weekdays_phrase. do 2 (case_bool_decide; [by eexists|]).
  assert (Hm : Forall (fun d => 0 <= d < 7) (merge_sort monday_le days)).
  { apply Forall_forall. intros d. rewrite merge_sort_Permutation. apply Hd. }
  destruct (all_at_ok WEEKDAY_EN _ Hm) as [l ->], (all_at_ok WEEKDAY_ZH _ Hm) as [l' ->]. by eexists.
Qed.

(** Words never fail for want of a name, unless a step wraps. *)
Lemma describe_cron_total expr s :
  reads expr s -> all_items item_ok s = true -> all_items small_step s = true ->
  exists phrase, describe_cron expr = Ok phrase.
Proof.
  intros Hr Hok Hp. unfold describe_cron.
  apply reads_fields in Hr as (f0 & f1 & f2 & f3 & f4 & Hs & H0 & H1 & H2 & H3 & H4). rewrite Hs.
  apply all_items_fields in Hok as (O0 & O1 & O2 & O3 & O4), Hp as (P0 & P1 & P2 & P3 & P4).
  case_match; [|by eexists]. repeat (case_match; [|by eexists]).
  destruct p as [[time_en time_zh] repeats].
  assert (Hd : exists p, day_phrase f2 f4 a2 a4 = Ok p).
  { assert (Hw : exists p, weekdays_phrase a4 = Ok p).
    { apply weekdays_phrase_ok. intros d Hd.
      apply (parsed_range f4 0 7 (weekdays s) a4) in Hd as (n & Hn & ->); [|done..].
      unfold weekday_of. cbn [Z.eqb Pos.eqb andb]. case_match; reflect_bools; lia. }
    unfold day_phrase. destruct Hw as [[] ->]. repeat case_match; by eexists. }
  assert (Hm : exists p, months_phrase f3 a3 = Ok p).
  { unfold months_phrase. destruct (wild f3); [by eexists|].
    destruct (all_at_ok MONTH_EN (map (fun m => (m - 1) mod 2 ^ 32) a3)) as [l ->]; [|by eexists].
    apply Forall_forall. intros i Hi. apply list_elem_of_fmap in Hi as (m & -> & Hm).
    apply (parsed_range f3 1 12 (months s) a3) in Hm as (n & Hn & ->); [|done..].
    unfold weekday_of. cbn [Z.eqb Pos.eqb andb]. rewrite Z.mod_small by lia. cbn. lia. }
  destruct Hd as [[] ->], Hm as [[] ->]. cbn. case_match; by eexists.
Qed.

(** ** What the grammar lets through *)

(** [N/1] is only [N]. *)
Example step_one : parse_cron_field "5/1" 0 59 = Ok [5].
Proof. vm_compute. reflexivity. Qed.

(** A start beyond the field is accepted when it has a step, and never fires. *)
Example start_beyond : parse_cron_field "70/2" 0 59 = Ok [].
Proof. vm_compute. reflexivity. Qed.

(** A step near the top of [u32] wraps below the field, and then has no name. *)
Example step_wraps :
  validate_cron "0 8 * 1/4294967295 *" = Ok tt /\
  parse_cron_field "1/4294967295" 1 12 = Ok [0; 1] /\
  describe_cron "0 8 * 1/4294967295 *" = Err (IndexOutOfBounds 12 4294967295).
Proof. vm_compute. auto. Qed.

(** The words give a period the clock does not keep. *)
Example every_45_minutes :
  describe_cron "*/45 * * * *" = Ok (Some {| en := "every 45 minutes"; zh := "每 45 分钟" |}) /\
  cron_matches "*/45 * * * *" 0 8 1 1 1 = true /\ cron_matches "*/45 * * * *" 45 8 1 1 1 = true /\
  cron_matches "*/45 * * * *" 0 9 1 1 1 = true.
Proof. vm_compute. auto. Qed.

(** ** A schedule to evaluate on *)

Definition mealtimes : Schedule := {|
  minutes := [{| span := From 0; every := None |}; {| span := From 15; every := Some 20 |}];
  hours := [{| span := Between 7 19; every := Some 6 |}];
  days := [{| span := Star; every := None |}]; months := [{| span := Star; every := None |}];
  weekdays := [{| span := Between 1 5; every := None |}; {| span := From 7; every := None |}] |}.

Lemma cron_fires_as_written_witness :
  validate_cron "0,15/20 7-19/6 * * 1-5,7" = Ok tt /\
  (forall minute hour dom month dow,
     cron_matches "0,15/20 7-19/6 * * 1-5,7" minute hour dom month dow = fires mealtimes minute hour dom month dow) /\
  fires mealtimes 35 13 4 9 0 = true /\ fires mealtimes 20 13 4 9 0 = false.
Proof.
  assert (Hr : reads "0,15/20 7-19/6 * * 1-5,7" mealtimes).
  { repeat first [ constructor | apply reads_from; reflexivity
                 | apply (reads_between "7" "19"); reflexivity | apply (reads_between "1" "5"); reflexivity
                 | apply (reads_step "15" (From 15) "20"); [|reflexivity]
                 | apply (reads_step "7-19" (Between 7 19) "6"); [|reflexivity] ]. }
  destruct (cron_fires_as_written "0,15/20 7-19/6 * * 1-5,7") as (Hv & _ & Hf). split_and!.
  - apply Hv. exists mealtimes. split; [exact Hr | reflexivity].
  - intros. by apply Hf.
  - reflexivity.
  - reflexivity.
Defined.
