(* ===== verification/SessionScope.v ===== *)
(** * What a turn sees of the conversation

    [crates/agentkeys-protocol/src/session_window.rs] and
    [crates/agentkeys-daemon/src/session_scope.rs]: the session each trigger runs in,
    who may reset which session, the window rebuilt from the feed when an open
    session was lost, and the card a tap was made on; with the channel events of
    [agentkeys-protocol/src/lib.rs] and the cards of [card.rs]: the document an application
    shows on a display, its plain text, and the command a tap publishes.  The derived JSON
    decoders are interfaces; the checks after them are the code's. *)
From stdpp Require Import gmap.
From S2P Require Import Prelude RustStr StrFacts Crates Json.

Open Scope string_scope.
Open Scope Z_scope.

(** ** Cards *)

Definition CARD_SCHEMA : Z := 1.
Definition CARD_CONTENT_TYPE : string := "application/vnd.agentkeys.card+json".

(** An [f32] is its bits. *)
Record CardMetric := {
  metric_label : string; metric_label_zh : string; metric_value : string; unit_ : option string;
  progress : option Z }.
Record CardItem := {
  item_text : string; item_text_zh : string; detail : option string; detail_zh : option string;
  tag : option string }.
Record CardSection := { section_title : string; section_title_zh : string; items : list CardItem }.
Inductive CardAlertLevel := Info | Warn | Danger.
Record CardAlert := { level : CardAlertLevel; alert_text : string; alert_text_zh : string }.
Record CardAction := {
  action_id : string; action_label : string; action_label_zh : string; action_command : string;
  action_args : Json }.

Record CardDocument := {
  card : Z; title : string; title_zh : string; subtitle : string; subtitle_zh : string;
  metrics : list CardMetric; sections : list CardSection; alerts : list CardAlert;
  actions : list CardAction; updated_at : Z }.

Record CardCommand := {
  command_card : Z; command_action : string; command_name : string; command_args : Json;
  card_updated_at : Z }.

Class CardJson := {
  card_from_slice : bytes -> result string CardDocument;
  command_from_slice : bytes -> result string CardCommand }.

Definition new_card (t : string) (at_ : Z) : CardDocument :=
  {| card := CARD_SCHEMA; title := t; title_zh := ""; subtitle := ""; subtitle_zh := ""; metrics := [];
     sections := []; alerts := []; actions := []; updated_at := at_ |}.

Definition lf : string := String (Ascii.ascii_of_nat 10) "".

Definition metric_line (m : CardMetric) : string :=
  metric_label m +:+ ": " +:+ metric_value m
  +:+ match unit_ m with Some u => " " +:+ u | None => "" end +:+ lf.

Definition item_line (i : CardItem) : string :=
  "• " +:+ item_text i +:+ match detail i with Some d => " — " +:+ d | None => "" end +:+ lf.

Definition to_plain_text (c : CardDocument) : string :=
  title c +:+ lf
  +:+ (if String.eqb (subtitle c) "" then "" else subtitle c +:+ lf)
  +:+ String.concat "" (map metric_line (metrics c))
  +:+ String.concat "" (map (fun s => "[" +:+ section_title s +:+ "]" +:+ lf
                                      +:+ String.concat "" (map item_line (items s))) (sections c))
  +:+ String.concat "" (map (fun a => "! " +:+ alert_text a +:+ lf) (alerts c)).

Definition parse_card `{CardJson} (body : bytes) : result string CardDocument :=
  let? c := map_err (fun e => "not a card document: " +:+ e) (card_from_slice body) in
  guard! negb ((card c =? 0) || (CARD_SCHEMA <? card c))
    else ("card schema " +:+ dec (card c) +:+ " is not supported (this renderer reads ≤ "
          +:+ dec CARD_SCHEMA +:+ ")") ;;
  guard! negb (String.eqb (trim (title c)) "") else "card has no title" ;;
  Ok c.

Definition for_action (c : CardDocument) (a : CardAction) : CardCommand :=
  {| command_card := CARD_SCHEMA; command_action := action_id a; command_name := action_command a;
     command_args := action_args a; card_updated_at := updated_at c |}.

Definition parse_card_command `{CardJson} (body : bytes) : result string CardCommand :=
  let? cmd := map_err (fun e => "not a card command: " +:+ e) (command_from_slice body) in
  guard! negb (String.eqb (trim (command_action cmd)) "" || String.eqb (trim (command_name cmd)) "")
    else "card command needs an action id and a command" ;;
  Ok cmd.

(** ** Events and feeds *)

Inductive ChannelDirection := In | Out.
#[export] Instance ChannelDirection_eq_dec : EqDecision ChannelDirection.
Proof. solve_decision. Defined.

Inductive ChannelProducer :=
| Actor (actor_omni : string)
| Contact (contact_id tier : string).

Inductive ChannelEventKind := Text | Image | AudioClip | Frame | Command | Doc | Lifecycle.
#[export] Instance ChannelEventKind_eq_dec : EqDecision ChannelEventKind.
Proof. solve_decision. Defined.

Definition ChannelEventKind_all : list ChannelEventKind :=
  [Text; Image; AudioClip; Frame; Command; Doc; Lifecycle].

Definition ChannelEventKind_as_str (k : ChannelEventKind) : string :=
  match k with
  | Text => "text" | Image => "image" | AudioClip => "audio-clip" | Frame => "frame"
  | Command => "command" | Doc => "doc" | Lifecycle => "lifecycle"
  end.

Definition ChannelEventKind_parse (s : string) : option ChannelEventKind :=
  List.find (fun k => String.eqb (ChannelEventKind_as_str k) s) ChannelEventKind_all.

Record ContactStamp := { stamp_contact_id : string; stamp_tier : string }.
Record ChannelAudioParams := {
  voice : option string; speech_rate : option Z; audio_format : option string }.

Record ChannelEvent := {
  event_id : string; channel_id : string; direction : ChannelDirection; producer : ChannelProducer;
  kind : ChannelEventKind; body : option string; body_ref : option string; ts_millis : Z;
  correlation : option string; audio : option ChannelAudioParams; partial : option bool;
  seq_no : option Z; stream : option bool; contact : option ContactStamp;
  content_type : option string; relay_of : option string; addressee : option string }.

Inductive ChannelEndpointKind :=
| Messaging | Chat | Display | Camera | Mic | Speaker | Sensor | Actuator.

Definition ChannelEndpointKind_all : list ChannelEndpointKind :=
  [Messaging; Chat; Display; Camera; Mic; Speaker; Sensor; Actuator].

Definition ChannelEndpointKind_as_str (k : ChannelEndpointKind) : string :=
  match k with
  | Messaging => "messaging" | Chat => "chat" | Display => "display" | Camera => "camera"
  | Mic => "mic" | Speaker => "speaker" | Sensor => "sensor" | Actuator => "actuator"
  end.

Definition ChannelEndpointKind_parse (s : string) : option ChannelEndpointKind :=
  List.find (fun k => String.eqb (ChannelEndpointKind_as_str k) s) ChannelEndpointKind_all.

Inductive SlotDirection := Sub | Pub | Duplex.

Record FeedSpec := {
  slot : string; feed_kind : ChannelEndpointKind; feed_direction : SlotDirection;
  feed_channel_id : string; endpoint_actor_omni : option string; default_app : option bool }.

Definition OPCHAT_SLOT : string := "opchat".

(** ** Windows and policies *)

Inductive SessionWindow := WNone | WEvent | WThread | WConversation.
#[export] Instance SessionWindow_eq_dec : EqDecision SessionWindow.
Proof. solve_decision. Defined.

Definition SessionWindow_all : list SessionWindow := [WNone; WEvent; WThread; WConversation].

Definition SessionWindow_as_str (w : SessionWindow) : string :=
  match w with
  | WNone => "none" | WEvent => "event" | WThread => "thread" | WConversation => "conversation"
  end.

Definition SessionWindow_parse (s : string) : option SessionWindow :=
  List.find (fun w => String.eqb (SessionWindow_as_str w) s) SessionWindow_all.

Definition keeps_session (w : SessionWindow) : bool :=
  match w with WThread | WConversation => true | WNone | WEvent => false end.

Definition MESSAGING_THREAD_IDLE_MINUTES : Z := 30.
Definition VOICE_THREAD_IDLE_MINUTES : Z := 2.
Definition CONVERSATION_IDLE_MINUTES : Z := 24 * 60.
Definition MAX_SESSION_IDLE_MINUTES : Z := 7 * 24 * 60.

Definition default_idle_minutes (w : SessionWindow) : option Z :=
  match w with
  | WThread => Some MESSAGING_THREAD_IDLE_MINUTES
  | WConversation => Some CONVERSATION_IDLE_MINUTES
  | WNone | WEvent => None
  end.

Record SessionPolicy := { window : SessionWindow; policy_idle : option Z }.

(** [a.or(b)] *)
Definition or_else {A} (a b : option A) : option A := match a with Some _ => a | None => b end.

Definition effective_idle_minutes (p : SessionPolicy) : option Z :=
  if negb (keeps_session (window p)) then None
  else or_else (policy_idle p) (default_idle_minutes (window p)).

Definition SCHEDULE_SESSION : SessionPolicy := {| window := WNone; policy_idle := None |}.

Definition default_feed_session (slot_kind : ChannelEndpointKind) (event_kind : ChannelEventKind)
    : option SessionPolicy :=
  match slot_kind, event_kind with
  | _, Lifecycle => None
  | _, Command => Some {| window := WEvent; policy_idle := None |}
  | Chat, AudioClip => Some {| window := WThread; policy_idle := Some VOICE_THREAD_IDLE_MINUTES |}
  | Chat, _ => Some {| window := WConversation; policy_idle := Some CONVERSATION_IDLE_MINUTES |}
  | Messaging, _ => Some {| window := WThread; policy_idle := Some MESSAGING_THREAD_IDLE_MINUTES |}
  | Display, _ => Some {| window := WEvent; policy_idle := None |}
  | (Camera | Mic | Sensor | Speaker | Actuator), _ => Some {| window := WNone; policy_idle := None |}
  end.

Definition resolve_session (default template_override : option SessionPolicy) : option SessionPolicy :=
  d ← default;
  match template_override with
  | None => Some d
  | Some chosen =>
      let idle_minutes :=
        if keeps_session (window chosen) then
          or_else (or_else (policy_idle chosen)
                           (if keeps_session (window d) then policy_idle d else None))
                  (default_idle_minutes (window chosen))
        else None in
      Some {| window := window chosen; policy_idle := idle_minutes |}
  end.

Definition validate_session_policy (p : SessionPolicy) : result string unit :=
  match keeps_session (window p), policy_idle p with
  | false, Some _ =>
      Err ("a " +:+ SessionWindow_as_str (window p)
           +:+ " session ends with its turn — idle_minutes only applies to thread and conversation")
  | true, Some m =>
      if m =? 0 then Err "idle_minutes must be at least 1"
      else if MAX_SESSION_IDLE_MINUTES <? m then
        Err ("idle_minutes " +:+ dec m +:+ " exceeds the platform cap of "
             +:+ dec MAX_SESSION_IDLE_MINUTES +:+ " (a week)")
      else Ok tt
  | _, None => Ok tt
  end.

(** ** Resets *)

Inductive SessionResetScope := App | Feed | Thread.
#[export] Instance SessionResetScope_eq_dec : EqDecision SessionResetScope.
Proof. solve_decision. Defined.

Definition SessionResetScope_as_str (s : SessionResetScope) : string :=
  match s with App => "app" | Feed => "feed" | Thread => "thread" end.

(** The derived decoder and encoder of the marker. *)
Class ResetJson := {
  session_reset_body : SessionResetScope -> string;
  parse_session_reset : bytes -> option SessionResetScope;
  parse_reset_body : forall s, parse_session_reset (as_bytes (session_reset_body s)) = Some s }.

Record BridgeChatSession := {
  s_window : SessionWindow; s_scope : string; s_party : option string; s_idle_minutes : option Z;
  s_context : option string }.

Record BridgeSessionReset := {
  r_scope : SessionResetScope; r_channel : option string; r_party : option string }.

Definition RESET_REFUSED_REPLY : string :=
  "This conversation can only be restarted from here for your own thread.".

Definition reset_ack (scope : SessionResetScope) : string :=
  match scope with
  | App => "New session started. The next message begins a fresh conversation."
  | Feed => "Started over. The next message here begins a fresh session."
  | Thread => "Started over. Your next message begins a fresh conversation."
  end.

(** The slots of a template that name a policy; of equal names the last counts. *)
Definition slot_session_overrides (slots : list (string * option SessionPolicy)) : gmap string SessionPolicy :=
  fold_left (fun m s => match s.2 with Some p => <[s.1 := p]> m | None => m end) slots ∅.

(** The contact a gateway stamped, else the producer. *)
Definition thread_party (e : ChannelEvent) : string :=
  match contact e with
  | Some stamp => stamp_contact_id stamp
  | None => match producer e with Actor omni => omni | Contact id _ => id end
  end.

Definition from_contact (e : ChannelEvent) : bool :=
  is_some (contact e) || match producer e with Contact _ _ => true | Actor _ => false end.

Definition session_for (p : SessionPolicy) (scope : string) (party : option string) : BridgeChatSession :=
  {| s_window := window p; s_scope := scope;
     s_party := if bool_decide (window p = WThread) then party else None;
     s_idle_minutes := effective_idle_minutes p; s_context := None |}.

Definition feed_session (feed : FeedSpec) (e : ChannelEvent) (slot_override : option SessionPolicy)
    : option BridgeChatSession :=
  p ← resolve_session (default_feed_session (feed_kind feed) (kind e)) slot_override;
  Some (session_for p (feed_channel_id feed) (Some (thread_party e))).

Definition schedule_session (label : string) (entry_override : option SessionPolicy) : BridgeChatSession :=
  let p := default SCHEDULE_SESSION (resolve_session (Some SCHEDULE_SESSION) entry_override) in
  session_for p ("schedule:" +:+ label) None.

Definition open_session_key (s : BridgeChatSession) : option string :=
  if keeps_session (s_window s)
  then Some (SessionWindow_as_str (s_window s) +:+ "|" +:+ s_scope s +:+ "|" +:+ default "" (s_party s))
  else None.

Definition authorize_reset (scope : SessionResetScope) (feed : FeedSpec) (e : ChannelEvent)
    : option BridgeSessionReset :=
  match scope with
  | App =>
      if String.eqb (slot feed) OPCHAT_SLOT && negb (from_contact e)
      then Some {| r_scope := scope; r_channel := None; r_party := None |} else None
  | Feed =>
      if negb (from_contact e)
      then Some {| r_scope := scope; r_channel := Some (feed_channel_id feed); r_party := None |} else None
  | Thread =>
      Some {| r_scope := scope; r_channel := Some (feed_channel_id feed); r_party := Some (thread_party e) |}
  end.

(** ** The window rebuilt from the feed *)

Definition REBUILD_TAIL_EVENTS : Z := 40.
Definition CARD_LOOKUP_TAIL_EVENTS : Z := 12.
Definition REBUILD_MAX_LINES : nat := 30.
Definition REBUILD_MAX_CHARS : Z := 6000.
Definition LINE_MAX_CHARS : Z := 600.
Definition CARD_MAX_CHARS : Z := 8000.

Section Rebuild.
Context `{Base64, ResetJson}.

Definition inline_utf8 (e : ChannelEvent) : option string :=
  b ← body e; b ← b64_decode b; from_utf8 b.

(** Whether a marker ends the session being rebuilt. *)
Definition marker_covers (e : ChannelEvent) (s : BridgeChatSession) : bool :=
  if bool_decide (kind e <> Command) || bool_decide (direction e <> In) then false
  else match (t ← inline_utf8 e; parse_session_reset (as_bytes t)) with
       | None => false
       | Some App | Some Feed => true
       | Some Thread => bool_decide (s_window s = WThread) && bool_decide (s_party s = Some (thread_party e))
       end.

Definition flat (s : string) : string :=
  string_map (fun c => if Ascii.eqb c (Ascii.ascii_of_nat 10) then " "%char else c) s.

Definition clip (text : string) (max : Z) : string :=
  let f := flat (trim text) in
  if chars_count f <=? max then f else take_chars (Z.to_nat max) f +:+ "…".

Definition describe (e : ChannelEvent) : string :=
  match kind e with
  | Text | Doc => match inline_utf8 e with Some t => clip t LINE_MAX_CHARS | None => "(a document)" end
  | Image | Frame => "(a photo)"
  | AudioClip => "(a voice clip)"
  | Command => "(a button press)"
  | Lifecycle => ""
  end.

Definition belongs (s : BridgeChatSession) (e : ChannelEvent) : bool :=
  match s_window s with
  | WThread => bool_decide (s_party s = Some (thread_party e))
  | _ => true
  end.

(** The ids of the messages so far, and the events kept. *)
Definition Scan : Type := list string * list ChannelEvent.

Definition scan_event (s : BridgeChatSession) (current : string) (acc : Scan) (e : ChannelEvent) : Scan :=
  let '(inbound_ids, kept) := acc in
  if String.eqb (event_id e) current || bool_decide (partial e = Some true) then acc
  else if marker_covers e s then ([], [])
  else if bool_decide (kind e = Lifecycle) || bool_decide (kind e = Command) then acc
  else match direction e with
       | In => if belongs s e then ((inbound_ids ++ [event_id e])%list, (kept ++ [e])%list) else acc
       | Out => if match correlation e with Some c => bool_decide (c ∈ inbound_ids) | None => false end
                then (inbound_ids, (kept ++ [e])%list) else acc
       end.

(** From the newest event back, until a silence longer than the limit. *)
Fixpoint until_silence (idle_ms newer : Z) (l : list ChannelEvent) : list ChannelEvent :=
  match l with
  | [] => []
  | e :: l =>
      if idle_ms <? u64_saturating_sub newer (ts_millis e) then []
      else e :: until_silence idle_ms (ts_millis e) l
  end.

Definition window_events (events : list ChannelEvent) (s : BridgeChatSession) (current : string)
    (idle_ms now_ms : Z) : list ChannelEvent :=
  let '(_, kept) := fold_left (scan_event s current) events ([], []) in
  rev (until_silence idle_ms now_ms (rev kept)).

Definition line_of (e : ChannelEvent) : string :=
  "[" +:+ match direction e with Out => "you" | In => "them" end +:+ "] " +:+ describe e.

Definition bytes_in (lines : list string) : Z :=
  fold_right (fun l n => Z.of_nat (String.length l) + n) 0 lines.

(** [while total > MAX && lines.len() > 1 { lines.remove(0) }] *)
Fixpoint shrink (lines : list string) : list string :=
  match lines with
  | _ :: ((_ :: _) as rest) => if REBUILD_MAX_CHARS <? bytes_in lines then shrink rest else lines
  | _ => lines
  end.

Definition window_lines (window : list ChannelEvent) : list string :=
  let lines := map line_of window in
  shrink (if (REBUILD_MAX_LINES <? length lines)%nat
          then drop (length lines - REBUILD_MAX_LINES) lines else lines).

Definition rebuild_window (events : list ChannelEvent) (s : BridgeChatSession) (current : string)
    (now_ms : Z) : option string :=
  minutes ← s_idle_minutes s;
  match window_lines (window_events events s current (minutes * 60000) now_ms) with
  | [] => None
  | lines =>
      Some ("Earlier in this " +:+ SessionWindow_as_str (s_window s)
            +:+ ", restored from the feed because the open session was lost:" +:+ lf +:+ join lf lines)
  end.

(** ** The card a tap was made on *)

(** [max_by_key]: of equal keys the last. *)
Definition max_by_ts {A} (ts : A -> Z) (l : list A) : option A :=
  fold_left (fun best x => match best with
                           | Some b => if ts x <? ts b then best else Some x
                           | None => Some x
                           end) l None.

Context `{CardJson}.

Definition tapped_card_context (cards : list (Z * bytes)) (card_updated_at tap_ts_millis : Z) : option string :=
  let parsed := omap (fun c => match parse_card c.2 with
                               | Ok doc => Some (c.1, c.2, updated_at doc)
                               | Err _ => None
                               end) cards in
  let exact := max_by_ts (fun c : Z * bytes * Z => c.1.1)
    (List.filter (fun c => negb (card_updated_at =? 0) && (c.2 =? card_updated_at)) parsed) in
  let before_tap := max_by_ts (fun c : Z * bytes * Z => c.1.1)
    (List.filter (fun c => c.1.1 <=? tap_ts_millis) parsed) in
  c ← or_else exact before_tap;
  Some ("The card on the screen when this was tapped:" +:+ lf +:+ clip (from_utf8_lossy c.1.2) CARD_MAX_CHARS).

Definition is_card_event (e : ChannelEvent) : bool :=
  bool_decide (direction e = Out) && bool_decide (kind e = Doc)
  && bool_decide (content_type e = Some CARD_CONTENT_TYPE).
End Rebuild.

(** ** What a rebuilt window can hold *)

Section WindowFacts.
Context `{Base64, ResetJson}.
Variable s : BridgeChatSession.
Variable current : string.

(** Events the rebuild looks at at all. *)
Definition counted (e : ChannelEvent) : bool :=
  negb (String.eqb (event_id e) current || bool_decide (partial e = Some true)).

Definition speech (e : ChannelEvent) : bool :=
  negb (bool_decide (kind e = Lifecycle) || bool_decide (kind e = Command)).

Definition covering (e : ChannelEvent) : bool := counted e && marker_covers e s.

(** A message of the session's own party. *)
Definition own_message (e : ChannelEvent) : bool :=
  counted e && negb (marker_covers e s) && speech e && bool_decide (direction e = In) && belongs s e.

Definition own_ids (events : list ChannelEvent) : list string :=
  map event_id (List.filter own_message events).

(** A marker, an own message, or a reply to one of [ids]. *)
Definition relevant (ids : list string) (e : ChannelEvent) : bool :=
  counted e &&
  (marker_covers e s ||
   (speech e && match direction e with
                | In => belongs s e
                | Out => match correlation e with Some c => bool_decide (c ∈ ids) | None => false end
                end)).

(** One event's effect, by what it is. *)
Lemma scan_event_cases ids kept e :
  let out := scan_event s current (ids, kept) e in
  (covering e = true /\ out = ([], [])) \/
  (covering e = false /\ own_message e = true /\ out = (ids ++ [event_id e], kept ++ [e])%list) \/
  (covering e = false /\ own_message e = false /\
   ((direction e = Out /\ (exists c, correlation e = Some c /\ c ∈ ids) /\ speech e = true /\
     counted e = true /\ out = (ids, kept ++ [e])%list) \/
    out = (ids, kept))).
Proof.
  cbv zeta. unfold covering, own_message, relevant, counted, speech, scan_event.
  destruct (String.eqb _ _ || _) eqn:Hc; cbn [negb andb]; [right; right; do 2 (split; [done|]); by right|].
  destruct (marker_covers e s); cbn [negb andb orb]; [by left|right].
  destruct (bool_decide (kind e = Lifecycle) || bool_decide (kind e = Command)); cbn [negb andb];
    [right; do 2 (split; [done|]); by right|].
  destruct (direction e) eqn:Hd.
  - rewrite bool_decide_true by done. cbn [andb]. destruct (belongs s e); [by left|right].
    do 2 (split; [done|]). by right.
  - rewrite (bool_decide_false (Out = In)) by done. cbn [andb]. right. split_and!; try done.
    destruct (correlation e) as [c|]; [|by right].
    destruct (bool_decide (c ∈ ids)) eqn:Hin; [left | by right].
    apply bool_decide_eq_true in Hin. split_and!; try done. by exists c.
Qed.

(** Events that are not relevant leave no trace. *)
Lemma scan_relevant events all : forall ids kept,
  ids ⊆ all -> (forall e, e ∈ events -> own_message e = true -> event_id e ∈ all) ->
  fold_left (scan_event s current) events (ids, kept) =
  fold_left (scan_event s current) (List.filter (relevant all) events) (ids, kept).
Proof.
  induction events as [|e events IH]; intros ids kept Hids Hown; [done|].
  assert (Hown' : forall x, x ∈ events -> own_message x = true -> event_id x ∈ all)
    by (intros x Hx; apply Hown; by right).
  cbn [fold_left List.filter].
  destruct (scan_event_cases ids kept e) as [[Hc E]|[(Hc & Ho & E)|(Hc & Ho & [(Hd & (c & Hcorr & Hin) & Hs & Hct & E)|E])]].
  - assert (relevant all e = true) as ->.
    { unfold covering, relevant in *. apply andb_true_iff in Hc as [-> ->]. done. }
    cbn [fold_left]. rewrite E. apply IH; [set_solver|done].
  - assert (relevant all e = true) as ->.
    { unfold own_message, relevant in *. rewrite !andb_true_iff, bool_decide_eq_true in Ho.
      destruct Ho as [[[[-> _] ->] ->] ->]. by destruct (marker_covers e s). }
    cbn [fold_left]. rewrite E. apply IH; [|done]. apply list_subseteq_app_iff_l. split; [done|].
    intros x Hx%list_elem_of_singleton. subst x. apply Hown; [by left|done].
  - assert (relevant all e = true) as ->.
    { unfold relevant. rewrite Hct, Hs, Hd, Hcorr, bool_decide_true by by apply Hids.
      by destruct (marker_covers e s). }
    cbn [fold_left]. rewrite E. by apply IH.
  - rewrite E. destruct (relevant all e); cbn [fold_left]; rewrite ?E; by apply IH.
Qed.

Definition kept_well (after : list ChannelEvent) (e : ChannelEvent) : Prop :=
  own_message e = true \/
  (direction e = Out /\ exists q, q ∈ after /\ own_message q = true /\ correlation e = Some (event_id q)).

(** What is kept lies after the last covering marker, and is own or answers it. *)
Lemma scan_spec events :
  let '(ids, kept) := fold_left (scan_event s current) events ([], []) in
  exists before after, events = (before ++ after)%list /\ Forall (fun e => covering e = false) after /\
    kept `sublist_of` after /\
    (forall id, id ∈ ids -> exists q, q ∈ after /\ own_message q = true /\ event_id q = id) /\
    (forall e, e ∈ kept -> kept_well after e).
Proof.
  induction events as [|e events IH] using rev_ind; cbn [fold_left].
  { exists [], []. split_and!; try done; set_solver. }
  rewrite fold_left_app. cbn [fold_left].
  destruct (fold_left _ events _) as [ids kept] eqn:Ef.
  destruct IH as (before & after & -> & Hnc & Hsub & Hids & Hkept).
  assert (Hmono : forall x, kept_well after x -> kept_well (after ++ [e])%list x).
  { intros x [|(Hd & q & Hq & Ho & Hcorr)]; [by left|]. right. split; [done|]. exists q. set_solver. }
  destruct (scan_event_cases ids kept e) as [[Hc ->]|[(Hc & Ho & ->)|(Hc & Ho & [(Hd & (c & Hcorr & Hin) & Hs & Hct & ->)| ->])]].
  - exists ((before ++ after) ++ [e])%list, []. rewrite app_nil_r. split_and!; try done; set_solver.
  - exists before, (after ++ [e])%list. rewrite app_assoc. split_and!; try done.
    + apply Forall_app. by split; [|constructor].
    + by apply sublist_app.
    + intros id [Hid| ->%list_elem_of_singleton]%elem_of_app; [|exists e; set_solver].
      destruct (Hids id Hid) as (q & Hq & ? & ?). exists q. set_solver.
    + intros x [Hx| ->%list_elem_of_singleton]%elem_of_app; [by apply Hmono, Hkept | by left].
  - exists before, (after ++ [e])%list. rewrite app_assoc. split_and!; try done.
    + apply Forall_app. by split; [|constructor].
    + by apply sublist_app.
    + intros id Hid. destruct (Hids id Hid) as (q & Hq & ? & ?). exists q. set_solver.
    + intros x [Hx| ->%list_elem_of_singleton]%elem_of_app; [by apply Hmono, Hkept |].
      right. split; [done|]. destruct (Hids c Hin) as (q & Hq & ? & <-). exists q. set_solver.
  - exists before, (after ++ [e])%list. rewrite app_assoc. split_and!; try done.
    + apply Forall_app. by split; [|constructor].
    + by apply sublist_inserts_r.
    + intros id Hid. destruct (Hids id Hid) as (q & Hq & ? & ?). exists q. set_solver.
    + intros x Hx. by apply Hmono, Hkept.
Qed.
End WindowFacts.

(** Each event within the limit of the next newer one, the first of [newer]. *)
Fixpoint close (idle_ms newer : Z) (l : list ChannelEvent) : Prop :=
  match l with
  | [] => True
  | e :: l => u64_saturating_sub newer (ts_millis e) <= idle_ms /\ close idle_ms (ts_millis e) l
  end.

Lemma until_silence_spec idle_ms l : forall newer, exists rest,
  l = (until_silence idle_ms newer l ++ rest)%list /\ close idle_ms newer (until_silence idle_ms newer l) /\
  match rest with
  | [] => True
  | e :: _ => idle_ms < u64_saturating_sub
      (match last (until_silence idle_ms newer l) with Some x => ts_millis x | None => newer end) (ts_millis e)
  end.
Proof.
  induction l as [|e l IH]; intros newer; cbn [until_silence]; [by exists []|].
  destruct (Z.ltb_spec idle_ms (u64_saturating_sub newer (ts_millis e))) as [Hgt|Hle].
  - exists (e :: l). by split_and!.
  - destruct (IH (ts_millis e)) as (rest & E & Hcl & Hr). exists rest. split_and!.
    + cbn. by f_equal.
    + by split.
    + destruct rest as [|x rest]; [done|]. destruct (until_silence idle_ms (ts_millis e) l) as [|c u]; [exact Hr|].
      change (last (e :: c :: u)) with (last (c :: u)).
      destruct (last (c :: u)) eqn:El; [exact Hr | by apply last_None in El].
Qed.

Lemma shrink_suffix lines : exists cut, lines = (cut ++ shrink lines)%list.
Proof.
  induction lines as [|l [|m lines] IH]; [by exists []..|]. cbn [shrink].
  destruct (REBUILD_MAX_CHARS <? _); [|by exists []]. destruct IH as [cut IH]. exists (l :: cut).
  cbn. by f_equal.
Qed.

Lemma shrink_bound lines :
  (length (shrink lines) <= 1)%nat \/ bytes_in (shrink lines) <= REBUILD_MAX_CHARS.
Proof.
  induction lines as [|l [|m lines] IH]; [by left; cbn; lia..|]. cbn [shrink].
  destruct (Z.ltb_spec REBUILD_MAX_CHARS (bytes_in (l :: m :: lines))); [exact IH | by right].
Qed.

Lemma elem_of_rev {A} (l : list A) x : x ∈ rev l <-> x ∈ l.
Proof. by rewrite !list_elem_of_In, <- in_rev. Qed.

Section WindowProperties.
Context `{Base64, ResetJson}.

(** The lines are the newest of the window: at most thirty, and at most six thousand
    bytes unless it is a single one. *)
Lemma window_lines_spec window :
  (exists cut, map line_of window = (cut ++ window_lines window)%list) /\
  (length (window_lines window) <= REBUILD_MAX_LINES)%nat /\
  ((length (window_lines window) <= 1)%nat \/ bytes_in (window_lines window) <= REBUILD_MAX_CHARS) /\
  (window_lines window = [] -> window = []).
Proof.
  unfold window_lines. set (lines := map line_of window).
  set (tail := if (REBUILD_MAX_LINES <? length lines)%nat
               then drop (length lines - REBUILD_MAX_LINES) lines else lines).
  assert (Ht : (exists cut, lines = (cut ++ tail)%list) /\ (length tail <= REBUILD_MAX_LINES)%nat /\
               (tail = [] -> lines = [])).
  { subst tail. destruct (Nat.ltb_spec REBUILD_MAX_LINES (length lines)) as [Hlt|Hge].
    - split_and!; [eexists; symmetry; apply take_drop | rewrite length_drop; unfold REBUILD_MAX_LINES in *; lia |].
      intros E%(f_equal length). rewrite length_drop in E. cbn in E. unfold REBUILD_MAX_LINES in *. lia.
    - split_and!; [by exists [] | done | done]. }
  destruct Ht as ([cut Ht] & Hlen & Hnil), (shrink_suffix tail) as [cut' Hs]. split_and!.
  - exists (cut ++ cut')%list. by rewrite <- app_assoc, <- Hs.
  - rewrite Hs, length_app in Hlen. lia.
  - apply shrink_bound.
  - intros E. apply map_eq_nil with (f := line_of). apply Hnil.
    destruct tail as [|l [|m tail']]; [done | done |]. exfalso. clear -E.
    remember (l :: m :: tail') as rest. assert (Hr : rest <> []) by (by subst). clear Heqrest l m tail'.
    induction rest as [|x [|y rest] IH]; [done | done |]. cbn [shrink] in E. case_match; [|done]. by apply IH.
Qed.

(** C26: what a family member's turn can see.  When the open session of a thread was
    lost, the window rebuilt from the feed holds only that party's own messages and
    the replies to them, all of them after the last reset that covers the thread,
    each within the idle limit of the next; every other event of the feed, whoever
    sent it, could be removed without changing a character; and the text is the
    newest of those lines, at most thirty and six thousand bytes, or one line. *)
Theorem rebuilt_thread_private (events : list ChannelEvent) (s : BridgeChatSession) (current p : string)
    (now minutes : Z) (Hw : s_window s = WThread) (Hp : s_party s = Some p)
    (Hi : s_idle_minutes s = Some minutes) :
  let window := window_events events s current (minutes * 60000) now in
  rebuild_window events s current now =
    rebuild_window (List.filter (relevant s current (own_ids s current events)) events) s current now /\
  (forall e, e ∈ window ->
     (direction e = In /\ thread_party e = p) \/
     (direction e = Out /\ exists q, q ∈ events /\ direction q = In /\ thread_party q = p /\
        correlation e = Some (event_id q))) /\
  (exists before after, events = (before ++ after)%list /\
     Forall (fun e => covering s current e = false) after /\ window `sublist_of` after) /\
  close (minutes * 60000) now (rev window) /\
  match rebuild_window events s current now with
  | None => window = []
  | Some text => exists cut lines, map line_of window = (cut ++ lines)%list /\ lines <> [] /\
      (length lines <= 30)%nat /\ (length lines = 1%nat \/ bytes_in lines <= 6000) /\
      text = "Earlier in this thread, restored from the feed because the open session was lost:"
             +:+ lf +:+ join lf lines
  end.
Proof.
  cbv zeta.
  assert (Hown : forall e, own_message s current e = true -> direction e = In /\ thread_party e = p).
  { intros e He. unfold own_message, belongs in He. rewrite Hw, Hp, !andb_true_iff, !bool_decide_eq_true in He.
    destruct He as [[_ ?] [= ?]]. by split. }
  split_and!.
  - unfold rebuild_window, window_events. rewrite (scan_relevant s current events (own_ids s current events));
      [done | set_solver |].
    intros e He Ho. apply list_elem_of_fmap. exists e. split; [done|]. by apply elem_of_filterb.
  - intros e He. unfold window_events in He. pose proof (scan_spec s current events) as Hs.
    destruct (fold_left _ events _) as [ids kept]. destruct Hs as (before & after & -> & _ & _ & _ & Hk).
    rewrite elem_of_rev in He. destruct (until_silence_spec (minutes * 60000) (rev kept) now) as (rest & E & _).
    assert (Hin : e ∈ kept) by (apply elem_of_rev; rewrite E; set_solver).
    destruct (Hk e Hin) as [Ho|(Hd & q & Hq & Ho & Hc)]; [left; by apply Hown|right].
    split; [done|]. exists q. destruct (Hown q Ho). split_and!; try done. set_solver.
  - unfold window_events. pose proof (scan_spec s current events) as Hs.
    destruct (fold_left _ events _) as [ids kept]. destruct Hs as (before & after & -> & Hnc & Hsub & _).
    exists before, after. split_and!; try done.
    destruct (until_silence_spec (minutes * 60000) (rev kept) now) as (rest & E & _).
    etrans; [|exact Hsub]. apply (f_equal (@rev _)) in E. rewrite rev_involutive, rev_app_distr in E.
    set (u := until_silence _ _ _) in *. clearbody u. rewrite E. by apply sublist_inserts_l.
  - unfold window_events. destruct (fold_left _ events _) as [ids kept]. rewrite rev_involutive.
    by destruct (until_silence_spec (minutes * 60000) (rev kept) now) as (rest & _ & Hc & _).
  - unfold rebuild_window. rewrite Hi. cbn [mbind option_bind].
    destruct (window_lines_spec (window_events events s current (minutes * 60000) now)) as ([cut Hc] & Hn & Hb & Hnil).
    destruct (window_lines _) as [|l lines]; [by apply Hnil|]. exists cut, (l :: lines). split_and!; try done.
    + destruct Hb as [Hb|Hb]; [left; cbn in *; lia | by right].
    + by rewrite Hw.
Qed.

(** A contact resets nothing but its own thread; the whole application resets only
    from the owner's chat. *)
Lemma reset_authority scope feed e r :
  authorize_reset scope feed e = Some r ->
  r_scope r = scope /\
  (from_contact e = true ->
     r = {| r_scope := Thread; r_channel := Some (feed_channel_id feed); r_party := Some (thread_party e) |}) /\
  (scope = App -> slot feed = OPCHAT_SLOT).
Proof.
  unfold authorize_reset. destruct scope.
  - destruct (String.eqb_spec (slot feed) OPCHAT_SLOT), (from_contact e); by intros [= <-].
  - destruct (from_contact e); by intros [= <-].
  - by intros [= <-].
Qed.
End WindowProperties.

(** ** A household to evaluate on *)

Module ToyHousehold.
Definition parse (b : bytes) : option SessionResetScope :=
  let t := String.string_of_list_byte b in
  if String.eqb t "reset app" then Some App
  else if String.eqb t "reset feed" then Some Feed
  else if String.eqb t "reset thread" then Some Thread else None.

Definition reset_json : ResetJson.
Proof.
  refine {| session_reset_body s := "reset " +:+ SessionResetScope_as_str s; parse_session_reset := parse |}.
  by intros [].
Defined.

Definition feed : FeedSpec :=
  {| slot := "family"; feed_kind := Messaging; feed_direction := Duplex; feed_channel_id := "weixin-home";
     endpoint_actor_omni := None; default_app := None |}.

#[local] Existing Instances SimpleBase64.codec reset_json.

Definition event (id who : string) (dir : ChannelDirection) (k : ChannelEventKind) (text : string) (ts : Z)
    (answers : option string) : ChannelEvent :=
  {| event_id := id; channel_id := "weixin-home"; direction := dir; producer := Actor "0xgateway"; kind := k;
     body := Some (b64_encode (as_bytes text)); body_ref := None; ts_millis := ts; correlation := answers;
     audio := None; partial := None; seq_no := None; stream := None;
     contact := match dir with In => Some {| stamp_contact_id := who; stamp_tier := "family" |} | Out => None end;
     content_type := None; relay_of := None; addressee := None |}.

Definition minute : Z := 60000.

Definition events : list ChannelEvent := [
  event "1" "mum" In Text "soup?" (1 * minute) None;
  event "2" "" Out Text "yes" (2 * minute) (Some "1");
  event "3" "dad" In Text "a secret" (3 * minute) None;
  event "4" "" Out Text "kept" (4 * minute) (Some "3");
  event "5" "mum" In Text "and rice" (5 * minute) None].

(** The same feed, with a reset of the whole application from the father's phone. *)
Definition events_with_marker : list ChannelEvent :=
  (take 4 events ++ [event "m" "dad" In Command "reset app" (4 * minute) None] ++ drop 4 events)%list.

Definition session : BridgeChatSession := session_for
  {| window := WThread; policy_idle := None |} "weixin-home" (Some "mum").
End ToyHousehold.

(** A reset that is refused still ends every window rebuilt later. *)
Example refused_reset_truncates :
  let _ := SimpleBase64.codec in let _ := ToyHousehold.reset_json in
  authorize_reset App ToyHousehold.feed (ToyHousehold.event "m" "dad" In Command "reset app" 0 None) = None /\
  rebuild_window ToyHousehold.events ToyHousehold.session "6" (6 * ToyHousehold.minute) =
    Some ("Earlier in this thread, restored from the feed because the open session was lost:"
          +:+ lf +:+ "[them] soup?" +:+ lf +:+ "[you] yes" +:+ lf +:+ "[them] and rice") /\
  rebuild_window ToyHousehold.events_with_marker ToyHousehold.session "6" (6 * ToyHousehold.minute) =
    Some ("Earlier in this thread, restored from the feed because the open session was lost:"
          +:+ lf +:+ "[them] and rice").
Proof. vm_compute. auto. Qed.

Lemma rebuilt_thread_private_witness :
  let _ := SimpleBase64.codec in let _ := ToyHousehold.reset_json in
  window_events ToyHousehold.events ToyHousehold.session "6" (30 * 60000) (6 * ToyHousehold.minute)
    = filter (fun e => event_id e <> "3" /\ event_id e <> "4") ToyHousehold.events /\
  rebuild_window ToyHousehold.events ToyHousehold.session "6" (6 * ToyHousehold.minute) =
    rebuild_window (List.filter (relevant ToyHousehold.session "6" ["1"; "5"]) ToyHousehold.events)
      ToyHousehold.session "6" (6 * ToyHousehold.minute).
Proof.
  cbv zeta. split; [reflexivity|].
  exact (proj1 (@rebuilt_thread_private SimpleBase64.codec ToyHousehold.reset_json ToyHousehold.events
    ToyHousehold.session "6" "mum" (6 * ToyHousehold.minute) 30 eq_refl eq_refl eq_refl)).
Defined.
