(* ===== verification/Schedule.v ===== *)
(** * Scheduled turns

    [crates/agentkeys-daemon/src/schedule.rs]: the template's schedule entries fired as
    turns of the agent while the delegate holds [tool:schedule], with the guard of
    [app_runtime.rs].  A pass of the loop is a [look]: it reads the clock once, asks
    for the grants once an hour, and runs the turn of each entry that is due.  The
    calendar of [chrono], the grants view, the bridge's answers and the times of the
    looks are arguments; a long turn shows as a late next look. *)
From S2P Require Import Prelude RustStr StrFacts Crates Json SessionScope Cron.

Open Scope string_scope.
Open Scope Z_scope.

(** The minute, hour, day, month and weekday (0 for Sunday) of a UTC time, where it
    has a date; within a minute they do not change. *)
Class Chrono := {
  utc_fields : Z -> option (Z * Z * Z * Z * Z);
  utc_fields_minute : forall t u, t / 60 = u / 60 -> utc_fields t = utc_fields u }.

Record PresetSchedule := {
  cron : string; label : string; label_zh : string; prompt : string;
  entry_session : option SessionPolicy; when_ : option CronPhrase }.

Record ScheduleJob := {
  job_id_text : string; job_cron : string; job_label : string; status : string;
  last_fired_minute : option Z }.

(** Each character that is not alphanumeric becomes a dash. *)
Fixpoint slug_chars (s : string) : string :=
  match s with
  | EmptyString => ""
  | String c s =>
      if (128 <=? byte_of c) && (byte_of c <? 192) then slug_chars s
      else String (if is_ascii_alphanumeric c then c else "-"%char) (slug_chars s)
  end.

(** [trim_matches('-')] *)
Fixpoint trim_start_dash (s : string) : string :=
  match s with String "-" s => trim_start_dash s | _ => s end.
Fixpoint trim_end_dash (s : string) : string :=
  match s with
  | EmptyString => ""
  | String c s => match trim_end_dash s with
                  | EmptyString => if Ascii.eqb c "-"%char then "" else String c ""
                  | t => String c t
                  end
  end.

Definition job_id (index : nat) (entry : PresetSchedule) : string :=
  let slug := slug_chars (to_ascii_lowercase (label entry)) in
  "schedule-" +:+ dec (Z.of_nat index) +:+ "-" +:+ trim_end_dash (trim_start_dash slug).

(** ** The guard *)

Definition service_tool (class : string) : string := "tool:" +:+ class.

(** The services of a successful answer with a list of them. *)
Definition fetch_self_grants (answer : option (Z * option Json)) : option (list string) :=
  '(status, body) ← answer;
  if negb ((200 <=? status) && (status <? 300)) then None
  else v ← body; services ← get v "services"; l ← as_array services;
       Some (map to_ascii_lowercase (omap as_str l)).

Definition tool_granted (services : list string) (class : string) : bool :=
  let want := to_ascii_lowercase (service_tool class) in
  existsb (fun s => String.eqb (to_ascii_lowercase s) want) services.

(** ** Errors of the bridge *)

Fixpoint contains_str (p s : string) : bool :=
  starts_with p s || match s with EmptyString => false | String _ s => contains_str p s end.

Definition is_transient_bridge_error (e : string) : bool :=
  let lower := to_ascii_lowercase e in
  let has p := contains_str p lower in
  if has "http 502" || has "http 503" || has "http 504" then true
  else if has "http " then false
  else has "connect" || has "timed out" || has "timeout" || has "error sending request"
       || has "connection reset" || has "broken pipe".

Definition SCHEDULE_TICK_ATTEMPTS : nat := 4.
Definition SCHEDULE_TICK_RETRY : Z := 30.

(** ** The loop *)

Section Ticks.
Context `{Chrono}.
Variable tz_offset_minutes : Z.
Variable schedule : list PresetSchedule.

Definition local_fields (now_unix : Z) : option (Z * Z * Z * Z * Z) :=
  utc_fields (wrap_i64 (now_unix + wrap_i64 (tz_offset_minutes * 60))).

Definition due_entries (entries : list PresetSchedule) (now_unix : Z) : list PresetSchedule :=
  match local_fields now_unix with
  | None => []
  | Some (minute, hour, dom, month, dow) =>
      List.filter (fun s => cron_matches (cron s) minute hour dom month dow) entries
  end.

Definition clock_turn_text (entry : PresetSchedule) (now_unix : Z) : string :=
  let stamp := match local_fields now_unix with
               | Some (mi, h, d, mo, _) => pad2 mo +:+ "-" +:+ pad2 d +:+ " " +:+ pad2 h +:+ ":" +:+ pad2 mi
               | None => dec_i64 now_unix
               end in
  "[clock · " +:+ trim (label entry) +:+ " · " +:+ stamp +:+ " · scheduled turn, not a person]" +:+ lf
  +:+ trim (prompt entry).

Definition clock_correlation (index : nat) (entry : PresetSchedule) (now_unix : Z) : string :=
  "clock:" +:+ job_id index entry +:+ ":" +:+ dec_i64 (now_unix / 60).

Definition jobs_registration_body (jobs : list ScheduleJob) : Json :=
  JObject [("jobs", JArray (map (fun j => JObject [("cron", JString (job_cron j));
    ("id", JString (job_id_text j)); ("label", JString (job_label j)); ("status", JString (status j))]) jobs))].

(** What a look does outside. *)
Inductive Act :=
| Registered (body : Json)
| Asked (index : nat) (text : string) (session : BridgeChatSession)
| Published (text correlation : string).

Record Ticker := {
  jobs : list ScheduleJob; granted : bool; last_grant_check : Z; announced_denied : bool }.

Definition start : Ticker :=
  {| jobs := imap (fun i s => {| job_id_text := job_id i s; job_cron := cron s; job_label := label s;
                                 status := "denied"; last_fired_minute := None |}) schedule;
     granted := false; last_grant_check := 0; announced_denied := false |}.

Definition with_status (s : string) (j : ScheduleJob) : ScheduleJob :=
  {| job_id_text := job_id_text j; job_cron := job_cron j; job_label := job_label j; status := s;
     last_fired_minute := last_fired_minute j |}.

Definition denied_notice (n : nat) : string :=
  "⏰ This app's " +:+ dec (Z.of_nat n)
  +:+ " scheduled turn(s) are switched off: the `Scheduled reports` capability (tool:schedule) is not granted. Enable it in the permissions page to arm them. · 此应用的定时任务未开启：请在权限页授予“定时报告”能力。".

(** Once an hour: the grants, then the registration or the notice of a denial. *)
Definition check_grants (now : Z) (view : option (list string)) (t : Ticker) : Ticker * list Act :=
  if (3600 <=? now - last_grant_check t) || (last_grant_check t =? 0) then
    let granted := match view with Some v => tool_granted v "schedule" | None => false end in
    let jobs := map (with_status (if granted then "armed" else "denied")) (jobs t) in
    if granted then
      ({| jobs := jobs; granted := true; last_grant_check := now; announced_denied := false |},
       [Registered (jobs_registration_body jobs)])
    else
      ({| jobs := jobs; granted := false; last_grant_check := now; announced_denied := true |},
       if announced_denied t then [] else [Published (denied_notice (length jobs)) "clock:denied"])
  else (t, []).

(** A turn: a transient failure is retried, at most three times; the last answer is
    the reply. *)
Fixpoint run_turn (retries attempt : nat) (entry : PresetSchedule) (ask : Act)
    (answer : nat -> result string string) : list Act * string :=
  match answer attempt with
  | Ok reply => ([ask], reply)
  | Err e =>
      match is_transient_bridge_error e, retries with
      | true, S retries =>
          let '(acts, reply) := run_turn retries (S attempt) entry ask answer in (ask :: acts, reply)
      | _, _ => ([ask], "(scheduled turn `" +:+ label entry +:+ "` failed: " +:+ e +:+ ")")
      end
  end.

Definition fire_entry (now : Z) (index : nat) (entry : PresetSchedule) (job : ScheduleJob)
    (answer : nat -> result string string) : ScheduleJob * list Act :=
  let minute := now / 60 in
  if bool_decide (last_fired_minute job = Some minute) then (job, [])
  else if is_nil (due_entries [entry] now) then (job, [])
  else
    let session := schedule_session (label entry) (entry_session entry) in
    let ask := Asked index (clock_turn_text entry now) session in
    let '(acts, reply) := run_turn (SCHEDULE_TICK_ATTEMPTS - 1) 1 entry ask answer in
    ({| job_id_text := job_id_text job; job_cron := job_cron job; job_label := job_label job;
        status := status job; last_fired_minute := Some minute |},
     (acts ++ [Published reply (clock_correlation index entry now)])%list).

Fixpoint fire_entries (now : Z) (index : nat) (entries : list PresetSchedule) (jobs : list ScheduleJob)
    (answers : nat -> nat -> result string string) : list ScheduleJob * list Act :=
  match entries, jobs with
  | entry :: entries, job :: jobs =>
      let '(job, acts) := fire_entry now index entry job (answers index) in
      let '(jobs, acts') := fire_entries now (S index) entries jobs answers in
      (job :: jobs, (acts ++ acts')%list)
  | _, _ => ([], [])
  end.

(** What a look is answered. *)
Record Look := {
  at_time : Z; view : option (list string); answers : nat -> nat -> result string string }.

Definition look (l : Look) (t : Ticker) : Ticker * list Act :=
  let '(t, acts) := check_grants (at_time l) (view l) t in
  if granted t then
    let '(fired, acts') := fire_entries (at_time l) 0 schedule (jobs t) (answers l) in
    ({| jobs := fired; granted := granted t; last_grant_check := last_grant_check t;
        announced_denied := announced_denied t |}, (acts ++ acts')%list)
  else (t, acts).

(** The loop over a list of looks; nothing runs without entries. *)
Fixpoint looks (ls : list Look) (t : Ticker) : Ticker * list (Look * list Act) :=
  match ls with
  | [] => (t, [])
  | l :: ls =>
      let '(t, acts) := look l t in let '(t, rest) := looks ls t in (t, (l, acts) :: rest)
  end.

Definition run (ls : list Look) : Ticker * list (Look * list Act) :=
  if is_nil schedule then (start, []) else looks ls start.
End Ticks.

(** ** When an entry runs *)

(** Whether the acts hold a turn of the entry. *)
Definition ran (i : nat) (acts : list Act) : bool :=
  existsb (fun a => match a with Asked j _ _ => (j =? i)%nat | _ => false end) acts.

Lemma ran_app i a b : ran i (a ++ b) = ran i a || ran i b.
Proof. apply existsb_app. Qed.

(** Looks no more than a minute apart skip no minute. *)
Definition no_gaps (ls : list Look) : Prop :=
  forall pre x y post, ls = (pre ++ x :: y :: post)%list -> at_time y <= at_time x + 60.

Fixpoint steps_within_minute (times : list Z) : bool :=
  match times with
  | a :: ((b :: _) as rest) => (b <=? a + 60) && steps_within_minute rest
  | _ => true
  end.

Lemma steps_no_gaps ls : steps_within_minute (map at_time ls) = true -> no_gaps ls.
Proof.
  intros Hok pre. revert ls Hok. induction pre as [|a pre IH]; intros ls Hok x y post ->.
  - cbn in Hok. apply andb_true_iff in Hok as [Hok _]. by apply Z.leb_le.
  - apply (IH (pre ++ x :: y :: post)%list) with (post := post); [|done].
    destruct pre; cbn in Hok; by apply andb_true_iff in Hok as [_ Hok].
Qed.

Lemma minute_seen ls first final m :
  no_gaps ls -> head ls = Some first -> last ls = Some final ->
  at_time first / 60 <= m <= at_time final / 60 -> exists l, l ∈ ls /\ at_time l / 60 = m.
Proof.
  revert first. induction ls as [|x [|y ls] IH]; intros first Hg Hf Hl Hm; [done | |].
  - cbn in Hf, Hl. injection Hf as <-. injection Hl as <-. exists x. split; [set_solver | lia].
  - injection Hf as <-. destruct (decide (at_time x / 60 = m)) as [E|Hne]; [exists x; set_solver|].
    destruct (IH y) as (l & Hin & E); [|done|done| |exists l; set_solver].
    + intros pre a b post E. apply (Hg (x :: pre) a b post). cbn. by f_equal.
    + split; [|lia]. pose proof (Hg [] x y ls eq_refl) as H60.
      assert (at_time y / 60 <= (at_time x + 1 * 60) / 60) by (apply Z.div_le_mono; lia).
      rewrite Z.div_add in *; lia.
Qed.
Section TickFacts.
Context `{Chrono}.
Variable tz_offset_minutes : Z.
Variable schedule : list PresetSchedule.

Definition due (entry : PresetSchedule) (now : Z) : bool :=
  negb (is_nil (due_entries tz_offset_minutes [entry] now)).

Lemma run_turn_ran j retries entry text session answer i : forall attempt,
  ran j (run_turn retries attempt entry (Asked i text session) answer).1 = (i =? j)%nat.
Proof.
  induction retries as [|retries IH]; intros attempt; cbn [run_turn]; destruct (answer attempt);
    cbn [ran existsb fst]; rewrite ?orb_false_r; try done;
    destruct (is_transient_bridge_error _); cbn [ran existsb fst]; rewrite ?orb_false_r; try done.
  specialize (IH (S attempt)). destruct (run_turn retries _ _ _ _) as [acts reply].
  cbn [fst] in *. cbn [ran existsb]. unfold ran in IH. rewrite IH. by destruct (i =? j)%nat.
Qed.

(** Whether a job fires: not yet in this minute, and due. *)
Definition fires_now (now : Z) (entry : PresetSchedule) (job : ScheduleJob) : bool :=
  negb (bool_decide (last_fired_minute job = Some (now / 60))) && due entry now.

Lemma fire_entry_spec now i entry job answer j :
  let '(job', acts) := fire_entry tz_offset_minutes now i entry job answer in
  ran j acts = fires_now now entry job && (i =? j)%nat /\
  last_fired_minute job' = if fires_now now entry job then Some (now / 60) else last_fired_minute job.
Proof.
  unfold fire_entry, fires_now, due. destruct (bool_decide _); [done|]. cbn [negb andb].
  destruct (is_nil (due_entries tz_offset_minutes [entry] now)); [done|]. cbn [negb andb].
  set (session := schedule_session _ _). set (text := clock_turn_text _ _ _).
  pose proof (run_turn_ran j (SCHEDULE_TICK_ATTEMPTS - 1) entry text session answer i 1) as Hr.
  destruct (run_turn _ 1 entry (Asked i text session) answer) as [acts reply]. cbn [fst] in Hr. split; [|done].
  by rewrite ran_app, Hr, orb_false_r.
Qed.

Lemma fire_entries_spec now answers : forall entries jobs index,
  length jobs = length entries ->
  let '(jobs', acts) := fire_entries tz_offset_minutes now index entries jobs answers in
  length jobs' = length entries /\ (forall j, (j < index)%nat -> ran j acts = false) /\
  (forall k entry job, entries !! k = Some entry -> jobs !! k = Some job ->
     ran (index + k) acts = fires_now now entry job /\
     exists job', jobs' !! k = Some job' /\
       last_fired_minute job' = if fires_now now entry job then Some (now / 60) else last_fired_minute job).
Proof.
  induction entries as [|entry entries IH]; intros [|job jobs] index Hlen; try done. cbn [fire_entries].
  pose proof (fun j => fire_entry_spec now index entry job (answers index) j) as He.
  destruct (fire_entry _ _ _ _ _ _) as [job' acts].
  injection Hlen as Hlen. specialize (IH jobs (S index) Hlen).
  destruct (fire_entries _ _ (S index) entries jobs answers) as [jobs' acts'].
  destruct IH as (Hl & Hlow & Hk). split_and!.
  - cbn. by rewrite Hl.
  - intros j Hj. rewrite ran_app, (proj1 (He j)), Hlow by lia.
    rewrite (proj2 (Nat.eqb_neq index j)) by lia. by rewrite andb_false_r.
  - intros [|k] entry' job0 Hentry Hjob; cbn in Hentry, Hjob.
    + injection Hentry as <-. injection Hjob as <-. rewrite Nat.add_0_r, ran_app, Hlow by lia.
      destruct (He index) as [-> ?]. rewrite Nat.eqb_refl, andb_true_r, orb_false_r. split; [done|]. by exists job'.
    + destruct (Hk k entry' job0 Hentry Hjob) as [Hr ?]. split; [|done].
      rewrite ran_app, (proj1 (He (index + S k)%nat)), (proj2 (Nat.eqb_neq index (index + S k))) by lia.
      rewrite andb_false_r. cbn [orb]. by rewrite <- Hr, Nat.add_succ_comm.
Qed.

Definition grants (l : Look) : bool :=
  match view l with Some v => tool_granted v "schedule" | None => false end.

(** Either the grants were read now, or they were read less than an hour ago. *)
Definition grant_step (l : Look) (t t' : Ticker) : Prop :=
  (last_grant_check t' = at_time l /\ granted t' = grants l) \/
  (last_grant_check t' = last_grant_check t /\ granted t' = granted t /\
   at_time l - last_grant_check t < 3600 /\ last_grant_check t <> 0).

Lemma check_grants_spec l t :
  let '(t', acts) := check_grants (at_time l) (view l) t in
  map last_fired_minute (jobs t') = map last_fired_minute (jobs t) /\ (forall i, ran i acts = false) /\
  grant_step l t t'.
Proof.
  unfold check_grants, grant_step, grants. destruct ((3600 <=? _) || _) eqn:Hc.
  - destruct (match view l with Some v => tool_granted v "schedule" | None => false end);
      cbn [jobs granted last_grant_check]; rewrite map_map; split_and!; try done; try by left.
    intros i. by destruct (announced_denied t).
  - split_and!; [done | done | right]. apply orb_false_iff in Hc as [Hc Hz].
    apply Z.leb_gt in Hc. by apply Z.eqb_neq in Hz.
Qed.

Definition last_run (i : nat) (t : Ticker) : option Z := j ← jobs t !! i; last_fired_minute j.

Lemma last_run_map i t : last_run i t = mjoin (map last_fired_minute (jobs t) !! i).
Proof. unfold last_run. rewrite list_lookup_fmap. by destruct (jobs t !! i). Qed.

Variable i : nat.
Variable entry : PresetSchedule.
Hypothesis Hi : schedule !! i = Some entry.

(** What one look does to an entry. *)
Lemma look_spec l t :
  length (jobs t) = length schedule ->
  let '(t', acts) := look tz_offset_minutes schedule l t in
  let fires := granted t' && (negb (bool_decide (last_run i t = Some (at_time l / 60))) && due entry (at_time l)) in
  length (jobs t') = length schedule /\ ran i acts = fires /\
  last_run i t' = (if fires then Some (at_time l / 60) else last_run i t) /\
  grant_step l t t'.
Proof.
  intros Hlen. unfold look. pose proof (check_grants_spec l t) as Hc.
  destruct (check_grants _ _ _) as [t1 acts]. destruct Hc as (Hmap & Hno & Hg).
  assert (Hlen1 : length (jobs t1) = length schedule).
  { rewrite <- Hlen, <- (length_map last_fired_minute (jobs t)), <- Hmap. symmetry. apply length_map. }
  assert (Hlast : last_run i t1 = last_run i t) by by rewrite !last_run_map, Hmap.
  destruct (granted t1) eqn:Hgr.
  - pose proof (fire_entries_spec (at_time l) (answers l) schedule (jobs t1) 0 Hlen1) as Hf.
    destruct (fire_entries _ _ 0 schedule (jobs t1) _) as [fired acts'].
    destruct Hf as (Hl & _ & Hk). cbn [jobs granted].
    destruct (lookup_lt_is_Some_2 (jobs t1) i) as [job Hjob].
    { rewrite Hlen1. by eapply lookup_lt_Some. }
    destruct (Hk i entry job Hi Hjob) as (Hr & job' & Hjob' & Hlast').
    assert (Hjl : last_fired_minute job = last_run i t) by (rewrite <- Hlast; unfold last_run; by rewrite Hjob).
    rewrite ran_app, Hno. cbn [orb andb]. unfold fires_now in *. rewrite Hjl in *. split_and!; try done.
    + unfold last_run at 1. cbn [jobs]. by rewrite Hjob'.
    + unfold grant_step in *. cbn [last_grant_check granted]. by rewrite Hgr in Hg.
  - cbn [andb]. rewrite Hgr. by split_and!.
Qed.

Lemma looks_app a b t :
  looks tz_offset_minutes schedule (a ++ b) t =
  let '(t1, o1) := looks tz_offset_minutes schedule a t in
  let '(t2, o2) := looks tz_offset_minutes schedule b t1 in (t2, (o1 ++ o2)%list).
Proof.
  revert t. induction a as [|l a IH]; intros t; cbn [looks app]; [by destruct (looks _ _ b t)|].
  destruct (look _ _ l t) as [t1 acts]. rewrite IH.
  destruct (looks _ _ a t1) as [t2 o1]. by destruct (looks _ _ b t2).
Qed.

Lemma looks_fst ls t : map fst (looks tz_offset_minutes schedule ls t).2 = ls.
Proof.
  revert t. induction ls as [|l ls IH]; intros t; cbn [looks]; [done|].
  destruct (look _ _ l t) as [t1 acts]. specialize (IH t1). destruct (looks _ _ ls t1). cbn in *. by f_equal.
Qed.

(** The entry ran in the minute, in one of these looks. *)
Definition ran_in (m : Z) (done : list (Look * list Act)) : Prop :=
  exists x, x ∈ done /\ ran i x.2 = true /\ at_time x.1 / 60 = m.

(** The last run is the latest, as long as the clock does not step back. *)
Definition remembers (t : Ticker) (done : list (Look * list Act)) : Prop :=
  match last_run i t with
  | None => forall m, ~ ran_in m done
  | Some m => ran_in m done /\ forall m', ran_in m' done -> m' <= m
  end.

Lemma start_last : last_run i (start schedule) = None /\ length (jobs (start schedule)) = length schedule.
Proof.
  unfold last_run, start. cbn [jobs]. rewrite list_lookup_imap, Hi. cbn. by rewrite length_imap.
Qed.

Lemma ran_in_snoc m done x : ran_in m (done ++ [x]) <-> ran_in m done \/ (ran i x.2 = true /\ at_time x.1 / 60 = m).
Proof. unfold ran_in. setoid_rewrite elem_of_app. setoid_rewrite list_elem_of_singleton. naive_solver. Qed.

Lemma looks_remember ls :
  StronglySorted Z.le (map at_time ls) ->
  let '(t, done) := looks tz_offset_minutes schedule ls (start schedule) in
  length (jobs t) = length schedule /\ remembers t done.
Proof.
  induction ls as [|l ls IH] using rev_ind; intros Hs.
  { cbn [looks]. destruct start_last as [Hl Hn]. split; [done|]. unfold remembers. rewrite Hl.
    intros m (x & Hx & _). by apply not_elem_of_nil in Hx. }
  rewrite map_app in Hs. apply StronglySorted_app in Hs as (Hle & Hs & _). specialize (IH Hs).
  rewrite looks_app. pose proof (looks_fst ls (start schedule)) as Hfst.
  destruct (looks _ _ ls _) as [t done]. cbn [looks snd] in *. destruct IH as [Hlen Hr].
  pose proof (look_spec l t Hlen) as Hl. destruct (look _ _ l t) as [t' acts].
  destruct Hl as (Hlen' & Hran & Hlast & _). split; [done|].
  assert (Hbefore : forall m, ran_in m done -> m <= at_time l / 60).
  { intros m (x & Hx & _ & <-). apply Z.div_le_mono; [lia|]. apply Hle; [|set_solver].
    apply list_elem_of_fmap. exists x.1. split; [done|]. rewrite <- Hfst. apply list_elem_of_fmap. by exists x. }
  unfold remembers in *. rewrite Hlast. cbn [fst snd] in *.
  destruct (granted t' && _) eqn:Hf.
  - split; [apply ran_in_snoc; by right|]. intros m' [Hm|[_ Hm]]%ran_in_snoc; [by apply Hbefore | cbn [fst] in Hm; lia].
  - destruct (last_run i t) as [m|].
    + destruct Hr as [Hr Hmax]. split; [apply ran_in_snoc; by left|].
      intros m' [Hm|[Hm _]]%ran_in_snoc; [by apply Hmax|]. cbn [snd] in Hm. by rewrite Hran in Hm.
    + intros m [Hm|[Hm _]]%ran_in_snoc; [by apply (Hr m)|]. cbn [snd] in Hm. by rewrite Hran in Hm.
Qed.

(** Where the grants stand after some looks. *)
Lemma grants_fresh ls :
  let t := (looks tz_offset_minutes schedule ls (start schedule)).1 in
  (granted t = true -> exists x, x ∈ ls /\ grants x = true /\ at_time x = last_grant_check t) /\
  (Forall (fun l => grants l = true) ls -> (ls = [] /\ last_grant_check t = 0) \/ granted t = true) /\
  length (jobs t) = length schedule.
Proof.
  cbv zeta. induction ls as [|l ls (Hg & Hall & Hlen)] using rev_ind.
  { cbn [looks fst]. split_and!; [done | intros _; by left | apply start_last]. }
  rewrite looks_app. destruct (looks _ _ ls _) as [t done]. cbn [looks fst] in *.
  pose proof (look_spec l t Hlen) as Hl. destruct (look _ _ l t) as [t' acts]. cbn [fst].
  destruct Hl as (Hlen' & _ & _ & Hstep). split_and!; [| |done].
  - intros Ht. destruct Hstep as [[E1 E2]|(E1 & E2 & _)]; rewrite E1.
    + exists l. split_and!; [set_solver | congruence | done].
    + destruct Hg as (x & Hx & ?); [congruence|]. exists x. split; [set_solver|done].
  - intros Hls. apply Forall_app in Hls as [Hls Hl]. apply Forall_cons in Hl as [Hl _].
    destruct Hstep as [[_ E]|(E1 & E2 & _ & Hz)]; [right; congruence|].
    destruct (Hall Hls) as [[_ ?]|Ht]; [done|]. right. congruence.
Qed.

(** Any look of a run, by what came before it. *)
Lemma one_look ls before l acts after :
  StronglySorted Z.le (map at_time ls) ->
  (looks tz_offset_minutes schedule ls (start schedule)).2 = (before ++ (l, acts) :: after)%list ->
  let t := (looks tz_offset_minutes schedule (map fst before) (start schedule)).1 in
  let armed := granted (look tz_offset_minutes schedule l t).1 in
  (ran i acts = true <-> armed = true /\ due entry (at_time l) = true /\ ~ ran_in (at_time l / 60) before) /\
  (armed = true -> exists x, x ∈ (map fst before ++ [l])%list /\ grants x = true /\
     at_time l - 3600 < at_time x).
Proof.
  intros Hs Hout. cbv zeta. pose proof (looks_fst ls (start schedule)) as Hfst.
  rewrite Hout, map_app in Hfst. cbn [map fst] in Hfst. set (pre := map fst before) in *.
  rewrite <- Hfst, map_app in Hs. apply StronglySorted_app in Hs as (Hle & Hs & _).
  rewrite <- Hfst, looks_app in Hout. pose proof (looks_fst pre (start schedule)) as Hpre.
  pose proof (looks_remember pre Hs) as Hrem. pose proof (grants_fresh pre) as (Hg & _ & _).
  destruct (looks _ _ pre _) as [t done]. destruct Hrem as [Hlen Hrem]. cbn [looks fst snd] in *.
  pose proof (look_spec l t Hlen) as Hl. destruct (look _ _ l t) as [t' acts'] eqn:El.
  destruct (looks _ _ (map fst after) t') as [t2 rest]. cbn [snd fst] in *.
  apply app_inj_1 in Hout as [-> Hout]; [|by rewrite <- (length_map fst done), Hpre; unfold pre; rewrite length_map].
  injection Hout as -> _. destruct Hl as (_ & Hran & _ & Hstep). split.
  - rewrite Hran, !andb_true_iff, negb_true_iff, bool_decide_eq_false.
    assert (Hiff : last_run i t <> Some (at_time l / 60) <-> ~ ran_in (at_time l / 60) before); [|tauto].
    unfold remembers in Hrem. destruct (last_run i t) as [m|]; [|by split; intros _; [apply Hrem|]].
    destruct Hrem as [Hr Hmax]. split; [|by intros Hn [= ->]].
    intros Hne Hin. apply Hne. f_equal. apply Z.le_antisymm; [|by apply Hmax].
    destruct Hr as (x & Hx & _ & <-). apply Z.div_le_mono; [lia|]. apply Hle; [|set_solver].
    apply list_elem_of_fmap. exists x.1. split; [done|]. unfold pre. apply list_elem_of_fmap. by exists x.
  - intros Ht. destruct Hstep as [[E1 E2]|(E1 & E2 & Hlt & _)].
    + exists l. split_and!; [set_solver | congruence | lia].
    + destruct Hg as (x & Hx & Hgx & E); [congruence|]. exists x. split_and!; [set_solver | done | lia].
Qed.

(** When every view grants, every look is armed. *)
Lemma granted_look pre l :
  Forall (fun l => grants l = true) (pre ++ [l]) ->
  granted (look tz_offset_minutes schedule l (looks tz_offset_minutes schedule pre (start schedule)).1).1 = true.
Proof.
  intros Hall. pose proof (grants_fresh (pre ++ [l])) as (_ & Hg & _). rewrite looks_app in Hg.
  destruct (looks _ _ pre _) as [t o]. cbn [looks fst] in *. destruct (look _ _ l t) as [t' acts']. cbn [fst] in *.
  destruct Hg as [[? _]|?]; [done | by destruct pre | done].
Qed.

(** An armed look at a due entry leaves a run of its minute behind, old or new. *)
Lemma run_of_minute ls before l acts after :
  StronglySorted Z.le (map at_time ls) ->
  (looks tz_offset_minutes schedule ls (start schedule)).2 = (before ++ (l, acts) :: after)%list ->
  Forall (fun l => grants l = true) ls -> due entry (at_time l) = true ->
  ran_in (at_time l / 60) (before ++ [(l, acts)]).
Proof.
  intros Hs Hout Hall Hdue. destruct (one_look ls before l acts after Hs Hout) as [Hran _]. apply ran_in_snoc.
  destruct (ran i acts) eqn:Er; [by right|left].
  destruct (decide (Exists (fun x => ran i x.2 = true /\ at_time x.1 / 60 = at_time l / 60) before)) as [He|Hne].
  - apply Exists_exists in He as (x & ? & ? & ?). by exists x.
  - exfalso. assert (false = true) as [=]. apply Hran. split_and!; [|done|].
    + apply granted_look. pose proof (looks_fst ls (start schedule)) as Hfst. rewrite Hout, map_app in Hfst.
      rewrite <- Hfst in Hall. apply Forall_app in Hall as [? [? _]%Forall_cons]. apply Forall_app. by split; [|constructor].
    + intros (x & ? & ? & ?). apply Hne, Exists_exists. by exists x.
Qed.

(** A minute has one run at most. *)
Lemma one_run_of_minute ls before x after m :
  StronglySorted Z.le (map at_time ls) ->
  (looks tz_offset_minutes schedule ls (start schedule)).2 = (before ++ x :: after)%list ->
  ran i x.2 = true -> at_time x.1 / 60 = m -> ~ ran_in m before /\ ~ ran_in m after.
Proof.
  intros Hs Hout Hran Hm. destruct x as [lx ax]. cbn [fst snd] in *. split.
  - destruct (one_look ls before lx ax after Hs Hout) as [[Hr _] _]. rewrite Hm in Hr. by apply Hr.
  - intros ([ly ay] & Hy & Hry & Hmy). cbn [fst snd] in *. apply list_elem_of_split in Hy as (a1 & a2 & ->).
    destruct (one_look ls (before ++ (lx, ax) :: a1) ly ay a2 Hs) as [[Hr _] _]; [by rewrite Hout, <- app_assoc|].
    apply Hr in Hry as (_ & _ & Hno). apply Hno. rewrite Hmy. exists (lx, ax). cbn [fst snd]. split; [set_solver|done].
Qed.
End TickFacts.

Section ScheduleProperties.
Context `{Chrono}.
Variable tz_offset_minutes : Z.

(** Times and offsets a clock shows. *)
Definition sensible (t : Z) : Prop := 0 <= t < 2 ^ 60.

Lemma due_minute entry t u :
  - 2 ^ 30 <= tz_offset_minutes <= 2 ^ 30 -> sensible t -> sensible u -> t / 60 = u / 60 ->
  due tz_offset_minutes entry t = due tz_offset_minutes entry u.
Proof.
  intros Htz Ht Hu E. unfold due, due_entries, local_fields, sensible in *.
  rewrite !(wrap_i64_small (_ * 60)) by (unfold is_i64, i64_min, i64_max; lia).
  rewrite !wrap_i64_small by (unfold is_i64, i64_min, i64_max; lia).
  rewrite (utc_fields_minute (t + tz_offset_minutes * 60) (u + tz_offset_minutes * 60)); [done|].
  rewrite !Z.div_add by lia. by rewrite E.
Qed.

(** C33: an entry runs once for every minute it is due.  As long as the clock does not
    step back, a look runs an entry exactly when the delegate's grants, read within
    the last hour, have [tool:schedule], the entry is due by the wall clock of its
    time zone, and no earlier look of the same minute ran it.  And when every view
    grants it and no two looks are more than a minute apart, every minute from the
    first look to the last at which the entry is due runs it exactly once. *)
Theorem schedule_once_a_minute (schedule : list PresetSchedule) (i : nat) (entry : PresetSchedule)
    (ls : list Look)
    (Hi : schedule !! i = Some entry) (Htz : - 2 ^ 30 <= tz_offset_minutes <= 2 ^ 30)
    (Hs : StronglySorted Z.le (map at_time ls)) (Ht : Forall (fun l => sensible (at_time l)) ls) :
  let out := (run tz_offset_minutes schedule ls).2 in
  map fst out = ls /\
  (forall before l acts after, out = (before ++ (l, acts) :: after)%list ->
     let t := (run tz_offset_minutes schedule (map fst before)).1 in
     let armed := granted (look tz_offset_minutes schedule l t).1 in
     (ran i acts = true <->
        armed = true /\ due tz_offset_minutes entry (at_time l) = true /\ ~ ran_in i (at_time l / 60) before) /\
     (armed = true -> exists x, x ∈ (map fst before ++ [l])%list /\ grants x = true /\
        at_time l - 3600 < at_time x)) /\
  (Forall (fun l => grants l = true) ls -> no_gaps ls ->
   forall first final m, head ls = Some first -> last ls = Some final ->
     at_time first / 60 <= m <= at_time final / 60 -> due tz_offset_minutes entry (m * 60) = true ->
     exists before x after, out = (before ++ x :: after)%list /\ at_time x.1 / 60 = m /\ ran i x.2 = true /\
       ~ ran_in i m before /\ ~ ran_in i m after).
Proof.
  cbv zeta. assert (Erun : forall l, run tz_offset_minutes schedule l = looks tz_offset_minutes schedule l (start schedule)).
  { intros l. unfold run. destruct schedule; [by rewrite lookup_nil in Hi | done]. }
  rewrite Erun. pose proof (looks_fst tz_offset_minutes schedule ls (start schedule)) as Hfst.
  split_and!; [exact Hfst | intros before l acts after Hout; rewrite Erun;
    by apply (one_look tz_offset_minutes schedule i entry Hi ls before l acts after) |].
  intros Hall Hgaps first final m Hf Hl Hm Hdue.
  destruct (minute_seen ls first final m Hgaps Hf Hl Hm) as (l & Hin & Hlm).
  assert (Hdue' : due tz_offset_minutes entry (at_time l) = true).
  { rewrite Forall_forall in Ht. specialize (Ht l Hin).
    rewrite (due_minute entry (at_time l) (m * 60)); try done; unfold sensible in *; [|rewrite Z.div_mul by lia; done].
    rewrite <- Hlm. pose proof (Z.mul_div_le (at_time l) 60). pose proof (Z.div_pos (at_time l) 60). lia. }
  rewrite <- Hfst in Hin. apply list_elem_of_fmap in Hin as ([l' acts] & -> & Hin). cbn [fst] in *.
  apply list_elem_of_split in Hin as (before & after & Hout).
  pose proof (run_of_minute tz_offset_minutes schedule i entry Hi ls before l' acts after Hs Hout Hall Hdue')
    as (x & Hx & Hr & Hxm).
  apply list_elem_of_split in Hx as (b & a & Hba).
  assert (Hout' : (looks tz_offset_minutes schedule ls (start schedule)).2 = (b ++ x :: a ++ after)%list).
  { rewrite Hout. change ((l', acts) :: after) with ([(l', acts)] ++ after)%list.
    by rewrite app_assoc, Hba, <- app_assoc. }
  rewrite Hlm in Hxm. exists b, x, (a ++ after)%list.
  destruct (one_run_of_minute tz_offset_minutes schedule i entry Hi ls b x (a ++ after) m Hs Hout' Hr Hxm).
  by split_and!.
Qed.
End ScheduleProperties.

(** ** A clock to evaluate on

    Months and years are left out: every day is a Thursday, the first of January. *)
Module ToyClock.
Definition fields (t : Z) : option (Z * Z * Z * Z * Z) :=
  let m := t / 60 in Some (m mod 60, (m / 60) mod 24, 1, 1, 4).

Definition chrono : Chrono.
Proof. refine {| utc_fields := fields |}. intros t u E. unfold fields. by rewrite E. Defined.

Definition breakfast : PresetSchedule :=
  {| cron := "0 8 * * *"; label := "Breakfast"; label_zh := ""; prompt := "Plan breakfast.";
     entry_session := None; when_ := None |}.
Definition reminder : PresetSchedule :=
  {| cron := "1 8 * * *"; label := "Reminder"; label_zh := ""; prompt := "Remind.";
     entry_session := None; when_ := None |}.

Definition granted_view : option (list string) := Some ["tool:schedule"].

Definition at_ (t : Z) : Look := {| at_time := t; view := granted_view; answers _ _ := Ok "done" |}.

(** A quarter of an hour, a look every twenty seconds. *)
Definition morning : list Look := map (fun k => at_ (28500 + 20 * Z.of_nat k)) (seq 0 40).

(** The same with the look after eight o'clock three minutes later: the turn took
    that long. *)
Definition slow : list Look := [at_ 28780; at_ 28800; at_ 28980; at_ 29000].
End ToyClock.

(** A turn that outlasts a minute costs the entries due meanwhile their run. *)
Example long_turn_skips :
  let _ := ToyClock.chrono in
  map (fun x => (at_time x.1, ran 0 x.2, ran 1 x.2))
    (run 0 [ToyClock.breakfast; ToyClock.reminder] ToyClock.slow).2
  = [(28780, false, false); (28800, true, false); (28980, false, false); (29000, false, false)].
Proof. vm_compute. reflexivity. Qed.

Lemma schedule_once_a_minute_witness :
  let _ := ToyClock.chrono in
  exists before x after,
    (run 0 [ToyClock.breakfast] ToyClock.morning).2 = (before ++ x :: after)%list /\
    at_time x.1 / 60 = 480 /\ ran 0 x.2 = true /\ ~ ran_in 0 480 before /\ ~ ran_in 0 480 after.
Proof.
  cbv zeta.
  refine (proj2 (proj2 (@schedule_once_a_minute ToyClock.chrono 0 [ToyClock.breakfast] 0 ToyClock.breakfast
    ToyClock.morning eq_refl ltac:(lia) _ _)) _ _ (ToyClock.at_ 28500) (ToyClock.at_ 29280) 480 eq_refl eq_refl _ _).
  - cbn. repeat constructor; lia.
  - unfold ToyClock.morning. apply Forall_map, Forall_forall. intros k Hk%elem_of_seq.
    unfold sensible. cbn [at_time ToyClock.at_ compose]. lia.
  - apply Forall_map, Forall_forall. intros k _. vm_compute. reflexivity.
  - apply steps_no_gaps. vm_compute. reflexivity.
  - split; apply Z.leb_le; reflexivity.
  - vm_compute. reflexivity.
Defined.
