(* ===== verification/AppTemplate.v ===== *)
(** * Application templates

    [crates/agentkeys-protocol/src/app_template.rs] up to the cron grammar (which is
    [Cron]): the closed vocabularies, the manifest, and its validation, which reports
    every row it refuses; with [capability_catalog.rs], whose classes are the tools a
    template may ask for, and the template's description for the router.  Optional
    texts that are only shown are kept as data. *)
From S2P Require Import Prelude RustStr StrFacts.
From S2P Require Import Catalog Cron SessionScope Schedule.

Open Scope string_scope.
Open Scope Z_scope.

(** ** Constants and caps *)

Definition APP_TEMPLATE_SCHEMA_MIN : Z := 1.
Definition APP_TEMPLATE_SCHEMA_MAX : Z := 1.
Definition APP_TEMPLATE_SCHEMA_DEFAULT : Z := 1.
Definition BUILT_WITH_PLUGINS : list string := ["openviking"].
Definition DEFAULT_TOOL_CLASSES : list string := ["web"].
Definition DEFAULT_MIRROR_NAMESPACES : list string := ["personal"; "family"; "work"; "travel"].

Definition MAX_SLOTS : nat := 16.
Definition MAX_RESOURCES : nat := 16.
Definition MAX_TOOLS : nat := 8.
Definition MAX_SCHEDULES : nat := 12.
Definition MAX_DISCLOSURES : nat := 16.
Definition MAX_BINDINGS_PER_SLOT : Z := 8.
Definition GATE_TOKENS_PER_DAY : Z := 2000000.
Definition GATE_TURNS_PER_HOUR : Z := 600.
Definition FEED_EVENTS_PER_DAY : Z := 5000.
Definition MAX_ROUTE_EXAMPLES : nat := 8.
Definition MAX_ROUTE_EXAMPLE_CHARS : Z := 60.

(** ** Vocabularies *)

#[export] Instance ChannelEndpointKind_eq_dec : EqDecision ChannelEndpointKind.
Proof. solve_decision. Defined.

Definition SlotDirection_as_str (d : SlotDirection) : string :=
  match d with Sub => "sub" | Pub => "pub" | Duplex => "duplex" end.
Definition reads (d : SlotDirection) : bool := match d with Pub => false | _ => true end.
Definition writes (d : SlotDirection) : bool := match d with Sub => false | _ => true end.

Inductive ResourceKind := Document | Profile | Dataset | Gallery | Note.

#[export] Instance ResourceKind_eq_dec : EqDecision ResourceKind.
Proof. solve_decision. Defined.

Definition ResourceKind_all : list ResourceKind := [Document; Profile; Dataset; Gallery; Note].

Definition ResourceKind_as_str (k : ResourceKind) : string :=
  match k with
  | Document => "document" | Profile => "profile" | Dataset => "dataset"
  | Gallery => "gallery" | Note => "note"
  end.

Definition ResourceKind_parse (s : string) : option ResourceKind :=
  List.find (fun k => String.eqb (ResourceKind_as_str k) s) ResourceKind_all.

Inductive Availability := AlwaysOn | WakeOnEvent | Scheduled.

Definition Availability_as_str (a : Availability) : string :=
  match a with
  | AlwaysOn => "always-on" | WakeOnEvent => "wake-on-event" | Scheduled => "scheduled"
  end.

Definition Availability_parse (s : string) : option Availability :=
  if String.eqb s "always-on" then Some AlwaysOn
  else if String.eqb s "wake-on-event" then Some WakeOnEvent
  else if String.eqb s "scheduled" then Some Scheduled else None.

Definition may_hibernate (a : Availability) : bool :=
  match a with AlwaysOn => false | _ => true end.

Inductive ContactTier := Owner | Partner | Elder | Kid | Helper | Guest.

(** ** The manifest *)

Record AppSlot := {
  slot_name : string;
  slot_kind : ChannelEndpointKind;
  slot_direction : SlotDirection;
  slot_required : bool;
  max_bindings : option Z;
  slot_event_kinds : list ChannelEventKind;
  slot_audience : list ContactTier;
  slot_session : option SessionPolicy;
  slot_reason : string;
  slot_reason_zh : string;
}.

Record AppResourceRequest := {
  resource_name : string;
  resource_kind : ResourceKind;
  tags : list string;
  resource_required : bool;
  sensitivity_floor : option Sensitivity;
  resource_reason : string;
  resource_reason_zh : string;
}.

Record AppBudgets := {
  gate_tokens_per_day : option Z;
  gate_turns_per_hour : option Z;
  feed_events_per_day : option Z;
}.

Record AppDisclosure := {
  disclosed_data : string; disclosed_data_zh : string;
  disclosed_path : string; disclosed_path_zh : string;
}.

Record AppContextPointers := { persona : string; skills : list string; knowledge : list string }.

Record AppManifest := {
  schema : Z;
  publisher : string;
  slots : list AppSlot;
  resources : list AppResourceRequest;
  tools : option (list string);
  availability : Availability;
  budgets : AppBudgets;
  disclosure : list AppDisclosure;
  context : option AppContextPointers;
  hidden : bool;
}.

Record PresetSuggested := { suggested : string; suggested_reason : string; suggested_reason_zh : string }.

Record PresetSummary := {
  preset_id : string;
  version : string;
  name : string;
  name_zh : string;
  description : string;
  description_zh : string;
  suggested_channels : list PresetSuggested;
  suggested_context : list PresetSuggested;
  schedule : list PresetSchedule;
  route_examples : list string;
  app : AppManifest;
}.

Definition default_budgets : AppBudgets :=
  {| gate_tokens_per_day := None; gate_turns_per_hour := None; feed_events_per_day := None |}.

(** [AppManifest::default] *)
Definition default_manifest : AppManifest :=
  {| schema := APP_TEMPLATE_SCHEMA_DEFAULT; publisher := ""; slots := []; resources := [];
     tools := None; availability := AlwaysOn; budgets := default_budgets; disclosure := [];
     context := None; hidden := false |}.

Definition is_application (p : PresetSummary) : bool :=
  negb (is_nil (slots (app p))) || negb (is_nil (resources (app p))) || is_some (tools (app p)).

(** [derive_display_fields]: a panic of [describe_cron] is passed on. *)
Fixpoint derive_when (entries : list PresetSchedule) : result Panic (list PresetSchedule) :=
  match entries with
  | [] => Ok []
  | e :: rest =>
      let? words := describe_cron (cron e) in
      let? rest := derive_when rest in
      Ok ({| cron := cron e; label := label e; label_zh := label_zh e; prompt := prompt e;
             entry_session := entry_session e; when_ := words |} :: rest)
  end.

(** A list without its later repetitions, in order. *)
Definition push_new {A} `{EqDecision A} (out : list A) (x : A) : list A :=
  if bool_decide (x ∈ out) then out else (out ++ [x])%list.

Definition is_messaging (s : AppSlot) : bool := bool_decide (slot_kind s = Messaging).

Definition messaging_event_kinds (p : PresetSummary) : list ChannelEventKind :=
  fold_left (fun kinds s => fold_left push_new (slot_event_kinds s) kinds)
    (List.filter is_messaging (slots (app p))) [].

Record AppBlurb := {
  blurb_name : string; blurb_name_zh : string; purpose : string; purpose_zh : string;
  examples : list string; blurb_event_kinds : list ChannelEventKind;
}.

Definition router_blurb (p : PresetSummary) : AppBlurb :=
  {| blurb_name := name p; blurb_name_zh := name_zh p; purpose := description p;
     purpose_zh := description_zh p; examples := route_examples p;
     blurb_event_kinds := messaging_event_kinds p |}.

(** ** Tool classes *)

Definition SCHEDULE_CLASS : string := "schedule".
Definition TOOL_CLASSES : list string := ["web"; "code"; SCHEDULE_CLASS].

Definition normalize_tool_class (spelling : string) : string :=
  let s := to_ascii_lowercase (trim spelling) in default s (strip_prefix "tool:" s).

Definition tool_classes (p : PresetSummary) : list string :=
  match tools (app p) with
  | None => DEFAULT_TOOL_CLASSES
  | Some l => fold_left push_new (map normalize_tool_class l) []
  end.

(** ** Validation *)

Record TemplateError := { row : string; code : string; message : string }.

Definition error (r c m : string) : list TemplateError := [{| row := r; code := c; message := m |}].
Definition refuse_if (b : bool) (e : list TemplateError) : list TemplateError := if b then e else [].

Definition at_row (base : string) (i : nat) : string := base +:+ "[" +:+ dec (Z.of_nat i) +:+ "]".
Definition dec_nat (n : nat) : string := dec (Z.of_nat n).

Definition name_of (other : Ascii.ascii -> bool) (s : string) : bool :=
  negb (String.eqb s "") && (String.length s <=? 32)%nat
  && string_all (fun c => is_ascii_lowercase c || is_ascii_digit c || other c) s.

Definition is_valid_label : string -> bool := name_of (fun c => Ascii.eqb c "-"%char).
Definition is_valid_slot_name : string -> bool := name_of (fun c => Ascii.eqb c "_"%char).
Definition is_valid_resource_name : string -> bool :=
  name_of (fun c => Ascii.eqb c "_"%char || Ascii.eqb c "-"%char).

Definition is_semver (s : string) : bool :=
  let parts := split_char "."%char s in
  (length parts =? 3)%nat
  && forallb (fun p => negb (String.eqb p "") && (String.length p <=? 9)%nat && string_all is_ascii_digit p) parts.

Definition is_media_kind (k : ChannelEventKind) : bool :=
  match k with Image | AudioClip | Frame => true | _ => false end.

(** One error for each element that [f] refuses, with its position. *)
Definition each {A} (f : nat -> A -> list TemplateError) (l : list A) : list TemplateError :=
  concat (imap f l).

(** A name that an earlier element has. *)
Definition repeated {A} (name : A -> string) (l : list A) (i : nat) (x : A) : bool :=
  bool_decide (name x ∈ map name (take i l)).

Definition header_errors (p : PresetSummary) : list TemplateError :=
  let m := app p in
  (refuse_if ((schema m <? APP_TEMPLATE_SCHEMA_MIN) || (APP_TEMPLATE_SCHEMA_MAX <? schema m))
     (error "schema" "schema_unsupported"
       ("manifest schema " +:+ dec (schema m) +:+ " is outside the supported range "
        +:+ dec APP_TEMPLATE_SCHEMA_MIN +:+ "..=" +:+ dec APP_TEMPLATE_SCHEMA_MAX
        +:+ " — a newer platform (or a migration note for a major bump) is needed to install this template"))
   ++ refuse_if (negb (is_valid_label (preset_id p)))
     (error "id" "id_charset"
       ("template id '" +:+ preset_id p
        +:+ "' must match ^[a-z0-9-]{1,32}$ (it doubles as the delegate label)"))
   ++ refuse_if (negb (is_semver (version p)))
     (error "version" "version_not_semver"
       ("template version '" +:+ version p +:+ "' must be MAJOR.MINOR.PATCH")))%list.

Definition session_errors (r who : string) (policy : option SessionPolicy) : list TemplateError :=
  match policy with
  | Some policy =>
      match validate_session_policy policy with
      | Err why => error r "session_policy_invalid" (who +:+ ": " +:+ why)
      | Ok _ => []
      end
  | None => []
  end.

Definition slot_errors (all : list AppSlot) (i : nat) (s : AppSlot) : list TemplateError :=
  let r := at_row "slots" i in
  (refuse_if (negb (is_valid_slot_name (slot_name s)))
     (error (r +:+ ".slot") "slot_name_charset"
       ("slot name '" +:+ slot_name s +:+ "' must match ^[a-z0-9_]{1,32}$"))
   ++ refuse_if (repeated slot_name all i s)
     (error (r +:+ ".slot") "slot_name_duplicate" ("slot name '" +:+ slot_name s +:+ "' is declared twice"))
   ++ refuse_if (is_nil (slot_event_kinds s))
     (error (r +:+ ".event_kinds") "slot_event_kinds_empty"
       ("slot '" +:+ slot_name s
        +:+ "' declares no event kinds — name what it carries (text, image, doc, …)"))
   ++ match max_bindings s with
      | Some max =>
          refuse_if ((max =? 0) || (MAX_BINDINGS_PER_SLOT <? max))
            (error (r +:+ ".max_bindings") "slot_max_bindings_range"
              ("slot '" +:+ slot_name s +:+ "' max_bindings must be 1..=" +:+ dec MAX_BINDINGS_PER_SLOT))
      | None => []
      end
   ++ refuse_if (negb (is_nil (slot_audience s)) && negb (is_messaging s))
     (error (r +:+ ".audience") "audience_on_non_messaging_slot"
       ("slot '" +:+ slot_name s +:+ "' is a " +:+ ChannelEndpointKind_as_str (slot_kind s)
        +:+ " slot — audience tiers only apply to messaging slots"))
   ++ session_errors (r +:+ ".session") ("slot '" +:+ slot_name s +:+ "'") (slot_session s)
   ++ refuse_if (is_messaging s && negb (reads (slot_direction s)))
     (error (r +:+ ".direction") "messaging_slot_must_read"
       ("messaging slot '" +:+ slot_name s
        +:+ "' must be sub or duplex — a contact's message has to reach the app")))%list.

Definition resource_errors (all : list AppResourceRequest) (i : nat) (x : AppResourceRequest)
    : list TemplateError :=
  let r := at_row "resources" i in
  (refuse_if (negb (is_valid_resource_name (resource_name x)))
     (error (r +:+ ".name") "resource_name_charset"
       ("resource name '" +:+ resource_name x +:+ "' must match ^[a-z0-9_-]{1,32}$"))
   ++ refuse_if (repeated resource_name all i x)
     (error (r +:+ ".name") "resource_name_duplicate"
       ("resource name '" +:+ resource_name x +:+ "' is declared twice")))%list.

(** [x exceed the platform cap of cap] *)
Definition over_cap (r c what : string) (n cap : nat) : list TemplateError :=
  refuse_if (cap <? n)%nat
    (error r c (dec_nat n +:+ " " +:+ what +:+ " exceed the platform cap of " +:+ dec_nat cap)).

Definition wants_schedule (l : list string) : bool :=
  existsb (fun t => String.eqb (normalize_tool_class t) SCHEDULE_CLASS) l.

Definition tool_errors (tools : option (list string)) : list TemplateError :=
  match tools with
  | None => []
  | Some l =>
      (over_cap "tools" "too_many_tools" "tool entries" (length l) MAX_TOOLS
       ++ each (fun i t =>
            refuse_if (negb (bool_decide (normalize_tool_class t ∈ TOOL_CLASSES)))
              (error (at_row "tools" i) "tool_class_unknown"
                ("'" +:+ t +:+ "' is not a known tool class (known: " +:+ join ", " TOOL_CLASSES +:+ ")"))) l)%list
  end.

Definition route_errors (l : list string) : list TemplateError :=
  (over_cap "route_examples" "too_many_route_examples" "route examples" (length l) MAX_ROUTE_EXAMPLES
   ++ each (fun i e =>
        let chars := chars_count (trim e) in
        refuse_if ((chars =? 0) || (MAX_ROUTE_EXAMPLE_CHARS <? chars))
          (error (at_row "route_examples" i) "route_example_length"
            ("a route example must be 1–" +:+ dec MAX_ROUTE_EXAMPLE_CHARS +:+ " characters, got "
             +:+ dec chars))) l)%list.

Definition schedule_entry_errors (i : nat) (s : PresetSchedule) : list TemplateError :=
  let r := at_row "schedule" i in
  (match validate_cron (cron s) with
   | Err why => error (r +:+ ".cron") "cron_syntax" ("'" +:+ cron s +:+ "': " +:+ why)
   | Ok _ => []
   end
   ++ session_errors (r +:+ ".session") ("schedule '" +:+ label s +:+ "'") (entry_session s)
   ++ refuse_if (String.eqb (trim (prompt s)) "")
     (error (r +:+ ".prompt") "schedule_prompt_empty" "a schedule entry needs the prompt its turn runs"))%list.

Definition schedule_errors (p : PresetSummary) : list TemplateError :=
  (over_cap "schedule" "too_many_schedules" "schedule entries" (length (schedule p)) MAX_SCHEDULES
   ++ each schedule_entry_errors (schedule p)
   ++ match tools (app p) with
      | Some l =>
          refuse_if (negb (is_nil (schedule p)) && negb (wants_schedule l))
            (error "schedule" "schedule_requires_tool"
              "the template declares schedule entries but its tools omit `tool:schedule` — timed turns run only under that capability")
      | None => []
      end)%list.

Definition budget_error (field : string) (v : option Z) (cap : Z) : list TemplateError :=
  match v with
  | Some v =>
      refuse_if ((v =? 0) || (cap <? v))
        (error ("budgets." +:+ field) "budget_over_cap" (dec v +:+ " is outside 1..=" +:+ dec cap))
  | None => []
  end.

Definition budget_errors (b : AppBudgets) : list TemplateError :=
  (budget_error "gate_tokens_per_day" (gate_tokens_per_day b) GATE_TOKENS_PER_DAY
   ++ budget_error "gate_turns_per_hour" (gate_turns_per_hour b) GATE_TURNS_PER_HOUR
   ++ budget_error "feed_events_per_day" (feed_events_per_day b) FEED_EVENTS_PER_DAY)%list.

Definition carries_media (m : AppManifest) : bool :=
  existsb (fun s => existsb is_media_kind (slot_event_kinds s)) (slots m).
Definition sensitive_floor (m : AppManifest) : bool :=
  existsb (fun r => bool_decide (sensitivity_floor r = Some Sensitive)) (resources m).

Definition disclosure_errors (m : AppManifest) : list TemplateError :=
  (over_cap "disclosure" "too_many_disclosures" "disclosure lines" (length (disclosure m)) MAX_DISCLOSURES
   ++ refuse_if ((carries_media m || sensitive_floor m) && is_nil (disclosure m))
     (error "disclosure" "disclosure_required"
       (if carries_media m
        then "a slot carries media (image / audio-clip / frame) — declare which model path the media transits in `disclosure[]`"
        else "a resource declares a Sensitive floor — declare which model path it transits in `disclosure[]`"))
   ++ each (fun i d =>
        refuse_if (String.eqb (trim (disclosed_data d)) "" || String.eqb (trim (disclosed_path d)) "")
          (error (at_row "disclosure" i) "disclosure_incomplete"
            "each disclosure line names the data AND the path it takes")) (disclosure m))%list.

Definition file_errors (field what : string) (pointers files : list string) : list TemplateError :=
  each (fun i f =>
    refuse_if (negb (bool_decide (f ∈ files)))
      (error (at_row ("context." +:+ field) i) "context_file_missing"
        (what +:+ " doc '" +:+ f +:+ "' is not in the bundle"))) pointers.

Definition context_errors (c : option AppContextPointers) (skill_files knowledge_files : list string)
    : list TemplateError :=
  match c with
  | Some c =>
      (refuse_if (String.eqb (trim (persona c)) "")
         (error "context.persona" "context_file_missing" "the persona pointer is empty")
       ++ file_errors "skills" "skills" (skills c) skill_files
       ++ file_errors "knowledge" "knowledge" (knowledge c) knowledge_files)%list
  | None => []
  end.

(** Every refused row, in the code's order. *)
Definition template_errors (p : PresetSummary) (skill_files knowledge_files : list string)
    : list TemplateError :=
  let m := app p in
  (header_errors p
   ++ over_cap "slots" "too_many_slots" "slots" (length (slots m)) MAX_SLOTS
   ++ each (slot_errors (slots m)) (slots m)
   ++ over_cap "resources" "too_many_resources" "resources" (length (resources m)) MAX_RESOURCES
   ++ each (resource_errors (resources m)) (resources m)
   ++ tool_errors (tools m)
   ++ route_errors (route_examples p)
   ++ schedule_errors p
   ++ budget_errors (budgets m)
   ++ disclosure_errors m
   ++ context_errors (context m) skill_files knowledge_files)%list.

Definition validate_template (p : PresetSummary) (skill_files knowledge_files : list string)
    : result (list TemplateError) unit :=
  let errs := template_errors p skill_files knowledge_files in
  if is_nil errs then Ok tt else Err errs.

(** ** Lemmas: what a validated template satisfies *)

Lemma is_nil_app {A} (a b : list A) : (a ++ b)%list = [] <-> a = [] /\ b = [].
Proof. apply app_nil. Qed.

Lemma refused_nothing (b : bool) (r c m : string) : refuse_if b (error r c m) = [] <-> b = false.
Proof. by destruct b. Qed.

Lemma each_nil {A} (f : nat -> A -> list TemplateError) l :
  each f l = [] <-> forall i x, l !! i = Some x -> f i x = [].
Proof.
  unfold each. revert f. induction l as [|x l IH]; intros f; cbn; [set_solver|].
  rewrite app_nil, IH. split.
  - intros [Hx Hl] [|i] y Hy; cbn in Hy; [by simplify_eq | by apply (Hl i)].
  - intros Hall. split; [by apply (Hall 0%nat)|]. intros i y Hy. by apply (Hall (S i)).
Qed.

Lemma fresh_names {A} (name : A -> string) l :
  (forall i x, l !! i = Some x -> repeated name l i x = false) -> NoDup (map name l).
Proof.
  intros Hl. apply NoDup_alt. intros i j n Hi Hj.
  assert (Hlt : forall i j, map name l !! i = Some n -> map name l !! j = Some n -> ~ (i < j)%nat).
  { clear i j Hi Hj. intros i j Hi Hj Hij.
    rewrite list_lookup_fmap in Hj. apply fmap_Some in Hj as (y & Hy & ->). specialize (Hl j y Hy).
    unfold repeated in Hl. apply bool_decide_eq_false in Hl. apply Hl.
    rewrite list_lookup_fmap in Hi. apply fmap_Some in Hi as (x & Hx & ->). apply list_elem_of_fmap.
    exists x. split; [done|]. apply list_elem_of_lookup. exists i. by rewrite lookup_take_lt. }
  destruct (Nat.lt_trichotomy i j) as [Hc|[Hc|Hc]]; [by destruct (Hlt i j Hi Hj Hc) | done | by destruct (Hlt j i Hj Hi Hc)].
Qed.

Section Validated.
Context (p : PresetSummary) (skill_files knowledge_files : list string).
Hypothesis Hv : validate_template p skill_files knowledge_files = Ok tt.

Lemma validated_errors : template_errors p skill_files knowledge_files = [].
Proof. unfold validate_template in Hv. by destruct (template_errors _ _ _). Qed.

Lemma validated_parts :
  each (slot_errors (slots (app p))) (slots (app p)) = [] /\
  each (resource_errors (resources (app p))) (resources (app p)) = [] /\
  tool_errors (tools (app p)) = [] /\ schedule_errors p = [] /\ disclosure_errors (app p) = [].
Proof.
  pose proof validated_errors as He. unfold template_errors in He. cbv zeta in He.
  rewrite !is_nil_app in He. tauto.
Qed.

Lemma validated_slot_names : NoDup (map slot_name (slots (app p))).
Proof.
  apply fresh_names. intros i s Hs. destruct validated_parts as (He & _). rewrite each_nil in He.
  specialize (He i s Hs). unfold slot_errors in He. cbv zeta in He. rewrite !is_nil_app in He.
  destruct He as (_ & He & _). by apply refused_nothing in He.
Qed.

Lemma validated_schedule l : tools (app p) = Some l -> schedule p <> [] -> wants_schedule l = true.
Proof.
  intros Hl Hs. destruct validated_parts as (_ & _ & _ & He & _). unfold schedule_errors in He.
  rewrite Hl, !is_nil_app, refused_nothing in He. destruct He as (_ & _ & He).
  destruct (schedule p); [done|]. cbn in He. by apply negb_false_iff in He.
Qed.

Lemma validated_media : carries_media (app p) = true -> disclosure (app p) <> [].
Proof.
  intros Hm Hd. destruct validated_parts as (_ & _ & _ & _ & He). unfold disclosure_errors in He.
  rewrite !is_nil_app, Hm, Hd in He. by destruct He as (_ & He & _).
Qed.
End Validated.

Lemma elem_of_push_news `{EqDecision A} (l out : list A) y : y ∈ fold_left push_new l out <-> y ∈ out \/ y ∈ l.
Proof.
  revert out. induction l as [|x l IH]; intros out; cbn [fold_left]; [set_solver|].
  rewrite IH. unfold push_new. case_bool_decide; set_solver.
Qed.

Lemma elem_of_tool_classes p c :
  c ∈ tool_classes p <-> match tools (app p) with
                         | None => c ∈ DEFAULT_TOOL_CLASSES
                         | Some l => exists t, t ∈ l /\ c = normalize_tool_class t
                         end.
Proof.
  unfold tool_classes. destruct (tools (app p)) as [l|]; [|done].
  rewrite elem_of_push_news, (list_elem_of_In (map _ l) c), in_map_iff. setoid_rewrite list_elem_of_In.
  set_solver.
Qed.
