(* ===== verification/AppCompile.v ===== *)
(** * The install compiler

    [compile_app] of [crates/agentkeys-protocol/src/app_template.rs]: from a template,
    a label and what the owner chose at the install to the services the delegate is
    granted, the feeds it is bound to and the services of the endpoints beside it;
    with the builders of service names of [lib.rs]. *)
From S2P Require Import Prelude RustStr StrFacts.
From S2P Require Import Catalog Cron SessionScope Schedule AppTemplate.

Open Scope string_scope.

(** ** Service names *)

Definition service_knowledge (ns : string) : string := "knowledge:" +:+ ns.
Definition service_proposal (ns : string) : string := "proposal:" +:+ ns.
Definition service_channel_pub (id : string) : string := "channel-pub:" +:+ id.
Definition service_channel_sub (id : string) : string := "channel-sub:" +:+ id.
Definition service_plugin (id : string) : string := "plugin:" +:+ id.

Definition app_memory_ns (label : string) : string := "app-" +:+ label.
Definition opchat_channel_id (label : string) : string := "opchat-" +:+ label.

(** ** What the owner chose *)

Record SlotBinding := {
  bound_slot : string;
  binding_channel : string;
  binding_endpoint : option string;
  binding_description : option string;
}.

Record ResourceBinding := {
  bound_name : string;
  item_id : string;
  ns : string;
  bound_kind : ResourceKind;
  sensitivity : Sensitivity;
}.

Record SlotAudience := { audience_slot : string; tiers : list ContactTier }.

Record AppInstallBindings := {
  slot_bindings : list SlotBinding;
  resource_bindings : list ResourceBinding;
  audience_choices : list SlotAudience;
  tz_offset_minutes : Z;
}.

(** ** What is compiled *)

Record BoundChannel := {
  bc_slot : string;
  bc_kind : ChannelEndpointKind;
  bc_direction : SlotDirection;
  bc_channel_id : string;
  bc_event_kinds : list ChannelEventKind;
  bc_endpoint : option string;
  bc_default_app : option bool;
}.

Record ServiceAnnotation := {
  an_service : string;
  role : string;
  an_slot : option string;
  an_resource : option string;
  an_sensitivity : option Sensitivity;
}.

Record EndpointGrantDelta := { actor : string; add : list string }.

Record CompiledApp := {
  services : list string;
  annotations : list ServiceAnnotation;
  bound_channels : list BoundChannel;
  audience : list SlotAudience;
  endpoint_grants : list EndpointGrantDelta;
  memory_ns : string;
  chat_channel_id : string;
  app_availability : Availability;
  app_schedule : list PresetSchedule;
  app_disclosure : list AppDisclosure;
  resource_namespaces : list string;
}.

(** The variables of the function: what is granted and noted so far. *)
Record Draft := {
  d_services : list string;
  d_annotations : list ServiceAnnotation;
  d_bound : list BoundChannel;
  d_endpoints : list EndpointGrantDelta;
  d_errs : list TemplateError;
  d_namespaces : list string;
  d_sensitive : bool;
}.

Definition empty_draft (errs : list TemplateError) : Draft :=
  {| d_services := []; d_annotations := []; d_bound := []; d_endpoints := []; d_errs := errs;
     d_namespaces := []; d_sensitive := false |}.

Definition note (service role : string) (slot resource : option string) (sens : option Sensitivity)
    (d : Draft) : Draft :=
  if bool_decide (service ∈ d_services d) then d
  else {| d_services := (d_services d ++ [service])%list;
          d_annotations := (d_annotations d ++ [{| an_service := service; role := role; an_slot := slot;
            an_resource := resource; an_sensitivity := sens |}])%list;
          d_bound := d_bound d; d_endpoints := d_endpoints d; d_errs := d_errs d;
          d_namespaces := d_namespaces d; d_sensitive := d_sensitive d |}.

Definition fail_row (e : list TemplateError) (d : Draft) : Draft :=
  {| d_services := d_services d; d_annotations := d_annotations d; d_bound := d_bound d;
     d_endpoints := d_endpoints d; d_errs := (d_errs d ++ e)%list; d_namespaces := d_namespaces d;
     d_sensitive := d_sensitive d |}.

(** The endpoint's services, added to its grants, after those of the others. *)
Fixpoint grant_endpoint (who : string) (more : list string) (gs : list EndpointGrantDelta)
    : list EndpointGrantDelta :=
  match gs with
  | [] => [{| actor := who; add := more |}]
  | g :: gs =>
      if String.eqb (actor g) who
      then {| actor := actor g; add := fold_left push_new more (add g) |} :: gs
      else g :: grant_endpoint who more gs
  end.

Definition endpoint_services (chat : string) (s : AppSlot) (feed : string) : list string :=
  ([service_channel_pub feed; service_channel_sub feed]
   ++ if is_messaging s then [service_channel_pub chat; service_channel_sub chat] else [])%list.

(** A channel of the slot: the app's grants, the endpoint's, and the feed. *)
Definition bind_slot (chat : string) (s : AppSlot) (d : Draft) (b : SlotBinding) : Draft :=
  let row := "bindings.slots[" +:+ slot_name s +:+ "]" in
  if String.eqb (trim (binding_channel b)) ""
  then fail_row (error row "binding_channel_empty"
                   ("slot '" +:+ slot_name s +:+ "' binding has an empty channel id")) d
  else
    let feed := binding_channel b in
    let of_slot service := note service "slot" (Some (slot_name s)) None None in
    let d := if reads (slot_direction s) then of_slot (service_channel_sub feed) d else d in
    let d := if writes (slot_direction s) then of_slot (service_channel_pub feed) d else d in
    let d := if is_messaging s && negb (writes (slot_direction s))
             then of_slot (service_channel_pub feed) d else d in
    {| d_services := d_services d; d_annotations := d_annotations d;
       d_bound := (d_bound d ++ [{| bc_slot := slot_name s; bc_kind := slot_kind s;
         bc_direction := slot_direction s; bc_channel_id := feed; bc_event_kinds := slot_event_kinds s;
         bc_endpoint := binding_endpoint b; bc_default_app := None |}])%list;
       d_endpoints := match binding_endpoint b with
                      | Some who => if String.eqb who "" then d_endpoints d
                                    else grant_endpoint who (endpoint_services chat s feed) (d_endpoints d)
                      | None => d_endpoints d
                      end;
       d_errs := d_errs d; d_namespaces := d_namespaces d; d_sensitive := d_sensitive d |}.

Definition bindings_of (bs : list SlotBinding) (s : AppSlot) : list SlotBinding :=
  List.filter (fun b => String.eqb (bound_slot b) (slot_name s)) bs.

Definition most_bindings (s : AppSlot) : Z := default 1%Z (max_bindings s).

Definition compile_slot (chat : string) (bs : list SlotBinding) (d : Draft) (s : AppSlot) : Draft :=
  let row := "bindings.slots[" +:+ slot_name s +:+ "]" in
  let bound := bindings_of bs s in
  if is_nil bound && slot_required s
  then fail_row (error row "required_slot_unbound"
         ("required slot '" +:+ slot_name s +:+ "' (" +:+ ChannelEndpointKind_as_str (slot_kind s)
          +:+ ") has no channel bound")) d
  else if (most_bindings s <? Z.of_nat (length bound))%Z
  then fail_row (error row "slot_over_bound"
         ("slot '" +:+ slot_name s +:+ "' binds " +:+ dec_nat (length bound)
          +:+ " channels but allows at most " +:+ dec (most_bindings s))) d
  else fold_left (bind_slot chat s) bound d.

Definition unknown_slots (m : AppManifest) (bs : list SlotBinding) : list TemplateError :=
  concat (map (fun b => refuse_if (negb (existsb (fun s => String.eqb (slot_name s) (bound_slot b)) (slots m)))
    (error ("bindings.slots[" +:+ bound_slot b +:+ "]") "binding_unknown_slot"
      ("'" +:+ bound_slot b +:+ "' is not a slot of this template"))) bs).

Definition bind_resource (own : string) (r : AppResourceRequest) (d : Draft) (b : ResourceBinding) : Draft :=
  let row := "bindings.resources[" +:+ resource_name r +:+ "]" in
  if negb (bool_decide (bound_kind b = resource_kind r))
  then fail_row (error row "resource_kind_mismatch"
         ("resource '" +:+ resource_name r +:+ "' wants a " +:+ ResourceKind_as_str (resource_kind r)
          +:+ " item but '" +:+ item_id b +:+ "' is a " +:+ ResourceKind_as_str (bound_kind b))) d
  else if String.eqb (trim (ns b)) ""
  then fail_row (error row "binding_namespace_empty"
         ("resource '" +:+ resource_name r +:+ "' binding has an empty namespace")) d
  else if String.eqb (ns b) own
  then fail_row (error row "resource_in_own_namespace"
         ("resource '" +:+ resource_name r +:+ "' lives in the app's own namespace '" +:+ own
          +:+ "' — a resource is read-only by grant shape, so it can never share the namespace the app writes")) d
  else
    let d := note (service_knowledge (ns b)) "resource" None (Some (resource_name r)) (Some (sensitivity b)) d in
    {| d_services := d_services d; d_annotations := d_annotations d; d_bound := d_bound d;
       d_endpoints := d_endpoints d; d_errs := d_errs d;
       d_namespaces := push_new (d_namespaces d) (ns b);
       d_sensitive := d_sensitive d || bool_decide (sensitivity b = Sensitive) |}.

Definition items_of (bs : list ResourceBinding) (r : AppResourceRequest) : list ResourceBinding :=
  List.filter (fun b => String.eqb (bound_name b) (resource_name r)) bs.

Definition compile_resource (own : string) (bs : list ResourceBinding) (d : Draft) (r : AppResourceRequest)
    : Draft :=
  let bound := items_of bs r in
  if is_nil bound
  then fail_row (refuse_if (resource_required r)
         (error ("bindings.resources[" +:+ resource_name r +:+ "]") "required_resource_unbound"
           ("required resource '" +:+ resource_name r +:+ "' (" +:+ ResourceKind_as_str (resource_kind r)
            +:+ ") has no item bound"))) d
  else fold_left (bind_resource own r) bound d.

Definition unknown_resources (m : AppManifest) (bs : list ResourceBinding) : list TemplateError :=
  concat (map (fun b => refuse_if (negb (existsb (fun r => String.eqb (resource_name r) (bound_name b)) (resources m)))
    (error ("bindings.resources[" +:+ bound_name b +:+ "]") "binding_unknown_resource"
      ("'" +:+ bound_name b +:+ "' is not a resource of this template"))) bs).

Definition undisclosed (m : AppManifest) (d : Draft) : list TemplateError :=
  refuse_if (d_sensitive d && is_nil (disclosure m))
    (error "disclosure" "disclosure_required"
      "a Sensitive item is bound — the template must disclose which model path it transits").

(** The audience of each messaging slot that is bound: the owner's choice, or the
    template's. *)
Definition resolve_audience (m : AppManifest) (bound : list BoundChannel) (choices : list SlotAudience)
    : list SlotAudience :=
  map (fun s => {| audience_slot := slot_name s;
                   tiers := match List.find (fun a => String.eqb (audience_slot a) (slot_name s)) choices with
                            | Some a => tiers a | None => slot_audience s end |})
    (List.filter (fun s => is_messaging s && existsb (fun b => String.eqb (bc_slot b) (slot_name s)) bound)
       (slots m)).

Definition unknown_audience (m : AppManifest) (choices : list SlotAudience) : list TemplateError :=
  concat (map (fun a => refuse_if
    (negb (existsb (fun s => String.eqb (slot_name s) (audience_slot a) && is_messaging s) (slots m)))
    (error ("bindings.audience[" +:+ audience_slot a +:+ "]") "audience_unknown_slot"
      ("'" +:+ audience_slot a +:+ "' is not a messaging slot of this template"))) choices).

Definition label_errors (label : string) : list TemplateError :=
  refuse_if (negb (is_valid_label label))
    (error "label" "label_charset" ("label '" +:+ label +:+ "' must match ^[a-z0-9-]{1,32}$")).

Definition own_namespace (p : PresetSummary) (label : string) (memory_ns : option string) : string :=
  match memory_ns with
  | Some ns => ns
  | None => if is_application p then app_memory_ns label else label
  end.

(** The state when everything has been granted. *)
Definition draft (p : PresetSummary) (label own : string) (b : AppInstallBindings) : Draft :=
  let m := app p in
  let chat := opchat_channel_id label in
  let plain role service := note service role None None None in
  let d := empty_draft (label_errors label) in
  let d := plain "opchat" (service_channel_pub chat) d in
  let d := plain "opchat" (service_channel_sub chat) d in
  let d := plain "own-knowledge" (service_knowledge own) d in
  let d := fold_left (compile_slot chat (slot_bindings b)) (slots m) d in
  let d := fail_row (unknown_slots m (slot_bindings b)) d in
  let d := fold_left (compile_resource own (resource_bindings b)) (resources m) d in
  let d := fail_row (unknown_resources m (resource_bindings b)) d in
  let d := fail_row (undisclosed m d) d in
  let d := if is_application p then plain "own-proposals" (service_proposal own) d else d in
  let d := fold_left (fun d class => plain "tool" (service_tool class) d) (tool_classes p) d in
  if is_application p
  then fold_left (fun d p => plain "plugin" (service_plugin p) d) BUILT_WITH_PLUGINS d else d.

Definition compile_app (p : PresetSummary) (label : string) (memory_ns : option string)
    (b : AppInstallBindings) : result (list TemplateError) CompiledApp :=
  let m := app p in
  let own := own_namespace p label memory_ns in
  let d := draft p label own b in
  let errs := (d_errs d ++ unknown_audience m (audience_choices b))%list in
  if is_nil errs then
    Ok {| services := d_services d; annotations := d_annotations d; bound_channels := d_bound d;
          audience := resolve_audience m (d_bound d) (audience_choices b);
          endpoint_grants := d_endpoints d; memory_ns := own;
          chat_channel_id := opchat_channel_id label; app_availability := availability m;
          app_schedule := schedule p; app_disclosure := disclosure m;
          resource_namespaces := d_namespaces d |}
  else Err errs.

(** ** Effects

    Each part of the compiler adds to the draft, whatever is in it already.  An
    [Effect] says when a part refuses nothing and what it then adds; [does] relates it
    to the code, and effects add up along the code's sequence and loops. *)

Record Effect := {
  fine : Prop;
  gives : string -> Prop;
  binds : list BoundChannel;
  mirrors : string -> string -> Prop;
  spaces : string -> Prop;
  exposes : bool;
}.

Definition nothing : Effect :=
  {| fine := True; gives _ := False; binds := []; mirrors _ _ := False; spaces _ := False;
     exposes := false |}.

Definition both (a b : Effect) : Effect :=
  {| fine := fine a /\ fine b; gives s := gives a s \/ gives b s; binds := (binds a ++ binds b)%list;
     mirrors w s := mirrors a w s \/ mirrors b w s; spaces n := spaces a n \/ spaces b n;
     exposes := exposes a || exposes b |}.

Definition all_of {A} (e : A -> Effect) (l : list A) : Effect := foldr (fun x r => both (e x) r) nothing l.

(** [who] is granted [s]. *)
Definition holds_grant (gs : list EndpointGrantDelta) (who s : string) : Prop :=
  exists g, g ∈ gs /\ actor g = who /\ s ∈ add g.

(** What every draft keeps: no service twice, one note each, one entry per endpoint. *)
Definition tidy (d : Draft) : Prop :=
  NoDup (d_services d) /\ map an_service (d_annotations d) = d_services d /\
  NoDup (map actor (d_endpoints d)).

Record does (f : Draft -> Draft) (e : Effect) : Prop := {
  does_errs : forall d, d_errs (f d) = [] <-> d_errs d = [] /\ fine e;
  does_tidy : forall d, tidy d -> tidy (f d);
  does_services : fine e -> forall d s, s ∈ d_services (f d) <-> s ∈ d_services d \/ gives e s;
  does_bound : fine e -> forall d, d_bound (f d) = (d_bound d ++ binds e)%list;
  does_endpoints : fine e -> forall d w s,
    holds_grant (d_endpoints (f d)) w s <-> holds_grant (d_endpoints d) w s \/ mirrors e w s;
  does_spaces : fine e -> forall d n, n ∈ d_namespaces (f d) <-> n ∈ d_namespaces d \/ spaces e n;
  does_exposes : fine e -> forall d, d_sensitive (f d) = d_sensitive d || exposes e;
}.

(** ** Lemmas on effects *)

Lemma does_nothing : does (fun d => d) nothing.
Proof. split; cbn; intros; rewrite ?app_nil_r, ?orb_false_r; tauto || done. Qed.

(** One part, then another; and a part under a condition. *)
Definition followed (f g : Draft -> Draft) (d : Draft) : Draft := g (f d).
Definition when_true (b : bool) (f : Draft -> Draft) (d : Draft) : Draft := if b then f d else d.

Lemma does_both f g a b : does f a -> does g b -> does (followed f g) (both a b).
Proof.
  unfold followed. intros Hf Hg. split; cbn.
  - intros d. rewrite (does_errs _ _ Hg), (does_errs _ _ Hf). tauto.
  - intros d Hd. by apply (does_tidy _ _ Hg), (does_tidy _ _ Hf).
  - intros [? ?] d s. rewrite (does_services _ _ Hg), (does_services _ _ Hf) by done. tauto.
  - intros [? ?] d. rewrite (does_bound _ _ Hg), (does_bound _ _ Hf) by done. by rewrite app_assoc.
  - intros [? ?] d w s. rewrite (does_endpoints _ _ Hg), (does_endpoints _ _ Hf) by done. tauto.
  - intros [? ?] d n. rewrite (does_spaces _ _ Hg), (does_spaces _ _ Hf) by done. tauto.
  - intros [? ?] d. rewrite (does_exposes _ _ Hg), (does_exposes _ _ Hf) by done. by rewrite orb_assoc.
Qed.

Lemma does_fold {A} (f : Draft -> A -> Draft) (e : A -> Effect) l :
  (forall x, does (fun d => f d x) (e x)) -> does (fun d => fold_left f l d) (all_of e l).
Proof.
  intros Hf. induction l as [|x l IH]; [apply does_nothing|].
  exact (does_both _ _ _ _ (Hf x) IH).
Qed.

(** An effect may be described differently. *)
Lemma does_iff f a b : does f a ->
  (fine a <-> fine b) -> (fine b -> (forall s, gives a s <-> gives b s) /\ binds a = binds b /\
    (forall w s, mirrors a w s <-> mirrors b w s) /\ (forall n, spaces a n <-> spaces b n) /\
    exposes a = exposes b) -> does f b.
Proof.
  intros Hf Hfine Hrest. split.
  - intros d. by rewrite (does_errs _ _ Hf), Hfine.
  - apply (does_tidy _ _ Hf).
  - intros Hb d s. destruct (Hrest Hb) as (Hg & _). rewrite (does_services _ _ Hf) by tauto. by rewrite Hg.
  - intros Hb d. destruct (Hrest Hb) as (_ & Hg & _). rewrite (does_bound _ _ Hf) by tauto. by rewrite Hg.
  - intros Hb d w s. destruct (Hrest Hb) as (_ & _ & Hg & _).
    rewrite (does_endpoints _ _ Hf) by tauto. by rewrite Hg.
  - intros Hb d n. destruct (Hrest Hb) as (_ & _ & _ & Hg & _). rewrite (does_spaces _ _ Hf) by tauto. by rewrite Hg.
  - intros Hb d. destruct (Hrest Hb) as (_ & _ & _ & _ & Hg). rewrite (does_exposes _ _ Hf) by tauto. by rewrite Hg.
Qed.

(** The sum over a list, member by member. *)
Lemma all_of_fine {A} (e : A -> Effect) l : fine (all_of e l) <-> forall x, x ∈ l -> fine (e x).
Proof.
  induction l as [|x l IH]; cbn; [set_solver|]. rewrite IH. split; [|set_solver].
  intros [Hx Hl] y [->|Hy]%elem_of_cons; auto.
Qed.

Lemma all_of_gives {A} (e : A -> Effect) l s : gives (all_of e l) s <-> exists x, x ∈ l /\ gives (e x) s.
Proof. induction l as [|x l IH]; cbn; [set_solver|]. rewrite IH. set_solver. Qed.

Lemma all_of_mirrors {A} (e : A -> Effect) l w s :
  mirrors (all_of e l) w s <-> exists x, x ∈ l /\ mirrors (e x) w s.
Proof. induction l as [|x l IH]; cbn; [set_solver|]. rewrite IH. set_solver. Qed.

Lemma all_of_exposes {A} (e : A -> Effect) l :
  exposes (all_of e l) = true <-> exists x, x ∈ l /\ exposes (e x) = true.
Proof. induction l as [|x l IH]; cbn; [set_solver|]. rewrite orb_true_iff, IH. set_solver. Qed.

Lemma all_of_binds {A} (e : A -> Effect) l : binds (all_of e l) = concat (map (fun x => binds (e x)) l).
Proof. induction l as [|x l IH]; cbn; [done|]. f_equal. apply IH. Qed.

(** ** Lemmas: the parts of the compiler *)

Lemma elem_of_push_new `{EqDecision A} (out : list A) x y : y ∈ push_new out x <-> y ∈ out \/ y = x.
Proof. unfold push_new. case_bool_decide; set_solver. Qed.

Lemma does_note service role slot resource sens :
  does (note service role slot resource sens)
    {| fine := True; gives s := s = service; binds := []; mirrors _ _ := False; spaces _ := False;
       exposes := false |}.
Proof.
  split; cbn; intros; unfold note; try (case_bool_decide; cbn; rewrite ?app_nil_r, ?orb_false_r; tauto || done).
  - destruct H as (Hn & Ha & He). case_bool_decide as Hin; [done|]. split_and!; cbn; [| |done].
    + apply NoDup_app. set_solver by auto using NoDup_singleton.
    + by rewrite map_app, Ha.
  - case_bool_decide; cbn; set_solver.
Qed.

Lemma does_fail e : does (fail_row e)
  {| fine := e = []; gives _ := False; binds := []; mirrors _ _ := False; spaces _ := False; exposes := false |}.
Proof.
  split; cbn; intros; rewrite ?app_nil_r, ?orb_false_r; try tauto || done.
  destruct (d_errs d), e; naive_solver.
Qed.

Lemma does_ext f g e : (forall d, f d = g d) -> does g e -> does f e.
Proof. intros Hfg []. split; intros; rewrite ?Hfg; auto. Qed.

(** An effect that only happens under a condition. *)
Definition given (b : bool) (e : Effect) : Effect := if b then e else nothing.

Lemma does_if (b : bool) f e : does f e -> does (when_true b f) (given b e).
Proof. intros Hf. unfold when_true. destruct b; [done | apply does_nothing]. Qed.

(** A part that is refused has no effect to speak of. *)
Lemma does_refused f e e' : does f e' -> ~ fine e' -> ~ fine e -> does f e.
Proof. intros Hf H' H. eapply does_iff; [exact Hf | tauto | tauto]. Qed.

Lemma grant_endpoint_spec who more gs w s :
  holds_grant (grant_endpoint who more gs) w s <-> holds_grant gs w s \/ w = who /\ s ∈ more.
Proof.
  unfold holds_grant. induction gs as [|g gs IH]; cbn [grant_endpoint].
  - setoid_rewrite list_elem_of_singleton. split.
    + intros (g & -> & <- & Hs). by right.
    + intros [(g & Hg & _)|[-> Hs]]; [by apply elem_of_nil in Hg | by eexists].
  - destruct (String.eqb_spec (actor g) who) as [<-|Hne]; setoid_rewrite elem_of_cons.
    + split.
      * intros (g' & [->|Hg] & <- & Hs); cbn in *; [|left; by eauto].
        apply elem_of_push_news in Hs as [Hs|Hs]; [left; by eauto | by right].
      * intros [(g' & [->|Hg] & <- & Hs)|[-> Hs]]; [eexists; split; [by left|] | by eauto |
          eexists; split; [by left|]]; (split; [done|]); cbn; apply elem_of_push_news; auto.
    + split.
      * intros (g' & [->|Hg] & <- & Hs); [left; by eauto|].
        destruct (proj1 IH) as [(g'' & ? & ? & ?)|?]; [by eexists | left; by eauto | by right].
      * intros [(g' & [->|Hg] & <- & Hs)|Hs]; [by eauto | |]; edestruct (proj2 IH) as (g'' & ? & ? & ?);
          [left; by eauto | by eauto | by right | by eauto].
Qed.

Lemma grant_endpoint_actors who more gs w :
  w ∈ map actor (grant_endpoint who more gs) <-> w ∈ map actor gs \/ w = who.
Proof.
  induction gs as [|g gs IH]; cbn [grant_endpoint map]; [set_solver|].
  destruct (String.eqb_spec (actor g) who) as [<-|]; cbn [map actor]; set_solver.
Qed.

Lemma grant_endpoint_nodup who more gs :
  NoDup (map actor gs) -> NoDup (map actor (grant_endpoint who more gs)).
Proof.
  induction gs as [|g gs IH]; cbn [grant_endpoint map]; [intros _; apply NoDup_singleton|].
  intros [Hn Hgs]%NoDup_cons. destruct (String.eqb_spec (actor g) who); cbn [map actor].
  - by apply NoDup_cons.
  - apply NoDup_cons. split; [|by apply IH]. rewrite grant_endpoint_actors. intros [?|?]; congruence.
Qed.

Definition blank (s : string) : bool := String.eqb (trim s) "".

(** The feed that a binding of a slot becomes. *)
Definition feed_of (s : AppSlot) (b : SlotBinding) : BoundChannel :=
  {| bc_slot := slot_name s; bc_kind := slot_kind s; bc_direction := slot_direction s;
     bc_channel_id := binding_channel b; bc_event_kinds := slot_event_kinds s;
     bc_endpoint := binding_endpoint b; bc_default_app := None |}.

(** What a binding of a slot grants the app: the feed's events where the slot reads,
    and the feed itself where it writes or talks to people. *)
Definition slot_grants (s : AppSlot) (b : SlotBinding) (x : string) : Prop :=
  reads (slot_direction s) = true /\ x = service_channel_sub (binding_channel b) \/
  (writes (slot_direction s) = true \/ is_messaging s = true) /\ x = service_channel_pub (binding_channel b).

Definition endpoint_gets (chat : string) (s : AppSlot) (b : SlotBinding) (who x : string) : Prop :=
  binding_endpoint b = Some who /\ who <> "" /\ x ∈ endpoint_services chat s (binding_channel b).

Definition binding_effect (chat : string) (s : AppSlot) (b : SlotBinding) : Effect :=
  {| fine := blank (binding_channel b) = false; gives := slot_grants s b; binds := [feed_of s b];
     mirrors := endpoint_gets chat s b; spaces _ := False; exposes := false |}.

(** The feed and its endpoint. *)
Definition add_feed (chat : string) (s : AppSlot) (b : SlotBinding) (d : Draft) : Draft :=
  {| d_services := d_services d; d_annotations := d_annotations d;
     d_bound := (d_bound d ++ [feed_of s b])%list;
     d_endpoints := match binding_endpoint b with
                    | Some who => if String.eqb who "" then d_endpoints d
                                  else grant_endpoint who (endpoint_services chat s (binding_channel b)) (d_endpoints d)
                    | None => d_endpoints d
                    end;
     d_errs := d_errs d; d_namespaces := d_namespaces d; d_sensitive := d_sensitive d |}.

Lemma does_add_feed chat s b : does (add_feed chat s b)
  {| fine := True; gives _ := False; binds := [feed_of s b]; mirrors := endpoint_gets chat s b;
     spaces _ := False; exposes := false |}.
Proof.
  split; cbn; intros; rewrite ?orb_false_r; try tauto || done.
  - destruct H as (Hn & Ha & He). split_and!; [done..|]. cbn.
    destruct (binding_endpoint b) as [who|]; [|done]. destruct (String.eqb who ""); [done|].
    by apply grant_endpoint_nodup.
  - unfold endpoint_gets. destruct (binding_endpoint b) as [who|]; [|naive_solver].
    destruct (String.eqb_spec who ""); [naive_solver|]. rewrite grant_endpoint_spec. naive_solver.
Qed.

Lemma does_bind_slot chat s b : does (fun d => bind_slot chat s d b) (binding_effect chat s b).
Proof.
  destruct (blank (binding_channel b)) eqn:Hb; unfold blank in Hb.
  - eapply does_refused; [eapply does_ext; [|apply does_fail] | | ].
    { intros d. unfold bind_slot. rewrite Hb. reflexivity. }
    + done.
    + cbn [fine binding_effect]. unfold blank. by rewrite Hb.
  - set (of_slot := fun x => note x "slot" (Some (slot_name s)) None None).
    eapply does_iff.
    + eapply (does_ext _ (followed (followed (followed
        (when_true (reads (slot_direction s)) (of_slot (service_channel_sub (binding_channel b))))
        (when_true (writes (slot_direction s)) (of_slot (service_channel_pub (binding_channel b)))))
        (when_true (is_messaging s && negb (writes (slot_direction s)))
           (of_slot (service_channel_pub (binding_channel b)))))
        (add_feed chat s b))).
      { intros d. unfold bind_slot. rewrite Hb. reflexivity. }
      repeat apply does_both; first [apply does_add_feed | apply does_if, does_note].
    + cbn. unfold blank. rewrite Hb. destruct (reads _), (writes _), (is_messaging s); cbn; tauto.
    + intros _. cbn. unfold slot_grants.
      destruct (reads _), (writes _), (is_messaging s); cbn; split_and!; intros; try tauto; done || naive_solver.
Qed.

(** An effect under a requirement. *)
Definition provided (P : Prop) (e : Effect) : Effect :=
  {| fine := P /\ fine e; gives := gives e; binds := binds e; mirrors := mirrors e; spaces := spaces e;
     exposes := exposes e |}.

Lemma does_provided f e (P : Prop) : P -> does f e -> does f (provided P e).
Proof. intros HP Hf. eapply does_iff; [exact Hf|..]; cbn; [tauto | by intros]. Qed.

Definition slot_allowed (bs : list SlotBinding) (s : AppSlot) : Prop :=
  (slot_required s = true -> bindings_of bs s <> []) /\
  (Z.of_nat (length (bindings_of bs s)) <= most_bindings s)%Z.

Definition slot_effect (chat : string) (bs : list SlotBinding) (s : AppSlot) : Effect :=
  provided (slot_allowed bs s) (all_of (binding_effect chat s) (bindings_of bs s)).

Lemma is_nil_true {A} (l : list A) : is_nil l = true <-> l = [].
Proof. by destruct l. Qed.

Lemma does_compile_slot chat bs s : does (fun d => compile_slot chat bs d s) (slot_effect chat bs s).
Proof.
  unfold compile_slot, slot_effect, slot_allowed. destruct (is_nil _ && _) eqn:Hreq.
  - apply andb_true_iff in Hreq as [Hnil%is_nil_true Hr].
    eapply does_refused; [apply does_fail | done | cbn]. rewrite Hnil. tauto.
  - destruct (_ <? _)%Z eqn:Hmax; reflect_bools.
    + eapply does_refused; [apply does_fail | done | cbn]. lia.
    + apply does_provided; [|apply does_fold, does_bind_slot]. split; [|lia].
      intros Hr. rewrite Hr, andb_true_r in Hreq. intros Hn. by rewrite Hn in Hreq.
Qed.

(** ** Resources *)

Definition item_allowed (own : string) (r : AppResourceRequest) (b : ResourceBinding) : Prop :=
  bound_kind b = resource_kind r /\ blank (ns b) = false /\ ns b <> own.

Definition item_effect (own : string) (r : AppResourceRequest) (b : ResourceBinding) : Effect :=
  {| fine := item_allowed own r b; gives x := x = service_knowledge (ns b); binds := [];
     mirrors _ _ := False; spaces n := n = ns b; exposes := bool_decide (sensitivity b = Sensitive) |}.

Definition add_item (b : ResourceBinding) (d : Draft) : Draft :=
  {| d_services := d_services d; d_annotations := d_annotations d; d_bound := d_bound d;
     d_endpoints := d_endpoints d; d_errs := d_errs d; d_namespaces := push_new (d_namespaces d) (ns b);
     d_sensitive := d_sensitive d || bool_decide (sensitivity b = Sensitive) |}.

Lemma does_add_item b : does (add_item b)
  {| fine := True; gives _ := False; binds := []; mirrors _ _ := False; spaces n := n = ns b;
     exposes := bool_decide (sensitivity b = Sensitive) |}.
Proof.
  split; cbn; intros; rewrite ?app_nil_r; try tauto || done. apply elem_of_push_new.
Qed.

Lemma does_bind_resource own r b : does (fun d => bind_resource own r d b) (item_effect own r b).
Proof.
  destruct (bool_decide (bound_kind b = resource_kind r)) eqn:Hk.
  2:{ eapply does_refused; [eapply does_ext; [|apply does_fail] | | ].
      { intros d. unfold bind_resource. rewrite Hk. reflexivity. }
      { done. } apply bool_decide_eq_false in Hk. cbn. unfold item_allowed. tauto. }
  destruct (blank (ns b)) eqn:Hb; unfold blank in Hb.
  { eapply does_refused; [eapply does_ext; [|apply does_fail] | | ].
    { intros d. unfold bind_resource. rewrite Hk, Hb. reflexivity. }
    { done. } cbn. unfold item_allowed, blank. rewrite Hb. naive_solver. }
  destruct (String.eqb (ns b) own) eqn:Ho.
  { eapply does_refused; [eapply does_ext; [|apply does_fail] | | ].
    { intros d. unfold bind_resource. rewrite Hk, Hb, Ho. reflexivity. }
    { done. } apply String.eqb_eq in Ho. cbn. unfold item_allowed. tauto. }
  eapply does_iff; [eapply does_ext; [|apply does_both; [apply does_note | apply does_add_item]] | ..].
  { intros d. unfold bind_resource. rewrite Hk, Hb, Ho. reflexivity. }
  - cbn. unfold item_allowed, blank. rewrite Hb. apply bool_decide_eq_true in Hk.
    apply String.eqb_neq in Ho. tauto.
  - intros _. cbn. split_and!; intros; tauto || done.
Qed.

Definition request_effect (own : string) (bs : list ResourceBinding) (r : AppResourceRequest) : Effect :=
  provided (resource_required r = true -> items_of bs r <> []) (all_of (item_effect own r) (items_of bs r)).

Lemma does_compile_resource own bs r : does (fun d => compile_resource own bs d r) (request_effect own bs r).
Proof.
  unfold compile_resource, request_effect. destruct (is_nil (items_of bs r)) eqn:Hnil.
  - apply is_nil_true in Hnil. rewrite Hnil. eapply does_iff; [apply does_fail|..]; cbn.
    + unfold refuse_if. destruct (resource_required r); naive_solver.
    + done.
  - apply does_provided; [|apply does_fold, does_bind_resource]. intros _ Hn. by rewrite Hn in Hnil.
Qed.

(** ** The whole compiler *)

Definition grant_effect (service : string) : Effect :=
  {| fine := True; gives s := s = service; binds := []; mirrors _ _ := False; spaces _ := False; exposes := false |}.

Definition refusal_effect (e : list TemplateError) : Effect :=
  {| fine := e = []; gives _ := False; binds := []; mirrors _ _ := False; spaces _ := False; exposes := false |}.

Definition plain (role service : string) : Draft -> Draft := note service role None None None.

(** Up to the resources, and after them. *)
Definition first_part (p : PresetSummary) (label own : string) (b : AppInstallBindings) : Draft -> Draft :=
  let m := app p in
  let chat := opchat_channel_id label in
  followed (plain "opchat" (service_channel_pub chat))
  (followed (plain "opchat" (service_channel_sub chat))
  (followed (plain "own-knowledge" (service_knowledge own))
  (followed (fun d => fold_left (compile_slot chat (slot_bindings b)) (slots m) d)
  (followed (fail_row (unknown_slots m (slot_bindings b)))
  (followed (fun d => fold_left (compile_resource own (resource_bindings b)) (resources m) d)
    (fail_row (unknown_resources m (resource_bindings b)))))))).

Definition first_effect (p : PresetSummary) (label own : string) (b : AppInstallBindings) : Effect :=
  let m := app p in
  let chat := opchat_channel_id label in
  both (grant_effect (service_channel_pub chat))
  (both (grant_effect (service_channel_sub chat))
  (both (grant_effect (service_knowledge own))
  (both (all_of (slot_effect chat (slot_bindings b)) (slots m))
  (both (refusal_effect (unknown_slots m (slot_bindings b)))
  (both (all_of (request_effect own (resource_bindings b)) (resources m))
    (refusal_effect (unknown_resources m (resource_bindings b)))))))).

Lemma does_first_part p label own b : does (first_part p label own b) (first_effect p label own b).
Proof.
  unfold first_part, first_effect, plain, grant_effect, refusal_effect.
  repeat apply does_both; first [apply does_note | apply does_fail | apply does_fold].
  - intros s. apply does_compile_slot.
  - intros r. apply does_compile_resource.
Qed.

Definition last_part (p : PresetSummary) (own : string) : Draft -> Draft :=
  followed (when_true (is_application p) (plain "own-proposals" (service_proposal own)))
  (followed (fun d => fold_left (fun d class => plain "tool" (service_tool class) d) (tool_classes p) d)
    (when_true (is_application p)
      (fun d => fold_left (fun d id => plain "plugin" (service_plugin id) d) BUILT_WITH_PLUGINS d))).

Definition last_effect (p : PresetSummary) (own : string) : Effect :=
  both (given (is_application p) (grant_effect (service_proposal own)))
  (both (all_of (fun class => grant_effect (service_tool class)) (tool_classes p))
    (given (is_application p) (all_of (fun id => grant_effect (service_plugin id)) BUILT_WITH_PLUGINS))).

Lemma does_last_part p own : does (last_part p own) (last_effect p own).
Proof.
  unfold last_part, last_effect, plain, grant_effect.
  apply does_both; [apply does_if, does_note|]. apply does_both.
  - apply does_fold. intros. apply does_note.
  - apply does_if, does_fold. intros. apply does_note.
Qed.

Lemma draft_parts p label own b :
  draft p label own b =
  let d := first_part p label own b (empty_draft (label_errors label)) in
  last_part p own (fail_row (undisclosed (app p) d) d).
Proof. reflexivity. Qed.

Lemma tidy_empty errs : tidy (empty_draft errs).
Proof. split_and!; [apply NoDup_nil_2 | done | apply NoDup_nil_2]. Qed.

Lemma refuse_if_nil (c : bool) r k m : refuse_if c (error r k m) = [] <-> c = false.
Proof. by destruct c. Qed.

Lemma last_fine p own : fine (last_effect p own).
Proof.
  unfold last_effect. cbn [both fine]. split; [by destruct (is_application p)|].
  split; [by apply all_of_fine | by destruct (is_application p)].
Qed.

Lemma last_adds_only_services p own :
  binds (last_effect p own) = [] /\ (forall w s, ~ mirrors (last_effect p own) w s) /\
  (forall n, ~ spaces (last_effect p own) n).
Proof.
  unfold last_effect. generalize (tool_classes p). intros l.
  assert (Hl : binds (all_of (fun c => grant_effect (service_tool c)) l) = [] /\
    (forall w s, ~ mirrors (all_of (fun c => grant_effect (service_tool c)) l) w s) /\
    forall n, ~ spaces (all_of (fun c => grant_effect (service_tool c)) l) n).
  { induction l as [|c l (IH & IH' & IH'')]; cbn; split_and!; naive_solver. }
  destruct Hl as (H1 & H2 & H3). destruct (is_application p); cbn; rewrite ?H1; naive_solver.
Qed.

(** The draft at the end: what was refused, and what it holds when nothing was. *)
Lemma draft_spec p label own b :
  let d := draft p label own b in
  let e := first_effect p label own b in
  (d_errs d = [] <-> is_valid_label label = true /\ fine e /\ (exposes e = true -> disclosure (app p) <> [])) /\
  tidy d /\
  (fine e -> (forall s, s ∈ d_services d <-> gives e s \/ gives (last_effect p own) s) /\
    d_bound d = binds e /\ (forall w s, holds_grant (d_endpoints d) w s <-> mirrors e w s) /\
    (forall n, n ∈ d_namespaces d <-> spaces e n)).
Proof.
  intros d e. pose proof (does_first_part p label own b) as Hf. pose proof (does_last_part p own) as Hl.
  pose proof (last_fine p own) as Hlf. destruct (last_adds_only_services p own) as (Hlb & Hlm & Hls).
  fold e in Hf. subst d. rewrite draft_parts. cbv zeta.
  set (d1 := first_part p label own b (empty_draft (label_errors label))).
  set (err := undisclosed (app p) d1). split_and!.
  - rewrite (does_errs _ _ Hl), (does_errs _ _ (does_fail err)). cbn [fine].
    unfold d1 at 1. rewrite (does_errs _ _ Hf). cbn [empty_draft d_errs]. unfold label_errors.
    rewrite refuse_if_nil, negb_false_iff.
    assert (Herr : fine e -> err = [] <-> (exposes e = true -> disclosure (app p) <> [])).
    { intros He. unfold err, undisclosed. rewrite refuse_if_nil. unfold d1.
      rewrite (does_exposes _ _ Hf He). cbn [empty_draft d_sensitive orb].
      destruct (exposes e), (disclosure (app p)); cbn; naive_solver. }
    tauto.
  - apply (does_tidy _ _ Hl), (does_tidy _ _ (does_fail err)), (does_tidy _ _ Hf), tidy_empty.
  - intros He. split_and!.
    + intros s. rewrite (does_services _ _ Hl Hlf). cbn [fail_row d_services]. unfold d1.
      rewrite (does_services _ _ Hf He). cbn [empty_draft d_services]. set_solver.
    + rewrite (does_bound _ _ Hl Hlf), Hlb, app_nil_r. cbn [fail_row d_bound]. unfold d1.
      by rewrite (does_bound _ _ Hf He).
    + intros w s. rewrite (does_endpoints _ _ Hl Hlf). cbn [fail_row d_endpoints]. unfold d1.
      rewrite (does_endpoints _ _ Hf He). cbn [empty_draft d_endpoints]. specialize (Hlm w s).
      unfold holds_grant at 1. set_solver.
    + intros n. rewrite (does_spaces _ _ Hl Hlf). cbn [fail_row d_namespaces]. unfold d1.
      rewrite (does_spaces _ _ Hf He). cbn [empty_draft d_namespaces]. specialize (Hls n). set_solver.
Qed.

(** ** Specification: what an install grants *)

(** A channel that the owner bound to a slot, an item bound to a request. *)
Definition binds_slot (p : PresetSummary) (choice : AppInstallBindings) (s : AppSlot) (b : SlotBinding) : Prop :=
  s ∈ slots (app p) /\ b ∈ slot_bindings choice /\ bound_slot b = slot_name s.
Definition binds_item (p : PresetSummary) (choice : AppInstallBindings) (r : AppResourceRequest)
    (b : ResourceBinding) : Prop :=
  r ∈ resources (app p) /\ b ∈ resource_bindings choice /\ bound_name b = resource_name r.

(** The services of a delegate: its chat and its memory, and what each bound channel,
    bound item and tool class stands for; an application has its inbox and plugins. *)
Inductive granted (p : PresetSummary) (label own : string) (choice : AppInstallBindings) : string -> Prop :=
| GrantedChatPub : granted p label own choice (service_channel_pub (opchat_channel_id label))
| GrantedChatSub : granted p label own choice (service_channel_sub (opchat_channel_id label))
| GrantedOwn : granted p label own choice (service_knowledge own)
| GrantedRead s b : binds_slot p choice s b -> reads (slot_direction s) = true ->
    granted p label own choice (service_channel_sub (binding_channel b))
| GrantedWrite s b : binds_slot p choice s b -> writes (slot_direction s) = true ->
    granted p label own choice (service_channel_pub (binding_channel b))
| GrantedReply s b : binds_slot p choice s b -> is_messaging s = true ->
    granted p label own choice (service_channel_pub (binding_channel b))
| GrantedItem r b : binds_item p choice r b -> granted p label own choice (service_knowledge (ns b))
| GrantedInbox : is_application p = true -> granted p label own choice (service_proposal own)
| GrantedTool class : class ∈ tool_classes p -> granted p label own choice (service_tool class)
| GrantedPlugin id : is_application p = true -> id ∈ BUILT_WITH_PLUGINS ->
    granted p label own choice (service_plugin id).

(** What the app does on the feed of a slot: where people talk it answers, whatever the
    slot's direction. *)
Definition app_reads (s : AppSlot) : bool := reads (slot_direction s).
Definition app_writes (s : AppSlot) : bool := writes (slot_direction s) || is_messaging s.

(** The mirror of the app, service by service: the endpoint of a bound channel writes what
    the app reads there and reads what the app writes there, and where people talk it has
    the operator's channel of the delegate too. *)
Inductive endpoint_mirror (p : PresetSummary) (label : string) (choice : AppInstallBindings) (who : string)
    : string -> Prop :=
| MirrorWrite s b : binds_slot p choice s b -> binding_endpoint b = Some who -> app_reads s = true ->
    endpoint_mirror p label choice who (service_channel_pub (binding_channel b))
| MirrorRead s b : binds_slot p choice s b -> binding_endpoint b = Some who -> app_writes s = true ->
    endpoint_mirror p label choice who (service_channel_sub (binding_channel b))
| MirrorChatPub s b : binds_slot p choice s b -> binding_endpoint b = Some who -> is_messaging s = true ->
    endpoint_mirror p label choice who (service_channel_pub (opchat_channel_id label))
| MirrorChatSub s b : binds_slot p choice s b -> binding_endpoint b = Some who -> is_messaging s = true ->
    endpoint_mirror p label choice who (service_channel_sub (opchat_channel_id label)).

(** Beyond the mirror: on a feed that the app only writes the endpoint may write as well,
    and on one that the app only reads it may read as well. *)
Inductive endpoint_surplus (p : PresetSummary) (choice : AppInstallBindings) (who : string) : string -> Prop :=
| SurplusWrite s b : binds_slot p choice s b -> binding_endpoint b = Some who -> app_reads s = false ->
    endpoint_surplus p choice who (service_channel_pub (binding_channel b))
| SurplusRead s b : binds_slot p choice s b -> binding_endpoint b = Some who -> app_writes s = false ->
    endpoint_surplus p choice who (service_channel_sub (binding_channel b)).

(** The installs that are accepted. *)
Definition acceptable (p : PresetSummary) (label own : string) (choice : AppInstallBindings) : Prop :=
  is_valid_label label = true /\
  (forall s, s ∈ slots (app p) -> slot_allowed (slot_bindings choice) s) /\
  (forall b, b ∈ slot_bindings choice -> blank (binding_channel b) = false /\
     exists s, s ∈ slots (app p) /\ slot_name s = bound_slot b) /\
  (forall r, r ∈ resources (app p) -> resource_required r = true -> items_of (resource_bindings choice) r <> []) /\
  (forall b, b ∈ resource_bindings choice -> exists r, r ∈ resources (app p) /\ resource_name r = bound_name b) /\
  (forall r b, binds_item p choice r b -> item_allowed own r b) /\
  (forall b, b ∈ resource_bindings choice -> sensitivity b = Sensitive -> disclosure (app p) <> []) /\
  (forall a, a ∈ audience_choices choice ->
     exists s, s ∈ slots (app p) /\ slot_name s = audience_slot a /\ is_messaging s = true).

(** ** Lemmas: the effects are the specification *)

Lemma concat_map_nil {A B} (f : A -> list B) l : concat (map f l) = [] <-> forall x, x ∈ l -> f x = [].
Proof.
  induction l as [|x l IH]; cbn; [set_solver|]. split.
  - intros [Hx Hl]%app_nil y [->|Hy]%elem_of_cons; [done|]. by apply IH.
  - intros Hall. rewrite (Hall x) by left. apply IH. intros y Hy. apply Hall. by right.
Qed.

Lemma unknown_slots_nil m bs :
  unknown_slots m bs = [] <-> forall b, b ∈ bs -> exists s, s ∈ slots m /\ slot_name s = bound_slot b.
Proof.
  unfold unknown_slots. rewrite concat_map_nil. setoid_rewrite refuse_if_nil.
  setoid_rewrite negb_false_iff. setoid_rewrite existsb_elem. by setoid_rewrite String.eqb_eq.
Qed.

Lemma unknown_resources_nil m bs :
  unknown_resources m bs = [] <-> forall b, b ∈ bs -> exists r, r ∈ resources m /\ resource_name r = bound_name b.
Proof.
  unfold unknown_resources. rewrite concat_map_nil. setoid_rewrite refuse_if_nil.
  setoid_rewrite negb_false_iff. setoid_rewrite existsb_elem. by setoid_rewrite String.eqb_eq.
Qed.

Lemma unknown_audience_nil m l :
  unknown_audience m l = [] <->
  forall a, a ∈ l -> exists s, s ∈ slots m /\ slot_name s = audience_slot a /\ is_messaging s = true.
Proof.
  unfold unknown_audience. rewrite concat_map_nil. setoid_rewrite refuse_if_nil.
  setoid_rewrite negb_false_iff. setoid_rewrite existsb_elem. setoid_rewrite andb_true_iff.
  by setoid_rewrite String.eqb_eq.
Qed.

Lemma elem_of_bindings bs s b : b ∈ bindings_of bs s <-> b ∈ bs /\ bound_slot b = slot_name s.
Proof. unfold bindings_of. rewrite elem_of_filterb, String.eqb_eq. tauto. Qed.

Lemma elem_of_items bs r b : b ∈ items_of bs r <-> b ∈ bs /\ bound_name b = resource_name r.
Proof. unfold items_of. rewrite elem_of_filterb, String.eqb_eq. tauto. Qed.

Section Meaning.
Variables (p : PresetSummary) (label own : string) (choice : AppInstallBindings).
Let e := first_effect p label own choice.

Lemma first_gives x :
  gives e x \/ gives (last_effect p own) x <-> granted p label own choice x.
Proof.
  unfold e, first_effect, last_effect. cbn [both gives grant_effect refusal_effect]. rewrite !all_of_gives.
  split.
  - intros [[->|[->|[->|[(s & Hs & Hx)|[[]|[(r & Hr & Hx)|[]]]]]]]|[Hx|[(c & Hc & ->)|Hx]]];
      try (by constructor).
    + apply all_of_gives in Hx as (b & [Hb Hn]%elem_of_bindings & [[Hd ->]|[[Hd|Hd] ->]]);
        [eapply GrantedRead | eapply GrantedWrite | eapply GrantedReply]; try exact Hd; by split_and!.
    + apply all_of_gives in Hx as (b & [Hb Hn]%elem_of_items & ->).
      by eapply GrantedItem; split_and!.
    + destruct (is_application p) eqn:Happ; [|done]. cbn in Hx. subst x. by constructor.
    + destruct (is_application p) eqn:Happ; [|done]. apply all_of_gives in Hx as (id & Hid & ->).
      by constructor.
  - assert (Hslot : forall s b x, binds_slot p choice s b -> slot_grants s b x ->
      exists s, s ∈ slots (app p) /\ gives (slot_effect (opchat_channel_id label) (slot_bindings choice) s) x).
    { intros s b y (Hs & Hb & Hn) Hx. exists s. split; [done|]. cbn. apply all_of_gives. exists b.
      split; [by apply elem_of_bindings | done]. }
    intros [| | |s b Hb Hd|s b Hb Hd|s b Hb Hd|r b (Hr & Hb & Hn)|Happ|c Hc|id Happ Hid].
    + tauto.
    + tauto.
    + tauto.
    + left. do 3 right. left. eapply Hslot; [done|]. by left.
    + left. do 3 right. left. eapply Hslot; [done|]. right. by split; [left|].
    + left. do 3 right. left. eapply Hslot; [done|]. right. by split; [right|].
    + left. do 5 right. left. exists r. split; [done|]. cbn. apply all_of_gives. exists b.
      split; [by apply elem_of_items | done].
    + right. left. by rewrite Happ.
    + right. right. left. by exists c.
    + right. do 2 right. rewrite Happ. cbn [given]. apply all_of_gives. by exists id.
Qed.

Lemma first_mirrors w x : mirrors e w x <->
  exists s b, binds_slot p choice s b /\ endpoint_gets (opchat_channel_id label) s b w x.
Proof.
  unfold e, first_effect, binds_slot. cbn [both mirrors grant_effect refusal_effect].
  rewrite !all_of_mirrors. split.
  - intros [[]|[[]|[[]|[(s & Hs & Hx)|[[]|[(r & Hr & Hx)|[]]]]]]].
    + apply all_of_mirrors in Hx as (b & [Hb Hn]%elem_of_bindings & Hx). by exists s, b.
    + by apply all_of_mirrors in Hx as (b & _ & []).
  - intros (s & b & (Hs & Hb & Hn) & Hx). do 3 right. left. exists s. split; [done|]. cbn.
    apply all_of_mirrors. exists b. split; [by apply elem_of_bindings | done].
Qed.
Lemma first_fine : fine e <->
  (forall s, s ∈ slots (app p) -> slot_allowed (slot_bindings choice) s) /\
  (forall b, b ∈ slot_bindings choice -> blank (binding_channel b) = false /\
     exists s, s ∈ slots (app p) /\ slot_name s = bound_slot b) /\
  (forall r, r ∈ resources (app p) -> resource_required r = true -> items_of (resource_bindings choice) r <> []) /\
  (forall b, b ∈ resource_bindings choice -> exists r, r ∈ resources (app p) /\ resource_name r = bound_name b) /\
  (forall r b, binds_item p choice r b -> item_allowed own r b).
Proof.
  unfold e, first_effect. cbn [both fine grant_effect refusal_effect]. rewrite !all_of_fine, unknown_slots_nil,
    unknown_resources_nil. unfold slot_effect, request_effect. cbn [provided fine].
  setoid_rewrite all_of_fine. setoid_rewrite elem_of_bindings. setoid_rewrite elem_of_items.
  cbn [binding_effect item_effect fine]. unfold binds_item. split.
  - intros (_ & _ & _ & Hs & Hus & Hr & Hur). split_and!.
    + intros s Hin. by apply Hs.
    + intros b Hb. destruct (Hus b Hb) as (s & Hin & Hn). split; [|by exists s]. by apply (Hs s Hin).
    + intros r Hin. by apply Hr.
    + exact Hur.
    + intros r b (Hin & Hb & Hn). by apply (Hr r Hin).
  - intros (Hs & Hb & Hr & Hur & Hit). split_and!; try done.
    + intros s Hin. split; [by apply Hs|]. intros b [Hb' _]. by apply Hb.
    + intros b Hb'. by apply Hb.
    + intros r Hin. split; [by apply Hr|]. intros b [Hb' Hn]. by apply Hit.
Qed.

Lemma first_exposes : fine e -> exposes e = true <->
  exists b, b ∈ resource_bindings choice /\ sensitivity b = Sensitive.
Proof.
  intros Hfine%first_fine. destruct Hfine as (_ & _ & _ & Hur & _).
  unfold e, first_effect. cbn [both exposes grant_effect refusal_effect]. rewrite orb_false_r, orb_false_l.
  cbn [orb]. rewrite orb_true_iff, !all_of_exposes. split.
  - intros [(s & _ & Hx)|(r & _ & Hx)]; cbn in Hx; apply all_of_exposes in Hx as (b & Hb & Hx); [done|].
    apply elem_of_items in Hb as [Hb _]. apply bool_decide_eq_true in Hx. by exists b.
  - intros (b & Hb & Hx). right. destruct (Hur b Hb) as (r & Hr & Hn). exists r. split; [done|].
    cbn. apply all_of_exposes. exists b. split; [by apply elem_of_items | by apply bool_decide_eq_true].
Qed.
End Meaning.

(** ** Properties *)

Section Compiled.
Context (p : PresetSummary) (label : string) (memory : option string) (choice : AppInstallBindings).
Local Abbreviation own := (own_namespace p label memory).

Lemma no_errors_acceptable :
  is_nil (d_errs (draft p label own choice) ++ unknown_audience (app p) (audience_choices choice))%list = true
  <-> acceptable p label own choice.
Proof.
  destruct (draft_spec p label own choice) as (Herrs & _ & _).
  rewrite is_nil_true, app_nil, Herrs, unknown_audience_nil. unfold acceptable.
  pose proof (first_exposes p label own choice) as Hexp. pose proof (first_fine p label own choice) as Hfine.
  split.
  - intros ((Hl & Hf & Hd) & Ha). specialize (Hexp Hf). apply Hfine in Hf as (? & ? & ? & ? & ?).
    split_and!; try done. intros b Hb Hs. apply Hd, Hexp. by exists b.
  - intros (Hl & H1 & H2 & H3 & H4 & H5 & Hd & Ha).
    assert (Hf : fine (first_effect p label own choice)) by (by apply Hfine).
    specialize (Hexp Hf). split_and!; try done. intros (b & Hb & Hs)%Hexp. by apply (Hd b).
Qed.

Lemma compiles_acceptable : is_ok (compile_app p label memory choice) = true <-> acceptable p label own choice.
Proof. rewrite <-no_errors_acceptable. unfold compile_app. cbv zeta. by destruct (is_nil _). Qed.

Lemma compiled_services c : compile_app p label memory choice = Ok c ->
  NoDup (services c) /\ map an_service (annotations c) = services c /\
  (forall x, x ∈ services c <-> granted p label own choice x).
Proof.
  destruct (draft_spec p label own choice) as (Herrs & (Hnd & Han & _) & Hrest).
  unfold compile_app. cbv zeta. destruct (is_nil _) eqn:Hnil; [|done]. intros [= <-]. cbn [services annotations].
  apply is_nil_true, app_nil in Hnil as [He _]. apply Herrs in He as (_ & Hf & _).
  destruct (Hrest Hf) as (Hs & _). split_and!; [done..|]. intros x. by rewrite Hs, first_gives.
Qed.

Lemma endpoint_gets_split who x :
  (exists s b, binds_slot p choice s b /\ endpoint_gets (opchat_channel_id label) s b who x) <->
  who <> "" /\ (endpoint_mirror p label choice who x \/ endpoint_surplus p choice who x).
Proof.
  unfold endpoint_gets, endpoint_services. split.
  - intros (s & b & Hb & He & Hw & Hx). split; [done|].
    assert (x = service_channel_pub (binding_channel b) \/ x = service_channel_sub (binding_channel b) \/
            is_messaging s = true /\ (x = service_channel_pub (opchat_channel_id label) \/
                                      x = service_channel_sub (opchat_channel_id label)))
      as [-> | [-> | [Hm [-> | ->]]]] by (destruct (is_messaging s); set_solver).
    + destruct (app_reads s) eqn:Hr; [left|right]; by econstructor.
    + destruct (app_writes s) eqn:Hr; [left|right]; by econstructor.
    + left. by eapply MirrorChatPub.
    + left. by eapply MirrorChatSub.
  - intros [Hw [H|H]]; destruct H as [s b Hb He Hd|s b Hb He Hd|s b Hb He Hd|s b Hb He Hd] || destruct H as [s b Hb He Hd|s b Hb He Hd];
      exists s, b; (split_and!; [done..|]); try rewrite Hd; destruct (is_messaging s); set_solver.
Qed.

Lemma compiled_endpoints c : compile_app p label memory choice = Ok c ->
  NoDup (map actor (endpoint_grants c)) /\
  (forall who x, holds_grant (endpoint_grants c) who x <->
     who <> "" /\ (endpoint_mirror p label choice who x \/ endpoint_surplus p choice who x)).
Proof.
  destruct (draft_spec p label own choice) as (Herrs & (_ & _ & Hne) & Hrest).
  unfold compile_app. cbv zeta. destruct (is_nil _) eqn:Hnil; [|done]. intros [= <-]. cbn [endpoint_grants].
  apply is_nil_true, app_nil in Hnil as [He _]. apply Herrs in He as (_ & Hf & _).
  destruct (Hrest Hf) as (_ & _ & Hm & _). split; [done|]. intros who x. rewrite Hm, first_mirrors.
  apply endpoint_gets_split.
Qed.
End Compiled.

(** C37: what an install is.  It goes through exactly when the label is well formed,
    every required slot and resource is bound, no slot over its bound, every binding
    names a slot or resource of the template, has a channel or a namespace of its own
    and the right kind, and a sensitive item is disclosed.  The delegate is then
    granted its chat, its memory and what the bound channels, items, tool classes and
    plugins stand for, no other service, each once and with one note.  The feed of a
    bound channel is that channel.  The endpoint that a binding names is granted the
    mirror of the app, with the operator's channel where people talk, and beyond it
    exactly the app's own direction of a feed that the app uses one way. *)
Theorem compile_app_exact (p : PresetSummary) (label : string) (memory : option string)
    (choice : AppInstallBindings) :
  let own := own_namespace p label memory in
  (is_ok (compile_app p label memory choice) = true <-> acceptable p label own choice) /\
  forall c, compile_app p label memory choice = Ok c ->
    NoDup (services c) /\ map an_service (annotations c) = services c /\
    (forall x, x ∈ services c <-> granted p label own choice x) /\
    NoDup (map actor (endpoint_grants c)) /\
    (forall who x, holds_grant (endpoint_grants c) who x <->
       who <> "" /\ (endpoint_mirror p label choice who x \/ endpoint_surplus p choice who x)).
Proof.
  intros own. split; [apply compiles_acceptable|]. intros c Hc.
  destruct (compiled_services p label memory choice c Hc) as (? & ? & ?).
  destruct (compiled_endpoints p label memory choice c Hc) as (? & ?). done.
Qed.

(** ** Lemmas: validated templates *)

(** Sorting a list by a key with distinct values loses nothing. *)
Lemma filters_perm {A B} (key : A -> string) (name : B -> string) (ks : list B) (l : list A) :
  NoDup (map name ks) -> (forall x, x ∈ l -> exists k, k ∈ ks /\ name k = key x) ->
  concat (map (fun k => List.filter (fun x => String.eqb (key x) (name k)) l) ks) ≡ₚ l.
Proof.
  intros Hnd. induction l as [|x l IH]; intros Hall.
  - clear. induction ks; done.
  - destruct (Hall x ltac:(left)) as (k & Hk & Hn). apply list_elem_of_split in Hk as (ks1 & ks2 & ->).
    specialize (IH ltac:(intros y Hy; apply Hall; by right)).
    assert (Hother : forall k', k' ∈ (ks1 ++ ks2)%list -> String.eqb (key x) (name k') = false).
    { intros k' Hk'. apply String.eqb_neq. rewrite <-Hn. intros E. rewrite map_app in Hnd. cbn in Hnd.
      apply NoDup_app in Hnd as (_ & Hd1 & [Hd2 _]%NoDup_cons). apply elem_of_app in Hk' as [Hk'|Hk'].
      - apply (Hd1 (name k)); [|by left]. rewrite E. by apply list_elem_of_fmap_2.
      - apply Hd2. rewrite E. by apply list_elem_of_fmap_2. }
    assert (Hsame : forall ks', (forall k', k' ∈ ks' -> String.eqb (key x) (name k') = false) ->
      map (fun k => List.filter (fun y => String.eqb (key y) (name k)) (x :: l)) ks' =
      map (fun k => List.filter (fun y => String.eqb (key y) (name k)) l) ks').
    { intros ks' Hks. apply map_ext_in. intros k' Hk'%list_elem_of_In. cbn. by rewrite (Hks k' Hk'). }
    rewrite <-IH. rewrite !map_app, !concat_app. cbn [map concat]. rewrite !Hsame by set_solver.
    cbn [List.filter]. rewrite Hn, String.eqb_refl. cbn [app]. apply Permutation_sym, Permutation_middle.
Qed.

Lemma binds_nothing {A} (e : A -> Effect) l : (forall x, binds (e x) = []) -> binds (all_of e l) = [].
Proof. intros He. rewrite all_of_binds. induction l as [|x l IH]; [done|]. cbn. by rewrite He, IH. Qed.

Lemma requests_bind_nothing own bs rs : binds (all_of (request_effect own bs) rs) = [].
Proof. apply binds_nothing. intros r. by apply (binds_nothing (item_effect own r)). Qed.

(** The feeds of an install: those of each slot in turn. *)
Lemma first_binds p label own choice :
  binds (first_effect p label own choice) =
  concat (map (fun s => map (feed_of s) (bindings_of (slot_bindings choice) s)) (slots (app p))).
Proof.
  unfold first_effect. cbn [both binds grant_effect refusal_effect app]. rewrite requests_bind_nothing.
  rewrite all_of_binds, !app_nil_r, !app_nil_l. f_equal. apply map_ext. intros s.
  change (binds (slot_effect ?c ?bs s)) with (binds (all_of (binding_effect c s) (bindings_of bs s))).
  rewrite all_of_binds. induction (bindings_of (slot_bindings choice) s) as [|b l IH]; [done|].
  cbn [map concat]. by rewrite IH.
Qed.

Definition feed_key (f : BoundChannel) : string * string * option string :=
  (bc_slot f, bc_channel_id f, bc_endpoint f).
Definition choice_key (b : SlotBinding) : string * string * option string :=
  (bound_slot b, binding_channel b, binding_endpoint b).

Lemma feeds_keys bs ss :
  map feed_key (concat (map (fun s => map (feed_of s) (bindings_of bs s)) ss)) =
  map choice_key (concat (map (bindings_of bs) ss)).
Proof.
  induction ss as [|s ss IH]; [done|]. cbn [map concat]. rewrite !map_app, IH. f_equal.
  rewrite map_map. apply map_ext_in. intros b [_ Hn]%list_elem_of_In%elem_of_bindings.
  unfold feed_key, choice_key. cbn. by rewrite Hn.
Qed.

(** A granted tool class is a class of the template. *)
Lemma granted_tool p label own choice x :
  granted p label own choice x -> to_lowercase x = service_tool SCHEDULE_CLASS ->
  exists class, class ∈ tool_classes p /\ to_lowercase class = SCHEDULE_CLASS.
Proof.
  intros [] E; try discriminate E. exists class. split; [done|].
  unfold service_tool in E. rewrite lower_app in E. by injection E.
Qed.

(** ** The property of validated templates *)

(** A validated template installs what the owner chose, no more and no less.
    Every channel the owner bound becomes exactly one feed, at its slot and with its
    endpoint; media or a sensitive item is disclosed; and the clock may fire its
    scheduled turns exactly if the template names its tools: one that leaves them to
    the default passes validation with entries that no grant ever lets run. *)
Theorem validated_install (p : PresetSummary) (skill_files knowledge_files : list string)
    (label : string) (memory : option string) (choice : AppInstallBindings) (c : CompiledApp)
    (Hv : validate_template p skill_files knowledge_files = Ok tt)
    (Hc : compile_app p label memory choice = Ok c) :
  map feed_key (bound_channels c) ≡ₚ map choice_key (slot_bindings choice) /\
  (carries_media (app p) = true \/
   (exists b, b ∈ resource_bindings choice /\ sensitivity b = Sensitive) -> app_disclosure c <> []) /\
  (app_schedule c <> [] -> tool_granted (services c) SCHEDULE_CLASS = true <-> tools (app p) <> None).
Proof.
  destruct (compiled_services p label memory choice c Hc) as (_ & _ & Hgr).
  assert (Hacc := proj1 (compiles_acceptable p label memory choice) ltac:(by rewrite Hc)).
  destruct Hacc as (_ & _ & Hslots & _ & _ & _ & Hsens & _).
  unfold compile_app in Hc. cbv zeta in Hc. destruct (is_nil _) eqn:Hnil; [|done].
  apply is_nil_true, app_nil in Hnil as [Herrs _].
  destruct (draft_spec p label (own_namespace p label memory) choice) as (He & _ & Hrest).
  apply He in Herrs as (_ & Hf & _). destruct (Hrest Hf) as (_ & Hb & _).
  assert (Hfeeds : bound_channels c = d_bound (draft p label (own_namespace p label memory) choice))
    by (by injection Hc as <-).
  assert (Hkeep : app_disclosure c = disclosure (app p) /\ app_schedule c = schedule p) by (by injection Hc as <-).
  destruct Hkeep as [-> ->]. clear Hc. split_and!.
  - rewrite Hfeeds, Hb, first_binds, feeds_keys. apply Permutation_map.
    apply (filters_perm bound_slot slot_name (slots (app p)) (slot_bindings choice));
      [by eapply validated_slot_names|]. intros b Hin. by apply Hslots.
  - intros [Hm|(b & Hin & Hs)]; [by eapply validated_media | by eapply Hsens].
  - intros Hsch. unfold tool_granted. rewrite existsb_elem. setoid_rewrite String.eqb_eq.
    change (to_lowercase (service_tool SCHEDULE_CLASS)) with (service_tool SCHEDULE_CLASS). split.
    + intros (x & Hx%Hgr & E). apply (granted_tool _ _ _ _ _ Hx) in E as (class & Hcl & E).
      apply elem_of_tool_classes in Hcl. destruct (tools (app p)); [done|].
      apply list_elem_of_singleton in Hcl as ->. discriminate E.
    + intros Ht. destruct (tools (app p)) as [l|] eqn:Htools; [|done].
      pose proof (validated_schedule _ _ _ Hv l Htools Hsch) as Hw. unfold wants_schedule in Hw.
      apply existsb_elem in Hw as (t & Htin & Hn%String.eqb_eq).
      exists (service_tool SCHEDULE_CLASS). split; [|done]. apply Hgr. constructor.
      apply elem_of_tool_classes. rewrite Htools. by exists t.
Qed.

(** ** Concrete installs *)

Module Chef.
Definition slot (n : string) (k : ChannelEndpointKind) (d : SlotDirection) (required : bool)
    (kinds : list ChannelEventKind) (who : list ContactTier) : AppSlot :=
  {| slot_name := n; slot_kind := k; slot_direction := d; slot_required := required; max_bindings := None;
     slot_event_kinds := kinds; slot_audience := who; slot_session := None; slot_reason := "";
     slot_reason_zh := "" |}.

Definition resource (n : string) (k : ResourceKind) (required : bool) (floor : option Sensitivity)
    : AppResourceRequest :=
  {| resource_name := n; resource_kind := k; tags := []; resource_required := required;
     sensitivity_floor := floor; resource_reason := ""; resource_reason_zh := "" |}.

Definition morning_plan : PresetSchedule :=
  {| cron := "0 7 * * *"; label := "morning plan"; label_zh := ""; prompt := "Publish the plan.";
     entry_session := None; when_ := None |}.

Definition template (tools : option (list string)) : PresetSummary :=
  {| preset_id := "chef"; version := "1.0.0"; name := "Chef"; name_zh := ""; description := "";
     description_zh := ""; suggested_channels := []; suggested_context := []; schedule := [morning_plan];
     route_examples := [];
     app := {| schema := 1; publisher := "";
       slots := [slot "family_chat" Messaging Sub true [Text; Image] [Owner; Partner; Elder; Helper];
                 slot "kitchen_screen" Display Pub false [Doc] []];
       resources := [resource "food-preferences" Profile true None;
                     resource "gene-report" Document false (Some Sensitive)];
       tools := tools; availability := AlwaysOn;
       budgets := {| gate_tokens_per_day := Some 300000%Z; gate_turns_per_hour := None; feed_events_per_day := None |};
       disclosure := [{| disclosed_data := "meal photos"; disclosed_data_zh := "";
                         disclosed_path := "gate, then the vision model"; disclosed_path_zh := "" |}];
       context := None; hidden := false |} |}.

Definition chef : PresetSummary := template (Some ["tool:schedule"; "web"]).

Definition channel (s id : string) (endpoint : option string) : SlotBinding :=
  {| bound_slot := s; binding_channel := id; binding_endpoint := endpoint; binding_description := None |}.

Definition item (n space : string) (k : ResourceKind) (s : Sensitivity) : ResourceBinding :=
  {| bound_name := n; item_id := "i"; ns := space; bound_kind := k; sensitivity := s |}.

Definition choice_in (space : string) : AppInstallBindings :=
  {| slot_bindings := [channel "family_chat" "family-chat" (Some "0xgateway");
                       channel "kitchen_screen" "kitchen-display" (Some "0xconsole")];
     resource_bindings := [item "food-preferences" space Profile Safe;
                           item "gene-report" "household-health" Document Sensitive];
     audience_choices := []; tz_offset_minutes := 480%Z |}.

Definition choice : AppInstallBindings := choice_in "household-preferences".

Definition installed (tools : option (list string)) (choice : AppInstallBindings) : list string :=
  match compile_app (template tools) "chef" None choice with Ok c => services c | Err _ => [] end.
End Chef.
Import Chef.

(** The grants of the shipped template, as its own test lists them. *)
Example chef_services : installed (tools (app chef)) Chef.choice =
  ["channel-pub:opchat-chef"; "channel-sub:opchat-chef"; "knowledge:app-chef"; "channel-sub:family-chat";
   "channel-pub:family-chat"; "channel-pub:kitchen-display"; "knowledge:household-preferences";
   "knowledge:household-health"; "proposal:app-chef"; "tool:schedule"; "tool:web"; "plugin:openviking"].
Proof. vm_compute. reflexivity. Qed.

(** Left to the default tools, the same template is valid and its plan never runs. *)
Example default_tools_never_fire :
  validate_template (template None) [] [] = Ok tt /\
  tool_granted (installed None Chef.choice) SCHEDULE_CLASS = false.
Proof. vm_compute. done. Qed.

(** The screen only shows what the app writes; its endpoint may write there too. *)
Example endpoint_writes_a_screen :
  match compile_app chef "chef" None Chef.choice with
  | Ok c => map (fun g => (actor g, add g)) (endpoint_grants c)
  | Err _ => []
  end =
  [("0xgateway", ["channel-pub:family-chat"; "channel-sub:family-chat";
                  "channel-pub:opchat-chef"; "channel-sub:opchat-chef"]);
   ("0xconsole", ["channel-pub:kitchen-display"; "channel-sub:kitchen-display"])].
Proof. vm_compute. reflexivity. Qed.

(** The app's own namespace is refused to a resource, but not in capitals, though
    grants are hashed in lower case. *)
Example own_namespace_in_capitals :
  is_ok (compile_app chef "chef" None (choice_in "app-chef")) = false /\
  is_ok (compile_app chef "chef" None (choice_in "APP-chef")) = true /\
  to_lowercase (service_knowledge "APP-chef") = service_knowledge "app-chef".
Proof. vm_compute. done. Qed.

Example validated_install_witness :
  exists c, compile_app chef "chef" None Chef.choice = Ok c /\
    map feed_key (bound_channels c) ≡ₚ map choice_key (slot_bindings Chef.choice) /\
    app_disclosure c <> [] /\ tool_granted (services c) SCHEDULE_CLASS = true.
Proof.
  destruct (compile_app chef "chef" None Chef.choice) as [c|e] eqn:Hc; [|vm_compute in Hc; discriminate].
  exists c. split; [reflexivity|].
  assert (Hv : validate_template chef [] [] = Ok tt) by (vm_compute; reflexivity).
  destruct (validated_install chef [] [] "chef" None Chef.choice c Hv Hc) as (Hp & Hd & Ht).
  split; [exact Hp|]. split; [apply Hd; left; vm_compute; reflexivity|].
  apply Ht; [|discriminate]. revert Hc. vm_compute. intros E. injection E as <-. vm_compute. discriminate.
Defined.

Example compile_app_exact_witness :
  let granted_services := installed (tools (app chef)) Chef.choice in
  NoDup granted_services /\
  forall x, x ∈ granted_services <-> granted chef "chef" "app-chef" Chef.choice x.
Proof.
  intros granted_services. destruct (compile_app_exact chef "chef" None Chef.choice) as [_ Hall].
  destruct (compile_app chef "chef" None Chef.choice) as [c|e] eqn:Hc; [|vm_compute in Hc; discriminate].
  assert (Hs : granted_services = services c).
  { unfold granted_services, installed. change (template (tools (app chef))) with chef. by rewrite Hc. }
  rewrite Hs. destruct (Hall c eq_refl) as (Hnd & _ & Hgr & _). split; [exact Hnd | exact Hgr].
Defined.
