(* ===== verification/Channels.v ===== *)
(** * Household channels and contacts

    [crates/agentkeys-protocol/src/channel_doc.rs] and the contact registry of
    [agentkeys-protocol/src/lib.rs].  A mutation through [&mut] is a function from the
    document or registry to the changed one, with the value it returns. *)
From stdpp Require Import gmap.
From S2P Require Import Prelude RustStr StrFacts SessionScope.

Open Scope string_scope.
Open Scope Z_scope.

(** [if let Some(x) = v.iter_mut().find(p) { *x = f(x) }] *)
Fixpoint update_first {A} (p : A -> bool) (f : A -> A) (l : list A) : list A :=
  match l with
  | [] => []
  | x :: l => if p x then f x :: l else x :: update_first p f l
  end.

(** ** Tiers and channel documents *)

Inductive ContactTier := Owner | Partner | Elder | Kid | Helper | Guest.
#[export] Instance ContactTier_eq_dec : EqDecision ContactTier.
Proof. solve_decision. Defined.

Definition household_template : list ContactTier := [Owner; Partner; Elder; Kid; Helper; Guest].

Definition tier_as_str (t : ContactTier) : string :=
  match t with
  | Owner => "owner" | Partner => "partner" | Elder => "elder" | Kid => "kid"
  | Helper => "helper" | Guest => "guest"
  end.

Definition tier_parse (s : string) : option ContactTier :=
  if String.eqb s "owner" then Some Owner
  else if String.eqb s "partner" then Some Partner
  else if String.eqb s "elder" then Some Elder
  else if String.eqb s "kid" then Some Kid
  else if String.eqb s "helper" then Some Helper
  else if String.eqb s "guest" then Some Guest
  else None.

Definition may_hold_operator_grade_reach (t : ContactTier) : bool :=
  match t with Owner => true | _ => false end.

Record ChannelMember := { m_contact : string; m_speak : bool; m_read : bool }.
#[export] Instance ChannelMember_eq_dec : EqDecision ChannelMember.
Proof. solve_decision. Defined.

Record ChannelApp := {
  app_alias : string; app_slot : string; app_description : string;
  app_takes : list ChannelEventKind; app_audience : list ContactTier }.
#[export] Instance ChannelApp_eq_dec : EqDecision ChannelApp.
Proof. solve_decision. Defined.

Record ChannelDoc := {
  doc_id : string; doc_name : string; purpose : string; operator_of : option string;
  household_default : bool; members : list ChannelMember; apps : list ChannelApp;
  default_app : option string; updated_at : Z }.
#[export] Instance ChannelDoc_eq_dec : EqDecision ChannelDoc.
Proof. solve_decision. Defined.

Record ChannelGrant := { g_channel : string; g_speak : bool; g_read : bool }.

Definition with_members (ms : list ChannelMember) (d : ChannelDoc) : ChannelDoc :=
  {| doc_id := doc_id d; doc_name := doc_name d; purpose := purpose d; operator_of := operator_of d;
     household_default := household_default d; members := ms; apps := apps d;
     default_app := default_app d; updated_at := updated_at d |}.

Definition with_apps (xs : list ChannelApp) (dflt : option string) (d : ChannelDoc) : ChannelDoc :=
  {| doc_id := doc_id d; doc_name := doc_name d; purpose := purpose d; operator_of := operator_of d;
     household_default := household_default d; members := members d; apps := xs;
     default_app := dflt; updated_at := updated_at d |}.

Definition with_purpose (p : string) (d : ChannelDoc) : ChannelDoc :=
  {| doc_id := doc_id d; doc_name := doc_name d; purpose := p; operator_of := operator_of d;
     household_default := household_default d; members := members d; apps := apps d;
     default_app := default_app d; updated_at := updated_at d |}.

Definition with_household (b : bool) (d : ChannelDoc) : ChannelDoc :=
  {| doc_id := doc_id d; doc_name := doc_name d; purpose := purpose d; operator_of := operator_of d;
     household_default := b; members := members d; apps := apps d;
     default_app := default_app d; updated_at := updated_at d |}.

Definition stamped (now : Z) (d : ChannelDoc) : ChannelDoc :=
  {| doc_id := doc_id d; doc_name := doc_name d; purpose := purpose d; operator_of := operator_of d;
     household_default := household_default d; members := members d; apps := apps d;
     default_app := default_app d; updated_at := now |}.

Definition ChannelDoc_new (id name : string) : ChannelDoc :=
  {| doc_id := trim id; doc_name := trim name; purpose := ""; operator_of := None;
     household_default := false; members := []; apps := []; default_app := None; updated_at := 0 |}.

Definition is_operator (d : ChannelDoc) : bool := is_some (operator_of d).

Definition display_name (d : ChannelDoc) : string :=
  if String.eqb (trim (doc_name d)) "" then doc_id d else trim (doc_name d).

Definition doc_app (d : ChannelDoc) (alias : string) : option ChannelApp :=
  List.find (fun a => eq_lower (app_alias a) (trim alias)) (apps d).

Definition doc_member (d : ChannelDoc) (contact_id : string) : option ChannelMember :=
  List.find (fun m => String.eqb (m_contact m) contact_id) (members d).

Definition speaks (d : ChannelDoc) (contact_id : string) : bool :=
  match doc_member d contact_id with Some m => m_speak m | None => false end.

Definition reads (d : ChannelDoc) (contact_id : string) : bool :=
  match doc_member d contact_id with Some m => m_read m | None => false end.

Definition only_app (d : ChannelDoc) : option string :=
  match apps d with [one] => Some (app_alias one) | _ => None end.

Definition default_or_only_app (d : ChannelDoc) : option string :=
  match default_app d with
  | Some x => if is_some (doc_app d x) then Some x else only_app d
  | None => only_app d
  end.

Definition kind_in (k : ChannelEventKind) (ks : list ChannelEventKind) : bool :=
  bool_decide (k ∈ ks).

Definition app_takes_kind (a : ChannelApp) (k : ChannelEventKind) : bool :=
  is_nil (app_takes a) || kind_in k (app_takes a).

Definition doc_takes (d : ChannelDoc) (alias : string) (k : ChannelEventKind) : bool :=
  match doc_app d alias with Some a => app_takes_kind a k | None => false end.

Definition doc_apps_taking (d : ChannelDoc) (k : ChannelEventKind) : list ChannelApp :=
  List.filter (fun a => app_takes_kind a k) (apps d).

(** The three arms of the update of the rows, with whether they changed. *)
Definition put_app (row : ChannelApp) (xs : list ChannelApp) : list ChannelApp * bool :=
  let p a := String.eqb (app_alias a) (app_alias row) in
  match List.find p xs with
  | Some existing =>
      if bool_decide (existing = row) then (xs, false) else (update_first p (fun _ => row) xs, true)
  | None => ((xs ++ [row])%list, true)
  end.

Definition upsert_app (d : ChannelDoc) (app : ChannelApp) : ChannelDoc * bool :=
  let row := {| app_alias := to_lowercase (trim (app_alias app)); app_slot := app_slot app;
                app_description := app_description app; app_takes := app_takes app;
                app_audience := app_audience app |} in
  let '(xs, changed) := put_app row (apps d) in
  if negb (is_some (default_app d)) && (length xs =? 1)%nat
  then (with_apps xs (Some (app_alias row)) d, true)
  else (with_apps xs (default_app d) d, changed).

Definition remove_app (d : ChannelDoc) (alias : string) : ChannelDoc * bool :=
  let xs := List.filter (fun a => negb (eq_lower (app_alias a) (trim alias))) (apps d) in
  let dflt := match default_app d with
              | Some x => if eq_lower x (trim alias) then None else Some x
              | None => None
              end in
  (with_apps xs dflt d, negb (length xs =? length (apps d))%nat).

Definition remove_member (d : ChannelDoc) (contact_id : string) : ChannelDoc * bool :=
  let ms := List.filter (fun m => negb (String.eqb (m_contact m) contact_id)) (members d) in
  (with_members ms d, negb (length ms =? length (members d))%nat).

Definition set_member (d : ChannelDoc) (contact_id : string) (speak read : bool) : ChannelDoc * bool :=
  if negb speak && negb read then remove_member d contact_id
  else
    let row := {| m_contact := contact_id; m_speak := speak; m_read := read |} in
    let p m := String.eqb (m_contact m) contact_id in
    match List.find p (members d) with
    | Some m =>
        if Bool.eqb (m_speak m) speak && Bool.eqb (m_read m) read then (d, false)
        else (with_members (update_first p (fun _ => row) (members d)) d, true)
    | None => (with_members (members d ++ [row])%list d, true)
    end.

(** ** Contacts and the registry *)

Record Contact := {
  c_id : string; c_transport : string; c_transport_id : string; c_display : string;
  c_tier : ContactTier; c_legacy_reach : list string; c_welcomed : bool }.

Record TierProposal := {
  p_tier : ContactTier; p_channels : list ChannelGrant; p_rationale : string }.

Record PendingBind := {
  pb_transport : string; pb_transport_id : string; pb_code : string;
  pb_proposal : option TierProposal }.

Record BindInvite := {
  i_code : string; i_contact : string; i_display : string; i_tier : ContactTier;
  i_channels : list ChannelGrant; i_legacy_reach : list string }.

Record AppBlurb := {
  b_name : string; b_name_zh : string; b_purpose : string; b_purpose_zh : string;
  b_examples : list string; b_event_kinds : list ChannelEventKind }.

Record AppFeed := { f_alias : string; f_channel : string; f_blurb : option AppBlurb }.

Record RouterSettings := { r_model : option string; r_compare : bool; r_updated_at : Z }.

Record ContactRegistry := {
  bound : list Contact; pending : list PendingBind; invites : list BindInvite;
  legacy_apps : list AppFeed; channels : list ChannelDoc; router : option RouterSettings }.

Definition empty_registry : ContactRegistry :=
  {| bound := []; pending := []; invites := []; legacy_apps := []; channels := []; router := None |}.

Definition with_channels (ds : list ChannelDoc) (r : ContactRegistry) : ContactRegistry :=
  {| bound := bound r; pending := pending r; invites := invites r; legacy_apps := legacy_apps r;
     channels := ds; router := router r |}.

Definition with_bound (cs : list Contact) (r : ContactRegistry) : ContactRegistry :=
  {| bound := cs; pending := pending r; invites := invites r; legacy_apps := legacy_apps r;
     channels := channels r; router := router r |}.

Definition with_pending (ps : list PendingBind) (r : ContactRegistry) : ContactRegistry :=
  {| bound := bound r; pending := ps; invites := invites r; legacy_apps := legacy_apps r;
     channels := channels r; router := router r |}.

Definition with_invites (is_ : list BindInvite) (r : ContactRegistry) : ContactRegistry :=
  {| bound := bound r; pending := pending r; invites := is_; legacy_apps := legacy_apps r;
     channels := channels r; router := router r |}.

Definition resolve (r : ContactRegistry) (transport transport_id : string) : option Contact :=
  List.find (fun c => String.eqb (c_transport c) transport && String.eqb (c_transport_id c) transport_id)
            (bound r).

Definition reg_contact (r : ContactRegistry) (contact_id : string) : option Contact :=
  List.find (fun c => String.eqb (c_id c) contact_id) (bound r).

Definition reg_channel (r : ContactRegistry) (id : string) : option ChannelDoc :=
  List.find (fun d => String.eqb (doc_id d) (trim id)) (channels r).

(** A mutation through [channel_mut(id)]: nothing when the document is absent. *)
Definition on_channel (r : ContactRegistry) (id : string) (f : ChannelDoc -> ChannelDoc) : ContactRegistry :=
  with_channels (update_first (fun d => String.eqb (doc_id d) (trim id)) f (channels r)) r.

(** A mutation through [channel_or_new(id)]: of the document, created when absent. *)
Definition on_channel_or_new (r : ContactRegistry) (id : string) (f : ChannelDoc -> ChannelDoc)
    : ContactRegistry :=
  if is_some (reg_channel r id) then on_channel r id f
  else with_channels (channels r ++ [f (ChannelDoc_new (trim id) (trim id))])%list r.

Definition remove_channel (r : ContactRegistry) (id : string) : ContactRegistry * bool :=
  let ds := List.filter (fun d => negb (String.eqb (doc_id d) (trim id))) (channels r) in
  (with_channels ds r, negb (length ds =? length (channels r))%nat).

Definition reg_household_default (r : ContactRegistry) : option ChannelDoc :=
  List.find household_default (channels r).

Definition speak_channels (r : ContactRegistry) (contact_id : string) : list ChannelDoc :=
  List.filter (fun d => speaks d contact_id) (channels r).

Definition read_channels (r : ContactRegistry) (contact_id : string) : list ChannelDoc :=
  List.filter (fun d => reads d contact_id) (channels r).

Definition app_channels (r : ContactRegistry) (alias : string) : list ChannelDoc :=
  List.filter (fun d => is_some (doc_app d alias)) (channels r).

Definition alias_channel_for (r : ContactRegistry) (contact_id alias : string) : option ChannelDoc :=
  let mine := List.filter (fun d => is_some (doc_app d alias)) (speak_channels r contact_id) in
  or_else (List.find (fun d => negb (is_operator d)) mine) (head mine).

(** [v.sort_by_key(key)] by a boolean key: a stable sort, [false] first. *)
Definition sort_by_bool {A} (key : A -> bool) (l : list A) : list A :=
  (List.filter (fun x => negb (key x)) l ++ List.filter key l)%list.

Record ContactChannelView := {
  v_channel : string; v_name : string; v_speak : bool; v_read : bool; v_operator_of : option string }.

Definition contact_channels_view (r : ContactRegistry) (contact_id : string) : list ContactChannelView :=
  sort_by_bool (fun v => is_some (v_operator_of v))
    (omap (fun d => m ← doc_member d contact_id;
             Some {| v_channel := doc_id d; v_name := display_name d; v_speak := m_speak m;
                     v_read := m_read m; v_operator_of := operator_of d |}) (channels r)).

(** Map the documents, counting those that report a change. *)
Definition map_docs (f : ChannelDoc -> ChannelDoc * bool) (ds : list ChannelDoc) : list ChannelDoc * nat :=
  (map (fun d => (f d).1) ds, length (List.filter (fun d => (f d).2) ds)).

Definition grant_one (contact_id : string) (grants : list ChannelGrant) (d : ChannelDoc)
    : ChannelDoc * bool :=
  match List.find (fun g => String.eqb (trim (g_channel g)) (doc_id d)) grants with
  | Some g => set_member d contact_id (g_speak g) (g_read g)
  | None => remove_member d contact_id
  end.

Definition apply_grants (r : ContactRegistry) (contact_id : string) (grants : list ChannelGrant)
    : ContactRegistry * nat :=
  let '(ds, changed) := map_docs (grant_one contact_id grants) (channels r) in
  (with_channels ds r, changed).

Definition grants_of (r : ContactRegistry) (contact_id : string) : list ChannelGrant :=
  omap (fun d => m ← doc_member d contact_id;
          Some {| g_channel := doc_id d; g_speak := m_speak m; g_read := m_read m |}) (channels r).

Definition remove_contact_rows (r : ContactRegistry) (contact_id : string) : ContactRegistry * nat :=
  let '(ds, changed) := map_docs (fun d => remove_member d contact_id) (channels r) in
  (with_channels ds r, changed).

(** * Properties *)

(** ** Lists updated at the first match *)

Lemma update_first_map {A K} `{EqDecision K} (key : A -> K) (p : A -> bool) (k : K) f (l : list A) :
  (forall x, p x = bool_decide (key x = k)) -> NoDup (map key l) ->
  update_first p f l = map (fun x => if p x then f x else x) l.
Proof.
  intros Hp. induction l as [|x l IH]; cbn [map update_first]; [done|].
  intros [Hx Hl]%NoDup_cons. destruct (p x) eqn:E; [|by rewrite (IH Hl)]. f_equal.
  rewrite Hp in E. apply bool_decide_eq_true in E.
  rewrite <-(map_id l) at 1. apply map_ext_in. intros y Hy. rewrite Hp, bool_decide_eq_false_2; [done|].
  intros E'. apply Hx. rewrite E, <-E'. apply list_elem_of_In, in_map, Hy.
Qed.

Lemma eqb_decide (a b : string) : String.eqb a b = bool_decide (a = b).
Proof. destruct (String.eqb_spec a b); [by rewrite bool_decide_eq_true_2|by rewrite bool_decide_eq_false_2]. Qed.

Lemma find_filter {A} (p : A -> bool) (l : list A) : List.find p l = head (List.filter p l).
Proof. induction l as [|x l IH]; cbn; [done|]. by destruct (p x). Qed.

Lemma find_snoc {A} (p : A -> bool) (l : list A) (x : A) :
  List.find p (l ++ [x])%list
  = match List.find p l with Some y => Some y | None => if p x then Some x else None end.
Proof. induction l as [|y l IH]; cbn; [done|]. by destruct (p y). Qed.

Lemma filter_map_key {A K} (key : A -> K) (p : A -> bool) (l : list A) :
  NoDup (map key l) -> NoDup (map key (List.filter p l)).
Proof.
  induction l as [|x l IH]; cbn; [done|]. intros [Hx Hl]%NoDup_cons. destruct (p x); [|auto].
  cbn. apply NoDup_cons. split; [|auto]. intros H. apply Hx.
  apply list_elem_of_In, in_map_iff in H as (y & Hy & Hin). apply filter_In in Hin as [Hin _].
  apply list_elem_of_In, in_map_iff. eauto.
Qed.

(** ** Well-formed documents and registries *)

Definition norm_alias (a : string) : Prop := to_lowercase (trim a) = a.

Record wf_doc (d : ChannelDoc) : Prop := {
  wf_id : trim (doc_id d) = doc_id d;
  wf_members : NoDup (map m_contact (members d));
  wf_rows : Forall (fun m => m_speak m || m_read m = true) (members d);
  wf_aliases : NoDup (map app_alias (apps d));
  wf_normal : Forall (fun a => norm_alias (app_alias a)) (apps d);
  wf_default : match default_app d with
               | Some a => norm_alias a /\ is_some (doc_app d a) = true
               | None => True
               end }.

Record wf_registry (r : ContactRegistry) : Prop := {
  wf_docs : Forall wf_doc (channels r);
  wf_ids : NoDup (map doc_id (channels r)) }.

(** ** One member's row *)

Lemma doc_member_head d c :
  doc_member d c = head (List.filter (fun m => String.eqb (m_contact m) c) (members d)).
Proof. apply find_filter. Qed.

Lemma doc_member_in d c m : doc_member d c = Some m -> m ∈ members d /\ m_contact m = c.
Proof.
  intros H. apply find_some in H as [Hin Heq]. split; [by apply list_elem_of_In|].
  by apply String.eqb_eq.
Qed.

Lemma find_filter_other (p q : ChannelMember -> bool) (l : list ChannelMember) :
  (forall m, p m = true -> q m = true) -> List.find p (List.filter q l) = List.find p l.
Proof.
  intros H. induction l as [|m l IH]; cbn; [done|]. destruct (q m) eqn:E; cbn.
  - by destruct (p m).
  - destruct (p m) eqn:F; [|done]. rewrite (H _ F) in E. done.
Qed.

Lemma remove_member_row d c x :
  doc_member (remove_member d c).1 x = if bool_decide (x = c) then None else doc_member d x.
Proof.
  unfold remove_member, doc_member. cbn [fst members with_members]. case_bool_decide as E.
  - subst. induction (members d) as [|m l IH]; [done|]. cbn [List.filter].
    destruct (String.eqb (m_contact m) c) eqn:F; cbn; [done|]. by rewrite F.
  - apply find_filter_other. intros m Hm%String.eqb_eq. rewrite Hm.
    apply negb_true_iff, String.eqb_neq. done.
Qed.

Lemma find_update_first (x c : string) (row : ChannelMember) (l : list ChannelMember) :
  m_contact row = c -> List.find (fun m => String.eqb (m_contact m) c) l <> None ->
  List.find (fun m => String.eqb (m_contact m) x)
    (update_first (fun m => String.eqb (m_contact m) c) (fun _ => row) l)
  = if bool_decide (x = c) then Some row else List.find (fun m => String.eqb (m_contact m) x) l.
Proof.
  intros Hrow. induction l as [|m l IH]; cbn [List.find update_first]; [done|].
  destruct (String.eqb_spec (m_contact m) c) as [Hm|Hm]; intros Hc; cbn [List.find].
  - rewrite Hrow, Hm, (String.eqb_sym c x). rewrite eqb_decide. by case_bool_decide.
  - rewrite (IH Hc). destruct (String.eqb_spec (m_contact m) x) as [Hx|Hx]; [|done].
    rewrite bool_decide_eq_false_2; [done|]. congruence.
Qed.

Definition row_of (c : string) (speak read : bool) : option ChannelMember :=
  if speak || read then Some {| m_contact := c; m_speak := speak; m_read := read |} else None.

Lemma set_member_row d c speak read x :
  doc_member (set_member d c speak read).1 x
  = if bool_decide (x = c) then row_of c speak read else doc_member d x.
Proof.
  unfold set_member, row_of. destruct (negb speak && negb read) eqn:E.
  { rewrite remove_member_row. by destruct speak, read. }
  replace (speak || read) with true by (by destruct speak, read).
  destruct (List.find _ _) as [m|] eqn:F.
  - destruct (Bool.eqb (m_speak m) speak && Bool.eqb (m_read m) read) eqn:G; cbn [fst].
    + case_bool_decide as H; [subst x|done].
      apply andb_true_iff in G as [Hs%eqb_prop Hr%eqb_prop].
      apply doc_member_in in F as F'. unfold doc_member. rewrite F. destruct F' as [_ F'].
      destruct m; cbn in *. by subst.
    + unfold doc_member. cbn [members with_members]. by rewrite (find_update_first x c) by (done || congruence).
  - unfold doc_member. cbn [fst members with_members]. rewrite find_snoc. cbn [m_contact].
    case_bool_decide as H.
    + subst x. rewrite F, String.eqb_refl. done.
    + destruct (String.eqb_spec c x) as [->|_]; [done|]. by case_match.
Qed.

(** The rest of the document. *)
Definition same_frame (d d' : ChannelDoc) : Prop :=
  doc_id d' = doc_id d /\ apps d' = apps d /\ operator_of d' = operator_of d /\
  default_app d' = default_app d /\ doc_name d' = doc_name d /\ purpose d' = purpose d /\
  household_default d' = household_default d.

Lemma set_member_frame d c speak read : same_frame d (set_member d c speak read).1.
Proof.
  unfold set_member, remove_member. repeat case_match; cbn [fst]; by unfold same_frame, with_members.
Qed.

Lemma remove_member_frame d c : same_frame d (remove_member d c).1.
Proof. by unfold remove_member, same_frame, with_members. Qed.

Lemma filter_shorter {A} (p : A -> bool) (l : list A) :
  length (List.filter p l) = length l -> List.filter p l = l.
Proof.
  induction l as [|x l IH]; cbn; [done|]. destruct (p x); cbn; [intros; f_equal; apply IH; lia|].
  pose proof (List.filter_length_le p l). lia.
Qed.

(** A mutation says it changed the document exactly when it did. *)
Lemma remove_member_changed d c : (remove_member d c).2 = false <-> (remove_member d c).1 = d.
Proof.
  unfold remove_member. cbn [fst snd]. rewrite negb_false_iff, Nat.eqb_eq. split.
  - intros H%filter_shorter. rewrite H. by destruct d.
  - intros H. apply (f_equal members) in H. cbn in H. by rewrite H.
Qed.

Lemma update_first_same {A} (p : A -> bool) (f : A -> A) (l : list A) x :
  List.find p l = Some x -> update_first p f l = l -> f x = x.
Proof.
  induction l as [|y l IH]; cbn; [done|]. destruct (p y); naive_solver.
Qed.

Lemma set_member_changed d c speak read :
  (set_member d c speak read).2 = false <-> (set_member d c speak read).1 = d.
Proof.
  unfold set_member. destruct (negb speak && negb read); [apply remove_member_changed|].
  destruct (List.find _ _) as [m|] eqn:F.
  - destruct (_ && _) eqn:G; cbn [fst snd]; [done|]. split; [done|]. intros H.
    apply (f_equal members) in H. cbn in H. apply (update_first_same _ _ _ _ F) in H. cbn in H. subst m.
    cbn in G. by rewrite !eqb_reflx in G.
  - cbn [fst snd]. split; [done|]. intros H. apply (f_equal members) in H. cbn in H.
    apply (f_equal length) in H. rewrite length_app in H. cbn in H. lia.
Qed.

Lemma update_first_keys {A K} (key : A -> K) (p : A -> bool) (f : A -> A) (l : list A) :
  (forall x, p x = true -> key (f x) = key x) -> map key (update_first p f l) = map key l.
Proof.
  intros H. induction l as [|x l IH]; cbn; [done|]. destruct (p x) eqn:E; cbn; [by rewrite H|].
  by rewrite IH.
Qed.

Lemma update_first_forall {A} (P : A -> Prop) (p : A -> bool) (f : A -> A) (l : list A) :
  Forall P l -> (forall x, P x -> P (f x)) -> Forall P (update_first p f l).
Proof.
  intros Hl Hf. induction Hl as [|x l Hx Hl IH]; cbn; [done|].
  destruct (p x); constructor; auto.
Qed.

Lemma filter_forall {A} (P : A -> Prop) (p : A -> bool) (l : list A) :
  Forall P l -> Forall P (List.filter p l).
Proof. induction 1; cbn; [done|]. destruct (p x); auto. Qed.

Lemma remove_member_wf d c : wf_doc d -> wf_doc (remove_member d c).1.
Proof.
  intros [? ? ? ? ? ?]. split; cbn; auto using filter_map_key, filter_forall.
Qed.

Lemma set_member_wf d c speak read : wf_doc d -> wf_doc (set_member d c speak read).1.
Proof.
  intros W. unfold set_member. destruct (negb speak && negb read) eqn:E; [by apply remove_member_wf|].
  assert (speak || read = true) as Hr by (by destruct speak, read).
  destruct W as [? Hm Hrows ? ? ?]. destruct (List.find _ _) as [m|] eqn:F.
  - destruct (Bool.eqb _ _ && _); [by split|]. split; cbn [doc_id members apps with_members fst]; auto.
    + rewrite update_first_keys; [done|]. intros x Hx%String.eqb_eq. by rewrite Hx.
    + by apply update_first_forall.
  - split; cbn [doc_id members apps with_members fst]; auto.
    + rewrite map_app. apply NoDup_app. split_and!; [done| |apply NoDup_singleton].
      intros x Hx Hc%list_elem_of_singleton. cbn in Hc. subst x.
      apply list_elem_of_In, in_map_iff in Hx as (m & Hc & Hin).
      apply (find_none _ _ F) in Hin. by rewrite Hc, String.eqb_refl in Hin.
    + apply Forall_app. auto.
Qed.

(** ** Memberships replaced and resent *)

Lemma map_docs_forall2 (P : ChannelDoc -> ChannelDoc -> Prop) f ds :
  (forall d, d ∈ ds -> P d (f d).1) -> Forall2 P ds (map_docs f ds).1.
Proof.
  cbn [map_docs fst]. induction ds as [|d ds IH]; intros H; cbn [map]; constructor.
  - apply H. left.
  - apply IH. intros x Hx. apply H. by right.
Qed.

Lemma map_docs_registry f ds :
  (forall d, wf_doc d -> wf_doc (f d).1) -> (forall d, doc_id (f d).1 = doc_id d) ->
  Forall wf_doc ds -> NoDup (map doc_id ds) ->
  Forall wf_doc (map_docs f ds).1 /\ NoDup (map doc_id (map_docs f ds).1).
Proof.
  intros Hf Hid Hds Hn. cbn [map_docs fst]. split.
  - apply Forall_map. eapply Forall_impl; [exact Hds|]. auto.
  - rewrite map_map. rewrite (map_ext _ doc_id); auto.
Qed.

(** The row the grants ask for on a document. *)
Definition granted_row (c : string) (gs : list ChannelGrant) (d : ChannelDoc) : option ChannelMember :=
  g ← List.find (fun g => String.eqb (trim (g_channel g)) (doc_id d)) gs;
  row_of c (g_speak g) (g_read g).

Lemma grant_one_row c gs d x :
  doc_member (grant_one c gs d).1 x = if bool_decide (x = c) then granted_row c gs d else doc_member d x.
Proof.
  unfold grant_one, granted_row. destruct (List.find _ gs); cbn [mbind option_bind];
    [apply set_member_row | apply remove_member_row].
Qed.

Lemma grant_one_frame c gs d : same_frame d (grant_one c gs d).1.
Proof. unfold grant_one. case_match; auto using set_member_frame, remove_member_frame. Qed.

Lemma grant_one_wf c gs d : wf_doc d -> wf_doc (grant_one c gs d).1.
Proof. unfold grant_one. case_match; auto using set_member_wf, remove_member_wf. Qed.

Lemma grant_one_changed c gs d : (grant_one c gs d).2 = false <-> (grant_one c gs d).1 = d.
Proof. unfold grant_one. case_match; auto using set_member_changed, remove_member_changed. Qed.

Lemma set_member_same d c m :
  doc_member d c = Some m -> m_speak m || m_read m = true ->
  set_member d c (m_speak m) (m_read m) = (d, false).
Proof.
  intros H Hm. unfold set_member. replace (negb (m_speak m) && negb (m_read m)) with false
    by (by destruct (m_speak m), (m_read m)).
  unfold doc_member in H. rewrite H, !eqb_reflx. done.
Qed.

Lemma remove_member_absent d c : doc_member d c = None -> remove_member d c = (d, false).
Proof.
  intros H. assert (List.filter (fun m => negb (String.eqb (m_contact m) c)) (members d) = members d) as E.
  { unfold doc_member in H. induction (members d) as [|m l IH]; [done|]. cbn in *.
    destruct (String.eqb (m_contact m) c); [done|]. cbn. by rewrite IH. }
  unfold remove_member. rewrite E, Nat.eqb_refl. destruct d; done.
Qed.

(** What a contact's grants say of a document of the registry. *)
Lemma grants_of_find r c d :
  wf_registry r -> d ∈ channels r ->
  List.find (fun g => String.eqb (trim (g_channel g)) (doc_id d)) (grants_of r c)
  = m ← doc_member d c; Some {| g_channel := doc_id d; g_speak := m_speak m; g_read := m_read m |}.
Proof.
  intros [Hds Hids] Hd. unfold grants_of. induction (channels r) as [|e ds IH]; [by apply not_elem_of_nil in Hd|].
  apply Forall_cons in Hds as [He Hds]. cbn [map] in Hids. apply NoDup_cons in Hids as [Hne Hids].
  assert (forall ds', doc_id d ∉ map doc_id ds' -> Forall wf_doc ds' ->
     List.find (fun g => String.eqb (trim (g_channel g)) (doc_id d))
       (omap (fun d => m ← doc_member d c;
          Some {| g_channel := doc_id d; g_speak := m_speak m; g_read := m_read m |}) ds') = None) as Habs.
  { clear. induction ds' as [|e ds IH]; [done|]. cbn [map]. intros [Hne Hd]%not_elem_of_cons.
    intros [We Wds]%Forall_cons. cbn [omap list_omap]. destruct (doc_member e c); cbn [mbind option_bind]; [|auto].
    cbn [List.find g_channel]. rewrite (wf_id _ We), (proj2 (String.eqb_neq _ _)) by congruence. auto. }
  cbn [omap list_omap]. apply elem_of_cons in Hd as [->|Hd].
  - destruct (doc_member e c) as [m|]; cbn [mbind option_bind]; [|by apply Habs].
    cbn [List.find g_channel]. by rewrite (wf_id _ He), String.eqb_refl.
  - assert (doc_id e <> doc_id d) as Hed.
    { intros E. apply Hne. rewrite E. by apply list_elem_of_In, in_map, list_elem_of_In. }
    destruct (doc_member e c); cbn [mbind option_bind]; [|by apply IH].
    cbn [List.find g_channel]. rewrite (wf_id _ He), (proj2 (String.eqb_neq _ _)) by done. by apply IH.
Qed.

Lemma grant_resent r c d :
  wf_registry r -> d ∈ channels r -> grant_one c (grants_of r c) d = (d, false).
Proof.
  intros W Hd. unfold grant_one. rewrite grants_of_find by done.
  destruct (doc_member d c) as [m|] eqn:E; cbn [mbind option_bind].
  - apply set_member_same; [done|]. apply doc_member_in in E as [Hm _].
    destruct W as [Hds _]. rewrite Forall_forall in Hds. destruct (Hds _ Hd) as [_ _ Hr _ _ _].
    rewrite Forall_forall in Hr. auto.
  - by apply remove_member_absent.
Qed.

Lemma map_docs_none f ds :
  (forall d, d ∈ ds -> f d = (d, false)) -> map_docs f ds = (ds, 0%nat).
Proof.
  intros H. unfold map_docs. assert (map (fun d => (f d).1) ds = ds /\ List.filter (fun d => (f d).2) ds = [])
    as [-> ->]; [|done].
  induction ds as [|d ds IH]; [done|]. cbn. rewrite (H d) by left. cbn [fst snd].
  destruct IH as [-> ->]; [|done]. intros x Hx. apply H. by right.
Qed.

(** Replacing a member's rows leaves on every document exactly the row the first grant
    naming it asks for, nothing when none does, and touches neither another member's row nor
    anything else of a document; it reports how many documents changed, keeps the registry
    well formed, and sending a member's own grants again changes nothing. *)
Theorem apply_grants_exact r c gs (W : wf_registry r) :
  let '(r', n) := apply_grants r c gs in
  wf_registry r' /\ bound r' = bound r /\ pending r' = pending r /\ invites r' = invites r /\
  Forall2 (fun d d' =>
    same_frame d d' /\
    forall x, doc_member d' x = if bool_decide (x = c) then granted_row c gs d else doc_member d x)
    (channels r) (channels r') /\
  n = length (List.filter (fun d => negb (bool_decide ((grant_one c gs d).1 = d))) (channels r)) /\
  apply_grants r c (grants_of r c) = (r, 0%nat).
Proof.
  unfold apply_grants. destruct (map_docs (grant_one c gs) (channels r)) as [ds n] eqn:E.
  apply (f_equal fst) in E as Ed. apply (f_equal snd) in E as En. cbn [fst snd map_docs] in Ed, En.
  destruct W as [Wd Wi]. split_and!; try done.
  - destruct (map_docs_registry (grant_one c gs) (channels r)) as [H1 H2]; auto.
    { intros d. apply grant_one_wf. } { intros d. apply grant_one_frame. }
    rewrite E in H1, H2. by split.
  - pose proof (map_docs_forall2 (fun d d' => same_frame d d' /\
      forall x, doc_member d' x = if bool_decide (x = c) then granted_row c gs d else doc_member d x)
      (grant_one c gs) (channels r)) as H. rewrite E in H. apply H. intros d _.
    split; [apply grant_one_frame | apply grant_one_row].
  - subst n. f_equal. apply filter_ext_in. intros d _.
    pose proof (grant_one_changed c gs d) as H. destruct (grant_one c gs d) as [d' []]; cbn [fst snd] in *;
      case_bool_decide; naive_solver.
  - rewrite map_docs_none; [by destruct r|]. intros d Hd. by apply grant_resent.
Qed.

(** ** Aliases, bound apps and the default *)

Lemma norm_alias_trim a : norm_alias a -> trim a = a.
Proof. unfold norm_alias. intros H. rewrite <-H at 1. by rewrite trim_lower, trim_idem. Qed.

Lemma norm_alias_lower a : norm_alias a -> to_lowercase a = a.
Proof. unfold norm_alias. intros H. rewrite <-H at 1. by rewrite lower_idem. Qed.

Lemma norm_alias_of s : norm_alias (to_lowercase (trim s)).
Proof. unfold norm_alias. by rewrite trim_lower, trim_idem, lower_idem. Qed.

Lemma eq_lower_norm a s : norm_alias a -> eq_lower a (trim s) = String.eqb a (to_lowercase (trim s)).
Proof. intros H. unfold eq_lower. by rewrite (norm_alias_lower _ H). Qed.

Lemma find_ext_in {A} (p q : A -> bool) (l : list A) :
  (forall x, x ∈ l -> p x = q x) -> List.find p l = List.find q l.
Proof.
  induction l as [|x l IH]; intros H; [done|]. cbn. rewrite (H x) by left.
  rewrite IH; [done|]. intros y Hy. apply H. by right.
Qed.

Lemma doc_app_norm d s :
  Forall (fun a => norm_alias (app_alias a)) (apps d) ->
  doc_app d s = List.find (fun a => String.eqb (app_alias a) (to_lowercase (trim s))) (apps d).
Proof.
  intros H. apply find_ext_in. intros a Ha. rewrite Forall_forall in H. by rewrite eq_lower_norm by auto.
Qed.

Lemma doc_app_row d s row :
  doc_app d s = Some row -> row ∈ apps d /\ eq_lower (app_alias row) (trim s) = true.
Proof. intros H. apply find_some in H as [Hin H]. split; [by apply list_elem_of_In|done]. Qed.

(** A normalised alias is in the list of rows of the app exactly when the app is found. *)
Lemma find_alias_iff a (xs : list ChannelApp) :
  (is_some (List.find (fun x => String.eqb (app_alias x) a) xs) = true) <-> a ∈ map app_alias xs.
Proof.
  rewrite is_some_true. split.
  - intros (x & H). apply find_some in H as [Hin H%String.eqb_eq].
    apply list_elem_of_In, in_map_iff. eauto.
  - intros H. apply list_elem_of_In, in_map_iff in H as (x & Hx & Hin).
    destruct (List.find _ xs) as [y|] eqn:E; [eauto|].
    apply (find_none _ _ E) in Hin. by rewrite Hx, String.eqb_refl in Hin.
Qed.

Lemma doc_app_iff d s :
  Forall (fun a => norm_alias (app_alias a)) (apps d) ->
  (is_some (doc_app d s) = true) <-> to_lowercase (trim s) ∈ map app_alias (apps d).
Proof. intros H. rewrite doc_app_norm by done. apply find_alias_iff. Qed.

Lemma put_app_aliases row xs :
  app_alias row ∈ map app_alias xs /\ map app_alias (put_app row xs).1 = map app_alias xs \/
  app_alias row ∉ map app_alias xs /\ (put_app row xs).1 = (xs ++ [row])%list.
Proof.
  unfold put_app. destruct (List.find _ xs) as [x|] eqn:E.
  - left. split; [apply find_alias_iff; by rewrite E|]. case_bool_decide; cbn [fst]; [done|].
    apply update_first_keys. intros y Hy%String.eqb_eq. done.
  - right. split; [|done]. intros H%find_alias_iff. by rewrite E in H.
Qed.

Lemma upsert_app_apps d app :
  let row := {| app_alias := to_lowercase (trim (app_alias app)); app_slot := app_slot app;
                app_description := app_description app; app_takes := app_takes app;
                app_audience := app_audience app |} in
  apps (upsert_app d app).1 = (put_app row (apps d)).1 /\
  doc_id (upsert_app d app).1 = doc_id d /\ members (upsert_app d app).1 = members d /\
  operator_of (upsert_app d app).1 = operator_of d /\
  household_default (upsert_app d app).1 = household_default d /\
  default_app (upsert_app d app).1
  = (if negb (is_some (default_app d)) && (length (put_app row (apps d)).1 =? 1)%nat
     then Some (app_alias row) else default_app d).
Proof. unfold upsert_app. destruct (put_app _ _) as [xs ch]. cbn [fst]. by case_match. Qed.

Lemma put_app_forall P row xs : P row -> Forall P xs -> Forall P (put_app row xs).1.
Proof.
  intros Hr Hx. unfold put_app. repeat case_match; cbn [fst]; auto using update_first_forall.
  apply Forall_app. auto.
Qed.

Lemma put_app_has row xs : app_alias row ∈ map app_alias (put_app row xs).1.
Proof.
  destruct (put_app_aliases row xs) as [[H ->]|[_ ->]]; [done|].
  rewrite map_app, elem_of_app. right. left.
Qed.

Lemma put_app_keeps row xs a : a ∈ map app_alias xs -> a ∈ map app_alias (put_app row xs).1.
Proof.
  destruct (put_app_aliases row xs) as [[_ ->]|[_ ->]]; [done|]. rewrite map_app, elem_of_app. auto.
Qed.

Lemma upsert_app_wf d app : wf_doc d -> wf_doc (upsert_app d app).1.
Proof.
  intros [Hi Hm Hr Ha Hn Hd]. destruct (upsert_app_apps d app) as (Ea & Ei & Em & _ & _ & Ed).
  set (row := {| app_alias := to_lowercase (trim (app_alias app)); app_slot := _; app_description := _;
                 app_takes := _; app_audience := _ |}) in *.
  assert (norm_alias (app_alias row)) as Hrow by apply norm_alias_of.
  assert (Forall (fun a => norm_alias (app_alias a)) (put_app row (apps d)).1) as Hn'
    by (apply put_app_forall; done).
  split; rewrite ?Ei, ?Em, ?Ea; auto.
  - destruct (put_app_aliases row (apps d)) as [[_ ->]|[H ->]]; [done|].
    rewrite map_app. apply NoDup_app. split_and!; [done| |apply NoDup_singleton].
    intros x Hx ->%list_elem_of_singleton. done.
  - rewrite Ed. assert (forall a, norm_alias a -> a ∈ map app_alias (put_app row (apps d)).1 ->
      norm_alias a /\ is_some (doc_app (upsert_app d app).1 a) = true) as Hb.
    { intros a Hna Hin. split; [done|]. apply doc_app_iff; rewrite Ea; [done|]. by rewrite Hna. }
    destruct (default_app d) as [a|]; cbn [is_some negb andb].
    + apply Hb; [apply Hd|]. apply put_app_keeps. destruct Hd as [Hna Hd].
      apply doc_app_iff in Hd; [|done]. by rewrite Hna in Hd.
    + destruct (length _ =? 1)%nat; [|done]. apply Hb; [done|]. apply put_app_has.
Qed.

Lemma remove_app_wf d alias : wf_doc d -> wf_doc (remove_app d alias).1.
Proof.
  intros [Hi Hm Hr Ha Hn Hd].
  assert (Forall (fun a => norm_alias (app_alias a)) (apps (remove_app d alias).1)) as Hn'.
  { unfold remove_app. cbn [fst apps with_apps]. by apply filter_forall. }
  split; try done.
  - unfold remove_app. cbn [fst apps with_apps]. by apply filter_map_key.
  - unfold remove_app at 1. cbn [fst default_app with_apps]. destruct (default_app d) as [a|]; [|done].
    destruct (eq_lower a (trim alias)) eqn:E; [done|]. destruct Hd as [Hna Hd]. split; [done|].
    apply doc_app_iff; [done|]. apply doc_app_iff in Hd; [|done]. rewrite Hna in *.
    unfold remove_app. cbn [fst apps with_apps]. apply list_elem_of_In, in_map_iff in Hd as (x & Hx & Hin).
    apply list_elem_of_In, in_map_iff. exists x. split; [done|]. apply filter_In. split; [done|].
    by rewrite Hx, E.
Qed.

(** ** Documents mutated by id *)

Lemma reg_channel_in r id d : reg_channel r id = Some d -> d ∈ channels r /\ doc_id d = trim id.
Proof.
  intros H. apply find_some in H as [Hin H%String.eqb_eq]. split; [by apply list_elem_of_In|done].
Qed.

Lemma resolve_in r transport tid c :
  resolve r transport tid = Some c ->
  c ∈ bound r /\ c_transport c = transport /\ c_transport_id c = tid.
Proof.
  intros H. apply find_some in H as [Hin H]. reflect_bools. split; [by apply list_elem_of_In|done].
Qed.


(** A contact speaks on, and an app is bound to, the document of an id. *)
Definition speaks_at (r : ContactRegistry) (id c : string) : Prop :=
  exists d, d ∈ channels r /\ doc_id d = id /\ speaks d c = true.
Definition binds_at (r : ContactRegistry) (id a : string) : Prop :=
  exists d, d ∈ channels r /\ doc_id d = id /\ is_some (doc_app d a) = true.

Lemma elem_of_map {A B} (f : A -> B) (l : list A) y : y ∈ map f l <-> exists x, x ∈ l /\ y = f x.
Proof.
  rewrite list_elem_of_In, in_map_iff. split; intros (x & H1 & H2); exists x;
    [rewrite list_elem_of_In | rewrite list_elem_of_In in H1]; done.
Qed.

Lemma on_channel_map r id f :
  wf_registry r ->
  channels (on_channel r id f)
  = map (fun d => if String.eqb (doc_id d) (trim id) then f d else d) (channels r).
Proof.
  intros [_ Hids]. unfold on_channel. cbn [channels with_channels].
  apply (update_first_map doc_id _ (trim id)); [|done]. intros x. apply eqb_decide.
Qed.

Lemma on_channel_wf r id f :
  (forall d, d ∈ channels r -> wf_doc d -> wf_doc (f d)) -> (forall d, doc_id (f d) = doc_id d) ->
  wf_registry r -> wf_registry (on_channel r id f).
Proof.
  intros Hf Hid W. split; rewrite on_channel_map by done.
  - destruct W as [W _]. apply Forall_map, Forall_forall. intros d Hd. rewrite Forall_forall in W.
    case_match; auto.
  - rewrite map_map, (map_ext _ doc_id); [apply W|]. intros d. by case_match.
Qed.

Lemma reg_channel_absent r id : is_some (reg_channel r id) = false -> trim id ∉ map doc_id (channels r).
Proof.
  intros H (d & Hd & E)%elem_of_map. unfold reg_channel in H.
  destruct (List.find _ _) eqn:F; [done|]. apply list_elem_of_In in Hd. apply (find_none _ _ F) in Hd.
  by rewrite <-E, String.eqb_refl in Hd.
Qed.

Lemma ChannelDoc_new_wf id name : wf_doc (ChannelDoc_new id name).
Proof. split; cbn; try constructor. apply trim_idem. Qed.

Lemma on_channel_or_new_wf r id f :
  (forall d, wf_doc d -> wf_doc (f d)) -> (forall d, doc_id (f d) = doc_id d) ->
  wf_registry r -> wf_registry (on_channel_or_new r id f).
Proof.
  intros Hf Hid W. unfold on_channel_or_new. destruct (is_some _) eqn:E; [apply on_channel_wf; auto|].
  apply reg_channel_absent in E. destruct W as [W Hids]. split; cbn [channels with_channels].
  - apply Forall_app. split; [done|]. constructor; [|done]. apply Hf, ChannelDoc_new_wf.
  - rewrite map_app. apply NoDup_app. split_and!; [done| |apply NoDup_singleton].
    intros x Hx ->%list_elem_of_singleton. rewrite Hid in Hx. cbn in Hx. by rewrite trim_idem in Hx.
Qed.

(** The documents after a mutation by id, created or not. *)
Lemma on_channel_or_new_elem r id f d' :
  wf_registry r ->
  d' ∈ channels (on_channel_or_new r id f) <->
  (exists d, d ∈ channels r /\ d' = if String.eqb (doc_id d) (trim id) then f d else d) \/
  trim id ∉ map doc_id (channels r) /\ d' = f (ChannelDoc_new (trim id) (trim id)).
Proof.
  intros W. unfold on_channel_or_new. destruct (is_some _) eqn:E.
  - rewrite on_channel_map, elem_of_map by done. split; [by left|]. intros [H|[H _]]; [done|].
    exfalso. apply H. apply is_some_true in E as [d E]. apply reg_channel_in in E as [Hd <-].
    apply elem_of_map. eauto.
  - apply reg_channel_absent in E. cbn [channels with_channels].
    rewrite elem_of_app, list_elem_of_singleton. split.
    + intros [H| ->]; [left|by right]. exists d'. split; [done|]. destruct (String.eqb_spec (doc_id d') (trim id)) as [F|];
        [|done]. exfalso. apply E. rewrite <-F. apply elem_of_map. eauto.
    + intros [(d & Hd & ->)|[_ ->]]; [left|by right]. destruct (String.eqb_spec (doc_id d) (trim id)) as [F|];
        [|done]. exfalso. apply E. rewrite <-F. apply elem_of_map. eauto.
Qed.

(** ** A household *)
Module ToyHome.
Definition chef : ChannelApp :=
  {| app_alias := "chef"; app_slot := "kitchen"; app_description := "meals"; app_takes := [Text; Image];
     app_audience := [] |}.
Definition stats : ChannelApp :=
  {| app_alias := "stats"; app_slot := ""; app_description := ""; app_takes := []; app_audience := [] |}.
Definition member (c : string) (s r : bool) : ChannelMember := {| m_contact := c; m_speak := s; m_read := r |}.
Definition general : ChannelDoc :=
  {| doc_id := "general"; doc_name := "Family"; purpose := "daily life"; operator_of := None;
     household_default := true; members := [member "mom" true true; member "kid" false true];
     apps := [chef]; default_app := Some "chef"; updated_at := 1 |}.
Definition opchat : ChannelDoc :=
  {| doc_id := "opchat-chef"; doc_name := ""; purpose := ""; operator_of := Some "chef";
     household_default := false; members := [member "mom" true true]; apps := [chef; stats];
     default_app := None; updated_at := 1 |}.
Definition mom : Contact :=
  {| c_id := "mom"; c_transport := "weixin"; c_transport_id := "wx-mom"; c_display := "Mom"; c_tier := Owner;
     c_legacy_reach := []; c_welcomed := true |}.
Definition kid : Contact :=
  {| c_id := "kid"; c_transport := "weixin"; c_transport_id := "wx-kid"; c_display := "Kid"; c_tier := Kid;
     c_legacy_reach := ["chef"]; c_welcomed := false |}.
Definition home : ContactRegistry :=
  {| bound := [mom; kid]; pending := []; invites := []; legacy_apps := []; channels := [general; opchat];
     router := None |}.
Definition old_home : ContactRegistry :=
  {| bound := [mom; kid]; pending := []; invites := [];
     legacy_apps := [{| f_alias := "Chef"; f_channel := "kitchen-feed"; f_blurb := None |}];
     channels := []; router := None |}.
Lemma doc_wf d :
  bool_decide (trim (doc_id d) = doc_id d) && bool_decide (NoDup (map m_contact (members d)))
  && forallb (fun m => m_speak m || m_read m) (members d) && bool_decide (NoDup (map app_alias (apps d)))
  && forallb (fun a => String.eqb (to_lowercase (trim (app_alias a))) (app_alias a)) (apps d)
  && match default_app d with
     | Some a => String.eqb (to_lowercase (trim a)) a && is_some (doc_app d a)
     | None => true
     end = true -> wf_doc d.
Proof.
  intros H. reflect_bools. split; try done.
  - by apply Forall_forall, forallb_elem.
  - apply Forall_forall. intros a Ha. match goal with H : forallb (fun a => String.eqb _ _) _ = true |- _ =>
      rewrite forallb_elem in H; by apply String.eqb_eq, H end.
  - destruct (default_app d); [|done]. reflect_bools. done.
Qed.

Lemma home_wf : wf_registry home.
Proof.
  split; [|by apply (bool_decide_unpack _)].
  repeat apply List.Forall_cons; try apply List.Forall_nil; by apply doc_wf.
Qed.

Lemma old_home_wf : wf_registry old_home.
Proof. split; constructor. Qed.
End ToyHome.

Lemma apply_grants_exact_witness :
  let gs := [{| g_channel := " general"; g_speak := true; g_read := false |}] in
  (apply_grants ToyHome.home "kid" gs).2 = 1%nat /\
  speaks_at (apply_grants ToyHome.home "kid" gs).1 "general" "kid" /\
  wf_registry (apply_grants ToyHome.home "kid" gs).1.
Proof.
  cbv zeta. split_and!; [reflexivity| |].
  - eexists. split; [left|]. split; reflexivity.
  - apply (apply_grants_exact ToyHome.home "kid" [{| g_channel := " general"; g_speak := true; g_read := false |}]
             ToyHome.home_wf).
Defined.
