(* ===== verification/ChannelFold.v ===== *)
(** * The registry written before channel documents

    [ContactRegistry::migrate_legacy] of [crates/agentkeys-protocol/src/lib.rs]: the
    table of apps, the reach written on contacts and the reach written on invites, folded
    into channel documents when a registry is loaded. *)
From stdpp Require Import gmap.
From S2P Require Import Prelude RustStr StrFacts SessionScope Channels.

Open Scope string_scope.
Open Scope Z_scope.

(** ** The fold of the rows written before channel documents *)

(** [v.sort(); v.dedup()] *)
Definition str_le (a b : string) : Prop := String.leb a b = true.
#[export] Instance str_le_dec a b : Decision (str_le a b).
Proof. unfold str_le. apply _. Defined.

Fixpoint dedup (l : list string) : list string :=
  match l with
  | x :: ((y :: _) as l') => if String.eqb x y then dedup l' else x :: dedup l'
  | _ => l
  end.

Definition channels_of_aliases (r : ContactRegistry) (aliases : list string) : list string :=
  dedup (merge_sort str_le (concat (map (fun a => map doc_id (app_channels r a)) aliases))).

Definition blurb_or_default (b : option AppBlurb) : AppBlurb :=
  default {| b_name := ""; b_name_zh := ""; b_purpose := ""; b_purpose_zh := "";
             b_examples := []; b_event_kinds := [] |} b.

(** One row of the old table, onto its channel's document. *)
Definition fold_feed (now : Z) (r : ContactRegistry) (feed : AppFeed) : ContactRegistry :=
  let blurb := blurb_or_default (f_blurb feed) in
  let purpose_line :=
    if String.eqb (trim (b_purpose_zh blurb)) "" then trim (b_purpose blurb)
    else trim (b_purpose_zh blurb) in
  on_channel_or_new r (f_channel feed) (fun doc =>
    let doc := if String.eqb (trim (purpose doc)) "" then with_purpose purpose_line doc else doc in
    stamped now (upsert_app doc {| app_alias := to_lowercase (trim (f_alias feed)); app_slot := "";
                                   app_description := purpose_line; app_takes := b_event_kinds blurb;
                                   app_audience := [] |}).1).

Definition join_one (now : Z) (contact_id : string) (r : ContactRegistry) (id : string) : ContactRegistry :=
  on_channel r id (fun doc =>
    let '(doc', changed) := set_member doc contact_id true true in
    if changed then stamped now doc' else doc').

Definition join_reach (now : Z) (r : ContactRegistry) (cr : string * list string) : ContactRegistry :=
  fold_left (join_one now cr.1) (channels_of_aliases r cr.2) r.

Definition clear_reach (c : Contact) : Contact :=
  {| c_id := c_id c; c_transport := c_transport c; c_transport_id := c_transport_id c;
     c_display := c_display c; c_tier := c_tier c; c_legacy_reach := []; c_welcomed := c_welcomed c |}.

Definition clear_invite_reach (i : BindInvite) : BindInvite :=
  {| i_code := i_code i; i_contact := i_contact i; i_display := i_display i; i_tier := i_tier i;
     i_channels := i_channels i; i_legacy_reach := [] |}.

Definition set_invite_channels (gs : list ChannelGrant) (i : BindInvite) : BindInvite :=
  {| i_code := i_code i; i_contact := i_contact i; i_display := i_display i; i_tier := i_tier i;
     i_channels := gs; i_legacy_reach := i_legacy_reach i |}.

Definition invite_reach (r : ContactRegistry) (ir : string * list string) : ContactRegistry :=
  let grants := map (fun id => {| g_channel := id; g_speak := true; g_read := true |})
                    (channels_of_aliases r ir.2) in
  with_invites (update_first (fun i => String.eqb (i_code i) ir.1) (set_invite_channels grants)
                             (invites r)) r.

Definition contact_reaches (r : ContactRegistry) : list (string * list string) :=
  map (fun c => (c_id c, c_legacy_reach c))
      (List.filter (fun c => negb (is_nil (c_legacy_reach c))) (bound r)).

Definition invite_reaches (r : ContactRegistry) : list (string * list string) :=
  map (fun i => (i_code i, i_legacy_reach i))
      (List.filter (fun i => negb (is_nil (i_legacy_reach i))) (invites r)).

(** The apps, then the contacts, then the invites. *)
Definition fold_apps (now : Z) (r : ContactRegistry) : ContactRegistry :=
  fold_left (fold_feed now) (legacy_apps r)
    {| bound := bound r; pending := pending r; invites := invites r; legacy_apps := [];
       channels := channels r; router := router r |}.

Definition fold_contacts (now : Z) (r : ContactRegistry) : ContactRegistry :=
  fold_left (join_reach now) (contact_reaches r) (with_bound (map clear_reach (bound r)) r).

Definition fold_invites (r : ContactRegistry) : ContactRegistry :=
  fold_left invite_reach (invite_reaches r) (with_invites (map clear_invite_reach (invites r)) r).

Definition mark_default (now : Z) (r : ContactRegistry) : ContactRegistry * bool :=
  if is_some (reg_household_default r) then (r, false)
  else
    let p d := negb (is_operator d) in
    (with_channels (update_first p (fun d => stamped now (with_household true d)) (channels r)) r,
     is_some (List.find p (channels r))).

Definition migrate_legacy (now : Z) (r : ContactRegistry) : ContactRegistry * bool :=
  let '(r', marked) := mark_default now (fold_invites (fold_contacts now (fold_apps now r))) in
  (r', negb (is_nil (legacy_apps r)) || negb (is_nil (contact_reaches r))
       || negb (is_nil (invite_reaches r)) || marked).

(** * Properties *)

Definition fold_feed_doc (now : Z) (feed : AppFeed) (doc : ChannelDoc) : ChannelDoc :=
  let blurb := blurb_or_default (f_blurb feed) in
  let purpose_line :=
    if String.eqb (trim (b_purpose_zh blurb)) "" then trim (b_purpose blurb)
    else trim (b_purpose_zh blurb) in
  let doc := if String.eqb (trim (purpose doc)) "" then with_purpose purpose_line doc else doc in
  stamped now (upsert_app doc {| app_alias := to_lowercase (trim (f_alias feed)); app_slot := "";
                                 app_description := purpose_line; app_takes := b_event_kinds blurb;
                                 app_audience := [] |}).1.

Lemma fold_feed_eq now r feed : fold_feed now r feed = on_channel_or_new r (f_channel feed) (fold_feed_doc now feed).
Proof. done. Qed.

Lemma stamped_wf now d : wf_doc d -> wf_doc (stamped now d).
Proof. by intros []. Qed.

Lemma with_purpose_wf p d : wf_doc d -> wf_doc (with_purpose p d).
Proof. by intros []. Qed.

Lemma fold_feed_doc_facts now feed d :
  doc_id (fold_feed_doc now feed d) = doc_id d /\ members (fold_feed_doc now feed d) = members d /\
  (wf_doc d -> wf_doc (fold_feed_doc now feed d) /\ forall a,
    a ∈ map app_alias (apps (fold_feed_doc now feed d))
    <-> a ∈ map app_alias (apps d) \/ a = to_lowercase (trim (f_alias feed))).
Proof.
  unfold fold_feed_doc. cbv zeta. set (b := if String.eqb (trim (b_purpose_zh _)) "" then _ else _).
  set (d0 := if String.eqb (trim (purpose d)) "" then with_purpose b d else d).
  assert (doc_id d0 = doc_id d /\ members d0 = members d /\ apps d0 = apps d /\ (wf_doc d -> wf_doc d0))
    as (Ei & Em & Ea & W).
  { unfold d0. case_match; split_and!; try done. apply with_purpose_wf. }
  set (app := {| app_alias := to_lowercase (trim (f_alias feed)); app_slot := _; app_description := _;
                 app_takes := _; app_audience := _ |}).
  destruct (upsert_app_apps d0 app) as (Ua & Ui & Um & _). cbn [stamped doc_id members apps].
  rewrite Ui, Um, Ei, Em. split_and!; try done. intros Wd. specialize (W Wd).
  split; [apply stamped_wf, upsert_app_wf, W|]. intros a. rewrite Ua, <-Ea.
  cbn [app_alias app]. rewrite (norm_alias_trim _ (norm_alias_of (f_alias feed))), lower_idem.
  set (row := {| app_alias := _; app_slot := _; app_description := _; app_takes := _; app_audience := _ |}).
  destruct (put_app_aliases row (apps d0)) as [[H ->]|[H ->]].
  - split; [by left|]. intros [?| ->]; done.
  - rewrite map_app, elem_of_app. change (map app_alias [row]) with [app_alias row].
    by rewrite list_elem_of_singleton.
Qed.

Definition feed_names (feed : AppFeed) (id a : string) : Prop :=
  trim (f_channel feed) = id /\ to_lowercase (trim (f_alias feed)) = to_lowercase (trim a).

Lemma binds_at_iff r id a :
  wf_registry r ->
  binds_at r id a <-> exists d, d ∈ channels r /\ doc_id d = id /\ to_lowercase (trim a) ∈ map app_alias (apps d).
Proof.
  intros [W _]. rewrite Forall_forall in W. unfold binds_at.
  split; intros (d & Hd & Hi & Ha); exists d; (split_and!; [done..|]);
    apply (doc_app_iff d a); try done; apply W; done.
Qed.

Lemma fold_feed_step now feed r :
  wf_registry r ->
  wf_registry (fold_feed now r feed) /\
  (forall id c, speaks_at (fold_feed now r feed) id c <-> speaks_at r id c) /\
  (forall id a, binds_at (fold_feed now r feed) id a <-> binds_at r id a \/ feed_names feed id a).
Proof.
  intros W. rewrite fold_feed_eq. pose proof (fold_feed_doc_facts now feed) as F.
  assert (wf_registry (on_channel_or_new r (f_channel feed) (fold_feed_doc now feed))) as W'.
  { apply on_channel_or_new_wf; [|apply F|done]. intros d Wd. by apply F. }
  assert (forall d c, speaks (fold_feed_doc now feed d) c = speaks d c) as Hsp.
  { intros d c. unfold speaks, doc_member. by rewrite (proj1 (proj2 (F d))). }
  assert (forall d, d ∈ channels r -> wf_doc d) as Wd by (apply Forall_forall, W).
  split_and!; [done| |].
  - intros id c. unfold speaks_at. setoid_rewrite on_channel_or_new_elem; [|done]. split.
    + intros (d' & [(d & Hd & ->)|[Hn ->]] & Hi & Hs).
      * exists d. destruct (String.eqb _ _); [|done]. by rewrite (proj1 (F d)) in Hi; rewrite Hsp in Hs.
      * by rewrite Hsp in Hs.
    + intros (d & Hd & Hi & Hs).
      exists (if String.eqb (doc_id d) (trim (f_channel feed)) then fold_feed_doc now feed d else d).
      split; [left; eauto|]. case_match; [|done]. by rewrite (proj1 (F d)), Hsp.
  - intros id a. rewrite !binds_at_iff by done. setoid_rewrite on_channel_or_new_elem; [|done]. split.
    + intros (d' & [(d & Hd & ->)|[Hn ->]] & Hi & Ha).
      * destruct (String.eqb_spec (doc_id d) (trim (f_channel feed))) as [E|]; [|left; eauto].
        rewrite (proj1 (F d)) in Hi. apply (proj2 (proj2 (proj2 (F d)) (Wd d Hd))) in Ha as [Ha|Ha];
          [left; eauto|right]. by split; [congruence|].
      * right. apply (proj2 (proj2 (proj2 (F _)) (ChannelDoc_new_wf _ _))) in Ha as [Ha|Ha];
          [by apply not_elem_of_nil in Ha|]. rewrite (proj1 (F _)) in Hi. cbn in Hi.
        rewrite trim_idem in Hi. done.
    + intros [(d & Hd & Hi & Ha)|[Hi Ha]].
      * exists (if String.eqb (doc_id d) (trim (f_channel feed)) then fold_feed_doc now feed d else d).
        split; [left; eauto|]. case_match; [|done]. rewrite (proj1 (F d)). split; [done|].
        apply (proj2 (proj2 (proj2 (F d)) (Wd d Hd))). by left.
      * destruct (base.decide (trim (f_channel feed) ∈ map doc_id (channels r))) as [Hin|Hin].
        -- apply elem_of_map in Hin as (d & Hd & E). exists (fold_feed_doc now feed d).
           split; [left; exists d; rewrite E, String.eqb_refl; done|]. rewrite (proj1 (F d)).
           split; [congruence|]. apply (proj2 (proj2 (proj2 (F d)) (Wd d Hd))). by right.
        -- eexists. split; [right; split; [done|reflexivity]|]. rewrite (proj1 (F _)). cbn [doc_id ChannelDoc_new].
           rewrite trim_idem. split; [done|].
           apply (proj2 (proj2 (proj2 (F _)) (ChannelDoc_new_wf _ _))). by right.
Qed.

Lemma fold_apps_spec now r :
  wf_registry r ->
  let r' := fold_apps now r in
  wf_registry r' /\ (bound r' = bound r /\ invites r' = invites r /\ legacy_apps r' = []) /\
  (forall id c, speaks_at r' id c <-> speaks_at r id c) /\
  (forall id a, binds_at r' id a <-> binds_at r id a \/ exists f, f ∈ legacy_apps r /\ feed_names f id a).
Proof.
  intros W. cbv zeta. unfold fold_apps. set (r0 := {| bound := bound r; legacy_apps := [] |}).
  assert (wf_registry r0) as W0 by (split; apply W).
  assert (forall fs r, wf_registry r ->
    let r' := fold_left (fold_feed now) fs r in
    wf_registry r' /\ (bound r' = bound r /\ invites r' = invites r /\ legacy_apps r' = legacy_apps r) /\
    (forall id c, speaks_at r' id c <-> speaks_at r id c) /\
    (forall id a, binds_at r' id a <-> binds_at r id a \/ exists f, f ∈ fs /\ feed_names f id a)) as H.
  { clear. induction fs as [|f fs IH]; intros r W; cbn [fold_left]; cbv zeta.
    - split_and!; try done. intros id a. split; [by left|]. intros [?|(f & Hf & _)]; [done|].
      by apply not_elem_of_nil in Hf.
    - destruct (fold_feed_step now f r W) as (W1 & Hs & Hb).
      destruct (IH _ W1) as (W2 & (E1 & E2 & E3) & Hs2 & Hb2).
      assert (bound (fold_feed now r f) = bound r /\ invites (fold_feed now r f) = invites r /\
              legacy_apps (fold_feed now r f) = legacy_apps r) as (F1 & F2 & F3).
      { rewrite fold_feed_eq. unfold on_channel_or_new, on_channel. by case_match. }
      split_and!; [done|congruence|congruence|congruence| |].
      + intros id c. by rewrite Hs2.
      + intros id a. rewrite Hb2, Hb. setoid_rewrite elem_of_cons. naive_solver. }
  apply (H (legacy_apps r) r0 W0).
Qed.

Lemma binds_at_ids r id a : wf_registry r -> binds_at r id a -> trim id = id.
Proof.
  intros [W _] (d & Hd & <- & _). rewrite Forall_forall in W. apply (W d Hd).
Qed.

Lemma dedup_elem l x : x ∈ dedup l <-> x ∈ l.
Proof.
  induction l as [|y [|z l] IH]; [done..|]. cbn [dedup]. destruct (String.eqb_spec y z) as [->|].
  - change (dedup (z :: l)) with (dedup (z :: l)) in IH. rewrite IH, !elem_of_cons. tauto.
  - rewrite elem_of_cons, IH, (elem_of_cons _ _ y). done.
Qed.

Lemma channels_of_aliases_elem r aliases id :
  id ∈ channels_of_aliases r aliases <-> exists a, a ∈ aliases /\ binds_at r id a.
Proof.
  unfold channels_of_aliases. rewrite dedup_elem, (merge_sort_Permutation str_le).
  rewrite list_elem_of_In, in_concat. split.
  - intros (ids & Hids & Hid). apply in_map_iff in Hids as (a & <- & Ha).
    apply in_map_iff in Hid as (d & <- & Hd). apply filter_In in Hd as [Hd Hb].
    exists a. rewrite list_elem_of_In. split; [done|]. exists d. rewrite list_elem_of_In. done.
  - intros (a & Ha & d & Hd & <- & Hb). exists (map doc_id (app_channels r a)). split.
    + apply in_map_iff. exists a. split; [done|]. by apply list_elem_of_In.
    + apply in_map, filter_In. split; [by apply list_elem_of_In|done].
Qed.

Definition join_doc (now : Z) (c : string) (doc : ChannelDoc) : ChannelDoc :=
  let '(doc', changed) := set_member doc c true true in if changed then stamped now doc' else doc'.

Lemma join_doc_facts now c d :
  same_frame d (join_doc now c d) /\ (wf_doc d -> wf_doc (join_doc now c d)) /\
  forall x, speaks (join_doc now c d) x = speaks d x || bool_decide (x = c).
Proof.
  unfold join_doc. pose proof (set_member_frame d c true true) as Hf.
  pose proof (set_member_wf d c true true) as Hw. pose proof (fun x => set_member_row d c true true x) as Hr.
  destruct (set_member d c true true) as [d' ch]. cbn [fst] in *.
  assert (forall x, speaks d' x = speaks d x || bool_decide (x = c)) as Hs.
  { intros x. unfold speaks. rewrite Hr. unfold row_of. cbn [orb].
    case_bool_decide; cbn; [by rewrite orb_true_r|by rewrite orb_false_r]. }
  destruct ch; [|done]. split_and!; [done| |done]. intros W. by apply stamped_wf, Hw.
Qed.

Lemma join_one_step now c r id :
  wf_registry r -> trim id = id ->
  let r' := join_one now c r id in
  wf_registry r' /\ (bound r' = bound r /\ invites r' = invites r /\ legacy_apps r' = legacy_apps r) /\
  (forall i a, binds_at r' i a <-> binds_at r i a) /\ map doc_id (channels r') = map doc_id (channels r) /\
  (forall i x, speaks_at r' i x <-> speaks_at r i x \/ x = c /\ i = id /\ id ∈ map doc_id (channels r)).
Proof.
  intros W Hid. cbv zeta. change (join_one now c r id) with (on_channel r id (join_doc now c)).
  pose proof (join_doc_facts now c) as F.
  assert (forall d, doc_id (join_doc now c d) = doc_id d) as Fi by (intros d; apply F).
  assert (wf_registry (on_channel r id (join_doc now c))) as W'.
  { apply on_channel_wf; [|apply F|done]. intros d _. apply F. }
  split_and!; try done.
  - intros i a. unfold binds_at. rewrite on_channel_map by done. setoid_rewrite elem_of_map.
    assert (forall d, doc_app (join_doc now c d) a = doc_app d a) as Fa.
    { intros d. unfold doc_app. by rewrite (proj1 (proj2 (proj1 (F d)))). }
    split.
    + intros (d' & (d & Hd & ->) & Hi & Hb). exists d. case_match; [|done].
      by rewrite Fi in Hi; rewrite Fa in Hb.
    + intros (d & Hd & Hi & Hb). eexists. split; [exists d; split; [done|reflexivity]|].
      case_match; [|done]. by rewrite Fi, Fa.
  - rewrite on_channel_map, map_map by done. apply map_ext. intros d. by case_match.
  - intros i x. unfold speaks_at. rewrite on_channel_map by done. setoid_rewrite elem_of_map. split.
    + intros (d' & (d & Hd & ->) & Hi & Hs). destruct (String.eqb_spec (doc_id d) (trim id)) as [E|]; [|left; eauto].
      rewrite Fi in Hi. rewrite (proj2 (proj2 (F d))) in Hs. apply orb_true_iff in Hs as [Hs|Hs]; [left; eauto|].
      apply bool_decide_eq_true in Hs. right. split_and!; [done|congruence|].
      exists d. split; [done|]. congruence.
    + intros [(d & Hd & Hi & Hs)|(-> & -> & d & Hd & Hi)].
      * eexists. split; [exists d; split; [done|reflexivity]|].
        destruct (String.eqb _ _); [|done]. by rewrite Fi, (proj2 (proj2 (F d))), Hs.
      * eexists. split; [exists d; split; [done|reflexivity]|].
        rewrite (proj2 (String.eqb_eq (doc_id d) (trim id))) by congruence.
        rewrite Fi, (proj2 (proj2 (F d))), bool_decide_eq_true_2 by done. by rewrite orb_true_r.
Qed.

Lemma join_ids now c ids : forall r,
  wf_registry r -> (forall id, id ∈ ids -> trim id = id /\ id ∈ map doc_id (channels r)) ->
  let r' := fold_left (join_one now c) ids r in
  wf_registry r' /\ (bound r' = bound r /\ invites r' = invites r /\ legacy_apps r' = legacy_apps r) /\
  (forall i a, binds_at r' i a <-> binds_at r i a) /\
  (forall i x, speaks_at r' i x <-> speaks_at r i x \/ x = c /\ i ∈ ids).
Proof.
  induction ids as [|id ids IH]; intros r W Hids; cbn [fold_left]; cbv zeta.
  { split_and!; try done. intros i x. split; [by left|]. intros [?|[_ H]]; [done|].
    by apply not_elem_of_nil in H. }
  destruct (Hids id) as [Ht Hin]; [left|].
  destruct (join_one_step now c r id W Ht) as (W1 & (E1 & E2 & E3) & Hb1 & Hi1 & Hs1).
  destruct (IH _ W1) as (W2 & (F1 & F2 & F3) & Hb2 & Hs2).
  { intros j Hj. rewrite Hi1. apply Hids. by right. }
  split_and!; [done|congruence|congruence|congruence| |].
  - intros i a. by rewrite Hb2, Hb1.
  - intros i x. rewrite Hs2, Hs1, elem_of_cons. naive_solver.
Qed.

Lemma join_reach_step now r cr :
  wf_registry r ->
  let r' := join_reach now r cr in
  wf_registry r' /\ (bound r' = bound r /\ invites r' = invites r /\ legacy_apps r' = legacy_apps r) /\
  (forall i a, binds_at r' i a <-> binds_at r i a) /\
  (forall i x, speaks_at r' i x <-> speaks_at r i x \/ x = cr.1 /\ exists a, a ∈ cr.2 /\ binds_at r i a).
Proof.
  intros W. unfold join_reach.
  destruct (join_ids now cr.1 (channels_of_aliases r cr.2) r W) as (W' & E & Hb & Hs).
  { intros id (a & Ha & B)%channels_of_aliases_elem. split; [by eapply binds_at_ids|].
    destruct B as (d & Hd & <- & _). apply elem_of_map. eauto. }
  cbv zeta. split_and!; try done; try apply E. intros i x. rewrite Hs, channels_of_aliases_elem. done.
Qed.

Lemma join_reaches now crs : forall r,
  wf_registry r ->
  let r' := fold_left (join_reach now) crs r in
  wf_registry r' /\ (bound r' = bound r /\ invites r' = invites r /\ legacy_apps r' = legacy_apps r) /\
  (forall i a, binds_at r' i a <-> binds_at r i a) /\
  (forall i x, speaks_at r' i x <->
     speaks_at r i x \/ exists aliases a, (x, aliases) ∈ crs /\ a ∈ aliases /\ binds_at r i a).
Proof.
  induction crs as [|cr crs IH]; intros r W; cbn [fold_left]; cbv zeta.
  { split_and!; try done. intros i x. split; [by left|]. intros [?|(aliases & a & H & _)]; [done|].
    by apply not_elem_of_nil in H. }
  destruct (join_reach_step now r cr W) as (W1 & (E1 & E2 & E3) & Hb1 & Hs1).
  destruct (IH _ W1) as (W2 & (F1 & F2 & F3) & Hb2 & Hs2).
  split_and!; [done|congruence|congruence|congruence| |].
  - intros i a. by rewrite Hb2, Hb1.
  - intros i x. rewrite Hs2, Hs1. setoid_rewrite Hb1. setoid_rewrite elem_of_cons. destruct cr as [c als].
    cbn [fst snd]. naive_solver.
Qed.

(** The members who may speak because of the reach written on their contact. *)
Definition reached (r : ContactRegistry) (c a : string) : Prop :=
  exists who, who ∈ bound r /\ c_id who = c /\ a ∈ c_legacy_reach who.

Lemma fold_contacts_spec now r :
  wf_registry r ->
  let r' := fold_contacts now r in
  wf_registry r' /\
  (bound r' = map clear_reach (bound r) /\ invites r' = invites r /\ legacy_apps r' = legacy_apps r) /\
  (forall i a, binds_at r' i a <-> binds_at r i a) /\
  (forall i x, speaks_at r' i x <-> speaks_at r i x \/ exists a, reached r x a /\ binds_at r i a).
Proof.
  intros W. cbv zeta. unfold fold_contacts.
  assert (wf_registry (with_bound (map clear_reach (bound r)) r)) as W0 by (split; apply W).
  destruct (join_reaches now (contact_reaches r) _ W0) as (W' & E & Hb & Hs).
  split_and!; try done; try apply E. intros i x. rewrite Hs. unfold contact_reaches, reached.
  change (speaks_at (with_bound (map clear_reach (bound r)) r) i x) with (speaks_at r i x).
  setoid_rewrite elem_of_map. setoid_rewrite elem_of_filterb. split.
  - intros [?|(als & a & (who & [_ Hin] & [= -> ->]) & Ha & B)]; [by left|right]. exists a. eauto.
  - intros [?|(a & (who & Hin & <- & Ha) & B)]; [by left|right].
    exists (c_legacy_reach who), a. split_and!; [|done|done]. exists who. split_and!; try done.
    destruct (c_legacy_reach who); [by apply not_elem_of_nil in Ha|done].
Qed.

Lemma fold_invites_spec r :
  let r' := fold_invites r in
  channels r' = channels r /\ bound r' = bound r /\ legacy_apps r' = legacy_apps r /\
  Forall (fun i => i_legacy_reach i = []) (invites r').
Proof.
  cbv zeta. unfold fold_invites.
  assert (forall irs r, Forall (fun i => i_legacy_reach i = []) (invites r) ->
    let r' := fold_left invite_reach irs r in
    channels r' = channels r /\ bound r' = bound r /\ legacy_apps r' = legacy_apps r /\
    Forall (fun i => i_legacy_reach i = []) (invites r')) as H.
  { clear. induction irs as [|ir irs IH]; intros r Hi; cbn [fold_left]; cbv zeta; [done|].
    destruct (IH (invite_reach r ir)) as (E1 & E2 & E3 & F); [|done].
    cbn [invite_reach invites with_invites]. by apply update_first_forall. }
  apply (H _ (with_invites (map clear_invite_reach (invites r)) r)).
  cbn [invites with_invites]. apply Forall_map, Forall_forall. done.
Qed.

Lemma mark_default_spec now r :
  wf_registry r ->
  let r' := (mark_default now r).1 in
  wf_registry r' /\ bound r' = bound r /\ invites r' = invites r /\ legacy_apps r' = legacy_apps r /\
  (forall i a, binds_at r' i a <-> binds_at r i a) /\ (forall i x, speaks_at r' i x <-> speaks_at r i x) /\
  forall now', mark_default now' r' = (r', false).
Proof.
  intros W. cbv zeta. unfold mark_default at 1 2 3 4 5 6 8 9. destruct (is_some (reg_household_default r)) eqn:E.
  { cbn [fst]. split_and!; try done. intros now'. unfold mark_default. by rewrite E. }
  cbn [fst]. set (p := fun d => negb (is_operator d)).
  set (f := fun d => stamped now (with_household true d)). set (ds := update_first p f (channels r)).
  assert (forall d', d' ∈ ds -> exists d, d ∈ channels r /\ (d' = d \/ d' = f d)) as Hds.
  { unfold ds. induction (channels r) as [|d l IH]; [intros d' H; by apply not_elem_of_nil in H|].
    cbn [update_first]. destruct (p d); intros d' [->|H]%elem_of_cons.
    - exists d. split; [left|by right].
    - exists d'. split; [by right|by left].
    - exists d. split; [left|by left].
    - destruct (IH _ H) as (x & Hx & Hd). exists x. split; [by right|done]. }
  assert (forall d, d ∈ channels r -> exists d', d' ∈ ds /\ (d' = d \/ d' = f d)) as Hds'.
  { clear Hds. unfold ds. induction (channels r) as [|d l IH]; [intros d' H; by apply not_elem_of_nil in H|].
    cbn [update_first]. destruct (p d); intros d' [->|H]%elem_of_cons.
    - exists (f d). split; [left|by right].
    - exists d'. split; [by right|by left].
    - exists d. split; [left|by left].
    - destruct (IH _ H) as (x & Hx & Hd). exists x. split; [by right|done]. }
  split_and!; try done.
  - destruct W as [W Hn]. split; cbn [channels with_channels].
    + apply update_first_forall; [done|]. intros d Wd. apply stamped_wf. by destruct Wd.
    + unfold ds. by rewrite update_first_keys.
  - intros i a. unfold binds_at. cbn [channels with_channels]. split; intros (d & Hd & Hi & Hb).
    + destruct (Hds _ Hd) as (d0 & H0 & [->| ->]); eauto.
    + destruct (Hds' _ Hd) as (d0 & H0 & [->| ->]); eauto.
  - intros i x. unfold speaks_at. cbn [channels with_channels]. split; intros (d & Hd & Hi & Hb).
    + destruct (Hds _ Hd) as (d0 & H0 & [->| ->]); eauto.
    + destruct (Hds' _ Hd) as (d0 & H0 & [->| ->]); eauto.
  - intros now'. unfold mark_default. destruct (is_some (reg_household_default (with_channels ds r))) eqn:F; [done|].
    assert (List.find p (channels r) = None) as Hn.
    { destruct (List.find p (channels r)) as [d|] eqn:G; [|done]. exfalso.
      assert (f d ∈ ds) as Hin.
      { unfold ds. clear -G. induction (channels r) as [|x l IH]; [done|]. cbn in *.
        destruct (p x); [injection G as ->; left|right; auto]. }
      unfold reg_household_default in F. cbn [channels with_channels] in F.
      destruct (List.find household_default ds) eqn:H; [done|].
      apply list_elem_of_In in Hin. by apply (find_none _ _ H) in Hin. }
    assert (ds = channels r) as Eds.
    { unfold ds. clear -Hn. induction (channels r) as [|x l IH]; [done|]. cbn in *.
      destruct (p x); [done|]. by rewrite IH. }
    cbn [channels with_channels]. rewrite Eds. fold p. rewrite Hn. f_equal. cbn [is_some].
    assert (update_first p (fun d => stamped now' (with_household true d)) (channels r) = channels r) as ->.
    { clear -Hn. induction (channels r) as [|x l IH]; [done|]. cbn in *. destruct (p x); [done|]. by rewrite IH. }
    done.
Qed.

(** ** The mark of the household's channel *)

(** A document is marked only where one of the same id was. *)
Definition marks_from (ds ds' : list ChannelDoc) : Prop :=
  forall d', d' ∈ ds' -> household_default d' = true ->
    exists d, d ∈ ds /\ doc_id d = doc_id d' /\ household_default d = true.

#[export] Instance marks_from_preorder : PreOrder marks_from.
Proof.
  split; [intros ds d Hd Hm; by exists d|]. intros a b c Hab Hbc d Hd Hm.
  destruct (Hbc d Hd Hm) as (y & Hy & <- & Hmy). by apply Hab.
Qed.

Lemma elem_of_update_first {A} (p : A -> bool) (f : A -> A) l x :
  x ∈ update_first p f l -> x ∈ l \/ exists y, y ∈ l /\ x = f y.
Proof.
  induction l as [|y l IH]; cbn [update_first]; [by left|]. destruct (p y); intros [->|H]%elem_of_cons.
  - right. exists y. by split; [left|].
  - left. by right.
  - left. left.
  - destruct (IH H) as [?|(z & Hz & ->)]; [left; by right|right]. exists z. by split; [right|].
Qed.

Lemma on_channel_marks r id f :
  (forall d, doc_id (f d) = doc_id d /\ household_default (f d) = household_default d) ->
  marks_from (channels r) (channels (on_channel r id f)).
Proof.
  intros Hf d [Hd|(y & Hy & ->)]%elem_of_update_first Hm; [by exists d|].
  destruct (Hf y) as [Hi Hh]. exists y. by rewrite Hi, <-Hh.
Qed.

Lemma on_channel_or_new_marks r id f :
  (forall d, doc_id (f d) = doc_id d /\ household_default (f d) = household_default d) ->
  marks_from (channels r) (channels (on_channel_or_new r id f)).
Proof.
  intros Hf. unfold on_channel_or_new. destruct (is_some _); [by apply on_channel_marks|].
  cbn [channels with_channels]. intros d [Hd|Hd%list_elem_of_singleton]%elem_of_app Hm; [by exists d|].
  subst d. rewrite (proj2 (Hf _)) in Hm. done.
Qed.

Lemma fold_left_marks {A} (step : ContactRegistry -> A -> ContactRegistry) :
  (forall r x, marks_from (channels r) (channels (step r x))) ->
  forall l r, marks_from (channels r) (channels (fold_left step l r)).
Proof.
  intros Hs. induction l as [|x l IH]; intros r; cbn [fold_left]; [reflexivity|]. etrans; [apply Hs|apply IH].
Qed.

Lemma fold_feed_doc_marks now feed d :
  doc_id (fold_feed_doc now feed d) = doc_id d /\
  household_default (fold_feed_doc now feed d) = household_default d.
Proof.
  split; [apply fold_feed_doc_facts|]. unfold fold_feed_doc. cbv zeta. cbn [stamped household_default].
  match goal with |- context [upsert_app ?d ?a] => destruct (upsert_app_apps d a) as (_ & _ & _ & _ & -> & _) end.
  by case_match.
Qed.

Lemma folded_marks now r :
  marks_from (channels r) (channels (fold_invites (fold_contacts now (fold_apps now r)))).
Proof.
  rewrite (proj1 (fold_invites_spec _)). etrans; [|unfold fold_contacts; apply fold_left_marks].
  - exact (fold_left_marks (fold_feed now) (fun r f => on_channel_or_new_marks r _ _ (fold_feed_doc_marks now f))
      (legacy_apps r) {| bound := bound r; pending := pending r; invites := invites r; legacy_apps := [];
                         channels := channels r; router := router r |}).
  - intros r1 cr. unfold join_reach. apply fold_left_marks. intros r2 id.
    apply (on_channel_marks r2 id (join_doc now cr.1)). intros d.
    destruct (join_doc_facts now cr.1 d) as (Hf & _). split; apply Hf.
Qed.

(** At most one document is marked after the fold when it was so before. *)
Lemma mark_default_one now r d d' :
  (forall x y, x ∈ channels r -> y ∈ channels r -> household_default x = true -> household_default y = true ->
     doc_id x = doc_id y) ->
  d ∈ channels (mark_default now r).1 -> d' ∈ channels (mark_default now r).1 ->
  household_default d = true -> household_default d' = true -> doc_id d = doc_id d'.
Proof.
  unfold mark_default. destruct (is_some (reg_household_default r)) eqn:E; cbn [fst channels with_channels]; [by auto|].
  intros _. unfold reg_household_default in E. destruct (List.find household_default (channels r)) eqn:F; [done|].
  assert (forall x, x ∈ channels r -> household_default x = false) as Hn.
  { intros x Hx%list_elem_of_In. by apply (find_none _ _ F). }
  clear E F. revert Hn. generalize (channels r). induction l as [|x l IH]; intros Hn; cbn [update_first].
  { by intros ?%not_elem_of_nil. }
  destruct (negb (is_operator x)).
  - intros [->|Hd]%elem_of_cons [->|Hd']%elem_of_cons; [done| | |];
      rewrite ?(Hn d), ?(Hn d') by (by right); done.
  - intros [->|Hd]%elem_of_cons [->|Hd']%elem_of_cons; [done| | |]; rewrite ?(Hn x) by left; try done.
    apply IH; [|done..]. intros y Hy. apply Hn. by right.
Qed.

Lemma migrate_one_default now r d d' :
  (forall x y, x ∈ channels r -> y ∈ channels r -> household_default x = true -> household_default y = true ->
     doc_id x = doc_id y) ->
  d ∈ channels (migrate_legacy now r).1 -> d' ∈ channels (migrate_legacy now r).1 ->
  household_default d = true -> household_default d' = true -> doc_id d = doc_id d'.
Proof.
  intros H. unfold migrate_legacy. set (r3 := fold_invites _).
  pose proof (mark_default_one now r3 d d') as M. destruct (mark_default now r3) as [r4 b]. cbn [fst] in *.
  apply M. intros x y Hx Hy Hmx Hmy.
  destruct (folded_marks now r x Hx Hmx) as (x0 & Hx0 & <- & Hmx0).
  destruct (folded_marks now r y Hy Hmy) as (y0 & Hy0 & <- & Hmy0). by apply H.
Qed.

(** Folding a registry written before channel documents binds to each document exactly
    the apps it had and those the old table put there, lets a contact speak exactly where
    they already did and where an app they could reach is bound, clears the old columns, keeps
    the registry well formed, and is done once: folding again changes nothing. *)
Theorem migration_keeps_reach now r (W : wf_registry r) :
  let r' := (migrate_legacy now r).1 in
  wf_registry r' /\ bound r' = map clear_reach (bound r) /\ legacy_apps r' = [] /\
  (forall id a, binds_at r' id a <->
     binds_at r id a \/ exists f, f ∈ legacy_apps r /\ feed_names f id a) /\
  (forall id c, speaks_at r' id c <->
     speaks_at r id c \/ exists a, reached r c a /\ binds_at r' id a) /\
  forall now', migrate_legacy now' r' = (r', false).
Proof.
  cbv zeta. unfold migrate_legacy at 1 2 3 4 5 6 8 9.
  destruct (fold_apps_spec now r W) as (W1 & (E1b & E1i & E1l) & S1 & B1).
  destruct (fold_contacts_spec now _ W1) as (W2 & (E2b & E2i & E2l) & B2 & S2).
  destruct (fold_invites_spec (fold_contacts now (fold_apps now r))) as (E3c & E3b & E3l & I3).
  set (r3 := fold_invites _) in *.
  assert (wf_registry r3) as W3 by (destruct W2; split; rewrite E3c; done).
  destruct (mark_default_spec now r3 W3) as (W4 & E4b & E4i & E4l & B4 & S4 & M4).
  destruct (mark_default now r3) as [r4 marked]. cbn [fst] in *.
  assert (forall i a, binds_at r3 i a <-> binds_at (fold_contacts now (fold_apps now r)) i a) as B3
    by (intros; unfold binds_at; by rewrite E3c).
  assert (forall i a, speaks_at r3 i a <-> speaks_at (fold_contacts now (fold_apps now r)) i a) as S3
    by (intros; unfold speaks_at; by rewrite E3c).
  assert (forall c a, reached (fold_apps now r) c a <-> reached r c a) as R1
    by (intros; unfold reached; by rewrite E1b).
  assert (bound r4 = map clear_reach (bound r)) as Eb by congruence.
  split_and!; [done|done|congruence| | |].
  - intros id a. by rewrite B4, B3, B2, B1.
  - intros id c. rewrite S4, S3, S2, S1. setoid_rewrite R1. setoid_rewrite B4. setoid_rewrite B3.
    by setoid_rewrite B2.
  - intros now'. unfold migrate_legacy. assert (contact_reaches r4 = []) as C0.
    { unfold contact_reaches. rewrite Eb. clear. by induction (bound r) as [|x l IH]; [|exact IH]. }
    assert (invite_reaches r4 = []) as I0.
    { unfold invite_reaches. rewrite E4i. clear -I3. induction I3 as [|i l Hi I3 IH]; [done|].
      cbn. by rewrite Hi. }
    assert (legacy_apps r4 = []) as L0 by congruence.
    assert (fold_apps now' r4 = r4) as ->.
    { unfold fold_apps. rewrite L0. cbn [fold_left]. clear -L0. destruct r4; cbn in *. by subst. }
    assert (fold_contacts now' r4 = r4) as ->.
    { unfold fold_contacts. rewrite C0. cbn [fold_left]. rewrite Eb, map_map.
      rewrite (map_ext (fun x => clear_reach (clear_reach x)) clear_reach) by done.
      rewrite <-Eb. by destruct r4. }
    assert (fold_invites r4 = r4) as ->.
    { unfold fold_invites. rewrite I0. cbn [fold_left]. rewrite E4i.
      assert (map clear_invite_reach (invites r3) = invites r3) as ->.
      { clear -I3. induction I3 as [|i l Hi I3 IH]; [done|]. cbn [map]. rewrite IH. f_equal.
        destruct i; cbn in *; by subst. }
      rewrite <-E4i. by destruct r4. }
    rewrite M4, L0, C0, I0. done.
Qed.

Lemma migration_keeps_reach_witness :
  speaks_at (migrate_legacy 7 ToyHome.old_home).1 "kitchen-feed" "kid" /\
  migrate_legacy 8 (migrate_legacy 7 ToyHome.old_home).1 = ((migrate_legacy 7 ToyHome.old_home).1, false).
Proof.
  destruct (migration_keeps_reach 7 ToyHome.old_home ToyHome.old_home_wf) as (_ & _ & _ & B & S & M).
  split; [|apply M]. apply S. right. exists "chef". split.
  - exists ToyHome.kid. split; [right; left|]. split; [reflexivity|left].
  - apply B. right. eexists. split; [left|]. split; reflexivity.
Defined.
