(* ===== verification/Audience.v ===== *)
(** * Who may publish where: the audience decision

    [crates/agentkeys-worker-channel-weixin/src/l3.rs]: the per-contact sliding-window
    limiter and the decision every inbound turn passes before anything reaches an app. *)
From stdpp Require Import gmap.
From S2P Require Import Prelude RustStr StrFacts SessionScope Channels.

Open Scope string_scope.
Open Scope Z_scope.

(** ** The rate limiter *)

Record RateLimiter := { max : Z; window_secs : Z; hits : gmap string (list Z) }.

Definition rate_check (l : RateLimiter) (key : string) (now : Z) : RateLimiter * bool :=
  let v := List.filter (fun t => u64_saturating_sub now t <? window_secs l)
                       (default [] (hits l !! key)) in
  if max l <=? Z.of_nat (length v) mod 2 ^ 32
  then ({| max := max l; window_secs := window_secs l; hits := <[key := v]> (hits l) |}, false)
  else ({| max := max l; window_secs := window_secs l; hits := <[key := (v ++ [now])%list]> (hits l) |}, true).

(** ** The audience decision *)

Record GatewayInbound := {
  in_transport : string; in_transport_id : string; in_text : string;
  in_alias : option string; in_channel : option string }.

Record L3Decision := {
  allowed : bool; target_alias : option string; decided_channel : option string; reason : string;
  operator_grade_deeplink : option string; routed_by : option string }.

Record GateOptions := {
  operator_grade_aliases : list string; parent_control_deeplink : string }.

Definition is_operator_grade (c : GateOptions) (alias : string) : bool :=
  existsb (fun g => String.eqb g (to_lowercase alias)) (operator_grade_aliases c).

Definition refuse (why : string) : L3Decision :=
  {| allowed := false; target_alias := None; decided_channel := None; reason := why;
     operator_grade_deeplink := None; routed_by := None |}.

Definition named_addressee (doc : ChannelDoc) (alias : option string) : string + string :=
  match alias with
  | Some a => match doc_app doc a with
              | Some row => inl (app_alias row)
              | None => inr "app_not_on_channel"
              end
  | None => match default_or_only_app doc with
            | Some a => inl a
            | None => inr "addressee_unclear"
            end
  end.

Definition decide (c : GateOptions) (r : ContactRegistry) (inbound : GatewayInbound) (rate_ok : bool)
    : L3Decision :=
  match resolve r (in_transport inbound) (in_transport_id inbound) with
  | None => refuse "unknown_contact"
  | Some who =>
      if negb rate_ok then refuse "rate_limited"
      else match (id ← in_channel inbound; reg_channel r id) with
      | None => refuse "no_channel"
      | Some doc =>
          if negb (speaks doc (c_id who)) then refuse "no_membership"
          else match named_addressee doc (in_alias inbound) with
          | inr why => refuse why
          | inl addressee =>
              if is_operator_grade c addressee then
                {| allowed := false; target_alias := None; decided_channel := None;
                   reason := "operator_grade_requires_session";
                   operator_grade_deeplink := Some (parent_control_deeplink c); routed_by := None |}
              else
                {| allowed := true; target_alias := Some addressee;
                   decided_channel := Some (doc_id doc); reason := "ok";
                   operator_grade_deeplink := None; routed_by := None |}
          end
      end
  end.

(** * Properties *)

(** An addressee the audience decision picks is an app bound to the channel. *)
Lemma named_addressee_bound d alias a :
  named_addressee d alias = inl a ->
  exists row, row ∈ apps d /\ (app_alias row = a \/ eq_lower (app_alias row) (trim a) = true).
Proof.
  unfold named_addressee. destruct alias as [x|].
  - destruct (doc_app d x) as [row|] eqn:E; [|done]. intros [= <-]. apply doc_app_row in E as [? _]. eauto.
  - assert (only_app d = Some a -> exists row, row ∈ apps d /\ app_alias row = a) as Ho.
    { unfold only_app. destruct (apps d) as [|one [|]]; naive_solver constructor. }
    unfold default_or_only_app. destruct (default_app d) as [x|]; [|case_match; naive_solver].
    destruct (doc_app d x) as [row|] eqn:E; cbn [is_some]; [|case_match; naive_solver].
    intros [= <-]. apply doc_app_row in E as [? ?]. eauto.
Qed.

Lemma named_addressee_norm d alias a :
  wf_doc d -> named_addressee d alias = inl a -> norm_alias a /\ a ∈ map app_alias (apps d).
Proof.
  intros W H. destruct W as [_ _ _ _ Hn Hd]. assert (forall row, row ∈ apps d ->
    norm_alias (app_alias row) /\ app_alias row ∈ map app_alias (apps d)) as Hrow.
  { intros row Hin. rewrite Forall_forall in Hn. split; [auto|].
    apply list_elem_of_In, in_map, list_elem_of_In, Hin. }
  assert (only_app d = Some a -> norm_alias a /\ a ∈ map app_alias (apps d)) as Ho.
  { unfold only_app. destruct (apps d) as [|one [|]] eqn:E; try done. intros [= <-]. apply Hrow. left. }
  unfold named_addressee, default_or_only_app in H. destruct alias as [x|].
  - destruct (doc_app d x) as [row|] eqn:E; [|done]. injection H as <-. apply doc_app_row in E as [? _]. auto.
  - destruct (default_app d) as [x|]; [|case_match; naive_solver].
    destruct Hd as [Hx Hs]. rewrite Hs in H. injection H as <-. split; [done|].
    apply doc_app_iff in Hs; [|done]. by rewrite Hx in Hs.
Qed.

(** ** The audience decision *)

(** What an allowed turn stands on. *)
Record permitted (c : GateOptions) (r : ContactRegistry) (i : GatewayInbound)
    (who : Contact) (doc : ChannelDoc) (addressee : string) : Prop := {
  pm_resolved : resolve r (in_transport i) (in_transport_id i) = Some who;
  pm_channel : exists id, in_channel i = Some id /\ reg_channel r id = Some doc;
  pm_speaks : speaks doc (c_id who) = true;
  pm_addressee : named_addressee doc (in_alias i) = inl addressee;
  pm_grade : is_operator_grade c addressee = false }.

Lemma decide_permitted c r i rate_ok who doc addressee :
  rate_ok = true -> permitted c r i who doc addressee ->
  decide c r i rate_ok = {| allowed := true; target_alias := Some addressee;
    decided_channel := Some (doc_id doc); reason := "ok"; operator_grade_deeplink := None;
    routed_by := None |}.
Proof.
  intros -> [Hw (id & Hi & Hd) Hs Ha Hg]. unfold decide. rewrite Hw, Hi. cbn [negb mbind option_bind].
  by rewrite Hd, Hs, Ha, Hg.
Qed.

Lemma decide_allowed c r i rate_ok :
  allowed (decide c r i rate_ok) = true ->
  rate_ok = true /\ exists who doc addressee, permitted c r i who doc addressee.
Proof.
  unfold decide. destruct (resolve _ _ _) as [who|] eqn:Hw; [|done].
  destruct rate_ok; cbn [negb]; [|done]. destruct (in_channel i) as [id|] eqn:Hi; cbn [mbind option_bind]; [|done].
  destruct (reg_channel r id) as [doc|] eqn:Hd; [|done].
  destruct (speaks doc (c_id who)) eqn:Hs; cbn [negb]; [|done].
  destruct (named_addressee doc (in_alias i)) as [a|] eqn:Ha; [|done].
  destruct (is_operator_grade c a) eqn:Hg; [done|]. intros _. split; [done|].
  exists who, doc, a. split; eauto.
Qed.

(** A turn is allowed exactly when its sender is a bound contact within the rate limit who
    speaks on the document of the resolved channel, and the app addressed, named or by
    default, is bound there and is not operator-grade; the decision then carries that app
    and that document.  Every refusal carries neither, and only an operator-grade one carries
    a link. *)
Theorem l3_permits_exactly c r i rate_ok :
  let d := decide c r i rate_ok in
  (allowed d = true <-> rate_ok = true /\ exists who doc a, permitted c r i who doc a) /\
  (forall who doc a, rate_ok = true -> permitted c r i who doc a ->
     target_alias d = Some a /\ decided_channel d = Some (doc_id doc) /\
     (exists row, row ∈ apps doc /\ (app_alias row = a \/ eq_lower (app_alias row) (trim a) = true)) /\
     (wf_registry r -> norm_alias a /\ a ∈ map app_alias (apps doc) /\ a ∉ operator_grade_aliases c)) /\
  (allowed d = false ->
     target_alias d = None /\ decided_channel d = None /\
     (is_some (operator_grade_deeplink d) = true <-> reason d = "operator_grade_requires_session")).
Proof.
  cbv zeta. split_and!.
  - split; [apply decide_allowed|]. intros (Hr & who & doc & a & P). by rewrite (decide_permitted _ _ _ _ _ _ _ Hr P).
  - intros who doc a Hr P. rewrite (decide_permitted _ _ _ _ _ _ _ Hr P). cbn [target_alias decided_channel].
    destruct P as [_ (id & _ & Hd) _ Ha Hg]. split_and!; try done.
    + eapply named_addressee_bound, Ha.
    + intros [W _]. apply reg_channel_in in Hd as [Hin _]. rewrite Forall_forall in W.
      destruct (named_addressee_norm _ _ _ (W _ Hin) Ha) as [Hn Hb]. split_and!; [done..|].
      intros Hop. unfold is_operator_grade in Hg. rewrite (norm_alias_lower _ Hn) in Hg.
      rewrite existsb_none in Hg. specialize (Hg a Hop). by rewrite String.eqb_refl in Hg.
  - assert (forall why, why <> "operator_grade_requires_session" ->
      is_some (operator_grade_deeplink (refuse why)) = true <-> why = "operator_grade_requires_session")
      as Hno by done.
    unfold decide. destruct (resolve _ _ _) as [who|]; [|done].
    destruct rate_ok; cbn [negb]; [|done]. destruct (in_channel i ≫= _) as [doc|]; [|done].
    destruct (speaks doc (c_id who)); cbn [negb]; [|done].
    destruct (named_addressee doc (in_alias i)) as [a|why] eqn:E; [by destruct (is_operator_grade c a)|].
    intros _. split_and!; [done..|]. apply Hno. unfold named_addressee in E. repeat case_match; naive_solver.
Qed.

(** ** The sliding window of the rate limiter *)

(** One call of the limiter after another: the key, the clock and the answer of each. *)
Fixpoint rate_run (l : RateLimiter) (calls : list (string * Z)) : list (string * Z * bool) :=
  match calls with
  | [] => []
  | (k, t) :: calls => let '(l', ok) := rate_check l k t in (k, t, ok) :: rate_run l' calls
  end.

(** The reference: of the calls allowed so far, those of the key within the window. *)
Definition recent (w : Z) (key : string) (now : Z) (log : list (string * Z * bool)) : list (string * Z * bool) :=
  List.filter (fun '(k, t, ok) => ok && String.eqb k key && (now - t <? w)) log.

Fixpoint rate_reference (m w : Z) (log : list (string * Z * bool)) (calls : list (string * Z))
    : list (string * Z * bool) :=
  match calls with
  | [] => []
  | (k, t) :: calls =>
      let ok := Z.of_nat (length (recent w k t log)) <? m in
      (k, t, ok) :: rate_reference m w (log ++ [(k, t, ok)])%list calls
  end.

Definition times (w : Z) (key : string) (now : Z) (log : list (string * Z * bool)) : list Z :=
  map (fun x => x.1.2) (recent w key now log).

Lemma recent_length w k t log : length (recent w k t log) = length (times w k t log).
Proof. unfold times. by rewrite length_map. Qed.

Lemma times_snoc w key now log x :
  times w key now (log ++ [x])%list
  = (times w key now log
     ++ (if x.2 && String.eqb x.1.1 key && (now - x.1.2 <? w) then [x.1.2] else []))%list.
Proof.
  unfold times, recent. rewrite List.filter_app, map_app. destruct x as [[k t] ok]. cbn [List.filter fst snd].
  by destruct (_ && _).
Qed.

(** Looking later drops what left the window. *)
Lemma times_later w key now now' log :
  now <= now' -> List.filter (fun t => now' - t <? w) (times w key now log) = times w key now' log.
Proof.
  intros Hle. unfold times, recent. induction log as [|[[k t] ok] log IH]; [done|]. cbn [List.filter].
  destruct (ok && String.eqb k key); cbn [andb]; [|done].
  destruct (now - t <? w) eqn:E, (now' - t <? w) eqn:F; cbn [map fst snd List.filter]; rewrite ?F, ?IH; try done.
  reflect_bools. lia.
Qed.

(** The table of the limiter holds, of each key, the reference's recent times as of the
    key's last call. *)
Definition tracks (w : Z) (log : list (string * Z * bool)) (t : Z) (h : gmap string (list Z)) : Prop :=
  forall key, exists seen, seen <= t /\ default [] (h !! key) = times w key seen log /\
    Forall (fun s => s <= t) (default [] (h !! key)) /\ (forall x, x ∈ log -> x.1.1 = key -> x.1.2 <= seen).

Lemma filter_saturating w now ts :
  0 < w -> Forall (fun s => s <= now) ts ->
  List.filter (fun t => u64_saturating_sub now t <? w) ts = List.filter (fun t => now - t <? w) ts.
Proof.
  intros Hw H. apply filter_ext_elem. intros s Hs. rewrite Forall_forall in H. specialize (H _ Hs).
  unfold u64_saturating_sub. by rewrite Z.max_r by lia.
Qed.

Lemma times_le w key now log t : (forall x, x ∈ log -> x.1.2 <= t) -> Forall (fun s => s <= t) (times w key now log).
Proof.
  intros H. apply Forall_map. unfold recent. apply Forall_forall.
  intros x [_ Hx]%elem_of_filterb. by apply H.
Qed.

(** Calls at times that never go back, none before [t]. *)
Fixpoint clocked (t : Z) (calls : list (string * Z)) : Prop :=
  match calls with
  | [] => True
  | (_, s) :: calls => t <= s /\ clocked s calls
  end.

Lemma tracks_filter w log t h key now :
  0 < w -> tracks w log t h -> t <= now ->
  List.filter (fun s => u64_saturating_sub now s <? w) (default [] (h !! key)) = times w key now log.
Proof.
  intros Hw Ht Hle. destruct (Ht key) as (seen & Hs & Hh & Hf & _).
  rewrite filter_saturating; [|done|].
  - rewrite Hh. apply times_later. lia.
  - eapply Forall_impl; [exact Hf|]. intros; cbn in *; lia.
Qed.

Lemma tracks_step w log t h key now ok :
  0 < w -> tracks w log t h -> t <= now -> (forall x, x ∈ log -> x.1.2 <= t) ->
  tracks w (log ++ [(key, now, ok)])%list now
    (<[key := (times w key now log ++ (if ok then [now] else []))%list]> h).
Proof.
  intros Hw Ht Hle Hlog k. destruct (decide_rel eq k key) as [->|Hne].
  - exists now. rewrite lookup_insert_eq. cbn [default from_option id]. split_and!; [lia| | |].
    + rewrite times_snoc. cbn [fst snd]. rewrite String.eqb_refl, Z.sub_diag, (proj2 (Z.ltb_lt 0 w)) by lia.
      by destruct ok.
    + apply Forall_app. split; [apply times_le; intros x Hx; specialize (Hlog x Hx); lia|].
      destruct ok; repeat constructor; lia.
    + intros x [Hx| ->%list_elem_of_singleton]%elem_of_app _; [specialize (Hlog x Hx)|]; cbn; lia.
  - destruct (Ht k) as (seen & Hs & Hh & Hf & Hx). exists seen. rewrite lookup_insert_ne by done.
    split_and!; [lia| | |].
    + rewrite times_snoc. cbn [fst snd]. rewrite (proj2 (String.eqb_neq key k)) by congruence.
      rewrite andb_false_r. cbn [andb]. by rewrite app_nil_r.
    + eapply Forall_impl; [exact Hf|]. intros; cbn in *; lia.
    + intros x [H| ->%list_elem_of_singleton]%elem_of_app Hk; [by apply Hx|]. cbn in Hk. congruence.
Qed.

Lemma filter_le_length {A} (p : A -> bool) (l : list A) : (length (List.filter p l) <= length l)%nat.
Proof. apply List.filter_length_le. Qed.

Lemma rate_run_reference l log t calls :
  0 < window_secs l -> 0 <= max l < 2 ^ 32 ->
  tracks (window_secs l) log t (hits l) -> (forall x, x ∈ log -> x.1.2 <= t) ->
  (forall key, Z.of_nat (length (default [] (hits l !! key))) <= max l) -> clocked t calls ->
  rate_run l calls = rate_reference (max l) (window_secs l) log calls.
Proof.
  revert l log t. induction calls as [|[k now] calls IH]; intros l log t Hw Hm Ht Hl Hb Hc;
    [done|]. cbn [clocked] in Hc. destruct Hc as [Hle Hc]. cbn [rate_run rate_reference].
  pose proof (tracks_filter _ _ _ _ k now Hw Ht Hle) as Hf.
  assert (Z.of_nat (length (times (window_secs l) k now log)) <= max l) as Hlen.
  { rewrite <-Hf. pose proof (filter_le_length (fun s => u64_saturating_sub now s <? window_secs l)
      (default [] (hits l !! k))). specialize (Hb k). lia. }
  unfold rate_check. rewrite Hf, Z.mod_small by lia. rewrite recent_length.
  rewrite Z.leb_antisym. pose proof (fun ok => tracks_step _ _ _ _ k now ok Hw Ht Hle Hl) as Hstep.
  assert (forall ok x, x ∈ (log ++ [(k, now, ok)])%list -> x.1.2 <= now) as Hl'.
  { intros ok x [Hx| ->%list_elem_of_singleton]%elem_of_app; [specialize (Hl x Hx)|]; cbn; lia. }
  assert (forall v, Z.of_nat (length v) <= max l -> forall key,
    Z.of_nat (length (default [] (<[k := v]> (hits l) !! key))) <= max l) as Hb'.
  { intros v Hv key. destruct (decide_rel eq key k) as [->|]; [by rewrite lookup_insert_eq|].
    by rewrite lookup_insert_ne. }
  assert (forall ok h, tracks (window_secs l) (log ++ [(k, now, ok)])%list now h ->
    (forall key, Z.of_nat (length (default [] (h !! key))) <= max l) ->
    rate_run {| max := max l; window_secs := window_secs l; hits := h |} calls
    = rate_reference (max l) (window_secs l) (log ++ [(k, now, ok)])%list calls) as IH'.
  { intros ok h Hh Hbh.
    refine (IH {| max := max l; window_secs := window_secs l; hits := h |} _ now Hw Hm Hh _ Hbh Hc). apply Hl'. }
  destruct (Z.of_nat (length (times (window_secs l) k now log)) <? max l) eqn:E; cbn [negb]; cbv beta iota.
  - f_equal. apply IH'; [apply (Hstep true)|]. apply Hb'. rewrite length_app. cbn [length]. reflect_bools. lia.
  - f_equal. apply IH'; [|by apply Hb']. specialize (Hstep false). by rewrite app_nil_r in Hstep.
Qed.

(** How many calls of a key were allowed in the [w] seconds up to [t]. *)
Definition allowed_within (w : Z) (key : string) (t : Z) (log : list (string * Z * bool)) : nat :=
  length (List.filter (fun '(k, s, ok) => ok && String.eqb k key && (s <=? t) && (t - s <? w)) log).

Lemma allowed_within_snoc w key t log k s ok :
  allowed_within w key t (log ++ [(k, s, ok)])%list
  = (allowed_within w key t log + b2n (ok && String.eqb k key && (s <=? t)%Z && (t - s <? w)%Z))%nat.
Proof.
  unfold allowed_within. rewrite List.filter_app, length_app. cbn [List.filter]. by destruct (_ && _ && _ && _).
Qed.

Lemma allowed_within_recent w key t t' log :
  t <= t' -> (allowed_within w key t' log <= length (recent w key t log) + 
              length (List.filter (fun '(_, s, _) => negb (s <=? t)%Z) log))%nat.
Proof.
  intros Hle. unfold allowed_within, recent. induction log as [|[[k s] ok] log IH]; [done|].
  cbn [List.filter]. destruct ok, (String.eqb k key); cbn [andb]; try (destruct (s <=? t) eqn:A; cbn [negb length]; lia).
  destruct (s <=? t') eqn:A, (t' - s <? w) eqn:B, (t - s <? w) eqn:C, (s <=? t) eqn:D; cbn [andb negb length];
    reflect_bools; lia.
Qed.

Lemma reference_bound m w log calls t :
  0 <= m -> (forall x, x ∈ log -> x.1.2 <= t) -> clocked t calls ->
  (forall key t, Z.of_nat (allowed_within w key t log) <= m) ->
  forall key t, Z.of_nat (allowed_within w key t (log ++ rate_reference m w log calls)%list) <= m.
Proof.
  intros Hm. revert log t. induction calls as [|[k now] calls IH]; intros log t Hl Hc Hb key t';
    cbn [rate_reference]; [by rewrite app_nil_r|].
  cbn [clocked] in Hc. destruct Hc as [Hle Hc]. set (ok := _ <? m).
  replace (log ++ (k, now, ok) :: rate_reference m w (log ++ [(k, now, ok)]) calls)%list
    with ((log ++ [(k, now, ok)]) ++ rate_reference m w (log ++ [(k, now, ok)]) calls)%list
    by (by rewrite <-app_assoc).
  apply (IH _ now); [|done|].
  - intros x [Hx| ->%list_elem_of_singleton]%elem_of_app; [specialize (Hl x Hx)|]; cbn; lia.
  - intros key' s. rewrite allowed_within_snoc. specialize (Hb key' s) as Hb'.
    destruct (ok && String.eqb k key' && (now <=? s) && (s - now <? w)) eqn:E; cbn [b2n]; [|lia].
    reflect_bools. subst key'. unfold ok in *. reflect_bools.
    pose proof (allowed_within_recent w k now s log ltac:(lia)) as Hr.
    assert (List.filter (fun '(_, s, _) => negb (s <=? now)) log = []) as Hn.
    { apply filter_none. intros [[k' s'] ok'] Hx. specialize (Hl _ Hx). cbn in Hl.
      by rewrite (proj2 (Z.leb_le s' now)) by lia. }
    rewrite Hn in Hr. cbn [length] in Hr. lia.
Qed.

(** C32: While the clock does not go back, the limiter answers every call as if it counted the
    calls of the key it allowed in the last [window] seconds, and allows the call exactly when
    they are fewer than the limit: so in no window of that length does a key pass more often
    than the limit, and dropping old hits loses nothing. *)
Theorem window_limit_exact l calls (He : hits l = ∅) (Hw : 0 < window_secs l) (Hm : 0 <= max l < 2 ^ 32)
    t (Hc : clocked t calls) :
  rate_run l calls = rate_reference (max l) (window_secs l) [] calls /\
  forall key t, Z.of_nat (allowed_within (window_secs l) key t (rate_run l calls)) <= max l.
Proof.
  assert (rate_run l calls = rate_reference (max l) (window_secs l) [] calls) as E.
  { apply (rate_run_reference l [] t); auto.
    - intros key. exists t. rewrite He, lookup_empty. split_and!; [lia|done|constructor|].
      intros x Hx. by apply not_elem_of_nil in Hx.
    - intros x Hx. by apply not_elem_of_nil in Hx.
    - intros key. rewrite He, lookup_empty. cbn. lia. }
  split; [done|]. intros key s. rewrite E.
  apply (reference_bound (max l) (window_secs l) [] calls t); [lia| |done|].
  - intros x Hx. by apply not_elem_of_nil in Hx.
  - intros k s'. cbn. lia.
Qed.

Module ToyGate.
Definition options : GateOptions :=
  {| operator_grade_aliases := ["stats"]; parent_control_deeplink := "https://control/" |}.
Definition says (tid : string) (alias channel : option string) : GatewayInbound :=
  {| in_transport := "weixin"; in_transport_id := tid; in_text := "hi"; in_alias := alias;
     in_channel := channel |}.

End ToyGate.

Lemma l3_permits_exactly_witness :
  allowed (decide ToyGate.options ToyHome.home (ToyGate.says "wx-mom" None (Some "general")) true) = true /\
  target_alias (decide ToyGate.options ToyHome.home (ToyGate.says "wx-mom" None (Some "general")) true) = Some "chef" /\
  reason (decide ToyGate.options ToyHome.home (ToyGate.says "wx-mom" (Some "stats") (Some "opchat-chef")) true)
  = "operator_grade_requires_session" /\
  reason (decide ToyGate.options ToyHome.home (ToyGate.says "wx-kid" None (Some "general")) true) = "no_membership".
Proof.
  assert (permitted ToyGate.options ToyHome.home (ToyGate.says "wx-mom" None (Some "general"))
            ToyHome.mom ToyHome.general "chef") as P.
  { split; try reflexivity. exists "general". split; reflexivity. }
  pose proof (l3_permits_exactly ToyGate.options ToyHome.home (ToyGate.says "wx-mom" None (Some "general")) true)
    as (A & B & _).
  split_and!; [|by apply (B _ _ _ eq_refl P)|reflexivity|reflexivity].
  apply A. split; [reflexivity|]. exists ToyHome.mom, ToyHome.general, "chef". exact P.
Defined.

Lemma window_limit_exact_witness :
  let l := {| max := 2; window_secs := 60; hits := ∅ |} in
  let calls := [("a", 0); ("a", 10); ("b", 20); ("a", 59); ("a", 60)] in
  map snd (rate_run l calls) = [true; true; true; false; true] /\
  forall key t, Z.of_nat (allowed_within 60 key t (rate_run l calls)) <= 2.
Proof.
  cbv zeta. split; [vm_compute; reflexivity|].
  apply (window_limit_exact {| max := 2; window_secs := 60; hits := ∅ |}
    [("a", 0); ("a", 10); ("b", 20); ("a", 59); ("a", 60)] eq_refl ltac:(cbn; lia) ltac:(cbn; lia) 0).
  cbn. lia.
Defined.
