(* ===== verification/F64.v ===== *)
(** * Floating-point numbers

    Rust's [f64] and [f32] as the Standard Library's [spec_float] with 53 and 24 bits of
    precision, and
    what the router's arithmetic needs of it: the order is total on numbers, sums of
    shares stay non-negative and a share of a positive total is a number. *)
From Stdlib Require Import SpecFloat.
From S2P Require Import Prelude.

Open Scope Z_scope.

Definition f64 : Type := spec_float.
#[export] Instance f64_eq_dec : EqDecision f64.
Proof. unfold f64. solve_decision. Defined.

Definition zero : f64 := S754_zero false.
Definition f64_add (x y : f64) : f64 := SFadd 53 1024 x y.
Definition f64_div (x y : f64) : f64 := SFdiv 53 1024 x y.
Definition f64_lt (x y : f64) : bool := SFltb x y.
Definition f64_le (x y : f64) : bool := SFleb x y.

Definition is_nan (x : f64) : bool := match x with S754_nan => true | _ => false end.
Definition is_finite (x : f64) : bool :=
  match x with S754_zero _ | S754_finite _ _ _ => true | _ => false end.

(** [x.max(y)]: the other operand when one is not a number. *)
Definition f64_max (x y : f64) : f64 :=
  if is_nan x then y else if is_nan y then x else if f64_lt x y then y else x.

(** [iter.sum()] *)
Definition f64_sum (xs : list f64) : f64 := fold_left f64_add xs zero.

Definition f64_mul (x y : f64) : f64 := SFmul 53 1024 x y.

(** [x.clamp(lo, hi)], with the bounds numbers. *)
Definition f64_clamp (lo hi x : f64) : f64 :=
  if f64_lt x lo then lo else if f64_lt hi x then hi else x.

(** [x.round() as u16]: half away from zero, then saturated; zero when not a number. *)
Definition f64_round_u16 (x : f64) : Z :=
  match x with
  | S754_infinity false => 2 ^ 16 - 1
  | S754_finite false m e =>
      Z.min (2 ^ 16 - 1)
        (if 0 <=? e then Zpos m * 2 ^ e else (2 * Zpos m + 2 ^ (- e)) / 2 ^ (1 - e))
  | _ => 0
  end.

(** The literal [n / d], rounded. *)
Definition ratio (n d : positive) : f64 :=
  f64_div (binary_normalize 53 1024 (Zpos n) 0 false) (binary_normalize 53 1024 (Zpos d) 0 false).

(** ** Numbers of 32 bits *)

Definition f32 : Type := spec_float.
#[export] Instance f32_eq_dec : EqDecision f32.
Proof. unfold f32. solve_decision. Defined.

(** The literal [n / d], rounded. *)
Definition f32_ratio (n d : positive) : f32 :=
  SFdiv 24 128 (binary_normalize 24 128 (Zpos n) 0 false) (binary_normalize 24 128 (Zpos d) 0 false).
Definition f32_zero : f32 := S754_zero false.
Definition f32_one : f32 := f32_ratio 1 1.

(** ** The order *)

(** Class, exponent and mantissa of a number, signed so that their lexicographic order is
    that of the numbers. *)
Definition rank (x : f64) : Z * Z * Z :=
  match x with
  | S754_infinity true => (-2, 0, 0)
  | S754_finite true m e => (-1, - e, - Zpos m)
  | S754_zero _ => (0, 0, 0)
  | S754_finite false m e => (1, e, Zpos m)
  | S754_infinity false => (2, 0, 0)
  | S754_nan => (3, 0, 0)
  end.

Definition lex_lt (a b : Z * Z * Z) : Prop :=
  a.1.1 < b.1.1 \/ a.1.1 = b.1.1 /\ (a.1.2 < b.1.2 \/ a.1.2 = b.1.2 /\ a.2 < b.2).

Lemma pos_compare_cont m n : Pos.compare_cont Eq m n = Z.compare (Zpos m) (Zpos n).
Proof. done. Qed.

Lemma f64_lt_rank x y : is_nan x = false -> is_nan y = false -> f64_lt x y = true <-> lex_lt (rank x) (rank y).
Proof.
  unfold f64_lt, SFltb, lex_lt.
  destruct x as [[]|[]| |[] m e], y as [[]|[]| |[] n f]; intros Hx Hy; try discriminate; cbn [SFcompare rank fst snd];
    try (split; intros; (discriminate || lia)).
  - change (Z.compare e f) with (e ?= f). destruct (Z.compare_spec e f) as [->|H|H]; try (split; [discriminate|lia]).
    + rewrite pos_compare_cont. destruct (Z.compare_spec (Zpos m) (Zpos n)); cbn [CompOpp]; split; intros; try done; try lia.
    + split; [lia|done].
  - destruct (Z.compare_spec e f) as [->|H|H]; try (split; [done|lia]); try (split; [lia|done]).
    rewrite pos_compare_cont. destruct (Z.compare_spec (Zpos m) (Zpos n)); split; intros; try done; lia.
Qed.

Lemma lex_lt_trans a b c : lex_lt a b -> lex_lt b c -> lex_lt a c.
Proof. unfold lex_lt. lia. Qed.

Lemma lex_nlt_lt a b c : ~ lex_lt b a -> lex_lt b c -> lex_lt a c.
Proof. unfold lex_lt. lia. Qed.

Lemma lex_nlt_trans a b c : ~ lex_lt b a -> ~ lex_lt c b -> ~ lex_lt c a.
Proof. unfold lex_lt. lia. Qed.

Section Order.
Context (x y z : f64) (Hx : is_nan x = false) (Hy : is_nan y = false) (Hz : is_nan z = false).

Lemma f64_nlt_rank : f64_lt x y = false <-> ~ lex_lt (rank x) (rank y).
Proof. rewrite <-f64_lt_rank by done. by rewrite not_true_iff_false. Qed.
End Order.

Lemma f64_nlt_trans x y z :
  is_nan x = false -> is_nan y = false -> is_nan z = false ->
  f64_lt x y = false -> f64_lt y z = false -> f64_lt x z = false.
Proof.
  intros Hx Hy Hz. rewrite !f64_nlt_rank by done. intros A B. by apply (lex_nlt_trans _ (rank y)).
Qed.

Lemma f64_lt_nlt_trans x y z :
  is_nan x = false -> is_nan y = false -> is_nan z = false ->
  f64_lt y x = true -> f64_lt y z = false -> f64_lt z x = true.
Proof.
  intros Hx Hy Hz. rewrite !f64_lt_rank, f64_nlt_rank by done. intros A B.
  by apply (lex_nlt_lt _ (rank y)).
Qed.

Lemma f64_lt_asym x y : f64_lt x y = true -> f64_lt y x = false.
Proof.
  destruct (is_nan x) eqn:Hx; [by destruct x|]. destruct (is_nan y) eqn:Hy; [by destruct x, y|].
  rewrite f64_lt_rank, f64_nlt_rank by done. unfold lex_lt. lia.
Qed.

(** ** Sums and shares *)

Definition nonneg (x : f64) : bool :=
  match x with S754_zero _ | S754_infinity false | S754_finite false _ _ => true | _ => false end.

Lemma nonneg_nan x : nonneg x = true -> is_nan x = false.
Proof. by destruct x. Qed.

Lemma f64_max_zero x : nonneg (f64_max x zero) = true /\ (is_finite x = true -> is_finite (f64_max x zero) = true).
Proof. destruct x as [[]|[]| |[] m e]; vm_compute; done. Qed.

Lemma shr_1_nonneg r : 0 <= shr_m r -> 0 <= shr_m (shr_1 r).
Proof. destruct r as [m ? ?]. cbn. destruct m as [|[]|[]]; cbn; lia. Qed.

Lemma iter_pos_inv {A} (P : A -> Prop) (f : A -> A) n : forall x, (forall x, P x -> P (f x)) -> P x -> P (SpecFloat.iter_pos f n x).
Proof. induction n; intros x Hf Hx; cbn; auto. Qed.

Lemma shr_fexp_nonneg m e l : 0 <= m -> 0 <= shr_m (shr_fexp 53 1024 m e l).1.
Proof.
  intros Hm. unfold shr_fexp, shr.
  assert (0 <= shr_m (shr_record_of_loc m l)) as H by (by destruct l as [|[]]).
  destruct (_ - e); cbn [fst]; try done. apply iter_pos_inv; [|done]. intros. by apply shr_1_nonneg.
Qed.

Lemma round_even_nonneg m l : 0 <= m -> 0 <= round_nearest_even m l.
Proof. intros. unfold round_nearest_even. repeat case_match; lia. Qed.

Lemma round_aux_nonneg m e l : 0 <= m -> nonneg (binary_round_aux 53 1024 false m e l) = true.
Proof.
  intros Hm. unfold binary_round_aux.
  pose proof (shr_fexp_nonneg m e l Hm) as H1. destruct (shr_fexp 53 1024 m e l) as [r e']. cbn [fst] in H1.
  pose proof (shr_fexp_nonneg _ e' loc_Exact (round_even_nonneg _ (loc_of_shr_record r) H1)) as H2.
  destruct (shr_fexp _ _ _ e' _) as [r' e'']. cbn [fst] in H2.
  destruct (shr_m r') as [|p|p]; [done| |by destruct H2]. by destruct (e'' <=? _).
Qed.

Lemma f64_add_nonneg x y : nonneg x = true -> nonneg y = true -> nonneg (f64_add x y) = true.
Proof.
  unfold f64_add. destruct x as [[]|[]| |[] m e], y as [[]|[]| |[] n f]; intros Hx Hy; try done.
  cbn [SFadd cond_Zopp]. unfold binary_normalize. destruct (_ + _) as [|p|p] eqn:E; [done| |lia].
  unfold binary_round. destruct (shl_align p _ _) as [mz ez]. by apply round_aux_nonneg.
Qed.

Lemma f64_sum_nonneg xs : Forall (fun x => nonneg x = true) xs -> nonneg (f64_sum xs) = true.
Proof.
  unfold f64_sum. assert (nonneg zero = true) as H by done. revert H. generalize zero.
  induction xs as [|x xs IH]; intros z Hz Hx; cbn [fold_left]; [exact Hz|].
  apply Forall_cons in Hx as [Hx Hxs]. apply IH; [|done]. by apply f64_add_nonneg.
Qed.

Lemma f64_share p total :
  is_finite p = true -> nonneg p = true -> nonneg total = true -> f64_le total zero = false ->
  nonneg (f64_div p total) = true.
Proof.
  unfold f64_div. destruct p as [[]|[]| |[] m e], total as [[]|[]| |[] n f]; intros; try done.
  cbn [SFdiv xorb]. unfold SFdiv_core_binary. cbv zeta.
  set (s := _ - _ : Z). set (m' := match s with 0 => _ | _ => _ end).
  assert (0 <= m') as Hm.
  { unfold m'. destruct s; try lia. apply Z.shiftl_nonneg. lia. }
  destruct (Z.div_eucl m' (Zpos n)) as [q r] eqn:E. apply round_aux_nonneg.
  pose proof (Z_div_mod m' (Zpos n) ltac:(lia)) as D. rewrite E in D. nia.
Qed.
