(* ===== verification/Utf8.v ===== *)
(** * Characters of a message

    The messages a member writes are UTF-8 text in any language: a [str] is still the
    [string] of its bytes, and here its characters are told apart.  [is_whitespace] of
    the Rust standard library is written out in full; [is_alphanumeric] is a table of
    the Unicode standard and is an interface. *)
From S2P Require Import Prelude RustStr StrFacts.

Open Scope string_scope.
Open Scope Z_scope.

Definition is_continuation (c : Ascii.ascii) : bool := (128 <=? byte_of c) && (byte_of c <? 192).

(** [s.chars()]: each character as the string of its bytes. *)
Fixpoint chars (s : string) : list string :=
  match s with
  | "" => []
  | String c s' =>
      match s' with
      | String d _ =>
          if is_continuation d
          then match chars s' with w :: ws => String c w :: ws | [] => [String c ""] end
          else String c "" :: chars s'
      | "" => [String c ""]
      end
  end.

Definition concat_chars (cs : list string) : string := fold_right String.append "" cs.

Lemma concat_chars_chars s : concat_chars (chars s) = s.
Proof.
  induction s as [|c s IH]; [done|]. destruct s as [|d s]; [done|].
  change (chars (String c (String d s)))
    with (if is_continuation d
          then match chars (String d s) with w :: ws => String c w :: ws | [] => [String c ""] end
          else String c "" :: chars (String d s)).
  destruct (is_continuation d).
  - destruct (chars (String d s)) as [|w ws]; [done|].
    change (String c (concat_chars (w :: ws)) = String c (String d s)). by rewrite IH.
  - change (String c (concat_chars (chars (String d s))) = String c (String d s)). by rewrite IH.
Qed.

(** The characters of [White_Space] beyond ASCII. *)
Definition UNICODE_WHITESPACE : list (list Z) :=
  [[194; 133]; [194; 160]; [225; 154; 128]; [226; 128; 128]; [226; 128; 129]; [226; 128; 130];
   [226; 128; 131]; [226; 128; 132]; [226; 128; 133]; [226; 128; 134]; [226; 128; 135];
   [226; 128; 136]; [226; 128; 137]; [226; 128; 138]; [226; 128; 168]; [226; 128; 169];
   [226; 128; 175]; [226; 129; 159]; [227; 128; 128]].

Definition bytes_of_char (c : string) : list Z := map byte_of (list_ascii_of_string c).

Definition char_is_whitespace (c : string) : bool :=
  match c with
  | String a "" => is_whitespace a
  | _ => bool_decide (bytes_of_char c ∈ UNICODE_WHITESPACE)
  end.

Fixpoint drop_while (p : string -> bool) (cs : list string) : list string :=
  match cs with
  | c :: cs' => if p c then drop_while p cs' else cs
  | [] => []
  end.

Definition drop_end_while (p : string -> bool) (cs : list string) : list string :=
  rev (drop_while p (rev cs)).

Definition utrim_start (s : string) : string := concat_chars (drop_while char_is_whitespace (chars s)).
Definition utrim (s : string) : string :=
  concat_chars (drop_end_while char_is_whitespace (drop_while char_is_whitespace (chars s))).

Definition is_blank (s : string) : bool := String.eqb (utrim s) "".

(** [s.trim_end_matches(pat)] and [s.trim_start_matches(pat)] of a non-empty literal. *)
Fixpoint trim_end_matches_aux (fuel : nat) (pat s : string) : string :=
  match fuel with
  | O => s
  | S fuel => match strip_suffix pat s with
              | Some r => trim_end_matches_aux fuel pat r
              | None => s
              end
  end.
Definition trim_end_matches (pat s : string) : string := trim_end_matches_aux (String.length s) pat s.

Fixpoint trim_start_matches_aux (fuel : nat) (pat s : string) : string :=
  match fuel with
  | O => s
  | S fuel => match strip_prefix pat s with
              | Some r => trim_start_matches_aux fuel pat r
              | None => s
              end
  end.
Definition trim_start_matches (pat s : string) : string := trim_start_matches_aux (String.length s) pat s.

(** [s.splitn(2, char::is_whitespace)]: the part before the first whitespace character, and
    the part after it. *)
Fixpoint split_whitespace_once (cs : list string) : list string * option (list string) :=
  match cs with
  | [] => ([], None)
  | c :: cs =>
      if char_is_whitespace c then ([], Some cs)
      else let '(w, rest) := split_whitespace_once cs in (c :: w, rest)
  end.

(** The Unicode table of letters and digits. *)
Class Alphabet := {
  is_alphanumeric : string -> bool;
  is_alphanumeric_ascii : forall c, byte_of c < 128 ->
    is_alphanumeric (String c "") = is_ascii_alphanumeric c;
}.

(** [s.split(p)] over characters, without the empty parts. *)
Fixpoint split_words (p : string -> bool) (cs : list string) (word : string) : list string :=
  match cs with
  | [] => if String.eqb word "" then [] else [word]
  | c :: cs =>
      if p c then (if String.eqb word "" then [] else [word]) ++ split_words p cs ""
      else split_words p cs (word +:+ c)
  end%list.

(** Every multi-byte character a letter: what a model without tables may answer. *)
Module AsciiAlphabet.
Definition alnum (c : string) : bool := match c with String a "" => is_ascii_alphanumeric a | _ => true end.
#[export] Instance alphabet : Alphabet.
Proof. exact {| is_alphanumeric := alnum; is_alphanumeric_ascii := fun _ _ => eq_refl |}. Defined.
End AsciiAlphabet.
