(* ===== verification/Classify.v ===== *)
(** * Classification outputs and their validators

    The deterministic half of the classifier: the typed outputs of
    [crates/agentkeys-catalog/src/{compile,policy_intent}.rs], the validators of
    [validate.rs] that every output passes before the gate reads it, and
    [crates/agentkeys-worker-classify/src/{classify,handlers}.rs], which tag an entity and
    turn a sentence into proposed categories without a model.  Serde's derived codecs and
    the printing of numbers are interfaces. *)
From stdpp Require Import gmap.
From Stdlib Require Import SpecFloat.
From S2P Require Import Prelude RustStr StrFacts Json F64 Utf8 Crates Catalog.
From S2P Require Import Capability DeviceCore CapabilityVerify ObjectStore LocalStore ObjectClient StorageWorker.

Open Scope string_scope.
Open Scope Z_scope.

(** ** The outputs *)

(** [Classification] as it is read back, with its confidence a number. *)
Record TagOutput := { t_category : string; t_sensitivity : Sensitivity; t_confidence : f32; t_source : string }.

Record ProposedCategory := { pc_category : string; pc_sensitivity : Sensitivity; pc_matched : string }.

Record CompileResult := { c_categories : list ProposedCategory; c_unmatched : list string; c_engine : string }.

Record ResourceRef := { r_entity : string; r_category : string; r_data_class : option string }.

Record Limit := { l_currency : string; l_amount : f64 }.

Record PolicyIntent := {
  i_operation : string; i_resource : ResourceRef; i_limit : option Limit; i_attributes : list string;
  i_sensitivity : Sensitivity; i_confidence : f32; i_engine : string; i_unresolved : list string }.

(** What a request that nothing grounds becomes. *)
Definition deny_by_default (operation unresolved_text : string) : PolicyIntent :=
  {| i_operation := operation;
     i_resource := {| r_entity := "unknown"; r_category := "unknown"; r_data_class := None |};
     i_limit := None; i_attributes := []; i_sensitivity := Sensitive; i_confidence := f32_zero; i_engine := "llm";
     i_unresolved := [unresolved_text] |}.

(** A lookup's answer, its hundredths as the number they are written as. *)
Definition tag_output (t : Classification) : TagOutput :=
  {| t_category := category t; t_sensitivity := sensitivity t;
     t_confidence := match confidence t with Zpos p => f32_ratio p 100 | _ => f32_zero end; t_source := source t |}.

Class ClassifyJson := {
  tag_from_value : Json -> result string TagOutput;
  compile_from_value : Json -> result string CompileResult;
  intent_from_value : Json -> result string PolicyIntent;
  number_of_f32 : f32 -> Json;
  number_of_f64 : f64 -> Json;
  number_as_f64 : JsonNumber -> f64;
  show_f32 : f32 -> string;
  show_f64 : f64 -> string }.

(** How an output is written: an absent option is left out. *)
Section Written.
Context `{ClassifyJson}.

Definition sensitivity_value (s : Sensitivity) : Json := JString match s with Safe => "safe" | Sensitive => "sensitive" end.

Definition string_list (l : list string) : Json := JArray (map JString l).

Definition tag_value (t : TagOutput) : Json :=
  JObject [("category", JString (t_category t)); ("confidence", number_of_f32 (t_confidence t));
           ("sensitivity", sensitivity_value (t_sensitivity t)); ("source", JString (t_source t))].

Definition proposed_value (p : ProposedCategory) : Json :=
  JObject [("category", JString (pc_category p)); ("matched", JString (pc_matched p));
           ("sensitivity", sensitivity_value (pc_sensitivity p))].

Definition compile_value (r : CompileResult) : Json :=
  JObject [("categories", JArray (map proposed_value (c_categories r))); ("engine", JString (c_engine r));
           ("unmatched", string_list (c_unmatched r))].

Definition limit_value (l : Limit) : Json :=
  JObject [("amount", number_of_f64 (l_amount l)); ("currency", JString (l_currency l))].

Definition optional_field (k : string) (v : option Json) : list (string * Json) :=
  match v with Some v => [(k, v)] | None => [] end.

Definition resource_value (r : ResourceRef) : Json :=
  JObject (("category", JString (r_category r)) :: optional_field "data_class" (JString <$> r_data_class r)
           ++ [("entity", JString (r_entity r))]).

Definition intent_value (i : PolicyIntent) : Json :=
  JObject ([("attributes", string_list (i_attributes i)); ("confidence", number_of_f32 (i_confidence i));
            ("engine", JString (i_engine i))] ++ optional_field "limit" (limit_value <$> i_limit i)
           ++ [("operation", JString (i_operation i)); ("resource", resource_value (i_resource i));
               ("sensitivity", sensitivity_value (i_sensitivity i)); ("unresolved", string_list (i_unresolved i))])%list.
End Written.

(** ** The worker *)

Definition keyword_category (token : string) : option string :=
  let one_of := existsb (String.eqb token) in
  if one_of ["invest"; "investment"; "investing"; "stocks"; "portfolio"] then Some "financial"
  else if one_of ["pay"; "payment"; "payments"; "spend"; "spending"] then Some "payments"
  else if one_of ["crypto"; "trading"; "exchange"] then Some "exchange"
  else if one_of ["kid"; "kids"; "child"; "children"; "family"] then Some "family"
  else if one_of ["health"; "fitness"; "medical"; "doctor"] then Some "health"
  else if one_of ["work"; "business"; "company"] then Some "business"
  else if one_of ["home"; "smart-home"; "iot"; "device"; "devices"] then Some "smart-home"
  else if one_of ["travel"; "trip"; "flight"; "hotel"] then Some "travel"
  else if one_of ["code"; "coding"; "dev"; "developer"; "programming"] then Some "developer"
  else None.

(** What has been proposed, in order, with the names that were seen. *)
Record Proposals := { seen : gset string; categories : list ProposedCategory; unmatched : list string }.

Definition propose (cat : string) (s : Sensitivity) (token : string) (p : Proposals) : Proposals :=
  if bool_decide (cat ∈ seen p) then p
  else {| seen := seen p ∪ {[cat]};
          categories := (categories p ++ [{| pc_category := cat; pc_sensitivity := s; pc_matched := token |}])%list;
          unmatched := unmatched p |}.

Definition UNMATCHED_MARK : string := "__um__".

Definition leave_over (token : string) (p : Proposals) : Proposals :=
  if bool_decide (UNMATCHED_MARK +:+ token ∈ seen p) then p
  else {| seen := seen p ∪ {[UNMATCHED_MARK +:+ token]}; categories := categories p;
          unmatched := (unmatched p ++ [token])%list |}.

Definition take_token (c : Catalog) (p : Proposals) (raw : string) : Proposals :=
  let token := to_lowercase (utrim raw) in
  if (String.length token <? 3)%nat then p
  else if 0 <? confidence (tag c token) then propose (category (tag c token)) (sensitivity (tag c token)) token p
  else if has_category c token then propose token (floor c token) token p
  else match keyword_category token with
       | Some cat => propose cat (floor c cat) token p
       | None => leave_over token p
       end.

Definition token_break `{Alphabet} (c : string) : bool := negb (is_alphanumeric c) && negb (String.eqb c "-").

(** The words between the breaks; an empty one is too short to count. *)
Definition sentence_tokens `{Alphabet} (sentence : string) : list string :=
  split_words token_break (chars sentence) "".

Definition no_proposals : Proposals := {| seen := ∅; categories := []; unmatched := [] |}.

Definition compile `{Alphabet} (c : Catalog) (sentence : string) : CompileResult :=
  let p := foldl (take_token c) no_proposals (sentence_tokens sentence) in
  {| c_categories := categories p; c_unmatched := unmatched p; c_engine := "catalog-rules" |}.

Section Worker.
Context `{HexCodec} `{Crypto} `{Sha256} `{P256} `{CapJson} `{Alphabet}.
Variable rpc : string -> string -> string -> nat -> RpcAttempt.

Definition verify_classify_cap (authority : AuthorityConfig) (cap : CapToken) (expected_class : DataClass)
    (now_pop now_fresh : Z) : result ApiError unit :=
  verify_authority rpc authority cap Classify expected_class now_pop now_fresh.

Definition classify_tag (authority : AuthorityConfig) (catalog : Catalog) (cap : CapToken) (data_class : DataClass)
    (entity : string) (now_pop now_fresh : Z) : result ApiError Classification :=
  let? _ := verify_classify_cap authority cap data_class now_pop now_fresh in
  Ok (tag catalog entity).

Definition classify_compile (authority : AuthorityConfig) (catalog : Catalog) (cap : CapToken) (data_class : DataClass)
    (sentence : string) (now_pop now_fresh : Z) : result ApiError CompileResult :=
  let? _ := verify_classify_cap authority cap data_class now_pop now_fresh in
  Ok (compile catalog sentence).
End Worker.

(** ** The validators *)

Inductive ClassifyMode := Tag | Compile | RequestParse.

Definition ClassifyMode_as_str (m : ClassifyMode) : string :=
  match m with Tag => "tag" | Compile => "compile" | RequestParse => "request_parse" end.

Definition ClassifyMode_parse (s : string) : option ClassifyMode :=
  if String.eqb s "tag" then Some Tag
  else if String.eqb s "compile" then Some Compile
  else if String.eqb s "request_parse" || String.eqb s "request-parse" then Some RequestParse
  else None.

Record ValidationError := { code : string; error_detail : string }.

Definition refused (code detail : string) : list ValidationError := [{| code := code; error_detail := detail |}].

Definition report_ok (report : list ValidationError) : bool := match report with [] => true | _ => false end.

Definition LANDED_OPERATIONS : list string :=
  ["cred.store"; "cred.fetch"; "memory.put"; "memory.get"; "payment.direct"; "payment.escrow_redeem"; "scope.grant";
   "scope.revoke"; "email.send"; "email.receive"; "config.put"; "config.get"].
Definition UNCOVERED_OPERATIONS : list string := ["device.control"; "credential.expose"; "sandbox.execute"].
Definition DATA_CLASSES : list string := ["credentials"; "memory"; "config"].
Definition VALID_ENGINES : list string := ["catalog"; "catalog-rules"; "llm"; "seed"; "unknown"].
Definition ADVERSARIAL_MAX_CONFIDENCE : f32 := f32_ratio 17 50.
Definition FORBIDDEN_KEYS : list string :=
  ["allow"; "deny"; "requires_approval"; "require_approval"; "risk"; "verdict"; "approved"; "authorized"; "decision"].

Definition listed (l : list string) (s : string) : bool := existsb (String.eqb s) l.

(** [{:?}] of a text without escapes, and of a list of them. *)
Definition debug_str (s : string) : string := String "034" (s +:+ String "034" "").
Definition debug_list (l : list string) : string := "[" +:+ join ", " (map debug_str l) +:+ "]".
Definition debug_sensitivity (s : Sensitivity) : string := match s with Safe => "Safe" | Sensitive => "Sensitive" end.

Definition tick (s : string) : string := "`" +:+ s +:+ "`".

Fixpoint scan_forbidden_keys (v : Json) : list ValidationError :=
  match v with
  | JObject entries =>
      flat_map (fun '(k, child) =>
        (if listed FORBIDDEN_KEYS k
         then refused "forbidden_decision_field"
                ("output contains a decision field " +:+ tick k +:+ " (determinism guardrail)")
         else []) ++ scan_forbidden_keys child)%list entries
  | JArray items => flat_map scan_forbidden_keys items
  | _ => []
  end.

Section Validators.
Context `{ClassifyJson}.

(** [(0.0..=1.0).contains(&x)] *)
Definition in_unit (x : f32) : bool := SFleb f32_zero x && SFleb x f32_one.

Definition check_confidence (x : f32) : list ValidationError :=
  if in_unit x then [] else refused "confidence_out_of_range" ("confidence " +:+ show_f32 x +:+ " not in [0,1]").

Definition below (a b : Sensitivity) : bool := bool_decide (a = Safe) && bool_decide (b = Sensitive).

Definition check_floor (c : Catalog) (cat : string) (claimed : Sensitivity) : list ValidationError :=
  if below claimed (floor c cat)
  then refused "sensitivity_below_floor"
         ("category " +:+ tick cat +:+ " floor is " +:+ debug_sensitivity (floor c cat) +:+ " but output claimed "
          +:+ debug_sensitivity claimed +:+ " (a model may raise a tier, never lower it)")
  else [].

Definition engine_base (engine : string) : string := default engine (head (split_char ":"%char engine)).

Definition known_engine (engine : string) : bool :=
  listed VALID_ENGINES (engine_base engine) || String.eqb (engine_base engine) "overlay".

Definition check_engine (engine : string) : list ValidationError :=
  if known_engine engine then []
  else refused "unknown_engine"
         ("engine/source " +:+ tick engine +:+ " not in " +:+ debug_list VALID_ENGINES +:+ " (or overlay:<vendor>)").

Definition too_confident (what : string) (x : f32) : list ValidationError :=
  if SFltb ADVERSARIAL_MAX_CONFIDENCE x
  then refused "adversarial_confidence_too_high"
         ("adversarial " +:+ what +:+ " confidence " +:+ show_f32 x +:+ " exceeds " +:+ show_f32 ADVERSARIAL_MAX_CONFIDENCE)
  else [].

Definition validate_tag (c : Catalog) (expected : Json) (adversarial : bool) : list ValidationError :=
  match tag_from_value expected with
  | Err e => refused "tag_shape_invalid" ("not a Classification: " +:+ e)
  | Ok t =>
      check_confidence (t_confidence t) ++ check_floor c (t_category t) (t_sensitivity t) ++ check_engine (t_source t)
      ++ (if adversarial then
            too_confident "tag" (t_confidence t)
            ++ (if negb (bool_decide (t_sensitivity t = Sensitive)) && negb (String.eqb (t_category t) "unknown")
                then refused "adversarial_not_abstained"
                       "adversarial tag must resolve to `unknown` or `Sensitive` (no permissive Safe tag)"
                else [])
          else [])
  end%list.

Definition validate_compile (c : Catalog) (expected : Json) : list ValidationError :=
  match compile_from_value expected with
  | Err e => refused "compile_shape_invalid" ("not a CompileResult: " +:+ e)
  | Ok r => (check_engine (c_engine r)
             ++ flat_map (fun p => check_floor c (pc_category p) (pc_sensitivity p)) (c_categories r))%list
  end.

Definition is_currency_code (s : string) : bool :=
  (String.length s =? 3)%nat && forallb is_ascii_uppercase (String.list_ascii_of_string s).

Definition amount_ok (x : f64) : bool := is_finite x && f64_le zero x.

Definition check_limit (l : Limit) : list ValidationError :=
  ((if amount_ok (l_amount l) then []
    else refused "negative_or_nan_amount" ("limit.amount " +:+ show_f64 (l_amount l) +:+ " must be finite and ≥ 0"))
   ++ (if is_currency_code (l_currency l) then []
       else refused "bad_currency" ("currency " +:+ tick (l_currency l) +:+ " is not a 3-letter code")))%list.

Definition abstained (i : PolicyIntent) : bool :=
  bool_decide (i_sensitivity i = Sensitive) || String.eqb (r_category (i_resource i)) "unknown".

Definition validate_request_parse (c : Catalog) (expected : Json) (adversarial : bool) : list ValidationError :=
  match intent_from_value expected with
  | Err e => refused "request_parse_shape_invalid" ("not a PolicyIntent: " +:+ e)
  | Ok i =>
      (if negb (listed LANDED_OPERATIONS (i_operation i)) && negb (listed UNCOVERED_OPERATIONS (i_operation i))
       then refused "operation_not_in_taxonomy"
              ("operation " +:+ tick (i_operation i) +:+ " is neither a landed op_kind nor a named uncovered surface")
       else [])
      ++ match r_data_class (i_resource i) with
         | Some dc => if listed DATA_CLASSES dc then []
                      else refused "unknown_data_class" ("data_class " +:+ tick dc +:+ " not in " +:+ debug_list DATA_CLASSES)
         | None => []
         end
      ++ check_floor c (r_category (i_resource i)) (i_sensitivity i)
      ++ check_confidence (i_confidence i) ++ check_engine (i_engine i)
      ++ match i_limit i with Some l => check_limit l | None => [] end
      ++ (if adversarial then
            too_confident "request" (i_confidence i)
            ++ (if is_nil (i_unresolved i)
                then refused "adversarial_grounded_everything"
                       "adversarial request must leave something `unresolved` (deny-by-default signal)"
                else [])
            ++ (if abstained i then []
                else refused "adversarial_not_abstained"
                       "adversarial request must be `Sensitive` or resolve to `unknown` (no widened scope)")
          else [])
  end%list.

Definition validate_output (c : Catalog) (mode : ClassifyMode) (expected : Json) (adversarial : bool)
    : list ValidationError :=
  (scan_forbidden_keys expected
   ++ match mode with
      | Tag => validate_tag c expected adversarial
      | Compile => validate_compile c expected
      | RequestParse => validate_request_parse c expected adversarial
      end)%list.

(** ** Grounding on the facts of the request *)

Definition as_f64 (v : Json) : option f64 := match v with JNumber n => Some (number_as_f64 n) | _ => None end.

(** The first of the three names that carries a text. *)
Definition entity_fact (facts : Json) : option string :=
  (fun s => to_lowercase (utrim s)) <$> head (omap (fun k => get facts k ≫= as_str) ["service"; "merchant"; "device"]).

Definition catalog_truth (c : Catalog) (fact : option string) (claimed : string) : list ValidationError :=
  match fact with
  | None => []
  | Some fact =>
      if (0 <? confidence (tag c fact)) && negb (String.eqb claimed (category (tag c fact)))
      then refused "category_contradicts_catalog"
             ("entity fact " +:+ tick fact +:+ " is " +:+ tick (category (tag c fact))
              +:+ " in the catalog but output claimed " +:+ tick claimed)
      else []
  end.

(** [(a - b).abs() > 1e-6] *)
Definition apart (a b : f64) : bool := f64_lt (ratio 1 1000000) (SFabs (SFsub 53 1024 a b)).

Definition limit_grounded (facts : Json) (l : Limit) : list ValidationError :=
  (match get facts "amount" ≫= as_f64 with
   | Some amount => if apart (l_amount l) amount
                    then refused "amount_mismatch_with_facts"
                           ("runtime facts carry amount " +:+ show_f64 amount +:+ " but output extracted "
                            +:+ show_f64 (l_amount l))
                    else []
   | None => []
   end
   ++ match get facts "currency" ≫= as_str with
      | Some currency => if String.eqb (l_currency l) currency then []
                         else refused "currency_mismatch_with_facts"
                                ("runtime facts carry currency " +:+ tick currency +:+ " but output extracted "
                                 +:+ tick (l_currency l))
      | None => []
      end)%list.

Definition mcc_grounded (facts : Json) (attributes : list string) : list ValidationError :=
  match get facts "mcc" ≫= as_str with
  | Some mcc =>
      flat_map (fun attr => if starts_with "mcc:" attr && negb (String.eqb attr ("mcc:" +:+ mcc))
                            then refused "mcc_attribute_mismatch"
                                   ("runtime facts carry MCC " +:+ tick mcc +:+ " but output tagged " +:+ tick attr)
                            else []) attributes
  | None => []
  end.

Definition validate_grounding (c : Catalog) (mode : ClassifyMode) (facts expected : Json) : list ValidationError :=
  let fact := entity_fact facts in
  match mode with
  | Tag => match tag_from_value expected with Ok t => catalog_truth c fact (t_category t) | Err _ => [] end
  | RequestParse =>
      match intent_from_value expected with
      | Err _ => []
      | Ok i =>
          match fact with
          | Some f => if String.eqb (to_lowercase (utrim (r_entity (i_resource i)))) f then []
                      else refused "entity_mismatch_with_facts"
                             ("runtime facts name entity " +:+ tick f +:+ " but output tagged "
                              +:+ tick (r_entity (i_resource i)) +:+ " (tag the entity, not the narrative)")
          | None => []
          end
          ++ catalog_truth c fact (r_category (i_resource i))
          ++ match i_limit i with Some l => limit_grounded facts l | None => [] end
          ++ mcc_grounded facts (i_attributes i)
      end
  | Compile => []
  end%list.
End Validators.

(** * Properties *)

(** ** Decision fields *)

(** The key [k] stands somewhere in a value. *)
Inductive occurs (k : string) : Json -> Prop :=
| occurs_key l v : (k, v) ∈ l -> occurs k (JObject l)
| occurs_under l k' v : (k', v) ∈ l -> occurs k v -> occurs k (JObject l)
| occurs_item l v : v ∈ l -> occurs k v -> occurs k (JArray l).

Lemma json_nested (P : Json -> Prop) (Hleaf : forall v, as_array v = None -> is_object v = false -> P v)
    (Harr : forall l, Forall P l -> P (JArray l)) (Hobj : forall l, Forall (fun kv => P kv.2) l -> P (JObject l)) :
  forall v, P v.
Proof.
  fix IH 1. intros [| | | |l|l]; try (apply Hleaf; reflexivity).
  - apply Harr. induction l as [|v l IHl]; constructor; [apply IH|exact IHl].
  - apply Hobj. induction l as [|[k v] l IHl]; constructor; [apply IH|exact IHl].
Qed.

Lemma flat_map_nil {A B} (f : A -> list B) l : flat_map f l = [] <-> forall x, x ∈ l -> f x = [].
Proof.
  induction l as [|y l IH]; cbn [flat_map]; [set_solver|].
  rewrite app_nil, IH. split; [intros [Hy Hl] x [->|Hx]%elem_of_cons; auto|intros Hl; split; set_solver].
Qed.

Lemma scan_exact (v : Json) :
  scan_forbidden_keys v = [] <-> forall k, listed FORBIDDEN_KEYS k = true -> ~ occurs k v.
Proof.
  induction v as [v Ha Ho|l IH|l IH] using json_nested.
  - split; [intros _ k _ Hk; by destruct Hk|by destruct v].
  - rewrite Forall_forall in IH. cbn [scan_forbidden_keys]. rewrite flat_map_nil. split.
    + intros Hl k Hk Ho. inversion Ho as [| |? v Hv Hkv]; subst. by eapply (IH v); [|apply Hl|exact Hk|exact Hkv].
    + intros Hk v Hv. apply IH; [done|]. intros k Hf Hkv. eapply Hk; [done|by eapply occurs_item].
  - rewrite Forall_forall in IH. cbn [scan_forbidden_keys]. rewrite flat_map_nil. split.
    + intros Hl k Hk Ho. inversion Ho as [? v Hv|? k' v Hv Hkv|]; subst; specialize (Hl _ Hv); cbn beta iota in Hl.
      * by rewrite Hk in Hl.
      * apply app_nil in Hl as [_ Hl]. by eapply (IH (k', v)); [| |exact Hk|exact Hkv].
    + intros Hk [k v] Hv. apply app_nil. split.
      * destruct (listed FORBIDDEN_KEYS k) eqn:E; [|done]. exfalso. by eapply Hk, occurs_key.
      * apply (IH (k, v) Hv). intros k' Hf Hkv. eapply Hk; [done|by eapply occurs_under].
Qed.

(** ** What an empty report means *)

Section Reports.
Context `{ClassifyJson}.
Implicit Types (c : Catalog) (adversarial : bool).

Lemma below_false a b : below a b = false <-> (b = Sensitive -> a = Sensitive).
Proof. destruct a, b; cbn; naive_solver. Qed.

Lemma check_floor_nil c cat s : check_floor c cat s = [] <-> (floor c cat = Sensitive -> s = Sensitive).
Proof. rewrite <-below_false. unfold check_floor. by destruct (below s (floor c cat)). Qed.

(** A check of one condition. *)
Lemma refused_unless (b : bool) code detail : (if b then [] else refused code detail) = [] <-> b = true.
Proof. by destruct b. Qed.

Lemma refused_when (b : bool) code detail : (if b then refused code detail else []) = [] <-> b = false.
Proof. by destruct b. Qed.

Lemma when_nil {A} (b : bool) (l : list A) : (if b then l else []) = [] <-> (b = true -> l = []).
Proof. destruct b; naive_solver. Qed.

Lemma check_confidence_nil x : check_confidence x = [] <-> in_unit x = true.
Proof. apply refused_unless. Qed.

Lemma check_engine_nil e : check_engine e = [] <-> known_engine e = true.
Proof. apply refused_unless. Qed.

Lemma too_confident_nil what x : too_confident what x = [] <-> SFltb ADVERSARIAL_MAX_CONFIDENCE x = false.
Proof. apply refused_when. Qed.

(** The conditions on a tag, on proposals and on a parsed request. *)
Definition tag_good c adversarial (t : TagOutput) : Prop :=
  in_unit (t_confidence t) = true /\ (floor c (t_category t) = Sensitive -> t_sensitivity t = Sensitive) /\
  known_engine (t_source t) = true /\
  (adversarial = true -> SFltb ADVERSARIAL_MAX_CONFIDENCE (t_confidence t) = false /\
                         (t_sensitivity t = Sensitive \/ t_category t = "unknown")).

Definition compile_good c (r : CompileResult) : Prop :=
  known_engine (c_engine r) = true /\
  forall p, p ∈ c_categories r -> floor c (pc_category p) = Sensitive -> pc_sensitivity p = Sensitive.

Definition intent_good c adversarial (i : PolicyIntent) : Prop :=
  (i_operation i ∈ LANDED_OPERATIONS \/ i_operation i ∈ UNCOVERED_OPERATIONS) /\
  (forall dc, r_data_class (i_resource i) = Some dc -> dc ∈ DATA_CLASSES) /\
  (floor c (r_category (i_resource i)) = Sensitive -> i_sensitivity i = Sensitive) /\
  in_unit (i_confidence i) = true /\ known_engine (i_engine i) = true /\
  (forall l, i_limit i = Some l -> amount_ok (l_amount l) = true /\ is_currency_code (l_currency l) = true) /\
  (adversarial = true -> SFltb ADVERSARIAL_MAX_CONFIDENCE (i_confidence i) = false /\ i_unresolved i <> [] /\
                         (i_sensitivity i = Sensitive \/ r_category (i_resource i) = "unknown")).

Lemma listed_elem l s : listed l s = true <-> s ∈ l.
Proof.
  unfold listed. rewrite existsb_exists. split.
  - intros (x & Hx & ->%String.eqb_eq). by apply list_elem_of_In.
  - intros Hs. exists s. split; [by apply list_elem_of_In|apply String.eqb_refl].
Qed.

Lemma validate_tag_nil c v adversarial :
  validate_tag c v adversarial = [] <-> exists t, tag_from_value v = Ok t /\ tag_good c adversarial t.
Proof.
  unfold validate_tag, tag_good. destruct (tag_from_value v) as [t|e]; [|split; [done|by intros (? & ? & _)]].
  transitivity (tag_good c adversarial t); [|split; [by exists t|by intros (? & [= <-] & ?)]].
  unfold tag_good. rewrite !app_nil, when_nil, app_nil, check_confidence_nil, check_floor_nil, check_engine_nil,
    too_confident_nil, refused_when, andb_false_iff, !negb_false_iff, bool_decide_eq_true, String.eqb_eq. tauto.
Qed.

Lemma validate_compile_nil c v :
  validate_compile c v = [] <-> exists r, compile_from_value v = Ok r /\ compile_good c r.
Proof.
  unfold validate_compile. destruct (compile_from_value v) as [r|e]; [|split; [done|by intros (? & ? & _)]].
  transitivity (compile_good c r); [|split; [by exists r|by intros (? & [= <-] & ?)]].
  unfold compile_good. rewrite app_nil, check_engine_nil, flat_map_nil. by setoid_rewrite check_floor_nil.
Qed.

Lemma check_limit_nil (l : Limit) :
  check_limit l = [] <-> amount_ok (l_amount l) = true /\ is_currency_code (l_currency l) = true.
Proof. unfold check_limit. by rewrite app_nil, !refused_unless. Qed.

Lemma optional_nil {A B} (o : option A) (f : A -> list B) :
  match o with Some x => f x | None => [] end = [] <-> forall x, o = Some x -> f x = [].
Proof. destruct o as [x|]; split; intros Hf; (done || (intros ? [= <-]; exact Hf) || exact (Hf x eq_refl)). Qed.

Lemma validate_request_parse_nil c v adversarial :
  validate_request_parse c v adversarial = [] <-> exists i, intent_from_value v = Ok i /\ intent_good c adversarial i.
Proof.
  unfold validate_request_parse. destruct (intent_from_value v) as [i|e]; [|split; [done|by intros (? & ? & _)]].
  transitivity (intent_good c adversarial i); [|split; [by exists i|by intros (? & [= <-] & ?)]].
  unfold intent_good. rewrite !app_nil, refused_when, when_nil, !app_nil, check_confidence_nil, check_floor_nil,
    check_engine_nil, too_confident_nil, refused_when, refused_unless, andb_false_iff, !negb_false_iff, !listed_elem, !optional_nil.
  setoid_rewrite refused_unless. setoid_rewrite listed_elem. setoid_rewrite check_limit_nil. unfold abstained.
  rewrite orb_true_iff, bool_decide_eq_true, String.eqb_eq.
  assert (is_nil (i_unresolved i) = false <-> i_unresolved i <> []) as -> by (by destruct (i_unresolved i)). tauto.
Qed.
End Reports.

(** ** What a validated output can say *)

Section Validated.
Context `{Sha256, P256, OverlayJson} `{ClassifyJson}.

(** The categories an output names, with the tier it claims for each. *)
Definition claims (mode : ClassifyMode) (v : Json) : list (string * Sensitivity) :=
  match mode with
  | Tag => match tag_from_value v with Ok t => [(t_category t, t_sensitivity t)] | Err _ => [] end
  | Compile => match compile_from_value v with
               | Ok r => map (fun p => (pc_category p, pc_sensitivity p)) (c_categories r)
               | Err _ => []
               end
  | RequestParse =>
      match intent_from_value v with Ok i => [(r_category (i_resource i), i_sensitivity i)] | Err _ => [] end
  end.

Lemma claims_floored c mode v adversarial cat s :
  validate_output c mode v adversarial = [] -> (cat, s) ∈ claims mode v -> floor c cat = Sensitive -> s = Sensitive.
Proof.
  unfold validate_output, claims. intros [_ Hv]%app_nil Hin Hf. destruct mode.
  - apply validate_tag_nil in Hv as (t & Ht & _ & Hfl & _). rewrite Ht in Hin.
    apply list_elem_of_singleton in Hin as [= -> ->]. auto.
  - apply validate_compile_nil in Hv as (r & Hr & _ & Hfl). rewrite Hr in Hin.
    apply list_elem_of_fmap in Hin as (p & [= -> ->] & Hp). by apply Hfl.
  - apply validate_request_parse_nil in Hv as (i & Hi & _ & _ & Hfl & _). rewrite Hi in Hin.
    apply list_elem_of_singleton in Hin as [= -> ->]. auto.
Qed.

(** An adversarial output claims the sensitive tier, even of what the catalog calls
    safe. *)
Lemma adversarial_claims c mode v cat s :
  floor c "unknown" = Sensitive -> mode <> Compile -> validate_output c mode v true = [] -> (cat, s) ∈ claims mode v ->
  s = Sensitive.
Proof.
  intros Hu Hm Hv Hin. pose proof (claims_floored c mode v true cat s Hv Hin) as Hfl.
  unfold validate_output in Hv. apply app_nil in Hv as [_ Hv]. unfold claims in Hin. destruct mode; [|done|].
  - apply validate_tag_nil in Hv as (t & Ht & _ & _ & _ & Ha). rewrite Ht in Hin.
    apply list_elem_of_singleton in Hin as [= -> ->]. destruct (Ha eq_refl) as [_ [?|E]]; [done|]. apply Hfl. by rewrite E.
  - apply validate_request_parse_nil in Hv as (i & Hi & _ & _ & _ & _ & _ & _ & Ha). rewrite Hi in Hin.
    apply list_elem_of_singleton in Hin as [= -> ->]. destruct (Ha eq_refl) as (_ & _ & [?|E]); [done|]. apply Hfl. by rewrite E.
Qed.

(** C18: Whatever a model writes, an output that passes the validators decides nothing and
    widens nothing.  Under the bundled catalog with any signed overlays: no decision field
    stands anywhere in it; of a category the bundle holds sensitive, or does not know, it
    claims nothing less; a parsed request names an operation and a storage class of the
    closed sets and an amount that is a number; and for a request marked adversarial every
    tier claimed is the sensitive one, the confidence is at most 0.34 and something is left
    unresolved. *)
Theorem validated_output_safe (calls : list (bytes * string * string)) (mode : ClassifyMode) (v : Json) (adversarial : bool)
    (Hpass : report_ok (validate_output (Catalog.run bundled calls) mode v adversarial) = true) :
  (forall k, k ∈ FORBIDDEN_KEYS -> ~ occurs k v) /\
  (forall cat s, (cat, s) ∈ claims mode v -> floor bundled cat = Sensitive -> s = Sensitive) /\
  (adversarial = true -> mode <> Compile -> forall cat s, (cat, s) ∈ claims mode v -> s = Sensitive) /\
  (mode = RequestParse -> exists i, intent_from_value v = Ok i /\
     (i_operation i ∈ LANDED_OPERATIONS \/ i_operation i ∈ UNCOVERED_OPERATIONS) /\
     (forall dc, r_data_class (i_resource i) = Some dc -> dc ∈ DATA_CLASSES) /\
     (forall l, i_limit i = Some l -> is_finite (l_amount l) = true /\ f64_le zero (l_amount l) = true) /\
     (adversarial = true -> SFltb ADVERSARIAL_MAX_CONFIDENCE (i_confidence i) = false /\ i_unresolved i <> [])).
Proof.
  assert (Hv : validate_output (Catalog.run bundled calls) mode v adversarial = [])
    by (by destruct (validate_output _ _ _ _)).
  pose proof (run_kept bundled calls) as Hkept. split_and!.
  - intros k Hk. apply (proj1 (scan_exact v)); [|by apply listed_elem]. by apply app_nil in Hv as [].
  - intros cat s Hin Hf. exact (claims_floored _ _ _ _ _ _ Hv Hin (Hkept cat Hf)).
  - intros -> Hm cat s. apply (adversarial_claims (Catalog.run bundled calls)); [by apply Hkept|done..].
  - intros ->. apply app_nil in Hv as [_ Hv].
    apply validate_request_parse_nil in Hv as (i & Hi & Hop & Hdc & _ & _ & _ & Hl & Ha).
    exists i. split_and!; [done..| |by intros Had; destruct (Ha Had) as (? & ? & _)].
    intros l Hl'. apply andb_true_iff. by apply Hl.
Qed.
End Validated.

(** ** What the deterministic tiers write *)

(** Every entity's source is the bundle or a vendor's overlay. *)
Definition sourced (m : gmap string Entry) : Prop :=
  map_Forall (fun _ e => e_source e = "catalog" \/ exists v, e_source e = "overlay:" +:+ v) m.

Lemma sourced_fold {A} (f : gmap string Entry -> A -> gmap string Entry) (l : list A) : forall m,
  (forall m x, sourced m -> sourced (f m x)) -> sourced m -> sourced (fold_left f l m).
Proof. induction l as [|x l IH]; intros m Hf Hm; cbn [fold_left]; auto. Qed.

Lemma bundled_sourced : sourced (entities bundled).
Proof.
  apply sourced_fold; [|apply map_Forall_empty]. intros m x Hm. apply map_Forall_insert_2; [by left|done].
Qed.

Lemma add_sourced v l c : sourced (entities c) -> sourced (entities (fold_left (add_entity ("overlay:" +:+ v)) l c)).
Proof.
  revert c. induction l as [|p l IH]; intros c Hc; cbn [fold_left]; [done|]. apply IH. cbn [add_entity entities].
  apply map_Forall_insert_2; [right; by exists v|done].
Qed.

Lemma run_sourced `{Sha256, P256, OverlayJson} calls : forall c, sourced (entities c) -> sourced (entities (Catalog.run c calls)).
Proof.
  unfold Catalog.run. induction calls as [|[[json sig] pem] calls IH]; intros c Hc; cbn [fold_left]; [done|]. apply IH.
  destruct (signed_step c json sig pem) as [-> | (o & b & s & vk & _ & -> & _)]; [done|].
  unfold apply_overlay. cbn [entities]. apply add_sourced. by rewrite raise_entities.
Qed.

Lemma overlay_known v : known_engine ("overlay:" +:+ v) = true.
Proof.
  unfold known_engine, engine_base. change ("overlay:" +:+ v) with
    (String "o" (String "v" (String "e" (String "r" (String "l" (String "a" (String "y" (String ":" v)))))))).
  cbn [split_char Ascii.eqb Bool.eqb andb head default]. reflexivity.
Qed.

Lemma tag_good_own c entity : sourced (entities c) -> tag_good c false (tag_output (tag c entity)).
Proof.
  intros Hs. unfold tag_good, tag. destruct (entities c !! _) as [e|] eqn:E.
  - cbn [tag_output t_confidence t_category t_sensitivity t_source category sensitivity source confidence].
    split_and!; [by destruct (String.eqb _ _)|done| |done].
    destruct (Hs _ _ E) as [-> | [v ->]]; [done|apply overlay_known].
  - by split_and!.
Qed.

Lemma floored_tokens c tokens : forall p, Forall (fun x => pc_sensitivity x = floor c (pc_category x)) (categories p) ->
  Forall (fun x => pc_sensitivity x = floor c (pc_category x)) (categories (foldl (take_token c) p tokens)).
Proof.
  assert (Hp : forall cat s token p, s = floor c cat -> Forall (fun x => pc_sensitivity x = floor c (pc_category x)) (categories p) ->
    Forall (fun x => pc_sensitivity x = floor c (pc_category x)) (categories (propose cat s token p))).
  { intros cat s token p -> Hp. unfold propose. case_bool_decide; [done|]. apply Forall_app. by repeat constructor. }
  induction tokens as [|raw tokens IH]; intros p Hc; cbn [foldl]; [done|]. apply IH. unfold take_token.
  destruct (_ <? 3)%nat; [done|]. destruct (0 <? _) eqn:Et.
  { apply Hp; [|done]. unfold tag in *. destruct (entities c !! _); [done|by cbn in Et]. }
  destruct (has_category c _); [by apply Hp|]. destruct (keyword_category _); [by apply Hp|].
  unfold leave_over. by case_bool_decide.
Qed.

Lemma string_list_scan l : scan_forbidden_keys (string_list l) = [].
Proof. apply flat_map_nil. intros v Hv. by apply list_elem_of_fmap in Hv as (s & -> & _). Qed.

Section OwnOutputs.
Context `{Sha256, P256, OverlayJson} `{ClassifyJson} `{Alphabet}.

(** A derived decoder reads what the derived encoder wrote, and a number is written as a
    number. *)
Hypothesis tag_read : forall t, in_unit (t_confidence t) = true -> tag_from_value (tag_value t) = Ok t.
Hypothesis compile_read : forall r, compile_from_value (compile_value r) = Ok r.
Hypothesis intent_read : forall i, in_unit (i_confidence i) = true -> i_limit i = None -> intent_from_value (intent_value i) = Ok i.
Hypothesis number_written : forall x, scan_forbidden_keys (number_of_f32 x) = [].

Lemma tag_passes c entity adversarial : tag_good c adversarial (tag_output (tag c entity)) ->
  validate_output c Tag (tag_value (tag_output (tag c entity))) adversarial = [].
Proof using tag_read number_written.
  intros Hg. unfold validate_output. apply app_nil. split.
  - cbn [tag_value scan_forbidden_keys flat_map]. rewrite number_written. by destruct (t_sensitivity _).
  - apply validate_tag_nil. eexists. split; [apply tag_read; by destruct Hg|done].
Qed.

Lemma compile_passes c sentence : validate_output c Compile (compile_value (compile c sentence)) false = [].
Proof using compile_read.
  unfold validate_output. apply app_nil. split.
  - cbn [compile_value scan_forbidden_keys flat_map]. rewrite string_list_scan, !app_nil_r. cbn.
    apply flat_map_nil. intros v Hv. apply list_elem_of_fmap in Hv as (p & -> & _).
    by destruct p as [? [] ?].
  - apply validate_compile_nil. eexists. split; [apply compile_read|]. split; [done|]. intros p Hp.
    assert (Hall := floored_tokens c (sentence_tokens sentence) no_proposals (Forall_nil_2 _)).
    rewrite Forall_forall in Hall. by rewrite (Hall p Hp).
Qed.

Lemma denied_passes c operation text adversarial :
  operation ∈ LANDED_OPERATIONS \/ operation ∈ UNCOVERED_OPERATIONS ->
  validate_output c RequestParse (intent_value (deny_by_default operation text)) adversarial = [].
Proof using intent_read number_written.
  intros Hop. unfold validate_output. apply app_nil. split.
  - cbn. by rewrite number_written.
  - apply validate_request_parse_nil. eexists. split; [by apply intent_read|]. unfold intent_good. cbn.
    split_and!; try done. intros _. split_and!; [done|done|by left].
Qed.

Lemma own_tag_grounded c facts entity : entity_fact facts = Some entity -> in_unit (t_confidence (tag_output (tag c entity))) = true ->
  validate_grounding c Tag facts (tag_value (tag_output (tag c entity))) = [].
Proof using tag_read.
  intros Hf Hu. unfold validate_grounding. rewrite tag_read, Hf by done. unfold catalog_truth. cbn [tag_output t_category].
  by rewrite String.eqb_refl, andb_false_r.
Qed.

(** What the tiers without a model write passes the validators they share with the
    model, under the bundled catalog with any signed overlays: the tag of every entity,
    and as the tag of a fact's own entity it is grounded on it; the proposals for every
    sentence; and what a request that nothing grounds becomes, for every operation of the
    closed set and however it is marked.  The tag of an entity the catalog does not know
    passes as an adversarial one too. *)
Theorem own_outputs_pass (calls : list (bytes * string * string)) (entity sentence operation text : string) (facts : Json)
    (Hop : operation ∈ LANDED_OPERATIONS \/ operation ∈ UNCOVERED_OPERATIONS) :
  let c := Catalog.run bundled calls in
  validate_output c Tag (tag_value (tag_output (tag c entity))) false = [] /\
  (entity_fact facts = Some entity -> validate_grounding c Tag facts (tag_value (tag_output (tag c entity))) = []) /\
  (tag c entity = unknown -> validate_output c Tag (tag_value (tag_output (tag c entity))) true = []) /\
  validate_output c Compile (compile_value (compile c sentence)) false = [] /\
  (forall adversarial, validate_output c RequestParse (intent_value (deny_by_default operation text)) adversarial = []).
Proof using tag_read compile_read intent_read number_written.
  intros c. pose proof (tag_good_own c entity (run_sourced calls bundled bundled_sourced)) as Hg. split_and!.
  - by apply tag_passes.
  - intros Hf. apply own_tag_grounded; [done|by destruct Hg].
  - intros Hu. apply tag_passes. destruct Hg as (? & ? & ? & _). split_and!; [done..|]. rewrite Hu. intros _. split; [done|by left].
  - apply compile_passes.
  - intros adversarial. by apply denied_passes.
Qed.
End OwnOutputs.

(** ** The proposals for a sentence *)

(** The category of a word, if any tier has one. *)
Definition resolve (c : Catalog) (token : string) : option string :=
  if 0 <? confidence (tag c token) then Some (category (tag c token))
  else if has_category c token then Some token else keyword_category token.

(** The words of a sentence that are long enough to count. *)
Definition counted (raws : list string) : list string :=
  List.filter (fun t => negb (String.length t <? 3)%nat) (map (fun raw => to_lowercase (utrim raw)) raws).

(** The first of each key, in order. *)
Fixpoint firsts {A} (key : A -> string) (met : gset string) (l : list A) : list A :=
  match l with
  | [] => []
  | x :: l => if bool_decide (key x ∈ met) then firsts key met l else x :: firsts key (met ∪ {[key x]}) l
  end.

Definition resolved (c : Catalog) (token : string) : option ProposedCategory :=
  cat ← resolve c token; Some {| pc_category := cat; pc_sensitivity := floor c cat; pc_matched := token |}.

Definition unresolved (c : Catalog) (token : string) : bool := negb (is_some (resolve c token)).

Section CompileExact.
Context (c : Catalog).

(** No category is spelled like the mark of a word left over. *)
Hypothesis plain : forall t cat w, resolve c t = Some cat -> cat <> UNMATCHED_MARK +:+ w.

(** What was seen: the categories in [cats] and the marks of the words in [words]. *)
Definition sees (p : Proposals) (cats words : gset string) : Prop :=
  (forall t cat, resolve c t = Some cat -> (cat ∈ seen p <-> cat ∈ cats)) /\
  (forall w, UNMATCHED_MARK +:+ w ∈ seen p <-> w ∈ words).

Lemma mark_inj v w : UNMATCHED_MARK +:+ v = UNMATCHED_MARK +:+ w -> v = w.
Proof.
  unfold UNMATCHED_MARK. intros E.
  change (String "_" (String "_" (String "u" (String "m" (String "_" (String "_" v)))))
    = String "_" (String "_" (String "u" (String "m" (String "_" (String "_" w)))))) in E. by injection E.
Qed.

Lemma take_token_counted p raw : take_token c p raw =
  foldl (fun p token => match resolve c token with
                        | Some cat => propose cat (floor c cat) token p
                        | None => leave_over token p
                        end) p (counted [raw]).
Proof.
  unfold take_token, counted, resolve. cbn [map List.filter].
  destruct (_ <? 3)%nat; cbn [negb foldl]; [done|]. destruct (0 <? _) eqn:Et; [|by destruct (has_category c _)].
  unfold tag in *. by destruct (entities c !! _).
Qed.

Lemma propose_sees p cats words cat s token t : sees p cats words -> resolve c t = Some cat ->
  sees (propose cat s token p) (cats ∪ {[cat]}) words.
Proof using plain.
  intros [Hc Hw] Ht. unfold propose. case_bool_decide as Hin.
  - apply (Hc t cat Ht) in Hin. split; [|done]. intros t' cat' Ht'. rewrite (Hc t' cat' Ht'). set_solver.
  - split; cbn [seen]; [intros t' cat' Ht'; rewrite elem_of_union, (Hc t' cat' Ht'); set_solver|].
    intros w. rewrite elem_of_union, Hw, elem_of_singleton. split; [intros [?|E]; [done|]|by left].
    by destruct (plain t cat w Ht).
Qed.

Lemma leave_over_sees p cats words token : sees p cats words -> sees (leave_over token p) cats (words ∪ {[token]}).
Proof using plain.
  intros [Hc Hw]. unfold leave_over. case_bool_decide as Hin.
  - apply Hw in Hin. split; [done|]. intros w. rewrite Hw. set_solver.
  - split; cbn [seen].
    + intros t cat Ht. rewrite elem_of_union, (Hc t cat Ht), elem_of_singleton.
      split; [intros [?|E]; [done|by destruct (plain t cat token Ht)]|by left].
    + intros w. rewrite elem_of_union, Hw, !elem_of_union, !elem_of_singleton. split; [|naive_solver].
      intros [?|E%mark_inj]; auto.
Qed.

Lemma compile_fold tokens : forall p cats words, sees p cats words ->
  let p' := foldl (fun p token => match resolve c token with
                                  | Some cat => propose cat (floor c cat) token p
                                  | None => leave_over token p
                                  end) p tokens in
  categories p' = (categories p ++ firsts pc_category cats (omap (resolved c) tokens))%list /\
  unmatched p' = (unmatched p ++ firsts id words (List.filter (unresolved c) tokens))%list.
Proof using plain.
  induction tokens as [|token tokens IH]; intros p cats words Hs; cbn [foldl]; [cbn; by rewrite !app_nil_r|].
  cbv zeta. cbn [List.filter]. unfold unresolved at 1. cbn [omap list_omap]. unfold resolved at 1.
  destruct (resolve c token) as [cat|] eqn:Er; cbn [is_some negb mbind option_bind].
  - destruct (IH _ _ _ (propose_sees p cats words cat (floor c cat) token token Hs Er)) as [-> ->].
    destruct Hs as [Hc _]. specialize (Hc token cat Er). cbn [firsts pc_category]. unfold propose.
    destruct (decide (cat ∈ cats)) as [Hin|Hin].
    + rewrite (bool_decide_true (cat ∈ seen p)), (bool_decide_true (cat ∈ cats)) by tauto.
      by replace (cats ∪ {[cat]}) with cats by set_solver.
    + rewrite (bool_decide_false (cat ∈ seen p)), (bool_decide_false (cat ∈ cats)) by tauto.
      cbn [categories unmatched]. by rewrite <-app_assoc.
  - destruct (IH _ _ _ (leave_over_sees p cats words token Hs)) as [-> ->].
    destruct Hs as [_ Hw]. specialize (Hw token). cbn [firsts id]. unfold leave_over.
    destruct (decide (token ∈ words)) as [Hin|Hin].
    + rewrite (bool_decide_true (_ ∈ seen p)), (bool_decide_true (id token ∈ words)) by tauto.
      by replace (words ∪ {[token]}) with words by set_solver.
    + rewrite (bool_decide_false (_ ∈ seen p)), (bool_decide_false (id token ∈ words)) by tauto.
      cbn [categories unmatched]. by rewrite <-app_assoc.
Qed.

(** The proposals are the first word of each category, at the category's floor, and the
    words left over are the first of each that no tier resolves: every word of three bytes
    or more is accounted for once. *)
Theorem compile_exact `{Alphabet} (sentence : string) :
  let words := counted (sentence_tokens sentence) in
  c_categories (compile c sentence) = firsts pc_category ∅ (omap (resolved c) words) /\
  c_unmatched (compile c sentence) = firsts id ∅ (List.filter (unresolved c) words).
Proof using plain.
  intros words. unfold compile. cbn [c_categories c_unmatched].
  assert (Hf : forall raws p, foldl (take_token c) p raws = foldl (fun p token => match resolve c token with
      | Some cat => propose cat (floor c cat) token p | None => leave_over token p end) p (counted raws)).
  { induction raws as [|raw raws IH]; intros p; cbn [foldl]; [done|]. rewrite IH, take_token_counted, <-foldl_app.
    f_equal. unfold counted. cbn [map]. change (raw :: raws) with ([raw] ++ raws)%list. cbn [List.filter].
    by destruct (negb _). }
  rewrite Hf. apply (compile_fold words no_proposals ∅ ∅). split; cbn; set_solver.
Qed.
End CompileExact.

(** ** Witnesses: a codec *)

Module ToyCodec.
Definition sensitivity_of (v : Json) : option Sensitivity :=
  s ← as_str v; if String.eqb s "safe" then Some Safe else if String.eqb s "sensitive" then Some Sensitive else None.

Definition strings_of (v : Json) : option (list string) := l ← as_array v; mapM as_str l.

(** A number as its sign, mantissa and exponent. *)
Definition f32_value (x : f32) : Json :=
  match x with
  | S754_zero s => JArray [JBool s]
  | S754_infinity s => JArray [JBool s; JNull]
  | S754_nan => JNull
  | S754_finite s m e => JArray [JBool s; JNumber (PosInt (Zpos m)); JNumber (NegInt e)]
  end.

Definition f32_of (v : Json) : option f32 :=
  match v with
  | JArray [JBool s] => Some (S754_zero s)
  | JArray [JBool s; JNull] => Some (S754_infinity s)
  | JNull => Some S754_nan
  | JArray [JBool s; JNumber (PosInt (Zpos m)); JNumber (NegInt e)] => Some (S754_finite s m e)
  | _ => None
  end.

Definition text_of (v : Json) (k : string) : option string := get v k ≫= as_str.

Definition tag_of (v : Json) : option TagOutput :=
  cat ← text_of v "category"; s ← get v "sensitivity" ≫= sensitivity_of; x ← get v "confidence" ≫= f32_of;
  src ← text_of v "source"; Some {| t_category := cat; t_sensitivity := s; t_confidence := x; t_source := src |}.

Definition proposed_of (v : Json) : option ProposedCategory :=
  cat ← text_of v "category"; s ← get v "sensitivity" ≫= sensitivity_of; m ← text_of v "matched";
  Some {| pc_category := cat; pc_sensitivity := s; pc_matched := m |}.

Definition compile_of (v : Json) : option CompileResult :=
  l ← get v "categories" ≫= as_array; cats ← mapM proposed_of l; um ← get v "unmatched" ≫= strings_of;
  engine ← text_of v "engine"; Some {| c_categories := cats; c_unmatched := um; c_engine := engine |}.

Definition intent_of (v : Json) : option PolicyIntent :=
  op ← text_of v "operation"; r ← get v "resource"; entity ← text_of r "entity"; cat ← text_of r "category";
  attributes ← get v "attributes" ≫= strings_of; s ← get v "sensitivity" ≫= sensitivity_of;
  x ← get v "confidence" ≫= f32_of; engine ← text_of v "engine"; un ← get v "unresolved" ≫= strings_of;
  Some {| i_operation := op; i_resource := {| r_entity := entity; r_category := cat; r_data_class := text_of r "data_class" |};
          i_limit := None; i_attributes := attributes; i_sensitivity := s; i_confidence := x; i_engine := engine;
          i_unresolved := un |}.

Definition codec : ClassifyJson := {|
  tag_from_value v := ok_or "shape" (tag_of v);
  compile_from_value v := ok_or "shape" (compile_of v);
  intent_from_value v := ok_or "shape" (intent_of v);
  number_of_f32 := f32_value;
  number_of_f64 _ := JNull;
  number_as_f64 _ := zero;
  show_f32 _ := "?";
  show_f64 _ := "?" |}.

Lemma f32_of_value x : f32_of (f32_value x) = Some x.
Proof. by destruct x. Qed.

Lemma strings_of_list l : strings_of (string_list l) = Some l.
Proof.
  unfold strings_of, string_list. cbn [as_array mbind option_bind]. induction l as [|s l IH]; [done|].
  cbn [map mapM as_str mbind option_bind]. by rewrite IH.
Qed.

Lemma proposed_read (p : ProposedCategory) : proposed_of (proposed_value p) = Some p.
Proof. by destruct p as [? [] ?]. Qed.

Lemma all_proposed_read cats : mapM proposed_of (map proposed_value cats) = Some cats.
Proof. induction cats as [|p cats IH]; [done|]. cbn [map mapM]. rewrite proposed_read. cbn [mbind option_bind]. by rewrite IH. Qed.

Lemma tag_read (t : TagOutput) : tag_from_value (ClassifyJson := codec) (tag_value (H := codec) t) = Ok t.
Proof. destruct t as [cat [] [[]|[]| |[] m e] src]; reflexivity. Qed.

Lemma compile_read (r : CompileResult) : compile_from_value (ClassifyJson := codec) (compile_value r) = Ok r.
Proof.
  destruct r as [cats um engine]. cbn [tag_from_value compile_from_value codec]. unfold compile_of, text_of.
  cbn -[strings_of string_list mapM proposed_of proposed_value]. rewrite all_proposed_read.
  cbn -[strings_of string_list]. by rewrite strings_of_list.
Qed.

Lemma intent_read (i : PolicyIntent) : i_limit i = None ->
  intent_from_value (ClassifyJson := codec) (intent_value (H := codec) i) = Ok i.
Proof.
  destruct i as [op [entity cat dc] lim attributes s x engine un]. cbn [i_limit]. intros ->.
  cbn [intent_from_value codec]. unfold intent_of, text_of.
  destruct dc, s; cbn -[strings_of string_list f32_of f32_value]; rewrite strings_of_list;
    cbn -[strings_of string_list f32_of f32_value]; rewrite f32_of_value;
    cbn -[strings_of string_list]; by rewrite strings_of_list.
Qed.

Lemma number_written (x : f32) : scan_forbidden_keys (number_of_f32 (ClassifyJson := codec) x) = [].
Proof. by destruct x. Qed.

(** A purchase as a model may write it, and the same with a verdict in it. *)
Definition purchase : PolicyIntent :=
  {| i_operation := "payment.direct"; i_resource := {| r_entity := "trip.com"; r_category := "travel"; r_data_class := None |};
     i_limit := None; i_attributes := ["mcc:4722"]; i_sensitivity := Sensitive; i_confidence := f32_ratio 3 10;
     i_engine := "llm"; i_unresolved := ["the passenger"] |}.
Definition decided : Json := set_key (intent_value (H := codec) purchase) "approved" (JBool true).

(** No vendor signed anything. *)
Definition no_overlays : OverlayJson := {| overlay_from_slice _ := Err "none" |}.
End ToyCodec.

Section ClassifyWitness.
#[local] Existing Instances ToyVerifier.sha ToyVerifier.p256 ToyCodec.no_overlays ToyCodec.codec AsciiAlphabet.alphabet.

Example validated_output_safe_witness :
  let c := Catalog.run bundled [] in
  report_ok (validate_output c RequestParse (intent_value ToyCodec.purchase) true) = true /\
  report_ok (validate_output c RequestParse ToyCodec.decided true) = false /\
  (forall k, k ∈ FORBIDDEN_KEYS -> ~ occurs k (intent_value ToyCodec.purchase)) /\
  (forall cat s, (cat, s) ∈ claims RequestParse (intent_value ToyCodec.purchase) -> s = Sensitive).
Proof.
  cbv zeta. assert (Hpass : report_ok (validate_output (Catalog.run bundled []) RequestParse
    (intent_value ToyCodec.purchase) true) = true) by (vm_compute; reflexivity).
  destruct (validated_output_safe [] RequestParse (intent_value ToyCodec.purchase) true Hpass) as (Hk & _ & Ha & _).
  split_and!; [exact Hpass|vm_compute; reflexivity|exact Hk|exact (Ha eq_refl ltac:(done))].
Defined.

Example own_outputs_pass_witness :
  let c := Catalog.run bundled [] in
  category (tag c "Stripe ") = "payments" /\
  validate_output c Tag (tag_value (tag_output (tag c "Stripe "))) false = [] /\
  validate_output c Compile (compile_value (compile c "pay with stripe")) false = [] /\
  (forall adversarial,
     validate_output c RequestParse (intent_value (deny_by_default "payment.direct" "find another way")) adversarial = []).
Proof.
  cbv zeta. destruct (own_outputs_pass (fun t _ => ToyCodec.tag_read t) ToyCodec.compile_read (fun i _ => ToyCodec.intent_read i)
    ToyCodec.number_written [] "Stripe " "pay with stripe" "payment.direct" "find another way" JNull) as (Ht & _ & _ & Hc & Hd).
  - left. apply listed_elem. reflexivity.
  - split_and!; [vm_compute; reflexivity|exact Ht|exact Hc|exact Hd].
Defined.

(** No category of the bundle is spelled like a mark. *)
Lemma unmarked_plain cat w : starts_with UNMATCHED_MARK cat = false -> cat <> UNMATCHED_MARK +:+ w.
Proof. intros Hf ->. by rewrite starts_with_self in Hf. Qed.

Lemma bundled_plain t cat w : resolve bundled t = Some cat -> cat <> UNMATCHED_MARK +:+ w.
Proof.
  intros Hr. apply unmarked_plain. revert Hr. unfold resolve, tag, has_category.
  assert (He : map_Forall (fun _ e => starts_with UNMATCHED_MARK (e_category e) = false) (entities bundled)).
  { apply (bool_decide_unpack _). vm_compute. exact I. }
  assert (Hf : map_Forall (fun k _ => starts_with UNMATCHED_MARK k = false) (floors bundled)).
  { apply (bool_decide_unpack _). vm_compute. exact I. }
  destruct (entities bundled !! _) as [e|] eqn:E.
  - cbn [confidence category]. destruct (0 <? _) eqn:Et; [intros [= <-]; exact (He _ _ E)|by destruct (String.eqb _ _)].
  - cbn [confidence unknown Z.ltb Z.compare]. destruct (floors bundled !! t) as [s|] eqn:Es; cbn [is_some].
    + intros [= <-]. exact (Hf _ _ Es).
    + unfold keyword_category. cbv beta zeta.
      repeat (match goal with |- context [if ?b then _ else _] => destruct b; [intros [= <-]; reflexivity|] end). done.
Qed.

Example compile_example :
  let r := compile bundled "I use stripe to get paid, invest on the side, and have kids." in
  map pc_category (c_categories r) = ["payments"; "financial"; "family"] /\
  map pc_sensitivity (c_categories r) = [Sensitive; Sensitive; Sensitive] /\
  c_unmatched r = ["use"; "get"; "paid"; "the"; "side"; "and"; "have"].
Proof. vm_compute. split_and!; reflexivity. Qed.
End ClassifyWitness.
