(* ===== verification/Router.v ===== *)
(** * Routing a member's message to a channel

    [crates/agentkeys-worker-channel-weixin/src/jev.rs] (the options a decision model
    picks among, the request, the verdict drawn from its answer, the models a turn
    consults, the reply to a numbered ask), [router.rs] (the whole-word tier),
    [transport.rs] and [parse_alias] of [agentkeys-protocol/src/lib.rs].  The model itself
    is behind the wire: its answer is an argument.  Probabilities are double-precision
    numbers. *)
From Stdlib Require Import SpecFloat.
From stdpp Require Import gmap.
From S2P Require Import Prelude RustStr StrFacts Utf8 F64 Json SessionScope Relay Channels.

Open Scope string_scope.
Open Scope Z_scope.

(** ** The alias at the head of a message, and the label of a delivery *)

Definition alias_char (c : Ascii.ascii) : bool :=
  is_ascii_lowercase c || is_ascii_digit c || Ascii.eqb c "-"%char || Ascii.eqb c "_"%char.

Definition parse_alias (text : string) : option string * string :=
  match strip_prefix "/" (utrim_start text) with
  | None => (None, text)
  | Some rest =>
      let '(w, remaining) := split_whitespace_once (Utf8.chars rest) in
      let alias := concat_chars w in
      if String.eqb alias "" || negb (string_all alias_char alias) then (None, text)
      else (Some alias, utrim_start (concat_chars (default [] remaining)))
  end.

Inductive TransportKind := Aggregating | ChannelNative.

Definition label (k : TransportKind) (channel_name text : string) : string :=
  match k with
  | Aggregating => "[" +:+ trim channel_name +:+ "] " +:+ text
  | ChannelNative => text
  end.

(** ** Settings *)

Inductive RouterEngine := Auto | Jev | Deterministic.

Definition RouterEngine_parse (s : string) : option RouterEngine :=
  let s := to_lowercase (trim s) in
  if existsb (String.eqb s) [""; "auto"] then Some Auto
  else if existsb (String.eqb s) ["jev"; "model"] then Some Jev
  else if existsb (String.eqb s) ["deterministic"; "off"; "none"] then Some Deterministic
  else None.

Record RouterConfig := {
  engine : RouterEngine; gate_url : option string; gate_key : option string;
  default_model : string; models : list string; threshold : f64; ask_ttl_secs : Z;
  continue_threshold : f64; describe_photos : bool }.

Definition jev_active (c : RouterConfig) : bool :=
  match engine c with
  | Deterministic => false
  | Jev | Auto => is_some (gate_url c) && is_some (gate_key c)
  end.

Definition engine_label (c : RouterConfig) : string :=
  if jev_active c then "jev" else "deterministic".

Definition offers (c : RouterConfig) (model : string) : bool :=
  existsb (fun m => String.eqb m (trim model)) (models c).

Record ActiveModels := { am_model : string; am_compare : list string; am_stale : option string }.

Definition active_models (c : RouterConfig) (choice : option RouterSettings) : ActiveModels :=
  let picked := x ← choice; m ← r_model x; if String.eqb (trim m) "" then None else Some (trim m) in
  let '(model, stale) :=
    match picked with
    | Some m => if offers c m then (m, None) else (default_model c, Some m)
    | None => (default_model c, None)
    end in
  {| am_model := model;
     am_compare := if match choice with Some x => r_compare x | None => false end
                   then List.filter (fun m => negb (String.eqb m model)) (models c) else [];
     am_stale := stale |}.

(** ** Options *)

Definition UNCLEAR_OPTION : string := "unclear".
Definition DESTINATION_QUESTION : string := "destination".
Definition CONTINUES_QUESTION : string := "continues".
Definition ASK_CANDIDATES : nat := 3.

Definition tier_zh (t : ContactTier) : string :=
  match t with
  | Owner => "拥有者" | Partner => "配偶" | Elder => "长辈" | Kid => "孩子" | Helper => "帮手" | Guest => "访客"
  end.

Record OptionApp := { oa_alias : string; oa_description : string; oa_takes : list ChannelEventKind }.

Record ChannelOption := {
  o_id : string; o_name : string; o_line : string; o_head : string; o_members_line : string;
  o_apps : list OptionApp; o_members : list string; o_operator_of : option string; o_updated_at : Z }.

Record OptionKey := { k_key : string; k_channel : string; k_app : option string }.

Definition keys_of (o : ChannelOption) : list OptionKey :=
  if (2 <=? length (o_apps o))%nat
  then map (fun a => {| k_key := o_id o +:+ "/" +:+ oa_alias a; k_channel := o_id o;
                        k_app := Some (oa_alias a) |}) (o_apps o)
  else [{| k_key := o_id o; k_channel := o_id o; k_app := None |}].

Definition option_keys (options : list ChannelOption) : list OptionKey := concat (map keys_of options).

Definition described (a : OptionApp) : string :=
  if String.eqb (oa_description a) "" then oa_alias a
  else oa_alias a +:+ "（" +:+ trim_end_matches "。" (oa_description a) +:+ "）".

Definition row_line (o : ChannelOption) (alias : string) : string :=
  let mine := List.find (fun a => eq_lower (oa_alias a) alias) (o_apps o) in
  let others := map oa_alias (List.filter (fun a => negb (eq_lower (oa_alias a) alias)) (o_apps o)) in
  o_head o
  +:+ match mine with Some a => "这条给 " +:+ described a +:+ "。" | None => "" end
  +:+ (if is_nil others then "" else "也在这里：" +:+ join "、" others +:+ "。")
  +:+ o_members_line o.

Definition opt_default_app (o : ChannelOption) (doc_default : option string) : option string :=
  let only := match o_apps o with [one] => Some (oa_alias one) | _ => None end in
  match doc_default with
  | Some d => if existsb (fun a => eq_lower (oa_alias a) d) (o_apps o) then Some (to_lowercase d) else only
  | None => only
  end.

Definition oa_takes_kind (a : OptionApp) (k : ChannelEventKind) : bool :=
  is_nil (oa_takes a) || kind_in k (oa_takes a).

Definition opt_takes (o : ChannelOption) (alias : string) (k : ChannelEventKind) : bool :=
  match List.find (fun a => eq_lower (oa_alias a) alias) (o_apps o) with
  | Some a => oa_takes_kind a k
  | None => false
  end.

Definition opt_apps_taking (o : ChannelOption) (k : ChannelEventKind) : list OptionApp :=
  List.filter (fun a => oa_takes_kind a k) (o_apps o).

(** The other members, those who speak and those who only read. *)
Definition others_where (p : ChannelMember -> bool) (doc : ChannelDoc) (r : ContactRegistry)
    (for_contact : string) : list string :=
  omap (fun m =>
    if String.eqb (m_contact m) for_contact then None
    else c ← reg_contact r (m_contact m);
         if p m then Some (c_display c +:+ "（" +:+ tier_zh (c_tier c) +:+ "）") else None) (members doc).

Definition members_line_of (speakers readers : list string) : string :=
  if is_nil speakers && is_nil readers then "成员：只有你。"
  else "成员：你"
       +:+ (if is_nil speakers then "" else "、" +:+ join "、" speakers)
       +:+ (if is_nil readers then "" else "；" +:+ join "、" readers +:+ "只看")
       +:+ "。".

Definition render_option (doc : ChannelDoc) (r : ContactRegistry) (for_contact : string) : ChannelOption :=
  let name := display_name doc in
  let head :=
    match operator_of doc with
    | Some app => name +:+ "（" +:+ app +:+ " 的操作频道）"
    | None => name
    end
    +:+ (if String.eqb (trim (purpose doc)) "" then "" else "：" +:+ trim (purpose doc))
    +:+ "。" in
  let apps := map (fun a => {| oa_alias := to_lowercase (app_alias a);
                               oa_description := trim (app_description a);
                               oa_takes := app_takes a |}) (apps doc) in
  let speakers := others_where m_speak doc r for_contact in
  let readers := others_where (fun m => negb (m_speak m) && m_read m) doc r for_contact in
  let members_line := members_line_of speakers readers in
  {| o_id := doc_id doc; o_name := name;
     o_line := head
               +:+ (if is_nil apps then "" else "在这里：" +:+ join "；" (map described apps) +:+ "。")
               +:+ members_line;
     o_head := head; o_members_line := members_line; o_apps := apps;
     o_members := (speakers ++ readers)%list;
     o_operator_of := operator_of doc; o_updated_at := updated_at doc |}.

Definition channel_options (r : ContactRegistry) (contact_id : string) : list ChannelOption :=
  map (fun d => render_option d r contact_id)
      (sort_by_bool is_operator (speak_channels r contact_id)).

(** ** The request *)

Definition DESTINATION_INSTRUCTIONS : string :=
  "Which of the household's channels does `message` belong on, and to which assistant there? It was sent by `sender`, a family member of tier `sender_tier`. Each option is a channel — what it is for and who else is in it — with the assistant that would answer there and what that assistant does on it (a channel with several assistants is one option per assistant). A message may ask for something, report something the member did, ate, cooked, bought or noticed, or describe a photo they sent. Pick the option whose purpose covers what the message is about — a report goes where that part of family life is kept track of, just as a request does; a general assistant takes only what no other assistant covers. An assistant's own operator channel is for instructions to that assistant itself (how it should work, its schedule and settings, approving or stopping what it proposed), never for everyday requests.".
Definition CONTINUES_INSTRUCTIONS : string :=
  "The family member's previous message went to the channel `last_channel`. Is `message` a continuation of that conversation — a short reply, a follow-up question, more detail about what they just shared or showed, or a request for more of the same — rather than a new request for something else?".
Definition UNCLEAR_CRITERION : string := "none of the listed channels clearly fits this message".
Definition CONTINUES_YES : string := "continues the conversation on `last_channel`".
Definition CONTINUES_NO : string := "a new request that stands on its own".

(** The criterion of a key; [None] stands for the panic of a key without its option. *)
Definition key_line (options : list ChannelOption) (k : OptionKey) : option string :=
  o ← List.find (fun o => String.eqb (o_id o) (k_channel k)) options;
  Some match k_app k with Some alias => row_line o alias | None => o_line o end.

Definition skipped_key (k : OptionKey) : bool :=
  String.eqb (k_key k) "" || String.eqb (k_key k) UNCLEAR_OPTION.

Fixpoint build_criteria (options : list ChannelOption) (keys : list OptionKey)
    (criteria : list (string * Json)) : option (list (string * Json)) :=
  match keys with
  | [] => Some criteria
  | k :: keys =>
      if skipped_key k then build_criteria options keys criteria
      else line ← key_line options k;
           build_criteria options keys (obj_insert (k_key k) (JString line) criteria)
  end.

Definition continues_question (last_name : string) : SystemOneQuestion :=
  Noul (JObject [("last_channel", JString last_name); ("question", JString CONTINUES_INSTRUCTIONS)])
       (Some {| noul_yes := Some (JString CONTINUES_YES); noul_no := Some (JString CONTINUES_NO) |}).

Definition build_request (model message sender sender_tier : string) (last_channel : option string)
    (options : list ChannelOption) : option SystemOneRequest :=
  criteria ← build_criteria options (option_keys options) [];
  let criteria := obj_insert UNCLEAR_OPTION (JString UNCLEAR_CRITERION) criteria in
  let destination := (DESTINATION_QUESTION, Choice (JString DESTINATION_INSTRUCTIONS) criteria) in
  let last := l ← last_channel; o ← List.find (fun o => String.eqb (o_id o) l) options; Some (o_name o) in
  Some {| so_model := model;
          so_state := JObject [("message", JString message); ("sender", JString sender);
                               ("sender_tier", JString sender_tier)];
          so_questions := match last with
                          | Some name => [(CONTINUES_QUESTION, continues_question name); destination]
                          | None => [destination]
                          end |}.

(** ** The answer and the verdict *)

Inductive SystemOneAnswer :=
| ANoul (noul : f64)
| AChoice (choice : string) (probabilities : list (string * f64)) (confidence : f64)
| AScore (score : f64) (legend : list (string * string)) (probabilities : list (string * f64)) (confidence : f64).

(** The answers and the probabilities are maps: lists in key order. *)
Record SystemOneResponse := {
  rs_model : string; rs_answers : list (string * SystemOneAnswer); rs_usage : SystemOneUsage }.

Definition answer (r : SystemOneResponse) (key : string) : option SystemOneAnswer :=
  '(_, a) ← List.find (fun '(k, _) => String.eqb k key) (rs_answers r); Some a.

Definition resp_choice (r : SystemOneResponse) (key : string) : option (string * list (string * f64) * f64) :=
  a ← answer r key;
  match a with AChoice c p conf => Some (c, p, conf) | _ => None end.

Definition resp_noul (r : SystemOneResponse) (key : string) : option f64 :=
  a ← answer r key; match a with ANoul n => Some n | _ => None end.

Inductive JevVerdict :=
| VRoute (channel : string) (addressee : option string) (confidence : f64) (follow_up : bool)
| VAsk (candidates : list string) (confidence : f64)
| VMalformed (why : string).

Definition canonical (keys : list OptionKey) (key : string) : option OptionKey :=
  List.find (fun k => eq_lower (trim (k_key k)) (trim key)) keys.

Definition in_set (keys : list OptionKey) (key : string) : bool :=
  eq_lower (trim key) UNCLEAR_OPTION || is_some (canonical keys key).

(** [ranked.sort_by(..)]: a stable sort, the larger share first. *)
Fixpoint insert_ranked (x : string * f64) (l : list (string * f64)) : list (string * f64) :=
  match l with
  | [] => [x]
  | y :: l' => if f64_lt x.2 y.2 then y :: insert_ranked x l' else x :: l
  end.
Definition sort_ranked (l : list (string * f64)) : list (string * f64) := fold_right insert_ranked [] l.

Fixpoint pick_candidates (keys : list OptionKey) (ranked : list (string * f64)) (acc : list string)
    : list string :=
  match ranked with
  | [] => acc
  | (k, _) :: ranked =>
      if String.eqb k UNCLEAR_OPTION then pick_candidates keys ranked acc
      else
        let acc := match canonical keys k with
                   | Some key => if existsb (String.eqb (k_channel key)) acc then acc
                                 else (acc ++ [k_channel key])%list
                   | None => acc
                   end in
        if (ASK_CANDIDATES <=? length acc)%nat then acc else pick_candidates keys ranked acc
  end.

Definition positive_share (p : f64) : f64 := f64_max p zero.

Definition ranked_shares (probabilities : list (string * f64)) : list (string * f64) :=
  let total := f64_sum (map (fun kp => positive_share kp.2) probabilities) in
  sort_ranked (map (fun kp => (to_lowercase (trim kp.1), f64_div (positive_share kp.2) total)) probabilities).

Definition verdict_from (resp : SystemOneResponse) (keys : list OptionKey) (threshold : f64)
    (last_channel : option string) (continue_threshold : f64) : JevVerdict :=
  match resp_choice resp DESTINATION_QUESTION with
  | None => VMalformed ("no choice answer under `" +:+ DESTINATION_QUESTION +:+ "`")
  | Some (choice, probabilities, _) =>
      if negb (in_set keys choice)
      then VMalformed ("chose `" +:+ choice +:+ "`, which is not an option")
      else match List.find (fun kp => negb (in_set keys kp.1)) probabilities with
      | Some (bad, _) => VMalformed ("option `" +:+ bad +:+ "` was never offered")
      | None =>
          let total := f64_sum (map (fun kp => positive_share kp.2) probabilities) in
          match ranked_shares probabilities with
          | [] => VMalformed "empty probabilities"
          | (pick, p1) :: rest =>
              if f64_le total zero then VMalformed "empty probabilities"
              else
                let p2 := match rest with (_, p) :: _ => p | [] => zero end in
                let candidates := pick_candidates keys ((pick, p1) :: rest) [] in
                let picked := canonical keys pick in
                let destination_clear :=
                  negb (String.eqb pick UNCLEAR_OPTION) && f64_le threshold p1 && f64_lt p2 p1 in
                let last := l ← last_channel;
                  if existsb (fun k => String.eqb (k_channel k) l) keys then Some l else None in
                let continues := default zero (resp_noul resp CONTINUES_QUESTION) in
                let elsewhere l := destination_clear &&
                  match picked with Some k => negb (eq_lower (k_channel k) l) | None => false end in
                let onward :=
                  if negb destination_clear then VAsk candidates p1
                  else match picked with
                  | Some key => VRoute (k_channel key) (k_app key) p1 false
                  | None => VMalformed ("pick `" +:+ pick +:+ "` left the option set")
                  end in
                match last with
                | Some l =>
                    if f64_le continue_threshold continues && negb (elsewhere l)
                    then VRoute l None continues true else onward
                | None => onward
                end
          end
      end
  end.

(** ** The whole-word tier *)

Section Words.
Context `{Alphabet}.

Definition word_break (c : string) : bool :=
  negb (is_alphanumeric c) && negb (String.eqb c "-") && negb (String.eqb c "_").

Definition tokenize (text : string) : list string :=
  split_words word_break (Utf8.chars (to_lowercase text)) "".

Inductive RouteVerdict := RRoute (channel : string) (alias : option string) | RAskBack.

Definition mentions (words : list string) (s : string) : bool :=
  let s := to_lowercase (trim s) in negb (String.eqb s "") && existsb (String.eqb s) words.

Definition word_hit (words : list string) (o : ChannelOption) : option (string * option string) :=
  let alias_hit := a ← List.find (fun a => mentions words (oa_alias a)) (o_apps o); Some (oa_alias a) in
  if is_some alias_hit || mentions words (o_id o) || mentions words (o_name o)
  then Some (o_id o, alias_hit) else None.

Definition advisory_route (text : string) (options : list ChannelOption) (enabled : bool) : RouteVerdict :=
  if negb enabled then RAskBack
  else match omap (word_hit (tokenize text)) options with
  | [(channel, alias)] => RRoute channel alias
  | _ => RAskBack
  end.
End Words.

(** * Properties *)

(** ** The options of a member *)

Lemma sort_by_bool_perm {A} (key : A -> bool) (l : list A) : sort_by_bool key l ≡ₚ l.
Proof.
  unfold sort_by_bool. induction l as [|x l IH]; [done|]. cbn [List.filter].
  destruct (key x); cbn [negb].
  - rewrite <-Permutation_middle. by constructor.
  - cbn [app]. by constructor.
Qed.

(** An option is rendered from a channel the member speaks on. *)
Lemma channel_options_elem r c o :
  o ∈ channel_options r c <-> exists d, d ∈ channels r /\ speaks d c = true /\ o = render_option d r c.
Proof.
  unfold channel_options. rewrite elem_of_map. setoid_rewrite sort_by_bool_perm. unfold speak_channels.
  setoid_rewrite elem_of_filterb. naive_solver.
Qed.

Lemma option_keys_elem options k :
  k ∈ option_keys options <-> exists o, o ∈ options /\ k ∈ keys_of o.
Proof.
  unfold option_keys. rewrite list_elem_of_In, in_concat. split.
  - intros (ks & Hks & Hk). apply in_map_iff in Hks as (o & <- & Ho).
    exists o. rewrite !list_elem_of_In. done.
  - intros (o & Ho & Hk). exists (keys_of o). rewrite !list_elem_of_In in *. split; [|done]. by apply in_map.
Qed.

Lemma keys_of_facts o k :
  k ∈ keys_of o -> k_channel k = o_id o /\
  match k_app k with Some a => exists x, x ∈ o_apps o /\ oa_alias x = a | None => k_key k = o_id o end.
Proof.
  unfold keys_of. case_match.
  - intros (a & Ha & ->)%elem_of_map. cbn. eauto.
  - intros ->%list_elem_of_singleton. done.
Qed.

(** ** The ranking of the shares *)

Lemma insert_ranked_perm x l : insert_ranked x l ≡ₚ x :: l.
Proof.
  induction l as [|y l IH]; cbn; [done|]. destruct (f64_lt x.2 y.2); [|done]. rewrite IH. constructor.
Qed.

Lemma sort_ranked_perm l : sort_ranked l ≡ₚ l.
Proof. induction l as [|x l IH]; cbn; [done|]. by rewrite insert_ranked_perm, IH. Qed.

Definition ranks (x y : string * f64) : Prop := f64_lt x.2 y.2 = false.
Definition numbers (l : list (string * f64)) : Prop := Forall (fun x => F64.is_nan x.2 = false) l.

Lemma insert_ranked_sorted x l :
  numbers (x :: l) -> StronglySorted ranks l -> StronglySorted ranks (insert_ranked x l).
Proof.
  intros Hn. induction 1 as [|y l Hs IH Hy]; cbn [insert_ranked]; [repeat constructor|].
  apply Forall_cons in Hn as [Hx Hn]. apply Forall_cons in Hn as [Hy' Hn].
  destruct (f64_lt x.2 y.2) eqn:E.
  - constructor; [by apply IH; constructor|]. rewrite insert_ranked_perm. constructor; [|done].
    by apply f64_lt_asym.
  - constructor; [by constructor|]. constructor; [done|]. rewrite Forall_forall in *.
    intros z Hz. unfold ranks. apply (f64_nlt_trans _ y.2); auto. by apply Hy.
Qed.

Lemma sort_ranked_sorted l : numbers l -> StronglySorted ranks (sort_ranked l).
Proof.
  induction 1 as [|x l Hx Hl IH]; cbn [sort_ranked fold_right]; [constructor|].
  apply insert_ranked_sorted; [|done]. constructor; [done|]. unfold numbers. by rewrite sort_ranked_perm.
Qed.

(** The larger of two ranks is above every other. *)
Lemma ranked_top x rest p :
  numbers (x :: rest) -> StronglySorted ranks (x :: rest) ->
  p = match rest with y :: _ => y.2 | [] => zero end -> f64_lt p x.2 = true ->
  Forall (fun y => f64_lt y.2 x.2 = true) rest.
Proof.
  intros Hn Hs -> Hp. apply Forall_cons in Hn as [Hx Hn]. destruct rest as [|y rest]; [constructor|].
  apply StronglySorted_inv in Hs as [Hs _]. apply StronglySorted_inv in Hs as [_ Hy].
  apply Forall_cons in Hn as [Hny Hn]. constructor; [done|]. rewrite Forall_forall in *.
  intros z Hz. apply (f64_lt_nlt_trans _ y.2); auto. by apply Hy.
Qed.

(** The share of one answer among all of them. *)
Definition share (probabilities : list (string * f64)) (p : f64) : f64 :=
  f64_div (positive_share p) (f64_sum (map (fun kp => positive_share kp.2) probabilities)).

Definition finite_answers (probabilities : list (string * f64)) : Prop :=
  Forall (fun kp => is_finite kp.2 = true) probabilities.

Lemma shares_numbers probabilities l :
  finite_answers probabilities -> l ⊆ probabilities ->
  f64_le (f64_sum (map (fun kp => positive_share kp.2) probabilities)) zero = false ->
  Forall (fun kp => F64.is_nan (share probabilities kp.2) = false) l.
Proof.
  intros Hf Hl Ht. apply Forall_forall. intros kp Hkp. unfold finite_answers in Hf. rewrite Forall_forall in Hf.
  specialize (Hf kp (Hl _ Hkp)). apply nonneg_nan. unfold share, positive_share at 1.
  destruct (f64_max_zero kp.2) as [Hnn Hfin]. apply f64_share; auto.
  apply f64_sum_nonneg, Forall_map, Forall_forall. intros x _. apply f64_max_zero.
Qed.

(** The head of the ranking is one of the answers; the others are the rest. *)
Lemma ranked_shares_head probabilities pick p1 rest :
  ranked_shares probabilities = (pick, p1) :: rest ->
  exists l1 name p l2, probabilities = (l1 ++ (name, p) :: l2)%list /\
    pick = to_lowercase (trim name) /\ p1 = share probabilities p /\
    rest ≡ₚ map (fun kp => (to_lowercase (trim kp.1), share probabilities kp.2)) (l1 ++ l2)%list.
Proof.
  intros H. unfold ranked_shares in H.
  set (f := fun kp : string * f64 => (to_lowercase (trim kp.1), share probabilities kp.2)).
  change (sort_ranked (map f probabilities) = (pick, p1) :: rest) in H.
  pose proof (sort_ranked_perm (map f probabilities)) as HP. rewrite H in HP.
  assert ((pick, p1) ∈ map f probabilities) as Hin by (rewrite <-HP; left).
  apply elem_of_map in Hin as ([name p] & Hin & E). apply list_elem_of_split in Hin as (l1 & l2 & El).
  exists l1, name, p, l2. unfold f in E. injection E as -> ->. split_and!; [done..|].
  pose proof (f_equal (map f) El) as Em. rewrite map_app in Em. cbn [map] in Em. rewrite Em in HP.
  rewrite map_app. change (map (fun kp => (to_lowercase (trim kp.1), share probabilities kp.2))) with (map f).
  rewrite <-Permutation_middle in HP. by apply Permutation_cons_inv in HP.
Qed.

(** ** The verdict *)

Lemma canonical_some keys key k :
  canonical keys key = Some k -> k ∈ keys /\ eq_lower (trim (k_key k)) (trim key) = true.
Proof. intros H. apply find_some in H as [Hin H]. split; [by apply list_elem_of_In|done]. Qed.

Lemma canonical_lower keys name : canonical keys (to_lowercase (trim name)) = canonical keys name.
Proof.
  unfold canonical. apply find_ext_in. intros k _. unfold eq_lower.
  by rewrite trim_lower, trim_idem, lower_idem.
Qed.

Lemma in_set_pick keys name :
  in_set keys name = true -> to_lowercase (trim name) <> UNCLEAR_OPTION ->
  exists k, canonical keys (to_lowercase (trim name)) = Some k.
Proof.
  rewrite canonical_lower. unfold in_set, eq_lower. change (to_lowercase UNCLEAR_OPTION) with UNCLEAR_OPTION.
  intros [H|H]%orb_true_iff Hne; [by apply String.eqb_eq in H|]. by apply is_some_true.
Qed.

(** Where a confident answer of the model may lead. *)
Record bounded_ask (keys : list OptionKey) (candidates : list string) : Prop := {
  ba_nodup : NoDup candidates;
  ba_few : (length candidates <= ASK_CANDIDATES)%nat;
  ba_offered : Forall (fun c => c ∈ map k_channel keys) candidates }.

Lemma pick_candidates_bounded keys ranked acc :
  bounded_ask keys acc -> (length acc < ASK_CANDIDATES)%nat -> bounded_ask keys (pick_candidates keys ranked acc).
Proof.
  revert acc. induction ranked as [|[k p] ranked IH]; intros acc Hb Hl; cbn [pick_candidates]; [done|].
  destruct (String.eqb k UNCLEAR_OPTION); [by apply IH|]. 
  set (acc' := match canonical keys k with
               | Some key => if existsb (String.eqb (k_channel key)) acc then acc
                             else (acc ++ [k_channel key])%list
               | None => acc
               end).
  assert (bounded_ask keys acc') as Hb'.
  { unfold acc'. destruct (canonical keys k) as [key|] eqn:E; [|done].
    destruct (existsb _ acc) eqn:F; [done|]. destruct Hb as [Hn Hf Ho]. rewrite existsb_none in F.
    apply canonical_some in E as [E _]. split.
    - apply NoDup_app. split_and!; [done| |apply NoDup_singleton].
      intros x Hx ->%list_elem_of_singleton. specialize (F _ Hx). by rewrite String.eqb_refl in F.
    - rewrite length_app. cbn. lia.
    - apply Forall_app. split; [done|]. constructor; [|done]. apply elem_of_map. eauto. }
  destruct (ASK_CANDIDATES <=? length acc')%nat eqn:G; [done|]. apply IH; [done|].
  by apply Nat.leb_gt in G.
Qed.

Lemma ask_bounded keys ranked : bounded_ask keys (pick_candidates keys ranked []).
Proof.
  apply pick_candidates_bounded; [|unfold ASK_CANDIDATES; cbn; lia].
  split; [constructor|unfold ASK_CANDIDATES; cbn; lia|constructor].
Qed.

(** The entry a route stands on: it names the key, and has the largest share by far. *)
Definition clear_pick (probabilities : list (string * f64)) (th conf : f64) (k : OptionKey) : Prop :=
  exists l1 name p l2,
    probabilities = (l1 ++ (name, p) :: l2)%list /\ eq_lower (trim (k_key k)) (trim name) = true /\
    to_lowercase (trim name) <> UNCLEAR_OPTION /\ conf = share probabilities p /\ f64_le th conf = true /\
    Forall (fun kp => f64_lt (share probabilities kp.2) conf = true) (l1 ++ l2)%list.

Lemma destination_clear_pick keys probabilities th pick p1 rest k :
  finite_answers probabilities ->
  f64_le (f64_sum (map (fun kp => positive_share kp.2) probabilities)) zero = false ->
  ranked_shares probabilities = (pick, p1) :: rest ->
  negb (String.eqb pick UNCLEAR_OPTION) && f64_le th p1
    && f64_lt (match rest with (_, p) :: _ => p | [] => zero end) p1 = true ->
  canonical keys pick = Some k -> clear_pick probabilities th p1 k.
Proof.
  intros Hf Ht Hr Hc Hk. destruct (ranked_shares_head _ _ _ _ Hr) as (l1 & name & p & l2 & El & -> & Ep & Hrest).
  reflect_bools. exists l1, name, p, l2. apply canonical_some in Hk as [_ Hk].
  rewrite trim_lower, trim_idem in Hk. split_and!; try done.
  - unfold eq_lower in *. by rewrite lower_idem in Hk.
  - set (g := fun kp : string * f64 => (to_lowercase (trim kp.1), share probabilities kp.2)) in *.
    assert (numbers ((to_lowercase (trim name), p1) :: rest)) as Hn.
    { unfold numbers. rewrite <-Hr. unfold ranked_shares. rewrite sort_ranked_perm. apply Forall_map.
      apply (shares_numbers probabilities probabilities Hf); done. }
    assert (Forall (fun y => f64_lt y.2 p1 = true) (map g (l1 ++ l2)%list)) as Hall.
    { rewrite <-Hrest. eapply (ranked_top (to_lowercase (trim name), p1) rest); [exact Hn| |reflexivity|].
      - rewrite <-Hr. apply sort_ranked_sorted. unfold numbers. apply Forall_map.
        apply (shares_numbers probabilities probabilities Hf); done.
      - by destruct rest as [|[]]. }
    apply Forall_map in Hall. exact Hall.
Qed.

(** What each verdict rests on. *)
Definition verdict_stands (resp : SystemOneResponse) (keys : list OptionKey) (th : f64)
    (last : option string) (cth : f64) (v : JevVerdict) : Prop :=
  match v with
  | VRoute channel addressee conf true =>
      last = Some channel /\ channel ∈ map k_channel keys /\ addressee = None /\
      conf = default zero (resp_noul resp CONTINUES_QUESTION) /\ f64_le cth conf = true
  | VRoute channel addressee conf false =>
      exists k c probabilities vendor, k ∈ keys /\ k_channel k = channel /\ k_app k = addressee /\
        resp_choice resp DESTINATION_QUESTION = Some (c, probabilities, vendor) /\
        clear_pick probabilities th conf k
  | VAsk candidates _ => bounded_ask keys candidates
  | VMalformed _ =>
      match resp_choice resp DESTINATION_QUESTION with
      | None => True
      | Some (c, probabilities, _) =>
          in_set keys c = false \/ (exists kp, kp ∈ probabilities /\ in_set keys kp.1 = false) \/
          f64_le (f64_sum (map (fun kp => positive_share kp.2) probabilities)) zero = true
      end
  end.

Lemma ranked_shares_nil probabilities : ranked_shares probabilities = [] -> probabilities = [].
Proof.
  unfold ranked_shares. intros H.
  set (l := map _ probabilities) in H. pose proof (sort_ranked_perm l) as HP. rewrite H in HP.
  apply Permutation_nil_l in HP. symmetry in HP. unfold l in HP. by apply map_eq_nil in HP.
Qed.

(** C29: Whatever the model answers, the verdict stays among the options it was sent: a route
    names the channel and app of one of the keys, picked strictly above every other answer
    and at least at the threshold, or stays on the last channel because the answer says the
    conversation goes on; an ask names at most three channels of the keys, each once; and an
    answer is unusable only when it chose or rated something that was never offered, or
    rated nothing above zero. *)
Theorem verdict_bounded resp keys th last cth
    (Hf : forall c probabilities vendor,
       resp_choice resp DESTINATION_QUESTION = Some (c, probabilities, vendor) -> finite_answers probabilities) :
  verdict_stands resp keys th last cth (verdict_from resp keys th last cth).
Proof.
  unfold verdict_from. destruct (resp_choice resp DESTINATION_QUESTION) as [[[c probs] vendor]|] eqn:Hc;
    [|unfold verdict_stands; by rewrite Hc].
  specialize (Hf _ _ _ eq_refl). destruct (in_set keys c) eqn:Hin; cbn [negb];
    [|unfold verdict_stands; rewrite Hc; by left].
  destruct (List.find _ probs) as [[bad pb]|] eqn:Hbad.
  { apply find_some in Hbad as [Hbad Hn]. apply negb_true_iff in Hn. unfold verdict_stands. rewrite Hc.
    right. left. exists (bad, pb). by rewrite list_elem_of_In. }
  destruct (ranked_shares probs) as [|[pick p1] rest] eqn:Hr.
  { apply ranked_shares_nil in Hr as ->. unfold verdict_stands. rewrite Hc. by right; right. }
  destruct (f64_le _ zero) eqn:Ht; [unfold verdict_stands; rewrite Hc; by right; right|].
  set (clear := negb (String.eqb pick UNCLEAR_OPTION) && f64_le th p1 && _).
  set (onward := if negb clear then _ else _).
  assert (verdict_stands resp keys th last cth onward) as Ho.
  { unfold onward. destruct clear eqn:Ec; cbn [negb]; [|apply ask_bounded].
    destruct (canonical keys pick) as [k|] eqn:Ek.
    - exists k, c, probs, vendor. pose proof (canonical_some _ _ _ Ek) as [Hk _]. split_and!; try done.
      by apply (destination_clear_pick keys _ _ pick p1 rest).
    - exfalso. unfold clear in Ec. reflect_bools.
      destruct (ranked_shares_head _ _ _ _ Hr) as (l1 & name & p & l2 & El & -> & _ & _).
      assert (in_set keys name = true) as Hs.
      { assert ((name, p) ∈ probs) as Hp by (rewrite El, elem_of_app; right; left).
        apply list_elem_of_In in Hp. apply (find_none _ _ Hbad) in Hp. by apply negb_false_iff in Hp. }
      destruct (in_set_pick keys name Hs) as [k Hk]; [done|]. by rewrite Hk in Ek. }
  destruct last as [l|]; cbn [mbind option_bind]; [|done].
  destruct (existsb _ keys) eqn:Hex; [|done].
  destruct (f64_le cth _ && negb _) eqn:Hcont; [|done]. reflect_bools. cbn [verdict_stands].
  apply existsb_elem in Hex as (k & Hk & He%String.eqb_eq). split_and!; try done.
  apply elem_of_map. eauto.
Qed.

(** ** The request *)

Lemma build_criteria_total options keys criteria :
  (forall k, k ∈ keys -> exists o, o ∈ options /\ o_id o = k_channel k) ->
  exists out, build_criteria options keys criteria = Some out /\
    forall key, is_some (obj_get key out) = true <->
      is_some (obj_get key criteria) = true \/ exists k, k ∈ keys /\ skipped_key k = false /\ k_key k = key.
Proof.
  revert criteria. induction keys as [|k keys IH]; intros criteria Hk; cbn [build_criteria].
  { exists criteria. split; [done|]. intros key. split; [by left|]. intros [?|(k & H & _)]; [done|].
    by apply not_elem_of_nil in H. }
  assert (forall x, x ∈ keys -> exists o, o ∈ options /\ o_id o = k_channel x) as Hks
    by (intros x Hx; apply Hk; by right).
  destruct (skipped_key k) eqn:E.
  - destruct (IH criteria Hks) as (out & -> & H). exists out. split; [done|]. intros key. rewrite H.
    setoid_rewrite elem_of_cons. split; [intros [?|(x & ? & ? & ?)]; [by left|right; exists x; auto]|].
    intros [?|(x & [->|?] & ? & ?)]; [by left|congruence|eauto].
  - destruct (Hk k) as (o & Ho & Hi); [left|]. unfold key_line.
    destruct (List.find _ options) as [o'|] eqn:F.
    2:{ apply list_elem_of_In in Ho. apply (find_none _ _ F) in Ho. by rewrite Hi, String.eqb_refl in Ho. }
    cbn [mbind option_bind].
    destruct (IH (obj_insert (k_key k)
      (JString match k_app k with Some alias => row_line o' alias | None => o_line o' end) criteria) Hks)
      as (out & -> & H). exists out. split; [done|]. intros key. rewrite H, obj_get_insert.
    setoid_rewrite elem_of_cons. destruct (String.eqb_spec key (k_key k)) as [->|Hne].
    { split; [intros _; right; exists k; auto|by left]. }
    split; [intros [?|(x & ? & ? & ?)]; [by left|right; exists x; auto]|].
    intros [?|(x & [->|?] & ? & ?)]; [by left|congruence|eauto].
Qed.

(** The request is always built: its destination question offers the key of every
    channel of the member's, one per app where several are bound, and [unclear]; an answer
    over what was offered is never out of the option set; and the follow-up question is
    asked exactly when the last channel is one of the options. *)
Theorem request_offers_options model message sender tier last options :
  exists req criteria,
    build_request model message sender tier last options = Some req /\
    so_questions req
    = ((match l ← last; List.find (fun o => String.eqb (o_id o) l) options with
        | Some o => [(CONTINUES_QUESTION, continues_question (o_name o))]
        | None => []
        end) ++ [(DESTINATION_QUESTION, Choice (JString DESTINATION_INSTRUCTIONS) criteria)])%list /\
    (forall key, is_some (obj_get key criteria) = true <->
       key = UNCLEAR_OPTION \/
       exists k, k ∈ option_keys options /\ skipped_key k = false /\ k_key k = key) /\
    forall key, is_some (obj_get key criteria) = true -> in_set (option_keys options) key = true.
Proof.
  destruct (build_criteria_total options (option_keys options) []) as (out & E & H).
  { intros k (o & Ho & Hk)%option_keys_elem. exists o. split; [done|]. by apply keys_of_facts in Hk as [-> _]. }
  unfold build_request. rewrite E. cbn [mbind option_bind].
  assert (forall key, is_some (obj_get key (obj_insert UNCLEAR_OPTION (JString UNCLEAR_CRITERION) out)) = true <->
       key = UNCLEAR_OPTION \/
       exists k, k ∈ option_keys options /\ skipped_key k = false /\ k_key k = key) as Hc.
  { intros key. rewrite obj_get_insert. destruct (String.eqb_spec key UNCLEAR_OPTION) as [->|Hne]; [naive_solver|].
    rewrite H. cbn [obj_get is_some]. naive_solver. }
  do 2 eexists. split_and!; [reflexivity| |exact Hc|].
  - cbn [so_questions]. destruct last as [l|]; cbn [mbind option_bind]; [|done]. by destruct (List.find _ options).
  - intros key [->|(k & Hk & _ & <-)]%Hc; [done|]. unfold in_set. apply orb_true_iff. right.
    unfold canonical. destruct (List.find _ (option_keys options)) eqn:F; [done|].
    apply list_elem_of_In in Hk. apply (find_none _ _ F) in Hk. unfold eq_lower in Hk.
    by rewrite String.eqb_refl in Hk.
Qed.

(** ** The whole-word tier *)

Lemma omap_singleton {A B} (f : A -> option B) (l : list A) y :
  omap f l = [y] -> exists l1 x l2, l = (l1 ++ x :: l2)%list /\ f x = Some y /\
    Forall (fun x => f x = None) (l1 ++ l2)%list.
Proof.
  induction l as [|x l IH]; cbn [omap list_omap]; [done|]. destruct (f x) as [z|] eqn:E.
  - intros [= -> Hn]. exists [], x, l. split_and!; [done..|]. cbn [app].
    clear -Hn. induction l as [|a l IH]; [constructor|]. cbn in Hn. destruct (f a) eqn:E; [done|]. auto.
  - intros H. destruct (IH H) as (l1 & x' & l2 & -> & Hx & Hn). exists (x :: l1), x', l2.
    split_and!; [done..|]. by constructor.
Qed.

(** A word names the id or name of the channel, or an app of it. *)
Definition names_option `{Alphabet} (text : string) (o : ChannelOption) : Prop :=
  is_some (word_hit (tokenize text) o) = true.

(** The whole-word tier routes exactly when one option alone is named, and to it. *)
Lemma advisory_route_exact `{Alphabet} text options enabled ch alias :
  advisory_route text options enabled = RRoute ch alias ->
  enabled = true /\ exists l1 o l2, options = (l1 ++ o :: l2)%list /\ o_id o = ch /\
    word_hit (tokenize text) o = Some (ch, alias) /\
    Forall (fun x => ~ names_option text x) (l1 ++ l2)%list /\
    match alias with Some a => exists x, x ∈ o_apps o /\ oa_alias x = a | None => True end.
Proof.
  unfold advisory_route. destruct enabled; cbn [negb]; [|done]. intros Hr. split; [done|].
  destruct (omap _ options) as [|[c a] [|]] eqn:E; try done. injection Hr as -> ->.
  apply omap_singleton in E as (l1 & o & l2 & -> & Ho & Hn). exists l1, o, l2.
  assert (o_id o = ch /\ match alias with Some a => exists x, x ∈ o_apps o /\ oa_alias x = a | None => True end)
    as [Hi Ha].
  { unfold word_hit in Ho. destruct (_ || _ || _) in Ho; [|done]. injection Ho as <- <-. split; [done|].
    destruct (List.find _ (o_apps o)) as [x|] eqn:F; cbn [mbind option_bind]; [|done].
    apply find_some in F as [F _]. exists x. by rewrite list_elem_of_In. }
  split_and!; try done. eapply Forall_impl; [exact Hn|]. intros x Hx. unfold names_option. cbn in Hx.
  by rewrite Hx.
Qed.

(** ** Concrete answers *)
Module ToyAnswers.
Definition options : list ChannelOption := channel_options ToyHome.home "mom".
Definition half : f64 := ratio 1 2.
Definition answered (ps : list (string * f64)) (continues : f64) : SystemOneResponse :=
  {| rs_model := "jev-1.13.0";
     rs_answers := [(CONTINUES_QUESTION, ANoul continues);
                    (DESTINATION_QUESTION, AChoice "general" ps (ratio 1 2))];
     rs_usage := {| so_input_tokens := 10; so_output_tokens := 1 |} |}.
Definition sure : SystemOneResponse :=
  answered [("General", ratio 8 10); ("opchat-chef/chef", ratio 15 100); ("unclear", ratio 5 100)] (ratio 1 10).
Definition torn : SystemOneResponse :=
  answered [("general", ratio 4 10); ("opchat-chef/chef", ratio 4 10); ("opchat-chef/stats", ratio 2 10)]
           (ratio 9 10).
End ToyAnswers.

Example keys_of_home :
  map k_key (option_keys ToyAnswers.options) = ["general"; "opchat-chef/chef"; "opchat-chef/stats"].
Proof. reflexivity. Qed.

Example line_of_general :
  map o_line ToyAnswers.options
  = ["Family：daily life。在这里：chef（meals）。成员：你；Kid（孩子）只看。";
     "opchat-chef（chef 的操作频道）。在这里：chef（meals）；stats。成员：只有你。"].
Proof. reflexivity. Qed.

Example sure_routes :
  match verdict_from ToyAnswers.sure (option_keys ToyAnswers.options) (ratio 1 2) None (ratio 7 10) with
  | VRoute "general" None _ false => true | _ => false end = true.
Proof. vm_compute. reflexivity. Qed.

(** A tie asks, unless the conversation goes on where it was. *)
Example torn_asks :
  match verdict_from ToyAnswers.torn (option_keys ToyAnswers.options) (ratio 1 2) None (ratio 7 10) with
  | VAsk ["general"; "opchat-chef"] _ => true | _ => false end = true /\
  match verdict_from ToyAnswers.torn (option_keys ToyAnswers.options) (ratio 1 2) (Some "opchat-chef") (ratio 7 10) with
  | VRoute "opchat-chef" None _ true => true | _ => false end = true.
Proof. split; vm_compute; reflexivity. Qed.

Lemma verdict_bounded_witness :
  verdict_stands ToyAnswers.sure (option_keys ToyAnswers.options) (ratio 1 2) None (ratio 7 10)
    (verdict_from ToyAnswers.sure (option_keys ToyAnswers.options) (ratio 1 2) None (ratio 7 10)).
Proof.
  apply (verdict_bounded ToyAnswers.sure (option_keys ToyAnswers.options) (ratio 1 2) None (ratio 7 10)).
  intros c probs vendor H. vm_compute in H. injection H as <- <- <-.
  unfold finite_answers. repeat (apply List.Forall_cons; [reflexivity|]). apply List.Forall_nil.
Defined.

Example parse_alias_forms :
  parse_alias "/chef 今晚吃什么" = (Some "chef", "今晚吃什么") /\
  parse_alias ("/chef" +:+ String.string_of_list_byte [Byte.xe3; Byte.x80; Byte.x80] +:+ "今晚") = (Some "chef", "今晚") /\
  parse_alias "and/or this" = (None, "and/or this") /\ parse_alias "/CHEF loud" = (None, "/CHEF loud") /\
  parse_alias "/chef" = (Some "chef", "").
Proof. split_and!; vm_compute; reflexivity. Qed.
