(* ===== verification/Asks.v ===== *)
(** * Messages waiting for a channel, and the gate's other memory

    The numbered asks of [crates/agentkeys-worker-channel-weixin/src/jev.rs] and their
    queue, the app stages, the router's turn log and the live monitor of [state.rs], and
    the media of [media.rs].  Nothing here is written to disk except the monitor's
    history line. *)
From stdpp Require Import gmap pretty.
From S2P Require Import Prelude RustStr StrFacts Utf8 F64 SessionScope Channels Router.

Open Scope string_scope.
Open Scope Z_scope.

(** ** Media *)

Record InboundMedia := { im_kind : ChannelEventKind; im_content_type : string; im_bytes : bytes }.
#[export] Instance InboundMedia_eq_dec : EqDecision InboundMedia.
Proof. solve_decision. Defined.

Definition marker (m : InboundMedia) : string :=
  match im_kind m with
  | Image => "📷 [photo]"
  | AudioClip => "🎤 [voice]"
  | _ => "[media]"
  end.

Definition byte_prefix (p : list Z) (b : bytes) : bool :=
  bool_decide (map byte_val (firstn (length p) b) = p).

Definition sniff_image_content_type (b : bytes) : string :=
  if byte_prefix [255; 216; 255] b then "image/jpeg"
  else if byte_prefix [137; 80; 78; 71] b then "image/png"
  else if byte_prefix [71; 73; 70; 56] b then "image/gif"
  else if (12 <? length b)%nat && byte_prefix [82; 73; 70; 70] b
          && byte_prefix [87; 69; 66; 80] (skipn 8 b) then "image/webp"
  else "application/octet-stream".

Definition ilink_voice_content_type (encode_type : option Z) : string :=
  match encode_type with
  | None => "audio/silk"
  | Some n =>
      if n =? 6 then "audio/silk" else if n =? 1 then "audio/L16" else if n =? 2 then "audio/x-adpcm"
      else if n =? 4 then "audio/speex" else if n =? 5 then "audio/amr" else if n =? 7 then "audio/mpeg"
      else if n =? 8 then "audio/ogg" else "application/octet-stream"
  end.

(** ** Asks *)

Record PendingAsk := {
  original_text : string; candidates : list string; labels : list string;
  addressees : list (option string); asked_at : Z; expires_at : Z;
  ask_media : list InboundMedia; description : option string }.

Definition addressee_of (a : PendingAsk) (channel : string) : option string :=
  '(i, _) ← list_find (fun c => String.eqb c channel = true) (candidates a);
  x ← addressees a !! i; x.

Definition PHOTO_BATCH_WINDOW_SECS : Z := 60.

Definition joins_photo_batch (a : PendingAsk) (now : Z) : bool :=
  (now <=? expires_at a) && negb (is_nil (ask_media a))
  && (u64_saturating_sub now (asked_at a) <=? PHOTO_BATCH_WINDOW_SECS).

Definition photo_message (caption description : string) : string :=
  if is_blank caption then "[the member sent a photo] " +:+ description
  else utrim caption +:+ " [with a photo: " +:+ description +:+ "]".

Definition photo_as_text (caption description : string) : string :=
  if is_blank caption then "[照片] " +:+ description
  else utrim caption +:+ String "010"%char "" +:+ "[照片] " +:+ description.

Inductive AskReply :=
| NoAsk
| Answered (channel : string) (addressee : option string) (original_text : string)
    (media : list InboundMedia) (description : option string) (next : option (list string))
| Cancelled (released_media : nat) (next : option (list string))
| Waiting (oldest : list string).

Record ExpiredAsks := { ex_messages : nat; ex_media : nat }.

Definition is_cancel (text : string) : bool :=
  existsb (String.eqb (to_lowercase (utrim text))) ["算了"; "取消"; "不用了"; "cancel"; "never mind"].

(** A full-width digit as the ASCII one. *)
Definition plain_digit (c : string) : string :=
  match bytes_of_char c with
  | [239; 188; b] => if (144 <=? b) && (b <=? 153)
                     then String (Ascii.ascii_of_N (Z.to_N (b - 96))) "" else c
  | _ => c
  end.

(** [digits.parse::<usize>()]: an optional plus sign and digits, within 64 bits. *)
Definition parse_usize (s : string) : option Z :=
  let s := default s (strip_prefix "+" s) in
  if String.eqb s "" then None
  else v ← digits_from 0 s; if v <? 2 ^ 64 then Some v else None.

(** [iter.position(p)] *)
Fixpoint position {A} (p : A -> bool) (l : list A) : option nat :=
  match l with
  | [] => None
  | x :: l => if p x then Some 0%nat else n ← position p l; Some (S n)
  end.

Definition parse_ask_reply (text : string) (candidates labels : list string) : option nat :=
  let t := utrim text in
  if String.eqb t "" || is_nil candidates then None
  else
    match parse_usize (concat_chars (map plain_digit (Utf8.chars t))) with
    | Some n => if (1 <=? n) && (n <=? Z.of_nat (length candidates)) then Some (Z.to_nat (n - 1)) else None
    | None =>
        let name := to_lowercase (utrim (trim_start_matches "/" t)) in
        match position (fun c => String.eqb (to_lowercase c) name) candidates with
        | Some i => Some i
        | None => position (fun l => String.eqb (to_lowercase (utrim l)) name) labels
        end
    end.

Definition ask_back_text (channels : list string) (en : bool) : string :=
  match channels with
  | [] => if en then "You are not in any channel yet — the owner adds you from Parent Control."
          else "管理员还没有把你加入任何频道，加入后就可以直接发消息。"
  | _ =>
      if en then "Say what you need and it goes to the right channel — yours: " +:+ join ", " channels
                 +:+ ". You can also address an assistant with /alias, or rephrase."
      else "直接说要做什么，会自动送到合适的频道；你的频道：" +:+ join "、" channels
           +:+ "。也可以用 /别名 指定助手，或换个说法。"
  end.

Definition nat_text (n : nat) : string := dec (Z.of_nat n).

Definition ask_text (labels : list string) (en : bool) : string :=
  match labels with
  | [] => ask_back_text [] en
  | _ =>
      let numbered := imap (fun i a => nat_text (i + 1) +:+ " " +:+ a) labels in
      let numbers := map nat_text (seq 1 (length labels)) in
      if en then "Which channel did you mean: " +:+ join " or " numbered +:+ "? Reply with the number ("
                 +:+ join " / " numbers +:+ ")."
      else "你是想发到 " +:+ join " 还是 " numbered +:+ "？回复 " +:+ join " 或 " numbers +:+ "。"
  end.

Definition newline : string := String "010"%char "".

Definition waiting_note (oldest : list string) (en : bool) : string :=
  if en then newline +:+ "(Still waiting for your choice: " +:+ ask_text oldest true +:+ ")"
  else newline +:+ "（上一条消息还在等你选择：" +:+ ask_text oldest false +:+ "）".

Definition queued_note (en : bool) : string :=
  if en then " (your new message waits behind it — you'll be asked next)"
  else "（你刚发的这条排在后面，回答完再问你）".

Definition next_note (next : list string) (en : bool) : string :=
  if en then newline +:+ "Next: " +:+ ask_text next true
  else newline +:+ "下一个问题：" +:+ ask_text next false.

Definition cancelled_text (en : bool) : string :=
  if en then "OK — that earlier message was not passed on." else "好的，上一条消息不转达了。".

Definition expired_note (messages : nat) (en : bool) : string :=
  if en then newline +:+ "(" +:+ nat_text messages
             +:+ " earlier message(s) waited too long for your choice and were not passed on — send them again if you need to)"
  else newline +:+ "（有 " +:+ nat_text messages +:+ " 条消息等你选择超时，没有转达，需要的话请重新发送）".

(** ** The queue of each contact *)

Abbreviation AskQueues := (gmap string (list PendingAsk)).

Definition ask_key (transport transport_id : string) : string := transport +:+ ":" +:+ transport_id.

Definition queue_of (q : AskQueues) (key : string) : list PendingAsk := default [] (q !! key).

(** A queue that ran empty is dropped from the table. *)
Definition set_queue (q : AskQueues) (key : string) (asks : list PendingAsk) : AskQueues :=
  if is_nil asks then delete key q else <[key := asks]> q.

Definition queue_ask (q : AskQueues) (transport transport_id : string) (ask : PendingAsk)
    : AskQueues * option (list string) :=
  let key := ask_key transport transport_id in
  let queue := queue_of q key in
  (<[key := (queue ++ [ask])%list]> q, a ← head queue; Some (labels a)).

Fixpoint drop_expired (queue : list PendingAsk) (now : Z) (ex : ExpiredAsks) : list PendingAsk * ExpiredAsks :=
  match queue with
  | a :: queue' =>
      if expires_at a <? now
      then drop_expired queue' now
             {| ex_messages := ex_messages ex + 1; ex_media := ex_media ex + length (ask_media a) |}
      else (queue, ex)
  | [] => ([], ex)
  end.

(** What a message means for a queue whose expired asks are gone.  A position that the
    ask's channels do not have is a panic, [None]. *)
Definition answer_queue (queue : list PendingAsk) (text : string) : option (list PendingAsk * AskReply) :=
  match queue with
  | [] => Some ([], NoAsk)
  | ask :: rest =>
      let next := a ← head rest; Some (labels a) in
      if is_cancel text then Some (rest, Cancelled (length (ask_media ask)) next)
      else match parse_ask_reply text (candidates ask) (labels ask) with
      | Some i => channel ← candidates ask !! i;
                  Some (rest, Answered channel (x ← addressees ask !! i; x)
                                (original_text ask) (ask_media ask) (description ask) next)
      | None => Some (queue, Waiting (labels ask))
      end
  end.

Definition take_ask_reply (q : AskQueues) (transport transport_id text : string) (now : Z)
    : option (AskQueues * AskReply * ExpiredAsks) :=
  let key := ask_key transport transport_id in
  let none := {| ex_messages := 0; ex_media := 0 |} in
  match q !! key with
  | None => Some (q, NoAsk, none)
  | Some queue =>
      let '(live, expired) := drop_expired queue now none in
      '(rest, reply) ← answer_queue live text;
      Some (set_queue q key rest, reply, expired)
  end.

Definition hold_one (m : InboundMedia) (a : PendingAsk) : PendingAsk :=
  {| original_text := original_text a; candidates := candidates a; labels := labels a;
     addressees := addressees a; asked_at := asked_at a; expires_at := expires_at a;
     ask_media := (ask_media a ++ [m])%list; description := description a |}.

Definition hold_media_with_ask (q : AskQueues) (transport transport_id : string) (m : InboundMedia) (now : Z)
    : AskQueues * option (list string * nat) :=
  let key := ask_key transport transport_id in
  match last (queue_of q key) with
  | None => (q, None)
  | Some a =>
      if joins_photo_batch a now then
        (<[key := (removelast (queue_of q key) ++ [hold_one m a])%list]> q,
         Some (labels a, (length (ask_media a) + 1)%nat))
      else (q, None)
  end.

Definition pending_ask_count (q : AskQueues) : nat :=
  foldr Nat.add 0%nat (map (fun kq => length kq.2) (map_to_list q)).

(** ** App stages *)

Definition APP_STAGE_TTL_MS : Z := 15 * 60 * 1000.

Definition stage_hint (stage : string) (age_ms : Z) : option string :=
  if APP_STAGE_TTL_MS <? age_ms then None
  else if existsb (String.eqb stage) ["booting"; "restoring"; "syncing"] then Some "loading"
  else if String.eqb stage "degraded" then Some "degraded" else None.

Abbreviation AppStages := (gmap string (string * Z)).

Definition note_app_stage (s : AppStages) (feed stage : string) (ts : Z) : AppStages := <[feed := (stage, ts)]> s.

Definition app_stage_hint (s : AppStages) (feed : string) (now : Z) : option string :=
  '(stage, ts) ← s !! feed; stage_hint stage (u64_saturating_sub now ts).

(** ** The router's turn log *)

Definition ROUTER_LOG_CAP : nat := 30.

Section Log.
Context {Turn Answer : Type} (turn_id : Turn -> Z) (add_answers : list Answer -> Turn -> Turn).

Record RouterLog := { log_next : Z; log_ring : list Turn; log_early : list (Z * list Answer) }.

Definition log_next_id (l : RouterLog) : RouterLog * Z :=
  let n := wrap_u64 (log_next l + 1) in
  ({| log_next := n; log_ring := log_ring l; log_early := log_early l |}, n).

Definition log_record (l : RouterLog) (x : Turn) : RouterLog :=
  let x := match List.find (fun e => e.1 =? turn_id x) (log_early l) with
           | Some e => add_answers e.2 x
           | None => x
           end in
  {| log_next := log_next l; log_ring := firstn ROUTER_LOG_CAP (x :: log_ring l);
     log_early := List.filter (fun e => negb (e.1 =? turn_id x)) (log_early l) |}.

(** [early.entry(id).or_default().push(answer)] of a map in key order. *)
Fixpoint early_push (id : Z) (a : Answer) (l : list (Z * list Answer)) : list (Z * list Answer) :=
  match l with
  | [] => [(id, [a])]
  | (k, xs) :: l' =>
      if id =? k then (k, (xs ++ [a])%list) :: l'
      else if id <? k then (id, [a]) :: l
      else (k, xs) :: early_push id a l'
  end.

Definition log_attach (l : RouterLog) (id : Z) (a : Answer) : RouterLog :=
  if existsb (fun x => turn_id x =? id) (log_ring l)
  then {| log_next := log_next l;
          log_ring := update_first (fun x => turn_id x =? id) (add_answers [a]) (log_ring l);
          log_early := log_early l |}
  else
    let early := early_push id a (log_early l) in
    {| log_next := log_next l; log_ring := log_ring l;
       log_early := skipn (length early - ROUTER_LOG_CAP) early |}.
End Log.
Arguments RouterLog : clear implicits.

(** ** The live monitor *)

Definition MONITOR_RING_CAP : nat := 200.

Section Monitor.
Context {Event : Type} (with_seq : Z -> Event -> Event) (seq_of : Event -> Z).

Record MonitorRing := { mon_events : list Event; mon_next : Z }.

Definition push_monitor_event (r : MonitorRing) (e : Event) : MonitorRing :=
  let es := (mon_events r ++ [with_seq (mon_next r) e])%list in
  {| mon_events := skipn (length es - MONITOR_RING_CAP) es; mon_next := wrap_u64 (mon_next r + 1) |}.

Definition monitor_since (r : MonitorRing) (after : Z) : Z * list Event :=
  (mon_next r, List.filter (fun e => after <=? seq_of e) (mon_events r)).
End Monitor.
Arguments MonitorRing : clear implicits.

(** * Properties *)

(** ** The reply picks one of the channels asked about *)

Lemma position_lt {A} (p : A -> bool) (l : list A) i :
  position p l = Some i -> (i < length l)%nat /\ exists x, l !! i = Some x /\ p x = true.
Proof.
  revert i. induction l as [|x l IH]; intros i; cbn [position]; [done|]. destruct (p x) eqn:E.
  - intros [= <-]. split; [cbn; lia|]. by exists x.
  - destruct (position p l) as [n|]; cbn [mbind option_bind]; [|done]. intros [= <-].
    destruct (IH n eq_refl) as (H & y & Hy & Hp). split; [cbn; lia|]. by exists y.
Qed.

(** An ask as the gate queues it: its three lists are parallel. *)
Definition parallel (a : PendingAsk) : Prop :=
  length (labels a) = length (candidates a) /\ length (addressees a) = length (candidates a).

Lemma parse_ask_reply_range text cs ls i :
  length ls = length cs -> parse_ask_reply text cs ls = Some i -> (i < length cs)%nat.
Proof.
  intros Hl. unfold parse_ask_reply. destruct (_ || _); [done|].
  destruct (parse_usize _) as [n|].
  - destruct (_ && _) eqn:E; [|done]. intros [= <-]. reflect_bools. lia.
  - destruct (position _ cs) as [j|] eqn:E; [intros [= <-]; apply position_lt in E as [? _]; done|].
    intros H. apply position_lt in H as [H _]. lia.
Qed.

(** ** What one message does to the queue *)

Lemma drop_expired_spec queue now ex :
  exists gone live, queue = (gone ++ live)%list /\
    drop_expired queue now ex
    = (live, {| ex_messages := ex_messages ex + length gone;
                ex_media := ex_media ex + length (concat (map ask_media gone)) |}) /\
    Forall (fun a => expires_at a < now) gone /\
    match live with a :: _ => now <= expires_at a | [] => True end.
Proof.
  revert ex. induction queue as [|a queue IH]; intros ex; cbn [drop_expired].
  { exists [], []. destruct ex. rewrite !Nat.add_0_r. done. }
  destruct (expires_at a <? now) eqn:E.
  - destruct (IH {| ex_messages := ex_messages ex + 1; ex_media := ex_media ex + length (ask_media a) |})
      as (gone & live & -> & -> & Hg & Hl).
    exists (a :: gone), live. reflect_bools. split_and!; [done| |by constructor|done]. f_equal. cbn.
    rewrite length_app. f_equal; lia.
  - exists [], (a :: queue). destruct ex. rewrite !Nat.add_0_r. reflect_bools. done.
Qed.

Lemma set_queue_of q key asks : queue_of (set_queue q key asks) key = asks.
Proof.
  unfold queue_of, set_queue. destruct asks; cbn [is_nil]; [by rewrite lookup_delete_eq|by rewrite lookup_insert_eq].
Qed.

Lemma set_queue_other q key asks k : k <> key -> queue_of (set_queue q key asks) k = queue_of q k.
Proof.
  intros Hne. unfold queue_of, set_queue. destruct asks; cbn [is_nil];
    [by rewrite lookup_delete_ne|by rewrite lookup_insert_ne].
Qed.

Definition next_labels (rest : list PendingAsk) : option (list string) := a ← head rest; Some (labels a).

(** What a message does to a contact's queue: the expired asks go, then the oldest one is
    answered, called off, or left waiting. *)
Inductive ask_fate (text : string) : list PendingAsk -> list PendingAsk -> AskReply -> Prop :=
| FateNone : ask_fate text [] [] NoAsk
| FateCancelled ask rest : is_cancel text = true ->
    ask_fate text (ask :: rest) rest (Cancelled (length (ask_media ask)) (next_labels rest))
| FateAnswered ask rest i channel : is_cancel text = false ->
    parse_ask_reply text (candidates ask) (labels ask) = Some i -> candidates ask !! i = Some channel ->
    ask_fate text (ask :: rest) rest
      (Answered channel (x ← addressees ask !! i; x) (original_text ask) (ask_media ask) (description ask)
                (next_labels rest))
| FateWaiting ask rest : is_cancel text = false ->
    parse_ask_reply text (candidates ask) (labels ask) = None ->
    ask_fate text (ask :: rest) (ask :: rest) (Waiting (labels ask)).

Lemma answer_queue_fate text queue :
  Forall parallel queue -> exists rest reply, answer_queue queue text = Some (rest, reply) /\ ask_fate text queue rest reply.
Proof.
  intros Hp. destruct queue as [|ask rest]; cbn [answer_queue]; [do 2 eexists; split; [done|constructor]|].
  apply Forall_cons in Hp as [[Hl _] _]. destruct (is_cancel text) eqn:E; [do 2 eexists; split; [done|by constructor]|].
  destruct (parse_ask_reply _ _ _) as [i|] eqn:F; [|do 2 eexists; split; [done|by constructor]].
  pose proof (parse_ask_reply_range _ _ _ _ Hl F) as Hi.
  destruct (candidates ask !! i) as [ch|] eqn:G; [|by apply lookup_ge_None in G; lia].
  do 2 eexists. split; [done|by apply FateAnswered].
Qed.

Definition well_queued (q : AskQueues) : Prop := forall key, Forall parallel (queue_of q key).

Lemma take_ask_reply_spec q t i text now :
  well_queued q ->
  exists q' reply ex, take_ask_reply q t i text now = Some (q', reply, ex) /\
  exists gone live rest,
    queue_of q (ask_key t i) = (gone ++ live)%list /\ queue_of q' (ask_key t i) = rest /\
    Forall (fun a => expires_at a < now) gone /\
    match live with a :: _ => now <= expires_at a | [] => True end /\
    ex = {| ex_messages := length gone; ex_media := length (concat (map ask_media gone)) |} /\
    ask_fate text live rest reply /\
    forall key, key <> ask_key t i -> queue_of q' key = queue_of q key.
Proof.
  intros Hp. unfold take_ask_reply. destruct (q !! ask_key t i) as [queue|] eqn:E.
  - destruct (drop_expired_spec queue now {| ex_messages := 0; ex_media := 0 |})
      as (gone & live & -> & -> & Hg & Hl).
    specialize (Hp (ask_key t i)). unfold queue_of in Hp at 1. rewrite E in Hp. cbn [default from_option id] in Hp.
    apply Forall_app in Hp as [_ Hp]. destruct (answer_queue_fate text live Hp) as (rest & reply & -> & Hf).
    cbn [mbind option_bind]. do 3 eexists. split; [reflexivity|]. exists gone, live, rest. split_and!; try done.
    + unfold queue_of. by rewrite E.
    + apply set_queue_of.
    + intros key Hk. by apply set_queue_other.
  - do 3 eexists. split; [reflexivity|]. exists [], [], []. unfold queue_of at 1 2. rewrite E. split_and!; try done. constructor.
Qed.

(** ** A conversation *)

Inductive AskOp :=
| OpAsk (transport transport_id : string) (a : PendingAsk)
| OpMessage (transport transport_id text : string) (now : Z)
| OpPhoto (transport transport_id : string) (m : InboundMedia) (now : Z).

Definition op_key (o : AskOp) : string :=
  match o with OpAsk t i _ | OpMessage t i _ _ | OpPhoto t i _ _ => ask_key t i end.

Definition ask_step (q : AskQueues) (o : AskOp) : option AskQueues :=
  match o with
  | OpAsk t i a => Some (queue_ask q t i a).1
  | OpMessage t i text now => '(q', _, _) ← take_ask_reply q t i text now; Some q'
  | OpPhoto t i m now => Some (hold_media_with_ask q t i m now).1
  end.

(** The texts a step from [q] to [q'] queues for a contact, and those that leave its queue. *)
Definition queued (key : string) (o : AskOp) : list string :=
  match o with OpAsk t i a => if String.eqb (ask_key t i) key then [original_text a] else [] | _ => [] end.

Definition departed (key : string) (q q' : AskQueues) (o : AskOp) : list string :=
  match o with
  | OpMessage _ _ _ _ =>
      let before := queue_of q key in
      map original_text (firstn (length before - length (queue_of q' key)) before)
  | _ => []
  end.

Fixpoint conversation (key : string) (q : AskQueues) (ops : list AskOp)
    : option (AskQueues * list string * list string) :=
  match ops with
  | [] => Some (q, [], [])
  | o :: ops =>
      q1 ← ask_step q o;
      '(q', qs, ds) ← conversation key q1 ops;
      Some (q', (queued key o ++ qs)%list, (departed key q q1 o ++ ds)%list)
  end.

Definition asks_parallel (o : AskOp) : Prop := match o with OpAsk _ _ a => parallel a | _ => True end.

Lemma removelast_last {A} (l : list A) x : last l = Some x -> l = (removelast l ++ [x])%list.
Proof.
  intros H. destruct l as [|y l] using rev_ind; [done|]. rewrite last_snoc in H. injection H as ->.
  by rewrite removelast_last.
Qed.

Lemma queue_of_insert q key asks k :
  queue_of (<[key := asks]> q) k = if bool_decide (k = key) then asks else queue_of q k.
Proof. unfold queue_of. case_bool_decide; [subst; by rewrite lookup_insert_eq|by rewrite lookup_insert_ne]. Qed.

Lemma ask_fate_rest text live rest reply :
  ask_fate text live rest reply -> exists taken, live = (taken ++ rest)%list /\ (length taken <= 1)%nat.
Proof. destruct 1; [exists []|exists [ask]|exists [ask]|exists []]; split; cbn; (done || lia). Qed.

(** What every step does to the texts waiting for a contact. *)
Lemma ask_step_texts q o key :
  well_queued q -> asks_parallel o ->
  exists q', ask_step q o = Some q' /\ well_queued q' /\
  (departed key q q' o ++ map original_text (queue_of q' key))%list
  = (map original_text (queue_of q key) ++ queued key o)%list.
Proof.
  intros Hw Ho. destruct o as [t i a|t i text now|t i m now]; cbn [ask_step asks_parallel queued departed app] in *.
  - unfold queue_ask. cbn [fst]. eexists. split; [done|]. split.
    + intros k. rewrite queue_of_insert. case_bool_decide; [|apply Hw]. apply Forall_app. split; [apply Hw|].
      by constructor.
    + rewrite queue_of_insert, eqb_decide. case_bool_decide as E; case_bool_decide as F; try congruence.
      * rewrite E, map_app. done.
      * by rewrite app_nil_r.
  - destruct (take_ask_reply_spec q t i text now Hw)
      as (q' & reply & ex & -> & gone & live & rest & Eq & Er & _ & _ & _ & Hf & Hoth).
    cbn [mbind option_bind]. exists q'. split; [done|].
    destruct (ask_fate_rest _ _ _ _ Hf) as (taken & -> & _). split.
    + intros k. destruct (base.decide (k = ask_key t i)) as [->|Hne]; [|by rewrite Hoth].
      rewrite Er. specialize (Hw (ask_key t i)). rewrite Eq in Hw. by apply Forall_app in Hw as [_ [_ ?]%Forall_app].
    + rewrite app_nil_r. destruct (base.decide (key = ask_key t i)) as [->|Hne].
      * rewrite Er, Eq, !length_app.
        replace (length gone + (length taken + length rest) - length rest)%nat with (length (gone ++ taken)%list)
          by (rewrite length_app; lia).
        rewrite app_assoc, firstn_app, firstn_all, Nat.sub_diag, firstn_O, app_nil_r, <-map_app.
        by rewrite <-app_assoc.
      * rewrite Hoth, Nat.sub_diag by done. done.
  - unfold hold_media_with_ask. rewrite app_nil_r. destruct (last _) as [a|] eqn:E; [|by exists q].
    destruct (joins_photo_batch a now); [|by exists q]. cbn [fst]. eexists. split; [done|]. apply removelast_last in E. split.
    + intros k. rewrite queue_of_insert. case_bool_decide; [|apply Hw]. specialize (Hw (ask_key t i)).
      rewrite E in Hw. apply Forall_app in Hw as [Hw1 Hw2]. apply Forall_app. split; [done|].
      apply Forall_cons in Hw2 as [Hw2 _]. constructor; [exact Hw2|by constructor].
    + rewrite queue_of_insert. case_bool_decide as F; [|done]. subst key. rewrite E at 2.
      rewrite !map_app. done.
Qed.

(** Messages asked about are never lost, duplicated or overtaken: along any run of
    messages, photos and asks of any contacts, the texts queued for a contact are, in order,
    those that left its queue followed by those still waiting; and one message takes away
    the expired ones, counted, and at most the oldest live one: answered with its own text,
    media and one of its own channels, or called off; any other message leaves it waiting.  No message panics. *)
Theorem asks_leave_in_order ops q key (Hq : q = ∅) (Ho : Forall asks_parallel ops) :
  exists q' qs ds, conversation key q ops = Some (q', qs, ds) /\
  qs = (ds ++ map original_text (queue_of q' key))%list /\ well_queued q' /\
  forall t i text now,
    exists q'' reply ex, take_ask_reply q' t i text now = Some (q'', reply, ex) /\
    exists gone live rest,
      queue_of q' (ask_key t i) = (gone ++ live)%list /\ queue_of q'' (ask_key t i) = rest /\
      Forall (fun a => expires_at a < now) gone /\
      match live with a :: _ => now <= expires_at a | [] => True end /\
      ex = {| ex_messages := length gone; ex_media := length (concat (map ask_media gone)) |} /\
      ask_fate text live rest reply /\
      forall key, key <> ask_key t i -> queue_of q'' key = queue_of q' key.
Proof.
  assert (forall ops q, well_queued q -> Forall asks_parallel ops ->
    exists q' qs ds, conversation key q ops = Some (q', qs, ds) /\
    (map original_text (queue_of q key) ++ qs)%list = (ds ++ map original_text (queue_of q' key))%list /\
    well_queued q') as H.
  { clear. induction ops as [|o ops IH]; intros q Hw Ho; cbn [conversation].
    { do 3 eexists. split; [done|]. by rewrite app_nil_r. }
    apply Forall_cons in Ho as [Ho Hos]. destruct (ask_step_texts q o key Hw Ho) as (q1 & -> & Hw' & He).
    destruct (IH _ Hw' Hos) as (q' & qs & ds & E & IH' & Hw''). cbn [mbind option_bind]. rewrite E.
    do 3 eexists. split; [done|]. split; [|done]. by rewrite app_assoc, <-He, <-!app_assoc, IH'. }
  assert (well_queued q) as Hw.
  { intros k. rewrite Hq. unfold queue_of. rewrite lookup_empty. constructor. }
  destruct (H ops q Hw Ho) as (q' & qs & ds & E & Ht & Hw'). exists q', qs, ds. clear H. rename Ht into H.
  split_and!; [done| |done|].
  - rewrite Hq in H. unfold queue_of in H at 1. by rewrite lookup_empty in H.
  - intros t i text now. by apply take_ask_reply_spec.
Qed.

Module ToyAsks.
Definition ask (text : string) (chs : list string) : PendingAsk :=
  {| original_text := text; candidates := chs; labels := chs; addressees := map (fun _ => None) chs;
     asked_at := 0; expires_at := 600; ask_media := []; description := None |}.
Definition ops : list AskOp :=
  [OpAsk "weixin" "wx-mom" (ask "milk?" ["general"; "opchat-chef"]);
   OpAsk "weixin" "wx-mom" (ask "stop it" ["general"; "opchat-chef"]);
   OpMessage "weixin" "wx-mom" "hello" 10; OpMessage "weixin" "wx-mom" "２" 20].
End ToyAsks.

Example full_width_answer :
  (q ← ask_step ∅ (OpAsk "weixin" "w" (ToyAsks.ask "milk?" ["a"; "b"]));
   q ← ask_step q (OpAsk "weixin" "w" (ToyAsks.ask "stop" ["a"; "b"]));
   '(_, reply, _) ← take_ask_reply q "weixin" "w" "２" 20; Some reply)
  = Some (Answered "b" None "milk?" [] None (Some ["a"; "b"])).
Proof. vm_compute. reflexivity. Qed.

Lemma asks_leave_in_order_witness :
  exists q, conversation "weixin:wx-mom" ∅ ToyAsks.ops = Some (q, ["milk?"; "stop it"], ["milk?"]) /\ well_queued q.
Proof.
  assert (Forall asks_parallel ToyAsks.ops) as Ho by (repeat constructor).
  destruct (asks_leave_in_order ToyAsks.ops ∅ "weixin:wx-mom" eq_refl Ho) as (q & qs & ds & E & _ & Hw & _).
  exists q. split; [|exact Hw]. rewrite E.
  assert ((x ← conversation "weixin:wx-mom" ∅ ToyAsks.ops; Some (x.1.2, x.2)) = Some (["milk?"; "stop it"], ["milk?"])) as F
    by (vm_compute; reflexivity).
  rewrite E in F. cbn [mbind option_bind fst snd] in F. by injection F as -> ->.
Defined.

(** An ask with more labels than channels would make an answer panic. *)
Example lopsided_ask_panics :
  take_ask_reply {[ "weixin:w" := [{| original_text := "milk?"; candidates := ["a"]; labels := ["a"; "Kitchen"];
    addressees := [None]; asked_at := 0; expires_at := 600; ask_media := []; description := None |}] ]}
    "weixin" "w" "kitchen" 20 = None.
Proof. vm_compute. reflexivity. Qed.
