(* ===== verification/Binding.v ===== *)
(** * The bind ceremony and the console's writes to the registry

    [crates/agentkeys-worker-channel-weixin/src/registry.rs] and the registry writes of
    [admin.rs] and [bots.rs]: inviting a member, claiming the code, approving or
    withdrawing it, binding by a scan, changing or revoking a contact, writing a channel
    document, choosing the router's model, restoring a registry.  An operation is the
    closure given to [RegistryHandle::mutate]: what it did to the registry in memory, and
    what it answered.  Minting a code reads the clock and is an argument. *)
From S2P Require Import Prelude RustStr StrFacts Utf8 SessionScope Channels ChannelFold Audience Router.

Open Scope string_scope.
Open Scope Z_scope.

(** ** The handle *)

Record Handle := { memory : ContactRegistry; file : ContactRegistry }.

Inductive AdminError := Refused (reason : string) | RegistryWriteFailed.

(** [f] runs on the registry in memory; only an [Ok] is persisted, and what [f] changed
    before an [Err] stays in memory. *)
Definition mutate {A} (h : Handle) (persisted : bool)
    (f : ContactRegistry -> ContactRegistry * result string A) : Handle * result AdminError A :=
  let '(r, out) := f (memory h) in
  match out with
  | Err why => ({| memory := r; file := file h |}, Err (Refused why))
  | Ok x => if persisted then ({| memory := r; file := r |}, Ok x)
            else ({| memory := r; file := file h |}, Err RegistryWriteFailed)
  end.

Definition reload (h : Handle) (now : Z) (readable : bool) : Handle * result AdminError nat :=
  if readable then
    let r := (migrate_legacy now (file h)).1 in
    ({| memory := r; file := file h |}, Ok (length (bound r)))
  else (h, Err (Refused "reading contact registry")).

(** ** The operator-grade guard *)

Definition operator_grade_grant_in (r : ContactRegistry) (c : GateOptions) (tier : ContactTier)
    (grants : list ChannelGrant) : option string :=
  if may_hold_operator_grade_reach tier then None
  else
    let docs := omap (fun g => reg_channel r (g_channel g)) (List.filter g_speak grants) in
    a ← List.find (fun a => existsb (String.eqb (app_alias a)) (operator_grade_aliases c))
                  (concat (map apps docs));
    Some (app_alias a).

(** ** Invites and claims *)

(** The codes minted with one salt after another, until one is free; [None] stands for a
    loop that has not ended within the fuel. *)
Definition code_taken (r : ContactRegistry) (code : string) : bool :=
  existsb (fun i => String.eqb (i_code i) code) (invites r)
  || existsb (fun p => String.eqb (pb_code p) code) (pending r).

Fixpoint mint_free_code (fuel : nat) (mint : Z -> string) (r : ContactRegistry) (salt : Z) : option string :=
  match fuel with
  | O => None
  | S fuel => if code_taken r (mint salt) then mint_free_code fuel mint r (salt + 1) else Some (mint salt)
  end.

Record InviteRequest := {
  iv_contact : string; iv_display : string; iv_tier : ContactTier; iv_channels : list ChannelGrant }.

Definition store_invite (r : ContactRegistry) (req : InviteRequest) (code : string) : ContactRegistry :=
  with_invites
    (List.filter (fun i => negb (String.eqb (i_contact i) (iv_contact req))) (invites r)
     ++ [{| i_code := code; i_contact := iv_contact req; i_display := iv_display req; i_tier := iv_tier req;
            i_channels := iv_channels req; i_legacy_reach := [] |}])%list r.

(** The checks before the closure, then the closure; [None] is the unfinished loop. *)
Definition bind_invite (c : GateOptions) (fuel : nat) (mint : Z -> string) (h : Handle) (persisted : bool)
    (req : InviteRequest) : option (Handle * result AdminError string) :=
  if String.eqb (trim (iv_contact req)) "" || String.eqb (trim (iv_display req)) ""
  then Some (h, Err (Refused "missing_contact_id_or_display_name"))
  else match operator_grade_grant_in (memory h) c (iv_tier req) (iv_channels req) with
  | Some _ => Some (h, Err (Refused "operator_grade_reach_denied"))
  | None =>
      code ← mint_free_code fuel mint (memory h) 0;
      Some (mutate h persisted (fun r => (store_invite r req code, Ok code)))
  end.

Definition claim_token (text : string) : string :=
  utrim (trim_start_matches "BIND" (trim_start_matches "bind" (trim_start_matches "绑定" (utrim text)))).

Definition claim_of (transport transport_id : string) (i : BindInvite) : PendingBind :=
  {| pb_transport := transport; pb_transport_id := transport_id; pb_code := i_code i;
     pb_proposal := Some {| p_tier := i_tier i; p_channels := i_channels i;
                            p_rationale := "operator invite for " +:+ i_display i |} |}.

Definition try_claim_bind (h : Handle) (persisted : bool) (transport transport_id text : string)
    : Handle * option string :=
  let token := claim_token text in
  if String.eqb token "" then (h, None)
  else match List.find (fun i => eq_lower (i_code i) token) (invites (memory h)) with
  | None => (h, None)
  | Some i =>
      let '(h', out) := mutate h persisted (fun r =>
        (with_pending (List.filter (fun p => negb (String.eqb (pb_code p) (i_code i))) (pending r)
                       ++ [claim_of transport transport_id i])%list r, Ok tt)) in
      (h', match out with
           | Ok _ => Some ("✅ 已收到绑定码（" +:+ i_display i +:+ "）。等待管理员在家长控制台确认后即可使用。")
           | Err _ => None
           end)
  end.

(** ** Approving *)

(** Stamp the documents that list the contact. *)
Definition stamp_rows (contact_id : string) (now : Z) (r : ContactRegistry) : ContactRegistry :=
  with_channels (map (fun d => if is_some (doc_member d contact_id) then stamped now d else d) (channels r)) r.

Definition same_identity (a b : Contact) : bool :=
  String.eqb (c_id a) (c_id b)
  || String.eqb (c_transport a) (c_transport b) && String.eqb (c_transport_id a) (c_transport_id b).

Definition rebind (r : ContactRegistry) (c : Contact) : ContactRegistry :=
  with_bound (List.filter (fun x => negb (same_identity x c)) (bound r) ++ [c])%list r.

Record ApproveRequest := {
  ap_code : string; ap_tier : option ContactTier; ap_channels : option (list ChannelGrant) }.

Definition bind_approve (c : GateOptions) (now : Z) (req : ApproveRequest) (r : ContactRegistry)
    : ContactRegistry * result string Contact :=
  match List.find (fun i => eq_lower (i_code i) (ap_code req)) (invites r) with
  | None => (r, Err "bind_code_unknown")
  | Some i =>
      match List.find (fun p => eq_lower (pb_code p) (ap_code req)) (pending r) with
      | None => (r, Err "bind_not_claimed")
      | Some p =>
          let tier := default (i_tier i) (ap_tier req) in
          let grants := default (i_channels i) (ap_channels req) in
          match operator_grade_grant_in r c tier grants with
          | Some bad => (r, Err ("operator_grade_reach_denied:" +:+ bad))
          | None =>
              let contact := {| c_id := i_contact i; c_transport := pb_transport p;
                                c_transport_id := pb_transport_id p; c_display := i_display i;
                                c_tier := tier; c_legacy_reach := []; c_welcomed := false |} in
              let r := rebind r contact in
              let r := with_invites (List.filter (fun i => negb (eq_lower (i_code i) (ap_code req))) (invites r)) r in
              let r := with_pending (List.filter (fun p => negb (eq_lower (pb_code p) (ap_code req))) (pending r)) r in
              (stamp_rows (c_id contact) now (apply_grants r (c_id contact) grants).1, Ok contact)
          end
      end
  end.

Definition bind_reject (bind_code : string) (r : ContactRegistry)
    : ContactRegistry * result string (bool * option Contact) :=
  let code := trim bind_code in
  let rejected :=
    p ← List.find (fun p => eq_lower (pb_code p) code) (pending r);
    i ← List.find (fun i => eq_lower (i_code i) code) (invites r);
    Some {| c_id := i_contact i; c_transport := pb_transport p; c_transport_id := pb_transport_id p;
            c_display := i_display i; c_tier := i_tier i; c_legacy_reach := []; c_welcomed := false |} in
  let before := (length (invites r) + length (pending r))%nat in
  let r := with_invites (List.filter (fun i => negb (eq_lower (i_code i) code)) (invites r)) r in
  let r := with_pending (List.filter (fun p => negb (eq_lower (pb_code p) code)) (pending r)) r in
  (r, Ok (negb (before =? length (invites r) + length (pending r))%nat, rejected)).

(** ** Binding by the member's own scan *)

Definition OWNER_CONTACT_ID : string := "self-owner".

Record LoginOutcome := { lo_token : string; lo_base_url : string; lo_bot_id : string; lo_scanned_by : string }.

Definition scan_transport_id (o : LoginOutcome) : string :=
  if String.eqb (lo_scanned_by o) "" then "bot:" +:+ lo_bot_id o else lo_scanned_by o.

Definition scan_contact_id (r : ContactRegistry) (requested : string) : string :=
  let known := existsb (fun i => String.eqb (i_contact i) requested) (invites r)
               || existsb (fun c => String.eqb (c_id c) requested) (bound r) in
  if negb known && String.eqb requested OWNER_CONTACT_ID
  then match List.find (fun c => bool_decide (c_tier c = Owner)) (bound r) with
       | Some c => c_id c
       | None => requested
       end
  else requested.

Definition bind_member_by_scan (now : Z) (contact_id transport_id : string) (r : ContactRegistry)
    : ContactRegistry * result string Contact :=
  let invite := List.find (fun i => String.eqb (i_contact i) contact_id) (invites r) in
  let existing := List.find (fun c => String.eqb (c_id c) contact_id) (bound r) in
  let who := match invite, existing with
             | Some i, _ => Some (i_display i, i_tier i, Some (i_channels i))
             | None, Some c => Some (c_display c, c_tier c, None)
             | None, None => None
             end in
  match who with
  | None => (r, Err "invite_unknown")
  | Some (display, tier, grants) =>
      let contact := {| c_id := contact_id; c_transport := "weixin"; c_transport_id := transport_id;
                        c_display := display; c_tier := tier; c_legacy_reach := []; c_welcomed := false |} in
      let r := rebind r contact in
      let r := with_invites (List.filter (fun i => negb (String.eqb (i_contact i) contact_id)) (invites r)) r in
      let r := with_pending (List.filter (fun p => negb (String.eqb (pb_transport_id p) transport_id)) (pending r)) r in
      (match grants with
       | Some gs => stamp_rows contact_id now (apply_grants r contact_id gs).1
       | None => r
       end, Ok contact)
  end.

Definition set_transport_id (t : string) (c : Contact) : Contact :=
  {| c_id := c_id c; c_transport := c_transport c; c_transport_id := t; c_display := c_display c;
     c_tier := c_tier c; c_legacy_reach := c_legacy_reach c; c_welcomed := c_welcomed c |}.

(** What the first inbound on a member's own bot teaches. *)
Definition learn_transport_id (contact_id from : string) (r : ContactRegistry) : ContactRegistry :=
  if String.eqb from "" then r
  else match List.find (fun c => String.eqb (c_id c) contact_id) (bound r) with
  | None => r
  | Some c =>
      if String.eqb (c_transport_id c) from then r
      else if existsb (fun o => negb (String.eqb (c_id o) contact_id) && String.eqb (c_transport o) "weixin"
                                && String.eqb (c_transport_id o) from) (bound r) then r
      else with_bound (update_first (fun c => String.eqb (c_id c) contact_id) (set_transport_id from) (bound r)) r
  end.

(** ** Changing and revoking a contact *)

Definition set_tier (t : ContactTier) (c : Contact) : Contact :=
  {| c_id := c_id c; c_transport := c_transport c; c_transport_id := c_transport_id c;
     c_display := c_display c; c_tier := t; c_legacy_reach := c_legacy_reach c; c_welcomed := c_welcomed c |}.

Definition set_contact_welcomed (w : bool) (c : Contact) : Contact :=
  {| c_id := c_id c; c_transport := c_transport c; c_transport_id := c_transport_id c;
     c_display := c_display c; c_tier := c_tier c; c_legacy_reach := c_legacy_reach c; c_welcomed := w |}.

Record UpdateRequest := {
  up_contact : string; up_tier : option ContactTier; up_channels : option (list ChannelGrant) }.

(** The row a contact's grants show on a document. *)
Definition shown_grant (gs : list ChannelGrant) (d : ChannelDoc) : option (bool * bool) :=
  g ← List.find (fun g => String.eqb (g_channel g) (doc_id d)) gs; Some (g_speak g, g_read g).

Definition regrant (now : Z) (contact_id : string) (grants : list ChannelGrant) (r : ContactRegistry)
    : ContactRegistry :=
  let before := grants_of r contact_id in
  let r := (apply_grants r contact_id grants).1 in
  let after := grants_of r contact_id in
  with_channels (map (fun d => if bool_decide (shown_grant before d = shown_grant after d) then d
                               else stamped now d) (channels r)) r.

Definition contacts_update (c : GateOptions) (now : Z) (req : UpdateRequest) (r : ContactRegistry)
    : ContactRegistry * result string Contact :=
  match List.find (fun x => String.eqb (c_id x) (up_contact req)) (bound r) with
  | None => (r, Err "contact_unknown")
  | Some who =>
      let tier := default (c_tier who) (up_tier req) in
      let grants := default (grants_of r (c_id who)) (up_channels req) in
      match operator_grade_grant_in r c tier grants with
      | Some bad => (r, Err ("operator_grade_reach_denied:" +:+ bad))
      | None =>
          let r := if is_some (up_channels req) then regrant now (c_id who) grants r else r in
          (with_bound (update_first (fun x => String.eqb (c_id x) (up_contact req)) (set_tier tier) (bound r)) r,
           Ok (set_tier tier who))
      end
  end.

Definition contacts_revoke (now : Z) (contact_id : string) (r : ContactRegistry)
    : ContactRegistry * result string (option Contact) :=
  let found := List.find (fun c => String.eqb (c_id c) contact_id) (bound r) in
  let r := with_bound (List.filter (fun c => negb (String.eqb (c_id c) contact_id)) (bound r)) r in
  (with_channels (map (fun d => let '(d', removed) := remove_member d contact_id in
                                if removed then stamped now d' else d') (channels r)) r, Ok found).

Definition set_welcomed (contact_id : string) (w : bool) (r : ContactRegistry) : ContactRegistry * result string bool :=
  (with_bound (map (fun c => if String.eqb (c_id c) contact_id then set_contact_welcomed w c else c) (bound r)) r,
   Ok (existsb (fun c => String.eqb (c_id c) contact_id && negb (Bool.eqb (c_welcomed c) w)) (bound r))).

(** ** The router's settings *)

Definition RouterSettings_default : RouterSettings := {| r_model := None; r_compare := false; r_updated_at := 0 |}.
#[export] Instance RouterSettings_eq_dec : EqDecision RouterSettings.
Proof. solve_decision. Defined.

Definition with_router (s : option RouterSettings) (r : ContactRegistry) : ContactRegistry :=
  {| bound := bound r; pending := pending r; invites := invites r; legacy_apps := legacy_apps r;
     channels := channels r; router := s |}.

Record RouterSettingsRequest := { rr_model : option string; rr_compare : option bool }.

Definition settings_refusal (c : RouterConfig) (req : RouterSettingsRequest) : option string :=
  if match rr_model req with Some m => negb (offers c (trim m)) | None => false end then Some "model_not_offered"
  else if bool_decide (rr_compare req = Some true) && (length (models c) <? 2)%nat then Some "nothing_to_compare"
  else None.

Definition router_settings (now : Z) (req : RouterSettingsRequest) (r : ContactRegistry)
    : ContactRegistry * result string bool :=
  let cur := default RouterSettings_default (router r) in
  let next := {| r_model := match rr_model req with Some m => Some (trim m) | None => r_model cur end;
                 r_compare := default (r_compare cur) (rr_compare req); r_updated_at := r_updated_at cur |} in
  let changed := negb (bool_decide (router r = Some next))
                 && (is_some (router r) || negb (bool_decide (next = RouterSettings_default))) in
  if changed
  then (with_router (Some {| r_model := r_model next; r_compare := r_compare next; r_updated_at := now |}) r, Ok true)
  else (r, Ok false).

(** ** Restoring a registry *)

Definition registry_import (now : Z) (incoming : ContactRegistry) (force : bool) (r : ContactRegistry)
    : ContactRegistry * result string unit :=
  if negb force && negb (is_nil (bound r) && is_nil (invites r) && is_nil (pending r) && is_nil (legacy_apps r)
                         && is_nil (channels r) && negb (is_some (router r)))
  then (r, Err "registry_not_empty")
  else ((migrate_legacy now incoming).1, Ok tt).

(** ** Writing a channel document *)

Record ChannelUpdate := {
  cu_channel : string; cu_name : option string; cu_purpose : option string; cu_operator_of : option string;
  cu_household_default : option bool; cu_default_app : option string; cu_app : option ChannelApp;
  cu_remove_app : option string; cu_member : option ChannelMember; cu_remove : bool }.

Definition with_name (n : string) (d : ChannelDoc) : ChannelDoc :=
  {| doc_id := doc_id d; doc_name := n; purpose := purpose d; operator_of := operator_of d;
     household_default := household_default d; members := members d; apps := apps d;
     default_app := default_app d; updated_at := updated_at d |}.

Definition with_operator_of (o : option string) (d : ChannelDoc) : ChannelDoc :=
  {| doc_id := doc_id d; doc_name := doc_name d; purpose := purpose d; operator_of := o;
     household_default := household_default d; members := members d; apps := apps d;
     default_app := default_app d; updated_at := updated_at d |}.

(** The steps of a write to one document, each with whether it changed it and the text of a
    refusal; the document is the one in memory, so an earlier step stays done when a later
    one refuses. *)
Definition DocStep : Type := ChannelDoc -> ChannelDoc * result string bool.

Definition changed_to (d d' : ChannelDoc) (differs : bool) : ChannelDoc * result string bool :=
  if differs then (d', Ok true) else (d, Ok false).

Definition write_name (n : option string) : DocStep := fun d =>
  match n with
  | Some n => changed_to d (with_name (trim n) d)
                (negb (String.eqb (trim n) "") && negb (String.eqb (doc_name d) (trim n)))
  | None => (d, Ok false)
  end.

Definition write_purpose (p : option string) : DocStep := fun d =>
  match p with
  | Some p => changed_to d (with_purpose (trim p) d) (negb (String.eqb (purpose d) (trim p)))
  | None => (d, Ok false)
  end.

Definition write_operator_of (o : option string) : DocStep := fun d =>
  match o with
  | Some o =>
      let next := if String.eqb (trim o) "" then None else Some (to_lowercase (trim o)) in
      changed_to d (with_operator_of next d) (negb (bool_decide (operator_of d = next)))
  | None => (d, Ok false)
  end.

Definition write_household (b : option bool) : DocStep := fun d =>
  match b with
  | Some b => changed_to d (with_household b d) (negb (Bool.eqb (household_default d) b))
  | None => (d, Ok false)
  end.

Definition write_app (a : option ChannelApp) : DocStep := fun d =>
  match a with
  | Some a => if String.eqb (trim (app_alias a)) "" then (d, Err "app_alias_empty")
              else let '(d', ch) := upsert_app d a in (d', Ok ch)
  | None => (d, Ok false)
  end.

Definition write_remove_app (a : option string) : DocStep := fun d =>
  match a with
  | Some a => let '(d', ch) := remove_app d a in (d', Ok ch)
  | None => (d, Ok false)
  end.

Definition write_default_app (a : option string) : DocStep := fun d =>
  match a with
  | Some a =>
      let next := if String.eqb (trim a) "" then None else Some (to_lowercase (trim a)) in
      match next with
      | Some x => if is_some (doc_app d x)
                  then changed_to d (with_apps (apps d) next d) (negb (bool_decide (default_app d = next)))
                  else (d, Err ("default_app_not_on_channel:" +:+ x))
      | None => changed_to d (with_apps (apps d) None d) (negb (bool_decide (default_app d = None)))
      end
  | None => (d, Ok false)
  end.

Definition write_member (m : option ChannelMember) : DocStep := fun d =>
  match m with
  | Some m => if String.eqb (trim (m_contact m)) "" then (d, Err "member_contact_id_empty")
              else let '(d', ch) := set_member d (trim (m_contact m)) (m_speak m) (m_read m) in (d', Ok ch)
  | None => (d, Ok false)
  end.

Fixpoint run_steps (steps : list DocStep) (d : ChannelDoc) (changed : bool) : ChannelDoc * result string bool :=
  match steps with
  | [] => (d, Ok changed)
  | s :: steps =>
      let '(d', out) := s d in
      match out with
      | Err why => (d', Err why)
      | Ok ch => run_steps steps d' (changed || ch)
      end
  end.

Definition doc_steps (u : ChannelUpdate) : list DocStep :=
  [write_name (cu_name u); write_purpose (cu_purpose u); write_operator_of (cu_operator_of u);
   write_household (cu_household_default u); write_app (cu_app u); write_remove_app (cu_remove_app u);
   write_default_app (cu_default_app u); write_member (cu_member u)].

(** Any other household default loses its mark to a new one. *)
Definition unmark_others (now : Z) (id : string) (ds : list ChannelDoc) : list ChannelDoc * bool :=
  (map (fun d => if negb (String.eqb (doc_id d) id) && household_default d
                 then stamped now (with_household false d) else d) ds,
   existsb (fun d => negb (String.eqb (doc_id d) id) && household_default d) ds).

(** Replace the first document of an id, or add one. *)
Definition put_doc (id : string) (d : ChannelDoc) (ds : list ChannelDoc) : list ChannelDoc :=
  if existsb (fun x => String.eqb (doc_id x) id) ds
  then update_first (fun x => String.eqb (doc_id x) id) (fun _ => d) ds
  else (ds ++ [d])%list.

Definition doc_or_new (id : string) (ds : list ChannelDoc) : ChannelDoc :=
  default (ChannelDoc_new id id) (List.find (fun d => String.eqb (doc_id d) id) ds).

(** The closure of [channels_update]. *)
Definition write_channel (now : Z) (u : ChannelUpdate) (r : ContactRegistry)
    : ContactRegistry * result string (bool * ChannelDoc) :=
  let id := trim (cu_channel u) in
  let absent := negb (existsb (fun d => String.eqb (doc_id d) id) (channels r)) in
  let '(ds, unmarked) :=
    if bool_decide (cu_household_default u = Some true) then unmark_others now id (channels r)
    else (channels r, false) in
  let '(d, out) := run_steps (doc_steps u) (doc_or_new id ds) (absent || unmarked) in
  match out with
  | Err why => (with_channels (put_doc id d ds) r, Err why)
  | Ok changed =>
      let d := if changed then stamped now d else d in
      (with_channels (put_doc id d ds) r, Ok (changed, d))
  end.

Inductive ChannelWrite := CRemoved (changed : bool) | CWritten (changed : bool) (doc : ChannelDoc).

Definition channels_update (now : Z) (u : ChannelUpdate) (h : Handle) (persisted : bool)
    : Handle * result AdminError ChannelWrite :=
  let id := trim (cu_channel u) in
  if String.eqb id "" then (h, Err (Refused "channel_id_empty"))
  else if cu_remove u then
    mutate h persisted (fun r => let '(r', ch) := remove_channel r id in (r', Ok (CRemoved ch)))
  else
    mutate h persisted (fun r => let '(r', out) := write_channel now u r in
      (r', match out with Ok (ch, d) => Ok (CWritten ch d) | Err why => Err why end)).

(** * Properties *)

(** ** The policy every write keeps *)

Definition identity (c : Contact) : string * string := (c_transport c, c_transport_id c).

Definition one_default (ds : list ChannelDoc) : Prop :=
  forall d d', d ∈ ds -> d' ∈ ds -> household_default d = true -> household_default d' = true ->
    doc_id d = doc_id d'.

Record wf_policy (r : ContactRegistry) : Prop := {
  wp_registry : wf_registry r;
  wp_contacts : NoDup (map c_id (bound r));
  wp_identities : NoDup (map identity (bound r));
  wp_default : one_default (channels r) }.

(** Two registries with the same contacts and documents. *)
Lemma wf_policy_same r r' :
  wf_policy r -> bound r' = bound r -> channels r' = channels r -> wf_policy r'.
Proof. intros [[] ? ? ?] Eb Ec. split; [split|..]; rewrite ?Eb, ?Ec; done. Qed.

(** Documents mapped one by one, with their marks kept. *)
Lemma map_docs_policy (f : ChannelDoc -> ChannelDoc) r :
  (forall d, d ∈ channels r -> wf_doc d -> wf_doc (f d)) -> (forall d, doc_id (f d) = doc_id d) ->
  (forall d, household_default (f d) = household_default d) ->
  wf_policy r -> wf_policy (with_channels (map f (channels r)) r).
Proof.
  intros Hf Hi Hh [[Wd Wi] Wc Wt Wo]. split; [split|done|done|]; cbn [channels with_channels].
  - apply Forall_map, Forall_forall. rewrite Forall_forall in Wd. auto.
  - rewrite map_map. by rewrite (map_ext _ doc_id).
  - intros d d' (x & Hx & ->)%elem_of_map (y & Hy & ->)%elem_of_map. rewrite !Hi, !Hh. by apply Wo.
Qed.

Lemma rebind_policy r c : wf_policy r -> wf_policy (rebind r c).
Proof.
  intros [W Wc Wt Wo]. split; [by destruct W|..|done]; cbn [rebind bound with_bound]; rewrite map_app;
    (apply NoDup_app; split_and!; [by apply filter_map_key| |apply NoDup_singleton]);
    intros x (y & Hy & ->)%elem_of_map E%list_elem_of_singleton; apply elem_of_filterb in Hy as [Hn _];
    apply negb_true_iff in Hn; unfold same_identity in Hn; apply orb_false_iff in Hn as [H1 H2].
  - by rewrite E, String.eqb_refl in H1.
  - unfold identity in E. injection E as E1 E2. by rewrite E1, E2, !String.eqb_refl in H2.
Qed.

Lemma apply_grants_policy r c gs : wf_policy r -> wf_policy (apply_grants r c gs).1.
Proof.
  intros W. change (apply_grants r c gs).1
    with (with_channels (map (fun d => (grant_one c gs d).1) (channels r)) r).
  apply map_docs_policy; try done; intros d; [intros _; apply grant_one_wf|apply grant_one_frame..].
Qed.

Lemma stamp_rows_policy c now r : wf_policy r -> wf_policy (stamp_rows c now r).
Proof.
  intros W. apply map_docs_policy; [|intros d; by case_match..|done].
  intros d _ Wd. case_match; [by apply stamped_wf|done].
Qed.

Lemma filter_bound_policy r (p : Contact -> bool) : wf_policy r -> wf_policy (with_bound (List.filter p (bound r)) r).
Proof. intros [[] Wc Wt Wo]. split; [by split|by apply filter_map_key..|done]. Qed.

Lemma update_bound_policy r p (f : Contact -> Contact) :
  (forall c, c_id (f c) = c_id c) -> (forall c, identity (f c) = identity c) ->
  wf_policy r -> wf_policy (with_bound (update_first p f (bound r)) r).
Proof.
  intros Hi Ht [[] Wc Wt Wo]. split; [by split|..|done]; cbn [bound with_bound]; by rewrite update_first_keys.
Qed.

Lemma regrant_policy now c gs r : wf_policy r -> wf_policy (regrant now c gs r).
Proof.
  intros W. unfold regrant. apply map_docs_policy; [|intros d; by case_match..|by apply apply_grants_policy].
  intros d _ Wd. case_match; [done|by apply stamped_wf].
Qed.

(** Learning an id: of a contact of the same transport as the bot. *)
Lemma learn_policy cid from r :
  (forall c, c ∈ bound r -> c_id c = cid -> c_transport c = "weixin") ->
  wf_policy r -> wf_policy (learn_transport_id cid from r).
Proof.
  intros Hw W. unfold learn_transport_id. destruct (String.eqb from ""); [done|].
  destruct (List.find _ (bound r)) as [c|] eqn:E; [|done]. destruct (String.eqb _ from); [done|].
  destruct (existsb _ (bound r)) eqn:F; [done|]. destruct W as [[] Wc Wt Wo].
  split; [by split|..|done]; cbn [bound with_bound].
  { by rewrite update_first_keys. }
  rewrite (update_first_map c_id _ cid) by (done || intros x; apply eqb_decide).
  rewrite existsb_none in F. clear E Wo. revert Hw Wc Wt F.
  generalize (bound r). induction l as [|x l IH]; intros Hw Wc Wt F; [constructor|].
  cbn [map] in *. apply NoDup_cons in Wc as [Wc1 Wc2], Wt as [Wt1 Wt2]. apply NoDup_cons. split.
  2:{ apply IH; [|done|done|]; intros y Hy; [apply Hw|apply F]; by right. }
  assert (map (fun y => if String.eqb (c_id y) cid then set_transport_id from y else y) l = l \/ c_id x <> cid)
    as Hx.
  { destruct (String.eqb_spec (c_id x) cid) as [Hx|]; [left|by right].
    rewrite <-(map_id l) at 2. apply map_ext_in. intros y Hy%list_elem_of_In.
    rewrite (proj2 (String.eqb_neq (c_id y) cid)); [done|]. intros Hy'. apply Wc1. rewrite Hx, <-Hy'.
    apply elem_of_map. eauto. }
  intros (y & Hy & Ey)%elem_of_map. destruct (String.eqb_spec (c_id x) cid) as [Hx'|Hx'].
  - destruct Hx as [Hx|]; [rewrite Hx in Hy|done]. specialize (F y ltac:(by right)).
    assert (c_id y <> cid) as Hne. { intros Hy'. apply Wc1. rewrite Hx', <-Hy'. apply elem_of_map. eauto. }
    assert (c_transport x = "weixin") as Hwx by (apply Hw; [left|done]).
    unfold identity, set_transport_id in Ey. cbn in Ey. injection Ey as E1 E2.
    rewrite <-E1, <-E2, Hwx, !String.eqb_refl, (proj2 (String.eqb_neq _ _)) in F by done. done.
  - apply elem_of_map in Hy as (z & Hz & ->). destruct (String.eqb_spec (c_id z) cid) as [Hz'|Hz'].
    + specialize (F x ltac:(left)). assert (c_transport z = "weixin") as Hwz by (apply Hw; [by right|done]).
      unfold identity, set_transport_id in Ey. cbn in Ey. injection Ey as E1 E2.
      rewrite E1, E2, Hwz, !String.eqb_refl, (proj2 (String.eqb_neq _ _)) in F by done. done.
    + apply Wt1. rewrite Ey. apply elem_of_map. eauto.
Qed.

(** ** The steps of a write to a document *)

Definition keeps_wf (s : DocStep) : Prop :=
  forall d, wf_doc d -> wf_doc (s d).1 /\ doc_id (s d).1 = doc_id d.

Lemma changed_to_cases d d' b : (changed_to d d' b).1 = d \/ (changed_to d d' b).1 = d'.
Proof. destruct b; [by right|by left]. Qed.

Ltac doc_cases := match goal with |- context [(changed_to ?d ?d' ?b).1] =>
  destruct (changed_to_cases d d' b) as [-> | ->] end.

Lemma doc_steps_wf u : Forall keeps_wf (doc_steps u).
Proof.
  repeat apply List.Forall_cons; [..|apply List.Forall_nil]; intros d W.
  - unfold write_name. destruct (cu_name u); [doc_cases|]; destruct W; by repeat split.
  - unfold write_purpose. destruct (cu_purpose u); [doc_cases|]; destruct W; by repeat split.
  - unfold write_operator_of. destruct (cu_operator_of u); [doc_cases|]; destruct W; by repeat split.
  - unfold write_household. destruct (cu_household_default u); [doc_cases|]; destruct W; by repeat split.
  - unfold write_app. destruct (cu_app u) as [a|]; [|done]. destruct (String.eqb _ _); [done|].
    pose proof (upsert_app_wf d a W) as H. pose proof (upsert_app_apps d a) as (_ & Hi & _).
    by destruct (upsert_app d a).
  - unfold write_remove_app. destruct (cu_remove_app u) as [a|]; [|done].
    pose proof (remove_app_wf d a W) as H. by destruct (remove_app d a) eqn:E; unfold remove_app in E; injection E as <- <-.
  - unfold write_default_app. destruct (cu_default_app u) as [a|]; [|done].
    destruct (String.eqb (trim a) ""); [doc_cases; destruct W; by repeat split|].
    destruct (is_some (doc_app d _)) eqn:E; [|done]. doc_cases; [done|]. split; [|done].
    destruct W. split; try done. cbn [default_app with_apps]. split; [apply norm_alias_of|]. exact E.
  - unfold write_member. destruct (cu_member u) as [m|]; [|done]. destruct (String.eqb _ _); [done|].
    pose proof (set_member_wf d (trim (m_contact m)) (m_speak m) (m_read m) W) as H.
    pose proof (set_member_frame d (trim (m_contact m)) (m_speak m) (m_read m)) as Hf.
    destruct (set_member d _ _ _). split; [done|apply Hf].
Qed.

Lemma run_steps_wf steps d b :
  Forall keeps_wf steps -> wf_doc d ->
  wf_doc (run_steps steps d b).1 /\ doc_id (run_steps steps d b).1 = doc_id d.
Proof.
  intros Hs. revert d b. induction Hs as [|s steps Hs' Hs IH]; intros d b W; cbn [run_steps]; [done|].
  destruct (Hs' d W) as [W' Hi]. destruct (s d) as [d' [ch|why]]; cbn [fst] in *; [|done].
  destruct (IH d' (b || ch) W') as [W'' Hi']. split; [done|congruence].
Qed.

(** No step but that of the mark makes a document the household default. *)
Lemma steps_household u d b :
  cu_household_default u <> Some true ->
  household_default (run_steps (doc_steps u) d b).1 = true -> household_default d = true.
Proof.
  intros Hu. assert (Forall (fun s : DocStep => forall d, household_default (s d).1 = true ->
    household_default d = true) (doc_steps u)) as Hs.
  { repeat apply List.Forall_cons; [..|apply List.Forall_nil]; clear d; intros d.
    - unfold write_name. destruct (cu_name u); [doc_cases|]; done.
    - unfold write_purpose. destruct (cu_purpose u); [doc_cases|]; done.
    - unfold write_operator_of. destruct (cu_operator_of u); [doc_cases|]; done.
    - unfold write_household. destruct (cu_household_default u) as [[]|]; [done|doc_cases; done|done].
    - unfold write_app. destruct (cu_app u) as [a|]; [|done]. destruct (String.eqb _ _); [done|].
      pose proof (upsert_app_apps d a) as (_ & _ & _ & _ & Hh & _). destruct (upsert_app d a). cbn in *. by rewrite Hh.
    - unfold write_remove_app. destruct (cu_remove_app u) as [a|]; [|done].
      by destruct (remove_app d a) eqn:E; unfold remove_app in E; injection E as <- <-.
    - unfold write_default_app. destruct (cu_default_app u) as [a|]; [|done].
      repeat (case_match || doc_cases); done.
    - unfold write_member. destruct (cu_member u) as [m|]; [|done]. destruct (String.eqb _ _); [done|].
      pose proof (set_member_frame d (trim (m_contact m)) (m_speak m) (m_read m)) as (_ & _ & _ & _ & _ & _ & Hh).
      destruct (set_member d _ _ _). cbn in *. by rewrite Hh. }
  revert d b. induction Hs as [|s steps Hs' Hs IH]; intros d b; cbn [run_steps]; [done|].
  specialize (Hs' d). destruct (s d) as [d' [ch|why]]; cbn [fst] in *; [|done]. intros H. apply Hs', (IH _ _ H).
Qed.

(** ** A write to a channel document *)

Lemma unmark_others_facts now id ds :
  Forall wf_doc ds ->
  Forall wf_doc (unmark_others now id ds).1 /\ map doc_id (unmark_others now id ds).1 = map doc_id ds /\
  (forall d, d ∈ (unmark_others now id ds).1 -> household_default d = true -> doc_id d = id).
Proof.
  intros W. unfold unmark_others. cbn [fst]. split_and!.
  - apply Forall_map. eapply Forall_impl; [exact W|]. intros d Wd. cbn. case_match; [|done].
    apply stamped_wf. by destruct Wd.
  - rewrite map_map. apply map_ext. intros d. by case_match.
  - intros d (x & Hx & ->)%elem_of_map. destruct (String.eqb_spec (doc_id x) id) as [E|E]; cbn [negb andb].
    + by intros _.
    + destruct (household_default x) eqn:F; [done|]. by rewrite F.
Qed.

Lemma put_doc_facts id d ds :
  doc_id d = id -> NoDup (map doc_id ds) ->
  NoDup (map doc_id (put_doc id d ds)) /\
  forall x, x ∈ put_doc id d ds -> x = d \/ x ∈ ds /\ doc_id x <> id.
Proof.
  intros Hd Hn. unfold put_doc. destruct (existsb _ ds) eqn:E.
  - split.
    + rewrite update_first_keys; [done|]. intros x Hx%String.eqb_eq. congruence.
    + rewrite (update_first_map doc_id _ id) by (done || intros x; apply eqb_decide).
      intros x (y & Hy & ->)%elem_of_map. destruct (String.eqb_spec (doc_id y) id); [by left|by right].
  - rewrite existsb_none in E. split.
    + rewrite map_app. apply NoDup_app. split_and!; [done| |apply NoDup_singleton].
      intros x (y & Hy & ->)%elem_of_map Hx%list_elem_of_singleton. specialize (E _ Hy).
      apply String.eqb_neq in E. congruence.
    + intros x [Hx| ->%list_elem_of_singleton]%elem_of_app; [right|by left]. split; [done|].
      specialize (E _ Hx). by apply String.eqb_neq in E.
Qed.

Lemma put_doc_forall P id d ds : P d -> Forall P ds -> Forall P (put_doc id d ds).
Proof.
  intros Hd Hds. unfold put_doc. case_match; [by apply update_first_forall|]. apply Forall_app. auto.
Qed.

Lemma doc_or_new_facts id ds :
  trim id = id -> Forall wf_doc ds ->
  wf_doc (doc_or_new id ds) /\ doc_id (doc_or_new id ds) = id /\
  (household_default (doc_or_new id ds) = true -> doc_or_new id ds ∈ ds).
Proof.
  intros Hi W. unfold doc_or_new. destruct (List.find _ ds) as [d|] eqn:E; cbn [default from_option Datatypes.id].
  - apply find_some in E as [Hin E%String.eqb_eq]. apply list_elem_of_In in Hin.
    rewrite Forall_forall in W. auto.
  - split_and!; [apply ChannelDoc_new_wf|done|done].
Qed.

Lemma write_channel_policy now u r : wf_policy r -> wf_policy (write_channel now u r).1.
Proof.
  intros [[Wd Wi] Wc Wt Wo]. unfold write_channel. set (id := trim (cu_channel u)).
  assert (trim id = id) as Hid by apply trim_idem.
  set (marked := if bool_decide (cu_household_default u = Some true) then _ else _).
  assert (Forall wf_doc marked.1 /\ map doc_id marked.1 = map doc_id (channels r) /\
    forall d d', d ∈ marked.1 -> household_default d = true ->
      (cu_household_default u = Some true -> doc_id d = id) /\
      (d' ∈ marked.1 -> household_default d' = true -> doc_id d = doc_id d')) as (Mw & Mi & Mo).
  { unfold marked. case_bool_decide as E.
    - destruct (unmark_others_facts now id (channels r) Wd) as (H1 & H2 & H3). split_and!; [done..|].
      intros d d' Hd Hh. split; [by intros _; apply H3|]. intros Hd' Hh'. by rewrite (H3 _ Hd Hh), (H3 _ Hd' Hh').
    - cbn [fst]. split_and!; [done..|]. intros d d' Hd Hh. split; [done|]. intros. by apply Wo. }
  destruct marked as [ds um]. cbn [fst] in *.
  destruct (doc_or_new_facts id ds Hid Mw) as (Dw & Di & Dh).
  set (b := _ || um). destruct (run_steps_wf (doc_steps u) (doc_or_new id ds) b (doc_steps_wf u) Dw) as [Rw Ri].
  pose proof (steps_household u (doc_or_new id ds) b) as Rh.
  destruct (run_steps (doc_steps u) (doc_or_new id ds) b) as [d out]. cbn [fst] in *.
  assert (forall d', wf_doc d' -> doc_id d' = id -> household_default d' = household_default d ->
    wf_policy (with_channels (put_doc id d' ds) r)) as Hput.
  { intros d' Wd' Hi' Hh'. destruct (put_doc_facts id d' ds Hi') as [Pn Pe]; [by rewrite Mi|].
    split; [split|done|done|]; cbn [channels with_channels]; [by apply put_doc_forall|done|].
    assert (forall x, x ∈ ds -> doc_id x <> id -> household_default x = true -> household_default d = true -> False)
      as Hno.
    { intros x Hx Hne Hxh Hdh. destruct (base.decide (cu_household_default u = Some true)) as [Hu|Hu].
      - apply Hne. by apply (proj1 (Mo x x Hx Hxh)).
      - specialize (Rh Hu Hdh). apply Hne. rewrite <-Di. symmetry.
        by apply (proj2 (Mo _ x (Dh Rh) Rh)). }
    intros x y Hx Hy Hxh Hyh. destruct (Pe _ Hx) as [->|[Hx' Nx]], (Pe _ Hy) as [->|[Hy' Ny]]; [done| | |].
    - exfalso. apply (Hno y); [done..|]. by rewrite <-Hh'.
    - exfalso. apply (Hno x); [done..|]. by rewrite <-Hh'.
    - by apply (proj2 (Mo x y Hx' Hxh)). }
  assert (doc_id d = id) as Hdi by congruence.
  destruct out as [ch|why]; cbn [fst]; [|by apply Hput].
  destruct ch; [|by apply Hput]. apply Hput; [by apply stamped_wf|done|done].
Qed.

(** ** Every write of the console, and the claims and ids that come in with messages *)

Inductive RegistryOp :=
| WInvite (req : InviteRequest) (code : string)
| WClaim (transport transport_id : string) (i : BindInvite)
| WApprove (c : GateOptions) (now : Z) (req : ApproveRequest)
| WReject (code : string)
| WScan (now : Z) (contact_id transport_id : string)
| WLearn (contact_id from : string)
| WUpdate (c : GateOptions) (now : Z) (req : UpdateRequest)
| WRevoke (now : Z) (contact_id : string)
| WWelcomed (contact_id : string) (w : bool)
| WRouter (now : Z) (req : RouterSettingsRequest)
| WImport (now : Z) (incoming : ContactRegistry) (force : bool)
| WRemoveChannel (id : string)
| WChannel (now : Z) (u : ChannelUpdate).

(** The registry in memory after the operation, refused or not. *)
Definition write (o : RegistryOp) (r : ContactRegistry) : ContactRegistry :=
  match o with
  | WInvite req code => store_invite r req code
  | WClaim t i inv => with_pending (List.filter (fun p => negb (String.eqb (pb_code p) (i_code inv))) (pending r)
                                    ++ [claim_of t i inv])%list r
  | WApprove c now req => (bind_approve c now req r).1
  | WReject code => (bind_reject code r).1
  | WScan now cid tid => (bind_member_by_scan now cid tid r).1
  | WLearn cid from => learn_transport_id cid from r
  | WUpdate c now req => (contacts_update c now req r).1
  | WRevoke now cid => (contacts_revoke now cid r).1
  | WWelcomed cid w => (set_welcomed cid w r).1
  | WRouter now req => (router_settings now req r).1
  | WImport now incoming force => (registry_import now incoming force r).1
  | WRemoveChannel id => (remove_channel r id).1
  | WChannel now u => (write_channel now u r).1
  end.

(** What the handle goes through: a write, saved or not, and the file read again, which is
    also how a gateway starts. *)
Inductive HandleOp :=
| HWrite (o : RegistryOp) (saved : bool)
| HReload (now : Z) (readable : bool).

Definition handle_step (h : Handle) (o : HandleOp) : Handle :=
  match o with
  | HWrite o saved => {| memory := write o (memory h); file := if saved then write o (memory h) else file h |}
  | HReload now readable => (reload h now readable).1
  end.

(** A bot's loop teaches the id of a member of its own transport, and a restored registry is
    one that keeps the policy. *)
Definition write_ok (o : HandleOp) (h : Handle) : Prop :=
  match o with
  | HWrite (WLearn cid _) _ => forall c, c ∈ bound (memory h) -> c_id c = cid -> c_transport c = "weixin"
  | HWrite (WImport _ incoming _) _ => wf_policy incoming
  | _ => True
  end.

Lemma migrate_policy now r : wf_policy r -> wf_policy (migrate_legacy now r).1.
Proof.
  intros [W Wc Wt Wo]. destruct (migration_keeps_reach now r W) as (W' & Eb & _). split; [done|..].
  - by rewrite Eb, map_map.
  - by rewrite Eb, map_map.
  - intros d d'. by apply migrate_one_default.
Qed.

Lemma approve_policy c now req r : wf_policy r -> wf_policy (bind_approve c now req r).1.
Proof.
  intros W. unfold bind_approve. repeat case_match; cbn [fst]; try done.
  apply stamp_rows_policy, apply_grants_policy.
  eapply wf_policy_same; [by apply rebind_policy|done|done].
Qed.

Lemma scan_policy now cid tid r : wf_policy r -> wf_policy (bind_member_by_scan now cid tid r).1.
Proof.
  intros W. unfold bind_member_by_scan.
  destruct (match List.find _ (invites r) with Some _ => _ | None => _ end) as [[[display tier] grants]|]; [|done].
  cbn [fst]. set (r1 := with_pending _ _).
  assert (wf_policy r1) as W1 by (eapply wf_policy_same; [by apply rebind_policy|done|done]).
  destruct grants; [|done]. by apply stamp_rows_policy, apply_grants_policy.
Qed.

Lemma update_policy c now req r : wf_policy r -> wf_policy (contacts_update c now req r).1.
Proof.
  intros W. unfold contacts_update. destruct (List.find _ (bound r)) as [who|]; [|done].
  destruct (operator_grade_grant_in _ _ _ _); [done|]. cbn [fst].
  apply update_bound_policy; [done..|]. case_match; [by apply regrant_policy|done].
Qed.

Lemma revoke_policy now cid r : wf_policy r -> wf_policy (contacts_revoke now cid r).1.
Proof.
  intros W. unfold contacts_revoke. cbn [fst].
  apply (map_docs_policy (fun d => let '(d', removed) := remove_member d cid in
                                   if removed then stamped now d' else d')); [| | |by apply filter_bound_policy].
  - intros d _ Wd. pose proof (remove_member_wf d cid Wd) as H. destruct (remove_member d cid) as [d' []]; [|done].
    by apply stamped_wf.
  - intros d. pose proof (remove_member_frame d cid) as (H & _). by destruct (remove_member d cid) as [d' []].
  - intros d. pose proof (remove_member_frame d cid) as (_ & _ & _ & _ & _ & _ & H).
    by destruct (remove_member d cid) as [d' []].
Qed.

Lemma filter_docs_policy r (p : ChannelDoc -> bool) :
  wf_policy r -> wf_policy (with_channels (List.filter p (channels r)) r).
Proof.
  intros [[Wd Wi] Wc Wt Wo]. split; [split|done|done|]; cbn [channels with_channels].
  - by apply filter_forall.
  - by apply filter_map_key.
  - intros d d' [_ Hd]%elem_of_filterb [_ Hd']%elem_of_filterb. by apply Wo.
Qed.

Lemma write_policy o saved h :
  write_ok (HWrite o saved) h -> wf_policy (memory h) -> wf_policy (write o (memory h)).
Proof.
  intros Hok W. destruct o; cbn [write write_ok] in *; try (by eapply wf_policy_same; [exact W|done..]).
  - by apply approve_policy.
  - by apply scan_policy.
  - by apply learn_policy.
  - by apply update_policy.
  - by apply revoke_policy.
  - unfold set_welcomed. cbn [fst]. destruct W as [[] Wc Wt Wo]. split; [by split| | |done];
      cbn [bound with_bound]; rewrite map_map.
    + rewrite (map_ext _ c_id); [done|]. intros c. by case_match.
    + rewrite (map_ext _ identity); [done|]. intros c. by case_match.
  - unfold router_settings. case_match; [|done]. by eapply wf_policy_same; [exact W|done..].
  - unfold registry_import. destruct (_ && _); [done|]. by apply migrate_policy.
  - by apply filter_docs_policy.
  - by apply write_channel_policy.
Qed.

(** What a registry keeps in memory and in the file. *)
Definition keeps_policy (h : Handle) : Prop := wf_policy (memory h) /\ wf_policy (file h).


(** ** What an approval does *)

Lemma rebind_resolves r c :
  resolve (rebind r c) (c_transport c) (c_transport_id c) = Some c.
Proof.
  unfold resolve, rebind. cbn [bound with_bound]. rewrite find_snoc, !String.eqb_refl. cbn [andb].
  destruct (List.find _ (List.filter _ (bound r))) as [x|] eqn:E; [|done].
  apply find_some in E as [Hin E]. apply filter_In in Hin as [_ Hn]. apply negb_true_iff in Hn.
  unfold same_identity in Hn. rewrite E in Hn. by rewrite orb_true_r in Hn.
Qed.

Lemma reg_channel_self r d : wf_registry r -> d ∈ channels r -> reg_channel r (doc_id d) = Some d.
Proof.
  intros [W Hn] Hd. unfold reg_channel. assert (trim (doc_id d) = doc_id d) as Ht.
  { rewrite Forall_forall in W. apply (W d Hd). }
  rewrite Ht. clear Ht W. induction (channels r) as [|x l IH]; [by apply not_elem_of_nil in Hd|].
  cbn [map] in Hn. apply NoDup_cons in Hn as [Hx Hn]. cbn [List.find].
  apply elem_of_cons in Hd as [->|Hd]; [by rewrite String.eqb_refl|].
  rewrite (proj2 (String.eqb_neq _ _)); [by apply IH|]. intros E. apply Hx. rewrite E. apply elem_of_map. eauto.
Qed.

(** Where the guard passed, no granted channel to speak on has an operator-grade app. *)
Lemma guard_passed r c tier gs d row cid :
  wf_registry r -> operator_grade_grant_in r c tier gs = None -> tier <> Owner ->
  d ∈ channels r -> granted_row cid gs d = Some row -> m_speak row = true ->
  forall a, a ∈ apps d -> app_alias a ∉ operator_grade_aliases c.
Proof.
  intros W Hg Ht Hd Hrow Hs a Ha Hin. unfold operator_grade_grant_in in Hg.
  destruct (may_hold_operator_grade_reach tier) eqn:E; [by destruct tier|].
  destruct (List.find _ (concat _)) eqn:F; [done|].
  unfold granted_row in Hrow. destruct (List.find _ gs) as [g|] eqn:G; [|done]. cbn [mbind option_bind] in Hrow.
  apply find_some in G as [Hg' Hid%String.eqb_eq].
  assert (g_speak g = true) as Hsp.
  { unfold row_of in Hrow. destruct (g_speak g || g_read g); [|done]. injection Hrow as <-. done. }
  assert (a ∈ concat (map apps (omap (fun g => reg_channel r (g_channel g)) (List.filter g_speak gs)))) as Hc.
  { apply list_elem_of_In, in_concat. exists (apps d). split; [|by apply list_elem_of_In].
    apply in_map, list_elem_of_In, list_elem_of_omap. exists g.
    split; [apply elem_of_filterb; by rewrite list_elem_of_In|].
    pose proof (reg_channel_self r d W Hd) as H. unfold reg_channel in *. rewrite Hid.
    destruct W as [Wd _]. rewrite Forall_forall in Wd. by rewrite (wf_id _ (Wd d Hd)) in H. }
  apply list_elem_of_In in Hc. apply (find_none _ _ F) in Hc. rewrite existsb_none in Hc.
  specialize (Hc _ Hin). by rewrite String.eqb_refl in Hc.
Qed.

Lemma stamp_rows_elem c now r d :
  d ∈ channels (stamp_rows c now r) <-> exists x, x ∈ channels r /\ d = if is_some (doc_member x c) then stamped now x else x.
Proof. unfold stamp_rows. cbn [channels with_channels]. by rewrite elem_of_map. Qed.

(** C7: An approval binds whoever claimed the code, and nobody else: it needs an invite with
    that code and a claim of it, binds the invite's contact id to the claimant's transport
    identity in place of any holder of either, spends the code, and leaves on every channel
    exactly the row granted, to speak or only to read; a member below owner then speaks on
    no channel where an operator-grade app is bound, though a row to read may stay there.
    A refusal changes nothing. *)
Theorem approve_binds_claimant c now req r (W : wf_policy r) :
  let '(r', out) := bind_approve c now req r in
  match out with
  | Err _ => r' = r
  | Ok who =>
      (exists i p, i ∈ invites r /\ eq_lower (i_code i) (ap_code req) = true /\
         p ∈ pending r /\ eq_lower (pb_code p) (ap_code req) = true /\
         c_id who = i_contact i /\ identity who = (pb_transport p, pb_transport_id p) /\
         c_tier who = default (i_tier i) (ap_tier req) /\
         forall d', d' ∈ channels r' -> exists d, d ∈ channels r /\ doc_id d' = doc_id d /\ apps d' = apps d /\
           forall x, doc_member d' x = if bool_decide (x = c_id who)
                                       then granted_row (c_id who) (default (i_channels i) (ap_channels req)) d
                                       else doc_member d x) /\
      resolve r' (c_transport who) (c_transport_id who) = Some who /\
      (forall x, x ∈ bound r' <-> x = who \/ x ∈ bound r /\ same_identity x who = false) /\
      Forall (fun i => eq_lower (i_code i) (ap_code req) = false) (invites r') /\
      Forall (fun p => eq_lower (pb_code p) (ap_code req) = false) (pending r') /\
      (c_tier who <> Owner -> forall d' a, d' ∈ channels r' -> speaks d' (c_id who) = true ->
         a ∈ apps d' -> app_alias a ∉ operator_grade_aliases c)
  end.
Proof.
  unfold bind_approve. destruct (List.find _ (invites r)) as [i|] eqn:Ei; [|done].
  destruct (List.find _ (pending r)) as [p|] eqn:Ep; [|done].
  set (tier := default (i_tier i) (ap_tier req)). set (gs := default (i_channels i) (ap_channels req)).
  destruct (operator_grade_grant_in r c tier gs) as [bad|] eqn:Hg; [done|].
  set (who := {| c_id := i_contact i; c_tier := tier |}).
  apply find_some in Ei as [Hi Hic]. apply find_some in Ep as [Hp Hpc].
  apply list_elem_of_In in Hi, Hp.
  assert (forall d', d' ∈ channels (stamp_rows (c_id who) now
      (apply_grants (with_pending (List.filter (fun p => negb (eq_lower (pb_code p) (ap_code req))) (pending r))
         (with_invites (List.filter (fun i => negb (eq_lower (i_code i) (ap_code req))) (invites r)) (rebind r who)))
         (c_id who) gs).1) ->
    exists d, d ∈ channels r /\ doc_id d' = doc_id d /\ apps d' = apps d /\
      forall x, doc_member d' x = if bool_decide (x = c_id who) then granted_row (c_id who) gs d else doc_member d x)
    as Hrows.
  { intros d' (x & Hx & ->)%stamp_rows_elem. unfold apply_grants in Hx. cbn [map_docs channels with_channels fst] in Hx.
    apply elem_of_map in Hx as (d & Hd & ->). exists d. pose proof (grant_one_frame (c_id who) gs d) as (F1 & F2 & _).
    pose proof (grant_one_row (c_id who) gs d) as Hr. split; [done|]. by case_match. }
  split_and!.
  - exists i, p. split_and!; done.
  - exact (rebind_resolves r who).
  - intros x. change (x ∈ (List.filter (fun x => negb (same_identity x who)) (bound r) ++ [who])%list <->
      x = who \/ x ∈ bound r /\ same_identity x who = false).
    rewrite elem_of_app, list_elem_of_singleton, elem_of_filterb, negb_true_iff. tauto.
  - apply Forall_forall. intros x [Hx _]%elem_of_filterb. by apply negb_true_iff.
  - apply Forall_forall. intros x [Hx _]%elem_of_filterb. by apply negb_true_iff.
  - intros Ht d' a Hd' Hs Ha. destruct (Hrows d' Hd') as (d & Hd & _ & Eapps & Hm). rewrite Eapps in Ha.
    unfold speaks in Hs. rewrite Hm, bool_decide_eq_true_2 in Hs by done.
    destruct (granted_row (c_id who) gs d) as [row|] eqn:Er; [|done].
    by apply (guard_passed r c tier gs d row (c_id who) (wp_registry _ W)).
Qed.

(** ** Concrete ceremonies *)
Module ToyCeremony.
Definition home : ContactRegistry := with_bound [ToyHome.mom] ToyHome.home.
Definition invite : BindInvite :=
  {| i_code := "123456"; i_contact := "grandma"; i_display := "奶奶"; i_tier := Elder;
     i_channels := [{| g_channel := "general"; g_speak := true; g_read := true |}]; i_legacy_reach := [] |}.
Definition invited : Handle := {| memory := with_invites [invite] home; file := with_invites [invite] home |}.
Definition claimed : ContactRegistry := memory (try_claim_bind invited true "weixin" "wx-gran" "绑定 123456").1.
Definition approve : ApproveRequest := {| ap_code := "123456"; ap_tier := None; ap_channels := None |}.
Definition bad_default : ChannelUpdate :=
  {| cu_channel := "general"; cu_name := Some "Renamed"; cu_purpose := None; cu_operator_of := None;
     cu_household_default := None; cu_default_app := Some "nobody"; cu_app := None; cu_remove_app := None;
     cu_member := None; cu_remove := false |}.
Definition bind_stats : ChannelUpdate :=
  {| cu_channel := "general"; cu_name := None; cu_purpose := None; cu_operator_of := None;
     cu_household_default := None; cu_default_app := None; cu_app := Some ToyHome.stats; cu_remove_app := None;
     cu_member := None; cu_remove := false |}.

Lemma home_policy : wf_policy home.
Proof.
  split; [split; apply ToyHome.home_wf|by apply (bool_decide_unpack _)..|].
  intros d d' Hd Hd'. repeat (apply elem_of_cons in Hd as [->|Hd]; [|]); [..|by apply not_elem_of_nil in Hd];
    repeat (apply elem_of_cons in Hd' as [->|Hd']; [|]); try done; by apply not_elem_of_nil in Hd'.
Qed.

Lemma claimed_policy : wf_policy claimed.
Proof. eapply wf_policy_same; [exact home_policy|reflexivity|reflexivity]. Qed.
End ToyCeremony.

(** The refused write of a default app nobody bound has renamed the channel in memory, and the
    next write that succeeds persists the name. *)
Example refused_write_is_kept :
  let h0 := {| memory := ToyCeremony.home; file := ToyCeremony.home |} in
  let '(h1, out) := channels_update 9 ToyCeremony.bad_default h0 true in
  out = Err (Refused "default_app_not_on_channel:nobody") /\ file h1 = file h0 /\
  map doc_name (channels (memory h1)) = ["Renamed"; ""] /\
  map doc_name (channels (file (mutate h1 true (set_welcomed "mom" true)).1)) = ["Renamed"; ""].
Proof. split_and!; reflexivity. Qed.

(** An operator-grade app bound later to a channel where a member below owner speaks: the
    guard of the ceremony is not asked. *)
Example app_bound_after_the_guard :
  let r := (bind_approve ToyGate.options 5 ToyCeremony.approve ToyCeremony.claimed).1 in
  let r' := (write_channel 9 ToyCeremony.bind_stats r).1 in
  match reg_channel r' "general" with
  | Some d => speaks d "grandma" && existsb (fun a => String.eqb (app_alias a) "stats") (apps d)
  | None => false
  end = true /\ operator_grade_aliases ToyGate.options = ["stats"].
Proof. split; reflexivity. Qed.

Lemma approve_binds_claimant_witness :
  let r' := (bind_approve ToyGate.options 5 ToyCeremony.approve ToyCeremony.claimed).1 in
  is_ok (bind_approve ToyGate.options 5 ToyCeremony.approve ToyCeremony.claimed).2 = true /\
  (exists who, resolve r' "weixin" "wx-gran" = Some who) /\ invites r' = [].
Proof.
  pose proof (approve_binds_claimant ToyGate.options 5 ToyCeremony.approve ToyCeremony.claimed
    ToyCeremony.claimed_policy) as H.
  cbv zeta. destruct (bind_approve ToyGate.options 5 ToyCeremony.approve ToyCeremony.claimed) as [r' out] eqn:E.
  vm_compute in E. injection E as <- <-. cbn [fst snd]. split_and!; [reflexivity| |reflexivity].
  destruct H as (_ & Hr & _). eexists. exact Hr.
Defined.

(** A registry restored by force may break the policy: two contacts of one identity. *)
Example forced_import_breaks_the_policy :
  let h := {| memory := ToyCeremony.home; file := ToyCeremony.home |} in
  let twins := with_bound [ToyHome.mom; ToyHome.mom] ToyHome.home in
  map identity (bound (memory (handle_step h (HWrite (WImport 9 twins true) true))))
  = [("weixin", "wx-mom"); ("weixin", "wx-mom")].
Proof. vm_compute. reflexivity. Qed.

