(* ===== verification/FeedHop.v ===== *)
(** * The feed hop and the replies of a turn

    The sending half of [crates/agentkeys-worker-channel-weixin/src/relay.rs], and the
    relay memory of [device.rs]: who may answer which event, the member's last channel and
    app, the publishes of one turn, and what the member is told about it.  The broker and
    the channel worker are behind the wire: [worker] answers a call given the calls made
    before it, with the id or the reference it assigned, or the error it reported. *)
From stdpp Require Import gmap.
From S2P Require Import Prelude RustStr StrFacts Crates Utf8 SessionScope Channels Audience Router Asks.

Open Scope string_scope.
Open Scope Z_scope.

(** ** The device's relay memory *)

Definition CORRELATION_RING_CAP : nat := 2000.

Record CorrelationRow := {
  co_event : string; co_channel : string; co_transport : string; co_transport_id : string; co_ts : Z }.

Record DeviceState := {
  actor_omni : option string; correlations : list CorrelationRow;
  d_last_channel : gmap string string; d_last_addressee : gmap string string }.

Record DeviceConfig := {
  channel_worker_url : option string; broker_url : option string; key_file : string }.

Definition configured (c : DeviceConfig) : bool :=
  is_some (broker_url c) && negb (String.eqb (key_file c) "").

Definition hop_blocker (c : DeviceConfig) (d : DeviceState) : option string :=
  if negb (is_some (channel_worker_url c)) then
    Some "no channel worker configured (AGENTKEYS_WORKER_CHANNEL_URL) — decision-only"
  else if negb (configured c) then
    Some "contact gate device not configured (AGENTKEYS_BROKER_URL / AGENTKEYS_WEIXIN_DEVICE_KEY_FILE)"
  else if negb (is_some (actor_omni d)) then
    Some "contact gate device not enrolled — enroll it from parent-control (微信网关 → 网关身份)"
  else None.

Definition remember_correlation (event_id channel_id transport transport_id : string) (now : Z)
    (d : DeviceState) : DeviceState :=
  let rows := (correlations d ++ [{| co_event := event_id; co_channel := channel_id;
                 co_transport := transport; co_transport_id := transport_id; co_ts := now |}])%list in
  {| actor_omni := actor_omni d; correlations := skipn (length rows - CORRELATION_RING_CAP) rows;
     d_last_channel := d_last_channel d; d_last_addressee := d_last_addressee d |}.

Definition lookup_correlation (d : DeviceState) (event_id : string) : option CorrelationRow :=
  List.find (fun r => String.eqb (co_event r) event_id) (rev (correlations d)).

(** The two maps change together, and not at all when they already say so. *)
Definition set_last_turn (transport transport_id channel addressee : string) (d : DeviceState) : DeviceState :=
  let key := ask_key transport transport_id in
  if bool_decide (d_last_channel d !! key = Some channel)
     && bool_decide (d_last_addressee d !! key = Some addressee)
  then d
  else {| actor_omni := actor_omni d; correlations := correlations d;
          d_last_channel := <[key := channel]> (d_last_channel d);
          d_last_addressee := <[key := addressee]> (d_last_addressee d) |}.

Definition last_channel (d : DeviceState) (transport transport_id : string) : option string :=
  d_last_channel d !! ask_key transport transport_id.

Definition last_addressee (d : DeviceState) (transport transport_id : string) : option string :=
  d_last_addressee d !! ask_key transport transport_id.

(** ** The hop *)

Record PublishArgs := {
  pa_kind : option ChannelEventKind; pa_body_b64 : option string; pa_body_ref : option string;
  pa_content_type : option string; pa_contact : option ContactStamp; pa_relay_of : option string;
  pa_addressee : option string }.

Inductive Call :=
| CBlob (channel_id content_type : string) (content : bytes)
| CPublish (channel_id : string) (args : PublishArgs).

Definition call_channel (c : Call) : string :=
  match c with CBlob ch _ _ | CPublish ch _ => ch end.

Inductive FeedMiss := GateNotReady | HopFailed.
#[export] Instance FeedMiss_eq_dec : EqDecision FeedMiss.
Proof. solve_decision. Defined.

Record FeedError := { fe_cause : FeedMiss; fe_detail : string }.

Record FeedReceipt := {
  fr_channel : string; fr_event : string; fr_media_event : option string; fr_body_ref : option string }.

Definition Hop (A : Type) : Type := list Call -> list Call * result FeedError A.
Definition hop_ret {A} (x : A) : Hop A := fun cs => (cs, Ok x).
Definition hop_bind {A B} (m : Hop A) (k : A -> Hop B) : Hop B :=
  fun cs => let '(cs, out) := m cs in match out with Ok x => k x cs | Err e => (cs, Err e) end.
Definition hop_fail {A} (cause : FeedMiss) (detail : string) : Hop A :=
  fun cs => (cs, Err {| fe_cause := cause; fe_detail := detail |}).

Declare Scope hop_scope.
Delimit Scope hop_scope with hop.
Notation "'let*' x ':=' m 'in' k" := (hop_bind m (fun x => k))
  (at level 10, x pattern, m at level 100, k at level 200) : hop_scope.

Section Hops.
Context `{Base64} (worker : list Call -> Call -> result string string).
Local Open Scope hop_scope.

(** A call and its answer; [what] heads the error. *)
Definition call (what : string) (c : Call) : Hop string := fun cs =>
  ((cs ++ [c])%list,
   match worker cs c with
   | Ok id => Ok id
   | Err e => Err {| fe_cause := HopFailed; fe_detail := what +:+ ": " +:+ e |}
   end).

Definition base64_std (text : string) : string := b64_encode (String.list_byte_of_string text).

Definition media_args (m : InboundMedia) (body_ref : string) (stamp : ContactStamp) (to_app : option string)
    : PublishArgs :=
  {| pa_kind := Some (im_kind m); pa_body_b64 := None; pa_body_ref := Some body_ref;
     pa_content_type := Some (im_content_type m); pa_contact := Some stamp; pa_relay_of := None;
     pa_addressee := to_app |}.

Definition text_args (text : string) (relay_of : option string) (stamp : ContactStamp) (to_app : option string)
    : PublishArgs :=
  {| pa_kind := Some Text; pa_body_b64 := Some (base64_std text); pa_body_ref := None;
     pa_content_type := None; pa_contact := Some stamp; pa_relay_of := relay_of; pa_addressee := to_app |}.

Definition decode_omni_32 `{HexCodec} (omni : string) : option bytes :=
  b ← hex_decode (default omni (strip_prefix "0x" omni));
  if Nat.eqb (length b) 32 then Some b else None.

(** The media's event and reference, the text's event. *)
Definition hop_media (channel_id : string) (m : option InboundMedia) (stamp : ContactStamp)
    (to_app : option string) : Hop (option (string * string)) :=
  match m with
  | None => hop_ret None
  | Some m =>
      let* r := call "blob-put" (CBlob channel_id (im_content_type m) (im_bytes m)) in
      let* id := call "media publish" (CPublish channel_id (media_args m r stamp to_app)) in
      hop_ret (Some (id, r))
  end.

Definition hop_text (channel_id text : string) (media_event : option string) (stamp : ContactStamp)
    (to_app : option string) : Hop (option string) :=
  if is_blank text then hop_ret None
  else let* id := call "text publish" (CPublish channel_id (text_args text media_event stamp to_app)) in
       hop_ret (Some id).

Definition feed_hop `{HexCodec} (cfg : DeviceConfig) (operator : string) (now : Z) (d : DeviceState)
    (channel_id addressee : string) (inbound : GatewayInbound) (media : option InboundMedia)
    (stamp : ContactStamp) : Hop (FeedReceipt * DeviceState) :=
  match hop_blocker cfg d with
  | Some why => hop_fail GateNotReady why
  | None =>
      match decode_omni_32 operator with
      | None => hop_fail GateNotReady
          "operator omni not armed (connect the contact gate from parent-control 微信网关 → 连接)"
      | Some _ =>
          let to_app := if is_blank addressee then None else Some addressee in
          let* sent := hop_media channel_id media stamp to_app in
          let media_event := '(id, _) ← sent; Some id in
          let* text_event := hop_text channel_id (in_text inbound) media_event stamp to_app in
          match or_else text_event media_event with
          | None => hop_fail HopFailed "nothing to relay (no text, no media)"
          | Some event_id =>
              let remember id := remember_correlation id channel_id (in_transport inbound)
                                   (in_transport_id inbound) now in
              let d := remember event_id d in
              let d := match media_event, text_event with
                       | Some m, Some _ => remember m d
                       | _, _ => d
                       end in
              hop_ret ({| fr_channel := channel_id; fr_event := event_id; fr_media_event := media_event;
                          fr_body_ref := '(_, r) ← sent; Some r |}, d)
          end
      end
  end.
End Hops.

(** ** What the member is told *)

Definition reply_text_for (d : L3Decision) (channel_name : option string) : option string :=
  if allowed d then
    let app := default "助手" (target_alias d) in
    Some match channel_name with
         | Some ch => "✅ 已转达给 " +:+ app +:+ "（" +:+ ch +:+ "）"
         | None => "✅ 已转达给 " +:+ app
         end
  else
    let r := reason d in
    if String.eqb r "unknown_contact" then None
    else if String.eqb r "rate_limited" then Some "⏳ 消息太频繁，请稍后再试。"
    else if String.eqb r "no_channel"
    then Some "直接说要做什么，会自动送到合适的频道；也可以用 /别名 指定助手，或换个说法。"
    else if String.eqb r "no_media_app" then Some "你频道里的助手都不接收这类消息（照片或语音），请发文字。"
    else if String.eqb r "router_ask" then Some "请回复数字选择要发到的频道。"
    else if String.eqb r "out_of_reach" then Some "⛔ 你的频道里没有这个助手。"
    else if String.eqb r "no_membership" then Some "⛔ 你不能在这个频道发言。"
    else if String.eqb r "app_not_on_channel" then Some "⛔ 这个助手不在那个频道。"
    else if String.eqb r "addressee_unclear" then Some "这个频道有几个助手，请用 /别名 说明找谁。"
    else if String.eqb r "operator_grade_requires_session"
    then Some ("这类信息需要在家长控制台查看：" +:+ default "" (operator_grade_deeplink d))
    else Some ("⛔ 无法转达（" +:+ r +:+ "）。").

Definition reply_text_for_en (d : L3Decision) (channel_name : option string) : option string :=
  if allowed d then
    let app := default "your assistant" (target_alias d) in
    Some match channel_name with
         | Some ch => "✅ Passed along to " +:+ app +:+ " (" +:+ ch +:+ ")"
         | None => "✅ Passed along to " +:+ app
         end
  else
    let r := reason d in
    if String.eqb r "unknown_contact" then None
    else if String.eqb r "rate_limited" then Some "⏳ Too many messages — try again in a minute."
    else if String.eqb r "no_channel"
    then Some "Say what you need and it goes to the right channel; you can also address an assistant with /alias, or rephrase."
    else if String.eqb r "no_media_app"
    then Some "No assistant in your channels takes this kind of message (a photo or a voice clip) — send text."
    else if String.eqb r "router_ask" then Some "Reply with the number of the channel you meant."
    else if String.eqb r "out_of_reach" then Some "⛔ That assistant is in none of your channels."
    else if String.eqb r "no_membership" then Some "⛔ You can't post in that channel."
    else if String.eqb r "app_not_on_channel" then Some "⛔ That assistant is not in that channel."
    else if String.eqb r "addressee_unclear"
    then Some "Several assistants are in that channel — say which with /alias."
    else if String.eqb r "operator_grade_requires_session"
    then Some ("That needs the parent-control console: " +:+ default "" (operator_grade_deeplink d))
    else Some ("⛔ Could not pass that along (" +:+ r +:+ ").").

Definition with_marker (d : L3Decision) (media_marker : option string) (base : string) : string :=
  match allowed d, media_marker with
  | true, Some m => base +:+ " " +:+ m
  | false, Some m => if String.eqb (reason d) "router_ask" then m +:+ " " +:+ base else base
  | _, None => base
  end.

Definition with_stage (d : L3Decision) (stage_hint : option string) (en : bool) (out : string) : string :=
  if allowed d then
    match stage_hint with
    | Some h =>
        if String.eqb h "loading" then
          out +:+ (if en then " (it is still loading its knowledge — one moment)"
                   else "（它还在加载知识，稍等片刻）")
        else if String.eqb h "degraded" then
          out +:+ (if en then " (its knowledge is unavailable right now — it answers from what it has)"
                   else "（它的知识暂不可用，会先按已有信息回答）")
        else out
    | None => out
    end
  else out.

Definition reply_text_for_turn (d : L3Decision) (channel_name media_marker : option string) (en : bool)
    (channels ask_labels : list string) (stage_hint : option string) : option string :=
  base ← (if negb (allowed d) && String.eqb (reason d) "router_ask" then Some (ask_text ask_labels en)
          else if negb (allowed d) && String.eqb (reason d) "ask_cancelled" then Some (cancelled_text en)
          else if negb (allowed d) && String.eqb (reason d) "no_channel" then Some (ask_back_text channels en)
          else if en then reply_text_for_en d channel_name
          else reply_text_for d channel_name);
  Some (with_stage d stage_hint en (with_marker d media_marker base)).

Definition undelivered_text (alias : option string) (cause : option FeedMiss) (en : bool) : string :=
  let why :=
    match cause, en with
    | Some GateNotReady, false => "微信网关还没有接通。请管理员在家长控制台检查网关设置。"
    | Some GateNotReady, true =>
        "the contact gate isn't connected yet. The owner can check its setup in Parent Control."
    | _, false => "这次没有发送成功，请稍后再试；一直不行的话请告诉管理员。"
    | _, true =>
        "it didn't go through this time. Try again in a moment, and tell the owner if it keeps happening."
    end in
  if en then "⚠️ Not delivered to " +:+ default "your assistant" alias +:+ ": " +:+ why
  else "⚠️ 消息没有送到 " +:+ default "助手" alias +:+ "：" +:+ why.

Definition UNKNOWN_HINT_WINDOW_SECS : Z := 24 * 60 * 60.
Definition UNKNOWN_HINT_ZH : string :=
  "这是家庭助手机器人。请把家长在“家长控制台 › 联系人”里为你生成的 6 位绑定码发给我（例如：绑定 123456）。".

Definition quoted (s : string) : string := String "034"%char s +:+ String "034"%char "".
Definition UNKNOWN_HINT_EN : string :=
  "This is a family assistant bot. Send me the 6-digit bind code your parent minted in Parent Control › Contacts (e.g. "
  +:+ quoted "bind 123456" +:+ ").".

Definition unknown_sender_hint (d : L3Decision) (last_hint : option Z) (now : Z) (en : bool) : option string :=
  if negb (String.eqb (reason d) "unknown_contact") then None
  else if match last_hint with
          | Some t => u64_saturating_sub now t <? UNKNOWN_HINT_WINDOW_SECS
          | None => false
          end then None
  else Some (if en then UNKNOWN_HINT_EN else UNKNOWN_HINT_ZH).

Definition bound_notice (c : Contact) (r : ContactRegistry) : string :=
  let who := c_display c +:+ "（" +:+ tier_zh (c_tier c) +:+ "）" in
  let mine := speak_channels r (c_id c) in
  match mine with
  | [] => "✅ 绑定成功：" +:+ who +:+ "。管理员还没有把你加入任何频道，加入后会自动生效。"
  | _ =>
      let listed := map (fun d =>
        match map app_alias (apps d) with
        | [] => display_name d
        | aliases => display_name d +:+ "（" +:+ join "、" aliases +:+ "）"
        end) mine in
      let first_alias := default "chef" (head (map app_alias (concat (map apps mine)))) in
      "✅ 绑定成功：" +:+ who +:+ "。你的频道：" +:+ join "、" listed
      +:+ "。直接发消息就会送到合适的频道；也可以用“/" +:+ first_alias +:+ " 你好”指定助手。"
  end.

(** * Properties *)

(** ** The relay memory *)

Definition last_match (event : string) (rows : list CorrelationRow) : option CorrelationRow :=
  List.find (fun r => String.eqb (co_event r) event) (rev rows).

Lemma remember_found e ch t i now d :
  lookup_correlation (remember_correlation e ch t i now d) e
  = Some {| co_event := e; co_channel := ch; co_transport := t; co_transport_id := i; co_ts := now |}.
Proof.
  unfold lookup_correlation, remember_correlation. cbn [correlations].
  set (row := {| co_event := e |}). rewrite skipn_app.
  replace (length (correlations d ++ [row]) - CORRELATION_RING_CAP - length (correlations d))%nat with 0%nat
    by (rewrite length_app; cbn [length]; unfold CORRELATION_RING_CAP; lia).
  cbn [skipn]. rewrite rev_app_distr. cbn [rev app List.find]. by rewrite String.eqb_refl.
Qed.

Lemma remember_bound e ch t i now d :
  (length (correlations (remember_correlation e ch t i now d)) <= CORRELATION_RING_CAP)%nat.
Proof. cbn [correlations remember_correlation]. rewrite length_skipn. lia. Qed.

(** While the ring has room for the row being added, another event's row stays found. *)
Lemma remember_other e ch t i now d x :
  x <> e -> (length (correlations d) < CORRELATION_RING_CAP)%nat ->
  lookup_correlation (remember_correlation e ch t i now d) x = lookup_correlation d x.
Proof.
  intros Hx Hl. unfold lookup_correlation, remember_correlation. cbn [correlations].
  rewrite length_app. cbn [length].
  replace (length (correlations d) + 1 - CORRELATION_RING_CAP)%nat with 0%nat by lia.
  rewrite drop_0, rev_app_distr. cbn [rev app List.find co_event].
  by rewrite (proj2 (String.eqb_neq e x)) by congruence.
Qed.

Lemma last_turn_set t i ch a d :
  last_channel (set_last_turn t i ch a d) t i = Some ch /\
  last_addressee (set_last_turn t i ch a d) t i = Some a /\
  correlations (set_last_turn t i ch a d) = correlations d.
Proof.
  unfold last_channel, last_addressee, set_last_turn.
  destruct (bool_decide_reflect (d_last_channel d !! ask_key t i = Some ch)) as [E|E]; cbn [andb];
    [destruct (bool_decide_reflect (d_last_addressee d !! ask_key t i = Some a)) as [F|F]|];
    [done|cbn..]; by rewrite !lookup_insert_eq.
Qed.

Lemma remember_previous e ch t i now e' ch' t' i' now' d :
  e' <> e ->
  lookup_correlation (remember_correlation e' ch' t' i' now' (remember_correlation e ch t i now d)) e
  = lookup_correlation (remember_correlation e ch t i now d) e.
Proof.
  intros He. rewrite remember_found. unfold lookup_correlation, remember_correlation. cbn [correlations].
  set (row := {| co_event := e |}). set (row' := {| co_event := e' |}).
  set (k := (length (correlations d ++ [row]) - _)%nat). rewrite (skipn_app k (correlations d)).
  replace (k - length (correlations d))%nat with 0%nat
    by (unfold k; rewrite length_app; cbn [length]; unfold CORRELATION_RING_CAP; lia).
  rewrite drop_0, <-app_assoc. cbn [app]. set (xs := skipn k (correlations d)).
  rewrite skipn_app. replace (length (xs ++ [row; row']) - CORRELATION_RING_CAP - length xs)%nat with 0%nat
    by (rewrite length_app; cbn [length]; unfold CORRELATION_RING_CAP; lia).
  rewrite drop_0, rev_app_distr. cbn [rev app List.find row row' co_event].
  by rewrite (proj2 (String.eqb_neq e' e)), String.eqb_refl.
Qed.

(** ** The calls of a hop *)

Section HopFacts.
Context `{Base64} `{HexCodec} (worker : list Call -> Call -> result string string).

(** A call that serves this turn: its channel, the member's stamp, the app, and the text or
    the media of the turn. *)
Definition serves (ch text : string) (media : option InboundMedia) (stamp : ContactStamp)
    (to_app : option string) (c : Call) : Prop :=
  call_channel c = ch /\
  match c with
  | CBlob _ ct b => exists m, media = Some m /\ ct = im_content_type m /\ b = im_bytes m
  | CPublish _ a =>
      pa_contact a = Some stamp /\ pa_addressee a = to_app /\
      (is_blank text = false /\ pa_kind a = Some Text /\ pa_body_b64 a = Some (base64_std text) \/
       exists m, media = Some m /\ pa_kind a = Some (im_kind m) /\ pa_body_b64 a = None)
  end.

(** What a computation of the hop does: it appends calls, all of which serve the turn. *)
Definition only_serves {A} (ch text : string) (media : option InboundMedia) (stamp : ContactStamp)
    (to_app : option string) (h : Hop A) : Prop :=
  forall cs, exists added, (h cs).1 = (cs ++ added)%list /\ Forall (serves ch text media stamp to_app) added.

Context (ch text : string) (media : option InboundMedia) (stamp : ContactStamp) (to_app : option string).

Lemma only_serves_ret {A} (x : A) : only_serves ch text media stamp to_app (hop_ret x).
Proof. intros cs. exists []. by rewrite app_nil_r. Qed.

Lemma only_serves_fail {A} cause why : only_serves ch text media stamp to_app (hop_fail (A := A) cause why).
Proof. intros cs. exists []. by rewrite app_nil_r. Qed.

Lemma only_serves_bind {A B} (h : Hop A) (k : A -> Hop B) :
  only_serves ch text media stamp to_app h -> (forall x, only_serves ch text media stamp to_app (k x)) ->
  only_serves ch text media stamp to_app (hop_bind h k).
Proof.
  intros Hh Hk cs. unfold hop_bind. destruct (Hh cs) as (a1 & E & F). destruct (h cs) as [cs1 [x|e]]; cbn [fst] in *.
  - destruct (Hk x cs1) as (a2 & E2 & F2). exists (a1 ++ a2)%list. rewrite E2, E, app_assoc. split; [done|].
    by apply Forall_app.
  - by exists a1.
Qed.

Lemma only_serves_call what c :
  serves ch text media stamp to_app c -> only_serves ch text media stamp to_app (call worker what c).
Proof. intros Hc cs. exists [c]. split; [done|]. constructor; [exact Hc|constructor]. Qed.
End HopFacts.

#[export] Hint Resolve only_serves_ret only_serves_fail only_serves_bind only_serves_call : core.

Section Relayed.
Context `{Base64} `{HexCodec} (worker : list Call -> Call -> result string string).

Lemma feed_hop_serves cfg operator now d ch app inbound media stamp :
  only_serves ch (in_text inbound) media stamp (if is_blank app then None else Some app)
    (feed_hop worker cfg operator now d ch app inbound media stamp).
Proof.
  unfold feed_hop. destruct (hop_blocker cfg d); [auto|]. destruct (decode_omni_32 operator); [|auto].
  apply only_serves_bind.
  - destruct media as [m|]; cbn [hop_media]; [|auto]. repeat (apply only_serves_bind; [|intros]); auto;
      apply only_serves_call; cbn; split; eauto 8.
  - intros sent. apply only_serves_bind.
    + unfold hop_text. destruct (is_blank (in_text inbound)) eqn:E; [auto|].
      apply only_serves_bind; [|auto]. apply only_serves_call. cbn. split; eauto 8.
    + intros te. destruct (or_else te _); auto.
Qed.

(** The member's row for an event. *)
Definition row_for (event ch : string) (inbound : GatewayInbound) (now : Z) : CorrelationRow :=
  {| co_event := event; co_channel := ch; co_transport := in_transport inbound;
     co_transport_id := in_transport_id inbound; co_ts := now |}.

(** A hop that lands has put the media beside the feed and published it and then the text,
    the text naming the media's event: each publish carries the member's stamp and the app,
    the receipt names what the worker answered, and afterwards an answer to either event
    finds the member who sent the turn.  A gate that is not ready makes no call. *)
Lemma feed_hop_lands cfg operator now d ch app inbound media stamp cs cs' rcpt d' :
  feed_hop worker cfg operator now d ch app inbound media stamp cs = (cs', Ok (rcpt, d')) ->
  let to_app := if is_blank app then None else Some app in
  hop_blocker cfg d = None /\ is_some (decode_omni_32 operator) = true /\
  exists calls, cs' = (cs ++ calls)%list /\
  calls = ((match media, fr_body_ref rcpt with
            | Some m, Some r => [CBlob ch (im_content_type m) (im_bytes m); CPublish ch (media_args m r stamp to_app)]
            | _, _ => []
            end)
           ++ (if is_blank (in_text inbound) then []
               else [CPublish ch (text_args (in_text inbound) (fr_media_event rcpt) stamp to_app)]))%list /\
  (forall pre c post, calls = (pre ++ c :: post)%list -> exists id, worker (cs ++ pre)%list c = Ok id) /\
  (forall pre c, calls = (pre ++ [c])%list -> worker (cs ++ pre)%list c = Ok (fr_event rcpt)) /\
  is_some (fr_body_ref rcpt) = is_some media /\ is_some (fr_media_event rcpt) = is_some media /\
  fr_channel rcpt = ch /\
  forall e, e = fr_event rcpt \/ Some e = fr_media_event rcpt ->
    lookup_correlation d' e = Some (row_for e ch inbound now).
Proof.
  unfold feed_hop. destruct (hop_blocker cfg d); [done|]. destruct (decode_omni_32 operator); [|done].
  cbv zeta. unfold hop_bind at 1, hop_media. set (to_app := if is_blank app then None else Some app).
  destruct media as [m|]; cbn [hop_ret].
  - unfold hop_bind at 1 2, call at 1. destruct (worker cs _) as [r|] eqn:E1; [|done].
    unfold call at 1. destruct (worker (cs ++ _) _) as [id|] eqn:E2; [|done].
    cbn [hop_ret mbind option_bind]. unfold hop_text, hop_bind, call.
    destruct (is_blank (in_text inbound)) eqn:Eb; cbn [hop_ret or_else].
    + intros [= <- <- <-]. cbn [fr_body_ref fr_media_event fr_event fr_channel]. split_and!; try done.
      eexists. rewrite <-app_assoc. split_and!; try reflexivity.
      * intros [|x1 [|x2 []]] y post; cbn; intros [= ]; subst; rewrite ?app_nil_r; eauto; done.
      * intros [|x1 [|x2 []]] y; cbn; intros [= ]; by subst.
      * intros e [->|[= ->]]; apply remember_found.
    + destruct (worker _ (CPublish ch (text_args _ _ _ _))) as [tid|] eqn:E3; [|done].
      cbn [hop_ret or_else]. intros [= <- <- <-]. cbn [fr_body_ref fr_media_event fr_event fr_channel].
      split_and!; try done. eexists. rewrite <-!app_assoc. rewrite <-!app_assoc in E3. split_and!; try reflexivity.
      * intros [|x1 [|x2 [|x3 []]]] y post; cbn; intros [= ]; subst; rewrite ?app_nil_r; eauto; done.
      * intros [|x1 [|x2 [|x3 []]]] y; cbn; intros [= ]; by subst.
      * intros e He. destruct (base.decide (e = id)) as [->|Hne]; [apply remember_found|].
        destruct He as [->|[= ->]]; [|done]. rewrite remember_previous by congruence. apply remember_found.
  - unfold hop_text, hop_bind, call. cbn [mbind option_bind].
    destruct (is_blank (in_text inbound)) eqn:Eb; cbn [hop_ret or_else]; [done|].
    destruct (worker cs _) as [tid|] eqn:E3; [|done]. cbn [hop_ret or_else].
    intros [= <- <- <-]. cbn [fr_body_ref fr_media_event fr_event fr_channel]. split_and!; try done.
    eexists. split_and!; try reflexivity.
    + intros [|x1 []] y post; cbn; intros [= ]; subst; rewrite ?app_nil_r; eauto; done.
    + intros [|x1 []] y; cbn; intros [= ]; subst; rewrite app_nil_r; done.
    + intros e [->|]; [apply remember_found|done].
Qed.
End Relayed.
