(* ===== verification/Turn.v ===== *)
(** * One inbound turn

    [process_turn] of [crates/agentkeys-worker-channel-weixin/src/relay.rs]: a member's
    message is given a channel, passes the audience decision, and reaches the channel's
    feed; what the gate remembers of it and tells the member.  One turn runs at a time,
    against the registry as it was when the turn began.  The decision model and the vision
    model are a client that answers a request; the clock's readings are arguments.
    [None] stands for a panic. *)
From stdpp Require Import gmap.
From S2P Require Import Prelude RustStr StrFacts Crates DeviceCore Utf8 F64 SessionScope Relay Channels Audience Router Asks Binding FeedHop.

Open Scope string_scope.
Open Scope Z_scope.

(** ** What a turn meets *)

Inductive JevError :=
| Unconfigured
| JevStatus (status : Z) (message : string)
| JevTransport (why : string)
| JevMalformed (why : string).

Definition JevError_text (e : JevError) : string :=
  match e with
  | Unconfigured => "model gate has no decision model configured (503)"
  | JevStatus n m => "model gate answered HTTP " +:+ dec n +:+ ": " +:+ m
  | JevTransport why => "model gate unreachable: " +:+ why
  | JevMalformed why => "model gate answer unusable: " +:+ why
  end.

Record JevClient := {
  describe : InboundMedia -> result string string;
  jev_decide : SystemOneRequest -> result JevError SystemOneResponse }.

Record Times := {
  now_secs : Z; ts_ms : Z; describe_ms : Z; decide_ms : Z; total_ms : Z; monitor_ms : Z }.

Record GateEnv := {
  options_of : GateOptions; router_cfg : RouterConfig; router_enabled : bool;
  device_config : DeviceConfig; operator_omni : string; audited : bool;
  client : option JevClient; worker : list Call -> Call -> result string string; persisted : bool }.

(** ** The router's trace and the turn's row in its log *)

Record RouterTrace := {
  tr_engine : string; tr_model : string; tr_verdict : string; tr_confidence : option f64;
  tr_candidates : list string }.

Definition trace_fallback (model verdict : string) : RouterTrace :=
  {| tr_engine := "deterministic_fallback"; tr_model := model; tr_verdict := verdict;
     tr_confidence := None; tr_candidates := [] |}.

Record RouterAnswer := {
  ra_model : string; ra_answered_by : string; ra_probabilities : list (string * f64);
  ra_continues : option f64; ra_verdict : string; ra_routed_to : option string;
  ra_addressee : option string; ra_confidence : option f64; ra_decide_ms : Z;
  ra_tokens : option (Z * Z); ra_error : option string }.

Record RouterExchange := {
  x_id : Z; x_ts : Z; x_contact : string; x_tier : string; x_text : string; x_photo : bool;
  x_last_channel : option string; x_request : SystemOneRequest; x_probabilities : list (string * f64);
  x_continues : option f64; x_verdict : string; x_routed_to : option string; x_addressee : option string;
  x_confidence : option f64; x_answered_by : string; x_describe_ms : option Z; x_decide_ms : option Z;
  x_tokens : option (Z * Z); x_total_ms : Z; x_delivered : bool; x_error : option string;
  x_compared : list RouterAnswer }.

Definition tokens_of (resp : SystemOneResponse) : Z * Z :=
  (so_input_tokens (rs_usage resp), so_output_tokens (rs_usage resp)).

Definition probabilities_of (resp : SystemOneResponse) : list (string * f64) :=
  match resp_choice resp DESTINATION_QUESTION with Some (_, p, _) => p | None => [] end.

Definition router_exchange (id : Z) (t : Times) (c : Contact) (text : string) (photo : bool)
    (last_channel : option string) (req : SystemOneRequest) (resp : option SystemOneResponse)
    (trace : RouterTrace) (routed_to addressee : option string) (describe_ms : option Z)
    (error : option string) : RouterExchange :=
  {| x_id := id; x_ts := ts_ms t; x_contact := c_display c; x_tier := tier_as_str (c_tier c);
     x_text := text; x_photo := photo; x_last_channel := last_channel; x_request := req;
     x_probabilities := default [] (r ← resp; Some (probabilities_of r));
     x_continues := (r ← resp; resp_noul r CONTINUES_QUESTION);
     x_verdict := tr_verdict trace; x_routed_to := routed_to; x_addressee := addressee;
     x_confidence := tr_confidence trace;
     x_answered_by := default "" (r ← resp; Some (rs_model r));
     x_describe_ms := describe_ms; x_decide_ms := Some (decide_ms t);
     x_tokens := (r ← resp; Some (tokens_of r)); x_total_ms := 0; x_delivered := false;
     x_error := error; x_compared := [] |}.

(** What compare mode files for another model's answer. *)
Definition comparison_answer (model : string) (out : result JevError SystemOneResponse) (keys : list OptionKey)
    (threshold : f64) (last_channel : option string) (continue_threshold : f64) (decide_ms : Z) : RouterAnswer :=
  match out with
  | Err e =>
      {| ra_model := model; ra_answered_by := ""; ra_probabilities := []; ra_continues := None;
         ra_verdict := "unavailable"; ra_routed_to := None; ra_addressee := None; ra_confidence := None;
         ra_decide_ms := decide_ms; ra_tokens := None; ra_error := Some (JevError_text e) |}
  | Ok resp =>
      let '(verdict, routed_to, addressee, confidence, error) :=
        match verdict_from resp keys threshold last_channel continue_threshold with
        | VRoute ch a p follow => ((if follow then "follow_up" else "route"), Some ch, a, Some p, None)
        | VAsk _ p => ("ask", None, None, Some p, None)
        | VMalformed why => ("malformed", None, None, None, Some why)
        end in
      {| ra_model := model; ra_answered_by := rs_model resp; ra_probabilities := probabilities_of resp;
         ra_continues := resp_noul resp CONTINUES_QUESTION; ra_verdict := verdict;
         ra_routed_to := routed_to; ra_addressee := addressee; ra_confidence := confidence;
         ra_decide_ms := decide_ms; ra_tokens := Some (tokens_of resp); ra_error := error |}
  end.

Definition with_model (model : string) (req : SystemOneRequest) : SystemOneRequest :=
  {| so_model := model; so_state := so_state req; so_questions := so_questions req |}.

(** ** Where a turn goes *)

(** The channel, the app there, the tier that decided, or the channels to ask about. *)
Record Route := {
  rt_channel : option string; rt_addressee : option string; rt_by : option string;
  rt_asks : list string; rt_ask_apps : list (option string); rt_no_media_app : bool;
  rt_trace : option RouterTrace; rt_exchange : option RouterExchange }.

Definition undecided : Route :=
  {| rt_channel := None; rt_addressee := None; rt_by := None; rt_asks := []; rt_ask_apps := [];
     rt_no_media_app := false; rt_trace := None; rt_exchange := None |}.

Definition routed (channel : string) (addressee : option string) (by_ : option string) : Route :=
  {| rt_channel := Some channel; rt_addressee := addressee; rt_by := by_; rt_asks := []; rt_ask_apps := [];
     rt_no_media_app := false; rt_trace := None; rt_exchange := None |}.

Definition asking (ids : list string) (apps : list (option string)) : Route :=
  {| rt_channel := None; rt_addressee := None; rt_by := None; rt_asks := ids; rt_ask_apps := apps;
     rt_no_media_app := false; rt_trace := None; rt_exchange := None |}.

Definition no_app (b : bool) : Route :=
  {| rt_channel := None; rt_addressee := None; rt_by := None; rt_asks := []; rt_ask_apps := [];
     rt_no_media_app := b; rt_trace := None; rt_exchange := None |}.

(** The same route, with what the model did. *)
Definition traced (trace : RouterTrace) (x : RouterExchange) (rt : Route) : Route :=
  {| rt_channel := rt_channel rt; rt_addressee := rt_addressee rt; rt_by := rt_by rt; rt_asks := rt_asks rt;
     rt_ask_apps := rt_ask_apps rt; rt_no_media_app := rt_no_media_app rt;
     rt_trace := Some trace; rt_exchange := Some x |}.

Definition keep_trace (from rt : Route) : Route :=
  {| rt_channel := rt_channel rt; rt_addressee := rt_addressee rt; rt_by := rt_by rt; rt_asks := rt_asks rt;
     rt_ask_apps := rt_ask_apps rt; rt_no_media_app := rt_no_media_app rt;
     rt_trace := rt_trace from; rt_exchange := rt_exchange from |}.

Definition default_addressee (r : ContactRegistry) (o : ChannelOption) : option string :=
  opt_default_app o (d ← reg_channel r (o_id o); default_app d).

Definition media_addressee (r : ContactRegistry) (o : ChannelOption) (k : ChannelEventKind) : option string :=
  match opt_apps_taking o k with
  | [one] => Some (oa_alias one)
  | taking =>
      let dflt := default_addressee r o in
      if match dflt with Some d => opt_takes o d k | None => false end then dflt
      else a ← head taking; Some (oa_alias a)
  end.

Inductive PhotoRoute :=
| PChannel (channel : string) (addressee : option string) (by_ : string)
| PAsk (channels : list string) (apps : list (option string))
| PNoApp.

Definition route_photo_by_declared_kinds (last : option string) (r : ContactRegistry)
    (options : list ChannelOption) (k : ChannelEventKind) : PhotoRoute :=
  let candidates := List.filter (fun o => negb (is_nil (opt_apps_taking o k))) options in
  match candidates with
  | [] => PNoApp
  | [one] => PChannel (o_id one) (media_addressee r one k)
               (if (1 <? length options)%nat then "single_media_channel" else "single_channel")
  | _ =>
      match (l ← last; List.find (fun o => String.eqb (o_id o) l) candidates) with
      | Some o => PChannel (o_id o) (media_addressee r o k) "sticky_last_channel"
      | None =>
          let picked := firstn ASK_CANDIDATES candidates in
          PAsk (map o_id picked) (map (fun o => media_addressee r o k) picked)
      end
  end.

Definition photo_route (p : PhotoRoute) : Route :=
  match p with
  | PChannel ch a by_ => routed ch a (Some by_)
  | PAsk ids apps => asking ids apps
  | PNoApp => no_app true
  end.

Definition labels_for (options : list ChannelOption) (ids : list string) : list string :=
  map (fun id => match List.find (fun o => String.eqb (o_id o) id) options with
                 | Some o => o_name o
                 | None => id
                 end) ids.

(** ** The model tier *)

Section Resolve.
Context `{Alphabet} (env : GateEnv) (t : Times) (r : ContactRegistry).

(** What a turn already knows when its channel is looked for. *)
Record Hearing := {
  he_media : option InboundMedia; he_description : option string; he_describe_ms : option Z;
  he_last : option string; he_last_app : option string }.

Definition kind_of_media (m : option InboundMedia) : option ChannelEventKind := x ← m; Some (im_kind x).

(** The app of a turn on a channel, by what it carries. *)
Definition app_for (o : ChannelOption) (m : option InboundMedia) : option string :=
  match kind_of_media m with
  | Some k => media_addressee r o k
  | None => default_addressee r o
  end.

Definition model_route (h : Hearing) (options : list ChannelOption) (c : Contact) (id : Z)
    (routing_text : string) (last : option string) (req : SystemOneRequest) (asked_model : string)
    (out : result JevError SystemOneResponse) : option Route :=
  let log resp trace routed_to to_app error :=
    router_exchange id t c routing_text (is_some (he_description h)) last req resp trace routed_to to_app
      (he_describe_ms h) error in
  match out with
  | Ok resp =>
      match verdict_from resp (option_keys options) (threshold (router_cfg env)) last
              (continue_threshold (router_cfg env)) with
      | VRoute picked named confidence follow_up =>
          option ← List.find (fun o => String.eqb (o_id o) picked) options;
          let previous := if follow_up then
              a ← he_last_app h; if existsb (fun x => eq_lower (oa_alias x) a) (o_apps option) then Some a else None
            else None in
          let to_app := match kind_of_media (he_media h), he_description h with
                        | Some k, None => media_addressee r option k
                        | _, _ => or_else (or_else previous named) (default_addressee r option)
                        end in
          let trace := {| tr_engine := "jev"; tr_model := rs_model resp;
                          tr_verdict := if follow_up then "follow_up" else "route";
                          tr_confidence := Some confidence; tr_candidates := [picked] |} in
          Some (traced trace (log (Some resp) trace (Some picked) to_app None)
                  (routed picked to_app (Some (if follow_up then "jev_follow_up" else "jev"))))
      | VAsk candidates confidence =>
          let trace := {| tr_engine := "jev"; tr_model := rs_model resp; tr_verdict := "ask";
                          tr_confidence := Some confidence; tr_candidates := candidates |} in
          Some (traced trace (log (Some resp) trace None None None)
                  (asking candidates (map (fun _ => None) candidates)))
      | VMalformed why =>
          let trace := trace_fallback (rs_model resp) "malformed" in
          Some (traced trace (log (Some resp) trace None None (Some why)) undecided)
      end
  | Err e =>
      let trace := trace_fallback asked_model "unavailable" in
      let why := match e with
                 | Unconfigured => "the model gate has no decision model (503)"
                 | _ => JevError_text e
                 end in
      Some (traced trace (log None trace None None (Some why)) undecided)
  end.

(** The model's request for this turn, and those of compare mode. *)
Definition model_tier (h : Hearing) (options : list ChannelOption) (c : Contact) (id : Z)
    (routing_text : string) (cl : JevClient) : option (Route * list SystemOneRequest) :=
  let last := l ← he_last h; if existsb (fun o => String.eqb (o_id o) l) options then Some l else None in
  let active := active_models (router_cfg env) (router r) in
  req ← build_request (am_model active) routing_text (c_display c) (tier_as_str (c_tier c)) last options;
  rt ← model_route h options c id routing_text last req (am_model active) (jev_decide cl req);
  Some (rt, map (fun other => with_model other req) (am_compare active)).

(** ** The whole-word tier *)

Definition whole_word (text : string) (options : list ChannelOption) (m : option InboundMedia)
    (last : option string) (rt : Route) : Route :=
  match advisory_route text options (router_enabled env) with
  | RRoute hit alias =>
      let fallback := o ← List.find (fun o => String.eqb (o_id o) hit) options; app_for o m in
      keep_trace rt (routed hit (or_else alias fallback) (Some "advisory_router"))
  | RAskBack =>
      if is_some m && is_nil (rt_asks rt) then
        match (l ← last; List.find (fun o => String.eqb (o_id o) l) options) with
        | Some o => keep_trace rt (routed (o_id o) (k ← kind_of_media m; media_addressee r o k)
                                          (Some "sticky_last_channel"))
        | None => rt
        end
      else rt
  end.
End Resolve.

(** ** The gate's memory *)

Record MonitorEvent := {
  mo_seq : Z; mo_ts : Z; mo_contact : string; mo_tier : string; mo_text : string; mo_allowed : bool;
  mo_reason : string; mo_target : option string; mo_routed_by : option string; mo_confidence : option f64 }.

Definition with_seq (n : Z) (e : MonitorEvent) : MonitorEvent :=
  {| mo_seq := n; mo_ts := mo_ts e; mo_contact := mo_contact e; mo_tier := mo_tier e; mo_text := mo_text e;
     mo_allowed := mo_allowed e; mo_reason := mo_reason e; mo_target := mo_target e;
     mo_routed_by := mo_routed_by e; mo_confidence := mo_confidence e |}.

Definition add_answers (xs : list RouterAnswer) (x : RouterExchange) : RouterExchange :=
  {| x_id := x_id x; x_ts := x_ts x; x_contact := x_contact x; x_tier := x_tier x; x_text := x_text x;
     x_photo := x_photo x; x_last_channel := x_last_channel x; x_request := x_request x;
     x_probabilities := x_probabilities x; x_continues := x_continues x; x_verdict := x_verdict x;
     x_routed_to := x_routed_to x; x_addressee := x_addressee x; x_confidence := x_confidence x;
     x_answered_by := x_answered_by x; x_describe_ms := x_describe_ms x; x_decide_ms := x_decide_ms x;
     x_tokens := x_tokens x; x_total_ms := x_total_ms x; x_delivered := x_delivered x; x_error := x_error x;
     x_compared := (x_compared x ++ xs)%list |}.

Definition finish_exchange (total : Z) (delivered : bool) (x : RouterExchange) : RouterExchange :=
  {| x_id := x_id x; x_ts := x_ts x; x_contact := x_contact x; x_tier := x_tier x; x_text := x_text x;
     x_photo := x_photo x; x_last_channel := x_last_channel x; x_request := x_request x;
     x_probabilities := x_probabilities x; x_continues := x_continues x; x_verdict := x_verdict x;
     x_routed_to := x_routed_to x; x_addressee := x_addressee x; x_confidence := x_confidence x;
     x_answered_by := x_answered_by x; x_describe_ms := x_describe_ms x; x_decide_ms := x_decide_ms x;
     x_tokens := x_tokens x; x_total_ms := total; x_delivered := delivered; x_error := x_error x;
     x_compared := x_compared x |}.

Record Gate := {
  g_registry : Handle; g_rate : RateLimiter; g_asks : AskQueues; g_device : DeviceState;
  g_log : RouterLog RouterExchange RouterAnswer; g_monitor : MonitorRing MonitorEvent }.

(** ** Hearing a message *)

(** The locals of the turn once its channel was looked for. *)
Record Heard := {
  h_text : string; h_media : option InboundMedia; h_extra : list InboundMedia;
  h_description : option string; h_route : Route; h_out_of_reach : bool; h_expired : nat;
  h_waiting : option (list string); h_next : option (list string); h_cancelled : bool;
  h_joined : option nat; h_asks : AskQueues; h_log : RouterLog RouterExchange RouterAnswer;
  h_compared : list SystemOneRequest }.

Section Turn.
Context `{Alphabet} `{Base64} `{HexCodec} `{Crypto}.
Context (env : GateEnv) (t : Times) (transport transport_id : string).

(** A message that neither joined nor answered an ask. *)
Definition plainly (g : Gate) (text : string) (media : option InboundMedia) (rt : Route) (out_of_reach : bool)
    : Heard :=
  {| h_text := text; h_media := media; h_extra := []; h_description := None; h_route := rt;
     h_out_of_reach := out_of_reach; h_expired := 0; h_waiting := None; h_next := None;
     h_cancelled := false; h_joined := None; h_asks := g_asks g; h_log := g_log g; h_compared := [] |}.

Definition takes_some (k : ChannelEventKind) (o : ChannelOption) : bool := negb (is_nil (opt_apps_taking o k)).

(** The route is certain: one channel, with an app that takes photos. *)
Definition route_is_certain (options : list ChannelOption) : bool :=
  match options with [o] => takes_some Image o | _ => false end.

(** The description of a photo, and whether one was asked for. *)
Definition describe_photo (options : list ChannelOption) (media : option InboundMedia) (answered : bool)
    : option string * bool :=
  match media, client env with
  | Some m, Some cl =>
      if bool_decide (im_kind m = Image) && negb answered && negb (route_is_certain options)
         && describe_photos (router_cfg env)
      then (match describe cl m with Ok d => Some d | Err _ => None end, true)
      else (None, false)
  | _, _ => (None, false)
  end.

Definition narrow_to (media : option InboundMedia) (has_text : bool) (description : option string)
    : option ChannelEventKind :=
  match kind_of_media media with
  | Some AudioClip => if has_text then None else Some AudioClip
  | Some Image => if is_some description then None else Some Image
  | k => k
  end.

Definition narrowed (k : option ChannelEventKind) (options : list ChannelOption) : list ChannelOption :=
  match k with Some k => List.filter (takes_some k) options | None => options end.

(** Steps 2 to 5: the channel of a message that is neither addressed nor an answer. *)
Definition find_route (g : Gate) (r : ContactRegistry) (c : Contact) (options turn_options : list ChannelOption)
    (routing_text : string) (h : Hearing)
    : option (Route * RouterLog RouterExchange RouterAnswer * list SystemOneRequest) :=
  let by_kinds k := photo_route (route_photo_by_declared_kinds (he_last h) r options k) in
  if is_blank routing_text then
    Some (match kind_of_media (he_media h) with Some k => by_kinds k | None => undecided end, g_log g, [])
  else match turn_options with
  | [] => Some (no_app (is_some (he_media h)), g_log g, [])
  | [only] =>
      Some (routed (o_id only) (app_for r only (he_media h))
              (Some (if (1 <? length options)%nat then "single_media_channel" else "single_channel")),
            g_log g, [])
  | _ =>
      '(rt, log, compared) ←
        match client env with
        | None => Some (undecided, g_log g, [])
        | Some cl =>
            let '(log, id) := log_next_id (g_log g) in
            '(rt, compared) ← model_tier env t r h turn_options c id routing_text cl;
            Some (rt, log, compared)
        end;
      Some (if is_some (he_description h) && negb (is_some (rt_channel rt)) && is_nil (rt_asks rt)
            then keep_trace rt (by_kinds Image) else rt, log, compared)
  end.

(** A message of a bound member with no alias, which did not join an ask. *)
Definition hear (g : Gate) (r : ContactRegistry) (c : Contact) (options : list ChannelOption) (text : string)
    (media : option InboundMedia) : option Heard :=
  let answer_text := match media with None => text | Some _ => "" end in
  '(asks, reply, expired) ← take_ask_reply (g_asks g) transport transport_id answer_text (now_secs t);
  let superseded := (0 <? ex_messages expired)%nat || match reply with Waiting _ => true | _ => false end in
  let answered := match reply with Answered _ _ _ _ _ _ => true | _ => false end in
  let '(description, asked) := describe_photo options media answered in
  let routing_text := match description with Some d => photo_message text d | None => text end in
  let turn_options := narrowed (narrow_to media (negb (is_blank text)) description) options in
  let heard text media extra description rt waiting next cancelled log compared :=
    {| h_text := text; h_media := media; h_extra := extra; h_description := description; h_route := rt;
       h_out_of_reach := false; h_expired := ex_messages expired; h_waiting := waiting; h_next := next;
       h_cancelled := cancelled; h_joined := None; h_asks := asks; h_log := log; h_compared := compared |} in
  match reply with
  | Cancelled _ next =>
      Some (heard text media [] description undecided None next true (g_log g) [])
  | Answered chosen app original held held_description next =>
      Some (heard original (head held) (tail held) held_description (routed chosen app (Some "ask_reply"))
              None next false (g_log g) [])
  | NoAsk | Waiting _ =>
      let last := if superseded then None else last_channel (g_device g) transport transport_id in
      let h := {| he_media := media; he_description := description;
                  he_describe_ms := if asked then Some (describe_ms t) else None;
                  he_last := last; he_last_app := last_addressee (g_device g) transport transport_id |} in
      '(rt, log, compared) ← find_route g r c options turn_options routing_text h;
      let rt := if is_some (rt_channel rt) || rt_no_media_app rt then rt
                else whole_word env r text turn_options media last rt in
      Some (heard text media [] description rt
              (match reply with Waiting oldest => Some oldest | _ => None end) None false log compared)
  end.

(** A photo alone, while an earlier one waits for its ask. *)
Definition join_ask (g : Gate) (text : string) (media : option InboundMedia)
    : AskQueues * option (list string * nat) :=
  match media with
  | Some m => if is_blank text then hold_media_with_ask (g_asks g) transport transport_id m (now_secs t)
              else (g_asks g, None)
  | None => (g_asks g, None)
  end.

Definition resolve_turn (g : Gate) (r : ContactRegistry) (who : option Contact) (options : list ChannelOption)
    (raw_text : string) (media : option InboundMedia) : option Heard :=
  let '(explicit, text) := parse_alias raw_text in
  match who with
  | None => Some (plainly g text media undecided false)
  | Some c =>
      match explicit with
      | Some a =>
          Some match alias_channel_for r (c_id c) a with
               | Some doc => plainly g text media (routed (doc_id doc) (Some (to_lowercase a)) None) false
               | None => plainly g text media undecided true
               end
      | None =>
          match join_ask g text media with
          | (asks, Some (labels, held)) =>
              let rt := whole_word env r text options media
                          (last_channel (g_device g) transport transport_id) (asking labels []) in
              Some {| h_text := text; h_media := media; h_extra := []; h_description := None; h_route := rt;
                      h_out_of_reach := false; h_expired := 0; h_waiting := None; h_next := None;
                      h_cancelled := false; h_joined := Some held; h_asks := asks; h_log := g_log g;
                      h_compared := [] |}
          | (_, None) => hear g r c options text media
          end
      end
  end.
(** ** The decision and what it becomes *)

Definition with_reason (why : string) (d : L3Decision) : L3Decision :=
  {| allowed := allowed d; target_alias := target_alias d; decided_channel := decided_channel d; reason := why;
     operator_grade_deeplink := operator_grade_deeplink d; routed_by := routed_by d |}.

Definition with_routed_by (by_ : option string) (d : L3Decision) : L3Decision :=
  {| allowed := allowed d; target_alias := target_alias d; decided_channel := decided_channel d;
     reason := reason d; operator_grade_deeplink := operator_grade_deeplink d; routed_by := by_ |}.

(** The turn is taken back: it goes nowhere. *)
Definition withdrawn (why : string) (by_ : option string) (d : L3Decision) : L3Decision :=
  {| allowed := false; target_alias := None; decided_channel := None; reason := why;
     operator_grade_deeplink := operator_grade_deeplink d; routed_by := by_ |}.

Definition refused_with (why : string) (d : L3Decision) : bool := negb (allowed d) && String.eqb (reason d) why.

(** The ask of a message that found no channel. *)
Definition filed (options : list ChannelOption) (h : Heard) (text : string) : PendingAsk :=
  let asks := rt_asks (h_route h) in
  let apps := rt_ask_apps (h_route h) in
  {| original_text := text; candidates := asks; labels := labels_for options asks;
     addressees := if Nat.eqb (length apps) (length asks) then apps else map (fun _ => None) asks;
     asked_at := now_secs t; expires_at := u64_saturating_add (now_secs t) (ask_ttl_secs (router_cfg env));
     ask_media := match h_media h with Some m => [m] | None => [] end; description := h_description h |}.

(** What asking back comes to: the decision, the channels asked about, their labels, whether
    the question waits behind an older one, and the queues. *)
Record Asked := {
  as_decision : L3Decision; as_candidates : list string; as_labels : list string; as_queued : bool;
  as_queues : AskQueues }.

Definition ask_back (options : list ChannelOption) (h : Heard) (text : string) (d : L3Decision) : Asked :=
  let asks := rt_asks (h_route h) in
  if refused_with "no_channel" d && negb (is_nil asks) then
    let d := with_reason "router_ask" d in
    match h_joined h with
    | Some _ => {| as_decision := d; as_candidates := asks; as_labels := asks; as_queued := false;
                   as_queues := h_asks h |}
    | None =>
        match queue_ask (h_asks h) transport transport_id (filed options h text) with
        | (queues, Some oldest) =>
            {| as_decision := d; as_candidates := oldest; as_labels := oldest; as_queued := true;
               as_queues := queues |}
        | (queues, None) =>
            {| as_decision := d; as_candidates := asks; as_labels := labels_for options asks;
               as_queued := false; as_queues := queues |}
        end
    end
  else {| as_decision := d; as_candidates := []; as_labels := []; as_queued := false;
          as_queues := h_asks h |}.

(** The media the app does not take stays; a description goes in its place. *)
Record Fitted := {
  ft_decision : L3Decision; ft_text : string; ft_media : option InboundMedia; ft_not_taken : bool;
  ft_as_text : bool }.

Definition fit_media (r : ContactRegistry) (h : Heard) (text : string) (d : L3Decision) : Fitted :=
  let not_taken :=
    match allowed d, target_alias d, decided_channel d, h_media h with
    | true, Some target, Some ch, Some m =>
        negb match reg_channel r ch with Some doc => doc_takes doc target (im_kind m) | None => false end
    | _, _, _, _ => false
    end in
  let kept d text as_text :=
    {| ft_decision := d; ft_text := text; ft_media := None; ft_not_taken := true; ft_as_text := as_text |} in
  if not_taken then
    match kind_of_media (h_media h), h_description h with
    | Some Image, Some desc => kept d (photo_as_text text desc) true
    | _, _ => if is_blank text then kept (withdrawn "no_media_app" None d) text false else kept d text false
    end
  else {| ft_decision := d; ft_text := text; ft_media := h_media h; ft_not_taken := false; ft_as_text := false |}.

(** ** Delivery *)

Definition app_takes_media (r : ContactRegistry) (channel_id alias : string) (m : InboundMedia) : bool :=
  match reg_channel r channel_id with Some d => doc_takes d alias (im_kind m) | None => false end.

Fixpoint deliver_extra (r : ContactRegistry) (channel_id alias : string) (media_only : GatewayInbound)
    (stamp : ContactStamp) (extra : list InboundMedia) (cs : list Call) (d : DeviceState) (n : nat)
    : list Call * DeviceState * nat :=
  match extra with
  | [] => (cs, d, n)
  | m :: extra =>
      if app_takes_media r channel_id alias m then
        match feed_hop (worker env) (device_config env) (operator_omni env) (now_secs t) d channel_id alias
                media_only (Some m) stamp cs with
        | (cs, Ok (_, d)) => deliver_extra r channel_id alias media_only stamp extra cs d (S n)
        | (cs, Err _) => deliver_extra r channel_id alias media_only stamp extra cs d n
        end
      else deliver_extra r channel_id alias media_only stamp extra cs d n
  end.

Record Delivered := {
  dl_calls : list Call; dl_device : DeviceState; dl_feed : option FeedReceipt; dl_error : option FeedError;
  dl_extra : nat }.

Definition without_text (i : GatewayInbound) : GatewayInbound :=
  {| in_transport := in_transport i; in_transport_id := in_transport_id i; in_text := "";
     in_alias := in_alias i; in_channel := in_channel i |}.

Definition deliver (r : ContactRegistry) (g_device : DeviceState) (channel_id alias : string)
    (inbound : GatewayInbound) (media : option InboundMedia) (extra : list InboundMedia) (stamp : ContactStamp)
    : Delivered :=
  let d := set_last_turn transport transport_id channel_id alias g_device in
  match feed_hop (worker env) (device_config env) (operator_omni env) (now_secs t) d channel_id alias
          inbound media stamp [] with
  | (cs, Ok (rcpt, d)) =>
      let '(cs, d, n) := deliver_extra r channel_id alias (without_text inbound) stamp extra cs d 0 in
      {| dl_calls := cs; dl_device := d; dl_feed := Some rcpt; dl_error := None; dl_extra := n |}
  | (cs, Err e) =>
      {| dl_calls := cs; dl_device := d; dl_feed := None; dl_error := Some e; dl_extra := 0 |}
  end.

(** ** The whole turn *)

Definition keccak_hex (text : string) : string :=
  "0x" +:+ hex_encode (keccak256 (String.list_byte_of_string text)).

Record GatewayRelayBody := {
  gr_transport : string; gr_contact_id : string; gr_tier : string; gr_target_alias : string;
  gr_decision : string; gr_message_hash : string; gr_media : bool; gr_routed_by : option string;
  gr_confidence_permille : option Z; gr_candidates : option (list string) }.

(** The row of the audit, with the operator it is filed under and its result. *)
Definition emit_relay_audit (inbound : GatewayInbound) (d : L3Decision) (contact_id tier : string)
    (media : bool) (trace : option RouterTrace) (ask_candidates : list string)
    : option (bytes * GatewayRelayBody * bool) :=
  if negb (audited env) then None
  else
    op ← decode_omni_32 (operator_omni env);
    Some (op,
      {| gr_transport := in_transport inbound; gr_contact_id := contact_id; gr_tier := tier;
         gr_target_alias := default "" (target_alias d); gr_decision := reason d;
         gr_message_hash := keccak_hex (in_text inbound); gr_media := media; gr_routed_by := routed_by d;
         gr_confidence_permille :=
           (x ← trace; c ← tr_confidence x;
            Some (f64_round_u16 (f64_mul (f64_clamp zero (ratio 1 1) c) (ratio 1000 1))));
         gr_candidates := if String.eqb (reason d) "router_ask" && negb (is_nil ask_candidates)
                          then Some ask_candidates else None |},
      allowed d).

Definition monitor_event (who : option Contact) (tier raw_text : string) (sent_marker : option string)
    (d : L3Decision) (channel_name : option string) (trace : option RouterTrace) : MonitorEvent :=
  let preview := concat_chars (firstn 80 (Utf8.chars raw_text)) in
  {| mo_seq := 0; mo_ts := monitor_ms t;
     mo_contact := default "unknown" (c ← who; Some (c_display c));
     mo_tier := if String.eqb tier "" then "—" else tier;
     mo_text := match sent_marker with
                | Some m => if is_blank preview then m else m +:+ " " +:+ preview
                | None => preview
                end;
     mo_allowed := allowed d; mo_reason := reason d;
     mo_target := (a ← target_alias d;
                   Some match channel_name with Some ch => a +:+ " · " +:+ ch | None => a end);
     mo_routed_by := routed_by d; mo_confidence := (x ← trace; tr_confidence x) |}.

Definition PHOTO_NOT_TAKEN_ZH : string := "（照片没有转达：它不接收照片）".
Definition PHOTO_NOT_TAKEN_EN : string := "(the photo was not passed on — it doesn't take photos)".
Definition PHOTO_AS_TEXT_ZH : string := "（照片已转成文字转达：它不接收照片）".
Definition PHOTO_AS_TEXT_EN : string := "(the photo went on as a description — it doesn't take photos)".

Definition turn_notice (h : Heard) (f : Fitted) (d : L3Decision) (extra : nat) (queued : bool) : option string :=
  let en := String.eqb transport "telegram" in
  let say_if (b : bool) (s : string) := if b then [s] else [] in
  let notes :=
    (match h_joined h with
     | Some held => [if en then "(" +:+ nat_text held +:+ " waiting — they go together once you choose)"
                     else "（已收到 " +:+ nat_text held +:+ " 个，选择后一起转达）"]
     | None => []
     end
     ++ say_if (allowed d && (0 <? extra)%nat)
          (if en then "(" +:+ nat_text (extra + 1) +:+ " in all)" else "（共 " +:+ nat_text (extra + 1) +:+ " 个）")
     ++ (if allowed d && ft_as_text f then [if en then PHOTO_AS_TEXT_EN else PHOTO_AS_TEXT_ZH]
         else say_if (allowed d && ft_not_taken f && bool_decide (kind_of_media (h_media h) = Some Image))
                (if en then PHOTO_NOT_TAKEN_EN else PHOTO_NOT_TAKEN_ZH))
     ++ say_if (0 <? h_expired h)%nat (expired_note (h_expired h) en)
     ++ (if queued then [queued_note en]
         else match h_waiting h with Some oldest => [waiting_note oldest en] | None => [] end)
     ++ match h_next h with Some next => [next_note next en] | None => [] end)%list in
  if is_nil notes then None else Some (String.concat "" notes).

(** The event of an allowed turn, as the gate answers it. *)
Definition turn_event (channel_id alias : string) (inbound : GatewayInbound) (media : option InboundMedia)
    (stamp : ContactStamp) (feed : option FeedReceipt) : ChannelEvent :=
  let has_text := negb (is_blank (in_text inbound)) in
  let media_only := if has_text then None else media in
  {| event_id := default "" (f ← feed; Some (fr_event f)); channel_id := channel_id; direction := In;
     producer := SessionScope.Contact (stamp_contact_id stamp) (stamp_tier stamp);
     kind := match media_only with Some m => im_kind m | None => Text end;
     body := if has_text then Some (base64_std (in_text inbound)) else None;
     body_ref := match media_only with Some _ => f ← feed; fr_body_ref f | None => None end;
     ts_millis := u64_saturating_mul (now_secs t) 1000; correlation := None; audio := None;
     partial := None; seq_no := None; stream := None; contact := Some stamp;
     content_type := (m ← media_only; Some (im_content_type m));
     relay_of := if has_text then f ← feed; fr_media_event f else None; addressee := Some alias |}.

Record RelayOutcome := {
  ro_inbound : GatewayInbound; ro_decision : L3Decision; ro_contact_id : string; ro_tier : string;
  ro_event : option ChannelEvent; ro_claim_ack : option string; ro_feed : option FeedReceipt;
  ro_feed_error : option FeedError; ro_media_marker : option string; ro_channels : list string;
  ro_channel_name : option string; ro_welcome : option string; ro_ask_candidates : list string;
  ro_ask_labels : list string; ro_router : option RouterTrace; ro_notice : option string;
  ro_calls : list Call; ro_audit : option (bytes * GatewayRelayBody * bool);
  ro_compared : list SystemOneRequest }.

Definition reply_text (o : RelayOutcome) (en : bool) (stage_hint : option string) : option string :=
  if allowed (ro_decision o) && negb (is_some (ro_feed o))
  then Some (undelivered_text (target_alias (ro_decision o)) (e ← ro_feed_error o; Some (fe_cause e)) en)
  else out ← reply_text_for_turn (ro_decision o) (ro_channel_name o) (ro_media_marker o) en (ro_channels o)
               (ro_ask_labels o) stage_hint;
       Some (out +:+ default "" (ro_notice o)).

(** The audience decision of a heard message, and what it becomes. *)
Definition decide_turn (r : ContactRegistry) (h : Heard) (rate_ok : bool) : L3Decision :=
  let inbound := {| in_transport := transport; in_transport_id := transport_id; in_text := h_text h;
                    in_alias := rt_addressee (h_route h); in_channel := rt_channel (h_route h) |} in
  let d := decide (options_of env) r inbound rate_ok in
  let d := if allowed d && negb (is_some (routed_by d)) then with_routed_by (rt_by (h_route h)) d else d in
  if h_out_of_reach h && refused_with "no_channel" d then with_reason "out_of_reach" d else d.

Definition process_turn (g : Gate) (raw_text : string) (media : option InboundMedia)
    : option (Gate * RelayOutcome) :=
  let r := memory (g_registry g) in
  let who := resolve r transport transport_id in
  let options := default [] (c ← who; Some (channel_options r (c_id c))) in
  h ← resolve_turn g r who options raw_text media;
  let '(rate, rate_ok) := rate_check (g_rate g) transport_id (now_secs t) in
  let a := ask_back options h (h_text h) (decide_turn r h rate_ok) in
  let d := if h_cancelled h then withdrawn "ask_cancelled" (routed_by (as_decision a)) (as_decision a)
           else as_decision a in
  let f := fit_media r h (h_text h) d in
  let d := if refused_with "no_channel" (ft_decision f) && rt_no_media_app (h_route h)
           then with_reason "no_media_app" (ft_decision f) else ft_decision f in
  let inbound := {| in_transport := transport; in_transport_id := transport_id; in_text := ft_text f;
                    in_alias := rt_addressee (h_route h); in_channel := rt_channel (h_route h) |} in
  let contact_id := default "" (c ← who; Some (c_id c)) in
  let tier := default "" (c ← who; Some (tier_as_str (c_tier c))) in
  let channel_name := id ← decided_channel d; doc ← reg_channel r id; Some (display_name doc) in
  let '(handle, claim_ack) :=
    if refused_with "unknown_contact" d
    then try_claim_bind (g_registry g) (persisted env) transport transport_id raw_text
    else (g_registry g, None) in
  let d := if is_some claim_ack then with_reason "bind_code_claimed" d else d in
  let stamp := {| stamp_contact_id := contact_id; stamp_tier := tier |} in
  let alias := default "" (target_alias d) in
  let channel_id := default "" (decided_channel d) in
  let dl := if allowed d
            then deliver r (g_device g) channel_id alias inbound (ft_media f) (h_extra h) stamp
            else {| dl_calls := []; dl_device := g_device g; dl_feed := None; dl_error := None; dl_extra := 0 |} in
  let trace := rt_trace (h_route h) in
  let log := match rt_exchange (h_route h) with
             | Some x => log_record x_id add_answers (h_log h)
                           (finish_exchange (total_ms t) (is_some (dl_feed dl)) x)
             | None => h_log h
             end in
  Some
    ({| g_registry := handle; g_rate := rate; g_asks := as_queues a; g_device := dl_device dl; g_log := log;
        g_monitor := push_monitor_event with_seq (g_monitor g)
          (monitor_event who tier raw_text (m ← h_media h; Some (marker m)) d channel_name trace) |},
     {| ro_inbound := inbound; ro_decision := d; ro_contact_id := contact_id; ro_tier := tier;
        ro_event := if allowed d
                    then Some (turn_event channel_id alias inbound (ft_media f) stamp (dl_feed dl)) else None;
        ro_claim_ack := claim_ack; ro_feed := dl_feed dl; ro_feed_error := dl_error dl;
        ro_media_marker := (m ← ft_media f; Some (marker m)); ro_channels := map o_name options;
        ro_channel_name := channel_name;
        ro_welcome := (c ← who; if c_welcomed c then None else Some (bound_notice c r));
        ro_ask_candidates := as_candidates a; ro_ask_labels := as_labels a; ro_router := trace;
        ro_notice := turn_notice h f d (dl_extra dl) (as_queued a); ro_calls := dl_calls dl;
        ro_audit := emit_relay_audit inbound d contact_id tier (is_some (ft_media f)) trace (as_candidates a);
        ro_compared := h_compared h |}).
End Turn.
