(* ===== verification/TurnSafety.v ===== *)
(** * What a turn can reach, and that it always ends

    The theorems about [process_turn]: it never panics, whatever it publishes passed the
    audience decision, a stranger reaches nothing, a receipt means delivery, and a turn
    keeps what the gate's memory relies on. *)
From stdpp Require Import gmap.
From S2P Require Import Prelude RustStr StrFacts Crates DeviceCore Utf8 F64 SessionScope Relay Channels Audience Router Asks Binding FeedHop Turn.

Open Scope string_scope.
Open Scope Z_scope.

(** ** The decision on its way *)

(** A later decision that is still allowed is the earlier one, to the same app and channel. *)
Definition narrows (d d' : L3Decision) : Prop :=
  allowed d' = true -> allowed d = true /\ target_alias d' = target_alias d /\ decided_channel d' = decided_channel d.

#[export] Instance narrows_preorder : PreOrder narrows.
Proof. split; [intros d ?; done|]. intros a b c Hab Hbc Hc. destruct (Hbc Hc) as (Hb & -> & ->). auto. Qed.

Lemma with_reason_narrows why d : narrows d (with_reason why d).
Proof. by intros ?. Qed.
Lemma with_routed_by_narrows b d : narrows d (with_routed_by b d).
Proof. by intros ?. Qed.
Lemma withdrawn_narrows why b d d' : narrows d (withdrawn why b d').
Proof. by intros ?. Qed.
Create HintDb narrows.
#[export] Hint Resolve with_reason_narrows with_routed_by_narrows withdrawn_narrows : narrows.
#[export] Hint Extern 1 (narrows ?d ?d) => reflexivity : narrows.

(** The ask queues a gate can have: empty when it starts, then whatever a turn leaves.  The
    rest of the gate may change between turns in any way. *)
Inductive asks_since_start `{Alphabet} `{Base64} `{HexCodec} `{Crypto} : AskQueues -> Prop :=
| asks_empty : asks_since_start ∅
| asks_after env t transport transport_id g raw media g' o :
    asks_since_start (g_asks g) ->
    process_turn env t transport transport_id g raw media = Some (g', o) ->
    asks_since_start (g_asks g').

Section Turn.
Context `{Alphabet} `{Base64} `{HexCodec} `{Crypto}.
Context (env : GateEnv) (t : Times) (transport transport_id : string).

Definition inbound_of (h : Heard) : GatewayInbound :=
  {| in_transport := transport; in_transport_id := transport_id; in_text := h_text h;
     in_alias := rt_addressee (h_route h); in_channel := rt_channel (h_route h) |}.

Lemma decide_turn_narrows r h ok :
  narrows (decide (options_of env) r (inbound_of h) ok) (decide_turn env transport transport_id r h ok).
Proof.
  unfold decide_turn. fold (inbound_of h). set (d := decide _ _ _ _).
  set (d1 := if allowed d && _ then _ else d).
  assert (narrows d d1) as Hd by (unfold d1; destruct (allowed d && _); auto with narrows).
  destruct (h_out_of_reach h && _); [|done]. etrans; [exact Hd|auto with narrows].
Qed.

Lemma ask_back_narrows options h text d :
  narrows d (as_decision (ask_back env t transport transport_id options h text d)).
Proof.
  unfold ask_back. destruct (_ && _); [|cbn; auto with narrows].
  destruct (h_joined h); [cbn; auto with narrows|]. destruct (queue_ask _ _ _ _) as [q []]; cbn; auto with narrows.
Qed.

Lemma fit_media_narrows r h text d : narrows d (ft_decision (fit_media r h text d)).
Proof.
  unfold fit_media. destruct (match allowed d with true => _ | false => _ end); [|cbn; auto with narrows].
  destruct (kind_of_media _) as [[]|], (h_description h); try destruct (is_blank text); cbn; auto with narrows.
Qed.

(** A decision still allowed keeps the media only for an app that takes it. *)
Lemma fit_media_takes r h text d m :
  ft_media (fit_media r h text d) = Some m -> allowed d = true ->
  forall target ch, target_alias d = Some target -> decided_channel d = Some ch ->
  app_takes_media r ch target m = true.
Proof.
  unfold fit_media, app_takes_media. intros Hm Ha target ch Ht Hc. rewrite Ha, Ht, Hc in Hm.
  destruct (h_media h) as [m'|] eqn:Em; [|destruct (kind_of_media None); cbn in Hm; done].
  destruct (reg_channel r ch) as [doc|]; cbn [negb] in Hm.
  - destruct (doc_takes doc target (im_kind m')) eqn:E; cbn [negb] in Hm.
    + cbn in Hm. by injection Hm as <-.
    + exfalso. destruct (kind_of_media (Some m')) as [[]|], (h_description h); try destruct (is_blank text); done.
  - exfalso. destruct (kind_of_media (Some m')) as [[]|], (h_description h); try destruct (is_blank text); done.
Qed.

(** ** What is sent *)

(** A call of a turn: for the document and the app decided, stamped with the member, and any
    media in it one the app takes. *)
Definition rightful (who : Contact) (doc : ChannelDoc) (app : string) (c : Call) : Prop :=
  exists text media,
    serves (doc_id doc) text media {| stamp_contact_id := c_id who; stamp_tier := tier_as_str (c_tier who) |}
      (if is_blank app then None else Some app) c /\
    forall m, media = Some m -> doc_takes doc app (im_kind m) = true.

Lemma feed_hop_rightful d ch app inbound media stamp cs who doc :
  ch = doc_id doc -> stamp = {| stamp_contact_id := c_id who; stamp_tier := tier_as_str (c_tier who) |} ->
  (forall m, media = Some m -> doc_takes doc app (im_kind m) = true) ->
  Forall (rightful who doc app) cs ->
  Forall (rightful who doc app)
    (feed_hop (worker env) (device_config env) (operator_omni env) (now_secs t) d ch app inbound media stamp cs).1.
Proof.
  intros -> -> Hm Hcs.
  destruct (feed_hop_serves (worker env) (device_config env) (operator_omni env) (now_secs t) d (doc_id doc) app inbound
    media {| stamp_contact_id := c_id who; stamp_tier := tier_as_str (c_tier who) |} cs) as (added & -> & Ha).
  apply Forall_app. split; [done|]. eapply Forall_impl; [exact Ha|]. intros c Hc. cbn in Hc. eexists _, media.
  split; [exact Hc|exact Hm].
Qed.

Lemma deliver_extra_rightful r inbound extra who doc app : forall cs d n,
  reg_channel r (doc_id doc) = Some doc -> Forall (rightful who doc app) cs ->
  Forall (rightful who doc app)
    (deliver_extra env t r (doc_id doc) app inbound
       {| stamp_contact_id := c_id who; stamp_tier := tier_as_str (c_tier who) |} extra cs d n).1.1.
Proof.
  induction extra as [|m extra IH]; intros cs d n Hr Hcs; cbn [deliver_extra]; [done|].
  destruct (app_takes_media r (doc_id doc) app m) eqn:E; [|by apply IH].
  unfold app_takes_media in E. rewrite Hr in E.
  match goal with |- context [feed_hop ?w ?c ?o ?n ?d ?ch ?a ?i ?m ?s ?cs] =>
    pose proof (feed_hop_rightful d ch a i m s cs who doc eq_refl eq_refl) as Hf;
    destruct (feed_hop w c o n d ch a i m s cs) as [cs' [[rcpt d']|e]] end;
  cbn [fst] in Hf; apply IH; try done; apply Hf; try done; by intros ? [= <-].
Qed.

Lemma deliver_rightful r dev inbound media extra who doc app :
  reg_channel r (doc_id doc) = Some doc ->
  (forall m, media = Some m -> doc_takes doc app (im_kind m) = true) ->
  Forall (rightful who doc app)
    (dl_calls (deliver env t transport transport_id r dev (doc_id doc) app inbound media extra
       {| stamp_contact_id := c_id who; stamp_tier := tier_as_str (c_tier who) |})).
Proof.
  intros Hr Hm. unfold deliver.
  match goal with |- context [feed_hop ?w ?c ?o ?n ?d ?ch ?a ?i ?m ?s ?cs] =>
    pose proof (feed_hop_rightful d ch a i m s cs who doc eq_refl eq_refl Hm (Forall_nil_2 _)) as Hf;
    destruct (feed_hop w c o n d ch a i m s cs) as [cs' [[rcpt d']|e]] end; cbn [fst] in Hf; [|done].
  pose proof (deliver_extra_rightful r (without_text inbound) extra who doc app cs' d' 0 Hr Hf) as He.
  destruct (deliver_extra _ _ _ _ _ _ _ _ _ _ _) as [[cs'' d''] n]. exact He.
Qed.
(** The parts of a turn, named. *)
Record turn_parts (g : Gate) (raw : string) (media : option InboundMedia) (g' : Gate) (o : RelayOutcome) : Type := {
  tp_heard : Heard;
  tp_rate_ok : bool;
  tp_heard_eq : resolve_turn env t transport transport_id g (memory (g_registry g))
      (resolve (memory (g_registry g)) transport transport_id)
      (default [] (c ← resolve (memory (g_registry g)) transport transport_id;
                   Some (channel_options (memory (g_registry g)) (c_id c)))) raw media = Some tp_heard;
  tp_rate : rate_check (g_rate g) transport_id (now_secs t) = (g_rate g', tp_rate_ok);
  tp_inbound : in_transport (ro_inbound o) = transport /\ in_transport_id (ro_inbound o) = transport_id /\
    in_alias (ro_inbound o) = rt_addressee (h_route tp_heard) /\
    in_channel (ro_inbound o) = rt_channel (h_route tp_heard);
  tp_narrows : narrows (decide (options_of env) (memory (g_registry g)) (inbound_of tp_heard) tp_rate_ok)
                       (ro_decision o);
  tp_sent : exists m extra,
    (forall x, m = Some x -> allowed (ro_decision o) = true ->
       forall a ch, target_alias (ro_decision o) = Some a -> decided_channel (ro_decision o) = Some ch ->
       app_takes_media (memory (g_registry g)) ch a x = true) /\
    let dl := deliver env t transport transport_id (memory (g_registry g)) (g_device g)
        (default "" (decided_channel (ro_decision o))) (default "" (target_alias (ro_decision o)))
        (ro_inbound o) m extra {| stamp_contact_id := ro_contact_id o; stamp_tier := ro_tier o |} in
    if allowed (ro_decision o)
    then ro_calls o = dl_calls dl /\ ro_feed o = dl_feed dl /\ g_device g' = dl_device dl
    else ro_calls o = [] /\ ro_feed o = None /\ g_device g' = g_device g;
  tp_who : match resolve (memory (g_registry g)) transport transport_id with
           | Some c => ro_contact_id o = c_id c /\ ro_tier o = tier_as_str (c_tier c)
           | None => ro_contact_id o = "" /\ ro_tier o = ""
           end;
  tp_registry : g_registry g' = g_registry g \/
    g_registry g' = (try_claim_bind (g_registry g) (persisted env) transport transport_id raw).1;
  tp_marker : ro_media_marker o = None \/ exists m, ro_media_marker o = Some (marker m);
  tp_queues : exists d text, g_asks g' = as_queues (ask_back env t transport transport_id
      (default [] (c ← resolve (memory (g_registry g)) transport transport_id;
                   Some (channel_options (memory (g_registry g)) (c_id c)))) tp_heard text d)
}.

Lemma turn_parts_of g raw media g' o :
  process_turn env t transport transport_id g raw media = Some (g', o) -> turn_parts g raw media g' o.
Proof.
  unfold process_turn. set (r := memory (g_registry g)). set (who := resolve r transport transport_id).
  set (options := default [] _).
  destruct (resolve_turn env t transport transport_id g r who options raw media) as [h|] eqn:Eh; [|done].
  cbn [mbind option_bind]. destruct (rate_check (g_rate g) transport_id (now_secs t)) as [rate ok] eqn:Er.
  set (a := ask_back _ _ _ _ options h (h_text h) _). set (d1 := if h_cancelled h then _ else as_decision a).
  set (f := fit_media r h (h_text h) d1). set (d2 := if refused_with "no_channel" _ && _ then _ else ft_decision f).
  destruct (if refused_with "unknown_contact" d2 then _ else _) as [handle ack] eqn:Eb.
  set (d3 := if is_some ack then _ else d2).
  assert (narrows d1 d2) as H12.
  { unfold d2. etrans; [apply (fit_media_narrows r h (h_text h))|]. fold f.
    destruct (_ && _); auto with narrows. }
  assert (narrows d2 d3) as H23 by (unfold d3; destruct (is_some ack); auto with narrows).
  assert (narrows (decide_turn env transport transport_id r h ok) d1) as H01.
  { etrans; [apply (ask_back_narrows options h (h_text h))|]. fold a.
    unfold d1. destruct (h_cancelled h); auto with narrows. }
  intros Heq. injection Heq as <- <-.
  eapply (Build_turn_parts _ _ _ _ _ h ok); cbn [ro_inbound ro_decision ro_calls ro_feed ro_contact_id ro_tier ro_media_marker
    g_registry g_device g_rate g_asks in_transport in_transport_id in_alias in_channel]; fold r; fold who; fold options.
  - exact Eh.
  - exact Er.
  - done.
  - etrans; [apply decide_turn_narrows|]. etrans; [exact H01|]. etrans; [exact H12|exact H23].
  - exists (ft_media f), (h_extra h). split.
    + intros x Hx Hd target ch Ht Hc. destruct (H23 Hd) as (Hd2 & E2t & E2c). destruct (H12 Hd2) as (Hd1 & E1t & E1c).
      apply (fit_media_takes r h (h_text h) d1 x Hx Hd1); congruence.
    + cbv zeta. destruct (allowed d3); split_and!; reflexivity.
  - unfold who. destruct (resolve r transport transport_id); split; reflexivity.
  - destruct (refused_with "unknown_contact" d2); [right|left]; [by rewrite Eb|by injection Eb].
  - destruct (ft_media f) as [m|]; [right; by exists m|by left].
  - eexists _, _. reflexivity.
Qed.

(** C6: Whatever a message says, whatever the models answer and whichever calls fail: a turn
    puts something on a feed only when its sender is a bound contact within the rate limit
    who speaks on that channel, the app is bound there and is not operator-grade; every
    such call goes to that channel, is stamped with that contact and tier, names that app,
    and carries only media the app takes.  A sender nobody bound reaches no feed, and
    changes nothing but the rate table, the monitor and at most a claimed bind code. *)
Theorem turn_reaches_permitted g raw media g' o (W : wf_registry (memory (g_registry g)))
    (Hp : process_turn env t transport transport_id g raw media = Some (g', o)) :
  let r := memory (g_registry g) in
  (ro_calls o <> [] ->
   allowed (ro_decision o) = true /\ (rate_check (g_rate g) transport_id (now_secs t)).2 = true /\
   exists who doc app,
     permitted (options_of env) r (ro_inbound o) who doc app /\
     resolve r transport transport_id = Some who /\
     target_alias (ro_decision o) = Some app /\ (app ∈ map app_alias (apps doc)) /\
     (app ∉ operator_grade_aliases (options_of env)) /\
     Forall (rightful who doc app) (ro_calls o)) /\
  (resolve r transport transport_id = None ->
   ro_calls o = [] /\ ro_feed o = None /\ allowed (ro_decision o) = false /\ g_device g' = g_device g /\
   (g_registry g' = g_registry g \/
    g_registry g' = (try_claim_bind (g_registry g) (persisted env) transport transport_id raw).1)).
Proof.
  cbv zeta. destruct (turn_parts_of _ _ _ _ _ Hp) as [h ok Eh Er (I1 & I2 & I3 & I4) Hn Hs Hw Hr _ _].
  destruct Hs as (m & extra & Hm & Hs). cbv zeta in Hs.
  assert (allowed (ro_decision o) = true -> ok = true /\ exists who doc a,
    permitted (options_of env) (memory (g_registry g)) (inbound_of h) who doc a /\
    target_alias (ro_decision o) = Some a /\ decided_channel (ro_decision o) = Some (doc_id doc)) as Hok.
  { intros Ha. destruct (Hn Ha) as (Hd & Et & Ec). destruct (decide_allowed _ _ _ _ Hd) as (Ho & who & doc & a & P).
    split; [done|]. exists who, doc, a. rewrite (decide_permitted _ _ _ _ _ _ _ Ho P) in Et, Ec.
    split_and!; [exact P|exact Et|exact Ec]. }
  split.
  - intros Hc. destruct (allowed (ro_decision o)) eqn:Ha; [|destruct Hs as [E _]; congruence].
    destruct (Hok eq_refl) as (Ho & who & doc & a & P & Et & Ec). subst ok. rewrite Er. split_and!; [done..|].
    exists who, doc, a. pose proof (pm_channel _ _ _ _ _ _ P) as (id & _ & Hd). pose proof (pm_resolved _ _ _ _ _ _ P) as Hw'.
    cbn [in_transport in_transport_id inbound_of] in Hw'. rewrite Hw' in Hw. destruct Hw as [Ei Eti].
    destruct (reg_channel_in _ _ _ Hd) as [Hin _].
    assert (reg_channel (memory (g_registry g)) (doc_id doc) = Some doc) as Hself by (by apply reg_channel_self).
    destruct (named_addressee_norm doc (rt_addressee (h_route h)) a) as [Hnorm Hb]; [|exact (pm_addressee _ _ _ _ _ _ P)|].
    { destruct W as [W _]. rewrite Forall_forall in W. auto. }
    split_and!; try done.
    + destruct P as [P1 P2 P3 P4 P5]. split; [by rewrite I1, I2|by rewrite I4|done|by rewrite I3|done].
    + intros Hop. pose proof (pm_grade _ _ _ _ _ _ P) as Hg. unfold is_operator_grade in Hg.
      rewrite (norm_alias_lower _ Hnorm) in Hg. rewrite existsb_none in Hg. specialize (Hg a Hop).
      by rewrite String.eqb_refl in Hg.
    + destruct Hs as (-> & _ & _). rewrite Et, Ec, Ei, Eti. cbn [default from_option Datatypes.id].
      apply deliver_rightful; [done|]. intros x Hx. specialize (Hm x Hx eq_refl a (doc_id doc) Et Ec).
      unfold app_takes_media in Hm. by rewrite Hself in Hm.
  - intros Hnone. destruct (allowed (ro_decision o)) eqn:Ha.
    + destruct (Hok eq_refl) as (_ & who & doc & a & P & _). pose proof (pm_resolved _ _ _ _ _ _ P) as Hw'.
      cbn [in_transport in_transport_id inbound_of] in Hw'. congruence.
    + destruct Hs as (-> & -> & ->). split_and!; done.
Qed.

(** ** A turn always ends *)

Lemma verdict_route_key resp keys th last cth ch a p f :
  verdict_from resp keys th last cth = VRoute ch a p f -> exists k, k ∈ keys /\ k_channel k = ch.
Proof.
  unfold verdict_from. destruct (resp_choice resp DESTINATION_QUESTION) as [[[c probs] vendor]|]; [|done].
  destruct (negb (in_set keys c)); [done|]. destruct (List.find _ probs) as [[bad pb]|]; [done|].
  destruct (ranked_shares probs) as [|[pick p1] rest]; [done|]. destruct (f64_le _ zero); [done|].
  set (clear := negb (String.eqb pick UNCLEAR_OPTION) && f64_le th p1 && _).
  set (onward := if negb clear then _ else _).
  assert (onward = VRoute ch a p f -> exists k, k ∈ keys /\ k_channel k = ch) as Ho.
  { unfold onward. destruct clear; cbn [negb]; [|done]. destruct (canonical keys pick) as [k|] eqn:E; [|done].
    intros [= <- <- <- <-]. exists k. by apply canonical_some in E as [E _]. }
  destruct last as [l|]; cbn [mbind option_bind]; [|exact Ho].
  destruct (existsb _ keys) eqn:E; [|exact Ho]. destruct (_ && _) in |- *; [|exact Ho].
  intros [= <- <- <- <-]. apply existsb_elem in E as (k & Hk & E%String.eqb_eq). eauto.
Qed.

Lemma option_of_key options k :
  k ∈ option_keys options -> is_some (List.find (fun o => String.eqb (o_id o) (k_channel k)) options) = true.
Proof.
  intros (o & Ho & Hk)%option_keys_elem. apply keys_of_facts in Hk as [-> _].
  destruct (List.find _ options) eqn:F; [done|]. apply list_elem_of_In in Ho. apply (find_none _ _ F) in Ho.
  by rewrite String.eqb_refl in Ho.
Qed.

Lemma model_tier_total r h options c id text cl : is_Some (model_tier env t r h options c id text cl).
Proof.
  unfold model_tier. set (last := l ← he_last h; _). unfold build_request.
  destruct (build_criteria_total options (option_keys options) []) as (out & -> & _).
  { intros k (o & Ho & Hk)%option_keys_elem. exists o. split; [done|]. by apply keys_of_facts in Hk as [-> _]. }
  cbn [mbind option_bind]. set (req := {| so_model := _ |}).
  assert (is_Some (model_route env t r h options c id text last req
            (am_model (active_models (router_cfg env) (router r))) (jev_decide cl req))) as [rt ->]; [|done].
  unfold model_route. destruct (jev_decide cl req) as [resp|e]; [|done].
  destruct (verdict_from _ _ _ _ _) as [ch a p f|cs p|why] eqn:E; [|done|done].
  apply verdict_route_key in E as (k & Hk & <-). apply option_of_key in Hk.
  by destruct (List.find _ options).
Qed.

Lemma find_route_total g r c options turn_options text h :
  is_Some (find_route env t g r c options turn_options text h).
Proof.
  unfold find_route. destruct (is_blank text); [done|]. destruct turn_options as [|o1 [|o2 os]]; [done..|].
  destruct (client env) as [cl|]; [|done]. destruct (log_next_id (g_log g)) as [log id].
  destruct (model_tier_total r h (o1 :: o2 :: os) c id text cl) as [[rt cmp] ->]. done.
Qed.

Lemma hear_total g r c options text media :
  well_queued (g_asks g) -> is_Some (hear env t transport transport_id g r c options text media).
Proof.
  intros W. unfold hear.
  destruct (take_ask_reply_spec (g_asks g) transport transport_id (match media with None => text | Some _ => "" end)
    (now_secs t) W) as (asks & reply & ex & -> & _). cbn [mbind option_bind].
  destruct (describe_photo env options media _) as [d asked].
  destruct reply; try done;
  match goal with |- context [find_route env t ?g ?r ?c ?options ?o ?x ?h] =>
    destruct (find_route_total g r c options o x h) as [[[rt log] cmp] ->] end; done.
Qed.

Lemma turn_ends g raw media (W : well_queued (g_asks g)) :
  exists g' o, process_turn env t transport transport_id g raw media = Some (g', o).
Proof.
  unfold process_turn, resolve_turn. destruct (parse_alias raw) as [explicit text].
  destruct (resolve _ transport transport_id) as [c|].
  - destruct explicit as [a|].
    + cbn [mbind option_bind]. destruct (rate_check _ _ _). destruct (if refused_with _ _ then _ else _). eauto.
    + destruct (join_ask _ _ _ _ _ _) as [asks [[ls held]|]].
      * cbn [mbind option_bind]. destruct (rate_check _ _ _). destruct (if refused_with _ _ then _ else _). eauto.
      * destruct (hear_total g (memory (g_registry g)) c
          (default [] (Some (channel_options (memory (g_registry g)) (c_id c)))) text media W) as [h E].
        cbn [mbind option_bind] in E |- *. rewrite E. cbn [mbind option_bind].
        destruct (rate_check _ _ _). destruct (if refused_with _ _ then _ else _). eauto.
  - cbn [mbind option_bind]. destruct (rate_check _ _ _). destruct (if refused_with _ _ then _ else _). eauto.
Qed.

(** ** A receipt means delivery *)

Definition receipt (s : string) : bool := is_some (strip_prefix "✅" s).

Lemma refused_reply d channel_name mk en channels labels hint s :
  allowed d = false -> (mk = None \/ exists m, mk = Some (marker m)) ->
  reply_text_for_turn d channel_name mk en channels labels hint = Some s -> forall tl, receipt (s +:+ tl) = false.
Proof.
  intros Ha Hm. unfold reply_text_for_turn, with_stage, reply_text_for, reply_text_for_en, with_marker.
  rewrite Ha. cbn [negb andb].
  assert (forall base, (forall tl, receipt (base +:+ tl) = false) ->
    forall tl, receipt ((match mk with
                         | Some m => if String.eqb (reason d) "router_ask" then m +:+ " " +:+ base else base
                         | None => base
                         end) +:+ tl) = false) as Hmk.
  { intros base Hb tl. destruct Hm as [->|(m & ->)]; [done|]. destruct (String.eqb _ _); [|done].
    unfold marker. by destruct (im_kind m). }
  assert (forall tl, receipt (ask_text labels en +:+ tl) = false) as Hask
    by (intros tl; unfold ask_text, ask_back_text; by destruct labels, en).
  assert (forall tl, receipt (ask_back_text channels en +:+ tl) = false) as Hback
    by (intros tl; unfold ask_back_text; by destruct channels, en).
  destruct (String.eqb (reason d) "router_ask") eqn:E1; [intros [= <-]; by apply Hmk|].
  destruct (String.eqb (reason d) "ask_cancelled"); [intros [= <-]; apply Hmk; intros tl; by destruct en|].
  destruct (String.eqb (reason d) "no_channel"); [intros [= <-]; by apply Hmk|].
  destruct en; repeat (destruct (String.eqb (reason d) _); [first [done|intros [= <-]; by apply Hmk]|]);
    intros [= <-]; by apply Hmk.
Qed.

Lemma allowed_reply d channel_name mk en channels labels hint :
  allowed d = true -> exists s,
  reply_text_for_turn d channel_name mk en channels labels hint = Some s /\ forall tl, receipt (s +:+ tl) = true.
Proof.
  intros Ha. unfold reply_text_for_turn, with_stage, reply_text_for, reply_text_for_en, with_marker.
  rewrite Ha. cbn [negb andb].
  destruct en, channel_name, mk, hint; cbn [mbind option_bind]; eexists; (split; [reflexivity|]); intros tl;
    repeat destruct (String.eqb _ _); reflexivity.
Qed.

Lemma deliver_extra_extends r ch app inbound stamp extra : forall cs d n,
  exists more, (deliver_extra env t r ch app inbound stamp extra cs d n).1.1 = (cs ++ more)%list.
Proof.
  induction extra as [|m extra IH]; intros cs d n; cbn [deliver_extra]; [exists []; by rewrite app_nil_r|].
  destruct (app_takes_media r ch app m); [|apply IH].
  match goal with |- context [feed_hop ?w ?c ?o ?n ?d ?ch ?a ?i ?m ?s ?cs] =>
    destruct (feed_hop_serves w c o n d ch a i m s cs) as (added & Ea & _);
    destruct (feed_hop w c o n d ch a i m s cs) as [cs' [[rcpt d']|e]] end; cbn [fst] in Ea; subst cs';
  match goal with |- context [deliver_extra env t r ch app inbound stamp extra ?cs ?d ?n] =>
    destruct (IH cs d n) as (more & ->) end; exists (added ++ more)%list; by rewrite app_assoc.
Qed.

(** A hop that landed: the call that produced the receipt's event. *)
Lemma landed_publish d ch app inbound media stamp cs' rcpt d' :
  feed_hop (worker env) (device_config env) (operator_omni env) (now_secs t) d ch app inbound media stamp []
  = (cs', Ok (rcpt, d')) ->
  fr_channel rcpt = ch /\ exists pre args, cs' = (pre ++ [CPublish ch args])%list /\
  worker env pre (CPublish ch args) = Ok (fr_event rcpt) /\ pa_contact args = Some stamp.
Proof.
  intros E. destruct (feed_hop_lands _ _ _ _ _ _ _ _ _ _ _ _ _ _ E) as (_ & _ & calls & -> & Ec & _ & Hl & Hb & Hme & Hc & _).
  split; [done|]. cbn [Datatypes.app] in Hl |- *. destruct (is_blank (in_text inbound)) eqn:Eb.
  - rewrite app_nil_r in Ec. destruct media as [m|].
    + destruct (fr_body_ref rcpt) as [r|]; [|done]. exists [CBlob ch (im_content_type m) (im_bytes m)].
      eexists. rewrite Ec. split_and!; [reflexivity|by apply Hl|reflexivity].
    + exfalso. subst calls. unfold feed_hop in E. destruct (hop_blocker _ _); [done|].
      destruct (decode_omni_32 _); [|done]. unfold hop_bind, hop_media, hop_text, hop_ret in E. by rewrite Eb in E.
  - eexists _, _. split_and!; [exact Ec|by apply Hl|reflexivity].
Qed.

(** C28: The member reads a delivery receipt exactly when the turn landed: then the channel
    worker acknowledged a publish on that channel, stamped with the member, with the very
    event the receipt names; and every other answer, whatever its wording, is not one. *)
Theorem receipt_means_delivery g raw media g' o en hint
    (Hp : process_turn env t transport transport_id g raw media = Some (g', o)) :
  (forall s, reply_text o en hint = Some s -> receipt s = is_some (ro_feed o)) /\
  (forall rcpt, ro_feed o = Some rcpt ->
     allowed (ro_decision o) = true /\ is_some (reply_text o en hint) = true /\
     exists pre args post,
       ro_calls o = (pre ++ CPublish (fr_channel rcpt) args :: post)%list /\
       worker env pre (CPublish (fr_channel rcpt) args) = Ok (fr_event rcpt) /\
       pa_contact args = Some {| stamp_contact_id := ro_contact_id o; stamp_tier := ro_tier o |}).
Proof.
  destruct (turn_parts_of _ _ _ _ _ Hp) as [h ok _ _ _ _ Hs _ _ Hmk _].
  destruct Hs as (m & extra & _ & Hs). cbv zeta in Hs.
  assert (is_some (ro_feed o) = true -> allowed (ro_decision o) = true) as Hfa.
  { intros Hf. destruct (allowed (ro_decision o)); [done|]. destruct Hs as (_ & E & _). by rewrite E in Hf. }
  split.
  - intros s. unfold reply_text. destruct (allowed (ro_decision o)) eqn:Ha; cbn [andb].
    + destruct (ro_feed o) as [rcpt|]; cbn [is_some negb].
      * destruct (allowed_reply (ro_decision o) (ro_channel_name o) (ro_media_marker o) en (ro_channels o)
          (ro_ask_labels o) hint Ha) as (out & -> & Hr). cbn [mbind option_bind]. intros [= <-]. apply Hr.
      * intros [= <-]. unfold undelivered_text. by destruct en.
    + destruct (reply_text_for_turn _ _ _ _ _ _ _) as [out|] eqn:E; cbn [mbind option_bind]; [|done].
      intros [= <-]. rewrite (refused_reply _ _ _ _ _ _ _ _ Ha Hmk E).
      destruct (ro_feed o); [|done]. by discriminate Hfa.
  - intros rcpt Hf. assert (allowed (ro_decision o) = true) as Ha by (apply Hfa; by rewrite Hf).
    rewrite Ha in Hs. destruct Hs as (Ec & Ef & _). split_and!; [done| |].
    + unfold reply_text. rewrite Ha, Hf. cbn [andb negb is_some].
      destruct (allowed_reply (ro_decision o) (ro_channel_name o) (ro_media_marker o) en (ro_channels o)
        (ro_ask_labels o) hint Ha) as (out & -> & _). done.
    + rewrite Hf in Ef. rewrite Ec. unfold deliver in *.
      match type of Ef with context [feed_hop ?w ?c ?o ?n ?d ?ch ?a ?i ?m ?s ?cs] =>
        pose proof (landed_publish d ch a i m s) as Hl;
        destruct (feed_hop w c o n d ch a i m s cs) as [cs' [[rc d']|e]] end; [|done].
      specialize (Hl cs' rc d' eq_refl).
      match type of Ef with context [deliver_extra env t ?r ?ch ?a ?i ?s ?x ?cs ?d ?n] =>
        pose proof (deliver_extra_extends r ch a i s x cs d n) as He;
        destruct (deliver_extra env t r ch a i s x cs d n) as [[cs'' d''] n'] end.
      cbn [dl_feed dl_calls fst] in *. injection Ef as ->. destruct He as (more & ->).
      destruct Hl as (-> & pre & args & -> & Hw & Hc). exists pre, args, more. by rewrite <-app_assoc.
Qed.

(** ** What a turn leaves in memory *)

Record wf_gate (g : Gate) : Prop := {
  wg_policy : wf_policy (memory (g_registry g));
  wg_asks : well_queued (g_asks g);
  wg_ring : (length (correlations (g_device g)) <= CORRELATION_RING_CAP)%nat;
  wg_monitor : (length (mon_events (g_monitor g)) <= MONITOR_RING_CAP)%nat }.

Lemma take_asks_kept q text now :
  well_queued q -> exists q' reply ex, take_ask_reply q transport transport_id text now = Some (q', reply, ex) /\ well_queued q'.
Proof.
  intros W. destruct (ask_step_texts q (OpMessage transport transport_id text now) "" W I) as (q1 & E & W1 & _).
  cbn [ask_step] in E. destruct (take_ask_reply _ _ _ _ _) as [[[q' reply] ex]|]; [|done].
  injection E as <-. by exists q', reply, ex.
Qed.

Lemma hold_asks_kept q m now : well_queued q -> well_queued (hold_media_with_ask q transport transport_id m now).1.
Proof. intros W. by destruct (ask_step_texts q (OpPhoto transport transport_id m now) "" W I) as (q1 & [= <-] & W1 & _). Qed.

Lemma hear_asks g r c options text media h :
  well_queued (g_asks g) -> hear env t transport transport_id g r c options text media = Some h ->
  well_queued (h_asks h).
Proof.
  intros W. unfold hear. destruct (take_asks_kept (g_asks g) (match media with None => text | Some _ => "" end)
    (now_secs t) W) as (asks & reply & ex & -> & Hq). cbn [mbind option_bind].
  destruct (describe_photo env options media _) as [d asked].
  destruct reply; try (intros [= <-]; exact Hq);
  destruct (find_route _ _ _ _ _ _ _ _ _) as [[[rt log] cmp]|]; cbn [mbind option_bind]; try done;
  intros [= <-]; exact Hq.
Qed.

Lemma resolve_asks g r who options raw media h :
  well_queued (g_asks g) -> resolve_turn env t transport transport_id g r who options raw media = Some h ->
  well_queued (h_asks h).
Proof.
  intros W. unfold resolve_turn. destruct (parse_alias raw) as [explicit text].
  destruct who as [c|]; [|by intros [= <-]]. destruct explicit as [a|].
  { intros [= <-]. by destruct (alias_channel_for r (c_id c) a). }
  destruct (join_ask t transport transport_id g text media) as [asks [[ls held]|]] eqn:E; [|by apply hear_asks].
  intros [= <-]. cbn [h_asks]. unfold join_ask in E. destruct media as [m|]; [|by injection E as <-].
  destruct (is_blank text); [|by injection E as <-].
  pose proof (hold_asks_kept (g_asks g) m (now_secs t) W) as Hk. by rewrite E in Hk.
Qed.

Lemma filed_parallel options h text : parallel (filed env t options h text).
Proof.
  unfold parallel, filed, labels_for. cbn [labels candidates addressees]. rewrite length_map. split; [done|].
  destruct (Nat.eqb_spec (length (rt_ask_apps (h_route h))) (length (rt_asks (h_route h)))); [done|].
  by rewrite length_map.
Qed.

Lemma ask_back_asks options h text d :
  well_queued (h_asks h) -> well_queued (as_queues (ask_back env t transport transport_id options h text d)).
Proof.
  intros W. unfold ask_back. destruct (_ && _); [|done]. destruct (h_joined h); [done|].
  pose proof (ask_step_texts (h_asks h) (OpAsk transport transport_id (filed env t options h text)) "" W
    (filed_parallel options h text)) as (q1 & E & Hq & _). apply (inj Some) in E as <-.
  by destruct (queue_ask _ _ _ _) as [q [oldest|]].
Qed.

Lemma remember_ring e ch a i now d :
  (length (correlations (remember_correlation e ch a i now d)) <= CORRELATION_RING_CAP)%nat.
Proof. apply remember_bound. Qed.

Lemma feed_hop_ring d ch app inbound media stamp cs cs' rcpt d' :
  feed_hop (worker env) (device_config env) (operator_omni env) (now_secs t) d ch app inbound media stamp cs
  = (cs', Ok (rcpt, d')) -> (length (correlations d') <= CORRELATION_RING_CAP)%nat.
Proof.
  unfold feed_hop. destruct (hop_blocker _ _); [done|]. destruct (decode_omni_32 _); [|done]. unfold hop_bind.
  destruct (hop_media _ _ _ _ _ _) as [cs1 [sent|]]; [|done].
  destruct (hop_text _ _ _ _ _ _ _) as [cs2 [te|]]; [|done].
  destruct (or_else te _) as [ev|]; [|done]. intros [= _ _ <-].
  destruct (sent ≫= _), te; apply remember_ring.
Qed.

Lemma deliver_extra_ring r ch app inbound stamp extra : forall cs d n,
  (length (correlations d) <= CORRELATION_RING_CAP)%nat ->
  (length (correlations (deliver_extra env t r ch app inbound stamp extra cs d n).1.2) <= CORRELATION_RING_CAP)%nat.
Proof.
  induction extra as [|m extra IH]; intros cs d n Hd; cbn [deliver_extra]; [done|].
  destruct (app_takes_media r ch app m); [|by apply IH].
  destruct (feed_hop _ _ _ _ _ _ _ _ _ _ _) as [cs' [[rcpt d']|e]] eqn:E; [|by apply IH].
  apply IH. by apply feed_hop_ring in E.
Qed.

Lemma deliver_ring r dev ch app inbound media extra stamp :
  (length (correlations dev) <= CORRELATION_RING_CAP)%nat ->
  (length (correlations (dl_device (deliver env t transport transport_id r dev ch app inbound media extra stamp)))
   <= CORRELATION_RING_CAP)%nat.
Proof.
  intros Hd. unfold deliver. pose proof (last_turn_set transport transport_id ch app dev) as (_ & _ & Hl).
  destruct (feed_hop _ _ _ _ _ _ _ _ _ _ _) as [cs' [[rcpt d']|e]] eqn:E; [|cbn; by rewrite Hl].
  apply feed_hop_ring in E. pose proof (deliver_extra_ring r ch app (without_text inbound) stamp extra cs' d' 0 E) as H'.
  by destruct (deliver_extra _ _ _ _ _ _ _ _ _ _ _) as [[cs'' d''] n].
Qed.

Lemma claim_policy h b tr tid text :
  wf_policy (memory h) -> wf_policy (memory (try_claim_bind h b tr tid text).1).
Proof.
  intros W. unfold try_claim_bind. destruct (String.eqb _ ""); [done|].
  destruct (List.find _ (invites (memory h))); [|done]. unfold mutate.
  destruct b; cbn [fst memory]; (eapply wf_policy_same; [exact W|done..]).
Qed.

Lemma push_ring (ring : MonitorRing MonitorEvent) e :
  (length (mon_events (push_monitor_event with_seq ring e)) <= MONITOR_RING_CAP)%nat.
Proof. unfold push_monitor_event. cbn [mon_events]. rewrite length_skipn. lia. Qed.

Lemma turn_keeps_asks g raw media g' o : well_queued (g_asks g) ->
  process_turn env t transport transport_id g raw media = Some (g', o) -> well_queued (g_asks g').
Proof.
  intros Wa Hp. destruct (turn_parts_of _ _ _ _ _ Hp) as [h ok Eh _ _ _ _ _ _ _ Hq].
  destruct Hq as (d & text & ->). apply ask_back_asks. by apply (resolve_asks _ _ _ _ _ _ _ Wa Eh).
Qed.

(** A turn keeps what the gate relies on, whatever the member wrote and the outside
    answered: the registry stays well-formed through a claim, every waiting ask keeps its
    labels and apps parallel to its channels, and the two rings keep their bounds. *)
Theorem turn_keeps_gate g raw media g' o (W : wf_gate g)
    (Hp : process_turn env t transport transport_id g raw media = Some (g', o)) : wf_gate g'.
Proof.
  destruct W as [Wp Wa Wr Wm]. pose proof Hp as Hp'.
  destruct (turn_parts_of _ _ _ _ _ Hp) as [h ok _ _ _ _ Hs _ Hr _ _]. destruct Hs as (m & extra & _ & Hs).
  cbv zeta in Hs. split.
  - destruct Hr as [->| ->]; [done|by apply claim_policy].
  - by apply (turn_keeps_asks g raw media g' o).
  - destruct (allowed (ro_decision o)); destruct Hs as (_ & _ & ->); [by apply deliver_ring|done].
  - unfold process_turn in Hp'. destruct (resolve_turn _ _ _ _ _ _ _ _ _ _) as [h'|]; [|done].
    cbn [mbind option_bind] in Hp'. destruct (rate_check _ _ _). destruct (if refused_with _ _ then _ else _).
    injection Hp' as <- _. cbn [g_monitor]. apply push_ring.
Qed.
End Turn.

Lemma asks_since_start_queued `{Alphabet} `{Base64} `{HexCodec} `{Crypto} q : asks_since_start q -> well_queued q.
Proof.
  induction 1 as [|env t transport transport_id g raw media g' o _ IH E].
  - intros key. unfold queue_of. rewrite lookup_empty. constructor.
  - by apply (turn_keeps_asks env t transport transport_id g raw media g' o).
Qed.

(** C31: Every message of every sender gets an outcome.  Whatever turns went before since
    the gate started, and whatever registry, limits, device and logs it now has, no answer
    of a model and no text makes a turn panic: the lookups that the code expects to
    succeed do, and the number or name that answers a waiting question is one of that
    question's channels. *)
Theorem turn_always_ends `{Alphabet} `{Base64} `{HexCodec} `{Crypto} (env : GateEnv) (t : Times)
    (transport transport_id : string) (g : Gate) (raw : string) (media : option InboundMedia)
    (Hasks : asks_since_start (g_asks g)) :
  exists g' o, process_turn env t transport transport_id g raw media = Some (g', o).
Proof. by apply turn_ends, asks_since_start_queued. Qed.

(** ** A concrete gate *)
Module ToyTurn.
#[local] Existing Instances AsciiAlphabet.alphabet SimpleBase64.codec SimpleHex.codec ToyCrypto.crypto.

Definition settings : RouterConfig :=
  {| engine := Deterministic; gate_url := None; gate_key := None; default_model := "jev"; models := ["jev"];
     threshold := ratio 1 2; ask_ttl_secs := 600; continue_threshold := ratio 7 10; describe_photos := true |}.
Definition env : GateEnv :=
  {| options_of := ToyGate.options; router_cfg := settings; router_enabled := true;
     device_config := {| channel_worker_url := Some "https://w"; broker_url := Some "https://b"; key_file := "k10" |};
     operator_omni := hex_encode (repeat Byte.x07 32); audited := true; client := None;
     worker := fun cs _ => Ok ("ev-" +:+ nat_text (length cs)); persisted := true |}.
Definition times : Times :=
  {| now_secs := 100; ts_ms := 100000; describe_ms := 0; decide_ms := 0; total_ms := 5; monitor_ms := 100000 |}.
Definition ask : PendingAsk :=
  {| original_text := "milk is out"; candidates := ["general"; "opchat-chef"]; labels := ["Family"; "opchat-chef"];
     addressees := [None; None]; asked_at := 90; expires_at := 690; ask_media := []; description := None |}.
Definition gate (limit : Z) (asks : AskQueues) : Gate :=
  {| g_registry := {| memory := ToyCeremony.home; file := ToyCeremony.home |};
     g_rate := {| max := limit; window_secs := 60; hits := ∅ |}; g_asks := asks;
     g_device := {| actor_omni := Some "0x01"; correlations := []; d_last_channel := ∅; d_last_addressee := ∅ |};
     g_log := {| log_next := 0; log_ring := []; log_early := [] |};
     g_monitor := {| mon_events := []; mon_next := 1 |} |}.
Definition waiting : AskQueues := {[ "weixin:wx-mom" := [ask] ]}.
Definition turn (g : Gate) (who text : string) (media : option InboundMedia) :=
  process_turn env times "weixin" who g text media.
Definition photo : InboundMedia :=
  {| im_kind := Image; im_content_type := "image/jpeg"; im_bytes := [Byte.xff; Byte.xd8; Byte.xff] |}.

(** The replies of a turn, the channel and app it was for, and how many calls it made. *)
Definition seen (x : option (Gate * RelayOutcome)) :=
  '(_, o) ← x; Some (reply_text o true None, target_alias (ro_decision o), decided_channel (ro_decision o),
                     reason (ro_decision o), length (ro_calls o)).
End ToyTurn.
#[local] Existing Instances AsciiAlphabet.alphabet SimpleBase64.codec SimpleHex.codec ToyCrypto.crypto.

Example turns_of_a_household :
  ToyTurn.seen (ToyTurn.turn (ToyTurn.gate 5 ∅) "wx-mom" "/chef dinner?" None)
  = Some (Some "✅ Passed along to chef (Family)", Some "chef", Some "general", "ok", 1%nat) /\
  ToyTurn.seen (ToyTurn.turn (ToyTurn.gate 5 ∅) "wx-nobody" "hello" None)
  = Some (None, None, None, "unknown_contact", 0%nat) /\
  ToyTurn.seen (ToyTurn.turn (ToyTurn.gate 5 ToyTurn.waiting) "wx-mom" "1" None)
  = Some (Some "✅ Passed along to chef (Family)", Some "chef", Some "general", "ok", 1%nat).
Proof. split_and!; vm_compute; reflexivity. Qed.

(** A member over the limit who answers the numbered question: the question is gone, and the
    message that waited for it goes nowhere. *)
Example answer_over_the_limit :
  match ToyTurn.turn (ToyTurn.gate 0 ToyTurn.waiting) "wx-mom" "1" None with
  | Some (g', o) => queue_of (g_asks g') "weixin:wx-mom" = [] /\ ro_calls o = [] /\
                    reply_text o false None = Some "⏳ 消息太频繁，请稍后再试。"
  | None => False
  end.
Proof. vm_compute. split_and!; reflexivity. Qed.

(** The outcome of the photo sent to the chef: the blob, the photo and the text. *)
Abbreviation photo_turn :=
  (process_turn ToyTurn.env ToyTurn.times "weixin" "wx-mom" (ToyTurn.gate 5 ∅) "/chef dinner?" (Some ToyTurn.photo)).

Lemma photo_turn_calls : option_map (fun x => length (ro_calls x.2)) photo_turn = Some 3%nat.
Proof. vm_compute. reflexivity. Qed.

Lemma photo_turn_lands : option_map (fun x => is_some (ro_feed x.2)) photo_turn = Some true.
Proof. vm_compute. reflexivity. Qed.

Lemma turn_reaches_permitted_witness :
  match photo_turn with
  | Some (_, o) => length (ro_calls o) = 3%nat /\ exists who doc app,
      resolve ToyCeremony.home "weixin" "wx-mom" = Some who /\ Forall (rightful who doc app) (ro_calls o)
  | None => False
  end.
Proof.
  pose proof photo_turn_calls as Hl. destruct photo_turn as [[g' o]|] eqn:E; [|discriminate Hl].
  cbn [option_map snd] in Hl. injection Hl as Hl. split; [exact Hl|].
  pose proof (turn_reaches_permitted ToyTurn.env ToyTurn.times "weixin" "wx-mom" (ToyTurn.gate 5 ∅) "/chef dinner?"
    (Some ToyTurn.photo) g' o (wp_registry _ ToyCeremony.home_policy) E) as [H _].
  destruct H as (_ & _ & who & doc & app & _ & Hw & _ & _ & _ & Hf); [by intros Hn; rewrite Hn in Hl|].
  exists who, doc, app. split; [exact Hw|exact Hf].
Defined.

Lemma receipt_means_delivery_witness :
  match photo_turn with
  | Some (_, o) => is_some (ro_feed o) = true /\ forall s, reply_text o false None = Some s -> receipt s = true
  | None => False
  end.
Proof.
  pose proof photo_turn_lands as Hf. destruct photo_turn as [[g' o]|] eqn:E; [|discriminate Hf].
  cbn [option_map snd] in Hf. injection Hf as Hf. split; [exact Hf|]. intros s Hs.
  destruct (receipt_means_delivery ToyTurn.env ToyTurn.times "weixin" "wx-mom" (ToyTurn.gate 5 ∅) "/chef dinner?"
    (Some ToyTurn.photo) g' o false None E) as [H _].
  rewrite (H s Hs). exact Hf.
Defined.

Lemma gate_wf limit : wf_gate (ToyTurn.gate limit ToyTurn.waiting).
Proof.
  split; [exact ToyCeremony.home_policy| |cbn; unfold CORRELATION_RING_CAP; lia|cbn; unfold MONITOR_RING_CAP; lia].
  intros key. unfold queue_of. cbn [g_asks ToyTurn.gate]. unfold ToyTurn.waiting.
  destruct (base.decide (key = "weixin:wx-mom")) as [->|Hne].
  - rewrite lookup_singleton_eq. repeat constructor.
  - rewrite lookup_singleton_ne by done. constructor.
Qed.

(** The outcome of the answer to the waiting question. *)
Abbreviation answer_turn :=
  (process_turn ToyTurn.env ToyTurn.times "weixin" "wx-mom" (ToyTurn.gate 5 ToyTurn.waiting) "1" None).

Lemma answer_turn_ends : is_some answer_turn = true.
Proof. vm_compute. reflexivity. Qed.

Lemma turn_keeps_gate_witness : match answer_turn with Some (g', _) => wf_gate g' | None => False end.
Proof.
  pose proof answer_turn_ends as Hs. destruct answer_turn as [[g' o]|] eqn:E; [|discriminate Hs].
  exact (turn_keeps_gate ToyTurn.env ToyTurn.times "weixin" "wx-mom" (ToyTurn.gate 5 ToyTurn.waiting) "1" None g' o
           (gate_wf 5) E).
Defined.

(** A photo alone asks which channel is meant; the answer to that question has an outcome. *)
Abbreviation asked_turn :=
  (process_turn ToyTurn.env ToyTurn.times "weixin" "wx-mom" (ToyTurn.gate 5 ∅) "" (Some ToyTurn.photo)).

Lemma asked_turn_asks :
  option_map (fun x => map candidates (queue_of (g_asks x.1) "weixin:wx-mom")) asked_turn
  = Some [["general"; "opchat-chef"]].
Proof. vm_compute. reflexivity. Qed.

Lemma turn_always_ends_witness :
  match asked_turn with
  | Some (g, _) => map candidates (queue_of (g_asks g) "weixin:wx-mom") = [["general"; "opchat-chef"]] /\
      exists g' o, process_turn ToyTurn.env ToyTurn.times "weixin" "wx-mom" g "2" None = Some (g', o)
  | None => False
  end.
Proof.
  pose proof asked_turn_asks as Ha. destruct asked_turn as [[g o]|] eqn:E; [|discriminate Ha].
  cbn [option_map fst] in Ha. injection Ha as Ha. split; [exact Ha|].
  apply (turn_always_ends ToyTurn.env ToyTurn.times "weixin" "wx-mom" g "2" None).
  eapply asks_after; [|exact E]. constructor.
Defined.
