(* ===== verification/Emitter.v ===== *)
(** * The audit rows of the workers

    [crates/agentkeys-web-core/src/audit/op_kind.rs] and [audit/client.rs], the append of
    [crates/agentkeys-core/src/audit/client.rs], the body types of [audit/bodies.rs] the
    storage workers write, and the emitter of [crates/agentkeys-worker-creds/src/audit.rs].
    The audit service answers a request given the requests before it; [None] is a
    transport failure. *)
From S2P Require Import Prelude RustStr StrFacts Json AuditCbor Archive.
From S2P Require Import Capability DeviceCore Crates CapabilityVerify ObjectStore LocalStore ObjectClient StorageWorker.

Open Scope string_scope.
Open Scope Z_scope.

(** ** Operation kinds *)

Module OpKind.
Inductive AuditOpKind :=
| CredStore | CredFetch | CredTeardown
| MemoryPut | MemoryGet | MemoryTeardown | MemoryInboxAppend
| SignEip191 | SignEip712
| PaymentEscrowRedeem | PaymentDirect
| ScopeGrant | ScopeRevoke
| DeviceAdd | DeviceRevoke | K10Rotate | SandboxSpawn | SandboxTeardown | DelegateSpawn | DelegateArchive
| EmailSend | EmailReceive
| K3EpochAdvance
| ConfigPut | ConfigGet | ConfigTeardown
| GateTurn | SpeechAsr | SpeechTts | GateEmbed | GateSearch | GateDecide
| ChannelPublish | ChannelSubscribe | ChannelTeardown | GatewayRelay | ContactBind | DelegateLifecycle
| RuntimeToolResult | RuntimeApproval.

#[export] Instance AuditOpKind_eq_dec : EqDecision AuditOpKind.
Proof. solve_decision. Defined.

(** [kind as u8] *)
Definition as_u8 (k : AuditOpKind) : Z :=
  match k with
  | CredStore => 0 | CredFetch => 1 | CredTeardown => 2
  | MemoryPut => 10 | MemoryGet => 11 | MemoryTeardown => 12 | MemoryInboxAppend => 13
  | SignEip191 => 20 | SignEip712 => 21
  | PaymentEscrowRedeem => 30 | PaymentDirect => 31
  | ScopeGrant => 40 | ScopeRevoke => 41
  | DeviceAdd => 50 | DeviceRevoke => 51 | K10Rotate => 52 | SandboxSpawn => 53
  | SandboxTeardown => 54 | DelegateSpawn => 55 | DelegateArchive => 56
  | EmailSend => 60 | EmailReceive => 61
  | K3EpochAdvance => 70
  | ConfigPut => 80 | ConfigGet => 81 | ConfigTeardown => 82
  | GateTurn => 90 | SpeechAsr => 91 | SpeechTts => 92 | GateEmbed => 93 | GateSearch => 94
  | GateDecide => 95
  | ChannelPublish => 100 | ChannelSubscribe => 101 | ChannelTeardown => 102 | GatewayRelay => 103
  | ContactBind => 104 | DelegateLifecycle => 105
  | RuntimeToolResult => 110 | RuntimeApproval => 111
  end.

Definition from_u8 (byte : Z) : option AuditOpKind :=
  match byte with
  | 0 => Some CredStore | 1 => Some CredFetch | 2 => Some CredTeardown
  | 10 => Some MemoryPut | 11 => Some MemoryGet | 12 => Some MemoryTeardown
  | 13 => Some MemoryInboxAppend
  | 20 => Some SignEip191 | 21 => Some SignEip712
  | 30 => Some PaymentEscrowRedeem | 31 => Some PaymentDirect
  | 40 => Some ScopeGrant | 41 => Some ScopeRevoke
  | 50 => Some DeviceAdd | 51 => Some DeviceRevoke | 52 => Some K10Rotate | 53 => Some SandboxSpawn
  | 54 => Some SandboxTeardown | 55 => Some DelegateSpawn | 56 => Some DelegateArchive
  | 60 => Some EmailSend | 61 => Some EmailReceive
  | 70 => Some K3EpochAdvance
  | 80 => Some ConfigPut | 81 => Some ConfigGet | 82 => Some ConfigTeardown
  | 90 => Some GateTurn | 91 => Some SpeechAsr | 92 => Some SpeechTts | 93 => Some GateEmbed
  | 94 => Some GateSearch | 95 => Some GateDecide
  | 100 => Some ChannelPublish | 101 => Some ChannelSubscribe | 102 => Some ChannelTeardown
  | 103 => Some GatewayRelay | 104 => Some ContactBind | 105 => Some DelegateLifecycle
  | 110 => Some RuntimeToolResult | 111 => Some RuntimeApproval
  | _ => None
  end.

Definition label (k : AuditOpKind) : string :=
  match k with
  | CredStore => "cred.store" | CredFetch => "cred.fetch" | CredTeardown => "cred.teardown"
  | MemoryPut => "memory.put" | MemoryGet => "memory.get" | MemoryTeardown => "memory.teardown"
  | MemoryInboxAppend => "memory.inbox_append"
  | SignEip191 => "sign.eip191" | SignEip712 => "sign.eip712"
  | PaymentEscrowRedeem => "payment.escrow_redeem" | PaymentDirect => "payment.direct"
  | ScopeGrant => "scope.grant" | ScopeRevoke => "scope.revoke"
  | DeviceAdd => "device.add" | DeviceRevoke => "device.revoke" | K10Rotate => "device.k10_rotate"
  | SandboxSpawn => "sandbox.spawn" | SandboxTeardown => "sandbox.teardown"
  | DelegateSpawn => "delegate.spawn" | DelegateArchive => "delegate.archive"
  | EmailSend => "email.send" | EmailReceive => "email.receive"
  | K3EpochAdvance => "k3.epoch_advance"
  | ConfigPut => "config.put" | ConfigGet => "config.get" | ConfigTeardown => "config.teardown"
  | GateTurn => "gate.turn" | SpeechAsr => "gate.speech_asr" | SpeechTts => "gate.speech_tts"
  | GateEmbed => "gate.embed" | GateSearch => "gate.search" | GateDecide => "gate.decide"
  | ChannelPublish => "channel.publish" | ChannelSubscribe => "channel.subscribe"
  | ChannelTeardown => "channel.teardown" | GatewayRelay => "gateway.relay"
  | ContactBind => "gateway.contact_bind" | DelegateLifecycle => "delegate.lifecycle"
  | RuntimeToolResult => "runtime.tool_result" | RuntimeApproval => "runtime.approval"
  end.

Lemma from_u8_as_u8 k : from_u8 (as_u8 k) = Some k.
Proof. by destruct k. Qed.

Lemma as_u8_byte k : 0 <= as_u8 k < 256.
Proof. destruct k; cbn; lia. Qed.

Lemma label_inj k k' : label k = label k' -> k = k'.
Proof. by destruct k, k'. Qed.
End OpKind.

Abbreviation AuditOpKind := OpKind.AuditOpKind.

(** ** The bodies the storage workers write *)

Inductive OpBody :=
| CredStoreBody (service payload_hash : string)
| CredFetchBody (service cap_hash : string)
| CredTeardownBody (actor_target : string)
| MemoryPutBody (key payload_hash : string)
| MemoryGetBody (key cap_hash : string)
| MemoryTeardownBody (actor_target : string)
| MemoryInboxAppendBody (key payload_hash : string)
| ConfigPutBody (key payload_hash : string)
| ConfigGetBody (key cap_hash : string)
| ConfigTeardownBody (actor_target : string)
| ChannelPublishBody (key channel_id event_id payload_hash : string)
| ChannelSubscribeBody (channel_id cursor : string) (event_count : Z) (cap_hash : string)
| ChannelTeardownBody (channel_id actor_target : string).

(** [serde_json::to_value(body)] *)
Definition body_json (b : OpBody) : Json :=
  match b with
  | CredStoreBody s h => JObject [("payload_hash", JString h); ("service", JString s)]
  | CredFetchBody s h => JObject [("cap_hash", JString h); ("service", JString s)]
  | CredTeardownBody a | MemoryTeardownBody a | ConfigTeardownBody a =>
      JObject [("actor_target", JString a)]
  | MemoryPutBody k h | MemoryInboxAppendBody k h | ConfigPutBody k h =>
      JObject [("key", JString k); ("payload_hash", JString h)]
  | MemoryGetBody k h | ConfigGetBody k h => JObject [("cap_hash", JString h); ("key", JString k)]
  | ChannelPublishBody k c e h =>
      JObject [("channel_id", JString c); ("event_id", JString e); ("key", JString k);
               ("payload_hash", JString h)]
  | ChannelSubscribeBody c cur n h =>
      JObject [("cap_hash", JString h); ("channel_id", JString c); ("cursor", JString cur);
               ("event_count", JNumber (PosInt n))]
  | ChannelTeardownBody c a => JObject [("actor_target", JString a); ("channel_id", JString c)]
  end.

(** ** From an operation to an envelope, and to the wire *)

(** [Number::from_f64], as the text of the number; none for infinities and NaN. *)
Class FloatText := { from_f64 : Z -> option string }.

Definition envelope_for `{JsonFloat} (actor operator : bytes) (kind : AuditOpKind) (body : OpBody)
    (res : AuditResult) : AuditEnvelope :=
  {| AuditCbor.version := ENVELOPE_VERSION; ts_unix := 0; AuditCbor.actor_omni := actor;
     AuditCbor.operator_omni := operator; op_kind := OpKind.as_u8 kind;
     op_body := json_to_ciborium (body_json body); result_of := res; intent_text := None;
     intent_commitment := None |}.

Definition integer_json (n : Z) : result AuditError Json :=
  if (0 <=? n) && (n <=? u64_max) then Ok (JNumber (PosInt n))
  else if (i64_min <=? n) && (n <=? i64_max) then Ok (JNumber (NegInt n))
  else Err (Invalid ("integer " +:+ dec n +:+ " out of i64 range")).

Definition text_key `{Ciborium} (k : Value) : string :=
  match k with Text s => s | other => debug other end.

Fixpoint ciborium_value_to_json `{Ciborium, HexCodec, FloatText} (v : Value) : result AuditError Json :=
  match v with
  | Null => Ok JNull
  | Bool b => Ok (JBool b)
  | Integer n => integer_json n
  | Float f => Ok (match from_f64 f with Some t => JNumber (Json.Float t) | None => JNull end)
  | Bytes b => Ok (JString ("0x" +:+ hex_encode b))
  | Text s => Ok (JString s)
  | Array items =>
      let? out := (fix all l := match l with
                                | [] => Ok []
                                | x :: l => let? y := ciborium_value_to_json x in
                                            let? ys := all l in Ok (y :: ys)
                                end) items in
      Ok (JArray out)
  | Map entries =>
      let? out := (fix each l acc := match l with
                                     | [] => Ok acc
                                     | (k, x) :: l =>
                                         let? y := ciborium_value_to_json x in
                                         each l (obj_insert (text_key k) y acc)
                                     end) entries [] in
      Ok (JObject out)
  | Tag _ inner => ciborium_value_to_json inner
  end.

(** [serde_json::from_value(envelope_to_json(env)?)]: the fields of the request. *)
Definition append_request `{Ciborium, HexCodec, FloatText} (e : AuditEnvelope)
    : result AuditError AuditAppendV2 :=
  let? body := ciborium_value_to_json (op_body e) in
  Ok {| req_version := AuditCbor.version e; req_ts_unix := ts_unix e;
        req_actor_omni := "0x" +:+ hex_encode (AuditCbor.actor_omni e);
        req_operator_omni := "0x" +:+ hex_encode (AuditCbor.operator_omni e);
        req_op_kind := op_kind e; req_op_body := body; req_result := result_byte (result_of e);
        req_intent_text := intent_text e;
        req_intent_commitment := (c ← intent_commitment e; Some ("0x" +:+ hex_encode c)) |}.

(** ** The client *)

Definition MAX_ARCHIVE_RESPONSE_BYTES : Z := 32 * 1024.

(** [loopback] is what [is_loopback_http_endpoint] says of the address; [bearer] is an
    error when the credential file could not be read. *)
Record AuditClient := {
  base_url : string; loopback : bool; bearer : result string (option string);
  service_credential : bool }.

(** The credential a request is sent with. *)
Definition client_request (c : AuditClient) : result AuditError (option string) :=
  guard! negb (String.eqb (base_url c) "") else Invalid "audit archive is not configured" ;;
  guard! negb (service_credential c && negb (loopback c))
    else Invalid "audit service credential requires loopback transport" ;;
  map_err Invalid (bearer c).

Fixpoint read_body (acc : bytes) (chunks : list bytes) (broken : bool) : result AuditError bytes :=
  match chunks with
  | [] => if broken then Err (Invalid "audit response failed") else Ok acc
  | chunk :: chunks =>
      guard! negb (MAX_ARCHIVE_RESPONSE_BYTES <? len acc + len chunk)
        else Invalid "audit response exceeds limit" ;;
      read_body (acc ++ chunk)%list chunks broken
  end.

Definition client_response (reply : option HttpReply) : result AuditError (option bytes) :=
  let? reply := ok_or (Invalid "audit archive transport failed") reply in
  if http_status reply =? 404 then Ok None
  else if negb ((200 <=? http_status reply) && (http_status reply <? 300))
  then Err (Invalid ("audit archive HTTP " +:+ dec (http_status reply)))
  else let? b := read_body [] (chunks reply) (broken reply) in Ok (Some b).

Definition valid_hash (value : string) : bool :=
  (String.length value =? 66)%nat && starts_with "0x" value
  && string_all is_ascii_hexdigit (String.substring 2 64 value).

(** The receipt as JSON; the writer adds twenty-six characters to the hash. *)
Class ReceiptJson := {
  receipt_from_slice : bytes -> option AuditAppendV2Resp;
  receipt_to_vec : AuditAppendV2Resp -> bytes;
  receipt_from_to : forall r, receipt_from_slice (receipt_to_vec r) = Some r;
  receipt_to_vec_length : forall r,
    (length (receipt_to_vec r) <= 40 + 6 * String.length (resp_envelope_hash r))%nat }.

Section Emission.
Context `{HexCodec, Crypto, Ciborium, JsonFloat, FloatText, ReceiptJson, CapJson}.
Variable service : list (option string * AuditAppendV2) -> option string * AuditAppendV2 -> option HttpReply.

(** Requests in the order they were sent, each with its credential. *)
Abbreviation Sent := (list (option string * AuditAppendV2)).

Definition append_json (c : AuditClient) (sent : Sent) (request : AuditAppendV2)
    : Sent * result AuditError AuditAppendV2Resp :=
  match client_request c with
  | Err e => (sent, Err e)
  | Ok token =>
      ((sent ++ [(token, request)])%list,
       let? answer := client_response (service sent (token, request)) in
       let? b := ok_or (Invalid "audit append was not accepted") answer in
       let? receipt := ok_or (Invalid "invalid audit receipt") (receipt_from_slice b) in
       guard! resp_ok receipt && valid_hash (resp_envelope_hash receipt)
         else Invalid "invalid audit receipt" ;;
       Ok receipt)
  end.

Definition client_append (c : AuditClient) (sent : Sent) (e : AuditEnvelope)
    : Sent * result AuditError AuditAppendV2Resp :=
  match append_request e with
  | Err err => (sent, Err err)
  | Ok request => append_json c sent request
  end.

(** ** The emitter *)

Record AuditEmitter := { em_client : AuditClient; require : bool }.

Definition decode_omni_32 (s : string) : option bytes :=
  b ← hex_decode (default s (strip_prefix "0x" s));
  if (length b =? 32)%nat then Some b else None.

Definition build_envelope (cap : CapToken) (kind : AuditOpKind) (body : OpBody) (res : AuditResult)
    : option AuditEnvelope :=
  actor ← decode_omni_32 (actor_omni (payload cap));
  operator ← decode_omni_32 (operator_omni (payload cap));
  Some (envelope_for actor operator kind body res).

Definition emit_failed (em : AuditEmitter) : result ApiError (option string) :=
  if require em then Err (err_502 "audit_append_failed") else Ok None.

Definition emit (em : AuditEmitter) (sent : Sent) (cap : CapToken) (kind : AuditOpKind) (body : OpBody)
    (res : AuditResult) : Sent * result ApiError (option string) :=
  match build_envelope cap kind body res with
  | None => (sent, emit_failed em)
  | Some envelope =>
      let '(sent, answer) := client_append (em_client em) sent envelope in
      (sent, match answer with
             | Ok resp => Ok (Some (resp_envelope_hash resp))
             | Err _ => emit_failed em
             end)
  end.

Definition keccak_hex (b : bytes) : string := "0x" +:+ hex_encode (keccak256 b).

Definition zero_hash : string := "0x" +:+ string_of_list_ascii (repeat "0"%char 64).

Definition cap_hash (cap : CapToken) : string :=
  keccak_hex (match payload_to_vec (payload cap) with Ok b => b | Err _ => [] end).

(** ** An audited operation

    What every handler does with the outcome of its work: the row is written whether
    the work succeeded or not, the error of the work comes first, and in require mode
    nothing is answered without a receipt. *)

(** The storage service and the requests to the audit service. *)
Record World (Svc : Type) := { w_store : Svc; w_sent : Sent }.

Definition outcome_result {A} (outcome : result ApiError A) : AuditResult :=
  if is_ok outcome then Success else Failure.

Definition audited {Svc A R} (em : AuditEmitter) (w : World Svc) (cap : CapToken) (kind : AuditOpKind)
    (body : OpBody) (outcome : result ApiError A) (answer : A -> option string -> R)
    : World Svc * result ApiError R :=
  let '(sent, receipt) := emit em (w_sent Svc w) cap kind body (outcome_result outcome) in
  ({| w_store := w_store Svc w; w_sent := sent |},
   let? a := outcome in let? h := receipt in Ok (answer a h)).
End Emission.

Arguments w_store {Svc} _.
Arguments w_sent {Svc} _.
Abbreviation Sent := (list (option string * AuditAppendV2)).

(** ** Lemmas *)

Section EmissionFacts.
Context `{HexCodec, Crypto, Ciborium, JsonFloat, FloatText, ReceiptJson, CapJson}.
Variable service : Sent -> option string * AuditAppendV2 -> option HttpReply.

Definition body_typed (b : OpBody) : Prop :=
  match b with ChannelSubscribeBody _ _ n _ => is_u64 n | _ => True end.

(** The body survives the way there and back. *)
Lemma body_survives b : body_typed b -> ciborium_value_to_json (json_to_ciborium (body_json b)) = Ok (body_json b).
Proof.
  destruct b; intros Hb; try reflexivity. cbn -[integer_json].
  unfold integer_json. destruct Hb as [Hlo Hhi]. apply Z.leb_le in Hlo, Hhi. by rewrite Hlo, Hhi.
Qed.

(** The request of an operation's envelope. *)
Definition request_of (actor operator : bytes) (kind : AuditOpKind) (body : OpBody) (res : AuditResult)
    : AuditAppendV2 :=
  {| req_version := ENVELOPE_VERSION; req_ts_unix := 0; req_actor_omni := "0x" +:+ hex_encode actor;
     req_operator_omni := "0x" +:+ hex_encode operator; req_op_kind := OpKind.as_u8 kind;
     req_op_body := body_json body; req_result := result_byte res; req_intent_text := None;
     req_intent_commitment := None |}.

Lemma append_request_of actor operator kind body res : body_typed body ->
  append_request (envelope_for actor operator kind body res) = Ok (request_of actor operator kind body res).
Proof. intros Hb. unfold append_request, envelope_for. cbn [op_body]. by rewrite body_survives. Qed.

Lemma request_of_typed actor operator kind body res :
  request_typed (request_of actor operator kind body res).
Proof.
  pose proof (OpKind.as_u8_byte kind). constructor; cbn -[Z.pow OpKind.as_u8]; unfold ENVELOPE_VERSION; lia.
Qed.

Lemma decode_omni_32_spec s b : decode_omni_32 s = Some b -> length b = 32%nat.
Proof.
  unfold decode_omni_32. destruct (hex_decode _) as [b'|]; cbn; [|done].
  destruct (Nat.eqb_spec (length b') 32); [|done]. by intros [= <-].
Qed.

(** The archive reads the request back as the envelope, at its own time. *)
Lemma canonical_request_of now actor operator kind body res :
  length actor = 32%nat -> length operator = 32%nat ->
  canonical_envelope now (request_of actor operator kind body res) =
    Ok {| AuditCbor.version := ENVELOPE_VERSION; ts_unix := now; AuditCbor.actor_omni := actor;
          AuditCbor.operator_omni := operator; op_kind := OpKind.as_u8 kind;
          op_body := json_to_ciborium (body_json body); result_of := res; intent_text := None;
          intent_commitment := None |}.
Proof.
  intros Ha Ho. unfold canonical_envelope, request_of.
  cbn [req_version req_actor_omni req_operator_omni req_intent_commitment req_result req_ts_unix
       req_op_kind req_op_body req_intent_text].
  assert (Hd : forall b l, length b = 32%nat -> decode_hex_32 ("0x" +:+ hex_encode b) l = Ok b).
  { intros b l Hb. unfold decode_hex_32. rewrite (proj2 (strip_prefix_spec "0x" _ _) eq_refl).
    cbn [default from_option id]. unfold default, from_option, id. rewrite hex_decode_encode. cbn [ok_or]. by rewrite Hb. }
  rewrite Z.eqb_refl, !Hd by done. by destruct res.
Qed.
End EmissionFacts.
