(* ===== verification/Vault.v ===== *)
(** * The credential and configuration workers

    The routes of [crates/agentkeys-worker-creds/src/handlers.rs] and of
    [crates/agentkeys-worker-config/src/handlers.rs], with the state they share
    ([state.rs]).  The storage service is any object service; the clock's readings and
    the nonce of a sealed value are arguments. *)
From S2P Require Import Prelude RustStr StrFacts Json AuditCbor Archive.
From S2P Require Import Capability DeviceCore Crates CapabilityVerify ObjectStore LocalStore ObjectClient StorageWorker Emitter.

Open Scope string_scope.
Open Scope Z_scope.

(** [s.contains(p)] *)
Fixpoint contains (p s : string) : bool :=
  starts_with p s || match s with String _ s => contains p s | "" => false end.

(** ** Shared state *)

Record WorkerState := {
  config_authority : AuthorityConfig; development_kek : option string; audit : AuditEmitter }.

(** What one request reads from its surroundings. *)
Record Moment := { at_pop : Z; at_fresh : Z; at_millis : Z; at_secs : Z; fresh_nonce : bytes }.

Definition development_key (st : WorkerState) : result ApiError string :=
  ok_or (err_500 "development_kek_missing") (development_kek st).

Record PutResponse := { s3_key : string; envelope_size : nat; put_audit_hash : option string }.
Record TeardownResponse := { keys_deleted : nat; teardown_audit_hash : option string }.

(** What a read hands back: a value the worker opened, or a client's envelope. *)
Inductive Fetched := Plaintext (b : bytes) | V3Envelope (b : bytes).

Record StoreRequest := { store_cap : CapToken; plaintext_b64 : option string; envelope_b64 : option string }.
Record FetchRequest := { fetch_cap : CapToken }.

Section Workers.
Context `{HexCodec, Crypto, Sha256, P256, CapJson, Base64, Aes256Gcm}.
Context `{Ciborium, JsonFloat, FloatText, ReceiptJson}.
Context {Svc : Type} `{ObjectService Svc}.
Variable rpc : string -> string -> string -> nat -> RpcAttempt.
Variable service_audit : Sent -> option string * AuditAppendV2 -> option HttpReply.

Definition worker_verify (st : WorkerState) (m : Moment) (cap : CapToken) (expected : CapOp)
    (class : DataClass) : result ApiError unit :=
  verify_authority rpc (config_authority st) cap expected class (at_pop m) (at_fresh m).

(** A handler's work on the storage service alone. *)
Definition on_store {A} (w : World Svc) (work : Svc * result ApiError A) : World Svc * result ApiError A :=
  ({| w_store := work.1; w_sent := w_sent w |}, work.2).

(** A teardown: the loop may run out of fuel. *)
Definition torn_down (st : WorkerState) (w : World Svc) (cap : CapToken) (kind : AuditOpKind) (body : OpBody)
    (loop : option (Svc * result ApiError nat)) : option (World Svc * result ApiError TeardownResponse) :=
  '(s, outcome) ← loop;
  Some (audited service_audit (audit st) {| w_store := s; w_sent := w_sent w |} cap kind body outcome
          (fun deleted h => {| keys_deleted := deleted; teardown_audit_hash := h |})).

(** Opening what is stored: a client's envelope is handed over as it is. *)
Definition open_stored (st : WorkerState) (cap : CapToken) (owner : string) (body : bytes)
    : result ApiError Fetched :=
  if bool_decide (StorageWorker.version body = Some ENVELOPE_VERSION_V3) then Ok (V3Envelope body)
  else
    let? key := development_key st in
    let p := payload cap in
    let? plaintext := map_err (fun _ => err_500 "envelope_decrypt")
      (decrypt key body (aad (operator_omni p) owner (service p) (k3_epoch p))) in
    Ok (Plaintext plaintext).

Definition plaintext_of (f : Fetched) : option string :=
  match f with Plaintext b => Some (b64_encode b) | V3Envelope _ => None end.
Definition envelope_of (f : Fetched) : option string :=
  match f with Plaintext _ => None | V3Envelope b => Some (b64_encode b) end.

Definition payload_hash {A} (outcome : result ApiError A) (envelope : A -> bytes) : string :=
  match outcome with Ok a => keccak_hex (envelope a) | Err _ => zero_hash end.

(** ** Credentials *)

Record FetchResponse := { cred_plaintext : option string; cred_envelope : option string; fetch_audit_hash : option string }.

Definition cred_store_inner (st : WorkerState) (m : Moment) (s : Svc) (req : StoreRequest)
    : Svc * result ApiError (string * bytes) :=
  let p := payload (store_cap req) in
  match store_bytes (fresh_nonce m) (store_cap req) (plaintext_b64 req) (envelope_b64 req) (development_kek st) with
  | Err e => (s, Err e)
  | Ok env_bytes =>
      let key := StorageWorker.object_key (actor_omni p) (service p) in
      let '(s, answer) := client_put s (store_cap req) key env_bytes None in
      (s, let? _ := map_err storage_error answer in Ok (key, env_bytes))
  end.

Definition cred_store (st : WorkerState) (m : Moment) (w : World Svc) (req : StoreRequest)
    : World Svc * result ApiError PutResponse :=
  let cap := store_cap req in
  match worker_verify st m cap Store Credentials with
  | Err e => (w, Err e)
  | Ok _ =>
      if negb (String.eqb (operator_omni (payload cap)) (actor_omni (payload cap)))
      then (w, Err (err_403 "cred_store_not_master_self"))
      else
        let '(w, outcome) := on_store w (cred_store_inner st m (w_store w) req) in
        audited service_audit (audit st) w cap OpKind.CredStore
          (CredStoreBody (service (payload cap)) (payload_hash outcome snd)) outcome
          (fun a h => {| s3_key := a.1; envelope_size := length a.2; put_audit_hash := h |})
  end.

Definition fetch_vault_owner (p : CapPayload) : string := operator_omni p.

Definition cred_fetch_inner (st : WorkerState) (s : Svc) (req : FetchRequest) : Svc * result ApiError Fetched :=
  let cap := fetch_cap req in
  let owner := fetch_vault_owner (payload cap) in
  let '(s, answer) := client_get s cap (StorageWorker.object_key owner (service (payload cap))) in
  (s, let? o := map_err storage_error answer in open_stored st cap owner (obj_bytes o)).

Definition cred_fetch (st : WorkerState) (m : Moment) (w : World Svc) (req : FetchRequest)
    : World Svc * result ApiError FetchResponse :=
  let cap := fetch_cap req in
  match worker_verify st m cap Fetch Credentials with
  | Err e => (w, Err e)
  | Ok _ =>
      let '(w, outcome) := on_store w (cred_fetch_inner st (w_store w) req) in
      audited service_audit (audit st) w cap OpKind.CredFetch
        (CredFetchBody (service (payload cap)) (cap_hash cap)) outcome
        (fun f h => {| cred_plaintext := plaintext_of f; cred_envelope := envelope_of f; fetch_audit_hash := h |})
  end.

Definition cred_teardown (fuel : nat) (st : WorkerState) (m : Moment) (w : World Svc) (cap : CapToken)
    : option (World Svc * result ApiError TeardownResponse) :=
  match worker_verify st m cap Teardown Credentials with
  | Err e => Some (w, Err e)
  | Ok _ =>
      if negb (String.eqb (operator_omni (payload cap)) (actor_omni (payload cap)))
      then Some (w, Err (err_403 "teardown_not_master_self"))
      else torn_down st w cap OpKind.CredTeardown (CredTeardownBody (actor_omni (payload cap)))
             (delete_prefix fuel (w_store w) cap (StorageWorker.object_prefix (actor_omni (payload cap))) None 0)
  end.

(** The listing writes no row. *)
Definition cred_list_route (fuel : nat) (st : WorkerState) (m : Moment) (w : World Svc) (cap : CapToken)
    : option (World Svc * result ApiError (list string)) :=
  '(s, out) ← cred_list fuel (w_store w) (worker_verify st m cap Fetch Credentials) cap;
  Some ({| w_store := s; w_sent := w_sent w |}, out).

(** ** Configuration *)

Record ConfigPutRequest := {
  cp_cap : CapToken; cp_plaintext_b64 : option string; cp_envelope_b64 : option string;
  cp_expected_revision : option string }.
Record GetResponse := {
  get_plaintext : option string; get_envelope : option string; get_audit_hash : option string;
  get_revision : option string }.

Definition config_object_key (actor svc : string) : string :=
  "bots/" +:+ to_lowercase (trim_start_0x actor) +:+ "/config/" +:+ to_lowercase svc +:+ ".enc".

Definition config_object_prefix (actor : string) : string :=
  "bots/" +:+ to_lowercase (trim_start_0x actor) +:+ "/config/".

(** Compared without regard to case. *)
Definition config_verify (st : WorkerState) (m : Moment) (cap : CapToken) (expected : CapOp)
    : result ApiError unit :=
  let? _ := worker_verify st m cap expected Config in
  guard! String.eqb (to_ascii_lowercase (trim_start_0x (operator_omni (payload cap))))
                    (to_ascii_lowercase (trim_start_0x (actor_omni (payload cap))))
    else err_403 "config_not_master_self" ;;
  Ok tt.

(** A conflict is the caller's stale copy. *)
Definition put_error (e : ObjectError) : ApiError :=
  if bool_decide (e = Conflict) then err_409 "stale_base" else storage_error e.

Definition config_put_inner (st : WorkerState) (m : Moment) (s : Svc) (req : ConfigPutRequest)
    : Svc * result ApiError (string * bytes) :=
  let p := payload (cp_cap req) in
  match store_bytes (fresh_nonce m) (cp_cap req) (cp_plaintext_b64 req) (cp_envelope_b64 req) (development_kek st) with
  | Err e => (s, Err e)
  | Ok env_bytes =>
      let key := config_object_key (actor_omni p) (service p) in
      let '(s, answer) := client_put s (cp_cap req) key env_bytes (cp_expected_revision req) in
      (s, let? _ := map_err put_error answer in Ok (key, env_bytes))
  end.

Definition config_put (st : WorkerState) (m : Moment) (w : World Svc) (req : ConfigPutRequest)
    : World Svc * result ApiError PutResponse :=
  let cap := cp_cap req in
  match config_verify st m cap Store with
  | Err e => (w, Err e)
  | Ok _ =>
      let '(w, outcome) := on_store w (config_put_inner st m (w_store w) req) in
      audited service_audit (audit st) w cap OpKind.ConfigPut
        (ConfigPutBody (config_object_key (actor_omni (payload cap)) (service (payload cap)))
           (payload_hash outcome snd)) outcome
        (fun a h => {| s3_key := a.1; envelope_size := length a.2; put_audit_hash := h |})
  end.

Definition config_get_inner (st : WorkerState) (s : Svc) (cap : CapToken)
    : Svc * result ApiError (Fetched * string) :=
  let p := payload cap in
  let '(s, answer) := client_get s cap (config_object_key (actor_omni p) (service p)) in
  (s, let? o := map_err storage_error answer in
      let? f := open_stored st cap (actor_omni p) (obj_bytes o) in Ok (f, obj_revision o)).

Definition config_get (st : WorkerState) (m : Moment) (w : World Svc) (cap : CapToken)
    : World Svc * result ApiError GetResponse :=
  match config_verify st m cap Fetch with
  | Err e => (w, Err e)
  | Ok _ =>
      let '(w, outcome) := on_store w (config_get_inner st (w_store w) cap) in
      audited service_audit (audit st) w cap OpKind.ConfigGet
        (ConfigGetBody (config_object_key (actor_omni (payload cap)) (service (payload cap))) (cap_hash cap))
        outcome
        (fun a h => {| get_plaintext := plaintext_of a.1; get_envelope := envelope_of a.1;
                       get_audit_hash := h; get_revision := Some a.2 |})
  end.

Definition config_teardown (fuel : nat) (st : WorkerState) (m : Moment) (w : World Svc) (cap : CapToken)
    : option (World Svc * result ApiError TeardownResponse) :=
  match config_verify st m cap Teardown with
  | Err e => Some (w, Err e)
  | Ok _ => torn_down st w cap OpKind.ConfigTeardown (ConfigTeardownBody (actor_omni (payload cap)))
              (delete_prefix fuel (w_store w) cap (config_object_prefix (actor_omni (payload cap))) None 0)
  end.
End Workers.
