(* ===== verification/MemoryWorker.v ===== *)
(** * The memory worker

    Every route of [crates/agentkeys-worker-memory/src/handlers.rs]: the reads and the
    conditional writes of memory objects, the teardown, and the absorption inbox.
    Between the read and the write of a conditional put other requests may reach the
    storage service: [between] is what they do to it. *)
From S2P Require Import Prelude RustStr StrFacts Json AuditCbor Archive.
From S2P Require Import Capability DeviceCore Crates CapabilityVerify ObjectStore LocalStore ObjectClient StorageWorker Emitter Vault.

Open Scope string_scope.
Open Scope Z_scope.

(** ** Keys *)

Definition strip0x_lc (s : string) : string := to_lowercase (trim_start_0x s).

Definition memory_read_owner (p : CapPayload) : string :=
  match op p with CanonicalFetch => operator_omni p | _ => actor_omni p end.

Definition object_key (actor svc : string) : string :=
  "bots/" +:+ to_lowercase (trim_start_0x actor) +:+ "/memory/" +:+ to_lowercase svc +:+ ".enc".

Definition object_prefix (actor : string) : string :=
  "bots/" +:+ to_lowercase (trim_start_0x actor) +:+ "/memory/".

Definition memory_key_char (c : Ascii.ascii) : bool :=
  is_ascii_lowercase c || is_ascii_digit c
  || Ascii.eqb c "."%char || Ascii.eqb c "_"%char || Ascii.eqb c "-"%char.

Definition good_segment (seg : string) : bool :=
  negb (String.eqb seg "") && negb (String.eqb seg ".") && negb (String.eqb seg "..")
  && string_all memory_key_char seg.

Definition validate_object_key (k : string) : result ApiError unit :=
  guard! negb (String.eqb k "") && (String.length k <=? 128)%nat
         && forallb good_segment (split_char "/"%char k)
    else err_400 "object_key_invalid" ;;
  Ok tt.

Definition storage_key (owner svc : string) (requested_key : option string) : string :=
  match requested_key with
  | Some k => "bots/" +:+ to_lowercase (trim_start_0x owner) +:+ "/memory/" +:+ to_lowercase svc
              +:+ ".objects/" +:+ k +:+ ".enc"
  | None => object_key owner svc
  end.

(** The separator is U+001F. *)
Definition aad_service (svc : string) (object_key : option string) : string :=
  match object_key with
  | Some k => svc +:+ String "031"%char k
  | None => svc
  end.

Definition INBOX_AAD_SERVICE : string := "inbox".

Definition inbox_prefix (operator : string) : string := "bots/" +:+ strip0x_lc operator +:+ "/inbox/".

Definition inbox_subprefix (operator delegate svc : string) : string :=
  "bots/" +:+ strip0x_lc operator +:+ "/inbox/" +:+ strip0x_lc delegate +:+ "/" +:+ to_lowercase svc +:+ "/".

Definition inbox_object_key (operator delegate svc content_hash : string) : string :=
  inbox_subprefix operator delegate svc +:+ to_lowercase (trim_start_0x content_hash) +:+ ".enc".

Definition inbox_ns_from_service (svc : string) : string := default svc (strip_prefix "proposal:" svc).

Definition enforce_master_self (cap : CapToken) : result ApiError unit :=
  guard! String.eqb (strip0x_lc (operator_omni (payload cap))) (strip0x_lc (actor_omni (payload cap)))
    else err_403 "inbox_not_master_self" ;;
  Ok tt.

Definition validate_inbox_key (operator s3_key : string) : result ApiError unit :=
  guard! negb (negb (starts_with (inbox_prefix operator) s3_key) || contains ".." s3_key)
    else err_400 "inbox_key_out_of_scope" ;;
  Ok tt.

(** ** Requests and replies *)

Inductive ContextKind := Knowledge | Skill | Persona | Resource | ContextDoc.

Definition ContextKind_as_str (k : ContextKind) : string :=
  match k with
  | Knowledge => "knowledge" | Skill => "skill" | Persona => "persona" | Resource => "resource"
  | ContextDoc => "context"
  end.

Record InboxItem := {
  source_delegate_omni : string; ns : string; item_key : string; body_b64 : string;
  content_hash : string; ts : Z; kind : ContextKind }.

Record InboxItemMeta := {
  meta_s3_key : string; meta_delegate : string; meta_ns : string; meta_key : string; meta_hash : string;
  meta_bytes : nat; meta_ts : Z; meta_kind : ContextKind }.

(** The derived codec of an item. *)
Class InboxJson := {
  item_to_vec : InboxItem -> bytes;
  item_from_slice : bytes -> option InboxItem;
  item_from_to : forall i, item_from_slice (item_to_vec i) = Some i }.

Record PutRequest := {
  mp_cap : CapToken; mp_plaintext_b64 : string; mp_object_key : option string;
  mp_expected_content_hash : option string }.
Record GetRequest := { mg_cap : CapToken; mg_object_key : option string }.
Record MemoryGetResponse := { mg_plaintext_b64 : string; mg_audit_hash : option string }.
Record InboxAppendRequest := {
  ia_cap : CapToken; ia_key : string; ia_plaintext_b64 : string; ia_kind : ContextKind }.
Record InboxAppendResponse := { ia_s3_key : string; ia_content_hash : string; ia_audit_hash : option string }.

Section MemoryWorker.
Context `{HexCodec, Crypto, Sha256, P256, CapJson, Base64, Aes256Gcm}.
Context `{Ciborium, JsonFloat, FloatText, ReceiptJson, InboxJson}.
Context {Svc : Type} `{ObjectService Svc}.
Variable rpc : string -> string -> string -> nat -> RpcAttempt.
Variable service_audit : Sent -> option string * AuditAppendV2 -> option HttpReply.

Abbreviation verify st m cap expected := (worker_verify rpc st m cap expected Memory).

(** ** Objects *)

(** What the caller says he read against what is stored: absent, or a hash. *)
Definition check_expected_hash (expected : string) (current : option bytes) : result ApiError unit :=
  let actual := b ← current; Some (keccak_hex b) in
  guard! match actual with
         | None => String.eqb expected ""
         | Some a => negb (String.eqb expected "")
                     && String.eqb (to_ascii_lowercase a) (to_ascii_lowercase expected)
         end
    else err_409 "stale_base" ;;
  Ok tt.

(** The plaintext and the revision of what is stored, if anything is. *)
Definition read_current (st : WorkerState) (s : Svc) (cap : CapToken) (key : string) (aad_bytes : bytes)
    : Svc * result ApiError (option bytes * string) :=
  let '(s, answer) := client_get s cap key in
  (s, match answer with
      | Ok stored =>
          let? kek := development_key st in
          let? b := map_err (fun _ => err_500 "envelope_decrypt") (decrypt kek (obj_bytes stored) aad_bytes) in
          Ok (Some b, obj_revision stored)
      | Err NotFound => Ok (None, "")
      | Err error => Err (storage_error error)
      end).

Definition memory_aad (cap : CapToken) (owner : string) (requested_key : option string) : bytes :=
  let p := payload cap in
  aad (operator_omni p) owner (aad_service (service p) requested_key) (k3_epoch p).

Definition memory_put_inner (st : WorkerState) (m : Moment) (between : Svc -> Svc) (s : Svc) (req : PutRequest)
    : Svc * result ApiError (string * bytes) :=
  let cap := mp_cap req in
  let p := payload cap in
  let aad_bytes := memory_aad cap (actor_omni p) (mp_object_key req) in
  let key := storage_key (actor_omni p) (service p) (mp_object_key req) in
  match (let? plaintext := ok_or (err_400 "plaintext_b64_decode") (b64_decode (mp_plaintext_b64 req)) in
         let? kek := development_key st in
         map_err (fun _ => err_500 "envelope_encrypt") (encrypt (fresh_nonce m) kek plaintext aad_bytes)) with
  | Err e => (s, Err e)
  | Ok env_bytes =>
      let '(s, expected_revision) :=
        match mp_expected_content_hash req with
        | None => (s, Ok None)
        | Some expected =>
            let '(s, read) := read_current st s cap key aad_bytes in
            (s, let? (current, revision) := read in
                let? _ := check_expected_hash expected current in Ok (Some revision))
        end in
      match expected_revision with
      | Err e => (s, Err e)
      | Ok expected_revision =>
          let '(s, answer) := client_put (between s) cap key env_bytes expected_revision in
          (s, let? _ := map_err put_error answer in Ok (key, env_bytes))
      end
  end.

Definition check_requested_key (k : option string) : result ApiError unit :=
  match k with Some k => validate_object_key k | None => Ok tt end.

Definition memory_put (st : WorkerState) (m : Moment) (between : Svc -> Svc) (w : World Svc) (req : PutRequest)
    : World Svc * result ApiError PutResponse :=
  let cap := mp_cap req in
  let p := payload cap in
  match (let? _ := verify st m cap Store in check_requested_key (mp_object_key req)) with
  | Err e => (w, Err e)
  | Ok _ =>
      let '(w, outcome) := on_store w (memory_put_inner st m between (w_store w) req) in
      audited service_audit (audit st) w cap OpKind.MemoryPut
        (MemoryPutBody (storage_key (actor_omni p) (service p) (mp_object_key req)) (payload_hash outcome snd))
        outcome (fun a h => {| s3_key := a.1; envelope_size := length a.2; put_audit_hash := h |})
  end.

Definition memory_get_inner (st : WorkerState) (s : Svc) (req : GetRequest) : Svc * result ApiError bytes :=
  let cap := mg_cap req in
  let owner := memory_read_owner (payload cap) in
  let '(s, answer) := client_get s cap (storage_key owner (service (payload cap)) (mg_object_key req)) in
  (s, let? o := map_err storage_error answer in
      let? kek := development_key st in
      map_err (fun _ => err_500 "envelope_decrypt")
        (decrypt kek (obj_bytes o) (memory_aad cap owner (mg_object_key req)))).

Definition memory_read_after_verify (st : WorkerState) (w : World Svc) (req : GetRequest)
    : World Svc * result ApiError MemoryGetResponse :=
  let cap := mg_cap req in
  let '(w, outcome) := on_store w (memory_get_inner st (w_store w) req) in
  audited service_audit (audit st) w cap OpKind.MemoryGet
    (MemoryGetBody (storage_key (memory_read_owner (payload cap)) (service (payload cap)) (mg_object_key req))
       (cap_hash cap)) outcome
    (fun b h => {| mg_plaintext_b64 := b64_encode b; mg_audit_hash := h |}).

Definition memory_get (st : WorkerState) (m : Moment) (w : World Svc) (req : GetRequest)
    : World Svc * result ApiError MemoryGetResponse :=
  match (let? _ := verify st m (mg_cap req) Fetch in check_requested_key (mg_object_key req)) with
  | Err e => (w, Err e)
  | Ok _ => memory_read_after_verify st w req
  end.

Definition memory_canonical_get (st : WorkerState) (m : Moment) (w : World Svc) (req : GetRequest)
    : World Svc * result ApiError MemoryGetResponse :=
  match (let? _ := verify st m (mg_cap req) CanonicalFetch in
         guard! is_none (mg_object_key req) else err_400 "object_key_on_canonical" ;; Ok tt) with
  | Err e => (w, Err e)
  | Ok _ => memory_read_after_verify st w req
  end.

Definition memory_teardown (fuel : nat) (st : WorkerState) (m : Moment) (w : World Svc) (cap : CapToken)
    : option (World Svc * result ApiError TeardownResponse) :=
  match (let? _ := verify st m cap Teardown in enforce_master_self cap) with
  | Err e => Some (w, Err e)
  | Ok _ => torn_down service_audit st w cap OpKind.MemoryTeardown (MemoryTeardownBody (actor_omni (payload cap)))
              (delete_prefix fuel (w_store w) cap (object_prefix (actor_omni (payload cap))) None 0)
  end.

(** ** The inbox *)

Definition inbox_preimage (ns key : string) (plaintext : bytes) : bytes :=
  (as_bytes ns ++ [Byte.x7c] ++ as_bytes key ++ [Byte.x7c] ++ plaintext)%list.

Definition inbox_aad (cap : CapToken) : bytes :=
  let operator := operator_omni (payload cap) in
  aad operator operator INBOX_AAD_SERVICE (k3_epoch (payload cap)).

Definition inbox_item (m : Moment) (req : InboxAppendRequest) (plaintext : bytes) : InboxItem :=
  let n := inbox_ns_from_service (service (payload (ia_cap req))) in
  {| source_delegate_omni := actor_omni (payload (ia_cap req)); ns := n; item_key := ia_key req;
     body_b64 := ia_plaintext_b64 req; content_hash := keccak_hex (inbox_preimage n (ia_key req) plaintext);
     ts := at_secs m; kind := ia_kind req |}.

Definition inbox_append_inner (st : WorkerState) (m : Moment) (s : Svc) (req : InboxAppendRequest)
    : Svc * result ApiError (string * string * bytes) :=
  let cap := ia_cap req in
  let p := payload cap in
  match (let? plaintext := ok_or (err_400 "plaintext_b64_decode") (b64_decode (ia_plaintext_b64 req)) in
         let item := inbox_item m req plaintext in
         let? kek := development_key st in
         let? env_bytes := map_err (fun _ => err_500 "envelope_encrypt")
           (encrypt (fresh_nonce m) kek (item_to_vec item) (inbox_aad cap)) in
         Ok (item, env_bytes)) with
  | Err e => (s, Err e)
  | Ok (item, env_bytes) =>
      let key := inbox_object_key (operator_omni p) (actor_omni p) (service p) (content_hash item) in
      let '(s, answer) := client_put s cap key env_bytes (Some "") in
      (s, let? _ := map_err storage_error answer in Ok (key, content_hash item, env_bytes))
  end.

Definition memory_inbox_append (st : WorkerState) (m : Moment) (w : World Svc) (req : InboxAppendRequest)
    : World Svc * result ApiError InboxAppendResponse :=
  let cap := ia_cap req in
  let p := payload cap in
  match verify st m cap Append with
  | Err e => (w, Err e)
  | Ok _ =>
      let '(w, outcome) := on_store w (inbox_append_inner st m (w_store w) req) in
      audited service_audit (audit st) w cap OpKind.MemoryInboxAppend
        (MemoryInboxAppendBody
           (match outcome with
            | Ok a => a.1.1
            | Err _ => inbox_subprefix (operator_omni p) (actor_omni p) (service p)
            end) (payload_hash outcome snd)) outcome
        (fun a h => {| ia_s3_key := a.1.1; ia_content_hash := a.1.2; ia_audit_hash := h |})
  end.

Definition inbox_read_item (st : WorkerState) (s : Svc) (cap : CapToken) (key : string) (aad_bytes : bytes)
    : Svc * result ApiError (InboxItem * nat) :=
  let '(s, answer) := client_get s cap key in
  (s, let? stored := map_err storage_error answer in
      let? kek := development_key st in
      let? plaintext := map_err (fun _ => err_500 "envelope_decrypt") (decrypt kek (obj_bytes stored) aad_bytes) in
      let? item := ok_or (err_500 "inbox_item_decode") (item_from_slice plaintext) in
      Ok (item, length (obj_bytes stored))).

Definition meta_of (key : string) (item : InboxItem) (n : nat) : InboxItemMeta :=
  {| meta_s3_key := key; meta_delegate := source_delegate_omni item; meta_ns := ns item;
     meta_key := item_key item; meta_hash := content_hash item; meta_bytes := n; meta_ts := ts item;
     meta_kind := kind item |}.

Fixpoint read_items (st : WorkerState) (s : Svc) (cap : CapToken) (aad_bytes : bytes) (keys : list string)
    (items : list InboxItemMeta) : Svc * result ApiError (list InboxItemMeta) :=
  match keys with
  | [] => (s, Ok items)
  | key :: keys =>
      let '(s, read) := inbox_read_item st s cap key aad_bytes in
      match read with
      | Err e => (s, Err e)
      | Ok (item, n) => read_items st s cap aad_bytes keys (items ++ [meta_of key item n])%list
      end
  end.

Fixpoint inbox_pages (fuel : nat) (st : WorkerState) (s : Svc) (cap : CapToken) (prefix : string)
    (aad_bytes : bytes) (cursor : option string) (items : list InboxItemMeta)
    : option (Svc * result ApiError (list InboxItemMeta)) :=
  match fuel with
  | O => None
  | S fuel =>
      let '(s, answer) := client_list s cap prefix cursor in
      match map_err storage_error answer with
      | Err e => Some (s, Err e)
      | Ok page =>
          let '(s, read) := read_items st s cap aad_bytes (page_keys page) items in
          match read with
          | Err e => Some (s, Err e)
          | Ok items =>
              match next page with
              | None => Some (s, Ok items)
              | Some c => inbox_pages fuel st s cap prefix aad_bytes (Some c) items
              end
          end
      end
  end.

(** None of the three writes an audit row. *)
Definition memory_inbox_list (fuel : nat) (st : WorkerState) (m : Moment) (w : World Svc) (cap : CapToken)
    : option (World Svc * result ApiError (list InboxItemMeta)) :=
  match (let? _ := verify st m cap Fetch in enforce_master_self cap) with
  | Err e => Some (w, Err e)
  | Ok _ =>
      r ← inbox_pages fuel st (w_store w) cap (inbox_prefix (operator_omni (payload cap))) (inbox_aad cap) None [];
      Some (on_store w r)
  end.

Definition memory_inbox_get (st : WorkerState) (m : Moment) (w : World Svc) (cap : CapToken) (key : string)
    : World Svc * result ApiError InboxItem :=
  match (let? _ := verify st m cap Fetch in let? _ := enforce_master_self cap in
         validate_inbox_key (operator_omni (payload cap)) key) with
  | Err e => (w, Err e)
  | Ok _ =>
      let '(w, read) := on_store w (inbox_read_item st (w_store w) cap key (inbox_aad cap)) in
      (w, let? (item, _) := read in Ok item)
  end.

Definition memory_inbox_delete (st : WorkerState) (m : Moment) (w : World Svc) (cap : CapToken) (key : string)
    : World Svc * result ApiError bool :=
  match (let? _ := verify st m cap Teardown in let? _ := enforce_master_self cap in
         validate_inbox_key (operator_omni (payload cap)) key) with
  | Err e => (w, Err e)
  | Ok _ =>
      let '(s, answer) := client_delete (w_store w) cap key None in
      on_store w (s, let? _ := map_err storage_error answer in Ok true)
  end.
End MemoryWorker.
