(* ===== verification/ChannelWorker.v ===== *)
(** * The channel worker

    Every route of [crates/agentkeys-worker-channel/src/handlers.rs] with the limits of
    [state.rs]: publishing into a feed, polling it, the media beside it, its teardown.
    The sequence counter is one for the process; a publish reads the clock and the
    counter once.  While a poll waits, other requests reach the storage service:
    [waited] is what they do to it. *)
From S2P Require Import Prelude RustStr StrFacts Json AuditCbor Archive Numerals.
From S2P Require Import SessionScope.
From S2P Require Import Capability DeviceCore Crates CapabilityVerify ObjectStore LocalStore ObjectClient StorageWorker Emitter Vault.

Open Scope string_scope.
Open Scope Z_scope.

(** ** Limits *)

Definition DEFAULT_MAX_POLL_SECONDS : Z := 25.
Definition DEFAULT_INLINE_MAX_BYTES : Z := Z.shiftl 1 20.
Definition DEFAULT_BLOB_MAX_BYTES : Z := Z.shiftl 16 20.

Record ChannelWorkerConfig := { max_poll_seconds : Z; inline_max_bytes : Z; blob_max_bytes : Z }.

Definition default_config : ChannelWorkerConfig :=
  {| max_poll_seconds := DEFAULT_MAX_POLL_SECONDS; inline_max_bytes := DEFAULT_INLINE_MAX_BYTES;
     blob_max_bytes := DEFAULT_BLOB_MAX_BYTES |}.

Definition validate_config (c : ChannelWorkerConfig) : result string unit :=
  guard! (0 <? inline_max_bytes c) && (inline_max_bytes c <=? DEFAULT_INLINE_MAX_BYTES)
    else "inline limit must be within the supported 1 MiB request envelope" ;;
  guard! (0 <? blob_max_bytes c) && (blob_max_bytes c <=? DEFAULT_BLOB_MAX_BYTES)
    else "blob limit must be within the supported 16 MiB storage envelope" ;;
  guard! max_poll_seconds c <=? DEFAULT_MAX_POLL_SECONDS
    else "poll duration exceeds the supported maximum" ;;
  Ok tt.

Definition err_413 (r : string) : ApiError := {| api_status := 413; reason := r |}.

(** ** Names and keys *)

Definition normalize_omni (omni : string) : string := to_lowercase (trim_start_0x omni).

Definition channel_id_from_service (svc : string) : result ApiError string :=
  let? id := ok_or (err_400 "channel_service_shape")
    (match strip_prefix "channel-pub:" svc with
     | Some id => Some id
     | None => strip_prefix "channel-sub:" svc
     end) in
  guard! valid_channel_id id else err_400 "channel_id_shape" ;;
  Ok (to_lowercase id).

Definition feed_prefix (owner channel : string) : string :=
  "bots/" +:+ owner +:+ "/channel/" +:+ channel +:+ "/".

Definition feed_key (owner channel event : string) : string :=
  "bots/" +:+ owner +:+ "/channel/" +:+ channel +:+ "/" +:+ event +:+ ".enc".

Definition blob_prefix (owner channel : string) : string :=
  "bots/" +:+ owner +:+ "/channel/" +:+ channel +:+ ".blob/".

Definition blob_key (owner channel blob : string) : string :=
  "bots/" +:+ owner +:+ "/channel/" +:+ channel +:+ ".blob/" +:+ blob +:+ ".enc".

(** [s.split_once(sep)] for a text *)
Fixpoint split_text (sep s : string) : option (string * string) :=
  match strip_prefix sep s with
  | Some r => Some ("", r)
  | None => match s with
            | "" => None
            | String c s => '(a, b) ← split_text sep s; Some (String c a, b)
            end
  end.

(** [s.rsplit_once('/')] *)
Fixpoint rsplit_slash (s : string) : option (string * string) :=
  match s with
  | "" => None
  | String c s => match rsplit_slash s with
                  | Some (a, b) => Some (String c a, b)
                  | None => if Ascii.eqb c "/"%char then Some ("", s) else None
                  end
  end.

Definition parse_blob_ref (body_ref : string) : option (string * string * string) :=
  rest ← strip_prefix "bots/" body_ref;
  '(owner, rest) ← split_text "/channel/" rest;
  '(channel_with_blob, blob_file) ← rsplit_slash rest;
  channel ← strip_suffix ".blob" channel_with_blob;
  blob ← strip_suffix ".enc" blob_file;
  if String.eqb owner "" || String.eqb channel "" || String.eqb blob ""
     || string_has "/"%char channel || string_has "/"%char blob
  then None else Some (owner, channel, blob).

(** [format!("{millis:013}-{seq:016x}")] *)
Definition zero_pad (width : nat) (s : string) : string :=
  string_of_list_ascii (repeat "0"%char (width - String.length s)) +:+ s.

Definition make_id (millis seq : Z) : string :=
  zero_pad 13 (dec millis) +:+ "-" +:+ zero_pad 16 (lower_hex seq).

(** ** Blobs *)

Definition encode_blob_plaintext (content_type : string) (b : bytes) : bytes :=
  let ct := as_bytes content_type in
  let ct_len := Z.min (len ct) 65535 in
  (be_bytes 2 ct_len ++ take (Z.to_nat ct_len) ct ++ b)%list.

Definition decode_blob_plaintext (plaintext : bytes) : option (string * bytes) :=
  match plaintext with
  | a :: b :: rest =>
      let ct_len := Z.to_nat (be_val [a; b]) in
      if (length rest <? ct_len)%nat then None
      else content_type ← from_utf8 (take ct_len rest); Some (content_type, drop ct_len rest)
  | _ => None
  end.

Definition keep_tail {A} (keys : list A) (n : nat) : list A :=
  if (n <? length keys)%nat then drop (length keys - n) keys else keys.

(** ** Requests and replies *)

(** The content a producer declares; the worker stamps the rest. *)
Record PublishRequest := {
  pr_cap : CapToken; pr_kind : ChannelEventKind; pr_direction : ChannelDirection;
  pr_body_b64 : option string; pr_body_ref : option string; pr_correlation : option string;
  pr_audio : option ChannelAudioParams; pr_partial : option bool; pr_seq : option Z;
  pr_stream : option bool; pr_contact : option ContactStamp; pr_content_type : option string;
  pr_relay_of : option string; pr_addressee : option string }.

Record PublishResponse := { pub_event_id : string; pub_s3_key : string; pub_audit_hash : option string }.
Record PollRequest := { po_cap : CapToken; po_after : string; po_wait_seconds : Z; po_tail : option Z }.
Record PollResponse := { po_events : list ChannelEvent; po_cursor : string; po_audit_hash : option string }.
Record BlobPutRequest := { bp_cap : CapToken; bp_content_type : string; bp_bytes_b64 : string }.
Record BlobPutResponse := { bp_body_ref : string; bp_bytes : nat; bp_sha256 : string }.
Record BlobGetRequest := { bg_cap : CapToken; bg_body_ref : string }.
Record BlobGetResponse := { bg_content_type : string; bg_bytes_b64 : string; bg_sha256 : string }.
Record WakeRequest := { wr_owner_omni : string; wr_channel_id : string; wr_event_ts_ms : option Z }.

(** The derived codec of an event. *)
Class EventJson := {
  event_to_vec : ChannelEvent -> bytes;
  event_from_slice : bytes -> option ChannelEvent;
  event_from_to : forall e, event_from_slice (event_to_vec e) = Some e }.

(** The worker: its storage, the audit service, the process counter, the feeds it
    signalled and the wakes it asked for. *)
Record ChannelState (Svc : Type) := {
  c_world : World Svc; c_seq : Z; c_signals : list string; c_wakes : list WakeRequest }.
Arguments c_world {Svc} _. Arguments c_seq {Svc} _. Arguments c_signals {Svc} _. Arguments c_wakes {Svc} _.

Definition with_world {Svc} (c : ChannelState Svc) (w : World Svc) : ChannelState Svc :=
  {| c_world := w; c_seq := c_seq c; c_signals := c_signals c; c_wakes := c_wakes c |}.

(** [SEQ.fetch_add(1)], wrapping. *)
Definition next_seq {Svc} (c : ChannelState Svc) : ChannelState Svc :=
  {| c_world := c_world c; c_seq := wrap_u64 (c_seq c + 1); c_signals := c_signals c; c_wakes := c_wakes c |}.

Section ChannelWorker.
Context `{HexCodec, Crypto, Sha256, P256, CapJson, Base64, Aes256Gcm}.
Context `{Ciborium, JsonFloat, FloatText, ReceiptJson, EventJson}.
Context {Svc : Type} `{ObjectService Svc}.
Variable rpc : string -> string -> string -> nat -> RpcAttempt.
Variable service_audit : Sent -> option string * AuditAppendV2 -> option HttpReply.
Variable limits : ChannelWorkerConfig.
(** Whether an application wake is configured. *)
Variable wake : bool.

Definition object_aad (owner key : string) : bytes := aad "" owner key 0.

Definition channel_verify (st : WorkerState) (m : Moment) (cap : CapToken) (expected : CapOp)
    : result ApiError string :=
  let? _ := worker_verify rpc st m cap expected Channel in
  channel_id_from_service (service (payload cap)).

(** ** Publishing *)

Definition publish_body (req : PublishRequest) : result ApiError (option string * option string) :=
  match pr_body_b64 req, pr_body_ref req with
  | Some _, Some _ => Err (err_400 "channel_publish_body_ambiguous")
  | None, None => Err (err_400 "channel_publish_body_empty")
  | Some b64, None =>
      let? decoded := ok_or (err_400 "channel_body_b64_decode") (b64_decode b64) in
      guard! negb (inline_max_bytes limits <? len decoded) else err_413 "channel_body_too_large" ;;
      Ok (Some b64, None)
  | None, Some r => Ok (None, Some r)
  end.

Definition event_of (req : PublishRequest) (channel id : string) (now : Z) (b r : option string) : ChannelEvent :=
  {| event_id := id; channel_id := channel; direction := pr_direction req;
     producer := SessionScope.Actor ("0x" +:+ normalize_omni (actor_omni (payload (pr_cap req))));
     kind := pr_kind req; body := b; body_ref := r; ts_millis := now; correlation := pr_correlation req;
     audio := pr_audio req; partial := pr_partial req; seq_no := pr_seq req; stream := pr_stream req;
     contact := pr_contact req; content_type := pr_content_type req; relay_of := pr_relay_of req;
     addressee := pr_addressee req |}.

(** The counter moves once the body is accepted, whatever comes of the rest; between
    that and the write other requests may reach the storage service. *)
Definition channel_publish_inner (st : WorkerState) (m : Moment) (between : Svc -> Svc) (c : ChannelState Svc)
    (req : PublishRequest) (channel : string) : ChannelState Svc * result ApiError (string * string * bytes) :=
  match publish_body req with
  | Err e => (c, Err e)
  | Ok (b, r) =>
      let id := make_id (at_millis m) (c_seq c) in
      let c := next_seq c in
      let owner := normalize_omni (operator_omni (payload (pr_cap req))) in
      let event := event_of req channel id (at_millis m) b r in
      let key := feed_key owner channel id in
      match (let? kek := development_key st in
             map_err (fun _ => err_500 "channel_envelope_encrypt")
               (encrypt (fresh_nonce m) kek (event_to_vec event) (object_aad owner key))) with
      | Err e => (c, Err e)
      | Ok env_bytes =>
          let '(s, answer) := client_put (between (w_store (c_world c))) (pr_cap req) key env_bytes (Some "") in
          (with_world c {| w_store := s; w_sent := w_sent (c_world c) |},
           let? _ := map_err storage_error answer in Ok (id, key, env_bytes))
      end
  end.

Definition wake_request (cap : CapToken) (channel id : string) : WakeRequest :=
  {| wr_owner_omni := "0x" +:+ normalize_omni (operator_omni (payload cap)); wr_channel_id := channel;
     wr_event_ts_ms := (first ← head (split_char "-"%char id);
                        match u64_dec first with Ok n => Some n | Err _ => None end) |}.

(** A stored event is signalled, and the application woken, whether or not the audit
    row could be written. *)
Definition signal_publish (c : ChannelState Svc) (req : PublishRequest) (channel id : string) : ChannelState Svc :=
  {| c_world := c_world c; c_seq := c_seq c;
     c_signals := (c_signals c ++ [feed_prefix (normalize_omni (operator_omni (payload (pr_cap req)))) channel])%list;
     c_wakes := if bool_decide (pr_direction req = In) && wake
                then (c_wakes c ++ [wake_request (pr_cap req) channel id])%list else c_wakes c |}.

Definition publish_audit_body (channel : string) (outcome : result ApiError (string * string * bytes)) : OpBody :=
  ChannelPublishBody (match outcome with Ok a => a.1.2 | Err _ => "" end) channel
    (match outcome with Ok a => a.1.1 | Err _ => "" end) (payload_hash outcome snd).

Definition channel_publish (st : WorkerState) (m : Moment) (between : Svc -> Svc) (c : ChannelState Svc)
    (req : PublishRequest)
    : ChannelState Svc * result ApiError PublishResponse :=
  match channel_verify st m (pr_cap req) ChannelPublish with
  | Err e => (c, Err e)
  | Ok channel =>
      let '(c, outcome) := channel_publish_inner st m between c req channel in
      let '(w, answer) := audited service_audit (audit st) (c_world c) (pr_cap req) OpKind.ChannelPublish
        (publish_audit_body channel outcome) outcome
        (fun a h => {| pub_event_id := a.1.1; pub_s3_key := a.1.2; pub_audit_hash := h |}) in
      let c := with_world c w in
      (match outcome with Ok a => signal_publish c req channel a.1.1 | Err _ => c end, answer)
  end.

(** ** Media beside the feed *)

Definition blob_content_type (ct : string) : result ApiError string :=
  let ct := trim ct in
  guard! negb (String.eqb ct "" || (200 <? String.length ct)%nat || string_has "010"%char ct)
    else err_400 "channel_blob_content_type" ;;
  Ok ct.

Definition blob_bytes (req : BlobPutRequest) : result ApiError bytes :=
  let? b := ok_or (err_400 "channel_blob_b64_decode") (b64_decode (bp_bytes_b64 req)) in
  guard! negb (is_nil b) else err_400 "channel_blob_empty" ;;
  guard! negb (blob_max_bytes limits <? len b) else err_413 "channel_blob_too_large" ;;
  Ok b.

Definition channel_blob_put (st : WorkerState) (m : Moment) (c : ChannelState Svc) (req : BlobPutRequest)
    : ChannelState Svc * result ApiError BlobPutResponse :=
  let cap := bp_cap req in
  match (let? channel := channel_verify st m cap ChannelPublish in
         let? b := blob_bytes req in let? ct := blob_content_type (bp_content_type req) in
         Ok (channel, b, ct)) with
  | Err e => (c, Err e)
  | Ok (channel, b, ct) =>
      let owner := normalize_omni (operator_omni (payload cap)) in
      let id := make_id (at_millis m) (c_seq c) in
      let c := next_seq c in
      let key := blob_key owner channel id in
      match (let? kek := development_key st in
             map_err (fun _ => err_500 "channel_envelope_encrypt")
               (encrypt (fresh_nonce m) kek (encode_blob_plaintext ct b) (object_aad owner key))) with
      | Err e => (c, Err e)
      | Ok env_bytes =>
          let '(s, answer) := client_put (w_store (c_world c)) cap key env_bytes (Some "") in
          let outcome := let? _ := map_err storage_error answer in Ok tt in
          let '(w, answer) := audited service_audit (audit st) {| w_store := s; w_sent := w_sent (c_world c) |}
            cap OpKind.ChannelPublish
            (ChannelPublishBody key channel id (payload_hash outcome (fun _ => env_bytes))) outcome
            (fun _ _ => {| bp_body_ref := key; bp_bytes := length b; bp_sha256 := hex_encode (sha256 b) |}) in
          (with_world c w, answer)
      end
  end.

Definition blob_fetch (st : WorkerState) (s : Svc) (cap : CapToken) (owner key : string)
    : Svc * result ApiError (string * bytes) :=
  let '(s, answer) := client_get s cap key in
  (s, let? o := map_err storage_error answer in
      let? kek := development_key st in
      let? plaintext := map_err (fun _ => err_500 "channel_envelope_decrypt")
        (decrypt kek (obj_bytes o) (object_aad owner key)) in
      ok_or (err_500 "channel_blob_decode") (decode_blob_plaintext plaintext)).

Definition channel_blob_get (st : WorkerState) (m : Moment) (c : ChannelState Svc) (req : BlobGetRequest)
    : ChannelState Svc * result ApiError BlobGetResponse :=
  let cap := bg_cap req in
  let owner := normalize_omni (operator_omni (payload cap)) in
  match (let? channel := channel_verify st m cap ChannelSubscribe in
         let? ref := ok_or (err_400 "channel_blob_ref_shape") (parse_blob_ref (bg_body_ref req)) in
         guard! String.eqb ref.1.1 owner && String.eqb ref.1.2 channel else err_403 "blob_ref_out_of_feed" ;;
         Ok channel) with
  | Err e => (c, Err e)
  | Ok channel =>
      let '(w, fetched) := on_store (c_world c) (blob_fetch st (w_store (c_world c)) cap owner (bg_body_ref req)) in
      let '(w, answer) := audited service_audit (audit st) w cap OpKind.ChannelSubscribe
        (ChannelSubscribeBody channel (bg_body_ref req) (if is_ok fetched then 1 else 0) (cap_hash cap)) fetched
        (fun a _ => {| bg_content_type := a.1; bg_bytes_b64 := b64_encode a.2; bg_sha256 := hex_encode (sha256 a.2) |}) in
      (with_world c w, answer)
  end.

(** ** Polling *)

(** One page, or every page when a tail is asked for: then only its last keys are kept
    as the pages go by.  [None] when the fuel runs out. *)
Fixpoint list_pages (fuel : nat) (s : Svc) (cap : CapToken) (prefix : string) (tail : option nat)
    (continuation : option string) (keys : list string) : option (Svc * result ApiError (list string)) :=
  match fuel with
  | O => None
  | S fuel =>
      let '(s, answer) := client_list s cap prefix continuation in
      match map_err storage_error answer with
      | Err e => Some (s, Err e)
      | Ok page =>
          let keys := (keys ++ page_keys page)%list in
          let keys := match tail with Some n => keep_tail keys n | None => keys end in
          match tail, next page with
          | None, _ | _, None => Some (s, Ok keys)
          | Some _, Some c => list_pages fuel s cap prefix tail (Some c) keys
          end
      end
  end.

Definition read_event (st : WorkerState) (s : Svc) (cap : CapToken) (owner key : string)
    : Svc * result ApiError ChannelEvent :=
  let '(s, answer) := client_get s cap key in
  (s, let? o := map_err storage_error answer in
      let? kek := development_key st in
      let? plaintext := map_err (fun _ => err_500 "channel_envelope_decrypt")
        (decrypt kek (obj_bytes o) (object_aad owner key)) in
      ok_or (err_500 "channel_event_decode") (event_from_slice plaintext)).

Fixpoint read_events (st : WorkerState) (s : Svc) (cap : CapToken) (owner : string) (keys : list string)
    (events : list ChannelEvent) : Svc * result ApiError (list ChannelEvent) :=
  match keys with
  | [] => (s, Ok events)
  | key :: keys =>
      let '(s, read) := read_event st s cap owner key in
      match read with
      | Err e => (s, Err e)
      | Ok ev => read_events st s cap owner keys (events ++ [ev])%list
      end
  end.

Definition tail_count (tail : option Z) : option nat :=
  n ← tail; if n =? 0 then None else Some (Z.to_nat n).

Definition channel_list_after (fuel : nat) (st : WorkerState) (s : Svc) (cap : CapToken) (owner channel after : string)
    (tail : option Z) : option (Svc * result ApiError (list ChannelEvent)) :=
  let prefix := feed_prefix owner channel in
  if negb (String.eqb after "") && negb (starts_with prefix after)
  then Some (s, Err (err_400 "channel_cursor_out_of_scope"))
  else
    '(s, listed) ← list_pages fuel s cap prefix (tail_count tail)
                     (if String.eqb after "" then None else Some after) [];
    Some (match listed with
          | Err e => (s, Err e)
          | Ok keys => read_events st s cap owner keys []
          end).

Definition poll_cursor (owner channel after : string) (events : list ChannelEvent) : string :=
  match last events with Some e => feed_key owner channel (event_id e) | None => after end.

(** A listing that fails ends the poll before any audit row. *)
Definition channel_poll (fuel : nat) (st : WorkerState) (m : Moment) (waited : Svc -> Svc) (c : ChannelState Svc)
    (req : PollRequest) : option (ChannelState Svc * result ApiError PollResponse) :=
  let cap := po_cap req in
  match channel_verify st m cap ChannelSubscribe with
  | Err e => Some (c, Err e)
  | Ok channel =>
      let owner := normalize_omni (operator_omni (payload cap)) in
      let listing s := channel_list_after fuel st s cap owner channel (po_after req) (po_tail req) in
      '(s, listed) ← listing (w_store (c_world c));
      '(s, listed) ← match listed with
                     | Ok [] => if 0 <? po_wait_seconds req then listing (waited s) else Some (s, listed)
                     | _ => Some (s, listed)
                     end;
      let w := {| w_store := s; w_sent := w_sent (c_world c) |} in
      Some (match listed with
            | Err e => (with_world c w, Err e)
            | Ok events =>
                let '(w, answer) := audited service_audit (audit st) w cap OpKind.ChannelSubscribe
                  (ChannelSubscribeBody channel (po_after req) (Z.of_nat (length events)) (cap_hash cap)) (Ok events)
                  (fun events h => {| po_events := events;
                                      po_cursor := poll_cursor owner channel (po_after req) events;
                                      po_audit_hash := h |}) in
                (with_world c w, answer)
            end)
  end.

(** ** Teardown *)

Definition channel_teardown_inner (fuel : nat) (s : Svc) (cap : CapToken) (owner channel : string)
    : option (Svc * result ApiError nat) :=
  '(s, feed) ← delete_prefix fuel s cap (feed_prefix owner channel) None 0;
  match feed with
  | Err e => Some (s, Err e)
  | Ok n =>
      '(s, blobs) ← delete_prefix fuel s cap (blob_prefix owner channel) None 0;
      Some (s, let? k := blobs in Ok (n + k)%nat)
  end.

Definition channel_teardown (fuel : nat) (st : WorkerState) (m : Moment) (c : ChannelState Svc) (cap : CapToken)
    : option (ChannelState Svc * result ApiError TeardownResponse) :=
  let owner := normalize_omni (operator_omni (payload cap)) in
  match (let? _ := worker_verify rpc st m cap Teardown Channel in
         guard! String.eqb owner (normalize_omni (actor_omni (payload cap))) else err_403 "channel_not_owner" ;;
         channel_id_from_service (service (payload cap))) with
  | Err e => Some (c, Err e)
  | Ok channel =>
      '(w, answer) ← torn_down service_audit st (c_world c) cap OpKind.ChannelTeardown
        (ChannelTeardownBody channel (actor_omni (payload cap)))
        (channel_teardown_inner fuel (w_store (c_world c)) cap owner channel);
      Some (with_world c w, answer)
  end.
End ChannelWorker.
