(* ===== verification/FeedOrder.v ===== *)
(** * The order of a feed

    The ids of [ChannelWorker.make_id] compared as texts: zero-padded numerals of one
    width are ordered as the numbers they write, so ids are ordered by the millisecond
    and then by the counter, and the keys of a feed as the ids in them. *)
From stdpp Require Import pretty.
From S2P Require Import Prelude RustStr StrFacts Numerals SessionScope.
From S2P Require Import Capability DeviceCore Crates ObjectStore LocalStore ObjectClient StorageWorker Emitter Vault ChannelWorker.

Open Scope string_scope.
Open Scope Z_scope.

(** ** Texts of one length *)

Lemma byte_of_lt a b : byte_of a < byte_of b <-> Ascii.compare a b = Lt.
Proof. unfold byte_of, Ascii.compare. rewrite N.compare_lt_iff. lia. Qed.

Lemma ascii_compare_refl c : Ascii.compare c c = Eq.
Proof. unfold Ascii.compare. apply N.compare_refl. Qed.

Lemma str_lt_cons a b s t :
  str_lt (String a s) (String b t) <-> byte_of a < byte_of b \/ a = b /\ str_lt s t.
Proof.
  rewrite byte_of_lt. unfold str_lt, str_gt, String.leb. cbn [String.compare].
  rewrite (Ascii.compare_antisym a b).
  destruct (Ascii.compare b a) eqn:E; cbn [CompOpp].
  - apply Ascii.compare_eq_iff in E as ->. split; [by right | by intros [|[_ ?]]].
  - split; [done|]. intros [|[-> _]]; [done|]. by rewrite ascii_compare_refl in E.
  - split; [by left | done].
Qed.

Lemma append_cons c p a : String c p +:+ a = String c (p +:+ a).
Proof. done. Qed.

Lemma str_lt_prefix p a b : str_lt (p +:+ a) (p +:+ b) <-> str_lt a b.
Proof.
  induction p as [|c p IH]; [done|]. rewrite !append_cons, str_lt_cons, IH.
  split; [|by right]. intros [|[_ ?]]; [lia | done].
Qed.

Lemma str_lt_app a b s t : String.length a = String.length b ->
  str_lt (a +:+ s) (b +:+ t) <-> str_lt a b \/ a = b /\ str_lt s t.
Proof.
  revert b. induction a as [|c a IH]; intros [|d b] Hl; try done.
  - cbn. split; [by right|]. intros [Hlt|[_ ?]]; [|done]. by destruct (irreflexivity str_lt "").
  - rewrite !append_cons, !str_lt_cons, IH by (cbn in Hl; lia). naive_solver.
Qed.

(** ** Numerals *)

Section Number.
Variables (radix : Z) (to_digit : Ascii.ascii -> option Z).

Definition digit_value (c : Ascii.ascii) : Z := default 0 (to_digit c).

Fixpoint number (acc : Z) (s : string) : Z :=
  match s with "" => acc | String c s => number (acc * radix + digit_value c) s end.

Hypothesis radix_pos : 0 < radix.
(** Digits are ordered as the numbers they stand for. *)
Hypothesis digit_range : forall c, is_Some (to_digit c) -> 0 <= digit_value c < radix.
Hypothesis digit_order : forall a b, is_Some (to_digit a) -> is_Some (to_digit b) ->
  (digit_value a < digit_value b <-> byte_of a < byte_of b).

Definition digits (s : string) : Prop := string_all (fun c => is_some (to_digit c)) s = true.

Lemma number_shift s : forall acc,
  number acc s = acc * radix ^ Z.of_nat (String.length s) + number 0 s.
Proof using radix_pos.
  induction s as [|c s IH]; intros acc; [cbn; lia|].
  cbn [number String.length]. rewrite IH, (IH (0 * radix + _)).
  rewrite Nat2Z.inj_succ, Z.pow_succ_r by lia. lia.
Qed.

Lemma number_bound s : digits s -> 0 <= number 0 s < radix ^ Z.of_nat (String.length s).
Proof using radix_pos digit_range.
  induction s as [|c s IH]; [cbn; lia|]. intros [Hc Hs]%andb_true_iff.
  specialize (IH Hs). apply is_some_true in Hc. specialize (digit_range c Hc).
  cbn [number String.length]. rewrite number_shift, Nat2Z.inj_succ, Z.pow_succ_r by lia. nia.
Qed.

Lemma digits_cons c s : digits (String c s) <-> is_Some (to_digit c) /\ digits s.
Proof. unfold digits. cbn [string_all]. by rewrite andb_true_iff, is_some_true. Qed.

Lemma number_order s : forall t, digits s -> digits t -> String.length s = String.length t ->
  (str_lt s t <-> number 0 s < number 0 t).
Proof using radix_pos digit_range digit_order.
  induction s as [|a s IH]; intros [|b t]; try done.
  intros [Ha Hs]%digits_cons [Hb Ht]%digits_cons [= Hl].
  rewrite str_lt_cons, (IH t) by done. cbn [number]. rewrite (number_shift s (0 * radix + _)), (number_shift t (0 * radix + _)), Hl.
  pose proof (number_bound s Hs) as Bs. pose proof (number_bound t Ht) as Bt. rewrite Hl in Bs.
  pose proof (digit_order a b Ha Hb) as Hab. pose proof (digit_order b a Hb Ha) as Hba.
  assert (Heq : a = b <-> digit_value a = digit_value b).
  { split; [by intros ->|]. intros E.
    destruct (Z.lt_trichotomy (byte_of a) (byte_of b)) as [Hlt|[Hbyte|Hlt]];
      [apply Hab in Hlt; lia | | apply Hba in Hlt; lia].
    rewrite <-(ascii_N_embedding a), <-(ascii_N_embedding b). f_equal. unfold byte_of in Hbyte. lia. }
  set (R := radix ^ Z.of_nat (String.length t)) in *. rewrite Heq. split.
  - intros [Hlt|[E Hlt]]; [apply Hab in Hlt; clear -Hlt Bs Bt; nia | rewrite E; lia].
  - intros Hlt. destruct (Z.lt_trichotomy (digit_value a) (digit_value b)) as [?|[E|?]]; [left; by apply Hab| |clear -H Hlt Bs Bt; nia].
    right. split; [done|]. rewrite E in Hlt. lia.
Qed.

Lemma number_zeros k s : to_digit "0"%char = Some 0 ->
  number 0 (string_of_list_ascii (repeat "0"%char k) +:+ s) = number 0 s.
Proof using.
  intros H0. induction k as [|k IH]; [done|]. cbn [repeat string_of_list_ascii]. rewrite append_cons. cbn [number].
  unfold digit_value at 1. rewrite H0. exact IH.
Qed.

Lemma digits_zeros k s : to_digit "0"%char = Some 0 -> digits s ->
  digits (string_of_list_ascii (repeat "0"%char k) +:+ s).
Proof using.
  intros H0 Hs. induction k as [|k IH]; [done|]. cbn [repeat string_of_list_ascii]. rewrite append_cons.
  apply digits_cons. by rewrite H0.
Qed.
End Number.

Lemma zero_pad_length width s : (String.length s <= width)%nat -> String.length (zero_pad width s) = width.
Proof.
  intros Hl. unfold zero_pad. rewrite length_app_str.
  assert (Hz : forall k, String.length (string_of_list_ascii (repeat "0"%char k)) = k)
    by (induction k as [|k IH]; [done|]; cbn; by rewrite IH).
  rewrite Hz. lia.
Qed.

(** ** The two numerals of an id *)

Lemma dec_digit_facts :
  (forall c, is_Some (dec_value c) -> 0 <= digit_value dec_value c < 10) /\
  (forall a b, is_Some (dec_value a) -> is_Some (dec_value b) ->
     (digit_value dec_value a < digit_value dec_value b <-> byte_of a < byte_of b)).
Proof.
  unfold digit_value, dec_value. split.
  - intros c. destruct (is_ascii_digit c) eqn:E; [|by intros [? ?]]. intros _. cbn.
    pose proof (ascii_forall (fun c => negb (is_ascii_digit c) || ((48 <=? byte_of c) && (byte_of c <? 58)))
      eq_refl c) as Hc. cbv beta in Hc. rewrite E in Hc. cbn in Hc. reflect_bools. lia.
  - intros a b. destruct (is_ascii_digit a); [|by intros [? ?]].
    destruct (is_ascii_digit b); [|by intros _ [? ?]]. intros _ _. cbn. lia.
Qed.

(** The digits as [format!("{:x}")] writes them. *)
Definition lower_hex_value (c : Ascii.ascii) : option Z :=
  if is_ascii_digit c then Some (byte_of c - 48)
  else if in_range "a"%char "f"%char c then Some (byte_of c - 87) else None.

Lemma hex_digit_facts :
  (forall c, is_Some (lower_hex_value c) -> 0 <= digit_value lower_hex_value c < 16) /\
  (forall a b, is_Some (lower_hex_value a) -> is_Some (lower_hex_value b) ->
     (digit_value lower_hex_value a < digit_value lower_hex_value b <-> byte_of a < byte_of b)).
Proof.
  assert (Hc : forall c, match lower_hex_value c with
    | Some v => 0 <= v < 16 /\ (v < 10 /\ byte_of c = v + 48 \/ 10 <= v /\ byte_of c = v + 87)
    | None => True end).
  { intros c. pose proof (ascii_forall (fun c => match lower_hex_value c with
      | Some v => (0 <=? v) && (v <? 16)
                  && ((v <? 10) && (byte_of c =? v + 48) || (10 <=? v) && (byte_of c =? v + 87))
      | None => true end) eq_refl c) as H. cbv beta in H.
    destruct (lower_hex_value c); [|done]. reflect_bools. split; [lia|].
    destruct H0; reflect_bools; lia. }
  unfold digit_value. split.
  - intros c [v Hv]. specialize (Hc c). rewrite Hv in *. cbn. tauto.
  - intros a b [v Hv] [u Hu]. pose proof (Hc a). pose proof (Hc b). rewrite Hv, Hu in *. cbn. lia.
Qed.

Lemma digits_radix_number radix max to_digit s : forall acc n,
  digits_radix radix max to_digit acc s = Ok n ->
  digits to_digit s /\ number radix to_digit acc s = n.
Proof.
  induction s as [|c s IH]; intros acc n; cbn [digits_radix number]; [by intros [= <-]|].
  destruct (to_digit c) as [d|] eqn:E; [|done]. cbv zeta.
  destruct (acc * radix + d <=? max); [|done]. intros [Hs Hn]%IH.
  rewrite digits_cons. unfold digit_value. rewrite E. by split_and!.
Qed.

Lemma dec_number n : 0 <= n -> digits dec_value (dec n) /\ number 10 dec_value 0 (dec n) = n.
Proof.
  intros Hn. pose proof (from_dec n n ltac:(lia)) as H. pose proof (dec_digits n) as Hd.
  unfold from_str_radix in H. destruct (dec n) as [|c s] eqn:E; [done|].
  assert (Hp : Ascii.eqb c "+"%char = false).
  { apply Ascii.eqb_neq. intros ->. done. }
  rewrite Hp in H. case_match; [done|]. by apply digits_radix_number in H.
Qed.

Lemma pretty_length k : forall x s, (x < 10 ^ N.of_nat k)%N ->
  (String.length (pretty_N_go x s) <= k + String.length s)%nat.
Proof.
  induction k as [|k IH]; intros x s Hx.
  { assert (x = 0%N) as -> by (cbn in Hx; lia). rewrite pretty_N_go_0. lia. }
  destruct (base.decide (x = 0%N)) as [->|Hne]; [rewrite pretty_N_go_0; lia|].
  rewrite pretty_N_go_step by lia. rewrite IH; [cbn; lia|].
  apply N.Div0.div_lt_upper_bound. rewrite Nat2N.inj_succ, N.pow_succ_r' in Hx. lia.
Qed.

Lemma dec_length k n : (0 < k)%nat -> 0 <= n < 10 ^ Z.of_nat k -> (String.length (dec n) <= k)%nat.
Proof.
  intros Hk Hn. unfold dec, pretty, pretty_N. case_decide; [cbn; lia|].
  pose proof (pretty_length k (Z.to_N n) "") as H'. cbn [String.length] in H'. rewrite Nat.add_0_r in H'.
  apply H'. apply N2Z.inj_lt. rewrite Z2N.id, N2Z.inj_pow, nat_N_Z by lia. exact (proj2 Hn).
Qed.

Lemma hex_digits_shape fuel : forall k n acc,
  (0 < k <= fuel)%nat -> 0 <= n < 16 ^ Z.of_nat k -> digits lower_hex_value acc ->
  (String.length (hex_digits fuel n acc) <= k + String.length acc)%nat /\
  digits lower_hex_value (hex_digits fuel n acc) /\
  number 16 lower_hex_value 0 (hex_digits fuel n acc)
    = n * 16 ^ Z.of_nat (String.length acc) + number 16 lower_hex_value 0 acc.
Proof.
  induction fuel as [|fuel IH]; intros k n acc Hk Hn Hacc; [lia|]. cbn [hex_digits].
  assert (Hd : lower_hex_value (hex_nibble (n mod 16)) = Some (n mod 16)).
  { assert (Hall : forallb (fun i => match lower_hex_value (hex_nibble (Z.of_nat i)) with
      | Some v => v =? Z.of_nat i | None => false end) (seq 0 16) = true) by reflexivity.
    pose proof (Z.mod_pos_bound n 16 ltac:(lia)) as Hm.
    rewrite forallb_forall in Hall. specialize (Hall (Z.to_nat (n mod 16))).
    rewrite in_seq, Z2Nat.id in Hall by lia. specialize (Hall ltac:(lia)).
    destruct (lower_hex_value _); [|done]. reflect_bools. by subst. }
  set (acc' := String (hex_nibble (n mod 16)) acc).
  assert (Hacc' : digits lower_hex_value acc') by (apply digits_cons; rewrite Hd; eauto).
  assert (Hnum : number 16 lower_hex_value 0 acc'
    = (n mod 16) * 16 ^ Z.of_nat (String.length acc) + number 16 lower_hex_value 0 acc).
  { unfold acc'. cbn [number]. unfold digit_value at 1. rewrite Hd. cbn [default from_option id].
    rewrite number_shift by lia. lia. }
  pose proof (Z.div_mod n 16 ltac:(lia)) as Hdm.
  assert (Hpow : 16 ^ Z.of_nat (String.length acc') = 16 * 16 ^ Z.of_nat (String.length acc)).
  { unfold acc'. cbn [String.length]. by rewrite Nat2Z.inj_succ, Z.pow_succ_r by lia. }
  destruct (n / 16 =? 0) eqn:E; reflect_bools.
  - split_and!; [unfold acc'; cbn; lia | done |]. rewrite Hnum. replace (n mod 16) with n by lia. done.
  - assert (Hpos : 0 <= n / 16) by (apply Z.div_pos; lia).
    destruct k as [|[|k]]; [lia | |].
    { change (16 ^ Z.of_nat 1) with 16 in Hn. rewrite Z.div_small in E by lia. done. }
    destruct (IH (S k) (n / 16) acc') as (Hl & Hs & Hv); [lia | | done |].
    { split; [done|]. apply Z.div_lt_upper_bound; [lia|].
      replace (Z.of_nat (S (S k))) with (Z.succ (Z.of_nat (S k))) in Hn by lia.
      rewrite Z.pow_succ_r in Hn by lia. lia. }
    split_and!; [assert (String.length acc' = S (String.length acc)) by done; lia | done |].
    rewrite Hv, Hnum, Hpow. nia.
Qed.

(** ** Ids and keys *)

Definition id_typed (millis seq : Z) : Prop := 0 <= millis < 10 ^ 13 /\ 0 <= seq < 2 ^ 64.

Lemma millis_numeral millis : 0 <= millis < 10 ^ 13 ->
  String.length (zero_pad 13 (dec millis)) = 13%nat /\
  digits dec_value (zero_pad 13 (dec millis)) /\
  number 10 dec_value 0 (zero_pad 13 (dec millis)) = millis.
Proof.
  intros Hm. destruct (dec_number millis) as [Hd Hn]; [lia|]. split_and!.
  - apply zero_pad_length, (dec_length 13); [lia | done].
  - by apply digits_zeros.
  - unfold zero_pad. by rewrite number_zeros.
Qed.

Lemma seq_numeral seq : 0 <= seq < 2 ^ 64 ->
  String.length (zero_pad 16 (lower_hex seq)) = 16%nat /\
  digits lower_hex_value (zero_pad 16 (lower_hex seq)) /\
  number 16 lower_hex_value 0 (zero_pad 16 (lower_hex seq)) = seq.
Proof.
  intros Hs. destruct (hex_digits_shape 32 16 seq "") as (Hl & Hd & Hn); [lia | | done |].
  { change (16 ^ Z.of_nat 16) with (2 ^ 64). exact Hs. }
  unfold lower_hex. cbn [String.length number] in *. split_and!.
  - apply zero_pad_length. lia.
  - by apply digits_zeros.
  - unfold zero_pad. rewrite number_zeros by done. rewrite Hn. change (16 ^ Z.of_nat 0) with 1. lia.
Qed.

(** Ids are ordered by the millisecond, then by the counter. *)
Lemma make_id_order ms seq ms' seq' : id_typed ms seq -> id_typed ms' seq' ->
  (str_lt (make_id ms seq) (make_id ms' seq') <-> ms < ms' \/ ms = ms' /\ seq < seq').
Proof.
  intros [Hm Hs] [Hm' Hs']. unfold make_id.
  destruct (millis_numeral ms Hm) as (Hl & Hd & Hn), (millis_numeral ms' Hm') as (Hl' & Hd' & Hn').
  destruct (seq_numeral seq Hs) as (Kl & Kd & Kn), (seq_numeral seq' Hs') as (Kl' & Kd' & Kn').
  rewrite str_lt_app, str_lt_prefix by congruence.
  destruct dec_digit_facts as [Dr Do], hex_digit_facts as [Xr Xo].
  rewrite (number_order 10 dec_value ltac:(lia) Dr Do) by congruence.
  rewrite (number_order 16 lower_hex_value ltac:(lia) Xr Xo) by congruence. rewrite Hn, Hn', Kn, Kn'.
  assert (Heq : zero_pad 13 (dec ms) = zero_pad 13 (dec ms') <-> ms = ms').
  { split; [|by intros ->]. intros E. rewrite <-Hn, <-Hn'. by rewrite E. }
  rewrite Heq. done.
Qed.

Lemma make_id_length ms seq : id_typed ms seq -> String.length (make_id ms seq) = 30%nat.
Proof.
  intros [Hm Hs]. destruct (millis_numeral ms Hm) as (Hl & _ & _), (seq_numeral seq Hs) as (Kl & _ & _).
  unfold make_id. rewrite !length_app_str, Hl, Kl. done.
Qed.

Lemma feed_key_prefix owner channel id : feed_key owner channel id = feed_prefix owner channel +:+ id +:+ ".enc".
Proof. unfold feed_key, feed_prefix. by rewrite <-!app_assoc_str. Qed.

(** Keys of one feed, for ids of one length, are ordered as the ids. *)
Lemma feed_key_order owner channel id id' : String.length id = String.length id' ->
  (str_lt (feed_key owner channel id) (feed_key owner channel id') <-> str_lt id id').
Proof.
  intros Hl. rewrite !feed_key_prefix, str_lt_prefix, str_lt_app by done. split; [|by left].
  intros [|[-> H]]; [done|]. by apply (irreflexivity str_lt) in H.
Qed.

Lemma feed_key_inj owner channel id id' : feed_key owner channel id = feed_key owner channel id' -> id = id'.
Proof.
  rewrite !feed_key_prefix. intros E%(inj (String.append _)).
  apply (f_equal (strip_suffix ".enc")) in E.
  assert (H : forall x, strip_suffix ".enc" (x +:+ ".enc") = Some x).
  { intros x. by apply strip_suffix_spec. }
  rewrite !H in E. congruence.
Qed.
