(* ===== verification/Outbound.v ===== *)
(** * Deliveries back to the members

    [crates/agentkeys-worker-channel-weixin/src/outbound.rs] with the cursors of
    [device.rs] and the reply tokens of [ilink_loop.rs]: which feeds the gate reads, who
    an event goes to, the send of each transport, the subscriber of one feed and the
    supervisor over them.  What the registry, the relay memory and the transport's files
    say when an event is handled is its view; the answer of a poll is an argument. *)
From stdpp Require Import gmap.
From S2P Require Import ClearSigning Emitter Vault ChannelWorker.
From S2P Require Import Prelude RustStr StrFacts Crates Json Utf8 SessionScope Channels Audience Router Asks FeedHop.

Open Scope string_scope.
Open Scope Z_scope.

Definition RECONCILE_EVERY_SECS : Z := 30.
Definition POLL_WAIT_SECONDS : Z := 20.
Definition UNGRANTED_RETRY_SECS : Z := 300.
Definition ERROR_RETRY_SECS : Z := 20.

Inductive WeixinTransport := Oa | Ilink | Telegram.
#[export] Instance WeixinTransport_eq_dec : EqDecision WeixinTransport.
Proof. solve_decision. Defined.

Definition transport_kind (t : WeixinTransport) : TransportKind := Aggregating.

(** The name contacts are bound under. *)
Definition namespace (t : WeixinTransport) : string :=
  match t with Telegram => "telegram" | _ => "weixin" end.

(** ** Feeds and audiences *)

Definition on_transport (r : ContactRegistry) (transport : string) (m : ChannelMember) : bool :=
  match reg_contact r (m_contact m) with Some c => String.eqb (c_transport c) transport | None => false end.

(** [v.sort(); v.dedup()] *)
Definition sort_dedup (l : list string) : list string := merge_sort String.le (remove_dups l).

Definition feeds_for_transport (r : ContactRegistry) (transport : string) : list string :=
  sort_dedup (map doc_id (List.filter
    (fun d => existsb (fun m => m_read m && on_transport r transport m) (members d)) (channels r))).

Definition audience_for (r : ContactRegistry) (transport feed : string) : list string :=
  match reg_channel r feed with
  | None => []
  | Some doc =>
      map c_transport_id (List.filter (fun c => String.eqb (c_transport c) transport)
        (omap (fun m => reg_contact r (m_contact m)) (List.filter m_read (members doc))))
  end.

Definition deliverable (ev : ChannelEvent) : bool :=
  bool_decide (direction ev = Out) && negb (bool_decide (partial ev = Some true))
  && bool_decide (SessionScope.kind ev = Text)
  && match body ev with Some b => negb (String.eqb b "") | None => false end.

Section Reading.
Context `{Base64, SerdeJson}.

Definition decode_text (ev : ChannelEvent) : option string :=
  b64 ← body ev; b ← b64_decode b64; from_utf8 b.

Definition lifecycle_stage (ev : ChannelEvent) : option string :=
  text ← decode_text ev;
  v ← match json_from_slice (as_bytes text) with Ok v => Some v | Err _ => None end;
  s ← get v "stage"; as_str s.
End Reading.

(** ** One send *)

Record MemberBot := { bot_token : string; bot_base_url : string; bot_id : string }.

(** The state file of a bot's loop: whose it is, and the reply token of each user. *)
Record IlinkPersist := { bot_key_of : string; context_tokens : gmap string string }.

Definition OWNER_CONTACT_ID : string := "self-owner".

Definition file_char (c : Ascii.ascii) : Ascii.ascii :=
  if is_ascii_alphanumeric c || Ascii.eqb c "-"%char || Ascii.eqb c "_"%char || Ascii.eqb c "."%char
  then c else "_"%char.

(** Each other character, whatever its width, becomes one underscore. *)
Definition member_state_file (base contact_id : string) : string :=
  base +:+ "." +:+ concat_chars (map (fun ch => match ch with
                                               | String c "" => String (file_char c) ""
                                               | _ => "_"
                                               end) (chars contact_id)).

(** ** The gate as an event finds it *)

Record TransportState := {
  bots : gmap string MemberBot; ilink_files : string -> IlinkPersist; chat_ids : gmap string Z }.

Record OutboundConfig := {
  transport : WeixinTransport; ilink_base_url : string; ilink_state_file : string;
  telegram_bot_token : option string; telegram_api_base : string }.

Record GateView := { v_registry : ContactRegistry; v_device : DeviceState; v_transport : TransportState }.

Inductive SendOp :=
| IlinkSend (base_url token to text context_token : string)
| TelegramSend (api_base token : string) (chat_id : Z) (text : string).

Definition send_text_of (s : SendOp) : string :=
  match s with IlinkSend _ _ _ t _ | TelegramSend _ _ _ t => t end.

Section Sending.
Context `{HexCodec, Sha256}.

Definition bot_key (token : string) : string := hex_encode (take 8 (sha256 (as_bytes token))).

Definition load_for (files : string -> IlinkPersist) (path token : string) : IlinkPersist :=
  let p := files path in
  if String.eqb (bot_key_of p) "" then {| bot_key_of := bot_key token; context_tokens := context_tokens p |}
  else if negb (String.eqb (bot_key_of p) (bot_key token))
  then {| bot_key_of := bot_key token; context_tokens := ∅ |}
  else p.

(** The member's own bot, or the owner's. *)
Definition bot_for (r : ContactRegistry) (ts : TransportState) (transport_id : string)
    : option (string * MemberBot) :=
  let owner := c ← List.find (fun c => String.eqb (c_transport c) "weixin"
                                       && String.eqb (c_transport_id c) transport_id) (bound r);
               b ← bots ts !! c_id c; Some (c_id c, b) in
  or_else owner (b ← bots ts !! OWNER_CONTACT_ID; Some (OWNER_CONTACT_ID, b)).

(** The request a text for a member becomes, or why there is none. *)
Definition send_op (cfg : OutboundConfig) (v : GateView) (transport_id text : string) : result string SendOp :=
  let ts := v_transport v in
  match transport cfg with
  | Ilink =>
      let? (contact, bot) := ok_or "iLink offline (no bot token)" (bot_for (v_registry v) ts transport_id) in
      let base := if String.eqb (bot_base_url bot) "" then ilink_base_url cfg else bot_base_url bot in
      let file := if String.eqb contact OWNER_CONTACT_ID then ilink_state_file cfg
                  else member_state_file (ilink_state_file cfg) contact in
      let? ct := ok_or ("no reply token for this recipient on bot "
          +:+ (if String.eqb (bot_id bot) "" then "(legacy)" else bot_id bot)
          +:+ " yet — deliverable only after their first message")
        (context_tokens (load_for (ilink_files ts) file (bot_token bot)) !! transport_id) in
      Ok (IlinkSend base (bot_token bot) transport_id text ct)
  | Telegram =>
      let? token := ok_or "telegram offline (no bot token)" (telegram_bot_token cfg) in
      let? chat := ok_or ("no chat id for " +:+ transport_id)
        (or_else (chat_ids ts !! transport_id) (parse_i64 transport_id)) in
      Ok (TelegramSend (telegram_api_base cfg) token chat text)
  | Oa => Err "the OA transport has no async send path yet (app-secret template send)"
  end.

(** The sends so far and the answer of the transport to the next. *)
Variable answers : list SendOp -> SendOp -> result string unit.

Definition deliver (cfg : OutboundConfig) (v : GateView) (sends : list SendOp) (transport_id text : string)
    : list SendOp * result string unit :=
  match send_op cfg v transport_id text with
  | Err e => (sends, Err e)
  | Ok op => ((sends ++ [op])%list, answers sends op)
  end.

(** ** The subscriber of one feed *)

(** What outlives the task: the stages the gate was told, the cursors it keeps on
    disk, and what it sent. *)
Record Gate := { g_stages : AppStages; g_cursors : gmap string string; g_sends : list SendOp }.

Record FeedTask := { ft_cursor : option string; ft_priming : bool; ft_announced : bool }.

Definition start_task (g : Gate) (feed : string) : FeedTask :=
  {| ft_cursor := g_cursors g !! feed; ft_priming := is_none (g_cursors g !! feed); ft_announced := false |}.

(** The cursor and the wait of the next poll. *)
Definition poll_of (t : FeedTask) : string * Z :=
  (default "" (ft_cursor t), if ft_priming t then 0 else POLL_WAIT_SECONDS).

Definition targets (cfg : OutboundConfig) (v : GateView) (feed : string) (ev : ChannelEvent) : list string :=
  match correlation ev with
  | Some c => match lookup_correlation (v_device v) c with
              | Some row => [co_transport_id row]
              | None => []
              end
  | None => audience_for (v_registry v) (namespace (transport cfg)) feed
  end.

Definition channel_name (v : GateView) (feed : string) : string :=
  match reg_channel (v_registry v) feed with Some d => display_name d | None => feed end.

Fixpoint deliver_all (cfg : OutboundConfig) (v : GateView) (sends : list SendOp) (text : string)
    (tos : list string) : list SendOp :=
  match tos with
  | [] => sends
  | to :: tos => deliver_all cfg v (deliver cfg v sends to text).1 text tos
  end.

Context `{Base64, SerdeJson}.

Definition handle_event (cfg : OutboundConfig) (feed : string) (v : GateView) (g : Gate) (ev : ChannelEvent) : Gate :=
  if bool_decide (SessionScope.kind ev = Lifecycle) then
    match lifecycle_stage ev with
    | Some stage => {| g_stages := note_app_stage (g_stages g) feed stage (ts_millis ev);
                       g_cursors := g_cursors g; g_sends := g_sends g |}
    | None => g
    end
  else if negb (deliverable ev) then g
  else
    match decode_text ev with
    | None => g
    | Some text =>
        let labelled := label (transport_kind (transport cfg)) (channel_name v feed) text in
        {| g_stages := g_stages g; g_cursors := g_cursors g;
           g_sends := deliver_all cfg v (g_sends g) labelled (targets cfg v feed ev) |}
    end.

(** Each event with the gate as it finds it. *)
Fixpoint handle_events (cfg : OutboundConfig) (feed : string) (views : nat -> GateView) (g : Gate)
    (evs : list ChannelEvent) : Gate :=
  match evs with
  | [] => g
  | ev :: evs => handle_events cfg feed (fun i => views (S i)) (handle_event cfg feed (views 0%nat) g ev) evs
  end.

Definition set_cursor (feed cursor : string) (g : Gate) : Gate :=
  {| g_stages := g_stages g; g_cursors := <[feed := cursor]> (g_cursors g); g_sends := g_sends g |}.

(** [next] is the cursor the poll answered with. *)
Definition move_cursor (feed next : string) (t : FeedTask) (g : Gate) : FeedTask * Gate :=
  if String.eqb next "" || bool_decide (ft_cursor t = Some next)
  then ({| ft_cursor := ft_cursor t; ft_priming := false; ft_announced := false |}, g)
  else ({| ft_cursor := Some next; ft_priming := false; ft_announced := false |}, set_cursor feed next g).

Definition ungranted (msg : string) : bool :=
  contains "not_in_scope" msg || contains "403" msg || contains "service_not_in_scope" msg
  || contains "cap mint" msg.

(** One turn of the loop: the task, the gate, and the pause before the next turn. *)
Definition feed_turn (cfg : OutboundConfig) (feed : string) (views : nat -> GateView) (t : FeedTask) (g : Gate)
    (polled : result string (list ChannelEvent * string)) : FeedTask * Gate * Z :=
  match polled with
  | Ok (events, next) =>
      let g := if ft_priming t then g else handle_events cfg feed views g events in
      (move_cursor feed next t g, 0)
  | Err msg =>
      if ungranted msg
      then ({| ft_cursor := ft_cursor t; ft_priming := ft_priming t; ft_announced := true |}, g, UNGRANTED_RETRY_SECS)
      else (t, g, ERROR_RETRY_SECS)
  end.
End Sending.

(** ** The supervisor *)

(** The feeds with a running task, and the blocker last announced. *)
Record Supervisor := { s_tasks : gset string; s_announced : option string }.

(** One turn: the feeds whose tasks stop and those whose tasks start. *)
Definition reconcile (blocker : option string) (r : ContactRegistry) (transport : string) (s : Supervisor)
    : Supervisor * gset string * gset string :=
  match blocker with
  | Some b => ({| s_tasks := s_tasks s; s_announced := Some b |}, ∅, ∅)
  | None =>
      let wanted := list_to_set (feeds_for_transport r transport) in
      let stale := s_tasks s ∖ wanted in
      let fresh := wanted ∖ s_tasks s in
      ({| s_tasks := (s_tasks s ∖ stale) ∪ fresh; s_announced := None |}, stale, fresh)
  end.

(** ** What the subscriber sends *)

Section OutboundFacts.
Context `{HexCodec, Sha256, Base64, SerdeJson}.
Variable answers : list SendOp -> SendOp -> result string unit.

(** The requests one text becomes: one for each recipient with a way to be reached. *)
Definition requests (cfg : OutboundConfig) (v : GateView) (text : string) (tos : list string) : list SendOp :=
  omap (fun to => match send_op cfg v to text with Ok op => Some op | Err _ => None end) tos.

(** The requests one event becomes. *)
Definition attempts (cfg : OutboundConfig) (feed : string) (v : GateView) (ev : ChannelEvent) : list SendOp :=
  if deliverable ev then
    match decode_text ev with
    | Some text => requests cfg v (label (transport_kind (transport cfg)) (channel_name v feed) text)
                     (targets cfg v feed ev)
    | None => []
    end
  else [].

(** Why a member may be written to about an event. *)
Definition rightful (cfg : OutboundConfig) (feed : string) (v : GateView) (ev : ChannelEvent) (to : string) : Prop :=
  match correlation ev with
  | Some c => exists row, row ∈ correlations (v_device v) /\ co_event row = c /\ co_transport_id row = to
  | None => exists doc m c,
      doc ∈ channels (v_registry v) /\ doc_id doc = trim feed /\ m ∈ members doc /\ m_read m = true /\
      c ∈ bound (v_registry v) /\ c_id c = m_contact m /\ c_transport c = namespace (transport cfg) /\
      c_transport_id c = to
  end.

Lemma deliver_all_sends cfg v text tos : forall sends,
  deliver_all answers cfg v sends text tos = (sends ++ requests cfg v text tos)%list.
Proof.
  induction tos as [|to tos IH]; intros sends; cbn [deliver_all requests omap list_omap]; [by rewrite app_nil_r|].
  rewrite IH. unfold deliver. destruct (send_op cfg v to text) as [op|e]; cbn [fst]; [|done].
  by rewrite <-app_assoc.
Qed.

Lemma deliverable_iff ev : deliverable ev = true <->
  direction ev = Out /\ partial ev <> Some true /\ SessionScope.kind ev = Text /\
  exists b, body ev = Some b /\ b <> "".
Proof.
  unfold deliverable. rewrite !andb_true_iff, negb_true_iff, !bool_decide_eq_true, bool_decide_eq_false.
  destruct (body ev) as [b|].
  - rewrite negb_true_iff, String.eqb_neq. split; [intros (((? & ?) & ?) & ?); eauto 10|].
    intros (? & ? & ? & x & [= <-] & ?). tauto.
  - split; [by intros [_ ?]|]. by intros (_ & _ & _ & b & ? & _).
Qed.

Lemma handle_event_sends cfg feed v g ev :
  g_sends (handle_event answers cfg feed v g ev) = (g_sends g ++ attempts cfg feed v ev)%list.
Proof.
  unfold handle_event, attempts. case_bool_decide as Hk.
  - assert (deliverable ev = false) as ->.
    { destruct (deliverable ev) eqn:E; [|done]. apply deliverable_iff in E as (_ & _ & E & _). by rewrite Hk in E. }
    rewrite app_nil_r. by destruct (lifecycle_stage ev).
  - destruct (deliverable ev); cbn [negb]; [|by rewrite app_nil_r].
    destruct (decode_text ev); [|by rewrite app_nil_r]. apply deliver_all_sends.
Qed.

Lemma handle_events_sends cfg feed evs : forall views g,
  g_sends (handle_events answers cfg feed views g evs)
  = (g_sends g ++ concat (imap (fun i ev => attempts cfg feed (views i) ev) evs))%list.
Proof.
  induction evs as [|ev evs IH]; intros views g; cbn [handle_events]; [by rewrite app_nil_r|].
  rewrite IH, handle_event_sends, imap_cons. cbn [concat]. by rewrite <-app_assoc.
Qed.

Lemma audience_rightful r transport feed to : to ∈ audience_for r transport feed ->
  exists doc m c, doc ∈ channels r /\ doc_id doc = trim feed /\ m ∈ members doc /\ m_read m = true /\
    c ∈ bound r /\ c_id c = m_contact m /\ c_transport c = transport /\ c_transport_id c = to.
Proof.
  unfold audience_for. destruct (reg_channel r feed) as [doc|] eqn:Ed; [|by intros ?%elem_of_nil].
  apply reg_channel_in in Ed as [Hd Hid]. intros (c & -> & Hc)%list_elem_of_fmap.
  apply elem_of_filterb in Hc as [Ht%String.eqb_eq Hc].
  apply list_elem_of_omap in Hc as (m & Hm & Hc). apply elem_of_filterb in Hm as [Hr Hm].
  apply find_some in Hc as [Hb Hi%String.eqb_eq]. apply list_elem_of_In in Hb. by exists doc, m, c.
Qed.

Lemma targets_rightful cfg v feed ev to : to ∈ targets cfg v feed ev -> rightful cfg feed v ev to.
Proof.
  unfold targets, rightful. destruct (correlation ev) as [c|]; [|apply audience_rightful].
  destruct (lookup_correlation (v_device v) c) as [row|] eqn:E; [|by intros ?%elem_of_nil].
  intros ->%list_elem_of_singleton. unfold lookup_correlation in E.
  apply find_some in E as [Hin He%String.eqb_eq]. rewrite <-in_rev in Hin.
  apply list_elem_of_In in Hin. by exists row.
Qed.

(** The text of a request is the text it was made for, its recipient the one named. *)
Lemma send_op_text cfg v to text op : send_op cfg v to text = Ok op ->
  send_text_of op = text /\
  match op with
  | IlinkSend _ _ dest _ _ => transport cfg = Ilink /\ dest = to
  | TelegramSend _ _ chat _ => transport cfg = Telegram /\
      (chat_ids (v_transport v) !! to = Some chat \/ parse_i64 to = Some chat)
  end.
Proof.
  unfold send_op. destruct (transport cfg); intros Hs; [done| |].
  - apply let_ok in Hs as ([c bot] & _ & Hs). apply let_ok in Hs as (ct & _ & [= <-]). done.
  - apply let_ok in Hs as (token & _ & Hs). apply let_ok in Hs as (chat & Hc%ok_or_ok & [= <-]).
    split; [done|]. split; [done|]. destruct (chat_ids _ !! to); [left|right]; done.
Qed.

(** What the phones get.  One turn of a feed's subscriber sends, event by event and
    member by member, exactly the requests the answered events call for, whatever the
    transport says to them — and none in the turn that only finds the feed's end, nor
    when the poll failed.  Each is for a final text the household's side published,
    carries that text under the channel's name, and goes to the member whose message
    it replies to or, when it is no reply, to a member who reads the channel and is
    bound on this transport. *)
Theorem feed_turn_sends (cfg : OutboundConfig) (feed : string) (views : nat -> GateView) (t : FeedTask) (g : Gate)
    (polled : result string (list ChannelEvent * string)) :
  let evs := match polled with Ok (evs, _) => if ft_priming t then [] else evs | Err _ => [] end in
  g_sends (feed_turn answers cfg feed views t g polled).1.2
    = (g_sends g ++ concat (imap (fun i ev => attempts cfg feed (views i) ev) evs))%list /\
  forall i ev op, evs !! i = Some ev -> op ∈ attempts cfg feed (views i) ev ->
    direction ev = Out /\ SessionScope.kind ev = Text /\ partial ev <> Some true /\
    exists text to, decode_text ev = Some text /\ rightful cfg feed (views i) ev to /\
      send_op cfg (views i) to (send_text_of op) = Ok op /\
      send_text_of op = label (transport_kind (transport cfg)) (channel_name (views i) feed) text.
Proof.
  cbv zeta. split.
  - unfold feed_turn. destruct polled as [[evs next]|msg].
    + assert (Hm : forall g1, g_sends (move_cursor feed next t g1).2 = g_sends g1)
        by (intros g1; unfold move_cursor; by destruct (_ || _)).
      cbn [fst snd]. rewrite Hm. destruct (ft_priming t); [by rewrite app_nil_r | apply handle_events_sends].
    + destruct (ungranted msg); cbn; by rewrite app_nil_r.
  - intros i ev op _ Hop. unfold attempts in Hop. destruct (deliverable ev) eqn:Hd; [|by apply elem_of_nil in Hop].
    apply deliverable_iff in Hd as (Hout & Hpart & Hkind & _).
    destruct (decode_text ev) as [text|]; [|by apply elem_of_nil in Hop].
    unfold requests in Hop. apply list_elem_of_omap in Hop as (to & Hto%targets_rightful & Hop).
    destruct (send_op cfg (views i) to _) as [op'|] eqn:Es; [|done]. injection Hop as ->.
    pose proof (send_op_text _ _ _ _ _ Es) as [Htext _]. split_and!; [done..|].
    exists text, to. rewrite Htext. by split_and!.
Qed.
End OutboundFacts.
