(* ===== verification/ChannelFeed.v ===== *)
(** * Feeds over an honest storage service

    What publishing and polling do to one feed when the storage service behind them is
    honest: the table holds the events as a log in the order of their keys, a publish
    appends to it, a poll reads the page behind its cursor. *)
From S2P Require Import Numerals AuditCbor Archive.
From S2P Require Import Prelude RustStr StrFacts Json SessionScope.
From S2P Require Import Capability DeviceCore Crates CapabilityVerify ObjectStore LocalStore ObjectClient StorageWorker Emitter Vault ChannelWorker FeedOrder.

Open Scope string_scope.
Open Scope Z_scope.

(** ** The client over an honest service *)

Section ClientFacts.
Context `{HexCodec} `{Sha256} `{Base64} {Svc : Type} {svc : ObjectService Svc} {honest : HonestService Svc}.

Lemma client_get_honest s cap key s' out : client_get s cap key = (s', out) ->
  view s' = view s /\
  forall o, out = Ok o -> exists rev, view s !! key = Some (obj_bytes o, rev).
Proof.
  unfold client_get. destruct (svc_execute s _) as [s1 [resp|e]] eqn:E; intros [= <- <-].
  - apply honest_ok in E. remember (view s1) as objs'. inversion E; subst; try done.
    split; [done|]. intros o Ho. unfold accept_get, value_response in Ho.
    apply let_ok in Ho as (enc & [= <-]%ok_or_ok & Ho). apply let_ok in Ho as (b & Hb%ok_or_ok & Ho).
    rewrite b64_decode_encode in Hb. injection Hb as <-.
    apply let_ok in Ho as (rv & _ & Ho). apply guard_ok in Ho as [_ [= <-]]. by exists rev.
  - split; [|done]. apply honest_err in E as [->|[resp E]]; [done|].
    remember (view s1) as objs'. by inversion E; subst.
Qed.

(** An accepted put wrote the value; a refused one may have, when its answer was lost. *)
Lemma client_put_honest s cap key value expected s' out : client_put s cap key value expected = (s', out) ->
  let written := <[key := (value, revision_of_value value)]> (view s) in
  (forall r, out = Ok r -> view s' = written) /\ (view s' = view s \/ view s' = written).
Proof.
  cbv zeta. unfold client_put. destruct (MAX_OBJECT_BYTES <? len value); [intros [= <- <-]; by split; [|left]|].
  assert (Hv : forall v, put_value (put_request cap key value expected) = Ok v -> v = value).
  { unfold put_value, put_request. cbn [value_b64]. intros v Hv.
    apply let_ok in Hv as (enc & [= <-]%ok_or_ok & Hv). apply guard_ok in Hv as [_ Hv].
    apply let_ok in Hv as (b & Hb%ok_or_ok & Hv). rewrite b64_decode_encode in Hb. injection Hb as <-.
    by apply guard_ok in Hv as [_ [= <-]]. }
  destruct (svc_execute s _) as [s1 [resp|e]] eqn:E; intros [= <- <-].
  - apply honest_ok in E. remember (view s1) as objs'. inversion E; subst; try done.
    match goal with Hp : put_value _ = Ok _ |- _ => apply Hv in Hp as -> end. split; [done | by right].
  - split; [done|]. apply honest_err in E as [->|[resp E]]; [by left|].
    remember (view s1) as objs'. inversion E; subst; try done.
    match goal with Hp : put_value _ = Ok _ |- _ => apply Hv in Hp as -> end. by right.
Qed.

Lemma list_service_honest s cap prefix cursor s' out : client_list s cap prefix cursor = (s', out) ->
  view s' = view s /\
  forall page, out = Ok page ->
    let keys := keys_after (view s) prefix (default "" cursor) in
    page_keys page = take MAX_LIST_KEYS keys /\
    next page = if (MAX_LIST_KEYS <? length keys)%nat then last (take MAX_LIST_KEYS keys) else None.
Proof.
  unfold client_list. destruct (svc_execute s _) as [s1 [resp|e]] eqn:E; intros [= <- <-].
  - apply honest_ok in E. remember (view s1) as objs'. inversion E; subst; try done.
    split; [done|]. intros page Hp. cbn [list_request key after] in Hp. unfold accept_list in Hp.
    apply guard_ok in Hp as [_ Hp]. apply guard_ok in Hp as [_ [= <-]]. done.
  - split; [|done]. apply honest_err in E as [->|[resp E]]; [done|].
    remember (view s1) as objs'. by inversion E; subst.
Qed.

(** ** Listing *)

Lemma keep_tail_app {A} (a b : list A) n : keep_tail (keep_tail a n ++ b) n = keep_tail (a ++ b) n.
Proof.
  assert (E : forall l : list A, keep_tail l n = drop (length l - n) l).
  { intros l. unfold keep_tail. destruct (Nat.ltb_spec n (length l)); [done|].
    by replace (length l - n)%nat with 0%nat by lia. }
  rewrite !E, length_app, length_drop, length_app.
  destruct (decide (n <= length a)%nat) as [Hl|Hl].
  - replace (drop (length a + length b - n) (a ++ b))
      with (drop (length b) (drop (length a - n) (a ++ b))) by (rewrite drop_drop; f_equal; lia).
    rewrite (drop_app_le a) by lia. f_equal. lia.
  - replace (length a - n)%nat with 0%nat by lia. rewrite drop_0. f_equal. lia.
Qed.

(** What a listing of each kind returns of everything behind the cursor. *)
Definition listed {A} (tail : option nat) (all : list A) : list A :=
  match tail with None => take MAX_LIST_KEYS all | Some n => keep_tail all n end.

Lemma listed_map {A B} (f : A -> B) tail l : listed tail (map f l) = map f (listed tail l).
Proof.
  destruct tail as [n|]; cbn [listed]; [|by rewrite firstn_map].
  unfold keep_tail. rewrite length_map. by destruct (n <? length l)%nat; [rewrite skipn_map|].
Qed.

Lemma elem_of_listed {A} tail (x : A) l : x ∈ listed tail l -> x ∈ l.
Proof.
  destruct tail as [n|]; cbn [listed]; [unfold keep_tail; destruct (_ <? _)%nat; [|done]|]; intros Hx.
  - rewrite <-(take_drop (length l - n) l). set_solver.
  - rewrite <-(take_drop MAX_LIST_KEYS l). set_solver.
Qed.

Lemma list_pages_honest fuel cap prefix tail : forall s cursor acc s' out,
  list_pages fuel s cap prefix tail cursor acc = Some (s', out) ->
  view s' = view s /\
  forall keys, out = Ok keys -> (tail = None -> acc = []) ->
    keys = listed tail (acc ++ keys_after (view s) prefix (default "" cursor))%list.
Proof.
  induction fuel as [|fuel IH]; intros s cursor acc s' out; [done|]. cbn [list_pages].
  destruct (client_list s cap prefix cursor) as [s1 answer] eqn:E.
  apply list_service_honest in E as [Hv Hp]. destruct answer as [page|e]; cbn [map_err];
    [|intros [= <- <-]; by split].
  destruct (Hp page eq_refl) as [Hk Hn]. set (all := keys_after (view s) prefix (default "" cursor)) in *.
  destruct tail as [n|].
  - destruct (next page) as [c|] eqn:Ec.
    + intros Hr. apply IH in Hr as [Hv' Hr]. split; [congruence|]. intros keys Ho _.
      rewrite (Hr keys Ho) by done. cbn [listed default from_option id]. rewrite keep_tail_app, Hk, Hv, <-app_assoc.
      do 2 f_equal. destruct (MAX_LIST_KEYS <? length all)%nat; [|done].
      rewrite (keys_after_next (view s) prefix (default "" cursor) MAX_LIST_KEYS c) by done.
      apply take_drop.
    + intros [= <- <-]. split; [done|]. intros keys [= <-] _. cbn [listed]. rewrite Hk.
      destruct (Nat.ltb_spec MAX_LIST_KEYS (length all)) as [Hlt|Hge]; [|by rewrite take_ge by lia].
      symmetry in Hn. apply last_None in Hn. apply (f_equal length) in Hn.
      rewrite length_take in Hn. change (length []) with 0%nat in Hn. unfold MAX_LIST_KEYS in *. lia.
  - intros [= <- <-]. split; [done|]. intros keys [= <-] Hacc. rewrite Hacc by done. by rewrite Hk.
Qed.

(** A listing ends once there is a page for every key. *)
Lemma list_pages_total fuel cap prefix tail : forall s cursor acc,
  (length (keys_after (view s) prefix (default "" cursor)) < fuel)%nat ->
  is_Some (list_pages fuel s cap prefix tail cursor acc).
Proof.
  induction fuel as [|fuel IH]; intros s cursor acc Hf; [lia|]. cbn [list_pages].
  destruct (client_list s cap prefix cursor) as [s1 answer] eqn:E.
  apply list_service_honest in E as [Hv Hp]. destruct answer as [page|e]; cbn [map_err]; [|by eexists].
  destruct (Hp page eq_refl) as [Hk Hn]. destruct tail as [n|], (next page) as [c|]; try by eexists.
  apply IH. cbn [default from_option id]. destruct (MAX_LIST_KEYS <? _)%nat eqn:Hlt; [|done].
  rewrite Hv, (keys_after_next (view s) prefix (default "" cursor) MAX_LIST_KEYS c) by done.
  apply Nat.ltb_lt in Hlt. rewrite length_drop. unfold MAX_LIST_KEYS in *. lia.
Qed.
End ClientFacts.

(** ** A feed as a log *)

Section Log.
Context `{HexCodec, Crypto, Sha256, P256, CapJson, Base64, Aes256Gcm}.
Context `{Ciborium, JsonFloat, FloatText, ReceiptJson, EventJson}.
Context {Svc : Type} {svc : ObjectService Svc} {honest : HonestService Svc}.
Variable rpc : string -> string -> string -> nat -> RpcAttempt.
Variable service_audit : Sent -> option string * AuditAppendV2 -> option HttpReply.
Variable limits : ChannelWorkerConfig.
Variable wake : bool.
Variables (st : WorkerState) (kek owner channel : string).
Hypothesis Hkek : development_key st = Ok kek.

Definition key_of (e : ChannelEvent) : string := feed_key owner channel (event_id e).

Definition sealed (objs : objects_table) (e : ChannelEvent) : Prop :=
  exists b rev, objs !! key_of e = Some (b, rev) /\
    decrypt kek b (object_aad owner (key_of e)) = Ok (event_to_vec e).

(** The rows of the feed are these events, in the order of their keys. *)
Definition feed_holds (objs : objects_table) (log : list ChannelEvent) : Prop :=
  keys_after objs (feed_prefix owner channel) "" = map key_of log /\ Forall (sealed objs) log.

(** The cursor behind these events. *)
Definition cursor_of (seen : list ChannelEvent) : string :=
  match last seen with Some e => key_of e | None => "" end.

Lemma key_of_nonempty e : key_of e <> "".
Proof using. done. Qed.

Lemma key_of_prefix e : starts_with (feed_prefix owner channel) (key_of e) = true.
Proof using. unfold key_of. rewrite feed_key_prefix. apply starts_with_self. Qed.

Lemma keys_behind objs seen rest : feed_holds objs (seen ++ rest) ->
  keys_after objs (feed_prefix owner channel) (cursor_of seen) = map key_of rest.
Proof using.
  intros [Hk _]. unfold cursor_of. destruct (last seen) as [e|] eqn:El.
  - apply last_Some in El as [before ->]. rewrite <-app_assoc, map_app in Hk. cbn [app map] in Hk.
    by apply keys_after_resume in Hk.
  - apply last_None in El as ->. exact Hk.
Qed.

Lemma read_events_honest cap l : forall s acc s' out,
  Forall (sealed (view s)) l -> read_events st s cap owner (map key_of l) acc = (s', out) ->
  view s' = view s /\ forall evs, out = Ok evs -> evs = (acc ++ l)%list.
Proof using Hkek honest.
  induction l as [|e l IH]; intros s acc s' out Hs; cbn [map read_events].
  { intros [= <- <-]. split; [done|]. intros evs [= <-]. by rewrite app_nil_r. }
  apply Forall_cons in Hs as [(b & rev & Hrow & Hdec) Hs]. unfold read_event.
  destruct (client_get s cap (key_of e)) as [s1 answer] eqn:E. apply client_get_honest in E as [Hv Hg].
  destruct answer as [o|err]; cbn [map_err]; [|intros [= <- <-]; by split].
  destruct (Hg o eq_refl) as [rev' Hrow']. rewrite Hrow in Hrow'. injection Hrow' as <- <-.
  rewrite Hkek, Hdec. cbn [map_err]. rewrite event_from_to. cbn [ok_or].
  intros Hr. apply IH in Hr as [Hv' Hr]; [|by rewrite Hv]. split; [congruence|].
  intros evs Ho. rewrite (Hr evs Ho), <-app_assoc. done.
Qed.

Lemma channel_list_after_honest fuel s cap tail seen rest s' out :
  feed_holds (view s) (seen ++ rest) ->
  channel_list_after fuel st s cap owner channel (cursor_of seen) tail = Some (s', out) ->
  view s' = view s /\ forall evs, out = Ok evs -> evs = listed (tail_count tail) rest.
Proof using Hkek honest.
  intros Hf. unfold channel_list_after. pose proof (keys_behind _ _ _ Hf) as Hk.
  assert (Hc : default "" (if String.eqb (cursor_of seen) "" then None else Some (cursor_of seen)) = cursor_of seen)
    by (by destruct (String.eqb_spec (cursor_of seen) "") as [->|]).
  destruct (negb _ && negb _); [intros [= <- <-]; by split|].
  destruct (list_pages _ _ _ _ _ _ _) as [[s1 keys]|] eqn:E; cbn [mbind option_bind]; [|done].
  apply list_pages_honest in E as [Hv Hl]. rewrite Hc, Hk in Hl.
  intros [= Hr]. destruct keys as [keys|e]; [|by simplify_eq].
  cbn [app] in Hl. rewrite (Hl keys eq_refl (fun _ => eq_refl)), listed_map in Hr. apply read_events_honest in Hr.
  - rewrite Hv in Hr. done.
  - rewrite Hv. destruct Hf as [_ Hf]. rewrite Forall_forall in *. intros e He%elem_of_listed.
    apply Hf, elem_of_app. by right.
Qed.

(** Enough fuel for the pages behind the cursor. *)
Lemma channel_list_after_total fuel s cap tail seen rest :
  feed_holds (view s) (seen ++ rest) -> (length rest < fuel)%nat ->
  is_Some (channel_list_after fuel st s cap owner channel (cursor_of seen) tail).
Proof using honest.
  intros Hf Hl. unfold channel_list_after. pose proof (keys_behind _ _ _ Hf) as Hk.
  destruct (negb _ && negb _); [by eexists|].
  destruct (list_pages_total fuel cap (feed_prefix owner channel) (tail_count tail) s
    (if String.eqb (cursor_of seen) "" then None else Some (cursor_of seen)) []) as [[s1 keys] ->]; [|by eexists].
  replace (default "" _) with (cursor_of seen) by (by destruct (String.eqb_spec (cursor_of seen) "") as [->|]).
  rewrite Hk, length_map. done.
Qed.

Lemma audited_parts {A R} (w : World Svc) cap kind body (outcome : result ApiError A) (answer : A -> option string -> R) w' out :
  audited service_audit (audit st) w cap kind body outcome answer = (w', out) ->
  w_store w' = w_store w /\ forall r, out = Ok r -> exists a h, outcome = Ok a /\ r = answer a h.
Proof using.
  unfold audited. destruct (emit _ _ _ _ _ _ _) as [sent receipt]. intros [= <- <-]. split; [done|].
  intros r (a & -> & Hr)%let_ok. apply let_ok in Hr as (h & _ & [= <-]). by exists a, h.
Qed.

Lemma cursor_of_app seen evs : cursor_of (seen ++ evs) = poll_cursor owner channel (cursor_of seen) evs.
Proof using.
  unfold cursor_of, poll_cursor. rewrite last_app. by destruct (last evs).
Qed.

(** What other requests do to the service while one is under way, as this feed sees
    it: nothing. *)
Definition keeps_feed (f : Svc -> Svc) : Prop :=
  forall s log, feed_holds (view s) log -> feed_holds (view (f s)) log.

(** A poll from a cursor of the feed answers with what is behind it and the cursor
    behind that, and changes no object. *)
Lemma channel_poll_honest fuel m waited c req seen rest c' out :
  keeps_feed waited ->
  normalize_omni (operator_omni (payload (po_cap req))) = owner ->
  channel_id_from_service (service (payload (po_cap req))) = Ok channel ->
  po_after req = cursor_of seen ->
  feed_holds (view (w_store (c_world c))) (seen ++ rest) ->
  channel_poll rpc service_audit fuel st m waited c req = Some (c', out) ->
  feed_holds (view (w_store (c_world c'))) (seen ++ rest) /\ c_seq c' = c_seq c /\
  forall r, out = Ok r ->
    po_events r = listed (tail_count (po_tail req)) rest /\ po_cursor r = cursor_of (seen ++ po_events r).
Proof using Hkek honest.
  intros Hw Hown Hch Hafter Hf. unfold channel_poll.
  destruct (channel_verify rpc st m (po_cap req) ChannelSubscribe) as [ch|e] eqn:Hv; [|intros [= <- <-]; by split_and!].
  unfold channel_verify in Hv. apply let_ok in Hv as (_ & _ & Hv). rewrite Hch in Hv. injection Hv as <-.
  rewrite Hown, Hafter. cbv zeta.
  destruct (channel_list_after _ _ _ _ _ _ _ _) as [[s1 listed1]|] eqn:E; cbn [mbind option_bind]; [|done].
  apply (channel_list_after_honest _ _ _ _ seen rest) in E as [Hv1 Hl1]; [|done].
  set (second := match listed1 with Ok [] => _ | _ => _ end).
  assert (Hs2 : forall s2 l2, second = Some (s2, l2) ->
    feed_holds (view s2) (seen ++ rest) /\
    forall evs, l2 = Ok evs -> evs = listed (tail_count (po_tail req)) rest);
    [subst second | destruct second as [[s2 l2]|]; cbn [mbind option_bind]; [|done]; specialize (Hs2 _ _ eq_refl)].
  { intros s2 l2 Hs2. destruct listed1 as [[|e evs]|e].
    - destruct (0 <? po_wait_seconds req); [|injection Hs2 as <- <-; by rewrite Hv1].
      apply (channel_list_after_honest _ _ _ _ seen rest) in Hs2 as [Hv2 Hl2]; [|apply Hw; by rewrite Hv1].
      split; [rewrite Hv2; apply Hw; by rewrite Hv1 | done].
    - injection Hs2 as <- <-. by rewrite Hv1.
    - injection Hs2 as <- <-. by rewrite Hv1. }
  destruct Hs2 as [Hf2 Hl2]. intros Hr. destruct l2 as [evs|e]; [|injection Hr as <- <-; by split_and!].
  destruct (audited _ _ _ _ _ _ _ _) as [w answer] eqn:Ea. apply audited_parts in Ea as [Hst Hans].
  injection Hr as <- <-. cbn [with_world c_world c_seq]. rewrite Hst. split_and!; [done..|].
  intros r Ho. destruct (Hans r Ho) as (evs' & h & [= ->] & ->). cbn [po_events po_cursor].
  split; [by apply Hl2 | symmetry; apply cursor_of_app].
Qed.

Lemma channel_poll_total fuel m waited c req seen rest :
  keeps_feed waited ->
  normalize_omni (operator_omni (payload (po_cap req))) = owner ->
  channel_id_from_service (service (payload (po_cap req))) = Ok channel ->
  po_after req = cursor_of seen ->
  feed_holds (view (w_store (c_world c))) (seen ++ rest) -> (length rest < fuel)%nat ->
  is_Some (channel_poll rpc service_audit fuel st m waited c req).
Proof using Hkek honest.
  intros Hw Hown Hch Hafter Hf Hl. unfold channel_poll.
  destruct (channel_verify rpc st m (po_cap req) ChannelSubscribe) as [ch|e] eqn:Hv; [|by eexists].
  unfold channel_verify in Hv. apply let_ok in Hv as (_ & _ & Hv). rewrite Hch in Hv. injection Hv as <-.
  rewrite Hown, Hafter. cbv zeta.
  destruct (channel_list_after_total fuel (w_store (c_world c)) (po_cap req) (po_tail req) seen rest)
    as [[s1 listed1] E]; [done..|]. rewrite E. cbn [mbind option_bind].
  apply (channel_list_after_honest _ _ _ _ seen rest) in E as [Hv1 _]; [|done].
  destruct listed1 as [[|e evs]|e]; [destruct (0 <? po_wait_seconds req)|..]; try by eexists.
  destruct (channel_list_after_total fuel (waited s1) (po_cap req) (po_tail req) seen rest)
    as [[s2 listed2] E2]; [apply Hw; by rewrite Hv1 | done|]. rewrite E2. by eexists.
Qed.

(** One page needs one unit of fuel. *)
Lemma channel_poll_page m waited (c : ChannelState Svc) req : tail_count (po_tail req) = None ->
  is_Some (channel_poll rpc service_audit 1 st m waited c req).
Proof using.
  intros Htail.
  assert (Hone : forall s cap o ch after tail, tail_count tail = None ->
    is_Some (channel_list_after 1 st s cap o ch after tail)).
  { intros s cap o ch after tail Ht. unfold channel_list_after. destruct (negb _ && negb _); [by eexists|].
    cbn [list_pages]. rewrite Ht. destruct (client_list _ _ _ _) as [s1 [page|e]]; cbn; by eexists. }
  unfold channel_poll. destruct (channel_verify _ _ _ _ _); [|by eexists]. cbv zeta.
  destruct (Hone (w_store (c_world c)) (po_cap req) (normalize_omni (operator_omni (payload (po_cap req)))) a
    (po_after req) (po_tail req) Htail) as [[s1 [[|e evs]|e]] ->]; cbn [mbind option_bind]; try by eexists.
  destruct (0 <? po_wait_seconds req); [|by eexists].
  destruct (Hone (waited s1) (po_cap req) (normalize_omni (operator_omni (payload (po_cap req)))) a
    (po_after req) (po_tail req) Htail) as [[s2 l2] ->]. by eexists.
Qed.

(** ** Publishing *)

Lemma encrypt_decrypts nonce key a pt env : length nonce = NONCE_LEN ->
  encrypt nonce key pt a = Ok env -> decrypt key env a = Ok pt.
Proof. intros Hn E. exact (proj1 (proj1 (envelope_roundtrip nonce [] a pt env key Hn) E)). Qed.

Lemma feed_append objs log e b rev :
  feed_holds objs log -> (forall x, x ∈ log -> str_lt (key_of x) (key_of e)) ->
  decrypt kek b (object_aad owner (key_of e)) = Ok (event_to_vec e) ->
  feed_holds (<[key_of e := (b, rev)]> objs) (log ++ [e]).
Proof using.
  intros [Hk Hs] Hlt Hdec. split.
  - rewrite map_app. cbn [map]. apply ascending_unique; [apply keys_after_ascending | |].
    + apply ascending_app. split_and!; [rewrite <-Hk; apply keys_after_ascending | repeat constructor |].
      intros x y (z & -> & Hz)%list_elem_of_fmap ->%list_elem_of_singleton. by apply Hlt.
    + intros k. rewrite elem_of_keys_after, elem_of_app, <-Hk, elem_of_keys_after, list_elem_of_singleton.
      destruct (base.decide (k = key_of e)) as [->|Hne].
      * rewrite lookup_insert_eq. split; [by right|]. intros _. split_and!; [by eexists | apply key_of_prefix | done].
      * rewrite lookup_insert_ne by done. split; [by left|]. by intros [|].
  - apply Forall_app. split; [|repeat constructor].
    + rewrite Forall_forall in *. intros x Hx. destruct (Hs x Hx) as (b' & rev' & Hrow & Hd).
      exists b', rev'. rewrite lookup_insert_ne; [done|]. intros E. pose proof (Hlt x Hx) as Hl. rewrite E in Hl.
      by apply (irreflexivity str_lt) in Hl.
    + exists b, rev. by rewrite lookup_insert_eq.
Qed.

(** The event a request becomes. *)
Definition published (req : PublishRequest) (m : Moment) (seq : Z) (b r : option string) : ChannelEvent :=
  event_of req channel (make_id (at_millis m) seq) (at_millis m) b r.

(** A publish leaves the feed as it was or appends its event; an accepted one appended
    it, under the id it answers with. *)
Lemma channel_publish_honest m between c req log c' out :
  keeps_feed between -> length (fresh_nonce m) = NONCE_LEN ->
  normalize_omni (operator_omni (payload (pr_cap req))) = owner ->
  channel_id_from_service (service (payload (pr_cap req))) = Ok channel ->
  (forall x, x ∈ log -> str_lt (key_of x) (feed_key owner channel (make_id (at_millis m) (c_seq c)))) ->
  feed_holds (view (w_store (c_world c))) log ->
  channel_publish rpc service_audit limits wake st m between c req = (c', out) ->
  (c_seq c' = c_seq c \/ c_seq c' = wrap_u64 (c_seq c + 1)) /\
  ((feed_holds (view (w_store (c_world c'))) log /\ is_ok out = false) \/
   exists b r, publish_body limits req = Ok (b, r) /\ c_seq c' = wrap_u64 (c_seq c + 1) /\
     feed_holds (view (w_store (c_world c'))) (log ++ [published req m (c_seq c) b r]) /\
     forall a, out = Ok a -> pub_event_id a = make_id (at_millis m) (c_seq c)).
Proof using Hkek honest.
  intros Hb Hn Hown Hch Hlt Hf. unfold channel_publish.
  destruct (channel_verify rpc st m (pr_cap req) ChannelPublish) as [ch|e] eqn:Hv;
    [|intros [= <- <-]; split; [by left|]; by left].
  unfold channel_verify in Hv. apply let_ok in Hv as (_ & _ & Hv). rewrite Hch in Hv. injection Hv as <-.
  destruct (channel_publish_inner limits st m between c req channel) as [c1 outcome] eqn:Ei.
  destruct (audited _ _ _ _ _ _ _ _) as [w answer] eqn:Ea. apply audited_parts in Ea as [Hst Hans].
  intros [= <- <-]. set (c2 := match outcome with Ok a => _ | Err _ => _ end).
  assert (Hc2 : c_seq c2 = c_seq c1 /\ w_store (c_world c2) = w_store (c_world c1))
    by (by destruct outcome; cbn [c2 with_world signal_publish c_seq c_world]).
  destruct Hc2 as [-> ->]. clear c2.
  assert (Hfail : is_ok outcome = false -> is_ok answer = false).
  { intros Ho. destruct answer as [r|]; [|done]. destruct (Hans r eq_refl) as (a & h & -> & _). done. }
  unfold channel_publish_inner in Ei. rewrite Hown in Ei. cbv zeta in Ei. cbn [next_seq c_world] in Ei.
  destruct (publish_body limits req) as [[b r]|e]; [|injection Ei as <- <-; split; [by left|]; left; by split; [|apply Hfail]].
  rewrite Hkek in Ei. fold (published req m (c_seq c) b r) in Ei.
  change (feed_key owner channel (make_id (at_millis m) (c_seq c))) with (key_of (published req m (c_seq c) b r)) in *.
  set (ev := published req m (c_seq c) b r) in *.
  destruct (encrypt _ _ _ _) as [env|e] eqn:Henc; cbn [map_err] in Ei;
    [|injection Ei as <- <-; split; [by right|]; left; by split; [|apply Hfail]].
  apply encrypt_decrypts in Henc; [|done].
  destruct (client_put _ _ _ _ _) as [s put] eqn:Ep. apply client_put_honest in Ep as [Hok Hor].
  injection Ei as <- <-. cbn [with_world c_seq c_world w_store].
  apply Hb in Hf. set (s0 := between (w_store (c_world c))) in *.
  pose proof (feed_append _ _ _ _ (revision_of_value env) Hf Hlt Henc) as Happ.
  split; [by right|]. destruct put as [rev|e].
  - right. exists b, r. split_and!; [done..|by rewrite (Hok rev eq_refl)|].
    intros a Ha. destruct (Hans a Ha) as (x & h & [= <-] & ->). done.
  - destruct Hor as [->| ->]; [left; by split; [|apply Hfail]|]. right. exists b, r. split_and!; [done..|].
    intros a Ha. by destruct (Hans a Ha) as (x & h & [=] & _).
Qed.
End Log.
