(* ===== verification/Delivery.v ===== *)
(** * From a publish to the phones

    The channel worker and the messaging gateway's subscriber run together: events are
    published into a feed, the subscriber polls it, either process restarts, polls
    fail, other requests reach the storage service in between.  What the subscriber
    handles is the feed itself, in the order of its ids, from a point on. *)
From stdpp Require Import countable.
From S2P Require Import Numerals AuditCbor Archive ClearSigning Emitter Vault ChannelWorker.
From S2P Require Import Prelude RustStr StrFacts Json Utf8 SessionScope Channels Audience Router Asks FeedHop.
From S2P Require Import Outbound Capability DeviceCore Crates CapabilityVerify ObjectStore LocalStore ObjectClient StorageWorker FeedOrder ChannelFeed.

Open Scope string_scope.
Open Scope Z_scope.

(** ** The two processes *)

Record System (Svc : Type) := {
  y_worker : ChannelState Svc; y_task : FeedTask; y_gate : Gate;
  (** The ids of the publishes that were accepted. *)
  y_accepted : list string }.
Arguments y_worker {Svc} _. Arguments y_task {Svc} _. Arguments y_gate {Svc} _. Arguments y_accepted {Svc} _.

Inductive Op (Svc : Type) :=
| Publish (m : Moment) (between : Svc -> Svc) (req : PublishRequest)
| Poll (m : Moment) (waited : Svc -> Svc) (cap : CapToken) (views : nat -> GateView)
| PollFails (views : nat -> GateView) (msg : string)
| GateRestarts
| WorkerRestarts (at_ms : Z)
| Elsewhere (f : Svc -> Svc).
Arguments Publish {Svc} _ _ _. Arguments Poll {Svc} _ _ _ _. Arguments PollFails {Svc} _ _.
Arguments GateRestarts {Svc}. Arguments WorkerRestarts {Svc} _. Arguments Elsewhere {Svc} _.

Section Delivery.
Context `{HexCodec, Crypto, Sha256, P256, CapJson, Base64, Aes256Gcm}.
Context `{Ciborium, JsonFloat, FloatText, ReceiptJson, EventJson, SerdeJson}.
Context {Svc : Type} {svc : ObjectService Svc} {honest : HonestService Svc}.
Variable rpc : string -> string -> string -> nat -> RpcAttempt.
Variable service_audit : Sent -> option string * AuditAppendV2 -> option HttpReply.
Variable limits : ChannelWorkerConfig.
Variable wake : bool.
Variables (st : WorkerState) (kek owner channel : string).
Variable answers : list SendOp -> SendOp -> result string unit.
(** The text of a refused poll, as the gateway reads it. *)
Variable error_text : ApiError -> string.
Variables (cfg : OutboundConfig) (feed : string).

(** The poll of [device.rs]: the body names no tail. *)
Definition poll_request (t : FeedTask) (cap : CapToken) : PollRequest :=
  {| po_cap := cap; po_after := (poll_of t).1; po_wait_seconds := (poll_of t).2; po_tail := None |}.

Definition polled (answer : result ApiError PollResponse) : result string (list ChannelEvent * string) :=
  match answer with Ok r => Ok (po_events r, po_cursor r) | Err e => Err (error_text e) end.

Definition turn (y : System Svc) (c : ChannelState Svc) (views : nat -> GateView)
    (answer : result string (list ChannelEvent * string)) : System Svc :=
  let '(t, g, _) := feed_turn answers cfg feed views (y_task y) (y_gate y) answer in
  {| y_worker := c; y_task := t; y_gate := g; y_accepted := y_accepted y |}.

(** A poll without a tail reads one page: one unit of fuel. *)
Definition step (op : Op Svc) (y : System Svc) : option (System Svc) :=
  match op with
  | Publish m between req =>
      let '(c, out) := channel_publish rpc service_audit limits wake st m between (y_worker y) req in
      Some {| y_worker := c; y_task := y_task y; y_gate := y_gate y;
              y_accepted := match out with Ok r => (y_accepted y ++ [pub_event_id r])%list
                                         | Err _ => y_accepted y end |}
  | Poll m waited cap views =>
      '(c, out) ← channel_poll rpc service_audit 1 st m waited (y_worker y) (poll_request (y_task y) cap);
      Some (turn y c views (polled out))
  | PollFails views msg => Some (turn y (y_worker y) views (Err msg))
  | GateRestarts => Some {| y_worker := y_worker y; y_task := start_task (y_gate y) feed;
                            y_gate := y_gate y; y_accepted := y_accepted y |}
  | WorkerRestarts _ =>
      Some {| y_worker := {| c_world := c_world (y_worker y); c_seq := 0; c_signals := []; c_wakes := c_wakes (y_worker y) |};
              y_task := y_task y; y_gate := y_gate y; y_accepted := y_accepted y |}
  | Elsewhere f =>
      Some {| y_worker := with_world (y_worker y) {| w_store := f (w_store (c_world (y_worker y)));
                                                     w_sent := w_sent (c_world (y_worker y)) |};
              y_task := y_task y; y_gate := y_gate y; y_accepted := y_accepted y |}
  end.

Fixpoint run (ops : list (Op Svc)) (y : System Svc) : option (System Svc) :=
  match ops with [] => Some y | op :: ops => y ← step op y; run ops y end.

(** ** What a run may be *)

(** Of this feed; [t] is the latest millisecond an id was drawn at. *)
Definition of_feed (cap : CapToken) : Prop :=
  normalize_omni (operator_omni (payload cap)) = owner /\
  channel_id_from_service (service (payload cap)) = Ok channel.

(** The clock does not run back, a restarted worker draws its ids later, and what
    happens elsewhere leaves the feed alone. *)
Fixpoint timely (t : Z) (ops : list (Op Svc)) : Prop :=
  match ops with
  | [] => True
  | Publish m between req :: ops =>
      t <= at_millis m < 10 ^ 13 /\ length (fresh_nonce m) = NONCE_LEN /\ of_feed (pr_cap req) /\ keeps_feed kek owner channel between
      /\ timely (at_millis m) ops
  | Poll _ waited cap _ :: ops => of_feed cap /\ keeps_feed kek owner channel waited /\ timely t ops
  | WorkerRestarts u :: ops => t < u < 10 ^ 13 /\ timely u ops
  | Elsewhere f :: ops => keeps_feed kek owner channel f /\ timely t ops
  | (PollFails _ _ | GateRestarts) :: ops => timely t ops
  end.

(** Drawn before millisecond [t] or in it with a counter below [q]. *)
Definition issued (t q : Z) (e : ChannelEvent) : Prop :=
  exists ms sq, event_id e = make_id ms sq /\ id_typed ms sq /\ (ms < t \/ ms = t /\ sq < q).

(** The effect of a list of events, each with the view it was handled under. *)
Definition handling (g : Gate) (l : list (GateView * ChannelEvent)) : Gate :=
  foldl (fun g x => handle_event answers cfg feed x.1 g x.2) g l.

Definition same_effects (g g' : Gate) : Prop := g_sends g = g_sends g' /\ g_stages g = g_stages g'.

(** ** Lemmas *)

Lemma handle_event_effects v g g' e : same_effects g g' ->
  same_effects (handle_event answers cfg feed v g e) (handle_event answers cfg feed v g' e).
Proof using.
  intros [Hs Ht]. unfold same_effects, handle_event. repeat case_match; cbn; by rewrite ?Hs, ?Ht.
Qed.

Lemma handling_effects l : forall g g', same_effects g g' -> same_effects (handling g l) (handling g' l).
Proof using.
  induction l as [|x l IH]; intros g g' Hg; [done|]. cbn. by apply IH, handle_event_effects.
Qed.

Lemma handle_event_cursors v g e : g_cursors (handle_event answers cfg feed v g e) = g_cursors g.
Proof using. unfold handle_event. by repeat case_match. Qed.

(** The events of one answer, each with its view. *)
Lemma handle_events_handling evs : forall views g, exists l,
  map snd l = evs /\ handle_events answers cfg feed views g evs = handling g l /\ g_cursors (handling g l) = g_cursors g.
Proof using.
  induction evs as [|e evs IH]; intros views g; [by exists []|]. cbn [handle_events].
  destruct (IH (fun i => views (S i)) (handle_event answers cfg feed (views 0%nat) g e)) as (l & Hl & Hh & Hc).
  exists ((views 0%nat, e) :: l). change (handling g (_ :: l)) with (handling (handle_event answers cfg feed (views 0%nat) g e) l).
  cbn [map snd]. rewrite Hl, Hh, Hc. split_and!; [done..|apply handle_event_cursors].
Qed.

Lemma issued_before t q m e : issued t q e -> t <= m < 10 ^ 13 -> 0 <= q < 2 ^ 64 ->
  str_lt (key_of owner channel e) (feed_key owner channel (make_id m q)).
Proof using.
  intros (ms & sq & He & Hty & Hlt) Hm Hq. unfold key_of. rewrite He.
  assert (Hty' : id_typed m q) by (destruct Hty; split; lia).
  apply feed_key_order; [by rewrite !make_id_length|]. apply make_id_order; [done..|]. lia.
Qed.

Lemma issued_later t q t' q' e : issued t q e -> t < t' \/ t = t' /\ q <= q' -> issued t' q' e.
Proof using.
  intros (ms & sq & He & Hty & Hlt) Ht. exists ms, sq. split_and!; [done..|]. lia.
Qed.

(** ** The run *)

Definition worker_view (y : System Svc) : objects_table := view (w_store (c_world (y_worker y))).

(** The feed split at the subscriber: what it passed over as history, what it handled,
    what it has not read. *)
Record at_point (g0 : Gate) (t : Z) (y : System Svc) (skipped handled unread : list ChannelEvent) : Prop := {
  pt_feed : feed_holds kek owner channel (worker_view y) (skipped ++ handled ++ unread);
  pt_issued : Forall (issued t (c_seq (y_worker y))) (skipped ++ handled ++ unread);
  pt_seq : 0 <= t /\ 0 <= c_seq (y_worker y);
  pt_persisted : g_cursors (y_gate y) !! feed = ft_cursor (y_task y);
  pt_cursor : match ft_cursor (y_task y) with
              | None => (skipped ++ handled)%list = []
              | Some c => c = cursor_of owner channel (skipped ++ handled) /\ c <> "" /\ ft_priming (y_task y) = false
              end;
  pt_skipped : (length skipped <= MAX_LIST_KEYS)%nat;
  pt_effects : exists l, map snd l = handled /\ same_effects (handling g0 l) (y_gate y);
  pt_accepted : forall i, i ∈ y_accepted y -> i ∈ map event_id (skipped ++ handled ++ unread) }.

Lemma cursor_nonempty seen : cursor_of owner channel seen = "" -> seen = [].
Proof using.
  unfold cursor_of. destruct (last seen) eqn:E; [|by apply last_None in E]. intros Hk. by apply key_of_nonempty in Hk.
Qed.

(** The feed as the worker keeps it: these events, their ids drawn before the next. *)
Record log_at (t : Z) (c : ChannelState Svc) (log : list ChannelEvent) : Prop := {
  la_feed : feed_holds kek owner channel (view (w_store (c_world c))) log;
  la_issued : Forall (issued t (c_seq c)) log;
  la_seq : 0 <= t /\ 0 <= c_seq c }.

(** A worker that holds the same feed and has drawn no id since, or whose later ids are
    drawn later. *)
Lemma log_at_later t t' c c' log : log_at t c log -> t <= t' ->
  feed_holds kek owner channel (view (w_store (c_world c'))) log ->
  t < t' /\ 0 <= c_seq c' \/ c_seq c <= c_seq c' -> log_at t' c' log.
Proof using.
  intros [Hf Hi Hq] Ht Hf' Hseq. split; [done| |lia].
  rewrite Forall_forall in *. intros e He. eapply issued_later; [by apply Hi|]. lia.
Qed.

(** A publish appends one event or none, and an accepted one is in the feed. *)
Lemma log_publish t c log m between req c' out : log_at t c log -> t <= at_millis m < 10 ^ 13 ->
  length (fresh_nonce m) = NONCE_LEN -> of_feed (pr_cap req) -> keeps_feed kek owner channel between ->
  c_seq c + 1 < 2 ^ 64 -> development_key st = Ok kek ->
  channel_publish rpc service_audit limits wake st m between c req = (c', out) ->
  exists more, log_at (at_millis m) c' (log ++ more) /\ c_seq c' <= c_seq c + 1 /\ (length more <= 1)%nat /\
    forall r, out = Ok r -> pub_event_id r ∈ map event_id more.
Proof using honest.
  intros Hlog Hm Hn [Hown Hch] Hb Hroom Hkek E. pose proof (la_seq _ _ _ Hlog) as [Ht0 Hq0].
  apply (channel_publish_honest rpc service_audit limits wake st kek owner channel Hkek m between _ _ log)
    in E as [Hseq Hcases]; [|done..| |exact (la_feed _ _ _ Hlog)].
  2: { intros x Hx. eapply issued_before; [|exact Hm|lia].
       pose proof (la_issued _ _ _ Hlog) as Hi. rewrite Forall_forall in Hi. by apply Hi. }
  assert (Hwrap : wrap_u64 (c_seq c + 1) = c_seq c + 1) by (unfold wrap_u64; apply Z.mod_small; lia).
  rewrite Hwrap in *. destruct Hcases as [[Hf Hout]|(b & r & _ & Hseq' & Hf & Hid)].
  - exists []. rewrite app_nil_r. split_and!; [|lia|cbn; lia|by intros a ->].
    eapply log_at_later; [done|lia|done|lia].
  - set (ev := published channel req m (c_seq c) b r) in *. exists [ev]. split_and!; [|lia|cbn; lia|].
    + split; [done| |lia]. apply Forall_app. split.
      * rewrite Forall_forall. intros e He. pose proof (la_issued _ _ _ Hlog) as Hi. rewrite Forall_forall in Hi.
        eapply issued_later; [by apply Hi|]. lia.
      * repeat constructor. exists (at_millis m), (c_seq c). split_and!; [done|split; lia|lia].
    + intros a Ha. rewrite (Hid a Ha). by apply list_elem_of_singleton.
Qed.

(** The cursor of the next poll. *)
Lemma poll_after g0 t y skipped handled unread cap : at_point g0 t y skipped handled unread ->
  po_after (poll_request (y_task y) cap) = cursor_of owner channel (skipped ++ handled).
Proof using.
  intros Hpt. unfold poll_request, poll_of. cbn. pose proof (pt_cursor _ _ _ _ _ _ Hpt) as Hc.
  destruct (ft_cursor (y_task y)) as [c|]; [by destruct Hc as [-> _]|]. by rewrite Hc.
Qed.

(** An answered poll: the page behind the cursor is handled, or passed over when the
    subscriber had no cursor and had not read the feed before. *)
Lemma turn_answered g0 t y c views skipped handled unread evs next :
  at_point g0 t y skipped handled unread ->
  feed_holds kek owner channel (view (w_store (c_world c))) (skipped ++ handled ++ unread) ->
  c_seq c = c_seq (y_worker y) -> evs = take MAX_LIST_KEYS unread ->
  next = cursor_of owner channel ((skipped ++ handled) ++ evs) ->
  let y' := turn y c views (Ok (evs, next)) in
  let rest := drop MAX_LIST_KEYS unread in
  (ft_priming (y_task y) = true -> skipped = [] /\ handled = [] /\ at_point g0 t y' evs [] rest) /\
  (ft_priming (y_task y) = false -> at_point g0 t y' skipped (handled ++ evs) rest).
Proof using.
  intros [Hf Hi Hq Hp Hc Hk (l & Hl & He) Hac] Hf' Hseq -> Hnext. cbv zeta. unfold turn, feed_turn.
  set (g1 := if ft_priming (y_task y) then _ else _).
  assert (Hcur : g_cursors g1 = g_cursors (y_gate y)).
  { subst g1. destruct (ft_priming (y_task y)); [done|].
    destruct (handle_events_handling (take MAX_LIST_KEYS unread) views (y_gate y)) as (k & _ & -> & ->). done. }
  assert (Hmove : exists tk g2, move_cursor feed next (y_task y) g1 = (tk, g2) /\
    same_effects g1 g2 /\ ft_priming tk = false /\ g_cursors g2 !! feed = ft_cursor tk /\
    match ft_cursor tk with
    | None => ((skipped ++ handled) ++ take MAX_LIST_KEYS unread)%list = []
    | Some cu => cu = next /\ cu <> "" end).
  { unfold move_cursor. destruct (String.eqb_spec next "") as [En|En]; cbn [orb].
    - eexists _, _. split_and!; [done..|by rewrite Hcur, Hp|]. cbn [ft_cursor].
      rewrite Hnext in En. apply cursor_nonempty in En.
      destruct (ft_cursor (y_task y)) as [cu|]; [|done]. destruct Hc as (-> & Hne & _).
      apply app_eq_nil in En as [_ En]. by rewrite Hnext, En, app_nil_r.
    - case_bool_decide as Hd; eexists _, _; split_and!; try done; cbn [ft_cursor set_cursor g_cursors].
      + by rewrite Hcur, Hp.
      + by rewrite Hd.
      + by rewrite lookup_insert_eq. }
  destruct Hmove as (tk & g2 & -> & Heff & Hprim & Hpers & Hcur').
  assert (Hsplit : (skipped ++ handled ++ unread)%list
    = (skipped ++ (handled ++ take MAX_LIST_KEYS unread) ++ drop MAX_LIST_KEYS unread)%list)
    by (by rewrite <-(app_assoc handled), take_drop).
  split; intros Hpr.
  - destruct (ft_cursor (y_task y)) as [cu|] eqn:Ecu; [by destruct Hc as (_ & _ & Hc); rewrite Hpr in Hc|].
    apply app_eq_nil in Hc as [-> ->]. split_and!; [done..|]. cbn [app] in *.
    assert (g1 = y_gate y) as Eg by (by subst g1; rewrite Hpr).
    split; unfold worker_view; cbn [y_worker y_task y_gate y_accepted app];
      rewrite ?app_nil_r, ?take_drop, ?Hseq, ?Hprim; try done.
    + destruct (ft_cursor tk); [by destruct Hcur' as [-> ?]|done].
    + rewrite length_take. lia.
    + exists []. split; [done|]. cbn. destruct He as [Hs1 Hs2], Heff as [He1 He2]. rewrite Eg in *.
      destruct l; [|done]. by split; [rewrite <-He1|rewrite <-He2].
  - split; unfold worker_view; cbn [y_worker y_task y_gate y_accepted];
      rewrite <-?Hsplit, ?Hseq, ?Hprim; try done.
    + rewrite app_assoc. destruct (ft_cursor tk); [by destruct Hcur' as [-> ?]|done].
    + destruct (handle_events_handling (take MAX_LIST_KEYS unread) views (y_gate y)) as (k & Hk1 & Hk2 & _).
      exists (l ++ k)%list. rewrite map_app, Hl, Hk1. split; [done|].
      unfold handling in *. rewrite foldl_app. subst g1. rewrite Hpr, Hk2 in Heff.
      pose proof (handling_effects k _ _ He) as Hh. unfold handling in Hh.
      destruct Hh as [Hh1 Hh2], Heff as [He1 He2]. split; congruence.
Qed.

(** A state that differs in nothing the subscriber's position depends on. *)
Lemma at_point_worker g0 t t' y c skipped handled unread :
  at_point g0 t y skipped handled unread -> t <= t' ->
  feed_holds kek owner channel (view (w_store (c_world c))) (skipped ++ handled ++ unread) ->
  t < t' /\ 0 <= c_seq c \/ c_seq (y_worker y) <= c_seq c ->
  at_point g0 t' {| y_worker := c; y_task := y_task y; y_gate := y_gate y; y_accepted := y_accepted y |}
    skipped handled unread.
Proof using.
  intros [Hf Hi Hq Hp Hc Hk He Hac] Ht Hf' Hseq. split; try done; cbn [y_worker y_task y_gate y_accepted].
  - rewrite Forall_forall in *. intros e He'. eapply issued_later; [by apply Hi|]. lia.
  - lia.
Qed.

(** The feed grows at its end only, and the split moves forward only. *)
Definition moved_on (skipped handled unread skipped' handled' unread' : list ChannelEvent) : Prop :=
  (skipped ++ handled ++ unread)%list `prefix_of` (skipped' ++ handled' ++ unread')%list /\
  handled `prefix_of` handled' /\ ((skipped ++ handled)%list <> [] -> skipped' = skipped).

Lemma moved_on_refl s h u : moved_on s h u s h u.
Proof using. by split_and!. Qed.

Lemma moved_on_trans s h u s1 h1 u1 s2 h2 u2 :
  moved_on s h u s1 h1 u1 -> moved_on s1 h1 u1 s2 h2 u2 -> moved_on s h u s2 h2 u2.
Proof using.
  intros (Hp & Hh & Hs) (Hp' & Hh' & Hs'). split_and!; [by etrans..|]. intros Hne.
  rewrite Hs' by (rewrite Hs by done; destruct Hh as [k ->]; by destruct s, h). by apply Hs.
Qed.

Definition room (y : System Svc) (n : nat) : Prop := c_seq (y_worker y) + Z.of_nat n < 2 ^ 64.

Lemma point_log g0 t y skipped handled unread : at_point g0 t y skipped handled unread ->
  log_at t (y_worker y) (skipped ++ handled ++ unread).
Proof using. by intros [Hf Hi Hq _ _ _ _ _]. Qed.

Lemma publish_step g0 t y skipped handled unread m between req :
  at_point g0 t y skipped handled unread -> t <= at_millis m < 10 ^ 13 ->
  length (fresh_nonce m) = NONCE_LEN -> of_feed (pr_cap req) ->
  keeps_feed kek owner channel between -> c_seq (y_worker y) + 1 < 2 ^ 64 ->
  development_key st = Ok kek ->
  exists y' unread', step (Publish m between req) y = Some y' /\
    at_point g0 (at_millis m) y' skipped handled unread' /\
    c_seq (y_worker y') <= c_seq (y_worker y) + 1 /\ moved_on skipped handled unread skipped handled unread'.
Proof using honest.
  intros Hpt Hm Hn Hcap Hb Hroom Hkek. cbn [step].
  destruct (channel_publish _ _ _ _ _ _ _ _ _) as [c out] eqn:E.
  eapply log_publish in E as (more & [Hf Hi Hq] & Hseq & _ & Hid); [|by eapply point_log|done..].
  rewrite <-!app_assoc in Hf, Hi. eexists _, (unread ++ more)%list. split_and!; [done| |done|].
  - destruct Hpt as [_ _ _ Hp Hc Hk He Hac]. split; try done. cbn [y_accepted]. intros i.
    rewrite !map_app. destruct out as [a|e].
    + intros [Hin| ->%list_elem_of_singleton]%elem_of_app; [|specialize (Hid a eq_refl); set_solver].
      apply Hac in Hin. rewrite !map_app in Hin. set_solver.
    + intros Hin. apply Hac in Hin. rewrite !map_app in Hin. set_solver.
  - unfold moved_on. rewrite !app_assoc. split_and!; [by apply prefix_app_r|done..].
Qed.

Lemma moved_on_page s h u : moved_on s h u s (h ++ take MAX_LIST_KEYS u) (drop MAX_LIST_KEYS u).
Proof using.
  unfold moved_on. rewrite <-(app_assoc h), take_drop. split_and!; [done|by apply prefix_app_r|done].
Qed.

Lemma poll_step g0 t y skipped handled unread m waited cap views :
  at_point g0 t y skipped handled unread -> of_feed cap -> keeps_feed kek owner channel waited ->
  development_key st = Ok kek ->
  exists y' skipped' handled' unread', step (Poll m waited cap views) y = Some y' /\
    at_point g0 t y' skipped' handled' unread' /\ c_seq (y_worker y') = c_seq (y_worker y) /\
    moved_on skipped handled unread skipped' handled' unread'.
Proof using honest.
  intros Hpt [Hown Hch] Hw Hkek. cbn [step]. pose proof (poll_after _ _ _ _ _ _ cap Hpt) as Hafter.
  assert (Hf : feed_holds kek owner channel (worker_view y) ((skipped ++ handled) ++ unread))
    by (rewrite <-app_assoc; exact (pt_feed _ _ _ _ _ _ Hpt)).
  destruct (channel_poll_page rpc service_audit st m waited (y_worker y) (poll_request (y_task y) cap) eq_refl) as [[c out] E].
  rewrite E. cbn [mbind option_bind].
  apply (channel_poll_honest rpc service_audit st kek owner channel Hkek 1 m waited _ _
    (skipped ++ handled) unread) in E as (Hf' & Hseq & Hr); [|done..]. rewrite <-app_assoc in Hf'.
  destruct out as [r|e].
  - destruct (Hr r eq_refl) as [Hev Hcur]. cbn [polled]. cbn in Hev.
    destruct (turn_answered _ _ _ c views _ _ _ _ _ Hpt Hf' Hseq Hev Hcur) as [Hprime Hgo].
    assert (Hsq : c_seq (y_worker (turn y c views (Ok (po_events r, po_cursor r)))) = c_seq (y_worker y)).
    { rewrite <-Hseq. unfold turn. by destruct (feed_turn _ _ _ _ _ _ _) as [[? ?] ?]. }
    destruct (ft_priming (y_task y)).
    + destruct Hprime as (-> & -> & Hpt'); [done|]. eexists _, _, _, _. split_and!; [done|exact Hpt'|done|].
      unfold moved_on. cbn [app]. rewrite Hev. cbn [listed]. by rewrite take_drop.
    + eexists _, _, _, _. split_and!; [done|by apply Hgo|done|]. rewrite Hev. apply moved_on_page.
  - cbn [polled]. eexists _, skipped, handled, unread. split_and!; [done| | |apply moved_on_refl].
    + unfold turn, feed_turn. destruct Hpt as [Hfd Hi Hq Hp Hc Hk He Hac].
      destruct (ungranted _); split; unfold worker_view;
        cbn [y_worker y_task y_gate y_accepted ft_cursor ft_priming]; by rewrite ?Hseq.
    + unfold turn, feed_turn. by destruct (ungranted _).
Qed.

Lemma step_at_point op ops g0 t y skipped handled unread :
  at_point g0 t y skipped handled unread -> timely t (op :: ops) -> room y (length (op :: ops)) ->
  development_key st = Ok kek ->
  exists y' t' skipped' handled' unread', step op y = Some y' /\ timely t' ops /\ room y' (length ops) /\
    at_point g0 t' y' skipped' handled' unread' /\ moved_on skipped handled unread skipped' handled' unread'.
Proof using honest.
  intros Hpt Ht Hroom Hkek. unfold room in *. cbn [length] in Hroom. rewrite Nat2Z.inj_succ in Hroom.
  pose proof (pt_seq _ _ _ _ _ _ Hpt) as [Ht0 Hq0].
  destruct op as [m between req|m waited cap views|views msg| |u|f]; cbn [timely] in Ht.
  - destruct Ht as (Hm & Hn & Hcap & Hb & Ht).
    destruct (publish_step _ _ _ _ _ _ _ _ _ Hpt Hm Hn Hcap Hb ltac:(lia) Hkek) as (y' & u' & Hs & Hpt' & Hq & Hmo).
    exists y', (at_millis m), skipped, handled, u'. split_and!; [done..|lia|done|done].
  - destruct Ht as (Hcap & Hw & Ht).
    destruct (poll_step _ _ _ _ _ _ m waited cap views Hpt Hcap Hw Hkek) as (y' & s' & h' & u' & Hs & Hpt' & Hq & Hmo).
    exists y', t, s', h', u'. split_and!; [done..|lia|done|done].
  - exists (turn y (y_worker y) views (Err msg)), t, skipped, handled, unread.
    split_and!; [done..| | |apply moved_on_refl]; unfold turn, feed_turn;
      destruct (ungranted msg); cbn [y_worker]; try lia;
      destruct Hpt as [Hfd Hi Hq Hp Hc Hk He Hac]; by split.
  - eexists _, t, skipped, handled, unread. split_and!; [done..|cbn; lia| |apply moved_on_refl].
    destruct Hpt as [Hfd Hi Hq Hp Hc Hk He Hac]. split; try done; cbn [y_worker y_task y_gate start_task ft_cursor ft_priming].
    rewrite Hp. destruct (ft_cursor (y_task y)); [|done]. by destruct Hc as (? & ? & _).
  - destruct Ht as [Hu Ht]. eexists _, u, skipped, handled, unread.
    split_and!; [done..|cbn; lia| |apply moved_on_refl].
    eapply at_point_worker; [done|lia|exact (pt_feed _ _ _ _ _ _ Hpt)|cbn; lia].
  - destruct Ht as [Hk Ht]. eexists _, t, skipped, handled, unread.
    split_and!; [done..|cbn; lia| |apply moved_on_refl].
    eapply at_point_worker; [done|lia|apply Hk; exact (pt_feed _ _ _ _ _ _ Hpt)|cbn; lia].
Qed.

Lemma run_at_point ops : forall g0 t y skipped handled unread,
  at_point g0 t y skipped handled unread -> timely t ops -> room y (length ops) -> development_key st = Ok kek ->
  exists y' t' skipped' handled' unread', run ops y = Some y' /\
    at_point g0 t' y' skipped' handled' unread' /\ moved_on skipped handled unread skipped' handled' unread'.
Proof using honest.
  induction ops as [|op ops IH]; intros g0 t y skipped handled unread Hpt Ht Hroom Hkek.
  { exists y, t, skipped, handled, unread. split_and!; [done..|apply moved_on_refl]. }
  destruct (step_at_point op ops g0 t y skipped handled unread) as (y1 & t1 & s1 & h1 & u1 & Hs & Ht1 & Hr1 & Hpt1 & Hm1);
    [done..|]. cbn [run]. rewrite Hs. cbn [mbind option_bind].
  destruct (IH g0 t1 y1 s1 h1 u1) as (y2 & t2 & s2 & h2 & u2 & Hrun & Hpt2 & Hm2); [done..|].
  exists y2, t2, s2, h2, u2. split_and!; [done..|by eapply moved_on_trans].
Qed.

End Delivery.

(** ** Witness: a household's feed *)

Module ToyFeed.
(** Two binary digits a byte. *)
Fixpoint bits (p : positive) : bytes :=
  match p with
  | xO (xO p) => Byte.x00 :: bits p | xI (xO p) => Byte.x01 :: bits p
  | xO (xI p) => Byte.x02 :: bits p | xI (xI p) => Byte.x03 :: bits p
  | xO xH => [Byte.x04] | xI xH => [Byte.x05] | xH => [Byte.x06]
  end.

Fixpoint of_bits (b : bytes) : positive :=
  match b with
  | Byte.x00 :: b => xO (xO (of_bits b)) | Byte.x01 :: b => xI (xO (of_bits b))
  | Byte.x02 :: b => xO (xI (of_bits b)) | Byte.x03 :: b => xI (xI (of_bits b))
  | Byte.x04 :: _ => xO xH | Byte.x05 :: _ => xI xH | _ => xH
  end.

Lemma toy_bits_round : forall p, of_bits (bits p) = p.
Proof. fix IH 1. intros [[p|p|]|[p|p|]|]; cbn; by rewrite ?IH. Qed.

Definition direction_to (d : ChannelDirection) : bool := match d with In => true | Out => false end.
Definition direction_of (b : bool) : ChannelDirection := if b then In else Out.
Definition producer_to (p : ChannelProducer) : string + string * string :=
  match p with SessionScope.Actor a => inl a | SessionScope.Contact c t => inr (c, t) end.
Definition producer_of (p : string + string * string) : ChannelProducer :=
  match p with inl a => SessionScope.Actor a | inr (c, t) => SessionScope.Contact c t end.
Definition audio_to (a : ChannelAudioParams) := (voice a, speech_rate a, audio_format a).
Definition audio_of (a : option string * option Z * option string) : ChannelAudioParams :=
  {| voice := a.1.1; speech_rate := a.1.2; audio_format := a.2 |}.
Definition stamp_to (s : ContactStamp) := (stamp_contact_id s, stamp_tier s).
Definition stamp_of (s : string * string) : ContactStamp := {| stamp_contact_id := s.1; stamp_tier := s.2 |}.

Definition fields (e : ChannelEvent) : list positive :=
  [encode (event_id e); encode (SessionScope.channel_id e); encode (direction_to (direction e)); encode (producer_to (producer e));
   encode (ChannelEventKind_as_str (SessionScope.kind e)); encode (body e); encode (body_ref e); encode (ts_millis e);
   encode (correlation e); encode (audio_to <$> audio e); encode (partial e); encode (seq_no e); encode (stream e);
   encode (stamp_to <$> contact e); encode (content_type e); encode (relay_of e); encode (addressee e)].

Definition of_fields (l : list positive) : option ChannelEvent :=
  match l with
  | [i; c; d; p; k; b; r; t; co; a; pa; sq; s; ct; cy; re; ad] =>
      i ← decode i; c ← decode c; d ← decode d; p ← decode p; ks ← decode k; k ← ChannelEventKind_parse ks;
      b ← decode b; r ← decode r; t ← decode t; co ← decode co; a ← decode a; pa ← decode pa; sq ← decode sq;
      s ← decode s; ct ← decode ct; cy ← decode cy; re ← decode re; ad ← decode ad;
      Some {| event_id := i; channel_id := c; direction := direction_of d; producer := producer_of p; kind := k;
              body := b; body_ref := r; ts_millis := t; correlation := co; audio := audio_of <$> (a : option _); partial := pa;
              seq_no := sq; stream := s; contact := stamp_of <$> (ct : option _); content_type := cy; relay_of := re; addressee := ad |}
  | _ => None
  end.

Lemma of_fields_fields e : of_fields (fields e) = Some e.
Proof.
  destruct e as [i c d p k b r t co a pa sq s ct cy re ad]. unfold fields, of_fields.
  cbn [event_id channel_id direction producer kind body body_ref ts_millis correlation audio partial seq_no stream
       contact content_type relay_of addressee]. rewrite !decode_encode. cbn [mbind option_bind].
  replace (ChannelEventKind_parse (ChannelEventKind_as_str k)) with (Some k) by by destruct k.
  cbn [mbind option_bind]. do 2 f_equal; [by destruct d | by destruct p | by destruct a as [[]|] | by destruct ct as [[]|]].
Qed.

Definition to_vec (e : ChannelEvent) : bytes := bits (positives_flatten (fields e)).
Definition from_slice (b : bytes) : option ChannelEvent := positives_unflatten (of_bits b) ≫= of_fields.

Lemma from_slice_to_vec e : from_slice (to_vec e) = Some e.
Proof. unfold from_slice, to_vec. rewrite toy_bits_round, positives_unflatten_flatten. apply of_fields_fields. Qed.

Definition events : EventJson :=
  {| event_to_vec := to_vec; event_from_slice := from_slice; event_from_to := from_slice_to_vec |}.

#[refine] Definition sha : Sha256 := {| sha256 b := take 32 (drop 80 b ++ replicate 32 Byte.x00)%list |}.
Proof. intros b. rewrite length_take, length_app, length_replicate. lia. Defined.

Definition text : FloatText := {| from_f64 _ := None |}.
Definition serde : SerdeJson := {| json_from_slice _ := Ok (JObject []); json_to_vec _ := [] |}.

#[refine] Definition receipts : ReceiptJson := {|
  receipt_to_vec r := ((if resp_ok r then Byte.x01 else Byte.x00) :: as_bytes (resp_envelope_hash r))%list;
  receipt_from_slice b := match b with
    | f :: h => Some {| resp_ok := bool_decide (f = Byte.x01); resp_envelope_hash := String.string_of_list_byte h |}
    | [] => None end |}.
Proof.
  - intros [o h]. cbn [resp_ok resp_envelope_hash]. unfold as_bytes. rewrite String.string_of_list_byte_of_string.
    by destruct o.
  - intros [o h]. cbn [length resp_envelope_hash]. unfold as_bytes.
    assert (E : length (String.list_byte_of_string h) = String.length h).
    { unfold String.list_byte_of_string. rewrite length_map. induction h as [|c h IH]; [done|]. cbn. by rewrite IH. }
    rewrite E. lia.
Defined.
End ToyFeed.

Section FeedWitness.
#[local] Existing Instances SimpleHex.codec ToyCrypto.crypto ToyFeed.sha SimpleBase64.codec
  ToyVerifier.p256 ToyVerifier.json ToyJson.json ToyAes.aes ToyCbor.ciborium ToyArchive.float ToyFeed.events
  ToyFeed.text ToyFeed.receipts ToyFeed.serde.

Definition feed_limits : ChannelWorkerConfig := default_config.

Definition feed_worker : WorkerState := {|
  config_authority := demo_auth; development_kek := Some (rep64 "d"%char);
  audit := {| em_client := {| base_url := "http://audit"; loopback := true; bearer := Ok None; service_credential := false |};
              Emitter.require := false |} |}.

Definition feed_env : Environment :=
  {| env_clock := fun _ => demo_clock; env_rpc := fun _ => demo_rpc; env_lost := fun _ => false |}.

Definition feed_cap (svc : string) (o : CapOp) : CapToken := demo_cap (demo_payload svc o Channel).

Definition feed_moment (ms : Z) : Moment :=
  {| at_pop := 1600; at_fresh := 1600; at_millis := ms; at_secs := 1600; fresh_nonce := replicate 12 Byte.x05 |}.

Definition feed_request (dir : ChannelDirection) (text : string) : PublishRequest :=
  {| pr_cap := feed_cap "channel-pub:general" ChannelPublish; pr_kind := Text; pr_direction := dir;
     pr_body_b64 := Some (b64_encode (as_bytes text)); pr_body_ref := None; pr_correlation := None;
     pr_audio := None; pr_partial := None; pr_seq := None; pr_stream := None; pr_contact := None;
     pr_content_type := None; pr_relay_of := None; pr_addressee := None |}.

Definition feed_publish (ms : Z) (text : string) : Op (LocalService feed_env) :=
  Publish (feed_moment ms) id (feed_request Out text).

Definition feed_view : GateView := {|
  v_registry := ToyHome.home;
  v_device := {| FeedHop.actor_omni := None; correlations := []; d_last_channel := ∅; d_last_addressee := ∅ |};
  v_transport := {| bots := {["mom" := {| bot_token := "tok"; bot_base_url := ""; bot_id := "b1" |}]};
                    ilink_files := fun _ => {| bot_key_of := ""; context_tokens := {["wx-mom" := "ct"]} |};
                    chat_ids := ∅ |} |}.

Definition feed_poll : Op (LocalService feed_env) :=
  Poll (feed_moment 1) id (feed_cap "channel-sub:general" ChannelSubscribe) (fun _ => feed_view).

Definition feed_gate : Gate := {| g_stages := ∅; g_cursors := ∅; g_sends := [] |}.

Definition feed_gateway : OutboundConfig :=
  {| transport := Ilink; ilink_base_url := "https://ilink"; ilink_state_file := "/state/ilink";
     telegram_bot_token := None; telegram_api_base := "" |}.

Definition feed_start : System (LocalService feed_env) := {|
  y_worker := {| c_world := {| w_store := (demo_store Channel ∅, 0%nat); w_sent := [] |}; c_seq := 0;
                 c_signals := []; c_wakes := [] |};
  y_task := start_task feed_gate "general"; y_gate := feed_gate; y_accepted := [] |}.

(** One event of history, a poll, another event, a restart of the gate, a poll that
    fails and one that does not, one more event after the worker restarted. *)
Definition feed_ops : list (Op (LocalService feed_env)) :=
  [feed_publish 1000 "old"; feed_poll; feed_publish 2000 "dinner"; GateRestarts;
   PollFails (fun _ => feed_view) "channel poll HTTP 503"; feed_poll; WorkerRestarts 3000; feed_publish 3000 "bed"].

Definition feed_run : option (System (LocalService feed_env)) :=
  run demo_rpc (fun _ _ => None) feed_limits false feed_worker (fun _ _ => Ok tt) (fun _ => "") feed_gateway
    "general" feed_ops feed_start.
Lemma feed_run_outcome :
  option_map (fun y => (y_accepted y, g_sends (y_gate y))) feed_run =
  Some (["0000000001000-0000000000000000"; "0000000002000-0000000000000001"; "0000000003000-0000000000000000"],
        [IlinkSend "https://ilink" "tok" "wx-mom" "[Family] dinner" "ct"]).
Proof. vm_compute. reflexivity. Qed.


Lemma feed_cap_of svc o : svc = "channel-pub:general" \/ svc = "channel-sub:general" ->
  of_feed (rep64 "a"%char) "general" (feed_cap svc o).
Proof. by intros [->| ->]; destruct o. Qed.

Lemma feed_ops_timely : timely (rep64 "d"%char) (rep64 "a"%char) "general" 0 feed_ops.
Proof.
  cbn [timely feed_ops feed_publish feed_poll feed_request pr_cap]. split_and!;
    first [done | by intros s l | apply feed_cap_of; auto | cbn; lia].
Qed.

End FeedWitness.
