(* ===== verification/MemorySafety.v ===== *)
(** * Conditional writes of the memory worker

    An update that names the version it was made from replaces that version and no
    other, whatever reaches the storage service between the worker's read and its
    write; and what was put is what a later read returns. *)
From stdpp Require Import countable.
From S2P Require Import Numerals AuditCbor Archive Delivery.
From S2P Require Import Prelude RustStr StrFacts Json SessionScope.
From S2P Require Import Capability DeviceCore Crates CapabilityVerify ObjectStore LocalStore ObjectClient StorageWorker Emitter Vault MemoryWorker ChannelWorker FeedOrder ChannelFeed.

Open Scope string_scope.
Open Scope Z_scope.

Section MemorySafety.
Context `{HexCodec, Crypto, Sha256, P256, CapJson, Base64, Aes256Gcm}.
Context `{Ciborium, JsonFloat, FloatText, ReceiptJson, InboxJson}.
Context {Svc : Type} {svc : ObjectService Svc} {honest : HonestService Svc}.
Variable rpc : string -> string -> string -> nat -> RpcAttempt.
Variable service_audit : Sent -> option string * AuditAppendV2 -> option HttpReply.
Variable st : WorkerState.

(** Two different values the storage service cannot tell apart. *)
Definition sha_collision (a b : bytes) : Prop := a <> b /\ sha256 a = sha256 b.

(** The rows of a key carry the revision of their value. *)
Definition row_sound (objs : objects_table) (k : string) : Prop :=
  forall v rev, objs !! k = Some (v, rev) -> rev = revision_of_value v.

Lemma client_put_checked s cap k b expected s' rev : client_put s cap k b expected = (s', Ok rev) ->
  view s' = <[k := (b, revision_of_value b)]> (view s) /\
  forall e, expected_of (put_request cap k b expected) = Some e -> current_revision (view s) k = e.
Proof using honest.
  intros Hp. pose proof (client_put_honest _ _ _ _ _ _ _ Hp) as [Hw _]. split; [by eapply Hw|].
  intros e He. unfold client_put in Hp. destruct (MAX_OBJECT_BYTES <? len b); [done|].
  destruct (svc_execute s _) as [s1 [resp|err]] eqn:E; [|done].
  apply honest_ok in E. remember (view s1) as objs'. inversion E; subst; try done.
  match goal with Hr : revision_expected _ _ |- _ => by apply Hr in He end.
Qed.

(** The version a conditional write was checked against is the one it replaces. *)
Lemma read_current_base s cap key a s1 current revision :
  read_current st s cap key a = (s1, Ok (current, revision)) ->
  match current with
  | None => revision = ""
  | Some pt => exists kek v, development_key st = Ok kek /\ revision = revision_of_value v /\ decrypt kek v a = Ok pt
  end.
Proof using honest.
  unfold read_current. destruct (client_get s cap key) as [s' [o|e]] eqn:E; intros [= <- Hr].
  - apply let_ok in Hr as (kek & Hk & Hr). apply let_ok in Hr as (pt & Hd%map_err_ok & [= <- <-]).
    exists kek, (obj_bytes o). split_and!; [done| |done].
    unfold client_get in E. destruct (svc_execute s _) as [s2 [resp|err]]; [|done].
    injection E as _ E. by apply accept_get_ok in E as (? & _ & _ & _ & ? & _).
  - destruct e; try done. by injection Hr as <- <-.
Qed.

Lemma verified_op m cap o class : worker_verify rpc st m cap o class = Ok tt -> op (payload cap) = o.
Proof using.
  unfold worker_verify, verify_authority. intros Hv.
  apply let_ok in Hv as (? & _ & Hv). apply let_ok in Hv as (? & _ & Hv).
  apply let_ok in Hv as (? & Ho%map_err_ok & _). unfold check_op in Ho.
  by apply guard_ok in Ho as [Ho%bool_decide_eq_true _].
Qed.

(** The object of a put and of a get, and what seals it. *)
Definition put_key (req : PutRequest) : string :=
  storage_key (actor_omni (payload (mp_cap req))) (service (payload (mp_cap req))) (mp_object_key req).
Definition put_aad (req : PutRequest) : bytes :=
  memory_aad (mp_cap req) (actor_omni (payload (mp_cap req))) (mp_object_key req).

Definition same_object (put : PutRequest) (get : GetRequest) : Prop :=
  memory_read_owner (payload (mg_cap get)) = actor_omni (payload (mp_cap put)) /\
  service (payload (mg_cap get)) = service (payload (mp_cap put)) /\ mg_object_key get = mp_object_key put.

(** What the caller said he had read, told of what was stored when the write happened. *)
Definition base_of (expected : string) (kek : string) (a : bytes) (row : option (bytes * string)) : Prop :=
  match row with
  | None => expected = ""
  | Some (v, _) => exists pt v0, decrypt kek v0 a = Ok pt /\
      to_ascii_lowercase (keccak_hex pt) = to_ascii_lowercase expected /\ (v = v0 \/ sha_collision v v0)
  end.

Lemma base_of_checked expected current revision kek a objs k :
  check_expected_hash expected current = Ok tt -> development_key st = Ok kek ->
  match current with
  | None => revision = ""
  | Some pt => exists kek v, development_key st = Ok kek /\ revision = revision_of_value v /\ decrypt kek v a = Ok pt
  end ->
  row_sound objs k -> current_revision objs k = revision -> base_of expected kek a (objs !! k).
Proof using.
  intros Hc Hkek Hread Hsound Hcur. unfold current_revision in Hcur. unfold base_of.
  apply guard_ok in Hc as [Hc _]. destruct (objs !! k) as [[v rev]|] eqn:Erow.
  - apply Hsound in Erow as ->. destruct current as [pt|].
    + destruct Hread as (kek' & v0 & Hk' & -> & Hd). rewrite Hkek in Hk'. injection Hk' as <-.
      cbn in Hc. reflect_bools. exists pt, v0. split_and!; [done..|].
      apply revision_digest in Hcur. destruct (base.decide (v = v0)); [by left|by right].
    + subst revision. by apply revision_nonempty in Hcur.
  - destruct current as [pt|]; cbn in Hc; reflect_bools; [|done].
    destruct Hread as (kek' & v0 & _ & -> & _). symmetry in Hcur. by apply revision_nonempty in Hcur.
Qed.

Lemma memory_get_row w m req w' resp kek a v rev pt :
  memory_get rpc service_audit st m w req = (w', Ok resp) -> development_key st = Ok kek ->
  view (w_store w) !! storage_key (memory_read_owner (payload (mg_cap req))) (service (payload (mg_cap req))) (mg_object_key req)
    = Some (v, rev) ->
  memory_aad (mg_cap req) (memory_read_owner (payload (mg_cap req))) (mg_object_key req) = a ->
  decrypt kek v a = Ok pt -> mg_plaintext_b64 resp = b64_encode pt.
Proof using honest.
  intros Hg Hkek Hrow Ha Hd. unfold memory_get in Hg. destruct (let? _ := _ in _); [|done].
  unfold memory_read_after_verify in Hg. destruct (on_store _ _) as [w1 outcome] eqn:Eo.
  apply audited_parts in Hg as [_ Hg]. destruct (Hg resp eq_refl) as (b & h & -> & ->). cbn [mg_plaintext_b64].
  unfold on_store, memory_get_inner in Eo. destruct (client_get _ _ _) as [s1 answer] eqn:E.
  injection Eo as _ Eo. apply client_get_honest in E as [_ E].
  apply let_ok in Eo as (o & Ho%map_err_ok & Eo). subst answer. destruct (E o eq_refl) as [rev' Hrow'].
  rewrite Hrow in Hrow'. injection Hrow' as -> _. rewrite Hkek, Ha in Eo.
  apply map_err_ok in Eo. rewrite Hd in Eo. by injection Eo as ->.
Qed.

(** Whatever else reaches the service leaves the key's row sound. *)
Definition keeps_sound (k : string) (f : Svc -> Svc) : Prop :=
  forall s, row_sound (view s) k -> row_sound (view (f s)) k.

Lemma memory_put_inner_ok m between s req s' key env kek :
  memory_put_inner st m between s req = (s', Ok (key, env)) -> development_key st = Ok kek ->
  length (fresh_nonce m) = NONCE_LEN -> op (payload (mp_cap req)) = Store ->
  row_sound (view s) (put_key req) -> keeps_sound (put_key req) between ->
  key = put_key req /\
  exists s0 plaintext, view s0 = view s /\ view s' = <[key := (env, revision_of_value env)]> (view (between s0)) /\
    b64_decode (mp_plaintext_b64 req) = Some plaintext /\ decrypt kek env (put_aad req) = Ok plaintext /\
    match mp_expected_content_hash req with
    | Some e => base_of e kek (put_aad req) (view (between s0) !! key)
    | None => True
    end.
Proof using honest.
  intros Hp Hkek Hn Hop Hsound Hkeeps. unfold memory_put_inner in Hp.
  fold (put_aad req) (put_key req) in Hp. cbv zeta in Hp.
  destruct (let? _ := _ in _) as [env'|e] eqn:Henc; [|done].
  apply let_ok in Henc as (plaintext & Hpt%ok_or_ok & Henc). rewrite Hkek in Henc.
  apply map_err_ok, encrypt_decrypts in Henc; [|done].
  destruct (match mp_expected_content_hash req with Some _ => _ | None => _ end) as [s0 base] eqn:Hbase.
  destruct base as [expected|e]; [|done].
  destruct (client_put _ _ _ _ _) as [s1 answer] eqn:Eput. injection Hp as <- Hp.
  apply let_ok in Hp as (rev & Ha%map_err_ok & [= <- <-]). subst answer.
  apply client_put_checked in Eput as [Hv Hexp]. split; [done|].
  destruct (mp_expected_content_hash req) as [e|]; [|injection Hbase as <- _; exists s, plaintext; by split_and!].
  destruct (read_current _ _ _ _ _) as [s2 read] eqn:Eread. injection Hbase as <- Hbase.
  assert (Hsame : view s2 = view s).
  { unfold read_current in Eread. destruct (client_get _ _ _) as [s3 o] eqn:Eg. injection Eread as <- _.
    by apply client_get_honest in Eg as [? _]. }
  exists s2, plaintext. split_and!; [done..|].
  apply let_ok in Hbase as ([current revision] & -> & Hbase). apply let_ok in Hbase as ([] & Hc & [= <-]).
  apply read_current_base in Eread. eapply base_of_checked; try done; [by apply Hkeeps; rewrite Hsame|]. apply Hexp.
  unfold expected_of, put_request. cbn [cap expected_revision]. by rewrite Hop.
Qed.

(** C11: no update is lost.  An accepted put that names the hash of the version it was made
    from wrote over exactly that version — or over nothing, when it named none — even
    if other requests reached the storage service between the worker's read and its
    write, unless two values have one SHA-256; what it wrote opens to the plaintext of
    the request, and every later answered read of the object returns that plaintext for
    as long as the row is the one it wrote. *)
Theorem memory_put_replaces_base (m : Moment) (between : Svc -> Svc) (w w' : World Svc) (req : PutRequest)
    (r : PutResponse) (kek : string) (Hkek : development_key st = Ok kek)
    (Hnonce : length (fresh_nonce m) = NONCE_LEN)
    (Hsound : row_sound (view (w_store w)) (put_key req)) (Hkeeps : keeps_sound (put_key req) between)
    (Hput : memory_put rpc service_audit st m between w req = (w', Ok r)) :
  s3_key r = put_key req /\
  exists s env plaintext,
    view s = view (w_store w) /\ view (w_store w') = <[put_key req := (env, revision_of_value env)]> (view (between s)) /\
    b64_decode (mp_plaintext_b64 req) = Some plaintext /\ decrypt kek env (put_aad req) = Ok plaintext /\
    match mp_expected_content_hash req with
    | Some expected => base_of expected kek (put_aad req) (view (between s) !! put_key req)
    | None => True
    end /\
    forall m2 w2 get w3 resp,
      memory_get rpc service_audit st m2 w2 get = (w3, Ok resp) -> same_object req get ->
      view (w_store w2) !! put_key req = view (w_store w') !! put_key req ->
      mg_plaintext_b64 resp = b64_encode plaintext.
Proof using honest.
  unfold memory_put in Hput. destruct (let? _ := _ in _) as [[]|e] eqn:Hv; [|done].
  apply let_ok in Hv as ([] & Hop%verified_op & _).
  destruct (on_store _ _) as [w1 outcome] eqn:Eo. apply audited_parts in Hput as [Hst Hput].
  destruct (Hput r eq_refl) as ([key env] & h & -> & ->). cbn [s3_key fst].
  unfold on_store in Eo. destruct (memory_put_inner _ _ _ _ _) as [s1 out] eqn:Ei.
  injection Eo as <- ->. cbn [w_store] in Hst.
  destruct (memory_put_inner_ok _ _ _ _ _ _ _ _ Ei Hkek Hnonce Hop Hsound Hkeeps)
    as (-> & s0 & pt & Hs0 & Hw & Hpt & Hd & Hb).
  split; [done|]. exists s0, env, pt. rewrite Hst. split_and!; try done.
  intros m2 w2 get w3 resp Hg (Ho & Hs & Hk) Hrow. rewrite Hw, lookup_insert_eq in Hrow.
  eapply (memory_get_row w2 m2 get w3 resp kek (put_aad req)); try done.
  - unfold put_key in Hrow. by rewrite Ho, Hs, Hk.
  - unfold put_aad, memory_aad, aad. by rewrite Ho, Hs, Hk.
Qed.
End MemorySafety.

(** ** Witness: a note edited from the version that was read *)

Module ToyInbox.
Definition fields (i : InboxItem) : list positive :=
  [encode (source_delegate_omni i); encode (ns i); encode (item_key i); encode (body_b64 i);
   encode (content_hash i); encode (ts i);
   encode (match kind i with Knowledge => 0 | Skill => 1 | Persona => 2 | Resource => 3 | ContextDoc => 4 end)].

Definition of_fields (l : list positive) : option InboxItem :=
  match l with
  | [d; n; k; b; h; t; c] =>
      d ← decode d; n ← decode n; k ← decode k; b ← decode b; h ← decode h; t ← decode t; c ← decode c;
      Some {| source_delegate_omni := d; ns := n; item_key := k; body_b64 := b; content_hash := h; ts := t;
              kind := (if c =? 0 then Knowledge else if c =? 1 then Skill else if c =? 2 then Persona
                       else if c =? 3 then Resource else ContextDoc) |}
  | _ => None
  end.

#[refine] Definition items : InboxJson := {|
  item_to_vec i := ToyFeed.bits (positives_flatten (fields i));
  item_from_slice b := positives_unflatten (ToyFeed.of_bits b) ≫= of_fields |}.
Proof.
  intros [d n k b h t c]. rewrite ToyFeed.toy_bits_round, positives_unflatten_flatten. cbn [mbind option_bind].
  unfold fields, of_fields. cbn [source_delegate_omni ns item_key body_b64 content_hash ts kind].
  rewrite !decode_encode. cbn [mbind option_bind]. by destruct c.
Defined.
End ToyInbox.

Section MemoryWitness.
#[local] Existing Instances SimpleHex.codec ToyCrypto.crypto ToyFeed.sha SimpleBase64.codec
  ToyVerifier.p256 ToyVerifier.json ToyJson.json ToyAes.aes ToyCbor.ciborium ToyArchive.float
  ToyFeed.text ToyFeed.receipts ToyInbox.items.

Definition note_request (text expected : string) : PutRequest :=
  {| mp_cap := demo_cap (demo_payload "travel" Store Memory); mp_plaintext_b64 := b64_encode (as_bytes text);
     mp_object_key := None; mp_expected_content_hash := Some expected |}.

Definition note_sealed (text : string) : bytes :=
  (ENVELOPE_VERSION_V2 :: replicate 12 Byte.x05 ++ as_bytes text ++ replicate 16 Byte.x00)%list.

Definition note_world : World (LocalService feed_env) :=
  {| w_store := (demo_store Memory {[ put_key (note_request "" "") :=
                   (note_sealed "beach", revision_of_value (note_sealed "beach")) ]}, 0%nat);
     w_sent := [] |}.

Definition note_put (expected : string) : World (LocalService feed_env) * result ApiError PutResponse :=
  memory_put demo_rpc (fun _ _ => None) feed_worker (feed_moment 1) id note_world (note_request "mountains" expected).

(** An edit of another version is refused. *)
Lemma note_outcomes :
  (note_put (keccak_hex (as_bytes "beach"))).2 =
    Ok {| s3_key := "bots/" +:+ rep64 "b"%char +:+ "/memory/travel.enc"; envelope_size := 38; put_audit_hash := None |} /\
  (note_put (keccak_hex (as_bytes "city"))).2 = Err (err_409 "stale_base") /\
  (note_put "").2 = Err (err_409 "stale_base").
Proof. vm_compute. split_and!; reflexivity. Qed.

Example memory_put_replaces_base_witness :
  exists env,
    decrypt (rep64 "d"%char) env (put_aad (note_request "mountains" "")) = Ok (as_bytes "mountains") /\
    objects (w_store (note_put (keccak_hex (as_bytes "beach"))).1).1 !! put_key (note_request "" "")
      = Some (env, revision_of_value env).
Proof.
  destruct (note_put (keccak_hex (as_bytes "beach"))) as [w' out] eqn:E.
  pose proof (proj1 note_outcomes) as Ho. rewrite E in Ho. cbn [snd] in Ho. subst out.
  destruct (memory_put_replaces_base demo_rpc (fun _ _ => None) feed_worker (feed_moment 1) id note_world w'
    (note_request "mountains" (keccak_hex (as_bytes "beach")))
    {| s3_key := "bots/" +:+ rep64 "b"%char +:+ "/memory/travel.enc"; envelope_size := 38; put_audit_hash := None |}
    (rep64 "d"%char) eq_refl eq_refl)
    as (_ & s & env & pt & Hs & Hw & Hpt & Hd & _); [| |exact E|].
  - intros v rev Hrow. change (view (w_store note_world)) with
      ({[ put_key (note_request "" "") := (note_sealed "beach", revision_of_value (note_sealed "beach")) ]}
       : objects_table) in Hrow. apply lookup_singleton_Some in Hrow as [_ Hrow]. injection Hrow as <- <-. reflexivity.
  - intros s Hs. exact Hs.
  - exists env. cbn [note_request mp_plaintext_b64] in Hpt. rewrite b64_decode_encode in Hpt. injection Hpt as <-.
    split; [exact Hd|]. cbn [fst]. change (objects (w_store w').1) with (view (w_store w')). rewrite Hw.
    apply lookup_insert_eq.
Defined.
End MemoryWitness.
