(* ===== verification/DataAudit.v ===== *)
(** * Every answer is on record

    The data-plane routes of the four workers over the audit archive: what an answered
    operation left there when the worker requires its receipts. *)
From S2P Require Import AuditCbor Archive.
From S2P Require Import Prelude RustStr StrFacts Json SessionScope.
From S2P Require Import Capability DeviceCore Crates CapabilityVerify ObjectStore LocalStore ObjectClient StorageWorker Emitter Vault.
From S2P Require MemoryWorker ChannelWorker.
From S2P Require Import Delivery MemorySafety.

Open Scope string_scope.
Open Scope Z_scope.

(** ** The archive behind the emitter *)

Section ArchiveService.
Context `{HexCodec, Crypto, Ciborium, JsonFloat, TypedBodies, ReceiptJson}.

Definition bearer_header (token : option string) : option string :=
  t ← token; Some ("Bearer " +:+ t).

(** The clock and the state of the database at each request. *)
Definition archive_append (up : bool) (now : Z) (a : Archive) (row : option string * AuditAppendV2)
    : Archive * result Failed AuditAppendV2Resp :=
  append_route up now a (bearer_header row.1) row.2.

Fixpoint archive_after (up : nat -> bool) (clock : nat -> Z) (a : Archive) (sent : Sent) : Archive :=
  match sent with
  | [] => a
  | row :: sent => archive_after (fun i => up (S i)) (fun i => clock (S i))
                     (archive_append (up 0%nat) (clock 0%nat) a row).1 sent
  end.

Definition http_reply (status : Z) (b : bytes) : HttpReply :=
  {| http_status := status; content_length := Some (len b); chunks := [b]; broken := false |}.

(** The reply to a request after those already sent. *)
Definition archive_service (up : nat -> bool) (clock : nat -> Z) (a : Archive) (sent : Sent)
    (row : option string * AuditAppendV2) : option HttpReply :=
  let n := length sent in
  match (archive_append (up n) (clock n) (archive_after up clock a sent) row).2 with
  | Ok resp => Some (http_reply 200 (receipt_to_vec resp))
  | Err f => Some (http_reply (Archive.status f) [])
  end.

Lemma archive_after_snoc sent row : forall up clock a,
  archive_after up clock a (sent ++ [row]) =
  (archive_append (up (length sent)) (clock (length sent)) (archive_after up clock a sent) row).1.
Proof.
  induction sent as [|r sent IH]; intros up clock a; [done|]. cbn [app archive_after length]. by rewrite IH.
Qed.

Lemma append_error db now a r a' f : Archive.append db now a r = (a', Err f) -> 400 <= Archive.status f.
Proof.
  unfold Archive.append. cbv zeta. intros E.
  match type of E with (match ?p with _ => _ end) = _ => destruct p as [[[hash operator] b]|e] eqn:Ep end.
  - injection E as _ E. repeat case_match; by simplify_eq.
  - injection E as _ <-. apply let_err in Ep as [(? & _ & <-)%map_err_err|(? & _ & Ep)]; [done|].
    apply let_err in Ep as [[_ <-]%ok_or_err|(? & _ & Ep)]; [done|].
    apply let_err in Ep as [(? & _ & <-)%map_err_err|(? & _ & Ep)]; [done|].
    apply guard_err in Ep as [[_ <-]|[_ Ep]]; [done|].
    apply let_err in Ep as [(? & _ & <-)%map_err_err|(? & _ & Ep)]; [done|].
    by apply guard_err in Ep as [[_ <-]|[_ Ep]].
Qed.

Lemma append_error_status up now a row f :
  (archive_append up now a row).2 = Err f -> 400 <= Archive.status f.
Proof.
  unfold archive_append, append_route. destruct (authenticate a _) as [u|e] eqn:Ea.
  - destruct (Archive.append up now a row.2) as [a' out] eqn:E. cbn [snd]. intros Ho. subst out. by eapply append_error.
  - intros [= <-]. unfold authenticate in Ea. cbv zeta in Ea. case_match; [|done]. by injection Ea as <-.
Qed.

Lemma archive_after_sound sent : forall up clock a,
  (forall i, 0 <= clock i < 2 ^ 64) -> Forall (fun row => request_typed row.2) sent ->
  sound_rows (rows a) -> sound_rows (rows (archive_after up clock a sent)).
Proof.
  induction sent as [|row sent IH]; intros up clock a Hc Ht Ha; [done|].
  apply Forall_cons in Ht as [Hr Ht]. cbn [archive_after]. apply IH; [done..|].
  unfold archive_append, append_route. destruct (authenticate a _); [by apply append_sound|done].
Qed.
End ArchiveService.

(** ** What an audited operation leaves *)

Section Audited.
Context `{HexCodec, Crypto, Ciborium, JsonFloat, TypedBodies, FloatText, ReceiptJson, CapJson}.

(** The envelope names who acted for whom, what was done and how it ended. *)
Definition names (cap : CapToken) (kind : AuditOpKind) (res : AuditResult) (e : AuditEnvelope) : Prop :=
  decode_omni_32 (actor_omni (payload cap)) = Some (AuditCbor.actor_omni e) /\
  decode_omni_32 (operator_omni (payload cap)) = Some (AuditCbor.operator_omni e) /\
  op_kind e = OpKind.as_u8 kind /\ result_of e = res.

(** The row that asks for such an envelope. *)
Definition row_for (cap : CapToken) (kind : AuditOpKind) (res : AuditResult) (row : option string * AuditAppendV2)
    : Prop :=
  request_typed row.2 /\ forall now e, canonical_envelope now row.2 = Ok e -> names cap kind res e.

Lemma append_request_row cap kind body res e token request :
  build_envelope cap kind body res = Some e -> append_request e = Ok request ->
  row_for cap kind res (token, request).
Proof.
  unfold build_envelope. destruct (decode_omni_32 (actor_omni _)) as [actor|] eqn:Ea; cbn [mbind option_bind]; [|done].
  destruct (decode_omni_32 (operator_omni _)) as [operator|] eqn:Eo; cbn [mbind option_bind]; [|done].
  intros [= <-]. unfold append_request. intros (j & _ & [= <-])%let_ok. cbn [envelope_for]. split.
  - pose proof (OpKind.as_u8_byte kind). constructor; cbn -[Z.pow OpKind.as_u8]; unfold ENVELOPE_VERSION; lia.
  - intros now e. unfold canonical_envelope, names. cbn [snd req_version req_actor_omni req_operator_omni
      req_intent_commitment req_result req_ts_unix req_op_kind req_op_body req_intent_text
      AuditCbor.actor_omni AuditCbor.operator_omni result_of op_kind AuditCbor.version intent_commitment mbind option_bind].
    assert (Hd : forall b l x, decode_hex_32 ("0x" +:+ hex_encode b) l = Ok x -> x = b).
    { intros b l x. unfold decode_hex_32. rewrite (proj2 (strip_prefix_spec "0x" _ _) eq_refl).
      cbn [default from_option id]. unfold default, from_option, id. rewrite hex_decode_encode. cbn [ok_or].
      destruct (_ =? _)%nat; [by intros [= <-]|done]. }
    intros (_ & (a & Ha%Hd & (o & Ho%Hd & (r & Hr & [= <-])%let_ok)%let_ok)%let_ok)%guard_ok.
    subst a o. cbn [AuditCbor.actor_omni AuditCbor.operator_omni op_kind result_of].
    rewrite Ea, Eo. split_and!; [done..|]. by destruct res; injection Hr as <-.
Qed.

Lemma emit_row service em sent cap kind body res sent' out :
  emit service em sent cap kind body res = (sent', out) ->
  (sent' = sent \/ exists row, sent' = (sent ++ [row])%list /\ row_for cap kind res row) /\
  (require em = true -> forall h, out = Ok h -> exists token request reply b receipt,
     sent' = (sent ++ [(token, request)])%list /\ row_for cap kind res (token, request) /\
     service sent (token, request) = Some reply /\ client_response (Some reply) = Ok (Some b) /\
     receipt_from_slice b = Some receipt /\ h = Some (resp_envelope_hash receipt)).
Proof.
  unfold emit, emit_failed. destruct (build_envelope cap kind body res) as [e|] eqn:Ee.
  2: { intros [= <- <-]. split; [by left|]. intros ->. done. }
  unfold client_append. destruct (append_request e) as [request|err] eqn:Er.
  2: { intros [= <- <-]. split; [by left|]. intros ->. done. }
  unfold append_json. destruct (client_request (em_client em)) as [token|err].
  2: { intros [= <- <-]. split; [by left|]. intros ->. done. }
  pose proof (append_request_row cap kind body res e token request Ee Er) as Hrow.
  intros [= <- <-]. split; [right; by exists (token, request)|]. intros -> h Hh.
  destruct (let? _ := _ in _) as [receipt|err] eqn:Ea; [|done]. injection Hh as <-.
  apply let_ok in Ea as (answer & Hans & Ea). apply let_ok in Ea as (b & Hb%ok_or_ok & Ea).
  apply let_ok in Ea as (receipt' & Hr%ok_or_ok & Ea). apply guard_ok in Ea as [_ [= <-]]. subst answer.
  destruct (service sent (token, request)) as [reply|] eqn:Es; [|done].
  exists token, request, reply, b, receipt'. by split_and!.
Qed.

(** A receipt taken from the archive is the hash of an envelope it keeps. *)
Lemma archived_receipt up clock a sent row reply b receipt cap kind res :
  (forall i, 0 <= clock i < 2 ^ 64) -> Forall (fun row => request_typed row.2) sent -> sound_rows (rows a) ->
  row_for cap kind res row ->
  archive_service up clock a sent row = Some reply -> client_response (Some reply) = Ok (Some b) ->
  receipt_from_slice b = Some receipt ->
  exists bytes e, fetch true (archive_after up clock a (sent ++ [row])) (resp_envelope_hash receipt) None = Ok bytes /\
    decode_canonical bytes = Ok e /\ names cap kind res e.
Proof.
  intros Hclock Hsent Ha [Htyped Hnames] Hservice Hresp Hreceipt. rewrite archive_after_snoc.
  pose proof (archive_after_sound sent up clock a Hclock Hsent Ha) as Hsound.
  set (z := archive_after up clock a sent) in *. unfold archive_service in Hservice. fold z in Hservice.
  destruct (archive_append _ _ _ _) as [z' [resp|f]] eqn:E; cbn [snd] in Hservice; injection Hservice as <-.
  2: { pose proof (append_error_status (up (length sent)) (clock (length sent)) z row f) as Hst.
       rewrite E in Hst. specialize (Hst eq_refl). unfold client_response in Hresp. cbn [ok_or http_reply http_status] in Hresp.
       destruct (Archive.status f =? 404); [done|].
       destruct (negb ((200 <=? Archive.status f) && (Archive.status f <? 300))) eqn:Hr; [done|]. reflect_bools. lia. }
  assert (Hb : b = receipt_to_vec resp).
  { unfold client_response, http_reply in Hresp. cbn [ok_or http_status chunks broken] in Hresp.
    apply let_ok in Hresp as (x & Hx & [= <-]).
    cbn [read_body] in Hx. by apply guard_ok in Hx as [_ [= <-]]. }
  subst b. rewrite receipt_from_to in Hreceipt. injection Hreceipt as <-. cbn [fst].
  unfold archive_append, append_route in E. destruct (authenticate z _); [|done].
  pose proof (append_cases (up (length sent)) (clock (length sent)) z row.2) as Hc.
  pose proof (append_sound (up (length sent)) (clock (length sent)) z row.2 Htyped (Hclock _) Hsound) as Hs'.
  rewrite E in Hc, Hs'. cbn [fst] in Hs'. destruct Hc as (e & bytes & He & _ & Hb & _ & -> & Hrow).
  destruct (canonical_envelope_typed _ _ _ Htyped (Hclock _) He) as [Hwt Hv].
  exists bytes, (with_body e (canonicalize (op_body e))). split_and!.
  - cbn [resp_envelope_hash]. eapply fetch_sound; [done| |apply normalize_hash_text, keccak256_length|done].
    destruct Hrow as [[Hrow ->]|[_ ->]]; [done|]. apply lookup_insert_eq.
  - pose proof (decode_encoded e bytes Hwt Hb) as Hd. by rewrite Hv, Z.eqb_refl in Hd.
  - exact (Hnames _ _ He).
Qed.
End Audited.

(** ** The routes *)

Section Routes.
Context `{HexCodec, Crypto, Sha256, P256, CapJson, Base64, StorageWorker.Aes256Gcm}.
Context `{Ciborium, JsonFloat, TypedBodies, FloatText, ReceiptJson, MemoryWorker.InboxJson, ChannelWorker.EventJson}.
Context {Svc : Type} `{ObjectService Svc}.
Variable rpc : string -> string -> string -> nat -> RpcAttempt.
Variable service_audit : Sent -> option string * AuditAppendV2 -> option HttpReply.
Variable limits : ChannelWorker.ChannelWorkerConfig.
Variable wake : bool.
Variable st : WorkerState.

(** The receipt a reply carries; the replies about media carry none. *)
Definition receipt_of {R} (hash : R -> option string) (out : result ApiError R) : result ApiError (option string) :=
  let? r := out in Ok (hash r).

(** One request to any data-plane route of the four workers: its capability, the operation
    it puts on record — none for the four that only look into the credentials' names or the
    inbox, or take a note out of it —, its world before and after and the receipt in the
    reply. *)
Inductive served : World Svc -> CapToken -> option AuditOpKind -> World Svc -> result ApiError (option string) -> Prop :=
| served_cred_store m w req w' out : cred_store rpc service_audit st m w req = (w', out) ->
    served w (store_cap req) (Some OpKind.CredStore) w' (receipt_of put_audit_hash out)
| served_cred_fetch m w req w' out : cred_fetch rpc service_audit st m w req = (w', out) ->
    served w (fetch_cap req) (Some OpKind.CredFetch) w' (receipt_of fetch_audit_hash out)
| served_cred_teardown fuel m w cap w' out : cred_teardown rpc service_audit fuel st m w cap = Some (w', out) ->
    served w cap (Some OpKind.CredTeardown) w' (receipt_of teardown_audit_hash out)
| served_config_put m w req w' out : config_put rpc service_audit st m w req = (w', out) ->
    served w (cp_cap req) (Some OpKind.ConfigPut) w' (receipt_of put_audit_hash out)
| served_config_get m w cap w' out : config_get rpc service_audit st m w cap = (w', out) ->
    served w cap (Some OpKind.ConfigGet) w' (receipt_of get_audit_hash out)
| served_config_teardown fuel m w cap w' out : config_teardown rpc service_audit fuel st m w cap = Some (w', out) ->
    served w cap (Some OpKind.ConfigTeardown) w' (receipt_of teardown_audit_hash out)
| served_memory_put m between w req w' out : MemoryWorker.memory_put rpc service_audit st m between w req = (w', out) ->
    served w (MemoryWorker.mp_cap req) (Some OpKind.MemoryPut) w' (receipt_of put_audit_hash out)
| served_memory_get m w req w' out : MemoryWorker.memory_get rpc service_audit st m w req = (w', out) ->
    served w (MemoryWorker.mg_cap req) (Some OpKind.MemoryGet) w' (receipt_of MemoryWorker.mg_audit_hash out)
| served_canonical_get m w req w' out : MemoryWorker.memory_canonical_get rpc service_audit st m w req = (w', out) ->
    served w (MemoryWorker.mg_cap req) (Some OpKind.MemoryGet) w' (receipt_of MemoryWorker.mg_audit_hash out)
| served_memory_teardown fuel m w cap w' out : MemoryWorker.memory_teardown rpc service_audit fuel st m w cap = Some (w', out) ->
    served w cap (Some OpKind.MemoryTeardown) w' (receipt_of teardown_audit_hash out)
| served_inbox_append m w req w' out : MemoryWorker.memory_inbox_append rpc service_audit st m w req = (w', out) ->
    served w (MemoryWorker.ia_cap req) (Some OpKind.MemoryInboxAppend) w' (receipt_of MemoryWorker.ia_audit_hash out)
| served_publish m between c req c' out :
    ChannelWorker.channel_publish rpc service_audit limits wake st m between c req = (c', out) ->
    served (ChannelWorker.c_world c) (ChannelWorker.pr_cap req) (Some OpKind.ChannelPublish) (ChannelWorker.c_world c')
      (receipt_of ChannelWorker.pub_audit_hash out)
| served_blob_put m c req c' out : ChannelWorker.channel_blob_put rpc service_audit limits st m c req = (c', out) ->
    served (ChannelWorker.c_world c) (ChannelWorker.bp_cap req) (Some OpKind.ChannelPublish) (ChannelWorker.c_world c')
      (receipt_of (fun _ => None) out)
| served_blob_get m c req c' out : ChannelWorker.channel_blob_get rpc service_audit st m c req = (c', out) ->
    served (ChannelWorker.c_world c) (ChannelWorker.bg_cap req) (Some OpKind.ChannelSubscribe) (ChannelWorker.c_world c')
      (receipt_of (fun _ => None) out)
| served_teardown fuel m c cap c' out :
    ChannelWorker.channel_teardown rpc service_audit fuel st m c cap = Some (c', out) ->
    served (ChannelWorker.c_world c) cap (Some OpKind.ChannelTeardown) (ChannelWorker.c_world c')
      (receipt_of teardown_audit_hash out)
| served_poll fuel m waited c req c' out :
    ChannelWorker.channel_poll rpc service_audit fuel st m waited c req = Some (c', out) ->
    served (ChannelWorker.c_world c) (ChannelWorker.po_cap req) (Some OpKind.ChannelSubscribe) (ChannelWorker.c_world c')
      (receipt_of ChannelWorker.po_audit_hash out)
| served_cred_list fuel m w cap w' out : cred_list_route rpc fuel st m w cap = Some (w', out) ->
    served w cap None w' (receipt_of (fun _ => None) out)
| served_inbox_list fuel m w cap w' out : MemoryWorker.memory_inbox_list rpc fuel st m w cap = Some (w', out) ->
    served w cap None w' (receipt_of (fun _ => None) out)
| served_inbox_get m w cap k w' out : MemoryWorker.memory_inbox_get rpc st m w cap k = (w', out) ->
    served w cap None w' (receipt_of (fun _ => None) out)
| served_inbox_delete m w cap k w' out : MemoryWorker.memory_inbox_delete rpc st m w cap k = (w', out) ->
    served w cap None w' (receipt_of (fun _ => None) out).

(** What a route leaves in the audit log, and what its receipt stands for. *)
Definition on_record (w w' : World Svc) (cap : CapToken) (kind : AuditOpKind) (reply : result ApiError (option string))
    : Prop :=
  (w_sent w' = w_sent w \/ exists row res, w_sent w' = (w_sent w ++ [row])%list /\ row_for cap kind res row) /\
  (require (audit st) = true -> forall h, reply = Ok h -> exists token request answer b receipt,
     w_sent w' = (w_sent w ++ [(token, request)])%list /\ row_for cap kind Success (token, request) /\
     service_audit (w_sent w) (token, request) = Some answer /\ client_response (Some answer) = Ok (Some b) /\
     receipt_from_slice b = Some receipt /\ forall x, h = Some x -> x = resp_envelope_hash receipt).

Lemma refused_on_record w w' cap kind e : w_sent w' = w_sent w -> on_record w w' cap kind (Err e).
Proof using. intros E. split; [by left|done]. Qed.

Lemma audited_on_record {A R} (w : World Svc) cap kind body (outcome : result ApiError A)
    (answer : A -> option string -> R) hash w' out (w0 w1 : World Svc) :
  audited service_audit (audit st) w cap kind body outcome answer = (w', out) ->
  (forall a h, hash (answer a h) = h \/ hash (answer a h) = None) -> w_sent w0 = w_sent w -> w_sent w1 = w_sent w' ->
  on_record w0 w1 cap kind (receipt_of hash out).
Proof using.
  intros Ha Hh E0 E1. unfold audited in Ha. destruct (emit _ _ _ _ _ _ _) as [sent receipt] eqn:E.
  injection Ha as <- <-. cbn [w_sent] in E1. apply emit_row in E as [Hor Hreq]. unfold on_record. rewrite E0, E1. split.
  - destruct Hor as [->|(row & -> & Hrow)]; [by left|right]. by exists row, (outcome_result outcome).
  - intros Hr h Hout. unfold receipt_of in Hout. apply let_ok in Hout as (r & Hout & [= <-]).
    apply let_ok in Hout as (a & -> & Hout). apply let_ok in Hout as (h & -> & [= <-]).
    destruct (Hreq Hr h eq_refl) as (token & request & reply & b & rc & ? & ? & ? & ? & ? & ->).
    exists token, request, reply, b, rc. split_and!; [done..|]. intros x Hx.
    destruct (Hh a (Some (resp_envelope_hash rc))) as [E|E]; rewrite E in Hx; [by injection Hx as <-|done].
Qed.

Lemma torn_down_on_record (w w0 w1 : World Svc) cap kind body loop w' out :
  torn_down service_audit st w cap kind body loop = Some (w', out) ->
  w_sent w0 = w_sent w -> w_sent w1 = w_sent w' -> on_record w0 w1 cap kind (receipt_of teardown_audit_hash out).
Proof using.
  unfold torn_down. destruct loop as [[s outcome]|]; cbn [mbind option_bind]; [|done]. intros [= Ha].
  intros E0 E1. eapply audited_on_record; [exact Ha|by left|done..].
Qed.

Lemma on_store_sent {A} (w : World Svc) (work : Svc * result ApiError A) w' out :
  on_store w work = (w', out) -> w_sent w' = w_sent w.
Proof using. by intros [= <- _]. Qed.

Ltac on_route Hs :=
  repeat lazymatch type of Hs with
  | audited _ _ _ _ _ _ _ _ = _ =>
      eapply audited_on_record; [exact Hs | intros; solve [by left | by right] | solve [done | symmetry; by eapply on_store_sent] | done]
  | torn_down _ _ _ _ _ _ _ = Some _ => eapply torn_down_on_record; [exact Hs|done..]
  | (_, Err _) = _ => injection Hs as <- <-; by apply refused_on_record
  | Some (_, Err _) = _ => injection Hs as <- <-; by apply refused_on_record
  | (match ?x with _ => _ end) = _ => destruct x eqn:?
  end.

Lemma channel_on_record w cap kind w' reply :
  (exists m between c req c' out, w = ChannelWorker.c_world c /\ w' = ChannelWorker.c_world c' /\
     ChannelWorker.channel_publish rpc service_audit limits wake st m between c req = (c', out) /\
     cap = ChannelWorker.pr_cap req /\ kind = OpKind.ChannelPublish /\
     reply = receipt_of ChannelWorker.pub_audit_hash out) -> on_record w w' cap kind reply.
Proof using.
  intros (m & between & c & req & c' & out & -> & -> & Hs & -> & -> & ->).
  unfold ChannelWorker.channel_publish in Hs.
  destruct (ChannelWorker.channel_verify _ _ _ _ _) as [ch|e]; [|injection Hs as <- <-; by apply refused_on_record].
  destruct (ChannelWorker.channel_publish_inner _ _ _ _ _ _ _) as [c1 outcome] eqn:Ei.
  assert (Hsent : w_sent (ChannelWorker.c_world c1) = w_sent (ChannelWorker.c_world c)).
  { unfold ChannelWorker.channel_publish_inner in Ei. destruct (ChannelWorker.publish_body _ _) as [[b r]|e];
      [|by injection Ei as <- _]. destruct (let? _ := _ in _); [|by injection Ei as <- _].
    destruct (client_put _ _ _ _ _) as [s answer]. by injection Ei as <- _. }
  destruct (audited _ _ _ _ _ _ _ _) as [w1 answer] eqn:Ea. injection Hs as <- <-.
  eapply audited_on_record; [exact Ea|by left|done|]. by destruct outcome.
Qed.

Lemma blob_put_on_record m c req c' out :
  ChannelWorker.channel_blob_put rpc service_audit limits st m c req = (c', out) ->
  on_record (ChannelWorker.c_world c) (ChannelWorker.c_world c') (ChannelWorker.bp_cap req) OpKind.ChannelPublish
    (receipt_of (fun _ => None) out).
Proof using.
  intros Hs. unfold ChannelWorker.channel_blob_put in Hs.
  destruct (let? _ := _ in _) as [[[ch b] ct]|e]; [|injection Hs as <- <-; by apply refused_on_record].
  destruct (let? _ := _ in _) as [env|e]; [|injection Hs as <- <-; by apply refused_on_record].
  destruct (client_put _ _ _ _ _) as [s put]. destruct (audited _ _ _ _ _ _ _ _) as [w1 answer] eqn:Ea.
  injection Hs as <- <-. eapply audited_on_record; [exact Ea|by right|done..].
Qed.

Lemma blob_get_on_record m c req c' out :
  ChannelWorker.channel_blob_get rpc service_audit st m c req = (c', out) ->
  on_record (ChannelWorker.c_world c) (ChannelWorker.c_world c') (ChannelWorker.bg_cap req) OpKind.ChannelSubscribe
    (receipt_of (fun _ => None) out).
Proof using.
  intros Hs. unfold ChannelWorker.channel_blob_get in Hs.
  destruct (let? _ := _ in _) as [ch|e]; [|injection Hs as <- <-; by apply refused_on_record].
  destruct (on_store _ _) as [w1 fetched] eqn:Eo. apply on_store_sent in Eo.
  destruct (audited _ _ _ _ _ _ _ _) as [w2 answer] eqn:Ea. injection Hs as <- <-.
  eapply audited_on_record; [exact Ea|by right|done..].
Qed.

Lemma poll_on_record fuel m waited c req c' out :
  ChannelWorker.channel_poll rpc service_audit fuel st m waited c req = Some (c', out) ->
  on_record (ChannelWorker.c_world c) (ChannelWorker.c_world c') (ChannelWorker.po_cap req) OpKind.ChannelSubscribe
    (receipt_of ChannelWorker.po_audit_hash out).
Proof using.
  intros Hs. unfold ChannelWorker.channel_poll in Hs.
  destruct (ChannelWorker.channel_verify _ _ _ _ _) as [ch|e]; [|injection Hs as <- <-; by apply refused_on_record].
  cbv zeta in Hs. destruct (ChannelWorker.channel_list_after _ _ _ _ _ _ _ _) as [[s1 l1]|]; cbn [mbind option_bind] in Hs; [|done].
  set (second := match l1 with Ok [] => _ | _ => _ end) in Hs.
  destruct second as [[s2 l2]|]; cbn [mbind option_bind] in Hs; [|done].
  destruct l2 as [evs|e]; [|injection Hs as <- <-; by apply refused_on_record].
  destruct (audited _ _ _ _ _ _ _ _) as [w2 answer] eqn:Ea. injection Hs as <- <-.
  eapply audited_on_record; [exact Ea|by left|done..].
Qed.

Lemma feed_teardown_on_record fuel m c cap c' out :
  ChannelWorker.channel_teardown rpc service_audit fuel st m c cap = Some (c', out) ->
  on_record (ChannelWorker.c_world c) (ChannelWorker.c_world c') cap OpKind.ChannelTeardown
    (receipt_of teardown_audit_hash out).
Proof using.
  intros Hs. unfold ChannelWorker.channel_teardown in Hs.
  destruct (let? _ := _ in _) as [ch|e]; [|injection Hs as <- <-; by apply refused_on_record].
  destruct (torn_down _ _ _ _ _ _ _) as [[w answer]|] eqn:Et; cbn [mbind option_bind] in Hs; [|done].
  injection Hs as <- <-. eapply torn_down_on_record; [exact Et|done..].
Qed.

(** Every route: what it leaves, and what its receipt stands for. *)
Lemma served_silently w cap w' reply : served w cap None w' reply -> w_sent w' = w_sent w.
Proof using.
  intros Hs. inversion Hs as [| | | | | | | | | | | | | | | |fuel m ? ? ? out Hr|fuel m ? ? ? out Hr|m ? ? k ? out Hr|m ? ? k ? out Hr];
    subst; clear Hs.
  - unfold cred_list_route in Hr. destruct (cred_list _ _ _ _) as [[s o]|]; [|done]. by injection Hr as <- <-.
  - unfold MemoryWorker.memory_inbox_list in Hr. case_match; [|by injection Hr as <- <-].
    destruct (MemoryWorker.inbox_pages _ _ _ _ _ _ _ _) as [[s o]|]; [|done]. by injection Hr as <- <-.
  - unfold MemoryWorker.memory_inbox_get in Hr. case_match; [|by injection Hr as <- <-].
    destruct (MemoryWorker.inbox_read_item _ _ _ _ _) as [s o]. by injection Hr as <- <-.
  - unfold MemoryWorker.memory_inbox_delete in Hr. case_match; [|by injection Hr as <- <-].
    destruct (client_delete _ _ _ _) as [s o]. by injection Hr as <- <-.
Qed.

Lemma served_on_record w cap kind w' reply : served w cap (Some kind) w' reply -> on_record w w' cap kind reply.
Proof using.
  intros Hserved. inversion Hserved as [m ? req ? out Hs|m ? req ? out Hs|fuel m ? ? ? out Hs|m ? req ? out Hs
    |m ? ? ? out Hs|fuel m ? ? ? out Hs|m between ? req ? out Hs|m ? req ? out Hs|m ? req ? out Hs
    |fuel m ? ? ? out Hs|m ? req ? out Hs|m between c req c' out Hs|m c req c' out Hs|m c req c' out Hs
    |fuel m c ? c' out Hs|fuel m waited c req c' out Hs| | | |]; subst; clear Hserved.
  - unfold cred_store in Hs. on_route Hs.
  - unfold cred_fetch in Hs. on_route Hs.
  - unfold cred_teardown in Hs. on_route Hs.
  - unfold config_put in Hs. on_route Hs.
  - unfold config_get in Hs. on_route Hs.
  - unfold config_teardown in Hs. on_route Hs.
  - unfold MemoryWorker.memory_put in Hs. on_route Hs.
  - unfold MemoryWorker.memory_get, MemoryWorker.memory_read_after_verify in Hs. on_route Hs.
  - unfold MemoryWorker.memory_canonical_get, MemoryWorker.memory_read_after_verify in Hs. on_route Hs.
  - unfold MemoryWorker.memory_teardown in Hs. on_route Hs.
  - unfold MemoryWorker.memory_inbox_append in Hs. on_route Hs.
  - apply channel_on_record. by exists m, between, c, req, c', out.
  - by eapply blob_put_on_record.
  - by eapply blob_get_on_record.
  - by eapply feed_teardown_on_record.
  - by eapply poll_on_record.
Qed.
End Routes.

(** ** On record *)

Section OnRecord.
Context `{HexCodec, Crypto, Sha256, P256, CapJson, Base64, StorageWorker.Aes256Gcm}.
Context `{Ciborium, JsonFloat, TypedBodies, FloatText, ReceiptJson, MemoryWorker.InboxJson, ChannelWorker.EventJson}.
Context {Svc : Type} `{ObjectService Svc}.

Lemma archive_append_keeps up now a row k v :
  rows a !! k = Some v -> rows (archive_append up now a row).1 !! k = Some v.
Proof using. unfold archive_append, append_route. destruct (authenticate a _); [apply append_keeps|done]. Qed.

Lemma archive_after_keeps sent k v : forall up clock a,
  rows a !! k = Some v -> rows (archive_after up clock a sent) !! k = Some v.
Proof using.
  induction sent as [|row sent IH]; intros up clock a Hk; [done|]. cbn [archive_after].
  by apply IH, archive_append_keeps.
Qed.

Lemma archive_after_app sent later : forall up clock a,
  archive_after up clock a (sent ++ later) =
  archive_after (fun i => up (length sent + i)%nat) (fun i => clock (length sent + i)%nat) (archive_after up clock a sent) later.
Proof using.
  induction sent as [|row sent IH]; intros up clock a; [done|]. cbn [app archive_after length]. by rewrite IH.
Qed.

Lemma fetch_row a hash bytes : fetch true a hash None = Ok bytes ->
  exists k o, normalize_hash hash = Some k /\ rows a !! k = Some (bytes, o).
Proof using.
  unfold fetch. intros (k & Hk%ok_or_ok & Hf)%let_ok.
  apply let_ok in Hf as (b & Hb%ok_or_ok & Hf).
  apply let_ok in Hf as (e & _ & Hf). apply let_ok in Hf as (h & _ & Hf). apply guard_ok in Hf as [_ [= <-]].
  destruct (rows a !! k) as [[b' o]|] eqn:E; cbn [mbind option_bind] in Hb; [|done].
  injection Hb as <-. by exists k, o.
Qed.

(** C10: every recorded operation is on record.  A worker that requires its receipts, over
    an archive that was sound when it started, answers a request that stores, fetches or
    tears down credentials, reads, writes or tears down configuration or memory, appends to
    the inbox, or publishes, polls, tears down or moves media on a channel, only if the
    archive holds, under the hash in the reply, an envelope naming the capability's actor
    and operator, the operation and its success; the envelope stays fetchable whatever is
    appended later, and the request left exactly that one row.  Answered or refused, with
    or without receipts, such a request leaves at most one row, and none that names anyone
    or anything else.  The four other routes — the list of credentials and the list, the
    reading and the deletion of inbox notes — leave no row at all, also under required
    receipts. *)
Theorem answers_on_record (up : nat -> bool) (clock : nat -> Z) (a : Archive)
    (rpc : string -> string -> string -> nat -> RpcAttempt) (limits : ChannelWorker.ChannelWorkerConfig) (wake : bool)
    (st : WorkerState) (w w' : World Svc) (cap : CapToken) (op : option AuditOpKind)
    (reply : result ApiError (option string))
    (Hclock : forall i, 0 <= clock i < 2 ^ 64) (Hrows : sound_rows (rows a))
    (Hsent : Forall (fun row => request_typed row.2) (w_sent w))
    (Hserved : served rpc (archive_service up clock a) limits wake st w cap op w' reply) :
  match op with
  | None => w_sent w' = w_sent w
  | Some kind =>
      (exists new, w_sent w' = (w_sent w ++ new)%list /\ (length new <= 1)%nat /\
         Forall (fun row => exists res, row_for cap kind res row) new) /\
      (require (audit st) = true -> forall h, reply = Ok h -> exists row hash bytes e,
         w_sent w' = (w_sent w ++ [row])%list /\ (forall x, h = Some x -> x = hash) /\
         decode_canonical bytes = Ok e /\ names cap kind Success e /\
         forall later, Forall (fun row => request_typed row.2) later ->
           fetch true (archive_after up clock a (w_sent w' ++ later)) hash None = Ok bytes)
  end.
Proof.
  destruct op as [kind|]; [|by eapply served_silently].
  apply served_on_record in Hserved as [Hor Hreq]. split.
  - destruct Hor as [->|(row & res & -> & Hrow)]; [exists []; rewrite app_nil_r; by split_and!; [|cbn; lia|]|].
    exists [row]. split_and!; [done|done|]. apply Forall_cons. split; [by exists res|constructor].
  - intros Hr h ->. destruct (Hreq Hr h eq_refl) as (token & request & answer & b & receipt & Hs & Hrow & Ha & Hb & Hrc & Hh).
    destruct (archived_receipt up clock a (w_sent w) (token, request) answer b receipt cap kind Success)
      as (bytes & e & Hf & Hd & Hn); [done..|].
    exists (token, request), (resp_envelope_hash receipt), bytes, e. split_and!; [done..|].
    intros later Hlater. rewrite <-Hs in Hf. apply fetch_row in Hf as (k & o & Hk & Hkrow).
    rewrite archive_after_app. eapply fetch_sound; [|by apply archive_after_keeps|done|done].
    apply archive_after_sound; [done..|]. rewrite Hs. apply archive_after_sound; [done| |done].
    apply Forall_app. split; [done|]. apply Forall_singleton, (proj1 Hrow).
Qed.
End OnRecord.

(** ** Witness: a note stored under receipt *)

Section RecordWitness.
#[local] Existing Instances SimpleHex.codec ToyCrypto.crypto ToyFeed.sha SimpleBase64.codec
  ToyVerifier.p256 ToyVerifier.json ToyJson.json ToyAes.aes ToyCbor.ciborium ToyArchive.float ToyArchive.bodies
  ToyFeed.text ToyFeed.receipts ToyInbox.items ToyFeed.events.

Definition strict_worker : WorkerState := {|
  config_authority := demo_auth; development_kek := Some (rep64 "d"%char);
  audit := {| em_client := {| base_url := "http://audit"; loopback := true; bearer := Ok (Some ToyArchive.secret);
                              service_credential := true |};
              require := true |} |}.

Definition strict_audit : Sent -> option string * AuditAppendV2 -> option HttpReply :=
  archive_service (fun _ => true) (fun i => 5 + Z.of_nat (i mod 7)) ToyArchive.fresh.

Definition strict_put (svc : string) : World (LocalService feed_env) * result ApiError PutResponse :=
  MemoryWorker.memory_put demo_rpc strict_audit strict_worker (feed_moment 1) id note_world
    (note_request "mountains" (keccak_hex (as_bytes svc))).

Definition strict_receipt : string := "0x78029b25af48d25cf57f18a22cc54fd972fc951fa942cc56ef79129c26bf49e2".

Lemma strict_put_outcome :
  (strict_put "beach").2 = Ok {| s3_key := "bots/" +:+ rep64 "b"%char +:+ "/memory/travel.enc";
                                 envelope_size := 38; put_audit_hash := Some strict_receipt |}.
Proof. vm_compute. reflexivity. Qed.

Example answers_on_record_witness :
  exists row bytes e,
    w_sent (strict_put "beach").1 = [row] /\ decode_canonical bytes = Ok e /\
    names (demo_cap (demo_payload "travel" Store Memory)) OpKind.MemoryPut Success e /\
    fetch true (archive_after (fun _ => true) (fun i => 5 + Z.of_nat (i mod 7)) ToyArchive.fresh
      (w_sent (strict_put "beach").1)) strict_receipt None = Ok bytes.
Proof.
  destruct (strict_put "beach") as [w' out] eqn:E.
  pose proof strict_put_outcome as Ho. rewrite E in Ho. cbn [snd] in Ho. subst out.
  destruct (answers_on_record (fun _ => true) (fun i => 5 + Z.of_nat (i mod 7)) ToyArchive.fresh demo_rpc
    ChannelWorker.default_config false strict_worker note_world w' (demo_cap (demo_payload "travel" Store Memory))
    (Some OpKind.MemoryPut) (Ok (Some strict_receipt))) as [_ Hrec].
  - intros i. pose proof (Nat.mod_upper_bound i 7 ltac:(lia)). lia.
  - intros h b o Hrow. change (rows ToyArchive.fresh) with (∅ : envelopes) in Hrow. by rewrite lookup_empty in Hrow.
  - constructor.
  - exact (served_memory_put _ _ _ _ _ (feed_moment 1) id note_world
      (note_request "mountains" (keccak_hex (as_bytes "beach"))) w' _ E).
  - destruct (Hrec eq_refl (Some strict_receipt) eq_refl) as (row & hash & bytes & e & Hs & Hh & Hd & Hn & Hf).
    exists row, bytes, e. cbn [fst]. split_and!; [exact Hs|exact Hd|exact Hn|].
    rewrite (Hh strict_receipt eq_refl). specialize (Hf [] (Forall_nil_2 _)). by rewrite app_nil_r in Hf.
Defined.
End RecordWitness.
