(* ===== verification/DelegateStream.v ===== *)
(** * A reply streamed while it is written

    [SseParser], [DeltaCoalescer] and [bridge_chat_stream] of
    [crates/agentkeys-daemon/src/chat_loop.rs]: the delegate reads its model's answer
    as it comes, publishes it to the feed in pieces, and keeps the whole of it for the
    final event. *)
From S2P Require Import Prelude RustStr StrFacts Crates Json ChannelWorker.

Open Scope string_scope.
Open Scope Z_scope.

(** ** The frames of the stream *)

Definition LF : Ascii.ascii := "010"%char.
Definition CR : Ascii.ascii := "013"%char.
Definition FRAME_END : string := String LF (String LF "").

Definition strip_cr (line : string) : string := default line (strip_suffix_char CR line).

(** [s.lines()]: a line ends with a line feed or with both; the last may have no end. *)
Definition str_lines (s : string) : list string :=
  match rev (split_char LF s) with
  | [] => []
  | final :: ended => (map strip_cr (rev ended) ++ (if String.eqb final "" then [] else [final]))%list
  end.

Section Frames.
Context `{SerdeJson}.

Definition line_value (line : string) : list Json :=
  match strip_prefix "data: " line with
  | Some data => match json_from_slice (as_bytes data) with Ok v => [v] | Err _ => [] end
  | None => []
  end.

Definition frame_values (frame : string) : list Json := flat_map line_value (str_lines frame).

(** The loop of [feed]: every complete frame is taken off the front of the buffer.  A
    frame is two bytes at least, so the length of the buffer is fuel enough. *)
Fixpoint drain_frames (fuel : nat) (buf : string) : list Json * string :=
  match fuel with
  | O => ([], buf)
  | S fuel =>
      match split_text FRAME_END buf with
      | None => ([], buf)
      | Some (before, rest) =>
          let '(out, buf) := drain_frames fuel rest in
          ((frame_values (before +:+ FRAME_END) ++ out)%list, buf)
      end
  end.

Definition parser_feed (buf chunk : string) : list Json * string :=
  drain_frames (String.length (buf +:+ chunk)) (buf +:+ chunk).
End Frames.

(** ** Pieces *)

Record DeltaCoalescer := { pending : string; last_flush : Z; interval : Z }.

Definition SIZE_BACKSTOP : nat := 2048.

Definition new_coalescer (interval now : Z) : DeltaCoalescer :=
  {| pending := ""; last_flush := now; interval := interval |}.

(** [Instant::duration_since] is zero for an earlier instant. *)
Definition push (token : string) (now : Z) (c : DeltaCoalescer) : DeltaCoalescer * option string :=
  let text := pending c +:+ token in
  let held := {| pending := text; last_flush := last_flush c; interval := interval c |} in
  if String.eqb text "" then (held, None)
  else if (interval c <=? Z.max 0 (now - last_flush c)) || (SIZE_BACKSTOP <=? String.length text)%nat
  then ({| pending := ""; last_flush := now; interval := interval c |}, Some text)
  else (held, None).

Definition drain (c : DeltaCoalescer) : DeltaCoalescer * option string :=
  if String.eqb (pending c) "" then (c, None)
  else ({| pending := ""; last_flush := last_flush c; interval := interval c |}, Some (pending c)).

(** ** The streamed turn *)

(** One read of the response's body; the body ends with the list. *)
Inductive ChunkRead := Chunk (b : bytes) | ReadFails (e : string).

Record Delta := { delta_b64 : string; delta_correlation : string; delta_seq : Z }.

Record Stream := {
  sse_buf : string; coalescer : DeltaCoalescer; full : string; seq : Z;
  deltas_dead : bool; finished : bool;
  (** The publishes tried, oldest first, and how many tokens have come. *)
  tried : list Delta; tokens : nat }.

Definition wrap_u32 (n : Z) : Z := n mod 2 ^ 32.

Inductive BridgeAnswer :=
| SendFails (e : string)
| Refuses (status : string)
| Streams (reads : list ChunkRead).

Section Turn.
Context `{SerdeJson} `{Base64}.
(** Whether the worker takes the [n]th delta, and the instant of the [n]th token. *)
Variable takes : nat -> bool.
Variable clock : nat -> Z.
Variable correlation : string.

Definition try_delta (s : Stream) (delta : string) : Stream * bool :=
  ({| sse_buf := sse_buf s; coalescer := coalescer s; full := full s; seq := seq s; deltas_dead := deltas_dead s;
      finished := finished s; tokens := tokens s;
      tried := (tried s ++ [{| delta_b64 := b64_encode (as_bytes delta); delta_correlation := correlation;
                               delta_seq := seq s |}])%list |},
   takes (length (tried s))).

Definition with_seq (s : Stream) (n : Z) : Stream :=
  {| sse_buf := sse_buf s; coalescer := coalescer s; full := full s; seq := n; deltas_dead := deltas_dead s;
     finished := finished s; tried := tried s; tokens := tokens s |}.

Definition dead (s : Stream) : Stream :=
  {| sse_buf := sse_buf s; coalescer := coalescer s; full := full s; seq := seq s; deltas_dead := true;
     finished := finished s; tried := tried s; tokens := tokens s |}.

Definition with_coalescer (s : Stream) (c : DeltaCoalescer) : Stream :=
  {| sse_buf := sse_buf s; coalescer := c; full := full s; seq := seq s; deltas_dead := deltas_dead s;
     finished := finished s; tried := tried s; tokens := tokens s |}.

Definition with_buf (s : Stream) (b : string) : Stream :=
  {| sse_buf := b; coalescer := coalescer s; full := full s; seq := seq s; deltas_dead := deltas_dead s;
     finished := finished s; tried := tried s; tokens := tokens s |}.

Definition mark_done (s : Stream) : Stream :=
  {| sse_buf := sse_buf s; coalescer := coalescer s; full := full s; seq := seq s; deltas_dead := deltas_dead s;
     finished := true; tried := tried s; tokens := tokens s |}.

Definition hear_token (s : Stream) (t : string) : Stream :=
  {| sse_buf := sse_buf s; coalescer := coalescer s; full := full s +:+ t; seq := seq s; deltas_dead := deltas_dead s;
     finished := finished s; tried := tried s; tokens := S (tokens s) |}.

(** A token is part of the reply; after a refused delta no further one is tried. *)
Definition on_token (s : Stream) (t : string) : Stream :=
  let s := hear_token s t in
  if deltas_dead s then s
  else
    let '(c, delta) := push t (clock (tokens s)) (coalescer s) in
    let s := with_coalescer s c in
    match delta with
    | None => s
    | Some delta =>
        let '(s, taken) := try_delta s delta in
        if taken then with_seq s (wrap_u32 (seq s + 1)) else dead s
    end.

Definition text_of (v : option Json) (other : string) : string :=
  match v with Some v => default other (as_str v) | None => other end.

Definition first_of (v w : option Json) : option Json := match v with Some _ => v | None => w end.

Definition on_frame (s : Stream) (frame : Json) : Stream * result string unit :=
  match get frame "type" ≫= as_str with
  | Some kind =>
      if String.eqb kind "token" then (on_token s (text_of (get frame "text") ""), Ok tt)
      else if String.eqb kind "done" then (mark_done s, Ok tt)
      else if String.eqb kind "error"
      then (s, Err (text_of (first_of (get frame "error") (get frame "message")) "stream error"))
      else (s, Ok tt)
  | None => (s, Ok tt)
  end.

Fixpoint on_frames (s : Stream) (frames : list Json) : Stream * result string unit :=
  match frames with
  | [] => (s, Ok tt)
  | frame :: frames =>
      match on_frame s frame with
      | (s, Err e) => (s, Err e)
      | (s, Ok _) => on_frames s frames
      end
  end.

(** The frames of one chunk are all taken before the end is looked at. *)
Fixpoint read_stream (s : Stream) (reads : list ChunkRead) : Stream * result string unit :=
  match reads with
  | [] => (s, Ok tt)
  | ReadFails e :: _ => (s, Err ("bridge stream read: " +:+ e))
  | Chunk b :: reads =>
      let '(frames, buf) := parser_feed (sse_buf s) (from_utf8_lossy b) in
      match on_frames (with_buf s buf) frames with
      | (s, Err e) => (s, Err e)
      | (s, Ok _) => if finished s then (s, Ok tt) else read_stream s reads
      end
  end.

Definition flush_rest (s : Stream) : Stream :=
  if deltas_dead s then s
  else match drain (coalescer s) with
       | (c, Some rest) => (try_delta (with_coalescer s c) rest).1
       | (_, None) => s
       end.

Definition start (flush_ms : Z) : Stream :=
  {| sse_buf := ""; coalescer := new_coalescer (flush_ms * 1000000) (clock 0); full := ""; seq := 0;
     deltas_dead := false; finished := false; tried := []; tokens := 0 |}.

(** The reply, and the deltas that were tried. *)
Definition bridge_chat_stream (flush_ms : Z) (answer : BridgeAnswer) : list Delta * result string string :=
  match answer with
  | SendFails e => ([], Err ("bridge send: " +:+ e))
  | Refuses status => ([], Err ("bridge HTTP " +:+ status))
  | Streams reads =>
      match read_stream (start flush_ms) reads with
      | (s, Err e) => (tried s, Err e)
      | (s, Ok _) =>
          if negb (finished s) then (tried s, Err "bridge stream ended without a done frame")
          else let s := flush_rest s in (tried s, Ok (full s))
      end
  end.
End Turn.

(** ** Frames however the stream is cut *)

Definition joined (l : list string) : string := fold_right String.append "" l.

Lemma joined_app a b : joined (a ++ b) = joined a +:+ joined b.
Proof. induction a as [|x a IH]; [done|]. cbn [app joined fold_right]. fold (joined (a ++ b)). rewrite IH. apply app_assoc_str. Qed.

Lemma joined_one t : joined [t] = t.
Proof. apply app_nil_str. Qed.

Lemma split_text_length sep s a b : split_text sep s = Some (a, b) ->
  (String.length sep + String.length b <= String.length s)%nat.
Proof.
  revert a. induction s as [|c s IH]; intros a; cbn [split_text].
  - destruct (strip_prefix sep "") as [r|] eqn:E; [|done]. intros [= <- <-].
    apply strip_prefix_spec in E. rewrite E, length_app_str. lia.
  - destruct (strip_prefix sep (String c s)) as [r|] eqn:E.
    + intros [= <- <-]. apply strip_prefix_spec in E. rewrite E, length_app_str. lia.
    + destruct (split_text sep s) as [[x y]|] eqn:Es; [|done]. intros [= <- <-].
      specialize (IH x eq_refl). cbn [String.length]. lia.
Qed.

(** More text behind it does not move the first end. *)
Lemma strip_prefix_more p s t : (String.length p <= String.length s)%nat ->
  strip_prefix p (s +:+ t) = option_map (fun r => r +:+ t) (strip_prefix p s).
Proof.
  revert s. induction p as [|c p IH]; intros [|d s] Hl; cbn [String.length] in Hl; try done; [lia|].
  change (String d s +:+ t) with (String d (s +:+ t)). cbn [strip_prefix].
  destruct (Ascii.eqb c d); [|done]. apply IH. lia.
Qed.

Lemma split_text_more sep s a b t : split_text sep s = Some (a, b) -> split_text sep (s +:+ t) = Some (a, b +:+ t).
Proof.
  revert a. induction s as [|c s IH]; intros a Hs.
  - cbn [split_text] in Hs. destruct (strip_prefix sep "") as [r|] eqn:E; [|done]. injection Hs as [= <- <-].
    apply strip_prefix_spec in E. destruct sep; [|done]. change ("" = r) in E. subst r.
    change ("" +:+ t) with t. by destruct t.
  - pose proof (split_text_length _ _ _ _ Hs) as Hl.
    change (String c s +:+ t) with (String c (s +:+ t)). cbn [split_text] in *.
    change (String c (s +:+ t)) with (String c s +:+ t). rewrite strip_prefix_more by lia.
    destruct (strip_prefix sep (String c s)) as [r|] eqn:E; cbn [option_map]; [by injection Hs as [= <- <-]|].
    destruct (split_text sep s) as [[x y]|] eqn:Es; [|done]. injection Hs as [= <- <-]. by rewrite (IH x).
Qed.

Section FrameFacts.
Context `{SerdeJson}.

(** Fuel beyond the length of the buffer changes nothing. *)
Lemma drain_frames_fuel n m : forall buf, (String.length buf <= n)%nat -> (String.length buf <= m)%nat ->
  drain_frames n buf = drain_frames m buf.
Proof.
  assert (Hempty : forall n buf, String.length buf = 0%nat -> drain_frames n buf = ([], buf)).
  { intros [|k] [|c buf] Hb; try done. }
  revert m. induction n as [|n IH]; intros m buf Hn Hm.
  { rewrite (Hempty 0%nat), (Hempty m) by lia. done. }
  destruct m as [|m]; [rewrite (Hempty (S n)), (Hempty 0%nat) by lia; done|]. cbn [drain_frames].
  destruct (split_text FRAME_END buf) as [[a b]|] eqn:E; [|done].
  apply split_text_length in E. change (String.length FRAME_END) with 2%nat in E. by rewrite (IH m) by lia.
Qed.

Lemma drain_frames_app n buf : forall t, (String.length buf <= n)%nat ->
  drain_frames (n + String.length t) (buf +:+ t) =
  (let '(o1, rest) := drain_frames n buf in
   let '(o2, rest) := parser_feed rest t in ((o1 ++ o2)%list, rest)).
Proof.
  revert buf. induction n as [|n IH]; intros buf t Hn.
  { destruct buf; [|cbn in Hn; lia]. cbn [drain_frames plus]. unfold parser_feed.
    change ("" +:+ t) with t. by destruct (drain_frames _ t). }
  cbn [plus drain_frames]. destruct (split_text FRAME_END buf) as [[a b]|] eqn:E.
  - rewrite (split_text_more _ _ _ _ t E). apply split_text_length in E.
    change (String.length FRAME_END) with 2%nat in E. rewrite IH by lia.
    destruct (drain_frames n b) as [o1 rest]. destruct (parser_feed rest t) as [o2 rest'].
    by rewrite <-app_assoc.
  - unfold parser_feed. cbn [app].
    rewrite (drain_frames_fuel (String.length (buf +:+ t)) (S n + String.length t)) by (rewrite length_app_str; lia).
    change (S n + String.length t)%nat with (S (n + String.length t)). cbn [drain_frames].
    destruct (split_text FRAME_END (buf +:+ t)) as [[x y]|]; [|done]. by destruct (drain_frames _ y).
Qed.

Lemma parser_feed_app buf s t :
  parser_feed buf (s +:+ t) =
  (let '(o1, rest) := parser_feed buf s in let '(o2, rest) := parser_feed rest t in ((o1 ++ o2)%list, rest)).
Proof.
  unfold parser_feed at 1 2. rewrite app_assoc_str, <-drain_frames_app by done.
  apply drain_frames_fuel; rewrite !length_app_str; lia.
Qed.

(** The frames of a list of chunks, one after the other. *)
Fixpoint feed_all (buf : string) (chunks : list string) : list Json * string :=
  match chunks with
  | [] => ([], buf)
  | chunk :: chunks =>
      let '(o1, buf) := parser_feed buf chunk in
      let '(o2, buf) := feed_all buf chunks in ((o1 ++ o2)%list, buf)
  end.

Lemma drained_split n buf : (String.length buf <= n)%nat -> split_text FRAME_END (drain_frames n buf).2 = None.
Proof.
  revert buf. induction n as [|n IH]; intros buf Hn; [destruct buf; [done|cbn in Hn; lia]|]. cbn [drain_frames].
  destruct (split_text FRAME_END buf) as [[a b]|] eqn:E; [|done].
  apply split_text_length in E. change (String.length FRAME_END) with 2%nat in E.
  specialize (IH b ltac:(lia)). by destruct (drain_frames n b).
Qed.

Lemma parser_feed_nothing buf : split_text FRAME_END buf = None -> parser_feed buf "" = ([], buf).
Proof.
  intros E. unfold parser_feed. rewrite app_nil_str. destruct (String.length buf); [done|]. cbn [drain_frames]. by rewrite E.
Qed.

(** The buffer the parser keeps never holds a whole frame, and the frames found do not
    depend on where the stream was cut. *)
Theorem frames_any_split (chunks : list string) (buf : string) (Hbuf : split_text FRAME_END buf = None) :
  feed_all buf chunks = parser_feed buf (joined chunks) /\
  split_text FRAME_END (feed_all buf chunks).2 = None.
Proof.
  revert buf Hbuf. induction chunks as [|chunk chunks IH]; intros buf Hbuf; cbn [feed_all].
  { cbn [joined fold_right]. by rewrite parser_feed_nothing. }
  change (joined (chunk :: chunks)) with (chunk +:+ joined chunks). rewrite parser_feed_app.
  assert (Hb : split_text FRAME_END (parser_feed buf chunk).2 = None) by by apply drained_split.
  destruct (parser_feed buf chunk) as [o1 rest] eqn:E1. destruct (IH rest Hb) as [<- Hr].
  by destruct (feed_all rest chunks).
Qed.
End FrameFacts.

(** ** What the deltas say *)

Section TurnFacts.
Context `{SerdeJson} `{Base64}.
Variable takes : nat -> bool.
Variable clock : nat -> Z.
Variable correlation : string.

Definition nth_delta (i : nat) (text : string) : Delta :=
  {| delta_b64 := b64_encode (as_bytes text); delta_correlation := correlation; delta_seq := wrap_u32 (Z.of_nat i) |}.

Definition token_texts (frames : list Json) : list string :=
  flat_map (fun f => if bool_decide ((get f "type" ≫= as_str) = Some "token") then [text_of (get f "text") ""] else [])
    frames.

(** The first [n] deltas were taken. *)
Definition taken_before (n : nat) : Prop := forall i, (i < n)%nat -> takes i = true.

(** While the stream is read: the deltas tried and what is still held back make up the
    reply; once one was refused, no further one is tried. *)
Record telling (s : Stream) (texts : list string) : Prop := {
  tl_tried : tried s = imap nth_delta texts;
  tl_nonempty : Forall (fun t => t <> "") texts;
  tl_live : deltas_dead s = false -> taken_before (length texts) /\ seq s = wrap_u32 (Z.of_nat (length texts))
              /\ joined texts +:+ pending (coalescer s) = full s;
  tl_dead : deltas_dead s = true -> taken_before (pred (length texts)) /\ ~ taken_before (length texts)
              /\ exists rest, joined texts +:+ rest = full s }.

Lemma push_tells t now c c' delta : push t now c = (c', delta) ->
  match delta with
  | None => pending c' = pending c +:+ t
  | Some d => pending c' = "" /\ d = pending c +:+ t /\ d <> ""
  end.
Proof.
  unfold push. destruct (String.eqb_spec (pending c +:+ t) "") as [He|He]; [by intros [= <- <-]|].
  destruct (_ || _); by intros [= <- <-].
Qed.

Lemma tried_more texts t s : tried s = imap nth_delta texts -> seq s = wrap_u32 (Z.of_nat (length texts)) ->
  (tried s ++ [{| delta_b64 := b64_encode (as_bytes t); delta_correlation := correlation; delta_seq := seq s |}])%list
  = imap nth_delta (texts ++ [t]).
Proof. intros -> ->. rewrite imap_app. f_equal. unfold nth_delta. cbn. by rewrite Nat.add_0_r. Qed.

Lemma wrap_next n : wrap_u32 (wrap_u32 (Z.of_nat n) + 1) = wrap_u32 (Z.of_nat (S n)).
Proof. unfold wrap_u32. rewrite Nat2Z.inj_succ, Zplus_mod_idemp_l. done. Qed.

Lemma taken_more n : taken_before n -> takes n = true -> taken_before (S n).
Proof. intros Hn Hx i Hi. destruct (decide (i = n)) as [->|]; [done|]. apply Hn. lia. Qed.

(** A delta tried while none was refused. *)
Lemma try_tells s texts d rest : tried s = imap nth_delta texts -> Forall (fun t => t <> "") texts ->
  taken_before (length texts) -> seq s = wrap_u32 (Z.of_nat (length texts)) -> d <> "" ->
  joined texts +:+ d = full s -> pending (coalescer s) = "" ->
  try_delta takes correlation s d = rest ->
  tried rest.1 = imap nth_delta (texts ++ [d]) /\ full rest.1 = full s /\ rest.2 = takes (length texts) /\
  Forall (fun t => t <> "") (texts ++ [d]) /\ joined (texts ++ [d]) = full s.
Proof.
  intros Ht Hne Hb Hs Hd Hf Hp <-. unfold try_delta. cbn [fst snd tried full].
  split_and!; [by apply tried_more|done|by rewrite Ht, length_imap| |by rewrite joined_app, joined_one].
  apply Forall_app. by repeat constructor.
Qed.

Lemma on_token_tells s texts t : telling s texts -> exists texts', telling (on_token takes clock correlation s t) texts'.
Proof.
  intros [Ht Hne Hl Hd]. unfold on_token.
  change (deltas_dead (hear_token s t)) with (deltas_dead s).
  change (coalescer (hear_token s t)) with (coalescer s). change (tokens (hear_token s t)) with (S (tokens s)).
  destruct (deltas_dead s) eqn:Edead.
  { exists texts. destruct (Hd eq_refl) as (Hb & Hnb & rest & Hr). split; cbn; try done; [by rewrite Edead|].
    intros _. split_and!; [done..|]. exists (rest +:+ t). by rewrite app_assoc_str, Hr. }
  destruct (Hl eq_refl) as (Hb & Hs & Hf).
  destruct (push t (clock (S (tokens s))) (coalescer s)) as [c [d|]] eqn:Ep; apply push_tells in Ep.
  - destruct Ep as (Hc & -> & Hd').
    set (s1 := with_coalescer (hear_token s t) c).
    destruct (try_tells s1 texts (pending (coalescer s) +:+ t) (try_delta takes correlation s1 (pending (coalescer s) +:+ t)))
      as (Ht' & Hf' & Htk & Hne' & Hj); [done..| |done|done|].
    { cbn. by rewrite app_assoc_str, Hf. }
    destruct (try_delta takes correlation s1 _) as [s2 taken] eqn:E2. cbn [fst snd] in *.
    assert (E2' : coalescer s2 = c /\ seq s2 = seq s /\ deltas_dead s2 = false)
      by (unfold try_delta in E2; injection E2 as [= <- _]; cbn; by rewrite Edead).
    destruct E2' as (Hc2 & Hs2 & Hd2). exists (texts ++ [pending (coalescer s) +:+ t])%list.
    destruct taken; split; cbn [with_seq dead tried deltas_dead seq coalescer full];
      rewrite ?Hd2, ?length_app, ?Hc2, ?Hs2; cbn [length]; rewrite ?Nat.add_1_r; try done.
    + intros _. split_and!; [by apply taken_more|by rewrite Hs, wrap_next|]. by rewrite Hc, app_nil_str, Hj.
    + intros _. split_and!; [done| |exists ""; by rewrite app_nil_str, Hj].
      intros Hall. rewrite (Hall (length texts)) in Htk by lia. done.
  - exists texts. split; cbn; rewrite ?Edead; try done.
    intros _. split_and!; [done..|]. by rewrite Ep, app_assoc_str, Hf.
Qed.

Lemma on_frame_tells s texts frame s' out : telling s texts -> on_frame takes clock correlation s frame = (s', out) ->
  (exists texts', telling s' texts') /\ sse_buf s' = sse_buf s /\
  (out = Ok tt -> full s' = full s +:+ joined (token_texts [frame])).
Proof.
  intros Ht. unfold on_frame, token_texts. cbn [flat_map]. rewrite app_nil_r.
  destruct (get frame "type" ≫= as_str) as [k|] eqn:Ek.
  2: { rewrite bool_decide_eq_false_2 by congruence. intros [= <- <-]. rewrite app_nil_str. eauto. }
  destruct (String.eqb_spec k "token") as [->|Hk].
  { rewrite bool_decide_eq_true_2 by done. intros [= <- <-].
    destruct (on_token_tells s texts (text_of (get frame "text") "") Ht) as [texts' Ht'].
    split_and!; [eauto| |intros _; rewrite joined_one];
      unfold on_token, try_delta; repeat (case_match; simplify_eq/=); done. }
  rewrite bool_decide_eq_false_2 by (intros [= E]; done).
  destruct (String.eqb k "done"); [|destruct (String.eqb k "error")]; intros [= <- <-]; rewrite app_nil_str;
    split_and!; try done; try by eexists.
  exists texts. by destruct Ht.
Qed.

Lemma token_texts_cons frame frames : token_texts (frame :: frames) = (token_texts [frame] ++ token_texts frames)%list.
Proof. unfold token_texts. cbn [flat_map]. by rewrite app_nil_r. Qed.

Lemma token_texts_app a b : token_texts (a ++ b) = (token_texts a ++ token_texts b)%list.
Proof. unfold token_texts. by rewrite flat_map_app. Qed.

Lemma on_frames_tells frames : forall s texts s' out, telling s texts ->
  on_frames takes clock correlation s frames = (s', out) ->
  (exists texts', telling s' texts') /\ sse_buf s' = sse_buf s /\
  (out = Ok tt -> full s' = full s +:+ joined (token_texts frames)).
Proof.
  induction frames as [|frame frames IH]; intros s texts s' out Ht; cbn [on_frames].
  { intros [= <- <-]. rewrite app_nil_str. eauto. }
  destruct (on_frame takes clock correlation s frame) as [s1 o] eqn:E1.
  destruct (on_frame_tells _ _ _ _ _ Ht E1) as ([texts1 Ht1] & Hb & Hf). destruct o as [[]|e]; [|intros [= <- <-]; split_and!; [by eexists|done|done]].
  intros E2. destruct (IH _ _ _ _ Ht1 E2) as (Ht2 & Hb2 & Hf2). split_and!; [done|congruence|].
  intros Ho. rewrite (token_texts_cons frame frames), joined_app, (Hf2 Ho), (Hf eq_refl). symmetry. apply app_assoc_str.
Qed.

Lemma read_stream_tells reads : forall s texts s' out, telling s texts ->
  read_stream takes clock correlation s reads = (s', out) ->
  (exists texts', telling s' texts') /\
  (out = Ok tt -> exists bs rest, reads = (map Chunk bs ++ rest)%list /\
     full s' = full s +:+ joined (token_texts (feed_all (sse_buf s) (map from_utf8_lossy bs)).1)).
Proof.
  induction reads as [|[b|e] reads IH]; intros s texts s' out Ht; cbn [read_stream].
  - intros [= <- <-]. split; [by eexists|]. intros _. exists [], []. by rewrite app_nil_str.
  - destruct (parser_feed (sse_buf s) (from_utf8_lossy b)) as [frames buf] eqn:Ep.
    destruct (on_frames takes clock correlation (with_buf s buf) frames) as [s1 o] eqn:E1.
    assert (Hw : telling (with_buf s buf) texts) by by destruct Ht.
    destruct (on_frames_tells _ _ _ _ _ Hw E1) as ([texts1 Ht1] & Hb & Hf). cbn [with_buf sse_buf full] in Hb, Hf.
    destruct o as [[]|e]; [|intros [= <- <-]; split; [by eexists|done]]. specialize (Hf eq_refl).
    destruct (finished s1).
    + intros [= <- <-]. split; [by eexists|]. intros _. exists [b], reads. split; [done|].
      cbn [map feed_all]. by rewrite Ep, app_nil_r.
    + intros E2. destruct (IH _ _ _ _ Ht1 E2) as (Ht2 & Hr). split; [done|]. intros Ho.
      destruct (Hr Ho) as (bs & rest & -> & Hfull). exists (b :: bs), rest. split; [done|].
      cbn [map feed_all]. rewrite Ep, Hfull, Hf, Hb. destruct (feed_all buf (map from_utf8_lossy bs)) as [o2 b2].
      cbn [fst]. by rewrite token_texts_app, joined_app, app_assoc_str.
  - intros [= <- <-]. split; [by eexists|done].
Qed.

Lemma start_tells flush_ms : telling (start clock flush_ms) [].
Proof. split; try done. intros _. split_and!; [intros i Hi; cbn in Hi; lia|done..]. Qed.

(** Whatever becomes of the turn, the deltas tried are numbered from zero. *)
Lemma deltas_numbered flush_ms answer deltas out :
  bridge_chat_stream takes clock correlation flush_ms answer = (deltas, out) -> exists texts, deltas = imap nth_delta texts.
Proof.
  destruct answer as [e|e|reads]; cbn [bridge_chat_stream]; [intros [= <- <-]; by exists []..|].
  destruct (read_stream takes clock correlation (start clock flush_ms) reads) as [s o] eqn:Er.
  apply (read_stream_tells _ _ []) in Er as ([texts [Ht _ Hl _]] & _); [|apply start_tells].
  destruct o as [[]|e]; [|intros [= <- <-]; by exists texts].
  destruct (negb (finished s)); intros [= <- <-]; [by exists texts|]. unfold flush_rest, drain.
  destruct (deltas_dead s); [by exists texts|]. destruct (Hl eq_refl) as (_ & Hs & _).
  destruct (String.eqb (pending (coalescer s)) ""); [by exists texts|].
  exists (texts ++ [pending (coalescer s)])%list. exact (tried_more texts (pending (coalescer s)) s Ht Hs).
Qed.

(** C15: A reply streamed to the feed is told once and whole.  When the bridge's stream ends
    well, the reply is the text of its tokens, however the stream was cut into reads;
    the deltas tried are numbered from zero, none is empty, all but the last were taken,
    and what they say is the beginning of the reply — all of it when the last one was
    taken too. *)
Theorem streamed_reply_told (flush_ms : Z) (answer : BridgeAnswer) (deltas : list Delta) (reply : string)
    (Hturn : bridge_chat_stream takes clock correlation flush_ms answer = (deltas, Ok reply)) :
  exists bs rest texts, answer = Streams (map Chunk bs ++ rest) /\
    reply = joined (token_texts (parser_feed "" (joined (map from_utf8_lossy bs))).1) /\
    deltas = imap nth_delta texts /\ Forall (fun t => t <> "") texts /\
    taken_before (pred (length texts)) /\ (exists unsaid, reply = joined texts +:+ unsaid) /\
    (taken_before (length texts) -> joined texts = reply).
Proof.
  destruct answer as [e|e|reads]; cbn [bridge_chat_stream] in Hturn; [done..|].
  destruct (read_stream takes clock correlation (start clock flush_ms) reads) as [s o] eqn:Er.
  apply (read_stream_tells _ _ []) in Er as ([texts Ht] & Hr); [|apply start_tells].
  destruct o as [[]|e]; [|done]. destruct (Hr eq_refl) as (bs & rest & -> & Hfull).
  destruct (negb (finished s)); [done|]. injection Hturn as Htried <-.
  destruct (frames_any_split (map from_utf8_lossy bs) "" eq_refl) as [Hframes _].
  change (full (start clock flush_ms)) with "" in Hfull. change (sse_buf (start clock flush_ms)) with "" in Hfull.
  rewrite Hframes in Hfull. change (full s = joined (token_texts (parser_feed "" (joined (map from_utf8_lossy bs))).1)) in Hfull.
  destruct Ht as [Ht Hne Hl Hd]. unfold flush_rest, drain in *. destruct (deltas_dead s) eqn:Edead.
  { destruct (Hd eq_refl) as (Hb & Hnb & tail & Htail). exists bs, rest, texts. rewrite <-Htried, Ht.
    split_and!; [done|done|done|done|done|by exists tail|done]. }
  destruct (Hl eq_refl) as (Hb & Hs & Hf). destruct (String.eqb_spec (pending (coalescer s)) "") as [Hp|Hp].
  { exists bs, rest, texts. rewrite <-Htried, Ht. rewrite Hp, app_nil_str in Hf.
    split_and!; [done..|intros i Hi; apply Hb; lia|exists ""; by rewrite app_nil_str|done]. }
  exists bs, rest, (texts ++ [pending (coalescer s)])%list. cbn [try_delta fst tried full with_coalescer] in *.
  rewrite joined_app, joined_one, Hf, length_app. cbn [length]. rewrite Nat.add_1_r. cbn [pred].
  split_and!; [done|done| |by apply Forall_app; repeat constructor|done|exists ""; by rewrite app_nil_str|done].
  rewrite <-Htried. exact (tried_more texts (pending (coalescer s)) s Ht Hs).
Qed.
End TurnFacts.

(** ** Witness: an answer in two reads *)

Module ToyStream.
Definition token (s : string) : Json := JObject [("text", JString s); ("type", JString "token")].

(** A token frame is its text, the end is [!]. *)
Definition json : SerdeJson := {|
  json_from_slice b := if bool_decide (b = as_bytes "!") then Ok (JObject [("type", JString "done")])
                       else Ok (token (String.string_of_list_byte b));
  json_to_vec _ := [] |}.

Definition frame (s : string) : bytes := as_bytes ("data: " +:+ s +:+ FRAME_END).
Definition reads : list ChunkRead :=
  [Chunk (frame "dinner " ++ take 9 (frame "is ready"))%list; Chunk (drop 9 (frame "is ready") ++ frame "!")%list].
End ToyStream.

Section StreamWitness.
#[local] Existing Instances ToyStream.json SimpleBase64.codec.

(** The second token comes after the window and is flushed with what was held. *)
Definition stream_clock (n : nat) : Z := Z.of_nat n * 700000000.

Lemma stream_outcome :
  bridge_chat_stream (fun _ => true) stream_clock "e1" 1000 (Streams ToyStream.reads)
  = ([{| delta_b64 := b64_encode (as_bytes "dinner is ready"); delta_correlation := "e1"; delta_seq := 0 |}],
     Ok "dinner is ready").
Proof. vm_compute. reflexivity. Qed.

Example streamed_reply_told_witness :
  exists bs rest texts, ToyStream.reads = (map Chunk bs ++ rest)%list /\
    [{| delta_b64 := b64_encode (as_bytes "dinner is ready"); delta_correlation := "e1"; delta_seq := 0 |}]
      = imap (nth_delta "e1") texts /\ joined texts = "dinner is ready".
Proof.
  destruct (streamed_reply_told (fun _ => true) stream_clock "e1" 1000 (Streams ToyStream.reads) _ _ stream_outcome)
    as (bs & rest & texts & [= Hr] & _ & Ht & _ & _ & _ & Hall).
  exists bs, rest, texts. split; [exact Hr|]. split; [exact Ht|]. apply Hall. intros i _. reflexivity.
Defined.

(** The reads are decoded one by one: a character cut by a read is lost, with every
    frame whole. *)
Definition split_character : list ChunkRead :=
  [Chunk (as_bytes "data: " ++ [Byte.xe9; Byte.xa5])%list;
   Chunk ([Byte.xad] ++ as_bytes FRAME_END ++ ToyStream.frame "!")%list].

Lemma split_character_is_lost :
  from_utf8 [Byte.xe9; Byte.xa5; Byte.xad] = Some (String.string_of_list_byte [Byte.xe9; Byte.xa5; Byte.xad]) /\
  (bridge_chat_stream (fun _ => true) stream_clock "e1" 1000 (Streams split_character)).2
    = Ok (String.string_of_list_byte (replacement ++ replacement)%list).
Proof. vm_compute. split; reflexivity. Qed.
End StreamWitness.
