(* ===== verification/DelegateLoop.v ===== *)
(** * The feeds a delegate follows

    The polling half of [crates/agentkeys-daemon/src/chat_loop.rs] with the feed set of
    [app_runtime.rs]: the feeds bound to an app, one poller per readable feed and how a
    rebind changes the set, the session and the capabilities a poll rides on, and one
    round of a poller, from the boot's fast-forward to the events it hands over; and, with
    the default-app flags of [apps.rs], which of the apps bound to one channel takes an
    event, and what a rebind changes of it while a poller runs. *)
From stdpp Require Import gmap.
From S2P Require Import Channels AppTemplate AppCompile ChannelWorker CapabilityVerify.
From S2P Require Import Prelude RustStr StrFacts Crates Json Utf8 Capability SessionScope.

Open Scope string_scope.
Open Scope Z_scope.

(** ** The feeds of an app *)

Definition opchat_feed (chat : string) : FeedSpec :=
  {| slot := OPCHAT_SLOT; feed_kind := Chat; feed_direction := Duplex; feed_channel_id := chat;
     endpoint_actor_omni := None; default_app := None |}.

Definition bound_feed (b : BoundChannel) : FeedSpec :=
  {| slot := bc_slot b; feed_kind := bc_kind b; feed_direction := bc_direction b; feed_channel_id := bc_channel_id b;
     endpoint_actor_omni := bc_endpoint b; default_app := bc_default_app b |}.

(** [AppRuntimeConfig::feeds]: the operator's chat first, then the first binding of
    every other channel. *)
Definition add_feed (chat : string) (fs : list FeedSpec) (b : BoundChannel) : list FeedSpec :=
  if String.eqb (bc_channel_id b) chat || existsb (fun f => String.eqb (feed_channel_id f) (bc_channel_id b)) fs
  then fs else (fs ++ [bound_feed b])%list.

Definition feeds (bound : list BoundChannel) (chat : string) : list FeedSpec :=
  foldl (add_feed chat) [opchat_feed chat] bound.

Definition resolve_publish_target (bound : list BoundChannel) (target chat : string) : string :=
  if String.eqb target OPCHAT_SLOT then chat
  else match List.find (fun b => String.eqb (bc_slot b) target && writes (bc_direction b)) bound with
       | Some b => bc_channel_id b
       | None => target
       end.

(** Whether an event is this app's to answer. *)
Definition addressed_to_us (addressee : option string) (label : string) (default_app : option bool) : bool :=
  match addressee with
  | Some a => if String.eqb (utrim a) "" then negb (bool_decide (default_app = Some false))
              else eq_lower (utrim a) label
  | None => negb (bool_decide (default_app = Some false))
  end.

(** ** A cached capability *)

(** Instants in nanoseconds; [elapsed] is zero when the clock stands before. *)
Definition CAP_TTL : Z := 300 * 10 ^ 9.
Definition REFRESH_MARGIN : Z := 60 * 10 ^ 9.

Record CapCache := { cached : option (CapToken * Z) }.

Definition no_cap : CapCache := {| cached := None |}.

Definition cap_fresh (now : Z) (c : CapCache) : option CapToken :=
  match cached c with
  | Some (cap, minted) => if Z.max 0 (now - minted) + REFRESH_MARGIN <? CAP_TTL then Some cap else None
  | None => None
  end.

Definition cap_store (now : Z) (cap : CapToken) : CapCache := {| cached := Some (cap, now) |}.

(** ** The session *)

(** The key in the sandbox, or the signer's custody with the bearer it is asked under. *)
Inductive DelegateCredential := Local | Signer (bearer : string).

Record Session := { held : option string; credential : DelegateCredential }.

(** The URL-safe alphabet without padding. *)
Class Base64Url := { b64url_decode : string -> option bytes }.

Section Bearer.
Context `{Base64Url} `{SerdeJson}.

(** The [exp] of a token's payload, not verified. *)
Definition jwt_exp_claim (jwt : string) : option Z :=
  payload ← nth_error (split_char "."%char jwt) 1;
  b ← b64url_decode (utrim payload);
  match json_from_slice b with Ok v => get v "exp" ≫= as_u64 | Err _ => None end.

Definition keep_current (now : Z) (cur new : option Z) : bool :=
  match cur, new with
  | Some c, Some n => (now <? c) && (n <? c)
  | Some c, None => now <? c
  | None, _ => false
  end.

Definition on_new_session (now : Z) (jwt : string) (c : DelegateCredential) : DelegateCredential :=
  match c with
  | Local => Local
  | Signer cur => if keep_current now (jwt_exp_claim cur) (jwt_exp_claim jwt) then Signer cur else Signer jwt
  end.

(** The held bearer, or the one the broker resolves. *)
Definition session_bearer (now : Z) (resolved : result string string) (s : Session) : Session * result string string :=
  match held s with
  | Some j => (s, Ok j)
  | None =>
      match resolved with
      | Err e => (s, Err e)
      | Ok jwt => ({| held := Some jwt; credential := on_new_session now jwt (credential s) |}, Ok jwt)
      end
  end.

Definition session_invalidate (stale : string) (s : Session) : Session :=
  if bool_decide (held s = Some stale) then {| held := None; credential := credential s |} else s.

(** ** A poller *)

Definition WAKE_REPLAY_TAIL : Z := 50.
Definition FIRST_BACKOFF : Z := 2.
Definition LAST_BACKOFF : Z := 120.

Record Poller := {
  p_feed : FeedSpec; p_cursor : string; p_forwarded : bool; p_backoff : Z; p_caps : CapCache }.

Definition start_poller (feed : FeedSpec) : Poller :=
  {| p_feed := feed; p_cursor := ""; p_forwarded := false; p_backoff := FIRST_BACKOFF; p_caps := no_cap |}.

Definition poll_request_body (cap : CapToken) (cursor : string) (forwarded : bool) (boot_tail : Z) : PollRequest :=
  {| po_cap := cap; po_after := cursor; po_wait_seconds := if forwarded then 25 else 0;
     po_tail := if forwarded then None else Some (Z.max boot_tail 1) |}.

Definition boot_tail (wake_since : option Z) : Z := if wake_since then WAKE_REPLAY_TAIL else 1.

Definition wake_replay (events : list ChannelEvent) (since : Z) : list ChannelEvent :=
  List.filter (fun e => bool_decide (direction e = In) && negb (bool_decide (kind e = Lifecycle)) && (since <=? ts_millis e))
    events.

Inductive PollAnswer :=
| PollFails (e : string)
| PollRefused (status : Z)
| PollUnreadable (e : string)
| Polled (events : list ChannelEvent) (cursor : string).

(** What a round meets outside: the time of day in seconds, the instant, the broker's
    answers to a resolve and to a mint of a service under a bearer. *)
Record Outside := {
  o_secs : Z; o_now : Z; o_resolved : result string string;
  o_minted : string -> string -> result string CapToken }.

(** How a round ends: the poller and the session after it, the events handed to the
    dispatcher, the seconds slept. *)
Record Round := { r_poller : Poller; r_session : Session; r_sent : list ChannelEvent; r_slept : Z }.

Definition with_caps (p : Poller) (c : CapCache) : Poller :=
  {| p_feed := p_feed p; p_cursor := p_cursor p; p_forwarded := p_forwarded p; p_backoff := p_backoff p; p_caps := c |}.

Definition backed_off (p : Poller) : Poller :=
  {| p_feed := p_feed p; p_cursor := p_cursor p; p_forwarded := p_forwarded p;
     p_backoff := Z.min (p_backoff p * 2) LAST_BACKOFF; p_caps := p_caps p |}.

(** A round that ends in a wait, with the wait doubled for the next. *)
Definition waits (p : Poller) (s : Session) : Round :=
  {| r_poller := backed_off p; r_session := s; r_sent := []; r_slept := p_backoff p |}.

Definition mint_expired (msg : string) : bool := contains "401" msg || contains "expired" msg.

(** A pass of the loop of [poll_feed] up to its poll: the round is over, or the worker
    is polled under a bearer and a capability. *)
Definition prepare_round (o : Outside) (p : Poller) (s : Session) : Round + Poller * Session * string * CapToken :=
  match session_bearer (o_secs o) (o_resolved o) s with
  | (s, Err _) => inl (waits p s)
  | (s, Ok bearer) =>
      match cap_fresh (o_now o) (p_caps p) with
      | Some cap => inr (p, s, bearer, cap)
      | None =>
          match o_minted o ("channel-sub:" +:+ feed_channel_id (p_feed p)) bearer with
          | Ok cap => inr (with_caps p (cap_store (o_now o) cap), s, bearer, cap)
          | Err msg => inl (waits p (if mint_expired msg then session_invalidate bearer s else s))
          end
      end
  end.

Definition round_request (wake_since : option Z) (p : Poller) (cap : CapToken) : PollRequest :=
  poll_request_body cap (p_cursor p) (p_forwarded p) (boot_tail wake_since).

(** The boot's answer is passed over, or replayed from the wake on. *)
Definition handed_over (wake_since : option Z) (p : Poller) (events : list ChannelEvent) : list ChannelEvent :=
  if p_forwarded p then events
  else match wake_since with Some since => wake_replay events since | None => [] end.

Definition take_answer (p : Poller) (cursor : string) : Poller :=
  {| p_feed := p_feed p; p_cursor := if String.eqb cursor "" then p_cursor p else cursor;
     p_forwarded := true; p_backoff := FIRST_BACKOFF; p_caps := p_caps p |}.

(** The pass from the worker's answer on. *)
Definition finish_round (wake_since : option Z) (bearer : string) (p : Poller) (s : Session) (answer : PollAnswer) : Round :=
  match answer with
  | Polled events cursor =>
      {| r_poller := take_answer p cursor; r_session := s; r_sent := handed_over wake_since p events; r_slept := 0 |}
  | PollUnreadable _ => {| r_poller := p; r_session := s; r_sent := []; r_slept := p_backoff p |}
  | PollRefused status => waits (with_caps p no_cap) (if status =? 401 then session_invalidate bearer s else s)
  | PollFails _ => waits p s
  end.

Definition poll_round (wake_since : option Z) (o : Outside) (polled : PollRequest -> PollAnswer) (p : Poller) (s : Session)
    : Round :=
  match prepare_round o p s with
  | inl r => r
  | inr (p, s, bearer, cap) => finish_round wake_since bearer p s (polled (round_request wake_since p cap))
  end.

(** ** The set of pollers *)

Definition add_poller (m : gmap string Poller) (f : FeedSpec) : gmap string Poller :=
  match m !! feed_channel_id f with Some _ => m | None => <[feed_channel_id f := start_poller f]> m end.

Definition reconcile_pollers (pollers : gmap string Poller) (wanted : list FeedSpec) : gmap string Poller :=
  let want := List.filter (fun f => reads (feed_direction f)) wanted in
  let kept := filter (fun kp => existsb (fun f => String.eqb (feed_channel_id f) kp.1) want = true) pollers in
  foldl add_poller kept want.
End Bearer.

(** ** The feed set *)

Lemma feeds_first bound chat : exists rest, feeds bound chat = opchat_feed chat :: rest.
Proof.
  unfold feeds. assert (H0 : exists rest, [opchat_feed chat] = opchat_feed chat :: rest) by by eexists.
  revert H0. generalize [opchat_feed chat] as fs. induction bound as [|b bound IH]; intros fs Hfs; [done|].
  cbn [foldl]. apply IH. unfold add_feed. destruct (_ || _); [done|]. destruct Hfs as [rest ->]. by eexists.
Qed.

(** The channels of a feed set are told apart. *)
Lemma feeds_nodup bound chat : NoDup (map feed_channel_id (feeds bound chat)).
Proof.
  unfold feeds. assert (H0 : NoDup (map feed_channel_id [opchat_feed chat])) by (cbn; apply NoDup_singleton).
  revert H0. generalize [opchat_feed chat] as fs. induction bound as [|b bound IH]; intros fs Hfs; [done|].
  cbn [foldl]. apply IH. unfold add_feed. destruct (String.eqb _ chat); cbn [orb]; [done|].
  destruct (existsb _ fs) eqn:E; [done|]. rewrite map_app. apply NoDup_app. split_and!; [done| |apply NoDup_singleton].
  intros x Hx Hb%list_elem_of_singleton. cbn in Hb. subst x. apply list_elem_of_fmap in Hx as (f & Hf & Hin).
  rewrite <-not_true_iff_false in E. apply E. apply existsb_exists. exists f. rewrite <-list_elem_of_In.
  split; [done|]. by apply String.eqb_eq.
Qed.

(** ** Who answers *)

Lemma addressed_default a label d : from_option utrim "" a = "" ->
  addressed_to_us a label d = negb (bool_decide (d = Some false)).
Proof. unfold addressed_to_us. destruct a as [a|]; cbn [from_option]; [intros ->|]; done. Qed.

Lemma addressed_named a label d : utrim a <> "" -> addressed_to_us (Some a) label d = eq_lower (utrim a) label.
Proof. intros Ha. unfold addressed_to_us. by destruct (String.eqb_spec (utrim a) ""). Qed.

Lemma filter_unique {A} (p : A -> bool) (x : A) (l : list A) : NoDup l -> x ∈ l -> p x = true ->
  (forall y, y ∈ l -> p y = true -> y = x) -> List.filter p l = [x].
Proof.
  induction 1 as [|y l Hy Hl IH]; intros Hx Hp Hu; [set_solver|]. cbn [List.filter].
  destruct (p y) eqn:Ey.
  - assert (y = x) as -> by (apply Hu; [set_solver|done]). f_equal.
    assert (Hn : forall z, z ∈ List.filter p l -> False).
    { intros z [Hz Hin]%elem_of_filterb. assert (z = x) as -> by (apply Hu; [set_solver|done]). done. }
    destruct (List.filter p l) as [|z k] eqn:E; [done|]. exfalso. apply (Hn z). set_solver.
  - apply IH; [|done|intros z Hz; apply Hu; set_solver]. apply elem_of_cons in Hx as [->|]; [congruence|done].
Qed.

(** ** Pollers *)

Definition wanted_feed (wanted : list FeedSpec) (id : string) : option FeedSpec :=
  List.find (fun f => String.eqb (feed_channel_id f) id) (List.filter (fun f => reads (feed_direction f)) wanted).

Lemma add_pollers_lookup want id : forall m, foldl add_poller m want !! id =
  match m !! id with
  | Some p => Some p
  | None => start_poller <$> List.find (fun f => String.eqb (feed_channel_id f) id) want
  end.
Proof.
  induction want as [|f want IH]; intros m; cbn [foldl List.find]; [by destruct (m !! id)|].
  rewrite IH. unfold add_poller. destruct (m !! feed_channel_id f) as [p|] eqn:Ef;
    destruct (String.eqb_spec (feed_channel_id f) id) as [E|E].
  - subst id. by rewrite Ef.
  - done.
  - subst id. by rewrite lookup_insert_eq, Ef.
  - by rewrite lookup_insert_ne.
Qed.

Lemma find_existsb {A} (p : A -> bool) l : existsb p l = is_some (List.find p l).
Proof. induction l as [|x l IH]; [done|]. cbn. by destruct (p x). Qed.

(** A rebind, feed by feed: a poller runs for exactly the readable feeds wanted; one
    that ran goes on as it was — its cursor and capability, and the feed's description
    it was started with — and the others start at the boot. *)
Theorem reconcile_exact (pollers : gmap string Poller) (wanted : list FeedSpec) (id : string) :
  reconcile_pollers pollers wanted !! id =
    match wanted_feed wanted id with
    | None => None
    | Some f => Some (default (start_poller f) (pollers !! id))
    end.
Proof.
  unfold reconcile_pollers. rewrite (add_pollers_lookup _ id). unfold wanted_feed.
  set (want := List.filter _ wanted). rewrite map_lookup_filter.
  destruct (pollers !! id) as [p|]; cbn [mbind option_bind default from_option].
  - destruct (List.find _ want) as [f|] eqn:Ef.
    + rewrite option_guard_True; [done|]. cbn [fst]. by rewrite find_existsb, Ef.
    + rewrite option_guard_False; [by cbn|]. cbn [fst]. by rewrite find_existsb, Ef.
  - by destruct (List.find _ want).
Qed.

(** Each poller polls the channel it is filed under. *)
Definition pollers_wf (pollers : gmap string Poller) : Prop :=
  forall id p, pollers !! id = Some p -> feed_channel_id (p_feed p) = id.

Lemma reconcile_wf pollers wanted : pollers_wf pollers -> pollers_wf (reconcile_pollers pollers wanted).
Proof.
  intros Hwf id p. rewrite reconcile_exact. unfold wanted_feed. destruct (List.find _ _) as [f|] eqn:Ef; [|done].
  intros [= <-]. apply find_some in Ef as [_ Ef]. apply String.eqb_eq in Ef.
  destruct (pollers !! id) as [q|] eqn:Eq; cbn; [by apply Hwf|done].
Qed.

(** ** Sessions, capabilities and waits *)

Section BearerFacts.
Context `{Base64Url} `{SerdeJson}.

(** A rotation never shortens a living session: the bearer that lives on lives at least
    as long; one that is expired or unreadable always gives way. *)
Theorem bearer_outlives (now : Z) (cur jwt : string) :
  match jwt_exp_claim cur with
  | Some exp =>
      if now <? exp
      then exists kept exp', on_new_session now jwt (Signer cur) = Signer kept /\
                             jwt_exp_claim kept = Some exp' /\ exp <= exp'
      else on_new_session now jwt (Signer cur) = Signer jwt
  | None => on_new_session now jwt (Signer cur) = Signer jwt
  end.
Proof.
  unfold on_new_session, keep_current. destruct (jwt_exp_claim cur) as [exp|] eqn:Ec; [|done].
  destruct (jwt_exp_claim jwt) as [n|] eqn:En; destruct (Z.ltb_spec now exp); cbn [andb].
  - destruct (Z.ltb_spec n exp).
    + exists cur, exp. split_and!; [done..|lia].
    + exists jwt, n. split_and!; [done..|lia].
  - done.
  - exists cur, exp. split_and!; [done..|lia].
  - done.
Qed.

(** The wait between two rounds stays between two seconds and two minutes. *)
Definition waits_well (p : Poller) : Prop := FIRST_BACKOFF <= p_backoff p <= LAST_BACKOFF.

(** Every cached capability is younger than the refresh margin allows when it is used. *)
Definition young (now : Z) (p : Poller) (cap : CapToken) : Prop :=
  exists minted, cached (p_caps p) = Some (cap, minted) /\ now - minted < CAP_TTL - REFRESH_MARGIN.

Lemma prepare_young o p s p' s' bearer cap : prepare_round o p s = inr (p', s', bearer, cap) -> young (o_now o) p' cap.
Proof.
  unfold prepare_round. destruct (session_bearer _ _ _) as [s1 [b|e]]; [|done].
  unfold cap_fresh, young. destruct (cached (p_caps p)) as [[c minted]|] eqn:Ec.
  - destruct (Z.ltb_spec (Z.max 0 (o_now o - minted) + REFRESH_MARGIN) CAP_TTL) as [Hlt|].
    + intros [= <- <- <- <-]. exists minted. split; [done|lia].
    + destruct (o_minted _ _ _) as [c'|e]; [|done]. intros [= <- <- <- <-]. exists (o_now o).
      split; [done|]. unfold CAP_TTL, REFRESH_MARGIN. lia.
  - destruct (o_minted _ _ _) as [c'|e]; [|done]. intros [= <- <- <- <-]. exists (o_now o).
    split; [done|]. unfold CAP_TTL, REFRESH_MARGIN. lia.
Qed.

Lemma prepare_keeps o p s p' s' bearer cap : prepare_round o p s = inr (p', s', bearer, cap) ->
  p_feed p' = p_feed p /\ p_cursor p' = p_cursor p /\ p_forwarded p' = p_forwarded p /\ p_backoff p' = p_backoff p.
Proof.
  unfold prepare_round. destruct (session_bearer _ _ _) as [s1 [b|e]]; [|done].
  destruct (cap_fresh _ _); [by intros [= <- <- <- <-]|]. destruct (o_minted _ _ _); [|done]. by intros [= <- <- <- <-].
Qed.

Lemma waits_waits p s : waits_well p -> waits_well (r_poller (waits p s)).
Proof. unfold waits_well, FIRST_BACKOFF, LAST_BACKOFF. cbn. unfold LAST_BACKOFF. lia. Qed.

Lemma round_waits wake o polled p s : waits_well p -> waits_well (r_poller (poll_round wake o polled p s)).
Proof.
  intros Hp. unfold poll_round. destruct (prepare_round o p s) as [r|[[[p' s'] b] cap]] eqn:E.
  - unfold prepare_round in E. destruct (session_bearer _ _ _) as [s1 [b|e]]; [|injection E as <-; by apply waits_waits].
    destruct (cap_fresh _ _); [done|]. destruct (o_minted _ _ _); [done|]. injection E as <-. by apply waits_waits.
  - apply prepare_keeps in E as (_ & _ & _ & Hb). assert (Hp' : waits_well p') by (unfold waits_well in *; by rewrite Hb).
    destruct (polled _); cbn [finish_round]; [by apply waits_waits|by apply waits_waits|done|].
    unfold waits_well, take_answer, FIRST_BACKOFF, LAST_BACKOFF. cbn. unfold FIRST_BACKOFF. lia.
Qed.

(** A boot that nothing woke hands over nothing of what the feed already holds. *)
Lemma boot_hands_nothing o polled p s : p_forwarded p = false -> r_sent (poll_round None o polled p s) = [].
Proof.
  intros Hf. unfold poll_round. destruct (prepare_round o p s) as [r|[[[p' s'] b] cap]] eqn:E.
  - unfold prepare_round in E. destruct (session_bearer _ _ _) as [s1 [b|e]]; [|by injection E as <-].
    destruct (cap_fresh _ _); [done|]. destruct (o_minted _ _ _); [done|]. by injection E as <-.
  - apply prepare_keeps in E as (_ & _ & Hf' & _).
    destruct (polled _); try done. cbn. unfold handed_over. by rewrite Hf', Hf.
Qed.

(** What a woken delegate replays is inbound, is no lifecycle report, and is as old as
    the wake at most — and everything of the kind in the answer is replayed. *)
Lemma wake_replay_spec events since e : e ∈ wake_replay events since <->
  e ∈ events /\ direction e = In /\ kind e <> Lifecycle /\ since <= ts_millis e.
Proof.
  unfold wake_replay. rewrite elem_of_filterb, !andb_true_iff, negb_true_iff, Z.leb_le.
  destruct (bool_decide_reflect (direction e = In)), (bool_decide_reflect (kind e = Lifecycle)); naive_solver.
Qed.
End BearerFacts.

(** ** One app of a channel answers *)

(** ** The flags *)

Definition with_flag (b : BoundChannel) (flag : bool) : BoundChannel :=
  {| bc_slot := bc_slot b; bc_kind := bc_kind b; bc_direction := bc_direction b; bc_channel_id := bc_channel_id b;
     bc_event_kinds := bc_event_kinds b; bc_endpoint := bc_endpoint b; bc_default_app := Some flag |}.

Definition takes_unaddressed (doc : ChannelDoc) (label : string) : bool :=
  match default_or_only_app doc with Some a => eq_lower a label | None => false end.

Definition mark_one (docs : list ChannelDoc) (label : string) (b : BoundChannel) : BoundChannel :=
  match bc_kind b with
  | Messaging => match List.find (fun d => String.eqb (doc_id d) (bc_channel_id b)) docs with
                 | Some doc => with_flag b (takes_unaddressed doc label)
                 | None => b
                 end
  | _ => b
  end.

(** A gate that cannot be asked leaves the flags as they are. *)
Definition mark_default_apps (docs : option (list ChannelDoc)) (label : string) (bound : list BoundChannel)
    : list BoundChannel :=
  match docs with Some docs => map (mark_one docs label) bound | None => bound end.

(** ** Who answers *)

(** The app an event is for: the one it names, else the channel's default or only app. *)
Definition meant (d : ChannelDoc) (a : option string) : option string :=
  if String.eqb (from_option utrim "" a) "" then default_or_only_app d else Some (from_option utrim "" a).

Lemma filter_alias d name : wf_doc d ->
  List.filter (fun x => eq_lower name (app_alias x)) (apps d)
  = match List.find (fun x => eq_lower name (app_alias x)) (apps d) with Some x => [x] | None => [] end.
Proof.
  intros [_ _ _ Hnd Hnorm _]. destruct (List.find _ (apps d)) as [x|] eqn:Ef.
  - apply find_some in Ef as [Hx Ex]. apply list_elem_of_In in Hx.
    apply filter_unique; [by eapply NoDup_fmap_1|done..|]. intros y Hy Ey.
    rewrite Forall_forall in Hnorm. unfold eq_lower in *. apply String.eqb_eq in Ex, Ey.
    rewrite Ex, !norm_alias_lower in Ey by auto.
    apply list_elem_of_lookup in Hx as [i Hi], Hy as [j Hj].
    assert (i = j); [|by simplify_eq].
    eapply (NoDup_lookup _ i j (app_alias x) Hnd); [by rewrite list_lookup_fmap, Hi|].
    by rewrite list_lookup_fmap, Hj, Ey.
  - destruct (List.filter _ (apps d)) as [|y k] eqn:El; [done|]. exfalso.
    assert (Hy : y ∈ List.filter (fun x => eq_lower name (app_alias x)) (apps d)) by (rewrite El; set_solver).
    apply elem_of_filterb in Hy as [Hp Hy]. rewrite (find_none _ _ Ef y) in Hp; [done|by apply list_elem_of_In].
Qed.

(** C14: Of the apps of one channel, where each was bound for messaging and its flag was just
    marked from the channel's document, exactly one takes an event: the one it is addressed
    to, and the channel's default or only app when it is addressed to nobody; none when
    the name is no app of the channel, or there is no default.  Each app decides alone, by
    its own label and the flag it was bound with, so after the document has moved on they
    may disagree until they are marked again ([moved_default_misses]). *)
Theorem one_app_answers (d : ChannelDoc) (docs : list ChannelDoc) (binding : ChannelApp -> BoundChannel) (a : option string)
    (Hwf : wf_doc d) (Hdoc : List.find (fun x => String.eqb (doc_id x) (doc_id d)) docs = Some d)
    (Hbound : forall x, x ∈ apps d -> bc_kind (binding x) = Messaging /\ bc_channel_id (binding x) = doc_id d) :
  List.filter (fun x => addressed_to_us a (app_alias x) (bc_default_app (mark_one docs (app_alias x) (binding x)))) (apps d)
  = match meant d a with
    | Some name => match List.find (fun x => eq_lower name (app_alias x)) (apps d) with Some x => [x] | None => [] end
    | None => []
    end.
Proof.
  assert (Hflag : forall x, x ∈ apps d ->
    bc_default_app (mark_one docs (app_alias x) (binding x)) = Some (takes_unaddressed d (app_alias x))).
  { intros x Hx. destruct (Hbound x Hx) as [Hk Hc]. unfold mark_one. by rewrite Hk, Hc, Hdoc. }
  unfold meant. destruct (String.eqb_spec (from_option utrim "" a) "") as [E|E].
  - destruct (default_or_only_app d) as [name|] eqn:Ed.
    + rewrite <-filter_alias by done. apply filter_ext_elem. intros x Hx.
      rewrite addressed_default, Hflag by done. unfold takes_unaddressed. rewrite Ed. by destruct (eq_lower name _).
    + apply filter_none. intros x Hx. rewrite addressed_default, Hflag by done. unfold takes_unaddressed. by rewrite Ed.
  - destruct a as [a|]; [|done]. cbn [from_option] in *. rewrite <-filter_alias by done.
    apply filter_ext_elem. intros x Hx. by apply addressed_named.
Qed.

(** A poller that runs keeps the flag it was started with: moved on the document and
    pushed to the running apps, the default stays where it was. *)
Lemma moved_default_keeps_answering (pollers : gmap string Poller) (wanted : list FeedSpec) (id : string) (p : Poller)
    (f : FeedSpec) (label : string) (a : option string) :
  pollers !! id = Some p -> wanted_feed wanted id = Some f ->
  exists q, reconcile_pollers pollers wanted !! id = Some q /\
    addressed_to_us a label (SessionScope.default_app (p_feed q)) = addressed_to_us a label (SessionScope.default_app (p_feed p)).
Proof. intros Hp Hf. exists p. by rewrite reconcile_exact, Hf, Hp. Qed.

(** ** Witness: a channel of two apps *)

Module ToyShared.
Definition shared : ChannelDoc :=
  {| doc_id := "general"; doc_name := "Family"; Channels.purpose := "daily life"; operator_of := None;
     household_default := true; members := []; apps := [ToyHome.chef; ToyHome.stats]; Channels.default_app := Some "chef";
     Channels.updated_at := 1 |}.
Definition binding (x : ChannelApp) : BoundChannel :=
  {| bc_slot := app_slot x; bc_kind := Messaging; bc_direction := Duplex; bc_channel_id := "general";
     bc_event_kinds := []; bc_endpoint := None; bc_default_app := None |}.
Definition answering (a : option string) : list ChannelApp :=
  List.filter (fun x => addressed_to_us a (app_alias x)
                          (bc_default_app (mark_one [ToyHome.opchat; shared] (app_alias x) (binding x)))) (apps shared).
End ToyShared.

Example one_app_answers_witness :
  ToyShared.answering None = [ToyHome.chef] /\ ToyShared.answering (Some " Stats ") = [ToyHome.stats] /\
  ToyShared.answering (Some "nobody") = [].
Proof.
  assert (W : wf_doc ToyShared.shared) by (apply ToyHome.doc_wf; vm_compute; reflexivity).
  split; [|split]; unfold ToyShared.answering;
    rewrite (one_app_answers ToyShared.shared [ToyHome.opchat; ToyShared.shared] ToyShared.binding _ W eq_refl
               (fun x _ => conj eq_refl eq_refl)); reflexivity.
Defined.

(** The household makes [stats] the default and the flags are pushed: unaddressed events
    still go to [chef], and not to [stats], until the delegates are started again. *)
Lemma moved_default_misses :
  let moved := {| doc_id := "general"; doc_name := "Family"; Channels.purpose := "daily life"; operator_of := None;
                  household_default := true; members := []; apps := [ToyHome.chef; ToyHome.stats];
                  Channels.default_app := Some "stats"; Channels.updated_at := 2 |} in
  let feeds_of docs x := feeds (mark_default_apps (Some docs) (app_alias x) [ToyShared.binding x]) "opchat" in
  let running x := reconcile_pollers ∅ (feeds_of [ToyShared.shared] x) in
  let rebound x := reconcile_pollers (running x) (feeds_of [moved] x) in
  let takes x := option_map (fun p => addressed_to_us None (app_alias x) (SessionScope.default_app (p_feed p))) (rebound x !! "general") in
  takes_unaddressed moved "stats" = true /\ takes ToyHome.chef = Some true /\ takes ToyHome.stats = Some false.
Proof. vm_compute. split; [reflexivity|]. split; reflexivity. Qed.
