(* ===== verification/DelegateTurn.v ===== *)
(** * A delegate's turn

    The dispatching half of [crates/agentkeys-daemon/src/chat_loop.rs]: one event of a
    feed, the session it runs in, the model's answer, and what is published back.  What
    is outside — the bridge, the relay of the models, the feed's reads — answers given
    everything done before; what the turn does is kept in order.  Publishes are not
    retried and their outcome changes nothing of the turn.

    Before it [perception.rs], what a photo or a clip says: the request put to the model, the
    reading of its reply, the turn the agent is given, and the memory of what was decoded
    already.  Serde's decoder of a result and the printing of a number are interfaces. *)
From stdpp Require Import gmap.
From Stdlib Require Import SpecFloat.
From S2P Require Import Civil Eip712 AppTemplate ChannelWorker DelegateLoop DelegateStream.
From S2P Require Import Prelude RustStr StrFacts Crates Json Utf8 F64 Capability SessionScope.

Open Scope string_scope.
Open Scope Z_scope.

(** [x.clamp(0.0, 1.0)] *)
Definition f32_unit (x : f32) : f32 :=
  if SFltb x f32_zero then f32_zero else if SFltb f32_one x then f32_one else x.

Definition DEFAULT_MIN_CONFIDENCE : f32 := f32_ratio 2 5.
Definition default_confidence : f32 := f32_ratio 1 2.

(** ** The result *)

Record PerceptionResult := {
  summary : string; facts : list string; confidence : f32; closer : bool; content_sha256 : string }.

Class PerceptionJson := {
  (** The derived decoder, with the defaults of the fields that may be missing. *)
  perception_from_str : string -> option PerceptionResult;
  (** [{:.2}] *)
  two_decimals : f32 -> string }.

Definition NL : string := String "010" "".

(** [&s[s.find(c)..]] *)
Fixpoint from_first (c : Ascii.ascii) (s : string) : option string :=
  match s with
  | "" => None
  | String x s' => if Ascii.eqb x c then Some s else from_first c s'
  end.

(** [&s[..=s.rfind(c)]] *)
Fixpoint upto_last (c : Ascii.ascii) (s : string) : option string :=
  match s with
  | "" => None
  | String x s => match upto_last c s with
                  | Some r => Some (String x r)
                  | None => if Ascii.eqb x c then Some (String x "") else None
                  end
  end.

(** From the first brace to the last, when the last is behind it. *)
Definition json_candidate (s : string) : option string := from_first "{"%char s ≫= upto_last "}"%char.

Section Perception.
Context `{PerceptionJson}.

Definition parse_result (reply sha : string) : PerceptionResult :=
  let trimmed := utrim reply in
  let r := default {| summary := trimmed; facts := []; confidence := default_confidence; closer := false;
                      content_sha256 := "" |} (json_candidate trimmed ≫= perception_from_str) in
  {| summary := if String.eqb (utrim (summary r)) "" then trimmed else summary r;
     facts := facts r; confidence := f32_unit (confidence r); closer := closer r; content_sha256 := sha |}.

Definition needs_closer_look (r : PerceptionResult) (min_confidence : f32) : bool :=
  closer r || SFltb (confidence r) min_confidence.

Definition closer_look_reply (kind : string) : string :=
  if String.eqb kind "audio-clip"
  then "I couldn't make that out clearly — could you say it again, a little slower? · 没听清，请再说一遍，慢一点。"
  else "I can't see this clearly enough to be sure — could you send a closer, brighter photo? · 看不太清，请拍一张更近、更亮的照片。".

Definition agent_turn_text (slot kind : string) (contact_tier caption : option string) (r : PerceptionResult) : string :=
  "[perceived " +:+ kind +:+ " · slot " +:+ slot
  +:+ match contact_tier with Some t => " · from a " +:+ t +:+ " contact" | None => "" end
  +:+ " · confidence " +:+ two_decimals (confidence r)
  +:+ " · sha256 " +:+ String.substring 0 12 (content_sha256 r) +:+ "]" +:+ NL +:+ utrim (summary r)
  +:+ (if is_nil (facts r) then ""
       else NL +:+ "facts:" +:+ fold_right (fun f s => NL +:+ "- " +:+ utrim f +:+ s) "" (facts r))
  +:+ match caption with
      | Some c => if String.eqb (utrim c) "" then "" else NL +:+ "caption from the sender: " +:+ utrim c
      | None => ""
      end.
End Perception.

(** ** The requests *)

Definition DEFAULT_PERCEPTION_PROMPT : string :=
  "You are the perception step in front of an assistant. Describe what this input shows and list the concrete facts an assistant could act on.".

Definition quoted (s : string) : string := String "034" (s +:+ String "034" "").

Definition RESULT_CONTRACT : string :=
  "Answer with ONE JSON object and nothing else: {" +:+ quoted "summary" +:+ ": " +:+ quoted "<one or two sentences>"
  +:+ ", " +:+ quoted "facts" +:+ ": [" +:+ quoted "<fact>" +:+ ", ...], " +:+ quoted "confidence"
  +:+ ": <0.0-1.0 how sure you are the input is clear enough to act on>, " +:+ quoted "needs_closer_look"
  +:+ ": <true when a closer or clearer photo would change the facts>}".

Definition user_message (content : Json) : Json :=
  JObject [("messages", JArray [JObject [("content", content); ("role", JString "user")]]); ("stream", JBool false)].

Definition image_request_body (prompt content_type image_b64 : string) : Json :=
  let ct := if String.eqb (utrim content_type) "" then "image/jpeg" else utrim content_type in
  user_message (JArray [
    JObject [("image_url", JObject [("url", JString ("data:" +:+ ct +:+ ";base64," +:+ image_b64))]);
             ("type", JString "image_url")];
    JObject [("text", JString (utrim prompt +:+ NL +:+ NL +:+ RESULT_CONTRACT)); ("type", JString "text")]]).

Definition transcript_request_body (prompt transcript : string) : Json :=
  user_message (JString (utrim prompt +:+ NL +:+ NL +:+ "The input is a voice clip; its transcript follows." +:+ NL
    +:+ "---" +:+ NL +:+ utrim transcript +:+ NL +:+ "---" +:+ NL +:+ NL +:+ RESULT_CONTRACT)).

(** ** The cache *)

Record PerceptionCache := {
  cache_map : gmap string PerceptionResult; cache_order : list string; cache_cap : nat }.

Definition new_cache (cap : nat) : PerceptionCache :=
  {| cache_map := ∅; cache_order := []; cache_cap := Nat.max cap 1 |}.

Definition cache_get (c : PerceptionCache) (sha : string) : option PerceptionResult := cache_map c !! sha.

(** [order.remove(0)] and the row it names, when the order has grown past the cap. *)
Definition evict (c : PerceptionCache) : PerceptionCache :=
  if (cache_cap c <? length (cache_order c))%nat
  then match cache_order c with
       | old :: rest => {| cache_map := delete old (cache_map c); cache_order := rest; cache_cap := cache_cap c |}
       | [] => c
       end
  else c.

Definition cache_put (c : PerceptionCache) (sha : string) (r : PerceptionResult) : PerceptionCache :=
  let c := match cache_map c !! sha with
           | Some _ => c
           | None => evict {| cache_map := cache_map c; cache_order := (cache_order c ++ [sha])%list; cache_cap := cache_cap c |}
           end in
  {| cache_map := <[sha := r]> (cache_map c); cache_order := cache_order c; cache_cap := cache_cap c |}.

(** The order lists the hashes of the map, each once, and no more than the cap. *)
Record cache_wf (c : PerceptionCache) : Prop := {
  cw_nodup : NoDup (cache_order c);
  cw_keys : forall sha, is_Some (cache_map c !! sha) <-> sha ∈ cache_order c;
  cw_cap : (length (cache_order c) <= cache_cap c)%nat;
  cw_room : (0 < cache_cap c)%nat }.

Lemma new_cache_wf cap : cache_wf (new_cache cap).
Proof.
  split; cbn [new_cache cache_order cache_map cache_cap length]; [constructor| |lia|lia]. intros sha. rewrite lookup_empty.
  split; [by intros []|by intros ?%elem_of_nil].
Qed.

(** A put remembers what was put; of the others it forgets at most the oldest, and that
    only for a new hash in a full cache. *)
Theorem cache_put_exact (c : PerceptionCache) (sha : string) (r : PerceptionResult) (Hwf : cache_wf c) :
  cache_wf (cache_put c sha r) /\
  forall k, cache_get (cache_put c sha r) k =
    if String.eqb k sha then Some r
    else if is_none (cache_get c sha) && (length (cache_order c) =? cache_cap c)%nat
            && bool_decide (head (cache_order c) = Some k)
    then None else cache_get c k.
Proof.
  destruct Hwf as [Hnd Hk Hcap Hroom]. unfold cache_put, cache_get.
  destruct (cache_map c !! sha) as [v|] eqn:Esha; cbn [is_none andb].
  - split.
    + split; cbn; try done. intros k. destruct (decide (k = sha)) as [->|]; [rewrite lookup_insert_eq|by rewrite lookup_insert_ne].
      rewrite <-Hk, Esha. by split; eexists.
    + intros k. cbn. destruct (String.eqb_spec k sha) as [->|]; [by rewrite lookup_insert_eq|by rewrite lookup_insert_ne].
  - assert (Hnew : sha ∉ cache_order c) by (rewrite <-Hk, Esha; by intros []).
    unfold evict. cbn [cache_order cache_map cache_cap]. rewrite length_app. cbn [length].
    destruct (Nat.ltb_spec (cache_cap c) (length (cache_order c) + 1)) as [Hfull|Hfree].
    + assert (Hlen : length (cache_order c) = cache_cap c) by lia. rewrite Hlen, Nat.eqb_refl. cbn [andb].
      destruct (cache_order c) as [|old rest] eqn:Eo; [cbn in Hlen; lia|]. cbn [app head].
      apply NoDup_cons in Hnd as [Hold Hnd]. apply not_elem_of_cons in Hnew as [Hne Hnew].
      split.
      * split; cbn [cache_map cache_order cache_cap]; [| |rewrite length_app; cbn [length] in *; lia|done].
        -- apply NoDup_app. split_and!; [done|set_solver|apply NoDup_singleton].
        -- intros k. destruct (decide (k = sha)) as [->|Hks]; [rewrite lookup_insert_eq; split; [set_solver|by eexists]|].
           rewrite lookup_insert_ne by done. destruct (decide (k = old)) as [->|Hko].
           ++ rewrite lookup_delete_eq. split; [by intros []|set_solver].
           ++ rewrite lookup_delete_ne, Hk by done. set_solver.
      * intros k. cbn [cache_map]. destruct (String.eqb_spec k sha) as [->|Hks]; [by rewrite lookup_insert_eq|].
        rewrite lookup_insert_ne by done. case_bool_decide as Ek.
        -- injection Ek as ->. by rewrite lookup_delete_eq.
        -- rewrite lookup_delete_ne; [done|]. congruence.
    + replace (length (cache_order c) =? cache_cap c)%nat with false by (symmetry; apply Nat.eqb_neq; lia). cbn [andb].
      split.
      * split; cbn [cache_map cache_order cache_cap]; [| |rewrite length_app; cbn [length]; lia|done].
        -- apply NoDup_app. split_and!; [done|set_solver|apply NoDup_singleton].
        -- intros k. destruct (decide (k = sha)) as [->|Hks]; [rewrite lookup_insert_eq; split; [set_solver|by eexists]|].
           rewrite lookup_insert_ne, Hk by done. set_solver.
      * intros k. cbn [cache_map]. destruct (String.eqb_spec k sha) as [->|Hks]; [by rewrite lookup_insert_eq|by rewrite lookup_insert_ne].
Qed.

(** ** The bodies of the calls *)

(** chrono's [%Y-%m-%d %a %H:%M] of a Unix second. *)
Class LocalFormat := { chrono_format : Z -> string }.

Definition turn_clock_line `{LocalFormat} (now_unix tz : Z) : string :=
  "[now · " +:+ chrono_format (now_unix + tz * 60) +:+ " · UTC" +:+ (if tz <? 0 then "-" else "+")
  +:+ zero_padded 2 (Z.abs tz / 60) +:+ ":" +:+ zero_padded 2 (Z.abs tz mod 60) +:+ "]".

Definition opt_field (k : string) (v : option Json) : list (string * Json) :=
  match v with Some v => [(k, v)] | None => [] end.

Definition session_value (s : BridgeChatSession) : Json :=
  JObject (opt_field "context" (JString <$> s_context s)
           ++ opt_field "idle_minutes" ((fun n => JNumber (PosInt n)) <$> s_idle_minutes s)
           ++ opt_field "party" (JString <$> s_party s)
           ++ [("scope", JString (s_scope s)); ("window", JString (SessionWindow_as_str (s_window s)))])%list.

Definition bridge_chat_body (text : string) (stream : bool) (s : option BridgeChatSession) (clock_line : string) : Json :=
  JObject (opt_field "session" (session_value <$> s)
           ++ [("stream", JBool stream); ("text", JString (clock_line +:+ NL +:+ text))])%list.

Definition reset_value (r : BridgeSessionReset) : Json :=
  JObject (opt_field "channel" (JString <$> r_channel r) ++ opt_field "party" (JString <$> r_party r)
           ++ [("scope", JString (SessionResetScope_as_str (r_scope r)))])%list.

Definition tts_body_for (text : string) (params : option ChannelAudioParams) : Json :=
  JObject (("input", JString text) ::
    match params with
    | None => []
    | Some p => opt_field "speech_rate" ((fun n => JNumber (if n <? 0 then NegInt n else PosInt n)) <$> speech_rate p)
                ++ opt_field "voice" (JString <$> voice p)
    end)%list.

Definition BULLET : string := "• ".

Definition job_line (j : Json) : string :=
  match get j "cron" ≫= as_str with
  | Some cron =>
      BULLET +:+ "⏰ " +:+ default "?" (get j "label" ≫= as_str) +:+ " (" +:+ cron +:+ ") — "
      +:+ default "armed" (get j "status" ≫= as_str) +:+ NL
  | None =>
      BULLET +:+ "[" +:+ dec_i64 (default 0 (get j "pgid" ≫= as_i64)) +:+ "] "
      +:+ take_chars 60 (default "?" (get j "cmd" ≫= as_str)) +:+ NL
  end.

(** Both shapes of the bridge's answer: the array, and the object that holds it. *)
Definition job_list (v : Json) : list Json :=
  match v with
  | JArray a => a
  | JObject _ => default [] (get v "jobs" ≫= as_array)
  | _ => []
  end.

Definition render_jobs_doc (v : Json) : string :=
  match job_list v with
  | [] => "No background tasks running."
  | jobs => dec (Z.of_nat (length jobs)) +:+ " background task(s):" +:+ NL
            +:+ fold_right (fun j s => job_line j +:+ s) "" jobs
  end.

Inductive Readiness := Ready | Degraded | Waiting.

Definition degraded_note (r : Readiness) : option string :=
  match r with
  | Ready => None
  | Degraded => Some "⚠ knowledge unavailable · 知识暂不可用 — answering from what I have"
  | Waiting => Some "⏳ knowledge still loading · 知识加载中 — answering from what I have"
  end.

Definition sniff_audio_format (b : bytes) : string :=
  if (12 <=? length b)%nat && bool_decide (take 4 b = as_bytes "RIFF") && bool_decide (take 4 (drop 8 b) = as_bytes "WAVE")
  then "wav"
  else if (3 <=? length b)%nat
          && (bool_decide (take 3 b = as_bytes "ID3")
              || match b with b0 :: b1 :: _ => (byte_val b0 =? 255) && (Z.land (byte_val b1) 224 =? 224) | _ => false end)
  then "mp3"
  else if (4 <=? length b)%nat && bool_decide (take 4 b = as_bytes "OggS") then "ogg"
  else "wav".

(** [reply_needed]: the count of the app's own publishes has not moved. *)
Definition reply_needed (before after : Z) : bool := after =? before.

(** ** What a turn does *)

Inductive Act :=
| Published (channel : string) (k : ChannelEventKind) (body_b64 correlation : string)
| Asked (text : string) (session : BridgeChatSession)
| AskedStream (channel text : string) (session : BridgeChatSession) (deltas : list Delta)
| ReadTail (channel : string) (n : Z)
| FetchedBlob (channel body_ref : string)
| Transcribed (format : string)
| Completed (request : Json)
| Spoke (request : Json)
| ListedJobs
| Reset (r : BridgeSessionReset)
| SyncNow.

(** The publish of an act: a delegate writes [out] and nothing else. *)
Definition publish_body (cap : CapToken) (k : ChannelEventKind) (body_b64 correlation : string) (seq : option Z)
    (ct : option string) : PublishRequest :=
  {| pr_cap := cap; pr_kind := k; pr_direction := Out; pr_body_b64 := Some body_b64; pr_body_ref := None;
     pr_correlation := Some correlation; pr_audio := None; pr_partial := if seq then Some true else None;
     pr_seq := seq; pr_stream := None; pr_contact := None;
     pr_content_type := match ct with Some c => if String.eqb c "" then None else Some c | None => None end;
     pr_relay_of := None; pr_addressee := None |}.

Record Loop := { acts : list Act; sent_sessions : gset string; cache : PerceptionCache }.

Definition act (l : Loop) (a : Act) : Loop :=
  {| acts := (acts l ++ [a])%list; sent_sessions := sent_sessions l; cache := cache l |}.

(** What is outside; an answer may depend on everything done before. *)
Record World := {
  w_ready : list Act -> Readiness;
  w_chat : list Act -> Json -> result string Json;
  w_stream : list Act -> Json -> BridgeAnswer;
  w_delta : list Act -> nat -> bool;
  w_clock : list Act -> nat -> Z;
  w_tail : list Act -> string -> Z -> result string (list ChannelEvent);
  w_blob : list Act -> string -> string -> result string (bytes * string);
  w_asr : list Act -> string -> string -> result string Json;
  w_complete : list Act -> Json -> result string Json;
  w_speak : list Act -> Json -> result string Json;
  w_jobs : list Act -> result string Json;
  w_reset : list Act -> Json -> result string Json;
  (** How many texts the app published itself on a channel so far. *)
  w_tools : list Act -> string -> Z;
  w_millis : list Act -> Z }.

Record LoopConfig := {
  lc_chat_channel : string; lc_tz : Z; lc_gate : bool; lc_prompt : option string; lc_min_confidence : f32;
  lc_slots : gmap string SessionPolicy; lc_flush_ms : Z }.

Definition app_label (c : LoopConfig) : string :=
  default (lc_chat_channel c) (strip_prefix "opchat-" (lc_chat_channel c)).

Section Turn.
Context `{Base64, Sha256, HexCodec, SerdeJson, ResetJson, CardJson, PerceptionJson, LocalFormat}.
Variables (w : World) (c : LoopConfig).

Definition say (l : Loop) (channel : string) (k : ChannelEventKind) (body : bytes) (correlation : string) : Loop :=
  act l (Published channel k (b64_encode body) correlation).

Definition say_text (l : Loop) (channel text correlation : string) : Loop :=
  say l channel Text (as_bytes text) correlation.

Definition clock_line (l : Loop) : string := turn_clock_line (w_millis w (acts l) / 1000) (lc_tz c).

Definition bridge_chat (l : Loop) (text : string) (s : BridgeChatSession) : Loop * result string string :=
  (act l (Asked text s),
   let? v := w_chat w (acts l) (bridge_chat_body text false (Some s) (clock_line l)) in
   Ok (default "(no reply)" (get v "reply" ≫= as_str))).

Definition bridge_stream (l : Loop) (channel text : string) (s : BridgeChatSession) (correlation : string)
    : Loop * result string string :=
  let '(deltas, reply) := bridge_chat_stream (w_delta w (acts l)) (w_clock w (acts l)) correlation (lc_flush_ms c)
    (w_stream w (acts l) (bridge_chat_body text true (Some s) (clock_line l))) in
  (act l (AskedStream channel text s deltas), reply).

Definition NO_GATE : string :=
  "perception turns need the gate (AGENTKEYS_GATE_SPEECH_URL + gk_ key from a gate-provisioned spawn) — this sandbox has none".
Definition NO_SPEECH : string :=
  "voice turns need the gate speech relay (AGENTKEYS_GATE_SPEECH_URL + gk_ key from a gate-provisioned spawn) — this sandbox has none".

(** [v["choices"][0]["message"]["content"]] *)
Definition completion_text (v : Json) : string :=
  default "" (choices ← get v "choices"; l ← as_array choices; first ← head l; m ← get first "message";
              t ← get m "content"; as_str t).

Definition gate_completion (l : Loop) (request : Json) : Loop * result string string :=
  if negb (lc_gate c) then (l, Err NO_GATE)
  else (act l (Completed request),
        let? v := w_complete w (acts l) request in
        if String.eqb (utrim (completion_text v)) "" then Err "gate completion returned an empty reply"
        else Ok (completion_text v)).

Definition gate_transcribe (l : Loop) (audio_b64 format : string) : Loop * result string string :=
  if negb (lc_gate c) then (l, Err NO_SPEECH)
  else (act l (Transcribed format),
        let? v := w_asr w (acts l) audio_b64 format in
        let t := default "" (get v "text" ≫= as_str) in
        if String.eqb (utrim t) "" then Err "gate asr returned an empty transcript" else Ok t).

Definition tts_synthesize (l : Loop) (text : string) (params : option ChannelAudioParams) : Loop * result string string :=
  let request := tts_body_for text params in
  (act l (Spoke request),
   let? v := w_speak w (acts l) request in
   let a := default "" (get v "audio_b64" ≫= as_str) in
   if String.eqb a "" then Err "gate tts returned no audio" else Ok a).

Definition inline_text (e : ChannelEvent) : string := default "" (inline_utf8 e).

(** The bytes of an event and their type. *)
Definition event_bytes (l : Loop) (feed : FeedSpec) (e : ChannelEvent) : Loop * result string (bytes * string) :=
  match body e, body_ref e with
  | Some b64, _ =>
      (l, match b64_decode b64 with
          | Some b => Ok (b, default "" (content_type e))
          | None => Err "inline body is not valid base64"
          end)
  | None, Some r => (act l (FetchedBlob (feed_channel_id feed) r), w_blob w (acts l) (feed_channel_id feed) r)
  | None, None => (l, Err "event carries neither body nor body_ref")
  end.

(** ** Sessions *)

Definition with_context (s : BridgeChatSession) (ctx : option string) : BridgeChatSession :=
  {| s_window := s_window s; s_scope := s_scope s; s_party := s_party s; s_idle_minutes := s_idle_minutes s;
     s_context := ctx |}.

Definition session_with_context (l : Loop) (feed : FeedSpec) (e : ChannelEvent) (s : BridgeChatSession)
    : Loop * BridgeChatSession :=
  match open_session_key s with
  | None => (l, s)
  | Some key =>
      if bool_decide (key ∈ sent_sessions l) then (l, s)
      else
        let l' := act l (ReadTail (feed_channel_id feed) REBUILD_TAIL_EVENTS) in
        match w_tail w (acts l) (feed_channel_id feed) REBUILD_TAIL_EVENTS with
        | Ok events => (l', with_context s (rebuild_window events s (event_id e) (w_millis w (acts l'))))
        | Err _ => (l', s)
        end
  end.

Definition mark_sent (l : Loop) (s : BridgeChatSession) : Loop :=
  match open_session_key s with
  | Some key => {| acts := acts l; sent_sessions := sent_sessions l ∪ {[key]}; cache := cache l |}
  | None => l
  end.

(** The body of a card event, read from the event or fetched beside the feed. *)
Definition card_bytes (l : Loop) (feed : FeedSpec) (e : ChannelEvent) : Loop * option bytes :=
  match body e, body_ref e with
  | Some b64, _ => (l, b64_decode b64)
  | None, Some r =>
      (act l (FetchedBlob (feed_channel_id feed) r),
       match w_blob w (acts l) (feed_channel_id feed) r with Ok (b, _) => Some b | Err _ => None end)
  | None, None => (l, None)
  end.

Fixpoint cards_of (l : Loop) (feed : FeedSpec) (events : list ChannelEvent) : Loop * list (Z * bytes) :=
  match events with
  | [] => (l, [])
  | e :: events =>
      let '(l, b) := card_bytes l feed e in
      let '(l, cards) := cards_of l feed events in
      (l, match b with Some b => (ts_millis e, b) :: cards | None => cards end)
  end.

Definition tapped_card (l : Loop) (feed : FeedSpec) (e : ChannelEvent) (card_updated : Z) : Loop * option string :=
  let l' := act l (ReadTail (feed_channel_id feed) CARD_LOOKUP_TAIL_EVENTS) in
  match w_tail w (acts l) (feed_channel_id feed) CARD_LOOKUP_TAIL_EVENTS with
  | Err _ => (l', None)
  | Ok events =>
      let '(l, cards) := cards_of l' feed (List.filter is_card_event events) in
      (l, tapped_card_context cards card_updated (ts_millis e))
  end.

(** ** Turns *)

Definition knowledge_note (l : Loop) (channel correlation : string) : Loop :=
  match degraded_note (w_ready w (acts l)) with
  | Some note => say_text l channel note correlation
  | None => l
  end.

(** The reply of a turn; a turn that went well has sent its session. *)
Definition reply_of (l : Loop) (s : BridgeChatSession) (answer : result string string) : Loop * string :=
  match answer with
  | Ok r => (mark_sent l s, r)
  | Err e => (l, "(agent error: " +:+ e +:+ ")")
  end.

(** The turn's own text, unless the app published one on the channel meanwhile. *)
Definition say_reply (l : Loop) (channel reply correlation : string) (before : Z) : Loop :=
  if reply_needed before (w_tools w (acts l) channel) then say_text l channel reply correlation else l.

Definition voice_turn (l : Loop) (audio : bytes) (params : option ChannelAudioParams) (s : BridgeChatSession)
    : Loop * result string (string * string) :=
  if negb (lc_gate c) then (l, Err NO_SPEECH)
  else
    let format := default (sniff_audio_format audio) (p ← params; audio_format p) in
    match gate_transcribe l (b64_encode audio) format with
    | (l, Err e) => (l, Err e)
    | (l, Ok transcript) =>
        match bridge_chat l transcript s with
        | (l, Err e) => (l, Err e)
        | (l, Ok reply) =>
            let '(l, audio) := tts_synthesize l reply params in
            (l, let? a := audio in Ok (reply, a))
        end
    end.

Definition voice_event (l : Loop) (feed : FeedSpec) (e : ChannelEvent) (s : BridgeChatSession) : Loop :=
  let ch := feed_channel_id feed in
  match event_bytes l feed e with
  | (l, Err _) => l
  | (l, Ok (b, _)) =>
      let '(l, s) := session_with_context l feed e s in
      match voice_turn l b (audio e) s with
      | (l, Ok (reply, a)) =>
          let l := say_text (mark_sent l s) ch reply (event_id e) in
          act l (Published ch AudioClip a (event_id e))
      | (l, Err err) => say_text l ch ("(voice error: " +:+ err +:+ ")") (event_id e)
      end
  end.

Definition sha256_hex (b : bytes) : string := hex_encode (sha256 b).

(** What the model makes of the bytes. *)
Definition perceive (l : Loop) (e : ChannelEvent) (b : bytes) (ct : string) : Loop * result string string :=
  let prompt := default DEFAULT_PERCEPTION_PROMPT (lc_prompt c) in
  match kind e with
  | AudioClip =>
      let format := default (sniff_audio_format b) (p ← audio e; audio_format p) in
      match gate_transcribe l (b64_encode b) format with
      | (l, Ok transcript) => gate_completion l (transcript_request_body prompt transcript)
      | (l, Err err) => (l, Err err)
      end
  | _ => gate_completion l (image_request_body prompt ct (b64_encode b))
  end.

(** The remembered result, or the model's. *)
Definition perceived (l : Loop) (e : ChannelEvent) (b : bytes) (ct : string) : Loop * result string PerceptionResult :=
  let sha := sha256_hex b in
  match cache_get (cache l) sha with
  | Some r => (l, Ok r)
  | None =>
      match perceive l e b ct with
      | (l, Err err) => (l, Err err)
      | (l, Ok reply) =>
          let r := parse_result reply sha in
          ({| acts := acts l; sent_sessions := sent_sessions l; cache := cache_put (cache l) sha r |}, Ok r)
      end
  end.

Definition perceive_and_turn (l : Loop) (feed : FeedSpec) (e : ChannelEvent) (tier : option string) (s : BridgeChatSession)
    : Loop :=
  let ch := feed_channel_id feed in
  let k := ChannelEventKind_as_str (kind e) in
  let l := knowledge_note l ch (event_id e) in
  match event_bytes l feed e with
  | (l, Err _) => l
  | (l, Ok (b, ct)) =>
      match perceived l e b ct with
      | (l, Err err) => say_text l ch ("(perception error: " +:+ err +:+ ")") (event_id e)
      | (l, Ok r) =>
          if needs_closer_look r (lc_min_confidence c) then say_text l ch (closer_look_reply k) (event_id e)
          else
            let '(l, s) := session_with_context l feed e s in
            let before := w_tools w (acts l) ch in
            let '(l, answer) := bridge_chat l (agent_turn_text (slot feed) k tier None r) s in
            let '(l, reply) := reply_of l s answer in
            say_reply l ch reply (event_id e) before
      end
  end.

Definition handle_session_reset (l : Loop) (feed : FeedSpec) (e : ChannelEvent) (scope : SessionResetScope) : Loop :=
  let '(l, reply) :=
    match authorize_reset scope feed e with
    | None => (l, RESET_REFUSED_REPLY)
    | Some r => (act l (Reset r),
                 match w_reset w (acts l) (reset_value r) with
                 | Ok _ => reset_ack scope
                 | Err err => "(reset failed: " +:+ err +:+ ")"
                 end)
    end in
  say_text l (feed_channel_id feed) reply (event_id e).

Definition actor_of (p : ChannelProducer) : string :=
  match p with Actor omni => omni | Contact id _ => id end.

Definition command_text (feed : FeedSpec) (e : ChannelEvent) (cmd : CardCommand) : string :=
  "[command · slot " +:+ slot feed +:+ " · action " +:+ command_action cmd +:+ " · from actor "
  +:+ actor_of (producer e) +:+ "]" +:+ NL +:+ command_name cmd
  +:+ (if is_null (command_args cmd) then ""
       else NL +:+ "args: " +:+ String.string_of_list_byte (json_to_vec (command_args cmd))).

Definition card_event (l : Loop) (feed : FeedSpec) (e : ChannelEvent) (s : BridgeChatSession) (cmd : CardCommand) : Loop :=
  let ch := feed_channel_id feed in
  let l := knowledge_note l ch (event_id e) in
  let '(l, s) := match s_window s with
                 | WEvent => let '(l, ctx) := tapped_card l feed e (card_updated_at cmd) in (l, with_context s ctx)
                 | _ => session_with_context l feed e s
                 end in
  let '(l, answer) := bridge_chat l (command_text feed e cmd) s in
  let '(l, reply) := reply_of l s answer in
  say_text l ch reply (event_id e).

Definition command_event (l : Loop) (feed : FeedSpec) (e : ChannelEvent) (s : BridgeChatSession) : Loop :=
  let ch := feed_channel_id feed in
  let cmd := inline_text e in
  if String.eqb (utrim cmd) "sync" then say_text (act l SyncNow) ch "⟳ pulling knowledge now" (event_id e)
  else if String.eqb (utrim cmd) "jobs" then
    let doc := match w_jobs w (acts l) with Ok v => render_jobs_doc v | Err err => "(jobs error: " +:+ err +:+ ")" end in
    say (act l ListedJobs) ch Doc (as_bytes doc) (event_id e)
  else match parse_session_reset (as_bytes (utrim cmd)) with
       | Some scope => handle_session_reset l feed e scope
       | None => match parse_card_command (as_bytes cmd) with
                 | Ok card => card_event l feed e s card
                 | Err _ => l
                 end
       end.

(** The text the agent is given: what a caption is about, and where it came from. *)
Definition turn_text (feed : FeedSpec) (e : ChannelEvent) (tier : option string) : string :=
  let text := inline_text e in
  let text := match relay_of e with
              | Some media => "[caption for the perceived input " +:+ media +:+ "]" +:+ NL +:+ text
              | None => text
              end in
  if String.eqb (slot feed) OPCHAT_SLOT then text
  else "[from slot " +:+ slot feed +:+ " (" +:+ ChannelEndpointKind_as_str (feed_kind feed) +:+ ")"
       +:+ match tier with Some t => " · a " +:+ t +:+ " contact" | None => "" end +:+ "]" +:+ NL +:+ text.

(** A reply asked for aloud is spoken too, when there is a relay. *)
Definition speak_reply (l : Loop) (channel reply : string) (e : ChannelEvent) : Loop :=
  match audio e with
  | Some p => if is_some (voice p) && lc_gate c
              then match tts_synthesize l reply (Some p) with
                   | (l, Ok a) => act l (Published channel AudioClip a (event_id e))
                   | (l, Err _) => l
                   end
              else l
  | None => l
  end.

Definition text_event (l : Loop) (feed : FeedSpec) (e : ChannelEvent) (tier : option string) (s : BridgeChatSession)
    (before : Z) : Loop :=
  let ch := feed_channel_id feed in
  if String.eqb (utrim (inline_text e)) "" then l
  else
    let text := turn_text feed e tier in
    let l := knowledge_note l ch (event_id e) in
    let '(l, s) := session_with_context l feed e s in
    let '(l, answer) := if bool_decide (stream e = Some true) then bridge_stream l ch text s (event_id e)
                        else bridge_chat l text s in
    let '(l, reply) := reply_of l s answer in
    speak_reply (say_reply l ch reply (event_id e) before) ch reply e.

Definition handle_event (l : Loop) (feed : FeedSpec) (e : ChannelEvent) : Loop :=
  let tier := stamp_tier <$> contact e in
  if negb (bool_decide (direction e = In)) then l
  else if bool_decide (kind e = Lifecycle) then l
  else if negb (addressed_to_us (addressee e) (app_label c) (default_app feed)) then l
  else match feed_session feed e (lc_slots c !! slot feed) with
       | None => l
       | Some s =>
           let before := w_tools w (acts l) (feed_channel_id feed) in
           match kind e with
           | Lifecycle => l
           | AudioClip => if String.eqb (slot feed) OPCHAT_SLOT then voice_event l feed e s
                          else perceive_and_turn l feed e tier s
           | Image | Frame => perceive_and_turn l feed e tier s
           | Command => command_event l feed e s
           | Text | Doc => text_event l feed e tier s before
           end
       end.
End Turn.
