(* ===== verification/Publisher.v ===== *)
(** * The one publisher of a delegate

    [Publisher] of [crates/agentkeys-daemon/src/chat_loop.rs]: publishing and reading on
    every feed of a delegate under capabilities that are minted for one feed and one
    direction, kept until shortly before they expire and dropped when the worker refuses
    them; and the media kept beside a feed.  The broker and the worker answer from
    outside; a mint that the broker refuses as expired drops the session's bearer at once. *)
From stdpp Require Import gmap.
From S2P Require Import DeviceCore CapabilityVerify LocalStore ChannelWorker DelegateLoop DelegateTurn.
From S2P Require Import Prelude RustStr StrFacts Crates Json Utf8 Capability SessionScope.

Open Scope string_scope.
Open Scope Z_scope.

(** ** Requests and replies *)

Inductive Reply (A : Type) :=
| ReplyFails (e : string)
| ReplyStatus (status : Z) (text : string)
| ReplyUnreadable (e : string)
| Replied (a : A).
Arguments ReplyFails {A} e. Arguments ReplyStatus {A} status text.
Arguments ReplyUnreadable {A} e. Arguments Replied {A} a.

Inductive Sent :=
| SentPublish (r : PublishRequest)
| SentBlobPut (r : BlobPutRequest)
| SentPoll (r : PollRequest)
| SentBlobGet (r : BlobGetRequest).

Record Worker := {
  on_publish : PublishRequest -> Reply unit;
  on_blob_put : BlobPutRequest -> Reply string;
  on_poll : PollRequest -> Reply (list ChannelEvent);
  on_blob_get : BlobGetRequest -> Reply (string * string) }.

(** A request with the feed it is for and the instant it is sent at. *)
Record Request := { rq_channel : string; rq_at : Z; rq_sent : Sent }.

Record Publisher := {
  pub_caps : gmap string CapCache; sub_caps : gmap string CapCache; session : Session; requests : list Request }.

Definition new_publisher (s : Session) : Publisher :=
  {| pub_caps := ∅; sub_caps := ∅; session := s; requests := [] |}.

Definition caps_of (publish : bool) (p : Publisher) : gmap string CapCache := if publish then pub_caps p else sub_caps p.

Definition with_caps_of (publish : bool) (p : Publisher) (m : gmap string CapCache) : Publisher :=
  {| pub_caps := if publish then m else pub_caps p; sub_caps := if publish then sub_caps p else m;
     session := session p; requests := requests p |}.

Definition with_session (p : Publisher) (s : Session) : Publisher :=
  {| pub_caps := pub_caps p; sub_caps := sub_caps p; session := s; requests := requests p |}.

Definition send (p : Publisher) (channel : string) (at_ : Z) (r : Sent) : Publisher :=
  {| pub_caps := pub_caps p; sub_caps := sub_caps p; session := session p;
     requests := (requests p ++ [{| rq_channel := channel; rq_at := at_; rq_sent := r |}])%list |}.

(** ** Capabilities *)

Definition service_of (publish : bool) (channel : string) : string :=
  (if publish then "channel-pub:" else "channel-sub:") +:+ channel.

Section Publisher.
Context `{Base64Url} `{SerdeJson} `{Base64}.

(** The capability kept for the feed, or a new one. *)
Definition cap_for (o : Outside) (p : Publisher) (channel : string) (publish : bool)
    : Publisher * result string (CapToken * string) :=
  match caps_of publish p !! channel ≫= cap_fresh (o_now o) with
  | Some cap => (p, Ok (cap, ""))
  | None =>
      match session_bearer (o_secs o) (o_resolved o) (session p) with
      | (s, Err e) => (with_session p s, Err e)
      | (s, Ok bearer) =>
          let p := with_session p s in
          match o_minted o (service_of publish channel) bearer with
          | Err msg =>
              (if mint_expired msg then with_session p (session_invalidate bearer s) else p,
               Err (service_of publish channel +:+ " mint: " +:+ msg))
          | Ok cap => (with_caps_of publish p (<[channel := cap_store (o_now o) cap]> (caps_of publish p)), Ok (cap, bearer))
          end
      end
  end.

Definition invalidate_cap (p : Publisher) (channel : string) (publish : bool) : Publisher :=
  match caps_of publish p !! channel with
  | Some _ => with_caps_of publish p (<[channel := no_cap]> (caps_of publish p))
  | None => p
  end.

Definition refuses_cap (status : Z) : bool := (status =? 401) || (status =? 403).

(** The capability is dropped when the worker refuses it. *)
Definition drop_refused (p : Publisher) (channel : string) (publish : bool) (status : Z) : Publisher :=
  if refuses_cap status then invalidate_cap p channel publish else p.

(** ** Publishing *)

Definition publish (o : Outside) (w : Worker) (p : Publisher) (channel : string) (k : ChannelEventKind)
    (body_b64 correlation : string) (partial_seq : option Z) (ct : option string) : Publisher * result string unit :=
  match cap_for o p channel true with
  | (p, Err e) => (p, Err e)
  | (p, Ok (cap, _)) =>
      let r := publish_body cap k body_b64 correlation partial_seq ct in
      let p := send p channel (o_now o) (SentPublish r) in
      match on_publish w r with
      | ReplyFails e => (p, Err ("publish send: " +:+ e))
      | ReplyStatus status text => (drop_refused p channel true status, Err ("publish HTTP " +:+ text))
      | ReplyUnreadable _ | Replied _ => (p, Ok tt)
      end
  end.

Definition publish_text_out (o : Outside) (w : Worker) (p : Publisher) (channel text correlation : string)
    : Publisher * result string unit :=
  publish o w p channel Text (b64_encode (as_bytes text)) correlation None None.

Definition publish_delta (o : Outside) (w : Worker) (p : Publisher) (channel body_b64 correlation : string) (seq : Z)
    : Publisher * result string unit :=
  publish o w p channel Text body_b64 correlation (Some seq) None.

(** ** Media beside the feed *)

Definition put_blob (o : Outside) (w : Worker) (p : Publisher) (channel ct : string) (b : bytes)
    : Publisher * result string string :=
  match cap_for o p channel true with
  | (p, Err e) => (p, Err e)
  | (p, Ok (cap, _)) =>
      let r := {| bp_cap := cap; bp_content_type := ct; bp_bytes_b64 := b64_encode b |} in
      let p := send p channel (o_now o) (SentBlobPut r) in
      match on_blob_put w r with
      | ReplyFails e => (p, Err ("blob-put send: " +:+ e))
      | ReplyStatus status text => (drop_refused p channel true status, Err ("blob-put HTTP " +:+ text))
      | ReplyUnreadable e => (p, Err ("blob-put parse: " +:+ e))
      | Replied body_ref => (p, Ok body_ref)
      end
  end.

Definition ref_body (cap : CapToken) (k : ChannelEventKind) (body_ref correlation ct : string) : PublishRequest :=
  {| pr_cap := cap; pr_kind := k; pr_direction := Out; pr_body_b64 := None; pr_body_ref := Some body_ref;
     pr_correlation := Some correlation; pr_audio := None; pr_partial := None; pr_seq := None; pr_stream := None;
     pr_contact := None; pr_content_type := Some ct; pr_relay_of := None; pr_addressee := None |}.

(** An event that names what was stored; a refusal is not taken up here. *)
Definition publish_ref (o : Outside) (w : Worker) (p : Publisher) (channel : string) (k : ChannelEventKind)
    (body_ref correlation ct : string) : Publisher * result string unit :=
  match cap_for o p channel true with
  | (p, Err e) => (p, Err e)
  | (p, Ok (cap, _)) =>
      let r := ref_body cap k body_ref correlation ct in
      let p := send p channel (o_now o) (SentPublish r) in
      match on_publish w r with
      | ReplyFails e => (p, Err ("publish send: " +:+ e))
      | ReplyStatus _ text => (p, Err ("publish HTTP " +:+ text))
      | ReplyUnreadable _ | Replied _ => (p, Ok tt)
      end
  end.

(** The two legs meet the outside at two moments. *)
Definition publish_bytes (o o' : Outside) (w w' : Worker) (p : Publisher) (channel : string) (k : ChannelEventKind)
    (b : bytes) (ct correlation : string) (inline_max : nat) : Publisher * result string (option string) :=
  if (length b <=? inline_max)%nat then
    let '(p, out) := publish o w p channel k (b64_encode b) correlation None (Some ct) in
    (p, let? _ := out in Ok None)
  else
    match put_blob o w p channel ct b with
    | (p, Err e) => (p, Err e)
    | (p, Ok body_ref) =>
        let '(p, out) := publish_ref o' w' p channel k body_ref correlation ct in
        (p, let? _ := out in Ok (Some body_ref))
    end.

(** ** Reading *)

Definition tail (o : Outside) (w : Worker) (p : Publisher) (channel : string) (n : Z)
    : Publisher * result string (list ChannelEvent) :=
  match cap_for o p channel false with
  | (p, Err e) => (p, Err e)
  | (p, Ok (cap, _)) =>
      let r := {| po_cap := cap; po_after := ""; po_wait_seconds := 0; po_tail := Some n |} in
      let p := send p channel (o_now o) (SentPoll r) in
      match on_poll w r with
      | ReplyFails e => (p, Err ("tail send: " +:+ e))
      | ReplyStatus status text => (drop_refused p channel false status, Err ("tail HTTP " +:+ text))
      | ReplyUnreadable e => (p, Err ("tail parse: " +:+ e))
      | Replied events => (p, Ok events)
      end
  end.

Definition fetch_blob (o : Outside) (w : Worker) (p : Publisher) (channel body_ref : string)
    : Publisher * result string (bytes * string) :=
  match cap_for o p channel false with
  | (p, Err e) => (p, Err e)
  | (p, Ok (cap, _)) =>
      let r := {| bg_cap := cap; bg_body_ref := body_ref |} in
      let p := send p channel (o_now o) (SentBlobGet r) in
      match on_blob_get w r with
      | ReplyFails e => (p, Err ("blob-get send: " +:+ e))
      | ReplyStatus status text => (drop_refused p channel false status, Err ("blob-get HTTP " +:+ text))
      | ReplyUnreadable e => (p, Err ("blob-get parse: " +:+ e))
      | Replied (bytes_b64, ct) =>
          (p, match b64_decode bytes_b64 with
              | Some b => Ok (b, ct)
              | None => Err "blob-get body is not valid base64"
              end)
      end
  end.
End Publisher.

(** * Properties *)

(** ** Every capability on its own feed *)

Definition cap_of (s : Sent) : CapToken :=
  match s with SentPublish r => pr_cap r | SentBlobPut r => bp_cap r | SentPoll r => po_cap r | SentBlobGet r => bg_cap r end.

Definition writes_feed (s : Sent) : bool := match s with SentPublish _ | SentBlobPut _ => true | _ => false end.

(** What a delegate asks of its publisher, with the outside as each leg meets it. *)
Inductive Op :=
| Publishes (o : Outside) (w : Worker) (channel : string) (k : ChannelEventKind) (body_b64 correlation : string)
    (partial_seq : option Z) (ct : option string)
| PublishesBytes (o o' : Outside) (w w' : Worker) (channel : string) (k : ChannelEventKind) (b : bytes)
    (ct correlation : string) (inline_max : nat)
| Reads (o : Outside) (w : Worker) (channel : string) (n : Z)
| Fetches (o : Outside) (w : Worker) (channel body_ref : string).

Section Own.
Context `{Base64Url} `{SerdeJson} `{Base64}.

Definition op_step (p : Publisher) (x : Op) : Publisher :=
  match x with
  | Publishes o w ch k b co sq ct => (publish o w p ch k b co sq ct).1
  | PublishesBytes o o' w w' ch k b ct co m => (publish_bytes o o' w w' p ch k b ct co m).1
  | Reads o w ch n => (tail o w p ch n).1
  | Fetches o w ch r => (fetch_blob o w p ch r).1
  end.

Definition meets (x : Op) : list Outside :=
  match x with
  | Publishes o _ _ _ _ _ _ _ | Reads o _ _ _ | Fetches o _ _ _ => [o]
  | PublishesBytes o o' _ _ _ _ _ _ _ _ => [o; o']
  end.

(** [issued publish channel cap t]: the broker gave [cap] for writing, or reading, that feed
    at the instant [t]. *)
Context (issued : bool -> string -> CapToken -> Z -> Prop).

Definition mints_as_issued (o : Outside) : Prop :=
  forall publish channel bearer cap, o_minted o (service_of publish channel) bearer = Ok cap ->
    issued publish channel cap (o_now o).

Definition caps_own (p : Publisher) : Prop :=
  forall publish channel cap t, (caps_of publish p !! channel ≫= cached) = Some (cap, t) -> issued publish channel cap t.

(** A request carries a capability of its own feed and direction, young enough, and what is
    published goes out. *)
Definition request_own (rq : Request) : Prop :=
  (exists t, issued (writes_feed (rq_sent rq)) (rq_channel rq) (cap_of (rq_sent rq)) t /\
             rq_at rq - t < CAP_TTL - REFRESH_MARGIN) /\
  match rq_sent rq with SentPublish r => pr_direction r = Out | _ => True end.

Definition owns (p : Publisher) : Prop := caps_own p /\ Forall request_own (requests p).

Lemma caps_insert (b b' : bool) (p : Publisher) m : caps_of b (with_caps_of b' p m) = if Bool.eqb b b' then m else caps_of b p.
Proof. by destruct b, b'. Qed.

Lemma caps_own_insert p (publish : bool) channel c : caps_own p ->
  (forall cap t, cached c = Some (cap, t) -> issued publish channel cap t) ->
  caps_own (with_caps_of publish p (<[channel := c]> (caps_of publish p))).
Proof.
  intros Hp Hc b ch cap t. rewrite caps_insert. destruct (Bool.eqb b publish) eqn:E; [|apply Hp].
  apply eqb_prop in E as ->. destruct (decide (ch = channel)) as [->|Hne].
  - rewrite lookup_insert_eq. apply Hc.
  - rewrite lookup_insert_ne by done. apply Hp.
Qed.

Lemma cap_for_own o p channel (publish : bool) p' out : mints_as_issued o -> caps_own p ->
  cap_for o p channel publish = (p', out) ->
  caps_own p' /\ requests p' = requests p /\
  (forall cap bearer, out = Ok (cap, bearer) ->
     exists t, issued publish channel cap t /\ o_now o - t < CAP_TTL - REFRESH_MARGIN).
Proof.
  intros Hm Hp. unfold cap_for. destruct (caps_of publish p !! channel ≫= cap_fresh (o_now o)) as [cap|] eqn:Ec.
  { intros [= <- <-]. split_and!; [done..|]. intros cap' bearer [= <- <-].
    destruct (caps_of publish p !! channel) as [[slot]|] eqn:El; [|done]. cbn [mbind option_bind] in Ec. unfold cap_fresh in Ec.
    destruct slot as [[cap' t]|] eqn:Es; [|done]. cbn [cached] in Ec. destruct (_ <? CAP_TTL) eqn:Et; [|done]. injection Ec as ->.
    exists t. split; [apply Hp; by rewrite El|lia]. }
  destruct (session_bearer _ _ _) as [s [bearer|e]].
  - destruct (o_minted o (service_of publish channel) bearer) as [cap|msg] eqn:Em; intros [= <- <-].
    + split_and!; [|by destruct publish|].
      * apply (caps_own_insert (with_session p s)); [exact Hp|]. intros cap' t [= <- <-]. by eapply Hm.
      * intros cap' b [= <- <-]. exists (o_now o). split; [by eapply Hm|unfold CAP_TTL, REFRESH_MARGIN; lia].
    + by destruct (mint_expired msg).
  - by intros [= <- <-].
Qed.

Lemma send_owns p channel at_ s t : owns p -> issued (writes_feed s) channel (cap_of s) t -> at_ - t < CAP_TTL - REFRESH_MARGIN ->
  match s with SentPublish r => pr_direction r = Out | _ => True end -> owns (send p channel at_ s).
Proof.
  intros [Hc Hr] Hi Ht Ho. split; [exact Hc|]. cbn [requests send]. apply Forall_app. split; [done|].
  constructor; [|done]. split; [by exists t|done].
Qed.

Lemma drop_refused_owns p channel publish status : owns p -> owns (drop_refused p channel publish status).
Proof.
  intros [Hc Hr]. unfold drop_refused, invalidate_cap. destruct (refuses_cap status); [|by split].
  destruct (caps_of publish p !! channel); [|by split]. split; [|by destruct publish]. by apply caps_own_insert.
Qed.

(** What a leg starts from. *)
Lemma cap_for_sends o p channel (publish : bool) p' out : mints_as_issued o -> owns p -> cap_for o p channel publish = (p', out) ->
  owns p' /\
  (forall s bearer, out = Ok (cap_of s, bearer) -> writes_feed s = publish ->
     match s with SentPublish r => pr_direction r = Out | _ => True end -> owns (send p' channel (o_now o) s)).
Proof.
  intros Hm [Hc Hr] E. apply cap_for_own in E as (Hc' & Hreq & Hcap); [|done..].
  assert (Hp' : owns p') by (split; [done|by rewrite Hreq]). split; [done|]. intros s bearer Hs Hw Ho.
  destruct (Hcap _ _ Hs) as (t & Hi & Ht). apply (send_owns _ _ _ _ t); [done|by rewrite Hw|done..].
Qed.

(** A leg keeps the promise whatever is replied. *)
Ltac leg o p channel publish :=
  let E := fresh "E" in let Hs := fresh "Hs" in
  destruct (cap_for o p channel publish) as [? [[cap bearer]|e]] eqn:E;
  (apply cap_for_sends in E as [? Hs]; [|done..]); [|done];
  match goal with |- context [send _ _ _ ?s] => specialize (Hs s bearer eq_refl eq_refl ltac:(done)) end;
  match goal with |- context [match ?r with ReplyFails _ => _ | _ => _ end] => destruct r end;
  try apply drop_refused_owns; exact Hs.

Lemma publish_owns o w p channel k b co sq ct : mints_as_issued o -> owns p -> owns (publish o w p channel k b co sq ct).1.
Proof. intros Hm Hp. unfold publish. leg o p channel true. Qed.

Lemma put_blob_owns o w p channel ct b : mints_as_issued o -> owns p -> owns (put_blob o w p channel ct b).1.
Proof. intros Hm Hp. unfold put_blob. leg o p channel true. Qed.

Lemma publish_ref_owns o w p channel k r co ct : mints_as_issued o -> owns p -> owns (publish_ref o w p channel k r co ct).1.
Proof. intros Hm Hp. unfold publish_ref. leg o p channel true. Qed.

Lemma tail_owns o w p channel n : mints_as_issued o -> owns p -> owns (tail o w p channel n).1.
Proof. intros Hm Hp. unfold tail. leg o p channel false. Qed.

Lemma fetch_blob_owns o w p channel r : mints_as_issued o -> owns p -> owns (fetch_blob o w p channel r).1.
Proof.
  intros Hm Hp. unfold fetch_blob. destruct (cap_for o p channel false) as [p' [[cap bearer]|e]] eqn:E;
    (apply cap_for_sends in E as [Hp' Hs]; [|done..]); [|done].
  specialize (Hs (SentBlobGet {| bg_cap := cap; bg_body_ref := r |}) bearer eq_refl eq_refl ltac:(done)).
  destruct (on_blob_get _ _) as [| | |[b ct]]; try apply drop_refused_owns; exact Hs.
Qed.

Lemma op_step_owns p x : Forall mints_as_issued (meets x) -> owns p -> owns (op_step p x).
Proof.
  destruct x as [o w ch k b co sq ct|o o' w w' ch k b ct co m|o w ch n|o w ch r]; cbn [meets op_step]; intros Hm Hp;
    [apply publish_owns; [by apply Forall_cons in Hm as []|done]| |apply tail_owns; [by apply Forall_cons in Hm as []|done]
    |apply fetch_blob_owns; [by apply Forall_cons in Hm as []|done]].
  apply Forall_cons in Hm as [Ho [Ho' _]%Forall_cons]. unfold publish_bytes. destruct (_ <=? _)%nat.
  - pose proof (publish_owns o w p ch k (b64_encode b) co None (Some ct) Ho Hp) as Hl.
    by destruct (publish o w p ch k _ co None (Some ct)).
  - pose proof (put_blob_owns o w p ch ct b Ho Hp) as Hl. destruct (put_blob o w p ch ct b) as [p' [r|e]]; [|done].
    pose proof (publish_ref_owns o' w' p' ch k r co ct Ho' Hl) as Hl'. by destruct (publish_ref o' w' p' ch k r co ct).
Qed.

(** C17: Whatever a delegate publishes and reads over all its feeds, and whatever the broker
    and the worker answer in between: every request for a feed carries a capability the
    broker gave for that feed and that direction less than four minutes before, so none is
    ever used on another feed or for the other direction, and nothing is published but
    [out]. *)
Theorem publisher_caps_own (s : Session) (ops : list Op) (Hmints : Forall mints_as_issued (flat_map meets ops)) :
  Forall request_own (requests (foldl op_step (new_publisher s) ops)).
Proof.
  assert (Hall : forall p, owns p -> owns (foldl op_step p ops)).
  { induction ops as [|x ops IH]; intros p Hp; cbn [foldl]; [done|]. cbn [flat_map] in Hmints.
    apply Forall_app in Hmints as [Hx Hops]. apply (IH Hops). by apply op_step_owns. }
  refine (proj2 (Hall _ (conj _ _))); [intros [] ch cap t; cbn [caps_of new_publisher pub_caps sub_caps]|done];
    by rewrite lookup_empty.
Qed.
End Own.

(** ** A refused capability *)

Section Refused.
Context `{Base64Url} `{SerdeJson} `{Base64}.

Lemma invalidate_cap_misses p channel publish : caps_of publish (invalidate_cap p channel publish) !! channel ≫= cached = None.
Proof.
  unfold invalidate_cap. destruct (caps_of publish p !! channel) eqn:E; [|by rewrite E].
  rewrite caps_insert, eqb_reflx. by rewrite lookup_insert_eq.
Qed.

Lemma cap_for_misses o p channel publish p' cap bearer : caps_of publish p !! channel ≫= cached = None ->
  cap_for o p channel publish = (p', Ok (cap, bearer)) -> o_minted o (service_of publish channel) bearer = Ok cap.
Proof.
  intros Hc. unfold cap_for. destruct (caps_of publish p !! channel ≫= cap_fresh (o_now o)) eqn:Ef.
  { exfalso. destruct (caps_of publish p !! channel) as [[slot]|]; [|done]. cbn in Hc. by rewrite Hc in Ef. }
  destruct (session_bearer _ _ _) as [s [b|e]]; [|done].
  destruct (o_minted o (service_of publish channel) b) as [c|msg] eqn:Em; [|done]. by intros [= _ <- <-].
Qed.

(** Refused with 401 or 403, a capability is not used again for the next event: it goes
    under one the broker gives then. *)
Lemma refusal_mints_anew o w p channel k b co sq ct p' text status e : refuses_cap status = true ->
  (forall r, on_publish w r = ReplyStatus status text) -> publish o w p channel k b co sq ct = (p', Err e) ->
  (exists cap bearer q, cap_for o p channel true = (q, Ok (cap, bearer))) ->
  forall o' q cap bearer, cap_for o' p' channel true = (q, Ok (cap, bearer)) ->
    o_minted o' (service_of true channel) bearer = Ok cap.
Proof.
  intros Hs Hw Hp (cap & bearer & q & Hc) o' q' cap' bearer'. unfold publish in Hp. rewrite Hc, Hw in Hp.
  injection Hp as <- _. unfold drop_refused. rewrite Hs. apply cap_for_misses, invalidate_cap_misses.
Qed.
End Refused.

(** ** Witness: one day of two feeds *)

Module ToyPublisher.
Definition token (svc : string) (o : CapOp) : CapToken :=
  {| payload := demo_payload svc o Channel; broker_sig := ""; client_sig := None; client_nonce := None;
     client_ts := None; delegation_path := None |}.

(** A broker that gives what it is asked for, [n] seconds after the start. *)
Definition broker (n : Z) : Outside := {|
  o_secs := 1600; o_now := n * 10 ^ 9; o_resolved := Ok "j1";
  o_minted svc _ := Ok (token svc (if starts_with "channel-pub:" svc then ChannelPublish else ChannelSubscribe)) |}.

Definition obliging : Worker := {|
  on_publish _ := Replied tt; on_blob_put _ := Replied "blob-1"; on_poll _ := Replied []; on_blob_get _ := ReplyStatus 404 "404" |}.
Definition refusing : Worker := {|
  on_publish _ := ReplyStatus 403 "403 Forbidden"; on_blob_put _ := ReplyStatus 403 "403 Forbidden";
  on_poll _ := ReplyFails "timeout"; on_blob_get _ := ReplyFails "timeout" |}.

Definition day : list Op :=
  [Publishes (broker 0) obliging "general" Text "aGk=" "1" None None; Reads (broker 5) obliging "general" 40;
   Publishes (broker 60) obliging "opchat-chef" Text "aGk=" "2" None None;
   Publishes (broker 100) refusing "general" Text "aGk=" "3" (Some 0) None;
   Publishes (broker 101) obliging "general" Text "aGk=" "3" None None;
   PublishesBytes (broker 350) (broker 351) obliging obliging "general" Image (as_bytes "photo") "image/jpeg" "4" 2;
   Fetches (broker 400) obliging "general" "blob-1"].

Definition issued (publish : bool) (channel : string) (cap : CapToken) (_ : Z) : Prop :=
  service (payload cap) = service_of publish channel.

Definition b64url : Base64Url := {| DelegateLoop.b64url_decode _ := None |}.
Definition serde : SerdeJson := {| json_from_slice _ := Err "none"; json_to_vec _ := [] |}.
End ToyPublisher.

Section PublisherWitness.
#[local] Existing Instances ToyPublisher.b64url ToyPublisher.serde SimpleBase64.codec.

Definition publisher_day : Publisher := foldl op_step (new_publisher {| held := None; credential := Local |}) ToyPublisher.day.

(** Eight requests of two feeds, the refused one followed by one under a new capability. *)
Lemma publisher_day_requests :
  map (fun rq => (rq_channel rq, service (payload (cap_of (rq_sent rq))), rq_at rq / 10 ^ 9)) (requests publisher_day) =
  [("general", "channel-pub:general", 0); ("general", "channel-sub:general", 5); ("opchat-chef", "channel-pub:opchat-chef", 60);
   ("general", "channel-pub:general", 100); ("general", "channel-pub:general", 101); ("general", "channel-pub:general", 350);
   ("general", "channel-pub:general", 351); ("general", "channel-sub:general", 400)].
Proof. vm_compute. reflexivity. Qed.

Example publisher_caps_own_witness :
  length (requests publisher_day) = 8%nat /\ Forall (request_own ToyPublisher.issued) (requests publisher_day).
Proof.
  split; [vm_compute; reflexivity|]. apply (publisher_caps_own ToyPublisher.issued).
  repeat constructor; intros [] ch bearer cap [= <-]; reflexivity.
Defined.

(** A refused event that names a stored original leaves the capability where it was. *)
Lemma ref_refusal_keeps_cap :
  let p := (put_blob (ToyPublisher.broker 0) ToyPublisher.obliging (new_publisher {| held := None; credential := Local |})
              "general" "image/jpeg" (as_bytes "photo")).1 in
  let p' := (publish_ref (ToyPublisher.broker 1) ToyPublisher.refusing p "general" Image "blob-1" "1" "image/jpeg").1 in
  is_some (caps_of true p' !! "general" ≫= cap_fresh (2 * 10 ^ 9)) = true.
Proof. vm_compute. reflexivity. Qed.
End PublisherWitness.
