(* ===== verification/DelegateSafety.v ===== *)
(** * What a delegate's turn may do

    Every event a delegate handles is answered on the feed it came from and to the event
    it answers, with one turn of the agent at most; an event that is its own, a lifecycle
    report or another app's is not touched; a message that is its to answer is answered
    once. *)
From stdpp Require Import gmap.
From S2P Require Import Civil Eip712 AppTemplate ChannelWorker DelegateLoop DelegateStream DelegateTurn.
From S2P Require Import Prelude RustStr StrFacts Crates Json Utf8 Capability SessionScope.

Open Scope string_scope.
Open Scope Z_scope.

(** An act of the turn that answers [e] on [feed]. *)
Definition own (feed : FeedSpec) (e : ChannelEvent) (a : Act) : Prop :=
  match a with
  | Published ch _ _ co => ch = feed_channel_id feed /\ co = event_id e
  | AskedStream ch _ _ ds => ch = feed_channel_id feed /\ Forall (fun d => delta_correlation d = event_id e) ds
  | ReadTail ch _ | FetchedBlob ch _ => ch = feed_channel_id feed
  | _ => True
  end.

Definition is_turn (a : Act) : bool := match a with Asked _ _ | AskedStream _ _ _ _ => true | _ => false end.

(** [l'] is [l] with acts of this turn behind it, [n] agent turns at most. *)
Definition does (n : nat) (feed : FeedSpec) (e : ChannelEvent) (l l' : Loop) : Prop :=
  exists new, acts l' = (acts l ++ new)%list /\ Forall (own feed e) new /\ (length (List.filter is_turn new) <= n)%nat.

Lemma does_refl feed e l : does 0 feed e l l.
Proof. exists []. split_and!; [by rewrite app_nil_r|constructor|done]. Qed.

Lemma does_trans n m feed e l1 l2 l3 : does n feed e l1 l2 -> does m feed e l2 l3 -> does (n + m) feed e l1 l3.
Proof.
  intros (k1 & H1 & F1 & N1) (k2 & H2 & F2 & N2). exists (k1 ++ k2)%list. split_and!.
  - by rewrite H2, H1, app_assoc.
  - by apply Forall_app.
  - rewrite List.filter_app, length_app. lia.
Qed.

Lemma does_weaken n m feed e l l' : does n feed e l l' -> (n <= m)%nat -> does m feed e l l'.
Proof. intros (k & H & F & N) Hm. exists k. split_and!; [done..|lia]. Qed.

Lemma does_act feed e l a : own feed e a -> does (if is_turn a then 1 else 0) feed e l (act l a).
Proof. intros Ha. exists [a]. split_and!; [done|by repeat constructor|]. cbn. by destruct (is_turn a). Qed.

(** The turn's memory is no act. *)
Lemma does_same n feed e l l' l'' : does n feed e l l' -> acts l'' = acts l' -> does n feed e l l''.
Proof. intros (k & H & F & N) E. exists k. by rewrite E. Qed.

Section Contained.
Context `{Base64, Sha256, HexCodec, SerdeJson, ResetJson, CardJson, PerceptionJson, LocalFormat}.
Variables (w : World) (c : LoopConfig) (feed : FeedSpec) (e : ChannelEvent).

#[local] Notation "l ~[ n ]> l'" := (does n feed e l l') (at level 70, n at level 9).
#[local] Notation "'ch'" := (feed_channel_id feed).

Ltac acts_once := match goal with |- does _ _ _ ?l (act ?l ?a) => exact (does_act feed e l a ltac:(done)) end.

Lemma say_does l k b : l ~[0]> (say l ch k b (event_id e)).
Proof. unfold say. acts_once. Qed.

Lemma bridge_chat_does l text s : l ~[1]> (bridge_chat w c l text s).1.
Proof. unfold bridge_chat. cbn [fst]. acts_once. Qed.

Lemma bridge_stream_does l text s : l ~[1]> (bridge_stream w c l ch text s (event_id e)).1.
Proof.
  unfold bridge_stream. destruct (bridge_chat_stream _ _ _ _ _) as [deltas reply] eqn:E. cbn [fst].
  apply deltas_numbered in E as [texts ->]. refine (does_act feed e l (AskedStream _ _ _ _) _). split; [done|].
  apply Forall_forall. intros d Hd. apply elem_of_lookup_imap in Hd as (i & t & -> & _). done.
Qed.

Lemma gate_completion_does l r : l ~[0]> (gate_completion w c l r).1.
Proof. unfold gate_completion. destruct (negb (lc_gate c)); cbn [fst]; [apply does_refl|acts_once]. Qed.

Lemma gate_transcribe_does l b f : l ~[0]> (gate_transcribe w c l b f).1.
Proof. unfold gate_transcribe. destruct (negb (lc_gate c)); cbn [fst]; [apply does_refl|acts_once]. Qed.

Lemma tts_does l text p : l ~[0]> (tts_synthesize w l text p).1.
Proof. unfold tts_synthesize. cbn [fst]. acts_once. Qed.

Lemma event_bytes_does l : l ~[0]> (event_bytes w l feed e).1.
Proof.
  unfold event_bytes. destruct (body e) as [b|]; [apply does_refl|].
  destruct (body_ref e) as [r|]; cbn [fst]; [acts_once|apply does_refl].
Qed.

Lemma session_with_context_does l s : l ~[0]> (session_with_context w l feed e s).1.
Proof.
  unfold session_with_context. destruct (open_session_key s) as [key|]; [|apply does_refl].
  case_bool_decide; [apply does_refl|]. destruct (w_tail _ _ _ _); cbn [fst]; acts_once.
Qed.

Lemma card_bytes_does l x : l ~[0]> (card_bytes w l feed x).1.
Proof.
  unfold card_bytes. destruct (body x) as [b|]; [apply does_refl|].
  destruct (body_ref x) as [r|]; cbn [fst]; [acts_once|apply does_refl].
Qed.

Lemma cards_of_does events : forall l, l ~[0]> (cards_of w l feed events).1.
Proof.
  induction events as [|x events IH]; intros l; cbn [cards_of]; [apply does_refl|].
  pose proof (card_bytes_does l x) as Hb. destruct (card_bytes w l feed x) as [l1 b].
  specialize (IH l1). destruct (cards_of w l1 feed events) as [l2 cards]. cbn [fst] in *. exact (does_trans 0 0 _ _ _ _ _ Hb IH).
Qed.

Lemma tapped_card_does l u : l ~[0]> (tapped_card w l feed e u).1.
Proof.
  unfold tapped_card. set (l' := act l _). assert (Hl : l ~[0]> l') by (subst l'; acts_once).
  destruct (w_tail _ _ _ _) as [events|err]; [|done].
  pose proof (cards_of_does (List.filter is_card_event events) l') as Hc.
  destruct (cards_of w l' feed _) as [l2 cards]. exact (does_trans 0 0 _ _ _ _ _ Hl Hc).
Qed.

Lemma knowledge_note_does l : l ~[0]> (knowledge_note w l ch (event_id e)).
Proof. unfold knowledge_note. destruct (degraded_note _); [apply say_does|apply does_refl]. Qed.

Lemma mark_sent_acts l s : acts (mark_sent l s) = acts l.
Proof. unfold mark_sent. by destruct (open_session_key s). Qed.

Lemma reply_of_acts l s a : acts (reply_of l s a).1 = acts l.
Proof. destruct a; [apply mark_sent_acts|done]. Qed.

Lemma say_reply_does l reply before : l ~[0]> (say_reply w l ch reply (event_id e) before).
Proof. unfold say_reply. destruct (reply_needed _ _); [apply say_does|apply does_refl]. Qed.

Lemma speak_reply_does l reply : l ~[0]> (speak_reply w c l ch reply e).
Proof.
  unfold speak_reply. destruct (audio e) as [p|]; [|apply does_refl]. destruct (_ && _); [|apply does_refl].
  pose proof (tts_does l reply (Some p)) as Ht. destruct (tts_synthesize _ _ _ _) as [l1 [a|err]]; cbn [fst] in *; [|done].
  refine (does_trans 0 0 _ _ _ _ _ Ht _). acts_once.
Qed.

Lemma voice_turn_does l b p s : l ~[1]> (voice_turn w c l b p s).1.
Proof.
  unfold voice_turn. destruct (negb (lc_gate c)); [by eapply does_weaken; [apply does_refl|lia]|].
  pose proof (gate_transcribe_does l (b64_encode b) (default (sniff_audio_format b) (p ← p; audio_format p))) as E1.
  destruct (gate_transcribe _ _ _ _ _) as [l1 [t|err]]; cbn [fst] in *; [|by eapply does_weaken; [eassumption|lia]].
  pose proof (bridge_chat_does l1 t s) as E2.
  destruct (bridge_chat _ _ _ _ _) as [l2 [r|err]]; cbn [fst] in *; [|exact (does_trans 0 1 _ _ _ _ _ E1 E2)].
  pose proof (tts_does l2 r p) as E3. destruct (tts_synthesize _ _ _ _) as [l3 a]. cbn [fst] in *.
  exact (does_trans 1 0 _ _ _ _ _ (does_trans 0 1 _ _ _ _ _ E1 E2) E3).
Qed.

Lemma voice_event_does l s : l ~[1]> voice_event w c l feed e s.
Proof.
  unfold voice_event. pose proof (event_bytes_does l) as E1.
  destruct (event_bytes w l feed e) as [l1 [[b ct]|err]]; cbn [fst] in *; [|by eapply does_weaken; [eassumption|lia]].
  pose proof (session_with_context_does l1 s) as E2.
  destruct (session_with_context w l1 feed e s) as [l2 s2]. cbn [fst] in *.
  pose proof (voice_turn_does l2 b (audio e) s2) as E3. pose proof (does_trans 0 0 _ _ _ _ _ E1 E2) as E12.
  pose proof (fun l' => does_trans 0 1 _ _ _ _ l' E12) as E123.
  destruct (voice_turn w c l2 b (audio e) s2) as [l3 [[r a]|err]]; cbn [fst] in *; specialize (E123 _ E3).
  - refine (does_trans 1 0 _ _ _ _ _ _ (does_act feed e _ (Published ch AudioClip a (event_id e)) (conj eq_refl eq_refl))).
    refine (does_trans 1 0 _ _ _ _ _ _ (say_does _ _ _)). eapply does_same; [exact E123|apply mark_sent_acts].
  - exact (does_trans 1 0 _ _ _ _ _ E123 (say_does _ _ _)).
Qed.

Lemma perceive_does l b ct : l ~[0]> (perceive w c l e b ct).1.
Proof.
  unfold perceive. destruct (kind e); try apply gate_completion_does.
  pose proof (gate_transcribe_does l (b64_encode b) (default (sniff_audio_format b) (p ← audio e; audio_format p))) as E1.
  destruct (gate_transcribe _ _ _ _ _) as [l1 [t|err]]; cbn [fst] in *; [|done].
  exact (does_trans 0 0 _ _ _ _ _ E1 (gate_completion_does _ _)).
Qed.

Lemma perceived_does l b ct : l ~[0]> (perceived w c l e b ct).1.
Proof.
  unfold perceived. destruct (cache_get _ _); [apply does_refl|]. pose proof (perceive_does l b ct) as E1.
  destruct (perceive w c l e b ct) as [l1 [r|err]]; cbn [fst] in *; [|done]. by eapply does_same.
Qed.

(** A turn and its reply. *)
Lemma turn_does l text s before :
  l ~[1]> (let '(l, answer) := bridge_chat w c l text s in let '(l, reply) := reply_of l s answer in
           say_reply w l ch reply (event_id e) before).
Proof.
  pose proof (bridge_chat_does l text s) as E1. destruct (bridge_chat w c l text s) as [l1 answer]. cbn [fst] in *.
  pose proof (reply_of_acts l1 s answer) as Ha. destruct (reply_of l1 s answer) as [l2 reply]. cbn [fst] in *.
  refine (does_trans 1 0 _ _ _ _ _ _ (say_reply_does _ _ _)). by eapply does_same.
Qed.

Lemma perceive_and_turn_does l tier s : l ~[1]> perceive_and_turn w c l feed e tier s.
Proof.
  unfold perceive_and_turn. refine (does_trans 0 1 _ _ _ _ _ (knowledge_note_does l) _).
  set (l0 := knowledge_note _ _ _ _). pose proof (event_bytes_does l0) as E1.
  destruct (event_bytes w l0 feed e) as [l1 [[b ct]|err]]; cbn [fst] in *; [|by eapply does_weaken; [eassumption|lia]].
  pose proof (perceived_does l1 b ct) as E2. destruct (perceived w c l1 e b ct) as [l2 [r|err]]; cbn [fst] in *;
    refine (does_trans 0 1 _ _ _ _ _ (does_trans 0 0 _ _ _ _ _ E1 E2) _);
    [|by eapply does_weaken; [apply say_does|lia]].
  destruct (needs_closer_look _ _); [by eapply does_weaken; [apply say_does|lia]|].
  pose proof (session_with_context_does l2 s) as E3. destruct (session_with_context w l2 feed e s) as [l3 s3].
  exact (does_trans 0 1 _ _ _ _ _ E3 (turn_does _ _ _ _)).
Qed.

Lemma reset_does l scope : l ~[0]> handle_session_reset w l feed e scope.
Proof.
  unfold handle_session_reset. destruct (authorize_reset scope feed e) as [r|]; [|apply say_does].
  refine (does_trans 0 0 _ _ _ _ _ _ (say_does _ _ _)). acts_once.
Qed.

Lemma card_event_does l s cmd : l ~[1]> card_event w c l feed e s cmd.
Proof.
  unfold card_event. refine (does_trans 0 1 _ _ _ _ _ (knowledge_note_does l) _). set (l0 := knowledge_note _ _ _ _).
  assert (Hctx : l0 ~[0]> (match s_window s with
                  | WEvent => let '(l, ctx) := tapped_card w l0 feed e (card_updated_at cmd) in (l, with_context s ctx)
                  | _ => session_with_context w l0 feed e s end).1).
  { destruct (s_window s); try apply session_with_context_does.
    pose proof (tapped_card_does l0 (card_updated_at cmd)). by destruct (tapped_card _ _ _ _ _). }
  destruct (match s_window s with WEvent => _ | _ => _ end) as [l1 s1]. cbn [fst] in Hctx.
  eapply (does_trans 0 1); [exact Hctx|].
  pose proof (bridge_chat_does l1 (command_text feed e cmd) s1) as E1.
  destruct (bridge_chat w c l1 _ s1) as [l2 answer]. cbn [fst] in E1.
  pose proof (reply_of_acts l2 s1 answer) as Ha. destruct (reply_of l2 s1 answer) as [l3 reply]. cbn [fst] in Ha.
  refine (does_trans 1 0 _ _ _ _ _ _ (say_does _ _ _)). by eapply does_same.
Qed.

Lemma command_event_does l s : l ~[1]> command_event w c l feed e s.
Proof.
  unfold command_event. destruct (String.eqb _ "sync").
  { refine (does_weaken 0 1 _ _ _ _ _ ltac:(lia)). refine (does_trans 0 0 _ _ _ _ _ _ (say_does _ _ _)). acts_once. }
  destruct (String.eqb _ "jobs").
  { refine (does_weaken 0 1 _ _ _ _ _ ltac:(lia)). refine (does_trans 0 0 _ _ _ _ _ _ (say_does _ _ _)). acts_once. }
  destruct (parse_session_reset _) as [scope|]; [exact (does_weaken 0 1 _ _ _ _ (reset_does _ _) ltac:(lia))|].
  destruct (parse_card_command _) as [card|err]; [apply card_event_does|].
  exact (does_weaken 0 1 _ _ _ _ (does_refl _ _ _) ltac:(lia)).
Qed.

Lemma text_event_does l tier s before : l ~[1]> text_event w c l feed e tier s before.
Proof.
  unfold text_event. destruct (String.eqb _ ""); [exact (does_weaken 0 1 _ _ _ _ (does_refl _ _ _) ltac:(lia))|].
  refine (does_trans 0 1 _ _ _ _ _ (knowledge_note_does l) _). set (l0 := knowledge_note _ _ _ _).
  pose proof (session_with_context_does l0 s) as E1. destruct (session_with_context w l0 feed e s) as [l1 s1].
  eapply (does_trans 0 1); [exact E1|].
  set (asked := if bool_decide _ then _ else _).
  assert (Ha : l1 ~[1]> asked.1) by (subst asked; case_bool_decide; [apply bridge_stream_does|apply bridge_chat_does]).
  destruct asked as [l2 answer]. cbn [fst] in *.
  pose proof (reply_of_acts l2 s1 answer) as Hr. destruct (reply_of l2 s1 answer) as [l3 reply]. cbn [fst] in *.
  refine (does_trans 1 0 _ _ _ _ _ _ (speak_reply_does _ _)). refine (does_trans 1 0 _ _ _ _ _ _ (say_reply_does _ _ _)).
  by eapply does_same.
Qed.

(** Whether an event is this delegate's to handle at all. *)
Definition mine : bool :=
  bool_decide (direction e = In) && negb (bool_decide (kind e = Lifecycle))
  && addressed_to_us (addressee e) (app_label c) (SessionScope.default_app feed).

(** C13: A turn stays with its event: whatever the model, the relay and the feed answer, all
    that is published answers this event on the feed it came from, only that feed is
    read, and the agent is asked once at most.  The delegate's own replies, a lifecycle
    report and another app's event change nothing and reach nobody. *)
Theorem delegate_turn_contained (l : Loop) :
  l ~[1]> handle_event w c l feed e /\ (mine = false -> handle_event w c l feed e = l).
Proof.
  unfold handle_event, mine. destruct (bool_decide (direction e = In)); cbn [negb andb];
    [|by split; [exact (does_weaken 0 1 _ _ _ _ (does_refl _ _ _) ltac:(lia))|]].
  destruct (bool_decide (kind e = Lifecycle)); cbn [negb andb];
    [by split; [exact (does_weaken 0 1 _ _ _ _ (does_refl _ _ _) ltac:(lia))|]|].
  destruct (addressed_to_us _ _ _); cbn [negb];
    [|by split; [exact (does_weaken 0 1 _ _ _ _ (does_refl _ _ _) ltac:(lia))|]].
  split; [|done]. destruct (feed_session _ _ _) as [s|]; [|exact (does_weaken 0 1 _ _ _ _ (does_refl _ _ _) ltac:(lia))].
  destruct (kind e); try apply text_event_does; try apply perceive_and_turn_does; try apply command_event_does;
    [|exact (does_weaken 0 1 _ _ _ _ (does_refl _ _ _) ltac:(lia))].
  destruct (String.eqb _ _); [apply voice_event_does|apply perceive_and_turn_does].
Qed.
End Contained.

(** ** A message is answered *)

Section Answered.
Context `{Base64, Sha256, HexCodec, SerdeJson, ResetJson, CardJson, PerceptionJson, LocalFormat}.
Variables (w : World) (c : LoopConfig) (feed : FeedSpec) (e : ChannelEvent).

(** What is said before the answer: nothing, or that the knowledge is not there. *)
Definition noted (l : Loop) : list Act :=
  match degraded_note (w_ready w (acts l)) with
  | Some note => [Published (feed_channel_id feed) Text (b64_encode (as_bytes note)) (event_id e)]
  | None => []
  end.

(** The feed is read back for the first turn of an open session only. *)
Definition read_back (l : Loop) (s : BridgeChatSession) : list Act :=
  match open_session_key s with
  | Some key => if bool_decide (key ∈ sent_sessions l) then [] else [ReadTail (feed_channel_id feed) REBUILD_TAIL_EVENTS]
  | None => []
  end.

(** The turn of the agent after the history [h], and what the bridge answered to it: the
    request is the text in the session with the clock of then, streamed when the event
    asks for it. *)
Definition asks (h : list Act) (text : string) (s : BridgeChatSession) (turn : Act) (answer : result string string) : Prop :=
  let clock := turn_clock_line (w_millis w h / 1000) (lc_tz c) in
  if bool_decide (stream e = Some true) then
    exists deltas, turn = AskedStream (feed_channel_id feed) text s deltas /\
     bridge_chat_stream (w_delta w h) (w_clock w h) (event_id e) (lc_flush_ms c)
        (w_stream w h (bridge_chat_body text true (Some s) clock)) = (deltas, answer)
  else
    turn = Asked text s /\
   match w_chat w h (bridge_chat_body text false (Some s) clock) with
    | Ok v => answer = Ok (default "(no reply)" (get v "reply" ≫= as_str))
    | Err err => answer = Err err
    end.

(** What a member reads of an answer. *)
Definition reply_text (answer : result string string) : string :=
  match answer with Ok reply => reply | Err err => "(agent error: " +:+ err +:+ ")" end.

(** The reply on the feed, unless the app published there since [before]. *)
Definition answered (before after : list Act) (reply : string) : list Act :=
  if w_tools w after (feed_channel_id feed) =? w_tools w before (feed_channel_id feed)
  then [Published (feed_channel_id feed) Text (b64_encode (as_bytes reply)) (event_id e)] else [].

(** What a reply asked for aloud adds: the request to the voice and its sound on the feed. *)
Definition aloud (a : Act) : Prop :=
  match a with
  | Spoke _ => True
  | Published ch k _ co => ch = feed_channel_id feed /\ k = AudioClip /\ co = event_id e
  | _ => False
  end.

Lemma noted_acts l : acts (knowledge_note w l (feed_channel_id feed) (event_id e)) = (acts l ++ noted l)%list /\
  sent_sessions (knowledge_note w l (feed_channel_id feed) (event_id e)) = sent_sessions l.
Proof. unfold knowledge_note, noted. destruct (degraded_note _); [done|by rewrite app_nil_r]. Qed.

Lemma session_read_back l s l' s' : session_with_context w l feed e s = (l', s') ->
  acts l' = (acts l ++ read_back l s)%list /\
  exists ctx, s' = with_context s ctx /\ (read_back l s = [] -> ctx = s_context s).
Proof.
  unfold session_with_context, read_back. destruct (open_session_key s) as [key|].
  - case_bool_decide; [intros [= <- <-]; rewrite app_nil_r; split; [done|by exists (s_context s); destruct s]|].
    destruct (w_tail _ _ _ _); intros [= <- <-]; (split; [done|]); [by eexists|by exists (s_context s); destruct s].
  - intros [= <- <-]. rewrite app_nil_r. split; [done|]. by exists (s_context s); destruct s.
Qed.

Lemma spoken_acts l reply : exists spoken,
  acts (speak_reply w c l (feed_channel_id feed) reply e) = (acts l ++ spoken)%list /\ Forall aloud spoken /\
  ((p ← audio e; voice p) = None -> spoken = []).
Proof.
  unfold speak_reply. destruct (audio e) as [p|]; cbn [mbind option_bind]; [|exists []; by rewrite app_nil_r].
  destruct (voice p) as [v|]; cbn [is_some andb]; [|exists []; by rewrite app_nil_r].
  destruct (lc_gate c); [|exists []; by rewrite app_nil_r]. unfold tts_synthesize.
  match goal with |- context [let? v := ?x in _] => destruct x as [j|err] end; [|eexists; split; [done|by repeat constructor]].
  destruct (String.eqb _ _); [eexists; split; [done|by repeat constructor]|].
  eexists [_; _]. split; [cbn [acts act]; rewrite <-app_assoc; reflexivity|]. split; [|done].
  by repeat constructor.
Qed.

(** The turn of a text, as the handlers ask it. *)
Lemma asked_turn l1 text s1 :
  let asked := if bool_decide (stream e = Some true) then bridge_stream w c l1 (feed_channel_id feed) text s1 (event_id e)
               else bridge_chat w c l1 text s1 in
  exists turn, acts asked.1 = (acts l1 ++ [turn])%list /\ asks (acts l1) text s1 turn asked.2.
Proof.
  unfold asks. destruct (bool_decide (stream e = Some true)); cbv zeta iota.
  - unfold bridge_stream, clock_line. destruct (bridge_chat_stream _ _ _ _ _) as [deltas r] eqn:E. cbn [fst snd].
    eexists. split; [reflexivity|]. by exists deltas.
  - eexists. split; [reflexivity|]. split; [done|]. unfold bridge_chat, clock_line. cbn [snd acts act].
    by destruct (w_chat _ _ _).
Qed.

Lemma reply_of_text l s answer : (reply_of l s answer).2 = reply_text answer.
Proof. by destruct answer. Qed.

(** C12: A message that is this delegate's to answer is answered, once, and with what the
    agent said.  The turn is: a note when the knowledge is not there, the window read back
    when the session is not open yet, one turn of the agent in the session of the feed with
    what was written and where it came from, and then, published to the event, the text the
    bridge answered that turn with or the error it ended in — or nothing, when the app
    itself published on the feed since the message came in.  Spoken too only when a voice
    was asked for. *)
Theorem message_answered_once (l : Loop) (s : BridgeChatSession)
    (Hmine : mine c feed e = true) (Hkind : kind e = Text \/ kind e = Doc) (Htext : utrim (inline_text e) <> "")
    (Hsession : feed_session feed e (lc_slots c !! slot feed) = Some s) :
  let h := (acts l ++ noted l ++ read_back l s)%list in
  exists ctx turn answer spoken,
    acts (handle_event w c l feed e) =
      (h ++ [turn] ++ answered (acts l) (h ++ [turn]) (reply_text answer) ++ spoken)%list /\
    asks h (turn_text feed e (stamp_tier <$> contact e)) (with_context s ctx) turn answer /\
    (read_back l s = [] -> ctx = s_context s) /\
    Forall aloud spoken /\ ((p ← audio e; voice p) = None -> spoken = []).
Proof.
  cbv zeta. unfold mine in Hmine. apply andb_true_iff in Hmine as [[Hin Hlife%negb_true_iff]%andb_true_iff Hus].
  unfold handle_event. rewrite Hin, Hlife, Hus, Hsession. cbn [negb].
  set (before := w_tools w (acts l) (feed_channel_id feed)).
  assert (Hk : forall X Y Z V W : Loop, match kind e with
     | Lifecycle => X | AudioClip => Y | Image | Frame => Z | Command => V | Text | Doc => W end = W)
    by (by destruct Hkind as [-> | ->]).
  rewrite Hk. clear Hk. unfold text_event. destruct (String.eqb_spec (utrim (inline_text e)) ""); [done|].
  destruct (noted_acts l) as [Hn Hsent]. set (l0 := knowledge_note _ _ _ _) in *.
  destruct (session_with_context w l0 feed e s) as [l1 s1] eqn:Es. apply session_read_back in Es as [Hr (ctx & -> & Hctx)].
  assert (Erb : read_back l0 s = read_back l s) by (unfold read_back; by rewrite Hsent).
  destruct (asked_turn l1 (turn_text feed e (stamp_tier <$> contact e)) (with_context s ctx)) as (turn & Ha & Hasks).
  set (asked := if bool_decide (stream e = Some true) then _ else _) in *. destruct asked as [l2 answer]. cbn [fst snd] in Ha, Hasks.
  pose proof (reply_of_acts l2 (with_context s ctx) answer) as Hra.
  pose proof (reply_of_text l2 (with_context s ctx) answer) as Ht.
  destruct (reply_of l2 (with_context s ctx) answer) as [l3 reply]. cbn [fst snd] in Hra, Ht. subst reply.
  destruct (spoken_acts (say_reply w l3 (feed_channel_id feed) (reply_text answer) (event_id e) before) (reply_text answer))
    as (spoken & Hsp & Hal & Hv).
  rewrite Erb in Hr, Hctx. rewrite Hn, <-app_assoc in Hr. rewrite <-Hr. exists ctx, turn, answer, spoken. split_and!; try done.
  rewrite Hsp. unfold say_reply, reply_needed, answered. rewrite Hra, Ha. fold before.
  destruct (w_tools w (acts l1 ++ [turn])%list (feed_channel_id feed) =? before).
  - cbn [say_text say act acts]. rewrite Hra, Ha. by rewrite <-!app_assoc.
  - rewrite Hra, Ha. by rewrite <-app_assoc.
Qed.
End Answered.

(** ** Witness: soup *)

Module ToyTurn.
Definition cards : CardJson :=
  {| card_from_slice _ := Err "no card"; command_from_slice _ := Err "no command" |}.
Definition perceptions : PerceptionJson := {| perception_from_str _ := None; two_decimals _ := "0.50" |}.
Definition clock : LocalFormat := {| chrono_format _ := "2026-09-28 Mon 19:08" |}.

Definition world : World := {|
  w_ready _ := Waiting; w_chat _ _ := Ok (JObject [("reply", JString "lentils")]);
  w_stream _ _ := SendFails ""; w_delta _ _ := true; w_clock _ _ := 0;
  w_tail _ _ _ := Ok ToyHousehold.events; w_blob _ _ _ := Err ""; w_asr _ _ _ := Err ""; w_complete _ _ := Err "";
  w_speak _ _ := Err ""; w_jobs _ := Err ""; w_reset _ _ := Err ""; w_tools _ _ := 0; w_millis _ := 6 * ToyHousehold.minute |}.

Definition config : LoopConfig := {|
  lc_chat_channel := "opchat-chef"; lc_tz := 480; lc_gate := false; lc_prompt := None;
  lc_min_confidence := DEFAULT_MIN_CONFIDENCE; lc_slots := ∅; lc_flush_ms := 1000 |}.

Definition boot : Loop := {| acts := []; sent_sessions := ∅; cache := new_cache 256 |}.
Definition question : ChannelEvent := ToyHousehold.event "5" "mum" In Text "and rice" (5 * ToyHousehold.minute) None.
End ToyTurn.

Section TurnWitness.
#[local] Existing Instances SimpleBase64.codec ToyVerifier.sha SimpleHex.codec ToyStream.json ToyHousehold.reset_json
  ToyTurn.cards ToyTurn.perceptions ToyTurn.clock.

Definition said (text : string) : Act := Published "weixin-home" Text (b64_encode (as_bytes text)) "5".

(** The first question of a boot reads the feed back, a second does not. *)
Lemma two_questions :
  let l := handle_event ToyTurn.world ToyTurn.config ToyTurn.boot ToyHousehold.feed ToyTurn.question in
  let l' := handle_event ToyTurn.world ToyTurn.config l ToyHousehold.feed ToyTurn.question in
  map (fun a => match a with Asked _ s => is_some (s_context s) | _ => false end) (acts l') =
    [false; false; true; false; false; false; false] /\
  last (acts l') = Some (said "lentils").
Proof. vm_compute. split; reflexivity. Qed.

Example message_answered_once_witness :
  exists ctx turn,
    acts (handle_event ToyTurn.world ToyTurn.config ToyTurn.boot ToyHousehold.feed ToyTurn.question)
      = [said "⏳ knowledge still loading · 知识加载中 — answering from what I have";
         ReadTail "weixin-home" REBUILD_TAIL_EVENTS; turn; said "lentils"] /\
    turn = Asked ("[from slot family (messaging) · a family contact]" +:+ NL +:+ "and rice")
             (with_context ToyHousehold.session ctx).
Proof.
  destruct (message_answered_once ToyTurn.world ToyTurn.config ToyHousehold.feed ToyTurn.question ToyTurn.boot
    ToyHousehold.session) as (ctx & turn & answer & spoken & Ha & Ht & _ & _ & Hs).
  - vm_compute. reflexivity.
  - left. reflexivity.
  - vm_compute. discriminate.
  - vm_compute. reflexivity.
  - exists ctx, turn. unfold asks in Ht. rewrite bool_decide_false in Ht by (vm_compute; discriminate).
    destruct Ht as [Hturn Hanswer]. cbn [ToyTurn.world w_chat] in Hanswer. change (get _ "reply" ≫= as_str) with (Some "lentils") in Hanswer.
    split; [|exact Hturn]. rewrite Ha, (Hs eq_refl), Hanswer. reflexivity.
Defined.
End TurnWitness.
