(* ===== verification/DelegateDelivery.v ===== *)
(** * From a publish to a delegate

    The channel worker and a delegate's poller run together: events are published into
    the feed, the delegate polls it, either process restarts, polls fail, other requests
    reach the storage service in between.  What the delegate is handed to answer is the
    feed itself from its boot on, and no restart hands it an event again. *)
From stdpp Require Import countable.
From S2P Require Import Numerals AuditCbor Archive ClearSigning Emitter Vault ChannelWorker.
From S2P Require Import Prelude RustStr StrFacts Json Utf8 SessionScope Channels Audience Router Asks FeedHop.
From S2P Require Import Outbound Capability DeviceCore Crates CapabilityVerify ObjectStore LocalStore ObjectClient StorageWorker FeedOrder ChannelFeed Delivery.
From S2P Require Import DelegateLoop.

Open Scope string_scope.
Open Scope Z_scope.

(** ** The two processes *)

Record Household (Svc : Type) := {
  h_worker : ChannelState Svc; h_poller : Poller; h_session : Session;
  (** Everything handed to the dispatcher, over every life of the delegate. *)
  h_handed : list ChannelEvent;
  h_accepted : list string }.
Arguments h_worker {Svc} _. Arguments h_poller {Svc} _. Arguments h_session {Svc} _.
Arguments h_handed {Svc} _. Arguments h_accepted {Svc} _.

Inductive Happening (Svc : Type) :=
| Publishes (m : Moment) (between : Svc -> Svc) (req : PublishRequest)
| Polls (m : Moment) (waited : Svc -> Svc) (o : Outside)
| PollLost (o : Outside) (answer : PollAnswer)
| DelegateBoots (s : Session)
| WorkerBoots (at_ms : Z)
| Meanwhile (f : Svc -> Svc).
Arguments Publishes {Svc} _ _ _. Arguments Polls {Svc} _ _ _. Arguments PollLost {Svc} _ _.
Arguments DelegateBoots {Svc} _. Arguments WorkerBoots {Svc} _. Arguments Meanwhile {Svc} _.

Section DelegateDelivery.
Context `{HexCodec, Crypto, Sha256, P256, CapJson, Base64, Aes256Gcm}.
Context `{Ciborium, JsonFloat, FloatText, ReceiptJson, EventJson, SerdeJson, Base64Url}.
Context {Svc : Type} {svc : ObjectService Svc} {honest : HonestService Svc}.
Variable rpc : string -> string -> string -> nat -> RpcAttempt.
Variable service_audit : Sent -> option string * AuditAppendV2 -> option HttpReply.
Variable limits : ChannelWorkerConfig.
Variable wake : bool.
Variables (st : WorkerState) (kek owner channel : string).
(** The feed the poller was started for, whether a wake started the delegate, and the
    pages a tail read may walk. *)
Variable feed : FeedSpec.
Variable wake_since : option Z.
Variable fuel : nat.

Definition answer_of (out : result ApiError PollResponse) : PollAnswer :=
  match out with Ok r => Polled (po_events r) (po_cursor r) | Err e => PollRefused (api_status e) end.

Definition ended (y : Household Svc) (c : ChannelState Svc) (r : Round) : Household Svc :=
  {| h_worker := c; h_poller := r_poller r; h_session := r_session r;
     h_handed := (h_handed y ++ r_sent r)%list; h_accepted := h_accepted y |}.

Definition happens (x : Happening Svc) (y : Household Svc) : option (Household Svc) :=
  match x with
  | Publishes m between req =>
      let '(c, out) := channel_publish rpc service_audit limits wake st m between (h_worker y) req in
      Some {| h_worker := c; h_poller := h_poller y; h_session := h_session y; h_handed := h_handed y;
              h_accepted := match out with Ok r => (h_accepted y ++ [pub_event_id r])%list
                                         | Err _ => h_accepted y end |}
  | Polls m waited o =>
      match prepare_round o (h_poller y) (h_session y) with
      | inl r => Some (ended y (h_worker y) r)
      | inr (p, s, bearer, cap) =>
          '(c, out) ← channel_poll rpc service_audit fuel st m waited (h_worker y) (round_request wake_since p cap);
          Some (ended y c (finish_round wake_since bearer p s (answer_of out)))
      end
  | PollLost o answer =>
      Some (ended y (h_worker y) (poll_round wake_since o (fun _ => answer) (h_poller y) (h_session y)))
  | DelegateBoots s =>
      Some {| h_worker := h_worker y; h_poller := start_poller feed; h_session := s; h_handed := h_handed y;
              h_accepted := h_accepted y |}
  | WorkerBoots _ =>
      Some {| h_worker := {| c_world := c_world (h_worker y); c_seq := 0; c_signals := []; c_wakes := c_wakes (h_worker y) |};
              h_poller := h_poller y; h_session := h_session y; h_handed := h_handed y; h_accepted := h_accepted y |}
  | Meanwhile f =>
      Some {| h_worker := with_world (h_worker y) {| w_store := f (w_store (c_world (h_worker y)));
                                                     w_sent := w_sent (c_world (h_worker y)) |};
              h_poller := h_poller y; h_session := h_session y; h_handed := h_handed y; h_accepted := h_accepted y |}
  end.

Fixpoint goes_on (xs : list (Happening Svc)) (y : Household Svc) : option (Household Svc) :=
  match xs with [] => Some y | x :: xs => y ← happens x y; goes_on xs y end.

(** ** What a run may be *)

(** The broker mints a subscription to the feed it is asked for. *)
Definition mints_feed (o : Outside) : Prop :=
  forall bearer cap, o_minted o ("channel-sub:" +:+ channel) bearer = Ok cap -> of_feed owner channel cap.

Definition lost (answer : PollAnswer) : Prop := match answer with Polled _ _ => False | _ => True end.

(** The clock does not run back, a restarted worker draws its ids later, and what
    happens elsewhere leaves the feed alone. *)
Fixpoint in_time (t : Z) (xs : list (Happening Svc)) : Prop :=
  match xs with
  | [] => True
  | Publishes m between req :: xs =>
      t <= at_millis m < 10 ^ 13 /\ length (fresh_nonce m) = NONCE_LEN /\ of_feed owner channel (pr_cap req)
      /\ keeps_feed kek owner channel between /\ in_time (at_millis m) xs
  | Polls _ waited o :: xs => mints_feed o /\ keeps_feed kek owner channel waited /\ in_time t xs
  | PollLost o answer :: xs => mints_feed o /\ lost answer /\ in_time t xs
  | DelegateBoots _ :: xs => in_time t xs
  | WorkerBoots u :: xs => t < u < 10 ^ 13 /\ in_time u xs
  | Meanwhile f :: xs => keeps_feed kek owner channel f /\ in_time t xs
  end.

(** ** Where the delegate stands *)

(** What a boot hands over of the feed it finds. *)
Definition replayed (passed : list ChannelEvent) : list ChannelEvent :=
  match wake_since with
  | Some since => wake_replay (keep_tail passed (Z.to_nat WAKE_REPLAY_TAIL)) since
  | None => []
  end.

(** The poller's capabilities are of its feed. *)
Definition of_its_feed (p : Poller) : Prop :=
  p_feed p = feed /\ forall cap minted, cached (p_caps p) = Some (cap, minted) -> of_feed owner channel cap.

(** The feed split at the delegate: what its boot passed over, what it was handed since,
    what it has not read; [base] is the feed the boot found, [old] what earlier lives
    were handed. *)
Record stands (t : Z) (y : Household Svc) (base old passed seen unread : list ChannelEvent) : Prop := {
  sd_log : log_at kek owner channel t (h_worker y) (passed ++ seen ++ unread);
  sd_poller : of_its_feed (h_poller y);
  sd_cursor : p_cursor (h_poller y) = cursor_of owner channel (passed ++ seen);
  sd_boot : p_forwarded (h_poller y) = false -> (passed ++ seen)%list = [];
  sd_handed : h_handed y = (old ++ (if p_forwarded (h_poller y) then replayed passed else []) ++ seen)%list;
  sd_old : wake_since = None ->
           sublist old (if p_forwarded (h_poller y) then passed else unread);
  sd_base : base `prefix_of` (if p_forwarded (h_poller y) then passed else unread);
  sd_accepted : forall i, i ∈ h_accepted y -> i ∈ map event_id (passed ++ seen ++ unread) }.

(** ** Lemmas *)

Lemma last_drop {A} n (l : list A) : (n < length l)%nat -> last (drop n l) = last l.
Proof using.
  intros Hn. destruct (drop n l) as [|x k] eqn:E.
  - apply (f_equal length) in E. rewrite length_drop in E. cbn in E. lia.
  - rewrite <-(take_drop n l), E, last_app. by destruct (last (x :: k)) eqn:El; [|by apply last_None in El].
Qed.

Lemma cursor_of_tail n l : (0 < n)%nat -> cursor_of owner channel (keep_tail l n) = cursor_of owner channel l.
Proof using.
  intros Hn. unfold keep_tail. destruct (Nat.ltb_spec n (length l)); [|done].
  unfold cursor_of. rewrite last_drop; [done|lia].
Qed.

Lemma prepare_of_feed o p s p' s' bearer cap : mints_feed o -> feed_channel_id feed = channel -> of_its_feed p ->
  prepare_round o p s = inr (p', s', bearer, cap) ->
  of_its_feed p' /\ of_feed owner channel cap /\ p_cursor p' = p_cursor p /\ p_forwarded p' = p_forwarded p.
Proof using.
  intros Hm Hch [Hf Hc] E. pose proof (prepare_young _ _ _ _ _ _ _ E) as (minted & Hcached & _).
  pose proof (prepare_keeps _ _ _ _ _ _ _ E) as (Hf' & Hcur & Hfw & _).
  assert (Hof : forall cap minted, cached (p_caps p') = Some (cap, minted) -> of_feed owner channel cap).
  { unfold prepare_round in E. destruct (session_bearer _ _ _) as [s1 [b|e]]; [|done].
    destruct (cap_fresh _ _) as [c|] eqn:Efresh.
    - injection E as <- <- <- <-. exact Hc.
    - rewrite Hf, Hch in E. destruct (o_minted _ _ _) as [c|e] eqn:Emint; [|done]. injection E as <- <- <- <-.
      cbn. intros cap' minted' [= <- <-]. by eapply Hm. }
  split_and!; [split; [congruence|done]|by eapply Hof|done|done].
Qed.

(** A round that reached no answer leaves the delegate where it stood. *)
Definition idles (p : Poller) (r : Round) : Prop :=
  of_its_feed (r_poller r) /\ p_cursor (r_poller r) = p_cursor p /\ p_forwarded (r_poller r) = p_forwarded p /\ r_sent r = [].

Lemma waits_idles p s p0 : of_its_feed p -> p_cursor p = p_cursor p0 -> p_forwarded p = p_forwarded p0 -> idles p0 (waits p s).
Proof using. intros [Hf Hc] Ec Ef. by split_and!. Qed.

Lemma prepare_idles o p s r : of_its_feed p -> prepare_round o p s = inl r -> idles p r.
Proof using.
  intros Hp E. unfold prepare_round in E. destruct (session_bearer _ _ _) as [s1 [b|e]]; [|injection E as <-; by apply waits_idles].
  destruct (cap_fresh _ _); [done|]. destruct (o_minted _ _ _); [done|]. injection E as <-. by apply waits_idles.
Qed.

Lemma finish_idles bearer p p0 s answer : of_its_feed p -> p_cursor p = p_cursor p0 -> p_forwarded p = p_forwarded p0 ->
  lost answer -> idles p0 (finish_round wake_since bearer p s answer).
Proof using.
  intros Hp Ec Ef Hl. destruct answer as [e|status|e|evs cur]; cbn [finish_round lost] in *; [|..|done].
  - by apply waits_idles.
  - apply waits_idles; [|done..]. destruct Hp as [Hf _]. by split.
  - by split_and!.
Qed.

Lemma stands_idle t y base old passed seen unread c r : stands t y base old passed seen unread ->
  log_at kek owner channel t c (passed ++ seen ++ unread) -> idles (h_poller y) r ->
  stands t (ended y c r) base old passed seen unread.
Proof using.
  intros [Hl Hp Hcur Hb Hh Ho Hba Hac] Hl' (Hp' & Hcur' & Hfw & Hs).
  split; cbn [ended h_worker h_poller h_handed h_accepted]; rewrite ?Hfw; try done; [by rewrite Hcur'|].
  by rewrite Hs, app_nil_r.
Qed.

Lemma sublist_more {A} (old l more : list A) : sublist old l -> sublist old (l ++ more)%list.
Proof using. intros Ho. etrans; [exact Ho|]. apply sublist_inserts_r. done. Qed.

(** An answered poll: at the boot the whole feed is passed over, later the page behind
    the cursor is handed over. *)
Lemma polled_stands t y base old passed seen unread p s bearer cap c r :
  stands t y base old passed seen unread -> of_its_feed p -> p_cursor p = p_cursor (h_poller y) ->
  p_forwarded p = p_forwarded (h_poller y) ->
  log_at kek owner channel t c (passed ++ seen ++ unread) ->
  po_events r = listed (tail_count (po_tail (round_request wake_since p cap))) unread ->
  po_cursor r = cursor_of owner channel ((passed ++ seen) ++ po_events r) ->
  exists passed' seen' unread',
    stands t (ended y c (finish_round wake_since bearer p s (Polled (po_events r) (po_cursor r)))) base old passed' seen' unread' /\
    (passed ++ seen ++ unread = passed' ++ seen' ++ unread')%list /\
    (p_forwarded (h_poller y) = true -> passed' = passed /\ seen `prefix_of` seen').
Proof using.
  intros [Hl Hp Hcur Hb Hh Ho Hba Hac] Hp' Hc1 Hf1 Hl' Hev Hnext.
  assert (Hcursor : forall seen', cursor_of owner channel ((passed ++ seen) ++ po_events r) = cursor_of owner channel seen' ->
    p_cursor (take_answer p (po_cursor r)) = cursor_of owner channel seen').
  { intros seen' E. cbn [take_answer p_cursor]. rewrite Hnext, E. destruct (String.eqb_spec (cursor_of owner channel seen') "") as [E0|];
      [|done]. rewrite E0 in *. rewrite Hc1, Hcur. unfold cursor_of in E |- *. rewrite last_app in E.
    destruct (last (po_events r)) as [e|]; [by apply key_of_nonempty in E|done]. }
  cbn [finish_round]. unfold handed_over, round_request, poll_request_body in *. cbn [po_tail] in Hev. rewrite Hf1 in *.
  destruct (p_forwarded (h_poller y)) eqn:Efw.
  - cbn [tail_count mbind option_bind listed] in Hev. exists passed, (seen ++ po_events r)%list, (drop MAX_LIST_KEYS unread).
    assert (Esplit : (passed ++ seen ++ unread = passed ++ (seen ++ po_events r) ++ drop MAX_LIST_KEYS unread)%list)
      by (rewrite <-(app_assoc seen), Hev, take_drop; done).
    split_and!; [|done|intros _; split; [done|by apply prefix_app_r]].
    rewrite Esplit in Hl', Hac. split; cbn [ended h_worker h_poller h_handed h_accepted r_poller r_sent r_session]; try done.
    + by apply Hcursor; rewrite app_assoc.
    + rewrite Hh. by rewrite <-!app_assoc.
  - specialize (Hb eq_refl). apply app_eq_nil in Hb as [-> ->]. cbn [app] in *.
    assert (Etail : po_events r = keep_tail unread (Z.to_nat (boot_tail wake_since)) /\ (0 < Z.to_nat (boot_tail wake_since))%nat).
    { rewrite Hev. unfold boot_tail, WAKE_REPLAY_TAIL. by destruct wake_since; (split; [done|apply Nat.ltb_lt]). }
    destruct Etail as [Etail Hpos]. exists unread, [], []. rewrite app_nil_r.
    split_and!; [|done|done].
    split; cbn [ended h_worker h_poller h_handed h_accepted r_poller r_sent r_session take_answer p_forwarded app];
      rewrite ?app_nil_r; try done.
    + apply Hcursor. cbn [app]. rewrite Etail. by apply cursor_of_tail.
    + rewrite Hh, app_nil_r. f_equal. unfold replayed. by destruct wake_since as [since|]; [rewrite Etail|].
Qed.


(** Room for [n] more ids, and pages for the feed with [n] more events. *)
Definition ready (y : Household Svc) (log : list ChannelEvent) (n : nat) : Prop :=
  c_seq (h_worker y) + Z.of_nat n < 2 ^ 64 /\ (length log + n < fuel)%nat.

Lemma succ_room c n : c + Z.of_nat (S n) < 2 ^ 64 -> c + 1 < 2 ^ 64 /\ c + 1 + Z.of_nat n < 2 ^ 64.
Proof using. rewrite Nat2Z.inj_succ. lia. Qed.

(** What one happening keeps. *)
Definition goes_well (t' : Z) (log : list ChannelEvent) (base : list ChannelEvent) (y y' : Household Svc) (n : nat) : Prop :=
  exists base' old' passed' seen' unread',
    stands t' y' base' old' passed' seen' unread' /\ log `prefix_of` (passed' ++ seen' ++ unread')%list /\
    base `prefix_of` base' /\ ready y' (passed' ++ seen' ++ unread') n.

Lemma polls_well t y base old passed seen unread m waited o n :
  stands t y base old passed seen unread -> ready y (passed ++ seen ++ unread) (S n) ->
  mints_feed o -> keeps_feed kek owner channel waited -> development_key st = Ok kek -> feed_channel_id feed = channel ->
  exists y', happens (Polls m waited o) y = Some y' /\ goes_well t (passed ++ seen ++ unread) base y y' n.
Proof using honest.
  intros Hst [Hroom%succ_room Hfuel] Hm Hw Hkek Hch. pose proof Hst as [Hl Hp Hcur Hb Hh Ho Hba Hac]. cbn [happens].
  destruct (prepare_round o (h_poller y) (h_session y)) as [r|[[[p s] bearer] cap]] eqn:E.
  - eexists. split; [done|]. exists base, old, passed, seen, unread.
    split_and!; [by apply stands_idle; [..|by apply (prepare_idles o _ (h_session y))]|done|done|split; cbn [ended h_worker]; lia].
  - destruct (prepare_of_feed _ _ _ _ _ _ _ Hm Hch Hp E) as (Hp' & [Hown Hcid] & Hc1 & Hf1).
    assert (Hreq : po_after (round_request wake_since p cap) = cursor_of owner channel (passed ++ seen))
      by (cbn; by rewrite Hc1, Hcur).
    assert (Hfeed : feed_holds kek owner channel (view (w_store (c_world (h_worker y)))) ((passed ++ seen) ++ unread))
      by (rewrite <-app_assoc; exact (la_feed _ _ _ _ _ _ Hl)).
    destruct (channel_poll_total rpc service_audit st kek owner channel Hkek fuel m waited (h_worker y)
      (round_request wake_since p cap) (passed ++ seen) unread) as [[c out] Ep];
      [done..|rewrite !length_app in Hfuel; lia|]. rewrite Ep. cbn [mbind option_bind].
    apply (channel_poll_honest rpc service_audit st kek owner channel Hkek fuel m waited _ _
      (passed ++ seen) unread) in Ep as (Hf' & Hseq & Hr); [|done..]. rewrite <-app_assoc in Hf'.
    assert (Hl' : log_at kek owner channel t c (passed ++ seen ++ unread)) by (eapply log_at_later; [done|lia|done|lia]).
    eexists. split; [done|]. destruct out as [r|e]; cbn [answer_of].
    + destruct (Hr r eq_refl) as [Hev Hnext].
      destruct (polled_stands t y base old passed seen unread p s bearer cap c r) as (p1 & s1 & u1 & Hst' & Hsplit & _); [done..|].
      exists base, old, p1, s1, u1. split_and!; [done|by rewrite Hsplit|done|split; [cbn [ended h_worker]; lia|rewrite <-Hsplit; lia]].
    + exists base, old, passed, seen, unread.
      split_and!; [by apply stands_idle; [..|by apply finish_idles]|done|done|split; cbn [ended h_worker]; lia].
Qed.

Lemma poll_lost_idles o answer p s : mints_feed o -> feed_channel_id feed = channel -> of_its_feed p -> lost answer ->
  idles p (poll_round wake_since o (fun _ => answer) p s).
Proof using.
  intros Hm Hch Hp Hl. unfold poll_round. destruct (prepare_round o p s) as [r|[[[p' s'] b] cap]] eqn:E.
  - by eapply prepare_idles.
  - destruct (prepare_of_feed _ _ _ _ _ _ _ Hm Hch Hp E) as (Hp' & _ & Hc & Hf). by apply finish_idles.
Qed.

(** A boot: the feed is unread again, and what was handed is in it, each event once. *)
Lemma boots_stands t y base old passed seen unread s : stands t y base old passed seen unread ->
  exists y', happens (DelegateBoots s) y = Some y' /\ h_worker y' = h_worker y /\
    stands t y' (passed ++ seen ++ unread) (h_handed y) [] [] (passed ++ seen ++ unread).
Proof using.
  intros [Hl Hp Hcur Hb Hh Ho Hba Hac]. eexists. split; [done|]. split; [done|].
  split; cbn [h_worker h_poller h_handed h_accepted start_poller p_forwarded p_cursor app]; try done.
  - by rewrite app_nil_r.
  - intros Hw. specialize (Ho Hw). rewrite Hh. unfold replayed. rewrite Hw. destruct (p_forwarded (h_poller y)); cbn [app].
    + rewrite !app_assoc. apply sublist_more. by apply sublist_app.
    + specialize (Hb eq_refl). apply app_eq_nil in Hb as [-> ->]. by rewrite app_nil_r.
Qed.

Lemma base_in_feed t y base old passed seen unread : stands t y base old passed seen unread ->
  base `prefix_of` (passed ++ seen ++ unread)%list.
Proof using.
  intros [Hl Hp Hcur Hb Hh Ho Hba Hac]. destruct (p_forwarded (h_poller y)).
  - etrans; [exact Hba|]. by apply prefix_app_r.
  - specialize (Hb eq_refl). by apply app_eq_nil in Hb as [-> ->].
Qed.

Lemma publishes_well t y base old passed seen unread m between req n :
  stands t y base old passed seen unread -> ready y (passed ++ seen ++ unread) (S n) ->
  t <= at_millis m < 10 ^ 13 -> length (fresh_nonce m) = NONCE_LEN -> of_feed owner channel (pr_cap req) ->
  keeps_feed kek owner channel between -> development_key st = Ok kek ->
  exists y', happens (Publishes m between req) y = Some y' /\
    goes_well (at_millis m) (passed ++ seen ++ unread) base y y' n.
Proof using honest.
  intros Hst [Hroom%succ_room Hfuel] Hm Hn Hcap Hb0 Hkek. pose proof Hst as [Hl Hp Hcur Hb Hh Ho Hba Hac]. cbn [happens].
  destruct (channel_publish _ _ _ _ _ _ _ _ _) as [c out] eqn:E.
  eapply log_publish in E as (more & Hl' & Hseq & Hmore & Hid); [|exact Hl|done..|lia|done].
  rewrite <-!app_assoc in Hl'. eexists. split; [done|]. exists base, old, passed, seen, (unread ++ more)%list.
  assert (Esplit : (passed ++ seen ++ unread ++ more = (passed ++ seen ++ unread) ++ more)%list) by by rewrite <-!app_assoc.
  split_and!; [|rewrite Esplit; by apply prefix_app_r|done|split; [cbn [ended h_worker]; lia|rewrite Esplit, length_app; lia]].
  split; cbn [h_worker h_poller h_handed h_accepted]; try done.
  - intros Hw. specialize (Ho Hw). destruct (p_forwarded _); [done|by apply sublist_more].
  - destruct (p_forwarded _); [done|]. etrans; [exact Hba|]. by apply prefix_app_r.
  - rewrite Esplit, map_app. intros i. destruct out as [a|e].
    + intros [Hin| ->%list_elem_of_singleton]%elem_of_app; [apply Hac in Hin; set_solver|].
      specialize (Hid a eq_refl). set_solver.
    + intros Hin. apply Hac in Hin. set_solver.
Qed.

(** The worker is another one, with the same feed. *)
Lemma worker_well t t' y base old passed seen unread c n : stands t y base old passed seen unread ->
  log_at kek owner channel t' c (passed ++ seen ++ unread) -> c_seq c <= c_seq (h_worker y) ->
  ready y (passed ++ seen ++ unread) (S n) ->
  goes_well t' (passed ++ seen ++ unread) base y
    {| h_worker := c; h_poller := h_poller y; h_session := h_session y; h_handed := h_handed y;
       h_accepted := h_accepted y |} n.
Proof using.
  intros [Hl Hp Hcur Hb Hh Ho Hba Hac] Hl' Hseq [Hroom%succ_room Hfuel]. exists base, old, passed, seen, unread.
  split_and!; [by split|done|done|split; cbn [ended h_worker]; lia].
Qed.

Lemma happens_well x xs t y base old passed seen unread :
  stands t y base old passed seen unread -> in_time t (x :: xs) ->
  ready y (passed ++ seen ++ unread) (length (x :: xs)) -> development_key st = Ok kek -> feed_channel_id feed = channel ->
  exists y' t', happens x y = Some y' /\ in_time t' xs /\
    goes_well t' (passed ++ seen ++ unread) base y y' (length xs).
Proof using honest.
  intros Hst Ht Hready Hkek Hch. pose proof (la_seq _ _ _ _ _ _ (sd_log _ _ _ _ _ _ _ Hst)) as [Ht0 Hq0].
  destruct x as [m between req|m waited o|o answer|s|u|f]; cbn [in_time length] in *.
  - destruct Ht as (Hm & Hn & Hcap & Hb & Ht).
    destruct (publishes_well _ _ _ _ _ _ _ m between req _ Hst Hready Hm Hn Hcap Hb Hkek) as (y' & Hy & Hg). by exists y', (at_millis m).
  - destruct Ht as (Hm & Hw & Ht). destruct (polls_well _ _ _ _ _ _ _ m waited o _ Hst Hready Hm Hw Hkek Hch) as (y' & Hy & Hg).
    by exists y', t.
  - destruct Ht as (Hm & Hl & Ht). eexists _, t. split; [done|]. split; [done|]. exists base, old, passed, seen, unread.
    destruct Hready as [Hroom%succ_room Hfuel].
    split_and!; [|done|done|split; cbn [ended h_worker]; lia].
    apply stands_idle; [done|exact (sd_log _ _ _ _ _ _ _ Hst)|].
    apply poll_lost_idles; [done..|exact (sd_poller _ _ _ _ _ _ _ Hst)|done].
  - destruct (boots_stands _ _ _ _ _ _ _ s Hst) as (y' & Hy & Hw & Hst'). exists y', t. split; [done|]. split; [done|].
    exists (passed ++ seen ++ unread)%list, (h_handed y), [], [], (passed ++ seen ++ unread)%list.
    destruct Hready as [Hroom%succ_room Hfuel].
    split_and!; [done|done|by eapply base_in_feed|]. split; [rewrite Hw; lia|cbn [app]; lia].
  - destruct Ht as [Hu Ht]. eexists _, u. split; [done|]. split; [done|]. eapply worker_well; [done| |cbn; lia|done].
    eapply log_at_later; [exact (sd_log _ _ _ _ _ _ _ Hst)|lia|exact (la_feed _ _ _ _ _ _ (sd_log _ _ _ _ _ _ _ Hst))|cbn; lia].
  - destruct Ht as [Hk Ht]. eexists _, t. split; [done|]. split; [done|]. eapply worker_well; [done| |cbn; lia|done].
    eapply log_at_later; [exact (sd_log _ _ _ _ _ _ _ Hst)|lia| |cbn; lia].
    apply Hk. exact (la_feed _ _ _ _ _ _ (sd_log _ _ _ _ _ _ _ Hst)).
Qed.

Lemma goes_on_well xs : forall t y base old passed seen unread,
  stands t y base old passed seen unread -> in_time t xs -> ready y (passed ++ seen ++ unread) (length xs) ->
  development_key st = Ok kek -> feed_channel_id feed = channel ->
  exists y' t', goes_on xs y = Some y' /\ goes_well t' (passed ++ seen ++ unread) base y y' 0.
Proof using honest.
  induction xs as [|x xs IH]; intros t y base old passed seen unread Hst Ht Hready Hkek Hch.
  { exists y, t. split; [done|]. by exists base, old, passed, seen, unread. }
  destruct (happens_well _ _ _ _ _ _ _ _ _ Hst Ht Hready Hkek Hch)
    as (y1 & t1 & Hy & Ht1 & base1 & old1 & p1 & s1 & u1 & Hst1 & Hf1 & Hb1 & Hr1).
  cbn [goes_on]. rewrite Hy. cbn [mbind option_bind].
  destruct (IH t1 y1 base1 old1 p1 s1 u1 Hst1 Ht1 Hr1 Hkek Hch)
    as (y2 & t2 & Hy2 & base2 & old2 & p2 & s2 & u2 & Hst2 & Hf2 & Hb2 & Hr2).
  exists y2, t2. split; [done|]. exists base2, old2, p2, s2, u2. split_and!; [done|by etrans|by etrans|done].
Qed.

(** C9: The delegate answers what comes after its boot, in order.  Over an honest storage
    service, from a delegate that boots over any feed and through any run whose publishes
    are served one after the other under a clock that does not go back ([in_time]) —
    publishes, answered and lost polls, boots of either process, work on the storage that
    leaves the feed alone — the run goes on, and the feed it leaves is what the last boot
    passed over, with everything the feed held at that boot, then what the delegate was
    handed since, in the order of the feed, then what it has not read; every accepted
    publish is among them, passed over, handed or unread.  A wake hands over again what its
    window replays of the part passed over; when nothing woke the delegate, a restart
    answers nothing again: all it was ever handed over all its lives is a part of the
    feed, each event once and in order. *)
Theorem delegate_follows_feed (xs : list (Happening Svc)) (y : Household Svc) (t0 : Z) (log0 : list ChannelEvent)
    (Hkek : development_key st = Ok kek) (Hchan : feed_channel_id feed = channel)
    (Hboot : h_poller y = start_poller feed) (Hnew : h_handed y = [] /\ h_accepted y = [])
    (Hlog : log_at kek owner channel t0 (h_worker y) log0)
    (Hready : ready y log0 (length xs)) (Htime : in_time t0 xs) :
  exists y' base old passed seen unread,
    goes_on xs y = Some y' /\
    feed_holds kek owner channel (view (w_store (c_world (h_worker y')))) (passed ++ seen ++ unread) /\
    log0 `prefix_of` base /\ base `prefix_of` (if p_forwarded (h_poller y') then passed else unread) /\
    (p_forwarded (h_poller y') = false -> passed = [] /\ seen = []) /\
    h_handed y' = (old ++ (if p_forwarded (h_poller y') then replayed passed else []) ++ seen)%list /\
    (wake_since = None -> sublist (h_handed y') (passed ++ seen ++ unread)%list) /\
    (forall i, i ∈ h_accepted y' -> i ∈ map event_id (passed ++ seen ++ unread)).
Proof using honest.
  destruct Hnew as [Hh Ha].
  assert (Hst : stands t0 y log0 [] [] [] log0).
  { split; rewrite ?Hboot, ?Ha, ?Hh; cbn [app start_poller p_forwarded p_cursor]; try done; [intros _; apply sublist_nil_l|set_solver]. }
  destruct (goes_on_well xs t0 y log0 [] [] [] log0) as (y' & t' & Hy & base & old & p & s & u & Hst' & Hf & Hb & _);
    [done..|].
  pose proof (boots_stands _ _ _ _ _ _ _ (h_session y') Hst') as (y2 & [= <-] & _ & Hlives).
  destruct Hst' as [Hl Hp Hcur Hboot' Hh' Ho Hba Hac]. exists y', base, old, p, s, u.
  split_and!; try done; [exact (la_feed _ _ _ _ _ _ Hl)| |exact (sd_old _ _ _ _ _ _ _ Hlives)].
  intros E. by apply app_eq_nil, Hboot'.
Qed.
End DelegateDelivery.

(** ** Witness: a delegate that restarts *)

Module ToyDelegate.
Definition b64url : Base64Url := {| b64url_decode _ := None |}.
Definition feed : FeedSpec :=
  {| slot := "family"; feed_kind := Messaging; feed_direction := Duplex; feed_channel_id := "general";
     endpoint_actor_omni := None; SessionScope.default_app := Some true |}.
Definition session : Session := {| held := None; credential := Local |}.
End ToyDelegate.

Section DelegateWitness.
#[local] Existing Instances SimpleHex.codec ToyCrypto.crypto ToyFeed.sha SimpleBase64.codec
  ToyVerifier.p256 ToyVerifier.json ToyJson.json ToyAes.aes ToyCbor.ciborium ToyArchive.float ToyFeed.events
  ToyFeed.text ToyFeed.receipts ToyFeed.serde ToyDelegate.b64url.

(** [n] seconds after the start. *)
Definition broker_at (n : Z) : Outside := {|
  o_secs := 1600; o_now := n * 10 ^ 9; o_resolved := Ok "j1";
  o_minted _ _ := Ok (feed_cap "channel-sub:general" ChannelSubscribe) |}.

Definition says (ms : Z) (text : string) : Happening (LocalService feed_env) :=
  Publishes (feed_moment ms) id (feed_request In text).
Definition asks (n : Z) : Happening (LocalService feed_env) := Polls (feed_moment 1) id (broker_at n).

Definition delegate_start : Household (LocalService feed_env) := {|
  h_worker := y_worker feed_start; h_poller := start_poller ToyDelegate.feed; h_session := ToyDelegate.session;
  h_handed := []; h_accepted := [] |}.

(** History, a boot, a question answered, one asked while the delegate is away, and one
    after it is back. *)
Definition delegate_day : list (Happening (LocalService feed_env)) :=
  [says 1000 "old"; asks 0; says 2000 "dinner?"; PollLost (broker_at 30) (PollRefused 403); asks 40;
   says 3000 "missed"; DelegateBoots ToyDelegate.session; asks 400; says 4000 "bed?"; WorkerBoots 5000; asks 700].

Definition delegate_run : option (Household (LocalService feed_env)) :=
  goes_on demo_rpc (fun _ _ => None) feed_limits false feed_worker ToyDelegate.feed None 12 delegate_day delegate_start.

Lemma delegate_run_outcome :
  option_map (fun y => (map event_id (h_handed y), h_accepted y)) delegate_run =
  Some (["0000000002000-0000000000000001"; "0000000004000-0000000000000003"],
        ["0000000001000-0000000000000000"; "0000000002000-0000000000000001";
         "0000000003000-0000000000000002"; "0000000004000-0000000000000003"]).
Proof. vm_compute. reflexivity. Qed.

Lemma broker_mints n : mints_feed (rep64 "a"%char) "general" (broker_at n).
Proof. intros b cap [= <-]. apply feed_cap_of. auto. Qed.

Lemma delegate_day_in_time : in_time (rep64 "d"%char) (rep64 "a"%char) "general" 0 delegate_day.
Proof.
  cbn [in_time delegate_day says asks feed_request pr_cap]. split_and!;
    first [done | by intros s l | apply broker_mints | apply feed_cap_of; auto | cbn; lia].
Qed.

(** Of four events the delegate was handed two, in order: the first was history, the
    third came while it was away. *)
Example delegate_follows_feed_witness :
  exists y' passed seen unread,
    delegate_run = Some y' /\
    map event_id (h_handed y') = ["0000000002000-0000000000000001"; "0000000004000-0000000000000003"] /\
    feed_holds (rep64 "d"%char) (rep64 "a"%char) "general" (view (w_store (c_world (h_worker y')))) (passed ++ seen ++ unread) /\
    sublist (h_handed y') (passed ++ seen ++ unread)%list.
Proof.
  destruct (delegate_follows_feed demo_rpc (fun _ _ => None) feed_limits false feed_worker (rep64 "d"%char)
    (rep64 "a"%char) "general" ToyDelegate.feed None 12 delegate_day delegate_start 0 [])
    as (y' & base & old & p & s & u & Hrun & Hf & _ & _ & _ & _ & Hsub & _).
  - reflexivity.
  - reflexivity.
  - reflexivity.
  - split; reflexivity.
  - split; [split; [reflexivity | constructor] | constructor | split; reflexivity || (cbn; lia)].
  - split; cbn; lia.
  - exact delegate_day_in_time.
  - pose proof delegate_run_outcome as E. unfold delegate_run in *. rewrite Hrun in E. injection E as E1 E2.
    exists y', p, s, u. split_and!; [exact Hrun | exact E1 | exact Hf | exact (Hsub eq_refl)].
Defined.
End DelegateWitness.
