(* ===== verification/Wake.v ===== *)
(** * Waking an application that sleeps

    [crates/agentkeys-broker-server/src/storage/spawn_contexts.rs], the durable rows a
    delegate's sandbox is made again from, and [handlers/wake.rs], which the channel worker
    calls when an event arrived on a feed: which applications are asleep on it, whether the
    chain still binds them to the feed's owner, one creation at a time for each, and the
    window of the feed the new sandbox replays.  The chain, the sandbox provider and the
    clock are outside; creations are tasks that end when they end. *)
From stdpp Require Import gmap.
From S2P Require Import Sql IdentityLinks ChainAbi CapabilityVerify Channels AppTemplate AppCompile ChannelWorker FeedOrder DelegateLoop.
From S2P Require Import Prelude RustStr StrFacts Crates Json Utf8 Numerals DeviceCore Capability SessionScope.

Open Scope string_scope.
Open Scope Z_scope.

(** ** The rows *)

Record SpawnContext := {
  sc_device_key_hash : string; sc_label : string; sc_chat_channel_id : string; sc_k10_address : string;
  sc_memory_ns : string; sc_created_at : Z; sc_preset_id : string; sc_bound_channels_json : string;
  sc_availability : string; sc_memory_namespaces : string; sc_tz_offset_minutes : Z; sc_context_version : Z;
  sc_context_hash : string }.

Abbreviation spawn_table := (list SpawnContext).

Class BoundJson := { bound_from_str : string -> option (list BoundChannel) }.

Definition norm (hash : string) : string := to_lowercase (trim_start_0x (utrim hash)).

Definition has_valid_device_address `{Crypto} `{HexCodec} (c : SpawnContext) : bool :=
  match device_key_hash (sc_k10_address c) with
  | Ok hash => String.eqb (norm hash) (norm (sc_device_key_hash c))
  | Err _ => false
  end.

(** The feeds bound; what cannot be read is none. *)
Definition bound_channels_of `{BoundJson} (c : SpawnContext) : list BoundChannel :=
  if String.eqb (utrim (sc_bound_channels_json c)) "" then [] else default [] (bound_from_str (sc_bound_channels_json c)).

Definition availability_of (c : SpawnContext) : Availability := default AlwaysOn (Availability_parse (sc_availability c)).

(** ** The table *)

Definition RETIRED_COLUMNS : list string := ["operator_omni"; "actor_omni"; "k10_secret_hex"].
Definition CREATED_COLUMNS : list string :=
  ["device_key_hash"; "label"; "chat_channel_id"; "k10_address"; "memory_ns"; "created_at"; "preset_id";
   "bound_channels"; "availability"; "memory_namespaces"; "tz_offset_minutes"].
Definition ADDED_COLUMNS : list string :=
  ["k10_address"; "memory_ns"; "preset_id"; "bound_channels"; "availability"; "memory_namespaces";
   "tz_offset_minutes"; "context_version"; "context_hash"].

(** A database as it is found: its columns, if it has the table, the secrets an old schema
    kept, and its rows with the defaults of the columns it lacks. *)
Record SpawnDb := { db_columns : option (list string); db_secrets : list (option string); db_rows : spawn_table }.

Definition has_column (db : SpawnDb) (c : string) : bool := existsb (String.eqb c) (default [] (db_columns db)).

Definition LEGACY_KEYS : string :=
  "spawn-context database contains legacy delegate key material; startup refused without migration. Preserve this database privately and use a fresh local development state or an explicitly reviewed recovery procedure".

Definition reject_legacy_keys (db : SpawnDb) : result string unit :=
  if has_column db "k10_secret_hex" && existsb (fun s => negb (String.eqb (default "" s) "")) (db_secrets db)
  then Err LEGACY_KEYS else Ok tt.

Definition add_column (cols : list string) (c : string) : list string :=
  if existsb (String.eqb c) cols then cols else (cols ++ [c])%list.

(** One transaction: refused as a whole, or brought to the current columns. *)
Definition init_schema (db : SpawnDb) : SpawnDb * result string unit :=
  match reject_legacy_keys db with
  | Err e => (db, Err e)
  | Ok _ =>
      let cols := fold_left add_column ADDED_COLUMNS (default CREATED_COLUMNS (db_columns db)) in
      ({| db_columns := Some (List.filter (fun c => negb (existsb (String.eqb c) RETIRED_COLUMNS)) cols);
          db_secrets := if has_column db "k10_secret_hex" then [] else db_secrets db; db_rows := db_rows db |}, Ok tt)
  end.

Definition of_hash (hash : string) (r : SpawnContext) : bool := String.eqb (sc_device_key_hash r) (norm hash).

Definition with_hash (c : SpawnContext) (hash : string) : SpawnContext :=
  {| sc_device_key_hash := hash; sc_label := sc_label c; sc_chat_channel_id := sc_chat_channel_id c;
     sc_k10_address := sc_k10_address c; sc_memory_ns := sc_memory_ns c; sc_created_at := sc_created_at c;
     sc_preset_id := sc_preset_id c; sc_bound_channels_json := sc_bound_channels_json c;
     sc_availability := sc_availability c; sc_memory_namespaces := sc_memory_namespaces c;
     sc_tz_offset_minutes := sc_tz_offset_minutes c; sc_context_version := sc_context_version c;
     sc_context_hash := sc_context_hash c |}.

(** [INSERT OR REPLACE] under the normalised hash. *)
Definition upsert (t : spawn_table) (c : SpawnContext) : spawn_table :=
  ((delete_where (of_hash (sc_device_key_hash c)) t).1 ++ [with_hash c (norm (sc_device_key_hash c))])%list.

Definition get (t : spawn_table) (hash : string) : option SpawnContext := select_one (of_hash hash) t.

Definition list_contexts (t : spawn_table) : list SpawnContext := order_by sc_created_at t.

Definition delete (t : spawn_table) (hash : string) : spawn_table * bool :=
  let '(t, n) := delete_where (of_hash hash) t in (t, (0 <? n)%nat).

(** ** Claims *)

Definition CREATE_CLAIM_TTL : Z := 600 * 10 ^ 9.

(** The claim is ours, or a creation is in flight. *)
Definition claim_create_in (claims : gmap string Z) (hash : string) (now : Z) : gmap string Z * bool :=
  let claims := filter (fun kv => Z.max 0 (now - kv.2) < CREATE_CLAIM_TTL) claims in
  match claims !! hash with
  | Some _ => (claims, false)
  | None => (<[hash := now]> claims, true)
  end.

Definition MARGIN_MS : Z := 5000.
Definition FALLBACK_MS : Z := 120000.

Definition wake_replay_since (event_ts_ms : option Z) (now_ms : Z) : Z :=
  match event_ts_ms with
  | Some t => if 0 <? t then u64_saturating_sub t MARGIN_MS else u64_saturating_sub now_ms FALLBACK_MS
  | None => u64_saturating_sub now_ms FALLBACK_MS
  end.

Definition rows_to_wake `{BoundJson} (rows : list SpawnContext) (channel : string) : list SpawnContext :=
  List.filter (fun r => existsb (fun b => String.eqb (bc_channel_id b) channel && AppTemplate.reads (bc_direction b)) (bound_channels_of r))
    (List.filter (fun r => may_hibernate (availability_of r)) rows).

(** ** The handler *)

(** A creation in flight: for whom, since when, and the window it is given. *)
Record Create := { cr_hash : string; cr_at : Z; cr_actor : string; cr_operator : string; cr_since : Z }.

#[export] Instance Create_eq_dec : EqDecision Create.
Proof. solve_decision. Defined.

(** The broker: the rows, the claims, and the creations that run apart from any request. *)
Record Broker := { contexts : spawn_table; claims : gmap string Z; creates : list Create }.

(** What a row meets outside: the chain's record of a key hash, the instances that run for
    it, the instant of the claim and the time of day in milliseconds. *)
Record Outlook := {
  ol_probe : bytes -> result string DeviceRecord; ol_live : string -> bool; ol_now : Z; ol_millis : Z }.

Inductive RowOutcome := RowSkipped | RowRunning | RowJoined | RowStarted.

Section Wake.
Context `{HexCodec} `{BoundJson}.

(** Whether the chain still binds the row's key to the owner of the feed, and as whom. *)
Definition bound_to (o : Outlook) (owner : string) (row : SpawnContext) : option (string * string) :=
  match hex_decode (sc_device_key_hash row) with
  | Some hash =>
      if (length hash =? 32)%nat then
        match ol_probe o hash with
        | Ok p => if negb (is_registered p) || revoked p || negb (tier p =? 2)
                     || negb (String.eqb (hex_encode (rec_operator_omni p)) owner)
                  then None else Some ("0x" +:+ hex_encode (rec_actor_omni p), "0x" +:+ hex_encode (rec_operator_omni p))
        | Err _ => None
        end
      else None
  | None => None
  end.

Definition wake_row (o : Outlook) (owner : string) (event_ts_ms : option Z) (b : Broker) (row : SpawnContext)
    : Broker * RowOutcome :=
  match bound_to o owner row with
  | None => (b, RowSkipped)
  | Some (actor, operator) =>
      if ol_live o (sc_device_key_hash row) then (b, RowRunning)
      else
        let '(claims, ours) := claim_create_in (claims b) (sc_device_key_hash row) (ol_now o) in
        if ours then
          ({| contexts := contexts b; claims := claims;
              creates := (creates b ++ [{| cr_hash := sc_device_key_hash row; cr_at := ol_now o; cr_actor := actor;
                                           cr_operator := operator;
                                           cr_since := wake_replay_since event_ts_ms (ol_millis o) |}])%list |}, RowStarted)
        else ({| contexts := contexts b; claims := claims; creates := creates b |}, RowJoined)
  end.

(** The rows one after the other, each against the outside as it is then: the hashes woken
    and the rows skipped. *)
Fixpoint wake_rows (look : nat -> Outlook) (i : nat) (owner : string) (event_ts_ms : option Z) (b : Broker)
    (rows : list SpawnContext) : Broker * (list string * nat) :=
  match rows with
  | [] => (b, ([], 0%nat))
  | row :: rows =>
      let '(b, outcome) := wake_row (look i) owner event_ts_ms b row in
      let '(b, (woken, skipped)) := wake_rows look (S i) owner event_ts_ms b rows in
      (b, match outcome with
          | RowSkipped => (woken, S skipped)
          | RowRunning => (woken, skipped)
          | RowJoined | RowStarted => (sc_device_key_hash row :: woken, skipped)
          end)
  end.

Definition sandbox_wake (wake_token : string) (authorization : option string) (backend : bool)
    (chain_config : result string unit) (look : nat -> Outlook) (b : Broker) (req : WakeRequest)
    : Broker * result BrokerError (list string * nat) :=
  if String.eqb wake_token "" then
    (b, Err (Internal "sandbox wake not configured: BROKER_CHANNEL_WAKE_TOKEN_FILE is unset; configure the same protected token for the broker and channel worker"))
  else match authorization ≫= extract_bearer_token with
  | None => (b, Err (Unauthorized "missing Authorization header"))
  | Some got =>
      if negb (String.eqb got wake_token) then (b, Err (Unauthorized "wake bearer invalid"))
      else
        let channel := utrim (wr_channel_id req) in
        if String.eqb channel "" then (b, Err (BadRequest "channel_id is empty"))
        else if negb backend then (b, Ok ([], 0%nat))
        else match rows_to_wake (list_contexts (contexts b)) channel with
             | [] => (b, Ok ([], 0%nat))
             | rows => match chain_config with
                       | Err e => (b, Err (Internal e))
                       | Ok _ => let '(b, out) := wake_rows look 0 (norm_omni (wr_owner_omni req)) (wr_event_ts_ms req) b rows in
                                 (b, Ok out)
                       end
             end
  end.

Fixpoint take_out (c : Create) (l : list Create) : option (list Create) :=
  match l with
  | [] => None
  | x :: l => if bool_decide (x = c) then Some l else cons x <$> take_out c l
  end.

(** A creation that runs ends, however it went, and whatever claim its delegate has is
    gone. *)
Definition create_ends (c : Create) (b : Broker) : Broker :=
  match take_out c (creates b) with
  | Some rest => {| contexts := contexts b; claims := base.delete (cr_hash c) (claims b); creates := rest |}
  | None => b
  end.

(** What happens to a broker: a row is visited by some wake, a creation ends, a context is
    written or removed. *)
Inductive Step :=
| RowVisited (o : Outlook) (owner : string) (event_ts_ms : option Z) (row : SpawnContext)
| CreateEnds (c : Create)
| ContextWritten (c : SpawnContext)
| ContextDeleted (hash : string).

Definition with_contexts (b : Broker) (t : spawn_table) : Broker :=
  {| contexts := t; claims := claims b; creates := creates b |}.

Definition step (b : Broker) (s : Step) : Broker :=
  match s with
  | RowVisited o owner ts row => (wake_row o owner ts b row).1
  | CreateEnds c => create_ends c b
  | ContextWritten c => with_contexts b (upsert (contexts b) c)
  | ContextDeleted hash => with_contexts b (delete (contexts b) hash).1
  end.

Definition run (b : Broker) (steps : list Step) : Broker := fold_left step steps b.

(** A broker that just started: no claim, nothing in flight. *)
Definition started (t : spawn_table) : Broker := {| contexts := t; claims := ∅; creates := [] |}.
End Wake.

(** * Properties *)

(** ** The table *)

Lemma find_filter_weaker {A} (p q : A -> bool) (l : list A) : (forall x, p x = true -> q x = true) ->
  List.find p (List.filter q l) = List.find p l.
Proof.
  intros Hpq. induction l as [|x l IH]; [done|]. cbn [List.filter List.find].
  destruct (q x) eqn:Eq; cbn [List.find]; rewrite IH; [done|]. destruct (p x) eqn:Ep; [|done]. by rewrite (Hpq x Ep) in Eq.
Qed.

Lemma get_delete (t : spawn_table) (hash hash' : string) :
  get (delete t hash).1 hash' = if String.eqb (norm hash) (norm hash') then None else get t hash'.
Proof.
  unfold get, delete, delete_where. cbn [fst]. destruct (String.eqb_spec (norm hash) (norm hash')) as [E|E].
  - apply select_one_none. intros r [Hr _]%elem_of_filterb. unfold of_hash in *. rewrite <-E. by apply negb_true_iff in Hr.
  - apply find_filter_weaker. unfold of_hash. intros r ->%String.eqb_eq. by apply negb_true_iff, String.eqb_neq, not_eq_sym.
Qed.

Lemma get_upsert (t : spawn_table) (c : SpawnContext) (hash : string) :
  get (upsert t c) hash =
  if String.eqb (norm (sc_device_key_hash c)) (norm hash) then Some (with_hash c (norm (sc_device_key_hash c))) else get t hash.
Proof.
  unfold upsert, get at 1. rewrite select_one_snoc. change ((delete_where (of_hash (sc_device_key_hash c)) t).1)
    with (delete t (sc_device_key_hash c)).1. pose proof (get_delete t (sc_device_key_hash c) hash) as Hd. unfold get at 1 in Hd.
  rewrite Hd. unfold of_hash. cbn [with_hash sc_device_key_hash].
  destruct (String.eqb (norm (sc_device_key_hash c)) (norm hash)); [done|]. by destruct (get t hash).
Qed.

(** A database that keeps secrets is refused and left as it was; any other comes out with
    the columns of today and no retired one. *)
Lemma init_schema_exact (db : SpawnDb) :
  match init_schema db with
  | (db', Err _) => db' = db /\ exists s, Some s ∈ db_secrets db /\ s <> ""
  | (db', Ok _) => db_rows db' = db_rows db /\ forall c, has_column db' c = true ->
        existsb (String.eqb c) RETIRED_COLUMNS = false
  end.
Proof.
  unfold init_schema, reject_legacy_keys. destruct (has_column db "k10_secret_hex" && _) eqn:E.
  - split; [done|]. apply andb_true_iff in E as [_ E]. apply existsb_exists in E as (s & Hs & Hne).
    apply list_elem_of_In in Hs. destruct s as [s|]; [|done]. exists s. split; [done|]. intros ->. done.
  - split; [done|]. intros c. unfold has_column. cbn [db_columns default]. rewrite existsb_exists.
    intros (c' & Hc & ->%String.eqb_eq). apply filter_In in Hc as [_ Hc]. by apply negb_true_iff in Hc.
Qed.

(** ** The time an event's id tells *)

Lemma number_reads max s : forall acc, digits dec_value s -> 0 <= acc -> number 10 dec_value acc s <= max ->
  digits_radix 10 max dec_value acc s = Ok (number 10 dec_value acc s).
Proof.
  destruct dec_digit_facts as [Hr _].
  induction s as [|c s IH]; intros acc Hd Hacc Hmax; [done|]. apply digits_cons in Hd as [[d Hc] Hs].
  pose proof (Hr c ltac:(eauto)) as Hd. unfold digit_value in Hd. cbn [digits_radix number] in *.
  unfold digit_value at 1 in Hmax. unfold digit_value at 1. rewrite Hc in *. cbn [default from_option id] in *.
  pose proof (number_shift 10 dec_value ltac:(lia) s (acc * 10 + d)) as Hsh.
  pose proof (number_bound 10 dec_value ltac:(lia) Hr s Hs) as Hb.
  pose proof (Z.pow_pos_nonneg 10 (Z.of_nat (String.length s)) ltac:(lia) ltac:(lia)) as Hp.
  rewrite (proj2 (Z.leb_le _ _)) by nia. apply IH; [done | lia | done].
Qed.

Lemma split_head c s t : string_has c s = false -> head (split_char c (s +:+ String c t)) = Some s.
Proof.
  induction s as [|a s IH]; intros Hs; rewrite ?append_cons; cbn [split_char].
  - change ("" +:+ String c t) with (String c t). cbn [split_char]. by rewrite Ascii.eqb_refl.
  - change (String a s) with (String a "" +:+ s) in Hs. rewrite string_has_app in Hs. apply orb_false_iff in Hs as [Ha Hs].
    unfold string_has in Ha. cbn [string_all] in Ha. rewrite andb_true_r, negb_involutive, Ascii.eqb_sym in Ha. rewrite Ha. specialize (IH Hs).
    destruct (split_char c (s +:+ String c t)) as [|w ws]; [done|]. cbn [head] in *. by injection IH as ->.
Qed.

Lemma digits_no_dash s : digits dec_value s -> string_has "-"%char s = false.
Proof.
  induction s as [|c s IH]; [done|]. intros [[d Hc] Hs]%digits_cons. change (String c s) with (String c "" +:+ s).
  rewrite string_has_app, (IH Hs), orb_false_r. unfold string_has. cbn [string_all].
  destruct (Ascii.eqb_spec "-"%char c) as [<-|]; done.
Qed.

(** The worker tells the broker the millisecond of the event it stored. *)
Lemma wake_request_time cap channel millis seq : id_typed millis seq ->
  wr_event_ts_ms (wake_request cap channel (make_id millis seq)) = Some millis.
Proof.
  intros [Hm Hs]. destruct (millis_numeral millis Hm) as (Hl & Hd & Hn). unfold wake_request, make_id. cbn [wr_event_ts_ms].
  change ("-" +:+ zero_pad 16 (lower_hex seq)) with (String "-"%char (zero_pad 16 (lower_hex seq))).
  rewrite split_head by by apply digits_no_dash. cbn [mbind option_bind]. unfold u64_dec, from_str_radix.
  set (s := zero_pad 13 (dec millis)) in *.
  assert (Hr : digits_radix 10 u64_max dec_value 0 s = Ok millis).
  { rewrite number_reads; [by rewrite Hn | done | lia | rewrite Hn; unfold u64_max; lia]. }
  destruct s as [|c s']; [done|]. apply digits_cons in Hd as [Hc _].
  assert (Ascii.eqb c "+"%char = false /\ Ascii.eqb c "-"%char = false) as [-> ->].
  { split; apply Ascii.eqb_neq; intros ->; by destruct Hc. }
  cbn [orb andb]. by rewrite Hr.
Qed.

(** ** Claims and creations *)

(** Whatever has a claim has the creation that made it, and it still runs. *)
Definition claims_backed (b : Broker) : Prop := forall h t, claims b !! h = Some t ->
  exists c, c ∈ creates b /\ cr_hash c = h /\ cr_at c = t.

Definition fresh_claims (m : gmap string Z) (now : Z) : gmap string Z :=
  filter (fun kv => Z.max 0 (now - kv.2) < CREATE_CLAIM_TTL) m.

Lemma take_out_perm c l : forall l', take_out c l = Some l' -> l ≡ₚ c :: l'.
Proof.
  induction l as [|x l IH]; intros l'; cbn [take_out]; [done|]. case_bool_decide as E; [by intros [= <-]; subst|].
  destruct (take_out c l) as [k|]; [|done]. intros [= <-]. rewrite (IH k) by done. apply Permutation_swap.
Qed.

Lemma take_out_some c l : c ∈ l -> is_Some (take_out c l).
Proof.
  induction l as [|x l IH]; [by intros ?%elem_of_nil|]. cbn [take_out]. case_bool_decide as E; [done|].
  intros [->|Hc]%elem_of_cons; [done|]. destruct (IH Hc) as [k ->]. by eexists.
Qed.

Section WakeFacts.
Context `{HexCodec} `{BoundJson}.

(** What a visit does to the broker, by its outcome. *)
Lemma wake_row_does o owner ts b row :
  let '(b', outcome) := wake_row o owner ts b row in
  match outcome with
  | RowSkipped => b' = b /\ bound_to o owner row = None
  | RowRunning => b' = b /\ ol_live o (sc_device_key_hash row) = true
  | RowJoined => contexts b' = contexts b /\ creates b' = creates b /\ claims b' = fresh_claims (claims b) (ol_now o)
                 /\ is_Some (fresh_claims (claims b) (ol_now o) !! sc_device_key_hash row)
  | RowStarted => exists c, bound_to o owner row = Some (cr_actor c, cr_operator c) /\ cr_hash c = sc_device_key_hash row
      /\ cr_at c = ol_now o /\ cr_since c = wake_replay_since ts (ol_millis o)
      /\ contexts b' = contexts b /\ creates b' = (creates b ++ [c])%list
      /\ claims b' = <[cr_hash c := ol_now o]> (fresh_claims (claims b) (ol_now o))
      /\ fresh_claims (claims b) (ol_now o) !! cr_hash c = None
  end.
Proof.
  unfold wake_row. destruct (bound_to o owner row) as [[actor operator]|] eqn:Eb; [|done].
  destruct (ol_live o (sc_device_key_hash row)) eqn:El; [done|]. unfold claim_create_in. fold (fresh_claims (claims b) (ol_now o)).
  destruct (fresh_claims (claims b) (ol_now o) !! sc_device_key_hash row) eqn:Ec; [by eauto|].
  by exists (Build_Create (sc_device_key_hash row) (ol_now o) actor operator (wake_replay_since ts (ol_millis o))).
Qed.

Lemma fresh_lookup m now h t : fresh_claims m now !! h = Some t -> m !! h = Some t /\ Z.max 0 (now - t) < CREATE_CLAIM_TTL.
Proof. unfold fresh_claims. by rewrite map_lookup_filter_Some. Qed.

Lemma wake_row_backed o owner ts b row : claims_backed b -> claims_backed (wake_row o owner ts b row).1.
Proof.
  intros Hb. pose proof (wake_row_does o owner ts b row) as Hd. destruct (wake_row o owner ts b row) as [b' []]; cbn [fst].
  1, 2: by destruct Hd as [-> _].
  - destruct Hd as (_ & Hc & Hm & _). intros h t. rewrite Hm, Hc. intros [Hl _]%fresh_lookup. by apply Hb.
  - destruct Hd as (c & _ & Hh & Hat & _ & _ & Hc & Hm & _). intros h t. rewrite Hm, Hc.
    intros [[<- <-]|[_ [Hl _]%fresh_lookup]]%lookup_insert_Some.
    + exists c. by split; [apply elem_of_app; right; apply list_elem_of_singleton|].
    + destruct (Hb h t Hl) as (d & Hd & Hrest). exists d. by split; [apply elem_of_app; left|].
Qed.

Lemma step_backed b s : claims_backed b -> claims_backed (step b s).
Proof.
  intros Hb. destruct s as [o owner ts row|c|c|hash]; cbn [step]; [by apply wake_row_backed | | exact Hb | exact Hb].
  unfold create_ends. destruct (take_out c (creates b)) as [rest|] eqn:E; [|done]. apply take_out_perm in E.
  intros h t. cbn [claims creates]. intros [Hne Hl]%lookup_delete_Some. destruct (Hb h t Hl) as (d & Hd & Hh & Hat). exists d. split; [|done].
  rewrite E in Hd. apply elem_of_cons in Hd as [->|Hd]; [by destruct Hne|done].
Qed.

Lemma run_backed trace : forall b, claims_backed b -> claims_backed (run b trace).
Proof. induction trace as [|s trace IH]; intros b Hb; [done|]. by apply IH, step_backed. Qed.

Lemma started_backed t : claims_backed (started t).
Proof. intros h x. cbn. by rewrite lookup_empty. Qed.

(** ** Windows *)

(** What is in flight for [h] replays from [stamp] on, at the latest. *)
Definition opens_by (h : string) (stamp : Z) (b : Broker) : Prop :=
  forall c, c ∈ creates b -> cr_hash c = h -> cr_since c <= stamp.

(** A wake at [now] that names a time, or none, opens its window by [stamp]. *)
Definition timely (stamp now : Z) (ts : option Z) : Prop :=
  match ts with Some t => 0 < t <= stamp + MARGIN_MS | None => now <= stamp + FALLBACK_MS end.

Lemma timely_opens stamp now ts : 0 <= stamp -> timely stamp now ts -> wake_replay_since ts now <= stamp.
Proof.
  unfold timely, wake_replay_since, u64_saturating_sub. intros Hs. destruct ts as [t|]; [|lia].
  intros Ht. rewrite (proj2 (Z.ltb_lt _ _)) by lia. lia.
Qed.

Lemma wake_row_opens h stamp o owner ts b row : 0 <= stamp -> (sc_device_key_hash row = h -> timely stamp (ol_millis o) ts) ->
  opens_by h stamp b -> opens_by h stamp (wake_row o owner ts b row).1.
Proof.
  intros Hs Ht Hb. pose proof (wake_row_does o owner ts b row) as Hd. destruct (wake_row o owner ts b row) as [b' []]; cbn [fst].
  1, 2: by destruct Hd as [-> _].
  - destruct Hd as (_ & Hc & _). intros c. rewrite Hc. apply Hb.
  - destruct Hd as (c & _ & Hh & _ & Hsince & _ & Hc & _). intros d. rewrite Hc.
    intros [Hd| ->%list_elem_of_singleton]%elem_of_app Hdh; [by apply Hb|]. rewrite Hsince. apply timely_opens, Ht; congruence.
Qed.

Lemma run_opens h stamp trace : forall b, 0 <= stamp ->
  (forall o owner ts row, RowVisited o owner ts row ∈ trace -> sc_device_key_hash row = h -> timely stamp (ol_millis o) ts) ->
  opens_by h stamp b -> opens_by h stamp (run b trace).
Proof.
  induction trace as [|s trace IH]; intros b Hs Ht Hb; [done|]. apply IH; [done | |].
  { intros o owner ts row Hin. apply (Ht o owner). by right. }
  destruct s as [o owner ts row|c|c|hash]; cbn [step]; [|  |exact Hb|exact Hb].
  - apply wake_row_opens; [done | | done]. apply (Ht o owner). by left.
  - unfold create_ends. destruct (take_out c (creates b)) as [rest|] eqn:E; [|done]. apply take_out_perm in E.
    intros d Hd. apply Hb. rewrite E. by right.
Qed.

(** A row the chain binds and that has no instance ends its visit with a creation in
    flight whose window is open by [stamp]. *)
Lemma wake_row_covers stamp o owner ts b row : 0 <= stamp -> timely stamp (ol_millis o) ts -> claims_backed b ->
  opens_by (sc_device_key_hash row) stamp b -> is_Some (bound_to o owner row) -> ol_live o (sc_device_key_hash row) = false ->
  let '(b', outcome) := wake_row o owner ts b row in
  (outcome = RowJoined \/ outcome = RowStarted) /\
  exists c, c ∈ creates b' /\ cr_hash c = sc_device_key_hash row /\ cr_since c <= stamp.
Proof.
  intros Hs Ht Hb Ho [p Hp] Hl. pose proof (wake_row_does o owner ts b row) as Hd.
  destruct (wake_row o owner ts b row) as [b' []]; [destruct Hd; congruence..| |].
  - destruct Hd as (_ & Hc & _ & [t [Hm _]%fresh_lookup]). destruct (Hb _ _ Hm) as (c & Hin & Hh & _).
    split; [by left|]. exists c. rewrite Hc. split_and!; [done..|]. by apply Ho.
  - destruct Hd as (c & _ & Hh & _ & Hsince & _ & Hc & _). split; [by right|]. exists c. rewrite Hc, Hsince.
    split_and!; [by apply elem_of_app; right; apply list_elem_of_singleton | done | by apply timely_opens].
Qed.

Lemma wake_rows_cons look i owner ts b row rows :
  let b1 := (wake_row (look i) owner ts b row).1 in
  (wake_rows look i owner ts b (row :: rows)).1 = (wake_rows look (S i) owner ts b1 rows).1 /\
  ((wake_row (look i) owner ts b row).2 = RowJoined \/ (wake_row (look i) owner ts b row).2 = RowStarted ->
   sc_device_key_hash row ∈ (wake_rows look i owner ts b (row :: rows)).2.1) /\
  (forall h, h ∈ (wake_rows look (S i) owner ts b1 rows).2.1 -> h ∈ (wake_rows look i owner ts b (row :: rows)).2.1).
Proof.
  cbn [wake_rows]. destruct (wake_row (look i) owner ts b row) as [b1 outcome]. cbn [fst snd].
  destruct (wake_rows look (S i) owner ts b1 rows) as [b2 [woken skipped]]. cbn [fst snd]. split; [done|].
  destruct outcome; cbn [fst]; split; try (by intros [|]); try done; intros; rewrite elem_of_cons; tauto.
Qed.

Lemma wake_rows_grow look owner ts rows : forall i b c, c ∈ creates b -> c ∈ creates (wake_rows look i owner ts b rows).1.
Proof.
  induction rows as [|row rows IH]; intros i b c Hc; [done|]. destruct (wake_rows_cons look i owner ts b row rows) as [-> _].
  apply IH. pose proof (wake_row_does (look i) owner ts b row) as Hd.
  destruct (wake_row (look i) owner ts b row) as [b' []]; cbn [fst]; [by destruct Hd as [-> _] ..| |].
  - by destruct Hd as (_ & -> & _).
  - destruct Hd as (d & _ & _ & _ & _ & _ & -> & _). by apply elem_of_app; left.
Qed.

Lemma wake_rows_cover stamp look owner ts row k rows : forall i b, 0 <= stamp ->
  (forall j, timely stamp (ol_millis (look j)) ts) -> claims_backed b -> opens_by (sc_device_key_hash row) stamp b ->
  rows !! k = Some row -> is_Some (bound_to (look (i + k)%nat) owner row) -> ol_live (look (i + k)%nat) (sc_device_key_hash row) = false ->
  let '(b', (woken, _)) := wake_rows look i owner ts b rows in
  sc_device_key_hash row ∈ woken /\
  exists c, c ∈ creates b' /\ cr_hash c = sc_device_key_hash row /\ cr_since c <= stamp.
Proof.
  revert k. induction rows as [|r rows IH]; intros k i b Hs Ht Hb Ho Hk Hp Hl; [done|].
  pose proof (wake_rows_cons look i owner ts b r rows) as (Hfst & Hout & Hin).
  pose proof (wake_rows_grow look owner ts rows (S i) (wake_row (look i) owner ts b r).1) as Hg.
  destruct k as [|k].
  - injection Hk as ->. rewrite Nat.add_0_r in *.
    pose proof (wake_row_covers stamp (look i) owner ts b row Hs (Ht i) Hb Ho Hp Hl) as Hc.
    destruct (wake_rows look i owner ts b (row :: rows)) as [b' [woken skipped]]. cbn [fst snd] in *. subst b'.
    destruct (wake_row (look i) owner ts b row) as [b1 outcome]. destruct Hc as (Hoc & c & Hc & Hrest).
    split; [by apply Hout|]. exists c. by split; [apply Hg|].
  - replace (i + S k)%nat with (S i + k)%nat in * by lia.
    pose proof (IH k (S i) _ Hs Ht (wake_row_backed (look i) owner ts b r Hb)
      (wake_row_opens _ stamp (look i) owner ts b r Hs (fun _ => Ht i) Ho) Hk Hp Hl) as Hc.
    destruct (wake_rows look i owner ts b (r :: rows)) as [b' [woken skipped]]. cbn [fst snd] in *. subst b'.
    destruct (wake_rows look (S i) owner ts _ rows) as [b2 [woken2 skipped2]]. cbn [fst snd] in *.
    destruct Hc as [Hw Hc]. by split; [apply Hin|].
Qed.
End WakeFacts.


(** ** One creation for each delegate *)

(** No visit of the history finds a creation as old as a claim may get. *)
Definition within_claims (b : Broker) (s : Step) : bool :=
  match s with
  | RowVisited o _ _ _ => forallb (fun c => ol_now o - cr_at c <? CREATE_CLAIM_TTL) (creates b)
  | _ => true
  end.

Fixpoint prompt `{HexCodec} `{BoundJson} (b : Broker) (trace : list Step) : bool :=
  match trace with
  | [] => true
  | s :: trace => within_claims b s && prompt (step b s) trace
  end.

Record one_each (b : Broker) : Prop := {
  oe_claimed : forall c, c ∈ creates b -> claims b !! cr_hash c = Some (cr_at c);
  oe_nodup : NoDup (cr_hash <$> creates b) }.

Lemma step_one_each `{HexCodec} `{BoundJson} b s :
  within_claims b s = true -> one_each b -> one_each (step b s).
Proof.
  intros Hp [Hc Hn]. destruct s as [o owner ts row|c|c|hash]; cbn [step within_claims] in *; [|  |by split|by split].
  - rewrite forallb_forall in Hp. pose proof (wake_row_does o owner ts b row) as Hd.
    assert (Hk : forall c, c ∈ creates b -> fresh_claims (claims b) (ol_now o) !! cr_hash c = Some (cr_at c)).
    { intros c Hin. unfold fresh_claims. apply map_lookup_filter_Some. split; [by apply Hc|]. cbn [snd].
      apply list_elem_of_In, Hp, Z.ltb_lt in Hin. unfold CREATE_CLAIM_TTL in *. lia. }
    destruct (wake_row o owner ts b row) as [b' []]; cbn [fst]; [by destruct Hd as [-> _]; split ..| |].
    + destruct Hd as (_ & Hcr & Hm & _). split; rewrite Hcr; [by rewrite Hm|done].
    + destruct Hd as (d & _ & _ & Hat & _ & _ & Hcr & Hm & Hnone). split.
      * intros c. rewrite Hcr, Hm. intros [Hin| ->%list_elem_of_singleton]%elem_of_app.
        -- rewrite lookup_insert_ne; [by apply Hk|]. intros E. specialize (Hk c Hin). congruence.
        -- by rewrite lookup_insert_eq, Hat.
      * rewrite Hcr, fmap_app. apply NoDup_app. split_and!; [done | | by apply NoDup_singleton].
        intros h (c & -> & Hin)%list_elem_of_fmap E%list_elem_of_singleton. specialize (Hk c Hin). congruence.
  - unfold create_ends. destruct (take_out c (creates b)) as [rest|] eqn:E; [|by split]. apply take_out_perm in E.
    rewrite E in Hn. cbn [fmap list_fmap] in Hn. apply NoDup_cons in Hn as [Hnew Hn]. split; cbn [creates claims]; [|done].
    intros d Hd. rewrite lookup_delete_ne; [apply Hc; rewrite E; by right|].
    intros Eh. apply Hnew. rewrite Eh. by apply list_elem_of_fmap_2.
Qed.

(** While creations end within the life of a claim, no delegate has two in
    flight, and each in flight has its claim. *)
Theorem one_create_each `{HexCodec} `{BoundJson} (t : spawn_table) (trace : list Step) :
  prompt (started t) trace = true ->
  let b := run (started t) trace in
  NoDup (cr_hash <$> creates b) /\ forall c, c ∈ creates b -> claims b !! cr_hash c = Some (cr_at c).
Proof.
  assert (Hs : one_each (started t)) by (split; [intros c; by rewrite elem_of_nil | constructor]).
  revert Hs. generalize (started t). induction trace as [|s trace IH]; intros b Hb; [by destruct Hb|].
  intros [Hp Ht]%andb_true_iff. apply IH; [by apply step_one_each | done].
Qed.

(** ** A run at concrete inputs *)

Module ToyWake.
#[export] Instance bound_json : BoundJson :=
  {| bound_from_str s :=
       Some [{| bc_slot := "door"; bc_kind := Messaging; bc_direction := SessionScope.Sub; bc_channel_id := s;
                bc_event_kinds := []; bc_endpoint := None; bc_default_app := None |}] |}.

Definition omni (b : Byte.byte) : bytes := repeat b 32.

Definition row (k : Ascii.ascii) : SpawnContext :=
  {| sc_device_key_hash := rep64 k; sc_label := "dog"; sc_chat_channel_id := "opchat-dog"; sc_k10_address := "";
     sc_memory_ns := ""; sc_created_at := 1; sc_preset_id := "dog"; sc_bound_channels_json := "entry-cam";
     sc_availability := "wake-on-event"; sc_memory_namespaces := ""; sc_tz_offset_minutes := 0;
     sc_context_version := 0; sc_context_hash := "" |}.

Definition device : DeviceRecord :=
  {| rec_operator_omni := omni Byte.xaa; rec_actor_omni := omni Byte.xbb; k11_cred_id := []; k11_rp_id_hash := [];
     k11_pub_x := []; k11_pub_y := []; tier := 2; roles := 0; registered_at := 7; last_sign_count := 0;
     revoked := false |}.

Definition look (now : Z) : Outlook :=
  {| ol_probe := fun _ => Ok device; ol_live := fun _ => false; ol_now := now * 10 ^ 9; ol_millis := 1790000000000 + now * 1000 |}.

Definition owner : string := rep64 "a"%char.

Definition visit (k : Ascii.ascii) (now : Z) : Step := RowVisited (look now) owner (Some (1790000000000 + now * 1000)) (row k).

Definition cap : CapToken :=
  {| payload := sample_payload owner (rep64 "b"%char) "channel-pub:entry-cam" ChannelPublish Channel (rep64 "d"%char);
     broker_sig := ""; client_sig := None; client_nonce := None; client_ts := None; delegation_path := None |}.
End ToyWake.

#[local] Existing Instances SimpleHex.codec ToyWake.bound_json.


Example one_create_each_witness :
  let b := run (started [ToyWake.row "1"%char]) [ToyWake.visit "1"%char 3; ToyWake.visit "2"%char 4; ToyWake.visit "1"%char 9] in
  length (creates b) = 2%nat /\ NoDup (cr_hash <$> creates b) /\ forall c, c ∈ creates b -> claims b !! cr_hash c = Some (cr_at c).
Proof.
  split; [by vm_compute|].
  apply (one_create_each [ToyWake.row "1"%char] [ToyWake.visit "1"%char 3; ToyWake.visit "2"%char 4; ToyWake.visit "1"%char 9]).
  by vm_compute.
Defined.

(** A creation that outlives its claim takes, when it ends, the claim of the one that
    followed it: a third starts next to the second. *)
Example overlong_create_frees_anothers_claim :
  let first := Build_Create (rep64 "1"%char) 0 ("0x" +:+ rep64 "b"%char) ("0x" +:+ rep64 "a"%char) 1789999995000 in
  let b := run (started []) [ToyWake.visit "1"%char 0; ToyWake.visit "1"%char 600; CreateEnds first; ToyWake.visit "1"%char 601] in
  map cr_at (creates b) = [600 * 10 ^ 9; 601 * 10 ^ 9].
Proof. by vm_compute. Qed.
